(* ===== verification/_CoqProject ===== *)
-Q . S2P
Prelude.v
Bbox.v
Sfc.v
SfcTranspose.v
SfcCurve.v
BboxIntv.v
BboxRing.v
Matrix.v
ObjDesc.v
Storage.v
Sspace.v
Locks.v
Server.v
Client.v
HashService.v
System.v
SystemGet.v
Deployment.v
Service.v
DimesBuf.v
DimesMeta.v
Rdma.v
DimesStore.v
DimesClient.v
DimesFetch.v
DimesGet.v
Conf.v
RpcIb.v
DimesSystem.v
Barrier.v
LockSystem.v
Interface.v
Membership.v
MembershipSystem.v
RpcTcp.v
TcpMembership.v
TcpStart.v
TcpBoot.v
