(* ===== verification/Prelude.v ===== *)
(** * DataSpaces: a shared space of n-dimensional arrays, verified

    DataSpaces keeps the arrays of coupled simulations in memory.  Clients
    put boxes of named, versioned arrays and get boxes back.  There are two
    ways to do so.  In the first the servers store the data: a put goes to
    one server, which stores the object and tells the servers responsible
    for the cells of its box (the distributed hash table, DHT); a get asks
    a server for the responsible servers, those for descriptors, and the
    owners for the data.  In the second, DIMES, the client keeps the data
    it puts and the servers only know locations; a get reads the pieces
    from the memory of other clients with RDMA.  A lock service orders
    writers and readers.  Below, a transport moves messages and data, and a
    membership protocol numbers the processes and tells them of each other.

    The model is a shallow embedding: structs are records, operations are
    functions that return the new state, messages sent and return code,
    [option] is used for behaviour the C standard does not define (reading
    past an array, a NULL dereference) and for loops that run out of the
    bound given as fuel.  Allocation, transport and the contents of remote
    memory are parameters of the operations ([server_env], [get_net],
    [lock_env], [mem_env], [client_env]); the theorems state what they need
    of them.  Where order matters, processes and messages form a step
    relation and the theorems hold for all its runs ([System], [Barrier],
    [RpcIb], [DimesSystem], [LockSystem], [MembershipSystem], [RpcTcp],
    [TcpMembership], [TcpStart], [TcpBoot]).

    ** Files

    - [Prelude]: machine integers, error codes, tactics, hints, lists and
      little-endian byte fields.
    - [Bbox] (include/bbox.h, src/bbox.c): boxes, their intersection,
      division and volume.
    - [Sfc], [SfcTranspose], [SfcCurve] (include/sfc.h): the Hilbert curve on
      64-bit words; the optimised bit transposition against its reference;
      the curve as a bijection.
    - [BboxIntv], [BboxRing] (src/bbox.c): the intervals of the curve that
      cover a box, with a linked queue and with the growing ring buffer.
    - [Matrix], [ObjDesc] (src/ss_data.c): strided copies, descriptors, data
      objects and their assembly from pieces.
    - [Storage] (src/ss_data.c): the versioned object table of a server
      ([ls_*]) and the descriptor table of a DHT entry ([dht_*]).
    - [Sspace] (src/ss_data.c): the two distributions of cells over servers
      ([ssd_alloc], [ssd_hash]) and the cache; [HashService] is the interface
      between them and the servers.
    - [Locks] (src/ds_gspace.c): the three lock disciplines.
    - [Server] (src/ds_gspace.c): the request handlers of a server.
    - [Conf] (src/ds_gspace.c): the parser of the configuration file, in its
      line buffer, and the start of a server from a file.
    - [Client] (src/dc_gspace.c): transactions, put and get of a client.
    - [System], [SystemGet], [Deployment], [Service]: servers and messages as
      a step relation, the get against it, and the theorems about both.
    - [DimesBuf] (src/dimes_data.c): the allocator of a client's buffer and
      its checkpoint.
    - [DimesMeta] (src/dimes_data.c, src/dimes_server.c): the locations a
      server keeps and its handlers.
    - [Rdma] (dart/ib/dart_rdma_ib.c, src/dimes_client.c): read transactions,
      the reads of a sub-array, the credit loop of the adapter.
    - [DimesStore] (src/dimes_client.c): RDMA memory and its accounting, the
      objects of a client by group and version, checkpoint and restart.
    - [DimesClient], [DimesFetch], [DimesGet] (src/dimes_client.c): put, the
      location of data, the fetch loop, and the whole get.
    - [DimesSystem]: clients that put, servers that keep the locations, and
      the get of another client against both.
    - [RpcIb] (dart/ib/dart_rpc_ib.c): requests, messages, their counts,
      callbacks and memory regions, from [rpc_send] and [rpc_send_direct] to
      [rpc_cb_req_completion], with the event processing nested in sends.
    - [Barrier] (dart/ib/dart_rpc_ib.c): [rpc_barrier] of an application.
    - [LockSystem] (src/dc_gspace.c): the lock and unlock calls of groups of
      processes, over a lock service and a barrier given by interfaces
      ([LockService], [BarrierService]) that [Locks] and [Barrier] implement.
    - [Interface] (src/common_dataspaces.c, src/dc_gspace.c): the dspaces_* and
      dimes_* calls an application makes: start and end of the library, get,
      put, put in blocks, synchronisation, removal, stream metadata, kill.
    - [Membership] (dart/ib/ds_base_ib.c, dart/ib/dc_base_ib.c): the lists of
      peers of servers and clients: start, registration, announcements and
      departure; [MembershipSystem] runs them together.
    - [RpcTcp] (dart/tcp/dart_rpc_tcp.c): the same interface as [RpcIb] over
      sockets: bytes, commands and data, requests, callbacks and events.
    - [TcpMembership] (dart/tcp/ds_base_tcp.c, dart/tcp/dc_base_tcp.c): the
      handlers of the start and the end over TCP, and the end as a system of
      processes; [TcpStart]: the start as a system of processes; [TcpBoot]: the
      choice of the master server and the file with its address.

    ** What is proved

    - Geometry: intersection and division are exact on cells; the curve is a
      bijection of the cube; [bbox_to_intv2] terminates, its intervals cover
      exactly the cells of the box, and the ring buffer refines the queue;
      the fast transposition equals the reference.
    - Distribution: boxes that share a cell are hashed to a common server, for
      both versions, and [ssd_hash] returns exactly the responsible entries.
    - Data: a copy moves exactly the common cells and stays inside the
      buffers; pieces in any order assemble the array.
    - Storage: the invariants of both tables, lookups against what was added,
      exactly what an addition replaces, bounds on the versions kept.
    - Locks: mutual exclusion, no request lost or granted twice, order, and
      the rounds of the custom lock, for every sequence of requests.
    - Configuration: the parser equals a reference on the lines of every file;
      printed files are read back, and the server started from one has that
      configuration; too many coordinates leave the array.
    - Protocol: for all interleavings, data and descriptors are where they
      should be, and a get in a quiescent state returns what was put.
    - DIMES: the blocks of the allocator tile the buffer; the metadata server
      refines a set of locations; scheduled reads of less than 2^32 bytes
      give the strided copy in any order, and with errors of the adapter the
      loop still ends and reports no copy that it did not make; the accounting of RDMA memory is exact; a put stores the
      bytes and tells the servers; a fetch is safe under any behaviour of
      the adapter and ends when it makes progress; a get fills the buffer;
      both checkpoints are round trips (group names of less than 256
      characters).
    - DIMES as a whole: once the messages of the puts have arrived, a get of
      another client returns the bytes that were put.
    - Transport: whatever fails and in whatever order the adapter reports, the
      transport uses no freed request or message and runs no callback twice;
      when nothing fails every request completes and is freed.  Two faults are
      part of the statements: the head of an emptied list taken for a request,
      and a caller that frees a message in use after a failed call.
    - Barrier: nobody leaves before all have entered, and all leave.
    - Lock calls: processes of different groups are in sections at the same
      time only if they read, with late messages and failing calls, as long as
      no lock message is lost, the lock service returns 0 and no process goes
      on after a failed barrier.
    - Interface: [dspaces_get] returns the bytes [dspaces_put] was given; the
      blocks of a large put partition it when none is empty; a removal reaches every server; a
      synchronisation ends with the put it is for; the next metadata are those
      of the least later version; calls outside their bounds are refused.
    - Membership, over InfiniBand: for all orders of starts, messages and
      departures whose handlers run one after the other no handler leaves its
      buffers, ids are unique and consecutive per application, the
      servers agree, an application knows the servers and itself.
    - TCP: however the sockets split the bytes, every message is delivered
      once, in order and with its own data, when no send fails or no service
      frees a message that a failed send has freed; one server becomes the
      master and the others read its address, when the file is missing or empty
      and its text is not lost; in every order of connections and messages in
      which no application is complete before the last server has registered,
      the servers end up with the same table, each client gets its place, the
      table and the first id of its application, and the start ends; a server
      stops only when all clients have left, and all stop within a bound.
    - Deviations: theorems that show where the code does not do what it is
      for, each with a state in which it happens.

    ** Bounds and fuel

    Loops of the C code are structural recursions on the data they walk over
    wherever there is such data.  The others take fuel:
    [bbox_to_intv] and [bbox_to_intv2] one unit per box of the queue (the
    termination theorem gives a sufficient number for every box inside the
    cube); [issue_fetches] one unit per entry and one more, since each turn
    posts an entry; [fetch_loop] the same, since each turn but the last
    completes one; powers of two take one unit per bit; the parser one unit
    per character of the file, the line and the list of coordinates;
    [log2_ceil] one unit per bit of an [int]; [RpcIb] nests event processing
    at most as deep as there are polls left and gives the send loop the length
    of the list and the weight of those polls, which is proved to be enough.
    [RpcTcp] gives one unit per [send] result and byte of a transfer and per
    call of a service; its theorem says that every amount of fuel from some
    number on gives the same result.  The start over TCP is bounded by its
    theorem: [(nsp + ncp) * (nsp + 1)] steps.
    Copies are verified for one to nine dimensions: the code is wrong in the
    tenth.  The rounds of [dcg_obj_sync] are a list; running out of it is the
    result that the call still waits, and the theorem says for which lists it
    returns.
    Sizes and coordinates are below 2^64 where the code needs it, versions
    and ids below 2^31 where the code stores them in an [int].

    ** Not modelled

    Handlers of the membership protocol that run inside another handler, from
    its call of [rpc_process_event] ([MembershipSystem] shows one that goes
    wrong).
    The uGNI, PAMI and DCMF transports and the start-up over them, which do
    the same over other vendor libraries; of InfiniBand the set-up of
    connections and receive buffers (rdma_cm, ibverbs); of TCP the listening
    socket and the choice of the network interface; the choice of the master
    by MPI rank, and over InfiniBand also by files; the command line of the server; the
    Fortran bindings and the functions of dataspaces.c, which pass their
    arguments on; execution of user code in the servers (ActiveSpace); POSIX
    shared memory and the node-local index of DIMES; logging and timers.
    Values are bytes: element types and byte order are the application's. *)

From Stdlib Require Export Strings.String Strings.Byte ZArith Lia Bool.
From Stdlib Require Export List.
From stdpp Require Export base list numbers option decidable.

#[global] Open Scope Z_scope.

(** ** Machine integers

    Unsigned 64 and 32 bit integers are [Z] values reduced modulo the
    width; [s32] reads the low 32 bits of a value as a signed [int]. *)

Definition u64 (x : Z) : Z := x mod 2 ^ 64.
Definition u32 (x : Z) : Z := x mod 2 ^ 32.
Definition s32 (x : Z) : Z := (x + 2 ^ 31) mod 2 ^ 32 - 2 ^ 31.

Definition INT_MAX : Z := 2 ^ 31 - 1.

(** Values of the C [errno] constants the code returns negated. *)
Definition ENOENT : Z := 2.
Definition EAGAIN : Z := 11.
Definition ENOMEM : Z := 12.
Definition EINVAL : Z := 22.
Definition ENODATA : Z := 61.

Create HintDb ds discriminated.
#[export] Hint Constants Opaque : ds.

(** ** Tactics *)

(** Turns the boolean integer tests of the model into propositions. *)
Ltac zbool :=
  repeat match goal with
  | H : (_ && _)%bool = true |- _ => apply andb_true_iff in H as [? ?]
  | H : (_ || _)%bool = false |- _ => apply orb_false_iff in H as [? ?]
  | H : negb _ = true |- _ => apply negb_true_iff in H
  | H : negb _ = false |- _ => apply negb_false_iff in H
  | H : (_ <=? _) = true |- _ => apply Z.leb_le in H
  | H : (_ <=? _) = false |- _ => apply Z.leb_gt in H
  | H : (_ <? _) = true |- _ => apply Z.ltb_lt in H
  | H : (_ <? _) = false |- _ => apply Z.ltb_ge in H
  | H : (_ =? _) = true |- _ => apply Z.eqb_eq in H
  | H : (_ =? _) = false |- _ => apply Z.eqb_neq in H
  | H : (_ <=? _)%nat = true |- _ => apply Nat.leb_le in H
  | H : (_ <=? _)%nat = false |- _ => apply Nat.leb_gt in H
  | H : (_ <? _)%nat = true |- _ => apply Nat.ltb_lt in H
  | H : (_ <? _)%nat = false |- _ => apply Nat.ltb_ge in H
  | H : (_ =? _)%nat = true |- _ => apply Nat.eqb_eq in H
  | H : (_ =? _)%nat = false |- _ => apply Nat.eqb_neq in H
  end.

(** Case analysis on the condition of the first [if] of the goal. *)
Ltac case_if :=
  match goal with
  | |- context [if ?b then _ else _] =>
      lazymatch type of b with
      | bool => let E := fresh "E" in destruct b eqn:E
      end
  end.

(** ** Lemmas on machine integers *)

Lemma u64_small x : 0 <= x < 2 ^ 64 -> u64 x = x.
Proof. apply Z.mod_small. Qed.

Lemma u64_range x : 0 <= u64 x < 2 ^ 64.
Proof. apply Z.mod_pos_bound. lia. Qed.

Lemma u64_u64 x : u64 (u64 x) = u64 x.
Proof. apply u64_small, u64_range. Qed.

Lemma u64_mul a b : u64 (a * b) = u64 (u64 a * u64 b).
Proof. unfold u64. by rewrite <- Z.mul_mod by lia. Qed.

Lemma u32_small x : 0 <= x < 2 ^ 32 -> u32 x = x.
Proof. apply Z.mod_small. Qed.

Lemma u32_range x : 0 <= u32 x < 2 ^ 32.
Proof. apply Z.mod_pos_bound. lia. Qed.

Lemma s32_small x : - 2 ^ 31 <= x < 2 ^ 31 -> s32 x = x.
Proof. intros. unfold s32. rewrite Z.mod_small; lia. Qed.

#[export] Hint Resolve u64_range u32_range : ds.

Lemma Nat2Z_testbit n i : Z.testbit (Z.of_nat n) (Z.of_nat i) = Nat.testbit n i.
Proof.
  rewrite Z.testbit_eqb, Nat.testbit_eqb by lia.
  replace (Z.of_nat n / 2 ^ Z.of_nat i) with (Z.of_nat (n / 2 ^ i))
    by (rewrite Nat2Z.inj_div, Nat2Z.inj_pow; done).
  replace (Z.of_nat (n / 2 ^ i) mod 2) with (Z.of_nat ((n / 2 ^ i) mod 2))
    by (rewrite Nat2Z.inj_mod; done).
  destruct (Nat.eqb_spec ((n / 2 ^ i) mod 2) 1); lia.
Qed.

(** ** Arrays of integers

    [cget c i] is the C access [c[i]] for an index inside the array; [i]
    beyond the list reads 0, and every theorem that depends on a value
    carries the length of the list. *)

Definition cget (c : list Z) (i : nat) : Z := nth i c 0.
#[global] Arguments cget : simpl never.
#[global] Arguments u64 : simpl never.
#[global] Arguments s32 : simpl never.
#[global] Arguments u32 : simpl never.

Lemma cget_map_seq f n i :
  (i < n)%nat -> cget (map f (seq 0 n)) i = f i.
Proof.
  intros. unfold cget. rewrite (nth_indep _ 0 (f 0%nat)).
  - rewrite map_nth, seq_nth by lia. reflexivity.
  - rewrite length_map, length_seq. lia.
Qed.

Lemma cget_insert_eq c i v : (i < length c)%nat -> cget (<[i:=v]> c) i = v.
Proof.
  intros. unfold cget. rewrite nth_lookup, list_lookup_insert_eq by lia. done.
Qed.

Lemma cget_insert_ne c i j v : i <> j -> cget (<[i:=v]> c) j = cget c j.
Proof.
  intros. unfold cget. rewrite !nth_lookup, list_lookup_insert_ne by done. done.
Qed.

Lemma cget_ext c1 c2 :
  length c1 = length c2 ->
  (forall i, (i < length c1)%nat -> cget c1 i = cget c2 i) -> c1 = c2.
Proof. intros. eapply nth_ext with (d := 0) (d' := 0); auto. Qed.

(** ** Boolean quantifiers over a loop counter *)

Lemma forallb_seq (f : nat -> bool) n :
  forallb f (seq 0 n) = true <-> forall i, (i < n)%nat -> f i = true.
Proof.
  rewrite forallb_forall. split.
  - intros H i Hi. apply H, in_seq. lia.
  - intros H i Hi. apply in_seq in Hi. apply H. lia.
Qed.

Lemma forallb_seq_false (f : nat -> bool) n :
  forallb f (seq 0 n) = false <-> exists i, (i < n)%nat /\ f i = false.
Proof.
  split.
  - intros H. induction n as [|n IH]; [done|].
    rewrite seq_S, forallb_app in H. simpl in H.
    rewrite andb_true_r in H. apply andb_false_iff in H as [H|H].
    + destruct (IH H) as (i & ? & ?). exists i. split; [lia|done].
    + exists n. split; [lia|done].
  - intros (i & Hi & Hf). destruct (forallb f (seq 0 n)) eqn:E; [|done].
    rewrite forallb_seq in E. rewrite E in Hf by done. done.
Qed.

(** ** Filters that keep everything or nothing *)

Lemma filter_keep_all {A} (P : A -> Prop) `{!forall x, Decision (P x)} l :
  Forall P l -> filter P l = l.
Proof.
  induction 1 as [|x l Hx Hl IH]; [done|]. rewrite filter_cons_True by done. by rewrite IH.
Qed.

Lemma filter_keep_none {A} (P : A -> Prop) `{!forall x, Decision (P x)} l :
  Forall (fun x => ~ P x) l -> filter P l = [].
Proof.
  induction 1 as [|x l Hx Hl IH]; [done|]. by rewrite filter_cons_False by done.
Qed.

Lemma filter_none {A} (P : A -> Prop) `{!forall x, Decision (P x)} (l : list A) : (forall x, x ∈ l -> ~ P x) -> filter P l = [].
Proof. intros Hl. by apply filter_keep_none, list.Forall_forall. Qed.

Lemma filter_all {A} (P : A -> Prop) `{!forall x, Decision (P x)} (l : list A) : (forall x, x ∈ l -> P x) -> filter P l = l.
Proof. intros Hl. by apply filter_keep_all, list.Forall_forall. Qed.

#[export] Instance string_eq_dec : EqDecision string := String.string_dec.

(** ** Packed little-endian encodings

    [le_bytes n z] is the [n]-byte little-endian image of [z], the layout
    of an integer field of a packed C struct; [le_val] reads one back. *)

Fixpoint le_bytes (n : nat) (z : Z) : list Z :=
  match n with
  | O => []
  | S n' => z mod 256 :: le_bytes n' (z / 256)
  end.

Fixpoint le_val (l : list Z) : Z :=
  match l with
  | [] => 0
  | b :: l' => b + 256 * le_val l'
  end.

#[global] Arguments le_bytes : simpl never.
#[global] Arguments le_val : simpl never.

Lemma length_le_bytes n z : length (le_bytes n z) = n.
Proof. revert z. induction n as [|n IH]; intros z; [done|].
  change (S (length (le_bytes n (z / 256))) = S n). by rewrite IH. Qed.

Lemma le_val_bytes n z : 0 <= z < 256 ^ Z.of_nat n -> le_val (le_bytes n z) = z.
Proof.
  revert z. induction n as [|n IH]; intros z Hz; [unfold le_val, le_bytes; lia|].
  rewrite Nat2Z.inj_succ, Z.pow_succ_r in Hz by lia.
  change (z mod 256 + 256 * le_val (le_bytes n (z / 256)) = z).
  rewrite IH.
  - pose proof (Z.div_mod z 256). lia.
  - split; [apply Z.div_pos; lia|]. apply Z.div_lt_upper_bound; lia.
Qed.

(** Reading the [n] bytes that a field occupies in front of a buffer. *)
Lemma le_field n z l :
  0 <= z < 256 ^ Z.of_nat n -> le_val (take n (le_bytes n z ++ l)) = z.
Proof.
  intros Hz. rewrite take_app_length' by (symmetry; apply length_le_bytes). by apply le_val_bytes.
Qed.

Lemma drop_field n z l : drop n (le_bytes n z ++ l) = l.
Proof. apply drop_app_length'. symmetry. apply length_le_bytes. Qed.

Lemma mapM_total {A B} (f : A -> option B) (g : A -> B) l : (forall x, x ∈ l -> f x = Some (g x)) -> mapM f l = Some (map g l).
Proof.
  induction l as [|x l IH]; intros H; [done|]. cbn. rewrite H by apply list_elem_of_here. cbn.
  rewrite IH; [done|]. intros y Hy. apply H. by apply list_elem_of_further.
Qed.

Lemma delete_split {A} (l : list A) i x : l !! i = Some x -> exists l1 l2, l = l1 ++ x :: l2 /\ delete i l = l1 ++ l2.
Proof.
  intros H. exists (take i l), (drop (S i) l). split; [by rewrite take_drop_middle|]. apply delete_take_drop.
Qed.
