(* ===== verification/Bbox.v ===== *)
(** * Bounding boxes and 1-d intervals (src/bbox.c, include/bbox.h)

    Geometry of the shared space: boxes with inclusive bounds in up to
    BBOX_MAX_NDIM dimensions, the tests and set operations on them, their
    volume, their subdivision, and the 1-d intervals of the index space. *)

From S2P Require Import Prelude.

(** ** Data

    [struct coord] is an array of BBOX_MAX_NDIM words of which only the
    first [num_dims] are ever meaningful; the model keeps that prefix.
    [num_dims] is a C [int]; a negative value runs every loop zero times,
    like 0. *)

Abbreviation coord := (list Z).

Record bbox := mk_bbox {
  num_dims : nat;
  lb : coord;
  ub : coord
}.

Record intv := mk_intv { ilb : Z; iub : Z }.

#[export] Instance bbox_eq_dec : EqDecision bbox.
Proof. solve_decision. Defined.
#[export] Instance intv_eq_dec : EqDecision intv.
Proof. solve_decision. Defined.

(** ** Operations *)

Definition coord_dist (c0 c1 : coord) (dim : nat) : Z :=
  u64 (cget c1 dim - cget c0 dim + 1).

Definition bbox_dist (bb : bbox) (dim : nat) : Z :=
  coord_dist (lb bb) (ub bb) dim.

Definition bbox_divide_in2_ondim (b0 : bbox) (dim : nat) : bbox * bbox :=
  let n := Z.shiftr (u64 (cget (lb b0) dim + cget (ub b0) dim)) 1 in
  (mk_bbox (num_dims b0) (lb b0) (<[dim := n]> (ub b0)),
   mk_bbox (num_dims b0) (<[dim := u64 (n + 1)]> (lb b0)) (ub b0)).

(** The midpoint is stored in an [int]: the unsigned 64 bit value is cut to
    32 bits and read back with its sign; [n + 1] is then an [int] sum that
    is converted to [uint64_t]. *)
Definition divide_mid (b0 : bbox) (j : nat) : Z :=
  s32 (u64 (cget (lb b0) j + cget (ub b0) j) / 2).

Definition bbox_divide_sub (b0 : bbox) (i : nat) : bbox :=
  let upper j := negb (Z.land (Z.of_nat i) (Z.shiftl 1 (Z.of_nat j)) =? 0) in
  mk_bbox (num_dims b0)
    (map (fun j => if upper j then u64 (s32 (divide_mid b0 j + 1))
                   else cget (lb b0) j) (seq 0 (num_dims b0)))
    (map (fun j => if upper j then cget (ub b0) j
                   else u64 (divide_mid b0 j)) (seq 0 (num_dims b0))).

Definition bbox_divide (b0 : bbox) : list bbox :=
  map (bbox_divide_sub b0) (seq 0 (2 ^ num_dims b0)).

Definition bbox_include_ondim (b0 b1 : bbox) (dim : nat) : bool :=
  (cget (lb b0) dim <=? cget (lb b1) dim) && (cget (ub b1) dim <=? cget (ub b0) dim).

Definition bbox_include (b0 b1 : bbox) : bool :=
  forallb (bbox_include_ondim b0 b1) (seq 0 (num_dims b0)).

Definition bbox_intersect_ondim (b0 b1 : bbox) (dim : nat) : bool :=
  ((cget (lb b0) dim <=? cget (lb b1) dim) && (cget (lb b1) dim <=? cget (ub b0) dim))
  || ((cget (lb b1) dim <=? cget (lb b0) dim) && (cget (lb b0) dim <=? cget (ub b1) dim)).

Definition bbox_does_intersect (b0 b1 : bbox) : bool :=
  forallb (bbox_intersect_ondim b0 b1) (seq 0 (num_dims b0)).

(** The macros [max] and [min] of bbox.h. *)
Definition max (a b : Z) : Z := if b <? a then a else b.
Definition min (a b : Z) : Z := if a <? b then a else b.

Definition bbox_intersect (b0 b1 : bbox) : bbox :=
  mk_bbox (num_dims b0)
    (map (fun i => max (cget (lb b0) i) (cget (lb b1) i)) (seq 0 (num_dims b0)))
    (map (fun i => min (cget (ub b0) i) (cget (ub b1) i)) (seq 0 (num_dims b0))).

Definition bbox_equals (bb0 bb1 : bbox) : bool :=
  if (num_dims bb0 =? num_dims bb1)%nat then
    forallb (fun i => negb (negb (cget (lb bb0) i =? cget (lb bb1) i)
                            || negb (cget (ub bb0) i =? cget (ub bb1) i)))
            (seq 0 (num_dims bb0))
  else false.

Definition bbox_volume (bb : bbox) : Z :=
  fold_left (fun n i => u64 (n * coord_dist (lb bb) (ub bb) i))
            (seq 0 (num_dims bb)) 1.

(** [bb] is rewritten with the dimensions of [bb_glb] and shifted so that
    the lower corner of [bb_glb] becomes the origin. *)
Definition bbox_to_origin (bb bb_glb : bbox) : bbox :=
  let nd := num_dims bb_glb in
  mk_bbox nd
    (map (fun i => u64 (cget (lb bb) i - cget (lb bb_glb) i)) (seq 0 nd))
    (map (fun i => u64 (cget (ub bb) i - cget (lb bb_glb) i)) (seq 0 nd)).

Definition intv_do_intersect (i0 i1 : intv) : bool :=
  ((ilb i0 <=? ilb i1) && (ilb i1 <=? iub i0))
  || ((ilb i1 <=? ilb i0) && (ilb i0 <=? iub i1)).

Definition intv_size (i : intv) : Z := u64 (iub i - ilb i + 1).

(** [while (n) { n = n >> 1; nr_bits++; }]; 64 iterations consume every
    64 bit word. *)
Fixpoint compute_bits_loop (fuel : nat) (n nr_bits : Z) : Z :=
  match fuel with
  | O => nr_bits
  | S fuel => if n =? 0 then nr_bits
              else compute_bits_loop fuel (Z.shiftr n 1) (nr_bits + 1)
  end.

Definition compute_bits (n : Z) : Z := compute_bits_loop 65 n 0.

(** [i = ~(~0ULL >> 1); while (i && !(i&n)) i = i >> 1; i = i << 1]. *)
Fixpoint next_pow_2_loop (fuel : nat) (i n : Z) : Z :=
  match fuel with
  | O => i
  | S fuel => if negb (i =? 0) && (Z.land i n =? 0)
              then next_pow_2_loop fuel (Z.shiftr i 1) n else i
  end.

Definition next_pow_2 (n : Z) : Z :=
  u64 (Z.shiftl (next_pow_2_loop 65 (2 ^ 63) n) 1).

(** ** Well-formedness and the points of a box *)

Definition wf_bbox (b : bbox) : Prop :=
  length (lb b) = num_dims b /\ length (ub b) = num_dims b /\
  forall i, (i < num_dims b)%nat ->
    0 <= cget (lb b) i /\ cget (lb b) i <= cget (ub b) i < 2 ^ 64.

Definition in_box (b : bbox) (p : list Z) : Prop :=
  length p = num_dims b /\
  forall i, (i < num_dims b)%nat -> cget (lb b) i <= cget p i <= cget (ub b) i.

Definition in_intv (t : intv) (x : Z) : Prop := ilb t <= x <= iub t.

#[export] Instance in_intv_dec t x : Decision (in_intv t x).
Proof. unfold in_intv. apply _. Defined.

(** The lower corner is a point of a well-formed box. *)
Lemma wf_lb_in_box b : wf_bbox b -> in_box b (lb b).
Proof. intros (H1 & H2 & H3). split; [done|]. intros i Hi. specialize (H3 i Hi). lia. Qed.

Lemma wf_ub_in_box b : wf_bbox b -> in_box b (ub b).
Proof. intros (H1 & H2 & H3). split; [done|]. intros i Hi. specialize (H3 i Hi). lia. Qed.

#[export] Hint Resolve wf_lb_in_box wf_ub_in_box : ds.

Lemma bbox_ext b0 b1 :
  wf_bbox b0 -> wf_bbox b1 -> num_dims b0 = num_dims b1 ->
  (forall i, (i < num_dims b0)%nat ->
     cget (lb b0) i = cget (lb b1) i /\ cget (ub b0) i = cget (ub b1) i) ->
  b0 = b1.
Proof.
  destruct b0 as [n0 l0 u0], b1 as [n1 l1 u1].
  intros (Hl0 & Hu0 & _) (Hl1 & Hu1 & _) Hn H; cbn [num_dims lb ub] in *.
  f_equal; [done|apply cget_ext..]; try lia; intros i Hi; apply H; lia.
Qed.

Lemma cget_inter_lb b0 b1 i : (i < num_dims b0)%nat ->
  cget (lb (bbox_intersect b0 b1)) i = max (cget (lb b0) i) (cget (lb b1) i).
Proof. intros. unfold bbox_intersect; cbn [lb ub]. by rewrite cget_map_seq. Qed.

Lemma cget_inter_ub b0 b1 i : (i < num_dims b0)%nat ->
  cget (ub (bbox_intersect b0 b1)) i = min (cget (ub b0) i) (cget (ub b1) i).
Proof. intros. unfold bbox_intersect; cbn [lb ub]. by rewrite cget_map_seq. Qed.

Lemma max_spec a b : max a b = Z.max a b.
Proof. unfold max. case_if; zbool; lia. Qed.

Lemma min_spec a b : min a b = Z.min a b.
Proof. unfold min. case_if; zbool; lia. Qed.

Lemma in_intv_nonempty t : ilb t <= iub t -> in_intv t (ilb t).
Proof. unfold in_intv. lia. Qed.

Lemma intersect_ondim_spec b0 b1 i :
  cget (lb b0) i <= cget (ub b0) i -> cget (lb b1) i <= cget (ub b1) i ->
  bbox_intersect_ondim b0 b1 i = true <->
  Z.max (cget (lb b0) i) (cget (lb b1) i) <= Z.min (cget (ub b0) i) (cget (ub b1) i).
Proof. unfold bbox_intersect_ondim. intros. lia. Qed.

(** ** Set semantics of the tests *)

(** Inclusion of the point sets is what [bbox_include] decides. *)
Lemma bbox_include_points b0 b1 :
  wf_bbox b1 -> num_dims b0 = num_dims b1 ->
  bbox_include b0 b1 = true <-> (forall p, in_box b1 p -> in_box b0 p).
Proof.
  intros Hwf Hn. unfold bbox_include. rewrite forallb_seq. split.
  - intros H p [Hp Hin]. split; [congruence|]. intros i Hi.
    specialize (H i Hi). specialize (Hin i ltac:(lia)).
    unfold bbox_include_ondim in H. zbool. lia.
  - intros H i Hi. unfold bbox_include_ondim.
    destruct (H _ (wf_lb_in_box _ Hwf)) as [_ Hl].
    destruct (H _ (wf_ub_in_box _ Hwf)) as [_ Hu].
    specialize (Hl i Hi). specialize (Hu i Hi). lia.
Qed.

Lemma bbox_intersect_points b0 b1 p :
  num_dims b0 = num_dims b1 ->
  in_box (bbox_intersect b0 b1) p <-> in_box b0 p /\ in_box b1 p.
Proof.
  intros Hn. unfold in_box.
  change (num_dims (bbox_intersect b0 b1)) with (num_dims b0).
  split.
  - intros [Hl H]. repeat split; try lia; specialize (H i ltac:(lia));
      rewrite cget_inter_lb, cget_inter_ub, max_spec, min_spec in H by lia; lia.
  - intros [[Hl H0] [_ H1]]. split; [done|]. intros i Hi.
    specialize (H0 i Hi). specialize (H1 i ltac:(lia)).
    rewrite cget_inter_lb, cget_inter_ub, max_spec, min_spec by lia. lia.
Qed.

Lemma bbox_intersect_wf b0 b1 :
  wf_bbox b0 -> wf_bbox b1 -> num_dims b0 = num_dims b1 ->
  bbox_does_intersect b0 b1 = true -> wf_bbox (bbox_intersect b0 b1).
Proof.
  intros (H1 & H2 & H3) (G1 & G2 & G3) Hn Hi.
  unfold bbox_does_intersect in Hi. rewrite forallb_seq in Hi.
  unfold wf_bbox. cbn [num_dims].
  change (num_dims (bbox_intersect b0 b1)) with (num_dims b0).
  unfold bbox_intersect; cbn [lb ub]. rewrite !length_map, length_seq.
  split; [done|]. split; [done|]. intros i Hlt.
  rewrite !cget_map_seq, max_spec, min_spec by lia.
  specialize (H3 i Hlt). specialize (G3 i ltac:(lia)). specialize (Hi i Hlt).
  rewrite intersect_ondim_spec in Hi by lia. lia.
Qed.

Lemma bbox_does_intersect_points b0 b1 :
  wf_bbox b0 -> wf_bbox b1 -> num_dims b0 = num_dims b1 ->
  bbox_does_intersect b0 b1 = true <-> (exists p, in_box b0 p /\ in_box b1 p).
Proof.
  intros Hw0 Hw1 Hn. split.
  - intros Hi. pose proof (bbox_intersect_wf _ _ Hw0 Hw1 Hn Hi) as Hw.
    eexists. apply bbox_intersect_points; [done|]. eauto with ds.
  - intros (p & [_ H0] & [_ H1]). apply forallb_seq. intros i Hi.
    specialize (H0 i Hi). specialize (H1 i ltac:(lia)).
    apply intersect_ondim_spec; lia.
Qed.

Lemma bbox_equals_true b0 b1 :
  wf_bbox b0 -> wf_bbox b1 -> bbox_equals b0 b1 = true <-> b0 = b1.
Proof.
  intros Hw0 Hw1. unfold bbox_equals. split.
  - case_if; [|done]. rewrite forallb_seq. intros H. zbool.
    apply bbox_ext; try done. intros i Hi. specialize (H i Hi). lia.
  - intros ->. rewrite Nat.eqb_refl. apply forallb_seq. intros. lia.
Qed.

Lemma bbox_does_intersect_sym b0 b1 :
  num_dims b0 = num_dims b1 ->
  bbox_does_intersect b0 b1 = bbox_does_intersect b1 b0.
Proof.
  intros Hn. apply eq_true_iff_eq. unfold bbox_does_intersect.
  rewrite !forallb_seq. rewrite <- Hn. unfold bbox_intersect_ondim.
  split; intros H i Hi; specialize (H i Hi); lia.
Qed.

Lemma intv_do_intersect_points i0 i1 :
  ilb i0 <= iub i0 -> ilb i1 <= iub i1 ->
  intv_do_intersect i0 i1 = true <-> (exists x, in_intv i0 x /\ in_intv i1 x).
Proof.
  unfold intv_do_intersect, in_intv. intros. split.
  - intros. exists (Z.max (ilb i0) (ilb i1)). lia.
  - intros (x & ? & ?). lia.
Qed.

(** ** Subdivision

    The 2^n boxes of [bbox_divide] partition the box, as long as no
    midpoint leaves the [int] it is stored in. *)

Lemma land_bit_testbit i j :
  negb (Z.land (Z.of_nat i) (Z.shiftl 1 (Z.of_nat j)) =? 0) = Nat.testbit i j.
Proof.
  rewrite <- Nat2Z_testbit.
  rewrite Z.shiftl_1_l.
  assert (Z.land (Z.of_nat i) (2 ^ Z.of_nat j)
          = if Z.testbit (Z.of_nat i) (Z.of_nat j) then 2 ^ Z.of_nat j else 0) as ->.
  { apply Z.bits_inj'. intros n Hn. rewrite Z.land_spec, Z.pow2_bits_eqb by lia.
    destruct (Z.testbit (Z.of_nat i) (Z.of_nat j)) eqn:E.
    - rewrite Z.pow2_bits_eqb by lia. destruct (Z.eqb_spec (Z.of_nat j) n); subst; [|by rewrite andb_false_r].
      by rewrite E.
    - rewrite Z.bits_0. destruct (Z.eqb_spec (Z.of_nat j) n); subst; [by rewrite E|by rewrite andb_false_r]. }
  destruct (Z.testbit _ _); [|done].
  assert (0 < 2 ^ Z.of_nat j) by (apply Z.pow_pos_nonneg; lia).
  destruct (Z.eqb_spec (2 ^ Z.of_nat j) 0); [lia|done].
Qed.

(** No midpoint of [b] overflows an [int], and neither does its successor. *)
Definition mid_fits (b : bbox) : Prop :=
  forall i, (i < num_dims b)%nat -> (cget (lb b) i + cget (ub b) i) / 2 + 1 < 2 ^ 31.

Lemma divide_mid_eq b j : wf_bbox b -> mid_fits b -> (j < num_dims b)%nat ->
  divide_mid b j = (cget (lb b) j + cget (ub b) j) / 2.
Proof.
  intros (_ & _ & H) Hm Hj. specialize (H j Hj). specialize (Hm j Hj).
  unfold divide_mid. rewrite u64_small; [apply s32_small|]; Z.div_mod_to_equations; lia.
Qed.

Lemma divide_sub_lb b i j : wf_bbox b -> mid_fits b -> (j < num_dims b)%nat ->
  cget (lb (bbox_divide_sub b i)) j =
  if Nat.testbit i j then (cget (lb b) j + cget (ub b) j) / 2 + 1 else cget (lb b) j.
Proof.
  intros Hw Hm Hj. unfold bbox_divide_sub; cbn [lb ub]. rewrite cget_map_seq by done.
  rewrite land_bit_testbit. destruct (Nat.testbit i j); [|done].
  rewrite divide_mid_eq by done. destruct Hw as (_ & _ & H).
  specialize (H j Hj). specialize (Hm j Hj).
  assert (0 <= (cget (lb b) j + cget (ub b) j) / 2) by (Z.div_mod_to_equations; lia).
  rewrite s32_small, u64_small by lia. done.
Qed.

Lemma divide_sub_ub b i j : wf_bbox b -> mid_fits b -> (j < num_dims b)%nat ->
  cget (ub (bbox_divide_sub b i)) j =
  if Nat.testbit i j then cget (ub b) j else (cget (lb b) j + cget (ub b) j) / 2.
Proof.
  intros Hw Hm Hj. unfold bbox_divide_sub; cbn [lb ub]. rewrite cget_map_seq by done.
  rewrite land_bit_testbit. destruct (Nat.testbit i j); [done|].
  rewrite divide_mid_eq by done. destruct Hw as (_ & _ & H).
  specialize (H j Hj). specialize (Hm j Hj).
  rewrite u64_small; [done|]. Z.div_mod_to_equations; lia.
Qed.

(** The index of the sub-box that holds a point: bit [j] tells the upper
    half of dimension [j]. *)
Fixpoint half_index (b : bbox) (p : list Z) (n : nat) : nat :=
  match n with
  | O => 0%nat
  | S n => (half_index b p n
           + if ((cget (lb b) n + cget (ub b) n) / 2 <? cget p n)%Z then 2 ^ n else 0)%nat
  end.

Lemma half_index_lt b p n : (half_index b p n < 2 ^ n)%nat.
Proof.
  induction n as [|n IH]; cbn; [lia|]. case_if; lia.
Qed.

Lemma half_index_testbit b p n j : (j < n)%nat ->
  Nat.testbit (half_index b p n) j
  = ((cget (lb b) j + cget (ub b) j) / 2 <? cget p j).
Proof.
  induction n as [|n IH]; intros Hj; [lia|]. cbn [half_index].
  pose proof (half_index_lt b p n) as Hlt.
  destruct (decide (j = n)) as [->|Hne].
  - case_if; rewrite Nat.testbit_eqb.
    + replace (half_index b p n + 2 ^ n)%nat with (half_index b p n + 1 * 2 ^ n)%nat by lia.
      rewrite Nat.div_add, Nat.div_small by lia. done.
    + rewrite Nat.add_0_r, Nat.div_small by lia. done.
  - case_if; [|rewrite Nat.add_0_r; apply IH; lia].
    rewrite Nat.add_comm. rewrite <- IH by lia.
    rewrite <- (Nat.mod_small (half_index b p n) (2 ^ n)) at 2 by lia.
    rewrite <- (Nat.mod_pow2_bits_low (2 ^ n + half_index b p n) n j) by lia.
    f_equal. rewrite Nat.Div0.add_mod, Nat.Div0.mod_same, Nat.add_0_l. apply Nat.Div0.mod_mod.
Qed.

Lemma in_divide_sub b i p : wf_bbox b -> mid_fits b ->
  in_box (bbox_divide_sub b i) p <->
  in_box b p /\ forall j, (j < num_dims b)%nat ->
    Nat.testbit i j = ((cget (lb b) j + cget (ub b) j) / 2 <? cget p j).
Proof.
  intros Hw Hm. unfold in_box.
  change (num_dims (bbox_divide_sub b i)) with (num_dims b).
  split.
  - intros [Hl H].
    assert (forall j, (j < num_dims b)%nat ->
      cget (lb b) j <= cget p j <= cget (ub b) j /\
      Nat.testbit i j = ((cget (lb b) j + cget (ub b) j) / 2 <? cget p j)) as Hall.
    { intros j Hj. specialize (H j Hj). rewrite divide_sub_lb, divide_sub_ub in H by done.
      destruct Hw as (_ & _ & Hw). specialize (Hw j Hj).
      destruct (Nat.testbit i j); (split; [Z.div_mod_to_equations; lia|]); symmetry;
        [apply Z.ltb_lt|apply Z.ltb_ge]; lia. }
    split; [split; [done|]|]; intros j Hj; apply Hall; done.
  - intros [[Hl H] Hb]. split; [done|]. intros j Hj.
    rewrite divide_sub_lb, divide_sub_ub by done.
    specialize (H j Hj). specialize (Hb j Hj). rewrite Hb. case_if; zbool; lia.
Qed.

Lemma divide_sub_wf b i : wf_bbox b -> mid_fits b ->
  (forall j, (j < num_dims b)%nat -> cget (lb b) j < cget (ub b) j) ->
  wf_bbox (bbox_divide_sub b i).
Proof.
  intros Hw Hm Hlt. unfold wf_bbox.
  change (num_dims (bbox_divide_sub b i)) with (num_dims b).
  split; [unfold bbox_divide_sub; cbn [lb]; by rewrite length_map, length_seq|].
  split; [unfold bbox_divide_sub; cbn [ub]; by rewrite length_map, length_seq|].
  intros j Hj. rewrite divide_sub_lb, divide_sub_ub by done.
  specialize (Hlt j Hj). destruct Hw as (_ & _ & Hw). specialize (Hw j Hj).
  destruct (Nat.testbit i j); Z.div_mod_to_equations; lia.
Qed.

(** Every point of [b] lies in exactly one of the sub-boxes, and the
    sub-boxes hold no other point. *)
Lemma bbox_divide_partition b p :
  wf_bbox b -> mid_fits b ->
  (in_box b p <-> exists i, (i < 2 ^ num_dims b)%nat /\ in_box (bbox_divide_sub b i) p) /\
  (forall i j, (i < 2 ^ num_dims b)%nat -> (j < 2 ^ num_dims b)%nat ->
     in_box (bbox_divide_sub b i) p -> in_box (bbox_divide_sub b j) p -> i = j).
Proof.
  intros Hw Hm. split.
  - split.
    + intros Hp. exists (half_index b p (num_dims b)). split; [apply half_index_lt|].
      apply in_divide_sub; try done. split; [done|]. intros. by apply half_index_testbit.
    + intros (i & _ & Hi). apply in_divide_sub in Hi; tauto.
  - intros i j Hi Hj Hpi Hpj.
    apply in_divide_sub in Hpi as [_ Hpi]; [|done..].
    apply in_divide_sub in Hpj as [_ Hpj]; [|done..].
    apply Nat.bits_inj. intros k. destruct (decide (k < num_dims b)%nat) as [Hk|Hk].
    + rewrite Hpi, Hpj by done. done.
    + rewrite !Nat.testbit_eqb.
      assert (2 ^ num_dims b <= 2 ^ k)%nat by (apply Nat.pow_le_mono_r; lia).
      rewrite !Nat.div_small by lia. done.
Qed.

(** Splitting in two along one dimension; the sum of the bounds must not
    wrap around. *)
Lemma divide_in2_points b dim p :
  wf_bbox b -> (dim < num_dims b)%nat ->
  cget (lb b) dim + cget (ub b) dim < 2 ^ 64 ->
  let '(b0, b1) := bbox_divide_in2_ondim b dim in
  (in_box b p <-> in_box b0 p \/ in_box b1 p) /\ ~ (in_box b0 p /\ in_box b1 p).
Proof.
  intros Hw Hdim Hsum. unfold bbox_divide_in2_ondim, in_box. cbn [num_dims lb ub].
  destruct Hw as (Hl & Hu & Hw). pose proof (Hw dim Hdim) as Hd.
  rewrite u64_small, Z.shiftr_div_pow2 by lia. change (2 ^ 1) with 2.
  set (n := (cget (lb b) dim + cget (ub b) dim) / 2).
  assert (cget (lb b) dim <= n <= cget (ub b) dim) by (unfold n; Z.div_mod_to_equations; lia).
  assert (n < 2 ^ 64 - 1 \/ n = 2 ^ 64 - 1) as [Hn|Hn] by lia.
  2: { exfalso. unfold n in *. Z.div_mod_to_equations; lia. }
  rewrite (u64_small (n + 1)) by lia. split.
  - split.
    + intros [Hp H1]. destruct (Z.le_gt_cases (cget p dim) n); [left|right]; (split; [done|]);
        intros i Hi; specialize (H1 i Hi); destruct (decide (dim = i)) as [<-|];
        rewrite ?cget_insert_eq, ?cget_insert_ne by (done || lia); lia.
    + intros [[Hp H1]|[Hp H1]]; (split; [done|]); intros i Hi; specialize (H1 i Hi);
        destruct (decide (dim = i)) as [<-|];
        rewrite ?cget_insert_eq, ?cget_insert_ne in H1 by (done || lia); lia.
  - intros [[_ H0] [_ H1]]. specialize (H0 dim Hdim). specialize (H1 dim Hdim).
    rewrite cget_insert_eq in H0, H1 by lia. lia.
Qed.

(** ** Enumeration of the points and the volume *)

Fixpoint grid (l u : list Z) : list (list Z) :=
  match l, u with
  | a :: l, b :: u => seqZ a (b - a + 1) ≫= fun x => cons x <$> grid l u
  | _, _ => [[]]
  end.

Definition points (b : bbox) : list (list Z) := grid (lb b) (ub b).

(** The number of cells as an integer of unbounded size. *)
Definition box_card (b : bbox) : Z :=
  fold_right (fun i n => (cget (ub b) i - cget (lb b) i + 1) * n) 1 (seq 0 (num_dims b)).

Lemma cget_cons_0 x l : cget (x :: l) 0 = x.
Proof. reflexivity. Qed.

Lemma cget_cons_S x l i : cget (x :: l) (S i) = cget l i.
Proof. reflexivity. Qed.

Lemma elem_of_grid l u p : length l = length u ->
  p ∈ grid l u <-> length p = length l /\
    forall i, (i < length l)%nat -> cget l i <= cget p i <= cget u i.
Proof.
  revert u p. induction l as [|a l IH]; intros [|b u] p Hlen; try done.
  - cbn [grid]. rewrite list_elem_of_singleton. split.
    + intros ->. split; [done|]. cbn. lia.
    + intros [H _]. by destruct p.
  - cbn [grid]. rewrite list_elem_of_bind. split.
    + intros (x & (q & -> & Hq)%list_elem_of_fmap & Hx%elem_of_seqZ).
      apply IH in Hq as [Hq Hin]; [|by injection Hlen].
      split; [cbn; lia|]. intros [|i] Hi; [rewrite !cget_cons_0; lia|].
      rewrite !cget_cons_S. apply Hin. cbn in Hi. lia.
    + intros [Hp Hin]. destruct p as [|x q]; [done|]. exists x. split.
      * apply list_elem_of_fmap_2, IH; [by injection Hlen|].
        split; [by injection Hp|]. intros i Hi. apply (Hin (S i)). cbn. lia.
      * specialize (Hin 0%nat ltac:(cbn; lia)). rewrite !cget_cons_0 in Hin.
        apply elem_of_seqZ. lia.
Qed.

Lemma NoDup_grid l u : NoDup (grid l u).
Proof.
  revert u. induction l as [|a l IH]; intros [|b u]; cbn [grid]; try apply NoDup_singleton.
  apply NoDup_bind; [|intros; apply NoDup_fmap_2; [|apply IH]|apply NoDup_seqZ].
  - intros x1 x2 y _ _ (q1 & -> & _)%list_elem_of_fmap (q2 & ? & _)%list_elem_of_fmap.
    congruence.
  - intros ?? [=]. done.
Qed.

Lemma length_bind_const {A B} (f : A -> list B) l n :
  (forall x, length (f x) = n) -> length (l ≫= f) = (length l * n)%nat.
Proof.
  intros H. induction l as [|x l IH]; [done|]. rewrite bind_cons, length_app, H, IH. cbn. lia.
Qed.

Lemma fold_right_seq_S (f : nat -> Z -> Z) z n :
  fold_right f z (seq 0 (S n)) = f 0%nat (fold_right (fun i => f (S i)) z (seq 0 n)).
Proof.
  cbn [seq fold_right]. f_equal. rewrite <- seq_shift. generalize (seq 0 n).
  intros s. induction s as [|x s IH]; cbn; [done|]. by rewrite IH.
Qed.

Lemma length_grid l u : length l = length u ->
  (forall i, (i < length l)%nat -> cget l i <= cget u i) ->
  Z.of_nat (length (grid l u)) =
  fold_right (fun i n => (cget u i - cget l i + 1) * n) 1 (seq 0 (length l)).
Proof.
  revert u. induction l as [|a l IH]; intros [|b u] Hlen H; try done.
  cbn [grid length]. rewrite fold_right_seq_S.
  rewrite (length_bind_const _ _ (length (grid l u))) by (intros; apply length_fmap).
  rewrite length_seqZ, Nat2Z.inj_mul, IH; [| |intros i Hi].
  - specialize (H 0%nat ltac:(cbn; lia)). rewrite !cget_cons_0 in *.
    rewrite Z2Nat.id by lia. f_equal.
  - by injection Hlen.
  - apply (H (S i)). cbn. lia.
Qed.

Lemma elem_of_points b p : wf_bbox b -> p ∈ points b <-> in_box b p.
Proof. intros (Hl & Hu & _). unfold points, in_box. rewrite elem_of_grid by lia. by rewrite Hl. Qed.

Lemma length_points b : wf_bbox b -> Z.of_nat (length (points b)) = box_card b.
Proof.
  intros (Hl & Hu & H). unfold points, box_card. rewrite length_grid; rewrite Hl; try done.
  intros i Hi. apply H. done.
Qed.

Lemma fold_left_u64 (f : nat -> Z) l n :
  fold_left (fun n i => u64 (n * f i)) l (u64 n)
  = u64 (n * fold_right (fun i m => f i * m) 1 l).
Proof.
  revert n. induction l as [|i l IH]; intros n; cbn; [by rewrite Z.mul_1_r|].
  replace (u64 (u64 n * f i)) with (u64 (n * f i)).
  2: { unfold u64. by rewrite Z.mul_mod_idemp_l by lia. }
  rewrite IH, Z.mul_assoc. done.
Qed.

(** [bbox_volume] computes the number of cells modulo 2^64. *)
Lemma bbox_volume_mod b : bbox_volume b = u64 (box_card b).
Proof.
  unfold bbox_volume, box_card. rewrite <- (u64_small 1) at 1 by lia.
  rewrite fold_left_u64, Z.mul_1_l. generalize (seq 0 (num_dims b)). intros l.
  induction l as [|i l IH]; cbn; [done|].
  rewrite u64_mul, IH. unfold coord_dist. rewrite u64_u64, <- u64_mul. done.
Qed.

Lemma box_card_pos b : wf_bbox b -> 0 < box_card b.
Proof.
  intros Hw. rewrite <- length_points by done.
  assert (lb b ∈ points b) as H by (apply elem_of_points; eauto with ds).
  destruct (points b); [by apply elem_of_nil in H|cbn; lia].
Qed.

(** ** Powers of two *)

Lemma compute_bits_loop_spec fuel n acc :
  0 <= n < 2 ^ Z.of_nat fuel ->
  compute_bits_loop fuel n acc = acc + (if n =? 0 then 0 else Z.log2 n + 1).
Proof.
  revert n acc. induction fuel as [|fuel IH]; intros n acc Hn.
  - cbn. change (2 ^ Z.of_nat 0) with 1 in Hn. replace n with 0 by lia. cbn. lia.
  - cbn [compute_bits_loop]. destruct (Z.eqb_spec n 0) as [->|Hne]; [lia|].
    rewrite Nat2Z.inj_succ, Z.pow_succ_r in Hn by lia.
    rewrite Z.shiftr_div_pow2 by lia. change (2 ^ 1) with 2.
    rewrite IH by (Z.div_mod_to_equations; lia).
    destruct (Z.eqb_spec (n / 2) 0) as [E|E].
    + assert (n = 1) as -> by (Z.div_mod_to_equations; lia). change (Z.log2 1) with 0. lia.
    + assert (Z.log2 n = Z.log2 (n / 2) + 1) as ->; [|lia].
      assert (0 < n / 2) by (Z.div_mod_to_equations; lia).
      destruct (Z.mod_pos_bound n 2 ltac:(lia)).
      assert (n mod 2 = 0 \/ n mod 2 = 1) as [Hm|Hm] by lia.
      * replace n with (2 * (n / 2)) at 1 by (Z.div_mod_to_equations; lia).
        rewrite Z.log2_double by lia. lia.
      * replace n with (2 * (n / 2) + 1) at 1 by (Z.div_mod_to_equations; lia).
        rewrite Z.log2_succ_double by lia. lia.
Qed.

(** [compute_bits] is the position of the highest set bit plus one. *)
Lemma compute_bits_log2 n : 0 < n < 2 ^ 64 -> compute_bits n = Z.log2 n + 1.
Proof.
  intros. unfold compute_bits. rewrite compute_bits_loop_spec by (change (Z.of_nat 65) with 65; lia).
  destruct (Z.eqb_spec n 0); lia.
Qed.

Lemma land_pow2_high k n : 0 <= k -> 0 <= n < 2 ^ (k + 1) ->
  Z.land (2 ^ k) n = if 2 ^ k <=? n then 2 ^ k else 0.
Proof.
  intros Hk Hn. apply Z.bits_inj'. intros j Hj.
  rewrite Z.land_spec, Z.pow2_bits_eqb by done.
  rewrite Z.pow_add_r in Hn by lia. change (2 ^ 1) with 2 in Hn.
  destruct (Z.eqb_spec k j) as [<-|Hne]; cbn [andb].
  - destruct (Z.leb_spec (2 ^ k) n).
    + rewrite Z.pow2_bits_true by done. rewrite Z.testbit_true by done.
      replace (n / 2 ^ k) with 1; [done|].
      apply Z.div_unique with (n - 2 ^ k); lia.
    + rewrite Z.bits_0. apply Z.testbit_false; [done|]. rewrite Z.div_small by lia. done.
  - destruct (Z.leb_spec (2 ^ k) n); rewrite ?Z.bits_0, ?Z.pow2_bits_false by done; done.
Qed.

Lemma next_pow_2_loop_spec fuel k n :
  0 <= k < Z.of_nat fuel -> 0 < n < 2 ^ (k + 1) ->
  next_pow_2_loop fuel (2 ^ k) n = 2 ^ Z.log2 n.
Proof.
  revert k. induction fuel as [|fuel IH]; intros k Hk Hn; [lia|].
  cbn [next_pow_2_loop]. assert (0 < 2 ^ k) by (apply Z.pow_pos_nonneg; lia).
  destruct (Z.eqb_spec (2 ^ k) 0); [lia|]. cbn [negb andb].
  rewrite land_pow2_high by lia. destruct (Z.leb_spec (2 ^ k) n).
  - destruct (Z.eqb_spec (2 ^ k) 0); [lia|]. f_equal. symmetry. apply Z.log2_unique; lia.
  - cbn [Z.eqb]. destruct (Z.eqb_spec k 0) as [->|]; [change (2 ^ 0) with 1 in *; lia|].
    rewrite Z.shiftr_div_pow2 by lia. change (2 ^ 1) with 2.
    replace (2 ^ k / 2) with (2 ^ (k - 1)).
    + apply IH; [lia|]. replace (k - 1 + 1) with k by lia. lia.
    + replace k with (k - 1 + 1) at 2 by lia. rewrite Z.pow_add_r by lia.
      change (2 ^ 1) with 2. by rewrite Z.div_mul by lia.
Qed.

(** [next_pow_2 n] is the least power of two greater than [n]: the cube of
    that side holds every coordinate up to [n]. *)
Lemma next_pow_2_log2 n : 0 < n < 2 ^ 63 -> next_pow_2 n = 2 ^ (Z.log2 n + 1).
Proof.
  intros Hn. unfold next_pow_2.
  rewrite next_pow_2_loop_spec by (change (Z.of_nat 65) with 65; lia).
  rewrite Z.shiftl_mul_pow2 by lia. change (2 ^ 1) with 2.
  pose proof (Z.log2_nonneg n).
  rewrite Z.pow_add_r, (Z.mul_comm _ 2) by lia. change (2 ^ 1) with 2.
  rewrite (Z.mul_comm _ 2). apply u64_small.
  assert (2 ^ Z.log2 n <= n) by (apply Z.log2_spec; lia). 
  assert (0 < 2 ^ Z.log2 n) by (apply Z.pow_pos_nonneg; lia). lia.
Qed.

Lemma next_pow_2_bounds n : 0 < n < 2 ^ 63 -> n < next_pow_2 n <= 2 * n.
Proof.
  intros Hn. rewrite next_pow_2_log2 by done.
  pose proof (Z.log2_spec n ltac:(lia)) as H. pose proof (Z.log2_nonneg n).
  unfold Z.succ in H. rewrite Z.pow_add_r in * by lia. lia.
Qed.

(** ** Membership is decidable *)

Definition in_boxb (b : bbox) (p : list Z) : bool :=
  (length p =? num_dims b)%nat &&
  forallb (fun i => (cget (lb b) i <=? cget p i) && (cget p i <=? cget (ub b) i)) (seq 0 (num_dims b)).

Lemma in_boxb_spec b p : in_boxb b p = true <-> in_box b p.
Proof.
  unfold in_boxb, in_box. rewrite andb_true_iff, Nat.eqb_eq, forallb_seq.
  split; intros [H1 H2]; (split; [done|]); intros i Hi; specialize (H2 i Hi); lia.
Qed.

#[export] Instance in_box_dec b p : Decision (in_box b p).
Proof.
  refine (match in_boxb b p as c return in_boxb b p = c -> _ with
          | true => fun E => left _ | false => fun E => right _ end eq_refl).
  - by apply in_boxb_spec.
  - intros H. apply in_boxb_spec in H. congruence.
Defined.

(** ** Properties *)

(** two boxes of the same dimension are found to intersect exactly when
    they share a cell, and then [bbox_intersect] is a well-formed box whose
    cells are exactly the shared ones. *)
Theorem bbox_intersect_exact b0 b1 :
  wf_bbox b0 -> wf_bbox b1 -> num_dims b0 = num_dims b1 ->
  (bbox_does_intersect b0 b1 = true <-> exists p, in_box b0 p /\ in_box b1 p) /\
  (bbox_does_intersect b0 b1 = true -> wf_bbox (bbox_intersect b0 b1)) /\
  forall p, in_box (bbox_intersect b0 b1) p <-> in_box b0 p /\ in_box b1 p.
Proof.
  intros. split; [|split].
  - by apply bbox_does_intersect_points.
  - by apply bbox_intersect_wf.
  - intros. by apply bbox_intersect_points.
Qed.

Definition demo_box : bbox := mk_bbox 2 [0; 1] [3; 4].
Lemma demo_box_wf : wf_bbox demo_box.
Proof.
  split; [done|]. split; [done|]. intros i Hi. cbn in Hi.
  destruct i as [|[|i]]; [unfold cget; cbn; lia|unfold cget; cbn; lia|lia].
Qed.

Lemma in_box_2_2 : in_box demo_box [2; 2].
Proof. split; [done|]. intros i Hi. cbn in Hi. destruct i as [|[|i]]; [unfold cget; cbn; lia|unfold cget; cbn; lia|lia]. Qed.

Lemma bbox_intersect_exact_witness :
  bbox_does_intersect demo_box demo_box = true /\ in_box (bbox_intersect demo_box demo_box) [2; 2].
Proof.
  destruct (bbox_intersect_exact demo_box demo_box demo_box_wf demo_box_wf eq_refl) as (_ & _ & H).
  split; [reflexivity|]. apply H. split; apply in_box_2_2.
Defined.

(** [bbox_divide] cuts a box into 2^num_dims boxes that partition its
    cells: every cell lies in a sub-box, in only one of them, and the
    sub-boxes hold nothing else (midpoints must fit the [int] they are
    stored in). *)
Theorem bbox_divide_correct b p :
  wf_bbox b -> mid_fits b ->
  length (bbox_divide b) = (2 ^ num_dims b)%nat /\
  (in_box b p <-> exists s, s ∈ bbox_divide b /\ in_box s p) /\
  (forall i j si sj, bbox_divide b !! i = Some si -> bbox_divide b !! j = Some sj ->
     in_box si p -> in_box sj p -> i = j).
Proof.
  intros Hw Hf. destruct (bbox_divide_partition b p Hw Hf) as [H1 H2].
  unfold bbox_divide. split; [by rewrite length_map, length_seq|]. split.
  - rewrite H1. split.
    + intros (i & Hi & Hp). exists (bbox_divide_sub b i). split; [|done].
      apply list_elem_of_In, in_map, in_seq. lia.
    + intros (s & Hs & Hp). apply list_elem_of_In, in_map_iff in Hs as (i & <- & Hi%in_seq).
      exists i. split; [lia|done].
  - intros i j si sj Ei Ej Hpi Hpj.
    apply list_lookup_fmap_Some in Ei as (i' & -> & Hi), Ej as (j' & -> & Hj).
    apply lookup_seq in Hi as [-> Hi], Hj as [-> Hj]. apply (H2 (0 + i) (0 + j))%nat; done || lia.
Qed.

Lemma bbox_divide_correct_witness : exists s, s ∈ bbox_divide demo_box /\ in_box s [2; 2].
Proof.
  assert (mid_fits demo_box) as Hf.
  { intros i Hi. cbn in Hi. destruct i as [|[|i]]; [reflexivity|reflexivity|lia]. }
  destruct (bbox_divide_correct demo_box [2; 2] demo_box_wf Hf) as (_ & H & _).
  apply H, in_box_2_2.
Defined.

(** [bbox_volume] is the number of cells of the box, modulo 2^64; it is
    the exact number whenever that number fits 64 bits. *)
Theorem bbox_volume_correct b :
  wf_bbox b ->
  bbox_volume b = Z.of_nat (length (points b)) mod 2 ^ 64 /\
  (forall p, p ∈ points b <-> in_box b p) /\ NoDup (points b).
Proof.
  intros Hw. split; [|split].
  - by rewrite length_points, bbox_volume_mod.
  - intros p. by apply elem_of_points.
  - apply NoDup_grid.
Qed.

Lemma bbox_volume_correct_witness : bbox_volume demo_box = 16.
Proof.
  destruct (bbox_volume_correct demo_box demo_box_wf) as [H _]. rewrite H. reflexivity.
Defined.

(** [next_pow_2] returns the power of two that needs [compute_bits n]
    shifts, the least power of two above [n]; so a domain of side
    [next_pow_2 n] encloses every coordinate up to [n]. *)
Theorem next_pow_2_correct n :
  0 < n < 2 ^ 63 ->
  next_pow_2 n = 2 ^ compute_bits n /\ n < next_pow_2 n <= 2 * n.
Proof.
  intros Hn. split; [|by apply next_pow_2_bounds].
  by rewrite next_pow_2_log2, compute_bits_log2 by lia.
Qed.

Lemma next_pow_2_correct_witness : next_pow_2 100 = 2 ^ compute_bits 100 /\ 100 < next_pow_2 100 <= 2 * 100.
Proof. apply next_pow_2_correct. lia. Defined.
