(* ===== verification/Sfc.v ===== *)
(** * The Hilbert space-filling curve (include/sfc.h)

    [bitTranspose], [hilbert_i2c] and [hilbert_c2i] on 64 bit words
    ([bitmask_t]) and 32 bit half words ([halfmask_t]).  The other entry
    points of sfc.h (comparison and box queries on IEEE doubles and byte
    strings) are not called by the program and are not modelled. *)

From S2P Require Import Prelude.

(** ** Word operations *)

Definition shl64 (x : Z) (k : nat) : Z := u64 (Z.shiftl x (Z.of_nat k)).
Definition shr (x : Z) (k : nat) : Z := Z.shiftr x (Z.of_nat k).
Definition shl32 (x : Z) (k : nat) : Z := u32 (Z.shiftl x (Z.of_nat k)).

(** The macro [ones(T,k)] for T = bitmask_t and T = halfmask_t. *)
Definition ones64 (k : nat) : Z := u64 (shl64 2 (k - 1) - 1).
Definition ones32 (k : nat) : Z := u32 (shl32 2 (k - 1) - 1).

Definition rdbit (w : Z) (k : nat) : Z := Z.land (shr w k) 1.

(** The macros [rotateRight] and [rotateLeft]; their first argument is a
    [halfmask_t], so that the shifts are 32 bit shifts. *)
Definition rotateRight (arg : Z) (nRots nDims : nat) : Z :=
  Z.land (Z.lor (shr arg nRots) (shl32 arg (nDims - nRots))) (ones64 nDims).
Definition rotateLeft (arg : Z) (nRots nDims : nat) : Z :=
  Z.land (Z.lor (shl32 arg nRots) (shr arg (nDims - nRots))) (ones64 nDims).

(** [while (bits) bits >>= 1, ++rotation;] on a 32 bit word. *)
Fixpoint shift_out (fuel : nat) (bits : Z) (rotation : nat) : nat :=
  match fuel with
  | O => rotation
  | S fuel => if bits =? 0 then rotation else shift_out fuel (shr bits 1) (S rotation)
  end.

(** The macro [adjust_rotation]. *)
Definition adjust_rotation (rotation nDims : nat) (bits nd1Ones : Z) : nat :=
  let bits := Z.land bits (Z.land (u32 (- bits)) nd1Ones) in
  let rotation := S (shift_out 32 bits rotation) in
  if (nDims <=? rotation)%nat then (rotation - nDims)%nat else rotation.

(** ** bitTranspose *)

(** The body of [for (d = 0; d < nDims; ++d)]: the state is the remaining
    input, the result word, the word of the next round. *)
Definition transpose_odd_body (inB utB shiftAmt : nat)
    (inMask utMask inFieldStarts : Z) (st : Z * Z * Z) (d : nat) : Z * Z * Z :=
  let '(inCoords, coords, utCoords) := st in
  let oddShift := (2 * shiftAmt + d)%nat in
  let i := Z.land inCoords inMask in
  let inCoords := shr inCoords inB in
  let coords := Z.lor coords (shl64 (Z.land i inFieldStarts) oddShift) in
  let i := Z.land i (u64 (Z.lnot inFieldStarts)) in
  let i := Z.land (Z.lor i (shl64 i shiftAmt)) utMask in
  (inCoords, coords, Z.lor utCoords (shl64 i (d * utB))).

Definition transpose_even_body (inB utB shiftAmt : nat)
    (inMask utMask : Z) (st : Z * Z) (d : nat) : Z * Z :=
  let '(inCoords, utCoords) := st in
  let i := Z.land inCoords inMask in
  let inCoords := shr inCoords inB in
  let i := Z.land (Z.lor i (shl64 i shiftAmt)) utMask in
  (inCoords, Z.lor utCoords (shl64 i (d * utB))).

(** [while ((utB = inB / 2))]: each round halves [inB]. *)
Fixpoint transpose_loop (fuel nDims inB : nat)
    (inFieldEnds inMask inCoords coords : Z) : Z :=
  match fuel with
  | O => Z.lor coords inCoords
  | S fuel =>
      let utB := (inB / 2)%nat in
      if (utB =? 0)%nat then Z.lor coords inCoords else
      let shiftAmt := ((nDims - 1) * utB)%nat in
      let utFieldEnds := Z.lor inFieldEnds (shl64 inFieldEnds (shiftAmt + utB)) in
      let utMask := u64 (shl64 utFieldEnds utB - utFieldEnds) in
      if Nat.odd inB then
        let inFieldStarts := shl64 inFieldEnds (inB - 1) in
        let '(_, coords, utCoords) :=
          fold_left (transpose_odd_body inB utB shiftAmt inMask utMask inFieldStarts)
                    (seq 0 nDims) (inCoords, coords, 0) in
        transpose_loop fuel nDims utB utFieldEnds utMask utCoords coords
      else
        let '(_, utCoords) :=
          fold_left (transpose_even_body inB utB shiftAmt inMask utMask)
                    (seq 0 nDims) (inCoords, 0) in
        transpose_loop fuel nDims utB utFieldEnds utMask utCoords coords
  end.

Definition bitTranspose (nDims nBits : nat) (inCoords : Z) : Z :=
  transpose_loop 64 nDims nBits 1 (ones64 nBits) inCoords 0.

(** ** hilbert_c2i *)

(** [do { ... } while (b)]: the state is rotation, flipBit, index. *)
Fixpoint c2i_loop (groups nDims : nat) (coords : Z) (rotation : nat) (flipBit index : Z) : Z :=
  match groups with
  | O => index
  | S b =>
      let bits := u32 (Z.land (shr coords (b * nDims)) (ones32 nDims)) in
      let bits := u32 (rotateRight (Z.lxor flipBit bits) rotation nDims) in
      let index := Z.lor (shl64 index nDims) bits in
      c2i_loop b nDims coords
        (adjust_rotation rotation nDims bits (shr (ones32 nDims) 1))
        (shl32 1 rotation) index
  end.

(** [for (d = 1; d < nDimsBits; d *= 2) index ^= index >> d;] *)
Fixpoint xor_down (fuel d limit : nat) (x : Z) : Z :=
  match fuel with
  | O => x
  | S fuel => if (d <? limit)%nat then xor_down fuel (2 * d) limit (Z.lxor x (shr x d)) else x
  end.

Definition nthbits (nDims nBits : nat) : Z := ones64 (nDims * nBits) / ones32 nDims.

(** [for (d = nDims; d--; ) { coords <<= nBits; coords |= coord[d]; }] *)
Definition c2i_pack (nDims nBits : nat) (coord : list Z) : Z :=
  fold_left (fun coords d => Z.lor (shl64 coords nBits) (cget coord d))
            (rev (seq 0 nDims)) 0.

Definition hilbert_c2i (nDims nBits : nat) (coord : list Z) : Z :=
  if (1 <? nDims)%nat then
    let nDimsBits := (nDims * nBits)%nat in
    let coords := c2i_pack nDims nBits coord in
    let index :=
      if (1 <? nBits)%nat then
        let coords := bitTranspose nDims nBits coords in
        let coords := Z.lxor coords (shr coords nDims) in
        let index := c2i_loop nBits nDims coords 0 0 0 in
        Z.lxor index (shr (nthbits nDims nBits) 1)
      else coords in
    xor_down 64 1 nDimsBits index
  else cget coord 0.

(** ** hilbert_i2c *)

Fixpoint i2c_loop (groups nDims : nat) (index : Z) (rotation : nat) (flipBit coords : Z) : Z :=
  match groups with
  | O => coords
  | S b =>
      let bits := u32 (Z.land (shr index (b * nDims)) (ones32 nDims)) in
      let coords := Z.lor (shl64 coords nDims)
                          (Z.lxor (rotateLeft bits rotation nDims) flipBit) in
      i2c_loop b nDims index
        (adjust_rotation rotation nDims bits (shr (ones32 nDims) 1))
        (shl32 1 rotation) coords
  end.

(** [for (d = 0; d < nDims; ++d) { coord[d] = coords & nbOnes; coords >>= nBits; }] *)
Definition i2c_unpack (nDims nBits : nat) (coords : Z) : list Z :=
  map (fun d => Z.land (shr coords (d * nBits)) (ones32 nBits)) (seq 0 nDims).

Definition hilbert_i2c (nDims nBits : nat) (index : Z) : list Z :=
  if (1 <? nDims)%nat then
    let coords :=
      if (1 <? nBits)%nat then
        let nDimsBits := (nDims * nBits)%nat in
        let index := Z.lxor index (shr (Z.lxor index (nthbits nDims nBits)) 1) in
        let coords := i2c_loop nBits nDims index 0 0 0 in
        let coords := xor_down 64 nDims nDimsBits coords in
        bitTranspose nBits nDims coords
      else Z.lxor index (shr index 1) in
    i2c_unpack nDims nBits coords
  else [index].

(** A concrete run: the curve of order 2 in the plane and its inverse. *)
Example hilbert_2_2 :
  map (fun i => hilbert_i2c 2 2 (Z.of_nat i)) (seq 0 16) =
  [[0;0];[0;1];[1;1];[1;0];[2;0];[3;0];[3;1];[2;1];
   [2;2];[3;2];[3;3];[2;3];[1;3];[1;2];[0;2];[0;3]]%Z
  /\ forallb (fun i => hilbert_c2i 2 2 (hilbert_i2c 2 2 (Z.of_nat i)) =? Z.of_nat i) (seq 0 16) = true.
Proof. vm_compute. split; reflexivity. Qed.
