(* ===== verification/SfcTranspose.v ===== *)
(** * [bitTranspose] is the bit-matrix transposition

    Every intermediate word of [bitTranspose] is a fixed selection of the
    input bits.  The section runs the routine on words whose bits are
    names of input bits, proves that the run simulates the routine on
    numbers, and compares the outcome with the transposition for every
    size that fits a 64 bit word. *)

From S2P Require Import Prelude Sfc.

(** The reference version of [bitTranspose] (the [#else] branch of the
    header): bit by bit. *)
Definition transpose_ref_out (nDims nBits : nat) (i : Z) : Z :=
  fold_left (fun out b => Z.lor (shl64 out nDims) (rdbit i b)) (rev (seq 0 nBits)) 0.

Definition bitTranspose_ref (nDims nBits : nat) (inCoords : Z) : Z :=
  snd (fold_left (fun '(inCoords, coords) d =>
         let i := Z.land inCoords (ones64 nBits) in
         (shr inCoords nBits,
          Z.lor coords (shl64 (transpose_ref_out nDims nBits i) d)))
       (seq 0 nDims) (inCoords, 0)).

(** A symbolic word lists, for each bit position, the input bits whose
    disjunction it holds. *)
Abbreviation sword := (list (list nat)).

Fixpoint s_and (m : Z) (s : sword) : sword :=
  match s with
  | [] => []
  | b :: s => (if Z.odd m then b else []) :: s_and (Z.div2 m) s
  end.

Fixpoint s_or (s1 s2 : sword) : sword :=
  match s1, s2 with
  | [], s | s, [] => s
  | b1 :: s1, b2 :: s2 => (b1 ++ b2) :: s_or s1 s2
  end.

Definition s_shr (s : sword) (k : nat) : sword := drop k s.
Definition s_shl (s : sword) (k : nat) : sword := take 64 (replicate k [] ++ s).

Definition s_input (L : nat) : sword := map (fun i => [i]) (seq 0 L).

Definition s_odd_body (inB utB shiftAmt : nat) (inMask utMask inFieldStarts : Z)
    (st : sword * sword * sword) (d : nat) : sword * sword * sword :=
  let '(inCoords, coords, utCoords) := st in
  let i := s_and inMask inCoords in
  let inCoords := s_shr inCoords inB in
  let coords := s_or coords (s_shl (s_and inFieldStarts i) (2 * shiftAmt + d)) in
  let i := s_and (u64 (Z.lnot inFieldStarts)) i in
  let i := s_and utMask (s_or i (s_shl i shiftAmt)) in
  (inCoords, coords, s_or utCoords (s_shl i (d * utB))).

Definition s_even_body (inB utB shiftAmt : nat) (inMask utMask : Z)
    (st : sword * sword) (d : nat) : sword * sword :=
  let '(inCoords, utCoords) := st in
  let i := s_and inMask inCoords in
  let inCoords := s_shr inCoords inB in
  let i := s_and utMask (s_or i (s_shl i shiftAmt)) in
  (inCoords, s_or utCoords (s_shl i (d * utB))).

Fixpoint s_loop (fuel nDims inB : nat) (inFieldEnds inMask : Z) (inCoords coords : sword) : sword :=
  match fuel with
  | O => s_or coords inCoords
  | S fuel =>
      let utB := (inB / 2)%nat in
      if (utB =? 0)%nat then s_or coords inCoords else
      let shiftAmt := ((nDims - 1) * utB)%nat in
      let utFieldEnds := Z.lor inFieldEnds (shl64 inFieldEnds (shiftAmt + utB)) in
      let utMask := u64 (shl64 utFieldEnds utB - utFieldEnds) in
      if Nat.odd inB then
        let inFieldStarts := shl64 inFieldEnds (inB - 1) in
        let '(_, coords, utCoords) :=
          fold_left (s_odd_body inB utB shiftAmt inMask utMask inFieldStarts)
                    (seq 0 nDims) (inCoords, coords, []) in
        s_loop fuel nDims utB utFieldEnds utMask utCoords coords
      else
        let '(_, utCoords) :=
          fold_left (s_even_body inB utB shiftAmt inMask utMask)
                    (seq 0 nDims) (inCoords, []) in
        s_loop fuel nDims utB utFieldEnds utMask utCoords coords
  end.

Definition s_transpose (nDims nBits : nat) : sword :=
  s_loop 64 nDims nBits 1 (ones64 nBits) (s_input (nDims * nBits)) [].

(** ** Simulation *)

Section simulation.
Context (x : Z).

Definition reads (s : sword) (w : Z) : Prop :=
  forall p, Z.testbit w (Z.of_nat p)
       = existsb (fun i => Z.testbit x (Z.of_nat i)) (nth p s []).

Lemma reads_nil : reads [] 0.
Proof. intros [|p]; apply Z.bits_0. Qed.

Lemma nth_s_and m s p :
  nth p (s_and m s) [] = if Z.testbit m (Z.of_nat p) then nth p s [] else [].
Proof.
  revert m p. induction s as [|b s IH]; intros m [|p]; cbn [s_and nth].
  1,2: by destruct (Z.testbit _ _).
  - by rewrite <- Z.bit0_odd.
  - rewrite IH, Z.div2_div, Z.div2_bits by lia. by rewrite Nat2Z.inj_succ.
Qed.

Lemma nth_s_or s1 s2 p : nth p (s_or s1 s2) [] = nth p s1 [] ++ nth p s2 [].
Proof.
  revert s2 p. induction s1 as [|b s1 IH]; intros [|b2 s2] [|p]; cbn [s_or nth];
    rewrite ?app_nil_r; try done.
Qed.

Lemma reads_and m s w : reads s w -> reads (s_and m s) (Z.land w m).
Proof.
  intros H p. rewrite Z.land_spec, H, nth_s_and.
  destruct (Z.testbit m _); by rewrite ?andb_true_r, ?andb_false_r.
Qed.

Lemma reads_or s1 s2 w1 w2 : reads s1 w1 -> reads s2 w2 -> reads (s_or s1 s2) (Z.lor w1 w2).
Proof. intros H1 H2 p. by rewrite Z.lor_spec, H1, H2, nth_s_or, existsb_app. Qed.

Lemma reads_shr s w k : reads s w -> reads (s_shr s k) (shr w k).
Proof.
  intros H p. unfold shr, s_shr. rewrite Z.shiftr_spec by lia.
  rewrite <- Nat2Z.inj_add, H. by rewrite nth_skipn, (Nat.add_comm k).
Qed.

Lemma reads_shl s w k : reads s w -> reads (s_shl s k) (shl64 w k).
Proof.
  intros H p. unfold shl64, s_shl, u64. destruct (Nat.lt_ge_cases p 64) as [Hp|Hp].
  - rewrite Z.mod_pow2_bits_low by lia. rewrite Z.shiftl_spec by lia.
    rewrite nth_lookup, lookup_take_lt, <- nth_lookup by lia.
    destruct (Nat.lt_ge_cases p k).
    + rewrite Z.testbit_neg_r by lia. rewrite app_nth1 by (rewrite length_replicate; lia).
      rewrite nth_lookup, lookup_replicate_2 by lia. done.
    + rewrite app_nth2; rewrite length_replicate; [|lia].
      replace (Z.of_nat p - Z.of_nat k) with (Z.of_nat (p - k)) by lia. apply H.
  - rewrite Z.mod_pow2_bits_high by lia. rewrite nth_overflow; [done|].
    rewrite length_take. lia.
Qed.

Lemma reads_input L : 0 <= x < 2 ^ Z.of_nat L -> reads (s_input L) x.
Proof.
  intros Hx p. unfold s_input. destruct (Nat.lt_ge_cases p L).
  - rewrite (nth_indep _ [] [0%nat]) by (rewrite length_map, length_seq; lia).
    rewrite (map_nth (fun i => [i])), seq_nth by lia. cbn. by rewrite orb_false_r.
  - rewrite nth_overflow by (rewrite length_map, length_seq; lia). cbn.
    destruct (Z.eqb_spec x 0) as [->|]; [apply Z.bits_0|].
    apply Z.bits_above_log2; [lia|]. apply Z.log2_lt_pow2; [lia|].
    eapply Z.lt_le_trans; [apply Hx|]. apply Z.pow_le_mono_r; lia.
Qed.

Hint Resolve reads_and reads_or reads_shr reads_shl reads_nil : ds.

Definition reads3 (s : sword * sword * sword) (w : Z * Z * Z) : Prop :=
  reads s.1.1 w.1.1 /\ reads s.1.2 w.1.2 /\ reads s.2 w.2.

Definition reads2 (s : sword * sword) (w : Z * Z) : Prop :=
  reads s.1 w.1 /\ reads s.2 w.2.

Lemma fold_left_sim {A B C} (R : A -> B -> Prop) (f : A -> C -> A) (g : B -> C -> B) l a b :
  (forall a b c, R a b -> R (f a c) (g b c)) -> R a b ->
  R (fold_left f l a) (fold_left g l b).
Proof. intros Hs. revert a b. induction l as [|c l IH]; cbn; auto. Qed.

Lemma odd_body_sim inB utB sh m1 m2 m3 s w d :
  reads3 s w -> reads3 (s_odd_body inB utB sh m1 m2 m3 s d)
                       (transpose_odd_body inB utB sh m1 m2 m3 w d).
Proof.
  destruct s as [[s1 s2] s3], w as [[w1 w2] w3]. unfold reads3, s_odd_body, transpose_odd_body; cbn [fst snd].
  intros (H1 & H2 & H3). repeat split; auto 10 with ds.
Qed.

Lemma even_body_sim inB utB sh m1 m2 s w d :
  reads2 s w -> reads2 (s_even_body inB utB sh m1 m2 s d)
                       (transpose_even_body inB utB sh m1 m2 w d).
Proof.
  destruct s as [s1 s2], w as [w1 w2]. unfold reads2, s_even_body, transpose_even_body; cbn [fst snd].
  intros (H1 & H2). repeat split; auto 10 with ds.
Qed.

Lemma loop_sim fuel nDims inB fe m si wi sc wc :
  reads si wi -> reads sc wc ->
  reads (s_loop fuel nDims inB fe m si sc) (transpose_loop fuel nDims inB fe m wi wc).
Proof.
  revert inB fe m si wi sc wc. induction fuel as [|fuel IH]; intros inB fe m si wi sc wc Hi Hc.
  - cbn. auto with ds.
  - cbn [s_loop transpose_loop]. case_if; [auto with ds|]. cbv zeta. case_if.
    + match goal with |- context [fold_left (s_odd_body ?b ?u ?h ?m1 ?m2 ?m3) ?l ?s] =>
        match goal with |- context [fold_left (transpose_odd_body b u h m1 m2 m3) l ?w] =>
          pose proof (fold_left_sim reads3 _ _ l s w (odd_body_sim b u h m1 m2 m3)) as H end end.
      assert (H' := H ltac:(repeat split; cbn [fst snd]; auto with ds)). revert H'. clear H.
      destruct (fold_left _ _ _) as [[? ?] ?], (fold_left _ _ _) as [[? ?] ?].
      intros (H1 & H2 & H3). by apply IH.
    + match goal with |- context [fold_left (s_even_body ?b ?u ?h ?m1 ?m2) ?l ?s] =>
        match goal with |- context [fold_left (transpose_even_body b u h m1 m2) l ?w] =>
          pose proof (fold_left_sim reads2 _ _ l s w (even_body_sim b u h m1 m2)) as H end end.
      assert (H' := H ltac:(repeat split; cbn [fst snd]; auto with ds)). revert H'. clear H.
      destruct (fold_left _ _ _) as [? ?], (fold_left _ _ _) as [? ?].
      intros (H1 & H2). by apply IH.
Qed.

Lemma transpose_sim nDims nBits :
  0 <= x < 2 ^ Z.of_nat (nDims * nBits) ->
  reads (s_transpose nDims nBits) (bitTranspose nDims nBits x).
Proof. intros. apply loop_sim; [by apply reads_input|apply reads_nil]. Qed.
End simulation.

(** ** The check over all sizes *)

Definition transpose_src (nDims nBits p : nat) : list nat :=
  if (p <? nDims * nBits)%nat then [((p mod nDims) * nBits + p / nDims)%nat] else [].

Fixpoint bits_from (s : sword) (nDims nBits p count : nat) : bool :=
  match count with
  | O => match s with [] => true | _ => false end
  | S count =>
      bool_decide (nth 0 s [] = transpose_src nDims nBits p)
      && bits_from (tail s) nDims nBits (S p) count
  end.

Definition transpose_sizes : list (nat * nat) :=
  a ← seq 2 31; (fun b => (a, b)) <$> seq 1 (64 / a).

Lemma transpose_all_ok : 
  forallb (fun ab => bits_from (s_transpose ab.1 ab.2) ab.1 ab.2 0 64) transpose_sizes = true.
Proof. vm_compute. reflexivity. Qed.

Lemma bits_from_nth s nDims nBits p count :
  bits_from s nDims nBits p count = true ->
  forall q, nth q s [] = if (q <? count)%nat then transpose_src nDims nBits (p + q) else [].
Proof.
  revert s p. induction count as [|count IH]; intros s p H q; cbn [bits_from] in H.
  - destruct s; [|done]. by destruct q.
  - apply andb_true_iff in H as [H0 H]. apply bool_decide_eq_true_1 in H0.
    destruct q as [|q]; [by rewrite H0, Nat.add_0_r|].
    specialize (IH _ _ H q). change (S q <? S count)%nat with (q <? count)%nat.
    rewrite Nat.add_succ_r, <- Nat.add_succ_l, <- IH. by destruct s, q.
Qed.

Lemma transpose_sizes_in a b : (2 <= a)%nat -> (1 <= b)%nat -> (a * b <= 64)%nat ->
  (a <= 32)%nat -> (a, b) ∈ transpose_sizes.
Proof.
  intros. unfold transpose_sizes. apply list_elem_of_bind. exists a. split.
  - apply list_elem_of_fmap_2. apply elem_of_seq.
    assert (b <= 64 / a)%nat by (apply Nat.div_le_lower_bound; lia). lia.
  - apply elem_of_seq. lia.
Qed.

Lemma transpose_ok_size a b : (2 <= a <= 32)%nat -> (1 <= b)%nat -> (a * b <= 64)%nat ->
  bits_from (s_transpose a b) a b 0 64 = true.
Proof.
  intros. pose proof transpose_all_ok as H2. rewrite forallb_forall in H2.
  apply (H2 (a, b)). apply list_elem_of_In, transpose_sizes_in; lia.
Qed.

Lemma reads_bit x s w p : reads x s w ->
  Z.testbit w (Z.of_nat p) = existsb (fun i => Z.testbit x (Z.of_nat i)) (nth p s []).
Proof. intros H. apply H. Qed.

(** Bit [p] of the result is bit [p / nDims] of coordinate [p mod nDims]. *)
Lemma bitTranspose_bits nDims nBits x p :
  (2 <= nDims <= 32)%nat -> (1 <= nBits)%nat -> (nDims * nBits <= 64)%nat ->
  0 <= x < 2 ^ Z.of_nat (nDims * nBits) ->
  Z.testbit (bitTranspose nDims nBits x) (Z.of_nat p) =
  ((p <? nDims * nBits)%nat && Z.testbit x (Z.of_nat ((p mod nDims) * nBits + p / nDims))).
Proof.
  intros Hn Hb Hnb Hx. rewrite (reads_bit x _ _ p (transpose_sim x nDims nBits Hx)).
  rewrite (bits_from_nth _ _ _ _ _ (transpose_ok_size _ _ Hn Hb Hnb)), Nat.add_0_l.
  unfold transpose_src. destruct (Nat.ltb_spec p (nDims * nBits)).
  - destruct (Nat.ltb_spec p 64); [|lia]. cbn [existsb andb]. by rewrite orb_false_r.
  - by destruct (p <? 64)%nat.
Qed.

(** ** The reference version *)

Lemma testbit_shl64 x k p : 0 <= p -> Z.testbit (shl64 x k) p =
  (p <? 64) && (Z.of_nat k <=? p) && Z.testbit x (p - Z.of_nat k).
Proof.
  intros Hp. unfold shl64, u64. destruct (Z.ltb_spec p 64).
  - rewrite Z.mod_pow2_bits_low, Z.shiftl_spec by lia.
    destruct (Z.leb_spec (Z.of_nat k) p); [done|]. by rewrite Z.testbit_neg_r by lia.
  - by rewrite Z.mod_pow2_bits_high by lia.
Qed.

Lemma testbit_rdbit i s p : 0 <= p -> Z.testbit (rdbit i s) p = (p =? 0) && Z.testbit i (Z.of_nat s).
Proof.
  intros Hp. unfold rdbit, shr. rewrite Z.land_spec, Z.shiftr_spec by done.
  change 1 with (Z.ones 1). rewrite Z.testbit_ones by lia.
  destruct (Z.eqb_spec p 0) as [->|]; cbn [andb]; [by rewrite andb_true_r|].
  destruct (Z.ltb_spec p 1); [lia|]. by rewrite !andb_false_r.
Qed.

Lemma transpose_ref_out_bits n i t : (2 <= n)%nat -> forall s p, (p < 64)%nat ->
  Z.testbit (fold_left (fun out b => Z.lor (shl64 out n) (rdbit i b)) (rev (seq s t)) 0) (Z.of_nat p) =
  (p mod n =? 0)%nat && (p / n <? t)%nat && Z.testbit i (Z.of_nat (s + p / n)).
Proof.
  intros Hn. induction t as [|t IH]; intros s p Hp.
  { cbn. rewrite Z.bits_0, andb_false_r. done. }
  cbn [seq rev]. rewrite fold_left_app. cbn [fold_left].
  rewrite Z.lor_spec, testbit_shl64, testbit_rdbit by lia.
  destruct (Z.ltb_spec (Z.of_nat p) 64); [|lia]. cbn [andb].
  destruct (Nat.lt_ge_cases p n) as [Hlt|Hge].
  - rewrite Nat.mod_small, Nat.div_small, Nat.add_0_r by done.
    destruct (Z.leb_spec (Z.of_nat n) (Z.of_nat p)); [lia|]. cbn [andb orb].
    replace (Z.of_nat p =? 0) with (p =? 0)%nat by (destruct p; done). by destruct (p =? 0)%nat.
  - destruct (Z.leb_spec (Z.of_nat n) (Z.of_nat p)); [|lia]. cbn [andb].
    rewrite <- Nat2Z.inj_sub, IH by lia. destruct (Z.eqb_spec (Z.of_nat p) 0); [lia|].
    cbn [andb]. rewrite orb_false_r.
    assert (p = (p - n) + 1 * n)%nat as E by lia. rewrite E at 4 5 6.
    rewrite Nat.Div0.mod_add, Nat.div_add by lia. rewrite Nat.add_1_r, Nat.add_succ_r. done.
Qed.

Lemma mod_shift n p d : (d < n)%nat -> (d <= p)%nat ->
  ((p - d) mod n =? 0)%nat = (p mod n =? d)%nat /\ (p mod n = d -> (p - d) / n = p / n)%nat.
Proof.
  intros Hd Hp. pose proof (Nat.div_mod_eq p n) as E. split.
  - apply eq_true_iff_eq. rewrite !Nat.eqb_eq. split; intros H.
    + apply Nat.Div0.mod_divides in H as [c Hc]. symmetry.
      apply (Nat.mod_unique _ _ c); lia.
    + replace (p - d)%nat with (p / n * n)%nat by lia. by rewrite Nat.Div0.mod_mul.
  - intros H. replace (p - d)%nat with (p / n * n)%nat by lia. rewrite Nat.div_mul; lia.
Qed.

Lemma testbit_ones64 k j : (1 <= k <= 64)%nat -> 0 <= j -> Z.testbit (ones64 k) j = (j <? Z.of_nat k).
Proof.
  intros Hk Hj. replace (ones64 k) with (Z.ones (Z.of_nat k)); [by apply Z.testbit_ones_nonneg; lia|].
  unfold ones64, shl64. rewrite Z.ones_equiv. rewrite Z.shiftl_mul_pow2 by lia.
  replace (2 * 2 ^ Z.of_nat (k - 1)) with (2 ^ Z.of_nat k).
  2: { replace (Z.of_nat k) with (1 + Z.of_nat (k - 1)) by lia. by rewrite Z.pow_add_r by lia. }
  unfold u64. rewrite Zminus_mod_idemp_l. assert (0 < 2 ^ Z.of_nat k) by lia.
  assert (2 ^ Z.of_nat k <= 2 ^ 64) by (apply Z.pow_le_mono_r; lia).
  rewrite Z.mod_small; lia.
Qed.

Lemma bitTranspose_ref_bits n B x : (2 <= n)%nat -> (1 <= B <= 64)%nat -> forall k, (k <= n)%nat ->
  let st := fold_left (fun '(inCoords, coords) d =>
         let i := Z.land inCoords (ones64 B) in
         (shr inCoords B, Z.lor coords (shl64 (transpose_ref_out n B i) d))) (seq 0 k) (x, 0) in
  fst st = shr x (k * B) /\ forall p, (p < 64)%nat -> Z.testbit (snd st) (Z.of_nat p) =
    (p mod n <? k)%nat && (p / n <? B)%nat && Z.testbit x (Z.of_nat ((p mod n) * B + p / n)).
Proof.
  intros Hn HB. induction k as [|k IH]; intros Hk.
  { cbn. split; [done|]. intros. by rewrite Z.bits_0. }
  specialize (IH ltac:(lia)). cbv zeta in *. rewrite seq_S, fold_left_app. cbn [fold_left Nat.add].
  destruct (fold_left _ (seq 0 k) (x, 0)) as [y acc]. cbn [fst snd] in *. destruct IH as [-> IH].
  split. { unfold shr. rewrite Z.shiftr_shiftr by lia. f_equal. lia. }
  intros p Hp. rewrite Z.lor_spec, IH, testbit_shl64 by lia.
  destruct (Z.ltb_spec (Z.of_nat p) 64); [|lia]. cbn [andb].
  destruct (Nat.lt_ge_cases p k) as [Hlt|Hge].
  { destruct (Z.leb_spec (Z.of_nat k) (Z.of_nat p)); [lia|]. cbn [andb]. rewrite orb_false_r.
    rewrite Nat.mod_small by lia. destruct (Nat.ltb_spec p k), (Nat.ltb_spec p (S k)); try lia. done. }
  destruct (Z.leb_spec (Z.of_nat k) (Z.of_nat p)); [|lia]. cbn [andb].
  rewrite <- Nat2Z.inj_sub by lia. unfold transpose_ref_out. rewrite transpose_ref_out_bits by lia.
  destruct (mod_shift n p k ltac:(lia) Hge) as [-> Hq]. rewrite Nat.add_0_l.
  destruct (Nat.eqb_spec (p mod n) k) as [E|E]; cbn [andb].
  - rewrite Hq, E by done. destruct (Nat.ltb_spec k k), (Nat.ltb_spec k (S k)); try lia. cbn [andb orb].
    destruct (Nat.ltb_spec (p / n) B); cbn [andb]; [|done].
    unfold shr. rewrite Z.land_spec, Z.shiftr_spec, testbit_ones64 by lia.
    destruct (Z.ltb_spec (Z.of_nat (p / n)) (Z.of_nat B)); [|lia]. rewrite andb_true_r. f_equal. lia.
  - rewrite orb_false_r. destruct (Nat.ltb_spec (p mod n) k), (Nat.ltb_spec (p mod n) (S k)); (lia || done).
Qed.

Lemma bitTranspose_ref_high n B x j : 64 <= j -> Z.testbit (bitTranspose_ref n B x) j = false.
Proof.
  intros Hj. unfold bitTranspose_ref. generalize (seq 0 n).
  assert (Z.testbit (snd (x, 0)) j = false) as H by apply Z.bits_0. revert H. generalize (x, 0).
  intros st H l. revert st H. induction l as [|d l IH]; intros [y acc] H; cbn [fold_left]; [done|].
  apply IH. cbn [snd] in *. rewrite Z.lor_spec, H, testbit_shl64 by lia.
  destruct (Z.ltb_spec j 64); [lia|done].
Qed.

(** C38: the optimised [bitTranspose], which moves whole fields of bits and
    halves the field width in every round, computes the same word as the
    bit-by-bit version that sfc.h keeps beside it, for every number of
    dimensions and bits whose product fits the 64-bit word. *)
Theorem bitTranspose_equiv nDims nBits x :
  (2 <= nDims <= 32)%nat -> (1 <= nBits)%nat -> (nDims * nBits <= 64)%nat ->
  0 <= x < 2 ^ Z.of_nat (nDims * nBits) ->
  bitTranspose nDims nBits x = bitTranspose_ref nDims nBits x.
Proof.
  intros Hn Hb Hnb Hx. apply Z.bits_inj'. intros j Hj. destruct (Z.lt_ge_cases j 64) as [Hj64|Hj64].
  - rewrite <- (Z2Nat.id j) by done. set (p := Z.to_nat j). assert (p < 64)%nat by (subst p; lia).
    rewrite bitTranspose_bits by done. unfold bitTranspose_ref.
    symmetry. etrans;
      [exact (proj2 (bitTranspose_ref_bits nDims nBits x ltac:(lia) ltac:(nia) nDims ltac:(lia)) p ltac:(done))|].
    symmetry.
    pose proof (Nat.mod_upper_bound p nDims ltac:(lia)). destruct (Nat.ltb_spec (p mod nDims) nDims); [|lia].
    cbn [andb]. f_equal. apply eq_true_iff_eq. rewrite !Nat.ltb_lt. split; intros Hlt.
    + apply Nat.Div0.div_lt_upper_bound. lia.
    + pose proof (Nat.div_mod_eq p nDims). nia.
  - rewrite bitTranspose_ref_high by done. rewrite <- (Z2Nat.id j) by done.
    rewrite bitTranspose_bits by done. destruct (Nat.ltb_spec (Z.to_nat j) (nDims * nBits)); [lia|done].
Qed.

Lemma bitTranspose_equiv_witness : bitTranspose 3 5 12345 = bitTranspose_ref 3 5 12345.
Proof. apply bitTranspose_equiv; cbn; lia. Defined.
