(* ===== verification/SfcCurve.v ===== *)
(** * The Hilbert curve maps aligned cubes to index intervals

    [hilbert_c2i] is analysed as a machine that reads the n-bit digits of
    the transposed coordinates from the top and emits the n-bit digits of
    the index.  Each step is a bijection on digits, so that an aligned cube
    of side 2^m is mapped onto an aligned interval of 2^(n*m) indices; the
    two ends of the interval are the images of two corners of the cube, and
    the corner of the largest index is never the lower corner.  These are
    the facts that bbox.c relies on. *)

From S2P Require Import Prelude Sfc SfcTranspose.

Create HintDb dig.

(** ** Bits of words *)

Lemma testbit_ge x k i : 0 <= x < 2 ^ k -> k <= i -> Z.testbit x i = false.
Proof.
  intros Hx Hi. destruct (Z.eqb_spec x 0) as [->|]; [apply Z.bits_0|].
  apply Z.bits_above_log2; [lia|].
  assert (0 <= k) by (destruct (Z.le_gt_cases 0 k); [done|]; rewrite Z.pow_neg_r in Hx; lia).
  apply Z.log2_lt_pow2; [lia|]. eapply Z.lt_le_trans; [apply Hx|].
  apply Z.pow_le_mono_r; lia.
Qed.

Lemma bits_lt x k : 0 <= k -> 0 <= x -> (forall i, k <= i -> Z.testbit x i = false) -> x < 2 ^ k.
Proof.
  intros Hk Hx H.
  assert (x mod 2 ^ k = x) as <-; [|apply Z.mod_pos_bound; lia].
  apply Z.bits_inj'. intros i Hi. destruct (Z.lt_ge_cases i k).
  - by rewrite Z.mod_pow2_bits_low by lia.
  - rewrite Z.mod_pow2_bits_high by lia. by rewrite H.
Qed.

Lemma lxor_range a b k : 0 <= k -> 0 <= a < 2 ^ k -> 0 <= b < 2 ^ k -> 0 <= Z.lxor a b < 2 ^ k.
Proof.
  intros Hk Ha Hb. assert (0 <= Z.lxor a b) by (apply Z.lxor_nonneg; lia).
  split; [done|]. apply bits_lt; try done. intros i Hi.
  by rewrite Z.lxor_spec, (testbit_ge a k), (testbit_ge b k).
Qed.

Lemma testbit_shr x k i : 0 <= i -> Z.testbit (shr x k) i = Z.testbit x (i + Z.of_nat k).
Proof. intros. unfold shr. by rewrite Z.shiftr_spec. Qed.

Lemma pow2_pos k : 0 < 2 ^ Z.of_nat k.
Proof. apply Z.pow_pos_nonneg; lia. Qed.

Lemma shl64_small x k : 0 <= x -> x * 2 ^ Z.of_nat k < 2 ^ 64 -> shl64 x k = x * 2 ^ Z.of_nat k.
Proof.
  intros. unfold shl64. rewrite Z.shiftl_mul_pow2 by lia. pose proof (pow2_pos k).
  apply u64_small. split; [lia|done].
Qed.

Lemma shl32_small x k : 0 <= x -> x * 2 ^ Z.of_nat k < 2 ^ 32 -> shl32 x k = x * 2 ^ Z.of_nat k.
Proof.
  intros. unfold shl32. rewrite Z.shiftl_mul_pow2 by lia. pose proof (pow2_pos k).
  apply u32_small. split; [lia|done].
Qed.

Lemma pow2_S_pred k : (1 <= k)%nat -> 2 ^ Z.of_nat k = 2 * 2 ^ Z.of_nat (k - 1).
Proof.
  intros. replace (Z.of_nat k) with (Z.succ (Z.of_nat (k - 1))) by lia.
  apply Z.pow_succ_r. lia.
Qed.

Lemma ones64_eq k : (1 <= k <= 64)%nat -> ones64 k = 2 ^ Z.of_nat k - 1.
Proof.
  intros Hk. unfold ones64. pose proof (pow2_pos (k - 1)).
  destruct (decide (k = 64%nat)) as [->|Hne]; [reflexivity|].
  assert (2 ^ Z.of_nat k <= 2 ^ 63) by (apply Z.pow_le_mono_r; lia).
  pose proof (pow2_S_pred k ltac:(lia)). rewrite shl64_small by lia.
  rewrite <- pow2_S_pred by lia. pose proof (pow2_pos k). apply u64_small. lia.
Qed.

Lemma ones32_eq k : (1 <= k <= 32)%nat -> ones32 k = 2 ^ Z.of_nat k - 1.
Proof.
  intros Hk. unfold ones32. pose proof (pow2_pos (k - 1)).
  destruct (decide (k = 32%nat)) as [->|Hne]; [reflexivity|].
  assert (2 ^ Z.of_nat k <= 2 ^ 31) by (apply Z.pow_le_mono_r; lia).
  pose proof (pow2_S_pred k ltac:(lia)). rewrite shl32_small by lia.
  rewrite <- pow2_S_pred by lia. pose proof (pow2_pos k). apply u32_small. lia.
Qed.

Lemma land_ones_testbit x k i : 0 <= i ->
  Z.testbit (Z.land x (2 ^ Z.of_nat k - 1)) i = (i <? Z.of_nat k) && Z.testbit x i.
Proof.
  intros Hi. replace (2 ^ Z.of_nat k - 1) with (Z.ones (Z.of_nat k)) by (rewrite Z.ones_equiv; lia).
  rewrite Z.land_spec, Z.testbit_ones_nonneg by lia. apply andb_comm.
Qed.

Lemma land_ones_range x k : 0 <= Z.land x (2 ^ Z.of_nat k - 1) < 2 ^ Z.of_nat k.
Proof.
  replace (2 ^ Z.of_nat k - 1) with (Z.ones (Z.of_nat k)) by (rewrite Z.ones_equiv; lia).
  rewrite Z.land_ones by lia. apply Z.mod_pos_bound, pow2_pos.
Qed.

Lemma land_ones_small x k : 0 <= x < 2 ^ Z.of_nat k -> Z.land x (2 ^ Z.of_nat k - 1) = x.
Proof.
  intros. replace (2 ^ Z.of_nat k - 1) with (Z.ones (Z.of_nat k)) by (rewrite Z.ones_equiv; lia).
  rewrite Z.land_ones by lia. by apply Z.mod_small.
Qed.

(** A word as a high part and an n-bit digit. *)
Lemma testbit_digit n a d i : 0 <= d < 2 ^ Z.of_nat n -> 0 <= i ->
  Z.testbit (a * 2 ^ Z.of_nat n + d) i =
  if i <? Z.of_nat n then Z.testbit d i else Z.testbit a (i - Z.of_nat n).
Proof.
  intros Hd Hi. pose proof (pow2_pos n).
  replace (a * 2 ^ Z.of_nat n + d) with (Z.lor (Z.shiftl a (Z.of_nat n)) d).
  - rewrite Z.lor_spec, Z.shiftl_spec by done. destruct (Z.ltb_spec i (Z.of_nat n)).
    + by rewrite Z.testbit_neg_r by lia.
    + rewrite (testbit_ge d (Z.of_nat n)) by lia. apply orb_false_r.
  - rewrite <- Z.add_lor_land, <- (Z.shiftl_mul_pow2 a) by lia.
    replace (Z.land (Z.shiftl a (Z.of_nat n)) d) with 0; [lia|].
    symmetry. apply Z.bits_inj'. intros j Hj. rewrite Z.bits_0, Z.land_spec, Z.shiftl_spec by done.
    destruct (Z.lt_ge_cases j (Z.of_nat n)).
    + by rewrite Z.testbit_neg_r by lia.
    + rewrite (testbit_ge d (Z.of_nat n)) by lia. apply andb_false_r.
Qed.

Lemma lor_digit n a d : 0 <= d < 2 ^ Z.of_nat n ->
  Z.lor (a * 2 ^ Z.of_nat n) d = a * 2 ^ Z.of_nat n + d.
Proof.
  intros. apply Z.bits_inj'. intros i Hi. rewrite testbit_digit by done.
  rewrite Z.lor_spec, Z.mul_pow2_bits by lia. destruct (Z.ltb_spec i (Z.of_nat n)).
  - by rewrite Z.testbit_neg_r by lia.
  - rewrite (testbit_ge d (Z.of_nat n)) by lia. apply orb_false_r.
Qed.

(** ** Prefix exclusive or

    [pxor k x] is x ^ (x >> 1) ^ ... ^ (x >> (k-1)). *)

Fixpoint pxor (k : nat) (x : Z) : Z :=
  match k with
  | O => 0
  | S k => Z.lxor x (shr (pxor k x) 1)
  end.

Lemma shr_shr x a b : shr (shr x a) b = shr x (a + b).
Proof. unfold shr. rewrite Z.shiftr_shiftr by lia. by rewrite Nat2Z.inj_add. Qed.

Lemma shr_lxor x y k : shr (Z.lxor x y) k = Z.lxor (shr x k) (shr y k).
Proof. apply Z.shiftr_lxor. Qed.

Lemma shr_0 x : shr x 0 = x.
Proof. apply Z.shiftr_0_r. Qed.

Lemma pxor_nonneg k x : 0 <= x -> 0 <= pxor k x.
Proof.
  intros. induction k as [|k IH]; cbn [pxor]; [done|].
  apply Z.lxor_nonneg. unfold shr. rewrite Z.shiftr_nonneg. lia.
Qed.

Lemma pxor_range k n x : 0 <= x < 2 ^ Z.of_nat n -> 0 <= pxor k x < 2 ^ Z.of_nat n.
Proof.
  intros Hx. induction k as [|k IH]; cbn [pxor]; [pose proof (pow2_pos n); lia|].
  apply lxor_range; [lia|done|]. unfold shr. rewrite Z.shiftr_div_pow2 by lia.
  change (2 ^ Z.of_nat 1) with 2. Z.div_mod_to_equations; lia.
Qed.

Lemma pxor_add a b x : pxor (a + b) x = Z.lxor (pxor a x) (shr (pxor b x) a).
Proof.
  induction a as [|a IH]; cbn [pxor Nat.add]; [by rewrite Z.lxor_0_l, shr_0|].
  rewrite IH, shr_lxor, shr_shr, Nat.add_1_r. by rewrite Z.lxor_assoc.
Qed.

Lemma shr_small x k : 0 <= x < 2 ^ Z.of_nat k -> shr x k = 0.
Proof. intros. unfold shr. rewrite Z.shiftr_div_pow2 by lia. by apply Z.div_small. Qed.

Lemma pxor_stable n k x : 0 <= x < 2 ^ Z.of_nat n -> (n <= k)%nat -> pxor k x = pxor n x.
Proof.
  intros Hx Hk. replace k with (n + (k - n))%nat by lia.
  rewrite pxor_add, shr_small; [apply Z.lxor_0_r|]. by apply pxor_range.
Qed.

(** [pxor] undoes the Gray code. *)
Lemma gray_pxor n x : 0 <= x < 2 ^ Z.of_nat n ->
  Z.lxor (pxor n x) (shr (pxor n x) 1) = x.
Proof.
  intros Hx. rewrite <- (pxor_stable n (S n) x Hx) at 1 by lia. cbn [pxor].
  by rewrite Z.lxor_assoc, Z.lxor_nilpotent, Z.lxor_0_r.
Qed.

Lemma pxor_gray n x : 0 <= x < 2 ^ Z.of_nat n ->
  pxor n (Z.lxor x (shr x 1)) = x.
Proof.
  intros Hx. assert (forall k, pxor k (Z.lxor x (shr x 1)) = Z.lxor x (shr x k)) as H.
  { induction k as [|k IH]; cbn [pxor].
    - by rewrite shr_0, Z.lxor_nilpotent.
    - rewrite IH, shr_lxor, shr_shr, Nat.add_1_r, Z.lxor_assoc.
      f_equal. by rewrite <- Z.lxor_assoc, Z.lxor_nilpotent, Z.lxor_0_l. }
  rewrite H, shr_small by done. apply Z.lxor_0_r.
Qed.

Lemma xor_down_pxor fuel d limit n x :
  0 <= x < 2 ^ Z.of_nat n -> (n <= limit)%nat -> (1 <= d)%nat ->
  (limit <= d * 2 ^ fuel)%nat ->
  xor_down fuel d limit (pxor d x) = pxor n x.
Proof.
  intros Hx Hn. revert d. induction fuel as [|fuel IH]; intros d Hd Hl; cbn [xor_down].
  - apply pxor_stable; [done|]. cbn in Hl. lia.
  - destruct (Nat.ltb_spec d limit).
    + rewrite <- pxor_add. replace (d + d)%nat with (2 * d)%nat by lia.
      apply IH; [lia|]. rewrite Nat.pow_succ_r' in Hl. lia.
    + apply pxor_stable; [done|lia].
Qed.

Lemma pow2_ge m k : (m <= k)%nat -> (m <= 1 * 2 ^ k)%nat.
Proof.
  intros. etransitivity; [done|]. rewrite Nat.mul_1_l.
  apply Nat.lt_le_incl, Nat.pow_gt_lin_r. lia.
Qed.

(** ** Rotations of n-bit digits *)

Section digits.
Context (n : nat) (Hn : (2 <= n <= 16)%nat).

Abbreviation W := (2 ^ Z.of_nat n).

Lemma W_bound : 4 <= W <= 2 ^ 16.
Proof. split; [change 4 with (2 ^ 2)|]; apply Z.pow_le_mono_r; lia. Qed.

Definition top_bit : Z := 2 ^ Z.of_nat (n - 1).

Lemma top_bit_eq : W = 2 * top_bit.
Proof. apply pow2_S_pred. lia. Qed.

Lemma top_bit_range : 0 <= top_bit < W.
Proof. pose proof top_bit_eq. pose proof (pow2_pos (n - 1)). unfold top_bit in *. lia. Qed.

Lemma rotate_shl x k : 0 <= x < W -> (k <= n)%nat -> shl32 x k = x * 2 ^ Z.of_nat k.
Proof.
  intros Hx Hk. apply shl32_small; [lia|]. pose proof W_bound.
  assert (2 ^ Z.of_nat k <= W) by (apply Z.pow_le_mono_r; lia).
  pose proof (pow2_pos k).
  assert (x * 2 ^ Z.of_nat k <= (W - 1) * W) by (apply Z.mul_le_mono_nonneg; lia).
  assert ((W - 1) * W <= (2 ^ 16 - 1) * 2 ^ 16) by (apply Z.mul_le_mono_nonneg; lia). lia.
Qed.

Lemma rotateRight_bit x r i : 0 <= x < W -> (r < n)%nat -> (i < n)%nat ->
  Z.testbit (rotateRight x r n) (Z.of_nat i) = Z.testbit x (Z.of_nat ((i + r) mod n)).
Proof.
  intros Hx Hr Hi. unfold rotateRight. rewrite rotate_shl, ones64_eq by (done || lia).
  rewrite land_ones_testbit by lia. destruct (Z.ltb_spec (Z.of_nat i) (Z.of_nat n)); [|lia].
  rewrite andb_true_l, Z.lor_spec, testbit_shr, Z.mul_pow2_bits by lia.
  destruct (Nat.lt_ge_cases (i + r) n).
  - rewrite (Z.testbit_neg_r x (_ - _)), orb_false_r, Nat.mod_small by lia. f_equal. lia.
  - rewrite (testbit_ge x (Z.of_nat n) (_ + _)), orb_false_l by lia. f_equal.
    replace (i + r)%nat with ((i + r - n) + 1 * n)%nat by lia.
    rewrite Nat.Div0.mod_add, Nat.mod_small by lia. lia.
Qed.

Lemma rotateLeft_bit x r i : 0 <= x < W -> (r < n)%nat -> (i < n)%nat ->
  Z.testbit (rotateLeft x r n) (Z.of_nat i) = Z.testbit x (Z.of_nat ((i + (n - r)) mod n)).
Proof.
  intros Hx Hr Hi. unfold rotateLeft. rewrite rotate_shl, ones64_eq by (done || lia).
  rewrite land_ones_testbit by lia. destruct (Z.ltb_spec (Z.of_nat i) (Z.of_nat n)); [|lia].
  rewrite andb_true_l, Z.lor_spec, testbit_shr, Z.mul_pow2_bits by lia.
  destruct (Nat.lt_ge_cases i r).
  - rewrite (Z.testbit_neg_r x (_ - _)), orb_false_l, Nat.mod_small by lia. f_equal. lia.
  - rewrite (testbit_ge x (Z.of_nat n) (_ + _)), orb_false_r by lia. f_equal.
    replace (i + (n - r))%nat with ((i - r) + 1 * n)%nat by lia.
    rewrite Nat.Div0.mod_add, Nat.mod_small by lia. lia.
Qed.

Lemma rotateRight_range x r : 0 <= rotateRight x r n < W.
Proof. unfold rotateRight. rewrite ones64_eq by lia. apply land_ones_range. Qed.

Lemma rotateLeft_range x r : 0 <= rotateLeft x r n < W.
Proof. unfold rotateLeft. rewrite ones64_eq by lia. apply land_ones_range. Qed.

(** Two digits are equal when their n low bits are. *)
Lemma digit_ext x y : 0 <= x < W -> 0 <= y < W ->
  (forall i, (i < n)%nat -> Z.testbit x (Z.of_nat i) = Z.testbit y (Z.of_nat i)) -> x = y.
Proof.
  intros Hx Hy H. apply Z.bits_inj'. intros i Hi. destruct (Z.lt_ge_cases i (Z.of_nat n)).
  - replace i with (Z.of_nat (Z.to_nat i)) by lia. apply H. lia.
  - by rewrite (testbit_ge x (Z.of_nat n)), (testbit_ge y (Z.of_nat n)).
Qed.

Lemma mod_add_sub i r : (r < n)%nat -> (i < n)%nat ->
  (((i + (n - r)) mod n + r) mod n = i)%nat /\ (((i + r) mod n + (n - r)) mod n = i)%nat.
Proof.
  intros. rewrite !Nat.Div0.add_mod_idemp_l.
  replace (i + (n - r) + r)%nat with (i + 1 * n)%nat by lia.
  replace (i + r + (n - r))%nat with (i + 1 * n)%nat by lia.
  rewrite !Nat.Div0.mod_add, Nat.mod_small by lia. done.
Qed.

Lemma rotateRight_Left x r : 0 <= x < W -> (r < n)%nat -> rotateRight (rotateLeft x r n) r n = x.
Proof.
  intros Hx Hr. apply digit_ext; [apply rotateRight_range|done|]. intros i Hi.
  rewrite rotateRight_bit by (apply rotateLeft_range || done).
  rewrite rotateLeft_bit by (done || (apply Nat.mod_upper_bound; lia)).
  by rewrite (proj2 (mod_add_sub i r Hr Hi)).
Qed.

Lemma rotateLeft_Right x r : 0 <= x < W -> (r < n)%nat -> rotateLeft (rotateRight x r n) r n = x.
Proof.
  intros Hx Hr. apply digit_ext; [apply rotateLeft_range|done|]. intros i Hi.
  rewrite rotateLeft_bit by (apply rotateRight_range || done).
  rewrite rotateRight_bit by (done || (apply Nat.mod_upper_bound; lia)).
  by rewrite (proj1 (mod_add_sub i r Hr Hi)).
Qed.

Lemma rotateLeft_top r : (r < n)%nat ->
  rotateLeft top_bit ((r + 1) mod n) n = 2 ^ Z.of_nat r.
Proof.
  intros Hr. assert (2 ^ Z.of_nat r < W) by (apply Z.pow_lt_mono_r; lia).
  pose proof (pow2_pos r). apply digit_ext; [apply rotateLeft_range|lia|]. intros i Hi.
  rewrite rotateLeft_bit; [|apply top_bit_range|apply Nat.mod_upper_bound; lia|done].
  unfold top_bit. rewrite !Z.pow2_bits_eqb by lia.
  destruct (decide (r + 1 = n)%nat) as [<-|].
  - rewrite Nat.Div0.mod_same.
    replace (i + (r + 1 - 0))%nat with (i + 1 * (r + 1))%nat by lia.
    rewrite Nat.Div0.mod_add, Nat.mod_small by lia.
    destruct (Z.eqb_spec (Z.of_nat r) (Z.of_nat i)), (Z.eqb_spec (Z.of_nat (r + 1 - 1)) (Z.of_nat i)); lia.
  - rewrite (Nat.mod_small (r + 1)) by lia.
    destruct (Nat.lt_ge_cases i (r + 1)).
    + rewrite Nat.mod_small by lia.
      destruct (Z.eqb_spec (Z.of_nat r) (Z.of_nat i)), (Z.eqb_spec (Z.of_nat (n - 1)) (Z.of_nat (i + (n - (r + 1))))); lia.
    + replace (i + (n - (r + 1)))%nat with ((i - (r + 1)) + 1 * n)%nat by lia.
      rewrite Nat.Div0.mod_add, Nat.mod_small by lia.
      destruct (Z.eqb_spec (Z.of_nat r) (Z.of_nat i)), (Z.eqb_spec (Z.of_nat (n - 1)) (Z.of_nat (i - (r + 1)))); lia.
Qed.

(** ** The rotation update *)

Lemma nd1Ones_eq : shr (ones32 n) 1 = 2 ^ Z.of_nat (n - 1) - 1.
Proof.
  rewrite ones32_eq, pow2_S_pred by lia. unfold shr. rewrite Z.shiftr_div_pow2 by lia.
  change (2 ^ Z.of_nat 1) with 2. pose proof (pow2_pos (n - 1)).
  Z.div_mod_to_equations; lia.
Qed.

Lemma shift_out_le fuel k b r : 0 <= b < 2 ^ Z.of_nat k ->
  (r <= shift_out fuel b r <= r + k)%nat.
Proof.
  revert k b r. induction fuel as [|fuel IH]; intros k b r Hb; cbn [shift_out]; [lia|].
  destruct (Z.eqb_spec b 0); [lia|]. destruct k as [|k]; [change (2 ^ Z.of_nat 0) with 1 in Hb; lia|].
  assert (0 <= shr b 1 < 2 ^ Z.of_nat k) as Hb'.
  { unfold shr. rewrite Z.shiftr_div_pow2 by lia. change (2 ^ Z.of_nat 1) with 2.
    rewrite Nat2Z.inj_succ, Z.pow_succ_r in Hb by lia. Z.div_mod_to_equations; lia. }
  specialize (IH k _ (S r) Hb'). lia.
Qed.

Lemma adjust_rotation_lt r bits : (r < n)%nat ->
  (adjust_rotation r n bits (shr (ones32 n) 1) < n)%nat.
Proof.
  intros Hr. unfold adjust_rotation. rewrite nd1Ones_eq, Z.land_assoc.
  pose proof (land_ones_range (Z.land bits (u32 (- bits))) (n - 1)) as Hb.
  pose proof (shift_out_le 32 _ _ r Hb). case_if; zbool; lia.
Qed.

Lemma adjust_rotation_top r bits : (r < n)%nat -> bits = 0 \/ bits = top_bit ->
  adjust_rotation r n bits (shr (ones32 n) 1) = ((r + 1) mod n)%nat.
Proof.
  intros Hr Hb. unfold adjust_rotation. rewrite nd1Ones_eq.
  replace (Z.land bits _) with 0.
  - cbn [shift_out Z.eqb]. destruct (Nat.leb_spec n (S r)).
    + replace (r + 1)%nat with n by lia. rewrite Nat.Div0.mod_same. lia.
    + rewrite Nat.mod_small; lia.
  - destruct Hb as [->| ->]; [done|]. symmetry. apply Z.bits_inj'. intros i Hi.
    rewrite Z.bits_0, !Z.land_spec. unfold top_bit at 1. rewrite Z.pow2_bits_eqb by lia.
    destruct (Z.eqb_spec (Z.of_nat (n - 1)) i) as [<-|]; [|done].
    rewrite (testbit_ge (2 ^ Z.of_nat (n - 1) - 1) (Z.of_nat (n - 1))), !andb_false_r; [done| |lia].
    pose proof (pow2_pos (n - 1)). lia.
Qed.

(** ** The digit machine *)

Record cst := mk_cst {
  cs_rot : nat;      (* rotation *)
  cs_flip : Z;       (* flipBit *)
  cs_prev : Z;       (* the previous digit of the coordinates *)
  cs_carry : bool;   (* lowest bit of the index so far *)
  cs_top : bool      (* no digit read yet *)
}.

Definition mask (s : cst) : Z := if cs_top s then 0 else top_bit.
Definition carried (s : cst) : Z := if cs_carry s then top_bit else 0.

Definition step_bits (s : cst) (g : Z) : Z :=
  rotateRight (Z.lxor (cs_flip s) (Z.lxor g (cs_prev s))) (cs_rot s) n.

Definition step_q (s : cst) (g : Z) : Z :=
  pxor n (Z.lxor (step_bits s g) (Z.lxor (mask s) (carried s))).

Definition step_st (s : cst) (g : Z) : cst :=
  mk_cst (adjust_rotation (cs_rot s) n (step_bits s g) (shr (ones32 n) 1))
         (2 ^ Z.of_nat (cs_rot s)) g (Z.odd (step_q s g)) false.

Definition unstep (s : cst) (q : Z) : Z :=
  Z.lxor (Z.lxor (cs_flip s)
     (rotateLeft (Z.lxor (Z.lxor q (shr q 1)) (Z.lxor (mask s) (carried s))) (cs_rot s) n))
     (cs_prev s).

Definition cst_ok (s : cst) : Prop :=
  (cs_rot s < n)%nat /\ 0 <= cs_flip s < W /\ 0 <= cs_prev s < W.

Lemma mask_range s : 0 <= mask s < W.
Proof. pose proof top_bit_range. unfold mask. destruct (cs_top s); lia. Qed.

Lemma carried_range s : 0 <= carried s < W.
Proof. pose proof top_bit_range. unfold carried. destruct (cs_carry s); lia. Qed.

Lemma dx a b : 0 <= a < W -> 0 <= b < W -> 0 <= Z.lxor a b < W.
Proof. apply lxor_range. lia. Qed.

Lemma shr_range q : 0 <= q < W -> 0 <= shr q 1 < W.
Proof.
  intros. unfold shr. rewrite Z.shiftr_div_pow2 by lia.
  change (2 ^ Z.of_nat 1) with 2. Z.div_mod_to_equations; lia.
Qed.

#[local] Hint Resolve mask_range carried_range dx shr_range rotateLeft_range rotateRight_range : dig.

Lemma step_bits_range s g : 0 <= step_bits s g < W.
Proof. apply rotateRight_range. Qed.

Lemma step_q_range s g : 0 <= step_q s g < W.
Proof. apply pxor_range. auto using step_bits_range with dig. Qed.

Lemma unstep_range s q : cst_ok s -> 0 <= unstep s q < W.
Proof. intros (? & ? & ?). unfold unstep. auto with dig. Qed.

Lemma step_st_ok s g : cst_ok s -> 0 <= g < W -> cst_ok (step_st s g).
Proof.
  intros (Hr & Hf & Hp) Hg. split; [|split]; cbn; [by apply adjust_rotation_lt| |done].
  split; [pose proof (pow2_pos (cs_rot s)); lia|]. apply Z.pow_lt_mono_r; lia.
Qed.

Lemma lxor_cancel_l a b : Z.lxor a (Z.lxor a b) = b.
Proof. by rewrite <- Z.lxor_assoc, Z.lxor_nilpotent, Z.lxor_0_l. Qed.

Lemma lxor_cancel_r a b : Z.lxor (Z.lxor a b) b = a.
Proof. by rewrite Z.lxor_assoc, Z.lxor_nilpotent, Z.lxor_0_r. Qed.

Lemma step_bits_unstep s q : cst_ok s -> 0 <= q < W ->
  step_bits s (unstep s q) = Z.lxor (Z.lxor q (shr q 1)) (Z.lxor (mask s) (carried s)).
Proof.
  intros (Hr & Hf & Hp) Hq. unfold step_bits, unstep.
  by rewrite lxor_cancel_r, lxor_cancel_l, rotateRight_Left by auto with dig.
Qed.

Lemma step_unstep s q : cst_ok s -> 0 <= q < W -> step_q s (unstep s q) = q.
Proof.
  intros Hs Hq. unfold step_q. rewrite step_bits_unstep by done.
  rewrite lxor_cancel_r. by apply pxor_gray.
Qed.

Lemma unstep_step s g : cst_ok s -> 0 <= g < W -> unstep s (step_q s g) = g.
Proof.
  intros (Hr & Hf & Hp) Hg. unfold unstep, step_q.
  rewrite gray_pxor by auto using step_bits_range with dig.
  rewrite lxor_cancel_r. unfold step_bits. rewrite rotateLeft_Right by auto with dig.
  by rewrite lxor_cancel_l, lxor_cancel_r.
Qed.

(** ** Runs *)

Fixpoint run (s : cst) (gs : list Z) : list Z :=
  match gs with
  | [] => []
  | g :: gs => step_q s g :: run (step_st s g) gs
  end.

Fixpoint exec (s : cst) (gs : list Z) : cst :=
  match gs with
  | [] => s
  | g :: gs => exec (step_st s g) gs
  end.

Fixpoint unrun (s : cst) (qs : list Z) : list Z :=
  match qs with
  | [] => []
  | q :: qs => unstep s q :: unrun (step_st s (unstep s q)) qs
  end.

Abbreviation digs l := (Forall (fun d => 0 <= d < 2 ^ Z.of_nat n) l).

Lemma run_length s gs : length (run s gs) = length gs.
Proof. revert s. induction gs; cbn; auto. Qed.

Lemma unrun_length s qs : length (unrun s qs) = length qs.
Proof. revert s. induction qs; cbn; auto. Qed.

Lemma run_app s a b : run s (a ++ b) = run s a ++ run (exec s a) b.
Proof. revert s. induction a as [|g a IH]; intros s; cbn; [done|]. by rewrite IH. Qed.

Lemma exec_ok s gs : cst_ok s -> digs gs -> cst_ok (exec s gs).
Proof.
  intros Hs Hg. revert s Hs. induction Hg; cbn; [done|]. auto using step_st_ok.
Qed.

Lemma run_digs s gs : digs (run s gs).
Proof. revert s. induction gs; cbn; constructor; auto using step_q_range. Qed.

Lemma unrun_digs s qs : cst_ok s -> digs (unrun s qs).
Proof.
  revert s. induction qs; cbn; intros; constructor; auto using unstep_range, step_st_ok.
Qed.

Lemma run_unrun s qs : cst_ok s -> digs qs -> run s (unrun s qs) = qs.
Proof.
  intros Hs Hq. revert s Hs. induction Hq; cbn; intros; [done|].
  rewrite step_unstep by done. f_equal. auto using step_st_ok, unstep_range.
Qed.

Lemma unrun_run s gs : cst_ok s -> digs gs -> unrun s (run s gs) = gs.
Proof.
  intros Hs Hq. revert s Hs. induction Hq; cbn; intros; [done|].
  rewrite unstep_step by done. f_equal. auto using step_st_ok.
Qed.

(** ** Parity *)

Definition xbits (x : Z) (l : list nat) : bool :=
  foldr (fun i => xorb (Z.testbit x (Z.of_nat i))) false l.

Definition parity (x : Z) : bool := xbits x (seq 0 n).

Lemma xbits_app x a b : xbits x (a ++ b) = xorb (xbits x a) (xbits x b).
Proof.
  unfold xbits. induction a as [|i a IH]; cbn; [by destruct (foldr _ _ b)|].
  by rewrite IH, xorb_assoc_reverse.
Qed.

Lemma pxor_bit k x j : Z.testbit (pxor k x) (Z.of_nat j) = xbits x (seq j k).
Proof.
  revert j. induction k as [|k IH]; intros j; cbn [pxor seq]; [apply Z.bits_0|].
  rewrite Z.lxor_spec, testbit_shr by lia. rewrite <- Nat2Z.inj_add, Nat.add_1_r, IH. done.
Qed.

Lemma odd_pxor x : Z.odd (pxor n x) = parity x.
Proof. rewrite <- Z.bit0_odd. apply (pxor_bit n x 0). Qed.

Lemma xorb_swap a b c d : xorb (xorb a b) (xorb c d) = xorb (xorb a c) (xorb b d).
Proof. by destruct a, b, c, d. Qed.

Lemma parity_lxor x y : parity (Z.lxor x y) = xorb (parity x) (parity y).
Proof.
  unfold parity, xbits. induction (seq 0 n) as [|i l IH]; cbn; [done|].
  rewrite IH, Z.lxor_spec. apply xorb_swap.
Qed.

Lemma parity_0 : parity 0 = false.
Proof. unfold parity, xbits. induction (seq 0 n); cbn; [done|]. by rewrite Z.bits_0. Qed.

Lemma xbits_none x l : (forall i, i ∈ l -> Z.testbit x (Z.of_nat i) = false) -> xbits x l = false.
Proof.
  induction l as [|i l IH]; intros H; cbn; [done|].
  rewrite H by apply list_elem_of_here. apply IH. intros. apply H. by apply list_elem_of_further.
Qed.

Lemma parity_pow2 k : (k < n)%nat -> parity (2 ^ Z.of_nat k) = true.
Proof.
  intros Hk. unfold parity. replace (seq 0 n) with (seq 0 k ++ k :: seq (S k) (n - S k)).
  - rewrite xbits_app. cbn. rewrite Z.pow2_bits_true by lia.
    fold (xbits (2 ^ Z.of_nat k) (seq (S k) (n - S k))).
    rewrite !xbits_none; [done|..]; intros i Hi%elem_of_seq; apply Z.pow2_bits_false; lia.
  - change (k :: seq (S k) (n - S k)) with (seq (0 + k) (S (n - S k))).
    rewrite <- seq_app. f_equal. lia.
Qed.

Lemma xbits_map x y f l :
  (forall i, i ∈ l -> Z.testbit x (Z.of_nat i) = Z.testbit y (Z.of_nat (f i))) ->
  xbits x l = xbits y (map f l).
Proof.
  induction l as [|i l IH]; intros H; cbn; [done|].
  rewrite H by apply list_elem_of_here. f_equal. apply IH. intros. apply H. by apply list_elem_of_further.
Qed.

Lemma parity_rotateRight x r : 0 <= x < W -> (r < n)%nat ->
  parity (rotateRight x r n) = parity x.
Proof.
  intros Hx Hr. unfold parity.
  replace (seq 0 n) with (seq 0 (n - r) ++ seq (0 + (n - r)) r) at 1
    by (rewrite <- seq_app; f_equal; lia).
  replace (seq 0 n) with (seq 0 r ++ seq (0 + r) (n - r)) by (rewrite <- seq_app; f_equal; lia).
  rewrite !xbits_app, xorb_comm. f_equal.
  - rewrite (xbits_map _ x (fun i => i - (n - r))%nat).
    + f_equal. apply list_eq_same_length with (n := r);
        rewrite ?length_map, ?length_seq; try done.
      intros i a b Hi Ha Hb. rewrite list_lookup_fmap, lookup_seq_lt in Ha by done.
      rewrite lookup_seq_lt in Hb by done. cbn in Ha. simplify_eq. lia.
    + intros i Hi%elem_of_seq. rewrite rotateRight_bit by (done || lia). f_equal. f_equal.
      replace (i + r)%nat with ((i - (n - r)) + 1 * n)%nat by lia.
      rewrite Nat.Div0.mod_add, Nat.mod_small by lia. done.
  - rewrite (xbits_map _ x (fun i => i + r)%nat).
    + f_equal. apply list_eq_same_length with (n := (n - r)%nat);
        rewrite ?length_map, ?length_seq; try done.
      intros i a b Hi Ha Hb. rewrite list_lookup_fmap, lookup_seq_lt in Ha by done.
      rewrite lookup_seq_lt in Hb by done. cbn in Ha. simplify_eq. lia.
    + intros i Hi%elem_of_seq. rewrite rotateRight_bit by (done || lia).
      by rewrite Nat.mod_small by lia.
Qed.

(** ** Corners

    The parity invariant: outside the first digit the flip bit is a
    single bit and the carry is the parity of the last digit. *)

Definition cst_par (s : cst) : Prop :=
  if cs_top s then cs_flip s = 0 /\ cs_prev s = 0 /\ cs_carry s = false
  else parity (cs_flip s) = true /\ cs_carry s = parity (cs_prev s).

Lemma parity_top : parity top_bit = true.
Proof. apply parity_pow2. lia. Qed.

Lemma parity_step_bits s g : cst_ok s -> 0 <= g < W ->
  parity (step_bits s g) = xorb (parity (cs_flip s)) (xorb (parity g) (parity (cs_prev s))).
Proof.
  intros (? & ? & ?) ?. unfold step_bits.
  rewrite parity_rotateRight by auto with dig. by rewrite !parity_lxor.
Qed.

Lemma step_st_par s g : cst_ok s -> 0 <= g < W -> cst_par s -> cst_par (step_st s g).
Proof.
  intros Hok Hg Hp. pose proof Hok as (Hr & _ & _). unfold cst_par; cbn.
  split; [by apply parity_pow2|]. unfold step_q.
  rewrite odd_pxor, !parity_lxor, parity_step_bits by done.
  unfold cst_par, mask, carried in *. destruct (cs_top s).
  - destruct Hp as (-> & -> & ->). rewrite parity_0. by destruct (parity g).
  - destruct Hp as (-> & ->). rewrite parity_top.
    destruct (parity (cs_prev s)); rewrite ?parity_top, ?parity_0; by destruct (parity g).
Qed.

Lemma exec_par s gs : cst_ok s -> digs gs -> cst_par s -> cst_par (exec s gs).
Proof.
  intros Hs Hg. revert s Hs. induction Hg; cbn; [done|]. auto using step_st_ok, step_st_par.
Qed.

Lemma gray_ones : Z.lxor (W - 1) (shr (W - 1) 1) = top_bit.
Proof.
  pose proof top_bit_eq. pose proof top_bit_range.
  replace (shr (W - 1) 1) with (top_bit - 1).
  2: { unfold shr. rewrite Z.shiftr_div_pow2 by lia. change (2 ^ Z.of_nat 1) with 2.
       Z.div_mod_to_equations; lia. }
  replace (W - 1) with (Z.ones (Z.of_nat n)) by (rewrite Z.ones_equiv; lia).
  replace (top_bit - 1) with (Z.ones (Z.of_nat (n - 1))) by (rewrite Z.ones_equiv; unfold top_bit; lia).
  apply Z.bits_inj'. intros i Hi. unfold top_bit.
  rewrite Z.lxor_spec, !Z.testbit_ones_nonneg, Z.pow2_bits_eqb by lia.
  destruct (Z.ltb_spec i (Z.of_nat n)), (Z.ltb_spec i (Z.of_nat (n - 1))),
    (Z.eqb_spec (Z.of_nat (n - 1)) i); cbn; lia.
Qed.

(** The digits 0 and W-1 are the ends of an index block. *)
Definition gray_end (q : Z) : Prop := (q = 0 \/ q = W - 1).

Lemma gray_end_carry q : gray_end q ->
  0 <= q < W /\ Z.lxor q (shr q 1) = if Z.odd q then top_bit else 0.
Proof.
  pose proof top_bit_range. pose proof top_bit_eq. intros [->| ->]; (split; [lia|]).
  - done.
  - rewrite gray_ones. replace (W - 1) with (2 * (top_bit - 1) + 1) by lia.
    by rewrite Z.odd_add, Z.odd_mul.
Qed.

(** Entering a block at an end, the machine keeps reading the same digit:
    the ends are corners. *)
Lemma unrun_corner s q m : cst_ok s -> gray_end q ->
  unrun s (replicate m q) = replicate m (unstep s q).
Proof.
  intros Hs Hq. destruct (gray_end_carry q Hq) as [Hqr Hgray].
  revert s Hs. induction m as [|m IH]; intros s Hs; cbn; [done|]. f_equal.
  set (s' := step_st s (unstep s q)).
  rewrite IH by (apply step_st_ok; auto using unstep_range). f_equal.
  assert (cs_rot s' = ((cs_rot s + 1) mod n)%nat) as Hrot.
  { unfold s', step_st; cbn. apply adjust_rotation_top; [apply Hs|].
    rewrite step_bits_unstep, Hgray by done. unfold mask, carried.
    destruct (Z.odd q), (cs_top s), (cs_carry s); rewrite ?Z.lxor_0_l, ?Z.lxor_0_r, ?Z.lxor_nilpotent;
      rewrite ?Z.lxor_0_r, ?Z.lxor_0_l, ?Z.lxor_nilpotent; auto. }
  unfold unstep at 1. rewrite Hrot.
  replace (Z.lxor (Z.lxor q (shr q 1)) (Z.lxor (mask s') (carried s'))) with top_bit.
  - rewrite rotateLeft_top by apply Hs. unfold s' at 1; cbn.
    by rewrite Z.lxor_nilpotent, Z.lxor_0_l.
  - unfold mask, carried, s', step_st; cbn. rewrite step_unstep, Hgray by done.
    destruct (Z.odd q); rewrite ?Z.lxor_0_l, ?Z.lxor_0_r, ?Z.lxor_nilpotent; by rewrite ?Z.lxor_0_r.
Qed.

(** The corner of the largest index is not the corner of digit 0. *)
Lemma exit_corner_nonzero s : cst_ok s -> cst_par s -> unstep s (W - 1) <> 0.
Proof.
  intros Hs Hp H0. pose proof W_bound.
  assert (parity (unstep s (W - 1)) = true) as Hpar; [|rewrite H0, parity_0 in Hpar; done].
  pose proof (parity_step_bits s (unstep s (W - 1)) Hs (unstep_range _ _ Hs)) as H1.
  rewrite step_bits_unstep, gray_ones, !parity_lxor, parity_top in H1 by (done || lia).
  unfold cst_par, mask, carried in *. destruct (cs_top s).
  - destruct Hp as (Hf & Hpr & Hc). rewrite Hf, Hpr, Hc, parity_0 in H1.
    by destruct (parity (unstep _ _)).
  - destruct Hp as (Hf & Hc). rewrite Hf, Hc, parity_top in H1.
    destruct (parity (cs_prev s)); rewrite ?parity_top, ?parity_0 in H1; by destruct (parity (unstep _ _)).
Qed.

(** ** Words and digit lists *)

Definition dig (w : Z) (j : nat) : Z := Z.land (shr w (j * n)) (2 ^ Z.of_nat n - 1).

Definition digits (w : Z) (b : nat) : list Z := map (dig w) (rev (seq 0 b)).

Definition undig (a : Z) (ds : list Z) : Z := fold_left (fun a d => a * 2 ^ Z.of_nat n + d) ds a.

Lemma digits_S w b : digits w (S b) = dig w b :: digits w b.
Proof. unfold digits. by rewrite seq_S, rev_app_distr. Qed.

Lemma dig_range w j : 0 <= dig w j < W.
Proof. apply land_ones_range. Qed.

Lemma digits_digs w b : digs (digits w b).
Proof. unfold digits. apply Forall_fmap, Forall_true. intros. apply dig_range. Qed.

Lemma dig_lxor x y j : dig (Z.lxor x y) j = Z.lxor (dig x j) (dig y j).
Proof.
  unfold dig. rewrite shr_lxor. apply Z.bits_inj'. intros i Hi.
  rewrite Z.lxor_spec, !land_ones_testbit, Z.lxor_spec by done.
  destruct (i <? Z.of_nat n); cbn; [done|]. done.
Qed.

Lemma dig_shr x j : dig (shr x n) j = dig x (S j).
Proof. unfold dig. rewrite shr_shr. done. Qed.

Fixpoint bitsrun (s : cst) (gs : list Z) : list Z :=
  match gs with
  | [] => []
  | g :: gs => step_bits s g :: bitsrun (step_st s g) gs
  end.

Lemma c2i_loop_run T b s idx :
  cst_ok s -> cs_prev s = dig T b -> 0 <= idx -> (idx + 1) * 2 ^ Z.of_nat (b * n) <= 2 ^ 64 ->
  c2i_loop b n (Z.lxor T (shr T n)) (cs_rot s) (cs_flip s) idx = undig idx (bitsrun s (digits T b)).
Proof.
  revert s idx. induction b as [|b IH]; intros s idx Hs Hprev Hidx Hlt; [done|].
  rewrite digits_S. cbn [c2i_loop bitsrun undig fold_left]. pose proof W_bound.
  rewrite ones32_eq by lia. fold (dig (Z.lxor T (shr T n)) b).
  rewrite (u32_small (dig _ _)) by (pose proof (dig_range (Z.lxor T (shr T n)) b); lia).
  rewrite dig_lxor, dig_shr, <- Hprev. fold (step_bits s (dig T b)).
  pose proof (step_bits_range s (dig T b)) as Hb. rewrite (u32_small (step_bits _ _)) by lia.
  assert (2 ^ Z.of_nat (S b * n) = W * 2 ^ Z.of_nat (b * n)) as E.
  { rewrite <- Z.pow_add_r by lia. f_equal. lia. }
  rewrite E in Hlt. pose proof (pow2_pos (b * n)).
  rewrite shl64_small by nia. rewrite lor_digit by done.
  replace (shl32 1 (cs_rot s)) with (cs_flip (step_st s (dig T b))).
  2: { cbn. rewrite shl32_small, Z.mul_1_l; [done|lia|]. destruct Hs as [Hr _].
       assert (2 ^ Z.of_nat (cs_rot s) < W) by (apply Z.pow_lt_mono_r; lia). lia. }
  replace (adjust_rotation _ _ _ _) with (cs_rot (step_st s (dig T b))) by (cbn; by rewrite ones32_eq by lia).
  apply IH; [by apply step_st_ok, dig_range|done|nia|nia].
Qed.

Lemma digit_unique a d a' d' : 0 <= d < W -> 0 <= d' < W ->
  a * W + d = a' * W + d' -> a = a' /\ d = d'.
Proof. intros. assert (a = a') by nia. subst. lia. Qed.

Lemma lxor_digit a d a' d' : 0 <= d < W -> 0 <= d' < W ->
  Z.lxor (a * W + d) (a' * W + d') = Z.lxor a a' * W + Z.lxor d d'.
Proof.
  intros. apply Z.bits_inj'. intros i Hi.
  rewrite Z.lxor_spec, !testbit_digit by auto with dig.
  destruct (i <? Z.of_nat n); by rewrite Z.lxor_spec.
Qed.

Lemma gray_digit a q : 0 <= q < W ->
  Z.lxor (a * W + q) (shr (a * W + q) 1) =
  Z.lxor a (shr a 1) * W + Z.lxor (Z.lxor q (shr q 1)) (if Z.odd a then top_bit else 0).
Proof.
  intros Hq. assert (0 <= (if Z.odd a then top_bit else 0) < W)
    by (pose proof top_bit_range; destruct (Z.odd a); lia).
  replace (shr (a * W + q) 1) with (shr a 1 * W + Z.lxor (shr q 1) (if Z.odd a then top_bit else 0)).
  { rewrite lxor_digit by auto with dig. by rewrite Z.lxor_assoc. }
  apply Z.bits_inj'. intros i Hi. rewrite testbit_shr, !testbit_digit by (auto with dig || lia).
  change (Z.of_nat 1) with 1.
  destruct (Z.ltb_spec i (Z.of_nat n)), (Z.ltb_spec (i + 1) (Z.of_nat n)); try lia.
  - rewrite Z.lxor_spec, testbit_shr by lia. destruct (Z.odd a); rewrite ?Z.bits_0, ?xorb_false_r; [|done].
    unfold top_bit. rewrite Z.pow2_bits_false by lia. apply xorb_false_r.
  - assert (i = Z.of_nat (n - 1)) as -> by lia.
    rewrite Z.lxor_spec, testbit_shr by lia. rewrite (testbit_ge q (Z.of_nat n)) by lia.
    replace (Z.of_nat (n - 1) + 1 - Z.of_nat n) with 0 by lia. rewrite Z.bit0_odd, xorb_false_l.
    destruct (Z.odd a); [|apply Z.bits_0]. apply Z.pow2_bits_true. lia.
  - rewrite testbit_shr by lia. f_equal. lia.
Qed.

(** The masks the code applies with [nthbits >> 1]. *)
Definition masks (s : cst) (b : nat) : list Z :=
  match b with O => [] | S b => mask s :: replicate b top_bit end.

Lemma masks_step s g b : masks s (S b) = mask s :: masks (step_st s g) b.
Proof. destruct b; reflexivity. Qed.

Lemma undig_lxor a a' ds ds' : length ds = length ds' -> digs ds -> digs ds' ->
  undig (Z.lxor a a') (zip_with Z.lxor ds ds') = Z.lxor (undig a ds) (undig a' ds').
Proof.
  intros Hl Hd. revert a a' ds' Hl. induction Hd as [|d ds Hd Hds IH]; intros a a' ds' Hl Hd'.
  - by destruct ds'.
  - destruct ds' as [|d' ds']; [done|]. inversion Hd'; subst. cbn.
    rewrite <- lxor_digit by done. apply IH; [by injection Hl|done].
Qed.

Lemma gray_run s gs a : cst_ok s -> digs gs -> Z.odd a = cs_carry s ->
  Z.lxor (undig a (run s gs)) (shr (undig a (run s gs)) 1) =
  undig (Z.lxor a (shr a 1)) (zip_with Z.lxor (bitsrun s gs) (masks s (length gs))).
Proof.
  intros Hs Hg. revert s a Hs. induction Hg as [|g gs Hg Hgs IH]; intros s a Hs Ha; [done|].
  cbn [length run bitsrun]. rewrite (masks_step s g). cbn [zip_with undig fold_left].
  fold (undig (a * W + step_q s g) (run (step_st s g) gs)).
  rewrite IH; [|by apply step_st_ok|].
  - fold (undig (Z.lxor a (shr a 1) * W + Z.lxor (step_bits s g) (mask s))
            (zip_with Z.lxor (bitsrun (step_st s g) gs) (masks (step_st s g) (length gs)))).
    f_equal. rewrite gray_digit by apply step_q_range. f_equal.
    unfold step_q. rewrite gray_pxor by auto using step_bits_range with dig.
    rewrite Ha. fold (carried s). by rewrite <- Z.lxor_assoc, lxor_cancel_r.
  - cbn [step_st cs_carry]. rewrite Z.odd_add, Z.odd_mul, top_bit_eq, (Z.odd_mul 2). cbn.
    by rewrite andb_false_r, xorb_false_l.
Qed.

Lemma bitsrun_length s gs : length (bitsrun s gs) = length gs.
Proof. revert s. induction gs; cbn; auto. Qed.

Lemma bitsrun_digs s gs : digs (bitsrun s gs).
Proof. revert s. induction gs; cbn; constructor; auto using step_bits_range. Qed.

Lemma masks_length s b : length (masks s b) = b.
Proof. destruct b; cbn; [done|]. by rewrite length_replicate. Qed.

Lemma masks_digs s b : digs (masks s b).
Proof.
  destruct b; cbn; constructor; auto using mask_range.
  apply Forall_replicate, top_bit_range.
Qed.

Lemma undig_cons a d ds : undig a (d :: ds) = undig (a * W + d) ds.
Proof. reflexivity. Qed.

Lemma undig_app a x y : undig a (x ++ y) = undig (undig a x) y.
Proof. unfold undig. apply fold_left_app. Qed.

Lemma undig_acc a ds : undig a ds = a * 2 ^ Z.of_nat (length ds * n) + undig 0 ds.
Proof.
  revert a. induction ds as [|d ds IH]; intros a; cbn [length].
  - cbn. rewrite Z.mul_1_r. lia.
  - rewrite !undig_cons, IH, (IH (0 * W + d)).
    replace (S (length ds) * n)%nat with (n + length ds * n)%nat by lia.
    rewrite Nat2Z.inj_add, Z.pow_add_r by lia. ring.
Qed.

Lemma undig_range ds : digs ds -> 0 <= undig 0 ds < 2 ^ Z.of_nat (length ds * n).
Proof.
  induction 1 as [|d ds Hd Hds IH]; cbn [length]; [cbn; lia|].
  rewrite undig_cons, undig_acc. replace (S (length ds) * n)%nat with (n + length ds * n)%nat by lia.
  rewrite Nat2Z.inj_add, Z.pow_add_r by lia. nia.
Qed.

Lemma undig_inj ds ds' : length ds = length ds' -> digs ds -> digs ds' ->
  undig 0 ds = undig 0 ds' -> ds = ds'.
Proof.
  intros Hl Hd. revert ds' Hl. induction Hd as [|d ds Hd Hds IH]; intros [|d' ds'] Hl Hd' E; try done.
  inversion Hd'; subst. rewrite !undig_cons, undig_acc, (undig_acc (0 * W + d')) in E.
  injection Hl as Hl. rewrite Hl in E.
  pose proof (undig_range ds Hds) as R1. pose proof (undig_range ds' ltac:(done)) as R2.
  rewrite Hl in R1. assert (d = d') by nia. subst. f_equal. apply IH; [done..|]. lia.
Qed.

Lemma nthbits_masks b : (1 <= b)%nat -> (b * n <= 64)%nat ->
  shr (nthbits n b) 1 = undig 0 (0 :: replicate (b - 1) top_bit).
Proof.
  intros Hb Hbn. unfold nthbits. rewrite ones64_eq, ones32_eq by nia.
  pose proof W_bound. pose proof top_bit_eq.
  assert (forall k, undig 0 (replicate k 1) * (W - 1) = 2 ^ Z.of_nat (k * n) - 1) as Hrep.
  { intros k. induction k as [|k IH]; [cbn; lia|].
    cbn [replicate]. rewrite undig_cons, undig_acc, length_replicate.
    replace (S k * n)%nat with (n + k * n)%nat by lia.
    rewrite Nat2Z.inj_add, Z.pow_add_r by lia. nia. }
  assert (forall k, 2 * undig 0 (replicate k top_bit) = W * undig 0 (replicate k 1)) as Htop.
  { intros k. induction k as [|k IH]; [cbn; lia|].
    cbn [replicate]. rewrite !undig_cons, undig_acc, (undig_acc (0 * W + 1)), !length_replicate. nia. }
  rewrite (Nat.mul_comm n b), <- (Hrep b), Z.div_mul by lia.
  rewrite undig_cons. change (0 * W + 0) with 0.
  replace b with (S (b - 1)) at 1 by lia. rewrite replicate_S_end, undig_app.
  cbn [undig fold_left]. fold (undig 0 (replicate (b - 1) 1)).
  fold (undig 0 (replicate (b - 1) top_bit)).
  unfold shr. rewrite Z.shiftr_div_pow2 by lia. change (2 ^ Z.of_nat 1) with 2.
  specialize (Htop (b - 1)%nat). Z.div_mod_to_equations. nia.
Qed.

(** ** From coordinates to digits *)

Definition coord_ok (B : nat) (c : list Z) : Prop :=
  length c = n /\ forall i, (i < n)%nat -> 0 <= cget c i < 2 ^ Z.of_nat B.

Lemma pack_bits B c k a p :
  (1 <= B)%nat -> 0 <= a -> (forall i, (i < k)%nat -> 0 <= cget c i < 2 ^ Z.of_nat B) ->
  (a + 1) * 2 ^ Z.of_nat (k * B) <= 2 ^ 64 ->
  0 <= fold_left (fun coords d => Z.lor (shl64 coords B) (cget c d)) (rev (seq 0 k)) a
    < (a + 1) * 2 ^ Z.of_nat (k * B) /\
  Z.testbit (fold_left (fun coords d => Z.lor (shl64 coords B) (cget c d)) (rev (seq 0 k)) a) (Z.of_nat p)
  = if (p <? k * B)%nat then Z.testbit (cget c (p / B)) (Z.of_nat (p mod B))
    else Z.testbit a (Z.of_nat (p - k * B)).
Proof.
  intros HB. revert a. induction k as [|k IH]; intros a Ha Hc Hlt.
  - cbn. rewrite Nat.sub_0_r. split; [lia|done].
  - rewrite seq_S, rev_app_distr. cbn [rev app fold_left Nat.add].
    assert (2 ^ Z.of_nat (S k * B) = 2 ^ Z.of_nat B * 2 ^ Z.of_nat (k * B)) as E.
    { rewrite <- Z.pow_add_r by lia. f_equal. lia. }
    rewrite E in *. pose proof (pow2_pos (k * B)). pose proof (pow2_pos B).
    pose proof (Hc k ltac:(lia)) as Hck.
    rewrite shl64_small by nia. rewrite lor_digit by done.
    destruct (IH (a * 2 ^ Z.of_nat B + cget c k)) as [IHr IHb]; [nia|auto|nia|].
    split; [nia|]. rewrite IHb.
    destruct (Nat.ltb_spec p (k * B)), (Nat.ltb_spec p (S k * B)); try lia.
    + done.
    + rewrite testbit_digit by (done || lia).
      destruct (Z.ltb_spec (Z.of_nat (p - k * B)) (Z.of_nat B)); [|lia].
      assert (p / B = k)%nat as Hk by (symmetry; apply Nat.div_unique with (p - k * B)%nat; lia).
      assert (p mod B = p - k * B)%nat as -> by (rewrite Nat.Div0.mod_eq, Hk; lia).
      by rewrite Hk.
    + rewrite testbit_digit by (done || lia).
      destruct (Z.ltb_spec (Z.of_nat (p - k * B)) (Z.of_nat B)); [lia|]. f_equal. lia.
Qed.

(** The transposed word of a point. *)
Definition tword (B : nat) (c : list Z) : Z := bitTranspose n B (c2i_pack n B c).

Lemma tword_bit B c p : (1 <= B)%nat -> (n * B <= 64)%nat -> coord_ok B c ->
  Z.testbit (tword B c) (Z.of_nat p) =
  (p <? n * B)%nat && Z.testbit (cget c (p mod n)) (Z.of_nat (p / n)).
Proof.
  intros HB HnB [Hl Hc]. unfold tword.
  assert (2 ^ Z.of_nat (n * B) <= 2 ^ 64) by (apply Z.pow_le_mono_r; lia).
  pose proof (fun q => pack_bits B c n 0 q HB ltac:(lia) Hc ltac:(lia)) as Hpack.
  fold (c2i_pack n B c) in Hpack.
  rewrite bitTranspose_bits; [|lia..|]. 2: { destruct (Hpack 0%nat) as [? _]. lia. }
  destruct (Nat.ltb_spec p (n * B)) as [Hp|]; [|done]. cbn [andb].
  destruct (Hpack (p mod n * B + p / n)%nat) as [_ ->].
  assert (p mod n < n)%nat by (apply Nat.mod_upper_bound; lia).
  assert (p / n < B)%nat by (apply Nat.Div0.div_lt_upper_bound; lia).
  destruct (Nat.ltb_spec (p mod n * B + p / n) (n * B)); [|nia].
  rewrite Nat.div_add_l, (Nat.div_small (p / n)), Nat.add_0_r by lia. f_equal.
  by rewrite Nat.add_comm, Nat.Div0.mod_add, Nat.mod_small by lia.
Qed.

(** Digit [j] of the word collects bit [j] of every coordinate. *)
Lemma tword_dig B c j i : (1 <= B)%nat -> (n * B <= 64)%nat -> coord_ok B c -> (i < n)%nat ->
  Z.testbit (dig (tword B c) j) (Z.of_nat i) = (j <? B)%nat && Z.testbit (cget c i) (Z.of_nat j).
Proof.
  intros HB HnB Hc Hi. unfold dig. rewrite land_ones_testbit by lia.
  destruct (Z.ltb_spec (Z.of_nat i) (Z.of_nat n)); [|lia]. rewrite andb_true_l, testbit_shr by lia.
  rewrite <- Nat2Z.inj_add, tword_bit by done.
  rewrite Nat.Div0.mod_add, Nat.mod_small, Nat.div_add, Nat.div_small, Nat.add_0_l by lia.
  f_equal. destruct (Nat.ltb_spec (i + j * n) (n * B)), (Nat.ltb_spec j B); nia.
Qed.

Definition init_cst : cst := mk_cst 0 0 0 false true.

Lemma init_ok : cst_ok init_cst.
Proof. pose proof W_bound. repeat split; cbn; lia. Qed.

Lemma init_par : cst_par init_cst.
Proof. done. Qed.

#[local] Opaque bitTranspose xor_down.

(** [hilbert_c2i] is the run of the digit machine. *)
Lemma hilbert_c2i_run B c : (2 <= B)%nat -> (n * B <= 64)%nat -> coord_ok B c ->
  hilbert_c2i n B c = undig 0 (run init_cst (digits (tword B c) B)).
Proof.
  intros HB HnB Hc. unfold hilbert_c2i.
  destruct (Nat.ltb_spec 1 n); [|lia]. destruct (Nat.ltb_spec 1 B); [|lia]. cbv zeta.
  unfold tword. set (T := bitTranspose n B (c2i_pack n B c)).
  assert (dig T B = 0) as HT.
  { apply digit_ext; [apply dig_range|pose proof W_bound; lia|]. intros i Hi.
    unfold T. fold (tword B c). rewrite tword_dig, Nat.ltb_irrefl, Z.bits_0 by (done || lia). done. }
  assert (length (digits T B) = B) as Hlen by (unfold digits; by rewrite length_map, length_rev, length_seq).
  pose proof (digits_digs T B) as Hd. pose proof init_ok as Hi.
  replace (c2i_loop B n (Z.lxor T (shr T n)) 0 0 0) with (undig 0 (bitsrun init_cst (digits T B))).
  2: { symmetry. apply (c2i_loop_run T B init_cst 0); [done|by rewrite HT|lia|].
       rewrite Z.mul_1_l. apply Z.pow_le_mono_r; lia. }
  rewrite nthbits_masks by lia.
  replace (0 :: replicate (B - 1) top_bit) with (masks init_cst B)
    by (destruct B; [lia|]; cbn; by rewrite Nat.sub_0_r).
  rewrite <- undig_lxor by (rewrite ?bitsrun_length, ?masks_length; auto using bitsrun_digs, masks_digs).
  replace (masks init_cst B) with (masks init_cst (length (digits T B))) by (by rewrite Hlen).
  change (Z.lxor 0 0) with (Z.lxor 0 (shr 0 1)).
  rewrite <- (gray_run init_cst (digits T B) 0) by done.
  set (Q := undig 0 (run init_cst (digits T B))).
  assert (0 <= Q < 2 ^ Z.of_nat (n * B)) as HQ.
  { pose proof (undig_range _ (run_digs init_cst (digits T B))) as H1.
    rewrite run_length, Hlen, Nat.mul_comm in H1. done. }
  set (G := Z.lxor Q (shr Q 1)).
  assert (0 <= G < 2 ^ Z.of_nat (n * B)).
  { apply lxor_range; [lia|done|]. unfold shr. rewrite Z.shiftr_div_pow2 by lia.
    change (2 ^ Z.of_nat 1) with 2. Z.div_mod_to_equations; lia. }
  transitivity (pxor (n * B) G); [|by apply pxor_gray].
  assert (pxor 1 G = G) as HG by (cbn; apply Z.lxor_0_r). rewrite <- HG at 1.
  apply xor_down_pxor; [done|lia..|by apply pow2_ge].
Qed.

#[local] Opaque tword.

(** ** Injectivity *)

Lemma hilbert_c2i_inj B p p' : (2 <= B)%nat -> (n * B <= 64)%nat ->
  coord_ok B p -> coord_ok B p' -> hilbert_c2i n B p = hilbert_c2i n B p' -> p = p'.
Proof.
  intros HB HnB Hp Hp' E. rewrite !hilbert_c2i_run in E by done.
  assert (forall c, length (digits (tword B c) B) = B) as Hlen
    by (intros; unfold digits; by rewrite length_map, length_rev, length_seq).
  apply undig_inj in E; [|by rewrite !run_length, !Hlen|apply run_digs..].
  apply (f_equal (unrun init_cst)) in E.
  rewrite !unrun_run in E by (apply init_ok || apply digits_digs).
  assert (forall j, (j < B)%nat -> dig (tword B p) j = dig (tword B p') j) as Hd.
  { intros j Hj. unfold digits in E. rewrite !map_rev in E. apply rev_inj in E.
    apply (f_equal (fun l => l !! j)) in E. rewrite !list_lookup_fmap, lookup_seq_lt in E by done.
    by apply (inj Some) in E. }
  pose proof Hp as [Hl Hc]. pose proof Hp' as [Hl' Hc']. clear E.
  apply cget_ext; [congruence|]. intros i Hi.
  apply Z.bits_inj'. intros j Hj. destruct (Z.lt_ge_cases j (Z.of_nat B)).
  - specialize (Hd (Z.to_nat j) ltac:(lia)).
    apply (f_equal (fun x => Z.testbit x (Z.of_nat i))) in Hd.
    rewrite !tword_dig in Hd by (assumption || lia). destruct (Nat.ltb_spec (Z.to_nat j) B); [|lia].
    cbn in Hd. by rewrite !Z2Nat.id in Hd by lia.
  - rewrite (testbit_ge (cget p i) (Z.of_nat B)), (testbit_ge (cget p' i) (Z.of_nat B));
      try done; [apply Hc'|apply Hc]; lia.
Qed.

(** ** Aligned cubes *)

Definition in_cube (o : list Z) (m : nat) (p : list Z) : Prop :=
  length p = n /\
  forall i, (i < n)%nat -> cget o i <= cget p i <= cget o i + 2 ^ Z.of_nat m - 1.

Definition aligned (o : list Z) (m : nat) : Prop :=
  forall i, (i < n)%nat -> (2 ^ Z.of_nat m | cget o i).

Lemma in_cube_bit o m p i j : coord_ok 64 p -> aligned o m -> in_cube o m p -> (i < n)%nat ->
  Z.testbit (cget p i) (Z.of_nat j) =
  if (j <? m)%nat then Z.testbit (cget p i - cget o i) (Z.of_nat j)
  else Z.testbit (cget o i) (Z.of_nat j).
Proof.
  intros Hp Ha [_ Hin] Hi. destruct (Ha i Hi) as [k Hk]. specialize (Hin i Hi).
  pose proof (pow2_pos m). set (r := cget p i - cget o i).
  replace (cget p i) with (k * 2 ^ Z.of_nat m + r) by (unfold r; lia).
  replace (cget o i) with (k * 2 ^ Z.of_nat m + 0) by lia.
  rewrite !testbit_digit by (unfold r in *; lia).
  destruct (Nat.ltb_spec j m), (Z.ltb_spec (Z.of_nat j) (Z.of_nat m)); try lia; done.
Qed.

Definition top_digits (B m : nat) (c : list Z) : list Z :=
  map (dig (tword B c)) (rev (seq m (B - m))).

Lemma digits_split B m c : (m <= B)%nat ->
  digits (tword B c) B = top_digits B m c ++ digits (tword B c) m.
Proof.
  intros. unfold digits, top_digits. rewrite <- map_app, <- rev_app_distr. f_equal. f_equal.
  replace B with (m + (B - m))%nat at 1 by lia. by rewrite seq_app.
Qed.

Lemma cube_coord_ok B o m p : (B <= 64)%nat -> (m <= B)%nat -> coord_ok B o -> aligned o m ->
  in_cube o m p -> coord_ok B p.
Proof.
  intros HB Hm [Hl Ho] Ha [Hlp Hin]. split; [done|]. intros i Hi.
  specialize (Ho i Hi). specialize (Hin i Hi). destruct (Ha i Hi) as [k Hk].
  replace (Z.of_nat B) with (Z.of_nat (B - m) + Z.of_nat m) in * by lia.
  rewrite Z.pow_add_r in * by lia. pose proof (pow2_pos m). pose proof (pow2_pos (B - m)).
  rewrite Hk in *. set (M := 2 ^ Z.of_nat m) in *. set (K := 2 ^ Z.of_nat (B - m)) in *.
  assert (k < K) by (apply (Z.mul_lt_mono_pos_r M); lia).
  assert (k * M <= (K - 1) * M) by (apply Z.mul_le_mono_nonneg_r; lia). lia.
Qed.

Lemma coord_ok_64 B p : (B <= 64)%nat -> coord_ok B p -> coord_ok 64 p.
Proof.
  intros HB [Hl H]. split; [done|]. intros i Hi. specialize (H i Hi).
  assert (2 ^ Z.of_nat B <= 2 ^ Z.of_nat 64) by (apply Z.pow_le_mono_r; lia). lia.
Qed.

Lemma cube_top_digits B m o p : (1 <= B)%nat -> (n * B <= 64)%nat -> (m <= B)%nat ->
  coord_ok B o -> aligned o m -> in_cube o m p -> top_digits B m p = top_digits B m o.
Proof.
  intros HB HnB Hm Ho Ha Hp.
  assert (B <= 64)%nat by nia. pose proof (cube_coord_ok _ _ _ _ ltac:(done) Hm Ho Ha Hp) as Hpc.
  unfold top_digits. apply map_ext_in. intros j Hj. apply in_rev, in_seq in Hj.
  apply digit_ext; [apply dig_range..|]. intros i Hi. rewrite !tword_dig by done.
  rewrite (in_cube_bit o m p) by eauto using coord_ok_64.
  destruct (Nat.ltb_spec j m); [lia|done].
Qed.

Definition cube_start (B m : nat) (o : list Z) : Z := undig 0 (run init_cst (top_digits B m o)).
Definition cube_cst (B m : nat) (o : list Z) : cst := exec init_cst (top_digits B m o).

Lemma top_digits_digs B m c : digs (top_digits B m c).
Proof. unfold top_digits. apply Forall_fmap, Forall_true. intros. apply dig_range. Qed.

Lemma cube_cst_ok B m o : cst_ok (cube_cst B m o).
Proof. apply exec_ok; [apply init_ok|apply top_digits_digs]. Qed.

Lemma cube_cst_par B m o : cst_par (cube_cst B m o).
Proof. apply exec_par; [apply init_ok|apply top_digits_digs|apply init_par]. Qed.

Lemma digits_length w b : length (digits w b) = b.
Proof. unfold digits. by rewrite length_map, length_rev, length_seq. Qed.

Lemma cube_index B m o p : (2 <= B)%nat -> (n * B <= 64)%nat -> (m <= B)%nat ->
  coord_ok B o -> aligned o m -> in_cube o m p ->
  hilbert_c2i n B p = cube_start B m o * 2 ^ Z.of_nat (m * n)
                      + undig 0 (run (cube_cst B m o) (digits (tword B p) m)).
Proof.
  intros HB HnB Hm Ho Ha Hp. assert (B <= 64)%nat by nia.
  rewrite hilbert_c2i_run by eauto using cube_coord_ok.
  rewrite (digits_split B m) by done. rewrite (cube_top_digits B m o p) by (done || lia).
  rewrite run_app, undig_app. fold (cube_start B m o) (cube_cst B m o).
  rewrite undig_acc. by rewrite run_length, digits_length.
Qed.

Definition cube_corner (o : list Z) (m i : nat) : list Z :=
  map (fun d => cget o d + if Nat.testbit i d then 2 ^ Z.of_nat m - 1 else 0) (seq 0 n).

Lemma cube_corner_in o m i : in_cube o m (cube_corner o m i).
Proof using Type.
  clear Hn.
  unfold in_cube, cube_corner. rewrite length_map, length_seq. split; [done|].
  intros d Hd. rewrite cget_map_seq by done. pose proof (pow2_pos m).
  destruct (Nat.testbit i d); lia.
Qed.

Lemma cube_corner_digits B m o e : (1 <= B)%nat -> (n * B <= 64)%nat -> (m <= B)%nat ->
  coord_ok B o -> aligned o m -> 0 <= e < W ->
  digits (tword B (cube_corner o m (Z.to_nat e))) m = replicate m e.
Proof.
  intros HB HnB Hm Ho Ha He. assert (B <= 64)%nat by nia.
  pose proof (cube_corner_in o m (Z.to_nat e)) as Hc.
  pose proof (cube_coord_ok _ _ _ _ ltac:(done) Hm Ho Ha Hc) as Hcc.
  apply list_eq_same_length with (n := m); rewrite ?digits_length, ?length_replicate; try done.
  intros k x y Hk Hx Hy. apply lookup_replicate in Hy as [-> _].
  unfold digits in Hx. rewrite list_lookup_fmap in Hx.
  apply fmap_Some in Hx as (j & Hj & Hxj). subst x. apply list_elem_of_lookup_2 in Hj.
  apply list_elem_of_In, in_rev, in_seq in Hj.
  apply digit_ext; [apply dig_range|done|]. intros i Hi. rewrite tword_dig by done.
  rewrite (in_cube_bit o m) by eauto using coord_ok_64.
  destruct (Nat.ltb_spec j B), (Nat.ltb_spec j m); try lia. cbn [andb].
  unfold cube_corner. rewrite cget_map_seq by done.
  rewrite <- (Z2Nat.id e) at 2 by lia. rewrite Nat2Z_testbit.
  destruct (Nat.testbit _ i).
  - replace (cget o i + (2 ^ Z.of_nat m - 1) - cget o i) with (Z.ones (Z.of_nat m))
      by (rewrite Z.ones_equiv; lia).
    apply Z.ones_spec_low. lia.
  - replace (cget o i + 0 - cget o i) with 0 by lia. apply Z.bits_0.
Qed.

Lemma undig_replicate_0 k : undig 0 (replicate k 0) = 0.
Proof. induction k as [|k IH]; [done|]. cbn [replicate]. by rewrite undig_cons. Qed.

Lemma undig_replicate_ones k : undig 0 (replicate k (W - 1)) = 2 ^ Z.of_nat (k * n) - 1.
Proof.
  induction k as [|k IH]; [done|]. cbn [replicate].
  rewrite undig_cons, undig_acc, length_replicate, IH.
  replace (S k * n)%nat with (n + k * n)%nat by lia. rewrite Nat2Z.inj_add, Z.pow_add_r by lia. ring.
Qed.

Lemma cube_corner_index B m o e q : (2 <= B)%nat -> (n * B <= 64)%nat -> (m <= B)%nat ->
  coord_ok B o -> aligned o m -> gray_end q -> e = unstep (cube_cst B m o) q ->
  hilbert_c2i n B (cube_corner o m (Z.to_nat e)) =
  cube_start B m o * 2 ^ Z.of_nat (m * n) + undig 0 (replicate m q).
Proof.
  intros HB HnB Hm Ho Ha Hq ->. pose proof (cube_cst_ok B m o) as Hs.
  pose proof (gray_end_carry q Hq) as [Hqr _].
  rewrite (cube_index B m o) by (done || apply cube_corner_in).
  rewrite cube_corner_digits by (done || lia || by apply unstep_range).
  rewrite <- unrun_corner by done. rewrite run_unrun by (done || by apply Forall_replicate). done.
Qed.

Lemma hilbert_c2i_range B p : (2 <= B)%nat -> (n * B <= 64)%nat -> coord_ok B p ->
  0 <= hilbert_c2i n B p < 2 ^ Z.of_nat (B * n).
Proof.
  intros HB HnB Hp. rewrite hilbert_c2i_run by done.
  pose proof (undig_range _ (run_digs init_cst (digits (tword B p) B))) as R.
  rewrite run_length, digits_length in R. done.
Qed.

(** The image of an aligned cube and its ends. *)
Lemma hilbert_cube B m o : (2 <= B)%nat -> (n * B <= 64)%nat -> (m <= B)%nat ->
  coord_ok B o -> aligned o m -> exists t, 0 <= t /\
  (forall p, in_cube o m p ->
     t * 2 ^ Z.of_nat (m * n) <= hilbert_c2i n B p < (t + 1) * 2 ^ Z.of_nat (m * n)) /\
  (exists i, (i < 2 ^ n)%nat /\
     hilbert_c2i n B (cube_corner o m i) = t * 2 ^ Z.of_nat (m * n)) /\
  (exists i, (i < 2 ^ n)%nat /\ i <> 0%nat /\
     hilbert_c2i n B (cube_corner o m i) = (t + 1) * 2 ^ Z.of_nat (m * n) - 1).
Proof.
  intros HB HnB Hm Ho Ha. exists (cube_start B m o).
  pose proof (cube_cst_ok B m o) as Hs. pose proof (cube_cst_par B m o) as Hpar. pose proof W_bound.
  assert (forall e, 0 <= e < W -> (Z.to_nat e < 2 ^ n)%nat) as Hnat.
  { intros e He. apply Nat2Z.inj_lt. rewrite Nat2Z.inj_pow, Z2Nat.id by lia. apply He. }
  split; [apply undig_range, run_digs|]. split; [|split].
  - intros p Hp. rewrite (cube_index B m o) by done.
    pose proof (undig_range _ (run_digs (cube_cst B m o) (digits (tword B p) m))) as R.
    rewrite run_length, digits_length in R. lia.
  - exists (Z.to_nat (unstep (cube_cst B m o) 0)). split; [by apply Hnat, unstep_range|].
    rewrite (cube_corner_index B m o _ 0) by (done || by left).
    rewrite undig_replicate_0. lia.
  - exists (Z.to_nat (unstep (cube_cst B m o) (W - 1))). split; [by apply Hnat, unstep_range|].
    pose proof (unstep_range (cube_cst B m o) (W - 1) Hs).
    split; [pose proof (exit_corner_nonzero _ Hs Hpar); lia|].
    rewrite (cube_corner_index B m o _ (W - 1)) by (done || by right).
    rewrite undig_replicate_ones. lia.
Qed.
End digits.

(** ** The interface to bbox.c

    What the decomposition of a box into index intervals needs of the
    curve: it is injective on the cube of side 2^B, and it maps every
    aligned cube into an aligned block of indices whose two ends are the
    images of corners; the last index is the image of a corner other than
    the lower one, unless the cube is a single cell. *)
Class Curve (n B : nat) (c2i : list Z -> Z) : Prop := {
  curve_range p : coord_ok n B p -> 0 <= c2i p < 2 ^ Z.of_nat (B * n);
  curve_inj p p' : coord_ok n B p -> coord_ok n B p' -> c2i p = c2i p' -> p = p';
  curve_cube m o : (m <= B)%nat -> coord_ok n B o -> aligned n o m -> exists t, 0 <= t /\
    (forall p, in_cube n o m p ->
       t * 2 ^ Z.of_nat (m * n) <= c2i p < (t + 1) * 2 ^ Z.of_nat (m * n)) /\
    (exists i, (i < 2 ^ n)%nat /\ c2i (cube_corner n o m i) = t * 2 ^ Z.of_nat (m * n)) /\
    (exists i, (i < 2 ^ n)%nat /\ i <> 0%nat /\
       c2i (cube_corner n o m i) = (t + 1) * 2 ^ Z.of_nat (m * n) - 1)
}.

(** In one dimension the curve is the identity. *)
Lemma c2i_1 B c : hilbert_c2i 1 B c = cget c 0.
Proof. reflexivity. Qed.

#[export] Instance hilbert_Curve_1 B : Curve 1 B (hilbert_c2i 1 B).
Proof.
  constructor.
  - intros p [_ Hp]. rewrite c2i_1, Nat.mul_1_r. apply Hp. lia.
  - intros p p' [Hl _] [Hl' _]. rewrite !c2i_1. intros E.
    apply cget_ext; [congruence|]. intros i Hi. by replace i with 0%nat by lia.
  - intros m o Hm [Hl Ho] Ha. specialize (Ho 0%nat ltac:(lia)).
    destruct (Ha 0%nat ltac:(lia)) as [k Hk]. pose proof (pow2_pos m).
    exists k. rewrite Nat.mul_1_r. split; [nia|]. split; [|split].
    + intros p [_ Hp]. rewrite c2i_1. specialize (Hp 0%nat ltac:(lia)). lia.
    + exists 0%nat. split; [cbn; lia|]. rewrite c2i_1. unfold cube_corner.
      rewrite cget_map_seq by lia. cbn. lia.
    + exists 1%nat. split; [cbn; lia|]. split; [lia|]. rewrite c2i_1. unfold cube_corner.
      rewrite cget_map_seq by lia. cbn. lia.
Qed.

Lemma hilbert_Curve n B : (1 <= n <= 16)%nat -> (2 <= B)%nat -> (n * B <= 64)%nat ->
  Curve n B (hilbert_c2i n B).
Proof.
  intros Hn HB HnB. destruct (decide (n = 1%nat)) as [->|]; [apply _|].
  constructor.
  - intros. apply hilbert_c2i_range; try done; lia.
  - intros. eapply hilbert_c2i_inj; try done; lia.
  - intros. apply hilbert_cube; try done; lia.
Qed.
