(* ===== verification/BboxIntv.v ===== *)
(** * Linearisation of boxes (src/bbox.c)

    [bbox_to_intv] turns a box into the sorted list of maximal intervals of
    curve indices of its cells: it cuts the virtual cube that encloses the
    space, keeps the sub-cubes that lie in the box, maps each of them to an
    interval, sorts and merges.  [bbox_to_intv2] does the same with a ring
    buffer in place of the two linked queues. *)

From Stdlib Require Import Sorted.
From S2P Require Import Prelude Bbox Sfc SfcCurve.

(** ** Operations *)

(** The corner [i] of the box: bit [j] selects the upper bound of
    dimension [j]. *)
Definition flat_coord (bb : bbox) (i : nat) : list Z :=
  map (fun j => if negb (Z.land (Z.of_nat i) (Z.shiftl 1 (Z.of_nat j)) =? 0)
                then cget (ub bb) j else cget (lb bb) j) (seq 0 (num_dims bb)).

Definition flat_step (bb : bbox) (bpd : nat) (itv : intv) (i : nat) : intv :=
  let index := hilbert_c2i (num_dims bb) bpd (flat_coord bb i) in
  if index <? ilb itv then mk_intv index (iub itv)
  else if iub itv <? index then mk_intv (ilb itv) index
  else itv.

Definition bbox_flat (bb : bbox) (bpd : nat) : intv :=
  fold_left (flat_step bb bpd) (seq 0 (2 ^ num_dims bb)) (mk_intv (2 ^ 64 - 1) 0).

Definition intv_compar (i0 i1 : intv) : Z :=
  if ilb i0 <? ilb i1 then -1 else if ilb i1 <? ilb i0 then 1 else 0.

(** [qsort] of the C library with [intv_compar]: a sorted permutation,
    here by insertion. *)
Fixpoint intv_insert (t : intv) (l : list intv) : list intv :=
  match l with
  | [] => [t]
  | u :: l => if 0 <? intv_compar t u then u :: intv_insert t l else t :: u :: l
  end.

Definition qsort_intv (l : list intv) : list intv := foldr intv_insert [] l.

(** An interval that was never written. *)
Definition intv_junk : intv := mk_intv 0 0.
Definition iget (tab : list intv) (i : nat) : intv := nth i tab intv_junk.

(** One iteration [j] of the loop of [intv_compact]; the state is the table
    and [i]. *)
Definition compact_step (st : list intv * nat) (j : nat) : list intv * nat :=
  let '(tab, i) := st in
  if u64 (iub (iget tab i) + 1) =? ilb (iget tab j)
  then (<[i := mk_intv (ilb (iget tab i)) (iub (iget tab j))]> tab, i)
  else (<[S i := iget tab j]> tab, S i).

Definition intv_compact (tab : list intv) (num_itv : nat) : list intv * nat :=
  let '(tab, i) := fold_left compact_step (seq 1 (num_itv - 1)) (tab, 0%nat) in
  (tab, S i).

(** The box of the whole virtual domain. *)
Definition virt_box (nd : nat) (dim_virt : Z) : bbox :=
  mk_bbox nd (map (fun _ => 0) (seq 0 nd)) (map (fun _ => u64 (dim_virt - 1)) (seq 0 nd)).

(** The loop [while (! queue_is_empty(&q_can))]; [can] and [good] are the
    contents of the two queues. *)
Fixpoint intv_loop (fuel : nat) (bb : bbox) (bpd : nat) (can : list bbox) (good : list intv)
    : option (list intv) :=
  match can with
  | [] => Some good
  | b :: can =>
      match fuel with
      | O => None
      | S fuel =>
          if bbox_include bb b then intv_loop fuel bb bpd can (good ++ [bbox_flat b bpd])
          else if bbox_does_intersect bb b then intv_loop fuel bb bpd (can ++ bbox_divide b) good
          else intv_loop fuel bb bpd can good
      end
  end.

(** Sorting and merging; the table is cut to the number of intervals that
    [intv_compact] returns. *)
Definition intv_finish (good : list intv) : list intv * nat :=
  let '(tab, n) := intv_compact (qsort_intv good) (length good) in
  (take n tab, n).

Definition bbox_to_intv (fuel : nat) (bb : bbox) (dim_virt : Z) : option (list intv * nat) :=
  let bpd := Z.to_nat (compute_bits dim_virt) in
  intv_finish <$> intv_loop fuel bb bpd [virt_box (num_dims bb) dim_virt] [].

(** ** Sets of indices *)

Definition ielems (t : intv) : list Z := seqZ (ilb t) (iub t - ilb t + 1).

Lemma elem_of_ielems t x : x ∈ ielems t <-> in_intv t x.
Proof. unfold ielems, in_intv. rewrite elem_of_seqZ. lia. Qed.

(** ** The corners of a cube *)

Definition cube_box (n : nat) (o : list Z) (m : nat) : bbox :=
  mk_bbox n o (map (fun i => cget o i + 2 ^ Z.of_nat m - 1) (seq 0 n)).

(** A cube of side 2^m, aligned, inside the cube of side 2^k. *)
Definition good_cube (n k : nat) (o : list Z) (m : nat) : Prop :=
  (m <= k)%nat /\ coord_ok n k o /\ aligned n o m.

Lemma cube_box_ub n o m i : (i < n)%nat ->
  cget (ub (cube_box n o m)) i = cget o i + 2 ^ Z.of_nat m - 1.
Proof. intros. unfold cube_box; cbn [ub]. by rewrite cget_map_seq. Qed.

Lemma in_cube_box n o m p : in_box (cube_box n o m) p <-> in_cube n o m p.
Proof.
  unfold in_box, in_cube. cbn [num_dims cube_box lb].
  split; intros [H1 H2]; (split; [done|]); intros i Hi; specialize (H2 i Hi);
    rewrite cube_box_ub in * by done; done.
Qed.

Lemma good_cube_bound n k o m i : good_cube n k o m -> (i < n)%nat ->
  0 <= cget o i /\ cget o i + 2 ^ Z.of_nat m <= 2 ^ Z.of_nat k.
Proof.
  intros (Hm & [Hl Ho] & Ha) Hi. specialize (Ho i Hi). destruct (Ha i Hi) as [c Hc].
  split; [lia|]. replace (Z.of_nat k) with (Z.of_nat (k - m) + Z.of_nat m) in * by lia.
  rewrite Z.pow_add_r in * by lia. pose proof (pow2_pos m). pose proof (pow2_pos (k - m)).
  rewrite Hc in *. set (M := 2 ^ Z.of_nat m) in *. set (K := 2 ^ Z.of_nat (k - m)) in *.
  assert (c < K) by (apply (Z.mul_lt_mono_pos_r M); lia).
  assert (c * M <= (K - 1) * M) by (apply Z.mul_le_mono_nonneg_r; lia). lia.
Qed.

Lemma good_cube_wf n k o m : (k <= 63)%nat -> good_cube n k o m -> wf_bbox (cube_box n o m).
Proof.
  intros Hk Hg. pose proof Hg as (Hm & [Hl Ho] & Ha). unfold wf_bbox; cbn [num_dims cube_box lb ub].
  rewrite length_map, length_seq. split; [done|]. split; [done|]. intros i Hi.
  rewrite cget_map_seq by done. pose proof (good_cube_bound _ _ _ _ _ Hg Hi).
  pose proof (pow2_pos m). assert (2 ^ Z.of_nat k <= 2 ^ 63) by (apply Z.pow_le_mono_r; lia). lia.
Qed.

Lemma flat_coord_corner n o m i : flat_coord (cube_box n o m) i = cube_corner n o m i.
Proof.
  unfold flat_coord, cube_corner. cbn [num_dims cube_box lb]. apply map_ext_in.
  intros d Hd%in_seq. rewrite land_bit_testbit, cube_box_ub by lia.
  destruct (Nat.testbit i d); lia.
Qed.

(** ** [bbox_flat] finds the ends of the block *)

(** Scanning [index 0, index 1, ...] keeps the minimum and, since the
    maximum is not attained at position 0 only, the maximum. *)
Lemma flat_scan (f : nat -> Z) (N : nat) (lo hi : Z) :
  (forall i, (i < N)%nat -> lo <= f i <= hi) -> 0 <= lo -> hi < 2 ^ 64 ->
  (exists i, (i < N)%nat /\ f i = lo) ->
  (exists i, (i < N)%nat /\ i <> 0%nat /\ f i = hi) ->
  fold_left (fun itv i => if f i <? ilb itv then mk_intv (f i) (iub itv)
                          else if iub itv <? f i then mk_intv (ilb itv) (f i) else itv)
            (seq 0 N) (mk_intv (2 ^ 64 - 1) 0) = mk_intv lo hi.
Proof.
  intros Hr Hlo Hhi (a & Ha & Hfa) (b & Hb & Hb0 & Hfb).
  set (scan := fun itv i => if f i <? ilb itv then mk_intv (f i) (iub itv)
               else if iub itv <? f i then mk_intv (ilb itv) (f i) else itv).
  assert (forall k, (k <= N)%nat ->
    let r := fold_left scan (seq 0 k) (mk_intv (2 ^ 64 - 1) 0) in
    (forall i, (i < k)%nat -> ilb r <= f i) /\ lo <= ilb r /\ (k <> 0%nat -> ilb r <= hi) /\
    iub r <= hi /\ ((b < k)%nat -> iub r = hi)) as H.
  { intros k. induction k as [|k IH]; intros Hk r.
    - subst r. cbn. specialize (Hr a Ha). repeat split; intros; lia.
    - specialize (IH ltac:(lia)). subst r. rewrite seq_S, fold_left_app. cbn [fold_left Nat.add].
      destruct (fold_left _ (seq 0 k) _) as [l u]. cbn [ilb iub] in *.
      destruct IH as (I1 & I2 & I3 & I4 & I5). pose proof (Hr k ltac:(lia)) as Hk'.
      assert (forall i, (i < S k)%nat -> (i < k)%nat \/ i = k) as Hsplit by lia.
      unfold scan. cbn [ilb iub].
      destruct (Z.ltb_spec (f k) l); [|destruct (Z.ltb_spec u (f k))]; cbn [ilb iub];
        (split; [intros i Hi; destruct (Hsplit i Hi) as [Hi'| ->]; [specialize (I1 i Hi')|]; lia|]);
        (split; [lia|]); (split; [lia|]); (split; [lia|]);
        intros Hbk; destruct (Hsplit b Hbk) as [Hb'| ->]; try (specialize (I5 Hb')); lia. }
  destruct (H N ltac:(lia)) as (I1 & I2 & I3 & I4 & I5).
  destruct (fold_left scan _ _) as [l u]. cbn [ilb iub] in *.
  specialize (I1 a Ha). specialize (I5 Hb). f_equal; lia.
Qed.

Lemma cube_box_card n o m : box_card (cube_box n o m) = 2 ^ Z.of_nat (m * n).
Proof.
  unfold box_card. cbn [num_dims cube_box lb].
  enough (forall l, (forall i, i ∈ l -> (i < n)%nat) ->
    fold_right (fun i x => (cget (ub (cube_box n o m)) i - cget o i + 1) * x) 1 l =
    2 ^ Z.of_nat (m * length l)) as ->; [by rewrite length_seq|intros i; rewrite elem_of_seq; lia|].
  induction l as [|i l IH]; intros Hl; [by rewrite Nat.mul_0_r|].
  cbn [fold_right length]. rewrite IH by (intros; apply Hl; by apply list_elem_of_further).
  rewrite cube_box_ub by apply Hl, list_elem_of_here.
  rewrite Nat.mul_succ_r, Nat2Z.inj_add, Z.pow_add_r by lia. ring.
Qed.

Lemma coord_ok_S n k c : coord_ok n k c -> coord_ok n (S k) c.
Proof.
  intros [Hl Hc]. split; [done|]. intros i Hi. specialize (Hc i Hi).
  assert (2 ^ Z.of_nat k <= 2 ^ Z.of_nat (S k)) by (apply Z.pow_le_mono_r; lia). lia.
Qed.

Lemma in_cube_ok n k o m p : good_cube n k o m -> in_cube n o m p -> coord_ok n k p.
Proof.
  intros Hg [Hl Hp]. split; [done|]. intros i Hi. specialize (Hp i Hi).
  pose proof (good_cube_bound _ _ _ _ _ Hg Hi). lia.
Qed.

Section cubes.
Context (n k : nat) (Hn : (1 <= n <= 16)%nat) (Hk : (1 <= k <= 31)%nat)
  (Hnk : (n * S k <= 64)%nat).

Abbreviation c2i := (hilbert_c2i n (S k)).

#[local] Instance c2i_curve : Curve n (S k) c2i.
Proof. apply hilbert_Curve; lia. Qed.

Lemma bbox_flat_cube o m : good_cube n k o m -> exists t,
  bbox_flat (cube_box n o m) (S k) =
    mk_intv (t * 2 ^ Z.of_nat (m * n)) ((t + 1) * 2 ^ Z.of_nat (m * n) - 1) /\
  0 <= t /\ (t + 1) * 2 ^ Z.of_nat (m * n) <= 2 ^ 64 /\
  forall p, in_cube n o m p ->
    t * 2 ^ Z.of_nat (m * n) <= c2i p < (t + 1) * 2 ^ Z.of_nat (m * n).
Proof.
  intros Hg. pose proof Hg as (Hm & Ho & Ha).
  destruct (curve_cube (c2i := c2i) m o) as (t & Ht & Hin & Hlo & Hhi);
    [lia|by apply coord_ok_S|done|].
  assert ((t + 1) * 2 ^ Z.of_nat (m * n) <= 2 ^ 64) as Hmax.
  { destruct Hhi as (i & Hi & _ & E).
    pose proof (curve_range (c2i := c2i) (cube_corner n o m i)) as R.
    specialize (R (coord_ok_S _ _ _ (in_cube_ok _ _ _ _ _ Hg (cube_corner_in n o m i)))).
    assert (2 ^ Z.of_nat (S k * n) <= 2 ^ 64) by (apply Z.pow_le_mono_r; lia). lia. }
  exists t. split; [|done]. pose proof (pow2_pos (m * n)).
  unfold bbox_flat. cbn [num_dims cube_box].
  rewrite <- (flat_scan (fun i => c2i (cube_corner n o m i)) (2 ^ n)
    (t * 2 ^ Z.of_nat (m * n)) ((t + 1) * 2 ^ Z.of_nat (m * n) - 1)); try done.
  - unfold flat_step. cbn [num_dims cube_box].
    generalize (seq 0 (2 ^ n)). intros l. generalize (mk_intv (2 ^ 64 - 1) 0).
    induction l as [|i l IH]; intros itv; [done|]. cbn [fold_left]. rewrite flat_coord_corner. apply IH.
  - intros i Hi. pose proof (Hin _ (cube_corner_in n o m i)). lia.
  - nia.
  - lia.
Qed.

(** The cells of a cube are exactly the indices of its interval. *)
Lemma bbox_flat_points o m : good_cube n k o m ->
  ielems (bbox_flat (cube_box n o m) (S k)) ≡ₚ c2i <$> points (cube_box n o m).
Proof.
  intros Hg. destruct (bbox_flat_cube o m Hg) as (t & -> & Ht & Hmax & Hin).
  pose proof (good_cube_wf n k o m ltac:(lia) Hg) as Hw.
  symmetry. apply submseteq_length_Permutation.
  - apply NoDup_submseteq.
    + apply NoDup_fmap_2_strong; [|apply NoDup_grid].
      intros p q Hp%elem_of_points Hq%elem_of_points E; [|done..].
      apply in_cube_box in Hp, Hq. eapply (curve_inj (c2i := c2i)); eauto using coord_ok_S, in_cube_ok.
    + intros x (p & -> & Hp)%list_elem_of_fmap. apply elem_of_points, in_cube_box in Hp; [|done].
      specialize (Hin p Hp). apply elem_of_ielems. unfold in_intv. cbn [ilb iub]. lia.
  - apply Nat2Z.inj_le. unfold ielems. cbn [ilb iub]. rewrite length_fmap, length_points by done.
    rewrite length_seqZ, cube_box_card. pose proof (pow2_pos (m * n)). lia.
Qed.

(** ** Dividing a cube *)

Definition child (o : list Z) (m i : nat) : list Z :=
  map (fun d => cget o d + if Nat.testbit i d then 2 ^ Z.of_nat m else 0) (seq 0 n).

Lemma pow2_S m : 2 ^ Z.of_nat (S m) = 2 * 2 ^ Z.of_nat m.
Proof. rewrite Nat2Z.inj_succ, Z.pow_succ_r by lia. done. Qed.

Lemma cube_mid_fits o m : good_cube n k o (S m) -> mid_fits (cube_box n o (S m)).
Proof.
  intros Hg i Hi. cbn [num_dims cube_box lb] in *. rewrite cube_box_ub by done.
  pose proof (good_cube_bound _ _ _ _ _ Hg Hi) as B. rewrite pow2_S in *. pose proof (pow2_pos m).
  assert (2 ^ Z.of_nat k <= 2 ^ 31) by (apply Z.pow_le_mono_r; lia).
  revert B H H0. generalize (2 ^ Z.of_nat m) (2 ^ Z.of_nat k) (cget o i). clear. intros.
  Z.to_euclidean_division_equations. lia.
Qed.

Lemma divide_sub_cube o m i : good_cube n k o (S m) ->
  bbox_divide_sub (cube_box n o (S m)) i = cube_box n (child o m i) m.
Proof.
  intros Hg. pose proof (good_cube_wf n k o _ ltac:(lia) Hg) as Hw.
  pose proof (cube_mid_fits o m Hg) as Hf. pose proof (pow2_pos m).
  assert (forall d, (d < n)%nat -> (cget o d + cget (ub (cube_box n o (S m))) d) / 2 =
    cget o d + 2 ^ Z.of_nat m - 1) as Hmid.
  { intros d Hd. rewrite cube_box_ub, pow2_S by done. symmetry.
    apply (Z.div_unique _ _ _ 1); lia. }
  assert (forall c d : list Z, length c = n -> length d = n ->
    (forall j, (j < n)%nat -> cget c j = cget d j) -> c = d) as Hext.
  { intros c d Hc Hd H'. apply cget_ext; [congruence|]. intros. apply H'. lia. }
  assert (forall x y : bbox, num_dims x = num_dims y -> lb x = lb y -> ub x = ub y -> x = y) as Hb.
  { intros [] []; cbn; congruence. }
  apply Hb; [done| |]; apply Hext;
    try (unfold bbox_divide_sub, cube_box, child; cbn [lb ub num_dims]; by rewrite length_map, length_seq);
    intros j Hj.
  - rewrite divide_sub_lb by done. cbn [lb cube_box]. unfold child. rewrite Hmid, cget_map_seq by done.
    destruct (Nat.testbit i j); lia.
  - rewrite divide_sub_ub by done. cbn [lb cube_box].
    rewrite Hmid, !cube_box_ub, pow2_S by done. unfold child. rewrite cget_map_seq by done.
    destruct (Nat.testbit i j); lia.
Qed.

Lemma good_child o m i : good_cube n k o (S m) -> good_cube n k (child o m i) m.
Proof.
  intros Hg. pose proof Hg as (Hm & [Hl Ho] & Ha). pose proof (pow2_pos m). split; [lia|]. split.
  - split; [unfold child; by rewrite length_map, length_seq|]. intros d Hd.
    unfold child. rewrite cget_map_seq by done.
    pose proof (good_cube_bound _ _ _ _ _ Hg Hd) as B. rewrite pow2_S in B.
    destruct (Nat.testbit i d); lia.
  - intros d Hd. unfold child. rewrite cget_map_seq by done.
    apply Z.divide_add_r.
    + eapply Z.divide_trans; [|apply Ha, Hd]. rewrite pow2_S. apply Z.divide_factor_r.
    + destruct (Nat.testbit i d); [done|apply Z.divide_0_r].
Qed.

Lemma bbox_divide_points o m : good_cube n k o (S m) ->
  points (cube_box n o (S m)) ≡ₚ bbox_divide (cube_box n o (S m)) ≫= points.
Proof.
  intros Hg. pose proof (good_cube_wf n k o _ ltac:(lia) Hg) as Hw.
  pose proof (cube_mid_fits o m Hg) as Hf.
  assert (forall i, wf_bbox (bbox_divide_sub (cube_box n o (S m)) i)) as Hcw.
  { intros i. rewrite divide_sub_cube by done. eapply good_cube_wf; [|by apply good_child]. lia. }
  unfold bbox_divide. cbn [num_dims cube_box].
  apply NoDup_Permutation; [apply NoDup_grid| |].
  - change (map ?f ?l) with (f <$> l). rewrite list_fmap_bind.
    apply NoDup_bind; [|intros; apply NoDup_grid|apply NoDup_seq].
    intros i j p Hi%elem_of_seq Hj%elem_of_seq Hp%elem_of_points Hq%elem_of_points; [|apply Hcw..].
    destruct (bbox_divide_partition (cube_box n o (S m)) p Hw Hf) as [_ Hd].
    apply Hd; cbn [num_dims cube_box]; try lia; done.
  - intros p. rewrite elem_of_points by done.
    destruct (bbox_divide_partition (cube_box n o (S m)) p Hw Hf) as [-> _].
    rewrite list_elem_of_bind. cbn [num_dims cube_box]. split.
    + intros (i & Hi & Hp). exists (bbox_divide_sub (cube_box n o (S m)) i).
      rewrite elem_of_points by apply Hcw. split; [done|].
      apply list_elem_of_In, in_map, in_seq. lia.
    + intros (b & Hp & Hb). apply list_elem_of_In, in_map_iff in Hb as (i & <- & Hi%in_seq).
      exists i. split; [lia|]. by apply elem_of_points in Hp.
Qed.

(** ** The decomposition loop *)

(** The number of boxes dequeued when every box on the way is cut. *)
Fixpoint cube_cost (m : nat) : nat :=
  match m with O => 1 | S m => 1 + 2 ^ n * cube_cost m end.

Abbreviation cbox := (fun om : list Z * nat => cube_box n om.1 om.2).
Abbreviation good_cs := (Forall (fun om : list Z * nat => good_cube n k om.1 om.2)).

Definition intv_ok (t : intv) : Prop := 0 <= ilb t /\ ilb t <= iub t < 2 ^ 64.

Definition costs (cs : list (list Z * nat)) : nat := sum_list ((fun om => cube_cost om.2) <$> cs).

Lemma cube_cost_pos m : (1 <= cube_cost m)%nat.
Proof. destruct m; cbn; lia. Qed.

Lemma cell_include bb o : wf_bbox bb -> num_dims bb = n -> good_cube n k o 0 ->
  bbox_does_intersect bb (cube_box n o 0) = true -> bbox_include bb (cube_box n o 0) = true.
Proof.
  intros Hbb Hd Hg. unfold bbox_does_intersect, bbox_include. rewrite !forallb_seq.
  intros H i Hi. specialize (H i Hi). destruct Hbb as (_ & _ & Hw). specialize (Hw i Hi). unfold bbox_intersect_ondim, bbox_include_ondim in *.
  rewrite cube_box_ub in * by lia. cbn [lb cube_box] in *.
  change (2 ^ Z.of_nat 0) with 1 in *. lia.
Qed.

Lemma bbox_flat_ok o m : good_cube n k o m -> intv_ok (bbox_flat (cube_box n o m) (S k)).
Proof.
  intros Hg. destruct (bbox_flat_cube o m Hg) as (t & -> & Ht & Hmax & _).
  pose proof (pow2_pos (m * n)). unfold intv_ok; cbn [ilb iub]. split; [nia|lia].
Qed.

Lemma divide_cs o m : good_cube n k o (S m) -> exists cs,
  bbox_divide (cube_box n o (S m)) = cbox <$> cs /\ good_cs cs /\ costs cs = (2 ^ n * cube_cost m)%nat.
Proof.
  intros Hg. exists ((fun i => (child o m i, m)) <$> seq 0 (2 ^ n)). split; [|split].
  - rewrite <- list_fmap_compose. unfold bbox_divide. cbn [num_dims cube_box].
    apply map_ext. intros i. by rewrite divide_sub_cube.
  - apply Forall_fmap, Forall_true. intros i. by apply good_child.
  - unfold costs. rewrite <- list_fmap_compose. unfold compose. cbn [snd].
    rewrite sum_list_fmap_const, length_seq. done.
Qed.

Lemma filter_cells_all bb o m : wf_bbox bb -> num_dims bb = n -> good_cube n k o m ->
  bbox_include bb (cube_box n o m) = true ->
  filter (in_box bb) (points (cube_box n o m)) = points (cube_box n o m).
Proof.
  intros Hbb Hd Hg Hi. pose proof (good_cube_wf n k o m ltac:(lia) Hg) as Hw.
  apply filter_keep_all, Forall_forall. intros p Hp%list_elem_of_In%elem_of_points; [|done].
  by eapply bbox_include_points.
Qed.

Lemma filter_cells_none bb o m : wf_bbox bb -> num_dims bb = n -> good_cube n k o m ->
  bbox_does_intersect bb (cube_box n o m) = false ->
  filter (in_box bb) (points (cube_box n o m)) = [].
Proof.
  intros Hbb Hd Hg Hi. pose proof (good_cube_wf n k o m ltac:(lia) Hg) as Hw.
  apply filter_keep_none, Forall_forall. intros p Hp%list_elem_of_In%elem_of_points; [|done].
  intros Hq. apply not_true_iff_false in Hi. apply Hi.
  apply bbox_does_intersect_points; [done..|]. by exists p.
Qed.

Lemma intv_loop_spec bb fuel cs good :
  wf_bbox bb -> num_dims bb = n -> good_cs cs -> Forall intv_ok good -> (costs cs <= fuel)%nat ->
  exists out, intv_loop fuel bb (S k) (cbox <$> cs) good = Some out /\ Forall intv_ok out /\
    (out ≫= ielems) ≡ₚ (good ≫= ielems) ++ (c2i <$> filter (in_box bb) ((cbox <$> cs) ≫= points)).
Proof.
  intros Hbb Hd. revert cs good. induction fuel as [|fuel IH]; intros cs good Hcs Hok Hf.
  { destruct cs as [|[o m] cs]; [|exfalso; unfold costs in Hf; cbn in Hf; pose proof (cube_cost_pos m); lia].
    exists good. cbn. by rewrite app_nil_r. }
  destruct cs as [|[o m] cs]; [exists good; cbn; by rewrite app_nil_r|].
  apply Forall_cons_iff in Hcs as [Hg Hcs]. cbn [fst snd] in Hg. unfold costs in Hf. cbn in Hf.
  change (sum_list _) with (costs cs) in Hf. pose proof (cube_cost_pos m).
  cbn [fmap list_fmap fst snd intv_loop]. rewrite bind_cons, list.filter_app, fmap_app.
  destruct (bbox_include bb _) eqn:Ei; [|destruct (bbox_does_intersect bb _) eqn:Ex].
  - destruct (IH cs (good ++ [bbox_flat (cube_box n o m) (S k)])) as (out & E & Hout & P);
      [done|apply Forall_app; split; [done|by apply Forall_singleton, bbox_flat_ok]|lia|].
    exists out. split; [done|]. split; [done|]. rewrite P, bind_app. cbn [mbind list_bind].
    rewrite app_nil_r, bbox_flat_points, filter_cells_all by done. by rewrite <- app_assoc.
  - destruct m as [|m]; [by rewrite cell_include in Ei|].
    destruct (divide_cs o m Hg) as (ds & Ed & Hds & Hc).
    destruct (IH (cs ++ ds) good) as (out & E & Hout & P);
      [by apply Forall_app|done|unfold costs in *; rewrite fmap_app, sum_list_with_app; cbn in Hf; lia|].
    exists out. rewrite Ed, <- fmap_app. split; [done|]. split; [done|].
    rewrite P, fmap_app, bind_app, list.filter_app, fmap_app, (bbox_divide_points o m Hg), Ed.
    f_equiv. apply Permutation_app_comm.
  - destruct (IH cs good) as (out & E & Hout & P); [done..|lia|].
    exists out. split; [done|]. split; [done|]. by rewrite P, filter_cells_none.
Qed.
End cubes.

(** ** Sorting *)

Definition ilb_le (a b : intv) : Prop := ilb a <= ilb b.

Lemma intv_insert_perm t l : intv_insert t l ≡ₚ t :: l.
Proof.
  induction l as [|u l IH]; cbn [intv_insert]; [done|]. case_if; [|done].
  rewrite IH. apply Permutation_swap.
Qed.

Lemma qsort_intv_perm l : qsort_intv l ≡ₚ l.
Proof. induction l as [|t l IH]; [done|]. cbn. by rewrite intv_insert_perm, IH. Qed.

Lemma intv_compar_pos t u : (0 <? intv_compar t u) = (ilb u <? ilb t).
Proof. unfold intv_compar. repeat case_if; zbool; lia. Qed.

Lemma intv_insert_sorted t l : StronglySorted ilb_le l -> StronglySorted ilb_le (intv_insert t l).
Proof.
  induction 1 as [|u l Hs IH Hf]; cbn [intv_insert]; [repeat constructor|].
  rewrite intv_compar_pos. case_if; zbool.
  - constructor; [done|]. rewrite intv_insert_perm. constructor; [unfold ilb_le; lia|done].
  - unfold ilb_le. constructor; [by constructor|]. constructor; [lia|].
    eapply list.Forall_impl; [done|]. intros v Hv. cbn in Hv. unfold ilb_le in Hv. lia.
Qed.

Lemma qsort_intv_sorted l : StronglySorted ilb_le (qsort_intv l).
Proof. induction l as [|t l IH]; [constructor|]. by apply intv_insert_sorted. Qed.

(** ** Merging adjacent intervals *)

(** What [intv_compact] computes in place, as a recursion over the list. *)
Fixpoint merge (cur : intv) (l : list intv) : list intv :=
  match l with
  | [] => [cur]
  | u :: l => if u64 (iub cur + 1) =? ilb u then merge (mk_intv (ilb cur) (iub u)) l
              else cur :: merge u l
  end.

Lemma take_S_iget tab i : (i < length tab)%nat -> take (S i) tab = take i tab ++ [iget tab i].
Proof.
  intros Hi. unfold iget. destruct (lookup_lt_is_Some_2 tab i Hi) as [x Hx].
  rewrite (take_S_r _ _ x Hx), nth_lookup, Hx. done.
Qed.

Lemma iget_insert_eq tab i x : (i < length tab)%nat -> iget (<[i:=x]> tab) i = x.
Proof. intros. unfold iget. by rewrite nth_lookup, list_lookup_insert_eq. Qed.

Lemma iget_insert_ne tab i j x : i <> j -> iget (<[i:=x]> tab) j = iget tab j.
Proof. intros. unfold iget. by rewrite !nth_lookup, list_lookup_insert_ne. Qed.

Lemma compact_loop_spec rest : forall tab i j, (i < j)%nat -> (j <= length tab)%nat -> drop j tab = rest ->
  let '(tab', i') := fold_left compact_step (seq j (length rest)) (tab, i) in
  take (S i') tab' = take i tab ++ merge (iget tab i) rest /\ (i' < length tab')%nat.
Proof.
  induction rest as [|u rest IH]; intros tab i j Hij Hj Hd; cbn [length seq fold_left].
  - rewrite take_S_iget by lia. split; [done|lia].
  - assert (j < length tab)%nat as Hjl.
    { apply (f_equal length) in Hd. rewrite length_drop in Hd. cbn in Hd. lia. }
    assert (iget tab j = u) as Hu.
    { unfold iget. rewrite nth_lookup, <- (Nat.add_0_r j), <- lookup_drop, Hd. done. }
    assert (drop (S j) tab = rest) as Hd' by (by rewrite <- Nat.add_1_r, <- drop_drop, Hd).
    unfold compact_step at 2. cbn [merge]. rewrite Hu. case_if.
    + specialize (IH (<[i:=mk_intv (ilb (iget tab i)) (iub u)]> tab) i (S j)).
      rewrite length_insert, drop_insert_lt, iget_insert_eq, take_insert_ge in IH by lia. apply IH; auto; lia.
    + specialize (IH (<[S i:=u]> tab) (S i) (S j)).
      rewrite length_insert, drop_insert_lt, iget_insert_eq, take_insert_ge in IH by lia.
      rewrite take_S_iget, <- app_assoc in IH by lia. apply IH; auto; lia.
Qed.

(** Sorted intervals that are pairwise apart, and apart by a gap. *)
Definition before (a b : intv) : Prop := iub a < ilb b.
Definition gap (a b : intv) : Prop := iub a + 1 < ilb b.

Lemma merge_spec l : forall cur, StronglySorted before (cur :: l) -> Forall intv_ok (cur :: l) ->
  (merge cur l ≫= ielems) = (cur :: l) ≫= ielems /\ Forall intv_ok (merge cur l) /\
  StronglySorted gap (merge cur l) /\ Forall (fun t => ilb cur <= ilb t) (merge cur l).
Proof.
  induction l as [|u l IH]; intros cur Hs Hok; cbn [merge].
  { split; [done|]. split; [done|]. split; [repeat constructor|repeat constructor; lia]. }
  apply StronglySorted_inv in Hs as [Hs Hf]. apply Forall_cons_iff in Hf as [Hcu Hf].
  apply Forall_cons_iff in Hok as [Hc Hok]. pose proof Hok as [Hu Hl]%Forall_cons_iff.
  unfold before, intv_ok in *. rewrite u64_small by lia. case_if; zbool.
  - destruct (IH (mk_intv (ilb cur) (iub u))) as (Eq & Ho & Hg & Hm).
    + apply StronglySorted_inv in Hs as [? ?]. by constructor.
    + constructor; [cbn; lia|done].
    + split; [|done]. rewrite Eq, !bind_cons, app_assoc. f_equal. unfold ielems; cbn [ilb iub].
      replace (ilb u) with (ilb cur + (iub cur - ilb cur + 1)) by lia. rewrite <- seqZ_app by lia.
      f_equal; lia.
  - destruct (IH u Hs Hok) as (Eq & Ho & Hg & Hm). split; [by rewrite !bind_cons, Eq|].
    split; [by constructor|]. split.
    + constructor; [done|]. eapply list.Forall_impl; [done|]. unfold gap. intros t Ht. cbn in Ht. lia.
    + constructor; [lia|]. eapply list.Forall_impl; [done|]. intros t Ht. cbn in Ht. lia.
Qed.

Lemma intv_finish_merge good : good <> [] ->
  exists t l, qsort_intv good = t :: l /\ (intv_finish good).1 = merge t l /\
    (intv_finish good).2 = length (merge t l).
Proof.
  intros Hne. pose proof (qsort_intv_perm good) as P. destruct (qsort_intv good) as [|t l] eqn:E.
  { by apply Permutation_nil_l in P. }
  exists t, l. split; [done|]. unfold intv_finish, intv_compact. rewrite E.
  rewrite <- (Permutation_length P). cbn [length]. rewrite Nat.sub_succ, Nat.sub_0_r.
  pose proof (compact_loop_spec l (t :: l) 0 1 ltac:(lia) ltac:(cbn; lia) eq_refl) as H.
  destruct (fold_left _ _ _) as [tab i] eqn:Ef. destruct H as [H Hi]. cbn [fst snd iget nth app take] in *.
  rewrite <- H. split; [done|]. rewrite length_take. lia.
Qed.

Lemma sorted_before l : StronglySorted ilb_le l -> Forall intv_ok l -> NoDup (l ≫= ielems) ->
  StronglySorted before l.
Proof.
  induction 1 as [|t l Hs IH Hf]; intros Hok Hnd; [constructor|].
  apply Forall_cons_iff in Hok as [Ht Hok]. rewrite bind_cons in Hnd.
  apply list.NoDup_app in Hnd as (_ & Hdis & Hnd). constructor; [auto|].
  apply list.Forall_forall. intros u Hu. rewrite list.Forall_forall in Hf, Hok.
  specialize (Hf u Hu). specialize (Hok u Hu). unfold before, ilb_le, intv_ok in *.
  destruct (decide (iub t < ilb u)); [done|]. exfalso. apply (Hdis (ilb u)).
  - apply elem_of_ielems. unfold in_intv. lia.
  - apply list_elem_of_bind. exists u. split; [|done]. apply elem_of_ielems. unfold in_intv. lia.
Qed.

(** What the interval table of a set of cells must be: sorted maximal
    intervals that hold each index of the set once. *)
Definition covers (tab : list intv) (idx : list Z) : Prop :=
  Forall intv_ok tab /\ StronglySorted gap tab /\ (tab ≫= ielems) ≡ₚ idx.

Lemma intv_finish_covers good idx : good <> [] -> Forall intv_ok good -> NoDup idx ->
  (good ≫= ielems) ≡ₚ idx ->
  covers (intv_finish good).1 idx /\ (intv_finish good).2 = length (intv_finish good).1.
Proof.
  intros Hne Hok Hnd P. destruct (intv_finish_merge good Hne) as (t & l & E & -> & ->).
  pose proof (qsort_intv_perm good) as Pq. pose proof (qsort_intv_sorted good) as Hs. rewrite E in Pq, Hs.
  assert (Forall intv_ok (t :: l)) as Hok' by (by rewrite Pq).
  assert (((t :: l) ≫= ielems) ≡ₚ idx) as P' by (by rewrite Pq).
  destruct (merge_spec l t) as (Em & Ho & Hg & _); [|done|].
  { apply sorted_before; [done..|]. by rewrite P'. }
  split; [|done]. split; [done|]. split; [done|]. by rewrite Em.
Qed.

Lemma virt_box_cube n k : (k <= 63)%nat ->
  virt_box n (2 ^ Z.of_nat k) = cube_box n (map (fun _ => 0) (seq 0 n)) k.
Proof.
  intros Hk. unfold virt_box, cube_box. f_equal. apply map_ext_in. intros i Hi%in_seq.
  rewrite cget_map_seq by lia. pose proof (pow2_pos k).
  assert (2 ^ Z.of_nat k <= 2 ^ 63) by (apply Z.pow_le_mono_r; lia). rewrite u64_small; lia.
Qed.

Lemma origin_good n k : good_cube n k (map (fun _ => 0) (seq 0 n)) k.
Proof.
  split; [done|]. pose proof (pow2_pos k). split.
  - split; [by rewrite length_map, length_seq|]. intros i Hi. rewrite cget_map_seq by done. lia.
  - intros i Hi. rewrite cget_map_seq by done. apply Z.divide_0_r.
Qed.

(** The hypotheses under which the decomposition is analysed: the index
    fits 64 bits, the midpoints of [bbox_divide] fit an [int], and the box
    lies in the virtual domain of side 2^k. *)
Record intv_pre (n k : nat) (bb : bbox) : Prop := {
  pre_n : (1 <= n <= 16)%nat;
  pre_k : (1 <= k <= 31)%nat;
  pre_nk : (n * S k <= 64)%nat;
  pre_wf : wf_bbox bb;
  pre_dims : num_dims bb = n;
  pre_in : forall i, (i < n)%nat -> cget (ub bb) i < 2 ^ Z.of_nat k
}.

Section box.
Context (n k : nat) (bb : bbox) (Hpre : intv_pre n k bb).

Abbreviation c2i := (hilbert_c2i n (S k)).

Lemma box_coord_ok p : in_box bb p -> coord_ok n k p.
Proof.
  destruct Hpre as [Hn Hk Hnk (_ & _ & Hw) Hd Hin]. intros [Hl Hp]. split; [congruence|].
  intros i Hi. rewrite Hd in *. specialize (Hp i Hi). specialize (Hw i Hi). specialize (Hin i Hi). lia.
Qed.

Lemma box_idx_NoDup : NoDup (c2i <$> points bb).
Proof.
  pose proof Hpre as [Hn Hk Hnk Hw Hd Hin]. apply NoDup_fmap_2_strong; [|apply NoDup_grid].
  intros p q Hp%elem_of_points Hq%elem_of_points E; [|done..].
  pose proof (hilbert_Curve n (S k) ltac:(lia) ltac:(lia) ltac:(lia)) as HC.
  apply (curve_inj (c2i := c2i)); [| |done]; apply coord_ok_S, box_coord_ok; done.
Qed.

Lemma filter_virt : filter (in_box bb) (points (virt_box n (2 ^ Z.of_nat k))) ≡ₚ points bb.
Proof.
  pose proof Hpre as [Hn Hk Hnk Hw Hd Hin]. rewrite virt_box_cube by lia.
  apply NoDup_Permutation; [apply list.NoDup_filter, NoDup_grid|apply NoDup_grid|].
  pose proof (good_cube_wf n k _ _ ltac:(lia) (origin_good n k)) as Hwv.
  intros p. rewrite list_elem_of_filter, !elem_of_points by done.
  rewrite in_cube_box. split; [tauto|]. intros Hp. split; [done|].
  destruct (box_coord_ok p Hp) as [Hl Hc]. split; [done|]. intros i Hi. specialize (Hc i Hi).
  rewrite cget_map_seq by done. lia.
Qed.

Lemma virt_loop fuel : (cube_cost n k <= fuel)%nat ->
  exists good, intv_loop fuel bb (S k) [virt_box n (2 ^ Z.of_nat k)] [] = Some good /\
    Forall intv_ok good /\ (good ≫= ielems) ≡ₚ c2i <$> points bb.
Proof.
  intros Hf. pose proof Hpre as [Hn Hk Hnk Hw Hd Hin].
  pose proof (filter_virt) as Pv. rewrite virt_box_cube in * by lia.
  destruct (intv_loop_spec n k Hn Hk Hnk bb fuel [(map (fun _ => 0) (seq 0 n), k)] [])
    as (out & E & Hok & P); [done..| | | |].
  - apply Forall_singleton, origin_good.
  - constructor.
  - unfold costs. cbn. lia.
  - exists out. split; [done|]. split; [done|]. rewrite P. cbn [fmap list_fmap mbind list_bind app fst snd].
    by rewrite app_nil_r, Pv.
Qed.

Lemma idx_nonempty : c2i <$> points bb <> [].
Proof.
  pose proof (wf_lb_in_box bb (pre_wf _ _ _ Hpre)) as H.
  apply elem_of_points in H; [|apply Hpre]. intros E.
  apply (list_elem_of_fmap_2 c2i) in H. rewrite E in H. by apply not_elem_of_nil in H.
Qed.

Lemma good_covers good : Forall intv_ok good -> (good ≫= ielems) ≡ₚ c2i <$> points bb ->
  covers (intv_finish good).1 (c2i <$> points bb) /\
  (intv_finish good).2 = length (intv_finish good).1.
Proof.
  intros Hok P. apply intv_finish_covers; auto using box_idx_NoDup.
  intros ->. apply idx_nonempty. by apply Permutation_nil_l in P.
Qed.

Lemma compute_bits_pow2 : Z.to_nat (compute_bits (2 ^ Z.of_nat k)) = S k.
Proof.
  pose proof Hpre as [Hn Hk Hnk Hw Hd Hin]. pose proof (pow2_pos k).
  assert (2 ^ Z.of_nat k <= 2 ^ 31) by (apply Z.pow_le_mono_r; lia).
  rewrite compute_bits_log2, Z.log2_pow2 by lia. lia.
Qed.

Lemma bbox_to_intv_covers fuel : (cube_cost n k <= fuel)%nat ->
  exists tab, bbox_to_intv fuel bb (2 ^ Z.of_nat k) = Some (tab, length tab) /\
    covers tab (c2i <$> points bb).
Proof.
  intros Hf. destruct (virt_loop fuel Hf) as (good & E & Hok & P).
  destruct (good_covers good Hok P) as [Hc Hl].
  exists (intv_finish good).1. split; [|done]. unfold bbox_to_intv.
  rewrite compute_bits_pow2, (pre_dims _ _ _ Hpre), E. cbn [fmap option_fmap option_map].
  rewrite <- Hl. by destruct (intv_finish good).
Qed.
End box.

(** ** Properties *)

(** C14: on the cube of side 2^nBits the Hilbert map is a bijection: the
    indices of all the cells are the integers 0 .. 2^(nBits*nDims)-1, each
    once. *)
Theorem hilbert_bijective n B :
  (1 <= n <= 16)%nat -> (2 <= B <= 63)%nat -> (n * B <= 64)%nat ->
  hilbert_c2i n B <$> points (cube_box n (map (fun _ => 0) (seq 0 n)) B)
    ≡ₚ seqZ 0 (2 ^ Z.of_nat (B * n)).
Proof.
  intros Hn HB HnB. pose proof (hilbert_Curve n B ltac:(lia) ltac:(lia) ltac:(lia)) as HC.
  pose proof (origin_good n B) as Hg. pose proof (good_cube_wf n B _ _ ltac:(lia) Hg) as Hw.
  assert (forall p, p ∈ points (cube_box n (map (fun _ => 0) (seq 0 n)) B) -> coord_ok n B p) as Hok.
  { intros p Hp%elem_of_points%in_cube_box; [|done]. by apply (in_cube_ok n B _ _ _ Hg). }
  apply submseteq_length_Permutation; [apply NoDup_submseteq|].
  - apply NoDup_fmap_2_strong; [|apply NoDup_grid]. intros p q Hp Hq E.
    apply (curve_inj (c2i := hilbert_c2i n B)); auto.
  - intros x (p & -> & Hp)%list_elem_of_fmap. apply elem_of_seqZ.
    pose proof (curve_range (c2i := hilbert_c2i n B) p (Hok p Hp)). lia.
  - apply Nat2Z.inj_le. rewrite length_fmap, length_points, length_seqZ, cube_box_card by done.
    pose proof (pow2_pos (B * n)). lia.
Qed.

Lemma hilbert_bijective_witness :
  hilbert_c2i 2 3 <$> points (cube_box 2 (map (fun _ => 0) (seq 0 2)) 3) ≡ₚ seqZ 0 (2 ^ 6).
Proof. apply (hilbert_bijective 2 3); lia. Defined.

(** every aligned cube is one run of the curve: [bbox_flat], which looks
    at the corners only, returns the interval whose indices are exactly
    those of the cells of the cube. *)
Theorem bbox_flat_exact n k o m :
  (1 <= n <= 16)%nat -> (1 <= k <= 31)%nat -> (n * S k <= 64)%nat -> good_cube n k o m ->
  ielems (bbox_flat (cube_box n o m) (S k)) ≡ₚ hilbert_c2i n (S k) <$> points (cube_box n o m).
Proof. intros. by apply bbox_flat_points. Qed.

Lemma bbox_flat_exact_witness :
  ielems (bbox_flat (cube_box 2 [4; 8] 2) 5) ≡ₚ hilbert_c2i 2 5 <$> points (cube_box 2 [4; 8] 2).
Proof.
  apply bbox_flat_exact; try lia. split; [lia|]. split.
  - split; [done|]. intros [|[|i]] Hi; [unfold cget; cbn; lia|unfold cget; cbn; lia|lia].
  - intros [|[|i]] Hi; [by exists 1|by exists 2|lia].
Defined.
