(* ===== verification/BboxRing.v ===== *)
(** * The ring-buffer decomposition (src/bbox.c, [bbox_to_intv2])

    [bbox_to_intv2] is the decomposition the server uses: the same traversal
    as [bbox_to_intv], with the candidate boxes in a growable ring
    [bb_tab] indexed by [bb_head] and [bb_tail], written [n = 2^num_dims]
    boxes at a time, and the intervals in a growable array [i_tab].  The
    model keeps the arrays and their sizes: a write outside an array, or
    over the box that [bbox_divide] is reading, has no result ([None]).
    The sizes are [nat]: the [int] of the code is assumed large enough for
    them. *)

From S2P Require Import Prelude Bbox Sfc SfcCurve BboxIntv.

Record ring := mk_ring {
  bb_tab : list bbox;
  bb_size : nat;
  bb_head : nat;
  bb_tail : nat;
  i_tab : list intv;   (* the [i_num] intervals written so far *)
  i_size : nat
}.

Definition junk_box : bbox := mk_bbox 0 [] [].

Definition bget (tab : list bbox) (i : nat) : bbox := nth i tab junk_box.

(** [memcpy] of [len] elements from offset [off]. *)
Definition slice {A} (off len : nat) (l : list A) : list A := take len (drop off l).

(** The writes of [bbox_divide(pbb, &bb_tab[off])]. *)
Definition write_block (tab : list bbox) (off : nat) (l : list bbox) : option (list bbox) :=
  if (off + length l <=? length tab)%nat
  then Some (take off tab ++ l ++ drop (off + length l) tab) else None.

(** [if ((bb_tail+n)%bb_size == (bb_head - (bb_head%n))) { ... }] *)
Definition ring_grow (n : nat) (s : ring) : option ring :=
  if ((bb_tail s + n) mod bb_size s =? bb_head s - bb_head s mod n)%nat then
    let tmp_size := (bb_size s + bb_size s / 2)%nat in
    let bb_nsize := (tmp_size - tmp_size mod n)%nat in
    let bb_nhead := (bb_head s - bb_head s mod n)%nat in
    let copied :=
      if (bb_head s <? bb_tail s)%nat
      then slice bb_nhead (bb_tail s - bb_nhead) (bb_tab s)
      else slice bb_nhead (bb_size s - bb_nhead) (bb_tab s) ++ slice 0 (bb_tail s) (bb_tab s) in
    if (length copied <=? bb_nsize)%nat then
      Some (mk_ring (copied ++ replicate (bb_nsize - length copied) junk_box)
                    bb_nsize (bb_head s mod n) (bb_size s - n) (i_tab s) (i_size s))
    else None
  else Some s.

(** [bbox_divide(pbb, &bb_tab[bb_tail]); bb_tail = (bb_tail + n) % bb_size]. *)
Definition ring_divide (n : nat) (s : ring) : option ring :=
  if (bb_tail s <=? bb_head s)%nat && (bb_head s <? bb_tail s + n)%nat then None else
  tab ← write_block (bb_tab s) (bb_tail s) (bbox_divide (bget (bb_tab s) (bb_head s)));
  Some (mk_ring tab (bb_size s) (bb_head s) ((bb_tail s + n) mod bb_size s) (i_tab s) (i_size s)).

(** [i_tab[i_num++] = flat], growing the array when it is full. *)
Definition ring_emit (itv : intv) (s : ring) : option ring :=
  let i_num := length (i_tab s) in
  let size := if (i_num =? i_size s)%nat then (i_size s + i_size s / 2)%nat else i_size s in
  if (i_num <? size)%nat
  then Some (mk_ring (bb_tab s) (bb_size s) (bb_head s) (bb_tail s) (i_tab s ++ [itv]) size)
  else None.

(** [bb_head = (bb_head + 1) % bb_size]. *)
Definition ring_next (s : ring) : ring :=
  mk_ring (bb_tab s) (bb_size s) ((bb_head s + 1) mod bb_size s) (bb_tail s) (i_tab s) (i_size s).

(** The body of [while (bb_head != bb_tail)]. *)
Definition ring_step (bb : bbox) (bpd : nat) (s : ring) : option ring :=
  let n := (2 ^ num_dims bb)%nat in
  let pbb := bget (bb_tab s) (bb_head s) in
  s ← (if bbox_include bb pbb then ring_emit (bbox_flat pbb bpd) s
       else if bbox_does_intersect bb pbb then s ← ring_grow n s; ring_divide n s
       else Some s);
  Some (ring_next s).

Fixpoint ring_loop (fuel : nat) (bb : bbox) (bpd : nat) (s : ring) : option (list intv) :=
  if (bb_head s =? bb_tail s)%nat then Some (i_tab s)
  else match fuel with
       | O => None
       | S fuel => s ← ring_step bb bpd s; ring_loop fuel bb bpd s
       end.

Definition ring_init (bb : bbox) (dim_virt : Z) : ring :=
  mk_ring (replicate 4095 junk_box ++ [virt_box (num_dims bb) dim_virt]) 4096 4095 0 [] 4096.

Definition bbox_to_intv2 (fuel : nat) (bb : bbox) (dim_virt : Z) : option (list intv * nat) :=
  let bpd := Z.to_nat (compute_bits dim_virt) in
  intv_finish <$> ring_loop fuel bb bpd (ring_init bb dim_virt).

(** ** The ring holds a queue *)

Section ring.
Context (n : nat) (Hn : (0 < n)%nat).

(** [q] is the queue of candidate boxes, first in first out; the block of
    [n] slots that contains the head is never written, and one more block
    is free. *)
Record ring_inv (s : ring) (q : list bbox) : Prop := {
  ri_len : length (bb_tab s) = bb_size s;
  ri_div : (n | bb_size s)%nat;
  ri_two : (2 * n <= bb_size s)%nat;
  ri_head : (bb_head s < bb_size s)%nat;
  ri_tail : bb_tail s = ((bb_head s + length q) mod bb_size s)%nat;
  ri_tdiv : (n | bb_head s + length q)%nat;
  ri_room : (bb_head s mod n + length q + n <= bb_size s)%nat;
  ri_tab : forall i, (i < length q)%nat -> bb_tab s !! ((bb_head s + i) mod bb_size s)%nat = q !! i;
  ri_isize : (2 <= i_size s)%nat /\ (length (i_tab s) <= i_size s)%nat
}.

Lemma mod_wrap (a s : nat) : (a < 2 * s)%nat -> (a mod s = if a <? s then a else a - s)%nat.
Proof.
  intros Ha. destruct (Nat.ltb_spec a s); [by apply Nat.mod_small|].
  symmetry. apply (Nat.mod_unique _ _ 1); lia.
Qed.

Lemma ring_empty s q : ring_inv s q -> bb_head s = bb_tail s <-> q = [].
Proof.
  intros I. pose proof (ri_head _ _ I). pose proof (ri_room _ _ I). rewrite (ri_tail _ _ I).
  split; [|intros ->; cbn; rewrite Nat.add_0_r; symmetry; by apply Nat.mod_small].
  rewrite mod_wrap by lia. destruct (Nat.ltb_spec (bb_head s + length q) (bb_size s)); intros;
    destruct q; cbn in *; [done|lia|done|lia].
Qed.

Lemma ring_front s b q : ring_inv s (b :: q) -> bget (bb_tab s) (bb_head s) = b.
Proof.
  intros I. pose proof (ri_tab _ _ I 0%nat ltac:(cbn; lia)) as H.
  rewrite Nat.add_0_r, Nat.mod_small in H by apply I. unfold bget. by rewrite nth_lookup, H.
Qed.

(** The tail is a multiple of [n] below the size. *)
Lemma ring_tail_block s q : ring_inv s q -> (n | bb_tail s)%nat /\ (bb_tail s + n <= bb_size s)%nat.
Proof.
  intros I. pose proof (ri_head _ _ I). pose proof (ri_room _ _ I).
  destruct (ri_div _ _ I) as [c Hc]. destruct (ri_tdiv _ _ I) as [d Hd].
  rewrite (ri_tail _ _ I), Hd, Hc.
  assert (0 < c)%nat by (destruct c; lia).
  replace (d * n)%nat with (n * d)%nat by lia. replace (c * n)%nat with (n * c)%nat by lia.
  rewrite Nat.Div0.mul_mod_distr_l. pose proof (Nat.mod_upper_bound d c). split; [by exists (d mod c)%nat; lia|].
  nia.
Qed.

Lemma ring_next_inv s b q : ring_inv s (b :: q) -> ring_inv (ring_next s) q.
Proof.
  intros I. pose proof (ri_head _ _ I) as Hh. pose proof (ri_room _ _ I) as Hr. cbn [length] in Hr.
  pose proof (ri_two _ _ I). destruct (ri_div _ _ I) as [c Hc].
  assert (bb_size s <> 0)%nat as Hs0 by lia.
  assert (forall i, ((bb_head s + 1) mod bb_size s + i) mod bb_size s = (bb_head s + S i) mod bb_size s)%nat as Hmod.
  { intros i. rewrite Nat.Div0.add_mod_idemp_l. f_equal. lia. }
  constructor; cbn [ring_next bb_tab bb_size bb_head bb_tail i_tab i_size]; try apply I.
  - by apply Nat.mod_upper_bound.
  - rewrite Hmod. apply (ri_tail _ _ I).
  - destruct (ri_tdiv _ _ I) as [d Hd]. cbn [length] in Hd.
    rewrite mod_wrap by lia. destruct (Nat.ltb_spec (bb_head s + 1) (bb_size s)).
    + exists d. lia.
    + assert (bb_head s + 1 = bb_size s)%nat as -> by lia. rewrite Nat.sub_diag.
      exists (d - c)%nat. rewrite Nat.mul_sub_distr_r. lia.
  - assert ((bb_head s + 1) mod bb_size s mod n <= bb_head s mod n + 1)%nat; [|lia].
    rewrite (mod_wrap (bb_head s + 1) (bb_size s)) by lia. destruct (Nat.ltb_spec (bb_head s + 1) (bb_size s)).
    + rewrite Nat.Div0.add_mod. etrans; [apply Nat.Div0.mod_le|].
      pose proof (Nat.Div0.mod_le 1 n). lia.
    + replace (bb_head s + 1 - bb_size s)%nat with 0%nat by lia. rewrite Nat.Div0.mod_0_l. lia.
  - intros i Hi. rewrite Hmod. rewrite (ri_tab _ _ I (S i)) by (cbn; lia). done.
Qed.

Lemma ring_emit_inv s q itv : ring_inv s q ->
  exists s', ring_emit itv s = Some s' /\ ring_inv s' q /\ i_tab s' = i_tab s ++ [itv].
Proof.
  intros I. destruct (ri_isize _ _ I) as [H2 Hi]. unfold ring_emit.
  set (size := if (length (i_tab s) =? i_size s)%nat then _ else _).
  assert (length (i_tab s) < size /\ 2 <= size)%nat as [Hs Hs2].
  { subst size. destruct (Nat.eqb_spec (length (i_tab s)) (i_size s)); [|lia].
    pose proof (Nat.div_str_pos (i_size s) 2). lia. }
  destruct (Nat.ltb_spec (length (i_tab s)) size); [|lia]. eexists. split; [done|]. split; [|done].
  destruct I. constructor; cbn; try done. rewrite length_app. cbn. lia.
Qed.

Lemma write_block_spec tab off l : (off + length l <= length tab)%nat ->
  exists tab', write_block tab off l = Some tab' /\ length tab' = length tab /\
    (forall j, (j < off)%nat \/ (off + length l <= j)%nat -> tab' !! j = tab !! j) /\
    (forall j, (j < length l)%nat -> tab' !! (off + j)%nat = l !! j).
Proof.
  intros H. unfold write_block. destruct (Nat.leb_spec (off + length l) (length tab)); [|lia].
  eexists. split; [done|]. split; [|split].
  - rewrite !length_app, length_take, length_drop. lia.
  - intros j [Hj|Hj].
    + rewrite lookup_app_l by (rewrite length_take; lia). by apply lookup_take_lt.
    + rewrite !lookup_app_r by (rewrite ?length_take; lia). rewrite length_take, lookup_drop.
      f_equal. lia.
  - intros j Hj. rewrite lookup_app_r by (rewrite length_take; lia). rewrite length_take.
    rewrite lookup_app_l by lia. f_equal. lia.
Qed.

Lemma ring_divide_inv s b q : ring_inv s (b :: q) -> length (bbox_divide b) = n ->
  (bb_head s mod n + S (length q) + 2 * n <= bb_size s)%nat ->
  exists s', ring_divide n s = Some s' /\ ring_inv s' (b :: q ++ bbox_divide b) /\ i_tab s' = i_tab s.
Proof.
  intros I Hd Hroom. destruct (ring_tail_block _ _ I) as [Htd Htn].
  pose proof (ri_head _ _ I) as Hh. pose proof (ri_tail _ _ I) as Ht. cbn [length] in Ht.
  rewrite mod_wrap in Ht by lia. unfold ring_divide. rewrite (ring_front _ _ _ I).
  destruct ((bb_tail s <=? bb_head s)%nat && (bb_head s <? bb_tail s + n)%nat) eqn:Ec.
  { exfalso. zbool. destruct (Nat.ltb_spec (bb_head s + S (length q)) (bb_size s)); lia. }
  destruct (write_block_spec (bb_tab s) (bb_tail s) (bbox_divide b)) as (tab & -> & Hl & Hout & Hin);
    [rewrite Hd, (ri_len _ _ I); lia|].
  eexists. split; [done|]. split; [|done].
  constructor; cbn [bb_tab bb_size bb_head bb_tail i_tab i_size]; try apply I.
  - by rewrite Hl, (ri_len _ _ I).
  - rewrite (ri_tail _ _ I), Nat.Div0.add_mod_idemp_l. f_equal. cbn [length].
    rewrite length_app, Hd. lia.
  - cbn [length]. rewrite length_app, Hd.
    replace (bb_head s + S (length q + n))%nat with (bb_head s + length (b :: q) + n)%nat by (cbn; lia).
    apply Nat.divide_add_r; [apply I|done].
  - cbn [length]. rewrite length_app, Hd. lia.
  - cbn [length]. rewrite length_app, Hd. intros i Hi. rewrite app_comm_cons.
    destruct (Nat.lt_ge_cases i (length (b :: q))) as [Hlt|Hge].
    + rewrite lookup_app_l by done. rewrite <- (ri_tab _ _ I i Hlt). apply Hout.
      cbn [length] in Hlt. rewrite Hd, mod_wrap by lia.
      destruct (Nat.ltb_spec (bb_head s + i) (bb_size s)),
        (Nat.ltb_spec (bb_head s + S (length q)) (bb_size s)); lia.
    + rewrite lookup_app_r by done. cbn [length] in *. rewrite <- Hin by lia. f_equal.
      rewrite mod_wrap by lia. destruct (Nat.ltb_spec (bb_head s + i) (bb_size s)),
        (Nat.ltb_spec (bb_head s + S (length q)) (bb_size s)); lia.
Qed.

(** The boxes copied to the new array, from the first slot of the head's block. *)
Lemma copied_lookup s q j : ring_inv s q -> bb_head s <> bb_tail s ->
  (bb_head s mod n + length q + n = bb_size s)%nat -> (j < bb_size s - n)%nat ->
  let nhead := (bb_head s - bb_head s mod n)%nat in
  let copied := if (bb_head s <? bb_tail s)%nat then slice nhead (bb_tail s - nhead) (bb_tab s)
    else slice nhead (bb_size s - nhead) (bb_tab s) ++ slice 0 (bb_tail s) (bb_tab s) in
  length copied = (bb_size s - n)%nat /\ copied !! j = bb_tab s !! ((nhead + j) mod bb_size s)%nat.
Proof.
  intros I Hne Hfull Hj nhead copied. pose proof (ri_head _ _ I) as Hh. pose proof (ri_tail _ _ I) as Ht.
  pose proof (ri_len _ _ I) as Hl. pose proof (Nat.Div0.mod_le (bb_head s) n).
  rewrite mod_wrap in Ht by lia. rewrite (mod_wrap (nhead + j)) by lia. subst copied. unfold slice.
  destruct (Nat.ltb_spec (bb_head s + length q) (bb_size s)),
    (Nat.ltb_spec (bb_head s) (bb_tail s)); try lia; rewrite ?drop_0.
  - rewrite length_take, length_drop. split; [lia|].
    rewrite lookup_take_lt, lookup_drop by lia. destruct (Nat.ltb_spec (nhead + j) (bb_size s)); [done|lia].
  - rewrite length_app, !length_take, length_drop. split; [lia|].
    destruct (Nat.ltb_spec (nhead + j) (bb_size s)).
    + rewrite lookup_app_l by (rewrite length_take, length_drop; lia).
      by rewrite lookup_take_lt, lookup_drop by lia.
    + rewrite lookup_app_r by (rewrite length_take, length_drop; lia).
      rewrite length_take, length_drop, lookup_take_lt by lia. f_equal. lia.
Qed.

Lemma ring_full s q : ring_inv s q ->
  (((bb_tail s + n) mod bb_size s =? bb_head s - bb_head s mod n) =
   (bb_head s mod n + length q + n =? bb_size s))%nat.
Proof.
  intros I. pose proof (ri_head _ _ I) as Hh. pose proof (ri_room _ _ I) as Hr.
  pose proof (Nat.Div0.mod_le (bb_head s) n). pose proof (ri_two _ _ I).
  rewrite (ri_tail _ _ I), Nat.Div0.add_mod_idemp_l, mod_wrap by lia.
  apply eq_true_iff_eq. rewrite !Nat.eqb_eq.
  destruct (Nat.ltb_spec (bb_head s + length q + n) (bb_size s)); lia.
Qed.

Lemma ring_grow_inv s b q : ring_inv s (b :: q) ->
  exists s', ring_grow n s = Some s' /\ ring_inv s' (b :: q) /\ i_tab s' = i_tab s /\
    (bb_head s' mod n + S (length q) + 2 * n <= bb_size s')%nat.
Proof.
  intros I. pose proof (ri_room _ _ I) as Hr. pose proof (ri_head _ _ I) as Hh.
  destruct (ri_div _ _ I) as [c Hc]. destruct (ri_tdiv _ _ I) as [d Hd].
  pose proof (Nat.div_mod_eq (bb_head s) n) as Hdm. pose proof (ri_two _ _ I) as H2.
  unfold ring_grow. rewrite (ring_full _ _ I).
  assert (bb_head s <> bb_tail s) as Hne by (intros H; by apply (ring_empty _ _ I) in H).
  destruct (Nat.eqb_spec (bb_head s mod n + length (b :: q) + n) (bb_size s)) as [Hfull|Hnf].
  2: { exists s. split; [done|]. split; [done|]. split; [done|]. cbn [length] in *.
       assert (exists e, bb_head s mod n + S (length q) = e * n)%nat as [e He]
         by (exists (d - bb_head s / n)%nat; rewrite Nat.mul_sub_distr_r; lia).
       assert (e + 1 <> c)%nat by (intros <-; lia).
       assert (e + 1 <= c)%nat by (apply (Nat.mul_le_mono_pos_r _ _ n); lia).
       assert ((e + 2) * n <= c * n)%nat by (apply Nat.mul_le_mono_r; lia). lia. }
  pose proof (fun j => copied_lookup s _ j I Hne Hfull) as Hcp. cbv zeta in Hcp.
  set (copied := if (bb_head s <? bb_tail s)%nat then _ else _) in *.
  set (nsize := (bb_size s + bb_size s / 2 - (bb_size s + bb_size s / 2) mod n)%nat).
  assert (length copied = bb_size s - n)%nat as Hlen by (apply (Hcp 0%nat); lia).
  assert (nsize = n * ((bb_size s + bb_size s / 2) / n))%nat as Hns
    by (subst nsize; pose proof (Nat.div_mod_eq (bb_size s + bb_size s / 2) n); lia).
  assert (bb_size s + n <= nsize)%nat as Hbig.
  { assert (n <= bb_size s / 2)%nat by (apply Nat.div_le_lower_bound; lia).
    assert (c + 1 <= (bb_size s + bb_size s / 2) / n)%nat; [|nia].
    apply Nat.div_le_lower_bound; [lia|]. nia. }
  destruct (Nat.leb_spec (length copied) nsize); [|lia].
  pose proof (Nat.mod_upper_bound (bb_head s) n ltac:(lia)) as Hm.
  eexists. split; [done|]. split; [|split; [done|]].
  - constructor; cbn [bb_tab bb_size bb_head bb_tail i_tab i_size]; try apply I.
    + rewrite length_app, length_replicate. lia.
    + rewrite Hns. by apply Nat.divide_factor_l.
    + lia.
    + lia.
    + rewrite Nat.mod_small; lia.
    + exists (c - 1)%nat. rewrite Nat.mul_sub_distr_r. lia.
    + rewrite Nat.Div0.mod_mod. lia.
    + intros i Hi. rewrite Nat.mod_small by lia. rewrite lookup_app_l by lia.
      rewrite <- (ri_tab _ _ I i Hi). destruct (Hcp (bb_head s mod n + i)%nat) as [_ ->]; [lia|].
      f_equal. f_equal. pose proof (Nat.Div0.mod_le (bb_head s) n). lia.
  - cbn [bb_head bb_size]. rewrite Nat.Div0.mod_mod. cbn [length] in Hfull. lia.
Qed.

(** ** Refinement of the queue version *)

Lemma ring_loop_refines bb bpd fuel : (2 ^ num_dims bb)%nat = n -> forall s q,
  ring_inv s q -> Forall (fun b => num_dims b = num_dims bb) q ->
  ring_loop fuel bb bpd s = intv_loop fuel bb bpd q (i_tab s).
Proof.
  intros Hbb. induction fuel as [|fuel IH]; intros s q I Hq; cbn [ring_loop intv_loop];
    (destruct q as [|b q];
     [by rewrite (proj2 (Nat.eqb_eq _ _) (proj2 (ring_empty _ _ I) eq_refl))|
      rewrite (proj2 (Nat.eqb_neq _ _))
        by (intros H; by apply (ring_empty _ _ I) in H)]); [done|].
  pose proof Hq as [Hb Hq']%Forall_cons_iff. unfold ring_step. rewrite (ring_front _ _ _ I), Hbb.
  destruct (bbox_include bb b); [|destruct (bbox_does_intersect bb b)].
  - destruct (ring_emit_inv s _ (bbox_flat b bpd) I) as (s' & -> & I' & E). cbn [mbind option_bind].
    rewrite (IH _ q) by eauto using ring_next_inv. unfold ring_next; cbn [i_tab]. by rewrite E.
  - destruct (ring_grow_inv s b q I) as (s1 & -> & I1 & E1 & R1). cbn [mbind option_bind].
    assert (length (bbox_divide b) = n) as Hlen.
    { unfold bbox_divide. by rewrite length_map, length_seq, Hb. }
    destruct (ring_divide_inv s1 b q I1 Hlen R1) as (s2 & -> & I2 & E2). cbn [mbind option_bind].
    rewrite (IH _ (q ++ bbox_divide b)).
    + unfold ring_next; cbn [i_tab]. by rewrite E2, E1.
    + eauto using ring_next_inv.
    + apply Forall_app_2; [done|]. unfold bbox_divide. apply Forall_fmap, Forall_true.
      intros i. apply Hb.
  - cbn [mbind option_bind]. by rewrite (IH _ q) by eauto using ring_next_inv.
Qed.
End ring.

(** The ring starts with one box in the last slot: with at most 11
    dimensions a block of sub-boxes takes at most half of it. *)
Lemma ring_init_inv bb dim_virt : (num_dims bb <= 11)%nat ->
  ring_inv (2 ^ num_dims bb) (ring_init bb dim_virt) [virt_box (num_dims bb) dim_virt].
Proof.
  intros Hd. set (n := (2 ^ num_dims bb)%nat).
  assert (exists e, 4096 = 2 * e * n)%nat as [e He].
  { exists (2 ^ (11 - num_dims bb))%nat. subst n.
    rewrite <- Nat.mul_assoc, <- Nat.pow_add_r.
    replace (11 - num_dims bb + num_dims bb)%nat with 11%nat by lia. reflexivity. }
  assert (0 < n)%nat by (subst n; clear; induction (num_dims bb); cbn; lia).
  assert (0 < e)%nat by (destruct e; lia).
  assert (4095 mod n = n - 1)%nat as Hm.
  { symmetry. apply (Nat.mod_unique _ _ (2 * e - 1)); [lia|]. rewrite Nat.mul_sub_distr_l. lia. }
  constructor; unfold ring_init; cbn [bb_tab bb_size bb_head bb_tail i_tab i_size].
  - rewrite length_app, length_replicate. cbn [length]. lia.
  - exists (2 * e)%nat. lia.
  - nia.
  - lia.
  - change (length [_]) with 1%nat. symmetry. apply Nat.Div0.mod_same.
  - change (length [_]) with 1%nat. exists (2 * e)%nat. lia.
  - change (length [_]) with 1%nat. rewrite Hm. nia.
  - change (length [_]) with 1%nat. intros i Hi. assert (i = 0%nat) as -> by lia.
    rewrite Nat.add_0_r, Nat.mod_small by lia. rewrite lookup_app_r by (rewrite length_replicate; lia).
    by rewrite length_replicate, Nat.sub_diag.
  - cbn [length]. lia.
Qed.

Lemma bbox_to_intv2_eq fuel bb dim_virt : (num_dims bb <= 11)%nat ->
  bbox_to_intv2 fuel bb dim_virt = bbox_to_intv fuel bb dim_virt.
Proof.
  intros Hd. unfold bbox_to_intv2, bbox_to_intv.
  erewrite ring_loop_refines; [done| |done|by apply ring_init_inv|].
  - apply Nat.neq_0_lt_0, Nat.pow_nonzero. lia.
  - by apply Forall_singleton.
Qed.

(** ** Properties *)

(** C10: the decomposition used by the DHT is correct and terminates: for a
    box inside the virtual domain of side 2^k, [bbox_to_intv2] returns the
    table of intervals that are sorted, non-empty and separated by gaps
    (so as few as possible), and their indices are exactly the Hilbert
    indices of the cells of the box, each once.  No access leaves the ring
    or the interval array. *)
Theorem bbox_to_intv2_correct n k bb fuel :
  intv_pre n k bb -> (n <= 11)%nat -> (cube_cost n k <= fuel)%nat ->
  exists tab, bbox_to_intv2 fuel bb (2 ^ Z.of_nat k) = Some (tab, length tab) /\
    covers tab (hilbert_c2i n (S k) <$> points bb).
Proof.
  intros Hp Hn Hf. rewrite bbox_to_intv2_eq by (by rewrite (pre_dims _ _ _ Hp)).
  by apply bbox_to_intv_covers.
Qed.

Definition demo_dom_box : bbox := mk_bbox 2 [1; 0] [2; 3].

Lemma demo_intv_pre : intv_pre 2 2 demo_dom_box.
Proof.
  constructor; try (cbn; lia).
  - split; [done|]. split; [done|]. intros i Hi. cbn in Hi.
    destruct i as [|[|i]]; [unfold cget; cbn; lia|unfold cget; cbn; lia|lia].
  - intros i Hi. destruct i as [|[|i]]; [unfold cget; cbn; lia|unfold cget; cbn; lia|lia].
Qed.

Lemma bbox_to_intv2_correct_witness : exists tab,
  bbox_to_intv2 21 demo_dom_box 4 = Some (tab, length tab) /\
  covers tab (hilbert_c2i 2 3 <$> points demo_dom_box).
Proof. apply (bbox_to_intv2_correct 2 2 demo_dom_box 21 demo_intv_pre); [lia|cbn; lia]. Defined.

(** the ring buffer of [bbox_to_intv2] with its growth by half refines
    the linked queue of [bbox_to_intv]: both functions return the same
    result on every box of at most 11 dimensions. *)
Theorem bbox_to_intv2_refines fuel bb dim_virt :
  (num_dims bb <= 11)%nat -> bbox_to_intv2 fuel bb dim_virt = bbox_to_intv fuel bb dim_virt.
Proof. apply bbox_to_intv2_eq. Qed.

Lemma bbox_to_intv2_refines_witness :
  bbox_to_intv2 21 demo_dom_box 4 = bbox_to_intv 21 demo_dom_box 4.
Proof. apply bbox_to_intv2_refines. cbn. lia. Defined.
