(* ===== verification/Matrix.v ===== *)
(** * Copying sub-arrays (src/ss_data.c)

    [matrix_init] describes the part of an array that belongs to a common
    sub-box, [matrix_copy] moves it between two buffers with a nest of loops
    entered by [goto] at the level of the number of dimensions, and
    [ssd_copy], [ssd_copy_list], [ssd_copy_list_shmem] and
    [obj_data_alloc_with_data_split] use the two.  Buffers are lists of
    bytes; a [memcpy] that reads or writes outside a buffer has no result. *)

From S2P Require Import Prelude Bbox.

(** ** Memory *)

Definition sub_list {A} (off len : nat) (l : list A) : list A := take len (drop off l).

Definition memcpy (A : list byte) (aoff : Z) (B : list byte) (boff len : Z) : option (list byte) :=
  if (aoff + len <=? Z.of_nat (length A)) && (boff + len <=? Z.of_nat (length B)) then
    Some (take (Z.to_nat aoff) A ++ sub_list (Z.to_nat boff) (Z.to_nat len) B
          ++ drop (Z.to_nat (aoff + len)) A)
  else None.

(** ** Matrix descriptors *)

Inductive storage_type := row_major | column_major.

#[export] Instance storage_type_eq_dec : EqDecision storage_type.
Proof. solve_decision. Defined.

Record matrix_desc := mk_matrix {
  dist : list Z;
  m_num_dims : nat;
  size_elem : Z;
  mat_storage : storage_type;
  view_lb : list Z;
  view_ub : list Z
}.

Definition matrix_init (st : storage_type) (bb_glb bb_loc : bbox) (se : Z) : matrix_desc :=
  let ndims := num_dims bb_glb in
  mk_matrix (map (fun i => bbox_dist bb_glb i) (seq 0 ndims)) ndims se st
    (map (fun i => u64 (cget (lb bb_loc) i - cget (lb bb_glb) i)) (seq 0 ndims))
    (map (fun i => u64 (cget (ub bb_loc) i - cget (lb bb_glb) i)) (seq 0 ndims)).

(** [for (a = ..., b = ...; a <= ub; a++, b++)]: [cnt] iterations. *)
Fixpoint copy_loop {S : Type} (cnt : nat) (body : Z -> Z -> S -> option S)
    (a b : Z) (A : S) : option S :=
  match cnt with
  | O => Some A
  | Datatypes.S cnt => A ← body a b A; copy_loop cnt body (u64 (a + 1)) (u64 (b + 1)) A
  end.

(** The nest from the label [dim(d+1)] inwards; [aloc] and [bloc] are
    [aloc(d+1)] and [bloc(d+1)].  In the loop of dimension 9 the code
    computes [bloc9] from [a9].  A loop whose bound is the largest integer
    does not end. *)
Fixpoint copy_nest (d : nat) (a b : matrix_desc) (B : list byte) (aloc bloc : Z) (A : list byte)
    : option (list byte) :=
  match d with
  | O =>
      let numelem := u64 (u64 (cget (view_ub a) 0 - cget (view_lb a) 0) + 1) in
      let aloc := u64 (aloc + cget (view_lb a) 0) in
      let bloc := u64 (bloc + cget (view_lb b) 0) in
      memcpy A (u64 (aloc * size_elem a)) B (u64 (bloc * size_elem a)) (u64 (size_elem a * numelem))
  | S d' =>
      if cget (view_ub a) d =? 2 ^ 64 - 1 then None else
      copy_loop (Z.to_nat (cget (view_ub a) d - cget (view_lb a) d + 1))
        (fun ad bd =>
           let bd := if (d =? 9)%nat then ad else bd in
           copy_nest d' a b B (u64 (u64 (aloc + ad) * cget (dist a) d'))
                              (u64 (u64 (bloc + bd) * cget (dist b) d')))
        (cget (view_lb a) d) (cget (view_lb b) d) A
  end.

(** Arrays of more than ten dimensions enter the nest at [dim10] with
    indices outside the descriptors: no result. *)
Definition matrix_copy (a : matrix_desc) (A : list byte) (b : matrix_desc) (B : list byte)
    : option (list byte) :=
  if (1 <=? m_num_dims a)%nat && (m_num_dims a <=? 10)%nat
  then copy_nest (m_num_dims a - 1) a b B 0 0 A else None.

(** ** Rows

    The nest is a sequence of [memcpy]s of equal length. *)

Fixpoint nest_rows (d : nat) (a b : matrix_desc) (aloc bloc : Z) : list (Z * Z) :=
  match d with
  | O => [(u64 (u64 (aloc + cget (view_lb a) 0) * size_elem a),
           u64 (u64 (bloc + cget (view_lb b) 0) * size_elem a))]
  | S d' =>
      seq 0 (Z.to_nat (cget (view_ub a) d - cget (view_lb a) d + 1)) ≫= fun i =>
        let ad := u64 (cget (view_lb a) d + Z.of_nat i) in
        let bd := if (d =? 9)%nat then ad else u64 (cget (view_lb b) d + Z.of_nat i) in
        nest_rows d' a b (u64 (u64 (aloc + ad) * cget (dist a) d'))
                         (u64 (u64 (bloc + bd) * cget (dist b) d'))
  end.

Definition row_len (a : matrix_desc) : Z :=
  u64 (size_elem a * u64 (u64 (cget (view_ub a) 0 - cget (view_lb a) 0) + 1)).

Fixpoint copy_rows (rows : list (Z * Z)) (len : Z) (B A : list byte) : option (list byte) :=
  match rows with
  | [] => Some A
  | (ao, bo) :: rows => A ← memcpy A ao B bo len; copy_rows rows len B A
  end.

Lemma copy_rows_app r1 r2 len B A :
  copy_rows (r1 ++ r2) len B A = A ← copy_rows r1 len B A; copy_rows r2 len B A.
Proof.
  revert A. induction r1 as [|[ao bo] r1 IH]; intros A; [done|]. cbn.
  destruct (memcpy _ _ _ _ _); [apply IH|done].
Qed.

Lemma copy_loop_rows (f : Z -> Z -> list byte -> option (list byte)) rows len B cnt :
  (forall a b A, f a b A = copy_rows (rows a b) len B A) ->
  forall a b A, 0 <= a < 2 ^ 64 -> 0 <= b < 2 ^ 64 ->
  copy_loop cnt f a b A =
  copy_rows (seq 0 cnt ≫= fun i => rows (u64 (a + Z.of_nat i)) (u64 (b + Z.of_nat i))) len B A.
Proof.
  intros Hf. induction cnt as [|cnt IH]; intros a b A Ha Hb; [done|].
  cbn [copy_loop seq]. rewrite bind_cons, copy_rows_app, Hf. cbn [Z.of_nat].
  change (Z.of_nat 0) with 0. rewrite !Z.add_0_r, (u64_small a Ha), (u64_small b Hb). destruct (copy_rows (rows a b) len B A) as [A1|]; [|done].
  cbn [mbind option_bind]. rewrite IH by apply u64_range. rewrite <- seq_shift.
  assert (forall x i, u64 (u64 (x + 1) + Z.of_nat i) = u64 (x + Z.of_nat (S i))) as E.
  { intros x i. unfold u64. rewrite Zplus_mod_idemp_l. f_equal. lia. }
  f_equal. generalize (seq 0 cnt). intros l. induction l as [|i l IHl]; [done|].
  cbn [map]. rewrite !bind_cons, IHl. by rewrite !E.
Qed.

Lemma copy_nest_rows d a b B :
  (forall i, (i <= d)%nat -> 0 <= cget (view_lb a) i < 2 ^ 64 /\ 0 <= cget (view_lb b) i < 2 ^ 64 /\
     cget (view_ub a) i < 2 ^ 64 - 1) ->
  forall aloc bloc A, copy_nest d a b B aloc bloc A = copy_rows (nest_rows d a b aloc bloc) (row_len a) B A.
Proof.
  induction d as [|d IH]; intros Hv aloc bloc A; cbn [copy_nest nest_rows].
  - cbn [copy_rows]. unfold row_len. by destruct (memcpy _ _ _ _ _).
  - destruct (Z.eqb_spec (cget (view_ub a) (S d)) (2 ^ 64 - 1)) as [E|_];
      [destruct (Hv (S d)) as (_ & _ & ?); lia|].
    rewrite (copy_loop_rows _ (fun ad bd =>
      nest_rows d a b (u64 (u64 (aloc + ad) * cget (dist a) d))
        (u64 (u64 (bloc + (if (S d =? 9)%nat then ad else bd)) * cget (dist b) d))) (row_len a) B).
    + reflexivity.
    + intros ad bd A'. apply IH. intros i Hi. apply Hv. lia.
    + apply Hv. lia.
    + apply Hv. lia.
Qed.

(** ** The effect of a sequence of rows *)

(** The byte at an integer offset. *)
Definition at_ (l : list byte) (j : Z) : option byte := l !! Z.to_nat j.

Lemma memcpy_spec A ao B bo len :
  0 <= ao -> 0 <= bo -> 0 <= len -> ao + len <= Z.of_nat (length A) -> bo + len <= Z.of_nat (length B) ->
  exists A', memcpy A ao B bo len = Some A' /\ length A' = length A /\
    forall j, 0 <= j -> at_ A' j = if (ao <=? j) && (j <? ao + len) then at_ B (bo + (j - ao)) else at_ A j.
Proof.
  intros Ha Hb Hl HA HB. unfold memcpy, sub_list, at_.
  rewrite (proj2 (Z.leb_le _ _) HA), (proj2 (Z.leb_le _ _) HB). cbn [andb].
  eexists. split; [done|]. split.
  - rewrite !length_app, !length_take, !length_drop. lia.
  - intros j Hj. destruct (Z.leb_spec ao j); cbn [andb].
    + rewrite lookup_app_r by (rewrite length_take; lia). rewrite length_take.
      destruct (Z.ltb_spec j (ao + len)).
      * rewrite lookup_app_l by (rewrite length_take, length_drop; lia).
        rewrite lookup_take_lt, lookup_drop by lia. f_equal. lia.
      * rewrite lookup_app_r by (rewrite length_take, length_drop; lia).
        rewrite length_take, length_drop, lookup_drop. f_equal. lia.
    + rewrite lookup_app_l by (rewrite length_take; lia). by rewrite lookup_take_lt by lia.
Qed.

Lemma copy_rows_spec len B rows : 0 <= len -> forall A,
  (forall ao bo, (ao, bo) ∈ rows -> 0 <= ao /\ ao + len <= Z.of_nat (length A) /\
     0 <= bo /\ bo + len <= Z.of_nat (length B)) ->
  (forall ao bo ao' bo' j, (ao, bo) ∈ rows -> (ao', bo') ∈ rows ->
     ao <= j < ao + len -> ao' <= j < ao' + len -> bo - ao = bo' - ao') ->
  exists A', copy_rows rows len B A = Some A' /\ length A' = length A /\
    (forall ao bo j, (ao, bo) ∈ rows -> ao <= j < ao + len -> at_ A' j = at_ B (bo + (j - ao))) /\
    (forall j, 0 <= j -> (forall ao bo, (ao, bo) ∈ rows -> ~ ao <= j < ao + len) -> at_ A' j = at_ A j).
Proof.
  intros Hlen. induction rows as [|[ao bo] rows IH]; intros A Hb Hc.
  { exists A. split; [done|]. split; [done|]. split; [|done].
    intros ? ? ? H. by apply not_elem_of_nil in H. }
  destruct (Hb ao bo (list_elem_of_here _ _)) as (Ha & HA & Hb0 & HB).
  destruct (memcpy_spec A ao B bo len) as (A1 & E1 & L1 & M1); [done..|].
  destruct (IH A1) as (A2 & E2 & L2 & I2 & O2).
  { rewrite L1. intros. apply Hb. by apply list_elem_of_further. }
  { intros. eapply Hc; eauto using list_elem_of_further. }
  exists A2. cbn [copy_rows]. rewrite E1. cbn [mbind option_bind].
  split; [done|]. split; [congruence|]. split.
  - intros ao' bo' j Hin Hj. apply elem_of_cons in Hin as [Heq|Hin]; [|eauto].
    injection Heq as -> ->.
    destruct (decide (Exists (fun r : Z * Z => r.1 <= j < r.1 + len) rows)) as [Hex|Hno].
    + apply list.Exists_exists in Hex as ([ao2 bo2] & Hin2 & Hj2). cbn [fst] in Hj2. rewrite (I2 _ _ _ Hin2 Hj2).
      pose proof (Hc ao bo ao2 bo2 j (list_elem_of_here _ _) (list_elem_of_further _ _ _ Hin2) Hj Hj2).
      f_equal. lia.
    + rewrite O2, M1; [|lia|lia|].
      * destruct (Z.leb_spec ao j), (Z.ltb_spec j (ao + len)); cbn [andb]; (done || lia).
      * intros a0 b0 H0 H1. apply Hno, list.Exists_exists. by exists (a0, b0).
  - intros j Hj Hno. rewrite O2, M1; [|done|done|].
    + specialize (Hno ao bo (list_elem_of_here _ _)).
      destruct (Z.leb_spec ao j), (Z.ltb_spec j (ao + len)); cbn [andb]; (done || lia).
    + intros. apply (Hno _ bo0). by apply list_elem_of_further.
Qed.

(** ** The position of a cell in the buffer of a box

    The first dimension varies fastest. *)

Definition ext (b : bbox) (i : nat) : Z := cget (ub b) i - cget (lb b) i + 1.

Fixpoint weight (b : bbox) (i : nat) : Z :=
  match i with O => 1 | S i => weight b i * ext b i end.

Fixpoint lin (b : bbox) (p : nat -> Z) (d : nat) : Z :=
  match d with
  | O => p 0%nat - cget (lb b) 0
  | S d' => (p d - cget (lb b) d) * weight b d + lin b p d'
  end.

Definition inb (b : bbox) (p : nat -> Z) (d : nat) : Prop :=
  forall i, (i <= d)%nat -> cget (lb b) i <= p i <= cget (ub b) i.

Lemma lin_ext b p q d : (forall i, (i <= d)%nat -> p i = q i) -> lin b p d = lin b q d.
Proof.
  induction d as [|d IH]; intros H; cbn [lin]; [by rewrite H|].
  rewrite (H (S d)), IH by auto. done.
Qed.

Lemma weight_pos b d : (forall i, (i < d)%nat -> 0 < ext b i) -> 0 < weight b d.
Proof.
  induction d as [|d IH]; intros H; cbn [weight]; [lia|].
  apply Z.mul_pos_pos; [apply IH; auto|apply H; lia].
Qed.

Lemma inb_ext b p d i : inb b p d -> (i <= d)%nat -> 0 < ext b i.
Proof. intros H Hi. specialize (H i Hi). unfold ext. lia. Qed.

Lemma lin_range b p d : inb b p d -> 0 <= lin b p d < weight b (S d).
Proof.
  induction d as [|d IH]; intros H.
  - specialize (H 0%nat ltac:(lia)). cbn [lin weight]. unfold ext. lia.
  - assert (inb b p d) as H' by (intros i Hi; apply H; lia). specialize (IH H').
    cbn [lin]. change (weight b (S (S d))) with (weight b (S d) * ext b (S d)).
    pose proof (H (S d) ltac:(lia)) as Hd. unfold ext.
    assert (0 < weight b (S d)) by (apply weight_pos; intros; eapply inb_ext; eauto; lia).
    nia.
Qed.

Lemma lin_inj b p q d : inb b p d -> inb b q d -> lin b p d = lin b q d ->
  forall i, (i <= d)%nat -> p i = q i.
Proof.
  induction d as [|d IH]; intros Hp Hq E i Hi.
  - replace i with 0%nat by lia. cbn [lin] in E. lia.
  - assert (inb b p d) as Hp' by (intros j Hj; apply Hp; lia).
    assert (inb b q d) as Hq' by (intros j Hj; apply Hq; lia).
    pose proof (lin_range b p d Hp') as Rp. pose proof (lin_range b q d Hq') as Rq.
    cbn [lin] in E. set (w := weight b (S d)) in *.
    assert (p (S d) = q (S d)) as Ed by nia.
    destruct (decide (i = S d)) as [->|]; [done|].
    apply IH; [done..| |lia]. rewrite Ed in E. lia.
Qed.

Lemma wf_ext {n} bb i : wf_bbox bb -> num_dims bb = n -> (i < n)%nat -> 0 < ext bb i.
Proof. intros (_ & _ & H) Hd Hi. rewrite Hd in H. specialize (H i Hi). unfold ext. lia. Qed.

Lemma wf_weight {n} bb i : wf_bbox bb -> num_dims bb = n -> (i <= n)%nat -> 0 < weight bb i.
Proof. intros H Hd Hi. apply weight_pos. intros. eapply wf_ext; eauto. lia. Qed.

Lemma weight_mono {n} bb i j : wf_bbox bb -> num_dims bb = n -> (i <= j <= n)%nat -> weight bb i <= weight bb j.
Proof.
  intros Hw Hd [Hij Hj]. induction Hij as [|j Hij IH]; [done|]. cbn [weight].
  specialize (IH ltac:(lia)). pose proof (wf_ext bb j Hw Hd ltac:(lia)).
  pose proof (wf_weight bb j Hw Hd ltac:(lia)). nia.
Qed.

Lemma ext_le_weight {n} bb i : wf_bbox bb -> num_dims bb = n -> (i < n)%nat -> ext bb i <= weight bb (S i).
Proof.
  intros Hw Hd Hi. cbn [weight]. pose proof (wf_ext bb i Hw Hd Hi).
  pose proof (wf_weight bb i Hw Hd ltac:(lia)). nia.
Qed.

(** ** The rows of a copy *)

Section copy.
Context (ta fb : bbox) (com : bbox) (sta stb : storage_type) (sz szb : Z) (n : nat).
Context (Hta : wf_bbox ta) (Hfb : wf_bbox fb) (Hcom : wf_bbox com).
Context (Hna : num_dims ta = n) (Hnb : num_dims fb = n) (Hnc : num_dims com = n) (Hn9 : (1 <= n <= 9)%nat).
Context (Hin : forall i, (i < n)%nat ->
  cget (lb ta) i <= cget (lb com) i /\ cget (ub com) i <= cget (ub ta) i /\
  cget (lb fb) i <= cget (lb com) i /\ cget (ub com) i <= cget (ub fb) i).
Context (Hsz : 1 <= sz) (Hva : weight ta n * sz < 2 ^ 64) (Hvb : weight fb n * sz < 2 ^ 64).

Let a := matrix_init sta ta com sz.
Let b := matrix_init stb fb com szb.

Lemma init_dist st bb s i : wf_bbox bb -> num_dims bb = n -> weight bb n * sz < 2 ^ 64 -> (i < n)%nat ->
  cget (dist (matrix_init st bb com s)) i = ext bb i.
Proof.
  intros Hw Hd Hv Hi. unfold matrix_init; cbn [dist]. rewrite cget_map_seq by lia.
  unfold bbox_dist, coord_dist. pose proof (wf_ext bb i Hw Hd Hi).
  pose proof (ext_le_weight bb i Hw Hd Hi). pose proof (weight_mono bb (S i) n Hw Hd ltac:(lia)).
  unfold ext in *. apply u64_small. nia.
Qed.

Lemma init_view st bb s i : wf_bbox bb -> num_dims bb = n -> (i < n)%nat ->
  cget (lb bb) i <= cget (lb com) i -> cget (ub com) i <= cget (ub bb) i ->
  cget (view_lb (matrix_init st bb com s)) i = cget (lb com) i - cget (lb bb) i /\
  cget (view_ub (matrix_init st bb com s)) i = cget (ub com) i - cget (lb bb) i.
Proof.
  intros (_ & _ & Hw) Hd Hi Hl Hu. unfold matrix_init; cbn [view_lb view_ub].
  rewrite !cget_map_seq by lia. specialize (Hw i ltac:(lia)).
  destruct Hcom as (_ & _ & Hc). specialize (Hc i ltac:(lia)). rewrite !u64_small; lia.
Qed.

Lemma view_a i : (i < n)%nat -> cget (view_lb a) i = cget (lb com) i - cget (lb ta) i /\
  cget (view_ub a) i = cget (ub com) i - cget (lb ta) i.
Proof. intros Hi. apply init_view; auto; apply Hin; done. Qed.

Lemma view_b i : (i < n)%nat -> cget (view_lb b) i = cget (lb com) i - cget (lb fb) i.
Proof. intros Hi. apply init_view; auto; apply Hin; done. Qed.

(** One step of the address computation does not wrap around. *)
Lemma loc_step bb base x d : wf_bbox bb -> num_dims bb = n -> (S d < n)%nat -> 0 <= base ->
  0 <= x < ext bb (S d) -> (base + ext bb (S d)) * weight bb (S d) * sz < 2 ^ 64 ->
  u64 (u64 (base + x) * ext bb d) = (base + x) * ext bb d /\
  0 <= (base + x) * ext bb d /\
  ((base + x) * ext bb d + ext bb d) * weight bb d * sz < 2 ^ 64 /\
  (base + x) * ext bb d * weight bb d = base * weight bb (S d) + x * weight bb (S d).
Proof.
  intros Hw Hd Hdn Hb Hx Hlt. pose proof (wf_ext bb d Hw Hd ltac:(lia)) as He.
  pose proof (wf_weight bb d Hw Hd ltac:(lia)) as Hwd. cbn [weight] in *.
  set (w := weight bb d) in *. set (e := ext bb d) in *. set (e' := ext bb (S d)) in *.
  assert ((base + x + 1) * (w * e) * sz <= (base + e') * (w * e) * sz) as Hle.
  { apply Z.mul_le_mono_nonneg_r; [lia|]. apply Z.mul_le_mono_nonneg_r; [nia|lia]. }
  assert ((base + x) * e <= (base + x) * (w * e) * sz).
  { rewrite <- (Z.mul_1_r ((base + x) * e)). replace ((base + x) * (w * e) * sz) with ((base + x) * e * (w * sz)) by ring.
    apply Z.mul_le_mono_nonneg_l; nia. }
  assert (base + x <= (base + x) * e) by nia.
  assert ((base + x) * (w * e) * sz <= (base + x + 1) * (w * e) * sz) by nia.
  assert (0 <= (base + x) * e) by nia.
  rewrite (u64_small (base + x)) by lia. rewrite u64_small by lia.
  split; [done|]. split; [done|]. split; [|ring].
  replace (((base + x) * e + e) * w * sz) with ((base + x + 1) * (w * e) * sz) by ring. lia.
Qed.

(** A point of the common box at the start of a row, in the first [d] dimensions. *)
Definition row_point (p : nat -> Z) (d : nat) : Prop :=
  p 0%nat = cget (lb com) 0 /\ forall i, (1 <= i <= d)%nat -> cget (lb com) i <= p i <= cget (ub com) i.

Lemma nest_rows_elem d : (d < n)%nat -> forall base_a base_b ao bo, 0 <= base_a -> 0 <= base_b ->
  (base_a + ext ta d) * weight ta d * sz < 2 ^ 64 -> (base_b + ext fb d) * weight fb d * sz < 2 ^ 64 ->
  (ao, bo) ∈ nest_rows d a b base_a base_b <->
  exists p, row_point p d /\ ao = (base_a * weight ta d + lin ta p d) * sz /\
    bo = (base_b * weight fb d + lin fb p d) * sz.
Proof.
  induction d as [|d IH]; intros Hd base_a base_b ao bo Ha Hb Hla Hlb; cbn [nest_rows].
  - destruct (view_a 0 ltac:(lia)) as [-> _]. rewrite view_b by lia. change (size_elem a) with sz.
    destruct (Hin 0 ltac:(lia)) as (H1 & H2 & H3 & H4). destruct Hcom as (_ & _ & Hc).
    specialize (Hc 0%nat ltac:(lia)). cbn [weight lin] in *. rewrite Z.mul_1_r in *. unfold ext in *.
    assert (forall base l u, 0 <= base -> l <= cget (lb com) 0 <= u -> (base + (u - l + 1)) * sz < 2 ^ 64 ->
      u64 (u64 (base + (cget (lb com) 0 - l)) * sz) = (base + (cget (lb com) 0 - l)) * sz) as E.
    { intros base l u Hbase Hlu Hlt. rewrite (u64_small (base + _)) by nia. apply u64_small. nia. }
    rewrite (E base_a _ (cget (ub ta) 0)), (E base_b _ (cget (ub fb) 0)) by (done || lia).
    rewrite list_elem_of_singleton. split.
    + intros [= -> ->]. exists (fun _ => cget (lb com) 0). split; [split; [done|lia]|split; ring].
    + intros (p & [Hp _] & -> & ->). rewrite Hp. f_equal; ring.
  - destruct (view_a (S d) Hd) as [-> ->]. rewrite view_b by done.
    destruct (Hin (S d) Hd) as (H1 & H2 & H3 & H4).
    unfold a, b. rewrite !init_dist by (done || lia). fold a b.
    assert ((S d =? 9)%nat = false) as -> by (apply Nat.eqb_neq; lia).
    pose proof Hcom as (_ & _ & Hc). specialize (Hc (S d) ltac:(lia)).
    pose proof Hta as (_ & _ & Hwa). specialize (Hwa (S d) ltac:(lia)).
    pose proof Hfb as (_ & _ & Hwb). specialize (Hwb (S d) ltac:(lia)).
    assert (forall i, Z.of_nat i <= cget (ub com) (S d) - cget (lb com) (S d) ->
      (ao, bo) ∈ nest_rows d a b
        (u64 (u64 (base_a + u64 (cget (lb com) (S d) - cget (lb ta) (S d) + Z.of_nat i)) * ext ta d))
        (u64 (u64 (base_b + u64 (cget (lb com) (S d) - cget (lb fb) (S d) + Z.of_nat i)) * ext fb d)) <->
      exists p, row_point p d /\
        ao = (base_a * weight ta (S d) +
          ((cget (lb com) (S d) - cget (lb ta) (S d) + Z.of_nat i) * weight ta (S d) + lin ta p d)) * sz /\
        bo = (base_b * weight fb (S d) +
          ((cget (lb com) (S d) - cget (lb fb) (S d) + Z.of_nat i) * weight fb (S d) + lin fb p d)) * sz) as Hi.
    { intros i Hi. rewrite !(u64_small (cget (lb com) (S d) - _ + Z.of_nat i)) by lia.
      destruct (loc_step ta base_a (cget (lb com) (S d) - cget (lb ta) (S d) + Z.of_nat i) d)
        as (-> & Pa & La & Ea); [done..|unfold ext; lia|done|].
      destruct (loc_step fb base_b (cget (lb com) (S d) - cget (lb fb) (S d) + Z.of_nat i) d)
        as (-> & Pb & Lb & Eb); [done..|unfold ext; lia|done|].
      rewrite IH by (done || lia). rewrite Ea, Eb.
      split; intros (p & Hp & -> & ->); exists p; (split; [done|]); split; ring. }
    rewrite list_elem_of_bind. split.
    + intros (i & Hel & Hs%elem_of_seq). rewrite Hi in Hel by lia. destruct Hel as (p & [Hp0 Hp] & -> & ->).
      exists (fun j => if (j =? S d)%nat then cget (lb com) (S d) + Z.of_nat i else p j).
      split; [split; [done|]|].
      { intros j Hj. destruct (Nat.eqb_spec j (S d)) as [->|]; [lia|]. apply Hp. lia. }
      cbn [lin]. rewrite Nat.eqb_refl.
      rewrite !(lin_ext _ (fun j => if (j =? S d)%nat then _ else p j) p d)
        by (intros j Hj; destruct (Nat.eqb_spec j (S d)); [lia|done]).
      split; ring.
    + intros (p & [Hp0 Hp] & -> & ->). pose proof (Hp (S d) ltac:(lia)) as Hpd.
      exists (Z.to_nat (p (S d) - cget (lb com) (S d))). split; [|apply elem_of_seq; lia].
      apply Hi; [lia|]. exists p. split; [split; [done|]; intros; apply Hp; lia|].
      cbn [lin]. rewrite Z2Nat.id by lia. split; f_equal; ring.
Qed.

Lemma lin_shift0 bb (p q : nat -> Z) d : (forall i, (1 <= i <= d)%nat -> p i = q i) ->
  lin bb q d = lin bb p d + (q 0%nat - p 0%nat).
Proof.
  induction d as [|d IH]; intros H; cbn [lin]; [lia|].
  rewrite IH, (H (S d)) by (intros; apply H; lia) || lia. lia.
Qed.

Lemma row_len_eq : row_len a = sz * ext com 0.
Proof.
  unfold row_len. destruct (view_a 0 ltac:(lia)) as [-> ->]. change (size_elem a) with sz.
  destruct (Hin 0 ltac:(lia)) as (H1 & H2 & _). pose proof Hcom as (_ & _ & Hc).
  specialize (Hc 0%nat ltac:(lia)). pose proof Hta as (_ & _ & Hw). specialize (Hw 0%nat ltac:(lia)).
  pose proof (ext_le_weight ta 0 Hta Hna ltac:(lia)) as He.
  pose proof (weight_mono ta 1 n Hta Hna ltac:(lia)). unfold ext in *.
  assert (cget (ub ta) 0 - cget (lb ta) 0 + 1 < 2 ^ 64) by nia.
  rewrite (u64_small (_ - _ - _)) by lia. rewrite (u64_small (_ + 1)) by lia.
  rewrite u64_small by nia. f_equal. lia.
Qed.

(** Every byte of a row is a byte of a cell of the common box. *)
Lemma row_byte p t : row_point p (n - 1) -> 0 <= t < row_len a -> exists q k,
  inb com q (n - 1) /\ 0 <= k < sz /\
  forall bb, lin bb p (n - 1) * sz + t = lin bb q (n - 1) * sz + k.
Proof.
  intros [Hp0 Hp] Ht. rewrite row_len_eq in Ht. unfold ext in Ht.
  pose proof (Z.div_mod t sz ltac:(lia)) as Hdm. pose proof (Z.mod_pos_bound t sz ltac:(lia)).
  set (q := fun i => if (i =? 0)%nat then p 0%nat + t / sz else p i).
  exists q, (t mod sz). split; [|split; [done|]].
  - intros i Hi. unfold q. destruct (Nat.eqb_spec i 0) as [->|]; [|apply Hp; lia]. rewrite Hp0.
    assert (0 <= t / sz) by (apply Z.div_pos; lia).
    assert (t / sz < cget (ub com) 0 - cget (lb com) 0 + 1) by (apply Z.div_lt_upper_bound; lia). lia.
  - intros bb. rewrite (lin_shift0 bb p q).
    + unfold q at 1. cbn [Nat.eqb]. replace (p 0%nat + t / sz - p 0%nat) with (t / sz) by lia. lia.
    + intros i Hi. unfold q. destruct (Nat.eqb_spec i 0); [lia|done].
Qed.

Lemma cell_byte_inj bb p q k k' : inb bb p (n - 1) -> inb bb q (n - 1) -> 0 <= k < sz -> 0 <= k' < sz ->
  lin bb p (n - 1) * sz + k = lin bb q (n - 1) * sz + k' ->
  k = k' /\ forall i, (i < n)%nat -> p i = q i.
Proof.
  intros Hp Hq Hk Hk' E. assert (lin bb p (n - 1) = lin bb q (n - 1)) as El by nia.
  split; [nia|]. intros i Hi. apply (lin_inj bb p q (n - 1)); [done..|lia].
Qed.

Lemma com_in bb p : bb = ta \/ bb = fb -> inb com p (n - 1) -> inb bb p (n - 1).
Proof. intros [-> | ->] Hp i Hi; specialize (Hp i Hi); destruct (Hin i ltac:(lia)); lia. Qed.

Lemma cell_bound bb p k L : (bb = ta \/ bb = fb) -> inb bb p (n - 1) -> 0 <= k < sz ->
  weight bb n * sz <= L -> 0 <= lin bb p (n - 1) * sz + k < L.
Proof.
  intros Hb Hp Hk HL. pose proof (lin_range bb p (n - 1) Hp) as R.
  replace (S (n - 1)) with n in R by lia. nia.
Qed.

Abbreviation rows := (nest_rows (n - 1) a b 0 0).

Lemma rows_elem ao bo : (ao, bo) ∈ rows <-> exists p, row_point p (n - 1) /\
  ao = lin ta p (n - 1) * sz /\ bo = lin fb p (n - 1) * sz.
Proof.
  assert (forall bb, weight bb n * sz < 2 ^ 64 -> (0 + ext bb (n - 1)) * weight bb (n - 1) * sz < 2 ^ 64) as H.
  { intros bb. replace (weight bb n) with (weight bb (S (n - 1))) by (f_equal; lia). cbn [weight]. lia. }
  rewrite nest_rows_elem by (lia || auto). split; intros (p & Hp & -> & ->); exists p; (split; [done|]); split; ring.
Qed.

Lemma row_len_pos : 0 < row_len a.
Proof.
  rewrite row_len_eq. pose proof (wf_ext com 0 Hcom Hnc ltac:(lia)). nia.
Qed.

Lemma row_bounds bb p L : (bb = ta \/ bb = fb) -> row_point p (n - 1) -> weight bb n * sz <= L ->
  0 <= lin bb p (n - 1) * sz /\ lin bb p (n - 1) * sz + row_len a <= L.
Proof.
  intros Hb Hp HL. pose proof row_len_pos as Hpos.
  destruct (row_byte p 0 Hp ltac:(lia)) as (q0 & k0 & Hq0 & Hk0 & E0).
  destruct (row_byte p (row_len a - 1) Hp ltac:(lia)) as (q1 & k1 & Hq1 & Hk1 & E1).
  pose proof (cell_bound bb q0 k0 L Hb (com_in bb q0 Hb Hq0) Hk0 HL).
  pose proof (cell_bound bb q1 k1 L Hb (com_in bb q1 Hb Hq1) Hk1 HL).
  specialize (E0 bb). specialize (E1 bb). lia.
Qed.

Lemma rows_consistent ao bo ao' bo' j : (ao, bo) ∈ rows -> (ao', bo') ∈ rows ->
  ao <= j < ao + row_len a -> ao' <= j < ao' + row_len a -> bo - ao = bo' - ao'.
Proof.
  intros (p & Hp & -> & ->)%rows_elem (p' & Hp' & -> & ->)%rows_elem Hj Hj'.
  destruct (row_byte p (j - lin ta p (n - 1) * sz) Hp ltac:(lia)) as (q & k & Hq & Hk & E).
  destruct (row_byte p' (j - lin ta p' (n - 1) * sz) Hp' ltac:(lia)) as (q' & k' & Hq' & Hk' & E').
  destruct (cell_byte_inj ta q q' k k') as [-> Hqq]; auto using com_in.
  { rewrite <- E, <- E'. lia. }
  pose proof (E fb) as E1. pose proof (E' fb) as E2.
  rewrite (lin_ext fb q q') in E1 by (intros; apply Hqq; lia). lia.
Qed.

(** The views of the two descriptors stay below the largest integer. *)
Lemma views_ok i : (i <= n - 1)%nat -> 0 <= cget (view_lb a) i < 2 ^ 64 /\
  0 <= cget (view_lb b) i < 2 ^ 64 /\ cget (view_ub a) i < 2 ^ 64 - 1.
Proof.
  intros Hi. destruct (view_a i ltac:(lia)) as [-> ->]. rewrite view_b by lia.
  destruct (Hin i ltac:(lia)). pose proof Hcom as (_ & _ & Hc). specialize (Hc i ltac:(lia)).
  pose proof Hta as (_ & _ & Hw). specialize (Hw i ltac:(lia)).
  pose proof Hfb as (_ & _ & Hw'). specialize (Hw' i ltac:(lia)).
  pose proof (ext_le_weight ta i Hta Hna ltac:(lia)) as He. unfold ext in He.
  pose proof (weight_mono ta (S i) n Hta Hna ltac:(lia)).
  assert (weight ta n <= weight ta n * sz) by nia. lia.
Qed.

Lemma matrix_copy_as_rows A B : matrix_copy a A b B = copy_rows rows (row_len a) B A.
Proof.
  unfold matrix_copy. change (m_num_dims a) with (num_dims ta). rewrite Hna.
  destruct (Nat.leb_spec 1 n), (Nat.leb_spec n 10); try lia. cbn [andb].
  apply copy_nest_rows. apply views_ok.
Qed.

Lemma rows_bounds (A B : list byte) ao bo :
  weight ta n * sz <= Z.of_nat (length A) -> weight fb n * sz <= Z.of_nat (length B) ->
  (ao, bo) ∈ rows -> 0 <= ao /\ ao + row_len a <= Z.of_nat (length A) /\
     0 <= bo /\ bo + row_len a <= Z.of_nat (length B).
Proof.
  intros HA HB (p & Hp & -> & ->)%rows_elem.
  destruct (row_bounds ta p _ (or_introl eq_refl) Hp HA), (row_bounds fb p _ (or_intror eq_refl) Hp HB). done.
Qed.

Lemma matrix_copy_cells A B :
  weight ta n * sz <= Z.of_nat (length A) -> weight fb n * sz <= Z.of_nat (length B) ->
  exists A', matrix_copy a A b B = Some A' /\ length A' = length A /\
    (forall p k, inb com p (n - 1) -> 0 <= k < sz ->
       at_ A' (lin ta p (n - 1) * sz + k) = at_ B (lin fb p (n - 1) * sz + k)) /\
    (forall j, 0 <= j -> (forall p k, inb com p (n - 1) -> 0 <= k < sz -> j <> lin ta p (n - 1) * sz + k) ->
       at_ A' j = at_ A j).
Proof.
  intros HA HB. rewrite matrix_copy_as_rows.
  destruct (copy_rows_spec (row_len a) B rows) with (A := A) as (A' & E & HL & Hrow & Hout).
  - pose proof row_len_pos. lia.
  - intros ao bo. by apply rows_bounds.
  - apply rows_consistent.
  - exists A'. split; [done|]. split; [done|]. split.
    + intros p k Hp Hk. set (p0 := fun i => if (i =? 0)%nat then cget (lb com) 0 else p i).
      assert (forall bb, lin bb p (n - 1) = lin bb p0 (n - 1) + (p 0%nat - cget (lb com) 0)) as El.
      { intros bb. change (cget (lb com) 0) with (p0 0%nat). apply lin_shift0. intros i Hi. unfold p0. destruct (Nat.eqb_spec i 0); [lia|done]. }
      pose proof (Hp 0%nat ltac:(lia)) as Hp0. pose proof row_len_eq as Hrl. unfold ext in Hrl.
      rewrite (Hrow (lin ta p0 (n - 1) * sz) (lin fb p0 (n - 1) * sz)).
      * f_equal. rewrite !El. ring.
      * apply rows_elem. exists p0. split; [|done]. split; [done|]. intros i Hi. unfold p0.
        destruct (Nat.eqb_spec i 0); [lia|]. apply Hp. lia.
      * rewrite El, Hrl. nia.
    + intros j Hj Hno. apply Hout; [done|]. intros ao bo (p & Hp & -> & ->)%rows_elem Hr.
      destruct (row_byte p (j - lin ta p (n - 1) * sz) Hp ltac:(lia)) as (q & k & Hq & Hk & Eq).
      apply (Hno q k Hq Hk). rewrite <- Eq. lia.
Qed.
End copy.
