(* ===== verification/ObjDesc.v ===== *)
(** * Object descriptors and data objects (include/ss_data.h, src/ss_data.c)

    The descriptor of a data object, the comparisons the storage and the DHT
    use, the lists of global dimensions, and the operations that move cells
    between data objects ([ssd_copy] and its variants). *)

From S2P Require Import Prelude Bbox Matrix.

#[global] Open Scope Z_scope.

Record obj_descriptor := mk_odsc {
  name : string;
  st : storage_type;
  owner : Z;
  version : Z;          (* unsigned int *)
  bb : bbox;
  size : Z              (* size_t *)
}.

Record global_dimension := mk_gdim { ndim : nat; sizes : list Z }.

(** [od_ptr] is the address of the structure, its identity in the lists;
    [data] is the content of the buffer. *)
Record obj_data := mk_od {
  od_ptr : nat;
  obj_desc : obj_descriptor;
  od_gdim : global_dimension;
  data : list byte;
  refcnt : Z;
  f_free : bool
}.

(** [strcmp(a, b) == 0] *)
Definition streq (a b : string) : bool := String.eqb a b.

(** ** Comparisons *)

Definition obj_desc_equals_no_owner (o1 o2 : obj_descriptor) : bool :=
  streq (name o1) (name o2) && bbox_equals (bb o1) (bb o2).

Definition obj_desc_equals (o1 o2 : obj_descriptor) : bool :=
  (owner o1 =? owner o2) && bbox_equals (bb o1) (bb o2).

Definition obj_desc_equals_intersect (o1 o2 : obj_descriptor) : bool :=
  streq (name o1) (name o2) && (version o1 =? version o2) && bbox_does_intersect (bb o1) (bb o2).

Definition obj_desc_by_name_intersect (o1 o2 : obj_descriptor) : bool :=
  streq (name o1) (name o2) && bbox_does_intersect (bb o1) (bb o2).

Definition obj_desc_by_name_only_intersect (o1 o2 : obj_descriptor) : bool :=
  streq (name o1) (name o2).

(** ** Sizes *)

Definition obj_data_size (o : obj_descriptor) : Z := u64 (size o * bbox_volume (bb o)).

(** bb_x = 0, bb_y = 1, bb_z = 2. *)
Definition obj_data_sizev (o : obj_descriptor) : Z :=
  if (num_dims (bb o) =? 2)%nat then
    match st o with
    | row_major => u64 (1 * bbox_dist (bb o) 1)
    | column_major => u64 (1 * bbox_dist (bb o) 0)
    end
  else if (num_dims (bb o) =? 3)%nat then
    let size := u64 (1 * bbox_dist (bb o) 2) in
    match st o with
    | row_major => u64 (size * bbox_dist (bb o) 1)
    | column_major => u64 (size * bbox_dist (bb o) 0)
    end
  else 1.

(** ** Global dimensions *)

(** The [coord] is cleared before the copy: entries past [ndim] are 0. *)
Definition copy_global_dimension (ndim : nat) (gdim : list Z) : global_dimension :=
  mk_gdim ndim (map (fun i => cget gdim i) (seq 0 ndim)).

Definition gdim_list := list (string * global_dimension).

Definition lookup_gdim_list (l : gdim_list) (var_name : string) : option global_dimension :=
  snd <$> List.find (fun e => streq (fst e) var_name) l.

(** The first entry with the name is overwritten in place; a new entry is
    added in front. *)
Fixpoint gdim_replace (l : gdim_list) (var_name : string) (g : global_dimension) : gdim_list :=
  match l with
  | [] => []
  | e :: l => if streq (fst e) var_name then (fst e, g) :: l else e :: gdim_replace l var_name g
  end.

Definition update_gdim_list (l : gdim_list) (var_name : string) (ndim : nat) (gdim : list Z) : gdim_list :=
  let g := copy_global_dimension ndim gdim in
  match lookup_gdim_list l var_name with
  | Some _ => gdim_replace l var_name g
  | None => (var_name, g) :: l
  end.

Definition set_global_dimension (l : gdim_list) (var_name : string) (default_gdim : global_dimension)
    : global_dimension :=
  match lookup_gdim_list l var_name with Some g => g | None => default_gdim end.

Definition global_dimension_equal (g1 g2 : global_dimension) : bool :=
  forallb (fun i => cget (sizes g1) i =? cget (sizes g2) i) (seq 0 (ndim g1)).

(** ** Data objects *)

(** The content of fresh memory is not specified: [fresh] is the parameter
    that stands for it.  The 7 spare bytes for the alignment of the data
    pointer are left out of the buffer. *)
Definition obj_data_alloc (ptr : nat) (fresh : list byte) (o : obj_descriptor) : obj_data :=
  mk_od ptr o (mk_gdim 0 []) (take (Z.to_nat (obj_data_size o)) fresh) 0 false.

Definition set_data (od : obj_data) (d : list byte) : obj_data :=
  mk_od (od_ptr od) (obj_desc od) (od_gdim od) d (refcnt od) (f_free od).

Definition obj_data_alloc_no_data (ptr : nat) (o : obj_descriptor) (d : list byte) : obj_data :=
  mk_od ptr o (mk_gdim 0 []) d 0 false.

Definition obj_data_alloc_with_data (ptr : nat) (fresh : list byte) (o : obj_descriptor) (d : list byte)
    : option obj_data :=
  let od := obj_data_alloc ptr fresh o in
  d ← memcpy (data od) 0 d 0 (obj_data_size o);
  Some (set_data od d).

(** The body shared by the copies: [bbox_intersect], two [matrix_init],
    [matrix_copy]. *)
Definition copy_common (to : obj_descriptor) (to_data : list byte) (from : obj_descriptor)
    (from_data : list byte) : option (list byte) :=
  let bbcom := bbox_intersect (bb to) (bb from) in
  let from_mat := matrix_init (st from) (bb from) bbcom (size from) in
  let to_mat := matrix_init (st to) (bb to) bbcom (size to) in
  matrix_copy to_mat to_data from_mat from_data.

Definition ssd_copy (to from : obj_data) : option obj_data :=
  d ← copy_common (obj_desc to) (data to) (obj_desc from) (data from);
  Some (set_data to d).

Fixpoint ssd_copy_list (to : obj_data) (od_list : list obj_data) : option obj_data :=
  match od_list with
  | [] => Some to
  | from :: od_list => to ← ssd_copy to from; ssd_copy_list to od_list
  end.

(** Only the objects at positions [i] with [i % (2*nums) >= nums] are copied. *)
Fixpoint ssd_copy_list_shmem_from (i : nat) (to : obj_data) (od_list : list obj_data) (nums : nat)
    : option obj_data :=
  match od_list with
  | [] => Some to
  | from :: od_list =>
      to ← (if (nums <=? i mod (nums * 2))%nat then ssd_copy to from else Some to);
      ssd_copy_list_shmem_from (S i) to od_list nums
  end.

Definition ssd_copy_list_shmem := ssd_copy_list_shmem_from 0.

Definition obj_data_alloc_with_data_split (ptr : nat) (fresh : list byte) (o : obj_descriptor)
    (d : list byte) (odsc_big : obj_descriptor) : option obj_data :=
  let od := obj_data_alloc ptr fresh o in
  let bbcom := bbox_intersect (bb o) (bb odsc_big) in
  let from_mat := matrix_init (st o) (bb odsc_big) bbcom (size o) in
  let to_mat := matrix_init (st o) (bb o) bbcom (size o) in
  d ← matrix_copy to_mat (data od) from_mat d;
  Some (set_data od d).

Lemma gdim_equal_refl g : global_dimension_equal g g = true.
Proof. unfold global_dimension_equal. apply forallb_seq. intros. apply Z.eqb_refl. Qed.

(** ** Cells of a data object *)

(** Byte [k] of cell [p] in the buffer of box [b] with elements of [sz] bytes. *)
Definition cell_at (b : bbox) (sz : Z) (d : list byte) (p : list Z) (k : Z) : option byte :=
  at_ d (lin b (cget p) (num_dims b - 1) * sz + k).

(** A buffer for the box: at most nine dimensions, whole size below 2^64. *)
Record buf_ok (o : obj_descriptor) (d : list byte) : Prop := {
  bo_wf : wf_bbox (bb o);
  bo_dims : (1 <= num_dims (bb o) <= 9)%nat;
  bo_size : 1 <= size o;
  bo_fit : box_card (bb o) * size o < 2 ^ 64;
  bo_len : obj_data_size o <= Z.of_nat (length d)
}.

Lemma weight_card b : weight b (num_dims b) = box_card b.
Proof.
  unfold box_card. generalize (num_dims b). intros n.
  enough (forall m, weight b n * m = fold_right (fun i x => (cget (ub b) i - cget (lb b) i + 1) * x) m (seq 0 n)) as H
    by (rewrite <- H; ring).
  induction n as [|n IH]; intros m; [cbn; lia|].
  rewrite seq_S, fold_right_app. cbn [fold_right Nat.add weight]. rewrite <- IH. unfold ext. ring.
Qed.

Lemma buf_size o d : buf_ok o d -> obj_data_size o = box_card (bb o) * size o.
Proof.
  intros [Hw Hd Hs Hf _]. unfold obj_data_size. rewrite bbox_volume_mod.
  pose proof (box_card_pos _ Hw). rewrite (u64_small (box_card _)) by nia.
  rewrite u64_small; [ring|nia].
Qed.

Lemma in_box_inb b p : (1 <= num_dims b)%nat -> in_box b p -> inb b (cget p) (num_dims b - 1).
Proof. intros Hn [_ H] i Hi. apply H. lia. Qed.

Lemma inb_in_box b p : (1 <= num_dims b)%nat -> length p = num_dims b -> inb b (cget p) (num_dims b - 1) -> in_box b p.
Proof. intros Hn Hl H. split; [done|]. intros i Hi. apply H. lia. Qed.

(** What a copy from [from] into [to] must do: the cells both boxes have
    take the value of [from], the other cells of [to] keep theirs. *)
Definition copied (to : obj_descriptor) (d : list byte) (from : obj_descriptor) (fd d' : list byte) : Prop :=
  length d' = length d /\
  forall p k, in_box (bb to) p -> 0 <= k < size to ->
    (in_box (bb from) p -> cell_at (bb to) (size to) d' p k = cell_at (bb from) (size to) fd p k) /\
    (~ in_box (bb from) p -> cell_at (bb to) (size to) d' p k = cell_at (bb to) (size to) d p k).

Lemma copy_mats_copied to d from fd sta stb szb :
  buf_ok to d -> buf_ok from fd -> num_dims (bb to) = num_dims (bb from) -> size to = size from ->
  bbox_does_intersect (bb to) (bb from) = true ->
  let com := bbox_intersect (bb to) (bb from) in
  exists d', matrix_copy (matrix_init sta (bb to) com (size to)) d (matrix_init stb (bb from) com szb) fd = Some d' /\
    copied to d from fd d'.
Proof.
  intros Ht Hf Hd Hs Hi com. pose proof (buf_size _ _ Ht) as St. pose proof (buf_size _ _ Hf) as Sf.
  pose proof Ht as [Wt Dt Zt Ft Lt]. pose proof Hf as [Wf Df Zf Ff Lf].
  pose proof (bbox_intersect_wf _ _ Wt Wf Hd Hi) as Wc. fold com in Wc.
  assert (num_dims com = num_dims (bb to)) as Dc by done.
  rewrite Hs in *.
  destruct (matrix_copy_cells (bb to) (bb from) com sta stb (size from) szb (num_dims (bb to)))
    with (A := d) (B := fd) as (d' & E & HL & Hcell & Hout); try done.
  - intros i Hlt. unfold com. rewrite cget_inter_lb, cget_inter_ub, max_spec, min_spec by done. lia.
  - by rewrite weight_card.
  - by rewrite Hd, weight_card.
  - rewrite weight_card. lia.
  - rewrite Hd, weight_card. lia.
  - exists d'. split; [done|]. split; [done|]. intros p k Hp Hk.
    assert (inb (bb to) (cget p) (num_dims (bb to) - 1)) as Hpt by (apply in_box_inb; [lia|done]).
    split; intros Hq; unfold cell_at; rewrite Hs in *.
    + rewrite <- Hd. apply Hcell; [|done]. rewrite <- Dc. apply in_box_inb; [lia|].
      by apply bbox_intersect_points.
    + apply Hout; [apply lin_range in Hpt; nia|]. intros q k' Hq' Hk' Eq. apply Hq.
      assert (inb (bb to) q (num_dims (bb to) - 1)) as Hqt.
      { intros i Hlt. specialize (Hq' i Hlt). revert Hq'. unfold com.
        rewrite cget_inter_lb, cget_inter_ub, max_spec, min_spec by lia. lia. }
      pose proof (lin_inj (bb to) (cget p) q _ Hpt Hqt ltac:(nia)) as Hpq.
      apply (bbox_intersect_points (bb to) (bb from) p Hd). destruct Hp as [Hl _].
      apply inb_in_box; [cbn; lia|done|]. intros i Hlt. rewrite Hpq by done. by apply Hq'.
Qed.

Lemma ssd_copy_copied to from :
  buf_ok (obj_desc to) (data to) -> buf_ok (obj_desc from) (data from) ->
  num_dims (bb (obj_desc to)) = num_dims (bb (obj_desc from)) -> size (obj_desc to) = size (obj_desc from) ->
  bbox_does_intersect (bb (obj_desc to)) (bb (obj_desc from)) = true ->
  exists d, ssd_copy to from = Some (set_data to d) /\
    copied (obj_desc to) (data to) (obj_desc from) (data from) d.
Proof.
  intros Ht Hf Hd Hs Hi.
  destruct (copy_mats_copied (obj_desc to) (data to) (obj_desc from) (data from)
    (st (obj_desc to)) (st (obj_desc from)) (size (obj_desc from))) as (d & E & Hc); [done..|].
  exists d. split; [|done]. unfold ssd_copy, copy_common. by rewrite E.
Qed.

(** ** Assembling an object from several *)

(** The buffer holds the values of [g] on the cells of its box. *)
Definition agrees (o : obj_descriptor) (d : list byte) (g : list Z -> Z -> option byte) : Prop :=
  forall p k, in_box (bb o) p -> 0 <= k < size o -> cell_at (bb o) (size o) d p k = g p k.

(** A source object of a copy into [to] that holds values of [g]. *)
Record source_of (to : obj_descriptor) (g : list Z -> Z -> option byte) (from : obj_data) : Prop := {
  so_ok : buf_ok (obj_desc from) (data from);
  so_dims : num_dims (bb to) = num_dims (bb (obj_desc from));
  so_size : size to = size (obj_desc from);
  so_meet : bbox_does_intersect (bb to) (bb (obj_desc from)) = true;
  so_agrees : agrees (obj_desc from) (data from) g
}.

Lemma buf_ok_same o d d' : length d' = length d -> buf_ok o d -> buf_ok o d'.
Proof. intros E []. constructor; try done. by rewrite E. Qed.

Lemma ssd_copy_list_spec g l : forall to,
  buf_ok (obj_desc to) (data to) -> Forall (source_of (obj_desc to) g) l ->
  exists d, ssd_copy_list to l = Some (set_data to d) /\ length d = length (data to) /\
    forall p k, in_box (bb (obj_desc to)) p -> 0 <= k < size (obj_desc to) ->
      cell_at (bb (obj_desc to)) (size (obj_desc to)) d p k =
      if decide (Exists (fun from => in_box (bb (obj_desc from)) p) l) then g p k
      else cell_at (bb (obj_desc to)) (size (obj_desc to)) (data to) p k.
Proof.
  induction l as [|from l IH]; intros to Ht Hl.
  { exists (data to). split; [by destruct to|]. split; [done|]. intros p k Hp Hk.
    destruct (decide _) as [H|]; [by inversion H|done]. }
  apply Forall_cons_iff in Hl as [[Hok Hd Hs Hm Ha] Hl].
  destruct (ssd_copy_copied to from) as (d1 & E1 & L1 & C1); [done..|].
  destruct (IH (set_data to d1)) as (d & E & L & C); [by apply (buf_ok_same _ (data to))|done|].
  exists d. cbn [ssd_copy_list]. rewrite E1. cbn [mbind option_bind]. rewrite E. cbn [set_data obj_desc data] in *.
  split; [done|]. split; [congruence|]. intros p k Hp Hk. rewrite C by done.
  destruct (decide (Exists _ l)) as [He|He]; destruct (decide (Exists _ (from :: l))) as [Hf|Hf]; try done.
  - exfalso. apply Hf. by apply Exists_cons_tl.
  - apply Exists_cons in Hf as [Hf|]; [|done]. destruct (C1 p k Hp Hk) as [-> _]; [|done].
    rewrite Hs. apply Ha; [done|]. by rewrite <- Hs.
  - destruct (C1 p k Hp Hk) as [_ ->]; [done|]. intros Hb. apply Hf. by apply Exists_cons_hd.
Qed.

(** ** Global dimension lists *)

Lemma lookup_gdim_cons v g l w :
  lookup_gdim_list ((v, g) :: l) w = if streq v w then Some g else lookup_gdim_list l w.
Proof. unfold lookup_gdim_list. cbn [List.find fst]. by destruct (streq v w). Qed.

Lemma streq_spec a b : streq a b = true <-> a = b.
Proof. apply String.eqb_eq. Qed.

Lemma lookup_gdim_replace l v g w : lookup_gdim_list l v <> None ->
  lookup_gdim_list (gdim_replace l v g) w = if streq v w then Some g else lookup_gdim_list l w.
Proof.
  induction l as [|[u h] l IH]; [done|]. rewrite lookup_gdim_cons. cbn [gdim_replace fst].
  destruct (streq u v) eqn:E; intros H.
  - apply streq_spec in E as ->. rewrite !lookup_gdim_cons. by destruct (streq v w).
  - rewrite !lookup_gdim_cons, IH by done. destruct (streq u w) eqn:E1; [|done].
    apply streq_spec in E1 as <-. destruct (streq v u) eqn:E2; [|done].
    apply streq_spec in E2 as ->. by rewrite (proj2 (streq_spec u u) eq_refl) in E.
Qed.

(** ** Properties *)

(** [ssd_copy] moves exactly the common cells: the destination's cells
    inside the source box take the bytes of the same cell of the source,
    every other cell keeps its bytes, nothing outside the two buffers is
    touched and no address computation wraps around (up to nine
    dimensions). *)
Theorem ssd_copy_exact to from :
  buf_ok (obj_desc to) (data to) -> buf_ok (obj_desc from) (data from) ->
  num_dims (bb (obj_desc to)) = num_dims (bb (obj_desc from)) -> size (obj_desc to) = size (obj_desc from) ->
  bbox_does_intersect (bb (obj_desc to)) (bb (obj_desc from)) = true ->
  exists d, ssd_copy to from = Some (set_data to d) /\
    copied (obj_desc to) (data to) (obj_desc from) (data from) d.
Proof. apply ssd_copy_copied. Qed.

Definition demo_desc (b : bbox) : obj_descriptor := mk_odsc "temp" row_major 3 1 b 1.
Definition demo_to : obj_data :=
  mk_od 1 (demo_desc (mk_bbox 2 [0; 1] [3; 4])) (mk_gdim 0 []) (replicate 16 Byte.x00) 0 false.
Definition demo_from : obj_data :=
  mk_od 2 (demo_desc (mk_bbox 2 [2; 0] [4; 2])) (mk_gdim 0 []) (replicate 9 Byte.x07) 0 false.

Lemma demo_to_ok : buf_ok (obj_desc demo_to) (data demo_to).
Proof. constructor; [apply demo_box_wf|cbn; lia|cbn; lia|reflexivity|vm_compute; congruence]. Qed.

Lemma demo_from_ok : buf_ok (obj_desc demo_from) (data demo_from).
Proof.
  constructor; [|cbn; lia|cbn; lia|reflexivity|vm_compute; congruence].
  split; [done|]. split; [done|]. intros i Hi. cbn in Hi.
  destruct i as [|[|i]]; [unfold cget; cbn; lia|unfold cget; cbn; lia|lia].
Qed.

Lemma ssd_copy_exact_witness : exists d, ssd_copy demo_to demo_from = Some (set_data demo_to d) /\
  copied (obj_desc demo_to) (data demo_to) (obj_desc demo_from) (data demo_from) d.
Proof. apply ssd_copy_exact; [apply demo_to_ok|apply demo_from_ok|reflexivity..]. Defined.

(** [ssd_copy_list] assembles an object from pieces: when every object
    of the list holds the values of one global array [g] on its own box,
    the destination ends with the values of [g] on all its cells that some
    piece covers, in whatever order the pieces come and however they
    overlap, and keeps its old bytes elsewhere. *)
Theorem ssd_copy_list_assembles g to l :
  buf_ok (obj_desc to) (data to) -> Forall (source_of (obj_desc to) g) l ->
  exists d, ssd_copy_list to l = Some (set_data to d) /\ length d = length (data to) /\
    forall p k, in_box (bb (obj_desc to)) p -> 0 <= k < size (obj_desc to) ->
      cell_at (bb (obj_desc to)) (size (obj_desc to)) d p k =
      if decide (Exists (fun from => in_box (bb (obj_desc from)) p) l) then g p k
      else cell_at (bb (obj_desc to)) (size (obj_desc to)) (data to) p k.
Proof. apply ssd_copy_list_spec. Qed.

Lemma demo_source : source_of (obj_desc demo_to)
  (cell_at (bb (obj_desc demo_from)) 1 (data demo_from)) demo_from.
Proof. constructor; [apply demo_from_ok|reflexivity..|]. intros p k Hp Hk. reflexivity. Qed.

Lemma ssd_copy_list_assembles_witness : exists d,
  ssd_copy_list demo_to [demo_from] = Some (set_data demo_to d) /\ length d = 16%nat.
Proof.
  destruct (ssd_copy_list_assembles (cell_at (bb (obj_desc demo_from)) 1 (data demo_from)) demo_to [demo_from])
    as (d & E & L & _); [apply demo_to_ok|apply Forall_singleton, demo_source|].
  exists d. split; [exact E|exact L].
Defined.

(** [obj_data_alloc_with_data_split] fills a fresh object with its part
    of a larger buffer: every cell of the new object that lies in the big
    box has the bytes of the big buffer, whatever the fresh memory held. *)
Theorem obj_data_alloc_with_data_split_exact ptr fresh o d big :
  buf_ok o (take (Z.to_nat (obj_data_size o)) fresh) -> buf_ok big d ->
  num_dims (bb o) = num_dims (bb big) -> size o = size big ->
  bbox_does_intersect (bb o) (bb big) = true ->
  exists d', obj_data_alloc_with_data_split ptr fresh o d big =
      Some (set_data (obj_data_alloc ptr fresh o) d') /\
    copied o (take (Z.to_nat (obj_data_size o)) fresh) big d d'.
Proof.
  intros Ho Hb Hd Hs Hm.
  destruct (copy_mats_copied o _ big d (st o) (st o) (size o) Ho Hb Hd Hs Hm) as (d' & E & Hc).
  exists d'. split; [|done]. unfold obj_data_alloc_with_data_split, obj_data_alloc; cbn [data]. by rewrite E.
Qed.

Lemma obj_data_alloc_with_data_split_exact_witness : exists d',
  obj_data_alloc_with_data_split 5 (replicate 16 Byte.x01) (obj_desc demo_to) (replicate 9 Byte.x07) (obj_desc demo_from)
    = Some (set_data (obj_data_alloc 5 (replicate 16 Byte.x01) (obj_desc demo_to)) d') /\
  copied (obj_desc demo_to) (replicate 16 Byte.x01) (obj_desc demo_from) (replicate 9 Byte.x07) d'.
Proof.
  apply obj_data_alloc_with_data_split_exact; [|apply demo_from_ok|reflexivity..].
  apply (buf_ok_same _ (data demo_to)); [reflexivity|apply demo_to_ok].
Defined.

(** in ten dimensions [matrix_copy] reads the wrong cells: the loop of
    the last dimension computes the source offset from the destination
    index, so a source box that starts elsewhere in that dimension delivers
    another cell's byte. *)
Theorem matrix_copy_ten_dims_wrong : exists to from d p,
  ssd_copy to from = Some (set_data to d) /\
  in_box (bb (obj_desc to)) p /\ in_box (bb (obj_desc from)) p /\
  cell_at (bb (obj_desc to)) (size (obj_desc to)) d p 0 <>
  cell_at (bb (obj_desc from)) (size (obj_desc from)) (data from) p 0.
Proof.
  set (hi := [0; 0; 0; 0; 0; 0; 0; 0; 0; 1]).
  exists (mk_od 1 (demo_desc (mk_bbox 10 hi hi)) (mk_gdim 0 []) [Byte.x0a] 0 false),
    (mk_od 2 (demo_desc (mk_bbox 10 (replicate 10 0) hi)) (mk_gdim 0 []) [Byte.x00; Byte.x01] 0 false),
    [Byte.x00], hi.
  split; [vm_compute; reflexivity|].
  split; [|split; [|vm_compute; congruence]]; apply in_boxb_spec; vm_compute; reflexivity.
Qed.

(** After [update_gdim_list] for a variable, [set_global_dimension]
    yields the new dimension for that variable and is unchanged for every
    other one. *)
Lemma update_gdim_list_correct l v n gd w dflt :
  set_global_dimension (update_gdim_list l v n gd) w dflt =
  if streq v w then copy_global_dimension n gd else set_global_dimension l w dflt.
Proof.
  unfold set_global_dimension, update_gdim_list. destruct (lookup_gdim_list l v) eqn:E.
  - rewrite lookup_gdim_replace by congruence. by destruct (streq v w).
  - rewrite lookup_gdim_cons. by destruct (streq v w).
Qed.
