(* ===== verification/Storage.v ===== *)
(** * Local object storage and DHT entries (src/ss_data.c)

    [ss_storage] keeps the data objects of a server in [size_hash] bins by
    version modulo [size_hash]; a [dht_entry] keeps the descriptors of the
    objects of its part of the index space in the same way. *)

From S2P Require Import Prelude Bbox Matrix ObjDesc.

(** ** The storage *)

Record ss_storage := mk_ls {
  num_obj : Z;
  size_hash : Z;
  obj_hash : list (list obj_data)
}.

Definition ls_alloc (max_versions : Z) : ss_storage :=
  mk_ls 0 max_versions (replicate (Z.to_nat max_versions) []).

(** [&ls->obj_hash[version % ls->size_hash]] *)
Definition bin_of (version size : Z) : nat := Z.to_nat (version mod size).
Definition get_bin {A} (h : list (list A)) (i : nat) : list A := nth i h [].

Definition on_bin {A} (i : nat) (f : list A -> list A) (h : list (list A)) : list (list A) :=
  <[i := f (get_bin h i)]> h.

Definition ls_find (ls : ss_storage) (odsc : obj_descriptor) : option obj_data :=
  List.find (fun od => obj_desc_equals_intersect odsc (obj_desc od))
            (get_bin (obj_hash ls) (bin_of (version odsc) (size_hash ls))).

Definition ls_find_no_version (ls : ss_storage) (odsc : obj_descriptor) : option obj_data :=
  List.find (fun od => obj_desc_by_name_intersect odsc (obj_desc od))
            (get_bin (obj_hash ls) (bin_of (version odsc) (size_hash ls))).

Definition ls_lookup (ls : ss_storage) (nm : string) : option obj_data :=
  List.find (fun od => streq (name (obj_desc od)) nm) (mjoin (obj_hash ls)).

(** [list_del(&od->obj_entry); ls->num_obj--]: the entry is unlinked from
    the bin it is in. *)
Definition unlink (ptr : nat) (l : list obj_data) : list obj_data :=
  filter (fun o => od_ptr o <> ptr) l.

Definition ls_remove (ls : ss_storage) (od : obj_data) : ss_storage :=
  mk_ls (num_obj ls - 1) (size_hash ls) (map (unlink (od_ptr od)) (obj_hash ls)).

(** The object is freed when it is not referenced. *)
Definition ls_try_remove_free (ls : ss_storage) (od : obj_data) : ss_storage :=
  if refcnt od =? 0 then ls_remove ls od else ls.

(** [od->f_free = 1] for the object at [ptr]. *)
Definition mark_free (ptr : nat) (o : obj_data) : obj_data :=
  if (od_ptr o =? ptr)%nat
  then mk_od (od_ptr o) (obj_desc o) (od_gdim o) (data o) (refcnt o) true else o.

Definition ls_add_obj (ls : ss_storage) (od : obj_data) : ss_storage :=
  let ls :=
    match ls_find_no_version ls (obj_desc od) with
    | Some od_existing =>
        let ls := mk_ls (num_obj ls) (size_hash ls) (map (map (mark_free (od_ptr od_existing))) (obj_hash ls)) in
        if refcnt od_existing =? 0 then ls_remove ls od_existing else ls
    | None => ls
    end in
  mk_ls (num_obj ls + 1) (size_hash ls)
        (on_bin (bin_of (version (obj_desc od)) (size_hash ls)) (cons od) (obj_hash ls)).

(** Every object is unlinked and freed; the number of objects left is what
    the check at the end of the C function looks at. *)
Definition ls_free (ls : ss_storage) : ss_storage :=
  fold_left ls_remove (mjoin (obj_hash ls)) ls.

(** *** ls_find_next

    The scan of one bin: [inl] is the [return] inside the loop. *)
Fixpoint next_scan (size : Z) (odsc : obj_descriptor) (l : list obj_data) (od_next : option obj_data) (next_ver : Z)
    : obj_data + (option obj_data * Z) :=
  match l with
  | [] => inr (od_next, next_ver)
  | od :: l =>
      if obj_desc_by_name_only_intersect odsc (obj_desc od) &&
         (u32 (version odsc + 1) <=? version (obj_desc od)) && (version (obj_desc od) <? next_ver)
      then let next_ver := version (obj_desc od) in
           if next_ver <=? u32 (version odsc + size) then inl od
           else next_scan size odsc l (Some od) next_ver
      else next_scan size odsc l od_next next_ver
  end.

Fixpoint next_bins (ls : ss_storage) (odsc : obj_descriptor) (offsets : list nat)
    (od_next : option obj_data) (next_ver : Z) : option obj_data :=
  match offsets with
  | [] => od_next
  | offset :: offsets =>
      let index := bin_of (u32 (version odsc + Z.of_nat offset)) (size_hash ls) in
      match next_scan (size_hash ls) odsc (get_bin (obj_hash ls) index) od_next next_ver with
      | inl od => Some od
      | inr (od_next, next_ver) => next_bins ls odsc offsets od_next next_ver
      end
  end.

Definition ls_find_next (ls : ss_storage) (odsc : obj_descriptor) : option obj_data :=
  next_bins ls odsc (seq 1 (Z.to_nat (size_hash ls))) None INT_MAX.

(** *** ls_find_latest

    [None]: the function dereferences a null pointer ([od_next] is read
    before it is tested) or reads the bin after the last. *)
Fixpoint latest_scan (odsc : obj_descriptor) (l : list obj_data) (od_next : option obj_data)
    : option (option obj_data) :=
  match l with
  | [] => Some od_next
  | od :: l =>
      if obj_desc_by_name_only_intersect odsc (obj_desc od) &&
         (u32 (version odsc + 1) <=? version (obj_desc od))
      then nx ← od_next;
           latest_scan odsc l (if version (obj_desc nx) <? version (obj_desc od) then Some od else Some nx)
      else latest_scan odsc l od_next
  end.

Fixpoint latest_bins (ls : ss_storage) (odsc : obj_descriptor) (indices : list nat) (od_next : option obj_data)
    : option (option obj_data) :=
  match indices with
  | [] => Some od_next
  | index :: indices =>
      bin ← obj_hash ls !! index;
      od_next ← latest_scan odsc bin od_next;
      latest_bins ls odsc indices od_next
  end.

Definition ls_find_latest (ls : ss_storage) (odsc : obj_descriptor) : option (option obj_data) :=
  latest_bins ls odsc (seq 0 (S (Z.to_nat (size_hash ls)))) None.

(** ** DHT entries *)

Record dht_entry := mk_de {
  de_rank : Z;
  i_virt : intv;
  de_i_tab : list intv;
  bb_tab : list bbox;
  size_bb_tab : nat;
  odsc_size : Z;
  odsc_num : Z;
  odsc_hash : list (list obj_descriptor)
}.

Definition dht_entry_alloc (size_hash : Z) : dht_entry :=
  mk_de 0 (mk_intv 0 0) [] [] 0 size_hash 0 (replicate (Z.to_nat size_hash) []).

Definition set_odsc (de : dht_entry) (num : Z) (h : list (list obj_descriptor)) : dht_entry :=
  mk_de (de_rank de) (i_virt de) (de_i_tab de) (bb_tab de) (size_bb_tab de) (odsc_size de) num h.

(** The bin and the position of the first match. *)
Definition dht_find_match (de : dht_entry) (odsc : obj_descriptor) : option (nat * nat) :=
  if version odsc =? 2 ^ 32 - 1 then None else
  let n := bin_of (version odsc) (odsc_size de) in
  (fun r => (n, fst r)) <$>
    list_find (fun o => obj_desc_by_name_intersect odsc o = true) (get_bin (odsc_hash de) n).

(** [alloc_ok]: whether [malloc] succeeds. *)
Definition dht_add_entry (alloc_ok : bool) (de : dht_entry) (odsc : obj_descriptor) : dht_entry * Z :=
  match dht_find_match de odsc with
  | Some (n, j) => (set_odsc de (odsc_num de) (on_bin n (fun l => <[j := odsc]> l) (odsc_hash de)), 0)
  | None =>
      let n := bin_of (version odsc) (odsc_size de) in
      if alloc_ok
      then (set_odsc de (odsc_num de + 1) (on_bin n (cons odsc) (odsc_hash de)), 0)
      else (de, - ENOMEM)
  end.

Definition dht_find_entry_all (de : dht_entry) (q_odsc : obj_descriptor) : list obj_descriptor :=
  List.filter (fun o => obj_desc_equals_intersect o q_odsc)
         (get_bin (odsc_hash de) (bin_of (version q_odsc) (odsc_size de))).

Definition dht_find_versions (de : dht_entry) (q_odsc : obj_descriptor) : list Z :=
  omap (fun bin => version <$> List.find (fun o => obj_desc_by_name_intersect o q_odsc) bin)
       (odsc_hash de).

(** ** Invariant of the storage *)

Record ls_inv (ls : ss_storage) : Prop := {
  li_size : 0 < size_hash ls < 2 ^ 31;
  li_len : length (obj_hash ls) = Z.to_nat (size_hash ls);
  li_bin : forall i l od, obj_hash ls !! i = Some l -> od ∈ l ->
    0 <= version (obj_desc od) < 2 ^ 32 /\ i = bin_of (version (obj_desc od)) (size_hash ls);
  li_num : num_obj ls = Z.of_nat (length (mjoin (obj_hash ls)));
  li_ptr : NoDup (od_ptr <$> mjoin (obj_hash ls))
}.

(** The objects of the storage. *)
Definition stored (ls : ss_storage) (od : obj_data) : Prop := od ∈ mjoin (obj_hash ls).

Lemma bin_lt v s : 0 < s -> (bin_of v s < Z.to_nat s)%nat.
Proof. intros Hs. unfold bin_of. pose proof (Z.mod_pos_bound v s Hs). lia. Qed.

Lemma get_bin_lookup {A} (h : list (list A)) i : (i < length h)%nat -> h !! i = Some (get_bin h i).
Proof.
  intros Hi. destruct (lookup_lt_is_Some_2 h i Hi) as [l Hl]. unfold get_bin. by rewrite nth_lookup, Hl.
Qed.

Lemma elem_of_get_bin {A} (h : list (list A)) i x : x ∈ get_bin h i -> exists l, h !! i = Some l /\ x ∈ l.
Proof.
  unfold get_bin. rewrite nth_lookup. destruct (h !! i) as [l|]; intros H; [by exists l|].
  by apply not_elem_of_nil in H.
Qed.

Lemma elem_of_mjoin_lookup {A} (h : list (list A)) x : x ∈ mjoin h <-> exists i l, h !! i = Some l /\ x ∈ l.
Proof.
  rewrite list_elem_of_join. split.
  - intros (l & Hx & Hl). apply list_elem_of_lookup in Hl as [i Hi]. eauto.
  - intros (i & l & Hl & Hx). exists l. split; [done|]. by eapply list_elem_of_lookup_2.
Qed.

(** The objects of a version are in its bin. *)
Lemma stored_bin ls od : ls_inv ls ->
  stored ls od <-> od ∈ get_bin (obj_hash ls) (bin_of (version (obj_desc od)) (size_hash ls)).
Proof.
  intros I. unfold stored. rewrite elem_of_mjoin_lookup. split.
  - intros (i & l & Hl & Hx). destruct (li_bin _ I i l od Hl Hx) as [_ <-].
    unfold get_bin. by rewrite nth_lookup, Hl.
  - intros (l & Hl & Hx)%elem_of_get_bin. eauto.
Qed.

Lemma find_spec {A} (f : A -> bool) l :
  match List.find f l with
  | Some x => x ∈ l /\ f x = true
  | None => forall x, x ∈ l -> f x = false
  end.
Proof.
  destruct (List.find f l) eqn:E.
  - apply List.find_some in E as [H1 H2]. split; [by apply list_elem_of_In|done].
  - intros x Hx%list_elem_of_In. by apply (List.find_none f l).
Qed.

Lemma mjoin_insert_perm {A} (h : list (list A)) i l x : h !! i = Some l ->
  mjoin (<[i := x :: l]> h) ≡ₚ x :: mjoin h.
Proof.
  revert i. induction h as [|l0 h IH]; intros i Hi; [done|]. destruct i as [|i]; cbn in Hi |- *.
  - by injection Hi as ->.
  - rewrite (IH i Hi). symmetry. apply Permutation_middle.
Qed.

Lemma unlink_mjoin ptr (h : list (list obj_data)) : mjoin (map (unlink ptr) h) = unlink ptr (mjoin h).
Proof.
  induction h as [|l h IH]; [done|].
  change (unlink ptr l ++ mjoin (map (unlink ptr) h) = unlink ptr (l ++ mjoin h)). rewrite IH.
  unfold unlink. by rewrite list.filter_app.
Qed.

Lemma ls_remove_inv ls od : ls_inv ls -> stored ls od -> ls_inv (ls_remove ls od).
Proof.
  intros I Hs. destruct I as [Hsz Hlen Hbin Hnum Hptr]. unfold stored in Hs.
  constructor; cbn [ls_remove num_obj size_hash obj_hash]; try done.
  - by rewrite length_map.
  - intros i l x Hl Hx. apply list_lookup_fmap_Some in Hl as (l0 & -> & Hl0).
    apply list_elem_of_filter in Hx as [_ Hx]. eauto.
  - rewrite unlink_mjoin, Hnum. apply list_elem_of_split in Hs as (l1 & l2 & E). rewrite E in *.
    rewrite fmap_app, fmap_cons in Hptr. apply list.NoDup_app in Hptr as (H1 & H2 & H3).
    apply list.NoDup_cons in H3 as [H3 H4]. unfold unlink.
    rewrite list.filter_app, filter_cons_False by tauto.
    rewrite !filter_keep_all; [rewrite !length_app; cbn; lia| |];
      apply list.Forall_forall; intros y Hy Hyp.
    + apply H3. rewrite <- Hyp. by apply list_elem_of_fmap_2.
    + apply (H2 (od_ptr y)); [by apply list_elem_of_fmap_2|]. rewrite Hyp. apply list_elem_of_here.
  - rewrite unlink_mjoin. eapply sublist_NoDup; [done|]. apply fmap_sublist, sublist_filter.
Qed.

Lemma stored_remove ls od x : stored (ls_remove ls od) x <-> stored ls x /\ od_ptr x <> od_ptr od.
Proof.
  unfold stored. cbn [ls_remove obj_hash]. rewrite unlink_mjoin. unfold unlink.
  rewrite list_elem_of_filter. tauto.
Qed.

Lemma mark_free_fields ptr o :
  od_ptr (mark_free ptr o) = od_ptr o /\ obj_desc (mark_free ptr o) = obj_desc o /\
  data (mark_free ptr o) = data o /\ refcnt (mark_free ptr o) = refcnt o.
Proof. unfold mark_free. by destruct (od_ptr o =? ptr)%nat. Qed.

Definition ls_mark (ls : ss_storage) (ptr : nat) : ss_storage :=
  mk_ls (num_obj ls) (size_hash ls) (map (map (mark_free ptr)) (obj_hash ls)).

Lemma mjoin_map_map {A B} (f : A -> B) (h : list (list A)) : mjoin (map (map f) h) = f <$> mjoin h.
Proof.
  induction h as [|l h IH]; [done|]. change (map f l ++ mjoin (map (map f) h) = f <$> (l ++ mjoin h)).
  by rewrite IH, fmap_app.
Qed.

Lemma ls_mark_inv ls ptr : ls_inv ls -> ls_inv (ls_mark ls ptr).
Proof.
  intros [Hsz Hlen Hbin Hnum Hptr]. constructor; cbn [ls_mark num_obj size_hash obj_hash]; try done.
  - by rewrite length_map.
  - intros i l x Hl Hx. apply list_lookup_fmap_Some in Hl as (l0 & -> & Hl0).
    apply list_elem_of_fmap in Hx as (y & -> & Hy). rewrite (proj1 (proj2 (mark_free_fields ptr y))). eauto.
  - by rewrite mjoin_map_map, length_fmap.
  - rewrite mjoin_map_map, <- list_fmap_compose. erewrite list_fmap_ext; [done|].
    intros i x _. apply mark_free_fields.
Qed.

Lemma stored_mark ls ptr x : stored (ls_mark ls ptr) x <-> exists y, stored ls y /\ x = mark_free ptr y.
Proof.
  unfold stored. cbn [ls_mark obj_hash]. rewrite mjoin_map_map, list_elem_of_fmap.
  split; intros (y & H1 & H2); by exists y.
Qed.

(** The storage after the eviction step of [ls_add_obj]. *)
Definition ls_evict (ls : ss_storage) (odsc : obj_descriptor) : ss_storage :=
  match ls_find_no_version ls odsc with
  | Some ex => if refcnt ex =? 0 then ls_remove (ls_mark ls (od_ptr ex)) ex else ls_mark ls (od_ptr ex)
  | None => ls
  end.

Definition ls_push (ls : ss_storage) (od : obj_data) : ss_storage :=
  mk_ls (num_obj ls + 1) (size_hash ls)
    (on_bin (bin_of (version (obj_desc od)) (size_hash ls)) (cons od) (obj_hash ls)).

Lemma ls_add_obj_eq ls od : ls_add_obj ls od = ls_push (ls_evict ls (obj_desc od)) od.
Proof.
  unfold ls_add_obj, ls_push, ls_evict. destruct (ls_find_no_version ls (obj_desc od)) as [ex|]; [|done].
  by destruct (refcnt ex =? 0).
Qed.

Lemma ls_find_no_version_stored ls odsc od : ls_inv ls -> ls_find_no_version ls odsc = Some od ->
  stored ls od /\ obj_desc_by_name_intersect odsc (obj_desc od) = true /\
  bin_of (version (obj_desc od)) (size_hash ls) = bin_of (version odsc) (size_hash ls).
Proof.
  intros I E. pose proof (find_spec (fun od => obj_desc_by_name_intersect odsc (obj_desc od))
    (get_bin (obj_hash ls) (bin_of (version odsc) (size_hash ls)))) as H.
  unfold ls_find_no_version in E. rewrite E in H. destruct H as [H1 H2].
  apply elem_of_get_bin in H1 as (l & Hl & Hx). split; [|split; [done|]].
  - unfold stored. apply elem_of_mjoin_lookup. eauto.
  - symmetry. by eapply li_bin.
Qed.

Lemma ls_evict_inv ls odsc : ls_inv ls -> ls_inv (ls_evict ls odsc) /\ size_hash (ls_evict ls odsc) = size_hash ls.
Proof.
  intros I. unfold ls_evict. destruct (ls_find_no_version ls odsc) as [ex|] eqn:E; [|done].
  pose proof (ls_find_no_version_stored _ _ _ I E) as [Hs _].
  destruct (refcnt ex =? 0); (split; [|done]); [|by apply ls_mark_inv].
  pose proof (proj2 (stored_mark ls (od_ptr ex) (mark_free (od_ptr ex) ex)) (ex_intro _ ex (conj Hs eq_refl))) as Hm.
  pose proof (ls_remove_inv _ _ (ls_mark_inv _ (od_ptr ex) I) Hm) as R.
  unfold ls_remove in *. by rewrite (proj1 (mark_free_fields (od_ptr ex) ex)) in R.
Qed.

Lemma stored_push ls od x : ls_inv ls -> stored (ls_push ls od) x <-> x = od \/ stored ls x.
Proof.
  intros I. unfold stored. cbn [ls_push obj_hash]. unfold on_bin.
  rewrite (mjoin_insert_perm _ _ (get_bin (obj_hash ls) (bin_of (version (obj_desc od)) (size_hash ls)))).
  - by rewrite elem_of_cons.
  - apply get_bin_lookup. rewrite (li_len _ I). apply bin_lt, I.
Qed.

Lemma ls_push_inv ls od : ls_inv ls -> 0 <= version (obj_desc od) < 2 ^ 32 ->
  (forall x, stored ls x -> od_ptr x <> od_ptr od) -> ls_inv (ls_push ls od).
Proof.
  intros I Hv Hf. pose proof I as [Hsz Hlen Hbin Hnum Hptr].
  pose proof (bin_lt (version (obj_desc od)) (size_hash ls) (proj1 Hsz)) as Hb.
  assert (mjoin (obj_hash (ls_push ls od)) ≡ₚ od :: mjoin (obj_hash ls)) as P.
  { cbn [ls_push obj_hash]. apply mjoin_insert_perm. apply get_bin_lookup. lia. }
  constructor; cbn [ls_push num_obj size_hash]; try done.
  - unfold ls_push; cbn [obj_hash]. unfold on_bin. by rewrite length_insert.
  - unfold ls_push; cbn [obj_hash]. intros i l x Hl Hx. unfold on_bin in Hl.
    apply list_lookup_insert_Some in Hl as [(<- & <- & _)|[_ Hl]]; [|eauto].
    apply elem_of_cons in Hx as [->|Hx]; [by split|].
    apply elem_of_get_bin in Hx as (l & Hl & Hx). destruct (Hbin _ _ _ Hl Hx). done.
  - rewrite P. cbn [length]. lia.
  - rewrite P. cbn [fmap list_fmap]. apply list.NoDup_cons. split; [|done].
    intros (y & E & Hy)%list_elem_of_fmap. by apply (Hf y).
Qed.

(** What the eviction keeps: every object but the one it removes, up to the
    [f_free] mark. *)
Lemma stored_evict ls odsc x : ls_inv ls -> stored (ls_evict ls odsc) x ->
  exists y, stored ls y /\ od_ptr x = od_ptr y /\ obj_desc x = obj_desc y /\ data x = data y /\ refcnt x = refcnt y.
Proof.
  intros I H. unfold ls_evict in H. destruct (ls_find_no_version ls odsc) as [ex|]; [|by exists x].
  assert (stored (ls_mark ls (od_ptr ex)) x) as Hm
    by (destruct (refcnt ex =? 0); [by apply stored_remove in H as [? _]|done]).
  apply stored_mark in Hm as (y & Hy & ->). exists y. split; [done|]. apply mark_free_fields.
Qed.

(** Two objects that replace each other: the same bin, the same name, and
    boxes that intersect. *)
Definition conflicts (size : Z) (o1 o2 : obj_descriptor) : Prop :=
  obj_desc_by_name_intersect o1 o2 = true /\ bin_of (version o1) size = bin_of (version o2) size.

Lemma stored_ptr_inj ls x y : ls_inv ls -> stored ls x -> stored ls y -> od_ptr x = od_ptr y -> x = y.
Proof.
  intros I Hx Hy Hp. pose proof (li_ptr _ I) as Hnd. unfold stored in *. apply list_elem_of_lookup in Hx as [i Hi], Hy as [j Hj].
  assert (i = j) as -> by (eapply NoDup_lookup; [exact Hnd| |]; rewrite list_lookup_fmap, ?Hi, ?Hj; cbn; by rewrite ?Hp). congruence.
Qed.

Lemma evict_keeps_bin ls odsc y : ls_inv ls -> stored ls y -> ~ conflicts (size_hash ls) odsc (obj_desc y) ->
  stored (ls_evict ls odsc) y.
Proof.
  intros I Hy Hn. unfold ls_evict. destruct (ls_find_no_version ls odsc) as [ex|] eqn:E; [|done].
  pose proof (ls_find_no_version_stored _ _ _ I E) as (Hs & Hex & Hbin).
  assert (od_ptr y <> od_ptr ex) as Hne.
  { intros Hp. rewrite (stored_ptr_inj ls y ex) in Hn by done. by apply Hn. }
  assert (stored (ls_mark ls (od_ptr ex)) y) as Hm.
  { apply stored_mark. exists y. split; [done|]. unfold mark_free.
    by destruct (Nat.eqb_spec (od_ptr y) (od_ptr ex)). }
  destruct (refcnt ex =? 0); [|done]. by apply stored_remove.
Qed.

Lemma ls_find_no_version_none ls odsc y : ls_inv ls -> ls_find_no_version ls odsc = None -> stored ls y -> ~ conflicts (size_hash ls) odsc (obj_desc y).
Proof.
  intros I E Hy [Hm Hb]. unfold ls_find_no_version in E. apply elem_of_mjoin_lookup in Hy as (i & l & Hl & Ho).
  destruct (li_bin _ I _ _ _ Hl Ho) as [_ Ei]. pose proof (List.find_none _ _ E y) as Hn. cbn in Hn. rewrite Hm in Hn. discriminate Hn.
  apply list_elem_of_In. unfold get_bin. by rewrite nth_lookup, Hb, <- Ei, Hl.
Qed.

(** Exactly what the eviction leaves. *)
Lemma stored_evict_iff ls odsc y : ls_inv ls -> stored (ls_evict ls odsc) y <->
  match ls_find_no_version ls odsc with
  | Some ex => stored ls y /\ y <> ex \/ refcnt ex <> 0 /\ y = mark_free (od_ptr ex) ex
  | None => stored ls y
  end.
Proof.
  intros I. unfold ls_evict. destruct (ls_find_no_version ls odsc) as [ex|] eqn:E; [|done].
  destruct (ls_find_no_version_stored _ _ _ I E) as (Hex & _ & _).
  assert (Hm : stored (ls_mark ls (od_ptr ex)) y <-> stored ls y /\ y <> ex \/ y = mark_free (od_ptr ex) ex).
  { rewrite stored_mark. split.
    - intros (x & Hx & ->). destruct (decide (od_ptr x = od_ptr ex)) as [Hp|Hp]; [right; by rewrite (stored_ptr_inj ls x ex)|left].
      unfold mark_free. rewrite (proj2 (Nat.eqb_neq _ _) Hp). split; [done|]. by intros ->.
    - intros [[Hy Hne]| ->]; [|by exists ex]. exists y. split; [done|]. unfold mark_free. rewrite (proj2 (Nat.eqb_neq _ _)); [done|].
      intros Hp. by apply Hne, (stored_ptr_inj ls). }
  destruct (Z.eqb_spec (refcnt ex) 0) as [Hr|Hr]; [|rewrite Hm; tauto]. rewrite stored_remove, Hm. split.
  - intros [[?| ->] Hn]; [by left|]. destruct Hn. by apply mark_free_fields.
  - intros [[Hy Hne]|[? _]]; [|done]. split; [by left|]. intros Hp. by apply Hne, (stored_ptr_inj ls).
Qed.

(** Objects nobody references are removed, not only marked. *)
Lemma stored_evict_sub ls odsc x : ls_inv ls -> (forall y, stored ls y -> refcnt y = 0) ->
  stored (ls_evict ls odsc) x -> stored ls x.
Proof.
  intros I Hr. unfold ls_evict. destruct (ls_find_no_version ls odsc) as [ex|] eqn:E; [|done].
  pose proof (ls_find_no_version_stored _ _ _ I E) as (Hs & _). rewrite (Hr ex Hs). cbn [Z.eqb].
  intros [(y & Hy & ->)%stored_mark Hn]%stored_remove. unfold mark_free in *.
  destruct (Nat.eqb_spec (od_ptr y) (od_ptr ex)); [by cbn in Hn|done].
Qed.

Lemma ls_add_obj_inv ls od : ls_inv ls -> 0 <= version (obj_desc od) < 2 ^ 32 ->
  (forall x, stored ls x -> od_ptr x <> od_ptr od) -> ls_inv (ls_add_obj ls od).
Proof.
  intros I Hv Hf. rewrite ls_add_obj_eq. destruct (ls_evict_inv ls (obj_desc od) I) as [I' _].
  apply ls_push_inv; [done..|]. intros x Hx.
  destruct (stored_evict _ _ _ I Hx) as (y & Hy & -> & _). by apply Hf.
Qed.

Lemma ls_find_spec ls q : ls_inv ls ->
  match ls_find ls q with
  | Some od => stored ls od /\ obj_desc_equals_intersect q (obj_desc od) = true
  | None => forall od, stored ls od -> obj_desc_equals_intersect q (obj_desc od) = false
  end.
Proof.
  intros I. unfold ls_find.
  pose proof (find_spec (fun od => obj_desc_equals_intersect q (obj_desc od))
    (get_bin (obj_hash ls) (bin_of (version q) (size_hash ls)))) as H.
  destruct (List.find _ _) as [od|].
  - destruct H as [H1 H2]. split; [|done]. apply elem_of_get_bin in H1 as (l & Hl & Hx).
    unfold stored. apply elem_of_mjoin_lookup. eauto.
  - intros od Hs. destruct (obj_desc_equals_intersect q (obj_desc od)) eqn:E; [|done].
    rewrite <- E. apply H. apply stored_bin in Hs; [|done].
    unfold obj_desc_equals_intersect in E. zbool. by replace (version q) with (version (obj_desc od)).
Qed.

Lemma ls_find_added ls od q : ls_inv ls -> obj_desc_equals_intersect q (obj_desc od) = true ->
  ls_find (ls_add_obj ls od) q = Some od.
Proof.
  intros I E. rewrite ls_add_obj_eq. destruct (ls_evict_inv ls (obj_desc od) I) as [I' Hsz].
  assert (version q = version (obj_desc od)) as Hv by (unfold obj_desc_equals_intersect in E; zbool; done).
  unfold ls_find. cbn [ls_push obj_hash size_hash]. rewrite Hv. unfold get_bin at 1, on_bin.
  rewrite nth_lookup, list_lookup_insert_eq; [|rewrite (li_len _ I'); apply bin_lt, I'].
  cbn [from_option id default List.find]. by rewrite E.
Qed.

(** ** At most one object per bin, name and cell *)

Definition bin_unique (ls : ss_storage) : Prop := forall x y, stored ls x -> stored ls y ->
  bin_of (version (obj_desc x)) (size_hash ls) = bin_of (version (obj_desc y)) (size_hash ls) ->
  obj_desc_by_name_intersect (obj_desc x) (obj_desc y) = true -> od_ptr x = od_ptr y.

(** The clients cut the variable in the same way in every version. *)
Definition tiled (ls : ss_storage) (od : obj_data) : Prop := forall y, stored ls y ->
  name (obj_desc y) = name (obj_desc od) ->
  bb (obj_desc y) = bb (obj_desc od) \/ bbox_does_intersect (bb (obj_desc od)) (bb (obj_desc y)) = false.

Lemma by_name_intersect_sym o1 o2 : num_dims (bb o1) = num_dims (bb o2) ->
  obj_desc_by_name_intersect o1 o2 = obj_desc_by_name_intersect o2 o1.
Proof.
  intros Hd. unfold obj_desc_by_name_intersect. rewrite bbox_does_intersect_sym by done.
  f_equal. unfold streq. apply String.eqb_sym.
Qed.

Lemma self_intersect b : wf_bbox b -> bbox_does_intersect b b = true.
Proof. intros Hw. apply bbox_does_intersect_points; [done..|]. exists (lb b). auto with ds. Qed.

Lemma bin_unique_add ls od : ls_inv ls -> bin_unique ls -> tiled ls od ->
  wf_bbox (bb (obj_desc od)) -> 0 <= version (obj_desc od) < 2 ^ 32 ->
  (forall x, stored ls x -> od_ptr x <> od_ptr od /\ refcnt x = 0 /\
     num_dims (bb (obj_desc x)) = num_dims (bb (obj_desc od))) ->
  bin_unique (ls_add_obj ls od).
Proof.
  intros I Hu Ht Hw Hv Hf. rewrite ls_add_obj_eq. destruct (ls_evict_inv ls (obj_desc od) I) as [I' Hsz].
  (* no object of the same bin matches the new one after the eviction *)
  assert (forall x, stored (ls_evict ls (obj_desc od)) x ->
    bin_of (version (obj_desc x)) (size_hash ls) = bin_of (version (obj_desc od)) (size_hash ls) ->
    obj_desc_by_name_intersect (obj_desc od) (obj_desc x) = true -> False) as Hno.
  { intros x Hx Hb Hm. unfold ls_evict in Hx. destruct (ls_find_no_version ls (obj_desc od)) as [ex|] eqn:E.
    - destruct (ls_find_no_version_stored _ _ _ I E) as (Hes & Hem & Heb).
      assert ((refcnt ex =? 0) = true) as Hr by (apply Z.eqb_eq, Hf, Hes). rewrite Hr in Hx.
      apply stored_remove in Hx as [Hx Hne]. apply stored_mark in Hx as (y & Hy & ->).
      destruct (mark_free_fields (od_ptr ex) y) as (Hp & Hd & _). rewrite Hp, Hd in *. apply Hne.
      apply (Hu y ex Hy Hes); [congruence|]. unfold obj_desc_by_name_intersect in *. zbool.
      apply streq_spec in H, H1.
      destruct (Ht y Hy ltac:(congruence)) as [Ey|]; [|congruence].
      destruct (Ht ex Hes ltac:(congruence)) as [Ee|]; [|congruence].
      rewrite Ey, Ee. rewrite self_intersect by done. apply andb_true_iff. split; [|done].
      apply streq_spec. congruence.
    - unfold ls_find_no_version in E. pose proof (List.find_none _ _ E x) as Hn. cbn in Hn.
      rewrite Hn in Hm; [done|]. apply list_elem_of_In. rewrite <- Hb. by apply stored_bin. }
  intros x y Hx Hy. apply stored_push in Hx, Hy; [|done..]. cbn [ls_push size_hash]. rewrite Hsz.
  destruct Hx as [->|Hx], Hy as [->|Hy]; intros Hb Hm; [done|exfalso|exfalso|].
  - by apply (Hno y).
  - apply (Hno x); [done..|]. rewrite by_name_intersect_sym; [done|].
    destruct (stored_evict _ _ _ I Hx) as (z & Hz & _ & -> & _). symmetry. by apply Hf.
  - destruct (stored_evict _ _ _ I Hx) as (x' & Hx' & -> & Ex & _).
    destruct (stored_evict _ _ _ I Hy) as (y' & Hy' & -> & Ey & _). rewrite Ex, Ey in *. by apply Hu.
Qed.

(** At most [size_hash] versions of a piece are kept. *)
Lemma bin_unique_bound ls nm b : ls_inv ls -> bin_unique ls -> wf_bbox b ->
  (length (filter (fun od => name (obj_desc od) = nm /\ bb (obj_desc od) = b) (mjoin (obj_hash ls)))
   <= Z.to_nat (size_hash ls))%nat.
Proof.
  intros I Hu Hw. set (l := filter _ _).
  rewrite <- (length_fmap (fun od => bin_of (version (obj_desc od)) (size_hash ls)) l).
  rewrite <- (length_seq (Z.to_nat (size_hash ls)) 0).
  apply submseteq_length, NoDup_submseteq.
  - apply NoDup_fmap_2_strong.
    + intros x y Hx Hy E. subst l. apply list_elem_of_filter in Hx as [[Nx Bx] Hx], Hy as [[Ny By] Hy].
      assert (od_ptr x = od_ptr y) as Hp.
      { apply Hu; [done..|]. unfold obj_desc_by_name_intersect. rewrite Bx, By, self_intersect by done.
        rewrite Nx, Ny. by rewrite (proj2 (streq_spec nm nm) eq_refl). }
      pose proof (li_ptr _ I) as Hnd.
      apply list_elem_of_lookup in Hx as [i Hi], Hy as [j Hj].
      assert (i = j) as ->.
      { eapply NoDup_lookup; [exact Hnd| |]; rewrite list_lookup_fmap, ?Hi, ?Hj; cbn; by rewrite ?Hp. }
      congruence.
    + apply list.NoDup_filter. by eapply NoDup_fmap_1, I.
  - intros i (od & -> & _)%list_elem_of_fmap. apply elem_of_seq.
    pose proof (bin_lt (version (obj_desc od)) (size_hash ls) (proj1 (li_size _ I))). lia.
Qed.

(** ** The next version *)

Lemma seq_prefix_before (l : list nat) o r a n : l ++ o :: r = seq a n -> l = seq a (o - a).
Proof.
  revert a n. induction l as [|x l IH]; intros a n E; destruct n as [|n]; try done; cbn in E.
  - injection E as -> _. by rewrite Nat.sub_diag.
  - injection E as -> E.
    assert (o ∈ seq (S a) n) as Ho by (rewrite <- E; apply elem_of_app; right; apply list_elem_of_here).
    apply elem_of_seq in Ho. rewrite (IH _ _ E) at 1.
    replace (o - a)%nat with (S (o - S a)) by lia. done.
Qed.

Section find_next.
Context (ls : ss_storage) (odsc : obj_descriptor) (I : ls_inv ls).
Abbreviation v := (version odsc).
Abbreviation ver x := (version (obj_desc x)).
Context (Hv : 0 <= v) (Hw : v + size_hash ls < 2 ^ 32) (Hmax : forall x, stored ls x -> ver x < INT_MAX).

(** A later version of the object. *)
Definition later (x : obj_data) : Prop := name (obj_desc x) = name odsc /\ v < ver x.

Record next_inv (seen : list obj_data) (best : option obj_data) (nv : Z) : Prop := {
  ni_far : forall x, x ∈ seen -> later x -> v + size_hash ls < ver x /\ nv <= ver x;
  ni_best : match best with
            | None => nv = INT_MAX
            | Some o => o ∈ seen /\ later o /\ ver o = nv
            end
}.

Lemma scan_cond x nv :
  obj_desc_by_name_only_intersect odsc (obj_desc x) && (u32 (v + 1) <=? ver x) && (ver x <? nv) = true
  <-> later x /\ ver x < nv.
Proof.
  rewrite !andb_true_iff. unfold obj_desc_by_name_only_intersect. rewrite streq_spec, Z.leb_le, Z.ltb_lt.
  pose proof (li_size _ I). rewrite u32_small by lia. unfold later. intuition (congruence || lia).
Qed.

Lemma next_inv_skip seen best nv x : next_inv seen best nv ->
  (later x -> v + size_hash ls < ver x /\ nv <= ver x) -> next_inv (seen ++ [x]) best nv.
Proof.
  intros [H1 H2] Hx. constructor.
  - intros y [Hy|Hy%list_elem_of_singleton]%elem_of_app; [auto|by subst].
  - destruct best as [o|]; [|done]. destruct H2 as (Ho & H2). split; [|done]. apply elem_of_app. by left.
Qed.

Lemma next_inv_take seen best nv x : next_inv seen best nv -> later x -> ver x < nv ->
  v + size_hash ls < ver x -> next_inv (seen ++ [x]) (Some x) (ver x).
Proof.
  intros [H1 H2] Hl Hlt Hfar. constructor.
  - intros y [Hy|Hy%list_elem_of_singleton]%elem_of_app Hly; [|subst; lia].
    destruct (H1 y Hy Hly). lia.
  - split; [|done]. apply elem_of_app. right. by apply list_elem_of_singleton.
Qed.

Lemma next_scan_spec l : forall seen best nv, (forall x, x ∈ l -> stored ls x) -> next_inv seen best nv ->
  match next_scan (size_hash ls) odsc l best nv with
  | inl od => od ∈ l /\ later od /\ ver od <= v + size_hash ls
  | inr (best', nv') => next_inv (seen ++ l) best' nv'
  end.
Proof.
  pose proof (li_size _ I) as Hs.
  induction l as [|x l IH]; intros seen best nv Hst Hi; cbn [next_scan]; [by rewrite app_nil_r|].
  assert (forall y, y ∈ l -> stored ls y) as Hst' by (intros; apply Hst; by apply list_elem_of_further).
  assert (forall best' nv', next_inv (seen ++ [x]) best' nv' ->
    match next_scan (size_hash ls) odsc l best' nv' with
    | inl od => od ∈ x :: l /\ later od /\ ver od <= v + size_hash ls
    | inr (best', nv') => next_inv (seen ++ x :: l) best' nv'
    end) as Hrest.
  { intros best' nv' Hi'. specialize (IH (seen ++ [x]) best' nv' Hst' Hi').
    rewrite <- app_assoc in IH. destruct (next_scan _ _ _ _ _) as [od|[b2 n2]]; [|done].
    destruct IH as (H1 & H2). split; [by apply list_elem_of_further|done]. }
  destruct (_ && _) eqn:E.
  - apply scan_cond in E as [Hl Hlt]. rewrite u32_small by lia.
    destruct (Z.leb_spec (ver x) (v + size_hash ls)).
    + split; [apply list_elem_of_here|done].
    + apply Hrest. by eapply next_inv_take.
  - apply Hrest, next_inv_skip; [done|]. intros Hl.
    assert (nv <= ver x) as Hnv.
    { destruct (Z.le_gt_cases nv (ver x)); [done|]. exfalso. apply not_true_iff_false in E. apply E.
      by apply scan_cond. }
    split; [|done]. pose proof (ni_best _ _ _ Hi) as Hb. destruct best as [o|].
    + destruct Hb as (Ho & Hlo & Eo). destruct (ni_far _ _ _ Hi o Ho Hlo). lia.
    + pose proof (Hmax x (Hst x (list_elem_of_here _ _))). lia.
Qed.

(** The bins visited at the offsets. *)
Definition visited (offs : list nat) : list obj_data :=
  offs ≫= fun o => get_bin (obj_hash ls) (bin_of (u32 (v + Z.of_nat o)) (size_hash ls)).

Lemma visited_stored offs x : x ∈ visited offs -> stored ls x.
Proof.
  intros (o & Hx & _)%list_elem_of_bind. apply elem_of_get_bin in Hx as (l & Hl & Hx).
  unfold stored. apply elem_of_mjoin_lookup. eauto.
Qed.

Lemma visited_later offs x o : o ∈ offs -> (1 <= o <= Z.to_nat (size_hash ls))%nat -> stored ls x ->
  ver x mod size_hash ls = (v + Z.of_nat o) mod size_hash ls -> x ∈ visited offs.
Proof.
  intros Ho Hr Hx E. pose proof (li_size _ I). apply list_elem_of_bind. exists o. split; [|done].
  rewrite u32_small by lia. unfold bin_of. rewrite <- E. by apply stored_bin.
Qed.

Lemma next_bins_spec offs : forall seen best nv, next_inv (visited seen) best nv ->
  seen ++ offs = seq 1 (Z.to_nat (size_hash ls)) ->
  match next_bins ls odsc offs best nv with
  | Some od => stored ls od /\ later od /\ forall x, stored ls x -> later x -> ver od <= ver x
  | None => forall x, stored ls x -> ~ later x
  end.
Proof.
  pose proof (li_size _ I) as Hs.
  induction offs as [|o offs IH]; intros seen best nv Hi Hseq; cbn [next_bins].
  - rewrite app_nil_r in Hseq. assert (forall x, stored ls x -> x ∈ visited seen) as Hall.
    { intros x Hx. set (r := (ver x - v - 1) mod size_hash ls).
      pose proof (Z.mod_pos_bound (ver x - v - 1) (size_hash ls) ltac:(lia)).
      apply (visited_later _ _ (S (Z.to_nat r))); [rewrite Hseq, elem_of_seq; lia|lia|done|].
      replace (v + Z.of_nat (S (Z.to_nat r))) with (v + 1 + r) by lia. subst r.
      rewrite Zplus_mod_idemp_r. f_equal. lia. }
    pose proof (ni_best _ _ _ Hi) as Hb. destruct best as [od|].
    + destruct Hb as (Ho & Hl & En). split; [by eapply visited_stored|]. split; [done|].
      intros x Hx Hlx. rewrite En. by apply (ni_far _ _ _ Hi x (Hall x Hx)).
    + intros x Hx Hlx. destruct (ni_far _ _ _ Hi x (Hall x Hx) Hlx). pose proof (Hmax x Hx). lia.
  - set (bin := get_bin (obj_hash ls) _).
    assert (visited (seen ++ [o]) = visited seen ++ bin) as Hvis.
    { unfold visited. rewrite bind_app. f_equal. cbn. by rewrite app_nil_r. }
    assert (forall x, x ∈ bin -> stored ls x) as Hst.
    { intros x Hx. apply (visited_stored (seen ++ [o])). rewrite Hvis. apply elem_of_app. by right. }
    assert (o ∈ seq 1 (Z.to_nat (size_hash ls))) as Ho.
    { rewrite <- Hseq. apply elem_of_app. right. apply list_elem_of_here. }
    apply elem_of_seq in Ho.
    pose proof (next_scan_spec bin (visited seen) best nv Hst Hi) as Hscan.
    destruct (next_scan _ _ _ _ _) as [od|[b' n']].
    + destruct Hscan as (Hin & Hl & Hle). split; [auto|]. split; [done|]. intros x Hx Hlx.
      destruct (Z.le_gt_cases (ver od) (ver x)) as [|Hlt]; [done|]. exfalso.
      assert (ver od = v + Z.of_nat o) as Eo.
      { apply elem_of_get_bin in Hin as (l & Hl' & Hin). destruct (li_bin _ I _ _ _ Hl' Hin) as [_ Eb].
        rewrite u32_small in Eb by lia. unfold bin_of in Eb.
        pose proof (Z.mod_pos_bound (ver od) (size_hash ls) ltac:(lia)).
        pose proof (Z.mod_pos_bound (v + Z.of_nat o) (size_hash ls) ltac:(lia)).
        assert ((ver od - (v + Z.of_nat o)) mod size_hash ls = 0) as Em.
        { rewrite Zminus_mod. replace (ver od mod size_hash ls) with ((v + Z.of_nat o) mod size_hash ls) by lia.
          by rewrite Z.sub_diag. }
        apply Z.mod_divide in Em as [c Hc]; [|lia]. destruct Hl as [_ Hl].
        assert (- size_hash ls < c * size_hash ls < size_hash ls) by lia.
        assert (c = 0) by nia. lia. }
      assert (x ∈ visited seen) as Hxs.
      { assert (exists k, ver x = v + Z.of_nat k) as [k Hk] by (exists (Z.to_nat (ver x - v)); destruct Hlx; lia).
        apply (visited_later _ _ k); [|destruct Hlx; lia|done|by rewrite Hk].
        assert (k ∈ seq 1 (Z.to_nat (size_hash ls))) as Hks by (apply elem_of_seq; destruct Hlx; lia).
        assert (seen = seq 1 (o - 1)) as ->; [|apply elem_of_seq; destruct Hlx; lia].
        apply (seq_prefix_before seen o offs 1 (Z.to_nat (size_hash ls))). done. }
      destruct (ni_far _ _ _ Hi x Hxs Hlx). lia.
    + rewrite <- Hvis in Hscan. apply (IH (seen ++ [o])); [done|]. by rewrite <- app_assoc.
Qed.
End find_next.

Lemma latest_bins_undefined ls odsc n : length (obj_hash ls) = n ->
  forall m k best, (k + m = S n)%nat -> (0 < m)%nat -> latest_bins ls odsc (seq k m) best = None.
Proof.
  intros Hl. induction m as [|m IH]; intros k best E Hm; [lia|]. cbn [seq latest_bins].
  destruct (obj_hash ls !! k) as [bin|] eqn:Ek; [|done]. cbn [mbind option_bind].
  destruct (latest_scan odsc bin best) as [b'|]; [|done]. cbn [mbind option_bind].
  apply lookup_lt_Some in Ek. apply IH; lia.
Qed.

Lemma ls_free_fold l : forall ls, num_obj (fold_left ls_remove l ls) = num_obj ls - Z.of_nat (length l) /\
  forall x, stored (fold_left ls_remove l ls) x <-> stored ls x /\ forall y, y ∈ l -> od_ptr x <> od_ptr y.
Proof.
  induction l as [|od l IH]; intros ls; cbn [fold_left length].
  - split; [lia|]. intros x. split; [|tauto]. intros H. split; [done|]. intros y Hy. by apply not_elem_of_nil in Hy.
  - destruct (IH (ls_remove ls od)) as [H1 H2]. split; [rewrite H1; cbn [ls_remove num_obj]; lia|].
    intros x. rewrite H2, stored_remove. split.
    + intros [[Hx Hn] Hy]. split; [done|]. intros y [->|Hin]%elem_of_cons; auto.
    + intros [Hx Hy]. split; [split; [done|]|]; auto using list_elem_of_here, list_elem_of_further.
Qed.

(** ** DHT entries *)

Definition known (de : dht_entry) (o : obj_descriptor) : Prop := o ∈ mjoin (odsc_hash de).

Record de_inv (de : dht_entry) : Prop := {
  di_size : 0 < odsc_size de < 2 ^ 31;
  di_len : length (odsc_hash de) = Z.to_nat (odsc_size de);
  di_bin : forall i l o, odsc_hash de !! i = Some l -> o ∈ l ->
    0 <= version o < 2 ^ 32 /\ i = bin_of (version o) (odsc_size de);
  di_num : odsc_num de = Z.of_nat (length (mjoin (odsc_hash de)))
}.

Lemma dht_entry_alloc_inv s : 0 < s < 2 ^ 31 -> de_inv (dht_entry_alloc s).
Proof.
  intros Hs. assert (mjoin (replicate (Z.to_nat s) (@nil obj_descriptor)) = []) as E.
  { generalize (Z.to_nat s). intros n. induction n as [|n IH]; [done|]. exact IH. }
  constructor; cbn [dht_entry_alloc odsc_size odsc_hash odsc_num]; try done.
  - by rewrite length_replicate.
  - intros i l o Hl Ho. apply lookup_replicate in Hl as [-> _]. by apply not_elem_of_nil in Ho.
  - by rewrite E.
Qed.

Lemma mjoin_insert_length {A} (h : list (list A)) i l l' : h !! i = Some l -> length l' = length l ->
  length (mjoin (<[i := l']> h)) = length (mjoin h).
Proof.
  revert i. induction h as [|l0 h IH]; intros i Hi Hl; [done|]. destruct i as [|i]; cbn in Hi |- *.
  - injection Hi as ->. by rewrite !length_app, Hl.
  - rewrite !length_app. f_equal. by eapply IH.
Qed.

Lemma elem_of_mjoin_insert {A} (h : list (list A)) i l l' x : h !! i = Some l ->
  x ∈ mjoin (<[i := l']> h) <-> x ∈ l' \/ exists j lj, j <> i /\ h !! j = Some lj /\ x ∈ lj.
Proof.
  intros Hi. rewrite elem_of_mjoin_lookup. split.
  - intros (j & lj & Hj & Hx). apply list_lookup_insert_Some in Hj as [(<- & <- & _)|[Hne Hj]]; [by left|].
    right. exists j, lj. auto.
  - intros [Hx|(j & lj & Hne & Hj & Hx)].
    + exists i, l'. split; [|done]. apply list_lookup_insert_eq. by eapply lookup_lt_Some.
    + exists j, lj. split; [|done]. by rewrite list_lookup_insert_ne.
Qed.

Section add_entry.
Context (de : dht_entry) (odsc : obj_descriptor) (I : de_inv de) (Hv : 0 <= version odsc < 2 ^ 32).
Abbreviation n := (bin_of (version odsc) (odsc_size de)).

Lemma de_bin_lookup : odsc_hash de !! n = Some (get_bin (odsc_hash de) n).
Proof. apply get_bin_lookup. rewrite (di_len _ I). apply bin_lt, I. Qed.

Lemma find_match_spec :
  match dht_find_match de odsc with
  | Some (i, j) => i = n /\ exists o, get_bin (odsc_hash de) n !! j = Some o /\
                     obj_desc_by_name_intersect odsc o = true
  | None => version odsc = 2 ^ 32 - 1 \/
            forall o, o ∈ get_bin (odsc_hash de) n -> obj_desc_by_name_intersect odsc o = false
  end.
Proof.
  unfold dht_find_match. destruct (Z.eqb_spec (version odsc) (2 ^ 32 - 1)); [by left|].
  destruct (list_find _ _) as [[j o]|] eqn:E; cbn.
  - split; [done|]. exists o. apply list_find_Some in E as (H1 & H2 & _). done.
  - right. intros o Ho. apply list_find_None in E. rewrite list.Forall_forall in E.
    apply not_true_iff_false. by apply E.
Qed.

Lemma dht_add_entry_inv ok : de_inv (dht_add_entry ok de odsc).1.
Proof.
  pose proof de_bin_lookup as Hb. pose proof find_match_spec as Hm. pose proof I as [Hs Hl Hbin Hnum].
  assert (forall l num, num = Z.of_nat (length (mjoin (<[n := l]> (odsc_hash de)))) ->
    (forall o, o ∈ l -> o = odsc \/ o ∈ get_bin (odsc_hash de) n) ->
    de_inv (set_odsc de num (<[n := l]> (odsc_hash de)))) as Hgen.
  { intros l num En Hin. constructor; cbn [set_odsc odsc_size odsc_hash odsc_num]; try done.
    - by rewrite length_insert.
    - intros i l' o Hi Ho. apply list_lookup_insert_Some in Hi as [(<- & <- & _)|[_ Hi]]; [|eauto].
      destruct (Hin o Ho) as [->|Ho']; [done|]. eauto. }
  unfold dht_add_entry. destruct (dht_find_match de odsc) as [[i j]|].
  - destruct Hm as (-> & o & Hj & _). cbn [fst]. unfold on_bin. apply Hgen.
    + by rewrite (mjoin_insert_length _ _ _ _ Hb) by apply length_insert.
    + intros o' Ho. apply list_elem_of_lookup in Ho as [k Hk].
      apply list_lookup_insert_Some in Hk as [(_ & <- & _)|[_ Hk]]; [by left|]. right.
      by eapply list_elem_of_lookup_2.
  - destruct ok; [|done]. cbn [fst]. unfold on_bin. apply Hgen.
    + rewrite (mjoin_insert_perm _ _ _ _ Hb). cbn [length]. lia.
    + intros o' Ho. by apply elem_of_cons in Ho.
Qed.

Lemma dht_add_entry_known ok : (dht_add_entry ok de odsc).2 = 0 -> known (dht_add_entry ok de odsc).1 odsc.
Proof.
  pose proof de_bin_lookup as Hb. pose proof find_match_spec as Hm. unfold dht_add_entry, known.
  destruct (dht_find_match de odsc) as [[i j]|].
  - destruct Hm as (-> & o & Hj & _). intros _. cbn [fst set_odsc odsc_hash]. unfold on_bin.
    apply (elem_of_mjoin_insert _ _ _ _ _ Hb). left.
    eapply list_elem_of_lookup_2. apply list_lookup_insert_eq. by eapply lookup_lt_Some.
  - destruct ok; [|done]. intros _. cbn [fst set_odsc odsc_hash]. unfold on_bin.
    apply (elem_of_mjoin_insert _ _ _ _ _ Hb). left. apply list_elem_of_here.
Qed.

(** Every other descriptor is kept, unless it is in the same bin, has the
    same name and intersects the new one. *)
Lemma dht_add_entry_keeps ok o : known de o ->
  known (dht_add_entry ok de odsc).1 o \/
  (bin_of (version o) (odsc_size de) = n /\ obj_desc_by_name_intersect odsc o = true).
Proof.
  pose proof de_bin_lookup as Hb. pose proof find_match_spec as Hm. unfold dht_add_entry, known.
  intros Ho. assert (forall l, (forall y, y ∈ get_bin (odsc_hash de) n -> y ∈ l \/ obj_desc_by_name_intersect odsc y = true) ->
    o ∈ mjoin (<[n := l]> (odsc_hash de)) \/
    (bin_of (version o) (odsc_size de) = n /\ obj_desc_by_name_intersect odsc o = true)) as Hgen.
  { intros l Hl. apply elem_of_mjoin_lookup in Ho as (i & li & Hi & Ho).
    destruct (decide (i = n)) as [->|Hne].
    - rewrite Hb in Hi. injection Hi as <-. destruct (Hl o Ho) as [H|H].
      + left. apply (elem_of_mjoin_insert _ _ _ _ _ Hb). by left.
      + right. split; [|done]. symmetry. by eapply (di_bin _ I _ _ o Hb).
    - left. apply (elem_of_mjoin_insert _ _ _ _ _ Hb). right. eauto. }
  destruct (dht_find_match de odsc) as [[i j]|].
  - destruct Hm as (-> & om & Hj & Hom). cbn [fst set_odsc odsc_hash]. unfold on_bin. apply Hgen.
    intros y Hy. apply list_elem_of_lookup in Hy as [k Hk]. destruct (decide (k = j)) as [->|Hne].
    + right. rewrite Hj in Hk. by injection Hk as <-.
    + left. eapply list_elem_of_lookup_2. by rewrite list_lookup_insert_ne.
  - destruct ok; [|by left]. cbn [fst set_odsc odsc_hash]. unfold on_bin. apply Hgen.
    intros y Hy. left. by apply list_elem_of_further.
Qed.
End add_entry.

Lemma dht_add_entry_only ok de odsc o : de_inv de -> known (dht_add_entry ok de odsc).1 o -> o = odsc \/ known de o.
Proof.
  intros I. pose proof (de_bin_lookup de odsc I) as Hb. pose proof (find_match_spec de odsc) as Hm.
  unfold dht_add_entry, known. assert (forall i l, odsc_hash de !! i = Some l -> o ∈ l -> o ∈ mjoin (odsc_hash de)) as Hin.
  { intros i l Hi Hl. apply elem_of_mjoin_lookup. eauto. }
  destruct (dht_find_match de odsc) as [[i j]|].
  - destruct Hm as (-> & _). cbn [fst set_odsc odsc_hash]. unfold on_bin.
    intros [Ho|(i & l & _ & Hi & Ho)]%(elem_of_mjoin_insert _ _ _ _ _ Hb); [|eauto].
    apply list_elem_of_lookup in Ho as [m Hk].
    apply list_lookup_insert_Some in Hk as [(_ & <- & _)|[_ Hk]]; [by left|]. right.
    eapply Hin; [exact Hb|]. by eapply list_elem_of_lookup_2.
  - destruct ok; [|by right]. cbn [fst set_odsc odsc_hash]. unfold on_bin.
    intros [[->|Ho]%elem_of_cons|(i & l & _ & Hi & Ho)]%(elem_of_mjoin_insert _ _ _ _ _ Hb); [by left| |]; eauto.
Qed.

Lemma dht_add_entry_ok de odsc : (dht_add_entry true de odsc).2 = 0.
Proof. unfold dht_add_entry. by destruct (dht_find_match de odsc) as [[? ?]|]. Qed.

Lemma dht_add_entry_size ok de odsc : odsc_size (dht_add_entry ok de odsc).1 = odsc_size de.
Proof. unfold dht_add_entry. destruct (dht_find_match de odsc) as [[? ?]|]; [done|]. by destruct ok. Qed.

Lemma elem_of_stdlib_filter {A} (f : A -> bool) l x : x ∈ List.filter f l <-> x ∈ l /\ f x = true.
Proof. rewrite !list_elem_of_In. apply List.filter_In. Qed.

Lemma dht_find_entry_all_spec de q o : de_inv de ->
  o ∈ dht_find_entry_all de q <-> known de o /\ obj_desc_equals_intersect o q = true.
Proof.
  intros I. unfold dht_find_entry_all. rewrite elem_of_stdlib_filter. split; intros [H1 H2]; (split; [|done]).
  - apply elem_of_get_bin in H1 as (l & Hl & Ho). apply elem_of_mjoin_lookup. eauto.
  - apply elem_of_mjoin_lookup in H1 as (i & l & Hl & Ho). destruct (di_bin _ I _ _ _ Hl Ho) as [_ Ei].
    unfold obj_desc_equals_intersect in H2.
    apply andb_true_iff in H2 as [[_ Hv]%andb_true_iff _]. apply Z.eqb_eq in Hv. rewrite <- Hv, <- Ei.
    unfold get_bin. by rewrite nth_lookup, Hl.
Qed.

(** ** Properties *)

(** C36: adding an object keeps the storage well formed (bins by version,
    exact object count, no object twice); the object is what a later
    [ls_find] for its name and version returns for every intersecting box.
    Exactly one stored object is replaced if the bin of the version has one of
    the name whose box intersects, and none otherwise; the one that is replaced
    is removed, or only marked while it is referenced; all others stay as they
    are, and nothing else is stored. *)
Theorem ls_add_obj_correct ls od :
  ls_inv ls -> 0 <= version (obj_desc od) < 2 ^ 32 -> (forall x, stored ls x -> od_ptr x <> od_ptr od) ->
  ls_inv (ls_add_obj ls od) /\
  (forall q, obj_desc_equals_intersect q (obj_desc od) = true -> ls_find (ls_add_obj ls od) q = Some od) /\
  exists old, match old with
              | Some ex => stored ls ex /\ conflicts (size_hash ls) (obj_desc od) (obj_desc ex)
              | None => forall y, stored ls y -> ~ conflicts (size_hash ls) (obj_desc od) (obj_desc y)
              end /\
    forall y, stored (ls_add_obj ls od) y <-> y = od \/
      match old with
      | Some ex => stored ls y /\ y <> ex \/ refcnt ex <> 0 /\ y = mark_free (od_ptr ex) ex
      | None => stored ls y
      end.
Proof.
  intros I Hv Hf. split; [by apply ls_add_obj_inv|]. split; [intros; by apply ls_find_added|].
  exists (ls_find_no_version ls (obj_desc od)). split.
  - destruct (ls_find_no_version ls (obj_desc od)) as [ex|] eqn:E; [|intros y Hy; by apply ls_find_no_version_none].
    destruct (ls_find_no_version_stored _ _ _ I E) as (Hs & Hm & Hb). done.
  - intros y. rewrite ls_add_obj_eq, stored_push by (by apply ls_evict_inv). by rewrite stored_evict_iff.
Qed.

Lemma ls_alloc_inv n : 0 < n < 2 ^ 31 -> ls_inv (ls_alloc n).
Proof.
  intros Hn. assert (mjoin (replicate (Z.to_nat n) (@nil obj_data)) = []) as E.
  { generalize (Z.to_nat n). intros k. induction k as [|k IH]; [done|]. exact IH. }
  constructor; cbn [ls_alloc num_obj size_hash obj_hash]; try done.
  - by rewrite length_replicate.
  - intros i l o Hl Ho. apply lookup_replicate in Hl as [-> _]. by apply not_elem_of_nil in Ho.
  - by rewrite E.
  - rewrite E. constructor.
Qed.

Lemma ls_alloc_empty n x : 0 < n < 2 ^ 31 -> ~ stored (ls_alloc n) x.
Proof.
  intros Hn H. pose proof (li_num _ (ls_alloc_inv n Hn)) as E. unfold stored in H. cbn [ls_alloc num_obj] in E.
  destruct (mjoin (obj_hash (ls_alloc n))); [by apply not_elem_of_nil in H|cbn in E; lia].
Qed.

Lemma ls_add_obj_correct_witness : ls_find (ls_add_obj (ls_alloc 2) demo_to) (obj_desc demo_from) = Some demo_to.
Proof.
  destruct (ls_add_obj_correct (ls_alloc 2) demo_to) as (_ & H & _).
  - apply ls_alloc_inv. lia.
  - cbn. lia.
  - intros x Hx. exfalso. by apply (ls_alloc_empty 2 x).
  - apply H. vm_compute. reflexivity.
Defined.

(** [ls_find] is exact: it returns a stored object of the name and
    version whose box intersects, and returns nothing only when there is
    none. *)
Theorem ls_find_exact ls q :
  ls_inv ls ->
  match ls_find ls q with
  | Some od => stored ls od /\ obj_desc_equals_intersect q (obj_desc od) = true
  | None => forall od, stored ls od -> obj_desc_equals_intersect q (obj_desc od) = false
  end.
Proof. apply ls_find_spec. Qed.

(** A storage with two versions of an object. *)
Definition demo_later : obj_data := mk_od 3 (mk_odsc "temp" row_major 0 6 (mk_bbox 2 [0; 1] [3; 4]) 1) (mk_gdim 0 []) [] 0 false.
Definition demo_ls : ss_storage := ls_add_obj (ls_add_obj (ls_alloc 2) demo_to) demo_later.

Lemma demo_ls_stored x : stored demo_ls x -> x = demo_to \/ x = demo_later.
Proof. intros Hx. vm_compute in Hx. apply elem_of_cons in Hx as [->|Hx]; [by right|]. apply elem_of_cons in Hx as [->|Hx]; [by left|by apply not_elem_of_nil in Hx]. Qed.

Lemma demo_ls_inv : ls_inv demo_ls.
Proof.
  apply ls_add_obj_inv; [apply ls_add_obj_inv; [apply ls_alloc_inv; lia|cbn; lia|]|cbn; lia|].
  - intros x Hx. by apply ls_alloc_empty in Hx; [|lia].
  - intros x Hx. vm_compute in Hx. apply elem_of_cons in Hx as [->|Hx]; [by vm_compute|by apply not_elem_of_nil in Hx].
Qed.

Lemma ls_find_exact_witness : ls_find demo_ls (obj_desc demo_from) = Some demo_to /\ stored demo_ls demo_to.
Proof.
  assert (ls_find demo_ls (obj_desc demo_from) = Some demo_to) as E by (vm_compute; reflexivity).
  split; [exact E|]. pose proof (ls_find_exact demo_ls (obj_desc demo_from) demo_ls_inv) as H. rewrite E in H. exact (proj1 H).
Defined.

(** C37: version rotation bounds the storage: when the clients cut a variable
    in the same way in every version and no object is referenced, adding an
    object preserves that each bin holds at most one object per name and
    cell, hence at most [size_hash] (the configured number of versions)
    objects per name and box. *)
Theorem ls_versions_bounded ls od nm b :
  ls_inv ls -> bin_unique ls -> tiled ls od ->
  wf_bbox (bb (obj_desc od)) -> 0 <= version (obj_desc od) < 2 ^ 32 ->
  (forall x, stored ls x -> od_ptr x <> od_ptr od /\ refcnt x = 0 /\
     num_dims (bb (obj_desc x)) = num_dims (bb (obj_desc od))) ->
  wf_bbox b ->
  bin_unique (ls_add_obj ls od) /\
  (length (filter (fun x => name (obj_desc x) = nm /\ bb (obj_desc x) = b) (mjoin (obj_hash (ls_add_obj ls od))))
   <= Z.to_nat (size_hash ls))%nat.
Proof.
  intros I Hu Ht Hw Hv Hf Hb. pose proof (bin_unique_add _ _ I Hu Ht Hw Hv Hf) as Hu'. split; [done|].
  assert (size_hash (ls_add_obj ls od) = size_hash ls) as <-.
  { rewrite ls_add_obj_eq. apply (proj2 (ls_evict_inv ls (obj_desc od) I)). }
  apply bin_unique_bound; [|done|done]. apply ls_add_obj_inv; [done..|]. intros. by apply Hf.
Qed.

Lemma ls_versions_bounded_witness : bin_unique (ls_add_obj (ls_alloc 2) demo_to).
Proof.
  assert (forall x, ~ stored (ls_alloc 2) x) as He by (intros x; apply ls_alloc_empty; lia).
  apply (ls_versions_bounded (ls_alloc 2) demo_to "temp" demo_box).
  - apply ls_alloc_inv. lia.
  - intros x y Hx. by apply He in Hx.
  - intros y Hy. by apply He in Hy.
  - apply demo_box_wf.
  - cbn. lia.
  - intros x Hx. by apply He in Hx.
  - apply demo_box_wf.
Defined.

(** [ls_find_next] returns the stored object of the same name with the
    least version above the given one, gaps in the versions included, and
    nothing only when every stored version of the name is at most the given
    one (versions below INT_MAX; version + size_hash does not wrap). *)
Theorem ls_find_next_least ls odsc :
  ls_inv ls -> 0 <= version odsc -> version odsc + size_hash ls < 2 ^ 32 ->
  (forall x, stored ls x -> version (obj_desc x) < INT_MAX) ->
  match ls_find_next ls odsc with
  | Some od => stored ls od /\ later odsc od /\
      forall x, stored ls x -> later odsc x -> version (obj_desc od) <= version (obj_desc x)
  | None => forall x, stored ls x -> ~ later odsc x
  end.
Proof.
  intros I Hv Hw Hm. unfold ls_find_next. apply (next_bins_spec ls odsc I Hv Hw Hm _ []); [|done].
  constructor; [|done]. intros x Hx. by apply not_elem_of_nil in Hx.
Qed.

Lemma ls_find_next_least_witness :
  ls_find_next demo_ls (obj_desc demo_to) = Some demo_later /\
  (forall x, stored demo_ls x -> later (obj_desc demo_to) x -> 6 <= version (obj_desc x)) /\
  ls_find_next demo_ls (obj_desc demo_later) = None.
Proof.
  assert (ls_find_next demo_ls (obj_desc demo_to) = Some demo_later) as E by (vm_compute; reflexivity).
  split; [exact E|]. split; [|by vm_compute].
  pose proof (ls_find_next_least demo_ls (obj_desc demo_to) demo_ls_inv) as H. rewrite E in H.
  apply H; [by vm_compute|by vm_compute|]. intros x [->| ->]%demo_ls_stored; by vm_compute.
Defined.

(** [ls_find_latest] is undefined on every storage: it dereferences the
    null [od_next] at the first candidate, and without a candidate it reads
    the list head after the last bin. *)
Theorem ls_find_latest_undefined ls odsc : ls_inv ls -> ls_find_latest ls odsc = None.
Proof. intros I. apply (latest_bins_undefined _ _ _ (li_len _ I)); lia. Qed.

Lemma ls_find_latest_undefined_witness : ls_find_latest (ls_alloc 2) (obj_desc demo_to) = None.
Proof. apply ls_find_latest_undefined, ls_alloc_inv. lia. Defined.

(** [ls_free] releases every object, and the object count it checks at
    the end is 0. *)
Lemma ls_free_empties ls : ls_inv ls -> num_obj (ls_free ls) = 0 /\ forall x, ~ stored (ls_free ls) x.
Proof.
  intros I. unfold ls_free. destruct (ls_free_fold (mjoin (obj_hash ls)) ls) as [H1 H2].
  split; [rewrite H1, (li_num _ I); lia|]. intros x Hx. apply H2 in Hx as [Hx Hn]. by apply (Hn x Hx).
Qed.

(** [dht_add_entry] keeps the entry well formed; on success the
    descriptor is returned by every matching [dht_find_entry_all]; no other
    descriptor is lost except one of the same bin and name whose box
    intersects; and when the allocation fails the entry is unchanged unless
    a descriptor could be overwritten in place. *)
Theorem dht_add_entry_correct ok de odsc q :
  de_inv de -> 0 <= version odsc < 2 ^ 32 ->
  let '(de', rc) := dht_add_entry ok de odsc in
  de_inv de' /\
  (rc = 0 -> obj_desc_equals_intersect odsc q = true -> odsc ∈ dht_find_entry_all de' q) /\
  (forall o, o ∈ dht_find_entry_all de q -> o ∈ dht_find_entry_all de' q \/
     (bin_of (version o) (odsc_size de) = bin_of (version odsc) (odsc_size de) /\
      obj_desc_by_name_intersect odsc o = true)) /\
  (rc <> 0 -> ok = false /\ rc = - ENOMEM /\ de' = de).
Proof.
  intros I Hv. pose proof (dht_add_entry_inv de odsc I Hv ok) as I'.
  pose proof (dht_add_entry_known de odsc I ok) as Hk.
  pose proof (dht_add_entry_keeps de odsc I ok) as Hkeep.
  assert ((dht_add_entry ok de odsc).2 <> 0 ->
    ok = false /\ (dht_add_entry ok de odsc).2 = - ENOMEM /\ (dht_add_entry ok de odsc).1 = de) as Herr.
  { unfold dht_add_entry. destruct (dht_find_match de odsc) as [[i j]|]; [done|]. by destruct ok. }
  destruct (dht_add_entry ok de odsc) as [de' rc]. cbn [fst snd] in *. split; [done|]. split; [|split; [|done]].
  - intros Hrc Hq. by apply dht_find_entry_all_spec; auto.
  - intros o Ho. apply dht_find_entry_all_spec in Ho as [Ho Hq]; [|done].
    destruct (Hkeep o Ho) as [H|H]; [left|by right]. by apply dht_find_entry_all_spec.
Qed.

Lemma dht_add_entry_correct_witness :
  obj_desc demo_to ∈ dht_find_entry_all (dht_add_entry true (dht_entry_alloc 2) (obj_desc demo_to)).1 (obj_desc demo_from).
Proof.
  pose proof (dht_add_entry_correct true (dht_entry_alloc 2) (obj_desc demo_to) (obj_desc demo_from)
    (dht_entry_alloc_inv 2 ltac:(lia)) ltac:(cbn; lia)) as H.
  destruct (dht_add_entry true (dht_entry_alloc 2) (obj_desc demo_to)) as [de rc] eqn:E.
  destruct H as (_ & H & _). apply H; [|vm_compute; reflexivity].
  assert ((dht_add_entry true (dht_entry_alloc 2) (obj_desc demo_to)).2 = 0) as E2 by (vm_compute; reflexivity).
  rewrite E in E2. exact E2.
Defined.

(** a second put of the same name and version with an overlapping box
    drops the first one from the DHT: the comment speaks of replacing a
    different version, the code replaces whatever intersects, so cells only
    the first object has are no longer found. *)
Theorem dht_add_entry_overlap_loses : exists de o1 o2 q,
  de_inv de /\ version o1 = version o2 /\
  o1 ∈ dht_find_entry_all (dht_add_entry true de o1).1 q /\
  dht_find_entry_all (dht_add_entry true (dht_add_entry true de o1).1 o2).1 q = [].
Proof.
  exists (dht_entry_alloc 2), (demo_desc (mk_bbox 1 [0] [5])), (demo_desc (mk_bbox 1 [4] [9])),
    (demo_desc (mk_bbox 1 [0] [1])).
  split; [apply dht_entry_alloc_inv; lia|]. split; [reflexivity|]. split; [|vm_compute; reflexivity].
  vm_compute. apply list_elem_of_here.
Qed.
