(* ===== verification/Sspace.v ===== *)
(** * The shared space and its DHT (src/ss_data.c)

    [ssd_alloc] distributes the cells of the global domain over the entries
    of a table, one per server: version 1 cuts the Hilbert order of the
    cells into runs of equal length, version 2 bisects the domain and deals
    the boxes out round-robin.  [ssd_hash] returns the entries a box
    touches, with a cache that all spaces share.

    A pointer to an entry is the pair of the space it belongs to and its
    index in [ent_tab].  The results of [malloc] are the parameter [ok]. *)

From Stdlib Require Import Sorted.
From S2P Require Import Prelude Bbox Sfc SfcCurve BboxIntv BboxRing Matrix ObjDesc Storage.

Definition de_ptr : Type := nat * nat.

Record dht := mk_dht {
  bb_glb_domain : bbox;
  num_entries : nat;
  ent_tab : list dht_entry
}.

Inductive hash_version_t := ssd_hash_version_v1 | ssd_hash_version_v2 | ssd_hash_version_unknown.

Record sspace := mk_ss {
  ss_ptr : nat;
  max_dim : Z;
  bpd : Z;
  ss_dht : dht;
  ss_rank : nat;
  ent_self : nat;             (* index of this server's entry *)
  total_num_bbox : nat;
  hash_version : hash_version_t
}.

(** ** Powers of two, second version *)

(** [while (i < n) i = i << 1]; for n > 2^63 the loop does not end. *)
Fixpoint next_pow_2_v2_loop (fuel : nat) (i n : Z) : option Z :=
  if i <? n then
    match fuel with O => None | S fuel => next_pow_2_v2_loop fuel (u64 (Z.shiftl i 1)) n end
  else Some i.

Definition next_pow_2_v2 (n : Z) : option Z := next_pow_2_v2_loop 64 1 n.

(** [while (n>1) { n = n >> 1; nr_bits++; }] *)
Fixpoint compute_bits_v2_loop (fuel : nat) (n nr_bits : Z) : Z :=
  match fuel with
  | O => nr_bits
  | S fuel => if 1 <? n then compute_bits_v2_loop fuel (Z.shiftr n 1) (nr_bits + 1) else nr_bits
  end.

Definition compute_bits_v2 (n : Z) : Z := compute_bits_v2_loop 64 n 0.

(** ** The cache *)

(** One entry of [sfc_hash_list]. *)
Record sfc_hash_cache := mk_shc { sh_bb : bbox; sh_de_tab : list de_ptr }.

(** The static variables of the file; after [sh_free] the list points to
    freed memory and [is_sfc_hash_list_free] is set. *)
Record sh_state := mk_sh { sfc_hash_list : list sfc_hash_cache; is_sfc_hash_list_free : bool }.

Definition sh_add (ok : bool) (sh : sh_state) (bb : bbox) (de_tab : list de_ptr) : sh_state * Z :=
  if ok then (mk_sh (sfc_hash_list sh ++ [mk_shc bb de_tab]) (is_sfc_hash_list_free sh), 0)
  else (sh, - ENOMEM).

(** [None] is the result -1. *)
Definition sh_find (sh : sh_state) (bb : bbox) : option (list de_ptr) :=
  sh_de_tab <$> List.find (fun shc => bbox_equals bb (sh_bb shc)) (sfc_hash_list sh).

Definition sh_free (sh : sh_state) : sh_state :=
  if is_sfc_hash_list_free sh then sh else mk_sh (sfc_hash_list sh) true.

(** ** Allocation of the table *)

Fixpoint alloc_entries (ok : nat -> bool) (num_nodes i : nat) (size_hash : Z) : list dht_entry :=
  match num_nodes with
  | O => []
  | S k => if ok (S i) then dht_entry_alloc size_hash :: alloc_entries ok k (S i) size_hash else []
  end.

(** The second component lists the entries that are still allocated when
    the function returns an error: [while (--i > 0) free(ent_tab[i])]. *)
Definition dht_alloc (ok : nat -> bool) (bb_domain : bbox) (num_nodes : nat) (size_hash : Z)
    : option dht * list nat :=
  if ok 0%nat then
    let ents := alloc_entries ok num_nodes 0 size_hash in
    if (length ents =? num_nodes)%nat then (Some (mk_dht bb_domain num_nodes ents), [])
    else (None, if (length ents =? 0)%nat then [] else [0%nat])
  else (None, []).

(** ** Version 1: runs of the Hilbert order *)

(** The loop [while (len > 0)]: the intervals from [i_tab[j]] on are
    [tab]; the result is the intervals stored in the entry and the rest of
    the table.  [None]: the table is read past its end. *)
Fixpoint carve (fuel : nat) (len : Z) (tab : list intv) : option (list intv * list intv) :=
  match fuel with
  | O => None
  | S fuel =>
      if 0 <? len then
        match tab with
        | [] => None
        | t :: rest =>
            let '(piece, tab) :=
              if len <? intv_size t
              then (mk_intv (ilb t) (u64 (ilb t + len - 1)), mk_intv (u64 (ilb t + len)) (iub t) :: rest)
              else (t, rest) in
            r ← carve fuel (u64 (len - intv_size piece)) tab;
            Some (piece :: fst r, snd r)
        end
      else Some ([], tab)
  end.

Definition set_intv (de : dht_entry) (rank : nat) (virt : intv) (tab : list intv) : dht_entry :=
  mk_de (Z.of_nat rank) virt tab (bb_tab de) (size_bb_tab de) (odsc_size de) (odsc_num de) (odsc_hash de).

(** The loop over the entries from [i] on.  [None]: undefined (an entry gets
    no interval and [i_tab[0]], [i_tab[-1]] are read, or the table is read
    past its end); [inl]: the malloc or the realloc of this entry failed. *)
Fixpoint hash_entries (ok : nat -> bool) (sn : Z) (ents : list dht_entry) (i : nat) (tab : list intv)
    : option (nat + list dht_entry) :=
  match ents with
  | [] => Some (inr [])
  | de :: ents =>
      if ok (2 * i)%nat then
        r ← carve (S (S (length tab))) sn tab;
        match fst r with
        | [] => None
        | t0 :: _ =>
            let virt := mk_intv (ilb t0) (iub (List.last (fst r) t0)) in
            if ok (S (2 * i)) then
              rest ← hash_entries ok sn ents (S i) (snd r);
              Some (match rest with
                    | inl k => inl k
                    | inr es => inr (set_intv de i virt (fst r) :: es)
                    end)
            else Some (inl i)
        end
      else Some (inl i)
  end.

Definition dht_construct_hash (ok : nat -> bool) (fuel : nat) (d : dht) (max_dim : Z)
    : option (Z * dht) :=
  let sn := bbox_volume (bb_glb_domain d) / Z.of_nat (num_entries d) in
  itv ← bbox_to_intv fuel (bb_glb_domain d) max_dim;
  r ← hash_entries ok sn (ent_tab d) 0 (fst itv);
  Some (match r with
        | inl _ => (- ENOMEM, d)
        | inr es => (0, mk_dht (bb_glb_domain d) (num_entries d) es)
        end).

(** [max_dim = max over the dimensions of ub, at least 1]. *)
Definition domain_max_dim (bb_domain : bbox) : Z :=
  let m := fold_left (fun m i => max (cget (ub bb_domain) i) m) (seq 1 (num_dims bb_domain - 1))
                     (cget (ub bb_domain) 0) in
  if m =? 0 then 1 else m.

(** [inl err]: the function returns NULL. *)
Definition ssd_alloc_v1 (ok : nat -> bool) (fuel : nat) (ptr : nat) (bb_domain : bbox)
    (num_nodes : nat) (max_versions : Z) : option (Z + sspace) :=
  match fst (dht_alloc ok bb_domain num_nodes max_versions) with
  | None => Some (inl (- ENOMEM))
  | Some d =>
      let md := next_pow_2 (domain_max_dim bb_domain) in
      r ← dht_construct_hash (fun i => ok (1 + num_nodes + i)%nat) fuel d md;
      Some (if fst r <? 0 then inl (fst r)
            else inr (mk_ss ptr md (compute_bits md) (snd r) 0 0 0 ssd_hash_version_v1))
  end.

Definition dht_intersect (de : dht_entry) (itv : intv) : bool :=
  if (iub itv <? ilb (i_virt de)) || (iub (i_virt de) <? ilb itv) then false
  else existsb (fun t => intv_do_intersect t itv) (de_i_tab de).

(** The two loops of [ssd_hash_v1]: the entries, in order, that one of the
    intervals touches. *)
Definition hash_hits (ss : sspace) (i_tab : list intv) : list de_ptr :=
  omap (fun k => de ← ent_tab (ss_dht ss) !! k;
                 if existsb (dht_intersect de) i_tab then Some (ss_ptr ss, k) else None)
       (seq 0 (num_entries (ss_dht ss))).

Definition ssd_hash_v1 (ok : bool) (fuel : nat) (sh : sh_state) (ss : sspace) (bb : bbox)
    : option (sh_state * list de_ptr) :=
  match sh_find sh bb with
  | Some (p :: de_tab) => Some (sh, p :: de_tab)
  | _ =>
      r ← bbox_to_intv2 fuel bb (max_dim ss);
      let de_tab := hash_hits ss (fst r) in
      Some (fst (sh_add ok sh bb de_tab), de_tab)
  end.

(** ** Version 2: recursive bisection *)

(** The loop keeps the first largest value; [dim] is unchanged when every
    value is 0. *)
Definition get_bbox_max_dim (bb : bbox) (dim : nat) : Z * nat :=
  fold_left (fun st i => if fst st <? cget (ub bb) i then (cget (ub bb) i, i) else st)
            (seq 0 (num_dims bb)) (0, dim).

Definition get_bbox_max_dim_size (bb : bbox) (dim : nat) : Z * nat :=
  fold_left (fun st i => let size := u64 (cget (ub bb) i - cget (lb bb) i + 1) in
                         if fst st <? size then (size, i) else st)
            (seq 0 (num_dims bb)) (0, dim).

(** [while (!queue_is_empty(src_q))]: the boxes appended to [dst_q] and the
    last value of [dim]. *)
Fixpoint bisect_queue (src : list bbox) (dim : nat) : list bbox * nat :=
  match src with
  | [] => ([], dim)
  | b :: src =>
      let dim := snd (get_bbox_max_dim_size b dim) in
      let '(b1, b2) := bbox_divide_in2_ondim b dim in
      let '(dst, dim) := bisect_queue src dim in
      (b1 :: b2 :: dst, dim)
  end.

(** One iteration of the outer loop on the two queues; [None] is the branch
    that leaves [src_q] and [dst_q] unset. *)
Definition bisect_step (st : list bbox * list bbox * nat) : option (list bbox * list bbox * nat) :=
  let '(q1, q2, dim) := st in
  match q1, q2 with
  | _ :: _, [] => let '(dst, dim) := bisect_queue q1 dim in Some ([], dst, dim)
  | [], _ :: _ => let '(dst, dim) := bisect_queue q2 dim in Some (dst, [], dim)
  | _, _ => None
  end.

Fixpoint bisect_iter (n : nat) (st : list bbox * list bbox * nat) : option (list bbox * list bbox * nat) :=
  match n with
  | O => Some st
  | S n => st ← bisect_step st; bisect_iter n st
  end.

Definition set_bbtab (de : dht_entry) (rank : nat) (size : nat) (tab : list bbox) : dht_entry :=
  mk_de (Z.of_nat rank) (i_virt de) (de_i_tab de) tab size (odsc_size de) (odsc_num de) (odsc_hash de).

(** The round-robin loop: box [i] goes to entry [i % num_entries], at
    position [num_bbox++] of its [bb_tab], whose size is fixed. *)
Fixpoint deal (i : nat) (q : list bbox) (tabs : list (list bbox)) (size : nat) : option (list (list bbox)) :=
  match q with
  | [] => Some tabs
  | b :: q =>
      let j := (i mod length tabs)%nat in
      t ← tabs !! j;
      if (length t <? size)%nat then deal (S i) q (<[j := t ++ [b]]> tabs) size else None
  end.

Definition ssd_alloc_v2 (ok : nat -> bool) (ptr : nat) (bb_domain : bbox) (num_nodes : nat)
    (max_versions : Z) : option (Z + sspace) :=
  let '(md, dim) := get_bbox_max_dim bb_domain 0 in
  md ← next_pow_2_v2 md;
  np ← next_pow_2_v2 (Z.of_nat num_nodes);
  r ← bisect_iter (Z.to_nat (compute_bits_v2 np)) ([bb_domain], [], dim);
  let '(q1, q2, _) := r in
  let q := match q1 with [] => q2 | _ :: _ => q1 end in
  match fst (dht_alloc ok bb_domain num_nodes max_versions) with
  | None => Some (inl (- ENOMEM))
  | Some d =>
      let n := ((length q + num_nodes - 1) / num_nodes)%nat in
      tabs ← deal 0 q (replicate num_nodes []) n;
      let ents := zip_with (fun i '(de, t) => set_bbtab de i n t) (seq 0 num_nodes) (zip (ent_tab d) tabs) in
      Some (inr (mk_ss ptr md (compute_bits_v2 md) (mk_dht bb_domain num_nodes ents) 0 0 (length q)
                       ssd_hash_version_v2))
  end.

Definition hash_hits_v2 (ss : sspace) (bb : bbox) : list de_ptr :=
  omap (fun i => de ← ent_tab (ss_dht ss) !! i;
                 if existsb (bbox_does_intersect bb) (bb_tab de) then Some (ss_ptr ss, i) else None)
       (seq 0 (num_entries (ss_dht ss))).

Definition ssd_hash_v2 (ok : bool) (sh : sh_state) (ss : sspace) (bb : bbox) : sh_state * list de_ptr :=
  match sh_find sh bb with
  | Some (p :: de_tab) => (sh, p :: de_tab)
  | _ => let de_tab := hash_hits_v2 ss bb in (fst (sh_add ok sh bb de_tab), de_tab)
  end.

(** ** Public operations *)

(** [Some None]: NULL. *)
Definition ssd_alloc (ok : nat -> bool) (fuel : nat) (ptr : nat) (bb_domain : bbox) (num_nodes : nat)
    (max_versions : Z) (v : hash_version_t) : option (option sspace) :=
  let ret (r : Z + sspace) := match r with inl _ => None | inr ss => Some ss end in
  match v with
  | ssd_hash_version_v1 => ret <$> ssd_alloc_v1 ok fuel ptr bb_domain num_nodes max_versions
  | ssd_hash_version_v2 => ret <$> ssd_alloc_v2 ok ptr bb_domain num_nodes max_versions
  | ssd_hash_version_unknown => Some None
  end.

Definition ssd_hash (ok : bool) (fuel : nat) (sh : sh_state) (ss : sspace) (bb : bbox)
    : option (sh_state * list de_ptr) :=
  match hash_version ss with
  | ssd_hash_version_v1 => ssd_hash_v1 ok fuel sh ss bb
  | ssd_hash_version_v2 => Some (ssd_hash_v2 ok sh ss bb)
  | ssd_hash_version_unknown => Some (sh, [])
  end.

Definition ssd_init (ss : sspace) (rank : nat) : sspace :=
  mk_ss (ss_ptr ss) (max_dim ss) (bpd ss) (ss_dht ss) rank rank (total_num_bbox ss) (hash_version ss).

(** The table and its entries are released with the space; the cache is
    shared by all spaces and is released too. *)
Definition ssd_free (sh : sh_state) (ss : sspace) : sh_state :=
  match hash_version ss with
  | ssd_hash_version_unknown => sh
  | _ => sh_free sh
  end.

(** ** Increasing lists of indices *)

Abbreviation flat := (fun l : list intv => l ≫= ielems).
Abbreviation incr := (StronglySorted Z.lt).

Lemma incr_app l1 l2 : incr (l1 ++ l2) <-> incr l1 /\ incr l2 /\ forall x y, x ∈ l1 -> y ∈ l2 -> x < y.
Proof.
  induction l1 as [|a l1 IH]; cbn [app].
  - split; [|tauto]. intros H. split; [constructor|]. split; [done|]. intros x y Hx. by apply not_elem_of_nil in Hx.
  - split.
    + intros [Hs Hf]%StronglySorted_inv. apply IH in Hs as (H1 & H2 & H3).
      apply Forall_app in Hf as [Hf1 Hf2]. rewrite list.Forall_forall in Hf2.
      split; [by constructor|]. split; [done|]. intros x y [->|Hx]%elem_of_cons Hy; auto.
    + intros ([Hs Hf]%StronglySorted_inv & H2 & H3). constructor.
      * apply IH. split; [done|]. split; [done|]. intros. apply H3; [by apply list_elem_of_further|done].
      * apply Forall_app. split; [done|]. apply list.Forall_forall. intros y Hy. apply H3; [apply list_elem_of_here|done].
Qed.

Lemma incr_seqZ a n : incr (seqZ a n).
Proof.
  destruct (Z.le_gt_cases n 0); [rewrite seqZ_nil by done; constructor|].
  revert a. remember (Z.to_nat n) as k. revert n H Heqk. induction k as [|k IH]; intros n Hn Hk a; [lia|].
  rewrite seqZ_cons by done. constructor.
  - destruct (Z.le_gt_cases (Z.pred n) 0); [rewrite seqZ_nil by done; constructor|apply IH; lia].
  - apply list.Forall_forall. intros y Hy%elem_of_seqZ. lia.
Qed.

Lemma flat_incr_before l : Forall intv_ok l -> incr (flat l) -> StronglySorted before l.
Proof.
  induction l as [|t l IH]; intros Hok Hi; [constructor|]. apply Forall_cons_iff in Hok as [Ht Hok].
  rewrite bind_cons in Hi. apply incr_app in Hi as (_ & Hi & Hlt). constructor; [auto|].
  apply list.Forall_forall. intros u Hu. rewrite list.Forall_forall in Hok. specialize (Hok u Hu).
  unfold intv_ok in *. apply Hlt.
  - apply elem_of_ielems. unfold in_intv. lia.
  - apply list_elem_of_bind. exists u. split; [|done]. apply elem_of_ielems. unfold in_intv. lia.
Qed.

Lemma before_flat_incr l : Forall intv_ok l -> StronglySorted before l -> incr (flat l).
Proof.
  induction l as [|t l IH]; intros Hok Hs; [constructor|]. apply Forall_cons_iff in Hok as [Ht Hok].
  apply StronglySorted_inv in Hs as [Hs Hf]. rewrite bind_cons. apply incr_app.
  split; [apply incr_seqZ|]. split; [auto|]. intros x y Hx%elem_of_ielems (u & Hy & Hu)%list_elem_of_bind.
  apply elem_of_ielems in Hy. rewrite list.Forall_forall in Hf. specialize (Hf u Hu).
  unfold in_intv, before in *. lia.
Qed.

Lemma incr_NoDup l : incr l -> NoDup l.
Proof.
  induction 1 as [|a l Hs IH Hf]; constructor; [|done]. intros Ha. rewrite list.Forall_forall in Hf.
  specialize (Hf a Ha). lia.
Qed.

(** ** Carving the table *)

Lemma length_ielems t : intv_ok t -> Z.of_nat (length (ielems t)) = iub t - ilb t + 1.
Proof. intros [H1 H2]. unfold ielems. rewrite length_seqZ. lia. Qed.

Lemma ielems_split t len : 0 <= len <= iub t - ilb t + 1 ->
  ielems (mk_intv (ilb t) (ilb t + len - 1)) ++ ielems (mk_intv (ilb t + len) (iub t)) = ielems t.
Proof.
  intros H. unfold ielems; cbn [ilb iub].
  replace (iub t - ilb t + 1) with (len + (iub t - (ilb t + len) + 1)) by lia.
  rewrite (seqZ_app _ len) by lia. f_equal; f_equal; lia.
Qed.

Lemma length_flat_cons t l : length (flat (t :: l)) = (length (ielems t) + length (flat l))%nat.
Proof. by rewrite bind_cons, length_app. Qed.

Lemma carve_spec tab : forall fuel len, Forall intv_ok tab -> Z.of_nat (length (flat tab)) < 2 ^ 64 ->
  0 <= len <= Z.of_nat (length (flat tab)) -> (S (length tab) < fuel)%nat ->
  exists p r, carve fuel len tab = Some (p, r) /\ flat p ++ flat r = flat tab /\
    Z.of_nat (length (flat p)) = len /\ Forall intv_ok p /\ Forall intv_ok r /\ (length p <= length tab)%nat.
Proof.
  induction tab as [|t tab IH]; intros fuel len Hok Hlt Hlen Hf;
    (destruct fuel as [|fuel]; [lia|]); cbn [carve].
  { cbn in Hlen. destruct (Z.ltb_spec 0 len); [lia|]. exists [], []. cbn. repeat split; try constructor; lia. }
  destruct (Z.ltb_spec 0 len) as [Hpos|Hz].
  2: { exists [], (t :: tab). split; [done|]. split; [done|]. split; [cbn; lia|]. split; [constructor|].
       split; [done|]. cbn. lia. }
  pose proof Hok as [Ht Hok']%Forall_cons_iff. pose proof (length_ielems t Ht) as Lt.
  rewrite length_flat_cons in *. pose proof Ht as [Ht1 Ht2].
  assert (intv_size t = iub t - ilb t + 1) as Sz by (unfold intv_size; apply u64_small; lia).
  rewrite Sz. destruct (Z.ltb_spec len (iub t - ilb t + 1)) as [Hl|Hl].
  - rewrite (u64_small (ilb t + len - 1)), (u64_small (ilb t + len)) by lia.
    unfold intv_size; cbn [ilb iub].
    replace (ilb t + len - 1 - ilb t + 1) with len by lia. rewrite (u64_small len), Z.sub_diag by lia.
    rewrite (u64_small 0) by lia. destruct fuel as [|fuel]; [lia|]. cbn [carve Z.ltb Z.compare mbind option_bind fst snd].
    eexists _, _. split; [done|]. rewrite !bind_cons. cbn [mbind list_bind]. rewrite app_nil_r.
    split; [|split; [|split; [|split]]].
    + by rewrite app_assoc, ielems_split by lia.
    + rewrite length_ielems; cbn; [lia|split; cbn; lia].
    + repeat constructor; cbn; lia.
    + constructor; [split; cbn; lia|done].
    + cbn. lia.
  - rewrite Sz, (u64_small (len - _)) by lia.
    destruct (IH fuel (len - (iub t - ilb t + 1))) as (p & r & -> & E & Lp & Hp & Hr & Hn); [done|lia|lia|cbn in Hf; lia|].
    cbn [mbind option_bind fst snd]. exists (t :: p), r. split; [done|]. rewrite bind_cons, <- app_assoc, E.
    split; [done|]. split; [rewrite length_app; lia|]. split; [by constructor|]. split; [done|]. cbn. lia.
Qed.

(** ** Entries of version 1 *)

Record entry_ok (sn : Z) (de : dht_entry) : Prop := {
  eo_ok : Forall intv_ok (de_i_tab de);
  eo_incr : incr (flat (de_i_tab de));
  eo_size : Z.of_nat (length (flat (de_i_tab de))) = sn;
  eo_virt : forall x, x ∈ flat (de_i_tab de) -> in_intv (i_virt de) x
}.

Lemma elem_of_flat l x : x ∈ flat l <-> exists t, t ∈ l /\ in_intv t x.
Proof.
  rewrite list_elem_of_bind. split; intros (t & H1 & H2); exists t; by rewrite elem_of_ielems in *.
Qed.

Lemma last_ge t l d : StronglySorted before (t :: l) -> Forall intv_ok (t :: l) ->
  forall u, u ∈ t :: l -> iub u <= iub (List.last (t :: l) d).
Proof.
  revert t. induction l as [|t' l IH]; intros t Hs Hok u Hu.
  { apply list_elem_of_singleton in Hu as ->. cbn. lia. }
  apply StronglySorted_inv in Hs as [Hs Hf]. apply Forall_cons_iff in Hok as [Ht Hok].
  change (List.last (t :: t' :: l) d) with (List.last (t' :: l) d).
  apply elem_of_cons in Hu as [->|Hu]; [|by apply IH].
  pose proof (IH t' Hs Hok t' (list_elem_of_here _ _)). apply Forall_cons_iff in Hf as [Hb _], Hok as [Ht' _].
  unfold before, intv_ok in *. lia.
Qed.

Lemma virt_spec t l x : Forall intv_ok (t :: l) -> incr (flat (t :: l)) -> x ∈ flat (t :: l) ->
  in_intv (mk_intv (ilb t) (iub (List.last (t :: l) t))) x.
Proof.
  intros Hok Hi Hx. pose proof (flat_incr_before _ Hok Hi) as Hs.
  apply elem_of_flat in Hx as (u & Hu & Hx). pose proof (last_ge t l t Hs Hok u Hu).
  unfold in_intv in *. cbn [ilb iub]. split; [|lia].
  apply elem_of_cons in Hu as [->|Hu]; [lia|]. apply StronglySorted_inv in Hs as [_ Hf].
  rewrite list.Forall_forall in Hf. specialize (Hf u Hu). apply Forall_cons_iff in Hok as [Ht _].
  unfold before, intv_ok in *. lia.
Qed.

Lemma hash_entries_spec ok sn ents : (forall j, ok j = true) -> 0 < sn -> forall i tab,
  Forall intv_ok tab -> incr (flat tab) -> Z.of_nat (length (flat tab)) < 2 ^ 64 ->
  sn * Z.of_nat (length ents) <= Z.of_nat (length (flat tab)) ->
  exists es, hash_entries ok sn ents i tab = Some (inr es) /\ length es = length ents /\
    Forall (entry_ok sn) es /\
    (es ≫= fun de => flat (de_i_tab de)) = take (Z.to_nat (sn * Z.of_nat (length ents))) (flat tab) /\
    forall j de, es !! j = Some de -> de_rank de = Z.of_nat (i + j).
Proof.
  intros Hok Hsn. induction ents as [|de ents IH]; intros i tab Ht Hi Hlt Hlen; cbn [hash_entries length].
  { exists []. rewrite Z.mul_0_r. repeat split; try done. }
  rewrite Hok. destruct (carve_spec tab (S (S (length tab))) sn) as (p & r & -> & E & Lp & Hp & Hr & _);
    [done|done|cbn [length] in Hlen; lia|lia|].
  cbn [mbind option_bind fst snd]. destruct p as [|t0 p]; [cbn in Lp; lia|]. rewrite Hok.
  assert (incr (flat (t0 :: p)) /\ incr (flat r)) as [Hip Hir].
  { rewrite <- E in Hi. by apply incr_app in Hi as (? & ? & _). }
  assert (Z.of_nat (length (flat tab)) = sn + Z.of_nat (length (flat r))) as El
    by (rewrite <- E, length_app; lia).
  destruct (IH (S i) r) as (es & -> & Les & Hes & Ees & Hrk); [done|done|lia|cbn [length] in Hlen; lia|].
  cbn [mbind option_bind]. eexists. split; [done|]. cbn [length]. split; [by rewrite Les|].
  split; [|split].
  - constructor; [|done]. constructor; cbn [set_intv de_i_tab i_virt]; try done.
    intros x Hx. by apply virt_spec.
  - rewrite bind_cons. cbn [set_intv de_i_tab]. rewrite Ees, <- E.
    rewrite take_app. f_equal; [symmetry; apply take_ge; lia|]. f_equal. lia.
  - intros [|j] de'; cbn [lookup list_lookup]; intros Hj.
    + injection Hj as <-. cbn. lia.
    + rewrite (Hrk j de' Hj). lia.
Qed.

(** [dht_intersect] decides whether the interval and the entry share an
    index. *)
Lemma dht_intersect_spec sn de itv : entry_ok sn de -> intv_ok itv ->
  dht_intersect de itv = true <-> exists x, x ∈ flat (de_i_tab de) /\ in_intv itv x.
Proof.
  intros [Hok Hi _ Hv] Ht. unfold dht_intersect. rewrite list.Forall_forall in Hok. split.
  - destruct (_ || _); [done|]. intros (t & Htin & Hx)%existsb_exists. apply list_elem_of_In in Htin.
    pose proof (Hok t Htin) as [? ?]. destruct Ht. apply intv_do_intersect_points in Hx as (x & Hx1 & Hx2); [|lia..].
    exists x. split; [|done]. apply elem_of_flat. eauto.
  - intros (x & Hx & Hxi). pose proof (Hv x Hx) as Hvx. apply elem_of_flat in Hx as (t & Htin & Hx).
    pose proof (Hok t Htin) as [? ?]. destruct Ht. unfold in_intv in *.
    destruct (Z.ltb_spec (iub itv) (ilb (i_virt de))); [lia|].
    destruct (Z.ltb_spec (iub (i_virt de)) (ilb itv)); [lia|]. cbn [orb].
    apply existsb_exists. exists t. split; [by apply list_elem_of_In|].
    apply intv_do_intersect_points; [lia..|]. by exists x.
Qed.

(** ** The space of version 1 *)

(** Entry [k] of the space is responsible for index [x]. *)
Definition owns (ss : sspace) (k : nat) (x : Z) : Prop :=
  exists de, ent_tab (ss_dht ss) !! k = Some de /\ x ∈ flat (de_i_tab de).

Record v1_inv (n k : nat) (sn : Z) (ss : sspace) : Prop := {
  v1_dim : max_dim ss = 2 ^ Z.of_nat k;
  v1_ver : hash_version ss = ssd_hash_version_v1;
  v1_len : length (ent_tab (ss_dht ss)) = num_entries (ss_dht ss);
  v1_ents : Forall (entry_ok sn) (ent_tab (ss_dht ss));
  v1_incr : incr (ent_tab (ss_dht ss) ≫= fun de => flat (de_i_tab de))
}.

(** An index belongs to one entry only. *)
Lemma owns_unique n k sn ss i j x : v1_inv n k sn ss -> owns ss i x -> owns ss j x -> i = j.
Proof.
  intros I (di & Hi & Hxi) (dj & Hj & Hxj). pose proof (v1_incr _ _ _ _ I) as Hs. revert Hs Hi Hj.
  generalize (ent_tab (ss_dht ss)). intros es. revert i j.
  assert (forall es j x dj, es !! j = Some dj -> x ∈ flat (de_i_tab dj) -> x ∈ es ≫= fun de => flat (de_i_tab de)) as Hin.
  { intros es' j' x' dj' Hj' Hx'. apply list_elem_of_bind. exists dj'. split; [done|]. by eapply list_elem_of_lookup_2. }
  induction es as [|e es IH]; intros i j Hs Hi Hj; [done|]. rewrite bind_cons in Hs.
  apply incr_app in Hs as (_ & Hs & Hlt).
  destruct i as [|i], j as [|j]; cbn in Hi, Hj; [done| | |f_equal; by apply IH].
  - injection Hi as ->. pose proof (Hlt x x Hxi (Hin _ _ _ _ Hj Hxj)). lia.
  - injection Hj as ->. pose proof (Hlt x x Hxj (Hin _ _ _ _ Hi Hxi)). lia.
Qed.

Lemma hash_hits_elem ss i_tab i k :
  (i, k) ∈ hash_hits ss i_tab <-> i = ss_ptr ss /\ (k < num_entries (ss_dht ss))%nat /\
    exists de, ent_tab (ss_dht ss) !! k = Some de /\ existsb (dht_intersect de) i_tab = true.
Proof.
  unfold hash_hits. rewrite list_elem_of_omap. split.
  - intros (k' & Hk & E). apply elem_of_seq in Hk. destruct (ent_tab (ss_dht ss) !! k') as [de|] eqn:Ed; [|done].
    cbn in E. destruct (existsb _ _) eqn:Ex; [|done]. injection E as <- <-. split; [done|]. split; [lia|]. eauto.
  - intros (-> & Hk & de & Hd & Hx). exists k. split; [apply elem_of_seq; lia|]. rewrite Hd. cbn. by rewrite Hx.
Qed.

Section hash_v1.
Context (n k : nat) (sn : Z) (ss : sspace) (I : v1_inv n k sn ss).

(** The entries for a box are those that own one of its cells. *)
Lemma hash_hits_spec bb i_tab : covers i_tab (hilbert_c2i n (S k) <$> points bb) -> wf_bbox bb ->
  forall i j, (i, j) ∈ hash_hits ss i_tab <->
    i = ss_ptr ss /\ exists p, in_box bb p /\ owns ss j (hilbert_c2i n (S k) p).
Proof.
  intros (Hok & _ & P) Hw i j. rewrite hash_hits_elem. rewrite list.Forall_forall in Hok.
  pose proof (v1_ents _ _ _ _ I) as He. rewrite list.Forall_forall in He. split.
  - intros (-> & Hj & de & Hd & (t & Ht & Hx)%existsb_exists). split; [done|]. apply list_elem_of_In in Ht.
    apply (dht_intersect_spec sn) in Hx as (x & Hx & Htx);
      [|by eapply He, list_elem_of_lookup_2|by apply Hok].
    assert (x ∈ hilbert_c2i n (S k) <$> points bb) as Hxp by (rewrite <- P; apply elem_of_flat; eauto).
    apply list_elem_of_fmap in Hxp as (p & -> & Hp). apply elem_of_points in Hp; [|done].
    exists p. split; [done|]. by exists de.
  - intros (-> & p & Hp & de & Hd & Hx). split; [done|]. pose proof (lookup_lt_Some _ _ _ Hd) as Hlt.
    rewrite (v1_len _ _ _ _ I) in Hlt. split; [done|]. exists de. split; [done|].
    assert (hilbert_c2i n (S k) p ∈ flat i_tab) as Hxp.
    { rewrite P. apply list_elem_of_fmap_2. by apply elem_of_points. }
    apply elem_of_flat in Hxp as (t & Ht & Htx). apply existsb_exists. exists t.
    split; [by apply list_elem_of_In|]. apply (dht_intersect_spec sn); [by eapply He, list_elem_of_lookup_2|by apply Hok|eauto].
Qed.

(** The cache only holds answers of this space. *)
Definition cache_ok (sh : sh_state) : Prop := forall shc, shc ∈ sfc_hash_list sh ->
  wf_bbox (sh_bb shc) /\ forall i j, (i, j) ∈ sh_de_tab shc <->
    i = ss_ptr ss /\ exists p, in_box (sh_bb shc) p /\ owns ss j (hilbert_c2i n (S k) p).

Lemma ssd_hash_v1_spec ok fuel sh bb : cache_ok sh -> intv_pre n k bb -> (n <= 11)%nat -> (cube_cost n k <= fuel)%nat ->
  exists sh' de_tab, ssd_hash ok fuel sh ss bb = Some (sh', de_tab) /\ cache_ok sh' /\
    forall i j, (i, j) ∈ de_tab <-> i = ss_ptr ss /\ exists p, in_box bb p /\ owns ss j (hilbert_c2i n (S k) p).
Proof.
  intros Hc Hp Hn Hf. unfold ssd_hash. rewrite (v1_ver _ _ _ _ I). unfold ssd_hash_v1.
  assert (exists tab, bbox_to_intv2 fuel bb (max_dim ss) = Some (tab, length tab) /\
    covers tab (hilbert_c2i n (S k) <$> points bb)) as (tab & Et & Hcov).
  { rewrite (v1_dim _ _ _ _ I), bbox_to_intv2_eq by (by rewrite (pre_dims _ _ _ Hp)). by apply bbox_to_intv_covers. }
  pose proof (hash_hits_spec bb tab Hcov (pre_wf _ _ _ Hp)) as Hh.
  assert (exists sh' de_tab, (r ← bbox_to_intv2 fuel bb (max_dim ss);
      let de_tab := hash_hits ss (fst r) in Some (fst (sh_add ok sh bb de_tab), de_tab)) = Some (sh', de_tab) /\
    cache_ok sh' /\ forall i j, (i, j) ∈ de_tab <->
      i = ss_ptr ss /\ exists p, in_box bb p /\ owns ss j (hilbert_c2i n (S k) p)) as Hmiss.
  { rewrite Et. cbn [mbind option_bind fst]. eexists _, _. split; [done|]. split; [|done].
    unfold sh_add. destruct ok; [|done]. cbn [fst]. intros shc Hs. cbn [sfc_hash_list] in Hs.
    apply elem_of_app in Hs as [Hs|Hs%list_elem_of_singleton]; [by apply Hc|]. subst shc. cbn [sh_bb sh_de_tab].
    split; [apply Hp|done]. }
  unfold sh_find. pose proof (find_spec (fun shc => bbox_equals bb (sh_bb shc)) (sfc_hash_list sh)) as Hfind.
  destruct (List.find _ _) as [shc|]; [|done]. destruct Hfind as [Hin Heq]. cbn [fmap option_fmap option_map].
  destruct (Hc shc Hin) as [Hw Hs]. destruct (sh_de_tab shc) as [|d de_tab]; [done|].
  apply bbox_equals_true in Heq; [|apply Hp|done]. exists sh, (d :: de_tab). split; [done|]. split; [done|].
  by rewrite Heq.
Qed.
End hash_v1.

(** ** Allocation of version 1 *)

Lemma alloc_entries_all ok n i sh : (forall j, ok j = true) -> alloc_entries ok n i sh = replicate n (dht_entry_alloc sh).
Proof.
  intros Hok. revert i. induction n as [|n IH]; intros i; [done|]. cbn. rewrite Hok, IH. done.
Qed.

Lemma dht_alloc_all ok bb n sh : (forall j, ok j = true) ->
  fst (dht_alloc ok bb n sh) = Some (mk_dht bb n (replicate n (dht_entry_alloc sh))).
Proof.
  intros Hok. unfold dht_alloc. rewrite Hok, alloc_entries_all by done.
  by rewrite length_replicate, Nat.eqb_refl.
Qed.

Lemma fold_max_spec (f : nat -> Z) l m : let r := fold_left (fun m i => max (f i) m) l m in
  m <= r /\ (forall i, i ∈ l -> f i <= r) /\ (r = m \/ exists i, i ∈ l /\ r = f i).
Proof.
  revert m. induction l as [|a l IH]; intros m; cbn [fold_left].
  - split; [lia|]. split; [|by left]. intros i Hi. by apply not_elem_of_nil in Hi.
  - destruct (IH (max (f a) m)) as (H1 & H2 & H3). rewrite max_spec in *. split; [lia|]. split.
    + intros i [->|Hi]%elem_of_cons; [lia|auto].
    + destruct H3 as [->|(i & Hi & ->)].
      * destruct (Z.max_spec (f a) m) as [[_ ->]|[_ ->]]; [by left|]. right. exists a. split; [apply list_elem_of_here|done].
      * right. exists i. split; [by apply list_elem_of_further|done].
Qed.

Lemma domain_max_dim_spec b : wf_bbox b -> (1 <= num_dims b)%nat ->
  1 <= domain_max_dim b < 2 ^ 64 /\ forall i, (i < num_dims b)%nat -> cget (ub b) i <= domain_max_dim b.
Proof.
  intros (_ & _ & Hw) Hn. unfold domain_max_dim.
  destruct (fold_max_spec (fun i => cget (ub b) i) (seq 1 (num_dims b - 1)) (cget (ub b) 0)) as (H1 & H2 & H3).
  cbv zeta in *. set (m := fold_left _ _ _) in *. pose proof (Hw 0%nat ltac:(lia)) as H0.
  assert (0 <= m < 2 ^ 64) as Hm.
  { split; [lia|]. destruct H3 as [->|(i & Hi & ->)]; [lia|]. apply elem_of_seq in Hi.
    specialize (Hw i ltac:(lia)). lia. }
  assert (forall i, (i < num_dims b)%nat -> cget (ub b) i <= m) as Hle.
  { intros [|i] Hi; [done|]. apply H2, elem_of_seq. lia. }
  destruct (Z.eqb_spec m 0) as [E|E]; (split; [lia|]); [|done]. intros i Hi. specialize (Hle i Hi). lia.
Qed.

(** The domains the first version is proved for: [k] bits enclose every
    coordinate, and an index of [num_dims * (k+1)] bits fits the word. *)
Record domain_ok (n k : nat) (dom : bbox) : Prop := {
  dm_wf : wf_bbox dom;
  dm_dims : num_dims dom = n;
  dm_n : (1 <= n <= 11)%nat;
  dm_k : Z.of_nat k = Z.log2 (domain_max_dim dom) + 1;
  dm_k31 : (k <= 31)%nat;
  dm_nk : (n * S k <= 64)%nat
}.

Lemma domain_pow n k dom : domain_ok n k dom ->
  next_pow_2 (domain_max_dim dom) = 2 ^ Z.of_nat k /\ domain_max_dim dom < 2 ^ Z.of_nat k.
Proof.
  intros [Hw Hd Hn Hk H31 Hnk]. destruct (domain_max_dim_spec dom Hw ltac:(lia)) as [Hm _].
  pose proof (Z.log2_spec (domain_max_dim dom) ltac:(lia)) as [L1 L2].
  assert (2 ^ (Z.log2 (domain_max_dim dom) + 1) <= 2 ^ 31) by (apply Z.pow_le_mono_r; lia).
  rewrite Z.add_1_r in *. rewrite Hk. split; [|lia].
  rewrite next_pow_2_log2 by lia. f_equal.
Qed.

Lemma domain_intv_pre n k dom : domain_ok n k dom -> intv_pre n k dom.
Proof.
  intros Hd. pose proof (domain_pow _ _ _ Hd) as [_ Hlt]. destruct Hd as [Hw Hd Hn Hk H31 Hnk].
  destruct (domain_max_dim_spec dom Hw ltac:(lia)) as [Hm Hle].
  pose proof (Z.log2_nonneg (domain_max_dim dom)).
  constructor; try done; try lia. intros i Hi. rewrite <- Hd in Hi. specialize (Hle i Hi). lia.
Qed.

Lemma gap_before l : StronglySorted gap l -> StronglySorted before l.
Proof.
  induction 1 as [|t l Hs IH Hf]; constructor; [done|]. eapply list.Forall_impl; [done|].
  unfold gap, before. intros u Hu. cbn in Hu. lia.
Qed.

Lemma covers_incr tab idx : covers tab idx -> Forall intv_ok tab /\ incr (flat tab) /\ flat tab ≡ₚ idx.
Proof. intros (H1 & H2 & H3). split; [done|]. split; [|done]. by apply before_flat_incr, gap_before. Qed.

(** What [ssd_alloc] builds: the entries, in order, take consecutive runs of
    [sn] indices of the increasing list of the indices of the domain. *)
Lemma ssd_alloc_v1_spec ok fuel ptr n k dom N mv : (forall j, ok j = true) -> domain_ok n k dom ->
  (1 <= N)%nat -> Z.of_nat N <= box_card dom < 2 ^ 64 -> (cube_cost n k <= fuel)%nat ->
  let sn := box_card dom / Z.of_nat N in
  exists ss idx, ssd_alloc ok fuel ptr dom N mv ssd_hash_version_v1 = Some (Some ss) /\
    v1_inv n k sn ss /\ num_entries (ss_dht ss) = N /\ ss_ptr ss = ptr /\ 0 < sn /\
    incr idx /\ idx ≡ₚ hilbert_c2i n (S k) <$> points dom /\
    (ent_tab (ss_dht ss) ≫= fun de => flat (de_i_tab de)) = take (Z.to_nat (sn * Z.of_nat N)) idx /\
    forall j de, ent_tab (ss_dht ss) !! j = Some de -> de_rank de = Z.of_nat j.
Proof.
  intros Hok Hd HN Hcard Hf sn. pose proof (domain_intv_pre _ _ _ Hd) as Hp.
  destruct (domain_pow _ _ _ Hd) as [Hpow _].
  assert (0 < sn) as Hsn by (subst sn; apply Z.div_str_pos; lia).
  destruct (bbox_to_intv_covers n k dom Hp fuel Hf) as (tab & Et & Hcov).
  destruct (covers_incr _ _ Hcov) as (Htok & Htinc & Htp).
  assert (Z.of_nat (length (flat tab)) = box_card dom) as Hlen.
  { rewrite Htp, length_fmap. apply length_points, Hp. }
  destruct (hash_entries_spec (fun i => ok (1 + N + i)%nat) sn (replicate N (dht_entry_alloc mv)) (fun j => Hok _) Hsn 0 tab)
    as (es & Ee & Les & Hes & Efl & Hrk); [done|done|lia| |].
  { rewrite length_replicate, Hlen. subst sn. rewrite Z.mul_comm. apply Z.mul_div_le. lia. }
  rewrite length_replicate in *.
  eexists _, (flat tab). split.
  - cbn [ssd_alloc]. unfold ssd_alloc_v1. rewrite dht_alloc_all by done. rewrite Hpow.
    unfold dht_construct_hash. cbn [bb_glb_domain num_entries ent_tab]. rewrite Et. cbn [mbind option_bind fst].
    rewrite bbox_volume_mod, u64_small by lia. fold sn. rewrite Ee. cbn [mbind option_bind fst snd Z.ltb Z.compare]. done.
  - cbn [ss_dht num_entries ss_ptr ent_tab]. split.
    + constructor; cbn [max_dim hash_version ss_dht ent_tab num_entries]; try done.
      rewrite Efl. rewrite <- (take_drop (Z.to_nat (sn * Z.of_nat N)) (flat tab)) in Htinc.
      by apply incr_app in Htinc as (? & _).
    + do 6 (split; [done|]). intros j de Hj. apply (Hrk j de Hj).
Qed.

(** ** Bisection *)

(** A box whose extent may be empty in some dimensions. *)
Definition qwf (n : nat) (b : bbox) : Prop :=
  num_dims b = n /\ length (lb b) = n /\ length (ub b) = n /\
  forall i, (i < n)%nat -> 0 <= cget (lb b) i <= cget (ub b) i + 1 /\ 0 <= cget (ub b) i < 2 ^ 63.

Lemma divide_in2_qwf n b dim : qwf n b -> (dim < n)%nat ->
  let '(b0, b1) := bbox_divide_in2_ondim b dim in
  qwf n b0 /\ qwf n b1 /\
  forall p, (in_box b p <-> in_box b0 p \/ in_box b1 p) /\ ~ (in_box b0 p /\ in_box b1 p).
Proof.
  intros (Hd & Hl & Hu & Hw) Hdim. unfold bbox_divide_in2_ondim. pose proof (Hw dim Hdim) as Hx.
  rewrite u64_small, Z.shiftr_div_pow2 by lia. change (2 ^ 1) with 2.
  set (m := (cget (lb b) dim + cget (ub b) dim) / 2).
  assert (cget (lb b) dim <= m + 1 /\ m <= cget (ub b) dim /\ 0 <= m) as Hm
    by (unfold m; Z.to_euclidean_division_equations; lia).
  rewrite u64_small by lia. unfold qwf, in_box; cbn [num_dims lb ub]. rewrite !length_insert. rewrite Hd.
  split; [|split].
  - do 3 (split; [done|]). intros i Hi. specialize (Hw i Hi). destruct (decide (dim = i)) as [<-|];
      rewrite ?cget_insert_eq, ?cget_insert_ne by (done || lia); lia.
  - do 3 (split; [done|]). intros i Hi. specialize (Hw i Hi). destruct (decide (dim = i)) as [<-|];
      rewrite ?cget_insert_eq, ?cget_insert_ne by (done || lia); lia.
  - intros p. split.
    + split.
      * intros [Hp H]. destruct (Z.le_gt_cases (cget p dim) m); [left|right]; (split; [done|]); intros i Hi;
          specialize (H i Hi); destruct (decide (dim = i)) as [<-|];
          rewrite ?cget_insert_eq, ?cget_insert_ne by (done || lia); lia.
      * intros [[Hp H]|[Hp H]]; (split; [done|]); intros i Hi; specialize (H i Hi);
          destruct (decide (dim = i)) as [<-|]; rewrite ?cget_insert_eq, ?cget_insert_ne in H by (done || lia); lia.
    + intros [[_ H0] [_ H1]]. specialize (H0 dim Hdim). specialize (H1 dim Hdim).
      rewrite cget_insert_eq in H0, H1 by lia. lia.
Qed.

Lemma max_dim_size_lt n b dim : num_dims b = n -> (dim < n)%nat -> (snd (get_bbox_max_dim_size b dim) < n)%nat.
Proof.
  intros <- Hd. unfold get_bbox_max_dim_size.
  enough (forall l (st : Z * nat), (forall i, i ∈ l -> (i < num_dims b)%nat) -> (snd st < num_dims b)%nat ->
    (snd (fold_left (fun (st : Z * nat) i => let size := u64 (cget (ub b) i - cget (lb b) i + 1)%Z in
       if (fst st <? size)%Z then (size, i) else st) l st) < num_dims b)%nat) as H.
  { apply H; [|done]. intros i Hi%elem_of_seq. lia. }
  induction l as [|i l IH]; intros st Hl Hs; [done|]. cbn [fold_left]. apply IH.
  - intros j Hj. apply Hl. by apply list_elem_of_further.
  - case_if; [|done]. cbn. apply Hl, list_elem_of_here.
Qed.

(** How many of the boxes contain the cell. *)
Definition cover_count (l : list bbox) (p : list Z) : nat := length (filter (fun b => in_box b p) l).

Lemma cover_count_cons b l p :
  cover_count (b :: l) p = ((if decide (in_box b p) then 1 else 0) + cover_count l p)%nat.
Proof. unfold cover_count. rewrite filter_cons. by destruct (decide (in_box b p)). Qed.

Lemma bisect_queue_spec n src : forall dim, Forall (qwf n) src -> (dim < n)%nat ->
  let '(dst, dim') := bisect_queue src dim in
  Forall (qwf n) dst /\ (dim' < n)%nat /\ length dst = (2 * length src)%nat /\
  forall p, cover_count dst p = cover_count src p.
Proof.
  induction src as [|b src IH]; intros dim Hq Hd; cbn [bisect_queue]; [done|].
  apply Forall_cons_iff in Hq as [Hb Hq].
  pose proof (max_dim_size_lt n b dim (proj1 Hb) Hd) as Hd'. set (dim' := snd _) in *.
  pose proof (divide_in2_qwf n b dim' Hb Hd') as Hdiv.
  destruct (bbox_divide_in2_ondim b dim') as [b1 b2]. destruct Hdiv as (H1 & H2 & Hp).
  specialize (IH dim' Hq Hd'). destruct (bisect_queue src dim') as [dst dim2].
  destruct IH as (IH1 & IH2 & IH3 & IH4). split; [by do 2 (apply Forall_cons_iff; split; [done|])|]. split; [done|].
  split; [cbn [length]; lia|]. intros p. rewrite !cover_count_cons, IH4. destruct (Hp p) as [Hor Hnot].
  destruct (decide (in_box b p)), (decide (in_box b1 p)), (decide (in_box b2 p)); (lia || tauto).
Qed.

Lemma bisect_iter_spec n m : forall q1 q2 dim, (dim < n)%nat -> Forall (qwf n) (q1 ++ q2) ->
  (q1 <> [] /\ q2 = [] \/ q1 = [] /\ q2 <> []) ->
  exists q1' q2' dim', bisect_iter m (q1, q2, dim) = Some (q1', q2', dim') /\ Forall (qwf n) (q1' ++ q2') /\
    (q1' <> [] /\ q2' = [] \/ q1' = [] /\ q2' <> []) /\
    length (q1' ++ q2') = (2 ^ m * length (q1 ++ q2))%nat /\
    forall p, cover_count (q1' ++ q2') p = cover_count (q1 ++ q2) p.
Proof.
  induction m as [|m IH]; intros q1 q2 dim Hd Hq Hne; cbn [bisect_iter].
  { exists q1, q2, dim. split; [done|]. split; [done|]. split; [done|]. split; [cbn; lia|done]. }
  destruct Hne as [[Hne ->]|[-> Hne]]; rewrite ?app_nil_r in *; cbn [app] in *.
  - pose proof (bisect_queue_spec n q1 dim Hq Hd) as HB. unfold bisect_step.
    destruct q1 as [|b q1]; [done|]. destruct (bisect_queue (b :: q1) dim) as [dst dim'].
    destruct HB as (HB1 & HB2 & HB3 & HB4). cbn [mbind option_bind].
    destruct (IH [] dst dim') as (a & c & d & E & R1 & R2 & R3 & R4); [done|done| |].
    { right. split; [done|]. intros ->. done. }
    exists a, c, d. cbn [app] in *. do 3 (split; [done|]). split; [|intros; by rewrite R4, HB4].
    rewrite R3, HB3. cbn [Nat.pow]. lia.
  - pose proof (bisect_queue_spec n q2 dim Hq Hd) as HB. unfold bisect_step.
    destruct q2 as [|b q2]; [done|]. destruct (bisect_queue (b :: q2) dim) as [dst dim'].
    destruct HB as (HB1 & HB2 & HB3 & HB4). cbn [mbind option_bind].
    destruct (IH dst [] dim') as (a & c & d & E & R1 & R2 & R3 & R4); rewrite ?app_nil_r in *; [done|done| |].
    { left. split; [|done]. intros ->. done. }
    exists a, c, d. do 3 (split; [done|]). split; [|intros; by rewrite R4, HB4].
    rewrite R3, HB3. cbn [Nat.pow]. lia.
Qed.

(** ** Dealing the boxes out *)

Lemma mjoin_insert_proper {A} (h : list (list A)) i l l' : (i < length h)%nat -> l ≡ₚ l' ->
  mjoin (<[i := l]> h) ≡ₚ mjoin (<[i := l']> h).
Proof.
  revert i. induction h as [|l0 h IH]; intros i Hi P; [done|]. destruct i as [|i].
  - change (l ++ mjoin h ≡ₚ l' ++ mjoin h). by rewrite P.
  - change (l0 ++ mjoin (<[i := l]> h) ≡ₚ l0 ++ mjoin (<[i := l']> h)). rewrite (IH i); [done|cbn in Hi; lia|done].
Qed.

(** After [i] boxes the first [i mod N] tables hold one box more. *)
Definition dealt (N i : nat) (tabs : list (list bbox)) : Prop :=
  length tabs = N /\ forall j t, tabs !! j = Some t ->
    length t = (i / N + if (j <? i mod N)%nat then 1 else 0)%nat.

Lemma deal_spec N size q : (1 <= N)%nat -> forall i tabs, dealt N i tabs ->
  (i + length q <= size * N)%nat ->
  exists tabs', deal i q tabs size = Some tabs' /\ length tabs' = N /\
    mjoin tabs' ≡ₚ mjoin tabs ++ q /\ Forall (fun t => (length t <= size)%nat) tabs'.
Proof.
  intros HN. induction q as [|b q IH]; intros i tabs [Hl Hc] Hs; cbn [deal].
  - exists tabs. split; [done|]. split; [done|]. split; [by rewrite app_nil_r|].
    apply list.Forall_forall. intros t (j & Hj)%list_elem_of_lookup. rewrite (Hc j t Hj).
    cbn [length] in Hs. pose proof (Nat.div_mod_eq i N). pose proof (Nat.mod_upper_bound i N ltac:(lia)).
    destruct (Nat.ltb_spec j (i mod N)); nia.
  - rewrite Hl. pose proof (Nat.mod_upper_bound i N ltac:(lia)) as Hm.
    destruct (lookup_lt_is_Some_2 tabs (i mod N)%nat) as [t Ht]; [lia|]. rewrite Ht. cbn [mbind option_bind].
    pose proof (Hc _ _ Ht) as Lt. rewrite Nat.ltb_irrefl, Nat.add_0_r in Lt.
    cbn [length] in Hs. pose proof (Nat.div_mod_eq i N) as Hdm.
    destruct (Nat.ltb_spec (length t) size); [|nia].
    destruct (IH (S i) (<[(i mod N)%nat := t ++ [b]]> tabs)) as (tabs' & E & L & P & F); [|lia|].
    + split; [by rewrite length_insert|]. intros j tj Hj.
      assert (S i / N = (if S (i mod N) <? N then i / N else S (i / N)) /\
              S i mod N = (if S (i mod N) <? N then S (i mod N) else 0))%nat as [-> ->].
      { destruct (Nat.ltb_spec (S (i mod N)) N).
        - split; [symmetry; apply (Nat.div_unique _ _ _ (S (i mod N))); lia|].
          symmetry. apply (Nat.mod_unique _ _ (i / N)); lia.
        - split; [symmetry; apply (Nat.div_unique _ _ _ 0); nia|].
          symmetry. apply (Nat.mod_unique _ _ (S (i / N))); nia. }
      apply list_lookup_insert_Some in Hj as [(<- & <- & _)|[Hne Hj]].
      * rewrite length_app. cbn [length]. rewrite Lt.
        destruct (Nat.ltb_spec (S (i mod N)) N);
          [destruct (Nat.ltb_spec (i mod N) (S (i mod N))); lia|cbn; lia].
      * rewrite (Hc _ _ Hj). pose proof (lookup_lt_Some _ _ _ Hj).
        destruct (Nat.ltb_spec (S (i mod N)) N), (Nat.ltb_spec j (i mod N));
          try destruct (Nat.ltb_spec j (S (i mod N))); cbn; lia.
    + exists tabs'. split; [done|]. split; [done|]. split; [|done]. rewrite P.
      assert (mjoin (<[(i mod N)%nat := t ++ [b]]> tabs) ≡ₚ b :: mjoin tabs) as ->.
      { rewrite <- (mjoin_insert_perm tabs _ t b Ht). apply (mjoin_insert_proper tabs); [by eapply lookup_lt_Some|].
        by rewrite Permutation_app_comm. }
      cbn [app]. apply Permutation_middle.
Qed.

(** ** The space of version 2 *)

Lemma next_pow_2_v2_loop_some fuel j n : n <= 2 ^ 63 -> 63 <= j + Z.of_nat fuel -> 0 <= j <= 63 ->
  exists r, next_pow_2_v2_loop fuel (2 ^ j) n = Some r.
Proof.
  revert j. induction fuel as [|fuel IH]; intros j Hn Hj Hr; cbn [next_pow_2_v2_loop].
  - assert (j = 63) as -> by lia. destruct (Z.ltb_spec (2 ^ 63) n); [lia|eauto].
  - destruct (Z.ltb_spec (2 ^ j) n); [|eauto].
    assert (j < 63) by (destruct (Z.eq_dec j 63) as [->|]; lia).
    assert (Z.shiftl (2 ^ j) 1 = 2 ^ (j + 1)) as ->.
    { rewrite Z.shiftl_mul_pow2, Z.pow_add_r by lia. lia. }
    assert (2 ^ (j + 1) <= 2 ^ 63) by (apply Z.pow_le_mono_r; lia). assert (0 < 2 ^ (j + 1)) by lia.
    rewrite u64_small by lia. apply IH; lia.
Qed.

Lemma next_pow_2_v2_some n : n <= 2 ^ 63 -> exists r, next_pow_2_v2 n = Some r.
Proof. intros. apply (next_pow_2_v2_loop_some 64 0); lia. Qed.

Lemma get_bbox_max_dim_spec n b dim : qwf n b -> (dim < n)%nat ->
  fst (get_bbox_max_dim b dim) < 2 ^ 63 /\ (snd (get_bbox_max_dim b dim) < n)%nat.
Proof.
  intros (Hd & _ & _ & Hw) Hdim. unfold get_bbox_max_dim. rewrite Hd.
  enough (forall l (st : Z * nat), (forall i, i ∈ l -> (i < n)%nat) -> fst st < 2 ^ 63 /\ (snd st < n)%nat ->
    let r := fold_left (fun (st : Z * nat) i => if fst st <? cget (ub b) i then (cget (ub b) i, i) else st) l st in
    fst r < 2 ^ 63 /\ (snd r < n)%nat) as H.
  { apply H; [|cbn; lia]. intros i Hi%elem_of_seq. lia. }
  induction l as [|i l IH]; intros st Hl Hs; [done|]. cbn [fold_left]. apply IH.
  - intros j Hj. apply Hl. by apply list_elem_of_further.
  - pose proof (Hl i (list_elem_of_here _ _)) as Hi. case_if; [|done]. cbn. split; [apply Hw, Hi|done].
Qed.

(** Box [b] of entry [k] is responsible for its cells. *)
Definition owns2 (ss : sspace) (k : nat) (p : list Z) : Prop :=
  exists de b, ent_tab (ss_dht ss) !! k = Some de /\ b ∈ bb_tab de /\ in_box b p.

Record v2_inv (n N : nat) (dom : bbox) (ss : sspace) : Prop := {
  v2_ver : hash_version ss = ssd_hash_version_v2;
  v2_num : num_entries (ss_dht ss) = N;
  v2_len : length (ent_tab (ss_dht ss)) = N;
  v2_room : Forall (fun de => (length (bb_tab de) <= size_bb_tab de)%nat) (ent_tab (ss_dht ss));
  v2_dims : Forall (fun de => Forall (qwf n) (bb_tab de)) (ent_tab (ss_dht ss));
  v2_once : forall p, cover_count (ent_tab (ss_dht ss) ≫= bb_tab) p = if decide (in_box dom p) then 1%nat else 0%nat
}.

Lemma zip_set_bbtab m : forall N i des tabs, length des = N -> length tabs = N ->
  let ents := zip_with (fun i '(de, t) => set_bbtab de i m t) (seq i N) (zip des tabs) in
  bb_tab <$> ents = tabs /\ length ents = N /\ Forall (fun de => size_bb_tab de = m) ents.
Proof.
  induction N as [|N IH]; intros i des tabs H1 H2.
  - destruct des, tabs; try done.
  - destruct des as [|de des], tabs as [|t tabs]; try done. cbn in H1, H2.
    destruct (IH (S i) des tabs ltac:(lia) ltac:(lia)) as (E1 & E2 & E3).
    cbn [seq zip zip_with fmap list_fmap length]. split; [|split].
    + cbn. f_equal. exact E1.
    + cbn. f_equal. exact E2.
    + constructor; [done|]. exact E3.
Qed.

Lemma cover_count_perm l l' p : l ≡ₚ l' -> cover_count l p = cover_count l' p.
Proof. intros P. unfold cover_count. by rewrite P. Qed.

Lemma ceil_mul_ge a N : (1 <= N)%nat -> (a <= (a + N - 1) / N * N)%nat.
Proof.
  intros HN. pose proof (Nat.div_mod_eq (a + N - 1) N). pose proof (Nat.mod_upper_bound (a + N - 1) N ltac:(lia)). lia.
Qed.

Lemma ssd_alloc_v2_spec ok fuel ptr n dom N mv : (forall j, ok j = true) -> qwf n dom -> (1 <= n)%nat ->
  (1 <= N)%nat -> Z.of_nat N < 2 ^ 31 ->
  exists ss, ssd_alloc ok fuel ptr dom N mv ssd_hash_version_v2 = Some (Some ss) /\ v2_inv n N dom ss /\ ss_ptr ss = ptr.
Proof.
  intros Hok Hq Hn HN HN31. cbn [ssd_alloc]. unfold ssd_alloc_v2.
  pose proof (get_bbox_max_dim_spec n dom 0 Hq ltac:(lia)) as [Hmd Hdim].
  destruct (get_bbox_max_dim dom 0) as [md dim]. cbn [fst snd] in *.
  destruct (next_pow_2_v2_some md ltac:(lia)) as [md' ->]. cbn [mbind option_bind].
  destruct (next_pow_2_v2_some (Z.of_nat N) ltac:(lia)) as [np ->]. cbn [mbind option_bind].
  destruct (bisect_iter_spec n (Z.to_nat (compute_bits_v2 np)) [dom] [] dim) as (q1 & q2 & d' & -> & Hqq & Hne & Hlen & Hcnt);
    [done|by apply Forall_singleton|by left|]. cbn [mbind option_bind].
  set (q := match q1 with [] => q2 | _ :: _ => q1 end).
  assert (q1 ++ q2 = q) as Eq.
  { subst q. destruct Hne as [[H ->]|[-> H]]; [|done]. rewrite app_nil_r. by destruct q1. }
  rewrite Eq in *. rewrite dht_alloc_all by done. set (m := ((length q + N - 1) / N)%nat).
  destruct (deal_spec N m q HN 0 (replicate N [])) as (tabs & -> & Ltabs & P & Hroom).
  { split; [by rewrite length_replicate|]. intros j t Hj. apply lookup_replicate in Hj as [-> _].
    rewrite Nat.Div0.div_0_l, Nat.Div0.mod_0_l. done. }
  { subst m. pose proof (ceil_mul_ge (length q) N HN). lia. }
  cbn [mbind option_bind fmap option_fmap option_map]. eexists. split; [done|]. split; [|done].
  assert (mjoin (replicate N (@nil bbox)) = []) as E0.
  { clear. induction N as [|N IH]; [done|]. exact IH. }
  rewrite E0 in P. cbn [app ent_tab] in *.
  destruct (zip_set_bbtab m N 0 (replicate N (dht_entry_alloc mv)) tabs) as (E1 & E2 & E3);
    [by rewrite length_replicate|done|].
  set (ents := zip_with _ _ _) in *.
  assert (ents ≫= bb_tab ≡ₚ q) as Pq.
  { rewrite <- P, <- E1. clear. induction ents as [|e es IH]; [done|]. rewrite bind_cons.
    change (bb_tab e ++ (es ≫= bb_tab) ≡ₚ bb_tab e ++ mjoin (bb_tab <$> es)). by rewrite IH. }
  constructor; cbn [hash_version ss_dht num_entries ent_tab]; try done.
  - rewrite list.Forall_forall in E3. rewrite list.Forall_forall in Hroom. apply list.Forall_forall. intros de Hde. rewrite (E3 de Hde). apply Hroom. rewrite <- E1.
    by apply list_elem_of_fmap_2.
  - apply list.Forall_forall. intros de Hde. apply list.Forall_forall. intros b Hb.
    rewrite list.Forall_forall in Hqq. apply Hqq. rewrite <- Pq. apply list_elem_of_bind. eauto.
  - intros p. rewrite (cover_count_perm _ _ p Pq), Hcnt. cbn [app].
    rewrite cover_count_cons. cbn. destruct (decide (in_box dom p)); lia.
Qed.

(** A cell of the domain is owned by an entry, by one only. *)
Lemma owns2_exists n N dom ss p : v2_inv n N dom ss -> in_box dom p -> exists k, owns2 ss k p.
Proof.
  intros I Hp. pose proof (v2_once _ _ _ _ I p) as Hc. destruct (decide (in_box dom p)); [|done].
  unfold cover_count in Hc. destruct (filter _ _) as [|b l] eqn:E; [done|].
  assert (b ∈ filter (fun b => in_box b p) (ent_tab (ss_dht ss) ≫= bb_tab)) as Hb by (rewrite E; apply list_elem_of_here).
  apply list_elem_of_filter in Hb as [Hbp Hb]. apply list_elem_of_bind in Hb as (de & Hb & Hde).
  apply list_elem_of_lookup in Hde as [k Hk]. exists k, de, b. done.
Qed.

Lemma cover_count_two l1 l2 p b1 b2 : b1 ∈ l1 -> b2 ∈ l2 -> in_box b1 p -> in_box b2 p ->
  (2 <= cover_count l1 p + cover_count l2 p)%nat.
Proof.
  intros H1 H2 Hp1 Hp2. unfold cover_count.
  assert (forall l b, b ∈ l -> in_box b p -> (1 <= length (filter (fun b => in_box b p) l))%nat) as H.
  { intros l b Hb Hbp. destruct (filter _ l) eqn:E; [|cbn; lia].
    assert (b ∈ filter (fun b => in_box b p) l) as Hf by (by apply list_elem_of_filter). rewrite E in Hf.
    by apply not_elem_of_nil in Hf. }
  pose proof (H l1 b1 H1 Hp1). pose proof (H l2 b2 H2 Hp2). lia.
Qed.

Lemma owns2_unique n N dom ss p i j : v2_inv n N dom ss -> owns2 ss i p -> owns2 ss j p -> i = j.
Proof.
  intros I (d1 & b1 & Hd1 & Hb1 & Hp1) (d2 & b2 & Hd2 & Hb2 & Hp2).
  pose proof (v2_once _ _ _ _ I p) as Hc.
  assert (cover_count (ent_tab (ss_dht ss) ≫= bb_tab) p <= 1)%nat as Hle by (destruct (decide (in_box dom p)); lia).
  clear Hc. revert i j Hle Hd1 Hd2. generalize (ent_tab (ss_dht ss)). intros es.
  induction es as [|e es IH]; intros i j Hle H1 H2; [done|].
  assert (cover_count (bb_tab e) p + cover_count (es ≫= bb_tab) p <= 1)%nat as Hle'.
  { revert Hle. rewrite bind_cons. unfold cover_count. rewrite list.filter_app, length_app. done. }
  assert (forall k d b, es !! k = Some d -> b ∈ bb_tab d -> b ∈ es ≫= bb_tab) as Hin.
  { intros k d b Hk Hb. apply list_elem_of_bind. exists d. split; [done|]. by eapply list_elem_of_lookup_2. }
  destruct i as [|i], j as [|j]; cbn in H1, H2; [done| | |f_equal; apply IH; (lia || done)].
  - injection H1 as ->. pose proof (cover_count_two _ _ p b1 b2 Hb1 (Hin _ _ _ H2 Hb2) Hp1 Hp2). lia.
  - injection H2 as ->. pose proof (cover_count_two _ _ p b2 b1 Hb2 (Hin _ _ _ H1 Hb1) Hp2 Hp1). lia.
Qed.

Lemma does_intersect_cell b0 b1 p : num_dims b0 = num_dims b1 -> in_box b0 p -> in_box b1 p ->
  bbox_does_intersect b0 b1 = true.
Proof.
  intros Hd [_ H0] [_ H1]. unfold bbox_does_intersect. apply forallb_seq. intros i Hi.
  specialize (H0 i Hi). specialize (H1 i ltac:(lia)). unfold bbox_intersect_ondim. lia.
Qed.

Lemma hash_hits_v2_complete n N dom ss bb p k : v2_inv n N dom ss -> num_dims bb = n -> in_box bb p -> owns2 ss k p ->
  (ss_ptr ss, k) ∈ hash_hits_v2 ss bb.
Proof.
  intros I Hn Hp (de & b & Hd & Hb & Hbp). unfold hash_hits_v2. apply list_elem_of_omap. exists k. split.
  - apply elem_of_seq. pose proof (lookup_lt_Some _ _ _ Hd). rewrite (v2_len _ _ _ _ I) in *.
    rewrite (v2_num _ _ _ _ I). lia.
  - rewrite Hd. cbn [mbind option_bind]. assert (existsb (bbox_does_intersect bb) (bb_tab de) = true) as ->; [|done].
    apply existsb_exists. exists b. split; [by apply list_elem_of_In|].
    apply (does_intersect_cell _ _ p); [|done|done]. pose proof (v2_dims _ _ _ _ I) as Hq.
    rewrite list.Forall_forall in Hq. specialize (Hq de (list_elem_of_lookup_2 _ _ _ Hd)).
    rewrite list.Forall_forall in Hq. destruct (Hq b Hb) as [-> _]. done.
Qed.

(** The cache of a space of version 2. *)
Definition cache_ok2 (ss : sspace) (sh : sh_state) : Prop := forall shc, shc ∈ sfc_hash_list sh ->
  wf_bbox (sh_bb shc) /\ sh_de_tab shc = hash_hits_v2 ss (sh_bb shc).

Lemma ssd_hash_v2_spec ok fuel sh ss bb : hash_version ss = ssd_hash_version_v2 -> cache_ok2 ss sh -> wf_bbox bb ->
  exists sh', ssd_hash ok fuel sh ss bb = Some (sh', hash_hits_v2 ss bb) /\ cache_ok2 ss sh'.
Proof.
  intros Hv Hc Hw. unfold ssd_hash. rewrite Hv. unfold ssd_hash_v2, sh_find.
  assert (cache_ok2 ss (fst (sh_add ok sh bb (hash_hits_v2 ss bb)))) as Hc'.
  { unfold sh_add. destruct ok; [|done]. cbn [fst]. intros shc Hs. cbn [sfc_hash_list] in Hs.
    apply elem_of_app in Hs as [Hs|Hs%list_elem_of_singleton]; [by apply Hc|by subst]. }
  pose proof (find_spec (fun shc => bbox_equals bb (sh_bb shc)) (sfc_hash_list sh)) as Hf.
  destruct (List.find _ _) as [shc|]; cbn [fmap option_fmap option_map]; [|eauto].
  destruct Hf as [Hin Heq]. destruct (Hc shc Hin) as [Hws Ht]. apply bbox_equals_true in Heq; [|done|done].
  subst bb. rewrite <- Ht. destruct (sh_de_tab shc) as [|d l]; [rewrite Ht|]; eauto.
Qed.

(** ** The promise of the hash to clients and servers

    Every cell of the space has one entry responsible for it, and the
    entries returned for a box include those responsible for its cells;
    so two boxes that share a cell meet in an entry. *)
Class Rendezvous (cell : list Z -> Prop) (owner : list Z -> nat -> Prop) (query : bbox -> Prop)
    (ptr : nat) (hits : bbox -> list de_ptr -> Prop) : Prop := {
  rv_owner p : cell p -> exists k, owner p k;
  rv_unique p i j : owner p i -> owner p j -> i = j;
  rv_hits b t p k : query b -> hits b t -> in_box b p -> owner p k -> (ptr, k) ∈ t
}.

Lemma rendezvous_meet cell owner query ptr hits `{!Rendezvous cell owner query ptr hits} b1 b2 t1 t2 p :
  query b1 -> query b2 -> hits b1 t1 -> hits b2 t2 -> in_box b1 p -> in_box b2 p -> cell p ->
  exists d, d ∈ t1 /\ d ∈ t2.
Proof.
  intros Hq1 Hq2 H1 H2 Hp1 Hp2 Hc. destruct (rv_owner (query := query) (hits := hits) p Hc) as [k Hk].
  exists (ptr, k). split.
  - exact (rv_hits b1 t1 p k Hq1 H1 Hp1 Hk).
  - exact (rv_hits b2 t2 p k Hq2 H2 Hp2 Hk).
Qed.

(** The answer of [ssd_hash] on some cache of the space. *)
Definition v1_hits (n k : nat) (ss : sspace) (b : bbox) (t : list de_ptr) : Prop :=
  exists ok fuel sh sh', cache_ok n k ss sh /\ (cube_cost n k <= fuel)%nat /\ ssd_hash ok fuel sh ss b = Some (sh', t).

Definition v2_hits (ss : sspace) (b : bbox) (t : list de_ptr) : Prop :=
  exists ok fuel sh sh', cache_ok2 ss sh /\ ssd_hash ok fuel sh ss b = Some (sh', t).

#[export] Instance rendezvous_v1 n k sn ss `(I : v1_inv n k sn ss) `(Hn : (n <= 11)%nat) :
  Rendezvous (fun p => exists j, owns ss j (hilbert_c2i n (S k) p)) (fun p j => owns ss j (hilbert_c2i n (S k) p))
    (intv_pre n k) (ss_ptr ss) (v1_hits n k ss).
Proof.
  constructor; [done| |].
  - intros p i j. by apply (owns_unique n k sn).
  - intros b t p j Hq (ok & fuel & sh & sh' & Hc & Hf & E) Hp Ho.
    destruct (ssd_hash_v1_spec n k sn ss I ok fuel sh b Hc Hq Hn Hf) as (sh2 & t2 & E2 & _ & Ht).
    rewrite E in E2. injection E2 as <- <-. apply Ht. split; [done|]. eauto.
Qed.

#[export] Instance rendezvous_v2 n N dom ss `(I : v2_inv n N dom ss) :
  Rendezvous (in_box dom) (fun p j => owns2 ss j p) (fun b => wf_bbox b /\ num_dims b = n) (ss_ptr ss) (v2_hits ss).
Proof.
  constructor.
  - intros p Hp. by apply (owns2_exists n N dom).
  - intros p i j. by apply (owns2_unique n N dom).
  - intros b t p j [Hw Hq] (ok & fuel & sh & sh' & Hc & E) Hp Ho.
    destruct (ssd_hash_v2_spec ok fuel sh ss b (v2_ver _ _ _ _ I) Hc Hw) as (sh2 & E2 & _).
    rewrite E in E2. injection E2 as <- ->. by apply (hash_hits_v2_complete n N dom ss b p).
Qed.

Lemma divisible_all_owned n k ss dom idx sn N p :
  idx ≡ₚ hilbert_c2i n (S k) <$> points dom -> wf_bbox dom ->
  (ent_tab (ss_dht ss) ≫= fun de => flat (de_i_tab de)) = take (Z.to_nat (sn * Z.of_nat N)) idx ->
  sn * Z.of_nat N = box_card dom -> in_box dom p -> exists j, owns ss j (hilbert_c2i n (S k) p).
Proof.
  intros P Hw E Hd Hp. rewrite take_ge in E.
  2: { apply Nat2Z.inj_le. rewrite P, length_fmap, length_points by done. rewrite Hd.
       pose proof (box_card_pos dom Hw). lia. }
  assert (hilbert_c2i n (S k) p ∈ idx) as Hx by (rewrite P; apply list_elem_of_fmap_2; by apply elem_of_points).
  rewrite <- E in Hx. apply list_elem_of_bind in Hx as (de & Hx & Hde).
  apply list_elem_of_lookup in Hde as [j Hj]. exists j, de. done.
Qed.

(** ** Properties *)

(** version 1 distributes the domain fairly: [ssd_alloc] succeeds, the
    entries hold consecutive runs of [volume / num_entries] indices of the
    sorted index list of the domain (each entry exactly that many, no index
    twice), and rank [j] is entry [j]. *)
Theorem ssd_alloc_v1_partition ok fuel ptr n k dom N mv :
  (forall j, ok j = true) -> domain_ok n k dom -> (1 <= N)%nat ->
  Z.of_nat N <= box_card dom < 2 ^ 64 -> (cube_cost n k <= fuel)%nat ->
  let sn := box_card dom / Z.of_nat N in
  exists ss idx, ssd_alloc ok fuel ptr dom N mv ssd_hash_version_v1 = Some (Some ss) /\
    v1_inv n k sn ss /\ num_entries (ss_dht ss) = N /\ ss_ptr ss = ptr /\ 0 < sn /\
    StronglySorted Z.lt idx /\ idx ≡ₚ hilbert_c2i n (S k) <$> points dom /\
    (ent_tab (ss_dht ss) ≫= fun de => de_i_tab de ≫= ielems) = take (Z.to_nat (sn * Z.of_nat N)) idx /\
    forall j de, ent_tab (ss_dht ss) !! j = Some de -> de_rank de = Z.of_nat j.
Proof. apply ssd_alloc_v1_spec. Qed.

Definition demo_dom : bbox := mk_bbox 2 [0; 0] [3; 3].
Lemma demo_dom_wf : wf_bbox demo_dom.
Proof.
  split; [done|]. split; [done|]. intros i Hi. cbn in Hi.
  destruct i as [|[|i]]; [unfold cget; cbn; lia|unfold cget; cbn; lia|lia].
Qed.

Lemma demo_dom_ok : domain_ok 2 2 demo_dom.
Proof. constructor; [apply demo_dom_wf|reflexivity|lia|vm_compute; reflexivity|lia|lia]. Qed.

Lemma ssd_alloc_v1_partition_witness : exists ss,
  ssd_alloc (fun _ => true) 21 7 demo_dom 4 2 ssd_hash_version_v1 = Some (Some ss) /\ v1_inv 2 2 4 ss.
Proof.
  destruct (ssd_alloc_v1_partition (fun _ => true) 21 7 2 2 demo_dom 4 2) as (ss & idx & E & I & _);
    [done|apply demo_dom_ok|lia|vm_compute; intuition congruence|cbn; lia|].
  exists ss. split; [exact E|exact I].
Defined.

(** C13: [ssd_hash] (version 1) is exact: on a box inside the virtual domain
    it returns precisely the entries responsible for a cell of the box,
    whether the answer is computed or comes from the cache, and leaves the
    cache correct. *)
Theorem ssd_hash_v1_exact n k sn ss ok fuel sh bb :
  v1_inv n k sn ss -> cache_ok n k ss sh -> intv_pre n k bb -> (n <= 11)%nat -> (cube_cost n k <= fuel)%nat ->
  exists sh' de_tab, ssd_hash ok fuel sh ss bb = Some (sh', de_tab) /\ cache_ok n k ss sh' /\
    forall i j, (i, j) ∈ de_tab <-> i = ss_ptr ss /\ exists p, in_box bb p /\ owns ss j (hilbert_c2i n (S k) p).
Proof. intros. by apply (ssd_hash_v1_spec n k sn). Qed.

Lemma cache_empty n k ss : cache_ok n k ss (mk_sh [] false).
Proof. intros shc Hs. by apply not_elem_of_nil in Hs. Qed.

Lemma ssd_hash_v1_exact_witness : exists ss sh' de_tab,
  ssd_hash true 21 (mk_sh [] false) ss demo_dom_box = Some (sh', de_tab) /\ cache_ok 2 2 ss sh'.
Proof.
  destruct (ssd_alloc_v1_spec (fun _ => true) 21 7 2 2 demo_dom 4 2) as (ss & idx & E & I & _);
    [done|apply demo_dom_ok|lia|vm_compute; intuition congruence|cbn; lia|].
  destruct (ssd_hash_v1_exact 2 2 _ ss true 21 (mk_sh [] false) demo_dom_box I) as (sh' & t & E' & Hc & _);
    [apply cache_empty|apply demo_intv_pre|lia|cbn; lia|].
  exists ss, sh', t. split; [exact E'|exact Hc].
Defined.

(** C11: a writer and a reader meet (version 1): when the number of entries
    divides the volume of the domain, two boxes that share a cell of the
    domain are hashed to a common entry. *)
Theorem ssd_v1_rendezvous ok fuel ptr n k dom N mv :
  (forall j, ok j = true) -> domain_ok n k dom -> (1 <= N)%nat ->
  Z.of_nat N <= box_card dom < 2 ^ 64 -> (cube_cost n k <= fuel)%nat ->
  (Z.of_nat N | box_card dom) ->
  exists ss, ssd_alloc ok fuel ptr dom N mv ssd_hash_version_v1 = Some (Some ss) /\
    forall b1 b2 t1 t2 p, intv_pre n k b1 -> intv_pre n k b2 -> v1_hits n k ss b1 t1 -> v1_hits n k ss b2 t2 ->
      in_box b1 p -> in_box b2 p -> in_box dom p -> exists d, d ∈ t1 /\ d ∈ t2.
Proof.
  intros Hok Hd HN Hc Hf [c Hdiv].
  destruct (ssd_alloc_v1_spec ok fuel ptr n k dom N mv Hok Hd HN Hc Hf) as (ss & idx & E & I & _ & _ & _ & _ & P & Ef & _).
  exists ss. split; [done|]. intros b1 b2 t1 t2 p Hb1 Hb2 H1 H2 Hp1 Hp2 Hp.
  pose proof (rendezvous_v1 n k _ ss I ltac:(destruct Hd; lia)) as R.
  apply (rendezvous_meet _ _ _ _ _ b1 b2 t1 t2 p Hb1 Hb2 H1 H2 Hp1 Hp2).
  apply (divisible_all_owned n k ss dom idx (box_card dom / Z.of_nat N) N p P (dm_wf _ _ _ Hd) Ef); [|done].
  rewrite Hdiv. rewrite Z.div_mul by lia. ring.
Qed.

Lemma ssd_v1_rendezvous_witness : exists ss,
  ssd_alloc (fun _ => true) 21 7 demo_dom 4 2 ssd_hash_version_v1 = Some (Some ss) /\
  forall b1 b2 t1 t2 p, intv_pre 2 2 b1 -> intv_pre 2 2 b2 -> v1_hits 2 2 ss b1 t1 -> v1_hits 2 2 ss b2 t2 ->
    in_box b1 p -> in_box b2 p -> in_box demo_dom p -> exists d, d ∈ t1 /\ d ∈ t2.
Proof.
  apply ssd_v1_rendezvous; [done|apply demo_dom_ok|lia|vm_compute; intuition congruence|cbn; lia|by exists 4].
Defined.

(** C12: a writer and a reader meet (version 2), for any number of servers:
    [ssd_alloc] succeeds, every cell of the domain lies in exactly one box
    of exactly one entry, the tables have room for the boxes dealt to them,
    and two boxes that share a cell of the domain are hashed to a common
    entry. *)
Theorem ssd_v2_rendezvous ok fuel ptr n dom N mv :
  (forall j, ok j = true) -> qwf n dom -> (1 <= n)%nat -> (1 <= N)%nat -> Z.of_nat N < 2 ^ 31 ->
  exists ss, ssd_alloc ok fuel ptr dom N mv ssd_hash_version_v2 = Some (Some ss) /\ v2_inv n N dom ss /\
    forall b1 b2 t1 t2 p, wf_bbox b1 -> num_dims b1 = n -> wf_bbox b2 -> num_dims b2 = n ->
      v2_hits ss b1 t1 -> v2_hits ss b2 t2 ->
      in_box b1 p -> in_box b2 p -> in_box dom p -> exists d, d ∈ t1 /\ d ∈ t2.
Proof.
  intros Hok Hq Hn HN H31. destruct (ssd_alloc_v2_spec ok fuel ptr n dom N mv Hok Hq Hn HN H31) as (ss & E & I & _).
  exists ss. split; [done|]. split; [done|]. intros b1 b2 t1 t2 p Hw1 Hd1 Hw2 Hd2 H1 H2 Hp1 Hp2 Hp.
  pose proof (rendezvous_v2 n N dom ss I) as R. by eapply (rendezvous_meet _ _ _ _ _ b1 b2).
Qed.

Lemma demo_dom_qwf : qwf 2 demo_dom.
Proof.
  do 3 (split; [done|]). intros i Hi. destruct i as [|[|i]]; [unfold cget; cbn; lia|unfold cget; cbn; lia|lia].
Qed.

Lemma ssd_v2_rendezvous_witness : exists ss,
  ssd_alloc (fun _ => true) 0 7 demo_dom 3 2 ssd_hash_version_v2 = Some (Some ss) /\ v2_inv 2 3 demo_dom ss.
Proof.
  destruct (ssd_v2_rendezvous (fun _ => true) 0 7 2 demo_dom 3 2) as (ss & E & I & _);
    [done|apply demo_dom_qwf|lia|lia|lia|]. exists ss. split; [exact E|exact I].
Defined.

(** Version 1 drops the remainder: when the number of entries does not
    divide the volume, the last cells of the Hilbert order belong to no
    entry, and hashing a box made of them returns no entry at all. *)
Theorem ssd_v1_remainder_unowned : exists dom b N ss sh,
  domain_ok 1 3 dom /\ in_box dom (lb b) /\
  ssd_alloc (fun _ => true) 100 1 dom N 2 ssd_hash_version_v1 = Some (Some ss) /\
  ssd_hash true 100 (mk_sh [] false) ss b = Some (sh, []).
Proof.
  exists (mk_bbox 1 [0] [4]), (mk_bbox 1 [4] [4]), 2%nat. eexists _, _.
  split; [|split; [apply in_boxb_spec; reflexivity|split; [vm_compute; reflexivity|vm_compute; reflexivity]]].
  constructor; [|reflexivity|lia|vm_compute; reflexivity|lia|lia].
  split; [done|]. split; [done|]. intros i Hi. cbn in Hi. destruct i; [unfold cget; cbn; lia|lia].
Qed.

(** The cache of [ssd_hash] is shared by all spaces and keyed by the box
    only: after a box was hashed in one space, hashing the same box in
    another space returns entries of the first one. *)
Theorem ssd_hash_cache_mixes_spaces : exists dom1 dom2 b ss1 ss2 sh1 sh2 t1 t2,
  ssd_alloc (fun _ => true) 100 1 dom1 2 2 ssd_hash_version_v1 = Some (Some ss1) /\
  ssd_alloc (fun _ => true) 100 2 dom2 2 2 ssd_hash_version_v1 = Some (Some ss2) /\
  ssd_hash true 100 (mk_sh [] false) ss1 b = Some (sh1, t1) /\
  ssd_hash true 100 sh1 ss2 b = Some (sh2, t2) /\
  t2 <> [] /\ Forall (fun d => d.1 = ss_ptr ss1) t2 /\ ss_ptr ss1 <> ss_ptr ss2.
Proof.
  exists (mk_bbox 1 [0] [3]), (mk_bbox 1 [0] [7]), (mk_bbox 1 [0] [0]). eexists _, _, _, _, _, _.
  split; [vm_compute; reflexivity|]. split; [vm_compute; reflexivity|]. split; [vm_compute; reflexivity|].
  split; [vm_compute; reflexivity|]. split; [done|]. split; [by repeat constructor|done].
Qed.
