(* ===== verification/Locks.v ===== *)
(** * The lock services of the server (src/ds_gspace.c)

    Three kinds of reader/writer locks, selected by [lock_type]: generic
    (first come first served), custom (rounds of one writer and
    [max_readers] readers, ordered by the lock numbers of the clients) and
    version 3 (no reader before the first write).  A lock is a [dsg_lock]
    with its counters and the list of the requests on wait.

    The effects on the rest of the system are parameters: whether [malloc]
    succeeds and the return code of sending a grant to a peer.  A service
    returns the requests it granted, in order; each is a [cp_lock] message
    to the requester with the header [grant_hdr]. *)

From stdpp Require Import relations.
From S2P Require Import Prelude.

Inductive lock_type := lk_read_get | lk_read_release | lk_write_get | lk_write_release | lk_grant.
Inductive lock_service := lock_unknown | lock_generic | lock_custom | lock_v3.
Inductive lock_state := unlocked | locked.
Inductive lock_action := la_none | la_wait | la_grant | la_notify.

#[export] Instance lock_type_eq_dec : EqDecision lock_type.
Proof. solve_decision. Defined.
#[export] Instance lock_state_eq_dec : EqDecision lock_state.
Proof. solve_decision. Defined.

Record lockhdr := mk_lh {
  lh_name : string;
  lh_type : lock_type;
  lh_rc : Z;
  lh_id : Z;
  lock_num : Z
}.

(** A lock request: the sender and the header in the pad of the command. *)
Record lock_cmd := mk_lcmd { lc_id : Z; lc_hdr : lockhdr }.

Record dsg_lock := mk_lock {
  lk_name : string;
  lk_kind : lock_service;      (* the function pointers of the structure *)
  rd_notify_cnt : Z; wr_notify_cnt : Z;
  rd_max : Z; wr_max : Z;
  rd_epoch : Z; wr_epoch : Z;
  rd_cnt : Z; wr_cnt : Z;
  rd_lock_state : lock_state; wr_lock_state : lock_state;
  wait_list : list lock_cmd
}.

(** ** Field updates *)

Definition set_wait (dl : dsg_lock) (w : list lock_cmd) : dsg_lock :=
  mk_lock (lk_name dl) (lk_kind dl) (rd_notify_cnt dl) (wr_notify_cnt dl) (rd_max dl) (wr_max dl)
    (rd_epoch dl) (wr_epoch dl) (rd_cnt dl) (wr_cnt dl) (rd_lock_state dl) (wr_lock_state dl) w.
Definition set_rd (dl : dsg_lock) (c : Z) (s : lock_state) : dsg_lock :=
  mk_lock (lk_name dl) (lk_kind dl) (rd_notify_cnt dl) (wr_notify_cnt dl) (rd_max dl) (wr_max dl)
    (rd_epoch dl) (wr_epoch dl) c (wr_cnt dl) s (wr_lock_state dl) (wait_list dl).
Definition set_wr (dl : dsg_lock) (c : Z) (s : lock_state) : dsg_lock :=
  mk_lock (lk_name dl) (lk_kind dl) (rd_notify_cnt dl) (wr_notify_cnt dl) (rd_max dl) (wr_max dl)
    (rd_epoch dl) (wr_epoch dl) (rd_cnt dl) c (rd_lock_state dl) s (wait_list dl).
Definition set_rd_round (dl : dsg_lock) (notify epoch : Z) : dsg_lock :=
  mk_lock (lk_name dl) (lk_kind dl) notify (wr_notify_cnt dl) (rd_max dl) (wr_max dl)
    epoch (wr_epoch dl) (rd_cnt dl) (wr_cnt dl) (rd_lock_state dl) (wr_lock_state dl) (wait_list dl).
Definition set_wr_round (dl : dsg_lock) (notify epoch : Z) : dsg_lock :=
  mk_lock (lk_name dl) (lk_kind dl) (rd_notify_cnt dl) notify (rd_max dl) (wr_max dl)
    (rd_epoch dl) epoch (rd_cnt dl) (wr_cnt dl) (rd_lock_state dl) (wr_lock_state dl) (wait_list dl).

Definition is_locked (s : lock_state) : bool := match s with locked => true | unlocked => false end.

(** ** Initialisation *)

Definition lock_init (dl : dsg_lock) : dsg_lock := set_wr (set_rd dl 0 unlocked) 0 unlocked.

Definition sem_init (dl : dsg_lock) (max_readers : Z) : dsg_lock :=
  mk_lock (lk_name dl) (lk_kind dl) 0 0 max_readers 1 0 0 0 1
    (rd_lock_state dl) (wr_lock_state dl) (wait_list dl).

Definition lock_init_v3 (dl : dsg_lock) : dsg_lock :=
  set_wr_round (set_wr (set_rd dl 0 unlocked) 0 unlocked) (wr_notify_cnt dl) 0.

(** ** Requests and grants *)

(** The environment of a call: [malloc] for a queued request, and the result
    of [dsg_lock_grant] to a peer (-ENOMEM without a message buffer, else
    the result of [rpc_send]). *)
Record lock_env := mk_lenv { le_alloc : bool; le_msg : Z -> bool; le_send : Z -> Z }.

Definition dsg_lock_put_on_wait (env : lock_env) (dl : dsg_lock) (cmd : lock_cmd) : dsg_lock * Z :=
  if le_alloc env then (set_wait dl (wait_list dl ++ [cmd]), 0) else (dl, - ENOMEM).

Definition grant_hdr (lh : lockhdr) : lockhdr :=
  mk_lh (lh_name lh) lk_grant 0 (lh_id lh) (s32 (lock_num lh + 1)).

Definition dsg_lock_grant (env : lock_env) (peer : Z) : Z :=
  if le_msg env peer then le_send env peer else - ENOMEM.

(** ** Generic locks *)

Definition lock_process_request (dl : dsg_lock) (lh : lockhdr) (may_grant : bool) : lock_action * dsg_lock :=
  match lh_type lh with
  | lk_read_get =>
      if negb (is_locked (wr_lock_state dl)) && may_grant
      then (la_grant, set_rd dl (rd_cnt dl + 1) locked) else (la_wait, dl)
  | lk_read_release =>
      let c := rd_cnt dl - 1 in
      if c =? 0 then (la_notify, set_rd dl c unlocked) else (la_none, set_rd dl c (rd_lock_state dl))
  | lk_write_get =>
      if negb (is_locked (rd_lock_state dl)) && (wr_cnt dl =? 0)
      then (la_grant, set_wr dl (wr_cnt dl + 1) locked) else (la_wait, dl)
  | lk_write_release =>
      let c := wr_cnt dl - 1 in
      if c =? 0 then (la_notify, set_wr dl c unlocked) else (la_none, set_wr dl c (wr_lock_state dl))
  | lk_grant => (la_none, dl)
  end.

(** [while (! list_empty(&dl->wait_list))] of [lock_process_wait_list] and
    [lock_process_wait_list_v3]; [w] is the list, the result has it back. *)
Fixpoint drain (process : dsg_lock -> lockhdr -> bool -> lock_action * dsg_lock) (env : lock_env)
    (dl : dsg_lock) (w : list lock_cmd) : dsg_lock * list lock_cmd * Z :=
  match w with
  | [] => (set_wait dl [], [], 0)
  | rr :: w' =>
      match process dl (lc_hdr rr) true with
      | (la_none, dl) | (la_wait, dl) => (set_wait dl (rr :: w'), [], 0)
      | (la_grant, dl) =>
          let err := dsg_lock_grant env (lc_id rr) in
          if err <? 0 then (set_wait dl (rr :: w'), [], err)
          else let '(dl, g, err') := drain process env dl w' in (dl, if err =? 0 then rr :: g else g, err')
      | (la_notify, dl) => drain process env dl w'
      end
  end.

Definition lock_process_wait_list (env : lock_env) (dl : dsg_lock) : dsg_lock * list lock_cmd * Z :=
  drain lock_process_request env dl (wait_list dl).

Definition list_empty {A} (l : list A) : bool := match l with [] => true | _ :: _ => false end.

Definition lock_service_generic (env : lock_env) (dl : dsg_lock) (cmd : lock_cmd) : dsg_lock * list lock_cmd * Z :=
  match lock_process_request dl (lc_hdr cmd) (list_empty (wait_list dl)) with
  | (la_none, dl) => (dl, [], 0)
  | (la_wait, dl) => let '(dl, err) := dsg_lock_put_on_wait env dl cmd in (dl, [], err)
  | (la_notify, dl) => lock_process_wait_list env dl
  | (la_grant, dl) =>
      let err := dsg_lock_grant env (lc_id cmd) in (dl, if err =? 0 then [cmd] else [], err)
  end.

(** ** Custom locks *)

Definition sem_process_request (dl : dsg_lock) (lh : lockhdr) (may_grant : bool) : lock_action * dsg_lock :=
  match lh_type lh with
  | lk_read_get =>
      if (0 <? rd_cnt dl) && (lock_num lh =? rd_epoch dl)
      then (la_grant, set_rd dl (rd_cnt dl - 1) (rd_lock_state dl)) else (la_wait, dl)
  | lk_read_release =>
      let n := rd_notify_cnt dl + 1 in
      if n =? rd_max dl
      then (la_notify, set_rd_round (set_wr dl (wr_max dl) (wr_lock_state dl)) 0 (rd_epoch dl + 1))
      else (la_none, set_rd_round dl n (rd_epoch dl))
  | lk_write_get =>
      if (0 <? wr_cnt dl) && (lock_num lh =? wr_epoch dl)
      then (la_grant, set_wr dl (wr_cnt dl - 1) (wr_lock_state dl)) else (la_wait, dl)
  | lk_write_release =>
      let n := wr_notify_cnt dl + 1 in
      if n =? wr_max dl
      then (la_notify, set_wr_round (set_rd dl (rd_max dl) (rd_lock_state dl)) 0 (wr_epoch dl + 1))
      else (la_none, set_wr_round dl n (wr_epoch dl))
  | lk_grant => (la_none, dl)
  end.

(** [list_for_each_entry_safe]: granted requests are unlinked, the others stay. *)
Fixpoint sem_scan (env : lock_env) (dl : dsg_lock) (w : list lock_cmd) : dsg_lock * list lock_cmd * list lock_cmd * Z :=
  match w with
  | [] => (dl, [], [], 0)
  | rr :: w' =>
      match sem_process_request dl (lc_hdr rr) true with
      | (la_grant, dl) =>
          let err := dsg_lock_grant env (lc_id rr) in
          if err <? 0 then (dl, rr :: w', [], err)
          else let '(dl, kept, g, err') := sem_scan env dl w' in (dl, kept, if err =? 0 then rr :: g else g, err')
      | (_, dl) => let '(dl, kept, g, err) := sem_scan env dl w' in (dl, rr :: kept, g, err)
      end
  end.

Definition sem_process_wait_list (env : lock_env) (dl : dsg_lock) : dsg_lock * list lock_cmd * Z :=
  let '(dl, kept, g, err) := sem_scan env dl (wait_list dl) in (set_wait dl kept, g, err).

Definition sem_service (env : lock_env) (dl : dsg_lock) (cmd : lock_cmd) : dsg_lock * list lock_cmd * Z :=
  match sem_process_request dl (lc_hdr cmd) false with
  | (la_none, dl) => (dl, [], 0)
  | (la_wait, dl) => let '(dl, err) := dsg_lock_put_on_wait env dl cmd in (dl, [], err)
  | (la_notify, dl) => sem_process_wait_list env dl
  | (la_grant, dl) =>
      let err := dsg_lock_grant env (lc_id cmd) in (dl, if err =? 0 then [cmd] else [], err)
  end.

(** ** Locks of version 3 *)

Definition lock_process_request_v3 (dl : dsg_lock) (lh : lockhdr) (may_grant : bool) : lock_action * dsg_lock :=
  match lh_type lh with
  | lk_read_get =>
      if negb (is_locked (wr_lock_state dl)) && (0 <? wr_epoch dl) && may_grant
      then (la_grant, set_rd dl (rd_cnt dl + 1) locked) else (la_wait, dl)
  | lk_read_release =>
      let c := rd_cnt dl - 1 in
      if c =? 0 then (la_notify, set_rd dl c unlocked) else (la_none, set_rd dl c (rd_lock_state dl))
  | lk_write_get =>
      if negb (is_locked (rd_lock_state dl)) && (wr_cnt dl =? 0)
      then (la_grant, set_wr dl (wr_cnt dl + 1) locked) else (la_wait, dl)
  | lk_write_release =>
      let c := wr_cnt dl - 1 in
      if c =? 0 then (la_notify, set_wr_round (set_wr dl c unlocked) (wr_notify_cnt dl) (wr_epoch dl + 1))
      else (la_none, set_wr dl c (wr_lock_state dl))
  | lk_grant => (la_none, dl)
  end.

Definition lock_process_wait_list_v3 (env : lock_env) (dl : dsg_lock) : dsg_lock * list lock_cmd * Z :=
  drain lock_process_request_v3 env dl (wait_list dl).

Definition lock_service_v3 (env : lock_env) (dl : dsg_lock) (cmd : lock_cmd) : dsg_lock * list lock_cmd * Z :=
  match lock_process_request_v3 dl (lc_hdr cmd) (list_empty (wait_list dl)) with
  | (la_none, dl) => (dl, [], 0)
  | (la_wait, dl) => let '(dl, err) := dsg_lock_put_on_wait env dl cmd in (dl, [], err)
  | (la_notify, dl) => lock_process_wait_list_v3 env dl
  | (la_grant, dl) =>
      let err := dsg_lock_grant env (lc_id cmd) in (dl, if err =? 0 then [cmd] else [], err)
  end.

(** ** The lock table *)

(** [dl->service(dl, rpc, cmd)]; a lock of unknown type has null function
    pointers ([None]). *)
Definition service (env : lock_env) (dl : dsg_lock) (cmd : lock_cmd) : option (dsg_lock * list lock_cmd * Z) :=
  match lk_kind dl with
  | lock_generic => Some (lock_service_generic env dl cmd)
  | lock_custom => Some (sem_service env dl cmd)
  | lock_v3 => Some (lock_service_v3 env dl cmd)
  | lock_unknown => None
  end.

(** [memset] clears the structure before [init]. *)
Definition dsg_lock_alloc (lock_name : string) (kind : lock_service) (max_readers : Z) : option dsg_lock :=
  let dl := mk_lock lock_name kind 0 0 0 0 0 0 0 0 unlocked unlocked [] in
  match kind with
  | lock_generic => Some (lock_init dl)
  | lock_custom => Some (sem_init dl max_readers)
  | lock_v3 => Some (lock_init_v3 dl)
  | lock_unknown => None
  end.

Definition dsg_lock_find_by_name (locks : list dsg_lock) (lock_name : string) : option (nat * dsg_lock) :=
  list_find (fun dl => String.eqb (lk_name dl) lock_name = true) locks.

(** [None]: a null function pointer is called. *)
Definition dsgrpc_lock_service (env : lock_env) (lock_alloc_ok : bool) (kind : lock_service) (max_readers : Z)
    (locks : list dsg_lock) (cmd : lock_cmd) : option (list dsg_lock * list lock_cmd * Z) :=
  match dsg_lock_find_by_name locks (lh_name (lc_hdr cmd)) with
  | Some (i, dl) =>
      r ← service env dl cmd;
      let '(dl, g, err) := r in Some (<[i := dl]> locks, g, err)
  | None =>
      if lock_alloc_ok then
        dl ← dsg_lock_alloc (lh_name (lc_hdr cmd)) kind max_readers;
        r ← service env dl cmd;
        let '(dl, g, err) := r in Some (dl :: locks, g, err)
      else Some (locks, [], - ENOMEM)
  end.

(** ** The two reader/writer disciplines together

    [process_rw false] is the generic lock, [process_rw true] version 3. *)

Definition rd_open (v3 : bool) (dl : dsg_lock) : bool := negb v3 || (0 <? wr_epoch dl).

Definition process_rw (v3 : bool) (dl : dsg_lock) (lh : lockhdr) (may_grant : bool) : lock_action * dsg_lock :=
  match lh_type lh with
  | lk_read_get =>
      if negb (is_locked (wr_lock_state dl)) && rd_open v3 dl && may_grant
      then (la_grant, set_rd dl (rd_cnt dl + 1) locked) else (la_wait, dl)
  | lk_read_release =>
      let c := rd_cnt dl - 1 in
      if c =? 0 then (la_notify, set_rd dl c unlocked) else (la_none, set_rd dl c (rd_lock_state dl))
  | lk_write_get =>
      if negb (is_locked (rd_lock_state dl)) && (wr_cnt dl =? 0)
      then (la_grant, set_wr dl (wr_cnt dl + 1) locked) else (la_wait, dl)
  | lk_write_release =>
      let c := wr_cnt dl - 1 in
      if c =? 0 then (la_notify, if v3 then set_wr_round (set_wr dl c unlocked) (wr_notify_cnt dl) (wr_epoch dl + 1)
                                 else set_wr dl c unlocked)
      else (la_none, set_wr dl c (wr_lock_state dl))
  | lk_grant => (la_none, dl)
  end.

Definition service_rw (v3 : bool) (env : lock_env) (dl : dsg_lock) (cmd : lock_cmd) : dsg_lock * list lock_cmd * Z :=
  match process_rw v3 dl (lc_hdr cmd) (list_empty (wait_list dl)) with
  | (la_none, dl) => (dl, [], 0)
  | (la_wait, dl) => let '(dl, err) := dsg_lock_put_on_wait env dl cmd in (dl, [], err)
  | (la_notify, dl) => drain (process_rw v3) env dl (wait_list dl)
  | (la_grant, dl) =>
      let err := dsg_lock_grant env (lc_id cmd) in (dl, if err =? 0 then [cmd] else [], err)
  end.

Lemma process_rw_generic dl lh mg : lock_process_request dl lh mg = process_rw false dl lh mg.
Proof. unfold lock_process_request, process_rw, rd_open. destruct (lh_type lh); try done. cbn [negb orb]. by rewrite andb_true_r. Qed.

Lemma process_rw_v3 dl lh mg : lock_process_request_v3 dl lh mg = process_rw true dl lh mg.
Proof. unfold lock_process_request_v3, process_rw, rd_open. by destruct (lh_type lh). Qed.

Lemma drain_ext p1 p2 env : (forall dl lh mg, p1 dl lh mg = p2 dl lh mg) ->
  forall w dl, drain p1 env dl w = drain p2 env dl w.
Proof.
  intros H. induction w as [|rr w IH]; intros dl; [done|]. cbn [drain]. rewrite H.
  destruct (p2 dl (lc_hdr rr) true) as [[] dl']; try done; by rewrite IH.
Qed.

Lemma service_rw_generic env dl cmd : lock_service_generic env dl cmd = service_rw false env dl cmd.
Proof.
  unfold lock_service_generic, service_rw, lock_process_wait_list. rewrite process_rw_generic.
  destruct (process_rw _ _ _ _) as [[] dl']; try done; apply drain_ext, process_rw_generic.
Qed.

Lemma service_rw_v3 env dl cmd : lock_service_v3 env dl cmd = service_rw true env dl cmd.
Proof.
  unfold lock_service_v3, service_rw, lock_process_wait_list_v3. rewrite process_rw_v3.
  destruct (process_rw _ _ _ _) as [[] dl']; try done; apply drain_ext, process_rw_v3.
Qed.

(** ** Clients and the lock

    The holders of the lock, and the history of the get requests received
    and of the grants sent, in order. *)

Record lsys := mk_lsys {
  sl : dsg_lock;
  s_rd : list Z;            (* clients that hold the read lock *)
  s_wr : list Z;            (* clients that hold the write lock *)
  s_arr : list lock_cmd;    (* get requests received *)
  s_gr : list lock_cmd      (* requests granted *)
}.

Definition typ (c : lock_cmd) : lock_type := lh_type (lc_hdr c).
Definition is_get (c : lock_cmd) : Prop := typ c = lk_read_get \/ typ c = lk_write_get.
Definition rds (g : list lock_cmd) : list Z := lc_id <$> filter (fun c => typ c = lk_read_get) g.
Definition wrs (g : list lock_cmd) : list Z := lc_id <$> filter (fun c => typ c = lk_write_get) g.

(** A client sends a get, or a release of a lock it holds; the service runs
    without errors. *)
Inductive lstep (sv : dsg_lock -> lock_cmd -> dsg_lock * list lock_cmd * Z) : lsys -> lsys -> Prop :=
  | step_get s cmd dl g : is_get cmd -> sv (sl s) cmd = (dl, g, 0) ->
      lstep sv s (mk_lsys dl (s_rd s ++ rds g) (s_wr s ++ wrs g) (s_arr s ++ [cmd]) (s_gr s ++ g))
  | step_read_release s cmd l1 l2 dl g : typ cmd = lk_read_release -> s_rd s = l1 ++ lc_id cmd :: l2 ->
      sv (sl s) cmd = (dl, g, 0) ->
      lstep sv s (mk_lsys dl ((l1 ++ l2) ++ rds g) (s_wr s ++ wrs g) (s_arr s) (s_gr s ++ g))
  | step_write_release s cmd l1 l2 dl g : typ cmd = lk_write_release -> s_wr s = l1 ++ lc_id cmd :: l2 ->
      sv (sl s) cmd = (dl, g, 0) ->
      lstep sv s (mk_lsys dl (s_rd s ++ rds g) ((l1 ++ l2) ++ wrs g) (s_arr s) (s_gr s ++ g)).

Definition lsys_init (dl : dsg_lock) : lsys := mk_lsys dl [] [] [] [].

Definition env_ok (env : lock_env) : Prop :=
  le_alloc env = true /\ forall p, le_msg env p = true /\ le_send env p = 0.

Lemma grant_ok env p : env_ok env -> dsg_lock_grant env p = 0.
Proof. intros [_ H]. unfold dsg_lock_grant. destruct (H p) as [-> ->]. done. Qed.

(** ** Counters *)

Record counts (dl : dsg_lock) (nR nW : Z) : Prop := {
  co_rd : rd_cnt dl = nR;
  co_wr : wr_cnt dl = nW;
  co_rs : is_locked (rd_lock_state dl) = (0 <? nR);
  co_ws : is_locked (wr_lock_state dl) = (0 <? nW);
  co_r0 : 0 <= nR;
  co_w1 : 0 <= nW <= 1;
  co_ex : nR = 0 \/ nW = 0
}.

(** The first waiting request cannot be granted. *)
Definition head_blocked (v3 : bool) (dl : dsg_lock) : Prop :=
  match wait_list dl with
  | [] => True
  | c :: _ => if decide (typ c = lk_read_get) then 0 < wr_cnt dl \/ rd_open v3 dl = false
              else 0 < rd_cnt dl \/ 0 < wr_cnt dl
  end.

Definition nrd (g : list lock_cmd) : Z := Z.of_nat (length (rds g)).
Definition nwr (g : list lock_cmd) : Z := Z.of_nat (length (wrs g)).

Lemma nrd_cons c g : nrd (c :: g) = (if decide (typ c = lk_read_get) then 1 else 0) + nrd g.
Proof. unfold nrd, rds. rewrite filter_cons. destruct (decide _); cbn [fmap list_fmap length]; lia. Qed.
Lemma nwr_cons c g : nwr (c :: g) = (if decide (typ c = lk_write_get) then 1 else 0) + nwr g.
Proof. unfold nwr, wrs. rewrite filter_cons. destruct (decide _); cbn [fmap list_fmap length]; lia. Qed.

Lemma counts_set_wait dl w nR nW : counts dl nR nW -> counts (set_wait dl w) nR nW.
Proof. by intros []. Qed.

(** A get request: granted exactly when it is compatible with the holders. *)
Lemma process_get v3 dl c mg nR nW : counts dl nR nW -> is_get c ->
  match process_rw v3 dl (lc_hdr c) mg with
  | (la_grant, dl') =>
      counts dl' (nR + if decide (typ c = lk_read_get) then 1 else 0)
                 (nW + if decide (typ c = lk_write_get) then 1 else 0) /\
      wait_list dl' = wait_list dl /\ wr_epoch dl' = wr_epoch dl /\
      (typ c = lk_read_get -> mg = true) /\ (typ c = lk_write_get -> nR = 0 /\ nW = 0)
  | (la_wait, dl') => dl' = dl /\
      (typ c = lk_read_get -> 0 < nW \/ rd_open v3 dl = false \/ mg = false) /\
      (typ c = lk_write_get -> 0 < nR \/ 0 < nW)
  | _ => False
  end.
Proof.
  intros [Hr Hw Hrs Hws H0 H1 Hex] Hg. unfold process_rw. destruct Hg as [Hg|Hg]; unfold typ in *; rewrite Hg.
  - destruct (decide (lk_read_get = lk_read_get)); [|done]. destruct (decide (lk_read_get = lk_write_get)); [done|].
    rewrite Hws. destruct (Z.ltb_spec 0 nW); cbn [negb andb].
    + split; [done|]. split; [by left|done].
    + destruct (rd_open v3 dl) eqn:Eo; cbn [andb]; [|split; [done|]; split; [by right; left|done]].
      destruct mg; [|split; [done|]; split; [by right; right|done]].
      split; [|done]. constructor; cbn [set_rd rd_cnt wr_cnt rd_lock_state wr_lock_state is_locked];
        rewrite ?Hws, ?Z.add_0_r; try lia; done.
  - destruct (decide (lk_write_get = lk_read_get)); [done|]. destruct (decide (lk_write_get = lk_write_get)); [|done].
    rewrite Hrs, Hw. destruct (Z.ltb_spec 0 nR); cbn [negb andb]; [split; [done|]; split; [done|by left]|].
    destruct (Z.eqb_spec nW 0) as [->|]; [|split; [done|]; split; [done|right; lia]].
    split; [|repeat split; try done; lia].
    constructor; cbn [set_wr rd_cnt wr_cnt rd_lock_state wr_lock_state is_locked];
      rewrite ?Hrs, ?Z.add_0_r; try lia; done.
Qed.

Lemma drain_spec v3 env w : env_ok env -> forall dl nR nW, counts dl nR nW -> Forall is_get w ->
  let '(dl', g, err) := drain (process_rw v3) env dl w in
  err = 0 /\ w = g ++ wait_list dl' /\ counts dl' (nR + nrd g) (nW + nwr g) /\
  head_blocked v3 dl' /\ wr_epoch dl' = wr_epoch dl.
Proof.
  intros He. induction w as [|rr w IH]; intros dl nR nW Hc Hw; cbn [drain].
  { split; [done|]. split; [done|]. split; [|done]. rewrite !Z.add_0_r. by apply counts_set_wait. }
  apply Forall_cons_iff in Hw as [Hr Hw]. pose proof (process_get v3 dl rr true nR nW Hc Hr) as Hp.
  destruct (process_rw v3 dl (lc_hdr rr) true) as [[] dl1]; try done.
  - destruct Hp as (-> & Hpr & Hpw). split; [done|]. split; [done|]. split; [rewrite !Z.add_0_r; by apply counts_set_wait|].
    split; [|done]. unfold head_blocked; cbn [set_wait wait_list wr_cnt rd_cnt]. destruct Hc.
    destruct Hr as [Hr|Hr]; rewrite Hr in *; destruct (decide _); try done.
    + destruct (Hpr eq_refl) as [?|[?|?]]; [left; lia|by right|done].
    + destruct (Hpw eq_refl); [left|right]; lia.
  - rewrite grant_ok by done. cbn [Z.ltb Z.eqb Z.compare]. destruct Hp as (Hc1 & Hwl & Hep & _).
    specialize (IH dl1 _ _ Hc1 Hw). destruct (drain (process_rw v3) env dl1 w) as [[dl' g] err].
    destruct IH as (-> & -> & Hc' & Hb & Hep'). split; [done|]. split; [done|]. rewrite nrd_cons, nwr_cons.
    rewrite !Z.add_assoc. split; [done|]. split; [done|]. congruence.
Qed.

(** ** Invariant *)

Definition nZ {A} (l : list A) : Z := Z.of_nat (length l).

Record linv (v3 : bool) (s : lsys) : Prop := {
  lv_counts : counts (sl s) (nZ (s_rd s)) (nZ (s_wr s));
  lv_gets : Forall is_get (wait_list (sl s));
  lv_head : head_blocked v3 (sl s);
  lv_hist : if v3 then s_arr s ≡ₚ s_gr s ++ wait_list (sl s) else s_arr s = s_gr s ++ wait_list (sl s)
}.

Lemma nZ_app_rds l g : nZ (l ++ rds g) = nZ l + nrd g.
Proof. unfold nZ, nrd. rewrite length_app. lia. Qed.
Lemma nZ_app_wrs l g : nZ (l ++ wrs g) = nZ l + nwr g.
Proof. unfold nZ, nwr. rewrite length_app. lia. Qed.
Lemma nZ_middle {A} (l1 l2 : list A) x : nZ (l1 ++ x :: l2) = nZ (l1 ++ l2) + 1.
Proof. unfold nZ. rewrite !length_app. cbn. lia. Qed.

Lemma head_blocked_mono v3 dl dl' : head_blocked v3 dl -> wait_list dl' = wait_list dl ->
  rd_cnt dl <= rd_cnt dl' -> wr_cnt dl <= wr_cnt dl' -> rd_open v3 dl' = rd_open v3 dl -> head_blocked v3 dl'.
Proof.
  unfold head_blocked. intros Hb -> Hr Hw Ho. destruct (wait_list dl); [done|].
  destruct (decide _); [|lia]. rewrite Ho. destruct Hb; [left; lia|by right].
Qed.

Lemma hist_wait (v3 : bool) (arr gr w : list lock_cmd) cmd :
  (if v3 then arr ≡ₚ gr ++ w else arr = gr ++ w) ->
  (if v3 then arr ++ [cmd] ≡ₚ (gr ++ []) ++ w ++ [cmd] else arr ++ [cmd] = (gr ++ []) ++ w ++ [cmd]).
Proof. rewrite app_nil_r, app_assoc. by destruct v3; intros ->. Qed.

Lemma hist_drain (v3 : bool) (arr gr w g w' : list lock_cmd) : (if v3 then arr ≡ₚ gr ++ w else arr = gr ++ w) -> w = g ++ w' ->
  (if v3 then arr ≡ₚ (gr ++ g) ++ w' else arr = (gr ++ g) ++ w').
Proof. intros H ->. rewrite <- app_assoc. done. Qed.

Lemma process_read_release v3 dl c mg : typ c = lk_read_release ->
  process_rw v3 dl (lc_hdr c) mg =
    if rd_cnt dl - 1 =? 0 then (la_notify, set_rd dl (rd_cnt dl - 1) unlocked)
    else (la_none, set_rd dl (rd_cnt dl - 1) (rd_lock_state dl)).
Proof. unfold process_rw, typ. by intros ->. Qed.

Lemma process_write_release v3 dl c mg : typ c = lk_write_release ->
  process_rw v3 dl (lc_hdr c) mg =
    if wr_cnt dl - 1 =? 0
    then (la_notify, if v3 then set_wr_round (set_wr dl (wr_cnt dl - 1) unlocked) (wr_notify_cnt dl) (wr_epoch dl + 1)
                     else set_wr dl (wr_cnt dl - 1) unlocked)
    else (la_none, set_wr dl (wr_cnt dl - 1) (wr_lock_state dl)).
Proof. unfold process_rw, typ. by intros ->. Qed.

Section rw_step.
Context (v3 : bool) (env : lock_env) (He : env_ok env).

Lemma step_get_inv s cmd dl g : linv v3 s -> is_get cmd -> service_rw v3 env (sl s) cmd = (dl, g, 0) ->
  linv v3 (mk_lsys dl (s_rd s ++ rds g) (s_wr s ++ wrs g) (s_arr s ++ [cmd]) (s_gr s ++ g)).
Proof.
  intros [Hc Hg Hh Hist] Hget E. unfold service_rw in E.
  pose proof (process_get v3 (sl s) cmd (list_empty (wait_list (sl s))) _ _ Hc Hget) as Hp.
  destruct (process_rw _ _ _ _) as [[] dl1]; try done.
  - destruct Hp as (-> & Hpr & Hpw). unfold dsg_lock_put_on_wait in E. rewrite (proj1 He) in E.
    injection E as <- <-. constructor; cbn [sl s_rd s_wr s_arr s_gr set_wait wait_list].
    + cbn [rds wrs]. rewrite !app_nil_r. by apply counts_set_wait.
    + apply Forall_app. split; [done|by apply Forall_singleton].
    + unfold head_blocked in *. cbn [set_wait wait_list rd_cnt wr_cnt].
      destruct (wait_list (sl s)) as [|c w]; [|done]. cbn [app list_empty] in *. destruct Hc.
      destruct Hget as [Hr|Hr]; rewrite Hr in *; destruct (decide _); try done.
      * destruct (Hpr eq_refl) as [?|[?|?]]; [left; lia|by right|done].
      * destruct (Hpw eq_refl); [left|right]; lia.
    + by apply hist_wait.
  - rewrite grant_ok in E by done. injection E as <- <-. destruct Hp as (Hc1 & Hwl & Hep & Hmg & Hw0).
    assert (counts dl1 (nZ (s_rd s ++ rds [cmd])) (nZ (s_wr s ++ wrs [cmd]))) as Hc2.
    { rewrite nZ_app_rds, nZ_app_wrs, nrd_cons, nwr_cons. change (nrd []) with 0. change (nwr []) with 0.
      by rewrite !Z.add_0_r. }
    constructor; cbn [sl s_rd s_wr s_arr s_gr]; rewrite ?Hwl; try done.
    + apply (head_blocked_mono v3 (sl s)); [done|done| | |].
      * destruct Hc, Hc1. destruct (decide (typ cmd = lk_read_get)); lia.
      * destruct Hc, Hc1. destruct (decide (typ cmd = lk_write_get)); lia.
      * unfold rd_open. by rewrite Hep.
    + destruct v3; [by rewrite Hist, <- !app_assoc, (Permutation_app_comm (wait_list (sl s)))|].
      assert (wait_list (sl s) = []) as Hnil.
      { destruct Hget as [Hr|Hr]; [specialize (Hmg Hr); by destruct (wait_list (sl s))|].
        destruct (Hw0 Hr) as [HR HW]. unfold head_blocked, rd_open in Hh. destruct Hc.
        destruct (wait_list (sl s)); [done|]. cbn [negb orb] in Hh. destruct (decide _); lia || (destruct Hh; (lia || done)). }
      rewrite Hist, Hnil. by rewrite !app_nil_r.
Qed.

Lemma step_read_release_inv s cmd l1 l2 dl g : linv v3 s -> typ cmd = lk_read_release ->
  s_rd s = l1 ++ lc_id cmd :: l2 -> service_rw v3 env (sl s) cmd = (dl, g, 0) ->
  linv v3 (mk_lsys dl ((l1 ++ l2) ++ rds g) (s_wr s ++ wrs g) (s_arr s) (s_gr s ++ g)).
Proof.
  intros [Hc Hg Hh Hist] Ht Hhold E. rewrite Hhold, nZ_middle in Hc. set (nR := nZ (l1 ++ l2)) in *.
  assert (0 <= nR) by (unfold nR, nZ; lia). pose proof Hc as [Hr Hw Hrs Hws _ H1 Hex].
  assert (nZ (s_wr s) = 0) as HW by lia.
  unfold service_rw in E. rewrite process_read_release, Hr in E by done.
  replace (nR + 1 - 1) with nR in E by lia. destruct (Z.eqb_spec nR 0) as [Hz|Hnz].
  - assert (counts (set_rd (sl s) nR unlocked) 0 0) as Hc0.
    { constructor; cbn [set_rd rd_cnt wr_cnt rd_lock_state wr_lock_state is_locked]; try lia; try done.
      rewrite Hws, HW. done. }
    pose proof (drain_spec v3 env (wait_list (sl s)) He _ _ _ Hc0 Hg) as Hd.
    change (wait_list (set_rd (sl s) nR unlocked)) with (wait_list (sl s)) in E. rewrite E in Hd.
    destruct Hd as (_ & Hw' & Hc' & Hb & _). constructor; cbn [sl s_rd s_wr s_arr s_gr]; try done.
    + rewrite nZ_app_rds, nZ_app_wrs, HW. fold nR. by rewrite Hz.
    + rewrite Hw' in Hg. by apply Forall_app in Hg as [_ ?].
    + by eapply hist_drain.
  - injection E as <- <-. constructor; cbn [sl s_rd s_wr s_arr s_gr set_rd wait_list]; rewrite ?app_nil_r; try done.
    + fold nR.
      constructor; cbn [set_rd rd_cnt wr_cnt rd_lock_state wr_lock_state is_locked]; try lia; try done.
      rewrite Hrs. destruct (Z.ltb_spec 0 (nR + 1)), (Z.ltb_spec 0 nR); (done || lia).
    + unfold head_blocked in *. cbn [set_rd wait_list rd_cnt wr_cnt]. destruct (wait_list (sl s)); [done|].
      destruct (decide _); [exact Hh|]. left. lia.
Qed.

Lemma step_write_release_inv s cmd l1 l2 dl g : linv v3 s -> typ cmd = lk_write_release ->
  s_wr s = l1 ++ lc_id cmd :: l2 -> service_rw v3 env (sl s) cmd = (dl, g, 0) ->
  linv v3 (mk_lsys dl (s_rd s ++ rds g) ((l1 ++ l2) ++ wrs g) (s_arr s) (s_gr s ++ g)).
Proof.
  intros [Hc Hg Hh Hist] Ht Hhold E. rewrite Hhold, nZ_middle in Hc. set (nW := nZ (l1 ++ l2)) in *.
  assert (0 <= nW) by (unfold nW, nZ; lia). pose proof Hc as [Hr Hw Hrs Hws H0 H1 Hex].
  assert (nW = 0) as Hz by lia. assert (nZ (s_rd s) = 0) as HR by lia.
  unfold service_rw in E. rewrite process_write_release, Hw in E by done.
  replace (nW + 1 - 1) with 0 in E by lia. cbn [Z.eqb] in E.
  set (dl0 := if v3 then _ else _) in E.
  assert (counts dl0 0 0 /\ wait_list dl0 = wait_list (sl s)) as [Hc0 Hw0].
  { subst dl0. destruct v3; (split; [|done]);
      constructor; cbn [set_wr set_wr_round rd_cnt wr_cnt rd_lock_state wr_lock_state is_locked]; try lia; try done;
      rewrite Hrs, HR; done. }
  rewrite Hw0 in E. pose proof (drain_spec v3 env (wait_list (sl s)) He _ _ _ Hc0 Hg) as Hd. rewrite E in Hd.
  destruct Hd as (_ & Hw' & Hc' & Hb & _). constructor; cbn [sl s_rd s_wr s_arr s_gr]; try done.
  - rewrite nZ_app_rds, nZ_app_wrs, HR. fold nW. by rewrite Hz.
  - rewrite Hw' in Hg. by apply Forall_app in Hg as [_ ?].
  - by eapply hist_drain.
Qed.

Lemma lstep_inv s s' : linv v3 s -> lstep (service_rw v3 env) s s' -> linv v3 s'.
Proof.
  intros I H. destruct H; [eapply step_get_inv|eapply step_read_release_inv|eapply step_write_release_inv]; eauto.
Qed.

Lemma rw_reach_inv s s' : linv v3 s -> rtc (lstep (service_rw v3 env)) s s' -> linv v3 s'.
Proof. intros I H. induction H; eauto using lstep_inv. Qed.
End rw_step.

(** ** Order of the first reads (version 3) *)

Lemma drain_closed env w : env_ok env -> forall dl, rd_open true dl = false ->
  forall dl' g err, drain (process_rw true) env dl w = (dl', g, err) -> Forall is_get w -> rds g = [].
Proof.
  intros He. induction w as [|rr w IH]; intros dl Ho dl' g err E Hw; cbn [drain] in E; [by injection E as <- <- <-|].
  apply Forall_cons_iff in Hw as [Hr Hw]. unfold process_rw in E at 1.
  assert (forall c s, rd_open true (set_wr dl c s) = false) as Hset by done.
  destruct Hr as [Hr|Hr]; unfold typ in Hr; rewrite Hr in E.
  - rewrite Ho, andb_false_r in E. cbn [andb] in E. by injection E as <- <- <-.
  - destruct (negb _ && (_ =? 0)); [|by injection E as <- <- <-]. rewrite grant_ok in E by done. cbn [Z.ltb Z.eqb Z.compare] in E.
    destruct (drain (process_rw true) env _ w) as [[dl1 g1] e1] eqn:E1. injection E as <- <- <-.
    unfold rds. rewrite filter_cons. destruct (decide _) as [Hx|_]; [unfold typ in Hx; congruence|]. exact (IH _ (Hset _ _) _ _ _ E1 Hw).
Qed.

(** Reads are granted only after a write. *)
Definition reads_after_write (gr : list lock_cmd) : Prop :=
  forall g1 c g2, gr = g1 ++ c :: g2 -> typ c = lk_read_get -> wrs g1 <> [].

Lemma wrs_app g1 g2 : wrs (g1 ++ g2) = wrs g1 ++ wrs g2.
Proof. unfold wrs. by rewrite list.filter_app, fmap_app. Qed.
Lemma rds_app g1 g2 : rds (g1 ++ g2) = rds g1 ++ rds g2.
Proof. unfold rds. by rewrite list.filter_app, fmap_app. Qed.

Lemma rds_in g c : c ∈ g -> typ c = lk_read_get -> rds g <> [].
Proof.
  intros (l1 & l2 & ->)%list_elem_of_split Ht. rewrite rds_app. unfold rds at 2. rewrite filter_cons.
  destruct (decide _); [|done]. by destruct (rds l1).
Qed.

Lemma reads_after_write_app gr g : reads_after_write gr -> (rds g <> [] -> wrs gr <> []) -> reads_after_write (gr ++ g).
Proof.
  intros H Hg g1 c g2 E Ht. apply app_eq_app in E as (l & [[-> E]|[-> E]]).
  - destruct l as [|x l]; cbn [app] in E.
    + rewrite app_nil_r in *. apply Hg. subst g. eapply rds_in; [apply list_elem_of_here|done].
    + injection E as <- ->. by apply (H g1 c l).
  - rewrite wrs_app. destruct (wrs gr) eqn:Ew; [|done]. exfalso. apply Hg; [|done]. subst g.
    eapply rds_in; [|exact Ht]. apply elem_of_app. right. apply list_elem_of_here.
Qed.

Record oinv (s : lsys) : Prop := {
  oi_order : reads_after_write (s_gr s);
  oi_epoch : 0 < wr_epoch (sl s) -> wrs (s_gr s) <> [];
  oi_hold : s_wr s <> [] -> wrs (s_gr s) <> []
}.

Lemma oinv_intro dl R W arr gr g : reads_after_write gr -> (rds g <> [] -> wrs gr <> []) ->
  (0 < wr_epoch dl -> wrs gr <> []) -> (W <> [] -> wrs (gr ++ g) <> []) -> oinv (mk_lsys dl R W arr (gr ++ g)).
Proof.
  intros Ho Hg He Hw. constructor; cbn [sl s_gr s_wr]; [by apply reads_after_write_app| |done].
  intros H. rewrite wrs_app. specialize (He H). by destruct (wrs gr).
Qed.

Lemma app_wrs_nonempty W gr g : (W <> [] -> wrs gr <> []) -> W ++ wrs g <> [] -> wrs (gr ++ g) <> [].
Proof. intros H HW. rewrite wrs_app. destruct W; [|destruct (wrs gr); [by destruct H|done]]. by destruct (wrs gr). Qed.

Lemma drain_order env w dl dl' g gr : env_ok env -> Forall is_get w ->
  drain (process_rw true) env dl w = (dl', g, 0) -> (0 < wr_epoch dl -> wrs gr <> []) ->
  rds g <> [] -> wrs gr <> [].
Proof.
  intros He Hw E H Hr. apply H. destruct (Z.ltb_spec 0 (wr_epoch dl)); [done|]. exfalso. apply Hr.
  eapply drain_closed; eauto. unfold rd_open. cbn [negb orb]. by apply Z.ltb_ge.
Qed.

Lemma get_order env s cmd dl g : env_ok env -> linv true s -> oinv s -> is_get cmd ->
  service_rw true env (sl s) cmd = (dl, g, 0) ->
  (rds g <> [] -> wrs (s_gr s) <> []) /\ wr_epoch dl = wr_epoch (sl s).
Proof.
  intros He [Hc _ _ _] [_ Hep _] Hg E. unfold service_rw, process_rw in E.
  destruct Hg as [Hg|Hg]; unfold typ in Hg; rewrite Hg in E.
  - destruct (negb _ && rd_open true (sl s) && _) eqn:Eo.
    + rewrite grant_ok in E by done. injection E as <- <-. split; [|done]. intros _. apply Hep.
      apply andb_true_iff in Eo as [[_ Eo]%andb_true_iff _]. by apply Z.ltb_lt.
    + unfold dsg_lock_put_on_wait in E. rewrite (proj1 He) in E. by injection E as <- <-.
  - destruct (negb _ && (_ =? 0)).
    + rewrite grant_ok in E by done. injection E as <- <-. split; [|done]. unfold rds. rewrite filter_cons.
      destruct (decide _) as [Hx|_]; [unfold typ in Hx; congruence|done].
    + unfold dsg_lock_put_on_wait in E. rewrite (proj1 He) in E. by injection E as <- <-.
Qed.

Lemma rrel_order env s cmd dl g : env_ok env -> linv true s -> oinv s -> typ cmd = lk_read_release ->
  service_rw true env (sl s) cmd = (dl, g, 0) ->
  (rds g <> [] -> wrs (s_gr s) <> []) /\ wr_epoch dl = wr_epoch (sl s).
Proof.
  intros He [Hc Hg _ _] [_ Hep _] Ht E. unfold service_rw in E. rewrite process_read_release in E by done.
  destruct (_ =? 0) eqn:Ez; [|by injection E as <- <-]. split; [by eapply drain_order|].
  assert (nZ (s_wr s) = 0) as HW.
  { apply Z.eqb_eq in Ez. destruct Hc. lia. }
  assert (counts (set_rd (sl s) (rd_cnt (sl s) - 1) unlocked) 0 0) as Hc0.
  { apply Z.eqb_eq in Ez. destruct Hc.
    constructor; cbn [set_rd rd_cnt wr_cnt rd_lock_state wr_lock_state is_locked]; try lia; try done.
    by rewrite co_ws0, HW. }
  pose proof (drain_spec true env _ He _ _ _ Hc0 Hg) as Hd. cbn [set_rd wait_list] in E. unfold set_rd in Hd, E.
  rewrite E in Hd. by destruct Hd as (_ & _ & _ & _ & ->).
Qed.

Lemma lstep_oinv env s s' : env_ok env -> linv true s -> oinv s -> lstep (service_rw true env) s s' -> oinv s'.
Proof.
  intros He I O H. destruct H as [s cmd dl g Hg E|s cmd l1 l2 dl g Ht Hh E|s cmd l1 l2 dl g Ht Hh E].
  - destruct (get_order _ _ _ _ _ He I O Hg E) as [Hr Hw]. apply oinv_intro; try apply O; [done|rewrite Hw; apply O|].
    apply app_wrs_nonempty, O.
  - destruct (rrel_order _ _ _ _ _ He I O Ht E) as [Hr Hw]. apply oinv_intro; try apply O; [done|rewrite Hw; apply O|].
    apply app_wrs_nonempty, O.
  - assert (wrs (s_gr s) <> []) as Hne by (apply (oi_hold s O); rewrite Hh; by destruct l1).
    apply oinv_intro; try apply O; try done. intros _. rewrite wrs_app. by destruct (wrs (s_gr s)).
Qed.

Lemma reach_oinv env s s' : env_ok env -> linv true s -> oinv s -> rtc (lstep (service_rw true env)) s s' -> oinv s'.
Proof. intros He I O H. revert I O. induction H; [done|]. intros I O. apply IHrtc; eauto using lstep_inv, lstep_oinv. Qed.

(** ** Consequences of the invariant *)

Definition exclusive (s : lsys) : Prop :=
  s_wr s = [] \/ (s_rd s = [] /\ exists w, s_wr s = [w]).

Lemma nZ_zero {A} (l : list A) : nZ l = 0 -> l = [].
Proof. unfold nZ. destruct l; [done|]. cbn. lia. Qed.

Lemma counts_exclusive s : counts (sl s) (nZ (s_rd s)) (nZ (s_wr s)) -> exclusive s.
Proof.
  intros [_ _ _ _ _ Hw He]. unfold exclusive.
  destruct (s_wr s) as [|w [|w2 l]]; [by left| |unfold nZ in Hw; cbn in Hw; lia].
  right. split; [apply nZ_zero; unfold nZ in *; cbn in He; lia|by exists w].
Qed.

Lemma linv_init v3 kind name mr dl : dsg_lock_alloc name kind mr = Some dl ->
  kind = lock_generic \/ kind = lock_v3 -> linv v3 (lsys_init dl).
Proof.
  intros E [-> | ->]; injection E as <-; constructor; cbn; try done;
    first [by apply Forall_nil|by destruct v3|unfold nZ; constructor; cbn; (done || lia)].
Qed.

Lemma oinv_init name mr dl : dsg_lock_alloc name lock_v3 mr = Some dl -> oinv (lsys_init dl).
Proof. intros E; injection E as <-. constructor; cbn; [|lia|done]. by intros [] ? ?. Qed.

Lemma lstep_ext sv1 sv2 : (forall dl c, sv1 dl c = sv2 dl c) -> forall s s', lstep sv1 s s' -> lstep sv2 s s'.
Proof.
  intros H s s' []; [apply step_get|eapply step_read_release|eapply step_write_release]; eauto; by rewrite <- H.
Qed.

Lemma rtc_lstep_ext sv1 sv2 : (forall dl c, sv1 dl c = sv2 dl c) -> forall s s', rtc (lstep sv1) s s' -> rtc (lstep sv2) s s'.
Proof. intros H s s' R. induction R; [apply rtc_refl|]. eapply rtc_l; [by eapply lstep_ext|done]. Qed.

Lemma service_get_total v3 env dl c : env_ok env -> is_get c -> exists dl' g, service_rw v3 env dl c = (dl', g, 0).
Proof.
  intros He Hg. unfold service_rw, process_rw, dsg_lock_put_on_wait. rewrite (proj1 He).
  destruct Hg as [Hg|Hg]; unfold typ in Hg; rewrite Hg; destruct (_ && _); rewrite ?grant_ok by done; eauto.
Qed.

(** The release by the last holder. *)
Lemma last_release_wakes v3 env s cmd c w dl g err : env_ok env -> linv v3 s -> (v3 = true -> 0 < wr_epoch (sl s)) ->
  typ cmd = lk_read_release /\ s_rd s = [lc_id cmd] \/ typ cmd = lk_write_release /\ s_wr s = [lc_id cmd] ->
  wait_list (sl s) = c :: w -> service_rw v3 env (sl s) cmd = (dl, g, err) -> exists g', g = c :: g'.
Proof.
  intros He [Hc Hg Hh _] Hv Hrel Hw E.
  assert (exists dl0, drain (process_rw v3) env dl0 (c :: w) = (dl, g, err) /\ counts dl0 0 0 /\ rd_open v3 dl0 = true)
    as (dl0 & E0 & Hc0 & Ho).
  { assert (forall d, wr_epoch (sl s) <= wr_epoch d -> rd_open v3 d = true) as Hop.
    { intros d Hd. unfold rd_open. destruct v3; [|done]. specialize (Hv eq_refl). apply Z.ltb_lt. lia. }
    destruct Hc as [Hr Hwc Hrs Hws H0 H1 Hex]. unfold service_rw in E. destruct Hrel as [[Ht HR]|[Ht HW]].
    - rewrite HR in *. change (nZ [lc_id cmd]) with 1 in *. rewrite process_read_release, Hr in E by done.
      change (1 - 1 =? 0) with true in E. cbn [set_rd wait_list] in E. rewrite Hw in E. eexists; split; [exact E|]. split; [|by apply Hop].
      constructor; cbn; try lia; try done. rewrite Hws. apply Z.ltb_ge. lia.
    - rewrite HW in *. change (nZ [lc_id cmd]) with 1 in *. rewrite process_write_release, Hwc in E by done.
      change (1 - 1 =? 0) with true in E.
      assert ((0 <? nZ (s_rd s)) = false) as Hz by (apply Z.ltb_ge; lia).
      destruct v3; eexists; (split; [rewrite <- Hw; exact E|]);
        (split; [constructor; cbn; try lia; try done; congruence|apply Hop; cbn; lia]). }
  cbn [drain] in E0. rewrite Hw in Hg. apply Forall_cons_iff in Hg as [Hget _].
  pose proof (process_get v3 dl0 c true 0 0 Hc0 Hget) as Hp.
  destruct (process_rw v3 dl0 (lc_hdr c) true) as [[] d1]; try done.
  - destruct Hp as (-> & Hp1 & Hp2). destruct Hget as [Ht|Ht].
    + destruct (Hp1 Ht) as [?|[?|?]]; [lia|congruence|done].
    + destruct (Hp2 Ht); lia.
  - rewrite grant_ok in E0 by done. cbn [Z.ltb Z.eqb Z.compare] in E0.
    destruct (drain _ _ _ _) as [[? ?] ?]. injection E0 as <- <- <-. eauto.
Qed.

(** ** Custom locks

    A waiting request is blocked when no permit of its round is left. *)

Definition sem_blocked (dl : dsg_lock) (c : lock_cmd) : Prop :=
  (typ c = lk_read_get -> rd_cnt dl <= 0 \/ lock_num (lc_hdr c) <> rd_epoch dl) /\
  (typ c = lk_write_get -> wr_cnt dl <= 0 \/ lock_num (lc_hdr c) <> wr_epoch dl).

(** Everything but the two permit counters and the wait list. *)
Definition same_round (dl dl' : dsg_lock) : Prop :=
  rd_notify_cnt dl' = rd_notify_cnt dl /\ wr_notify_cnt dl' = wr_notify_cnt dl /\
  rd_max dl' = rd_max dl /\ wr_max dl' = wr_max dl /\ rd_epoch dl' = rd_epoch dl /\ wr_epoch dl' = wr_epoch dl.

Lemma same_round_refl dl : same_round dl dl.
Proof. by unfold same_round. Qed.
Lemma same_round_trans d1 d2 d3 : same_round d1 d2 -> same_round d2 d3 -> same_round d1 d3.
Proof. unfold same_round. intros (-> & -> & -> & -> & -> & ->) H. done. Qed.

Lemma sem_blocked_mono dl dl' c : sem_blocked dl c -> same_round dl dl' ->
  rd_cnt dl' <= rd_cnt dl -> wr_cnt dl' <= wr_cnt dl -> sem_blocked dl' c.
Proof.
  intros [H1 H2] (_ & _ & _ & _ & Hre & Hwe) Hr Hw. split; intros Ht; rewrite ?Hre, ?Hwe.
  - destruct (H1 Ht); [left; lia|by right].
  - destruct (H2 Ht); [left; lia|by right].
Qed.

(** A request is granted exactly when a permit of its round is left. *)
Lemma sem_get dl c mg : is_get c ->
  match sem_process_request dl (lc_hdr c) mg with
  | (la_grant, dl') =>
      ~ sem_blocked dl c /\ same_round dl dl' /\ wait_list dl' = wait_list dl /\
      rd_cnt dl' = rd_cnt dl - (if decide (typ c = lk_read_get) then 1 else 0) /\
      wr_cnt dl' = wr_cnt dl - (if decide (typ c = lk_write_get) then 1 else 0)
  | (la_wait, dl') => dl' = dl /\ sem_blocked dl c
  | _ => False
  end.
Proof.
  intros Hg. unfold sem_process_request, sem_blocked. destruct Hg as [Hg|Hg]; unfold typ in *; rewrite Hg.
  - destruct (decide (lk_read_get = lk_read_get)); [|done]. destruct (decide (lk_read_get = lk_write_get)); [done|].
    destruct (Z.ltb_spec 0 (rd_cnt dl)), (Z.eqb_spec (lock_num (lc_hdr c)) (rd_epoch dl)); cbn [andb].
    1: { split; [intros [[?|?] _]; [done|lia|done]|]. cbn. rewrite Z.sub_0_r. repeat split. }
    all: split; [done|]; split; [intros _|done]; auto with lia.
  - destruct (decide (lk_write_get = lk_read_get)); [done|]. destruct (decide (lk_write_get = lk_write_get)); [|done].
    destruct (Z.ltb_spec 0 (wr_cnt dl)), (Z.eqb_spec (lock_num (lc_hdr c)) (wr_epoch dl)); cbn [andb].
    1: { split; [intros [_ [?|?]]; [done|lia|done]|]. cbn. rewrite Z.sub_0_r. repeat split. }
    all: split; [done|]; split; [done|intros _]; auto with lia.
Qed.

Lemma nrd_nonneg g : 0 <= nrd g.
Proof. unfold nrd. lia. Qed.
Lemma nwr_nonneg g : 0 <= nwr g.
Proof. unfold nwr. lia. Qed.

Lemma sem_scan_spec env w : env_ok env -> Forall is_get w -> forall dl dl' kept g err,
  sem_scan env dl w = (dl', kept, g, err) ->
  err = 0 /\ w ≡ₚ g ++ kept /\ same_round dl dl' /\ rd_cnt dl' = rd_cnt dl - nrd g /\ wr_cnt dl' = wr_cnt dl - nwr g /\
  Forall (sem_blocked dl') kept /\ (rd_cnt dl >= 0 -> rd_cnt dl' >= 0) /\ (wr_cnt dl >= 0 -> wr_cnt dl' >= 0).
Proof.
  intros He Hw. induction Hw as [|rr w Hr Hw IH]; intros dl dl' kept g err E; cbn [sem_scan] in E.
  { injection E as <- <- <- <-. change (nrd []) with 0. change (nwr []) with 0. rewrite !Z.sub_0_r.
    split; [done|]. split; [done|]. split; [apply same_round_refl|]. repeat split; auto. }
  pose proof (sem_get dl rr true Hr) as Hp. destruct (sem_process_request dl (lc_hdr rr) true) as [[] d1]; try done.
  - destruct Hp as [-> Hb]. destruct (sem_scan env dl w) as [[[d2 k2] g2] e2] eqn:E2. injection E as <- <- <- <-.
    destruct (IH _ _ _ _ _ E2) as (-> & Hpm & Hsr & Hrc & Hwc & Hk & Hn1 & Hn2). split; [done|].
    split; [rewrite Hpm; by rewrite Permutation_middle|]. repeat (split; [done|]). split; [|done].
    apply Forall_cons_iff. split; [|done]. apply (sem_blocked_mono dl); [done|done| |];
      pose proof (nrd_nonneg g2); pose proof (nwr_nonneg g2); lia.
  - rewrite grant_ok in E by done. cbn [Z.ltb Z.eqb Z.compare] in E. destruct Hp as (Hnb & Hsr1 & _ & Hr1 & Hw1).
    destruct (sem_scan env d1 w) as [[[d2 k2] g2] e2] eqn:E2. injection E as <- <- <- <-.
    destruct (IH _ _ _ _ _ E2) as (-> & Hpm & Hsr & Hrc & Hwc & Hk & Hn1 & Hn2). split; [done|].
    split; [by rewrite Hpm|]. split; [by eapply same_round_trans|].
    rewrite nrd_cons, nwr_cons. split; [lia|]. split; [lia|]. split; [done|].
    unfold sem_blocked in Hnb. split; intros H.
    + apply Hn1. destruct (decide (typ rr = lk_read_get)) as [Ht|]; [|lia].
      destruct (Z.leb_spec (rd_cnt dl) 0); [|lia]. exfalso. apply Hnb. rewrite Ht. split; [auto|done].
    + apply Hn2. destruct (decide (typ rr = lk_write_get)) as [Ht|]; [|lia].
      destruct (Z.leb_spec (wr_cnt dl) 0); [|lia]. exfalso. apply Hnb. rewrite Ht. split; [done|auto].
Qed.

(** Grants of the round with lock number [e]. *)
Definition round_of (e : Z) (g : list lock_cmd) : list lock_cmd := filter (fun c => lock_num (lc_hdr c) = e) g.
Definition reads_of (e : Z) (g : list lock_cmd) : Z := nrd (round_of e g).
Definition writes_of (e : Z) (g : list lock_cmd) : Z := nwr (round_of e g).

Lemma nrd_app g1 g2 : nrd (g1 ++ g2) = nrd g1 + nrd g2.
Proof. unfold nrd. rewrite rds_app, length_app. lia. Qed.
Lemma nwr_app g1 g2 : nwr (g1 ++ g2) = nwr g1 + nwr g2.
Proof. unfold nwr. rewrite wrs_app, length_app. lia. Qed.
Lemma reads_of_app e g1 g2 : reads_of e (g1 ++ g2) = reads_of e g1 + reads_of e g2.
Proof. unfold reads_of, round_of. by rewrite list.filter_app, nrd_app. Qed.
Lemma writes_of_app e g1 g2 : writes_of e (g1 ++ g2) = writes_of e g1 + writes_of e g2.
Proof. unfold writes_of, round_of. by rewrite list.filter_app, nwr_app. Qed.

(** A grant carries the number of the current round. *)
Definition in_round (dl : dsg_lock) (c : lock_cmd) : Prop :=
  (typ c = lk_read_get -> lock_num (lc_hdr c) = rd_epoch dl) /\
  (typ c = lk_write_get -> lock_num (lc_hdr c) = wr_epoch dl).

Lemma reads_of_round dl g e : Forall (in_round dl) g -> reads_of e g = if e =? rd_epoch dl then nrd g else 0.
Proof.
  induction 1 as [|c g [Hr _] _ IH]; [by case_match|]. unfold reads_of, round_of in *. rewrite filter_cons, nrd_cons.
  destruct (decide (lock_num (lc_hdr c) = e)) as [He|He]; rewrite ?nrd_cons, IH;
    destruct (decide (typ c = lk_read_get)) as [Ht|_]; try rewrite (Hr Ht) in *; destruct (Z.eqb_spec e (rd_epoch dl)); lia.
Qed.

Lemma writes_of_round dl g e : Forall (in_round dl) g -> writes_of e g = if e =? wr_epoch dl then nwr g else 0.
Proof.
  induction 1 as [|c g [_ Hr] _ IH]; [by case_match|]. unfold writes_of, round_of in *. rewrite filter_cons, nwr_cons.
  destruct (decide (lock_num (lc_hdr c) = e)) as [He|He]; rewrite ?nwr_cons, IH;
    destruct (decide (typ c = lk_write_get)) as [Ht|_]; try rewrite (Hr Ht) in *; destruct (Z.eqb_spec e (wr_epoch dl)); lia.
Qed.

Lemma not_blocked_in_round dl c : ~ sem_blocked dl c -> in_round dl c.
Proof.
  intros H. split; intros Ht; destruct (Z.eq_dec (lock_num (lc_hdr c)) (if decide (typ c = lk_read_get) then rd_epoch dl else wr_epoch dl)) as [E|E];
    rewrite Ht in E; try done; exfalso; apply H; unfold sem_blocked; rewrite Ht; (split; [|]); try done; auto.
Qed.

Lemma in_round_same dl dl' c : same_round dl dl' -> in_round dl' c -> in_round dl c.
Proof. intros (_ & _ & _ & _ & H1 & H2) H. unfold in_round in *. by rewrite <- H1, <- H2. Qed.

Lemma sem_scan_round env w : env_ok env -> Forall is_get w -> forall dl dl' kept g err,
  sem_scan env dl w = (dl', kept, g, err) -> Forall (in_round dl) g.
Proof.
  intros He Hw. induction Hw as [|rr w Hr Hw IH]; intros dl dl' kept g err E; cbn [sem_scan] in E; [by injection E as <- <- <- <-|].
  pose proof (sem_get dl rr true Hr) as Hp. destruct (sem_process_request dl (lc_hdr rr) true) as [[] d1]; try done.
  - destruct Hp as [-> Hb]. destruct (sem_scan env dl w) as [[[d2 k2] g2] e2] eqn:E2. injection E as <- <- <- <-. eauto.
  - rewrite grant_ok in E by done. cbn [Z.ltb Z.eqb Z.compare] in E. destruct Hp as (Hnb & Hsr1 & _).
    destruct (sem_scan env d1 w) as [[[d2 k2] g2] e2] eqn:E2. injection E as <- <- <- <-. apply Forall_cons_iff.
    split; [by apply not_blocked_in_round|]. eapply list.Forall_impl; [by eapply IH|]. intros. by eapply in_round_same.
Qed.

(** ** Rounds

    [nR] and [nW] clients hold the lock.  A round starts in its write phase
    (both epochs equal) and continues in its read phase. *)

Inductive sem_phase (m : Z) (dl : dsg_lock) (nR nW : Z) : Prop :=
  | write_phase : rd_epoch dl = wr_epoch dl -> rd_cnt dl = 0 -> nR = 0 -> rd_notify_cnt dl = 0 ->
      wr_cnt dl + nW = 1 -> sem_phase m dl nR nW
  | read_phase : wr_epoch dl = rd_epoch dl + 1 -> wr_cnt dl = 0 -> nW = 0 ->
      rd_cnt dl + nR + rd_notify_cnt dl = m -> 0 <= rd_notify_cnt dl < m -> sem_phase m dl nR nW.

(** The grants due to the round [e] so far. *)
Definition reads_due (m : Z) (dl : dsg_lock) (e : Z) : Z :=
  if (0 <=? e) && (e <? rd_epoch dl) then m
  else if (e =? rd_epoch dl) && negb (wr_epoch dl =? rd_epoch dl) then m - rd_cnt dl else 0.
Definition writes_due (dl : dsg_lock) (e : Z) : Z :=
  if (0 <=? e) && (e <? wr_epoch dl) then 1
  else if (e =? wr_epoch dl) && (wr_epoch dl =? rd_epoch dl) then 1 - wr_cnt dl else 0.

Record score (m : Z) (dl : dsg_lock) (nR nW : Z) (gr : list lock_cmd) : Prop := {
  sc_max : rd_max dl = m /\ wr_max dl = 1 /\ wr_notify_cnt dl = 0 /\ 0 <= rd_epoch dl;
  sc_phase : sem_phase m dl nR nW;
  sc_cnt : 0 <= rd_cnt dl /\ 0 <= wr_cnt dl /\ 0 <= nR /\ 0 <= nW;
  sc_reads : forall e, reads_of e gr = reads_due m dl e;
  sc_writes : forall e, writes_of e gr = writes_due dl e
}.

Ltac due_solve := unfold reads_due, writes_due in *;
  repeat match goal with
  | |- context [?a <=? ?b] => destruct (Z.leb_spec a b)
  | |- context [?a <? ?b] => destruct (Z.ltb_spec a b)
  | |- context [?a =? ?b] => destruct (Z.eqb_spec a b)
  end; cbn [andb negb]; lia.

Lemma score_grants m dl dl' nR nW gr g : score m dl nR nW gr -> same_round dl dl' ->
  rd_cnt dl' = rd_cnt dl - nrd g -> wr_cnt dl' = wr_cnt dl - nwr g -> 0 <= rd_cnt dl' -> 0 <= wr_cnt dl' ->
  Forall (in_round dl) g -> score m dl' (nR + nrd g) (nW + nwr g) (gr ++ g).
Proof.
  intros [Hm Hp Hc Hr Hw] (Hrn & Hwn & Hrm & Hwm & Hre & Hwe) Hrc Hwc Hr0 Hw0 Hg.
  pose proof (nrd_nonneg g). pose proof (nwr_nonneg g). constructor.
  - rewrite Hrm, Hwm, Hwn, Hre. done.
  - destruct Hp; [apply write_phase|apply read_phase]; rewrite ?Hrn, ?Hre, ?Hwe; lia.
  - lia.
  - intros e. rewrite reads_of_app, (reads_of_round dl g) by done. rewrite Hr.
    unfold reads_due. rewrite Hre, Hwe, Hrc. destruct Hp; due_solve.
  - intros e. rewrite writes_of_app, (writes_of_round dl g) by done. rewrite Hw.
    unfold writes_due. rewrite Hre, Hwe, Hwc. destruct Hp; due_solve.
Qed.

(** The writer releases: the read phase of the round starts. *)
Lemma score_write_release m dl nR nW gr lh mg : 1 <= m -> score m dl nR (nW + 1) gr -> 0 <= nW ->
  lh_type lh = lk_write_release ->
  exists dl', sem_process_request dl lh mg = (la_notify, dl') /\ score m dl' nR nW gr /\ wait_list dl' = wait_list dl.
Proof.
  intros Hm1 [(Hm & Hwm & Hwn & He0) Hp Hc Hr Hw] H0 Ht. unfold sem_process_request. rewrite Ht, Hwn, Hwm.
  cbn [Z.add Z.eqb Pos.eqb]. eexists; split; [done|]. split; [|done].
  destruct Hp as [Hep Hrc HnR Hn Hwc|]; [|lia]. assert (wr_cnt dl = 0) by lia.
  constructor; cbn [set_wr_round set_rd rd_max wr_max wr_notify_cnt rd_epoch rd_cnt wr_cnt]; [done| |lia| |].
  - apply read_phase; cbn; lia.
  - intros e. rewrite Hr. unfold reads_due. cbn. rewrite Hep. due_solve.
  - intros e. rewrite Hw. unfold writes_due. cbn. rewrite Hep. due_solve.
Qed.

(** A reader releases: the last one starts the next round. *)
Lemma score_read_release m dl nR nW gr lh mg : 1 <= m -> score m dl (nR + 1) nW gr -> 0 <= nR ->
  lh_type lh = lk_read_release ->
  exists a dl', sem_process_request dl lh mg = (a, dl') /\ score m dl' nR nW gr /\ wait_list dl' = wait_list dl /\
    (a = la_notify \/ a = la_none /\ rd_cnt dl' = rd_cnt dl /\ wr_cnt dl' = wr_cnt dl /\
       rd_epoch dl' = rd_epoch dl /\ wr_epoch dl' = wr_epoch dl).
Proof.
  intros Hm1 [(Hm & Hwm & Hwn & He0) Hp Hc Hr Hw] H0 Ht. unfold sem_process_request. rewrite Ht.
  destruct Hp as [|Hep Hwc HnW Hsum Hn]; [lia|]. rewrite Hm.
  destruct (Z.eqb_spec (rd_notify_cnt dl + 1) m) as [E|E]; do 2 eexists; (split; [done|]); (split; [|split; [done|]]);
    [|by left| |by right].
  - constructor; cbn [set_wr set_rd_round rd_max wr_max wr_notify_cnt rd_epoch rd_cnt wr_cnt]; [lia| |lia| |].
    + apply write_phase; cbn; lia.
    + intros e. rewrite Hr. unfold reads_due. cbn. rewrite Hep. due_solve.
    + intros e. rewrite Hw. unfold writes_due. cbn. rewrite Hep. due_solve.
  - constructor; cbn [set_rd_round rd_max wr_max wr_notify_cnt rd_epoch rd_cnt wr_cnt]; [lia| |lia| |].
    + apply read_phase; cbn; lia.
    + intros e. rewrite Hr. done.
    + intros e. rewrite Hw. done.
Qed.

Record sinv (m : Z) (s : lsys) : Prop := {
  si_core : score m (sl s) (nZ (s_rd s)) (nZ (s_wr s)) (s_gr s);
  si_gets : Forall is_get (wait_list (sl s));
  si_blocked : Forall (sem_blocked (sl s)) (wait_list (sl s));
  si_hist : s_arr s ≡ₚ s_gr s ++ wait_list (sl s)
}.

Section sem_step.
Context (m : Z) (env : lock_env) (Hm : 1 <= m) (He : env_ok env).

Lemma sem_get_inv s cmd dl g : sinv m s -> is_get cmd -> sem_service env (sl s) cmd = (dl, g, 0) ->
  sinv m (mk_lsys dl (s_rd s ++ rds g) (s_wr s ++ wrs g) (s_arr s ++ [cmd]) (s_gr s ++ g)).
Proof using m env He.
  intros [Hc Hg Hb Hh] Hget E. unfold sem_service in E. pose proof (sem_get (sl s) cmd false Hget) as Hp.
  destruct (sem_process_request (sl s) (lc_hdr cmd) false) as [[] d1]; try done.
  - destruct Hp as [-> Hbl]. unfold dsg_lock_put_on_wait in E. rewrite (proj1 He) in E. injection E as <- <-.
    constructor; cbn [sl s_rd s_wr s_arr s_gr set_wait wait_list]; rewrite ?app_nil_r.
    + by destruct Hc as [? [] ? ? ?]; constructor; try done; [apply write_phase|apply read_phase].
    + apply Forall_app_2; [done|by apply Forall_singleton].
    + apply Forall_app_2; [done|by apply Forall_singleton].
    + by rewrite Hh, app_assoc.
  - rewrite grant_ok in E by done. injection E as <- <-. destruct Hp as (Hnb & Hsr & Hwl & Hrc & Hwc).
    assert (nrd [cmd] = if decide (typ cmd = lk_read_get) then 1 else 0) as Hr1 by (rewrite nrd_cons; change (nrd []) with 0; lia).
    assert (nwr [cmd] = if decide (typ cmd = lk_write_get) then 1 else 0) as Hw1 by (rewrite nwr_cons; change (nwr []) with 0; lia).
    assert (0 <= rd_cnt d1 /\ 0 <= wr_cnt d1) as [? ?].
    { destruct Hc as [_ _ (?&?&_) _ _]. unfold sem_blocked in Hnb.
      destruct (decide (typ cmd = lk_read_get)) as [Ht|Ht], (decide (typ cmd = lk_write_get)) as [Ht'|Ht']; [congruence| | |lia].
      - destruct (Z.leb_spec (rd_cnt (sl s)) 0); [|lia]. exfalso. apply Hnb. split; [auto|done].
      - destruct (Z.leb_spec (wr_cnt (sl s)) 0); [|lia]. exfalso. apply Hnb. split; [done|auto]. }
    constructor; cbn [sl s_rd s_wr s_arr s_gr]; rewrite ?Hwl; try done.
    + rewrite nZ_app_rds, nZ_app_wrs. apply (score_grants m (sl s)); try done; try lia.
      apply Forall_singleton. by apply not_blocked_in_round.
    + eapply list.Forall_impl; [exact Hb|]. intros c Hcb. apply (sem_blocked_mono (sl s)); try done; repeat case_decide; lia.
    + by rewrite Hh, <- !app_assoc, (Permutation_app_comm (wait_list (sl s))).
Qed.

Lemma sem_notify_inv dl nR nW arr gr dl' g R W : score m dl nR nW gr -> Forall is_get (wait_list dl) ->
  arr ≡ₚ gr ++ wait_list dl -> nZ R = nR -> nZ W = nW -> sem_process_wait_list env dl = (dl', g, 0) ->
  sinv m (mk_lsys dl' (R ++ rds g) (W ++ wrs g) arr (gr ++ g)).
Proof using m env He.
  intros Hc Hg Hh HR HW E. unfold sem_process_wait_list in E.
  destruct (sem_scan env dl (wait_list dl)) as [[[d k] g1] e] eqn:Es. injection E as <- <- ->.
  destruct (sem_scan_spec _ _ He Hg _ _ _ _ _ Es) as (_ & Hpm & Hsr & Hrc & Hwc & Hk & Hn1 & Hn2).
  pose proof (sem_scan_round _ _ He Hg _ _ _ _ _ Es) as Hro. destruct (sc_cnt _ _ _ _ _ Hc) as (? & ? & _).
  constructor; cbn [sl s_rd s_wr s_arr s_gr set_wait wait_list]; try done.
  - rewrite nZ_app_rds, nZ_app_wrs, HR, HW. apply (score_grants m dl); try done; cbn; lia.
  - rewrite Hpm in Hg. by apply Forall_app in Hg as [_ ?].
  - by rewrite Hh, Hpm, app_assoc.
Qed.

Lemma sem_release_inv s cmd dl g R W : sinv m s ->
  typ cmd = lk_read_release /\ nZ (s_rd s) = nZ R + 1 /\ W = s_wr s \/
  typ cmd = lk_write_release /\ nZ (s_wr s) = nZ W + 1 /\ R = s_rd s ->
  sem_service env (sl s) cmd = (dl, g, 0) ->
  sinv m (mk_lsys dl (R ++ rds g) (W ++ wrs g) (s_arr s) (s_gr s ++ g)).
Proof using m env Hm He.
  intros [Hc Hg Hb Hh] Hrel E. unfold sem_service in E.
  assert (forall A (l : list A), 0 <= nZ l) as Hnn by (intros; unfold nZ; lia).
  destruct Hrel as [(Ht & HR & ->)|(Ht & HW & ->)].
  - rewrite HR in Hc. destruct (score_read_release _ _ _ _ _ (lc_hdr cmd) false Hm Hc (Hnn _ _) Ht)
      as (a & d & Ed & Hc' & Hwl & Ha). rewrite Ed in E.
    destruct Ha as [->|(-> & Hr1 & Hw1 & Hr2 & Hw2)].
    + by eapply (sem_notify_inv d); rewrite ?Hwl.
    + injection E as <- <-. constructor; cbn [sl s_rd s_wr s_arr s_gr rds wrs]; rewrite ?Hwl, ?app_nil_r; try done.
      eapply list.Forall_impl; [exact Hb|]. intros c. unfold sem_blocked. by rewrite Hr1, Hw1, Hr2, Hw2.
  - rewrite HW in Hc. destruct (score_write_release _ _ _ _ _ (lc_hdr cmd) false Hm Hc (Hnn _ _) Ht)
      as (d & Ed & Hc' & Hwl). rewrite Ed in E. by eapply (sem_notify_inv d); rewrite ?Hwl.
Qed.

Lemma sem_reach_inv s s' : sinv m s -> rtc (lstep (sem_service env)) s s' -> sinv m s'.
Proof using m env Hm He.
  intros I H. induction H as [|s s1 s2 Hs _ IH]; [done|]. apply IH. clear IH.
  destruct Hs as [s cmd dl g Hg E|s cmd l1 l2 dl g Ht Hh E|s cmd l1 l2 dl g Ht Hh E]; [by apply sem_get_inv| |];
    apply (sem_release_inv s cmd); try done; [left|right]; (split; [done|]); (split; [|done]); rewrite Hh; apply nZ_middle.
Qed.
End sem_step.

Lemma sinv_init name m dl : dsg_lock_alloc name lock_custom m = Some dl -> sinv m (lsys_init dl).
Proof.
  intros E; injection E as <-. constructor; [|done..].
  constructor; [cbn; lia|by apply write_phase|unfold nZ; cbn; lia| |]; intros e; cbn [lsys_init s_gr sl];
    [change (reads_of e []) with 0; unfold reads_due|change (writes_of e []) with 0; unfold writes_due];
    cbn [sem_init rd_epoch wr_epoch rd_cnt wr_cnt]; due_solve.
Qed.

Lemma score_exclusive m s : 1 <= m -> score m (sl s) (nZ (s_rd s)) (nZ (s_wr s)) (s_gr s) ->
  exclusive s /\ nZ (s_rd s) <= m.
Proof.
  intros Hm [_ Hp Hc _ _]. destruct Hp as [_ _ HR _ HW|_ _ HW HR Hn].
  - split; [|lia]. apply nZ_zero in HR. unfold exclusive.
    destruct (s_wr s) as [|w [|? ?]]; [by left|right; eauto|unfold nZ in *; cbn [length] in *; lia].
  - apply nZ_zero in HW. split; [by left|lia].
Qed.

(** ** The lock table *)

Definition find_lock (locks : list dsg_lock) (name : string) : option dsg_lock := snd <$> dsg_lock_find_by_name locks name.

Lemma drain_name p env w : (forall dl lh mg, lk_name (snd (p dl lh mg)) = lk_name dl) -> forall dl,
  lk_name (fst (fst (drain p env dl w))) = lk_name dl.
Proof.
  intros Hp. induction w as [|c w IH]; intros dl; cbn [drain]; [done|]. pose proof (Hp dl (lc_hdr c) true) as H.
  destruct (p dl (lc_hdr c) true) as [[] d]; cbn [snd] in H; cbn; try done.
  - case_match; [done|]. specialize (IH d). destruct (drain p env d w) as [[? ?] ?]. cbn in *. congruence.
  - specialize (IH d). congruence.
Qed.

Lemma process_rw_name v3 dl lh mg : lk_name (snd (process_rw v3 dl lh mg)) = lk_name dl.
Proof. unfold process_rw. destruct (lh_type lh); try destruct v3; repeat case_match; done. Qed.

Lemma sem_process_name dl lh mg : lk_name (snd (sem_process_request dl lh mg)) = lk_name dl.
Proof. unfold sem_process_request. destruct (lh_type lh); repeat case_match; done. Qed.

Lemma sem_scan_name env w : forall dl, lk_name (fst (fst (fst (sem_scan env dl w)))) = lk_name dl.
Proof.
  induction w as [|c w IH]; intros dl; cbn [sem_scan]; [done|]. pose proof (sem_process_name dl (lc_hdr c) true) as H.
  destruct (sem_process_request dl (lc_hdr c) true) as [a d]; cbn [snd] in H. specialize (IH d).
  destruct (sem_scan env d w) as [[[? ?] ?] ?]. cbn in IH. destruct a; cbn; try case_match; cbn; congruence.
Qed.

Lemma service_rw_name v3 env dl cmd : lk_name (fst (fst (service_rw v3 env dl cmd))) = lk_name dl.
Proof.
  unfold service_rw. pose proof (process_rw_name v3 dl (lc_hdr cmd) (list_empty (wait_list dl))) as H.
  destruct (process_rw v3 dl _ _) as [[] d]; cbn [snd] in H; cbn; try done.
  - unfold dsg_lock_put_on_wait. by destruct (le_alloc env).
  - rewrite drain_name; [done|]. intros; apply process_rw_name.
Qed.

Lemma sem_service_name env dl cmd : lk_name (fst (fst (sem_service env dl cmd))) = lk_name dl.
Proof.
  unfold sem_service. pose proof (sem_process_name dl (lc_hdr cmd) false) as H.
  destruct (sem_process_request dl _ _) as [[] d]; cbn [snd] in H; cbn; try done.
  - unfold dsg_lock_put_on_wait. by destruct (le_alloc env).
  - unfold sem_process_wait_list. pose proof (sem_scan_name env (wait_list d) d) as H2.
    destruct (sem_scan _ _ _) as [[[? ?] ?] ?]. cbn in *. congruence.
Qed.

Lemma service_name env dl cmd dl' g err : service env dl cmd = Some (dl', g, err) -> lk_name dl' = lk_name dl.
Proof.
  unfold service. destruct (lk_kind dl); intros [= E];
    [pose proof (service_rw_name false env dl cmd) as H; rewrite <- service_rw_generic in H
    |pose proof (sem_service_name env dl cmd) as H
    |pose proof (service_rw_name true env dl cmd) as H; rewrite <- service_rw_v3 in H];
    rewrite E in H; exact H.
Qed.

Lemma alloc_name name kind m dl : dsg_lock_alloc name kind m = Some dl -> lk_name dl = name.
Proof. unfold dsg_lock_alloc. by destruct kind; intros; simplify_eq. Qed.

Lemma find_lock_nil name : find_lock [] name = None.
Proof. done. Qed.
Lemma find_lock_cons d l name : find_lock (d :: l) name = if String.eqb (lk_name d) name then Some d else find_lock l name.
Proof.
  unfold find_lock, dsg_lock_find_by_name. cbn [list_find]. destruct (String.eqb (lk_name d) name) eqn:E.
  - by rewrite decide_True.
  - rewrite decide_False by done. destruct (list_find _ l) as [[? ?]|]; done.
Qed.

Lemma find_lock_insert l i d d' name : l !! i = Some d -> lk_name d' = lk_name d -> (forall j e, (j < i)%nat -> l !! j = Some e -> lk_name e <> lk_name d) ->
  find_lock (<[i := d']> l) name = if String.eqb (lk_name d) name then Some d' else find_lock l name.
Proof.
  revert i. induction l as [|x l IH]; intros i Hi Hn Hlt; [done|]. destruct i as [|i].
  - cbn in Hi. simplify_eq. cbn [insert list_insert]. rewrite !find_lock_cons, Hn. by destruct (String.eqb _ _).
  - cbn in Hi. change (<[S i := d']> (x :: l)) with (x :: <[i := d']> l). rewrite !find_lock_cons. rewrite (IH i Hi Hn) by (intros j e Hj He; apply (Hlt (S j)); [lia|done]).
    destruct (String.eqb_spec (lk_name x) name) as [<-|]; [|done].
    destruct (String.eqb_spec (lk_name d) (lk_name x)) as [E|]; [|done]. exfalso. apply (Hlt O x); [lia|done|done].
Qed.

Lemma find_first locks name i d : dsg_lock_find_by_name locks name = Some (i, d) ->
  locks !! i = Some d /\ lk_name d = name /\ forall j e, (j < i)%nat -> locks !! j = Some e -> lk_name e <> lk_name d.
Proof.
  intros (Hi & Hn & Hlt)%list_find_Some. apply String.eqb_eq in Hn. split; [done|]. split; [done|].
  intros j e Hj He E. rewrite Hn in E. apply (Hlt j e); [done|lia|]. by apply String.eqb_eq.
Qed.

(** ** Concrete runs *)

Definition good_env : lock_env := mk_lenv true (fun _ => true) (fun _ => 0).
Lemma good_env_ok : env_ok good_env.
Proof. by split. Qed.

Definition req (t : lock_type) (id num : Z) : lock_cmd := mk_lcmd id (mk_lh "l" t 0 id num).

(** Reader 1 holds the lock, writer 2 and reader 3 queue; after the release
    of 1 the writer holds it and the reader waits. *)
Definition demo_locked (kind : lock_service) (sv : dsg_lock -> lock_cmd -> dsg_lock * list lock_cmd * Z) (s : lsys) : Prop :=
  exists dl, dsg_lock_alloc "l" kind 2 = Some dl /\ rtc (lstep sv) (lsys_init dl) s.

Ltac eval_state := match goal with |- rtc _ ?s _ => let s' := eval vm_compute in s in change s with s' end.
Ltac run_get c := eapply rtc_l; [eapply (step_get _ _ c); [first [by left|by right]|reflexivity]|]; eval_state.
Ltac run_rrel c l1 l2 := eapply rtc_l; [eapply (step_read_release _ _ c l1 l2); reflexivity|]; eval_state.
Ltac run_wrel c l1 l2 := eapply rtc_l; [eapply (step_write_release _ _ c l1 l2); reflexivity|]; eval_state.

(** ** Properties *)

(** C15: a generic lock, whatever the clients request and release: either no
    client holds the write lock or one writer and no reader holds the lock;
    requests are granted in the order of their arrival, none is lost or
    granted twice (the requests received are the granted ones followed by the
    waiting ones); a request waits only while some client holds the lock;
    and the service always answers a get without error. *)
Theorem lock_generic_safe env name mr dl s : env_ok env -> dsg_lock_alloc name lock_generic mr = Some dl ->
  rtc (lstep (lock_service_generic env)) (lsys_init dl) s ->
  exclusive s /\ s_arr s = s_gr s ++ wait_list (sl s) /\
  (wait_list (sl s) <> [] -> s_rd s <> [] \/ s_wr s <> []) /\
  (forall c, is_get c -> exists dl' g, lock_service_generic env (sl s) c = (dl', g, 0)).
Proof.
  intros He Ha Hr. apply (rtc_lstep_ext _ _ (service_rw_generic env)) in Hr.
  apply (rw_reach_inv false env He) in Hr as [Hc Hg Hh Hist]; [|by eapply linv_init; [|left]].
  split; [by apply counts_exclusive|]. split; [done|]. split.
  - unfold head_blocked in Hh. destruct (wait_list (sl s)) as [|c w]; [done|]. intros _.
    destruct Hc as [Hr1 Hw1 _ _ _ _ _]. rewrite Hr1, Hw1 in Hh. unfold nZ in Hh. cbn [rd_open negb orb] in Hh.
    destruct (s_rd s), (s_wr s); auto. cbn in Hh. destruct (decide _); [destruct Hh; [lia|done]|lia].
  - intros c Hget. rewrite service_rw_generic. by apply service_get_total.
Qed.

Lemma lock_generic_safe_witness : exists s, demo_locked lock_generic (lock_service_generic good_env) s /\
  s_wr s = [2] /\ wait_list (sl s) = [req lk_read_get 3 0] /\ exclusive s.
Proof.
  assert (exists s, demo_locked lock_generic (lock_service_generic good_env) s /\
    s_wr s = [2] /\ wait_list (sl s) = [req lk_read_get 3 0]) as (s & (dl & Ha & Hr) & Hw & Hl).
  { eexists; split; [eexists; split; [reflexivity|]|].
    - run_get (req lk_read_get 1 0). run_get (req lk_write_get 2 0). run_get (req lk_read_get 3 0).
      run_rrel (req lk_read_release 1 0) (@nil Z) (@nil Z). apply rtc_refl.
    - by split. }
  exists s. split; [by exists dl|]. split; [done|]. split; [done|].
  exact (proj1 (lock_generic_safe good_env "l" 2 dl s good_env_ok Ha Hr)).
Defined.

(** C16: a lock of version 3: the exclusion of the generic lock; the requests
    received are, in some order, the granted and the waiting ones (a writer
    may overtake readers that wait for the first write); and every granted
    read comes after a granted write, so that no reader sees the data before
    they are written once. *)
Theorem lock_v3_safe env name mr dl s : env_ok env -> dsg_lock_alloc name lock_v3 mr = Some dl ->
  rtc (lstep (lock_service_v3 env)) (lsys_init dl) s ->
  exclusive s /\ s_arr s ≡ₚ s_gr s ++ wait_list (sl s) /\ reads_after_write (s_gr s).
Proof.
  intros He Ha Hr. apply (rtc_lstep_ext _ _ (service_rw_v3 env)) in Hr.
  assert (linv true (lsys_init dl)) as Hi by (by eapply linv_init; [|right]).
  pose proof (reach_oinv env _ _ He Hi (oinv_init _ _ _ Ha) Hr) as [Ho _ _].
  apply (rw_reach_inv true env He) in Hr as [Hc _ _ Hist]; [|done]. split; [by apply counts_exclusive|]. done.
Qed.

(** The reader comes first and waits; the writer takes the lock before it. *)
Lemma lock_v3_safe_witness : exists s, demo_locked lock_v3 (lock_service_v3 good_env) s /\
  s_gr s = [req lk_write_get 2 0; req lk_read_get 1 0] /\ s_rd s = [1] /\ s_arr s ≡ₚ s_gr s ++ wait_list (sl s).
Proof.
  assert (exists s, demo_locked lock_v3 (lock_service_v3 good_env) s /\
    s_gr s = [req lk_write_get 2 0; req lk_read_get 1 0] /\ s_rd s = [1]) as (s & (dl & Ha & Hr) & Hw & Hl).
  { eexists; split; [eexists; split; [reflexivity|]|].
    - run_get (req lk_read_get 1 0). run_get (req lk_write_get 2 0).
      run_wrel (req lk_write_release 2 0) (@nil Z) (@nil Z). apply rtc_refl.
    - by split. }
  exists s. split; [by exists dl|]. split; [done|]. split; [done|].
  exact (proj1 (proj2 (lock_v3_safe good_env "l" 2 dl s good_env_ok Ha Hr))).
Defined.

(** C17: a custom lock for [m] readers: never a reader and a writer, never two
    writers, never more than [m] readers; no request is lost or granted
    twice; no waiting request could be granted; and the grants follow the
    rounds: exactly one write and then [m] reads were granted for every
    finished round, with the number of the round, and none for a later one. *)
Theorem sem_lock_rounds env name m dl s : 1 <= m -> env_ok env -> dsg_lock_alloc name lock_custom m = Some dl ->
  rtc (lstep (sem_service env)) (lsys_init dl) s ->
  exclusive s /\ nZ (s_rd s) <= m /\ s_arr s ≡ₚ s_gr s ++ wait_list (sl s) /\
  Forall (sem_blocked (sl s)) (wait_list (sl s)) /\
  (wr_epoch (sl s) = rd_epoch (sl s) /\ s_rd s = [] \/ wr_epoch (sl s) = rd_epoch (sl s) + 1 /\ s_wr s = []) /\
  forall e, reads_of e (s_gr s) = reads_due m (sl s) e /\ writes_of e (s_gr s) = writes_due (sl s) e.
Proof.
  intros Hm He Ha Hr. apply (sem_reach_inv m env Hm He) in Hr as [Hc Hg Hb Hh]; [|by eapply sinv_init].
  destruct (score_exclusive m s Hm Hc) as [Hex Hn]. repeat (split; [done|]). destruct Hc as [_ Hp _ H1 H2].
  split; [|auto]. destruct Hp as [Hep _ HR _ _|Hep _ HW _ _]; [left|right]; split; auto using nZ_zero.
Qed.

(** One writer and two readers: a full round; the writer has asked again. *)
Lemma sem_lock_rounds_witness : exists s, demo_locked lock_custom (sem_service good_env) s /\
  s_gr s = [req lk_write_get 1 0; req lk_read_get 2 0; req lk_read_get 3 0; req lk_write_get 1 1] /\
  s_wr s = [1] /\ exclusive s.
Proof.
  assert (exists s, demo_locked lock_custom (sem_service good_env) s /\
    s_gr s = [req lk_write_get 1 0; req lk_read_get 2 0; req lk_read_get 3 0; req lk_write_get 1 1] /\
    s_wr s = [1]) as (s & (dl & Ha & Hr) & Hw & Hl).
  { eexists; split; [eexists; split; [reflexivity|]|].
    - run_get (req lk_read_get 2 0). run_get (req lk_write_get 1 0).
      run_wrel (req lk_write_release 1 0) (@nil Z) (@nil Z). run_get (req lk_write_get 1 1).
      run_get (req lk_read_get 3 0). run_rrel (req lk_read_release 2 0) (@nil Z) [3].
      run_rrel (req lk_read_release 3 0) (@nil Z) (@nil Z). apply rtc_refl.
    - by split. }
  exists s. split; [by exists dl|]. split; [done|]. split; [done|].
  exact (proj1 (sem_lock_rounds good_env "l" 2 dl s ltac:(lia) good_env_ok Ha Hr)).
Defined.

(** No lost wake-up.  When the last client that holds a generic lock
    releases it, the request that has waited longest is granted at once. *)
Theorem lock_generic_wakes env name mr dl s cmd c w dl' g err : env_ok env ->
  dsg_lock_alloc name lock_generic mr = Some dl -> rtc (lstep (lock_service_generic env)) (lsys_init dl) s ->
  typ cmd = lk_read_release /\ s_rd s = [lc_id cmd] \/ typ cmd = lk_write_release /\ s_wr s = [lc_id cmd] ->
  wait_list (sl s) = c :: w -> lock_service_generic env (sl s) cmd = (dl', g, err) -> exists g', g = c :: g'.
Proof.
  intros He Ha Hr Hrel Hw E. apply (rtc_lstep_ext _ _ (service_rw_generic env)) in Hr.
  apply (rw_reach_inv false env He) in Hr; [|by eapply linv_init; [|left]]. rewrite service_rw_generic in E.
  by eapply last_release_wakes.
Qed.

Lemma lock_generic_wakes_witness : exists s dl' g, demo_locked lock_generic (lock_service_generic good_env) s /\
  wait_list (sl s) = [req lk_write_get 2 0] /\
  lock_service_generic good_env (sl s) (req lk_read_release 1 0) = (dl', g, 0) /\ exists g', g = req lk_write_get 2 0 :: g'.
Proof.
  assert (exists s dl' g, demo_locked lock_generic (lock_service_generic good_env) s /\
    s_rd s = [1] /\ wait_list (sl s) = [req lk_write_get 2 0] /\
    lock_service_generic good_env (sl s) (req lk_read_release 1 0) = (dl', g, 0)) as (s & dl' & g & (dl & Ha & Hr) & H1 & Hl & E).
  { do 3 eexists; split; [eexists; split; [reflexivity|]|].
    - run_get (req lk_read_get 1 0). run_get (req lk_write_get 2 0). apply rtc_refl.
    - split; [reflexivity|]. split; reflexivity. }
  exists s, dl', g. split; [by exists dl|]. split; [done|]. split; [done|].
  eapply (lock_generic_wakes good_env "l" 2 dl s (req lk_read_release 1 0) _ [] dl' g 0 good_env_ok Ha Hr); [by left|exact Hl|exact E].
Defined.

(** the lock table.  A request for a lock of a configured type runs the
    service of the lock with its name, created in its initial state if it is
    new; every other lock is left as it is. *)
Theorem dsgrpc_lock_service_frame env kind mr locks cmd : kind <> lock_unknown ->
  (forall d, d ∈ locks -> lk_kind d <> lock_unknown) ->
  exists dl dl' locks' g err,
    dsgrpc_lock_service env true kind mr locks cmd = Some (locks', g, err) /\
    (find_lock locks (lh_name (lc_hdr cmd)) = Some dl \/
     find_lock locks (lh_name (lc_hdr cmd)) = None /\ dsg_lock_alloc (lh_name (lc_hdr cmd)) kind mr = Some dl) /\
    service env dl cmd = Some (dl', g, err) /\
    forall name, find_lock locks' name = if String.eqb (lh_name (lc_hdr cmd)) name then Some dl' else find_lock locks name.
Proof.
  intros Hk Hl. unfold dsgrpc_lock_service, find_lock at 1 2.
  assert (forall d, lk_kind d <> lock_unknown -> exists d' g err, service env d cmd = Some (d', g, err)) as Hs.
  { intros d Hd. unfold service. destruct (lk_kind d); [done| | |];
      match goal with |- context [Some ?x] => destruct x as [[? ?] ?] end; eauto. }
  destruct (dsg_lock_find_by_name locks _) as [[i d]|] eqn:Ef.
  - destruct (find_first _ _ _ _ Ef) as (Hi & Hn & Hlt).
    destruct (Hs d) as (d' & g & err & Es); [by eapply Hl, list_elem_of_lookup_2|]. exists d, d'. rewrite Es. cbn [mbind option_bind].
    do 3 eexists. split; [done|]. split; [by left|]. split; [done|]. intros name.
    rewrite (find_lock_insert _ _ d) by (done || by eapply service_name). by rewrite Hn.
  - destruct (dsg_lock_alloc (lh_name (lc_hdr cmd)) kind mr) as [d|] eqn:Ea; [|by destruct kind].
    destruct (Hs d) as (d' & g & err & Es); [destruct kind; [done|injection Ea as <-; done..]|]. exists d, d'. cbn [mbind option_bind]. rewrite Es.
    do 3 eexists. split; [done|]. split; [by right|]. split; [done|]. intros name.
    rewrite find_lock_cons, (service_name _ _ _ _ _ _ Es), (alloc_name _ _ _ _ Ea). done.
Qed.

Lemma dsgrpc_lock_service_frame_witness : exists locks' g err,
  dsgrpc_lock_service good_env true lock_generic 1 [] (req lk_read_get 1 0) = Some (locks', g, err).
Proof.
  destruct (dsgrpc_lock_service_frame good_env lock_generic 1 [] (req lk_read_get 1 0)) as (_ & _ & l & g & err & E & _);
    [discriminate|by intros d ?%not_elem_of_nil|by exists l, g, err].
Defined.

(** a grant that cannot be sent.  When the message of a write grant fails
    the service returns the error, but the lock stays locked although no
    client knows that it holds it: every later get request waits. *)
Theorem lock_failed_grant_stays_locked env name mr dl cmd : dsg_lock_alloc name lock_generic mr = Some dl ->
  typ cmd = lk_write_get -> dsg_lock_grant env (lc_id cmd) < 0 ->
  exists dl', lock_service_generic env dl cmd = (dl', [], dsg_lock_grant env (lc_id cmd)) /\
    wr_lock_state dl' = locked /\
    forall env2 c, env_ok env2 -> is_get c ->
      exists dl'', lock_service_generic env2 dl' c = (dl'', [], 0) /\ wait_list dl'' = [c].
Proof.
  intros Ha Ht Hf. injection Ha as <-. unfold lock_service_generic at 1, lock_process_request at 1. unfold typ in Ht. rewrite Ht. cbn.
  eexists; split; [by rewrite (proj2 (Z.eqb_neq _ _)) by lia|]. split; [done|]. intros env2 c He Hc.
  unfold lock_service_generic, lock_process_request, dsg_lock_put_on_wait. rewrite (proj1 He).
  destruct Hc as [Hc|Hc]; unfold typ in Hc; rewrite Hc; cbn; eauto.
Qed.

Lemma lock_failed_grant_stays_locked_witness :
  exists dl', lock_service_generic (mk_lenv true (fun _ => false) (fun _ => 0)) (lock_init (mk_lock "l" lock_generic 0 0 0 0 0 0 0 0 unlocked unlocked []))
    (req lk_write_get 1 0) = (dl', [], -12) /\ wr_lock_state dl' = locked.
Proof.
  destruct (lock_failed_grant_stays_locked (mk_lenv true (fun _ => false) (fun _ => 0)) "l" 1 _ (req lk_write_get 1 0) eq_refl eq_refl)
    as (dl' & E & H & _); [by vm_compute|]. exists dl'. split; [exact E|exact H].
Defined.
