(* ===== verification/Server.v ===== *)
(** * The space server (src/ds_gspace.c)

    [ds_gspace] is the state of one server: its shared spaces (the default
    one and those added for other global dimensions), its object storage,
    the continuous queries, and the puts whose data are still on the way
    ([pending]: [rpc_receive_direct] was posted, the completion has not
    run).  A handler takes the state and a request and returns the new
    state, the messages sent and the return code; [None] stands for an
    undefined access of the C code.

    The transport and the allocator are parameters ([server_env]).  A peer is
    named by its id; [ds_get_peer] returns the peer with that id, so
    [peer == dsg->ds->self] is the comparison of the ids.  The log
    messages, DEBUG code, SHMEM_OBJECTS and DS_SYNC_MSG are left out. *)

From S2P Require Import Prelude Bbox Sfc SfcCurve BboxIntv BboxRing Matrix ObjDesc Storage Sspace.

(** ** State *)

(** The configuration read at start-up ([ds_conf]). *)
Record ds_config := mk_conf {
  cf_ndim : Z;
  cf_dims : list Z;
  cf_max_versions : Z;
  cf_max_readers : Z;
  cf_lock_type : Z;
  cf_hash_version : Z
}.

Record cont_query := mk_cq { cq_id : Z; cq_rank : Z; cq_odsc : obj_descriptor }.

Record ds_gspace := mk_dsg {
  dsg_id : nat;                 (* DSG_ID *)
  size_sp : nat;                (* number of servers *)
  conf : ds_config;
  dsg_ssd : sspace;
  default_gdim : global_dimension;
  sspace_list : list (global_dimension * sspace);
  dsg_ls : ss_storage;
  cq_list : list cont_query;
  cq_num : Z;
  pending : list obj_data;
  sfc_cache : sh_state;         (* the static cache of ss_data.c *)
  kill : bool
}.

Definition set_ssd (d : ds_gspace) (ss : sspace) : ds_gspace :=
  mk_dsg (dsg_id d) (size_sp d) (conf d) ss (default_gdim d) (sspace_list d) (dsg_ls d) (cq_list d) (cq_num d)
    (pending d) (sfc_cache d) (kill d).
Definition set_sspace_list (d : ds_gspace) (l : list (global_dimension * sspace)) : ds_gspace :=
  mk_dsg (dsg_id d) (size_sp d) (conf d) (dsg_ssd d) (default_gdim d) l (dsg_ls d) (cq_list d) (cq_num d)
    (pending d) (sfc_cache d) (kill d).
Definition set_ls (d : ds_gspace) (ls : ss_storage) : ds_gspace :=
  mk_dsg (dsg_id d) (size_sp d) (conf d) (dsg_ssd d) (default_gdim d) (sspace_list d) ls (cq_list d) (cq_num d)
    (pending d) (sfc_cache d) (kill d).
Definition set_cq (d : ds_gspace) (l : list cont_query) (n : Z) : ds_gspace :=
  mk_dsg (dsg_id d) (size_sp d) (conf d) (dsg_ssd d) (default_gdim d) (sspace_list d) (dsg_ls d) l n
    (pending d) (sfc_cache d) (kill d).
Definition set_pending (d : ds_gspace) (l : list obj_data) : ds_gspace :=
  mk_dsg (dsg_id d) (size_sp d) (conf d) (dsg_ssd d) (default_gdim d) (sspace_list d) (dsg_ls d) (cq_list d) (cq_num d)
    l (sfc_cache d) (kill d).
Definition set_cache (d : ds_gspace) (sh : sh_state) : ds_gspace :=
  mk_dsg (dsg_id d) (size_sp d) (conf d) (dsg_ssd d) (default_gdim d) (sspace_list d) (dsg_ls d) (cq_list d) (cq_num d)
    (pending d) sh (kill d).

(** ** Messages *)

(** Header of the get requests: the query id, the rank of the client, the
    object asked for and its global dimension. *)
Record hdr_obj_get := mk_hog { qid : Z; oh_rank : Z; oh_odsc : obj_descriptor; oh_gdim : global_dimension }.

Inductive smsg :=
  | ss_obj_update (oh : hdr_obj_get)                    (* descriptor for the DHT of a server *)
  | ss_obj_cq_notify (q : Z) (odsc : obj_descriptor)
  | ss_obj_query_num (num_de : nat)
  | ss_obj_info_fwd (oh : hdr_obj_get)
  | ss_obj_info_reply (rc : Z)
  | ss_desc_found (q : Z) (odsc_tab : list obj_descriptor)
  | ss_desc_missing (q : Z) (versions : list Z)         (* rc = -ENOENT *)
  | dht_peers (peer_id_tab : list Z)                    (* direct transfer *)
  | obj_bytes (d : list byte)                           (* direct transfer *)
  | meta_ints (len ver : Z)                             (* direct transfer *)
  | ss_info_reply (c : ds_config) (num_space_srv : nat).

(** The allocator and the transport during one call. *)
Record server_env := mk_senv {
  e_ssd_ok : nat -> bool;        (* the allocations of ssd_alloc *)
  e_fuel : nat;                  (* bound on the loops of bbox_to_intv *)
  e_hash_ok : bool;              (* the cache entry of ssd_hash *)
  e_odsc_ok : bool;              (* the list entry of dht_add_entry *)
  e_alloc : bool;                (* the other allocations of the handler *)
  e_msg : Z -> bool;             (* msg_buf_alloc for a peer *)
  e_send : Z -> smsg -> Z;       (* rpc_send, rpc_send_direct *)
  e_recv : Z -> Z                (* rpc_receive_direct *)
}.

Definition outcome : Type := ds_gspace * list (Z * smsg) * Z.

(** [msg_buf_alloc], fill in, [rpc_send]: the message if it was sent, and the
    error. *)
Definition send_msg (env : server_env) (peer : Z) (m : smsg) : list (Z * smsg) * Z :=
  if e_msg env peer then
    let err := e_send env peer m in (if err =? 0 then [(peer, m)] else [], err)
  else ([], - ENOMEM).

(** ** Shared spaces *)

Definition to_hash_version (v : Z) : hash_version_t :=
  if v =? 1 then ssd_hash_version_v1 else if v =? 2 then ssd_hash_version_v2 else ssd_hash_version_unknown.

Definition gdim_domain (gd : global_dimension) : bbox :=
  mk_bbox (ndim gd) (replicate (ndim gd) 0) (map (fun i => u64 (cget (sizes gd) i - 1)) (seq 0 (ndim gd))).

(** A reference to a space of the server. *)
Inductive ss_ref := ref_default | ref_list (i : nat).

Definition get_ss (d : ds_gspace) (r : ss_ref) : option sspace :=
  match r with ref_default => Some (dsg_ssd d) | ref_list i => snd <$> sspace_list d !! i end.

Definition set_ss (d : ds_gspace) (r : ss_ref) (ss : sspace) : ds_gspace :=
  match r with
  | ref_default => set_ssd d ss
  | ref_list i => set_sspace_list d (alter (fun e => (fst e, ss)) i (sspace_list d))
  end.

(** The space of a global dimension, created when it is new; if that fails
    the default space.  The address of the new space is its number. *)
Definition lookup_sspace (env : server_env) (d : ds_gspace) (gd : global_dimension) : option (ds_gspace * ss_ref) :=
  if global_dimension_equal gd (default_gdim d) then Some (d, ref_default)
  else
    match list_find (fun e => ndim gd = ndim (fst e) /\ global_dimension_equal gd (fst e) = true) (sspace_list d) with
    | Some (i, _) => Some (d, ref_list i)
    | None =>
        r ← ssd_alloc (e_ssd_ok env) (e_fuel env) (S (length (sspace_list d))) (gdim_domain gd) (size_sp d)
              (cf_max_versions (conf d)) (to_hash_version (cf_hash_version (conf d)));
        Some (match r with
              | None => (d, ref_default)
              | Some ss => (set_sspace_list d ((gd, ssd_init ss (dsg_id d)) :: sspace_list d), ref_list 0)
              end)
    end.

(** [ssd_alloc] and [ssd_init] of the default space; [inl] is the error. *)
Definition init_sspace (env : server_env) (c : ds_config) (size_sp rank : nat) (default_domain : bbox)
    : option (Z + sspace * global_dimension) :=
  r ← ssd_alloc (e_ssd_ok env) (e_fuel env) 0 default_domain size_sp (cf_max_versions c)
        (to_hash_version (cf_hash_version c));
  Some (match r with
        | None => inl (- ENOMEM)
        | Some ss => inr (ssd_init ss rank,
                          mk_gdim (Z.to_nat (cf_ndim c)) (map (cget (cf_dims c)) (seq 0 (Z.to_nat (cf_ndim c)))))
        end).

Definition free_sspace (d : ds_gspace) : ds_gspace :=
  let sh := fold_left (fun sh e => ssd_free sh (snd e)) (sspace_list d) (ssd_free (sfc_cache d) (dsg_ssd d)) in
  set_sspace_list (set_cache d sh) [].

(** The entry an element of the hash result points to. *)
Definition deref (d : ds_gspace) (p : de_ptr) : option dht_entry :=
  ss ← List.find (fun ss => (ss_ptr ss =? fst p)%nat) (dsg_ssd d :: (snd <$> sspace_list d));
  ent_tab (ss_dht ss) !! snd p.

(** [dht_tab[i]->rank] *)
Definition ranks_of (d : ds_gspace) (tab : list de_ptr) : option (list Z) :=
  mapM (fun p => de_rank <$> deref d p) tab.

(** [ssd_hash] on a space of the server, and the ranks of the entries. *)
Definition hash_ranks (env : server_env) (d : ds_gspace) (r : ss_ref) (b : bbox) : option (ds_gspace * list Z) :=
  ss ← get_ss d r;
  h ← ssd_hash (e_hash_ok env) (e_fuel env) (sfc_cache d) ss b;
  ranks ← ranks_of d (snd h);
  Some (set_cache d (fst h), ranks).

(** [ssd->ent_self] *)
Definition self_entry (d : ds_gspace) (r : ss_ref) : option dht_entry :=
  ss ← get_ss d r; ent_tab (ss_dht ss) !! ent_self ss.

Definition set_entry (ss : sspace) (i : nat) (de : dht_entry) : sspace :=
  mk_ss (ss_ptr ss) (max_dim ss) (bpd ss)
    (mk_dht (bb_glb_domain (ss_dht ss)) (num_entries (ss_dht ss)) (<[i := de]> (ent_tab (ss_dht ss))))
    (ss_rank ss) (ent_self ss) (total_num_bbox ss) (hash_version ss).

(** [dht_add_entry(ssd->ent_self, odsc)] *)
Definition add_self (env : server_env) (d : ds_gspace) (r : ss_ref) (odsc : obj_descriptor) : option (ds_gspace * Z) :=
  ss ← get_ss d r;
  de ← ent_tab (ss_dht ss) !! ent_self ss;
  let '(de, err) := dht_add_entry (e_odsc_ok env) de odsc in
  Some (set_ss d r (set_entry ss (ent_self ss) de), err).

(** ** Continuous queries *)

Definition cq_alloc (ok : bool) (oh : hdr_obj_get) : option cont_query :=
  if ok then Some (mk_cq (qid oh) (oh_rank oh) (oh_odsc oh)) else None.

Definition cq_add_to_list (d : ds_gspace) (cq : cont_query) : ds_gspace := set_cq d (cq :: cq_list d) (cq_num d + 1).

(** The entry at position [i] of the list is unlinked. *)
Definition cq_rem_from_list (d : ds_gspace) (i : nat) : ds_gspace := set_cq d (delete i (cq_list d)) (cq_num d - 1).

Definition cq_find_in_list (d : ds_gspace) (oh : hdr_obj_get) : option cont_query :=
  List.find (fun cq => obj_desc_by_name_intersect (cq_odsc cq) (oh_odsc oh)) (cq_list d).

Definition cq_find_all_in_list (d : ds_gspace) (oh : hdr_obj_get) : list cont_query :=
  List.filter (fun cq => obj_desc_by_name_intersect (cq_odsc cq) (oh_odsc oh)) (cq_list d).

Definition set_version (o : obj_descriptor) (v : Z) : obj_descriptor := mk_odsc (name o) (st o) (owner o) v (bb o) (size o).
Definition set_owner (o : obj_descriptor) (w : Z) : obj_descriptor := mk_odsc (name o) (st o) w (version o) (bb o) (size o).
Definition set_bb (o : obj_descriptor) (b : bbox) : obj_descriptor := mk_odsc (name o) (st o) (owner o) (version o) b (size o).
Definition set_st (o : obj_descriptor) (s : storage_type) : obj_descriptor := mk_odsc (name o) s (owner o) (version o) (bb o) (size o).

(** The storage type of the descriptor sent is not set; the one of [odsc] is
    used here.  The version is marked before the message is sent. *)
Definition cq_notify_on_match (env : server_env) (cq : cont_query) (odsc : obj_descriptor)
    : cont_query * list (Z * smsg) * Z :=
  if e_msg env (cq_rank cq) then
    let m := ss_obj_cq_notify (cq_id cq) (set_bb odsc (bbox_intersect (bb (cq_odsc cq)) (bb odsc))) in
    let '(ms, err) := send_msg env (cq_rank cq) m in
    (mk_cq (cq_id cq) (cq_rank cq) (set_version (cq_odsc cq) (version odsc)), ms, err)
  else (cq, [], - ENOMEM).

Fixpoint cq_check_loop (env : server_env) (odsc : obj_descriptor) (l : list cont_query)
    : list cont_query * list (Z * smsg) * Z :=
  match l with
  | [] => ([], [], 0)
  | cq :: l =>
      if obj_desc_by_name_intersect (cq_odsc cq) odsc then
        let '(cq, ms, err) := cq_notify_on_match env cq odsc in
        if err <? 0 then (cq :: l, ms, err)
        else let '(l, ms', err) := cq_check_loop env odsc l in (cq :: l, ms ++ ms', err)
      else let '(l, ms, err) := cq_check_loop env odsc l in (cq :: l, ms, err)
  end.

Definition cq_check_match (env : server_env) (d : ds_gspace) (odsc : obj_descriptor) : outcome :=
  let '(l, ms, err) := cq_check_loop env odsc (cq_list d) in (set_cq d l (cq_num d), ms, err).

(** ** Put *)

(** Another server has put the object: [cmd->id] is its id. *)
Definition dsgrpc_obj_update (env : server_env) (d : ds_gspace) (cmd_id : Z) (oh : hdr_obj_get) : option outcome :=
  l ← lookup_sspace env d (oh_gdim oh);
  let '(d, r) := l in
  let odsc := set_owner (oh_odsc oh) cmd_id in
  a ← add_self env d r odsc;
  let '(d, err) := a in
  if err <? 0 then Some (d, [], err)
  else if Z.of_nat (dsg_id d) =? oh_rank oh
       then let '(d, ms, _) := cq_check_match env d odsc in Some (d, ms, 0)
       else Some (d, [], 0).

(** The loop over the ranks of the hash. *)
Fixpoint update_loop (env : server_env) (d : ds_gspace) (r : ss_ref) (odsc : obj_descriptor) (gd : global_dimension)
    (min_rank : Z) (ranks : list Z) : option outcome :=
  match ranks with
  | [] => Some (d, [], 0)
  | rk :: ranks =>
      if rk =? Z.of_nat (dsg_id d) then
        a ← add_self env d r odsc;
        let d := fst a in
        let '(d, ms, err) := if Z.of_nat (dsg_id d) =? min_rank then cq_check_match env d odsc else (d, [], 0) in
        if err <? 0 then Some (d, ms, err)
        else o ← update_loop env d r odsc gd min_rank ranks;
             let '(d, ms', err) := o in Some (d, ms ++ ms', err)
      else
        let '(ms, err) := send_msg env rk (ss_obj_update (mk_hog 0 min_rank odsc gd)) in
        if err <? 0 then Some (d, ms, err)
        else o ← update_loop env d r odsc gd min_rank ranks;
             let '(d, ms', err) := o in Some (d, ms ++ ms', err)
  end.

(** [min_rank = dht_tab[0]->rank] is read also when the hash is empty
    ([None]). *)
Definition obj_put_update_dht (env : server_env) (d : ds_gspace) (od : obj_data) : option outcome :=
  l ← lookup_sspace env d (od_gdim od);
  let '(d, r) := l in
  h ← hash_ranks env d r (bb (obj_desc od));
  let '(d, ranks) := h in
  min_rank ← head ranks;
  update_loop env d r (obj_desc od) (od_gdim od) min_rank ranks.

Definition set_gdim (od : obj_data) (g : global_dimension) : obj_data :=
  mk_od (od_ptr od) (obj_desc od) g (data od) (refcnt od) (f_free od).

(** [ptr], [fresh]: the address and the content of the memory
    [obj_data_alloc] returns.  The update of the DHT runs before the data
    are received; when it fails the object is released. *)
Definition dsgrpc_obj_put (env : server_env) (ptr : nat) (fresh : list byte) (d : ds_gspace) (cmd_id : Z)
    (odsc : obj_descriptor) (gd : global_dimension) : option outcome :=
  if e_alloc env then
    let od := set_gdim (obj_data_alloc ptr fresh (set_owner odsc (Z.of_nat (dsg_id d)))) gd in
    if e_msg env cmd_id then
      let err := e_recv env cmd_id in
      if err <? 0 then Some (d, [], err)
      else
        o ← obj_put_update_dht env d od;
        let '(d, ms, err) := o in
        if err =? 0 then Some (set_pending d (pending d ++ [od]), ms, 0) else Some (d, ms, err)
    else Some (d, [], - ENOMEM)
  else Some (d, [], - ENOMEM).

(** The transfer of pending put number [i] has ended with the bytes [bytes]. *)
Definition obj_put_completion (d : ds_gspace) (i : nat) (bytes : list byte) : option ds_gspace :=
  od ← pending d !! i;
  Some (set_ls (set_pending d (delete i (pending d))) (ls_add_obj (dsg_ls d) (set_data od bytes))).

(** An object of a local process. *)
Definition dsghlp_obj_put (env : server_env) (d : ds_gspace) (od : obj_data) : ds_gspace * Z :=
  if e_msg env (Z.of_nat (dsg_id d)) then
    let od := mk_od (od_ptr od) (set_owner (obj_desc od) (Z.of_nat (dsg_id d))) (od_gdim od) (data od) (refcnt od) (f_free od) in
    (set_ls d (ls_add_obj (dsg_ls d) od), 0)
  else (d, - ENOMEM).

(** ** Get *)

(** The ids of the servers with descriptors for the box, ended by -1.  The
    table has [peer_num + 1] words and [size_sp + 1] words are sent; [heap]
    stands for the memory after the table. *)
Definition dsgrpc_obj_send_dht_peers (env : server_env) (heap : list Z) (d : ds_gspace) (cmd_id : Z) (oh : hdr_obj_get)
    : option outcome :=
  l ← lookup_sspace env d (oh_gdim oh);
  let '(d, r) := l in
  h ← hash_ranks env d r (bb (oh_odsc oh));
  let '(d, ranks) := h in
  if e_alloc env then
    let '(ms, err) := send_msg env cmd_id (dht_peers (take (S (size_sp d)) (ranks ++ [-1] ++ heap))) in
    Some (d, ms, err)
  else Some (d, [], - ENOMEM).

Definition obj_desc_not_found (env : server_env) (peer q : Z) (versions : list Z) : list (Z * smsg) * Z :=
  send_msg env peer (ss_desc_missing q versions).

(** The part of the stored object that is asked for. *)
Definition clip (q o : obj_descriptor) : obj_descriptor := set_bb (set_st o (st q)) (bbox_intersect (bb q) (bb o)).

Definition dsgrpc_obj_get_desc (env : server_env) (d : ds_gspace) (cmd_id : Z) (oh : hdr_obj_get) : option outcome :=
  l ← lookup_sspace env d (oh_gdim oh);
  let '(d, r) := l in
  de ← self_entry d r;
  match dht_find_entry_all de (oh_odsc oh) with
  | [] =>
      let '(ms, err) := obj_desc_not_found env cmd_id (qid oh) (dht_find_versions de (oh_odsc oh)) in
      Some (d, ms, if err <? 0 then err else 0)
  | podsc =>
      if e_alloc env then
        let '(ms, err) := send_msg env cmd_id (ss_desc_found (qid oh) (map (clip (oh_odsc oh)) podsc)) in Some (d, ms, err)
      else Some (d, [], - ENOMEM)
  end.

(** The copy [od] is released when the transfer ends. *)
Definition dsgrpc_obj_get (env : server_env) (ptr : nat) (fresh : list byte) (d : ds_gspace) (cmd_id : Z)
    (oh : hdr_obj_get) : option outcome :=
  match ls_find (dsg_ls d) (oh_odsc oh) with
  | None => Some (d, [], - ENOENT)
  | Some from_obj =>
      if e_alloc env then
        od ← ssd_copy (obj_data_alloc ptr fresh (oh_odsc oh)) from_obj;
        let '(ms, err) := send_msg env cmd_id (obj_bytes (data od)) in Some (d, ms, err)
      else Some (d, [], - ENOMEM)
  end.

(** ** Metadata of the streams *)

(** The descriptor the three handlers build: all zero bounds, one dimension. *)
Definition meta_odsc (f_name : string) (current_version : Z) : obj_descriptor :=
  mk_odsc (String.append "VARMETA@" f_name) column_major (-1) (u32 current_version) (mk_bbox 1 [0] [0]) 1.

(** The two ints sent: -3 twice when there is nothing newer. *)
Definition meta_reply (from_obj : option obj_data) : smsg :=
  match from_obj with
  | None => meta_ints (-3) (-3)
  | Some od => meta_ints (s32 (u64 (cget (ub (bb (obj_desc od))) 0 + 1))) (s32 (version (obj_desc od)))
  end.

Definition dsgrpc_obj_get_next_meta (env : server_env) (d : ds_gspace) (cmd_id : Z) (f_name : string) (current_version : Z)
    : outcome :=
  let '(ms, err) := send_msg env cmd_id (meta_reply (ls_find_next (dsg_ls d) (meta_odsc f_name current_version))) in
  (d, ms, err).

Definition dsgrpc_obj_get_latest_meta (env : server_env) (d : ds_gspace) (cmd_id : Z) (f_name : string) (current_version : Z)
    : option outcome :=
  r ← ls_find_latest (dsg_ls d) (meta_odsc f_name current_version);
  let '(ms, err) := send_msg env cmd_id (meta_reply r) in Some (d, ms, err).

(** [length] bytes of the object are sent; reading past its buffer is [None]. *)
Definition dsgrpc_obj_get_var_meta (env : server_env) (d : ds_gspace) (cmd_id : Z) (f_name : string)
    (current_version length : Z) : option outcome :=
  match ls_find (dsg_ls d) (meta_odsc f_name current_version) with
  | None => Some (d, [], - ENOMEM)
  | Some from_obj =>
      if length <=? Z.of_nat (List.length (data from_obj)) then
        let '(ms, err) := send_msg env cmd_id (obj_bytes (take (Z.to_nat length) (data from_obj))) in Some (d, ms, err)
      else None
  end.

(** ** Removal *)

(** The objects with the name and the version, in every bin. *)
Definition removed (nm : string) (lock_num : Z) (od : obj_data) : bool :=
  (version (obj_desc od) =? u32 lock_num) && streq (name (obj_desc od)) nm.

Definition dsgrpc_remove_service (d : ds_gspace) (nm : string) (lock_num : Z) : ds_gspace * Z :=
  (set_ls d (fold_left ls_remove (List.filter (removed nm lock_num) (mjoin (obj_hash (dsg_ls d)))) (dsg_ls d)), 0).

(** ** Object queries *)

(** [dht_find_entry] of src/ss_data.c finds nothing. *)
Definition dht_find_entry (de : dht_entry) (odsc : obj_descriptor) : option obj_descriptor := None.

Definition obj_info_reply_descriptor (env : server_env) (d : ds_gspace) (peer : Z) (q_odsc : obj_descriptor)
    : option (list (Z * smsg) * Z) :=
  de ← self_entry d ref_default;
  Some (send_msg env peer (ss_obj_info_reply (match dht_find_entry de q_odsc with None => - ENOENT | Some _ => 0 end))).

Definition obj_query_reply_num_de (env : server_env) (peer : Z) (num_de : nat) : list (Z * smsg) * Z :=
  send_msg env peer (ss_obj_query_num num_de).

(** The number of entries of this server, or the error. *)
Fixpoint obj_query_forward_obj_info (env : server_env) (d : ds_gspace) (ranks : list Z) (oh : hdr_obj_get) (to_self : Z)
    : list (Z * smsg) * Z :=
  match ranks with
  | [] => ([], to_self)
  | rk :: ranks =>
      if rk =? Z.of_nat (dsg_id d) then obj_query_forward_obj_info env d ranks oh (to_self + 1)
      else
        let '(ms, err) := send_msg env rk (ss_obj_info_fwd oh) in
        if err <? 0 then (ms, err)
        else let '(ms', r) := obj_query_forward_obj_info env d ranks oh to_self in (ms ++ ms', r)
  end.

Definition dsgrpc_obj_query (env : server_env) (d : ds_gspace) (cmd_id : Z) (oh : hdr_obj_get) : option outcome :=
  h ← hash_ranks env d ref_default (bb (oh_odsc oh));
  let '(d, ranks) := h in
  let '(ms, err) := obj_query_reply_num_de env cmd_id (length ranks) in
  if err <? 0 then Some (d, ms, err)
  else
    let '(ms2, err) := obj_query_forward_obj_info env d ranks oh 0 in
    if err <? 0 then Some (d, ms ++ ms2, err)
    else if 0 <? err then
      i ← obj_info_reply_descriptor env d cmd_id (oh_odsc oh);
      Some (d, ms ++ ms2 ++ fst i, if snd i <? 0 then snd i else 0)
    else Some (d, ms ++ ms2, 0).

Definition dsgrpc_obj_info (env : server_env) (d : ds_gspace) (oh : hdr_obj_get) : option outcome :=
  i ← obj_info_reply_descriptor env d (oh_rank oh) (oh_odsc oh);
  Some (d, fst i, if snd i <? 0 then snd i else 0).

(** ** Start, information, shutdown *)

Definition dsgrpc_ss_info (env : server_env) (d : ds_gspace) (cmd_id : Z) : outcome :=
  let '(ms, err) := send_msg env cmd_id (ss_info_reply (conf d) (size_sp d)) in (d, ms, err).

Definition dsgrpc_ss_kill (d : ds_gspace) : ds_gspace * Z :=
  (mk_dsg (dsg_id d) (size_sp d) (conf d) (dsg_ssd d) (default_gdim d) (sspace_list d) (dsg_ls d) (cq_list d) (cq_num d)
     (pending d) (sfc_cache d) true, 0).

Definition dsg_complete (ds_stop : bool) (d : ds_gspace) : bool := ds_stop || kill d.

(** The checks of [dsg_alloc] on the configuration. *)
Definition conf_check (max_ndim : Z) (c : ds_config) : bool :=
  (cf_ndim c <=? max_ndim) && (1 <=? cf_hash_version c) && (cf_hash_version c <? 3) &&
  (1 <=? cf_lock_type c) && (cf_lock_type c <? 4).

Definition default_domain (c : ds_config) : bbox :=
  let n := Z.to_nat (cf_ndim c) in
  mk_bbox n (replicate n 0) (map (fun i => u64 (cget (cf_dims c) i - 1)) (seq 0 n)).

(** [dsg_alloc] after the configuration file is read, for the server with id
    [rank]; [cq_num] is not initialised by the code, [cq0] is its value. *)
Definition dsg_alloc (env : server_env) (max_ndim : Z) (c : ds_config) (num_sp rank : nat) (cq0 : Z)
    : option (Z + ds_gspace) :=
  if conf_check max_ndim c then
    r ← init_sspace env c num_sp rank (default_domain c);
    Some (match r with
          | inl err => inl err
          | inr (ss, gd) =>
              inr (mk_dsg rank num_sp c ss gd [] (ls_alloc (cf_max_versions c)) [] cq0 [] (mk_sh [] false) false)
          end)
  else Some (inl (- EINVAL)).

Definition dsg_free (d : ds_gspace) : ds_gspace := let d := free_sspace d in set_ls d (ls_free (dsg_ls d)).
