(* ===== verification/Client.v ===== *)
(** * The client (src/dc_gspace.c)

    The query transactions that serve a get: a transaction collects the ids
    of the DHT servers, their object descriptors, then the pieces of the
    object, and the pieces are copied into the buffer of the caller.  Also
    the slots of the asynchronous puts, the versions bookkeeping, the
    client side of the locks and the (disabled) query cache.

    Requests are values: the peer and the header; the replies are the
    arguments of the completion routines. *)

From S2P Require Import Prelude Bbox Matrix ObjDesc Storage Locks Server.

(** ** State *)

Record query_dht := mk_qh {
  qh_size : nat;
  qh_num_peer : nat;
  qh_num_req_posted : nat;
  qh_num_rep_received : nat;
  qh_peerid_tab : list Z
}.

(** [od_list]: the pieces, the newest first; [data] is empty while the
    pointer is NULL. *)
Record query_tran_entry := mk_qte {
  q_id : Z;
  q_obj : obj_descriptor;
  size_od : Z; num_od : Z; num_parts_rec : Z;
  od_list : list obj_data;
  qh : query_dht;
  q_gdim : global_dimension;
  f_alloc_data : bool; f_peer_received : bool; f_odsc_recv : bool; f_complete : bool; f_err : bool
}.

Record query_cache_entry := mk_qce { qc_obj : obj_descriptor; qc_tab : list obj_descriptor }.

Record dcg_lock := mk_dlock { dl_name : string; dl_req : Z; dl_ack : Z; dl_num : Z }.

Record dcg_space := mk_dcg {
  dcg_id : Z;
  num_sp : Z;
  next_qid : Z;                       (* the static counter of qt_gen_qid *)
  qt : list query_tran_entry; qt_num : Z;
  qc : list query_cache_entry; qc_num : Z;
  dcg_locks : list dcg_lock;
  num_pending : Z;
  versions : option (list Z);         (* the first num_vers words of the table; None: written past its end *)
  sync_next : nat; sync_opid : list Z
}.

Definition set_qt (d : dcg_space) (l : list query_tran_entry) (n : Z) : dcg_space :=
  mk_dcg (dcg_id d) (num_sp d) (next_qid d) l n (qc d) (qc_num d) (dcg_locks d) (num_pending d) (versions d) (sync_next d) (sync_opid d).
Definition set_qc (d : dcg_space) (l : list query_cache_entry) (n : Z) : dcg_space :=
  mk_dcg (dcg_id d) (num_sp d) (next_qid d) (qt d) (qt_num d) l n (dcg_locks d) (num_pending d) (versions d) (sync_next d) (sync_opid d).
Definition set_versions (d : dcg_space) (v : option (list Z)) : dcg_space :=
  mk_dcg (dcg_id d) (num_sp d) (next_qid d) (qt d) (qt_num d) (qc d) (qc_num d) (dcg_locks d) (num_pending d) v (sync_next d) (sync_opid d).
Definition set_locks (d : dcg_space) (l : list dcg_lock) : dcg_space :=
  mk_dcg (dcg_id d) (num_sp d) (next_qid d) (qt d) (qt_num d) (qc d) (qc_num d) l (num_pending d) (versions d) (sync_next d) (sync_opid d).
Definition set_num_pending (d : dcg_space) (n : Z) : dcg_space :=
  mk_dcg (dcg_id d) (num_sp d) (next_qid d) (qt d) (qt_num d) (qc d) (qc_num d) (dcg_locks d) n (versions d) (sync_next d) (sync_opid d).
Definition set_sync (d : dcg_space) (n : nat) (l : list Z) : dcg_space :=
  mk_dcg (dcg_id d) (num_sp d) (next_qid d) (qt d) (qt_num d) (qc d) (qc_num d) (dcg_locks d) (num_pending d) (versions d) n l.
Definition set_next_qid (d : dcg_space) (q : Z) : dcg_space :=
  mk_dcg (dcg_id d) (num_sp d) q (qt d) (qt_num d) (qc d) (qc_num d) (dcg_locks d) (num_pending d) (versions d) (sync_next d) (sync_opid d).

Definition set_qh (q : query_tran_entry) (h : query_dht) : query_tran_entry :=
  mk_qte (q_id q) (q_obj q) (size_od q) (num_od q) (num_parts_rec q) (od_list q) h (q_gdim q)
    (f_alloc_data q) (f_peer_received q) (f_odsc_recv q) (f_complete q) (f_err q).
Definition set_ods (q : query_tran_entry) (size num : Z) (l : list obj_data) : query_tran_entry :=
  mk_qte (q_id q) (q_obj q) size num (num_parts_rec q) l (qh q) (q_gdim q)
    (f_alloc_data q) (f_peer_received q) (f_odsc_recv q) (f_complete q) (f_err q).
Definition set_parts (q : query_tran_entry) (n : Z) (complete : bool) : query_tran_entry :=
  mk_qte (q_id q) (q_obj q) (size_od q) (num_od q) n (od_list q) (qh q) (q_gdim q)
    (f_alloc_data q) (f_peer_received q) (f_odsc_recv q) complete (f_err q).
Definition set_flags (q : query_tran_entry) (peer odsc err : bool) : query_tran_entry :=
  mk_qte (q_id q) (q_obj q) (size_od q) (num_od q) (num_parts_rec q) (od_list q) (qh q) (q_gdim q)
    (f_alloc_data q) peer odsc (f_complete q) err.

Definition dcg_inc_pending (d : dcg_space) : dcg_space := set_num_pending d (num_pending d + 1).
Definition dcg_dec_pending (d : dcg_space) : dcg_space := set_num_pending d (num_pending d - 1).

(** ** Query transactions *)

Definition qt_gen_qid (d : dcg_space) : dcg_space * Z := (set_next_qid d (s32 (next_qid d + 1)), next_qid d).

(** [calloc] clears the table. *)
Definition qh_alloc (ok : bool) (qh_num : nat) : option query_dht :=
  if ok then Some (mk_qh (S qh_num) 0 0 0 (replicate (S qh_num) 0)) else None.

Definition qte_alloc (ok : bool) (d : dcg_space) (od : obj_data) (alloc_data : bool) : dcg_space * option query_tran_entry :=
  if ok then
    let '(d, q) := qt_gen_qid d in
    (d, h ← qh_alloc ok (Z.to_nat (num_sp d));
        Some (mk_qte q (obj_desc od) 0 0 0 [] h (od_gdim od) alloc_data false false false false))
  else (d, None).

Definition qt_init (d : dcg_space) : dcg_space := set_qt d [] 0.

Definition qt_find (d : dcg_space) (q : Z) : option query_tran_entry := List.find (fun qte => q_id qte =? q) (qt d).

Definition qt_add (d : dcg_space) (qte : query_tran_entry) : dcg_space := set_qt d (qte :: qt d) (qt_num d + 1).

(** The entry is unlinked; it is identified by its id. *)
Definition qt_remove (d : dcg_space) (qte : query_tran_entry) : dcg_space :=
  set_qt d (List.filter (fun e => negb (q_id e =? q_id qte)) (qt d)) (qt_num d - 1).

(** Writes through the pointer [qt_find] returned. *)
Definition qt_update (d : dcg_space) (qte : query_tran_entry) : dcg_space :=
  set_qt d (map (fun e => if q_id e =? q_id qte then qte else e) (qt d)) (qt_num d).

Definition qt_find_obj (qte : query_tran_entry) (odsc : obj_descriptor) : option obj_descriptor :=
  obj_desc <$> List.find (fun od => obj_desc_equals (obj_desc od) odsc) (od_list qte).

(** [od] is unlinked; it is identified by its address. *)
Definition qt_remove_obj (qte : query_tran_entry) (od : obj_data) : query_tran_entry :=
  set_ods qte (size_od qte - 1) (num_od qte - 1) (List.filter (fun o => negb (od_ptr o =? od_ptr od)%nat) (od_list qte)).

Definition qt_free_obj_data (qte : query_tran_entry) (unlink : bool) : query_tran_entry :=
  if unlink then fold_left qt_remove_obj (od_list qte) qte else qte.

(** [malloc] for each piece; [fresh] is the content of the memory. *)
Definition qt_alloc_obj_data (ok : nat -> bool) (fresh : list byte) (qte : query_tran_entry) : query_tran_entry * Z :=
  if forallb ok (seq 0 (length (od_list qte))) && (Z.of_nat (length (od_list qte)) =? num_od qte)
  then (set_ods qte (size_od qte) (num_od qte)
          (map (fun od => set_data od (take (Z.to_nat (obj_data_size (obj_desc od))) fresh)) (od_list qte)), 0)
  else (qt_free_obj_data qte false, - ENOMEM).

Definition qt_alloc_obj_data_with_size (ok : nat -> bool) (fresh : list byte) (qte : query_tran_entry) (size : Z)
    : query_tran_entry * Z :=
  if forallb ok (seq 0 (length (od_list qte))) && (Z.of_nat (length (od_list qte)) =? num_od qte)
  then (set_ods qte (size_od qte) (num_od qte) (map (fun od => set_data od (take (Z.to_nat size) fresh)) (od_list qte)), 0)
  else (qt_free_obj_data qte false, - ENOMEM).

(** [ptr] is the address of the new object. *)
Definition qt_add_obj (ok : bool) (ptr : nat) (qte : query_tran_entry) (odsc : obj_descriptor) : query_tran_entry * Z :=
  if ok then
    (set_ods qte (size_od qte) (num_od qte + 1)
       (obj_data_alloc_no_data ptr (set_st odsc (st (q_obj qte))) [] :: od_list qte), 0)
  else (qte, - ENOMEM).

(** ** The query cache (not consulted by [dcg_obj_get]) *)

Fixpoint set_from_cache (ok : nat -> bool) (ptr : nat) (qte : query_tran_entry) (tab : list obj_descriptor)
    : query_tran_entry * Z :=
  match tab with
  | [] => (qte, 0)
  | o :: tab =>
      let '(qte, err) := qt_add_obj (ok ptr) ptr qte o in
      if err <? 0 then (qt_free_obj_data qte true, err) else set_from_cache ok (S ptr) qte tab
  end.

Definition qte_set_odsc_from_cache (ok : nat -> bool) (ptr : nat) (qte : query_tran_entry) (qce : query_cache_entry)
    : query_tran_entry * Z :=
  let '(qte, err) := set_from_cache ok ptr qte (qc_tab qce) in
  if err <? 0 then (qte, err) else (set_ods qte (Z.of_nat (length (qc_tab qce))) (num_od qte) (od_list qte), 0).

Definition qce_set_obj_desc (q : obj_descriptor) (obj_list : list obj_data) : query_cache_entry :=
  mk_qce q (obj_desc <$> obj_list).

Definition qc_add_entry (d : dcg_space) (e : query_cache_entry) : dcg_space := set_qc d (e :: qc d) (qc_num d + 1).

Definition qc_find (d : dcg_space) (odsc : obj_descriptor) : option query_cache_entry :=
  List.find (fun e => obj_desc_equals_no_owner (qc_obj e) odsc) (qc d).

Definition qc_free (d : dcg_space) : dcg_space := set_qc d [] (qc_num d).

(** ** Asynchronous operations *)

Definition num_op : nat := Z.to_nat 4095.

(** The slot is taken also when it is still busy (only a message is logged). *)
Definition syncop_next (d : dcg_space) : dcg_space * nat :=
  let n := sync_next d in (set_sync d ((n + 1) mod num_op) (<[n := 0]> (sync_opid d)), n).

Definition syncop_ref (d : dcg_space) (opid : nat) : Z := cget (sync_opid d) opid.

Definition dcg_which_peer (d : dcg_space) : Z := Z.rem (dcg_id d) (num_sp d).

(** The message of a put: the server, the descriptor, the dimension. *)
Record put_request := mk_preq { pr_peer : Z; pr_odsc : obj_descriptor; pr_gdim : global_dimension; pr_bytes : list byte }.

(** [hint]: the MPI rank set by the application.  The result is the id of
    the operation or the error. *)
Definition dcg_obj_put (env : server_env) (send : Z) (hint : option Z) (d : dcg_space) (od : obj_data)
    : dcg_space * list put_request * Z :=
  let peer := match hint with Some r => Z.rem r (num_sp d) | None => dcg_which_peer d end in
  let '(d, sync_op_id) := syncop_next d in
  if e_msg env peer then
    if send <? 0 then (d, [], send)
    else (dcg_inc_pending d, [mk_preq peer (obj_desc od) (od_gdim od) (data od)], Z.of_nat sync_op_id)
  else (d, [], - ENOMEM).

Definition dcg_obj_put_to_server (env : server_env) (send : Z) (server_id : Z) (d : dcg_space) (od : obj_data)
    : dcg_space * list put_request * Z :=
  if (server_id <? 0) || (num_sp d <=? server_id) then (d, [], - ENOMEM)
  else
    let '(d, sync_op_id) := syncop_next d in
    if e_msg env server_id then
      if send <? 0 then (d, [], send)
      else (dcg_inc_pending d, [mk_preq server_id (obj_desc od) (od_gdim od) (data od)], Z.of_nat sync_op_id)
    else (d, [], - ENOMEM).

(** The transfer of operation [opid] has ended. *)
Definition obj_put_done (d : dcg_space) (opid : nat) : dcg_space :=
  dcg_dec_pending (set_sync d (sync_next d) (<[opid := 1]> (sync_opid d))).

(** The test of the loop of [dcg_obj_sync]. *)
Definition dcg_obj_synced (d : dcg_space) (opid : nat) : bool := syncop_ref d opid =? 1.

(** ** Versions *)

(** The table is [int versions[64]], at the end of the structure.  Nothing
    compares [num_vers] with its size: with one version more the write is past
    the end, and nothing is known of the table any more. *)
Definition max_vers : nat := 64.

Definition versions_reset (d : dcg_space) : dcg_space := set_versions d ((fun _ => []) <$> versions d).

Definition version_add (acc : option (list Z)) (v : Z) : option (list Z) :=
  l ← acc;
  if existsb (Z.eqb v) l then Some l
  else if decide (length l < max_vers)%nat then Some (l ++ [v]) else None.

Definition versions_add (d : dcg_space) (vs : list Z) : dcg_space := set_versions d (fold_left version_add vs (versions d)).

(** ** Get

    The transport and the allocator during a get.  [gn_peers], [gn_desc] and
    [gn_data] are the replies handled while the client waits ([gn_desc] in
    the order of their arrival; no reply is [None] or a missing element);
    [gn_proc] is what [dc_process] returns after them in wait 0 (peers), 1
    (descriptors) and 2 (data). *)

Record get_net := mk_gnet {
  gn_msg : Z -> bool;                              (* msg_buf_alloc for a peer *)
  gn_post : Z * hdr_obj_get -> Z;                  (* rpc_send, rpc_receive *)
  gn_malloc : nat -> bool;                         (* the buffers of the pieces *)
  gn_desc_ok : nat -> bool;                        (* obj_data_alloc_no_data *)
  gn_peers : Z * hdr_obj_get -> option (list Z);
  gn_desc : list (Z * hdr_obj_get) -> list smsg;
  gn_data : Z * hdr_obj_get -> option (list byte);
  gn_proc : nat -> Z
}.

(** [msg_buf_alloc], fill in, [rpc_send] or [rpc_receive]. *)
Definition post (net : get_net) (r : Z * hdr_obj_get) : Z :=
  if gn_msg net (fst r) then gn_post net r else - ENOMEM.

Definition get_header (d : dcg_space) (qte : query_tran_entry) : hdr_obj_get :=
  mk_hog (q_id qte) (dcg_id d) (q_obj qte) (q_gdim qte).

(** The request for the DHT peers goes to [dcg_which_peer]. *)
Definition get_dht_peers (net : get_net) (d : dcg_space) (qte : query_tran_entry) : (Z * hdr_obj_get) * Z :=
  let r := (dcg_which_peer d, get_header d qte) in (r, post net r).

Fixpoint count_peers (n : nat) (tab : list Z) : nat :=
  match n, tab with
  | S n, p :: tab => if p =? -1 then O else S (count_peers n tab)
  | _, _ => O
  end.

(** [tab] was received into [qh_peerid_tab]. *)
Definition get_dht_peers_completion (qte : query_tran_entry) (tab : list Z) : query_tran_entry :=
  let h := qh qte in
  set_flags (set_qh qte (mk_qh (qh_size h) (count_peers (qh_size h) tab) (qh_num_req_posted h) (qh_num_rep_received h) tab))
    true (f_odsc_recv qte) (f_err qte).

(** [while ( *peer_id != -1)]: the requests posted and the error; [None]: no
    -1 in the table. *)
Fixpoint post_descs (net : get_net) (h : hdr_obj_get) (tab : list Z) : option (list (Z * hdr_obj_get) * Z) :=
  match tab with
  | [] => None
  | p :: tab =>
      if p =? -1 then Some ([], 0)
      else
        let err := post net (p, h) in
        if err <? 0 then Some ([], err)
        else r ← post_descs net h tab; Some ((p, h) :: fst r, snd r)
  end.

(** One request per peer. *)
Definition get_obj_descriptors (net : get_net) (d : dcg_space) (qte : query_tran_entry)
    : option (query_tran_entry * list (Z * hdr_obj_get) * Z) :=
  r ← post_descs net (get_header d qte) (qh_peerid_tab (qh qte));
  let h := qh qte in
  let qte := set_flags qte (f_peer_received qte) false (f_err qte) in
  Some (set_qh qte (mk_qh (qh_size h) (qh_num_peer h) (qh_num_req_posted h + length (fst r)) (qh_num_rep_received h) (qh_peerid_tab h)),
        fst r, snd r).

(** [qh_num_rep_received++] and the test that sets [f_odsc_recv]. *)
Definition count_reply (qte : query_tran_entry) : query_tran_entry :=
  let h := qh qte in
  let n := S (qh_num_rep_received h) in
  let qte := set_qh qte (mk_qh (qh_size h) (qh_num_peer h) (qh_num_req_posted h) n (qh_peerid_tab h)) in
  if (n =? qh_num_peer h)%nat then set_flags qte (f_peer_received qte) true (f_err qte) else qte.

(** The loop over the descriptors of a reply; [size_od] was raised by their
    number before. *)
Fixpoint add_descs (ok : nat -> bool) (ptr : nat) (qte : query_tran_entry) (tab : list obj_descriptor)
    : query_tran_entry * Z :=
  match tab with
  | [] => (qte, 0)
  | o :: tab =>
      match qt_find_obj qte o with
      | None => let '(qte, err) := qt_add_obj (ok ptr) ptr qte o in
                if err <? 0 then (qte, err) else add_descs ok (S ptr) qte tab
      | Some _ => add_descs ok ptr (set_ods qte (size_od qte - 1) (num_od qte) (od_list qte)) tab
      end
  end.

(** The descriptors of one DHT server have arrived. *)
Definition obj_get_desc_completion (ok : nat -> bool) (ptr : nat) (d : dcg_space) (q : Z) (od_tab : list obj_descriptor)
    : dcg_space * Z :=
  match qt_find d q with
  | None => (d, - ENOENT)
  | Some qte =>
      let h := qh qte in
      let qte := set_qh qte (mk_qh (qh_size h) (qh_num_peer h) (qh_num_req_posted h) (S (qh_num_rep_received h)) (qh_peerid_tab h)) in
      let qte := set_ods qte (size_od qte + Z.of_nat (length od_tab)) (num_od qte) (od_list qte) in
      let '(qte, err) := add_descs ok ptr qte od_tab in
      if err <? 0 then (qt_update d qte, err)
      else
        let h := qh qte in
        let qte := if (qh_num_rep_received h =? qh_num_peer h)%nat
                   then set_flags qte (f_peer_received qte) true (f_err qte) else qte in
        (qt_update d qte, 0)
  end.

(** The branch [oh->rc < 0] of [dcgrpc_obj_get_desc]: nothing found. *)
Definition obj_get_desc_missing (d : dcg_space) (q : Z) (vs : list Z) : dcg_space * Z :=
  match qt_find d q with
  | None => (d, - ENOENT)
  | Some qte =>
      let qte := count_reply qte in
      let qte := set_flags qte (f_peer_received qte) (f_odsc_recv qte) true in
      (versions_add (qt_update d qte) vs, 0)
  end.

(** [dcgrpc_obj_get_desc] and its completion, on a reply of a server. *)
Definition dcgrpc_obj_get_desc (ok : nat -> bool) (ptr : nat) (d : dcg_space) (m : smsg) : dcg_space * Z :=
  match m with
  | ss_desc_missing q vs => obj_get_desc_missing d q vs
  | ss_desc_found q tab => obj_get_desc_completion ok ptr d q tab
  | _ => (d, 0)
  end.

(** The request for a piece, to its owner, in the version of the query. *)
Definition data_request (qte : query_tran_entry) (od : obj_data) : Z * hdr_obj_get :=
  (owner (obj_desc od), mk_hog (q_id qte) 0 (set_version (obj_desc od) (version (q_obj qte))) (q_gdim qte)).

(** One request per piece; the buffer of the piece that fails is released. *)
Fixpoint post_data (net : get_net) (qte : query_tran_entry) (l : list obj_data)
    : list obj_data * list (Z * hdr_obj_get) * Z :=
  match l with
  | [] => ([], [], 0)
  | od :: l =>
      let err := post net (data_request qte od) in
      if err <? 0 then (set_data od [] :: l, [], err)
      else let '(l, reqs, err) := post_data net qte l in (od :: l, data_request qte od :: reqs, err)
  end.

Definition dcg_obj_data_get (fresh : list byte) (net : get_net) (qte : query_tran_entry)
    : query_tran_entry * list (Z * hdr_obj_get) * Z :=
  let '(qte, err) := qt_alloc_obj_data (gn_malloc net) fresh qte in
  if err <? 0 then (qte, [], err)
  else let '(l, reqs, err) := post_data net qte (od_list qte) in
       (set_ods qte (size_od qte) (num_od qte) l, reqs, err).

(** The data of piece [i] have arrived. *)
Definition obj_data_get_completion (qte : query_tran_entry) (i : nat) (bytes : list byte) : query_tran_entry :=
  let qte := set_ods qte (size_od qte) (num_od qte) (alter (fun od => set_data od bytes) i (od_list qte)) in
  let n := num_parts_rec qte + 1 in
  set_parts qte n (if n =? size_od qte then true else f_complete qte).

Definition dcg_obj_assemble (qte : query_tran_entry) (od : obj_data) : option obj_data := ssd_copy_list od (od_list qte).

(** All parts at the version of the query, covering its volume. *)
Fixpoint parts_volume (v : Z) (l : list obj_data) (vol : Z) : Z :=
  match l with
  | [] => vol
  | od :: l => if version (obj_desc od) =? v then parts_volume v l (u64 (vol + bbox_volume (bb (obj_desc od)))) else vol
  end.

Definition cq_received_all_parts (qte : query_tran_entry) : bool :=
  parts_volume (version (q_obj qte)) (od_list qte) 0 =? bbox_volume (bb (q_obj qte)).

(** ** Locks *)

(** The names are kept and compared in their first 63 characters. *)
Definition lock_name_trunc (lock_name : string) : string := String.substring 0 63 lock_name.

Definition lock_get (ok : bool) (d : dcg_space) (lock_name : string) (should_alloc : bool) : dcg_space * option dcg_lock :=
  match List.find (fun l => String.eqb (lock_name_trunc (dl_name l)) (lock_name_trunc lock_name)) (dcg_locks d) with
  | Some l => (d, Some l)
  | None => if should_alloc && ok then
              let l := mk_dlock (lock_name_trunc lock_name) 0 0 0 in (set_locks d (l :: dcg_locks d), Some l)
            else (d, None)
  end.

Definition lock_update (d : dcg_space) (l : dcg_lock) : dcg_space :=
  set_locks d (map (fun e => if String.eqb (dl_name e) (dl_name l) then l else e) (dcg_locks d)).

(** The request sent to server 0. *)
Definition dcg_lock_request (msg_ok : bool) (send : Z) (d : dcg_space) (l : dcg_lock) (t : lock_type)
    : dcg_space * list lock_cmd * Z :=
  if msg_ok then
    if send <? 0 then (d, [], send)
    else (lock_update d (mk_dlock (dl_name l) 1 0 (dl_num l)),
          [mk_lcmd (dcg_id d) (mk_lh (dl_name l) t 0 0 (dl_num l))], 0)
  else (d, [], - ENOMEM).

(** A grant has arrived. *)
Definition dcgrpc_lock_service (d : dcg_space) (lh : lockhdr) : dcg_space * Z :=
  match snd (lock_get false d (lh_name lh) false) with
  | None => (d, - ENOENT)
  | Some l => (lock_update d (mk_dlock (dl_name l) 0 1 (lock_num lh)), 0)
  end.

(** ** dcg_obj_get

    The result is the return code and the object of the caller, or
    [get_waits] when a wait loop goes on after all replies are handled:
    [dc_process] does not fail and the flag is not set.  [None]: undefined
    behaviour (no end mark in the peer table, an access outside a buffer, a
    buffer released twice). *)

Inductive get_result := get_done (rc : Z) (od : obj_data) | get_waits.

(** The descriptors of each reply take new addresses. *)
Fixpoint handle_descs (ok : nat -> bool) (ptr : nat) (d : dcg_space) (ms : list smsg) : dcg_space :=
  match ms with
  | [] => d
  | m :: ms =>
      let n := match m with ss_desc_found _ tab => length tab | _ => O end in
      handle_descs ok (ptr + n) (fst (dcgrpc_obj_get_desc ok ptr d m)) ms
  end.

Fixpoint handle_data (net : get_net) (qte : query_tran_entry) (i : nat) (reqs : list (Z * hdr_obj_get))
    : query_tran_entry :=
  match reqs with
  | [] => qte
  | r :: reqs =>
      handle_data net (match gn_data net r with Some b => obj_data_get_completion qte i b | None => qte end) (S i) reqs
  end.

(** [DC_WAIT_COMPLETION] on a flag that is not set: an error of [dc_process]
    leaves through [err_out], the transaction stays in the list. *)
Definition wait_failed (err : Z) (d : dcg_space) (od : obj_data) : dcg_space * get_result :=
  (d, if err <? 0 then get_done err od else get_waits).

(** [out_no_data], [err_data_free]: the pieces are released and the
    transaction removed. *)
Definition get_finish (d : dcg_space) (qte : query_tran_entry) (rc : Z) (od : obj_data) : dcg_space * get_result :=
  (qt_remove d (qt_free_obj_data qte true), get_done rc od).

(** The last phase, once the descriptors are there.  When only some of the
    buffers can be allocated [qt_alloc_obj_data] releases them and
    [dcg_obj_get] releases them again. *)
Definition get_data_phase (fresh : list byte) (net : get_net) (d : dcg_space) (qte : query_tran_entry) (od : obj_data)
    : option (dcg_space * get_result) :=
  if (snd (qt_alloc_obj_data (gn_malloc net) fresh qte) <? 0) && gn_malloc net 0 && negb (list_empty (od_list qte)) then None
  else
    let '(qte, reqs, err) := dcg_obj_data_get fresh net qte in
    if err <? 0 then Some (get_finish d qte err od)
    else
      let qte := handle_data net qte 0 reqs in
      if negb (f_complete qte)
      then Some (if gn_proc net 2 <? 0 then get_finish (qt_update d qte) qte (- ENODATA) od else (qt_update d qte, get_waits))
      else
        od ← dcg_obj_assemble qte od;
        Some (get_finish (qt_update d qte) qte 0 od).

Definition dcg_obj_get (ok : bool) (ptr : nat) (fresh : list byte) (net : get_net) (d : dcg_space) (od : obj_data)
    : option (dcg_space * get_result) :=
  match qte_alloc ok d od true with
  | (d, None) => Some (d, get_done (- ENOMEM) od)
  | (d, Some qte) =>
      let d := versions_reset (qt_add d qte) in
      let '(r, err) := get_dht_peers net d qte in
      if err <? 0 then Some (qt_remove d qte, get_done err od)
      else
        match gn_peers net r with
        | None => Some (wait_failed (gn_proc net 0) d od)
        | Some tab =>
            let qte := get_dht_peers_completion qte tab in
            r ← get_obj_descriptors net d qte;
            let '(qte, reqs, err) := r in
            let d := qt_update d qte in
            if err <? 0 then Some (if err =? - EAGAIN then get_finish d qte err od else (qt_remove d qte, get_done err od))
            else
              let d := handle_descs (gn_desc_ok net) ptr d (gn_desc net reqs) in
              qte ← qt_find d (q_id qte);
              if negb (f_odsc_recv qte) then Some (wait_failed (gn_proc net 1) d od)
              else if f_err qte then Some (get_finish d qte (- EAGAIN) od)
              else get_data_phase fresh net d qte od
        end
  end.
