(* ===== verification/HashService.v ===== *)
(** * What the servers rely on: the hash of a shared space

    Every server builds its own copy of a space and stores descriptors in
    its own entry of it.  The hash of a box only depends on the part of the
    space all copies have in common, its skeleton ([skel]).  [HashService]
    states what the put and get protocols need of the hash; the two hash
    versions of src/ss_data.c are instances. *)

From S2P Require Import Prelude Bbox Sfc SfcCurve BboxIntv BboxRing Matrix ObjDesc Storage Sspace Server.

(** ** The skeleton of a space *)

Definition erase_de (de : dht_entry) : dht_entry := set_odsc de 0 [].

Definition skel (ss : sspace) : sspace :=
  mk_ss (ss_ptr ss) (max_dim ss) (bpd ss)
    (mk_dht (bb_glb_domain (ss_dht ss)) (num_entries (ss_dht ss)) (erase_de <$> ent_tab (ss_dht ss)))
    0 0 (total_num_bbox ss) (hash_version ss).

Lemma omap_ext {A B} (f g : A -> option B) (l : list A) : (forall x, f x = g x) -> omap f l = omap g l.
Proof. intros H. induction l as [|x l IH]; [done|]. cbn. by rewrite H, IH. Qed.

Lemma hash_hits_skel ss tab : hash_hits (skel ss) tab = hash_hits ss tab.
Proof.
  unfold hash_hits. cbn [skel ss_dht num_entries ent_tab ss_ptr]. apply omap_ext. intros k.
  rewrite list_lookup_fmap. by destruct (ent_tab (ss_dht ss) !! k).
Qed.

Lemma hash_hits_v2_skel ss b : hash_hits_v2 (skel ss) b = hash_hits_v2 ss b.
Proof.
  unfold hash_hits_v2. cbn [skel ss_dht num_entries ent_tab ss_ptr]. apply omap_ext. intros k.
  rewrite list_lookup_fmap. by destruct (ent_tab (ss_dht ss) !! k).
Qed.

(** Descriptors do not influence the hash. *)
Lemma ssd_hash_skel ok fuel sh ss b : ssd_hash ok fuel sh (skel ss) b = ssd_hash ok fuel sh ss b.
Proof.
  unfold ssd_hash. cbn [skel hash_version]. destruct (hash_version ss); [| |done].
  - unfold ssd_hash_v1. destruct (sh_find sh b) as [[|]|]; try done; cbn [skel max_dim];
      (destruct (bbox_to_intv2 _ _ _) as [r|]; [|done]); cbn [mbind option_bind]; by rewrite <- (hash_hits_skel ss).
  - unfold ssd_hash_v2. destruct (sh_find sh b) as [[|]|]; try done; by rewrite hash_hits_v2_skel.
Qed.

Lemma skel_set_entry ss i de de' : ent_tab (ss_dht ss) !! i = Some de -> erase_de de' = erase_de de ->
  skel (set_entry ss i de') = skel ss.
Proof.
  intros Hi He. unfold skel, set_entry. cbn. f_equal. f_equal. rewrite list_fmap_insert, He.
  rewrite <- list_fmap_insert. by rewrite list_insert_id.
Qed.

Lemma erase_dht_add ok de odsc : erase_de (dht_add_entry ok de odsc).1 = erase_de de.
Proof. unfold dht_add_entry. destruct (dht_find_match de odsc) as [[? ?]|]; [done|]. by destruct ok. Qed.

(** ** The interface *)

(** [own p k]: server [k] is responsible for cell [p]; [cell]: the cells some
    server is responsible for; [query]: the boxes that may be hashed;
    [good_cache]: the states of the cache the answers are right for. *)
Class HashService (ss0 : sspace) (N fuel : nat) (query : bbox -> Prop) (cell : list Z -> Prop)
    (own : list Z -> nat -> Prop) (good_cache : sh_state -> Prop) : Prop := {
  hs_run ok sh b : good_cache sh -> query b ->
    exists sh' t, ssd_hash ok fuel sh ss0 b = Some (sh', t) /\ good_cache sh' /\ NoDup t /\
      forall i k, (i, k) ∈ t <-> i = ss_ptr ss0 /\ exists p, in_box b p /\ own p k;
  hs_owner p : cell p -> exists k, own p k;
  hs_lt p k : own p k -> (k < N)%nat;
  hs_len : length (ent_tab (ss_dht ss0)) = N;
  hs_rank k de : ent_tab (ss_dht ss0) !! k = Some de -> de_rank de = Z.of_nat k;
  hs_query b : query b -> wf_bbox b;
  hs_empty : good_cache (mk_sh [] false)
}.

(** ** Instances *)

Lemma NoDup_omap_inj {A B} (f : A -> option B) (l : list A) : NoDup l ->
  (forall x y z, f x = Some z -> f y = Some z -> x = y) -> NoDup (omap f l).
Proof.
  intros Hl Hf. induction Hl as [|x l Hx Hl IH]; [constructor|]. cbn. destruct (f x) as [z|] eqn:E; [|done].
  constructor; [|done]. intros (y & Hy & Ey)%list_elem_of_omap. by rewrite (Hf _ _ _ E Ey) in Hx.
Qed.

Lemma hash_hits_NoDup ss tab : NoDup (hash_hits ss tab).
Proof.
  apply NoDup_omap_inj; [apply NoDup_seq|]. intros x y z Hx Hy.
  destruct (_ !! x); [|done]. destruct (_ !! y); [|done]. cbn in Hx, Hy. destruct (existsb _ _); [|done].
  destruct (existsb _ _); [|done]. congruence.
Qed.

Lemma hash_hits_v2_NoDup ss b : NoDup (hash_hits_v2 ss b).
Proof.
  apply NoDup_omap_inj; [apply NoDup_seq|]. intros x y z Hx Hy.
  destruct (_ !! x); [|done]. destruct (_ !! y); [|done]. cbn in Hx, Hy. destruct (existsb _ _); [|done].
  destruct (existsb _ _); [|done]. congruence.
Qed.

(** The answers in the cache have no entry twice. *)
Definition cache_nodup (sh : sh_state) : Prop := Forall (fun c => NoDup (sh_de_tab c)) (sfc_hash_list sh).

Lemma ssd_hash_NoDup ok fuel sh ss b sh' t : cache_nodup sh -> ssd_hash ok fuel sh ss b = Some (sh', t) ->
  cache_nodup sh' /\ NoDup t.
Proof.
  intros Hc E. assert (forall t', NoDup t' -> cache_nodup (fst (sh_add ok sh b t'))) as Hadd.
  { intros t' Ht. unfold sh_add. destruct ok; [|done]. apply Forall_app_2; [done|by apply Forall_singleton]. }
  assert (forall t', sh_find sh b = Some t' -> NoDup t') as Hfind.
  { unfold sh_find. intros t' Ht. pose proof (find_spec (fun c => bbox_equals b (sh_bb c)) (sfc_hash_list sh)) as Hf.
    destruct (List.find _ _) as [c|]; [|done]. cbn in Ht. injection Ht as <-.
    unfold cache_nodup in Hc. rewrite list.Forall_forall in Hc. by apply Hc, Hf. }
  unfold ssd_hash in E. destruct (hash_version ss); [| |injection E as <- <-; split; [done|constructor]].
  - unfold ssd_hash_v1 in E. pose proof (hash_hits_NoDup ss) as Hn.
    destruct (sh_find sh b) as [[|p l]|]; [| |]; try (destruct (bbox_to_intv2 _ _ _) as [[tab len]|]; [|done]; cbn in E);
      injection E as <- <-; eauto.
  - unfold ssd_hash_v2 in E. pose proof (hash_hits_v2_NoDup ss b) as Hn.
    destruct (sh_find sh b) as [[|p l]|]; injection E as <- <-; eauto.
Qed.

(** The entries of a space are numbered. *)
Definition ranked (ss : sspace) : Prop := forall k de, ent_tab (ss_dht ss) !! k = Some de -> de_rank de = Z.of_nat k.

#[export] Instance hash_service_v1 n k sn N fuel ss `(I : v1_inv n k sn ss) `(Hn : (n <= 11)%nat) `(Hr : ranked ss)
    `(HN : num_entries (ss_dht ss) = N) `(Hf : (cube_cost n k <= fuel)%nat) :
  HashService ss N fuel (intv_pre n k) (fun p => exists j, owns ss j (hilbert_c2i n (S k) p))
    (fun p j => owns ss j (hilbert_c2i n (S k) p)) (fun sh => cache_ok n k ss sh /\ cache_nodup sh).
Proof.
  constructor; [| | | | | |].
  - intros ok sh b [Hc Hd] Hq. destruct (ssd_hash_v1_spec n k sn ss I ok fuel sh b Hc Hq Hn Hf) as (sh' & t & E & Hc' & Ht).
    destruct (ssd_hash_NoDup _ _ _ _ _ _ _ Hd E) as [Hd' Hnd]. eauto 10.
  - done.
  - intros p j (de & Hj & _). rewrite <- HN, <- (v1_len _ _ _ _ I). by eapply lookup_lt_Some.
  - by rewrite (v1_len _ _ _ _ I).
  - exact Hr.
  - by intros b [].
  - split; [apply cache_empty|constructor].
Qed.

(** No box of the bisection is empty (a dimension may be cut into more parts
    than it has cells). *)
Definition boxes_wf (ss : sspace) : Prop := Forall (fun de => Forall wf_bbox (bb_tab de)) (ent_tab (ss_dht ss)).

Lemma hash_hits_v2_spec n N dom ss b : v2_inv n N dom ss -> boxes_wf ss -> wf_bbox b -> num_dims b = n ->
  forall i k, (i, k) ∈ hash_hits_v2 ss b <-> i = ss_ptr ss /\ exists p, in_box b p /\ owns2 ss k p.
Proof.
  intros I Hb0 Hw Hn i k. split.
  - intros (j & _ & E)%list_elem_of_omap. destruct (ent_tab (ss_dht ss) !! j) as [de|] eqn:Ed; [|done]. cbn in E.
    destruct (existsb _ _) eqn:Ex; [|done]. injection E as <- <-. split; [done|].
    apply existsb_exists in Ex as (b' & Hb & Hi). apply list_elem_of_In in Hb.
    pose proof (v2_dims _ _ _ _ I) as Hq. unfold boxes_wf in Hb0. rewrite list.Forall_forall in Hq, Hb0.
    specialize (Hq de (list_elem_of_lookup_2 _ _ _ Ed)). specialize (Hb0 de (list_elem_of_lookup_2 _ _ _ Ed)).
    rewrite list.Forall_forall in Hq, Hb0. destruct (Hq b' Hb) as (Hd & _).
    apply bbox_does_intersect_points in Hi as (p & Hp & Hp'); [|done|by apply Hb0|congruence].
    exists p. split; [done|]. by exists de, b'.
  - intros (-> & p & Hp & Ho). by apply (hash_hits_v2_complete n N dom ss b p).
Qed.

#[export] Instance hash_service_v2 n N fuel dom ss `(I : v2_inv n N dom ss) `(Hr : ranked ss) `(Hb : boxes_wf ss) :
  HashService ss N fuel (fun b => wf_bbox b /\ num_dims b = n) (in_box dom) (fun p j => owns2 ss j p)
    (fun sh => cache_ok2 ss sh /\ cache_nodup sh).
Proof.
  constructor; [| | | | | |].
  - intros ok sh b [Hc Hd] [Hw Hq]. destruct (ssd_hash_v2_spec ok fuel sh ss b (v2_ver _ _ _ _ I) Hc Hw) as (sh' & E & Hc').
    destruct (ssd_hash_NoDup _ _ _ _ _ _ _ Hd E) as [Hd' Hnd]. exists sh', (hash_hits_v2 ss b).
    split; [done|]. split; [done|]. split; [done|]. by apply (hash_hits_v2_spec n N dom).
  - intros p Hp. by apply (owns2_exists n N dom).
  - intros p j (de & b & Hj & _). rewrite <- (v2_len _ _ _ _ I). by eapply lookup_lt_Some.
  - apply (v2_len _ _ _ _ I).
  - exact Hr.
  - by intros b [].
  - split; [intros c Hc; by apply not_elem_of_nil in Hc|constructor].
Qed.

Lemma hash_service_skel ss N fuel query cell own good_cache :
  HashService ss N fuel query cell own good_cache -> HashService (skel ss) N fuel query cell own good_cache.
Proof.
  intros H. constructor; [| | | | |exact (@hs_query _ _ _ _ _ _ _ H)|exact (@hs_empty _ _ _ _ _ _ _ H)].
  - intros ok sh b Hc Hq. rewrite ssd_hash_skel. exact (@hs_run _ _ _ _ _ _ _ H ok sh b Hc Hq).
  - exact (@hs_owner _ _ _ _ _ _ _ H).
  - exact (@hs_lt _ _ _ _ _ _ _ H).
  - cbn. rewrite length_fmap. exact (@hs_len _ _ _ _ _ _ _ H).
  - intros k de Hk. cbn in Hk. rewrite list_lookup_fmap in Hk. destruct (ent_tab (ss_dht ss) !! k) as [de0|] eqn:E; [|done].
    injection Hk as <-. exact (@hs_rank _ _ _ _ _ _ _ H k de0 E).
Qed.

(** ** A new space has no descriptors *)

Definition fresh_entry (mv : Z) (k : nat) (de : dht_entry) : Prop :=
  de_rank de = Z.of_nat k /\ odsc_size de = mv /\ odsc_num de = 0 /\ odsc_hash de = replicate (Z.to_nat mv) [].

Definition fresh_space (mv : Z) (ss : sspace) : Prop :=
  forall k de, ent_tab (ss_dht ss) !! k = Some de -> fresh_entry mv k de.

Lemma hash_entries_fresh ok sn mv ents : Forall (fun de => de = dht_entry_alloc mv) ents -> forall i tab es,
  hash_entries ok sn ents i tab = Some (inr es) -> forall j de, es !! j = Some de -> fresh_entry mv (i + j) de.
Proof.
  induction 1 as [|de0 ents -> _ IH]; intros i tab es E j de Hj; cbn [hash_entries] in E; [by injection E as <-|].
  destruct (ok (2 * i)%nat); [|done]. destruct (carve _ sn tab) as [[[|t0 p] rest]|]; [done| |done]. cbn [mbind option_bind fst snd] in E.
  destruct (ok (S (2 * i))); [|done].
  destruct (hash_entries ok sn ents (S i) rest) as [[|es']|] eqn:Er; [done| |done]. cbn in E. injection E as <-.
  destruct j as [|j]; cbn in Hj; [injection Hj as <-; by rewrite Nat.add_0_r|].
  rewrite <- Nat.add_succ_comm. by eapply IH.
Qed.

Lemma alloc_entries_fresh ok n i mv : Forall (fun de => de = dht_entry_alloc mv) (alloc_entries ok n i mv).
Proof. revert i. induction n as [|n IH]; intros i; cbn; [constructor|]. destruct (ok (S i)); constructor; auto. Qed.

Lemma ssd_alloc_fresh ok fuel ptr dom N mv v ss : ssd_alloc ok fuel ptr dom N mv v = Some (Some ss) -> fresh_space mv ss.
Proof.
  unfold ssd_alloc. destruct v; [| |done].
  - unfold ssd_alloc_v1, dht_alloc. destruct (ok 0%nat); [|done].
    pose proof (alloc_entries_fresh ok N 0 mv) as Hf. set (ents := alloc_entries ok N 0 mv) in *.
    destruct (_ =? _)%nat; [|done]. cbn [fst]. unfold dht_construct_hash. cbn [bb_glb_domain num_entries ent_tab].
    destruct (bbox_to_intv _ _ _) as [itv|]; [|done]. cbn [mbind option_bind].
    destruct (hash_entries _ _ ents 0 (fst itv)) as [[e|es]|] eqn:E; [done| |done]. cbn [mbind option_bind fst snd Z.ltb Z.compare].
    cbn [fmap option_fmap option_map]. intros Es k de Hk. apply (inj Some), (inj Some) in Es. subst ss. cbn [ss_dht ent_tab] in Hk.
    by apply (hash_entries_fresh _ _ _ _ Hf _ _ _ E k de).
  - unfold ssd_alloc_v2. destruct (get_bbox_max_dim dom 0) as [md dim].
    destruct (next_pow_2_v2 md); [|done]. cbn [mbind option_bind].
    destruct (next_pow_2_v2 (Z.of_nat N)) as [np|]; [|done]. cbn [mbind option_bind].
    destruct (bisect_iter _ _) as [[[q1 q2] d']|]; [|done]. cbn [mbind option_bind].
    unfold dht_alloc. destruct (ok 0%nat); [|done].
    pose proof (alloc_entries_fresh ok N 0 mv) as Hf. set (ents := alloc_entries ok N 0 mv) in *.
    destruct (_ =? _)%nat; [|done]. cbn [fst ent_tab]. set (q := match q1 with [] => q2 | _ => q1 end).
    destruct (deal _ _ _ _) as [tabs|]; [|done]. cbn [mbind option_bind fmap option_fmap option_map].
    intros Es k de Hk. apply (inj Some), (inj Some) in Es. subst ss. cbn [ss_dht ent_tab] in Hk.
    apply lookup_zip_with_Some in Hk as (i & [de0 t] & -> & Hi & Hz). apply lookup_seq in Hi as [-> _].
    rewrite lookup_zip_with in Hz. destruct (ents !! k) as [e|] eqn:Ee; [|done]. cbn in Hz.
    destruct (tabs !! k); [|done]. cbn in Hz. injection Hz as -> ->.
    rewrite list.Forall_forall in Hf. rewrite (Hf de0) by (by eapply list_elem_of_lookup_2). done.
Qed.

Lemma fresh_entry_inv mv k de : 0 < mv < 2 ^ 31 -> fresh_entry mv k de -> de_inv de /\ forall o, ~ known de o.
Proof.
  intros Hm (_ & Hs & Hn & Hh). pose proof (dht_entry_alloc_inv mv Hm) as I.
  assert (mjoin (replicate (Z.to_nat mv) (@nil obj_descriptor)) = []) as E.
  { generalize (Z.to_nat mv). intros n. induction n as [|n IH]; [done|]. exact IH. }
  split.
  - destruct I as [I1 I2 I3 I4]. cbn in *. constructor; rewrite ?Hs, ?Hh, ?Hn; done.
  - intros o Ho. unfold known in Ho. rewrite Hh, E in Ho. by apply not_elem_of_nil in Ho.
Qed.

Lemma fresh_space_ranked mv ss : fresh_space mv ss -> ranked ss.
Proof. intros H k de Hk. apply (H k de Hk). Qed.

Lemma skel_ssd_init ss rank : skel (ssd_init ss rank) = skel ss.
Proof. done. Qed.

(** ** The spaces [ssd_alloc] builds *)

Lemma hash_service_cells ss N fuel query (cell cell' : list Z -> Prop) own good_cache : (forall p, cell' p -> cell p) ->
  HashService ss N fuel query cell own good_cache -> HashService ss N fuel query cell' own good_cache.
Proof.
  intros Hc H. constructor; [exact (@hs_run _ _ _ _ _ _ _ H)|intros p Hp; exact (@hs_owner _ _ _ _ _ _ _ H p (Hc p Hp))
    |exact (@hs_lt _ _ _ _ _ _ _ H)|exact (@hs_len _ _ _ _ _ _ _ H)|exact (@hs_rank _ _ _ _ _ _ _ H)
    |exact (@hs_query _ _ _ _ _ _ _ H)|exact (@hs_empty _ _ _ _ _ _ _ H)].
Qed.

(** Version 1, when the number of servers divides the volume: the whole
    domain is served. *)
Lemma ssd_alloc_v1_service ok fuel ptr n k dom N mv : (forall j, ok j = true) -> domain_ok n k dom ->
  (1 <= N)%nat -> Z.of_nat N <= box_card dom < 2 ^ 64 -> (cube_cost n k <= fuel)%nat -> (Z.of_nat N | box_card dom) ->
  exists ss, ssd_alloc ok fuel ptr dom N mv ssd_hash_version_v1 = Some (Some ss) /\ fresh_space mv ss /\
    HashService (skel ss) N fuel (intv_pre n k) (in_box dom) (fun p j => owns ss j (hilbert_c2i n (S k) p))
      (fun sh => cache_ok n k ss sh /\ cache_nodup sh).
Proof.
  intros Hok Hd HN Hc Hf [c Hdiv].
  destruct (ssd_alloc_v1_spec ok fuel ptr n k dom N mv Hok Hd HN Hc Hf) as (ss & idx & E & I & Hn & _ & _ & _ & P & Ef & Hr).
  exists ss. split; [done|]. split; [by eapply ssd_alloc_fresh|]. apply hash_service_skel.
  assert (n <= 11)%nat as Hn11 by (destruct Hd; lia).
  apply (hash_service_cells ss N fuel (intv_pre n k) (fun p => exists j, owns ss j (hilbert_c2i n (S k) p)));
    [|exact (hash_service_v1 n k _ N fuel ss I Hn11 Hr Hn Hf)].
  intros p Hp. apply (divisible_all_owned n k ss dom idx (box_card dom / Z.of_nat N) N p P (dm_wf _ _ _ Hd) Ef); [|done].
  rewrite Hdiv. rewrite Z.div_mul by lia. ring.
Qed.

(** Version 2, when no box of the bisection is empty. *)
Lemma ssd_alloc_v2_service ok fuel ptr n dom N mv : (forall j, ok j = true) -> qwf n dom -> (1 <= n)%nat -> (1 <= N)%nat ->
  Z.of_nat N < 2 ^ 31 ->
  exists ss, ssd_alloc ok fuel ptr dom N mv ssd_hash_version_v2 = Some (Some ss) /\ fresh_space mv ss /\
    (boxes_wf ss -> HashService (skel ss) N fuel (fun b => wf_bbox b /\ num_dims b = n) (in_box dom) (fun p j => owns2 ss j p)
      (fun sh => cache_ok2 ss sh /\ cache_nodup sh)).
Proof.
  intros Hok Hq Hn HN H31. destruct (ssd_alloc_v2_spec ok fuel ptr n dom N mv Hok Hq Hn HN H31) as (ss & E & I & _).
  pose proof (ssd_alloc_fresh _ _ _ _ _ _ _ _ E) as Hf. exists ss. split; [done|]. split; [done|]. intros Hb.
  apply hash_service_skel. exact (hash_service_v2 n N fuel dom ss I (fresh_space_ranked _ _ Hf) Hb).
Qed.
