(* ===== verification/System.v ===== *)
(** * Servers together: the put protocol

    The servers of one space, the messages between them and the data
    transfers under way.  A put runs the handler on the server of the
    client; its updates reach the other servers in any order; the data
    arrive later.  The invariant says where the descriptor and the data of
    every object are, for all interleavings. *)

From stdpp Require Import relations.
From S2P Require Import Prelude Bbox Matrix ObjDesc Storage Sspace Server HashService.

(** ** The state *)

(** [net]: sender, receiver, message.  [xfer]: the objects whose data are on
    the way, with the server; [puts]: all objects accepted so far. *)
Record sys := mk_sys {
  srv : list ds_gspace;
  net : list (nat * Z * smsg);
  xfer : list (nat * obj_data);
  puts : list (nat * obj_data)
}.

Definition send_from (i : nat) (ms : list (Z * smsg)) : list (nat * Z * smsg) := map (fun m => (i, fst m, snd m)) ms.

(** The environment without failures. *)
Record env_good (fuel : nat) (env : server_env) : Prop := {
  eg_ssd : forall j, e_ssd_ok env j = true;
  eg_fuel : e_fuel env = fuel;
  eg_odsc : e_odsc_ok env = true;
  eg_alloc : e_alloc env = true;
  eg_msg : forall p, e_msg env p = true;
  eg_send : forall p m, e_send env p m = 0;
  eg_recv : forall p, e_recv env p = 0
}.

Lemma send_good fuel env p m : env_good fuel env -> send_msg env p m = ([(p, m)], 0).
Proof. intros []. unfold send_msg. by rewrite eg_msg0, eg_send0. Qed.

#[export] Instance bbox_eq_dec : EqDecision bbox.
Proof. solve_decision. Defined.
#[export] Instance obj_descriptor_eq_dec : EqDecision obj_descriptor.
Proof. solve_decision. Defined.
#[export] Instance global_dimension_eq_dec : EqDecision global_dimension.
Proof. solve_decision. Defined.
#[export] Instance byte_eq_dec : EqDecision byte := Byte.byte_eq_dec.
#[export] Instance obj_data_eq_dec : EqDecision obj_data.
Proof. solve_decision. Defined.

Definition is_update (m : smsg) : bool := match m with ss_obj_update _ => true | _ => false end.

Section system.
Context (ss0 : sspace) (N fuel : nat) (query : bbox -> Prop) (cell : list Z -> Prop)
  (own : list Z -> nat -> Prop) (good_cache : sh_state -> Prop) (gd0 : global_dimension) (mv : Z).
Context {HS : HashService ss0 N fuel query cell own good_cache}.

(** ** One server *)

Record srv_ok (k : nat) (d : ds_gspace) : Prop := {
  sv_id : dsg_id d = k;
  sv_sp : size_sp d = N;
  sv_gd : default_gdim d = gd0;
  sv_skel : skel (dsg_ssd d) = ss0;
  sv_self : ent_self (dsg_ssd d) = k;
  sv_cache : good_cache (sfc_cache d);
  sv_ls : ls_inv (dsg_ls d);
  sv_lsz : size_hash (dsg_ls d) = mv;
  sv_ref : forall x, stored (dsg_ls d) x -> refcnt x = 0;
  sv_de : exists de, self_entry d ref_default = Some de /\ de_inv de /\ odsc_size de = mv
}.

Definition knows (d : ds_gspace) (o : obj_descriptor) : Prop :=
  exists de, self_entry d ref_default = Some de /\ known de o.

Lemma lookup_default env k d : srv_ok k d -> lookup_sspace env d gd0 = Some (d, ref_default).
Proof. intros H. unfold lookup_sspace. by rewrite (sv_gd _ _ H), gdim_equal_refl. Qed.

(** What the update with [odsc] does to a server: the storage and the
    transfers stay, the descriptors it conflicts with may go. *)
Record updates (k : nat) (odsc : obj_descriptor) (d d' : ds_gspace) : Prop := {
  up_ok : srv_ok k d';
  up_ls : dsg_ls d' = dsg_ls d;
  up_pend : pending d' = pending d;
  up_keeps : forall o, knows d o -> knows d' o \/ conflicts mv odsc o;
  up_self : knows d odsc -> knows d' odsc;
  up_only : forall o, knows d' o -> o = odsc \/ knows d o
}.

Lemma updates_refl k odsc d : srv_ok k d -> updates k odsc d d.
Proof. intros H. constructor; auto. Qed.

Lemma updates_trans k odsc d1 d2 d3 : updates k odsc d1 d2 -> updates k odsc d2 d3 -> updates k odsc d1 d3.
Proof.
  intros [A1 A2 A3 A4 A5 A6] [B1 B2 B3 B4 B5 B6]. constructor; [done|congruence|congruence| |auto|].
  - intros o Ho. destruct (A4 o Ho); auto.
  - intros o Ho. destruct (B6 o Ho); auto.
Qed.

Lemma add_self_spec env k d odsc : env_good fuel env -> srv_ok k d -> 0 <= version odsc < 2 ^ 32 ->
  exists d', add_self env d ref_default odsc = Some (d', 0) /\ updates k odsc d d' /\ knows d' odsc.
Proof.
  intros He H Hv. destruct (sv_de _ _ H) as (de & Hde & Hi & Hsz). unfold self_entry in Hde. cbn in Hde.
  unfold add_self. cbn [get_ss mbind option_bind]. rewrite Hde. cbn [mbind option_bind]. rewrite (eg_odsc _ _ He).
  pose proof (dht_add_entry_ok de odsc) as E0. pose proof (dht_add_entry_inv de odsc Hi Hv true) as E1.
  pose proof (dht_add_entry_known de odsc Hi true E0) as E2. pose proof (dht_add_entry_keeps de odsc Hi true) as E3.
  pose proof (fun o => dht_add_entry_only true de odsc o Hi) as E4. pose proof (dht_add_entry_size true de odsc) as E5.
  pose proof (erase_dht_add true de odsc) as E6.
  destruct (dht_add_entry true de odsc) as [de' err]. cbn [fst snd] in *. subst err. eexists. split; [done|].
  pose proof (sv_self _ _ H) as Hself. rewrite Hself in *.
  assert (self_entry (set_ssd d (set_entry (dsg_ssd d) k de')) ref_default = Some de') as Hself'.
  { unfold self_entry. cbn. rewrite Hself. apply list_lookup_insert_eq. by eapply lookup_lt_Some. }
  assert (self_entry d ref_default = Some de) as Hde2 by (unfold self_entry; cbn; by rewrite Hself).
  split; [|by exists de']. destruct H. constructor; cbn [set_ss dsg_ls set_ssd pending]; try done.
  - constructor; try done.
    + cbn. by rewrite (skel_set_entry _ _ de).
    + exists de'. split; [done|]. split; [done|congruence].
  - intros o (de1 & Hd1 & Ho). rewrite Hde2 in Hd1. injection Hd1 as <-. rewrite Hsz in E3.
    destruct (E3 o Ho) as [Hk|[Hb Hn]]; [left; by exists de'|right; split; done].
  - intros _. by exists de'.
  - intros o (de1 & Hd1 & Ho). rewrite Hself' in Hd1. injection Hd1 as <-.
    destruct (E4 o Ho); [by left|right; by exists de].
Qed.

(** ** Continuous queries do not touch the rest *)

Lemma cq_check_good env odsc l : env_good fuel env ->
  let '(_, ms, err) := cq_check_loop env odsc l in err = 0 /\ Forall (fun m => is_update (snd m) = false) ms.
Proof.
  intros He. induction l as [|cq l IH]; [split; [done|constructor]|]. cbn [cq_check_loop].
  destruct (cq_check_loop env odsc l) as [[l' ms] err]. destruct IH as [-> IH].
  destruct (obj_desc_by_name_intersect _ _); [|done]. unfold cq_notify_on_match.
  rewrite (eg_msg _ _ He), (send_good fuel) by done. cbn. split; [done|]. by constructor.
Qed.

Lemma set_cq_ok k d l n : srv_ok k d -> srv_ok k (set_cq d l n).
Proof. by intros []. Qed.

Lemma cq_match_updates env k odsc d : env_good fuel env -> srv_ok k d ->
  exists d' ms, cq_check_match env d odsc = (d', ms, 0) /\ updates k odsc d d' /\ (forall o, knows d' o <-> knows d o) /\
    Forall (fun m => is_update (snd m) = false) ms.
Proof.
  intros He H. unfold cq_check_match. pose proof (cq_check_good env odsc (cq_list d) He) as Hc.
  destruct (cq_check_loop env odsc (cq_list d)) as [[l ms] err]. destruct Hc as [-> Hm].
  exists (set_cq d l (cq_num d)), ms. split; [done|]. split; [|split; [done|done]].
  constructor; try done; [by apply set_cq_ok|by left|by right].
Qed.

(** ** The hash on a server *)

Lemma set_cache_ok k d sh : srv_ok k d -> good_cache sh -> srv_ok k (set_cache d sh).
Proof. by intros []. Qed.

Lemma ent_rank k d j : srv_ok k d -> (j < N)%nat -> exists de, ent_tab (ss_dht (dsg_ssd d)) !! j = Some de /\ de_rank de = Z.of_nat j.
Proof.
  intros H Hj. pose proof (sv_skel _ _ H) as Hs.
  assert (ent_tab (ss_dht ss0) = erase_de <$> ent_tab (ss_dht (dsg_ssd d))) as He by (by rewrite <- Hs).
  pose proof hs_len as Hl. rewrite He, length_fmap in Hl.
  destruct (lookup_lt_is_Some_2 (ent_tab (ss_dht (dsg_ssd d))) j ltac:(lia)) as [de Hde]. exists de. split; [done|].
  apply (hs_rank j (erase_de de)). by rewrite He, list_lookup_fmap, Hde.
Qed.

Lemma ss_ptr_ok k d : srv_ok k d -> ss_ptr (dsg_ssd d) = ss_ptr ss0.
Proof. intros H. by rewrite <- (sv_skel _ _ H). Qed.

(** The ranks the hash returns are the servers responsible for the box. *)
Lemma hash_ranks_spec env k d b : env_good fuel env -> srv_ok k d -> query b ->
  exists sh ranks, hash_ranks env d ref_default b = Some (set_cache d sh, ranks) /\ good_cache sh /\
    NoDup ranks /\ (length ranks <= N)%nat /\
    forall r, r ∈ ranks <-> exists j p, r = Z.of_nat j /\ in_box b p /\ own p j.
Proof.
  intros He H Hq. unfold hash_ranks. cbn [get_ss mbind option_bind].
  destruct (hs_run (e_hash_ok env) (sfc_cache d) b (sv_cache _ _ H) Hq) as (sh & t & E & Hsh & Hnd & Ht).
  rewrite <- (sv_skel _ _ H), ssd_hash_skel in E. rewrite (eg_fuel _ _ He), E. cbn [mbind option_bind fst snd].
  assert (ranks_of d t = Some (map (fun x => Z.of_nat (snd x)) t)) as Er.
  { apply mapM_total. intros [q j] (-> & p & Hp & Ho)%Ht.
    destruct (ent_rank k d j H (hs_lt p j Ho)) as (de & Hde & Hrk). unfold deref. cbn.
    rewrite (ss_ptr_ok _ _ H), Nat.eqb_refl. cbn. rewrite Hde. cbn. by rewrite Hrk. }
  rewrite Er. cbn [mbind option_bind]. eexists _, _. split; [done|]. split; [done|].
  assert (NoDup (map (fun x : de_ptr => Z.of_nat (snd x)) t)) as Hnd2.
  { apply NoDup_fmap_2_strong; [|done]. intros [i j] [i' j'] [-> _]%Ht [-> _]%Ht. cbn. intros Ej. f_equal. lia. }
  assert (forall r, r ∈ map (fun x : de_ptr => Z.of_nat (snd x)) t <-> exists j p, r = Z.of_nat j /\ in_box b p /\ own p j) as Hiff.
  { intros r. split.
    - intros ([i j] & -> & (_ & p & Hp & Ho)%Ht)%list_elem_of_fmap. cbn. eauto.
    - intros (j & p & -> & Hp & Ho). apply (list_elem_of_fmap_2 (fun x : de_ptr => Z.of_nat (snd x)) t (ss_ptr ss0, j)).
      apply Ht. eauto. }
  split; [done|]. split; [|done].
  assert (length (map (fun x : de_ptr => Z.of_nat (snd x)) t) <= length (map Z.of_nat (seq 0 N)))%nat as Hl;
    [|by rewrite (length_map Z.of_nat), length_seq in Hl].
  apply NoDup_incl_length; [by apply NoDup_ListNoDup|]. intros r Hr. apply list_elem_of_In in Hr.
  apply Hiff in Hr as (j & p & -> & _ & Ho). apply in_map, in_seq. pose proof (hs_lt p j Ho). lia.
Qed.

(** ** The handlers of the put *)

Definition update_msg (mr : Z) (odsc : obj_descriptor) : smsg := ss_obj_update (mk_hog 0 mr odsc gd0).

Lemma update_loop_spec env k odsc mr ranks : env_good fuel env -> 0 <= version odsc < 2 ^ 32 -> forall d, srv_ok k d ->
  exists d' ms, update_loop env d ref_default odsc gd0 mr ranks = Some (d', ms, 0) /\ updates k odsc d d' /\
    (Z.of_nat k ∈ ranks -> knows d' odsc) /\
    (forall r, r ∈ ranks -> r <> Z.of_nat k -> (r, update_msg mr odsc) ∈ ms) /\
    (forall r m, (r, m) ∈ ms -> is_update m = true -> m = update_msg mr odsc /\ r ∈ ranks).
Proof.
  intros He Hv. induction ranks as [|rk ranks IH]; intros d H; cbn [update_loop].
  { exists d, []. split; [done|]. split; [by apply updates_refl|].
    split; [|split]; intros; by match goal with H : _ ∈ [] |- _ => apply not_elem_of_nil in H end. }
  rewrite (sv_id _ _ H). destruct (Z.eqb_spec rk (Z.of_nat k)) as [->|Hne].
  - destruct (add_self_spec env k d odsc He H Hv) as (d1 & -> & U1 & K1). cbn [mbind option_bind fst].
    rewrite (sv_id _ _ (up_ok _ _ _ _ U1)).
    assert (exists d2 ms2, (if Z.of_nat k =? mr then cq_check_match env d1 odsc else (d1, [], 0)) = (d2, ms2, 0) /\
      updates k odsc d1 d2 /\ Forall (fun m => is_update (snd m) = false) ms2) as (d2 & ms2 & -> & U2 & Hms2).
    { destruct (Z.of_nat k =? mr); [|exists d1, []; split; [done|]; split; [apply updates_refl, U1|constructor]].
      destruct (cq_match_updates env k odsc d1 He (up_ok _ _ _ _ U1)) as (d2 & ms2 & E & U & _ & Hm). eauto. }
    cbn [Z.ltb Z.compare]. destruct (IH d2 (up_ok _ _ _ _ U2)) as (d' & ms & -> & U3 & K3 & Hs & Ho). cbn [mbind option_bind].
    exists d', (ms2 ++ ms). split; [done|]. split; [by eapply updates_trans; [|eapply updates_trans]|].
    split; [intros _; apply (up_self _ _ _ _ U3), (up_self _ _ _ _ U2), K1|]. split.
    + intros r [->|Hr]%elem_of_cons Hn; [done|]. apply elem_of_app. right. auto.
    + intros r m [Hm|Hm]%elem_of_app Hu.
      * rewrite list.Forall_forall in Hms2. specialize (Hms2 _ Hm). cbn in Hms2. congruence.
      * destruct (Ho r m Hm Hu) as [? ?]. split; [done|]. by apply list_elem_of_further.
  - rewrite (send_good fuel) by done. cbn [Z.ltb Z.compare].
    destruct (IH d H) as (d' & ms & -> & U3 & K3 & Hs & Ho). cbn [mbind option_bind].
    exists d', ((rk, update_msg mr odsc) :: ms). split; [done|]. split; [done|]. split; [|split].
    + intros [Hk|Hk]%elem_of_cons; [congruence|auto].
    + intros r [->|Hr]%elem_of_cons Hn; [apply list_elem_of_here|]. apply list_elem_of_further. auto.
    + intros r m [[= -> ->]|Hm]%elem_of_cons Hu; [split; [done|apply list_elem_of_here]|].
      destruct (Ho r m Hm Hu) as [? ?]. split; [done|]. by apply list_elem_of_further.
Qed.

Lemma set_pending_ok k d l : srv_ok k d -> srv_ok k (set_pending d l).
Proof. by intros []. Qed.

Lemma updates_set_cache k odsc d sh d' : good_cache sh -> srv_ok k d -> updates k odsc (set_cache d sh) d' -> updates k odsc d d'.
Proof. by intros _ _ []. Qed.

(** The object a put creates, before its data arrive. *)
Definition put_obj (k ptr : nat) (fresh : list byte) (odsc : obj_descriptor) : obj_data :=
  set_gdim (obj_data_alloc ptr fresh (set_owner odsc (Z.of_nat k))) gd0.

(** A put: one of the responsible servers at least exists; the descriptor
    reaches the own entry or is on the way to every responsible server. *)
Lemma obj_put_spec env ptr fresh k d cid odsc : env_good fuel env -> srv_ok k d -> query (bb odsc) ->
  0 <= version odsc < 2 ^ 32 -> (exists p, in_box (bb odsc) p /\ cell p) ->
  let od := put_obj k ptr fresh odsc in
  exists d1 ms mr, dsgrpc_obj_put env ptr fresh d cid odsc gd0 = Some (set_pending d1 (pending d ++ [od]), ms, 0) /\
    updates k (obj_desc od) d d1 /\
    (forall j p, in_box (bb odsc) p -> own p j -> if decide (j = k) then knows d1 (obj_desc od)
       else (Z.of_nat j, update_msg mr (obj_desc od)) ∈ ms) /\
    (forall r m, (r, m) ∈ ms -> is_update m = true -> m = update_msg mr (obj_desc od) /\
       exists j p, r = Z.of_nat j /\ in_box (bb odsc) p /\ own p j).
Proof.
  intros He H Hq Hv (p0 & Hp0 & Hc0) od. unfold dsgrpc_obj_put.
  rewrite (eg_alloc _ _ He), (eg_msg _ _ He), (eg_recv _ _ He), (sv_id _ _ H). cbn [Z.ltb Z.compare].
  fold (put_obj k ptr fresh odsc). fold od. unfold obj_put_update_dht.
  change (od_gdim od) with gd0. rewrite (lookup_default env k d H). cbn [mbind option_bind].
  destruct (hash_ranks_spec env k d (bb odsc) He H Hq) as (sh & ranks & Eh & Hsh & Hnd & Hlen & Hr).
  change (bb (obj_desc od)) with (bb odsc). rewrite Eh. cbn [mbind option_bind].
  destruct (hs_owner p0 Hc0) as [j0 Hj0]. assert (Z.of_nat j0 ∈ ranks) as Hne by (apply Hr; eauto).
  destruct ranks as [|mr ranks]; [by apply not_elem_of_nil in Hne|]. cbn [head].
  destruct (update_loop_spec env k (obj_desc od) mr (mr :: ranks) He Hv (set_cache d sh) (set_cache_ok _ _ _ H Hsh))
    as (d1 & ms & E & U & K & Hs & Ho).
  unfold mbind, option_bind. rewrite E. cbn [Z.eqb]. exists d1, ms, mr. split; [by rewrite (up_pend _ _ _ _ U)|].
  split; [by eapply updates_set_cache|]. split.
  - intros j p Hp Hj. assert (Z.of_nat j ∈ mr :: ranks) as Hin by (apply Hr; eauto).
    destruct (decide (j = k)) as [->|Hjk]; [auto|]. apply Hs; [done|lia].
  - intros r m Hm Hu. destruct (Ho r m Hm Hu) as [-> Hin]. split; [done|]. by apply Hr.
Qed.

Lemma obj_update_spec env k d cid oh : env_good fuel env -> srv_ok k d -> oh_gdim oh = gd0 ->
  0 <= version (oh_odsc oh) < 2 ^ 32 ->
  exists d' ms, dsgrpc_obj_update env d cid oh = Some (d', ms, 0) /\ updates k (set_owner (oh_odsc oh) cid) d d' /\
    knows d' (set_owner (oh_odsc oh) cid) /\ Forall (fun m => is_update (snd m) = false) ms.
Proof.
  intros He H Hg Hv. unfold dsgrpc_obj_update. rewrite Hg, (lookup_default env k d H). cbn [mbind option_bind].
  destruct (add_self_spec env k d (set_owner (oh_odsc oh) cid) He H Hv) as (d1 & E1 & U1 & K1).
  unfold mbind, option_bind. rewrite E1. cbn [Z.ltb Z.compare].
  destruct (_ =? _); [|exists d1, []; split; [done|]; split; [done|]; split; [done|constructor]].
  destruct (cq_match_updates env k (set_owner (oh_odsc oh) cid) d1 He (up_ok _ _ _ _ U1)) as (d2 & ms & E & U & Hk & Hm).
  rewrite E. exists d2, ms. split; [done|]. split; [by eapply updates_trans|]. split; [by apply Hk|done].
Qed.

(** The data of an object arrive. *)
Lemma completion_spec k d i od0 bytes : srv_ok k d -> pending d !! i = Some od0 ->
  0 <= version (obj_desc od0) < 2 ^ 32 -> refcnt od0 = 0 -> (forall x, stored (dsg_ls d) x -> od_ptr x <> od_ptr od0) ->
  exists d', obj_put_completion d i bytes = Some d' /\ srv_ok k d' /\ (forall o, knows d' o <-> knows d o) /\
    pending d' = delete i (pending d) /\ stored (dsg_ls d') (set_data od0 bytes) /\
    (forall x, stored (dsg_ls d) x -> stored (dsg_ls d') x \/ conflicts mv (obj_desc od0) (obj_desc x)) /\
    (forall x, stored (dsg_ls d') x -> x = set_data od0 bytes \/ stored (dsg_ls d) x).
Proof.
  intros H Hi Hv Hr Hf. unfold obj_put_completion. rewrite Hi. cbn [mbind option_bind]. eexists. split; [done|].
  set (od := set_data od0 bytes). pose proof (sv_ls _ _ H) as I. pose proof (sv_ref _ _ H) as Href.
  destruct (ls_evict_inv (dsg_ls d) (obj_desc od) I) as [I' Hsz].
  assert (forall x, stored (ls_add_obj (dsg_ls d) od) x <-> x = od \/ stored (ls_evict (dsg_ls d) (obj_desc od)) x) as Hst.
  { intros x. rewrite ls_add_obj_eq. by apply stored_push. }
  assert (forall x, stored (ls_add_obj (dsg_ls d) od) x -> x = od \/ stored (dsg_ls d) x) as Hsub.
  { intros x [->|Hx]%Hst; [by left|right]. by eapply stored_evict_sub. }
  split; [|split; [done|split; [done|split; [|split; [|done]]]]].
  - pose proof (ls_add_obj_inv (dsg_ls d) od I Hv Hf) as Hnew. destruct H. constructor; try done.
    + cbn [set_ls dsg_ls]. rewrite ls_add_obj_eq. cbn [ls_push size_hash]. by rewrite Hsz.
    + intros x [->|Hx]%Hsub; auto.
  - apply Hst. by left.
  - intros x Hx. destruct (decide (obj_desc_by_name_intersect (obj_desc od) (obj_desc x) = true /\
      bin_of (version (obj_desc od)) mv = bin_of (version (obj_desc x)) mv)) as [Hc|Hc]; [by right|left].
    apply Hst. right. apply evict_keeps_bin; [done|done|]. unfold conflicts. by rewrite (sv_lsz _ _ H).
Qed.

(** ** Steps *)

Definition fresh_ptr (d : ds_gspace) (ptr : nat) : Prop :=
  forall x, stored (dsg_ls d) x \/ x ∈ pending d -> od_ptr x <> ptr.

Inductive step : sys -> sys -> Prop :=
  | step_put s i d env ptr fresh cid odsc bytes d' ms : srv s !! i = Some d -> env_good fuel env ->
      query (bb odsc) -> 0 <= version odsc < 2 ^ 32 -> (exists p, in_box (bb odsc) p /\ cell p) -> fresh_ptr d ptr ->
      dsgrpc_obj_put env ptr fresh d cid odsc gd0 = Some (d', ms, 0) ->
      let od := set_data (put_obj i ptr fresh odsc) bytes in
      step s (mk_sys (<[i := d']> (srv s)) (net s ++ send_from i ms) (xfer s ++ [(i, od)]) (puts s ++ [(i, od)]))
  | step_update s i k d env oh d' ms n1 n2 : net s = n1 ++ (i, Z.of_nat k, ss_obj_update oh) :: n2 ->
      srv s !! k = Some d -> env_good fuel env -> dsgrpc_obj_update env d (Z.of_nat i) oh = Some (d', ms, 0) ->
      step s (mk_sys (<[k := d']> (srv s)) ((n1 ++ n2) ++ send_from k ms) (xfer s) (puts s))
  | step_complete s i d j od0 od x1 x2 d' : srv s !! i = Some d -> pending d !! j = Some od0 ->
      xfer s = x1 ++ (i, od) :: x2 -> od_ptr od = od_ptr od0 -> obj_put_completion d j (data od) = Some d' ->
      step s (mk_sys (<[i := d']> (srv s)) (net s) (x1 ++ x2) (puts s))
  | step_peers s i d env heap cid oh d' ms : srv s !! i = Some d -> env_good fuel env -> query (bb (oh_odsc oh)) ->
      oh_gdim oh = gd0 -> dsgrpc_obj_send_dht_peers env heap d cid oh = Some (d', ms, 0) ->
      step s (mk_sys (<[i := d']> (srv s)) (net s ++ send_from i ms) (xfer s) (puts s)).

(** ** The invariant, for the objects of one name and version *)

Context (nm : string) (v : Z).

Definition tracked (s : sys) (i : nat) (od : obj_data) : Prop :=
  (i, od) ∈ puts s /\ name (obj_desc od) = nm /\ version (obj_desc od) = v.

(** No other object takes the place of a tracked one. *)
Definition no_conflict (s : sys) : Prop := forall i od i' od', tracked s i od -> (i', od') ∈ puts s ->
  (i', od') <> (i, od) -> ~ conflicts mv (obj_desc od') (obj_desc od).

(** The servers, and the objects in memory: stored, or pending with a
    transfer under way. *)
Record inv_mem (s : sys) : Prop := {
  in_srv : forall k d, srv s !! k = Some d -> srv_ok k d;
  in_pnd : forall k d, srv s !! k = Some d -> NoDup (od_ptr <$> pending d);
  in_pend : forall k d od0, srv s !! k = Some d -> od0 ∈ pending d ->
    (exists od, (k, od) ∈ xfer s /\ od = set_data od0 (data od)) /\
    (forall x, stored (dsg_ls d) x -> od_ptr x <> od_ptr od0) /\ refcnt od0 = 0 /\ 0 <= version (obj_desc od0) < 2 ^ 32;
  in_xnd : NoDup ((fun x : nat * obj_data => (fst x, od_ptr (snd x))) <$> xfer s);
  in_xfer : forall k od, (k, od) ∈ xfer s -> (k, od) ∈ puts s /\ exists d od0, srv s !! k = Some d /\ od0 ∈ pending d /\ od_ptr od0 = od_ptr od;
  in_puts : forall k od, (k, od) ∈ puts s -> owner (obj_desc od) = Z.of_nat k /\ 0 <= version (obj_desc od) < 2 ^ 32 /\
    exists d, srv s !! k = Some d;
  in_ls : forall k d x, srv s !! k = Some d -> stored (dsg_ls d) x -> (k, x) ∈ puts s;
  in_data : forall i od, tracked s i od ->
    (exists d, srv s !! i = Some d /\ stored (dsg_ls d) od) \/ (i, od) ∈ xfer s
}.

(** The directory: descriptors are known or on the way to every
    responsible server, and there are no others. *)
Record inv_dir (s : sys) : Prop := {
  in_net : forall i r oh, (i, r, ss_obj_update oh) ∈ net s -> oh_gdim oh = gd0 /\
    exists od, (i, od) ∈ puts s /\ oh_odsc oh = obj_desc od;
  in_known : forall k d o, srv s !! k = Some d -> knows d o -> exists i od, (i, od) ∈ puts s /\ o = obj_desc od;
  in_desc : forall i od p j, tracked s i od -> in_box (bb (obj_desc od)) p -> own p j ->
    (exists d, srv s !! j = Some d /\ knows d (obj_desc od)) \/
    exists mr, (i, Z.of_nat j, update_msg mr (obj_desc od)) ∈ net s
}.

Record inv (s : sys) : Prop := {
  in_len : length (srv s) = N;
  in_mem : inv_mem s;
  in_dir : inv_dir s
}.

Lemma lookup_insert_srv (l : list ds_gspace) i d d0 k dk : l !! i = Some d0 -> <[i := d]> l !! k = Some dk ->
  k = i /\ dk = d \/ k <> i /\ l !! k = Some dk.
Proof.
  intros Hi Hk. destruct (decide (k = i)) as [->|Hne].
  - left. rewrite list_lookup_insert_eq in Hk by (by eapply lookup_lt_Some). by injection Hk as <-.
  - right. by rewrite list_lookup_insert_ne in Hk.
Qed.

Lemma insert_srv_self (l : list ds_gspace) i d d0 : l !! i = Some d0 -> <[i := d]> l !! i = Some d.
Proof. intros Hi. apply list_lookup_insert_eq. by eapply lookup_lt_Some. Qed.

Lemma insert_srv_some (l : list ds_gspace) i d k dk : l !! k = Some dk -> exists dk', <[i := d]> l !! k = Some dk'.
Proof. intros Hk. apply lookup_lt_is_Some_2. rewrite length_insert. by eapply lookup_lt_Some. Qed.

Lemma send_from_in i ms j r m : (j, r, m) ∈ send_from i ms <-> j = i /\ (r, m) ∈ ms.
Proof.
  unfold send_from. rewrite list_elem_of_fmap. split.
  - intros ([r' m'] & [= -> -> ->] & H). done.
  - intros [-> H]. by exists (r, m).
Qed.

Lemma elem_of_snoc {A} (l : list A) x y : y ∈ l ++ [x] <-> y ∈ l \/ y = x.
Proof. by rewrite elem_of_app, list_elem_of_singleton. Qed.

Lemma no_conflict_sub s s' : (forall x, x ∈ puts s -> x ∈ puts s') -> no_conflict s' -> no_conflict s.
Proof.
  intros H C i od i' od' (H1 & H2 & H3) H4. apply C; [|by apply H]. split; [by apply H|done].
Qed.

(** A tracked object is stored or on the way. *)
Lemma tracked_ptr s i od d : inv_mem s -> tracked s i od -> srv s !! i = Some d ->
  exists x, (stored (dsg_ls d) x \/ x ∈ pending d) /\ od_ptr x = od_ptr od.
Proof.
  intros I T Hd. destruct (in_data s I i od T) as [(d' & Hd' & Hs)|Hx].
  - rewrite Hd in Hd'. injection Hd' as <-. exists od. auto.
  - destruct (in_xfer s I i od Hx) as (_ & d' & od0 & Hd' & Hp & E). rewrite Hd in Hd'. injection Hd' as <-. exists od0. auto.
Qed.

(** *** A put *)

Section put.
Context (s : sys) (i : nat) (d d1 : ds_gspace) (ms : list (Z * smsg)) (od0 : obj_data) (bytes : list byte).
Context (Hd : srv s !! i = Some d) (U : updates i (obj_desc od0) d d1).
Context (Hf : fresh_ptr d (od_ptr od0)) (Hr : refcnt od0 = 0) (Hv : 0 <= version (obj_desc od0) < 2 ^ 32).
Context (Ho : owner (obj_desc od0) = Z.of_nat i).
Let d' := set_pending d1 (pending d ++ [od0]).
Let od := set_data od0 bytes.
Let s' := mk_sys (<[i := d']> (srv s)) (net s ++ send_from i ms) (xfer s ++ [(i, od)]) (puts s ++ [(i, od)]).

Lemma put_mem_pending : inv_mem s -> forall k dk x, srv s' !! k = Some dk -> x ∈ pending dk ->
  (exists y, (k, y) ∈ xfer s' /\ y = set_data x (data y)) /\
  (forall y, stored (dsg_ls dk) y -> od_ptr y <> od_ptr x) /\ refcnt x = 0 /\ 0 <= version (obj_desc x) < 2 ^ 32.
Proof using Hd U Hf Hr Hv.
  intros I k dk x Hk Hx. apply (lookup_insert_srv _ _ _ _ _ _ Hd) in Hk as [[-> ->]|[_ Hk]].
  - cbn in Hx |- *. rewrite (up_ls _ _ _ _ U). apply elem_of_snoc in Hx as [Hx| ->].
    + destruct (in_pend s I i d x Hd Hx) as ((y & Hy & Ey) & Hp & Hrv). split; [|done].
      exists y. split; [|done]. apply elem_of_snoc. by left.
    + split; [exists od; split; [apply elem_of_snoc; by right|done]|]. split; [|done]. intros y Hy. apply Hf. by left.
  - destruct (in_pend s I k dk x Hk Hx) as ((y & Hy & Ey) & Hp). split; [|done]. exists y. split; [|done].
    apply elem_of_snoc. by left.
Qed.

Lemma put_mem : inv_mem s -> inv_mem s'.
Proof using Hd U Hf Hr Hv Ho.
  intros I. constructor; [| |by apply put_mem_pending| | | | |].
  - intros k dk [[-> ->]|[_ Hk]]%(lookup_insert_srv _ _ _ _ _ _ Hd); [apply set_pending_ok, U|by apply (in_srv s I)].
  - intros k dk [[-> ->]|[_ Hk]]%(lookup_insert_srv _ _ _ _ _ _ Hd); [|by apply (in_pnd s I k)]. cbn. rewrite fmap_app.
    apply list.NoDup_app. split; [by apply (in_pnd s I i)|]. split; [|apply NoDup_singleton].
    intros q (x & -> & Hx)%list_elem_of_fmap. cbn. intros Hq%list_elem_of_singleton. apply (Hf x); [by right|done].
  - cbn. rewrite fmap_app. apply list.NoDup_app. split; [apply I|]. split; [|apply NoDup_singleton].
    intros q ([k x] & -> & Hx)%list_elem_of_fmap. cbn. intros [= -> Hp]%list_elem_of_singleton.
    destruct (in_xfer s I i x Hx) as (_ & d2 & od2 & Hd2 & Hin & Hptr). rewrite Hd in Hd2. injection Hd2 as <-.
    apply (Hf od2); [by right|]. by rewrite Hptr.
  - intros k x [Hx|[= -> ->]]%elem_of_snoc.
    + destruct (in_xfer s I k x Hx) as (Hpx & d2 & od2 & Hd2 & Hin & Hptr). split; [apply elem_of_snoc; by left|]. destruct (decide (k = i)) as [->|Hne].
      * rewrite Hd in Hd2. injection Hd2 as <-. exists d', od2. split; [by eapply insert_srv_self|].
        split; [cbn; apply elem_of_snoc; by left|done].
      * exists d2, od2. split; [cbn; by rewrite list_lookup_insert_ne|done].
    + split; [apply elem_of_snoc; by right|]. exists d', od0. split; [by eapply insert_srv_self|].
      split; [cbn; apply elem_of_snoc; by right|done].
  - intros k x [Hx|[= -> ->]]%elem_of_snoc; [|split; [done|]; split; [done|]; by eapply insert_srv_some].
    destruct (in_puts s I k x Hx) as (Hox & Hvx & dk & Hk). split; [done|]. split; [done|]. by eapply insert_srv_some.
  - intros k dk x Hk Hx. apply elem_of_snoc. left.
    apply (lookup_insert_srv _ _ _ _ _ _ Hd) in Hk as [[-> ->]|[_ Hk]]; [|by eapply (in_ls s I)].
    apply (in_ls s I i d x Hd). cbn in Hx. by rewrite (up_ls _ _ _ _ U) in Hx.
  - intros k x (Hx & Hn & Hvx). apply elem_of_snoc in Hx as [Hx|[= -> ->]]; [|right; apply elem_of_snoc; by right].
    destruct (in_data s I k x) as [(dk & Hk & Hst)|Hxf]; [by split| |right; apply elem_of_snoc; by left].
    left. destruct (decide (k = i)) as [->|Hne].
    + exists d'. split; [by eapply insert_srv_self|]. cbn. rewrite (up_ls _ _ _ _ U), Hd in *. by injection Hk as <-.
    + exists dk. split; [cbn; by rewrite list_lookup_insert_ne|done].
Qed.

Lemma put_dir mr : inv_mem s -> inv_dir s -> no_conflict s' ->
  (forall j p, in_box (bb (obj_desc od0)) p -> own p j -> if decide (j = i) then knows d1 (obj_desc od0)
     else (Z.of_nat j, update_msg mr (obj_desc od0)) ∈ ms) ->
  (forall r m, (r, m) ∈ ms -> is_update m = true -> m = update_msg mr (obj_desc od0)) -> inv_dir s'.
Proof using Hd U Hf.
  intros M I Hnc Hto Hms. constructor.
  - intros k r oh [Hn|Hn]%elem_of_app.
    + destruct (in_net s I k r oh Hn) as (Hg & x & Hx & Ex). split; [done|]. exists x. split; [|done].
      apply elem_of_snoc. by left.
    + apply send_from_in in Hn as [-> Hn]. pose proof (Hms r _ Hn eq_refl) as [= ->]. split; [done|].
      exists od. split; [|done]. apply elem_of_snoc. by right.
  - intros k dk o Hk Hok.
    assert (o = obj_desc od0 \/ exists k' dk', srv s !! k' = Some dk' /\ knows dk' o) as [->|(k' & dk' & Hk' & Ho')].
    { apply (lookup_insert_srv _ _ _ _ _ _ Hd) in Hk as [[-> ->]|[_ Hk]]; [|eauto].
      destruct (up_only _ _ _ _ U o Hok); [by left|eauto]. }
    + exists i, od. split; [|done]. apply elem_of_snoc. by right.
    + destruct (in_known s I k' dk' o Hk' Ho') as (i' & x & Hin & ->). exists i', x. split; [|done].
      apply elem_of_snoc. by left.
  - intros k x p j (Hx & Hn & Hvx) Hp Hown. apply elem_of_snoc in Hx as [Hx|[= -> ->]].
    + destruct (in_desc s I k x p j) as [(dj & Hj & Hk)|(mr' & Hm)]; [by split|done|done| |].
      * left. destruct (decide (j = i)) as [->|Hne]; [|exists dj; split; [cbn; by rewrite list_lookup_insert_ne|done]].
        rewrite Hd in Hj. injection Hj as <-. exists d'. split; [by eapply insert_srv_self|].
        destruct (up_keeps _ _ _ _ U _ Hk) as [Hk'|Hcf]; [exact Hk'|]. exfalso.
        apply (Hnc k x i od); [split; [apply elem_of_snoc; by left|done]|apply elem_of_snoc; by right| |exact Hcf].
        intros [= <- <-]. destruct (tracked_ptr s i od d M) as (y & Hy & Ey); [by split|done|].
        by apply (Hf y Hy).
      * right. exists mr'. apply elem_of_app. by left.
    + specialize (Hto j p Hp Hown). destruct (decide (j = i)) as [->|Hne].
      * left. exists d'. split; [by eapply insert_srv_self|done].
      * right. exists mr. apply elem_of_app. right. by apply send_from_in.
Qed.
End put.

(** *** Steps that leave storage and transfers alone *)

Lemma frame_mem s i d d' nt : srv s !! i = Some d -> srv_ok i d' -> dsg_ls d' = dsg_ls d -> pending d' = pending d ->
  inv_mem s -> inv_mem (mk_sys (<[i := d']> (srv s)) nt (xfer s) (puts s)).
Proof.
  intros Hd Hok Hls Hp I.
  assert (forall k dk, <[i := d']> (srv s) !! k = Some dk -> exists dk0, srv s !! k = Some dk0 /\ srv_ok k dk /\
    dsg_ls dk = dsg_ls dk0 /\ pending dk = pending dk0) as Hback.
  { intros k dk [[-> ->]|[_ Hk]]%(lookup_insert_srv _ _ _ _ _ _ Hd); [by exists d|]. exists dk. split; [done|].
    split; [by apply (in_srv s I)|done]. }
  assert (forall k dk, srv s !! k = Some dk -> exists dk', <[i := d']> (srv s) !! k = Some dk' /\
    dsg_ls dk' = dsg_ls dk /\ pending dk' = pending dk) as Hfwd.
  { intros k dk Hk. destruct (decide (k = i)) as [->|Hne].
    - exists d'. split; [by eapply insert_srv_self|]. rewrite Hd in Hk. by injection Hk as <-.
    - exists dk. by rewrite list_lookup_insert_ne. }
  constructor; cbn [srv xfer puts].
  - intros k dk (dk0 & _ & H & _)%Hback. done.
  - intros k dk (dk0 & H & _ & _ & ->)%Hback. by apply (in_pnd s I k).
  - intros k dk x (dk0 & H & _ & -> & ->)%Hback Hx. by apply (in_pend s I k dk0 x).
  - apply I.
  - intros k x Hx. destruct (in_xfer s I k x Hx) as (Hpx & dk & y & Hk & Hy & E). split; [done|].
    destruct (Hfwd k dk Hk) as (dk' & Hk' & _ & Ep). exists dk', y. by rewrite Ep.
  - intros k x Hx. destruct (in_puts s I k x Hx) as (H1 & H2 & dk & Hk). split; [done|]. split; [done|].
    by eapply insert_srv_some.
  - intros k dk x (dk0 & H & _ & El & _)%Hback Hx. rewrite El in Hx. by eapply (in_ls s I).
  - intros k x T. destruct (in_data s I k x T) as [(dk & Hk & Hst)|Hx]; [|by right]. left.
    destruct (Hfwd k dk Hk) as (dk' & Hk' & El & _). exists dk'. by rewrite El.
Qed.

(** *** The delivery of an update *)

Lemma update_dir s i k d d' oh ms n1 n2 : inv_dir s -> no_conflict s -> net s = n1 ++ (i, Z.of_nat k, ss_obj_update oh) :: n2 ->
  srv s !! k = Some d -> updates k (set_owner (oh_odsc oh) (Z.of_nat i)) d d' -> knows d' (set_owner (oh_odsc oh) (Z.of_nat i)) ->
  (forall od, (i, od) ∈ puts s -> owner (obj_desc od) = Z.of_nat i) ->
  Forall (fun m => is_update (snd m) = false) ms ->
  inv_dir (mk_sys (<[k := d']> (srv s)) ((n1 ++ n2) ++ send_from k ms) (xfer s) (puts s)).
Proof.
  intros I Hnc Hn Hd U Hk Hown Hms. rewrite list.Forall_forall in Hms.
  destruct (in_net s I i (Z.of_nat k) oh) as (Hg & od & Hod & Eo); [rewrite Hn; apply elem_of_app; right; apply list_elem_of_here|].
  assert (set_owner (oh_odsc oh) (Z.of_nat i) = obj_desc od) as Eset.
  { rewrite Eo, <- (Hown od Hod). by destruct (obj_desc od). }
  rewrite Eset in *.
  assert (forall x, x ∈ n1 ++ n2 -> x ∈ net s) as Hsub.
  { intros x Hx. rewrite Hn. rewrite elem_of_app in Hx. rewrite elem_of_app, elem_of_cons. tauto. }
  constructor; cbn [net puts srv].
  - intros j r o [Hx|Hx]%elem_of_app; [by apply (in_net s I j r o), Hsub|].
    apply send_from_in in Hx as [_ Hx]. by specialize (Hms _ Hx).
  - intros j dj o Hj Hko. apply (lookup_insert_srv _ _ _ _ _ _ Hd) in Hj as [[-> ->]|[_ Hj]]; [|by eapply (in_known s I)].
    destruct (up_only _ _ _ _ U o Hko) as [->|Hko']; [eauto|by eapply (in_known s I)].
  - intros j x p l T Hp Ho. assert (l = k -> knows d (obj_desc x) -> knows d' (obj_desc x)) as Hkeep.
    { intros -> Hkx. destruct (decide ((i, od) = (j, x))) as [[= -> ->]|Hne]; [by apply (up_self _ _ _ _ U)|].
      destruct (up_keeps _ _ _ _ U _ Hkx) as [?|Hcf]; [done|]. by destruct (Hnc j x i od T Hod Hne). }
    destruct (in_desc s I j x p l T Hp Ho) as [(dl & Hl & Hkl)|(mr & Hm)].
    + left. destruct (decide (l = k)) as [->|Hne]; [|exists dl; split; [by rewrite list_lookup_insert_ne|done]].
      rewrite Hd in Hl. injection Hl as <-. exists d'. split; [by eapply insert_srv_self|auto].
    + rewrite Hn in Hm. apply elem_of_app in Hm as [Hm|[Hm|Hm]%elem_of_cons].
      * right. exists mr. apply elem_of_app. left. apply elem_of_app. by left.
      * injection Hm as -> Hl Em. assert (l = k) as -> by lia. left. exists d'. split; [by eapply insert_srv_self|].
        unfold update_msg in Em. subst oh. cbn in Eset, Eo. by rewrite Eo.
      * right. exists mr. apply elem_of_app. left. apply elem_of_app. by right.
Qed.

(** *** A query for the DHT peers only changes the cache *)

Lemma peers_spec env heap k d cid oh : env_good fuel env -> srv_ok k d -> query (bb (oh_odsc oh)) -> oh_gdim oh = gd0 ->
  exists sh ranks, dsgrpc_obj_send_dht_peers env heap d cid oh =
      Some (set_cache d sh, [(cid, dht_peers (take (S N) (ranks ++ [-1] ++ heap)))], 0) /\ good_cache sh /\
    NoDup ranks /\ (length ranks <= N)%nat /\
    forall r, r ∈ ranks <-> exists j p, r = Z.of_nat j /\ in_box (bb (oh_odsc oh)) p /\ own p j.
Proof.
  intros He H Hq Hg. unfold dsgrpc_obj_send_dht_peers. rewrite Hg, (lookup_default env k d H). cbn [mbind option_bind].
  destruct (hash_ranks_spec env k d (bb (oh_odsc oh)) He H Hq) as (sh & ranks & Eh & Hsh & Hnd & Hlen & Hr).
  unfold mbind, option_bind. rewrite Eh, (eg_alloc _ _ He), (send_good fuel) by done.
  exists sh, ranks. cbn [set_cache size_sp]. by rewrite (sv_sp _ _ H).
Qed.

Lemma frame_dir s i d d' ms : srv s !! i = Some d -> (forall o, knows d' o <-> knows d o) ->
  Forall (fun m => is_update (snd m) = false) ms ->
  inv_dir s -> forall xf, inv_dir (mk_sys (<[i := d']> (srv s)) (net s ++ send_from i ms) xf (puts s)).
Proof.
  intros Hd Hk Hms I xf. rewrite list.Forall_forall in Hms. constructor; cbn [net puts srv].
  - intros j r o [Hx|Hx]%elem_of_app; [by apply (in_net s I j r o)|].
    apply send_from_in in Hx as [_ Hx]. by specialize (Hms _ Hx).
  - intros j dj o [[-> ->]|[_ Hj]]%(lookup_insert_srv _ _ _ _ _ _ Hd) Ho; [apply Hk in Ho|]; by eapply (in_known s I).
  - intros j x p l T Hp Ho. destruct (in_desc s I j x p l T Hp Ho) as [(dl & Hl & Hkl)|(mr & Hm)].
    + left. destruct (decide (l = i)) as [->|Hne]; [|exists dl; split; [by rewrite list_lookup_insert_ne|done]].
      rewrite Hd in Hl. injection Hl as <-. exists d'. split; [by eapply insert_srv_self|by apply Hk].
    + right. exists mr. apply elem_of_app. by left.
Qed.

(** *** The arrival of the data *)

Section complete.
Context (s : sys) (i : nat) (d d' : ds_gspace) (j : nat) (od0 od : obj_data) (x1 x2 : list (nat * obj_data)).
Context (M : inv_mem s) (Hnc : no_conflict s).
Context (Hd : srv s !! i = Some d) (Hj : pending d !! j = Some od0) (Hx : xfer s = x1 ++ (i, od) :: x2).
Context (Hptr : od_ptr od = od_ptr od0) (E : obj_put_completion d j (data od) = Some d').

(** The transfer is the one of the pending object. *)
Lemma complete_same : set_data od0 (data od) = od.
Proof using M Hd Hj Hx Hptr.
  destruct (in_pend s M i d od0 Hd (list_elem_of_lookup_2 _ _ _ Hj)) as ((y & Hy & Ey) & _).
  assert (y = od) as ->; [|done]. pose proof (in_xnd s M) as Hnd.
  assert ((i, od) ∈ xfer s) as Hin by (rewrite Hx; apply elem_of_app; right; apply list_elem_of_here).
  apply list_elem_of_lookup in Hy as [a Ha], Hin as [b Hb].
  assert (a = b) as ->; [|rewrite Ha in Hb; by injection Hb].
  eapply NoDup_lookup; [exact Hnd| |]; rewrite list_lookup_fmap, ?Ha, ?Hb; cbn; [done|]. rewrite Ey. cbn. by rewrite Hptr.
Qed.

Lemma complete_facts : srv_ok i d' /\ (forall o, knows d' o <-> knows d o) /\ pending d' = delete j (pending d) /\
  stored (dsg_ls d') od /\
  (forall x, stored (dsg_ls d) x -> stored (dsg_ls d') x \/ conflicts mv (obj_desc od) (obj_desc x)) /\
  (forall x, stored (dsg_ls d') x -> x = od \/ stored (dsg_ls d) x).
Proof using M Hd Hj Hx Hptr E.
  destruct (in_pend s M i d od0 Hd (list_elem_of_lookup_2 _ _ _ Hj)) as (_ & Hp & Hr & Hv).
  destruct (completion_spec i d j od0 (data od) (in_srv s M i d Hd) Hj Hv Hr Hp) as (d2 & E2 & H).
  rewrite E in E2. injection E2 as <-. rewrite complete_same in H. destruct H as (H1 & H2 & H3 & H4 & H5 & H6).
  do 4 (split; [done|]). split; [|done]. intros x Hs. rewrite <- complete_same. by apply H5.
Qed.

Let s' := mk_sys (<[i := d']> (srv s)) (net s) (x1 ++ x2) (puts s).

Lemma complete_pending x : x ∈ pending d' -> x ∈ pending d /\ od_ptr x <> od_ptr od.
Proof using M Hd Hj Hx Hptr E.
  destruct complete_facts as (_ & _ & -> & _). destruct (delete_split _ _ _ Hj) as (l1 & l2 & El & ->).
  pose proof (in_pnd s M i d Hd) as Hnd. rewrite El, fmap_app, fmap_cons in Hnd.
  apply list.NoDup_app in Hnd as (_ & Hdis & Hnd). apply list.NoDup_cons in Hnd as [Hni _].
  rewrite El, !elem_of_app, elem_of_cons, Hptr. intros [Hin|Hin].
  - split; [tauto|]. intros Ep. apply (Hdis (od_ptr x)); [by apply list_elem_of_fmap_2|]. rewrite Ep. apply list_elem_of_here.
  - split; [tauto|]. intros Ep. apply Hni. rewrite <- Ep. by apply list_elem_of_fmap_2.
Qed.

Lemma complete_xfer k y : (k, y) ∈ xfer s -> (k, od_ptr y) <> (i, od_ptr od) -> (k, y) ∈ x1 ++ x2.
Proof using Hx.
  rewrite Hx, !elem_of_app, elem_of_cons. intros [?|[[= -> ->]|?]] Hn; [by left|done|by right].
Qed.

Lemma complete_xfer_sub k y : (k, y) ∈ x1 ++ x2 -> (k, y) ∈ xfer s /\ (k, od_ptr y) <> (i, od_ptr od).
Proof using M Hx.
  intros Hy. pose proof (in_xnd s M) as Hnd. rewrite Hx, fmap_app, fmap_cons in Hnd.
  apply list.NoDup_app in Hnd as (_ & Hdis & Hnd). apply list.NoDup_cons in Hnd as [Hni _]. rewrite Hx.
  rewrite elem_of_app in Hy |- *. rewrite elem_of_cons. split; [tauto|]. intros Ep. destruct Hy as [Hy|Hy].
  - apply (Hdis (k, od_ptr y)); [exact (list_elem_of_fmap_2 (fun x : nat * obj_data => (fst x, od_ptr (snd x))) _ _ Hy)|].
    rewrite Ep. apply list_elem_of_here.
  - apply Hni. cbn. rewrite <- Ep. exact (list_elem_of_fmap_2 (fun x : nat * obj_data => (fst x, od_ptr (snd x))) _ _ Hy).
Qed.

Lemma complete_mem : inv_mem s'.
Proof using M Hnc Hd Hj Hx Hptr E.
  destruct complete_facts as (Hok & Hkn & Hpd & Hst & Hkeep & Honly).
  destruct (in_pend s M i d od0 Hd (list_elem_of_lookup_2 _ _ _ Hj)) as (_ & Hpf & _).
  assert ((i, od) ∈ xfer s) as Hin by (rewrite Hx; apply elem_of_app; right; apply list_elem_of_here).
  constructor; cbn [s' srv xfer puts].
  - intros k dk [[-> ->]|[_ Hk]]%(lookup_insert_srv _ _ _ _ _ _ Hd); [done|by apply (in_srv s M)].
  - intros k dk [[-> ->]|[_ Hk]]%(lookup_insert_srv _ _ _ _ _ _ Hd); [|by apply (in_pnd s M k)]. rewrite Hpd.
    eapply sublist_NoDup; [by apply (in_pnd s M i d)|]. apply fmap_sublist. apply sublist_delete.
  - intros k dk x [[-> ->]|[Hne Hk]]%(lookup_insert_srv _ _ _ _ _ _ Hd) Hxp.
    + apply complete_pending in Hxp as [Hxp Hpx]. destruct (in_pend s M i d x Hd Hxp) as ((y & Hy & Ey) & Hp & Hrv).
      split; [|split; [|done]].
      * exists y. split; [|done]. apply complete_xfer; [done|]. rewrite Ey. cbn. congruence.
      * intros z [->|Hz]%Honly; [congruence|by apply Hp].
    + destruct (in_pend s M k dk x Hk Hxp) as ((y & Hy & Ey) & Hp). split; [|done]. exists y. split; [|done].
      apply complete_xfer; [done|]. congruence.
  - eapply sublist_NoDup; [apply (in_xnd s M)|]. apply fmap_sublist. rewrite Hx.
    apply sublist_app; [done|]. by apply sublist_cons.
  - intros k y [Hy Hne]%complete_xfer_sub. destruct (in_xfer s M k y Hy) as (Hpy & dk & z & Hk & Hz & Ez). split; [done|].
    destruct (decide (k = i)) as [->|Hni]; [|exists dk, z; split; [by rewrite list_lookup_insert_ne|done]].
    rewrite Hd in Hk. injection Hk as <-. exists d', z. split; [by eapply insert_srv_self|]. split; [|done].
    rewrite Hpd. destruct (delete_split _ _ _ Hj) as (l1 & l2 & El & ->). rewrite El, elem_of_app, elem_of_cons in Hz.
    apply elem_of_app. destruct Hz as [?|[->|?]]; [by left|congruence|by right].
  - intros k y Hy. destruct (in_puts s M k y Hy) as (H1 & H2 & dk & Hk). split; [done|]. split; [done|].
    by eapply insert_srv_some.
  - intros k dk y [[-> ->]|[_ Hk]]%(lookup_insert_srv _ _ _ _ _ _ Hd) Hy; [|by eapply (in_ls s M)].
    apply Honly in Hy as [->|Hy]; [apply (in_xfer s M i od Hin)|by eapply (in_ls s M)].
  - intros k y T. destruct (decide ((k, y) = (i, od))) as [[= -> ->]|Hne].
    + left. exists d'. split; [by eapply insert_srv_self|done].
    + destruct (in_data s M k y T) as [(dk & Hk & Hs)|Hy].
      * left. destruct (decide (k = i)) as [->|Hni]; [|exists dk; split; [by rewrite list_lookup_insert_ne|done]].
        rewrite Hd in Hk. injection Hk as <-. exists d'. split; [by eapply insert_srv_self|].
        destruct (Hkeep y Hs) as [?|Hcf]; [done|]. exfalso.
        apply (Hnc i y i od T); [apply (in_xfer s M i od Hin)|congruence|done].
      * right. rewrite Hx, elem_of_app, elem_of_cons in Hy. apply elem_of_app.
        destruct Hy as [?|[?|?]]; [by left|done|by right].
Qed.
End complete.

(** ** All reachable states *)

Lemma step_puts s s' : step s s' -> forall x, x ∈ puts s -> x ∈ puts s'.
Proof. intros [] x Hx; cbn [puts]; try done. apply elem_of_app. by left. Qed.

Lemma step_inv s s' : step s s' -> inv s -> no_conflict s' -> inv s'.
Proof.
  intros H [Hlen M D] Hnc. pose proof (no_conflict_sub _ _ (step_puts _ _ H) Hnc) as Hnc0. pose proof (in_srv s M) as Hsrv.
  destruct H as [s i d env ptr fresh cid odsc bytes d' ms Hd He Hq Hv Hc Hf E od
    |s i k d env oh d' ms n1 n2 Hn Hd He E|s i d j od0 od x1 x2 d' Hd Hj Hx Hp E|s i d env heap cid oh d' ms Hd He Hq Hg E].
  - destruct (obj_put_spec env ptr fresh i d cid odsc He (Hsrv i d Hd) Hq Hv Hc) as (d1 & ms' & mr & E' & U & Hto & Hms).
    rewrite E in E'. injection E' as -> <-. constructor; [cbn; by rewrite length_insert| |].
    + by apply (put_mem s i d d1 ms (put_obj i ptr fresh odsc) bytes Hd U).
    + apply (put_dir s i d d1 ms (put_obj i ptr fresh odsc) bytes Hd U Hf mr); try done. intros r m Hm Hu. by apply (Hms r m).
  - destruct (in_net s D i (Z.of_nat k) oh) as (Hg & od & Hod & Eo);
      [rewrite Hn; apply elem_of_app; right; apply list_elem_of_here|].
    destruct (obj_update_spec env k d (Z.of_nat i) oh He (Hsrv k d Hd) Hg) as (d2 & ms2 & E2 & U & K & Hms);
      [rewrite Eo; by apply (in_puts s M i od)|]. rewrite E in E2. injection E2 as <- <-.
    constructor; [cbn; by rewrite length_insert|apply (frame_mem s k d); [done|apply U..|done]|].
    apply (update_dir s i k d d' oh); try done. intros x Hx. by apply (in_puts s M i x).
  - constructor; [cbn; by rewrite length_insert|by eapply complete_mem|].
    destruct (complete_facts s i d d' j od0 od x1 x2 M Hd Hj Hx Hp E) as (_ & Hk & _).
    pose proof (frame_dir s i d d' [] Hd Hk (Forall_nil_2 _) D (x1 ++ x2)) as Hdir. cbn in Hdir. by rewrite app_nil_r in Hdir.
  - destruct (peers_spec env heap i d cid oh He (Hsrv i d Hd) Hq Hg) as (sh & ranks & E2 & Hsh & _).
    rewrite E in E2. injection E2 as -> ->.
    constructor; [cbn; by rewrite length_insert|apply (frame_mem s i d); try done; by apply set_cache_ok, Hsh; apply Hsrv|].
    apply (frame_dir s i d); try done. by apply Forall_singleton.
Qed.

Lemma reach_inv s0 s : rtc step s0 s -> inv s0 -> no_conflict s -> inv s.
Proof.
  intros R I. revert s R. refine (rtc_ind_r (fun s => no_conflict s -> inv s) s0 _ _); [done|].
  intros s1 s2 R Hs IH Hnc. eapply step_inv; [exact Hs| |done]. apply IH.
  eapply no_conflict_sub; [by apply step_puts|done].
Qed.

Definition sys_init (ds : list ds_gspace) : sys := mk_sys ds [] [] [].

(** A server that has just started. *)
Definition started (k : nat) (d : ds_gspace) : Prop :=
  srv_ok k d /\ pending d = [] /\ (forall x, ~ stored (dsg_ls d) x) /\ forall o, ~ knows d o.

Lemma init_inv ds : length ds = N -> (forall k d, ds !! k = Some d -> started k d) -> inv (sys_init ds).
Proof.
  intros Hl H. assert (forall A (x : A), x ∉ []) as Hnil by (intros; apply not_elem_of_nil).
  constructor; [done| |]; constructor; cbn.
  - intros k d Hk. apply (H k d Hk).
  - intros k d Hk. destruct (H k d Hk) as (_ & -> & _). constructor.
  - intros k d x Hk Hx. destruct (H k d Hk) as (_ & Hp & _). rewrite Hp in Hx. by apply Hnil in Hx.
  - constructor.
  - intros k x Hx. by apply Hnil in Hx.
  - intros k x Hx. by apply Hnil in Hx.
  - intros k d x Hk Hx. by apply (H k d Hk) in Hx.
  - intros k x (Hx & _). by apply Hnil in Hx.
  - intros k r o Hx. by apply Hnil in Hx.
  - intros k d o Hk Ho. by apply (H k d Hk) in Ho.
  - intros k x p j (Hx & _). by apply Hnil in Hx.
Qed.

(** Everything sent has arrived. *)
Definition quiescent (s : sys) : Prop := xfer s = [] /\ forall i r m, (i, r, m) ∈ net s -> is_update m = false.

Lemma quiescent_data s i od : inv s -> quiescent s -> tracked s i od ->
  (exists d, srv s !! i = Some d /\ stored (dsg_ls d) od) /\
  forall p j, in_box (bb (obj_desc od)) p -> own p j -> exists d, srv s !! j = Some d /\ knows d (obj_desc od).
Proof.
  intros [_ M D] [Hx Hn] T. split.
  - destruct (in_data s M i od T) as [?|H]; [done|]. rewrite Hx in H. by apply not_elem_of_nil in H.
  - intros p j Hp Ho. destruct (in_desc s D i od p j T Hp Ho) as [?|(mr & Hm)]; [done|]. by apply Hn in Hm.
Qed.
End system.

(** ** Starting the servers *)

(** A server [dsg_alloc] starts is in its initial state, for the space
    [ssd_alloc] builds. *)
Lemma dsg_alloc_started env fuel max_ndim c N k cq0 ss query cell own good_cache : env_good fuel env ->
  conf_check max_ndim c = true -> 0 < cf_max_versions c < 2 ^ 31 -> (k < N)%nat ->
  ssd_alloc (e_ssd_ok env) fuel 0 (default_domain c) N (cf_max_versions c) (to_hash_version (cf_hash_version c)) = Some (Some ss) ->
  fresh_space (cf_max_versions c) ss -> HashService (skel ss) N fuel query cell own good_cache ->
  exists d, dsg_alloc env max_ndim c N k cq0 = Some (inr d) /\
    started (skel ss) N good_cache (mk_gdim (Z.to_nat (cf_ndim c)) (map (cget (cf_dims c)) (seq 0 (Z.to_nat (cf_ndim c)))))
      (cf_max_versions c) k d.
Proof.
  intros He Hc Hm Hk E Hf HS. unfold dsg_alloc, init_sspace. rewrite Hc, (eg_fuel _ _ He), E. cbn [mbind option_bind].
  eexists. split; [done|]. pose proof (ls_alloc_inv (cf_max_versions c) Hm) as Hls.
  assert (forall x, ~ stored (ls_alloc (cf_max_versions c)) x) as Hno.
  { intros x Hx. unfold stored in Hx. cbn in Hx. apply elem_of_mjoin_lookup in Hx as (i & l & Hl & Hx).
    apply lookup_replicate in Hl as [-> _]. by apply not_elem_of_nil in Hx. }
  pose proof (@hs_len _ _ _ _ _ _ _ HS) as Hlen. cbn in Hlen. rewrite length_fmap in Hlen.
  destruct (lookup_lt_is_Some_2 (ent_tab (ss_dht ss)) k ltac:(lia)) as [de Hde].
  destruct (fresh_entry_inv _ _ _ Hm (Hf k de Hde)) as [Hdi Hkn]. destruct (Hf k de Hde) as (_ & Hsz & _).
  assert (forall d', dsg_ssd d' = ssd_init ss k -> self_entry d' ref_default = Some de) as Hself.
  { intros d' Hd'. unfold self_entry. cbn. rewrite Hd'. exact Hde. }
  split; [|split; [done|split; [exact Hno|]]].
  - constructor; try done; [exact (@hs_empty _ _ _ _ _ _ _ HS)|intros x Hx; by apply Hno in Hx|].
    exists de. split; [by apply Hself|done].
  - intros o (de' & Hde' & Ho). rewrite Hself in Hde' by done. injection Hde' as <-. by apply Hkn in Ho.
Qed.
