(* ===== verification/SystemGet.v ===== *)
(** * Servers and client together: the get protocol

    A get asks a server for the DHT peers of the box, the peers for the
    descriptors, the owners for the data, and assembles the pieces.  In a
    state where everything put has arrived it returns, on every cell, the
    bytes that were put. *)

From stdpp Require Import relations.
From S2P Require Import Prelude Bbox Matrix ObjDesc Storage Sspace Locks Server HashService System Client.

(** ** The answers of the servers *)

Definition ask_peers (env : server_env) (heap : list Z) (ds : list ds_gspace) (cid : Z) (r : Z * hdr_obj_get) : option (list Z) :=
  d ← ds !! Z.to_nat (fst r);
  o ← dsgrpc_obj_send_dht_peers env heap d cid (snd r);
  match o with (_, [(_, dht_peers tab)], _) => Some tab | _ => None end.

Definition ask_desc (env : server_env) (ds : list ds_gspace) (cid : Z) (r : Z * hdr_obj_get) : option smsg :=
  d ← ds !! Z.to_nat (fst r);
  o ← dsgrpc_obj_get_desc env d cid (snd r);
  match o with (_, [(_, m)], _) => Some m | _ => None end.

Definition ask_data (env : server_env) (ptr : nat) (fresh : list byte) (ds : list ds_gspace) (cid : Z) (r : Z * hdr_obj_get)
    : option (list byte) :=
  d ← ds !! Z.to_nat (fst r);
  o ← dsgrpc_obj_get env ptr fresh d cid (snd r);
  match o with (_, [(_, obj_bytes b)], _) => Some b | _ => None end.

(** Requests and allocations succeed; [arrival] orders the descriptor
    replies. *)
Definition servers_net (env : server_env) (heap : list Z) (ptr : nat) (fresh : list byte) (arrival : list smsg -> list smsg)
    (ds : list ds_gspace) (cid : Z) : get_net :=
  mk_gnet (fun _ => true) (fun _ => 0) (fun _ => true) (fun _ => true) (ask_peers env heap ds cid)
    (fun reqs => arrival (omap (ask_desc env ds cid) reqs)) (ask_data env ptr fresh ds cid) (fun _ => 0).

(** ** The peer table *)

Lemma post_descs_app net h l rest : (forall r, post net r = 0) -> Forall (fun p => 0 <= p) l ->
  post_descs net h (l ++ -1 :: rest) = Some (map (fun p => (p, h)) l, 0).
Proof.
  intros Hpost. induction 1 as [|p l Hp _ IH]; [done|]. cbn [app post_descs]. destruct (Z.eqb_spec p (-1)); [lia|].
  rewrite Hpost. cbn [Z.ltb Z.compare]. by rewrite IH.
Qed.

Lemma post_data_all net qte l : (forall r, post net r = 0) -> post_data net qte l = (l, map (data_request qte) l, 0).
Proof. intros Hpost. induction l as [|od l IH]; [done|]. cbn [post_data]. rewrite Hpost. cbn [Z.ltb Z.compare]. by rewrite IH. Qed.

Lemma omap_total {A B} (f : A -> option B) (g : A -> B) l : (forall x, x ∈ l -> f x = Some (g x)) -> omap f l = map g l.
Proof.
  induction l as [|x l IH]; intros H; [done|]. cbn. rewrite (H x) by apply list_elem_of_here. f_equal. apply IH.
  intros y Hy. apply H. by apply list_elem_of_further.
Qed.

Lemma count_peers_app l rest : Forall (fun p => 0 <= p) l -> forall n, (length l < n)%nat -> count_peers n (l ++ -1 :: rest) = length l.
Proof.
  induction 1 as [|p l Hp _ IH]; intros [|n] Hn; cbn in Hn; try lia; [done|]. cbn [app count_peers length].
  destruct (Z.eqb_spec p (-1)); [lia|]. rewrite IH by lia. done.
Qed.

(** The table sent holds all the ids and the mark. *)
Lemma peer_table (ranks heap : list Z) N : (length ranks <= N)%nat ->
  exists rest, take (S N) (ranks ++ [-1] ++ heap) = ranks ++ -1 :: rest.
Proof.
  intros H. exists (take (N - length ranks) heap). rewrite take_app_ge by lia. f_equal.
  replace (S N - length ranks)%nat with (S (N - length ranks)) by lia. done.
Qed.

(** ** Collecting the descriptors *)

(** The pieces of the transaction, after the descriptors [seen]. *)
Record collected (qte : query_tran_entry) (seen : list obj_descriptor) : Prop := {
  cl_num : num_od qte = Z.of_nat (length (od_list qte));
  cl_size : size_od qte = num_od qte;
  cl_from : forall od, od ∈ od_list qte -> obj_desc od ∈ seen;
  cl_all : forall o, o ∈ seen -> exists od, od ∈ od_list qte /\ obj_desc_equals (obj_desc od) o = true
}.

Lemma obj_desc_equals_refl o : obj_desc_equals o o = true.
Proof.
  unfold obj_desc_equals, bbox_equals. rewrite Z.eqb_refl, Nat.eqb_refl. cbn. apply forallb_seq. intros. by rewrite !Z.eqb_refl.
Qed.

Lemma set_st_same o s : st o = s -> set_st o s = o.
Proof. intros <-. by destruct o. Qed.

(** The fields the loop does not touch. *)
Definition same_query (a b : query_tran_entry) : Prop :=
  q_id a = q_id b /\ q_obj a = q_obj b /\ qh a = qh b /\ q_gdim a = q_gdim b /\ num_parts_rec a = num_parts_rec b /\
  f_odsc_recv a = f_odsc_recv b /\ f_err a = f_err b /\ f_complete a = f_complete b.

Lemma add_descs_spec tab : forall ptr qte seen, Forall (fun o => st o = st (q_obj qte)) tab ->
  collected (set_ods qte (num_od qte) (num_od qte) (od_list qte)) seen -> size_od qte = num_od qte + Z.of_nat (length tab) ->
  exists qte', add_descs (fun _ => true) ptr qte tab = (qte', 0) /\ collected qte' (seen ++ tab) /\ same_query qte' qte.
Proof.
  induction tab as [|o tab IH]; intros ptr qte seen Hst Hc Hs; cbn [add_descs].
  - exists qte. rewrite app_nil_r. split; [done|]. split; [|done]. cbn in Hs. destruct Hc as [H1 H2 H3 H4].
    constructor; [exact H1|lia|exact H3|exact H4].
  - apply Forall_cons_iff in Hst as [Ho Hst]. destruct Hc as [H1 H2 H3 H4]. cbn in *.
    replace (seen ++ o :: tab) with ((seen ++ [o]) ++ tab) by (by rewrite <- app_assoc).
    unfold qt_find_obj. pose proof (find_spec (fun od => obj_desc_equals (obj_desc od) o) (od_list qte)) as Hf.
    destruct (List.find _ (od_list qte)) as [od|]; cbn [fmap option_fmap option_map].
    + destruct Hf as [Hin Heq]. destruct (IH ptr (set_ods qte (size_od qte - 1) (num_od qte) (od_list qte)) (seen ++ [o]))
        as (q' & E & Hc & Hq); [done| |cbn; lia|by exists q'].
      constructor; cbn; [done|done|intros x Hx; apply elem_of_app; left; by apply H3|].
      intros x [Hx|Hx%list_elem_of_singleton]%elem_of_app; [by apply H4|subst x; eauto].
    + unfold qt_add_obj. cbn [Z.ltb Z.compare]. rewrite (set_st_same o) by done.
      destruct (IH (S ptr) (set_ods qte (size_od qte) (num_od qte + 1) (obj_data_alloc_no_data ptr o [] :: od_list qte)) (seen ++ [o]))
        as (q' & E & Hc & Hq); [done| |cbn; lia|by exists q'].
      constructor; cbn; [lia|done| |].
      * intros x [->|Hx]%elem_of_cons; apply elem_of_app; [right; by apply list_elem_of_singleton|left; by apply H3].
      * intros x [Hx|Hx%list_elem_of_singleton]%elem_of_app.
        -- destruct (H4 x Hx) as (od & Hin & Heq). exists od. split; [by apply list_elem_of_further|done].
        -- subst x. eexists. split; [apply list_elem_of_here|]. apply obj_desc_equals_refl.
Qed.

(** ** The replies of the DHT servers *)

(** The transactions other than [id]. *)
Definition others (id : Z) (d : dcg_space) : list query_tran_entry := List.filter (fun e => negb (q_id e =? id)) (qt d).

Lemma others_update d qte : others (q_id qte) (qt_update d qte) = others (q_id qte) d.
Proof.
  unfold others. cbn [qt_update qt set_qt]. induction (qt d) as [|e l IH]; [done|]. cbn [map List.filter].
  destruct (Z.eqb_spec (q_id e) (q_id qte)) as [E|E].
  - rewrite Z.eqb_refl. exact IH.
  - rewrite (proj2 (Z.eqb_neq _ _) E). cbn [negb]. by f_equal.
Qed.

Lemma qt_find_update d q qte : qt_find d (q_id qte) = Some q -> qt_find (qt_update d qte) (q_id qte) = Some qte.
Proof.
  unfold qt_find. cbn [qt_update qt set_qt]. induction (qt d) as [|e l IH]; [done|]. cbn [map List.find].
  destruct (Z.eqb_spec (q_id e) (q_id qte)) as [E|E]; [by rewrite Z.eqb_refl|].
  rewrite (proj2 (Z.eqb_neq _ _) E). auto.
Qed.

(** The transaction [qte] of the client with [n] of [num] replies handled. *)
Record gathering (q : obj_descriptor) (id : Z) (num n : nat) (d : dcg_space) (qte : query_tran_entry)
    (seen : list obj_descriptor) : Prop := {
  ga_find : qt_find d id = Some qte;
  ga_id : q_id qte = id;
  ga_qobj : q_obj qte = q;
  ga_coll : collected qte seen;
  ga_num : qh_num_peer (qh qte) = num;
  ga_rec : qh_num_rep_received (qh qte) = n;
  ga_flag : f_odsc_recv qte = (n =? num)%nat;
  ga_err : f_err qte = false;
  ga_parts : num_parts_rec qte = 0;
  ga_done : f_complete qte = false
}.

Lemma reply_spec q id num n d qte seen ptr tab : gathering q id num n d qte seen -> (n < num)%nat ->
  Forall (fun o => st o = st q) tab ->
  let d' := fst (dcgrpc_obj_get_desc (fun _ => true) ptr d (ss_desc_found id tab)) in
  exists qte', gathering q id num (S n) d' qte' (seen ++ tab) /\ others id d' = others id d /\ qt_num d' = qt_num d /\
    q_gdim qte' = q_gdim qte.
Proof.
  intros [Hf Hid Hq Hc Hnum Hrec Hfl Her Hpa Hdo] Hn Hst d'. subst d'. cbn [dcgrpc_obj_get_desc].
  unfold obj_get_desc_completion. rewrite Hf.
  set (h := mk_qh (qh_size (qh qte)) (qh_num_peer (qh qte)) (qh_num_req_posted (qh qte)) (S (qh_num_rep_received (qh qte))) (qh_peerid_tab (qh qte))).
  set (q1 := set_ods (set_qh qte h) (size_od (set_qh qte h) + Z.of_nat (length tab)) (num_od (set_qh qte h)) (od_list (set_qh qte h))).
  destruct (add_descs_spec tab ptr q1 seen) as (q2 & E & Hc2 & S1 & S2 & S3 & S4 & S5 & S6 & S7 & S8).
  { cbn. by rewrite Hq. }
  { destruct Hc as [C1 C2 C3 C4]. constructor; [exact C1|done|exact C3|exact C4]. }
  { cbn. destruct Hc as [C1 C2 C3 C4]. by rewrite C2. }
  rewrite E. cbn [Z.ltb Z.compare fst]. rewrite S3. cbn [q1 set_ods set_qh qh h qh_num_rep_received qh_num_peer].
  set (q3 := if (S (qh_num_rep_received (qh qte)) =? qh_num_peer (qh qte))%nat
             then set_flags q2 (f_peer_received q2) true (f_err q2) else q2).
  assert (q_id q3 = id) as E3.
  { transitivity (q_id q2); [unfold q3; destruct (S (qh_num_rep_received (qh qte)) =? qh_num_peer (qh qte))%nat; reflexivity|]. rewrite S1. exact Hid. }
  assert (same_query (set_flags q3 false false false) (set_flags q2 false false false) /\ collected q3 (seen ++ tab) /\
    f_odsc_recv q3 = (S n =? num)%nat /\ f_err q3 = false) as ((T1 & T2 & T3 & T4 & T5 & _ & _ & T8) & Hc3 & Hr3 & He3).
  { subst q3. rewrite Hrec, Hnum. destruct (Nat.eqb_spec (S n) num); cbn.
    - split; [done|]. split; [by destruct Hc2; constructor|]. by rewrite S7.
    - split; [done|]. split; [done|]. rewrite S6, S7. split; [|done]. cbn. rewrite Hfl. by apply Nat.eqb_neq; lia. }
  cbn in T1, T2, T3, T4, T5, T8. exists q3. split; [|split; [|split]].
  - constructor; [| |rewrite T2, S2; exact Hq|exact Hc3|rewrite T3, S3; exact Hnum| |exact Hr3|exact He3
      |rewrite T5, S5; exact Hpa|rewrite T8, S8; exact Hdo]; [|done|].
    + rewrite <- E3. eapply qt_find_update. rewrite E3. exact Hf.
    + rewrite T3, S3. cbn. by rewrite Hrec.
  - rewrite <- E3 at 1 2. by apply others_update.
  - done.
  - by rewrite T4, S4.
Qed.

Lemma handle_descs_spec q id num tabs : forall n d qte seen ptr, gathering q id num n d qte seen ->
  (n + length tabs <= num)%nat -> Forall (Forall (fun o => st o = st q)) tabs ->
  exists qte', gathering q id num (n + length tabs) (handle_descs (fun _ => true) ptr d (map (ss_desc_found id) tabs)) qte' (seen ++ mjoin tabs) /\
    others id (handle_descs (fun _ => true) ptr d (map (ss_desc_found id) tabs)) = others id d /\
    qt_num (handle_descs (fun _ => true) ptr d (map (ss_desc_found id) tabs)) = qt_num d /\ q_gdim qte' = q_gdim qte.
Proof.
  induction tabs as [|tab tabs IH]; intros n d qte seen ptr G Hn Hst.
  { cbn. rewrite Nat.add_0_r, app_nil_r. eauto. }
  cbn [length] in Hn |- *. apply Forall_cons_iff in Hst as [Ht Hst].
  destruct (reply_spec q id num n d qte seen ptr tab G ltac:(lia) Ht) as (q1 & G1 & O1 & N1 & D1).
  cbn [map handle_descs]. set (d1 := fst _) in *.
  destruct (IH (S n) d1 q1 (seen ++ tab) (ptr + length tab)%nat G1 ltac:(lia) Hst) as (q2 & G2 & O2 & N2 & D2).
  exists q2. rewrite <- Nat.add_succ_comm. rewrite <- app_assoc in G2. split; [exact G2|]. split; [by rewrite O2|].
  split; [by rewrite N2|by rewrite D2].
Qed.

(** ** Fetching the pieces *)

Lemma handle_data_spec net reqs bs : Forall2 (fun r b => gn_data net r = Some b) reqs bs -> forall qte done todo,
  od_list qte = done ++ todo -> length todo = length reqs -> size_od qte = Z.of_nat (length (od_list qte)) ->
  num_parts_rec qte = Z.of_nat (length done) -> f_complete qte = (Z.of_nat (length done) =? size_od qte) ->
  exists qte', handle_data net qte (length done) reqs = qte' /\ od_list qte' = done ++ zip_with set_data todo bs /\
    f_complete qte' = true /\ q_id qte' = q_id qte.
Proof.
  induction 1 as [|r b reqs bs Hr _ IH]; intros qte done todo El Ht Hs Hp Hc; cbn [handle_data].
  { destruct todo; [|done]. exists qte. split; [done|]. split; [done|]. split; [|done].
    rewrite Hc, Hs, El, app_nil_r. apply Z.eqb_refl. }
  destruct todo as [|od todo]; [done|]. rewrite Hr.
  destruct (IH (obj_data_get_completion qte (length done) b) (done ++ [set_data od b]) todo) as (q' & E & Hl & Hd & Hi).
  - cbn. rewrite El, alter_app_r_alt by done. rewrite Nat.sub_diag. by rewrite <- app_assoc.
  - by injection Ht.
  - cbn. rewrite length_alter. exact Hs.
  - cbn. rewrite length_app, Hp. cbn [length]. lia.
  - cbn [obj_data_get_completion set_parts f_complete size_od set_ods num_parts_rec]. rewrite length_app, Hp. cbn [length].
    replace (Z.of_nat (length done + 1)) with (Z.of_nat (length done) + 1) by lia.
    destruct (Z.of_nat (length done) + 1 =? size_od qte) eqn:E1; [done|]. rewrite Hc. apply Z.eqb_neq. rewrite Hs, El, length_app. cbn [length]. lia.
  - rewrite length_app, Nat.add_1_r in E. exists q'. split; [exact E|]. split; [|done].
    rewrite Hl. by rewrite <- app_assoc.
Qed.

(** ** Boxes *)

Lemma weight_le_pos a b n : (forall i, (i < n)%nat -> 0 < ext a i <= ext b i) -> 0 < weight a n <= weight b n.
Proof.
  induction n as [|n IH]; intros H; cbn [weight]; [lia|]. pose proof (IH (fun i Hi => H i (Nat.lt_lt_succ_r _ _ Hi))).
  pose proof (H n (Nat.lt_succ_diag_r n)). nia.
Qed.

Lemma intersect_card a b : wf_bbox a -> wf_bbox b -> num_dims a = num_dims b -> bbox_does_intersect a b = true ->
  box_card (bbox_intersect a b) <= box_card a.
Proof.
  intros Ha Hb Hn Hi. pose proof (bbox_intersect_wf a b Ha Hb Hn Hi) as Hw. rewrite <- !weight_card.
  change (num_dims (bbox_intersect a b)) with (num_dims a). apply weight_le_pos. intros i Hlt.
  pose proof (proj2 (bbox_include_points a (bbox_intersect a b) Hw eq_refl)) as Hinc. unfold ext.
  assert (bbox_include a (bbox_intersect a b) = true) as Hincl.
  { apply Hinc. intros p Hp. by apply (bbox_intersect_points a b) in Hp as [? _]. }
  unfold bbox_include in Hincl. rewrite forallb_seq in Hincl. specialize (Hincl i Hlt). unfold bbox_include_ondim in Hincl. zbool.
  destruct Hw as (_ & _ & Hle). specialize (Hle i Hlt). lia.
Qed.

Section get.
Context (ss0 : sspace) (N fuel : nat) (query : bbox -> Prop) (cell : list Z -> Prop)
  (own : list Z -> nat -> Prop) (good_cache : sh_state -> Prop) (gd0 : global_dimension) (mv : Z).
Context {HS : HashService ss0 N fuel query cell own good_cache}.
Context (nm : string) (v : Z) (s : sys).
Context (I : inv ss0 N own good_cache gd0 mv nm v s) (Hnc : no_conflict mv nm v s) (Hqu : quiescent s).
Context (env : server_env) (He : env_good fuel env) (cid : Z).

Abbreviation tracked := (tracked nm v s).
Abbreviation srv_ok := (srv_ok ss0 N good_cache gd0 mv).

(** A query that the tracked objects cover. *)
Record readable (q : obj_descriptor) : Prop := {
  rd_name : name q = nm;
  rd_ver : version q = v;
  rd_query : query (bb q);
  rd_cell : forall p, in_box (bb q) p -> cell p;
  rd_cover : forall p, in_box (bb q) p -> exists i od, tracked i od /\ in_box (bb (obj_desc od)) p;
  rd_objs : forall i od, tracked i od -> buf_ok (obj_desc od) (data od) /\
    num_dims (bb (obj_desc od)) = num_dims (bb q) /\ size (obj_desc od) = size q
}.

Context (q : obj_descriptor) (R : readable q).

Lemma tracked_meet i od p : tracked i od -> in_box (bb q) p -> in_box (bb (obj_desc od)) p ->
  bbox_does_intersect (bb q) (bb (obj_desc od)) = true.
Proof using R HS.
  intros T Hq Ho. destruct (rd_objs q R i od T) as (B & Hd & _). apply bbox_does_intersect_points; [|apply B|done|eauto].
  apply (hs_query (HashService := HS)), R.
Qed.

(** Tracked objects do not overlap. *)
Lemma tracked_disjoint i od i' od' p : tracked i od -> tracked i' od' ->
  in_box (bb (obj_desc od)) p -> in_box (bb (obj_desc od')) p -> (i', od') = (i, od).
Proof using Hnc R.
  intros T T' Hp Hp'. destruct (decide ((i', od') = (i, od))) as [|Hne]; [done|]. exfalso.
  destruct (rd_objs q R i od T) as (B & Hd & _), (rd_objs q R i' od' T') as (B' & Hd' & _).
  apply (Hnc i od i' od' T); [apply T'|done|]. destruct T as (_ & Tn & Tv), T' as (_ & Tn' & Tv').
  split; [|congruence]. unfold obj_desc_by_name_intersect, streq. rewrite Tn, Tn', String.eqb_refl. cbn.
  apply bbox_does_intersect_points; [apply B'|apply B|congruence|eauto].
Qed.

(** The array the tracked objects hold. *)
Definition array (p : list Z) (k : Z) : option byte :=
  match List.find (fun x => streq (name (obj_desc (snd x))) nm && (version (obj_desc (snd x)) =? v) &&
                            in_boxb (bb (obj_desc (snd x))) p) (puts s) with
  | Some (_, od) => cell_at (bb (obj_desc od)) (size q) (data od) p k
  | None => None
  end.

Lemma array_spec i od p k : tracked i od -> in_box (bb (obj_desc od)) p ->
  array p k = cell_at (bb (obj_desc od)) (size q) (data od) p k.
Proof using Hnc R.
  intros T Hp. unfold array. set (f := fun x : nat * obj_data => _). pose proof (find_spec f (puts s)) as Hf.
  destruct (List.find f (puts s)) as [[i' od']|].
  - destruct Hf as [Hin Hx]. unfold f in Hx. cbn in Hx. zbool. apply streq_spec in H.
    match goal with H : in_boxb _ _ = true |- _ => apply in_boxb_spec in H end.
    assert (tracked i' od') as T' by (split; [done|split; done]).
    by pose proof (tracked_disjoint i od i' od' p T T' Hp ltac:(done)) as [= -> ->].
  - exfalso. destruct T as (Hin & Tn & Tv). specialize (Hf (i, od) Hin). unfold f in Hf. cbn in Hf.
    rewrite Tn, Tv in Hf. unfold streq in Hf. rewrite String.eqb_refl, Z.eqb_refl in Hf. cbn in Hf.
    apply in_boxb_spec in Hp. congruence.
Qed.

(** *** The answers of the DHT servers *)

Lemma desc_answer id k d p : srv s !! k = Some d -> in_box (bb q) p -> own p k ->
  exists tab, dsgrpc_obj_get_desc env d cid (mk_hog id cid q gd0) = Some (d, [(cid, ss_desc_found id (map (clip q) tab))], 0) /\
    (forall o, o ∈ tab -> exists i od, tracked i od /\ o = obj_desc od /\ bbox_does_intersect (bb q) (bb o) = true) /\
    (forall i od p', tracked i od -> in_box (bb q) p' -> in_box (bb (obj_desc od)) p' -> own p' k -> obj_desc od ∈ tab).
Proof using I Hnc Hqu He HS R.
  intros Hd Hp Ho. pose proof (in_srv _ _ _ _ _ _ _ _ (in_mem _ _ _ _ _ _ _ _ _ I) k d Hd) as Hok.
  destruct (sv_de _ _ _ _ _ _ _ Hok) as (de & Hde & Hdi & _). unfold dsgrpc_obj_get_desc. cbn [oh_gdim oh_odsc qid].
  rewrite (lookup_default _ _ _ _ _ env k d Hok). cbn [mbind option_bind]. rewrite Hde.
  assert (forall i od p', tracked i od -> in_box (bb q) p' -> in_box (bb (obj_desc od)) p' -> own p' k ->
    obj_desc od ∈ dht_find_entry_all de q) as Hall.
  { intros i od p' T Hp' Hop' Ho'. destruct (quiescent_data _ _ _ _ _ _ _ _ s i od I Hqu T) as [_ Hk].
    destruct (Hk p' k Hop' Ho') as (d' & Hd' & de' & Hde' & Hkn). rewrite Hd in Hd'. injection Hd' as <-.
    rewrite Hde in Hde'. injection Hde' as <-. apply dht_find_entry_all_spec; [done|]. split; [done|].
    unfold obj_desc_equals_intersect, streq. destruct (rd_objs q R i od T) as (_ & Hdm & _).
    rewrite bbox_does_intersect_sym by done. rewrite (tracked_meet i od p' T Hp' Hop').
    destruct T as (_ & -> & ->). rewrite (rd_name q R), (rd_ver q R), String.eqb_refl, Z.eqb_refl. done. }
  destruct (rd_cover q R p Hp) as (i0 & od0 & T0 & Hp0). pose proof (Hall i0 od0 p T0 Hp Hp0 Ho) as Hne.
  exists (dht_find_entry_all de q). cbn [mbind option_bind]. split; [|split; [|done]].
  - destruct (dht_find_entry_all de q) as [|o l]; [by apply not_elem_of_nil in Hne|].
    by rewrite (eg_alloc _ _ He), (send_good fuel) by done.
  - intros o [Hko Heq]%dht_find_entry_all_spec; [|done].
    destruct (in_known _ _ _ _ _ (in_dir _ _ _ _ _ _ _ _ _ I) k d o Hd) as (i & od & Hin & ->); [by exists de|].
    unfold obj_desc_equals_intersect in Heq. zbool.
    assert (tracked i od) as T.
    { split; [done|]. rewrite <- (rd_name q R), <- (rd_ver q R). split; [by apply streq_spec|done]. }
    exists i, od. split; [done|]. split; [done|]. destruct (rd_objs q R i od T) as (_ & Hdm & _).
    rewrite bbox_does_intersect_sym by done. done.
Qed.

(** *** The answers of the owners *)

Context (ptr : nat) (fresh : list byte) (Hfresh : obj_data_size q <= Z.of_nat (length fresh)).
Context (Hq9 : (1 <= num_dims (bb q) <= 9)%nat) (Hqs : 1 <= size q) (Hqf : box_card (bb q) * size q < 2 ^ 64).

(** The piece of a tracked object fits its buffer. *)
Lemma clip_buf i od : tracked i od -> bbox_does_intersect (bb q) (bb (obj_desc od)) = true ->
  buf_ok (clip q (obj_desc od)) (take (Z.to_nat (obj_data_size (clip q (obj_desc od)))) fresh).
Proof using R Hfresh Hq9 Hqs Hqf HS.
  intros T Hi. destruct (rd_objs q R i od T) as (B & Hd & Hs).
  assert (wf_bbox (bb q)) as Hw by (apply (hs_query (HashService := HS)), R).
  pose proof (bbox_intersect_wf (bb q) (bb (obj_desc od)) Hw (bo_wf _ _ B) (eq_sym Hd) Hi) as Hcw.
  pose proof (intersect_card (bb q) (bb (obj_desc od)) Hw (bo_wf _ _ B) (eq_sym Hd) Hi) as Hcard.
  assert (obj_data_size (clip q (obj_desc od)) <= obj_data_size q) as Hle.
  { pose proof (box_card_pos _ Hcw). unfold obj_data_size. rewrite !bbox_volume_mod.
    cbn [clip set_bb bb size set_st]. rewrite Hs.
    rewrite (u64_small (box_card (bbox_intersect _ _))) by nia. rewrite (u64_small (box_card (bb q))) by nia.
    rewrite !u64_small by nia. nia. }
  constructor; cbn [clip set_bb bb size set_st]; rewrite ?Hs; try done; [nia|].
  fold (clip q (obj_desc od)). rewrite length_take. pose proof (u64_range (size (clip q (obj_desc od)) * bbox_volume (bb (clip q (obj_desc od))))).
  unfold obj_data_size in *. lia.
Qed.

(** The owner finds the object itself. *)
Lemma owner_finds i od d : tracked i od -> bbox_does_intersect (bb q) (bb (obj_desc od)) = true -> srv s !! i = Some d ->
  ls_find (dsg_ls d) (clip q (obj_desc od)) = Some od.
Proof using I Hnc Hqu HS R.
  intros T Hi Hd. destruct (rd_objs q R i od T) as (B & Hdm & _).
  assert (wf_bbox (bb q)) as Hw by (apply (hs_query (HashService := HS)), R).
  pose proof (bbox_intersect_wf (bb q) (bb (obj_desc od)) Hw (bo_wf _ _ B) (eq_sym Hdm) Hi) as Hcw.
  pose proof (in_mem _ _ _ _ _ _ _ _ _ I) as M. pose proof (in_srv _ _ _ _ _ _ _ _ M i d Hd) as Hok.
  destruct (quiescent_data _ _ _ _ _ _ _ _ s i od I Hqu T) as [(d' & Hd' & Hst) _]. rewrite Hd in Hd'. injection Hd' as <-.
  pose proof (ls_find_spec (dsg_ls d) (clip q (obj_desc od)) (sv_ls _ _ _ _ _ _ _ Hok)) as Hf.
  destruct (ls_find _ _) as [od'|].
  - destruct Hf as [Hs' Heq]. unfold obj_desc_equals_intersect in Heq. zbool. f_equal.
    assert (tracked i od') as T'.
    { destruct T as (_ & Tn & Tv). split; [by eapply (in_ls _ _ _ _ _ _ _ _ M)|].
      rewrite <- Tn, <- Tv. split; [symmetry; by apply streq_spec|done]. }
    destruct (rd_objs q R i od' T') as (B' & Hdm' & _).
    apply (bbox_does_intersect_points (bb (clip q (obj_desc od))) (bb (obj_desc od'))) in H0 as (p & Hp & Hp');
      [|done|apply B'|cbn; congruence].
    apply (bbox_intersect_points (bb q) (bb (obj_desc od)) p (eq_sym Hdm)) in Hp as [_ Hp].
    pose proof (tracked_disjoint i od i od' p T T' Hp Hp') as [= ->]. done.
  - exfalso. specialize (Hf od Hst). unfold obj_desc_equals_intersect, streq in Hf. cbn in Hf.
    rewrite String.eqb_refl, Z.eqb_refl in Hf. cbn in Hf. apply not_true_iff_false in Hf. apply Hf.
    apply (bbox_does_intersect_points (bb (clip q (obj_desc od))) (bb (obj_desc od))); [done|apply B|cbn; congruence|].
    exists (lb (bbox_intersect (bb q) (bb (obj_desc od)))). pose proof (wf_lb_in_box _ Hcw) as Hin. split; [exact Hin|].
    by apply (bbox_intersect_points (bb q) (bb (obj_desc od))) in Hin as [_ ?].
Qed.

Lemma data_answer id i od d : tracked i od -> bbox_does_intersect (bb q) (bb (obj_desc od)) = true -> srv s !! i = Some d ->
  exists b, dsgrpc_obj_get env ptr fresh d cid (mk_hog id 0 (clip q (obj_desc od)) gd0) = Some (d, [(cid, obj_bytes b)], 0) /\
    forall x, obj_desc x = clip q (obj_desc od) -> data x = b -> source_of q array x.
Proof using I Hnc Hqu HS R He Hfresh Hq9 Hqs Hqf.
  intros T Hi Hd. destruct (rd_objs q R i od T) as (B & Hdm & Hsz).
  assert (wf_bbox (bb q)) as Hw by (apply (hs_query (HashService := HS)), R).
  pose proof (bbox_intersect_wf (bb q) (bb (obj_desc od)) Hw (bo_wf _ _ B) (eq_sym Hdm) Hi) as Hcw.
  pose proof (clip_buf i od T Hi) as Hb. set (c := clip q (obj_desc od)) in *.
  assert (forall p, in_box (bb c) p <-> in_box (bb q) p /\ in_box (bb (obj_desc od)) p) as Hin
    by (intros p; apply bbox_intersect_points; congruence).
  assert (bbox_does_intersect (bb c) (bb (obj_desc od)) = true) as Hco.
  { apply bbox_does_intersect_points; [done|apply B|cbn; congruence|]. exists (lb (bb c)).
    pose proof (wf_lb_in_box _ Hcw) as Hl. split; [exact Hl|]. by apply Hin. }
  destruct (ssd_copy_copied (obj_data_alloc ptr fresh c) od) as (b & E & Hlen & Hcp);
    [exact Hb|apply B|cbn; congruence|done|exact Hco|].
  exists b. split.
  - unfold dsgrpc_obj_get. cbn [oh_odsc]. fold c. rewrite (owner_finds i od d T Hi Hd : ls_find (dsg_ls d) c = Some od).
    rewrite (eg_alloc _ _ He), E. cbn [mbind option_bind data set_data]. by rewrite (send_good fuel).
  - intros x Ex Dx. constructor; rewrite ?Ex, ?Dx; fold c.
    + eapply buf_ok_same; [exact Hlen|exact Hb].
    + done.
    + exact (eq_sym Hsz).
    + apply bbox_does_intersect_points; [done|exact Hcw|done|]. exists (lb (bb c)).
      pose proof (wf_lb_in_box _ Hcw) as Hl. split; [by apply Hin|exact Hl].
    + intros p k Hp Hk. destruct (proj1 (Hin p) Hp) as [Hpq Hpo]. destruct (Hcp p k Hp Hk) as [Hv _].
      cbn [obj_data_alloc obj_desc] in Hv. rewrite (Hv Hpo). rewrite (array_spec i od p k T Hpo). cbn. by rewrite Hsz.
Qed.

(** *** The whole get *)

Context (heap : list Z) (arrival : list smsg -> list smsg) (Harr : forall l, arrival l ≡ₚ l).
Let net := servers_net env heap ptr fresh arrival (srv s) cid.

Lemma srv_lookup k : (k < N)%nat -> exists d, srv s !! k = Some d /\ srv_ok k d.
Proof using I.
  intros Hk. destruct (lookup_lt_is_Some_2 (srv s) k) as [d Hd]; [by rewrite (in_len _ _ _ _ _ _ _ _ _ I)|].
  exists d. split; [done|]. by apply (in_srv _ _ _ _ _ _ _ _ (in_mem _ _ _ _ _ _ _ _ _ I)).
Qed.

Lemma peers_answer oh r : 0 <= r < Z.of_nat N -> oh_odsc oh = q -> oh_gdim oh = gd0 ->
  exists ranks rest, gn_peers net (r, oh) = Some (ranks ++ -1 :: rest) /\ (length ranks <= N)%nat /\
    forall x, x ∈ ranks <-> exists j p, x = Z.of_nat j /\ in_box (bb q) p /\ own p j.
Proof using I HS R He.
  intros Hr Ho Hg. destruct (srv_lookup (Z.to_nat r)) as (d & Hd & Hok); [clear - Hr; lia|].
  destruct (peers_spec ss0 N fuel query cell own good_cache gd0 mv env heap (Z.to_nat r) d cid oh He Hok)
    as (sh & ranks & E & _ & _ & Hlen & Hin); [rewrite Ho; apply R|done|].
  destruct (peer_table ranks heap N Hlen) as [rest Hrest]. exists ranks, rest. split; [|split; [done|by rewrite Ho in Hin]].
  cbn. unfold ask_peers. cbn. rewrite Hd. cbn. rewrite E. cbn [mbind option_bind]. by rewrite Hrest.
Qed.

(** The descriptors server [r] answers with. *)
Definition descs_at (id r : Z) : list obj_descriptor :=
  match ask_desc env (srv s) cid (r, mk_hog id cid q gd0) with Some (ss_desc_found _ tab) => tab | _ => [] end.

Lemma descs_at_spec id j p : in_box (bb q) p -> own p j ->
  ask_desc env (srv s) cid (Z.of_nat j, mk_hog id cid q gd0) = Some (ss_desc_found id (descs_at id (Z.of_nat j))) /\
  (forall o, o ∈ descs_at id (Z.of_nat j) -> exists i od, tracked i od /\ o = clip q (obj_desc od) /\
     bbox_does_intersect (bb q) (bb (obj_desc od)) = true) /\
  (forall i od p', tracked i od -> in_box (bb q) p' -> in_box (bb (obj_desc od)) p' -> own p' j ->
     clip q (obj_desc od) ∈ descs_at id (Z.of_nat j)).
Proof using I Hnc Hqu He HS R.
  intros Hp Ho. destruct (srv_lookup j (hs_lt (HashService := HS) p j Ho)) as (d & Hd & _).
  destruct (desc_answer id j d p Hd Hp Ho) as (tab & E & H1 & H2).
  assert (ask_desc env (srv s) cid (Z.of_nat j, mk_hog id cid q gd0) = Some (ss_desc_found id (map (clip q) tab))) as Ea.
  { unfold ask_desc. cbn [fst snd]. rewrite Nat2Z.id, Hd. cbn [mbind option_bind]. by rewrite E. }
  assert (descs_at id (Z.of_nat j) = map (clip q) tab) as -> by (unfold descs_at; by rewrite Ea).
  split; [done|]. split.
  - intros o (o' & -> & Ho')%list_elem_of_fmap. destruct (H1 o' Ho') as (i & od & T & -> & Hi). eauto.
  - intros i od p' T Hp' Hop' Ho'. apply list_elem_of_fmap_2. eauto.
Qed.

Lemma descs_reply id ranks : (forall x, x ∈ ranks -> exists j p, x = Z.of_nat j /\ in_box (bb q) p /\ own p j) ->
  exists tabs, gn_desc net (map (fun p => (p, mk_hog id cid q gd0)) ranks) = map (ss_desc_found id) tabs /\
    tabs ≡ₚ map (descs_at id) ranks.
Proof using I Hnc Hqu He HS R Harr.
  intros H. cbn [net servers_net gn_desc].
  assert (omap (ask_desc env (srv s) cid) (map (fun p => (p, mk_hog id cid q gd0)) ranks) =
    map (fun r => ss_desc_found id (descs_at id (fst r))) (map (fun p => (p, mk_hog id cid q gd0)) ranks)) as ->.
  { apply omap_total. intros x (r & -> & Hr)%list_elem_of_fmap. destruct (H r Hr) as (j & p & -> & Hp & Ho).
    by apply (descs_at_spec id j p Hp Ho). }
  rewrite map_map. cbn [fst].
  rewrite <- (map_map (descs_at id) (ss_desc_found id)).
  destruct (Permutation_map_inv _ _ (Harr (map (ss_desc_found id) (map (descs_at id) ranks)))) as (tabs & -> & P).
  exists tabs. split; [done|]. by symmetry.
Qed.

Lemma data_replies l id : (forall x, x ∈ l -> exists i od, tracked i od /\ obj_desc x = clip q (obj_desc od) /\
    bbox_does_intersect (bb q) (bb (obj_desc od)) = true) ->
  exists bs, Forall2 (fun r b => gn_data net r = Some b)
      (map (fun x => (owner (obj_desc x), mk_hog id 0 (set_version (obj_desc x) (version q)) gd0)) l) bs /\
    Forall (source_of q array) (zip_with set_data l bs).
Proof using I Hnc Hqu He HS R Hfresh Hq9 Hqs Hqf.
  induction l as [|x l IH]; intros H; [exists []; split; constructor|].
  destruct IH as (bs & H1 & H2); [intros y Hy; apply H; by apply list_elem_of_further|].
  destruct (H x (list_elem_of_here _ _)) as (i & od & T & Ex & Hi).
  destruct (in_puts _ _ _ _ _ _ _ _ (in_mem _ _ _ _ _ _ _ _ _ I) i od (proj1 T)) as (How & _ & d & Hd).
  destruct (data_answer id i od d T Hi Hd) as (b & Eb & Hb). exists (b :: bs). cbn [map zip_with]. split; (constructor; [|done]).
  - assert (set_version (clip q (obj_desc od)) (version q) = clip q (obj_desc od)) as Ev.
    { unfold set_version, clip, set_bb, set_st. cbn. destruct T as (_ & _ & ->). by rewrite (rd_ver q R). }
    rewrite Ex, Ev. change (owner (clip q (obj_desc od))) with (owner (obj_desc od)). rewrite How.
    cbn [net servers_net gn_data]. unfold ask_data. cbn [fst snd]. rewrite Nat2Z.id, Hd. cbn [mbind option_bind]. by rewrite Eb.
  - by apply Hb.
Qed.

(** The pieces cover the box. *)
Lemma pieces_cover ranks id tabs qte p : (forall x, x ∈ ranks <-> exists j p, x = Z.of_nat j /\ in_box (bb q) p /\ own p j) ->
  tabs ≡ₚ map (descs_at id) ranks -> collected qte (mjoin tabs) -> in_box (bb q) p ->
  exists x, x ∈ od_list qte /\ in_box (bb (obj_desc x)) p.
Proof using I Hnc Hqu He HS R.
  intros Hr P Hc Hp. destruct (hs_owner (HashService := HS) p (rd_cell q R p Hp)) as [j Hj].
  destruct (rd_cover q R p Hp) as (i & od & T & Ho).
  assert (forall tab o, tab ∈ map (descs_at id) ranks -> o ∈ tab -> o ∈ mjoin tabs) as Hsub.
  { intros tab o Ht Hot. apply list_elem_of_join. exists tab. split; [done|]. by rewrite P. }
  assert (clip q (obj_desc od) ∈ mjoin tabs) as Hin.
  { apply (Hsub (descs_at id (Z.of_nat j))); [apply list_elem_of_fmap_2, Hr; eauto|].
    destruct (descs_at_spec id j p Hp Hj) as (_ & _ & Hd). by apply (Hd i od p). }
  destruct (cl_all _ _ Hc _ Hin) as (x & Hx & Heq). exists x. split; [done|].
  pose proof (cl_from _ _ Hc x Hx) as Hxs. apply list_elem_of_join in Hxs as (tab & Hxt & Htab). rewrite P in Htab.
  apply list_elem_of_fmap in Htab as (r & -> & Hrr). apply Hr in Hrr as (j' & p' & -> & Hp' & Hj').
  destruct (descs_at_spec id j' p' Hp' Hj') as (_ & H1 & _). destruct (H1 _ Hxt) as (i' & od' & T' & Ex & Hi').
  destruct (rd_objs q R i od T) as (B & Hd & _), (rd_objs q R i' od' T') as (B' & Hd' & _).
  assert (wf_bbox (bb q)) as Hw by (apply (hs_query (HashService := HS)), R).
  unfold obj_desc_equals in Heq. apply andb_true_iff in Heq as [_ Heq]. rewrite Ex in Heq |- *.
  apply bbox_equals_true in Heq.
  - rewrite Heq. apply (bbox_intersect_points (bb q) (bb (obj_desc od))); [by symmetry|done].
  - by apply (bbox_intersect_wf (bb q) (bb (obj_desc od')) Hw (bo_wf _ _ B') (eq_sym Hd')).
  - apply (bbox_intersect_wf (bb q) (bb (obj_desc od)) Hw (bo_wf _ _ B) (eq_sym Hd)). exact (tracked_meet i od p T Hp Ho).
Qed.

(** Every piece is the clip of a tracked object. *)
Lemma pieces_tracked ranks id tabs qte x : (forall x, x ∈ ranks -> exists j p, x = Z.of_nat j /\ in_box (bb q) p /\ own p j) ->
  tabs ≡ₚ map (descs_at id) ranks -> collected qte (mjoin tabs) -> x ∈ od_list qte ->
  exists i od, tracked i od /\ obj_desc x = clip q (obj_desc od) /\ bbox_does_intersect (bb q) (bb (obj_desc od)) = true.
Proof using I Hnc Hqu He HS R.
  intros Hr P Hc Hx. pose proof (cl_from _ _ Hc x Hx) as Hxs. apply list_elem_of_join in Hxs as (tab & Hxt & Htab).
  rewrite P in Htab. apply list_elem_of_fmap in Htab as (r & -> & Hrr). apply Hr in Hrr as (j' & p' & -> & Hp' & Hj').
  destruct (descs_at_spec id j' p' Hp' Hj') as (_ & H1 & _). by apply H1.
Qed.

(** The data phase and the assembly, once the descriptors are there. *)
Lemma fetch_assemble ranks id tabs d qte to : (forall x, x ∈ ranks <-> exists j p, x = Z.of_nat j /\ in_box (bb q) p /\ own p j) ->
  tabs ≡ₚ map (descs_at id) ranks -> gathering q id (length ranks) (length ranks) d qte (mjoin tabs) ->
  q_gdim qte = gd0 -> obj_desc to = q -> buf_ok q (data to) ->
  exists qte1 qte2 reqs bytes, dcg_obj_data_get fresh net qte = (qte1, reqs, 0) /\
    snd (qt_alloc_obj_data (gn_malloc net) fresh qte) = 0 /\ handle_data net qte1 0 reqs = qte2 /\ f_complete qte2 = true /\ q_id qte2 = id /\
    dcg_obj_assemble qte2 to = Some (set_data to bytes) /\ length bytes = length (data to) /\
    forall p k, in_box (bb q) p -> 0 <= k < size q -> cell_at (bb q) (size q) bytes p k = array p k.
Proof using I Hnc Hqu He HS R Hfresh Hq9 Hqs Hqf.
  intros Hr P [Hf Hid Hqo Hc _ _ _ _ Hpa Hdo] Hg Hto Hb. pose proof Hc as [C1 C2 _ _].
  set (l := map (fun od => set_data od (take (Z.to_nat (obj_data_size (obj_desc od))) fresh)) (od_list qte)).
  set (qte1 := set_ods qte (size_od qte) (Z.of_nat (length (od_list qte))) l).
  assert (qt_alloc_obj_data (gn_malloc net) fresh qte = (qte1, 0)) as Ealloc.
  { unfold qt_alloc_obj_data. cbn [net servers_net gn_malloc]. rewrite C1, Z.eqb_refl, andb_true_r.
    by rewrite (proj2 (forallb_forall (fun _ => true) (seq 0 (length (od_list qte))))). }
  unfold dcg_obj_data_get. rewrite Ealloc. cbn [Z.ltb Z.compare]. rewrite post_data_all by done.
  assert (forall x, x ∈ l -> exists y, y ∈ od_list qte /\ obj_desc x = obj_desc y) as Hl.
  { intros x (y & -> & Hy)%list_elem_of_fmap. by exists y. }
  assert (length l = length (od_list qte)) as Hll by apply length_map.
  destruct (data_replies l id) as (bs & Hbs & Hsrc).
  { intros x (y & Hy & ->)%Hl. apply (pieces_tracked ranks id tabs qte y); try done. intros z Hz. by apply Hr. }
  assert (map (data_request qte1) (od_list qte1) = map (fun x => (owner (obj_desc x), mk_hog id 0 (set_version (obj_desc x) (version q)) gd0)) l) as Ereq.
  { unfold data_request. cbn. by rewrite Hid, Hqo, Hg. }
  rewrite <- Ereq in Hbs. destruct (handle_data_spec net _ _ Hbs qte1 [] l) as (qte2 & E2 & Hl2 & Hf2 & Hi2); [done|by rewrite length_map|..].
  { cbn. rewrite C2, C1. fold l. by rewrite Hll. }
  { exact Hpa. }
  { cbn. rewrite Hdo, C2, C1. symmetry. apply Z.eqb_neq.
    destruct (pieces_cover ranks id tabs qte (lb (bb q)) Hr P Hc) as (x & Hx & _);
      [apply wf_lb_in_box, (hs_query (HashService := HS)), R|].
    destruct (od_list qte); [by apply not_elem_of_nil in Hx|cbn; lia]. }
  destruct (ssd_copy_list_spec array (zip_with set_data l bs) to) as (bytes & Ea & Lb & Hcells);
    [by rewrite Hto|by rewrite Hto|].
  exists qte1, qte2. do 2 eexists. split; [reflexivity|]. split; [done|]. split; [exact E2|]. split; [done|].
  split; [by rewrite Hi2|]. split; [unfold dcg_obj_assemble; rewrite Hl2; exact Ea|]. split; [done|]. rewrite Hto in Hcells.
  intros p k Hp Hk. rewrite Hcells by done. destruct (decide _) as [|Hno]; [done|]. exfalso. apply Hno.
  destruct (pieces_cover ranks id tabs qte p Hr P Hc Hp) as (x & Hx & Hpx). apply list.Exists_exists.
  apply list_elem_of_lookup in Hx as [m Hm]. apply Forall2_length in Hbs. rewrite length_map in Hbs. change (length l = length bs) in Hbs.
  destruct (lookup_lt_is_Some_2 bs m) as [b Hbm]; [rewrite <- Hbs, Hll; by eapply lookup_lt_Some|].
  exists (set_data (set_data x (take (Z.to_nat (obj_data_size (obj_desc x))) fresh)) b). split; [|exact Hpx].
  apply (list_elem_of_lookup_2 _ m). apply lookup_zip_with_Some. eexists _, b. split; [done|]. split; [|done].
  unfold l. by rewrite list_lookup_fmap, Hm.
Qed.

Context (dc : dcg_space) (Hsp : num_sp dc = Z.of_nat N) (Hcid : dcg_id dc = cid) (Hcid0 : 0 <= cid) (HN : (0 < N)%nat).
Context (Hid : forall e, e ∈ qt dc -> q_id e <> next_qid dc).

Lemma others_fresh : List.filter (fun e => negb (q_id e =? next_qid dc)) (qt dc) = qt dc.
Proof using Hid.
  revert Hid. induction (qt dc) as [|e l IH]; intros H; [done|]. cbn.
  rewrite (proj2 (Z.eqb_neq _ _) (H e (list_elem_of_here _ _))). cbn. f_equal. apply IH. intros x Hx. apply H.
  by apply list_elem_of_further.
Qed.

Lemma free_obj_id qte u : q_id (qt_free_obj_data qte u) = q_id qte.
Proof.
  unfold qt_free_obj_data. destruct u; [|done]. generalize (od_list qte). intros l. revert qte.
  induction l as [|x l IH]; intros qte; [done|]. cbn. by rewrite IH.
Qed.

Lemma get_spec pt to : obj_desc to = q -> od_gdim to = gd0 -> buf_ok q (data to) ->
  exists dc' bytes, dcg_obj_get true pt fresh net dc to = Some (dc', get_done 0 (set_data to bytes)) /\
    qt dc' = qt dc /\ qt_num dc' = qt_num dc /\ length bytes = length (data to) /\
    forall p k, in_box (bb q) p -> 0 <= k < size q -> cell_at (bb q) (size q) bytes p k = array p k.
Proof using I Hnc Hqu He HS R Hfresh Hq9 Hqs Hqf Harr Hsp Hcid Hcid0 HN Hid.
  intros Hto Hgd Hb. unfold dcg_obj_get, qte_alloc, qt_gen_qid, qh_alloc. cbn [mbind option_bind].
  set (id := next_qid dc). cbn [set_next_qid num_sp]. rewrite Hsp, Nat2Z.id, Hto, Hgd.
  set (qte0 := mk_qte id q 0 0 0 [] _ gd0 true false false false false).
  set (d0 := versions_reset (qt_add _ qte0)).
  destruct (peers_answer (get_header d0 qte0) (dcg_which_peer d0)) as (ranks & rest & Ep & Hlen & Hr); [|done|done|].
  { unfold dcg_which_peer. change (dcg_id d0) with (dcg_id dc). change (num_sp d0) with (num_sp dc). rewrite Hsp, Hcid.
    pose proof (Z.rem_bound_pos cid (Z.of_nat N) Hcid0 ltac:(clear - HN; lia)). clear - H. lia. }
  cbn [get_dht_peers]. change (post net _) with 0. cbn [Z.ltb Z.compare]. rewrite Ep.
  assert (Forall (fun p => 0 <= p) ranks) as Hpos.
  { apply list.Forall_forall. intros x (j & p & -> & _)%Hr. clear. lia. }
  set (qte1 := get_dht_peers_completion qte0 _).
  assert (qh_num_peer (qh qte1) = length ranks) as Hnp.
  { change (qh_num_peer (qh qte1)) with (count_peers (S N) (ranks ++ -1 :: rest)). apply count_peers_app; [done|]. clear - Hlen. lia. }
  unfold get_obj_descriptors. change (qh_peerid_tab (qh qte1)) with (ranks ++ -1 :: rest). rewrite post_descs_app by done.
  cbn [mbind option_bind fst snd Z.ltb Z.compare]. set (qte2 := set_qh _ _). set (d1 := qt_update d0 qte2).
  destruct (descs_reply id ranks) as (tabs & Ed & P); [intros x Hx; by apply Hr|].
  change (get_header d0 qte1) with (mk_hog id (dcg_id dc) q gd0).
  rewrite Hcid, Ed. change (gn_desc_ok net) with (fun _ : nat => true).
  assert (ranks <> []) as Hne.
  { destruct (hs_owner (HashService := HS) (lb (bb q))) as [j Hj];
      [apply R, wf_lb_in_box, (hs_query (HashService := HS)), R|]. intros ->.
    assert (Z.of_nat j ∈ []) as Hin by (apply Hr; exists j, (lb (bb q)); split; [done|]; split; [|done];
      apply wf_lb_in_box, (hs_query (HashService := HS)), R). by apply not_elem_of_nil in Hin. }
  assert (gathering q id (length ranks) 0 d1 qte2 []) as G0.
  { constructor; try done.
    - apply (qt_find_update d0 qte0 qte2). unfold qt_find. cbn. by rewrite Z.eqb_refl.
    - constructor; try done; intros x Hx; by apply not_elem_of_nil in Hx.
    - cbn. by destruct ranks. }
  assert (length tabs = length ranks) as Hlt by (by rewrite P, length_map).
  destruct (handle_descs_spec q id (length ranks) tabs 0 d1 qte2 [] pt G0) as (qte3 & G & Ho & Hn & Hg3).
  { by rewrite Hlt. }
  { rewrite P. apply Forall_fmap, list.Forall_forall. intros r (j & p & -> & Hp & Hj)%Hr. apply list.Forall_forall.
    intros o Hoo. destruct (descs_at_spec id j p Hp Hj) as (_ & H1 & _). by destruct (H1 o Hoo) as (i & od & _ & -> & _). }
  set (d2 := handle_descs _ pt d1 _) in *. cbn [Nat.add app] in G. rewrite Hlt in G.
  change (q_id qte2) with id. rewrite (ga_find _ _ _ _ _ _ _ G). cbn [mbind option_bind].
  rewrite (ga_flag _ _ _ _ _ _ _ G), Nat.eqb_refl, (ga_err _ _ _ _ _ _ _ G). cbn [negb].
  destruct (fetch_assemble ranks id tabs d2 qte3 to Hr P G) as (qte4 & qte5 & reqs & bytes & E1 & E0 & E2 & E3 & E4 & E5 & E6 & E7);
    [by rewrite Hg3|done|done|].
  unfold get_data_phase. rewrite E0. cbn [Z.ltb Z.compare andb]. rewrite E1. cbn [Z.ltb Z.compare]. rewrite E2, E3. cbn [negb].
  rewrite E5. cbn [mbind option_bind].
  unfold get_finish. eexists _, bytes. split; [done|].
  split; [|split; [|done]].
  - change (qt (qt_remove (qt_update d2 qte5) (qt_free_obj_data qte5 true)))
      with (others (q_id (qt_free_obj_data qte5 true)) (qt_update d2 qte5)).
    rewrite free_obj_id, others_update, E4, Ho. unfold d1. change id with (q_id qte2). rewrite others_update.
    unfold others. cbn [qte2]. cbn. rewrite Z.eqb_refl. cbn. apply others_fresh.
  - change (qt_num d2 - 1 = qt_num dc). rewrite Hn. cbn. clear. lia.
Qed.
End get.
