(* ===== verification/Deployment.v ===== *)
(** * A deployment: servers, puts and gets

    The properties of the put and get protocols for all interleavings, and a
    small deployment of two servers that shows their hypotheses hold
    together. *)

From stdpp Require Import relations.
From S2P Require Import Prelude Bbox Sfc SfcCurve BboxIntv BboxRing Matrix ObjDesc Storage Sspace Locks Server HashService System Client SystemGet.

(** ** Two servers on a domain of eight cells *)

Definition demo_conf : ds_config := mk_conf 1 [8] 2 1 1 1.
Definition demo_env : server_env := mk_senv (fun _ => true) 16 true true true (fun _ => true) (fun _ _ => 0) (fun _ => 0).

Lemma demo_env_good : env_good 16 demo_env.
Proof. by constructor. Qed.

Definition demo_domain : bbox := mk_bbox 1 [0] [7].
Definition demo_gdim : global_dimension := mk_gdim 1 [8].

Lemma one_dim_wf a b : 0 <= a <= b -> b < 2 ^ 64 -> wf_bbox (mk_bbox 1 [a] [b]).
Proof.
  intros Ha Hb. split; [done|]. split; [done|]. intros i Hi. cbn in Hi. destruct i; [unfold cget; cbn; lia|lia].
Qed.

Lemma in_one_dim a b p : in_box (mk_bbox 1 [a] [b]) p <-> exists x, p = [x] /\ a <= x <= b.
Proof.
  split.
  - intros [Hl H]. cbn in Hl. destruct p as [|x [|? ?]]; try done. exists x. split; [done|].
    specialize (H 0%nat ltac:(cbn; lia)). unfold cget in H. cbn in H. lia.
  - intros (x & -> & Hx). split; [done|]. intros i Hi. cbn in Hi. destruct i; [unfold cget; cbn; lia|lia].
Qed.

Lemma demo_domain_ok : domain_ok 1 3 demo_domain.
Proof. constructor; [apply one_dim_wf; lia|done|lia|by vm_compute|lia|lia]. Qed.

Definition demo_ss : sspace := Eval vm_compute in
  match ssd_alloc (fun _ => true) 16 0 demo_domain 2 2 ssd_hash_version_v1 with Some (Some ss) => ss
  | _ => mk_ss 0 0 0 (mk_dht demo_domain 0 []) 0 0 0 ssd_hash_version_unknown end.

Abbreviation demo_query := (intv_pre 1 3).
Abbreviation demo_own := (fun p j => owns demo_ss j (hilbert_c2i 1 4 p)).
Abbreviation demo_cache := (fun sh => cache_ok 1 3 demo_ss sh /\ cache_nodup sh).

Lemma demo_alloc : ssd_alloc (fun _ => true) 16 0 demo_domain 2 2 ssd_hash_version_v1 = Some (Some demo_ss).
Proof. by vm_compute. Qed.

Lemma demo_service : fresh_space 2 demo_ss /\
  HashService (skel demo_ss) 2 16 demo_query (in_box demo_domain) demo_own demo_cache.
Proof.
  destruct (ssd_alloc_v1_service (fun _ => true) 16 0 1 3 demo_domain 2 2) as (ss & E & Hf & HS);
    [done|apply demo_domain_ok|lia|vm_compute; intuition congruence|vm_compute; lia|by exists 4|].
  rewrite demo_alloc in E. injection E as <-. done.
Qed.

#[local] Instance demo_HS : HashService (skel demo_ss) 2 16 demo_query (in_box demo_domain) demo_own demo_cache := proj2 demo_service.

Definition demo_server (k : nat) : ds_gspace :=
  mk_dsg k 2 demo_conf (ssd_init demo_ss k) demo_gdim [] (ls_alloc 2) [] 0 [] (mk_sh [] false) false.

Lemma demo_started k : (k < 2)%nat -> started (skel demo_ss) 2 demo_cache demo_gdim 2 k (demo_server k).
Proof.
  intros Hk. destruct (dsg_alloc_started demo_env 16 3 demo_conf 2 k 0 demo_ss demo_query (in_box demo_domain) demo_own demo_cache)
    as (d & E & Hs); [apply demo_env_good|done|cbn; lia|done|exact demo_alloc|apply demo_service|apply demo_service|].
  assert (d = demo_server k) as <-; [|exact Hs].
  unfold dsg_alloc, init_sspace in E. cbn [e_ssd_ok e_fuel demo_env] in E.
  change (default_domain demo_conf) with demo_domain in E. change (to_hash_version (cf_hash_version demo_conf)) with ssd_hash_version_v1 in E.
  change (cf_max_versions demo_conf) with 2 in E. rewrite demo_alloc in E. cbn in E. by injection E as <-.
Qed.

Definition demo_servers : list ds_gspace := [demo_server 0; demo_server 1].

Lemma demo_servers_started k d : demo_servers !! k = Some d -> started (skel demo_ss) 2 demo_cache demo_gdim 2 k d.
Proof. destruct k as [|[|k]]; intros [= <-]; apply demo_started; lia. Qed.

(** ** A run: two objects are put, the updates and the data arrive *)

Definition demo_A : obj_descriptor := mk_odsc "temp" column_major (-1) 0 (mk_bbox 1 [0] [4]) 1.
Definition demo_B : obj_descriptor := mk_odsc "temp" column_major (-1) 0 (mk_bbox 1 [5] [7]) 1.
Definition demo_fresh : list byte := replicate 8 Byte.x00.
Definition demo_a_bytes : list byte := [Byte.x0a; Byte.x0b; Byte.x0c; Byte.x0d; Byte.x0e].
Definition demo_b_bytes : list byte := [Byte.x1a; Byte.x1b; Byte.x1c].

Definition obj_A : obj_data := set_data (put_obj demo_gdim 0 1 demo_fresh demo_A) demo_a_bytes.
Definition obj_B : obj_data := set_data (put_obj demo_gdim 1 2 demo_fresh demo_B) demo_b_bytes.

Abbreviation demo_step := (step 16 demo_query (in_box demo_domain) demo_gdim).

Ltac eval_sys := match goal with |- rtc _ ?s _ => let s' := eval vm_compute in s in change s with s' end.

Lemma demo_intv a b : 0 <= a <= b -> b < 8 -> demo_query (mk_bbox 1 [a] [b]).
Proof.
  intros Ha Hb. constructor; [lia|lia|lia|apply one_dim_wf; lia|done|]. intros i Hi. destruct i; [unfold cget; cbn; lia|lia].
Qed.

Lemma demo_run : exists s, rtc demo_step (sys_init demo_servers) s /\ puts s = [(0%nat, obj_A); (1%nat, obj_B)] /\ xfer s = [] /\ net s = [].
Proof.
  eexists. split.
  - eapply rtc_l.
    { eapply (step_put _ _ _ _ (sys_init demo_servers) 0 (demo_server 0) demo_env 1 demo_fresh 5 demo_A demo_a_bytes);
        [reflexivity|apply demo_env_good|apply demo_intv; lia|cbn; lia| | |vm_compute; reflexivity].
      - exists [0]. split; apply in_one_dim; exists 0; (split; [done|lia]).
      - intros x [Hx|Hx]; [by apply (demo_started 0) in Hx; [|lia]|by apply not_elem_of_nil in Hx]. }
    eval_sys. eapply rtc_l.
    { eapply (step_put _ _ _ _ _ 1 (demo_server 1) demo_env 2 demo_fresh 6 demo_B demo_b_bytes);
        [vm_compute; reflexivity|apply demo_env_good|apply demo_intv; lia|cbn; lia| | |vm_compute; reflexivity].
      - exists [5]. split; apply in_one_dim; exists 5; (split; [done|lia]).
      - intros x [Hx|Hx]; [by apply (demo_started 1) in Hx; [|lia]|by apply not_elem_of_nil in Hx]. }
    eval_sys. eapply rtc_l; [eapply (step_update _ _ _ _ _ 0 1 _ demo_env _ _ _ [] []); [reflexivity|reflexivity|apply demo_env_good|vm_compute; reflexivity]|].
    eval_sys. eapply rtc_l; [eapply (step_complete _ _ _ _ _ 1 _ 0 _ obj_B [(0%nat, obj_A)] []); vm_compute; reflexivity|].
    eval_sys. eapply rtc_l; [eapply (step_complete _ _ _ _ _ 0 _ 0 _ obj_A [] []); vm_compute; reflexivity|].
    eval_sys. apply rtc_refl.
  - by split.
Qed.

Lemma demo_no_conflict s : puts s = [(0%nat, obj_A); (1%nat, obj_B)] -> no_conflict 2 "temp" 0 s.
Proof.
  intros Hp i od i' od' (Hin & _) Hin' Hne [Hc _]. rewrite Hp in Hin, Hin'.
  rewrite !elem_of_cons in Hin, Hin'. destruct Hin as [[= -> ->]|[[= -> ->]|H]]; [| |by apply not_elem_of_nil in H];
    (destruct Hin' as [[= -> ->]|[[= -> ->]|H]]; [| |by apply not_elem_of_nil in H]); (done || by vm_compute in Hc).
Qed.

(** A client with id 6, and a get of cells 2 to 6. *)
Definition demo_q : obj_descriptor := mk_odsc "temp" column_major (-1) 0 (mk_bbox 1 [2] [6]) 1.
Definition demo_client : dcg_space := mk_dcg 6 2 0 [] 0 [] 0 [] 0 (Some []) 0 [].
Definition demo_get_to : obj_data := mk_od 9 demo_q demo_gdim (replicate 5 Byte.x00) 0 false.

Lemma demo_readable s : puts s = [(0%nat, obj_A); (1%nat, obj_B)] -> readable demo_query (in_box demo_domain) "temp" 0 s demo_q.
Proof.
  intros Hp. constructor; [done|done|apply demo_intv; lia| | |].
  - intros p (x & -> & Hx)%in_one_dim. apply in_one_dim. exists x. split; [done|lia].
  - intros p (x & -> & Hx)%in_one_dim. destruct (Z.le_gt_cases x 4).
    + exists 0%nat, obj_A. split; [split; [rewrite Hp; apply list_elem_of_here|done]|]. apply in_one_dim. exists x. split; [done|lia].
    + exists 1%nat, obj_B. split; [split; [rewrite Hp; apply list_elem_of_further, list_elem_of_here|done]|].
      apply in_one_dim. exists x. split; [done|lia].
  - intros i od (Hin & _). rewrite Hp, !elem_of_cons in Hin.
    destruct Hin as [[= -> ->]|[[= -> ->]|H]]; [| |by apply not_elem_of_nil in H];
      (split; [|done]); (constructor; [apply one_dim_wf; lia|cbn; lia|cbn; lia|by vm_compute|by vm_compute]).
Qed.

(** ** Properties *)

(** [N] servers, started on the same space. *)
Definition deployed (ss0 : sspace) (N : nat) (good_cache : sh_state -> Prop) (gd0 : global_dimension) (mv : Z)
    (ds : list ds_gspace) : Prop :=
  length ds = N /\ forall k d, ds !! k = Some d -> started ss0 N good_cache gd0 mv k d.

(** The states the servers [ds] reach. *)
Definition reached (fuel : nat) (query : bbox -> Prop) (cell : list Z -> Prop) (gd0 : global_dimension)
    (ds : list ds_gspace) (s : sys) : Prop :=
  rtc (step fuel query cell gd0) (sys_init ds) s.

Lemma demo_deployed : deployed (skel demo_ss) 2 demo_cache demo_gdim 2 demo_servers.
Proof. split; [done|]. intros k d. apply demo_servers_started. Qed.

(** C2: where objects and descriptors are, for every interleaving of puts,
    deliveries of updates, data arrivals and peer queries.  For the objects
    of a name and version that no other put replaces: the data are in the
    storage of the server that took the put or still being transferred to
    it, and every server responsible for a cell of the object has its
    descriptor or will get it by a message on the way.  No server stores
    an object, or knows a descriptor, that was not put. *)
Theorem put_protocol_invariant ss0 N fuel query cell own good_cache gd0 mv nm v ds s :
  HashService ss0 N fuel query cell own good_cache ->
  deployed ss0 N good_cache gd0 mv ds -> reached fuel query cell gd0 ds s -> no_conflict mv nm v s ->
  (forall i od, tracked nm v s i od ->
     ((exists d, srv s !! i = Some d /\ stored (dsg_ls d) od) \/ (i, od) ∈ xfer s) /\
     forall p j, in_box (bb (obj_desc od)) p -> own p j ->
       (exists d, srv s !! j = Some d /\ knows d (obj_desc od)) \/
       exists mr, (i, Z.of_nat j, update_msg gd0 mr (obj_desc od)) ∈ net s) /\
  (forall k d, srv s !! k = Some d ->
     (forall x, stored (dsg_ls d) x -> (k, x) ∈ puts s) /\
     forall o, knows d o -> exists i od, (i, od) ∈ puts s /\ o = obj_desc od).
Proof.
  intros HS [Hl Hst] R Hnc.
  destruct (reach_inv ss0 N fuel query cell own good_cache gd0 mv nm v _ s R (init_inv _ _ _ _ _ _ _ _ ds Hl Hst) Hnc) as [_ M D].
  split; [intros i od T; split; [by eapply in_data|intros p j Hp Ho; by eapply in_desc]|].
  intros k d Hk. split; [intros x Hx; by eapply in_ls|intros o Ho; by eapply in_known].
Qed.

Lemma put_protocol_invariant_witness : exists s, rtc demo_step (sys_init demo_servers) s /\
  exists d, srv s !! 1%nat = Some d /\ knows d (obj_desc obj_A).
Proof.
  destruct demo_run as (s & R & Hp & Hx & Hn). exists s. split; [exact R|].
  destruct (put_protocol_invariant _ _ _ _ _ _ _ _ 2 "temp" 0 demo_servers s demo_HS demo_deployed R
    (demo_no_conflict s Hp)) as [H _].
  destruct (H 0%nat obj_A) as [_ Hk]; [split; [rewrite Hp; apply list_elem_of_here|done]|].
  destruct (Hk [4] 1%nat) as [?|(mr & Hm)]; [apply in_one_dim; exists 4; (split; [done|lia])| |done|rewrite Hn in Hm; by apply not_elem_of_nil in Hm].
  eexists. split; [reflexivity|]. vm_compute. apply list_elem_of_here.
Defined.

(** Get returns what was put.  In any state reached by the puts where
    nothing is on the way, a get for a box that the objects of its name and
    version cover succeeds, whichever server the client asks first and in
    whatever order the replies arrive: the return code is 0, and every
    byte of every cell is the byte that was put for it.  The transaction
    is removed from the client's list. *)
Theorem get_returns_puts ss0 N fuel query cell own good_cache gd0 mv nm v ds s env q cid ptr fresh heap arrival dc pt to :
  HashService ss0 N fuel query cell own good_cache ->
  deployed ss0 N good_cache gd0 mv ds -> reached fuel query cell gd0 ds s -> no_conflict mv nm v s -> quiescent s ->
  env_good fuel env -> readable query cell nm v s q ->
  obj_data_size q <= Z.of_nat (length fresh) -> (forall l, arrival l ≡ₚ l) ->
  num_sp dc = Z.of_nat N -> (0 < N)%nat -> dcg_id dc = cid -> 0 <= cid -> (forall e, e ∈ qt dc -> q_id e <> next_qid dc) ->
  obj_desc to = q -> od_gdim to = gd0 -> buf_ok q (data to) ->
  exists dc' bytes,
    dcg_obj_get true pt fresh (servers_net env heap ptr fresh arrival (srv s) cid) dc to = Some (dc', get_done 0 (set_data to bytes)) /\
    qt dc' = qt dc /\
    forall p k i od, in_box (bb q) p -> 0 <= k < size q -> tracked nm v s i od -> in_box (bb (obj_desc od)) p ->
      cell_at (bb q) (size q) bytes p k = cell_at (bb (obj_desc od)) (size (obj_desc od)) (data od) p k.
Proof.
  intros HS [Hl Hst] R Hnc Hqu He Hrd Hf Harr Hsp HN Hcid Hc0 Hid Hto Hgd Hb.
  pose proof (reach_inv ss0 N fuel query cell own good_cache gd0 mv nm v _ s R (init_inv _ _ _ _ _ _ _ _ ds Hl Hst) Hnc) as I.
  destruct (get_spec ss0 N fuel query cell own good_cache gd0 mv nm v s I Hnc Hqu env He cid q Hrd ptr fresh Hf
    (bo_dims _ _ Hb) (bo_size _ _ Hb) (bo_fit _ _ Hb) heap arrival Harr dc Hsp Hcid Hc0 HN Hid pt to Hto Hgd Hb)
    as (dc' & bytes & E & Hq & _ & _ & Hcells).
  exists dc', bytes. split; [exact E|]. split; [done|]. intros p k i od Hp Hk T Ho. rewrite Hcells by done.
  destruct (rd_objs _ _ _ _ _ _ Hrd i od T) as (_ & _ & Hsz). rewrite Hsz.
  by apply (array_spec query cell mv nm v s Hnc q Hrd i od p k T Ho).
Qed.

Lemma get_returns_puts_witness : exists s dc' bytes, rtc demo_step (sys_init demo_servers) s /\
  dcg_obj_get true 100 demo_fresh (servers_net demo_env [7] 50 demo_fresh (@rev smsg) (srv s) 6) demo_client demo_get_to
    = Some (dc', get_done 0 (set_data demo_get_to bytes)) /\
  cell_at (bb demo_q) 1 bytes [5] 0 = Some Byte.x1a.
Proof.
  destruct demo_run as (s & R & Hp & Hx & Hn).
  destruct (get_returns_puts _ _ _ _ _ _ _ _ 2 "temp" 0 demo_servers s demo_env demo_q 6 50 demo_fresh [7] (@rev smsg) demo_client 100
    demo_get_to demo_HS demo_deployed R (demo_no_conflict s Hp)) as (dc' & bytes & E & _ & Hc).
  - split; [done|]. intros i r m Hm. rewrite Hn in Hm. by apply not_elem_of_nil in Hm.
  - apply demo_env_good.
  - by apply demo_readable.
  - by vm_compute.
  - intros l. symmetry. apply Permutation_rev.
  - done.
  - lia.
  - done.
  - lia.
  - intros e He. by apply not_elem_of_nil in He.
  - done.
  - done.
  - constructor; [apply one_dim_wf; lia|cbn; lia|cbn; lia|by vm_compute|by vm_compute].
  - exists s, dc', bytes. split; [exact R|]. split; [exact E|].
    change (cell_at (bb demo_q) (size demo_q) bytes [5] 0 = Some Byte.x1a). rewrite (Hc [5] 0 1%nat obj_B); [by vm_compute|apply in_one_dim; exists 5; (split; [done|lia])|cbn; lia
      |split; [rewrite Hp; apply list_elem_of_further, list_elem_of_here|done]
      |apply in_one_dim; exists 5; (split; [done|lia])].
Defined.
