(* ===== verification/Service.v ===== *)
(** * Requests that do not come from the put and get path

    The removal of a variable, the choice of the shared space of a request,
    and what a get does when descriptors are missing. *)

From S2P Require Import Prelude Bbox Matrix ObjDesc Storage Sspace Locks Server HashService System Client SystemGet Deployment.

(** ** Removal *)

Lemma remove_all_inv l : forall ls, ls_inv ls -> NoDup (od_ptr <$> l) -> (forall x, x ∈ l -> stored ls x) ->
  ls_inv (fold_left ls_remove l ls).
Proof.
  induction l as [|od l IH]; intros ls I Hnd Hs; [done|]. cbn [fold_left fmap list_fmap] in *.
  apply list.NoDup_cons in Hnd as [Hn Hnd].
  apply IH; [apply ls_remove_inv; [done|apply Hs, list_elem_of_here]|done|].
  intros x Hx. apply stored_remove. split; [by apply Hs, list_elem_of_further|]. intros E. apply Hn. rewrite <- E.
  by apply list_elem_of_fmap_2.
Qed.

Lemma stored_ptr_eq ls x y : ls_inv ls -> stored ls x -> stored ls y -> od_ptr x = od_ptr y -> x = y.
Proof.
  intros I Hx Hy E. apply list_elem_of_lookup in Hx as [i Hi], Hy as [j Hj].
  assert (i = j) as ->; [|congruence].
  eapply NoDup_lookup; [exact (li_ptr _ I)| |]; rewrite list_lookup_fmap, ?Hi, ?Hj; cbn; by rewrite ?E.
Qed.

Lemma stdlib_filter_NoDup {A B} (g : A -> B) (f : A -> bool) l : NoDup (g <$> l) -> NoDup (g <$> List.filter f l).
Proof.
  induction l as [|x l IH]; intros H; [done|]. cbn in *. apply list.NoDup_cons in H as [Hn H].
  destruct (f x); cbn; [|auto]. apply list.NoDup_cons. split; [|auto].
  intros (y & E & [Hy _]%elem_of_stdlib_filter)%list_elem_of_fmap. apply Hn. rewrite E. by apply list_elem_of_fmap_2.
Qed.

(** The objects a removal request names. *)
Definition named_by (nm : string) (ver : Z) (x : obj_data) : Prop :=
  name (obj_desc x) = nm /\ version (obj_desc x) = u32 ver.

(** the removal request deletes exactly the objects of the name and
    version: they are gone from the storage, every other object stays, the
    storage stays well formed, and nothing else of the server changes; in
    particular the descriptors of the deleted objects stay in the DHT. *)
Theorem dsgrpc_remove_service_exact d nm ver : ls_inv (dsg_ls d) ->
  exists ls', dsgrpc_remove_service d nm ver = (set_ls d ls', 0) /\ ls_inv ls' /\
    forall x, stored ls' x <-> stored (dsg_ls d) x /\ ~ named_by nm ver x.
Proof.
  intros I. unfold dsgrpc_remove_service. eexists. split; [reflexivity|].
  assert (forall x, x ∈ List.filter (removed nm ver) (mjoin (obj_hash (dsg_ls d))) <->
    stored (dsg_ls d) x /\ name (obj_desc x) = nm /\ version (obj_desc x) = u32 ver) as Hin.
  { intros x. rewrite elem_of_stdlib_filter. unfold removed. rewrite andb_true_iff, Z.eqb_eq, streq_spec. unfold stored. tauto. }
  split.
  - apply remove_all_inv; [done|apply stdlib_filter_NoDup, (li_ptr _ I)|]. intros x Hx. by apply Hin in Hx as [? _].
  - intros x. rewrite (proj2 (ls_free_fold _ _)). split.
    + intros [Hx Hn]. split; [done|]. intros Hr. by apply (Hn x); [apply Hin|].
    + intros [Hx Hn]. split; [done|]. intros y [Hy Hr]%Hin E. apply Hn. by rewrite (stored_ptr_eq _ _ _ I Hx Hy E).
Qed.

Lemma dsgrpc_remove_service_exact_witness : exists ls',
  dsgrpc_remove_service (set_ls (demo_server 0) (ls_add_obj (ls_add_obj (ls_alloc 2) obj_A) obj_B)) "temp" 0
    = (set_ls (demo_server 0) ls', 0) /\ ~ stored ls' obj_A.
Proof.
  destruct (dsgrpc_remove_service_exact (set_ls (demo_server 0) (ls_add_obj (ls_add_obj (ls_alloc 2) obj_A) obj_B)) "temp" 0)
    as (ls' & E & _ & H).
  - assert (ls_inv (ls_alloc 2)) as I0 by (apply ls_alloc_inv; lia).
    assert (ls_inv (ls_add_obj (ls_alloc 2) obj_A)) as I1.
    { apply ls_add_obj_inv; [done|cbn; lia|]. intros x Hx. by apply ls_alloc_empty in Hx; [|lia]. }
    cbn [dsg_ls set_ls]. apply ls_add_obj_inv; [done|cbn; lia|]. intros x Hx. vm_compute in Hx.
    apply elem_of_cons in Hx as [->|Hx]; [by vm_compute|by apply not_elem_of_nil in Hx].
  - exists ls'. split; [exact E|]. intros Hx. apply H in Hx as [_ Hn]. by apply Hn.
Defined.

(** ** The space of a request *)

Lemma global_dimension_equal_refl g : global_dimension_equal g g = true.
Proof. apply forallb_seq. intros. apply Z.eqb_refl. Qed.

(** The reference of a space after a new one was put in front. *)
Definition shift_ref (r : ss_ref) : ss_ref := match r with ref_default => ref_default | ref_list i => ref_list (S i) end.

(** the space of a request.  [lookup_sspace] returns a space of the
    server: the default one only for the dimensions of the configuration or
    when the space cannot be built, otherwise the one registered for the
    dimensions of the request.  The next request with the same dimensions
    gets the same space and changes nothing; the spaces that existed keep
    their content, and nothing but the list of spaces changes. *)
Theorem lookup_sspace_stable env d gd d' r : lookup_sspace env d gd = Some (d', r) ->
  lookup_sspace env d' gd = Some (d', r) /\
  (exists ss, get_ss d' r = Some ss) /\
  (r = ref_default -> global_dimension_equal gd (default_gdim d) = true \/
     ssd_alloc (e_ssd_ok env) (e_fuel env) (S (length (sspace_list d))) (gdim_domain gd) (size_sp d)
       (cf_max_versions (conf d)) (to_hash_version (cf_hash_version (conf d))) = Some None) /\
  (forall i, r = ref_list i -> exists e, sspace_list d' !! i = Some e /\ ndim (fst e) = ndim gd /\ global_dimension_equal gd (fst e) = true) /\
  ((forall r0, get_ss d' r0 = get_ss d r0) \/ (forall r0, get_ss d' (shift_ref r0) = get_ss d r0)) /\
  d' = set_sspace_list d (sspace_list d').
Proof.
  unfold lookup_sspace. destruct (global_dimension_equal gd (default_gdim d)) eqn:Eg.
  { intros [= <- <-]. rewrite Eg. cbn. repeat split; try done; [eauto|by left|by left|by destruct d]. }
  destruct (list_find _ (sspace_list d)) as [[i e]|] eqn:El.
  { intros [= <- <-]. rewrite Eg, El. pose proof El as (H1 & (H2 & H3) & _)%list_find_Some.
    repeat split; try done; [|intros j [= <-]; by exists e|by left|by destruct d]. cbn. rewrite H1. cbn. eauto. }
  destruct (ssd_alloc _ _ _ _ _ _ _) as [[ss|]|] eqn:Ea; [| |done]; cbn [mbind option_bind]; intros [= <- <-].
  - cbn [default_gdim set_sspace_list]. rewrite Eg. cbn [sspace_list set_sspace_list list_find fst].
    rewrite decide_True by (split; [done|apply global_dimension_equal_refl]).
    repeat split; try done; [by eexists|intros i [= <-]; eexists; split; [reflexivity|split; [done|apply global_dimension_equal_refl]]|].
    right. by intros [|i].
  - rewrite Eg, El, Ea. cbn. repeat split; try done; [eauto|by right|by left|by destruct d].
Qed.

Lemma lookup_sspace_stable_witness : exists d', lookup_sspace demo_env (demo_server 0) (mk_gdim 2 [4; 4]) = Some (d', ref_list 0) /\
  lookup_sspace demo_env d' (mk_gdim 2 [4; 4]) = Some (d', ref_list 0).
Proof.
  eexists. split; [vm_compute; reflexivity|].
  refine (proj1 (lookup_sspace_stable demo_env (demo_server 0) (mk_gdim 2 [4; 4]) _ (ref_list 0) _)). by vm_compute.
Defined.

(** ** A get without all the descriptors *)

(** The transaction with [n] of [num] replies handled, whatever they were. *)
Record answered (id : Z) (num n : nat) (err : bool) (d : dcg_space) (qte : query_tran_entry) : Prop := {
  an_find : qt_find d id = Some qte;
  an_id : q_id qte = id;
  an_num : qh_num_peer (qh qte) = num;
  an_rec : qh_num_rep_received (qh qte) = n;
  an_flag : f_odsc_recv qte = (n =? num)%nat;
  an_err : f_err qte = err
}.

(** The table holds the distinct versions reported so far; it is lost when they
    were more than its size. *)
Definition reported (d : dcg_space) (vs : list Z) : Prop :=
  match versions d with
  | Some l => NoDup l /\ (length l <= max_vers)%nat /\ forall v, v ∈ l <-> v ∈ vs
  | None => exists l, NoDup l /\ (max_vers < length l)%nat /\ forall v, v ∈ l -> v ∈ vs
  end.

Lemma version_add_spec d d' v seen : reported d seen -> versions d' = version_add (versions d) v -> reported d' (seen ++ [v]).
Proof.
  unfold reported, version_add. intros H ->. destruct (versions d) as [l|]; cbn [mbind option_bind].
  2:{ destruct H as (l & H1 & H2 & H3). exists l. split; [done|]. split; [done|]. intros x Hx. apply elem_of_app. left. auto. }
  destruct H as (Hn & Hl & Hi). assert (existsb (Z.eqb v) l = true <-> v ∈ l) as Hex.
  { rewrite existsb_exists. split; [intros (y & Hy & ->%Z.eqb_eq); by apply list_elem_of_In|].
    intros H%list_elem_of_In. exists v. by rewrite Z.eqb_refl. }
  destruct (existsb (Z.eqb v) l).
  { split; [done|]. split; [done|]. intros x. rewrite elem_of_app, list_elem_of_singleton, Hi. split; [tauto|].
    intros [?| ->]; [done|]. by apply Hi, Hex. }
  assert (NoDup (l ++ [v])) as Hn'.
  { apply list.NoDup_app. split; [done|]. split; [|by apply list.NoDup_singleton].
    intros x Hx ->%list_elem_of_singleton. by apply Hex in Hx. }
  assert (forall x, x ∈ l ++ [v] <-> x ∈ seen ++ [v]) as Hi' by (intros x; by rewrite !elem_of_app, Hi).
  destruct (decide _) as [Hlt|Hge]; [split; [done|]; split; [rewrite length_app; cbn; lia|done]|].
  exists (l ++ [v]). split; [done|]. split; [rewrite length_app; cbn; lia|]. intros x. apply Hi'.
Qed.

Lemma versions_add_spec d vs seen : reported d seen -> reported (versions_add d vs) (seen ++ vs).
Proof.
  revert d seen. induction vs as [|v vs IH]; intros d seen H; [by rewrite app_nil_r|].
  replace (seen ++ v :: vs) with ((seen ++ [v]) ++ vs) by (by rewrite <- app_assoc).
  apply (IH (set_versions d (version_add (versions d) v))). by apply (version_add_spec d).
Qed.

(** The versions a reply reports. *)
Definition reply_versions (m : smsg) : list Z := match m with ss_desc_missing _ vs => vs | _ => [] end.
Definition is_missing (m : smsg) : bool := match m with ss_desc_missing _ _ => true | _ => false end.
Definition reply_to (id : Z) (m : smsg) : Prop :=
  (exists vs, m = ss_desc_missing id vs) \/ exists tab, m = ss_desc_found id tab.

Lemma answered_update id num n err d qte qte' : qt_find d id = Some qte -> q_id qte' = id ->
  qh_num_peer (qh qte') = num -> qh_num_rep_received (qh qte') = n -> f_odsc_recv qte' = (n =? num)%nat -> f_err qte' = err ->
  answered id num n err (qt_update d qte') qte'.
Proof.
  intros Hf Hid H1 H2 H3 H4. constructor; try done. rewrite <- Hid. eapply qt_find_update. by rewrite Hid.
Qed.

(** Without allocation errors the loop over the descriptors keeps the counters. *)
Lemma add_descs_same tab : forall ok ptr qte, (forall n, ok n = true) ->
  exists qte', add_descs ok ptr qte tab = (qte', 0) /\ same_query qte' qte.
Proof.
  induction tab as [|o tab IH]; intros ok ptr qte Hok; cbn [add_descs]; [by exists qte|].
  destruct (qt_find_obj qte o).
  - destruct (IH ok ptr (set_ods qte (size_od qte - 1) (num_od qte) (od_list qte)) Hok) as (q' & E & Hq). by exists q'.
  - unfold qt_add_obj. rewrite Hok. cbn [Z.ltb Z.compare].
    destruct (IH ok (S ptr) (set_ods qte (size_od qte) (num_od qte + 1)
      (obj_data_alloc_no_data ptr (set_st o (st (q_obj qte))) [] :: od_list qte)) Hok) as (q' & E & Hq). by exists q'.
Qed.

Lemma count_reply_fields qte : let n := S (qh_num_rep_received (qh qte)) in
  q_id (count_reply qte) = q_id qte /\ qh_num_peer (qh (count_reply qte)) = qh_num_peer (qh qte) /\
  qh_num_rep_received (qh (count_reply qte)) = n /\
  f_odsc_recv (count_reply qte) = if (n =? qh_num_peer (qh qte))%nat then true else f_odsc_recv qte.
Proof. cbn zeta. unfold count_reply. by destruct (S (qh_num_rep_received (qh qte)) =? qh_num_peer (qh qte))%nat. Qed.

Lemma reply_answered id num n err d qte seen ok ptr m : (forall n, ok n = true) -> answered id num n err d qte ->
  reported d seen -> (n < num)%nat -> reply_to id m ->
  let d' := fst (dcgrpc_obj_get_desc ok ptr d m) in
  exists qte', answered id num (S n) (err || is_missing m) d' qte' /\ reported d' (seen ++ reply_versions m) /\
    others id d' = others id d /\ qt_num d' = qt_num d.
Proof.
  intros Hok [Hf Hid Hnum Hrec Hfl Her] Hv Hn Hm d'. destruct Hm as [[vs ->]|[tab ->]]; subst d'; cbn [dcgrpc_obj_get_desc].
  - unfold obj_get_desc_missing. rewrite Hf. cbn [fst reply_versions is_missing]. rewrite orb_true_r.
    set (qte' := set_flags _ _ _ true).
    destruct (count_reply_fields qte) as (F1 & F2 & F3 & F4). rewrite Hid in F1. rewrite Hnum in F2, F4. rewrite Hrec in F3, F4.
    exists qte'. split; [|split; [|split]].
    + destruct (answered_update id num (S n) true d qte qte' Hf F1 F2 F3) as [A1 A2 A3 A4 A5 A6]; [|done|by constructor].
      unfold qte'. cbn [set_flags f_odsc_recv]. rewrite F4. destruct (Nat.eqb_spec (S n) num); [done|].
      rewrite Hfl. apply Nat.eqb_neq. lia.
    + by apply versions_add_spec.
    + rewrite <- F1. exact (others_update d qte').
    + done.
  - unfold obj_get_desc_completion. rewrite Hf. cbn [reply_versions is_missing]. rewrite orb_false_r, app_nil_r.
    set (h := mk_qh (qh_size (qh qte)) (qh_num_peer (qh qte)) (qh_num_req_posted (qh qte)) (S (qh_num_rep_received (qh qte))) (qh_peerid_tab (qh qte))).
    set (q1 := set_ods (set_qh qte h) _ _ _).
    destruct (add_descs_same tab ok ptr q1 Hok) as (q2 & E & S1 & S2 & S3 & S4 & S5 & S6 & S7 & S8).
    rewrite E. cbn [Z.ltb Z.compare fst]. rewrite S3. cbn [q1 set_ods set_qh qh h qh_num_rep_received qh_num_peer].
    rewrite Hrec, Hnum.
    set (q3 := if (S n =? num)%nat then set_flags q2 (f_peer_received q2) true (f_err q2) else q2).
    assert (q_id q3 = id /\ qh q3 = h /\ f_err q3 = err /\ f_odsc_recv q3 = (S n =? num)%nat) as (Hid' & Hh & He & Ho).
    { unfold q3. destruct (Nat.eqb_spec (S n) num); cbn; rewrite S1, S3, S7, ?S6; cbn; (split; [done|]); (split; [done|]); (split; [done|]); [done|].
      rewrite Hfl. by apply Nat.eqb_neq; lia. }
    exists q3. split; [|split; [|split]].
    + eapply answered_update; [done|done|by rewrite Hh|rewrite Hh; cbn; lia|done|done].
    + done.
    + rewrite <- Hid'. exact (others_update d q3).
    + done.
Qed.

Lemma handle_descs_answered id num ok ms : (forall n, ok n = true) -> forall n err d qte seen ptr,
  answered id num n err d qte -> reported d seen -> (n + length ms <= num)%nat -> Forall (reply_to id) ms ->
  exists qte', answered id num (n + length ms) (err || existsb is_missing ms) (handle_descs ok ptr d ms) qte' /\
    reported (handle_descs ok ptr d ms) (seen ++ mjoin (map reply_versions ms)) /\
    others id (handle_descs ok ptr d ms) = others id d /\ qt_num (handle_descs ok ptr d ms) = qt_num d.
Proof.
  intros Hok. induction ms as [|m ms IH]; intros n err d qte seen ptr A V Hn Hr.
  { cbn. rewrite Nat.add_0_r, orb_false_r, app_nil_r. eauto. }
  cbn [length] in Hn. apply Forall_cons_iff in Hr as [Hm Hr].
  destruct (reply_answered id num n err d qte seen ok ptr m Hok A V ltac:(lia) Hm) as (q1 & A1 & V1 & O1 & N1).
  cbn [handle_descs]. set (d1 := fst _) in *.
  destruct (IH (S n) _ d1 q1 _ (ptr + match m with ss_desc_found _ tab => length tab | _ => O end)%nat A1 V1 ltac:(lia) Hr)
    as (q2 & A2 & V2 & O2 & N2).
  exists q2. cbn [length existsb map mjoin list_join]. rewrite <- Nat.add_succ_comm, orb_assoc, app_assoc.
  split; [exact A2|]. split; [exact V2|]. split; [by rewrite O2|by rewrite N2].
Qed.

(** The header of the requests of a get. *)
Definition header_of (dc : dcg_space) (od : obj_data) : hdr_obj_get := mk_hog (next_qid dc) (dcg_id dc) (obj_desc od) (od_gdim od).

Section gets.
Context (net : get_net) (dc : dcg_space) (od : obj_data) (ranks rest : list Z) (ms : list smsg).
Context (Hpost : forall r, post net r = 0) (Hok : forall n, gn_desc_ok net n = true).
Context (Hpeers : gn_peers net (dcg_which_peer dc, header_of dc od) = Some (ranks ++ -1 :: rest)).
Context (Hpos : Forall (fun p => 0 <= p) ranks) (Hlen : Z.of_nat (length ranks) <= num_sp dc).
Context (Hms : gn_desc net (map (fun p => (p, header_of dc od)) ranks) = ms) (Hans : Forall (reply_to (next_qid dc)) ms).
Context (Hnum : (length ms <= length ranks)%nat) (Htab : is_Some (versions dc)).

(** The get up to the test of [f_odsc_recv]. *)
Lemma get_descriptors_phase pt fresh :
  exists d qte, dcg_obj_get true pt fresh net dc od =
      (if negb (f_odsc_recv qte) then Some (wait_failed (gn_proc net 1) d od)
       else if f_err qte then Some (get_finish d qte (- EAGAIN) od)
       else get_data_phase fresh net d qte od) /\
    q_id qte = next_qid dc /\ f_err qte = existsb is_missing ms /\
    f_odsc_recv qte = ((0 <? length ranks)%nat && (length ms =? length ranks)%nat) /\
    reported d (mjoin (map reply_versions ms)) /\ others (next_qid dc) d = others (next_qid dc) dc /\
    qt_num d = qt_num dc + 1 /\ qt_find d (next_qid dc) = Some qte.
Proof using Hpost Hok Hpeers Hpos Hlen Hms Hans Hnum Htab.
  unfold dcg_obj_get, qte_alloc, qt_gen_qid, qh_alloc. cbn [mbind option_bind]. set (id := next_qid dc). cbn [set_next_qid num_sp].
  set (qte0 := mk_qte id (obj_desc od) 0 0 0 [] _ (od_gdim od) true false false false false).
  set (d0 := versions_reset (qt_add _ qte0)). cbn [get_dht_peers]. rewrite Hpost. cbn [Z.ltb Z.compare].
  change (gn_peers net (dcg_which_peer d0, get_header d0 qte0)) with (gn_peers net (dcg_which_peer dc, header_of dc od)).
  rewrite Hpeers. set (qte1 := get_dht_peers_completion qte0 _).
  assert (qh_num_peer (qh qte1) = length ranks) as Hnp.
  { change (qh_num_peer (qh qte1)) with (count_peers (S (Z.to_nat (num_sp dc))) (ranks ++ -1 :: rest)).
    apply count_peers_app; [done|]. clear - Hlen. lia. }
  unfold get_obj_descriptors. change (qh_peerid_tab (qh qte1)) with (ranks ++ -1 :: rest). rewrite post_descs_app by done.
  cbn [mbind option_bind fst snd Z.ltb Z.compare]. set (qte2 := set_qh _ _). set (d1 := qt_update d0 qte2).
  change (get_header d0 qte1) with (header_of dc od). rewrite Hms.
  assert (qt_find d1 id = Some qte2) as Hf.
  { apply (qt_find_update d0 qte0 qte2). unfold qt_find. cbn. by rewrite Z.eqb_refl. }
  assert (reported d1 []) as V0.
  { unfold reported. change (versions d1) with ((fun _ : list Z => @nil Z) <$> versions dc). destruct Htab as [l ->]. cbn. split; [constructor|]. split; [lia|done]. }
  assert (others id d1 = others id dc) as Ho1.
  { unfold d1. change id with (q_id qte2). rewrite others_update. unfold others. cbn. by rewrite Z.eqb_refl. }
  change (q_id qte2) with id. destruct ranks as [|r l] eqn:Er.
  { destruct ms; [|by cbn in Hnum; lia]. cbn [handle_descs]. rewrite Hf. cbn [mbind option_bind].
    exists d1, qte2. done. }
  rewrite <- Er in *. destruct (handle_descs_answered id (length ranks) (gn_desc_ok net) ms Hok 0 false d1 qte2 [] pt) as (q3 & A & V & O & Q).
  { constructor; try done. cbn. rewrite Er. done. }
  { done. }
  { done. }
  { done. }
  set (d2 := handle_descs _ pt d1 ms) in *. rewrite (an_find _ _ _ _ _ _ A). cbn [mbind option_bind].
  exists d2, q3. split; [done|]. split; [apply A|]. split; [exact (an_err _ _ _ _ _ _ A)|].
  split; [rewrite (an_flag _ _ _ _ _ _ A), Er; done|]. split; [exact V|]. split; [by rewrite O|].
  split; [rewrite Q; done|apply A].
Qed.
End gets.

Lemma finish_restores dc d qte rc od : others (next_qid dc) d = others (next_qid dc) dc -> qt_num d = qt_num dc + 1 ->
  q_id qte = next_qid dc -> (forall e, e ∈ qt dc -> q_id e <> next_qid dc) ->
  exists d', get_finish d qte rc od = (d', get_done rc od) /\ qt d' = qt dc /\ qt_num d' = qt_num dc /\ versions d' = versions d.
Proof.
  intros Ho Hq Hid Hfr. unfold get_finish. eexists. split; [reflexivity|].
  split; [|split; [cbn; rewrite Hq; lia|done]].
  change (others (q_id (qt_free_obj_data qte true)) d = qt dc). rewrite free_obj_id, Hid, Ho. by apply others_fresh.
Qed.

Lemma reported_table d ms : reported d (mjoin (map reply_versions ms)) ->
  let all := mjoin (map reply_versions ms) in
  if decide (length (remove_dups all) <= max_vers)%nat
  then exists l, versions d = Some l /\ NoDup l /\ forall v, v ∈ l <-> exists m, m ∈ ms /\ v ∈ reply_versions m
  else versions d = None.
Proof.
  set (all := mjoin _). intros V. cbn zeta. unfold reported in V. assert (forall v, v ∈ all <-> exists m, m ∈ ms /\ v ∈ reply_versions m) as Hall.
  { intros v. unfold all. rewrite list_elem_of_join. split.
    + intros (l & Hv & (m & -> & Hm)%list_elem_of_fmap). eauto.
    + intros (m & Hm & Hv). exists (reply_versions m). split; [done|]. by apply list_elem_of_fmap_2. }
  destruct (versions d) as [l|].
  - destruct V as (Hn & Hl & Hi). rewrite decide_True; [|etrans; [|exact Hl]].
    + exists l. split; [done|]. split; [done|]. intros v. by rewrite Hi, Hall.
    + apply submseteq_length, NoDup_submseteq; [apply NoDup_remove_dups|]. intros x Hx. exact (proj2 (Hi x) (proj1 (elem_of_remove_dups _ _) Hx)).
  - destruct V as (l & Hn & Hl & Hi). rewrite decide_False; [done|]. apply Nat.lt_nge. eapply Nat.lt_le_trans; [exact Hl|].
    apply submseteq_length, NoDup_submseteq; [done|]. intros x Hx. apply elem_of_remove_dups. auto.
Qed.

(** C39: a get that some DHT server cannot serve.  When all the servers of the
    box answer and at least one of them has no descriptor, the get ends
    with -EAGAIN, the buffer of the caller is not touched, the transaction
    is removed, and the client holds the distinct versions the servers
    reported, each of them once, provided that they are at most 64: the table
    has no more words, and with more versions the client writes past it. *)
Theorem get_reports_missing pt fresh net dc od ranks rest ms :
  (forall r, post net r = 0) -> (forall n, gn_desc_ok net n = true) ->
  gn_peers net (dcg_which_peer dc, header_of dc od) = Some (ranks ++ -1 :: rest) ->
  Forall (fun p => 0 <= p) ranks -> Z.of_nat (length ranks) <= num_sp dc ->
  gn_desc net (map (fun p => (p, header_of dc od)) ranks) = ms -> length ms = length ranks ->
  Forall (reply_to (next_qid dc)) ms -> existsb is_missing ms = true ->
  (forall e, e ∈ qt dc -> q_id e <> next_qid dc) -> is_Some (versions dc) ->
  exists dc', dcg_obj_get true pt fresh net dc od = Some (dc', get_done (- EAGAIN) od) /\
    qt dc' = qt dc /\ qt_num dc' = qt_num dc /\
    let all := mjoin (map reply_versions ms) in
    if decide (length (remove_dups all) <= max_vers)%nat
    then exists l, versions dc' = Some l /\ NoDup l /\ forall v, v ∈ l <-> exists m, m ∈ ms /\ v ∈ reply_versions m
    else versions dc' = None.
Proof.
  intros Hpost Hok Hpeers Hpos Hlen Hms Hl Hans Hmiss Hfr Htab.
  destruct (get_descriptors_phase net dc od ranks rest ms Hpost Hok Hpeers Hpos Hlen Hms Hans ltac:(lia) Htab pt fresh)
    as (d & qte & E & Hid & He & Ho & V & Hot & Hq & _).
  destruct (finish_restores dc d qte (- EAGAIN) od Hot Hq Hid Hfr) as (d' & Ef & H1 & H2 & H3).
  exists d'. rewrite E, He, Hmiss, Ho, Hl, Nat.eqb_refl, Ef. split; [|split; [done|split; [done|]]].
  - destruct (Nat.ltb_spec 0 (length ranks)); [done|]. by destruct ms; [|cbn in *; lia].
  - rewrite H3. apply (reported_table d). exact V.
Qed.

(** Two servers; one of them reports that it has version 3 only. *)
Definition demo_missing_net : get_net :=
  mk_gnet (fun _ => true) (fun _ => 0) (fun _ => true) (fun _ => true) (fun _ => Some [1; 0; -1])
    (fun _ => [ss_desc_found 0 [demo_A]; ss_desc_missing 0 [3; 3]]) (fun _ => None) (fun _ => 0).

Lemma get_reports_missing_witness : exists dc' l,
  dcg_obj_get true 100 demo_fresh demo_missing_net demo_client demo_get_to = Some (dc', get_done (- EAGAIN) demo_get_to) /\
  versions dc' = Some l /\ 3 ∈ l.
Proof.
  destruct (get_reports_missing 100 demo_fresh demo_missing_net demo_client demo_get_to [1; 0] []
    [ss_desc_found 0 [demo_A]; ss_desc_missing 0 [3; 3]]) as (dc' & E & _ & _ & Hv);
    [done|done|done|constructor; [lia|constructor; [lia|constructor]]|cbn; lia|done|done| |done| |by exists []|].
  - constructor; [right; by eexists|constructor; [left; by eexists|constructor]].
  - intros e He. by apply not_elem_of_nil in He.
  - destruct Hv as (l & El & _ & Hl). exists dc', l. split; [exact E|]. split; [exact El|]. apply Hl. exists (ss_desc_missing 0 [3; 3]).
    split; [apply list_elem_of_further, list_elem_of_here|apply list_elem_of_here].
Defined.

(** A server that reports 65 versions. *)
Lemma versions_overrun : versions (versions_add demo_client (map Z.of_nat (seq 0 65))) = None.
Proof. by vm_compute. Qed.

(** A get that never ends.  When the hash gives no DHT server for the
    box, or some server does not answer, no flag is ever set: the loop that
    waits for the descriptors goes on until [dc_process] fails, and then
    the transaction stays in the list of the client. *)
Theorem get_without_answer_waits pt fresh net dc od ranks rest ms :
  (forall r, post net r = 0) -> (forall n, gn_desc_ok net n = true) ->
  gn_peers net (dcg_which_peer dc, header_of dc od) = Some (ranks ++ -1 :: rest) ->
  Forall (fun p => 0 <= p) ranks -> Z.of_nat (length ranks) <= num_sp dc ->
  gn_desc net (map (fun p => (p, header_of dc od)) ranks) = ms -> Forall (reply_to (next_qid dc)) ms ->
  (ranks = [] /\ ms = []) \/ (length ms < length ranks)%nat -> is_Some (versions dc) ->
  exists dc' qte, dcg_obj_get true pt fresh net dc od =
      Some (dc', if gn_proc net 1 <? 0 then get_done (gn_proc net 1) od else get_waits) /\
    qt_find dc' (next_qid dc) = Some qte /\ qt_num dc' = qt_num dc + 1.
Proof.
  intros Hpost Hok Hpeers Hpos Hlen Hms Hans Hl Htab.
  destruct (get_descriptors_phase net dc od ranks rest ms Hpost Hok Hpeers Hpos Hlen Hms Hans
    ltac:(destruct Hl as [[-> ->]|]; [done|lia]) Htab pt fresh) as (d & qte & E & _ & _ & Ho & _ & _ & Hq & Hf).
  exists d, qte. split; [|done]. rewrite E, Ho. destruct Hl as [[-> ->]|Hl]; [done|].
  rewrite (proj2 (Nat.eqb_neq _ _)) by lia. by rewrite andb_false_r.
Qed.

(** No server for the box. *)
Definition demo_empty_net : get_net :=
  mk_gnet (fun _ => true) (fun _ => 0) (fun _ => true) (fun _ => true) (fun _ => Some [-1; 0; 0]) (fun _ => []) (fun _ => None) (fun _ => 0).

Lemma get_without_answer_waits_witness : exists dc',
  dcg_obj_get true 100 demo_fresh demo_empty_net demo_client demo_get_to = Some (dc', get_waits).
Proof.
  destruct (get_without_answer_waits 100 demo_fresh demo_empty_net demo_client demo_get_to [] [0; 0] []) as (dc' & qte & E & _);
    [done|done|done|constructor|cbn; lia|done|constructor|by left|by exists []|]. exists dc'. exact E.
Defined.
