(* ===== verification/DimesBuf.v ===== *)
(** * The DIMES buffer allocator

    DIMES keeps the data a client has put in the client's own memory; with
    shared-memory buffers that memory is one segment managed by the
    allocator of [src/dimes_data.c].  This file models the allocator (its
    two block lists, [dimes_buffer_alloc], [dimes_buffer_free] and the
    merging of neighbouring free blocks) and its checkpoint and restart.

    Theorems: the blocks always tile the buffer and no two neighbouring
    blocks are free; an allocation returns unused bytes and fails only when
    no gap of the size exists; a free releases exactly one block; freeing
    everything gives back the initial state; a checkpoint read into empty
    lists restores the allocator.  [dimes_client_shmem_restart] does not
    read it into empty lists, and its first allocation may hand out bytes
    that are in use. *)

From S2P Require Import Prelude.
From stdpp Require Import sorting sets.

#[local] Open Scope Z_scope.

Module DimesBuf.

(** ** Data *)

(** [enum mem_block_status], stored in checkpoints as a 32 bit word. *)
Definition free_block : Z := 0.
Definition used_block : Z := 1.

(** [struct dimes_buf_block], without the links of the list it is in. *)
Record dimes_buf_block := Block {
  block_size : Z;
  block_ptr : Z;
  block_status : Z }.

(** The global variables of the allocator. *)
Record dimes_buffer := Buffer {
  dimes_buffer_ptr : Z;
  dimes_buffer_size : Z;
  free_blocks_list : list dimes_buf_block;
  used_blocks_list : list dimes_buf_block }.

(** ** The block lists *)

(** Insertion before the first block that is at least as large. *)
Fixpoint dimes_buf_insert_block (block : dimes_buf_block) (l : list dimes_buf_block)
    : list dimes_buf_block :=
  match l with
  | [] => [block]
  | mb :: l' =>
      if block_size block <=? block_size mb then block :: l
      else mb :: dimes_buf_insert_block block l'
  end.

(** The position the scanning loop leaves in a variable it assigns at every
    match: the last match. *)
Fixpoint last_index (p : dimes_buf_block -> bool) (l : list dimes_buf_block)
    : option nat :=
  match l with
  | [] => None
  | mb :: l' =>
      match last_index p l' with
      | Some i => Some (S i)
      | None => if p mb then Some O else None
      end
  end.

(** [list_del] of the node at a position. *)
Definition list_del (i : option nat) (l : list dimes_buf_block) : list dimes_buf_block :=
  match i with Some i => delete i l | None => l end.

(** Where the node at position [j] stands once the one at [i] is deleted. *)
Definition after_del (i j : option nat) : option nat :=
  match i, j with
  | Some i, Some j => if (i <? j)%nat then Some (pred j) else Some j
  | _, _ => j
  end.

Definition merge_after (block : dimes_buf_block) (a : option dimes_buf_block)
    : dimes_buf_block :=
  match a with
  | Some a => Block (u64 (block_size block + block_size a)) (block_ptr block)
                    (block_status block)
  | None => block
  end.

Definition merge_before (block : dimes_buf_block) (b : option dimes_buf_block)
    : dimes_buf_block :=
  match b with
  | Some b => Block (u64 (block_size block + block_size b)) (block_ptr b)
                    (block_status block)
  | None => block
  end.

Definition ends_at (p : Z) (mb : dimes_buf_block) : bool :=
  p =? block_ptr mb + block_size mb.

Definition starts_at (p : Z) (mb : dimes_buf_block) : bool := block_ptr mb =? p.

Definition dimes_buf_insert_block_to_freelist (block : dimes_buf_block)
    (l : list dimes_buf_block) : list dimes_buf_block :=
  let before := last_index (ends_at (block_ptr block)) l in
  let after := last_index (starts_at (block_ptr block + block_size block)) l in
  let block1 := merge_after block (i ← after; l !! i) in
  let block2 := merge_before block1 (j ← before; l !! j) in
  let l1 := list_del after l in
  let l2 := list_del (after_del after before) l1 in
  dimes_buf_insert_block
    (Block (block_size block2) (block_ptr block2) free_block) l2.

(** ** The operations *)

Definition dimes_buffer_init (base_addr size : Z) (s : dimes_buffer) : dimes_buffer * Z :=
  if base_addr =? 0 then
    (Buffer base_addr (dimes_buffer_size s) [] [], -1)
  else
    (Buffer base_addr size
       (dimes_buf_insert_block (Block size base_addr free_block) []) [], 0).

(** The two lists are emptied; pointer and size keep their values. *)
Definition dimes_buffer_finalize (s : dimes_buffer) : dimes_buffer * Z :=
  (Buffer (dimes_buffer_ptr s) (dimes_buffer_size s) [] [], 0).

Definition dimes_buffer_total_size (s : dimes_buffer) : Z := dimes_buffer_size s.

(** The answer is the value stored in [*ptr], 0 for [NULL]. *)
Definition dimes_buffer_alloc (size : Z) (s : dimes_buffer) : dimes_buffer * Z :=
  if dimes_buffer_size s <? size then (s, 0)
  else
    match list_find (fun mb => size <= block_size mb) (free_blocks_list s) with
    | None => (s, 0)
    | Some (i, mb) =>
        let free1 := delete i (free_blocks_list s) in
        let new_used := Block size (block_ptr mb) used_block in
        let free2 :=
          if size <? block_size mb then
            dimes_buf_insert_block
              (Block (u64 (block_size mb - size)) (block_ptr mb + size) free_block) free1
          else free1 in
        (Buffer (dimes_buffer_ptr s) (dimes_buffer_size s) free2
           (dimes_buf_insert_block new_used (used_blocks_list s)),
         block_ptr mb)
    end.

Definition dimes_buffer_free (ptr : Z) (s : dimes_buffer) : dimes_buffer :=
  if (ptr =? 0) || (dimes_buffer_ptr s =? 0) then s
  else if (ptr <? dimes_buffer_ptr s)
          || (dimes_buffer_ptr s + dimes_buffer_size s - 1 <? ptr) then s
  else
    match list_find (fun mb => block_ptr mb = ptr) (used_blocks_list s) with
    | None => s
    | Some (i, mb) =>
        Buffer (dimes_buffer_ptr s) (dimes_buffer_size s)
          (dimes_buf_insert_block_to_freelist mb (free_blocks_list s))
          (delete i (used_blocks_list s))
    end.

(** ** Checkpoint and restart

    The restart buffer holds a packed [struct dimes_cr_allocator_info] (12
    bytes) and one packed [struct dimes_cr_allocator_block_info] (20 bytes)
    per block, free blocks first. *)

Definition sizeof_allocator_info : nat := 12.
Definition sizeof_block_info : nat := 20.

Definition block_info (base : Z) (mb : dimes_buf_block) : list Z :=
  le_bytes 8 (block_size mb) ++ le_bytes 8 (u64 (block_ptr mb - base))
  ++ le_bytes 4 (u32 (block_status mb)).

Definition dimes_client_shmem_checkpoint_allocator (shmem_obj_id : Z) (s : dimes_buffer)
    : list Z :=
  let base := dimes_buffer_ptr s in
  le_bytes 4 (u32 (Z.of_nat (length (used_blocks_list s))))
  ++ le_bytes 4 (u32 (Z.of_nat (length (free_blocks_list s))))
  ++ le_bytes 4 (u32 shmem_obj_id)
  ++ concat (map (block_info base) (free_blocks_list s))
  ++ concat (map (block_info base) (used_blocks_list s)).

Definition restart_allocator_insert_block (base : Z) (buf : list Z)
    (l : list dimes_buf_block) : list dimes_buf_block :=
  l ++ [Block (le_val (take 8 buf)) (base + le_val (take 8 (drop 8 buf)))
          (le_val (take 4 (drop 8 (drop 8 buf))))].

(** [n] records read from the buffer; the rest of the buffer is returned. *)
Fixpoint restart_blocks (base : Z) (n : nat) (buf : list Z) (l : list dimes_buf_block)
    : list dimes_buf_block * list Z :=
  match n with
  | O => (l, buf)
  | S n' =>
      restart_blocks base n' (drop sizeof_block_info buf)
        (restart_allocator_insert_block base buf l)
  end.

Definition dimes_client_shmem_restart_allocator (restart_buf : list Z) (s : dimes_buffer)
    : dimes_buffer * Z :=
  let base := dimes_buffer_ptr s in
  let num_used_blocks := le_val (take 4 restart_buf) in
  let num_free_blocks := le_val (take 4 (drop 4 restart_buf)) in
  let buf := drop sizeof_allocator_info restart_buf in
  let '(free, buf1) :=
    restart_blocks base (Z.to_nat num_free_blocks) buf (free_blocks_list s) in
  let '(used, _) :=
    restart_blocks base (Z.to_nat num_used_blocks) buf1 (used_blocks_list s) in
  (Buffer base (dimes_buffer_size s) free used, 0).

(** The bytes a checkpoint needs, rounded up to whole pages. *)
Definition estimate_allocator_restart_buf_size (page_size : Z) (s : dimes_buffer) : Z :=
  let bytes :=
    u64 (Z.of_nat sizeof_allocator_info
         + Z.of_nat sizeof_block_info
           * u32 (Z.of_nat (length (free_blocks_list s))
                  + Z.of_nat (length (used_blocks_list s)))) in
  u64 ((bytes / page_size + 1) * page_size).

(** The allocator part of [dimes_client_shmem_restart]: the buffer is
    initialised on the reopened segment, then the checkpoint is read. *)
Definition shmem_restart_buffer (base size : Z) (restart_buf : list Z) (s : dimes_buffer)
    : dimes_buffer :=
  (dimes_client_shmem_restart_allocator restart_buf
     (dimes_buffer_init base size s).1).1.

(** ** The block lists: lemmas *)

Definition by_size (a b : dimes_buf_block) : Prop := block_size a <= block_size b.

#[export] Instance by_size_trans : Transitive by_size.
Proof. unfold by_size. intros ???. lia. Qed.

Lemma insert_block_perm b l : dimes_buf_insert_block b l ≡ₚ b :: l.
Proof.
  induction l as [|mb l IH]; simpl; [done|]. case_if; [done|].
  rewrite IH. apply Permutation_swap.
Qed.

Lemma insert_block_sorted b l :
  StronglySorted by_size l -> StronglySorted by_size (dimes_buf_insert_block b l).
Proof.
  induction 1 as [|mb l Hl IH Hmb]; simpl; [repeat constructor|].
  case_if; zbool.
  - constructor; [by constructor|]. constructor; [done|].
    eapply Forall_impl; [exact Hmb|]. intros x Hx. unfold by_size in *. lia.
  - constructor; [done|]. rewrite insert_block_perm. constructor; [|done].
    unfold by_size. lia.
Qed.

Lemma delete_sorted i l : StronglySorted by_size l -> StronglySorted by_size (delete i l).
Proof.
  intros Hl. revert i. induction Hl as [|mb l Hl IH Hmb]; intros [|i]; simpl; try done.
  - constructor.
  - constructor.
  - constructor; [apply IH|]. by apply Forall_delete.
Qed.

Lemma last_index_Some p l i :
  last_index p l = Some i -> exists x, l !! i = Some x /\ p x = true.
Proof.
  revert i. induction l as [|mb l IH]; intros i; simpl; [done|].
  destruct (last_index p l) as [j|] eqn:E.
  - intros [= <-]. by apply IH.
  - destruct (p mb) eqn:Ep; intros [= <-]. eauto.
Qed.

Lemma last_index_None p l x : last_index p l = None -> x ∈ l -> p x = false.
Proof.
  induction l as [|mb l IH]; simpl; [intros _ []%not_elem_of_nil|].
  destruct (last_index p l) as [j|] eqn:E; [done|].
  destruct (p mb) eqn:Ep; [done|]. intros _ [->|Hx]%elem_of_cons; auto.
Qed.

(** The node a scan found, and the list without it. *)
Lemma scan_cases p l :
  (exists i x, last_index p l = Some i /\ l !! i = Some x /\ p x = true)
  \/ (last_index p l = None /\ forall x, x ∈ l -> p x = false).
Proof.
  destruct (last_index p l) as [i|] eqn:E.
  - left. destruct (last_index_Some _ _ _ E) as (x & ? & ?). eauto.
  - right. split; [done|]. intros x. by apply last_index_None.
Qed.

Lemma after_del_lookup (l : list dimes_buf_block) i j b :
  i <> j -> l !! j = Some b ->
  exists k, after_del (Some i) (Some j) = Some k /\ delete i l !! k = Some b.
Proof.
  intros Hij Hj. simpl. destruct (Nat.ltb_spec i j).
  - exists (pred j). split; [done|]. rewrite list_lookup_delete_ge by lia.
    by replace (S (pred j)) with j by lia.
  - exists j. split; [done|]. by rewrite list_lookup_delete_lt by lia.
Qed.

(** ** Tilings

    [chain a l e]: the blocks of [l], in this order, fill the addresses
    from [a] to [e] without gap or overlap. *)

Fixpoint chain (a : Z) (l : list dimes_buf_block) (e : Z) : Prop :=
  match l with
  | [] => a = e
  | b :: l' => block_ptr b = a /\ 0 < block_size b /\ chain (a + block_size b) l' e
  end.

Definition block_end (b : dimes_buf_block) : Z := block_ptr b + block_size b.

Lemma chain_app l1 l2 a e :
  chain a (l1 ++ l2) e <-> exists m, chain a l1 m /\ chain m l2 e.
Proof.
  revert a. induction l1 as [|b l1 IH]; intros a; simpl.
  - split; [eauto|]. by intros (m & -> & ?).
  - rewrite IH. firstorder.
Qed.

Lemma chain_le l a e : chain a l e -> a <= e.
Proof.
  revert a. induction l as [|x l IH]; simpl; intros a; [lia|].
  intros (? & ? & ?%IH). lia.
Qed.

Lemma chain_mem l a e b :
  chain a l e -> b ∈ l -> a <= block_ptr b /\ 0 < block_size b /\ block_end b <= e.
Proof.
  revert a. induction l as [|x l IH]; intros a; [by intros _ []%not_elem_of_nil|].
  intros (Hp & Hs & Hl) Hb.
  assert (Hle := chain_le _ _ _ Hl).
  unfold block_end in *. apply elem_of_cons in Hb as [->|Hb]; [lia|].
  specialize (IH _ Hl Hb). lia.
Qed.

(** Two blocks of a tiling with a common address are the same block. *)
Lemma chain_disjoint l a e x y :
  chain a l e -> x ∈ l -> y ∈ l ->
  x = y \/ block_end x <= block_ptr y \/ block_end y <= block_ptr x.
Proof.
  revert a. induction l as [|b l IH]; intros a; [by intros _ []%not_elem_of_nil|].
  intros (Hp & Hs & Hl) Hx Hy.
  apply elem_of_cons in Hx as [->|Hx]; apply elem_of_cons in Hy as [->|Hy].
  - by left.
  - pose proof (chain_mem _ _ _ _ Hl Hy). unfold block_end. lia.
  - pose proof (chain_mem _ _ _ _ Hl Hx). unfold block_end. lia.
  - eauto.
Qed.

(** Every address of the buffer is in a block. *)
Lemma chain_cover l a e p :
  chain a l e -> a <= p < e -> exists b, b ∈ l /\ block_ptr b <= p < block_end b.
Proof.
  revert a. induction l as [|b l IH]; simpl; intros a; [lia|].
  intros (Hp & Hs & Hl) Hr. destruct (decide (p < a + block_size b)).
  - exists b. unfold block_end. split; [by left|lia].
  - destruct (IH _ Hl) as (c & ? & ?); [lia|]. exists c. split; [by right|done].
Qed.

(** The block that starts where another one ends is the next one. *)
Lemma chain_next l1 b l2 a e c :
  chain a (l1 ++ b :: l2) e -> c ∈ l1 ++ b :: l2 -> block_ptr c = block_end b ->
  exists l2', l2 = c :: l2'.
Proof.
  intros (m & H1 & Hp & Hs & H2)%chain_app Hc He. unfold block_end in He.
  apply elem_of_app in Hc as [Hc|Hc].
  { pose proof (chain_mem _ _ _ _ H1 Hc). unfold block_end in *. lia. }
  apply elem_of_cons in Hc as [->|Hc]; [lia|].
  destruct l2 as [|d l2]; [by apply not_elem_of_nil in Hc|].
  apply elem_of_cons in Hc as [->|Hc]; [eauto|].
  destruct H2 as (? & ? & H2). pose proof (chain_mem _ _ _ _ H2 Hc). lia.
Qed.

Lemma chain_prev l1 b l2 a e c :
  chain a (l1 ++ b :: l2) e -> c ∈ l1 ++ b :: l2 -> block_end c = block_ptr b ->
  exists l1', l1 = l1' ++ [c].
Proof.
  intros (m & H1 & Hp & Hs & H2)%chain_app Hc He.
  apply elem_of_app in Hc as [Hc|Hc].
  - apply list_elem_of_split in Hc as (k1 & k2 & ->).
    apply chain_app in H1 as (m1 & Hk1 & Hc1 & Hc2 & Hk2).
    destruct k2 as [|d k2]; [by eexists|].
    destruct Hk2 as (Hd1 & Hd2 & Hd3). pose proof (chain_le _ _ _ Hd3).
    unfold block_end in He. lia.
  - apply elem_of_cons in Hc as [->|Hc]; [unfold block_end in He; lia|].
    pose proof (chain_mem _ _ _ _ H2 Hc). unfold block_end in *. lia.
Qed.

(** ** The invariant *)

(** The free and the used blocks together tile the buffer ([inv_tile]), no
    free block ends where another one starts ([inv_coal]), each list holds
    the blocks of its status in ascending size, and the buffer lies in the
    address space. *)
Record buf_inv (s : dimes_buffer) : Prop := {
  inv_base : 0 < dimes_buffer_ptr s;
  inv_size : 0 < dimes_buffer_size s;
  inv_top : dimes_buffer_ptr s + dimes_buffer_size s <= 2 ^ 64;
  inv_tile : exists l,
    l ≡ₚ free_blocks_list s ++ used_blocks_list s
    /\ chain (dimes_buffer_ptr s) l (dimes_buffer_ptr s + dimes_buffer_size s);
  inv_coal : forall a b : dimes_buf_block,
    a ∈ free_blocks_list s -> b ∈ free_blocks_list s -> block_end a <> block_ptr b;
  inv_free : Forall (fun b => block_status b = free_block) (free_blocks_list s);
  inv_used : Forall (fun b => block_status b = used_block) (used_blocks_list s);
  inv_free_sorted : StronglySorted by_size (free_blocks_list s);
  inv_used_sorted : StronglySorted by_size (used_blocks_list s) }.

(** The tiling cut at one of its blocks, [B] being the other blocks. *)
Lemma tile_cut l B b a e :
  l ≡ₚ b :: B -> chain a l e ->
  exists l1 l2, l1 ++ l2 ≡ₚ B /\ chain a l1 (block_ptr b) /\ 0 < block_size b
    /\ chain (block_end b) l2 e.
Proof.
  intros Hl Hc. assert (Hb : b ∈ l) by (rewrite Hl; by left).
  apply list_elem_of_split in Hb as (l1 & l2 & ->). exists l1, l2.
  apply chain_app in Hc as (m & H1 & H2 & H3 & H4). subst m.
  split; [|done]. apply (Permutation_cons_inv (a := b)). by rewrite Permutation_middle.
Qed.

Lemma tile_disjoint l B b c a e :
  l ≡ₚ b :: B -> chain a l e -> c ∈ B ->
  0 < block_size c /\ (block_end c <= block_ptr b \/ block_end b <= block_ptr c).
Proof.
  intros Hl Hc Hin. destruct (tile_cut _ _ _ _ _ Hl Hc) as (l1 & l2 & Hp & H1 & ? & H2).
  rewrite <- Hp in Hin. apply elem_of_app in Hin as [Hin|Hin].
  - pose proof (chain_mem _ _ _ _ H1 Hin). lia.
  - pose proof (chain_mem _ _ _ _ H2 Hin). lia.
Qed.

Lemma buf_init_inv base size s :
  0 < base -> 0 < size -> base + size <= 2 ^ 64 ->
  buf_inv (dimes_buffer_init base size s).1.
Proof.
  intros Hb Hs Ht. unfold dimes_buffer_init. rewrite (proj2 (Z.eqb_neq base 0)) by lia.
  split; simpl; try done; try (repeat constructor; done).
  - exists [Block size base free_block]. simpl. repeat split; done || lia.
  - intros a b ->%list_elem_of_singleton ->%list_elem_of_singleton.
    unfold block_end. simpl. lia.
Qed.

(** The block an allocation takes is replaced by its two parts. *)
Lemma carve_inv base size F F' U (mb : dimes_buf_block) n :
  buf_inv (Buffer base size F U) -> F ≡ₚ mb :: F' -> StronglySorted by_size F' ->
  0 < n < block_size mb ->
  buf_inv (Buffer base size
    (dimes_buf_insert_block
       (Block (u64 (block_size mb - n)) (block_ptr mb + n) free_block) F')
    (dimes_buf_insert_block (Block n (block_ptr mb) used_block) U)).
Proof.
  intros [Hb Hs Ht (l & Hl & Hc) Hco Hf Hu Hfs Hus] HF Hdel Hn; simpl in *.
  rewrite HF in Hl, Hf. simpl in Hl.
  assert (Hmem : forall c, c ∈ mb :: F' -> c ∈ F) by (intros c; by rewrite HF).
  assert (Hdis := fun c => tile_disjoint _ _ _ c _ _ Hl Hc).
  pose proof (chain_mem _ _ _ mb Hc ltac:(rewrite Hl; by left)) as Hmr.
  unfold block_end in *. rewrite (u64_small (block_size mb - n)) by lia.
  destruct (tile_cut _ _ _ _ _ Hl Hc) as (l1 & l2 & Hp & H1 & H2 & H3).
  split; simpl; rewrite ?insert_block_perm; try done; auto using insert_block_sorted.
  - exists (l1 ++ Block n (block_ptr mb) used_block
               :: Block (block_size mb - n) (block_ptr mb + n) free_block :: l2).
    split.
    + rewrite !insert_block_perm, <- !Permutation_middle, Hp. simpl.
      solve_Permutation.
    + apply chain_app. exists (block_ptr mb). simpl. repeat split; try done; try lia.
      by replace (block_ptr mb + n + (block_size mb - n)) with (block_end mb)
        by (unfold block_end; lia).
  - intros x y. rewrite insert_block_perm.
    intros [->|Hx]%elem_of_cons [->|Hy]%elem_of_cons; unfold block_end in *; simpl.
    + lia.
    + pose proof (Hco mb y (Hmem _ ltac:(by left)) (Hmem _ ltac:(by right))). lia.
    + destruct (Hdis x); [apply elem_of_app; by left|lia].
    + apply Hco; apply Hmem; by right.
  - constructor; [done|]. by inversion Hf.
Qed.

(** A block of exactly the size asked for changes lists. *)
Lemma take_inv base size F F' U (mb : dimes_buf_block) :
  buf_inv (Buffer base size F U) -> F ≡ₚ mb :: F' -> StronglySorted by_size F' ->
  buf_inv (Buffer base size F'
    (dimes_buf_insert_block (Block (block_size mb) (block_ptr mb) used_block) U)).
Proof.
  intros [Hb Hs Ht (l & Hl & Hc) Hco Hf Hu Hfs Hus] HF Hdel; simpl in *.
  rewrite HF in Hl, Hf. simpl in Hl.
  destruct (tile_cut _ _ _ _ _ Hl Hc) as (l1 & l2 & Hp & H1 & H2 & H3).
  split; simpl; rewrite ?insert_block_perm; try done; auto using insert_block_sorted.
  - exists (l1 ++ Block (block_size mb) (block_ptr mb) used_block :: l2). split.
    + by rewrite insert_block_perm, <- !Permutation_middle, Hp.
    + apply chain_app. exists (block_ptr mb). done.
  - intros x y Hx Hy. apply Hco; rewrite HF; by right.
  - by inversion Hf.
Qed.

Lemma alloc_inv n s : buf_inv s -> 0 < n -> buf_inv (dimes_buffer_alloc n s).1.
Proof.
  destruct s as [base size F U]. intros Hi Hn. unfold dimes_buffer_alloc. simpl.
  case_if; [done|].
  destruct (list_find _ F) as [[i mb]|] eqn:Ef; [|done].
  apply list_find_Some in Ef as (Hi' & Hle & _). simpl.
  assert (HF := delete_Permutation _ _ _ Hi').
  assert (Hd : StronglySorted by_size (delete i F)) by (apply delete_sorted, Hi).
  case_if; zbool.
  - eapply carve_inv; eauto.
  - replace n with (block_size mb) by lia. by eapply take_inv.
Qed.

(** What the merging step removes from the free list and what it adds. *)
Definition osize (o : option dimes_buf_block) : Z := from_option block_size 0 o.

Lemma freelist_shape mb F :
  0 < block_size mb -> (forall x, x ∈ F -> 0 < block_size x) ->
  exists oa ob F',
    F ≡ₚ option_list oa ++ option_list ob ++ F'
    /\ (StronglySorted by_size F -> StronglySorted by_size F')
    /\ dimes_buf_insert_block_to_freelist mb F
       = dimes_buf_insert_block
           (Block (block_size (merge_before (merge_after mb oa) ob))
                  (block_ptr (merge_before (merge_after mb oa) ob)) free_block) F'
    /\ match oa with
       | Some a => block_ptr a = block_end mb
       | None => forall x, x ∈ F -> block_ptr x <> block_end mb
       end
    /\ match ob with
       | Some b => block_end b = block_ptr mb
       | None => forall x, x ∈ F -> block_end x <> block_ptr mb
       end.
Proof.
  intros Hmb HF. unfold dimes_buf_insert_block_to_freelist.
  destruct (scan_cases (starts_at (block_ptr mb + block_size mb)) F)
    as [(i & a & Ei & Hi & Ha)|[Ei Hna]];
  destruct (scan_cases (ends_at (block_ptr mb)) F) as [(j & b & Ej & Hj & Hb)|[Ej Hnb]];
  rewrite Ei, Ej; simpl; rewrite ?Hi, ?Hj; unfold starts_at, ends_at, block_end in *; zbool.
  - assert (Hij : i <> j).
    { intros ->. rewrite Hi in Hj. injection Hj as ->.
      pose proof (HF b ltac:(by eapply list_elem_of_lookup_2)). lia. }
    destruct (after_del_lookup F i j b Hij Hj) as (k & Ek & Hk). simpl in Ek.
    rewrite Ek. exists (Some a), (Some b), (delete k (delete i F)). simpl.
    split; [by rewrite <- (delete_Permutation _ _ _ Hk), <- (delete_Permutation _ _ _ Hi)|].
    auto using delete_sorted.
  - exists (Some a), None, (delete i F). simpl.
    split; [by rewrite <- (delete_Permutation _ _ _ Hi)|].
    repeat split; auto using delete_sorted. intros x Hx. specialize (Hnb x Hx). zbool. lia.
  - exists None, (Some b), (delete j F). simpl.
    split; [by rewrite <- (delete_Permutation _ _ _ Hj)|].
    repeat split; auto using delete_sorted. intros x Hx. specialize (Hna x Hx). zbool. lia.
  - exists None, None, F. simpl. repeat split; auto;
      intros x Hx; specialize (Hna x Hx); specialize (Hnb x Hx); zbool; lia.
Qed.

Lemma u64_add3 a b c :
  0 <= a + b -> 0 <= c -> a + b + c < 2 ^ 64 -> u64 (u64 (a + b) + c) = a + b + c.
Proof. intros. rewrite (u64_small (a + b)), u64_small; lia. Qed.

(** In the tiling the merged blocks are the neighbours of [mb]. *)
Lemma merge_tile mb F U' oa ob F' l a e :
  l ≡ₚ mb :: F ++ U' -> chain a l e -> 0 < a -> e <= 2 ^ 64 ->
  F ≡ₚ option_list oa ++ option_list ob ++ F' ->
  match oa with Some x => block_ptr x = block_end mb | None => True end ->
  match ob with Some x => block_end x = block_ptr mb | None => True end ->
  let m := merge_before (merge_after mb oa) ob in
  block_size m = block_size mb + osize oa + osize ob
  /\ block_ptr m = block_ptr mb - osize ob
  /\ 0 < block_size m
  /\ exists l1 l2, l1 ++ l2 ≡ₚ F' ++ U'
       /\ chain a l1 (block_ptr m) /\ chain (block_end m) l2 e.
Proof.
  intros Hl Hc Ha He HF Hoa Hob m.
  destruct (tile_cut _ _ _ _ _ Hl Hc) as (l1 & l2 & Hp & H1 & Hs & H2).
  assert (Hin : forall x, x ∈ option_list oa ++ option_list ob -> x ∈ l1 ++ mb :: l2).
  { intros x Hx. rewrite <- Permutation_middle, Hp, HF. rewrite elem_of_cons, !elem_of_app.
    apply elem_of_app in Hx. tauto. }
  assert (Hfull : chain a (l1 ++ mb :: l2) e) by (apply chain_app; by eexists).
  assert (HA : exists l2', l2 = option_list oa ++ l2').
  { destruct oa as [x|]; [|by exists l2]. simpl.
    destruct (chain_next _ _ _ _ _ x Hfull) as (k & ->);
      [apply Hin, elem_of_app; left; by left|done|by exists k]. }
  assert (HB : exists l1', l1 = l1' ++ option_list ob).
  { destruct ob as [x|]; [|exists l1; by rewrite app_nil_r]. simpl.
    destruct (chain_prev _ _ _ _ _ x Hfull) as (k & ->);
      [apply Hin, elem_of_app; right; by left|done|by exists k]. }
  destruct HA as (k2 & ->), HB as (k1 & ->).
  assert (Hk : k1 ++ k2 ≡ₚ F' ++ U').
  { apply (Permutation_app_inv_l (option_list oa ++ option_list ob)).
    transitivity (F ++ U'); [rewrite <- Hp|rewrite HF];
      clear; solve_Permutation. }
  apply chain_app in H1 as (p & Hk1 & Hp1). apply chain_app in H2 as (q & Hq2 & Hk2).
  assert (Hpq : p = block_ptr mb - osize ob /\ q = block_end mb + osize oa
                /\ 0 <= osize oa /\ 0 <= osize ob).
  { unfold osize. destruct oa, ob; simpl in *; lia. }
  pose proof (chain_le _ _ _ Hk1). pose proof (chain_le _ _ _ Hk2).
  assert (Hm : block_size m = block_size mb + osize oa + osize ob
               /\ block_ptr m = block_ptr mb - osize ob).
  { unfold m, osize, block_end in *. destruct oa as [x|], ob as [y|]; simpl in *;
      rewrite ?u64_add3, ?u64_small; lia. }
  destruct Hm as [Hm1 Hm2]. split; [done|]. split; [done|]. split; [lia|].
  exists k1, k2. split; [done|].
  replace (block_end m) with q by (unfold block_end in *; lia).
  by replace (block_ptr m) with p by lia.
Qed.

Lemma release_inv base size F U U' mb :
  buf_inv (Buffer base size F U) -> U ≡ₚ mb :: U' -> StronglySorted by_size U' ->
  buf_inv (Buffer base size (dimes_buf_insert_block_to_freelist mb F) U').
Proof.
  intros [Hb Hs Ht (l & Hl & Hc) Hco Hf Hu Hfs Hus] HU Hdel; simpl in *.
  rewrite HU in Hl, Hu. rewrite <- Permutation_middle in Hl.
  assert (Hpos : forall x, x ∈ mb :: F -> 0 < block_size x).
  { intros x Hx. apply (chain_mem _ _ _ x Hc). rewrite Hl.
    apply elem_of_cons in Hx as [->|Hx]; [by left|right; apply elem_of_app; by left]. }
  destruct (freelist_shape mb F) as (oa & ob & F' & HF & Hsrt & -> & Hoa & Hob).
  { apply Hpos. by left. }
  { intros x Hx. apply Hpos. by right. }
  destruct (merge_tile mb F U' oa ob F' l base (base + size))
    as (Hm1 & Hm2 & Hm3 & l1 & l2 & Hp & H1 & H2); try done.
  { by destruct oa. } { by destruct ob. }
  set (m := merge_before (merge_after mb oa) ob) in *. clearbody m.
  assert (Hmem : forall x, x ∈ F' -> x ∈ F).
  { intros x Hx. rewrite HF, !elem_of_app. auto. }
  split; simpl; rewrite ?insert_block_perm; try done; auto using insert_block_sorted.
  - exists (l1 ++ Block (block_size m) (block_ptr m) free_block :: l2). split.
    + by rewrite insert_block_perm, <- !Permutation_middle, Hp.
    + apply chain_app. by exists (block_ptr m).
  - intros x y. rewrite insert_block_perm.
    intros [->|Hx]%elem_of_cons [->|Hy]%elem_of_cons; unfold block_end in *; simpl.
    + lia.
    + destruct oa as [a|]; simpl in Hm1.
      * intros E. apply (Hco a y); [rewrite HF; by left|auto|]. unfold block_end. lia.
      * specialize (Hoa y (Hmem y Hy)). lia.
    + destruct ob as [b|]; simpl in Hm2.
      * intros E. apply (Hco x b); [auto|rewrite HF, !elem_of_app; right; left; by left|].
        unfold block_end. lia.
      * specialize (Hob x (Hmem x Hx)). lia.
    + apply (Hco x y); auto.
  - constructor; [done|]. rewrite HF, !Forall_app in Hf. tauto.
  - by inversion Hu.
Qed.

Lemma free_inv p s : buf_inv s -> buf_inv (dimes_buffer_free p s).
Proof.
  destruct s as [base size F U]. intros Hi. unfold dimes_buffer_free. simpl.
  case_if; [done|]. case_if; [done|].
  destruct (list_find _ U) as [[i mb]|] eqn:Ef; [|done].
  apply list_find_Some in Ef as (Hi' & _ & _).
  eapply release_inv; [exact Hi|by apply delete_Permutation|apply delete_sorted, Hi].
Qed.

(** ** Sequences of calls *)

Inductive buf_op :=
| OpAlloc (size : Z)
| OpFree (ptr : Z).

Definition buf_step (s : dimes_buffer) (o : buf_op) : dimes_buffer :=
  match o with
  | OpAlloc n => (dimes_buffer_alloc n s).1
  | OpFree p => dimes_buffer_free p s
  end.

Definition op_ok (o : buf_op) : Prop :=
  match o with OpAlloc n => 0 < n | OpFree _ => True end.

Lemma steps_inv ops s : buf_inv s -> Forall op_ok ops -> buf_inv (fold_left buf_step ops s).
Proof.
  intros Hi Ho. revert s Hi. induction Ho as [|[n|p] ops Hop Ho IH]; intros s Hi; [done| |];
    apply IH; [by apply alloc_inv|by apply free_inv].
Qed.

(** C7: Whatever sequence of non-empty allocations and of frees (of any
    address) follows [dimes_buffer_init], the free and the used blocks tile
    the buffer exactly, no two neighbouring blocks are both free, and both
    lists are sorted by size. *)
Theorem dimes_buffer_tiled base size s0 ops :
  0 < base -> 0 < size -> base + size <= 2 ^ 64 -> Forall op_ok ops ->
  buf_inv (fold_left buf_step ops (dimes_buffer_init base size s0).1).
Proof. intros. apply steps_inv; [by apply buf_init_inv|done]. Qed.

Definition no_buffer : dimes_buffer := Buffer 0 0 [] [].

Definition demo_ops : list buf_op :=
  [OpAlloc 100; OpAlloc 300; OpAlloc 50; OpFree 4096; OpFree 4200; OpAlloc 120;
   OpFree 4496; OpFree 4096].

Lemma dimes_buffer_tiled_witness :
  buf_inv (fold_left buf_step demo_ops (dimes_buffer_init 4096 1000 no_buffer).1).
Proof.
  apply dimes_buffer_tiled; try lia. repeat constructor.
Defined.

(** ** What the operations do to the bytes of the buffer *)

(** The address belongs to a block that is in use. *)
Definition in_use (s : dimes_buffer) (p : Z) : Prop :=
  exists b, b ∈ used_blocks_list s /\ block_ptr b <= p < block_end b.

Definition in_buffer (s : dimes_buffer) (p n : Z) : Prop :=
  dimes_buffer_ptr s <= p /\ p + n <= dimes_buffer_ptr s + dimes_buffer_size s.

(** A stretch of unused addresses lies within one free block. *)
Lemma gap_in_block s p n :
  buf_inv s -> 0 < n -> in_buffer s p n ->
  (forall a, p <= a < p + n -> ~ in_use s a) ->
  exists b, b ∈ free_blocks_list s /\ block_ptr b <= p /\ p + n <= block_end b.
Proof.
  intros Hi Hn Hb Hg. destruct (inv_tile s Hi) as (l & Hl & Hc).
  assert (Hcov : forall a, p <= a < p + n ->
    exists b, b ∈ free_blocks_list s /\ block_ptr b <= a < block_end b).
  { intros a Ha. unfold in_buffer in Hb.
    destruct (chain_cover _ _ _ a Hc) as (b & Hbl & Hba); [lia|].
    rewrite Hl, elem_of_app in Hbl. destruct Hbl as [|Hbu]; [by eauto|].
    destruct (Hg a Ha). by exists b. }
  destruct (Hcov p) as (b & Hbf & Hbp); [lia|]. exists b. split; [done|].
  split; [lia|]. destruct (decide (p + n <= block_end b)) as [|Hlt]; [done|].
  destruct (Hcov (block_end b)) as (c & Hcf & Hcp); [lia|].
  pose proof (inv_coal s Hi b c Hbf Hcf).
  assert (Hmem : forall x, x ∈ free_blocks_list s -> x ∈ l)
    by (intros x Hx; rewrite Hl; apply elem_of_app; by left).
  pose proof (chain_mem _ _ _ _ Hc (Hmem b Hbf)).
  destruct (chain_disjoint _ _ _ b c Hc (Hmem b Hbf) (Hmem c Hcf)) as [->|[|]]; lia.
Qed.

Lemma in_use_insert s b F base size :
  forall a, in_use (Buffer base size F (dimes_buf_insert_block b (used_blocks_list s))) a
            <-> block_ptr b <= a < block_end b \/ in_use s a.
Proof.
  intros a. unfold in_use. simpl. setoid_rewrite insert_block_perm.
  setoid_rewrite elem_of_cons. split.
  - intros (c & [->|Hc] & Ha); [by left|right; by exists c].
  - intros [Ha|(c & Hc & Ha)]; [exists b|exists c]; auto.
Qed.

Lemma alloc_fails_no_gap s n q :
  buf_inv s -> 0 < n -> (forall b, b ∈ free_blocks_list s -> block_size b < n) ->
  in_buffer s q n -> exists a, q <= a < q + n /\ in_use s a.
Proof.
  intros Hi Hn Hsm Hq.
  destruct (decide (Exists (fun b => block_ptr b < q + n /\ q < block_end b)
                           (used_blocks_list s))) as [He|Hne].
  - apply list.Exists_exists in He as (b & Hb & Hlt).
    destruct (inv_tile s Hi) as (l & Hl & Hc).
    pose proof (chain_mem _ _ _ b Hc ltac:(rewrite Hl, elem_of_app; by right)).
    exists (Z.max q (block_ptr b)). unfold block_end in *. split; [lia|].
    exists b. split; [done|]. unfold block_end. lia.
  - destruct (gap_in_block s q n Hi Hn Hq) as (b & Hb & H1 & H2).
    + intros a Ha (b & Hb & Hab). apply Hne, list.Exists_exists. exists b. split; [done|lia].
    + specialize (Hsm b Hb). unfold block_end in *. lia.
Qed.

(** A free block holds no used byte. *)
Lemma free_not_used s b a :
  buf_inv s -> b ∈ free_blocks_list s -> block_ptr b <= a < block_end b -> ~ in_use s a.
Proof.
  intros Hi Hb Ha (c & Hc & Hca). destruct (inv_tile s Hi) as (l & Hl & Hch).
  destruct (chain_disjoint _ _ _ b c Hch) as [->|[|]];
    try (rewrite Hl, elem_of_app; by auto); [|lia|lia].
  pose proof (proj1 (list.Forall_forall _ _) (inv_free s Hi) c Hb).
  pose proof (proj1 (list.Forall_forall _ _) (inv_used s Hi) c Hc). simpl in *.
  unfold free_block, used_block in *. congruence.
Qed.

Lemma dimes_buffer_alloc_spec s n :
  buf_inv s -> 0 < n ->
  let '(s', p) := dimes_buffer_alloc n s in
  (p <> 0 /\ in_buffer s p n
   /\ (forall a, p <= a < p + n -> ~ in_use s a)
   /\ (forall a, in_use s' a <-> p <= a < p + n \/ in_use s a))
  \/ (p = 0 /\ s' = s
      /\ forall q, in_buffer s q n -> exists a, q <= a < q + n /\ in_use s a).
Proof.
  intros Hi Hn. unfold dimes_buffer_alloc.
  assert (Hbig : dimes_buffer_size s < n -> forall q, ~ in_buffer s q n)
    by (unfold in_buffer; lia).
  case_if; zbool.
  { right. repeat split; try done. intros q Hq. by destruct (Hbig E q). }
  destruct (list_find _ _) as [[i mb]|] eqn:Ef.
  - left. apply list_find_Some in Ef as (Hi' & Hle & _).
    apply list_elem_of_lookup_2 in Hi'.
    destruct (inv_tile s Hi) as (l & Hl & Hc).
    pose proof (chain_mem _ _ _ mb Hc ltac:(rewrite Hl, elem_of_app; by left)).
    pose proof (inv_base s Hi). unfold in_buffer, block_end in *.
    split; [lia|]. split; [lia|]. split.
    + intros a Ha. apply (free_not_used s mb); [done|done|unfold block_end; lia].
    + intros a. apply in_use_insert.
  - right. apply list_find_None in Ef. repeat split; try done. intros q.
    apply alloc_fails_no_gap; [done|done|]. intros b Hb.
    pose proof (proj1 (list.Forall_forall _ _) Ef b Hb). simpl in *. lia.
Qed.

(** An allocation either returns a stretch of [n] bytes inside the
    buffer of which none was in use, and marks exactly these bytes; or it
    returns [NULL], changes nothing, and every stretch of [n] bytes of the
    buffer contains a byte that is in use.  Best fit over merged free blocks
    never misses a gap. *)
Theorem dimes_buffer_alloc_correct s n :
  buf_inv s -> 0 < n ->
  let '(s', p) := dimes_buffer_alloc n s in
  (p <> 0 /\ in_buffer s p n
   /\ (forall a, p <= a < p + n -> ~ in_use s a)
   /\ (forall a, in_use s' a <-> p <= a < p + n \/ in_use s a))
  \/ (p = 0 /\ s' = s
      /\ forall q, in_buffer s q n -> exists a, q <= a < q + n /\ in_use s a).
Proof. apply dimes_buffer_alloc_spec. Qed.

Definition demo_buffer : dimes_buffer :=
  fold_left buf_step demo_ops (dimes_buffer_init 4096 1000 no_buffer).1.

Lemma demo_buffer_inv : buf_inv demo_buffer.
Proof. apply steps_inv; [apply buf_init_inv; lia|repeat constructor]. Qed.

Lemma dimes_buffer_alloc_correct_witness :
  let '(s', p) := dimes_buffer_alloc 60 demo_buffer in
  (p <> 0 /\ in_buffer demo_buffer p 60
   /\ (forall a, p <= a < p + 60 -> ~ in_use demo_buffer a)
   /\ (forall a, in_use s' a <-> p <= a < p + 60 \/ in_use demo_buffer a))
  \/ (p = 0 /\ s' = demo_buffer
      /\ forall q, in_buffer demo_buffer q 60 ->
           exists a, q <= a < q + 60 /\ in_use demo_buffer a).
Proof. apply (dimes_buffer_alloc_correct demo_buffer 60); [apply demo_buffer_inv|lia]. Defined.

(** A block in use passes the address checks of [dimes_buffer_free]. *)
Lemma used_range s b :
  buf_inv s -> b ∈ used_blocks_list s ->
  0 < block_size b /\ dimes_buffer_ptr s <= block_ptr b
  /\ block_end b <= dimes_buffer_ptr s + dimes_buffer_size s.
Proof.
  intros Hi Hb. destruct (inv_tile s Hi) as (l & Hl & Hc).
  pose proof (chain_mem _ _ _ b Hc ltac:(rewrite Hl, elem_of_app; by right)). lia.
Qed.

Lemma free_used s i b :
  buf_inv s -> list_find (fun mb => block_ptr mb = block_ptr b) (used_blocks_list s)
               = Some (i, b) ->
  dimes_buffer_free (block_ptr b) s
  = Buffer (dimes_buffer_ptr s) (dimes_buffer_size s)
      (dimes_buf_insert_block_to_freelist b (free_blocks_list s))
      (delete i (used_blocks_list s)).
Proof.
  intros Hi Hf. unfold dimes_buffer_free. rewrite Hf.
  apply list_find_Some in Hf as (Hl & _ & _). apply list_elem_of_lookup_2 in Hl.
  pose proof (used_range s b Hi Hl). pose proof (inv_base s Hi). unfold block_end in *.
  rewrite (proj2 (Z.eqb_neq _ 0)), (proj2 (Z.eqb_neq _ 0)),
    (proj2 (Z.ltb_ge _ _)), (proj2 (Z.ltb_ge _ _)) by lia. done.
Qed.

(** Freeing an address changes the state only when a block in use starts
    there; then exactly the bytes of that block stop being in use. *)
Theorem dimes_buffer_free_correct s p :
  buf_inv s ->
  (exists b, b ∈ used_blocks_list s /\ block_ptr b = p
     /\ forall a, in_use (dimes_buffer_free p s) a
                  <-> in_use s a /\ ~ (p <= a < block_end b))
  \/ (dimes_buffer_free p s = s /\ forall b, b ∈ used_blocks_list s -> block_ptr b <> p).
Proof.
  intros Hi.
  destruct (list_find (fun mb => block_ptr mb = p) (used_blocks_list s))
    as [[i b]|] eqn:Ef.
  - left. exists b. pose proof Ef as (Hl & Hp & _)%list_find_Some.
    pose proof (list_elem_of_lookup_2 _ _ _ Hl) as Hb. split; [done|]. split; [done|].
    subst p. rewrite (free_used s i b Hi Ef). unfold in_use. simpl.
    assert (HU := delete_Permutation _ _ _ Hl).
    destruct (inv_tile s Hi) as (l & Ht & Hc).
    rewrite HU, <- Permutation_middle in Ht. intros a.
    setoid_rewrite HU at 2. setoid_rewrite elem_of_cons. split.
    + intros (c & Hcin & Ha). split; [eauto|].
      destruct (tile_disjoint _ _ _ c _ _ Ht Hc); [apply elem_of_app; by right|lia].
    + intros [(c & [->|Hcin] & Ha) Hn]; [done|eauto].
  - right. apply list_find_None in Ef as Ef'. split.
    + unfold dimes_buffer_free. rewrite Ef. by repeat case_if.
    + intros b Hb. by apply (proj1 (list.Forall_forall _ _) Ef' b Hb).
Qed.

Lemma dimes_buffer_free_correct_witness :
  (exists b, b ∈ used_blocks_list demo_buffer /\ block_ptr b = 4196
     /\ forall a, in_use (dimes_buffer_free 4196 demo_buffer) a
                  <-> in_use demo_buffer a /\ ~ (4196 <= a < block_end b))
  \/ (dimes_buffer_free 4196 demo_buffer = demo_buffer
      /\ forall b, b ∈ used_blocks_list demo_buffer -> block_ptr b <> 4196).
Proof. apply (dimes_buffer_free_correct demo_buffer 4196), demo_buffer_inv. Defined.

(** With no block in use the free list is one block over the whole buffer. *)
Lemma all_free_whole s s0 :
  buf_inv s -> used_blocks_list s = [] ->
  s = (dimes_buffer_init (dimes_buffer_ptr s) (dimes_buffer_size s) s0).1.
Proof.
  intros Hi Hu. destruct s as [base size F U]; simpl in *. subst U.
  pose proof (inv_base _ Hi) as Hb. pose proof (inv_size _ Hi) as Hs.
  destruct (inv_tile _ Hi) as (l & Hl & Hc). simpl in *. rewrite app_nil_r in Hl.
  unfold dimes_buffer_init. rewrite (proj2 (Z.eqb_neq _ 0)) by lia. simpl. f_equal.
  destruct l as [|b [|c l]]; simpl in Hc; [lia| |].
  - apply Permutation_singleton_l in Hl as <-.
    destruct Hc as (<- & _ & Hc). destruct b as [sz p st]. simpl in *.
    pose proof (inv_free _ Hi) as Hf. inversion Hf as [|? ? Hst _]. simpl in Hst.
    rewrite Hst. do 2 f_equal. lia.
  - destruct (inv_coal _ Hi b c); simpl.
    + rewrite <- Hl. by left.
    + rewrite <- Hl. right. by left.
    + unfold block_end. lia.
Qed.

(** Freeing the blocks in use one after the other, whatever they are,
    gives back the state of a fresh [dimes_buffer_init]: no memory is lost
    to fragmentation. *)
Theorem dimes_buffer_free_all s s0 :
  buf_inv s ->
  fold_left (fun s p => dimes_buffer_free p s) (map block_ptr (used_blocks_list s)) s
  = (dimes_buffer_init (dimes_buffer_ptr s) (dimes_buffer_size s) s0).1.
Proof.
  intros Hi. remember (used_blocks_list s) as U eqn:HU. revert s Hi HU.
  induction U as [|b U IH]; intros s Hi HU; simpl.
  - by apply all_free_whole.
  - assert (Hf : list_find (fun mb => block_ptr mb = block_ptr b) (used_blocks_list s)
                 = Some (O, b)).
    { rewrite <- HU. simpl. by rewrite decide_True. }
    pose proof (free_inv (block_ptr b) s Hi) as Hi'.
    rewrite (free_used s O b Hi Hf) in Hi' |- *. rewrite <- HU in Hi' |- *. simpl in *.
    by rewrite (IH _ Hi' eq_refl).
Qed.

Lemma dimes_buffer_free_all_witness :
  fold_left (fun s p => dimes_buffer_free p s)
    (map block_ptr (used_blocks_list demo_buffer)) demo_buffer
  = (dimes_buffer_init 4096 1000 no_buffer).1.
Proof. apply (dimes_buffer_free_all demo_buffer no_buffer), demo_buffer_inv. Defined.

(** ** Checkpoint and restart: theorems *)

(** The block at the same offset of a segment mapped at [base']. *)
Definition relocate (base base' : Z) (b : dimes_buf_block) : dimes_buf_block :=
  Block (block_size b) (base' + (block_ptr b - base)) (block_status b).

Definition block_fits (base : Z) (b : dimes_buf_block) : Prop :=
  0 <= block_size b < 2 ^ 64 /\ 0 <= block_ptr b - base < 2 ^ 64
  /\ 0 <= block_status b < 2 ^ 32.

Lemma length_block_info base b : length (block_info base b) = sizeof_block_info.
Proof. unfold block_info. rewrite !length_app, !length_le_bytes. done. Qed.

Lemma restart_block_info base base' b buf l :
  block_fits base b ->
  restart_allocator_insert_block base' (block_info base b ++ buf) l
  = l ++ [relocate base base' b].
Proof.
  intros (H1 & H2 & H3). unfold restart_allocator_insert_block, block_info, relocate.
  rewrite <- !app_assoc, !drop_field, !le_field.
  - by rewrite (u64_small (block_ptr b - base)), (u32_small (block_status b)) by lia.
  - rewrite u32_small; lia.
  - rewrite u64_small; lia.
  - lia.
Qed.

Lemma restart_blocks_info base base' L buf l :
  Forall (block_fits base) L ->
  restart_blocks base' (length L) (concat (map (block_info base) L) ++ buf) l
  = (l ++ map (relocate base base') L, buf).
Proof.
  intros HL. revert l.
  induction HL as [|b L Hb HL IH]; intros l; cbn [length map concat restart_blocks].
  - by rewrite app_nil_r.
  - rewrite <- app_assoc, restart_block_info by done.
    rewrite drop_app_length' by (symmetry; apply length_block_info).
    rewrite IH, <- app_assoc. done.
Qed.

Lemma inv_fits s : buf_inv s ->
  Forall (block_fits (dimes_buffer_ptr s)) (free_blocks_list s ++ used_blocks_list s).
Proof.
  intros Hi. destruct (inv_tile s Hi) as (l & Hl & Hc).
  pose proof (inv_base s Hi). pose proof (inv_top s Hi).
  apply list.Forall_forall. intros b Hb.
  pose proof (chain_mem _ _ _ b Hc ltac:(by rewrite Hl)) as Hr.
  unfold block_fits, block_end in *. repeat split; try lia;
    apply elem_of_app in Hb as [Hb|Hb];
    [pose proof (proj1 (list.Forall_forall _ _) (inv_free s Hi) b Hb)
    |pose proof (proj1 (list.Forall_forall _ _) (inv_used s Hi) b Hb)
    |pose proof (proj1 (list.Forall_forall _ _) (inv_free s Hi) b Hb)
    |pose proof (proj1 (list.Forall_forall _ _) (inv_used s Hi) b Hb)];
    unfold free_block, used_block in *; simpl in *; lia.
Qed.

Definition counts_fit (s : dimes_buffer) : Prop :=
  Z.of_nat (length (free_blocks_list s)) < 2 ^ 32
  /\ Z.of_nat (length (used_blocks_list s)) < 2 ^ 32.

(** What reading a checkpoint does to the lists it finds. *)
Lemma restart_reads id s rest t :
  buf_inv s -> counts_fit s ->
  dimes_client_shmem_restart_allocator
    (dimes_client_shmem_checkpoint_allocator id s ++ rest) t
  = (Buffer (dimes_buffer_ptr t) (dimes_buffer_size t)
       (free_blocks_list t
        ++ map (relocate (dimes_buffer_ptr s) (dimes_buffer_ptr t)) (free_blocks_list s))
       (used_blocks_list t
        ++ map (relocate (dimes_buffer_ptr s) (dimes_buffer_ptr t)) (used_blocks_list s)),
     0).
Proof.
  intros Hi [Hnf Hnu]. pose proof (inv_fits s Hi) as [HF HU]%Forall_app.
  unfold dimes_client_shmem_restart_allocator, dimes_client_shmem_checkpoint_allocator.
  rewrite !u32_small by lia. rewrite <- !app_assoc.
  change sizeof_allocator_info with (4 + (4 + 4))%nat.
  rewrite <- !drop_drop, !drop_field, !le_field by lia.
  by rewrite !Nat2Z.id, !restart_blocks_info by done.
Qed.

(** A checkpoint of the allocator, read back from a restart buffer (of
    whatever length) into an allocator whose lists are empty, gives the same
    blocks, in the same order, at the same offsets of the segment wherever
    it is mapped now. *)
Theorem allocator_checkpoint_roundtrip id s rest base' :
  buf_inv s -> counts_fit s ->
  dimes_client_shmem_restart_allocator
    (dimes_client_shmem_checkpoint_allocator id s ++ rest)
    (Buffer base' (dimes_buffer_size s) [] [])
  = (Buffer base' (dimes_buffer_size s)
       (map (relocate (dimes_buffer_ptr s) base') (free_blocks_list s))
       (map (relocate (dimes_buffer_ptr s) base') (used_blocks_list s)), 0).
Proof. intros Hi Hn. by rewrite restart_reads. Qed.

Lemma allocator_checkpoint_roundtrip_witness :
  dimes_client_shmem_restart_allocator
    (dimes_client_shmem_checkpoint_allocator 3 demo_buffer ++ repeat 0 100)
    (Buffer 8192 1000 [] [])
  = (Buffer 8192 1000
       (map (relocate 4096 8192) (free_blocks_list demo_buffer))
       (map (relocate 4096 8192) (used_blocks_list demo_buffer)), 0).
Proof.
  apply (allocator_checkpoint_roundtrip 3 demo_buffer);
    [apply demo_buffer_inv|split; vm_compute; reflexivity].
Defined.

Lemma length_checkpoint id s :
  length (dimes_client_shmem_checkpoint_allocator id s)
  = (sizeof_allocator_info
     + sizeof_block_info * (length (free_blocks_list s) + length (used_blocks_list s)))%nat.
Proof.
  unfold dimes_client_shmem_checkpoint_allocator.
  assert (Hl : forall base L, length (concat (map (block_info base) L))
                         = (sizeof_block_info * length L)%nat).
  { intros base. induction L as [|b L IH]; [done|].
    cbn [length map concat]. rewrite length_app, length_block_info, IH. unfold sizeof_block_info. lia. }
  rewrite !length_app, !length_le_bytes, !Hl. unfold sizeof_allocator_info. lia.
Qed.

(** The restart buffer, sized by the estimate, is large enough. *)
Lemma checkpoint_fits page id s :
  0 < page < 2 ^ 32 ->
  Z.of_nat (length (free_blocks_list s) + length (used_blocks_list s)) < 2 ^ 32 ->
  Z.of_nat (length (dimes_client_shmem_checkpoint_allocator id s))
  < estimate_allocator_restart_buf_size page s.
Proof.
  intros Hp Hn. rewrite length_checkpoint. unfold estimate_allocator_restart_buf_size.
  rewrite u32_small by lia. set (bytes := Z.of_nat sizeof_allocator_info + _).
  assert (Hb : 0 <= bytes < 2 ^ 40)
    by (unfold bytes, sizeof_allocator_info, sizeof_block_info; lia).
  rewrite (u64_small bytes) by lia.
  pose proof (Z.div_mod bytes page). pose proof (Z.mod_pos_bound bytes page).
  rewrite u64_small by nia.
  assert (Z.of_nat (sizeof_allocator_info + sizeof_block_info
     * (length (free_blocks_list s) + length (used_blocks_list s))) = bytes)
    by (unfold bytes; lia).
  nia.
Qed.

(** [dimes_client_shmem_restart] first initialises the allocator and
    then appends the checkpointed blocks to its lists, so the block that
    covers the whole segment is still the first free one.  The next
    allocation, of any size up to that of the segment, returns the start of
    the segment, also when the bytes there belong to a restored object. *)
Theorem shmem_restart_hands_out_used id s rest base' s0 n :
  buf_inv s -> counts_fit s -> 0 < base' -> n <= dimes_buffer_size s ->
  let t := shmem_restart_buffer base' (dimes_buffer_size s)
             (dimes_client_shmem_checkpoint_allocator id s ++ rest) s0 in
  (dimes_buffer_alloc n t).2 = base'
  /\ (in_use s (dimes_buffer_ptr s) -> in_use t base').
Proof.
  intros Hi Hn Hb Hsz. unfold shmem_restart_buffer. rewrite restart_reads by done.
  unfold dimes_buffer_init. rewrite (proj2 (Z.eqb_neq _ 0)) by lia. simpl. split.
  - unfold dimes_buffer_alloc. simpl. rewrite (proj2 (Z.ltb_ge _ _)) by done.
    by rewrite decide_True.
  - intros (b & Hb' & Hab). exists (relocate (dimes_buffer_ptr s) base' b). simpl. split.
    + by apply list_elem_of_fmap_2.
    + unfold block_end in *. simpl. lia.
Qed.

Lemma shmem_restart_hands_out_used_witness :
  let s := (dimes_buffer_alloc 100 (dimes_buffer_init 4096 1000 no_buffer).1).1 in
  let t := shmem_restart_buffer 8192 1000
             (dimes_client_shmem_checkpoint_allocator 3 s ++ []) no_buffer in
  in_use s 4096
  /\ (dimes_buffer_alloc 100 t).2 = 8192 /\ (in_use s 4096 -> in_use t 8192).
Proof.
  split.
  - exists (Block 100 4096 used_block). split; [by left|unfold block_end; simpl; lia].
  - apply (shmem_restart_hands_out_used 3
             (dimes_buffer_alloc 100 (dimes_buffer_init 4096 1000 no_buffer).1).1
             [] 8192 no_buffer 100).
    + apply alloc_inv; [apply buf_init_inv; lia|lia].
    + split; vm_compute; reflexivity.
    + lia.
    + vm_compute. discriminate.
Defined.
End DimesBuf.
