(* ===== verification/DimesMeta.v ===== *)
(** * The DIMES server (src/dimes_data.c, src/dimes_server.c)

    A DIMES server keeps no data: it keeps, per version bin and variable, the
    locations of the objects clients have put, as the put requests
    themselves ([metadata_storage]), and answers [dimes_locate_data]
    requests with the table of matching requests.  This file models the
    store and the message handlers of the server.

    Theorems: the store refines a set of locations in which a put replaces
    the intersecting objects of the variable in its version bin; a location
    request is answered with exactly the stored locations that match it. *)

From S2P Require Import Prelude Bbox Matrix ObjDesc Storage.

#[local] Open Scope Z_scope.

(** ** Requests *)

Record dimes_obj_id := mk_oid { dart_id : Z; local_obj_index : Z }.

#[export] Instance dimes_obj_id_eq_dec : EqDecision dimes_obj_id.
Proof. solve_decision. Defined.

Definition equal_dimes_obj_id (oid1 oid2 : dimes_obj_id) : bool :=
  (dart_id oid1 =? dart_id oid2) && (local_obj_index oid1 =? local_obj_index oid2).

Record dimes_shmem_descriptor := mk_shd {
  shd_size : Z;
  shd_offset : Z;
  shd_obj_id : Z;
  shd_owner_node_rank : Z }.

(** [hdr_dimes_put]; the [ptlmap] of the sender, used by uGNI only, is left
    out. *)
Record hdr_dimes_put := mk_hdp {
  hp_obj_id : dimes_obj_id;
  hp_odsc : obj_descriptor;
  hp_has_shmem_data : bool;
  hp_shmem_desc : dimes_shmem_descriptor }.

(** A put request: its sender, the memory region the data are in (address
    and length) and the header in [pad]. *)
Record rpc_cmd := mk_cmd {
  cmd_id : Z;
  cmd_mr : Z * Z;
  cmd_pad : hdr_dimes_put }.

Definition cmd_odsc (c : rpc_cmd) : obj_descriptor := hp_odsc (cmd_pad c).

(** ** The metadata storage *)

Record var_list_node := mk_vn { vn_name : string; obj_location_list : list rpc_cmd }.

Record metadata_storage := mk_ms {
  ms_max_versions : Z;
  ms_version_tab : list (list var_list_node) }.

Definition metadata_s_alloc (max_versions : Z) : metadata_storage :=
  mk_ms max_versions (replicate (Z.to_nat max_versions) []).

(** Position of the node of the variable; a missing node is added in front. *)
Definition var_node_lookup (var_list : list var_list_node) (var_name : string)
    : list var_list_node * nat :=
  match list_find (fun n => vn_name n = var_name) var_list with
  | Some (j, _) => (var_list, j)
  | None => (mk_vn var_name [] :: var_list, O)
  end.

(** The bin and the node a version and a name lead to.  The version is
    passed as an [int]: a negative remainder indexes outside the table. *)
Definition obj_location_list_lookup (s : metadata_storage) (version : Z) (var_name : string)
    : option (metadata_storage * nat * nat) :=
  let index := Z.rem (s32 version) (ms_max_versions s) in
  if (index <? 0) || (ms_max_versions s =? 0) then None
  else
    l ← ms_version_tab s !! Z.to_nat index;
    let '(l, j) := var_node_lookup l var_name in
    Some (mk_ms (ms_max_versions s) (<[Z.to_nat index := l]> (ms_version_tab s)),
          Z.to_nat index, j).

(** The location list at a position, and its replacement. *)
Definition locations (s : metadata_storage) (i j : nat) : option (list rpc_cmd) :=
  l ← ms_version_tab s !! i; n ← l !! j; Some (obj_location_list n).

Definition set_locations (s : metadata_storage) (i j : nat) (locs : list rpc_cmd)
    : metadata_storage :=
  mk_ms (ms_max_versions s)
    (alter (alter (fun n => mk_vn (vn_name n) locs) j) i (ms_version_tab s)).

Definition metadata_s_add_obj_location (s : metadata_storage) (cmd : rpc_cmd)
    : option metadata_storage :=
  let odsc := cmd_odsc cmd in
  '(s, i, j) ← obj_location_list_lookup s (version odsc) (name odsc);
  locs ← locations s i j;
  let kept := filter (fun n => obj_desc_by_name_intersect odsc (cmd_odsc n) = false) locs in
  Some (set_locations s i j (cmd :: kept)).

(** The matches in the order of [out_list]: each one is added in front. *)
Definition metadata_s_find_obj_location (s : metadata_storage) (odsc : obj_descriptor)
    (out_list : list rpc_cmd) : option (metadata_storage * list rpc_cmd) :=
  '(s, i, j) ← obj_location_list_lookup s (version odsc) (name odsc);
  locs ← locations s i j;
  Some (s, rev (filter (fun n => obj_desc_equals_intersect odsc (cmd_odsc n) = true) locs)
           ++ out_list).

(** Every node and location is released; the table stays until [free(s)]. *)
Definition metadata_s_free (s : metadata_storage) : metadata_storage :=
  mk_ms (ms_max_versions s) (map (fun _ => []) (ms_version_tab s)).

(** ** The server *)

Record dimes_server := mk_dserver {
  ds_self : Z;                       (* DIMES_SID *)
  ds_size_hash : Z;                  (* dsg->ls->size_hash *)
  meta_store : metadata_storage }.

Definition set_meta (d : dimes_server) (s : metadata_storage) : dimes_server :=
  mk_dserver (ds_self d) (ds_size_hash d) s.

Record hdr_dimes_get := mk_hdg { hg_qid : Z; hg_odsc : obj_descriptor }.

(** The answer to a location request: its header and, when there are
    matches, the table the client transfers. *)
Record locate_reply := mk_lr {
  lr_id : Z;
  lr_qid : Z;
  lr_rc : Z;
  lr_num_obj : Z;
  lr_tab : list rpc_cmd }.

(** Allocations and transport during one call. *)
Record dserver_env := mk_dsenv {
  de_msg : bool;                     (* msg_buf_alloc *)
  de_tab : bool;                     (* malloc of the table *)
  de_send : Z -> locate_reply -> Z   (* rpc_send *) }.

(** The new state, the reply sent if any, and the return code.  [err] keeps
    the value of the last call: an allocation that fails after a successful
    search returns 0. *)
Definition locate_data (env : dserver_env) (d : dimes_server) (cmd_id : Z)
    (hdr : hdr_dimes_get) : option (dimes_server * option locate_reply * Z) :=
  '(s, matches) ← metadata_s_find_obj_location (meta_store d) (hg_odsc hdr) [];
  let d := set_meta d s in
  let num_obj := Z.of_nat (length matches) in
  let err := 0 in
  if negb (de_msg env) then Some (d, None, err)
  else if (0 <? num_obj) && negb (de_tab env) then Some (d, None, err)
  else
    let reply :=
      mk_lr (ds_self d) (hg_qid hdr) (if 0 <? num_obj then 0 else -1) num_obj matches in
    let err := de_send env cmd_id reply in
    Some (d, if err =? 0 then Some reply else None, err).

Definition dsgrpc_dimes_locate_data := locate_data.

Definition dsgrpc_dimes_put (d : dimes_server) (cmd : rpc_cmd) : option (dimes_server * Z) :=
  s ← metadata_s_add_obj_location (meta_store d) cmd;
  Some (set_meta d s, 0).

Definition dsgrpc_dimes_shmem_reset_server (d : dimes_server) : dimes_server * Z :=
  let _ := metadata_s_free (meta_store d) in
  (set_meta d (metadata_s_alloc (ds_size_hash d)), 0).

Definition dsgrpc_dimes_shmem_update_server (d : dimes_server) (cmd : rpc_cmd)
    : option (dimes_server * Z) :=
  s ← metadata_s_add_obj_location (meta_store d) cmd;
  Some (set_meta d s, 0).

(** [dsg] is what [dsg_alloc] returned: the id of the server and the number
    of bins of its storage; [ms_ok] is the allocation of the store. *)
Definition dimes_server_alloc (dimes_s : option dimes_server) (dsg : option (Z * Z))
    (ms_ok : bool) : option dimes_server :=
  match dimes_s with
  | Some d => Some d
  | None =>
      '(self, size_hash) ← dsg;
      if ms_ok then Some (mk_dserver self size_hash (metadata_s_alloc size_hash)) else None
  end.

(** ** The store as a set of locations *)

(** [c] is recorded in the store. *)
Definition located (s : metadata_storage) (c : rpc_cmd) : Prop :=
  exists i l n, ms_version_tab s !! i = Some l /\ n ∈ l /\ c ∈ obj_location_list n.

(** Two requests compete for a place: same name, same version bin, boxes
    that intersect. *)
Definition competes (s : metadata_storage) (c c' : rpc_cmd) : Prop :=
  bin_of (version (cmd_odsc c)) (ms_max_versions s)
  = bin_of (version (cmd_odsc c')) (ms_max_versions s)
  /\ obj_desc_by_name_intersect (cmd_odsc c) (cmd_odsc c') = true.

Definition version_ok (v : Z) : Prop := 0 <= v < 2 ^ 31.

(** Every location is in the bin of its version and in the node of its name;
    a bin has one node per name. *)
Record meta_inv (s : metadata_storage) : Prop := {
  mi_max : 0 < ms_max_versions s;
  mi_len : length (ms_version_tab s) = Z.to_nat (ms_max_versions s);
  mi_names : forall i l, ms_version_tab s !! i = Some l -> NoDup (map vn_name l);
  mi_place : forall i l n c, ms_version_tab s !! i = Some l -> n ∈ l ->
    c ∈ obj_location_list n ->
    name (cmd_odsc c) = vn_name n /\ version_ok (version (cmd_odsc c))
    /\ i = bin_of (version (cmd_odsc c)) (ms_max_versions s) }.

Lemma index_ok s v :
  0 < ms_max_versions s -> version_ok v ->
  Z.rem (s32 v) (ms_max_versions s) = v mod ms_max_versions s
  /\ 0 <= v mod ms_max_versions s < ms_max_versions s.
Proof.
  intros Hm [H1 H2]. rewrite s32_small by lia.
  rewrite Z.rem_mod_nonneg by lia. split; [done|]. by apply Z.mod_pos_bound.
Qed.

Lemma var_node_lookup_spec l nm l' j :
  NoDup (map vn_name l) -> var_node_lookup l nm = (l', j) ->
  NoDup (map vn_name l') /\ (exists n, l' !! j = Some n /\ vn_name n = nm)
  /\ (forall n c, n ∈ l' -> c ∈ obj_location_list n -> n ∈ l)
  /\ (forall n, n ∈ l -> n ∈ l').
Proof.
  intros Hd. unfold var_node_lookup.
  destruct (list_find _ l) as [[k n]|] eqn:E; intros [= <- <-].
  - apply list_find_Some in E as (Hk & Hn & _). split; [done|]. split; [by exists n|]. auto.
  - apply list_find_None in E. split; [|split; [by eexists|split]].
    + simpl. constructor; [|done]. intros Hin.
      apply list_elem_of_fmap in Hin as (n & -> & Hn).
      by apply (proj1 (list.Forall_forall _ _) E n Hn).
    + intros n c [->|Hn]%elem_of_cons Hc; [by apply not_elem_of_nil in Hc|done].
    + intros n Hn. by right.
Qed.

(** Lookup succeeds, leaves the recorded locations alone and leads to the
    node of the name in the bin of the version. *)
Lemma loc_lookup_spec s v nm :
  meta_inv s -> version_ok v ->
  exists s1 j l n,
    obj_location_list_lookup s v nm = Some (s1, bin_of v (ms_max_versions s), j)
    /\ ms_max_versions s1 = ms_max_versions s
    /\ ms_version_tab s1 !! bin_of v (ms_max_versions s) = Some l
    /\ l !! j = Some n /\ vn_name n = nm /\ meta_inv s1
    /\ forall c, located s1 c <-> located s c.
Proof.
  intros [Hm Hl Hn Hp] Hv. destruct (index_ok s v Hm Hv) as [Hi Hr].
  set (i := bin_of v (ms_max_versions s)).
  assert (Hlt : (i < length (ms_version_tab s))%nat) by (unfold i, bin_of; lia).
  destruct (lookup_lt_is_Some_2 _ _ Hlt) as [l El].
  unfold obj_location_list_lookup. rewrite Hi.
  rewrite (proj2 (Z.ltb_ge _ 0)), (proj2 (Z.eqb_neq _ 0)) by lia. cbn [orb].
  change (Z.to_nat (v mod ms_max_versions s)) with i. rewrite El. cbn [mbind option_bind].
  destruct (var_node_lookup l nm) as [l' j] eqn:Ev.
  destruct (var_node_lookup_spec _ _ _ _ (Hn i l El) Ev) as (Hd & (n & Hj & Hnm) & Hold & Hnew).
  exists (mk_ms (ms_max_versions s) (<[i := l']> (ms_version_tab s))), j, l', n. simpl.
  split; [done|]. split; [done|]. split; [by apply list_lookup_insert_eq|].
  split; [done|]. split; [done|].
  assert (Hcases : forall i0 l0, <[i := l']> (ms_version_tab s) !! i0 = Some l0 ->
            (i0 = i /\ l0 = l') \/ (i0 <> i /\ ms_version_tab s !! i0 = Some l0)).
  { intros i0 l0 H0. apply list_lookup_insert_Some in H0 as [(<- & <- & _)|[]]; auto. }
  split.
  - split; simpl; try done.
    + by rewrite length_insert.
    + intros i0 l0 [[-> ->]|[_ H0]]%Hcases; eauto.
    + intros i0 l0 n0 c [[-> ->]|[_ H0]]%Hcases Hn0 Hc; eauto.
  - intros c. split; intros (i0 & l0 & n0 & H0 & Hn0 & Hc); simpl in *.
    + apply Hcases in H0 as [[-> ->]|[_ H0]]; [exists i, l, n0|exists i0, l0, n0]; eauto.
    + destruct (decide (i0 = i)) as [->|Hne].
      * exists i, l', n0. simpl. rewrite list_lookup_insert_eq by done.
        rewrite El in H0. injection H0 as ->. eauto.
      * exists i0, l0, n0. simpl. by rewrite list_lookup_insert_ne.
Qed.

(** The locations of a node are those of its name in its bin. *)
Lemma node_locations s i l j n c :
  meta_inv s -> ms_version_tab s !! i = Some l -> l !! j = Some n ->
  c ∈ obj_location_list n <->
  located s c /\ name (cmd_odsc c) = vn_name n
  /\ bin_of (version (cmd_odsc c)) (ms_max_versions s) = i.
Proof.
  intros Hinv Hi Hj. pose proof (list_elem_of_lookup_2 _ _ _ Hj) as Hn. split.
  - intros Hc. destruct (mi_place s Hinv i l n c Hi Hn Hc) as (? & ? & ?).
    split; [by exists i, l, n|]. auto.
  - intros [(i' & l' & n' & Hi' & Hn' & Hc) [Hnm Hb]].
    destruct (mi_place s Hinv i' l' n' c Hi' Hn' Hc) as (Hnm' & _ & Hb').
    rewrite Hb in Hb'. subst i'. rewrite Hi in Hi'. injection Hi' as <-.
    apply list_elem_of_lookup in Hn' as (j' & Hj'). enough (j' = j) by congruence.
    eapply (NoDup_lookup (map vn_name l)); [by eapply mi_names|..].
    + rewrite list_lookup_fmap, Hj'. done.
    + rewrite list_lookup_fmap, Hj. simpl. congruence.
Qed.

(** Replacing the list of a node replaces the locations of its name in its
    bin. *)
Section set_locations.
Context (s : metadata_storage) (i j : nat) (l : list var_list_node) (n : var_list_node)
  (locs : list rpc_cmd).
Context (Hinv : meta_inv s) (Hi : ms_version_tab s !! i = Some l) (Hj : l !! j = Some n).
Context (Hlocs : forall c, c ∈ locs -> name (cmd_odsc c) = vn_name n
  /\ version_ok (version (cmd_odsc c))
  /\ i = bin_of (version (cmd_odsc c)) (ms_max_versions s)).

Let s' := set_locations s i j locs.
Let n' := mk_vn (vn_name n) locs.

(** The nodes of the new table: the replaced one and the others. *)
Lemma set_locations_nodes i' m :
  (exists l', ms_version_tab s' !! i' = Some l' /\ m ∈ l') <->
  (i' = i /\ m = n')
  \/ exists l' k, ms_version_tab s !! i' = Some l' /\ l' !! k = Some m /\ (i', k) <> (i, j).
Proof using Hi Hj.
  unfold s', set_locations. cbn [ms_version_tab].
  destruct (decide (i' = i)) as [->|Hne].
  - rewrite list_lookup_alter_eq, Hi. cbn [fmap option_fmap option_map]. split.
    + intros (l' & [= <-] & [k Hk]%list_elem_of_lookup).
      destruct (decide (k = j)) as [->|Hkj].
      * rewrite list_lookup_alter_eq, Hj in Hk. injection Hk as <-. by left.
      * rewrite list_lookup_alter_ne in Hk by congruence. right. exists l, k. split; [done|].
        split; [done|congruence].
    + intros H. eexists. split; [done|]. apply list_elem_of_lookup.
      destruct H as [[_ ->]|(l' & k & [= <-] & Hk & Hkj)].
      * exists j. by rewrite list_lookup_alter_eq, Hj.
      * exists k. by rewrite list_lookup_alter_ne by congruence.
  - rewrite list_lookup_alter_ne by congruence. split.
    + intros (l' & Hl' & [k Hk]%list_elem_of_lookup). right. exists l', k. split; [done|].
      split; [done|congruence].
    + intros [[? _]|(l' & k & Hl' & Hk & _)]; [done|]. exists l'.
      eauto using list_elem_of_lookup_2.
Qed.

Lemma set_locations_names i' l' :
  ms_version_tab s' !! i' = Some l' ->
  exists l0, ms_version_tab s !! i' = Some l0 /\ map vn_name l' = map vn_name l0.
Proof using Hi Hj.
  unfold s', set_locations. cbn [ms_version_tab].
  destruct (decide (i' = i)) as [->|Hne].
  - rewrite list_lookup_alter_eq, Hi. intros [= <-]. exists l. split; [done|].
    apply list_eq. intros k. rewrite !list_lookup_fmap.
    destruct (decide (k = j)) as [->|Hkj].
    + rewrite list_lookup_alter_eq. by destruct (l !! j).
    + by rewrite list_lookup_alter_ne by congruence.
  - rewrite list_lookup_alter_ne by congruence. eauto.
Qed.

Lemma set_locations_inv : meta_inv s'.
Proof using Hinv Hi Hj Hlocs.
  split; try apply Hinv.
  - unfold s', set_locations. cbn [ms_version_tab]. rewrite length_alter. apply Hinv.
  - intros i' l' (l0 & Hl0 & ->)%set_locations_names. by eapply mi_names.
  - intros i' l' m c Hl' Hm Hc.
    destruct (proj1 (set_locations_nodes i' m) (ex_intro _ l' (conj Hl' Hm)))
      as [[-> ->]|(l0 & k & Hl0 & Hk & _)]; [by apply Hlocs|].
    eapply (mi_place s Hinv); eauto using list_elem_of_lookup_2.
Qed.

Lemma set_locations_located c :
  located s' c <-> c ∈ locs \/ (located s c /\ c ∉ obj_location_list n).
Proof using Hinv Hi Hj.
  assert (Huniq : forall i' l' k m, ms_version_tab s !! i' = Some l' -> l' !! k = Some m ->
    c ∈ obj_location_list m -> c ∈ obj_location_list n <-> (i', k) = (i, j)).
  { intros i' l' k m Hl' Hk Hc. split; [|intros [= -> ->]; congruence].
    rewrite (node_locations s i l j n c) by done.
    apply (node_locations s i' l' k m c) in Hc as (_ & Hnm & <-); [|done..].
    intros (_ & Hnm' & Hb). rewrite Hb in *. rewrite Hi in Hl'. injection Hl' as <-.
    f_equal. eapply (NoDup_lookup (map vn_name l) _ _ (vn_name n)); [by eapply mi_names|..];
      rewrite list_lookup_fmap, ?Hk, ?Hj; simpl; congruence. }
  split.
  - intros (i' & l' & m & Hl' & Hm & Hc).
    destruct (proj1 (set_locations_nodes i' m) (ex_intro _ l' (conj Hl' Hm)))
      as [[-> ->]|(l0 & k & Hl0 & Hk & Hne)]; [by left|right].
    split; [exists i', l0, m; eauto using list_elem_of_lookup_2|].
    by rewrite (Huniq i' l0 k m).
  - intros H. enough (exists i' m, (exists l', ms_version_tab s' !! i' = Some l' /\ m ∈ l')
                                   /\ c ∈ obj_location_list m)
      as (i' & m & (l' & Hl' & Hm) & Hc) by (by exists i', l', m).
    destruct H as [Hc|[(i' & l0 & m & Hl0 & Hm & Hc) Hnot]].
    + exists i, n'. rewrite set_locations_nodes. auto.
    + exists i', m. rewrite set_locations_nodes. split; [|done]. right.
      apply list_elem_of_lookup in Hm as (k & Hk). exists l0, k. split; [done|].
      split; [done|]. by rewrite <- (Huniq i' l0 k m).
Qed.
End set_locations.

Lemma eq_sym_iff {A} (x y : A) : x = y <-> y = x.
Proof. split; congruence. Qed.

Lemma by_name_intersect_name o1 o2 :
  obj_desc_by_name_intersect o1 o2 = true -> name o1 = name o2.
Proof. intros [H _]%andb_true_iff. by apply streq_spec. Qed.

(** ** Properties of the store *)

Lemma meta_add_spec s cmd :
  meta_inv s -> version_ok (version (cmd_odsc cmd)) ->
  exists s', metadata_s_add_obj_location s cmd = Some s' /\ meta_inv s'
    /\ ms_max_versions s' = ms_max_versions s
    /\ forall c, located s' c <-> c = cmd \/ (located s c /\ ~ competes s cmd c).
Proof.
  intros Hinv Hv. unfold metadata_s_add_obj_location.
  destruct (loc_lookup_spec s (version (cmd_odsc cmd)) (name (cmd_odsc cmd)) Hinv Hv)
    as (s1 & j & l & n & -> & Hm & Hl & Hj & Hn & Hi1 & Hloc). cbn [mbind option_bind].
  set (i := bin_of _ _) in *. unfold locations. rewrite Hl. cbn [mbind option_bind].
  rewrite Hj. cbn [mbind option_bind].
  set (kept := filter _ _).
  assert (Hkept : forall c, c ∈ kept <-> c ∈ obj_location_list n
     /\ obj_desc_by_name_intersect (cmd_odsc cmd) (cmd_odsc c) = false)
    by (intros c; unfold kept; rewrite list_elem_of_filter; tauto).
  assert (Hnode := fun c => node_locations s1 i l j n c Hi1 Hl Hj).
  eexists. split; [done|]. split; [|split; [done|]].
  - apply (set_locations_inv s1 i j l n); [done..|].
    intros c [->|Hc]%elem_of_cons; [rewrite Hm; auto|].
    apply Hkept in Hc as [Hc _]. by eapply (mi_place s1 Hi1); eauto using list_elem_of_lookup_2.
  - intros c. rewrite (set_locations_located s1 i j l n) by done.
    rewrite elem_of_cons, Hkept, Hnode, Hloc, Hn, Hm. unfold competes. fold i.
    destruct (obj_desc_by_name_intersect (cmd_odsc cmd) (cmd_odsc c)) eqn:Eb.
    + apply by_name_intersect_name in Eb. symmetry in Eb.
      rewrite (eq_sym_iff i). clear - Eb. intuition congruence.
    + rewrite (eq_sym_iff i). clear.
      destruct (decide (name (cmd_odsc c) = name (cmd_odsc cmd)));
        destruct (decide (bin_of (version (cmd_odsc c)) (ms_max_versions s) = i));
        intuition congruence.
Qed.

Lemma meta_find_spec s odsc out :
  meta_inv s -> version_ok (version odsc) ->
  exists s' found, metadata_s_find_obj_location s odsc out = Some (s', found ++ out)
    /\ meta_inv s' /\ ms_max_versions s' = ms_max_versions s
    /\ (forall c, located s' c <-> located s c)
    /\ forall c, c ∈ found <->
         located s c /\ obj_desc_equals_intersect odsc (cmd_odsc c) = true.
Proof.
  intros Hinv Hv. unfold metadata_s_find_obj_location.
  destruct (loc_lookup_spec s (version odsc) (name odsc) Hinv Hv)
    as (s1 & j & l & n & -> & Hm & Hl & Hj & Hn & Hi1 & Hloc). cbn [mbind option_bind].
  set (i := bin_of _ _) in *. unfold locations. rewrite Hl. cbn [mbind option_bind].
  rewrite Hj. cbn [mbind option_bind].
  eexists s1, _. split; [done|]. split; [done|]. split; [done|]. split; [done|].
  intros c. rewrite list_elem_of_In, <- in_rev, <- list_elem_of_In, list_elem_of_filter.
  rewrite (node_locations s1 i l j n c), Hloc, Hn, Hm by done.
  unfold obj_desc_equals_intersect, streq.
  destruct (String.eqb_spec (name odsc) (name (cmd_odsc c))) as [E|E];
    destruct (Z.eqb_spec (version odsc) (version (cmd_odsc c))) as [Ev|Ev];
    simpl; split; intros H; intuition try congruence.
  unfold i. congruence.
Qed.

(** ** The server implements a set of locations *)

(** The requests a server handles. *)
Inductive dserver_op :=
| DPut (cmd : rpc_cmd)
| DUpdate (cmd : rpc_cmd)
| DReset
| DLocate (env : dserver_env) (peer : Z) (hdr : hdr_dimes_get).

Definition dserver_step (d : dimes_server) (o : dserver_op)
    : option (dimes_server * option locate_reply) :=
  match o with
  | DPut cmd => '(d, _) ← dsgrpc_dimes_put d cmd; Some (d, None)
  | DUpdate cmd => '(d, _) ← dsgrpc_dimes_shmem_update_server d cmd; Some (d, None)
  | DReset => Some ((dsgrpc_dimes_shmem_reset_server d).1, None)
  | DLocate env peer hdr =>
      '(d, reply, _) ← dsgrpc_dimes_locate_data env d peer hdr; Some (d, reply)
  end.

(** The specification: a list of locations; a put drops the competing
    objects of the variable. *)
Definition loc_competes (max : Z) (cmd c : rpc_cmd) : bool :=
  (bin_of (version (cmd_odsc cmd)) max =? bin_of (version (cmd_odsc c)) max)%nat
  && obj_desc_by_name_intersect (cmd_odsc cmd) (cmd_odsc c).

Definition loc_add (max : Z) (L : list rpc_cmd) (cmd : rpc_cmd) : list rpc_cmd :=
  cmd :: filter (fun c => loc_competes max cmd c = false) L.

Definition loc_step (max : Z) (L : list rpc_cmd) (o : dserver_op) : list rpc_cmd :=
  match o with
  | DPut cmd | DUpdate cmd => loc_add max L cmd
  | DReset => []
  | DLocate _ _ _ => L
  end.

(** What the answer to a request must be, given the locations [L]. *)
Definition reply_ok (self : Z) (L : list rpc_cmd) (o : dserver_op) (r : option locate_reply)
    : Prop :=
  match o, r with
  | DLocate env peer hdr, Some lr =>
      lr_id lr = self /\ lr_qid lr = hg_qid hdr
      /\ lr_num_obj lr = Z.of_nat (length (lr_tab lr))
      /\ lr_rc lr = (if (length (lr_tab lr) =? 0)%nat then -1 else 0)
      /\ forall c, c ∈ lr_tab lr <->
           c ∈ L /\ obj_desc_equals_intersect (hg_odsc hdr) (cmd_odsc c) = true
  | DLocate env peer hdr, None =>
      de_msg env = false \/ de_tab env = false \/ exists lr, de_send env peer lr <> 0
  | _, _ => r = None
  end.

Definition dop_ok (o : dserver_op) : Prop :=
  match o with
  | DPut cmd | DUpdate cmd => version_ok (version (cmd_odsc cmd))
  | DReset => True
  | DLocate _ _ hdr => version_ok (version (hg_odsc hdr))
  end.

(** The refinement relation. *)
Record refines (max self : Z) (d : dimes_server) (L : list rpc_cmd) : Prop := {
  rf_inv : meta_inv (meta_store d);
  rf_max : ms_max_versions (meta_store d) = max;
  rf_hash : ds_size_hash d = max;
  rf_self : ds_self d = self;
  rf_set : forall c, located (meta_store d) c <-> c ∈ L }.

Lemma meta_alloc_inv max : 0 < max -> meta_inv (metadata_s_alloc max).
Proof.
  intros Hm. split; simpl; [done|by rewrite length_replicate| |].
  - intros i l [-> _]%lookup_replicate. constructor.
  - intros i l n c [-> _]%lookup_replicate Hn. by apply not_elem_of_nil in Hn.
Qed.

Lemma alloc_located max c : ~ located (metadata_s_alloc max) c.
Proof.
  intros (i & l & n & [-> _]%lookup_replicate & Hn & _). by apply not_elem_of_nil in Hn.
Qed.

Lemma add_refines max self d L cmd :
  refines max self d L -> version_ok (version (cmd_odsc cmd)) ->
  exists s, metadata_s_add_obj_location (meta_store d) cmd = Some s
    /\ refines max self (set_meta d s) (loc_add max L cmd).
Proof.
  intros [Hi Hm Hh Hs HL] Hv. destruct (meta_add_spec (meta_store d) cmd Hi Hv)
    as (s & E & Hi' & Hm' & Hloc). exists s. split; [done|].
  split; simpl; try done; [congruence|]. intros c.
  rewrite Hloc. unfold loc_add, competes. rewrite elem_of_cons, list_elem_of_filter, HL, Hm.
  unfold loc_competes. rewrite andb_false_iff, Nat.eqb_neq.
  destruct (obj_desc_by_name_intersect (cmd_odsc cmd) (cmd_odsc c)); clear; intuition congruence.
Qed.

(** One request: the server follows the specification. *)
Lemma dserver_step_refines max self d L o :
  refines max self d L -> dop_ok o ->
  exists d' r, dserver_step d o = Some (d', r) /\ refines max self d' (loc_step max L o)
    /\ reply_ok self L o r.
Proof.
  intros HR Ho. destruct o as [cmd|cmd| |env peer hdr]; simpl in Ho |- *.
  - destruct (add_refines max self d L cmd HR Ho) as (s & E & HR').
    unfold dsgrpc_dimes_put. rewrite E. cbn. eauto.
  - destruct (add_refines max self d L cmd HR Ho) as (s & E & HR').
    unfold dsgrpc_dimes_shmem_update_server. rewrite E. cbn. eauto.
  - eexists _, None. split; [done|]. split; [|done].
    destruct HR as [Hi Hm Hh Hs HL]. split; simpl; try done; try congruence.
    + apply meta_alloc_inv. rewrite Hh, <- Hm. apply Hi.
    + intros c. split; [by intros []%alloc_located|by intros []%not_elem_of_nil].
  - destruct HR as [Hi Hm Hh Hs HL].
    unfold dsgrpc_dimes_locate_data, locate_data.
    destruct (meta_find_spec (meta_store d) (hg_odsc hdr) [] Hi Ho)
      as (s & found & -> & Hi' & Hm' & Hloc & Hf). rewrite app_nil_r. cbn [mbind option_bind].
    assert (HR' : refines max self (set_meta d s) L).
    { split; simpl; try done; [congruence|]. intros c. by rewrite Hloc. }
    destruct (de_msg env) eqn:Em; simpl; [|do 2 eexists; eauto].
    destruct ((0 <? Z.of_nat (length found)) && negb (de_tab env)) eqn:Et.
    { zbool. do 2 eexists. eauto. }
    set (lr := mk_lr _ _ _ _ _). do 2 eexists. split; [done|]. split; [done|].
    destruct (Z.eqb_spec (de_send env peer lr) 0) as [Es|Es]; [|by eauto].
    simpl. split; [done|]. split; [done|]. split; [done|]. split.
    + by destruct found.
    + intros c. by rewrite Hf, HL.
Qed.

(** A sequence of requests, with the answers. *)
Fixpoint dserver_run (d : dimes_server) (ops : list dserver_op)
    : option (dimes_server * list (option locate_reply)) :=
  match ops with
  | [] => Some (d, [])
  | o :: ops =>
      '(d, r) ← dserver_step d o;
      '(d, rs) ← dserver_run d ops;
      Some (d, r :: rs)
  end.

(** The locations before each request of the sequence. *)
Fixpoint loc_states (max : Z) (L : list rpc_cmd) (ops : list dserver_op)
    : list (list rpc_cmd) :=
  match ops with
  | [] => []
  | o :: ops => L :: loc_states max (loc_step max L o) ops
  end.

Lemma dserver_run_refines max self ops d L :
  refines max self d L -> Forall dop_ok ops ->
  exists d' rs, dserver_run d ops = Some (d', rs)
    /\ refines max self d' (fold_left (loc_step max) ops L)
    /\ Forall2 (fun Lo r => reply_ok self Lo.1 Lo.2 r) (zip (loc_states max L ops) ops) rs.
Proof.
  intros HR Ho. revert d L HR. induction Ho as [|o ops Hop Ho IH]; intros d L HR; simpl.
  - do 2 eexists. eauto.
  - destruct (dserver_step_refines max self d L o HR Hop) as (d1 & r & -> & HR1 & Hr).
    destruct (IH d1 _ HR1) as (d2 & rs & E & HR2 & Hrs).
    cbn [mbind option_bind]. rewrite E. cbn [mbind option_bind].
    do 2 eexists. split; [done|]. split; [done|]. by constructor.
Qed.

(** C6: A DIMES server that starts empty and handles any sequence of puts,
    restart updates, resets and location requests never fails, and answers
    each location request with exactly the locations that the specification
    (a set in which a put replaces the competing objects) holds at that
    moment and that match the name, version and box asked for; the return
    code is -1 exactly when there is none. *)
Theorem dimes_server_refines max self ops d :
  0 < max -> Forall dop_ok ops ->
  dimes_server_alloc None (Some (self, max)) true = Some d ->
  exists d' rs, dserver_run d ops = Some (d', rs)
    /\ (forall c, located (meta_store d') c <-> c ∈ fold_left (loc_step max) ops [])
    /\ Forall2 (fun Lo r => reply_ok self Lo.1 Lo.2 r) (zip (loc_states max [] ops) ops) rs.
Proof.
  intros Hm Ho [= <-].
  destruct (dserver_run_refines max self ops (mk_dserver self max (metadata_s_alloc max)) [])
    as (d' & rs & E & HR & Hrs); [|done|].
  - split; simpl; try done; [by apply meta_alloc_inv|].
    intros c. split; [by intros []%alloc_located|by intros []%not_elem_of_nil].
  - exists d', rs. split; [done|]. split; [apply HR|done].
Qed.

Definition demo_put (owner ver lo hi : Z) : rpc_cmd :=
  mk_cmd owner (4096, 64)
    (mk_hdp (mk_oid owner 0) (mk_odsc "temp" column_major owner ver (mk_bbox 1 [lo] [hi]) 8)
       false (mk_shd 0 0 0 0)).

Definition demo_dops : list dserver_op :=
  [DPut (demo_put 5 1 0 7); DPut (demo_put 6 1 8 15); DPut (demo_put 7 4 4 5);
   DLocate (mk_dsenv true true (fun _ _ => 0)) 9
     (mk_hdg 0 (mk_odsc "temp" column_major (-1) 1 (mk_bbox 1 [3] [9]) 8))].

Lemma dimes_server_refines_witness :
  exists d' rs, dserver_run (mk_dserver 0 3 (metadata_s_alloc 3)) demo_dops = Some (d', rs)
    /\ (forall c, located (meta_store d') c <-> c ∈ fold_left (loc_step 3) demo_dops [])
    /\ Forall2 (fun Lo r => reply_ok 0 Lo.1 Lo.2 r)
         (zip (loc_states 3 [] demo_dops) demo_dops) rs.
Proof.
  apply (dimes_server_refines 3 0 demo_dops (mk_dserver 0 3 (metadata_s_alloc 3)));
    [lia| |reflexivity].
  repeat constructor; simpl; lia.
Defined.
