(* ===== verification/Rdma.v ===== *)
(** * RDMA reads (src/dimes_client.c, dart/ib/dart_rdma_ib.c)

    A DIMES client fetches a part of a remote array by scheduling RDMA reads
    in a read transaction and letting the adapter execute them.  The sub-array
    is cut into rows by the loop nest of [matrix_rdma_copy]; a part that is
    contiguous in the remote buffer is fetched with one read.  This file
    models the scheduling, the list of read transactions and the loop of
    [dart_rdma_check_reads], in which reads are posted while there is credit
    and complete in any order, or fail.

    Theorems: whatever the order in which the reads complete, when the read
    loop reports them done the receive buffer holds what [matrix_copy] would
    have put there; the loop ends after a bounded number of events, and it
    does not get stuck while the adapter rejects no read; the contiguous
    shortcut fetches the same cells as the row by row copy. *)

From stdpp Require Import relations.
From S2P Require Import Prelude Bbox Matrix ObjDesc.

#[local] Open Scope Z_scope.

(** ** Transactions *)

Inductive dart_memory_type :=
| dart_memory_non_rdma
| dart_memory_rdma
| dart_memory_shmem_non_rdma
| dart_memory_shmem_rdma.

#[export] Instance dart_memory_type_eq_dec : EqDecision dart_memory_type.
Proof. solve_decision. Defined.

(** [mr_addr] is the address the adapter uses, that of the registered
    region; [base_addr] is the address the program uses. *)
Record dart_rdma_mem_handle := mk_hndl {
  mr_addr : Z;
  base_addr : Z;
  hndl_size : Z;
  mem_type : dart_memory_type }.

Record dart_rdma_op := mk_op { src_offset : Z; dst_offset : Z; op_bytes : Z }.

#[export] Instance dart_rdma_op_eq_dec : EqDecision dart_rdma_op.
Proof. solve_decision. Defined.

Record dart_rdma_tran := mk_tran {
  tran_id : Z;
  remote_peer : Z;
  tran_src : dart_rdma_mem_handle;
  tran_dst : dart_rdma_mem_handle;
  read_ops_list : list dart_rdma_op }.

(** [drh]: the transactions, the id of the process and the static counter of
    transaction ids. *)
Record dart_rdma_handle := mk_drh {
  drh_id : Z;
  drh_next_tran : Z;
  read_tran_list : list dart_rdma_tran }.

Definition dart_rdma_find_read_tran (id : Z) (l : list dart_rdma_tran)
    : option dart_rdma_tran := List.find (fun t => tran_id t =? id) l.

Definition set_ops (t : dart_rdma_tran) (ops : list dart_rdma_op) : dart_rdma_tran :=
  mk_tran (tran_id t) (remote_peer t) (tran_src t) (tran_dst t) ops.

Definition set_src (t : dart_rdma_tran) (h : dart_rdma_mem_handle) : dart_rdma_tran :=
  mk_tran (tran_id t) (remote_peer t) h (tran_dst t) (read_ops_list t).

Definition set_dst (t : dart_rdma_tran) (h : dart_rdma_mem_handle) : dart_rdma_tran :=
  mk_tran (tran_id t) (remote_peer t) (tran_src t) h (read_ops_list t).

(** The transaction with the id is updated in place. *)
Fixpoint update_tran (id : Z) (f : dart_rdma_tran -> dart_rdma_tran)
    (l : list dart_rdma_tran) : list dart_rdma_tran :=
  match l with
  | [] => []
  | t :: l => if tran_id t =? id then f t :: l else t :: update_tran id f l
  end.

Definition set_trans (h : dart_rdma_handle) (l : list dart_rdma_tran) : dart_rdma_handle :=
  mk_drh (drh_id h) (drh_next_tran h) l.

Definition no_hndl : dart_rdma_mem_handle := mk_hndl 0 0 0 dart_memory_non_rdma.

(** The handles of a new transaction are not set. *)
Definition dart_rdma_create_read_tran (alloc_ok : bool) (h : dart_rdma_handle) (peer : Z)
    : dart_rdma_handle * option dart_rdma_tran :=
  if alloc_ok then
    let t := mk_tran (drh_next_tran h) peer no_hndl no_hndl [] in
    (mk_drh (drh_id h) (s32 (drh_next_tran h + 1)) (t :: read_tran_list h), Some t)
  else (h, None).

Fixpoint remove_tran (id : Z) (l : list dart_rdma_tran) : list dart_rdma_tran :=
  match l with
  | [] => []
  | t :: l => if tran_id t =? id then l else t :: remove_tran id l
  end.

Definition dart_rdma_delete_read_tran (h : dart_rdma_handle) (id : Z)
    : dart_rdma_handle * Z :=
  match dart_rdma_find_read_tran id (read_tran_list h) with
  | None => (h, -1)
  | Some t =>
      match read_ops_list t with
      | [] => (set_trans h (remove_tran id (read_tran_list h)), 0)
      | _ :: _ => (h, -1)
      end
  end.

(** The read is added in front of the list of the transaction. *)
Definition dart_rdma_schedule_read (alloc_ok : bool) (h : dart_rdma_handle) (id : Z)
    (src dst bytes : Z) : dart_rdma_handle * Z :=
  match dart_rdma_find_read_tran id (read_tran_list h) with
  | None => (h, -1)
  | Some t =>
      if alloc_ok then
        (set_trans h (update_tran id (fun t => set_ops t (mk_op src dst bytes :: read_ops_list t))
                        (read_tran_list h)), 0)
      else (h, -1)
  end.

(** ** Executing reads *)

(** One read: [op_bytes] bytes from the source to the destination buffer. *)
Definition do_read (src : list byte) (op : dart_rdma_op) (dst : list byte)
    : option (list byte) := memcpy dst (dst_offset op) src (src_offset op) (op_bytes op).

Fixpoint do_reads (src : list byte) (ops : list dart_rdma_op) (dst : list byte)
    : option (list byte) :=
  match ops with
  | [] => Some dst
  | op :: ops => dst ← do_read src op dst; do_reads src ops dst
  end.

(** [memcpy] for every scheduled read, in the order of the list, which is
    left empty. *)
Definition dart_perform_local_copy (t : dart_rdma_tran) (src dst : list byte)
    : option (dart_rdma_tran * list byte) :=
  dst ← do_reads src (read_ops_list t) dst; Some (set_ops t [], dst).

(** What the adapter is asked for: [sge.length] has 32 bits. *)
Definition sge_of (op : dart_rdma_op) : dart_rdma_op := mk_op (src_offset op) (dst_offset op) (u32 (op_bytes op)).

(** [dart_rdma_check_reads] and [dart_rdma_process_ibv_cq]: the reads that
    are not posted yet, those posted ([dart_rdma_get]) and not completed,
    those the adapter has rejected without the code noticing, the credit, the
    destination buffer, and [ibv_rdma_error_flag], with which the loop is left. *)
Record read_loop := mk_rl {
  rl_todo : list dart_rdma_op;
  rl_posted : list dart_rdma_op;
  rl_lost : list dart_rdma_op;
  avail_rdma_credit : Z;
  rl_dst : list byte;
  rl_error : bool }.

(** [read_tran->avail_rdma_credit = drh->rpc_s->num_buf] *)
Definition read_loop_start (num_buf : Z) (t : dart_rdma_tran) (dst : list byte) : read_loop :=
  mk_rl (read_ops_list t) [] [] num_buf dst false.

(** What a completion says. *)
Inductive wc_opcode := IBV_WC_SEND | IBV_WC_RECV | IBV_WC_RDMA_WRITE | IBV_WC_RDMA_READ.

(** Calls of the library that change the state of the loop: [ibv_post_send]
    returns [rc], and [ibv_poll_cq] gives a completion with [status] (0 is
    IBV_WC_SUCCESS) and [opcode] for the read after [p1]; or a call of
    [dart_rdma_process_ibv_cq] fails with a negative code, or the peer is not
    connected. *)
Inductive read_event :=
| ev_post (rc : Z)
| ev_completion (status : Z) (opcode : wc_opcode)
| ev_failure.

(** Calls that find nothing to do, and those that fail with a positive code,
    which the loop takes for success, change nothing and are repeated. *)
Inductive read_step (src : list byte) : read_event -> read_loop -> read_loop -> Prop :=
| rl_post op todo posted lost credit dst :
    0 < credit ->
    read_step src (ev_post 0) (mk_rl (op :: todo) posted lost credit dst false)
                              (mk_rl todo (posted ++ [op]) lost (credit - 1) dst false)
| rl_post_error rc op todo posted lost credit dst :
    0 < credit -> rc < 0 ->
    read_step src (ev_post rc) (mk_rl (op :: todo) posted lost credit dst false)
                               (mk_rl (op :: todo) posted lost credit dst true)
| rl_post_lost rc op todo posted lost credit dst :      (* [err < 0] does not see an errno *)
    0 < credit -> 0 < rc ->
    read_step src (ev_post rc) (mk_rl (op :: todo) posted lost credit dst false)
                               (mk_rl todo posted (op :: lost) (credit - 1) dst false)
| rl_complete op p1 p2 todo lost credit dst dst' :
    do_read src (sge_of op) dst = Some dst' ->
    read_step src (ev_completion 0 IBV_WC_RDMA_READ)
      (mk_rl todo (p1 ++ op :: p2) lost credit dst false) (mk_rl todo (p1 ++ p2) lost (credit + 1) dst' false)
| rl_bad_completion status opcode todo posted lost credit dst :
    0 < status \/ opcode <> IBV_WC_RDMA_READ ->
    read_step src (ev_completion status opcode)
      (mk_rl todo posted lost credit dst false) (mk_rl todo posted lost credit dst true)
| rl_failure todo posted lost credit dst :
    read_step src ev_failure (mk_rl todo posted lost credit dst false) (mk_rl todo posted lost credit dst true).

(** [done = 1]: everything posted and the list empty. *)
Definition reads_done (s : read_loop) : Prop := rl_error s = false /\ rl_todo s = [] /\ rl_posted s = [] /\ rl_lost s = [].

(** ** Scheduling a sub-array *)

Definition matrix_init_d (st : storage_type) (bb_glb bb_loc : bbox) (se : Z) : matrix_desc :=
  let ndims := num_dims bb_glb in
  mk_matrix (map (fun i => bbox_dist bb_glb i) (seq 0 ndims)) ndims se st
    (map (fun i => u64 (cget (lb bb_loc) i - cget (lb bb_glb) i)) (seq 0 ndims))
    (map (fun i => u64 (cget (ub bb_loc) i - cget (lb bb_glb) i)) (seq 0 ndims)).

(** The reads of the nest from the label [dim(d+1)] inwards, in the order in
    which they are scheduled.  As in [matrix_copy], [bloc9] is computed
    from [a9]. *)
Fixpoint rdma_nest (d : nat) (a b : matrix_desc) (aloc bloc : Z) (ops : list dart_rdma_op)
    : option (list dart_rdma_op) :=
  match d with
  | O =>
      let n := u64 (u64 (cget (view_ub a) 0 - cget (view_lb a) 0) + 1) in
      let aloc := u64 (aloc + cget (view_lb a) 0) in
      let bloc := u64 (bloc + cget (view_lb b) 0) in
      Some (ops ++ [mk_op (u64 (bloc * size_elem a)) (u64 (aloc * size_elem a))
                      (u64 (n * size_elem a))])
  | S d' =>
      if cget (view_ub a) d =? 2 ^ 64 - 1 then None else
      copy_loop (Z.to_nat (cget (view_ub a) d - cget (view_lb a) d + 1))
        (fun ad bd =>
           let bd := if (d =? 9)%nat then ad else bd in
           rdma_nest d' a b (u64 (u64 (aloc + ad) * cget (dist a) d'))
                            (u64 (u64 (bloc + bd) * cget (dist b) d')))
        (cget (view_lb a) d) (cget (view_lb b) d) ops
  end.

(** Reads scheduled one after the other, up to the first error. *)
Fixpoint schedule_all (alloc_ok : bool) (h : dart_rdma_handle) (id : Z) (ops : list dart_rdma_op)
    : dart_rdma_handle * Z :=
  match ops with
  | [] => (h, 0)
  | op :: ops =>
      let '(h, err) :=
        dart_rdma_schedule_read alloc_ok h id (src_offset op) (dst_offset op) (op_bytes op) in
      if err <? 0 then (h, err) else schedule_all alloc_ok h id ops
  end.

Definition matrix_rdma_copy (alloc_ok : bool) (h : dart_rdma_handle) (a b : matrix_desc) (id : Z)
    : option (dart_rdma_handle * Z) :=
  if (1 <=? m_num_dims a)%nat && (m_num_dims a <=? 10)%nat then
    ops ← rdma_nest (m_num_dims a - 1) a b 0 0 [];
    Some (schedule_all alloc_ok h id ops)
  else None.

Definition schedule_rdma_reads (alloc_ok : bool) (h : dart_rdma_handle) (id : Z)
    (src_odsc dst_odsc : obj_descriptor) : option (dart_rdma_handle * Z) :=
  if obj_desc_equals_no_owner src_odsc dst_odsc then
    Some (dart_rdma_schedule_read alloc_ok h id 0 0 (obj_data_size dst_odsc))
  else
    let bbcom := bbox_intersect (bb dst_odsc) (bb src_odsc) in
    let from := matrix_init_d (st src_odsc) (bb src_odsc) bbcom (size src_odsc) in
    let to := matrix_init_d (st dst_odsc) (bb dst_odsc) bbcom (size dst_odsc) in
    matrix_rdma_copy alloc_ok h to from id.

(** ** Contiguous parts *)

Definition is_remote_data_contiguous_in_memory (src_odsc dst_odsc : obj_descriptor) : bool :=
  if negb (num_dims (bb src_odsc) =? num_dims (bb dst_odsc))%nat then false
  else
    let bb0 := bbox_intersect (bb dst_odsc) (bb src_odsc) in
    let from := matrix_init_d (st src_odsc) (bb src_odsc) bb0 (size src_odsc) in
    forallb (fun i => u64 (u64 (cget (view_ub from) i - cget (view_lb from) i) + 1)
                      =? cget (dist from) i)
      (seq 0 (m_num_dims from - 1)).

Definition calculate_offset_for_remote_data (src_odsc dst_odsc : obj_descriptor) : Z :=
  let bb0 := bbox_intersect (bb dst_odsc) (bb src_odsc) in
  let from := matrix_init_d (st src_odsc) (bb src_odsc) bb0 (size src_odsc) in
  let num_elem :=
    fold_left (fun n i => u64 (n * cget (dist from) i)) (seq 0 (m_num_dims from - 1)) 1 in
  let num_elem := u64 (num_elem * cget (view_lb from) (m_num_dims from - 1)) in
  u64 (num_elem * size_elem from).

(** ** The scheduled reads are the rows of the copy *)

Definition row_op (len : Z) (r : Z * Z) : dart_rdma_op := mk_op r.2 r.1 len.

Lemma copy_loop_append {A} (f : Z -> Z -> list A -> option (list A)) g cnt :
  (forall a b l, f a b l = Some (l ++ g a b)) ->
  forall a b l, 0 <= a < 2 ^ 64 -> 0 <= b < 2 ^ 64 ->
  copy_loop cnt f a b l
  = Some (l ++ (seq 0 cnt ≫= fun i => g (u64 (a + Z.of_nat i)) (u64 (b + Z.of_nat i)))).
Proof.
  intros Hf. induction cnt as [|cnt IH]; intros a b l Ha Hb; [by rewrite app_nil_r|].
  cbn [copy_loop seq]. rewrite Hf. cbn [mbind option_bind].
  rewrite IH by apply u64_range. rewrite bind_cons, app_assoc, <- seq_shift.
  change (Z.of_nat 0) with 0. rewrite !Z.add_0_r, (u64_small a Ha), (u64_small b Hb).
  assert (E : forall x i, u64 (u64 (x + 1) + Z.of_nat i) = u64 (x + Z.of_nat (S i))).
  { intros x i. unfold u64. rewrite Zplus_mod_idemp_l. f_equal. lia. }
  do 2 f_equal. generalize (seq 0 cnt). intros ks. induction ks as [|i ks IHl]; [done|].
  cbn [map]. rewrite !bind_cons, IHl. by rewrite !E.
Qed.

Lemma map_bind {A B C} (f : B -> C) (g : A -> list B) (l : list A) :
  map f (l ≫= g) = l ≫= fun x => map f (g x).
Proof.
  induction l as [|x l IH]; [done|]. rewrite !bind_cons, map_app. by rewrite IH.
Qed.

Lemma rdma_nest_rows d a b :
  (forall i, (i <= d)%nat -> 0 <= cget (view_lb a) i < 2 ^ 64 /\ 0 <= cget (view_lb b) i < 2 ^ 64 /\
     cget (view_ub a) i < 2 ^ 64 - 1) ->
  forall aloc bloc ops,
  rdma_nest d a b aloc bloc ops
  = Some (ops ++ map (row_op (row_len a)) (nest_rows d a b aloc bloc)).
Proof.
  induction d as [|d IH]; intros Hv aloc bloc ops; cbn [rdma_nest nest_rows].
  - unfold row_op, row_len. cbn [map fst snd]. by rewrite (Z.mul_comm (size_elem a)).
  - destruct (Z.eqb_spec (cget (view_ub a) (S d)) (2 ^ 64 - 1)) as [E|_];
      [destruct (Hv (S d)) as (_ & _ & ?); lia|].
    rewrite (copy_loop_append _ (fun ad bd => map (row_op (row_len a))
      (nest_rows d a b (u64 (u64 (aloc + ad) * cget (dist a) d))
        (u64 (u64 (bloc + (if (S d =? 9)%nat then ad else bd)) * cget (dist b) d))))).
    + by rewrite map_bind.
    + intros ad bd l. apply IH. intros i Hi. apply Hv. lia.
    + apply Hv. lia.
    + apply Hv. lia.
Qed.

Lemma do_reads_rows len src rows dst :
  do_reads src (map (row_op len) rows) dst = copy_rows rows len src dst.
Proof.
  revert dst. induction rows as [|[ao bo] rows IH]; intros dst; [done|]. cbn.
  unfold do_read. cbn. destruct (memcpy _ _ _ _ _); [apply IH|done].
Qed.

(** ** Order of completion *)

(** Rows that may be copied in any order: they are inside the buffers, and
    two rows that write a byte read it from the same place. *)
Record rows_ok (len : Z) (rows : list (Z * Z)) (la lb : nat) : Prop := {
  ro_len : 0 <= len;
  ro_bounds : forall ao bo, (ao, bo) ∈ rows -> 0 <= ao /\ ao + len <= Z.of_nat la /\
     0 <= bo /\ bo + len <= Z.of_nat lb;
  ro_consistent : forall ao bo ao' bo' j, (ao, bo) ∈ rows -> (ao', bo') ∈ rows ->
     ao <= j < ao + len -> ao' <= j < ao' + len -> bo - ao = bo' - ao' }.

Lemma rows_ok_sub len rows rows' la lb :
  rows' ⊆ rows -> rows_ok len rows la lb -> rows_ok len rows' la lb.
Proof. intros Hs [H1 H2 H3]. split; eauto. Qed.

Lemma at_ext (A B : list byte) : (forall j, 0 <= j -> at_ A j = at_ B j) -> A = B.
Proof.
  intros H. apply list_eq. intros i. specialize (H (Z.of_nat i) ltac:(lia)).
  unfold at_ in H. by rewrite Nat2Z.id in H.
Qed.

Lemma copy_rows_perm len rows rows' B A :
  rows' ≡ₚ rows -> rows_ok len rows (length A) (length B) ->
  exists A', copy_rows rows len B A = Some A' /\ copy_rows rows' len B A = Some A'
    /\ length A' = length A.
Proof.
  intros Hp Hok. assert (Hok' : rows_ok len rows' (length A) (length B)).
  { eapply rows_ok_sub; [|done]. intros r. by rewrite Hp. }
  destruct Hok as [H1 H2 H3], Hok' as [_ H2' H3'].
  destruct (copy_rows_spec len B rows H1 A H2 H3) as (A1 & E1 & L1 & I1 & O1).
  destruct (copy_rows_spec len B rows' H1 A H2' H3') as (A2 & E2 & L2 & I2 & O2).
  exists A1. split; [done|]. split; [|done]. rewrite E2. f_equal. apply at_ext. intros j Hj.
  destruct (decide (Exists (fun r : Z * Z => r.1 <= j < r.1 + len) rows)) as [Hex|Hno].
  - apply list.Exists_exists in Hex as ([ao bo] & Hin & Hr). simpl in Hr.
    rewrite (I1 ao bo), (I2 ao bo); [done|by rewrite Hp|done..].
  - rewrite O1, O2; [done|done| |done|].
    + intros ao bo Hin Hr. apply Hno, list.Exists_exists. exists (ao, bo). by rewrite <- Hp.
    + intros ao bo Hin Hr. apply Hno, list.Exists_exists. by exists (ao, bo).
Qed.

Lemma do_reads_app src ops1 ops2 dst :
  do_reads src (ops1 ++ ops2) dst
  = dst ← do_reads src ops1 dst; do_reads src ops2 dst.
Proof.
  revert dst. induction ops1 as [|op ops IH]; intros dst; [done|]. cbn.
  destruct (do_read _ _ _); [apply IH|done].
Qed.

(** ** The read loop *)

(** The steps without an error of the adapter. *)
Definition fine_event (e : read_event) : bool :=
  match e with
  | ev_post rc => rc =? 0
  | ev_completion status IBV_WC_RDMA_READ => status =? 0
  | _ => false
  end.

Definition some_step (src : list byte) (s s' : read_loop) : Prop := exists e, read_step src e s s'.
Definition fine_step (src : list byte) (s s' : read_loop) : Prop := exists e, fine_event e = true /\ read_step src e s s'.

Section read_loop.
Context (src : list byte) (dst0 : list byte) (len : Z) (rows : list (Z * Z)) (num_buf : Z).
Context (Hrows : rows_ok len rows (length dst0) (length src)) (Hbuf : 0 < num_buf).
Context (H32 : forall r, r ∈ rows -> len < 2 ^ 32).

(** The completed reads account for the destination; the credit is the
    number of buffers that are not in flight. *)
Record loop_inv (s : read_loop) : Prop := {
  lv_credit : avail_rdma_credit s = num_buf - Z.of_nat (length (rl_posted s)) - Z.of_nat (length (rl_lost s));
  lv_rows : exists ro_done ro_rest,
       ro_done ++ ro_rest ≡ₚ rows
       /\ map (row_op len) ro_rest ≡ₚ rl_posted s ++ rl_todo s ++ rl_lost s
       /\ copy_rows ro_done len src dst0 = Some (rl_dst s)
       /\ length (rl_dst s) = length dst0 }.

Lemma posted_in_bounds s op p1 p2 :
  loop_inv s -> rl_posted s = p1 ++ op :: p2 ->
  exists dst', do_read src (sge_of op) (rl_dst s) = Some dst' /\ length dst' = length dst0
    /\ loop_inv (mk_rl (rl_todo s) (p1 ++ p2) (rl_lost s) (avail_rdma_credit s + 1) dst' false).
Proof using Hrows H32.
  intros [Hc (rd & rr & Hp & Hr & Hd & Hl)] Hpos.
  assert (Hop : op ∈ map (row_op len) rr)
    by (rewrite Hr, Hpos, !elem_of_app, elem_of_cons; tauto).
  apply list_elem_of_fmap in Hop as ([ao bo] & -> & Hin). pose proof Hin as Hin'.
  apply elem_of_Permutation in Hin as (rr' & Hrr).
  assert (Hrow : (ao, bo) ∈ rows) by (rewrite <- Hp; apply elem_of_app; by right).
  destruct (ro_bounds _ _ _ _ Hrows ao bo Hrow) as (B1 & B2 & B3 & B4).
  pose proof (ro_len _ _ _ _ Hrows) as Hlen. specialize (H32 _ Hrow).
  destruct (memcpy_spec (rl_dst s) ao src bo len) as (dst' & E & Hl' & _); try lia.
  exists dst'. split; [|split; [congruence|split]]; simpl.
  - unfold do_read, sge_of. cbn. by rewrite u32_small by lia.
  - rewrite Hc, Hpos, !length_app. simpl. lia.
  - exists (rd ++ [(ao, bo)]), rr'. split; [|split; [|split; [|congruence]]].
    + rewrite <- Hp, Hrr, <- app_assoc. done.
    + rewrite Hrr, Hpos in Hr. simpl in Hr. rewrite <- app_assoc, <- app_comm_cons in Hr.
      rewrite <- Permutation_middle in Hr. apply Permutation_cons_inv in Hr.
      by rewrite <- app_assoc.
    + rewrite copy_rows_app, Hd. cbn. by rewrite E.
Qed.

Lemma read_step_inv s s' : loop_inv s -> some_step src s s' -> loop_inv s'.
Proof using Hrows H32.
  intros Hi [e Hs].
  destruct Hs as [op todo posted lost credit dst Hc|rc op todo posted lost credit dst Hc Hrc|rc op todo posted lost credit dst Hc Hrc
    |op p1 p2 todo lost credit dst dst' E|status opcode todo posted lost credit dst Hb|todo posted lost credit dst];
    try (by destruct Hi; split).
  - destruct Hi as [Hcr (rd & rr & Hp & Hr & Hd & Hl)]. simpl in *. split; simpl.
    + rewrite length_app. simpl. lia.
    + exists rd, rr. split; [done|]. split; [|done]. by rewrite Hr, <- app_assoc.
  - destruct Hi as [Hcr (rd & rr & Hp & Hr & Hd & Hl)]. simpl in *. split; simpl; [lia|].
    exists rd, rr. split; [done|]. split; [|done]. by rewrite Hr, Permutation_middle.
  - destruct (posted_in_bounds (mk_rl todo (p1 ++ op :: p2) lost credit dst false) op p1 p2 Hi eq_refl)
      as (d & E' & _ & Hi'). simpl in *. congruence.
Qed.

(** Events left: every read is posted once and completed once; one more event
    is an error that ends the loop. *)
Definition events_left (s : read_loop) : nat :=
  (2 * length (rl_todo s) + length (rl_posted s) + (if rl_error s then 0 else 1))%nat.

Lemma read_step_events s s' : some_step src s s' -> (events_left s' < events_left s)%nat.
Proof.
  intros [e Hs]. destruct Hs; unfold events_left; simpl; rewrite ?length_app; simpl; lia.
Qed.

Lemma read_progress s : loop_inv s -> rl_error s = false -> rl_lost s = [] -> reads_done s \/ exists s', fine_step src s s'.
Proof using Hrows Hbuf H32.
  intros Hi He Hl. destruct s as [todo [|op posted] lost credit dst err]; simpl in He, Hl; subst err lost.
  - destruct todo as [|op todo]; [by left|right]. destruct Hi as [Hc _]. simpl in Hc.
    eexists. exists (ev_post 0). split; [done|]. apply rl_post. lia.
  - right. destruct (posted_in_bounds _ op [] posted Hi eq_refl) as (d & E & _).
    eexists. exists (ev_completion 0 IBV_WC_RDMA_READ). split; [done|]. by apply (rl_complete src op [] posted).
Qed.

Lemma loop_done s :
  loop_inv s -> reads_done s ->
  exists A, copy_rows rows len src dst0 = Some A /\ rl_dst s = A.
Proof using Hrows.
  intros [_ (rd & rr & Hp & Hr & Hd & _)] (_ & Ht & Hpo & Hlo). rewrite Ht, Hpo, Hlo in Hr.
  apply Permutation_nil_r, fmap_nil_inv in Hr. subst rr. rewrite app_nil_r in Hp.
  destruct (copy_rows_perm len rows rd src dst0 Hp Hrows) as (A & E1 & E2 & _).
  exists A. split; [done|]. congruence.
Qed.

(** Without an error of the adapter nothing is lost. *)
Lemma fine_step_keeps s s' : fine_step src s s' -> rl_error s = false /\ rl_lost s = [] -> rl_error s' = false /\ rl_lost s' = [].
Proof.
  intros (e & He & Hs) [H1 H2]. destruct Hs as [| |rc op todo posted lost credit dst Hc Hrc| |status opcode todo posted lost credit dst [Hb|Hb]|]; cbn in *; try done.
  - apply Z.eqb_eq in He. lia.
  - apply Z.eqb_eq in He. lia.
  - destruct opcode; try done. apply Z.eqb_eq in He. lia.
  - by destruct opcode.
Qed.
End read_loop.

(** ** Scheduling in a transaction *)

Lemma find_update_tran id f l t :
  (forall t, tran_id (f t) = tran_id t) ->
  dart_rdma_find_read_tran id l = Some t ->
  dart_rdma_find_read_tran id (update_tran id f l) = Some (f t).
Proof.
  intros Hf. unfold dart_rdma_find_read_tran. induction l as [|u l IH]; [done|]. cbn.
  destruct (tran_id u =? id) eqn:E; cbn.
  - intros [= <-]. by rewrite Hf, E.
  - rewrite E. apply IH.
Qed.

Lemma schedule_all_spec ops h id t :
  dart_rdma_find_read_tran id (read_tran_list h) = Some t ->
  exists h', schedule_all true h id ops = (h', 0)
    /\ dart_rdma_find_read_tran id (read_tran_list h')
       = Some (set_ops t (rev ops ++ read_ops_list t)).
Proof.
  revert h t. induction ops as [|op ops IH]; intros h t Ht.
  - exists h. split; [done|]. rewrite Ht. by destruct t.
  - cbn [schedule_all]. unfold dart_rdma_schedule_read. rewrite Ht. cbn [Z.ltb Z.compare].
    set (f := fun t => set_ops t _).
    destruct (IH (set_trans h (update_tran id f (read_tran_list h))) (f t))
      as (h' & E & Hh').
    { by apply find_update_tran. }
    exists h'. split; [done|]. rewrite Hh'. unfold f. cbn.
    rewrite <- app_assoc. by destruct op.
Qed.

(** ** The reads of two descriptors *)

(** Buffers between which a copy is possible. *)
Record transfer_ok (src_odsc dst_odsc : obj_descriptor) (sd dd : list byte) : Prop := {
  to_src : buf_ok src_odsc sd;
  to_dst : buf_ok dst_odsc dd;
  to_dims : num_dims (bb dst_odsc) = num_dims (bb src_odsc);
  to_size : size dst_odsc = size src_odsc;
  to_meet : bbox_does_intersect (bb dst_odsc) (bb src_odsc) = true }.

(** The rows of the copy between them. *)
Definition transfer_rows (src_odsc dst_odsc : obj_descriptor) : list (Z * Z) :=
  let com := bbox_intersect (bb dst_odsc) (bb src_odsc) in
  nest_rows (num_dims (bb dst_odsc) - 1)
    (matrix_init (st dst_odsc) (bb dst_odsc) com (size dst_odsc))
    (matrix_init (st src_odsc) (bb src_odsc) com (size src_odsc)) 0 0.

Definition transfer_len (src_odsc dst_odsc : obj_descriptor) : Z :=
  row_len (matrix_init (st dst_odsc) (bb dst_odsc)
             (bbox_intersect (bb dst_odsc) (bb src_odsc)) (size dst_odsc)).

Lemma transfer_rows_ok src_odsc dst_odsc sd dd :
  transfer_ok src_odsc dst_odsc sd dd ->
  let com := bbox_intersect (bb dst_odsc) (bb src_odsc) in
  let a := matrix_init (st dst_odsc) (bb dst_odsc) com (size dst_odsc) in
  let b := matrix_init (st src_odsc) (bb src_odsc) com (size src_odsc) in
  rows_ok (transfer_len src_odsc dst_odsc) (transfer_rows src_odsc dst_odsc)
    (length dd) (length sd)
  /\ rdma_nest (num_dims (bb dst_odsc) - 1) a b 0 0 []
     = Some (map (row_op (transfer_len src_odsc dst_odsc)) (transfer_rows src_odsc dst_odsc))
  /\ matrix_copy a dd b sd
     = copy_rows (transfer_rows src_odsc dst_odsc) (transfer_len src_odsc dst_odsc) sd dd.
Proof.
  intros [Hs Hd Hdim Hsz Hm] com a b.
  pose proof (buf_size _ _ Hs) as Ss. pose proof (buf_size _ _ Hd) as Sd.
  pose proof Hs as [Ws Ds Zs Fs Ls]. pose proof Hd as [Wd Dd Zd Fd Ld].
  pose proof (bbox_intersect_wf _ _ Wd Ws Hdim Hm) as Wc. fold com in Wc.
  assert (Hin : forall i, (i < num_dims (bb dst_odsc))%nat ->
    cget (lb (bb dst_odsc)) i <= cget (lb com) i /\ cget (ub com) i <= cget (ub (bb dst_odsc)) i /\
    cget (lb (bb src_odsc)) i <= cget (lb com) i /\ cget (ub com) i <= cget (ub (bb src_odsc)) i).
  { intros i Hi. unfold com. rewrite cget_inter_lb, cget_inter_ub, max_spec, min_spec by done. lia. }
  assert (Hwa : weight (bb dst_odsc) (num_dims (bb dst_odsc)) * size dst_odsc < 2 ^ 64)
    by (by rewrite weight_card).
  assert (Hwb : weight (bb src_odsc) (num_dims (bb dst_odsc)) * size dst_odsc < 2 ^ 64)
    by (by rewrite Hdim, weight_card, Hsz).
  assert (Hla : weight (bb dst_odsc) (num_dims (bb dst_odsc)) * size dst_odsc
                <= Z.of_nat (length dd)) by (rewrite weight_card; lia).
  assert (Hlb : weight (bb src_odsc) (num_dims (bb dst_odsc)) * size dst_odsc
                <= Z.of_nat (length sd)) by (rewrite Hdim, weight_card, Hsz; lia).
  split; [|split].
  - split.
    + apply Z.lt_le_incl.
      by apply (row_len_pos (bb dst_odsc) (bb src_odsc) com _ _ (num_dims (bb dst_odsc))).
    + intros ao bo. by eapply rows_bounds.
    + eapply rows_consistent; done.
  - rewrite (rdma_nest_rows _ a b); [done|]. intros i Hi.
    by apply (views_ok (bb dst_odsc) (bb src_odsc) com _ _ _ _ (num_dims (bb dst_odsc))).
  - by eapply matrix_copy_as_rows.
Qed.

(** The whole buffer in one read, when the boxes are the same. *)
Lemma whole_copied src_odsc dst_odsc sd dd :
  transfer_ok src_odsc dst_odsc sd dd -> bb src_odsc = bb dst_odsc ->
  rows_ok (obj_data_size dst_odsc) [(0, 0)] (length dd) (length sd)
  /\ forall d', do_reads sd [mk_op 0 0 (obj_data_size dst_odsc)] dd = Some d' ->
       copied dst_odsc dd src_odsc sd d'.
Proof.
  intros [Hs Hd Hdim Hsz Hm] Hbb.
  pose proof (buf_size _ _ Hs) as Ss. pose proof (buf_size _ _ Hd) as Sd.
  pose proof Hs as [Ws Ds Zs Fs Ls]. pose proof Hd as [Wd Dd Zd Fd Ld].
  pose proof (box_card_pos _ Wd). rewrite Hbb in *.
  assert (Hpos : 0 <= obj_data_size dst_odsc) by nia.
  split.
  - split; [done| |].
    + intros ao bo [= -> ->]%list_elem_of_singleton. nia.
    + by intros ao bo ao' bo' j [= -> ->]%list_elem_of_singleton
        [= -> ->]%list_elem_of_singleton.
  - intros d' E. cbn in E. unfold do_read in E. cbn in E.
    destruct (memcpy_spec dd 0 sd 0 (obj_data_size dst_odsc)) as (d1 & E1 & L1 & M1); try nia.
    rewrite E1 in E. injection E as <-. split; [done|]. intros p k Hp Hk. rewrite Hbb.
    split; [intros _|done].
    assert (Hinb : inb (bb dst_odsc) (cget p) (num_dims (bb dst_odsc) - 1))
      by (apply in_box_inb; [lia|done]).
    pose proof (lin_range _ _ _ Hinb) as Hr.
    replace (S (num_dims (bb dst_odsc) - 1)) with (num_dims (bb dst_odsc)) in Hr by lia.
    rewrite weight_card in Hr. unfold cell_at. rewrite M1 by nia.
    rewrite (proj2 (Z.leb_le 0 _)), (proj2 (Z.ltb_lt _ _)) by nia. cbn [andb].
    f_equal. lia.
Qed.

(** What [schedule_rdma_reads] puts in an empty transaction. *)
Lemma schedule_rdma_reads_spec h id t src_odsc dst_odsc sd dd :
  dart_rdma_find_read_tran id (read_tran_list h) = Some t -> read_ops_list t = [] ->
  transfer_ok src_odsc dst_odsc sd dd ->
  exists h' rows len,
    schedule_rdma_reads true h id src_odsc dst_odsc = Some (h', 0)
    /\ dart_rdma_find_read_tran id (read_tran_list h')
       = Some (set_ops t (rev (map (row_op len) rows)))
    /\ rows_ok len rows (length dd) (length sd)
    /\ exists d', copy_rows rows len sd dd = Some d' /\ copied dst_odsc dd src_odsc sd d'.
Proof.
  intros Ht He Hok. unfold schedule_rdma_reads.
  destruct (obj_desc_equals_no_owner src_odsc dst_odsc) eqn:Eq.
  - apply andb_true_iff in Eq as [_ Eb].
    apply bbox_equals_true in Eb; [|apply Hok..].
    destruct (whole_copied _ _ _ _ Hok Eb) as [Hro Hc].
    destruct (schedule_all_spec [mk_op 0 0 (obj_data_size dst_odsc)] h id t Ht) as (h' & E & Hh').
    cbn [schedule_all src_offset dst_offset op_bytes] in E.
    destruct (dart_rdma_schedule_read true h id 0 0 (obj_data_size dst_odsc)) as [h1 err] eqn:E1.
    assert (err = 0 /\ h1 = h') as [-> ->].
    { destruct (err <? 0) eqn:El; [|].
      - injection E as -> ->. done.
      - injection E as ->. unfold dart_rdma_schedule_read in E1. rewrite Ht in E1.
        injection E1 as _ <-. done. }
    exists h', [(0, 0)], (obj_data_size dst_odsc). split; [done|]. rewrite He in Hh'.
    split; [done|]. split; [done|].
    destruct (copy_rows_perm _ _ _ sd dd (Permutation_refl _) Hro) as (d' & E' & _ & _).
    exists d'. split; [done|]. apply Hc. by rewrite <- do_reads_rows in E'.
  - destruct (transfer_rows_ok _ _ _ _ Hok) as (Hro & Hn & Hmc).
    unfold matrix_rdma_copy. cbn [m_num_dims matrix_init_d].
    pose proof (bo_dims _ _ (to_dst _ _ _ _ Hok)) as Hdims.
    destruct (Nat.leb_spec 1 (num_dims (bb dst_odsc))), (Nat.leb_spec (num_dims (bb dst_odsc)) 10);
      try lia. cbn [andb].
    change matrix_init_d with matrix_init. rewrite Hn. cbn [mbind option_bind].
    destruct (schedule_all_spec (map (row_op (transfer_len src_odsc dst_odsc))
      (transfer_rows src_odsc dst_odsc)) h id t Ht) as (h' & -> & Hh').
    eexists h', _, _. split; [done|]. rewrite He, app_nil_r in Hh'. split; [done|].
    split; [done|]. rewrite <- Hmc. destruct Hok as [H1 H2 H3 H4 H5].
    by apply copy_mats_copied.
Qed.

(** C9: The reads [schedule_rdma_reads] puts in a transaction, performed by
    the read loop of [dart_rdma_check_reads] in whatever order the adapter
    completes them, each of less than 2^32 bytes ([sge.length] is truncated).
    With any errors of the adapter and of the completion queue: the loop takes
    at most two events (post, completion) per read and one for an error, and
    if it reports the reads done, the receive buffer holds exactly what a copy
    of the common cells from the remote buffer would have left.  While there
    is no error the loop can always go on until it is done. *)
Theorem rdma_reads_any_order h id t src_odsc dst_odsc sd dd num_buf :
  dart_rdma_find_read_tran id (read_tran_list h) = Some t -> read_ops_list t = [] ->
  transfer_ok src_odsc dst_odsc sd dd -> 0 < num_buf ->
  exists h' t', schedule_rdma_reads true h id src_odsc dst_odsc = Some (h', 0)
    /\ dart_rdma_find_read_tran id (read_tran_list h') = Some t'
    /\ (Forall (fun op => op_bytes op < 2 ^ 32) (read_ops_list t') ->
        (forall k s, nsteps (some_step sd) k (read_loop_start num_buf t' dd) s ->
           (k <= 2 * length (read_ops_list t') + 1)%nat
           /\ (reads_done s -> copied dst_odsc dd src_odsc sd (rl_dst s)))
        /\ forall s, rtc (fine_step sd) (read_loop_start num_buf t' dd) s -> reads_done s \/ exists s', fine_step sd s s').
Proof.
  intros Ht He Hok Hbuf.
  destruct (schedule_rdma_reads_spec h id t _ _ _ _ Ht He Hok)
    as (h' & rows & len & E & Hf & Hro & d' & Hd' & Hc).
  eexists h', _. split; [done|]. split; [done|]. intros Hlt. set (t' := set_ops t _) in *.
  assert (H32 : forall r, r ∈ rows -> len < 2 ^ 32).
  { intros r Hr. apply (proj1 (list.Forall_forall _ _) Hlt (row_op len r)). cbn. apply list_elem_of_In, in_rev. rewrite rev_involutive.
    apply list_elem_of_In. by apply list_elem_of_fmap_2. }
  set (s0 := read_loop_start num_buf t' dd).
  assert (Hi0 : loop_inv sd dd len rows num_buf s0).
  { split; cbn; [lia|]. exists [], rows. split; [done|].
    split; [|done]. rewrite app_nil_r. symmetry. apply Permutation_sym, Permutation_rev. }
  split.
  - intros k s Hs.
    assert (Hi : loop_inv sd dd len rows num_buf s /\ (k + events_left s <= events_left s0)%nat).
    { revert Hs Hi0. generalize s0. induction 1 as [x|k x y z Hxy Hyz IH]; intros Hi0; [split; [done|lia]|].
      destruct IH as [IH1 IH2]; [by eapply read_step_inv|]. split; [done|]. apply read_step_events in Hxy. lia. }
    destruct Hi as [Hi Hev]. split.
    + unfold events_left in Hev at 2. cbn in Hev. cbn. lia.
    + intros Hdone. destruct (loop_done sd dd len rows num_buf Hro s Hi Hdone) as (A & HA & ->). congruence.
  - intros s Hs. assert (Hk : loop_inv sd dd len rows num_buf s /\ rl_error s = false /\ rl_lost s = []).
    { assert (H0 : rl_error s0 = false /\ rl_lost s0 = []) by done. revert Hs Hi0 H0. generalize s0.
      induction 1 as [x|x y z Hxy Hyz IH]; intros Hi0 H0; [done|]. apply IH; [|by eapply fine_step_keeps].
      eapply read_step_inv; [done|done|done|]. destruct Hxy as (e & _ & ?). by exists e. }
    destruct Hk as (Hk & He' & Hl'). by eapply read_progress.
Qed.

Definition demo_drh : dart_rdma_handle :=
  (dart_rdma_create_read_tran true (mk_drh 9 0 []) 3).1.

Lemma demo_transfer :
  transfer_ok (obj_desc demo_from) (obj_desc demo_to) (data demo_from) (data demo_to).
Proof. split; [apply demo_from_ok|apply demo_to_ok|reflexivity..]. Qed.

Lemma rdma_reads_any_order_witness :
  exists h' t', schedule_rdma_reads true demo_drh 0 (obj_desc demo_from) (obj_desc demo_to)
                = Some (h', 0)
    /\ dart_rdma_find_read_tran 0 (read_tran_list h') = Some t'
    /\ forall s, rtc (fine_step (data demo_from)) (read_loop_start 4 t' (data demo_to)) s ->
         reads_done s \/ exists s', fine_step (data demo_from) s s'.
Proof.
  destruct (rdma_reads_any_order demo_drh 0 (mk_tran 0 3 no_hndl no_hndl []) (obj_desc demo_from) (obj_desc demo_to)
    (data demo_from) (data demo_to) 4) as (h' & t' & E & Hf & H); [reflexivity|reflexivity|apply demo_transfer|lia|].
  exists h', t'. split; [exact E|]. split; [exact Hf|]. apply H.
  vm_compute in E. injection E as <-. vm_compute in Hf. injection Hf as <-. cbn. repeat constructor; lia.
Defined.

(** A read of 2^32 bytes asks the adapter for none. *)
Lemma long_read_truncated : sge_of (mk_op 0 0 (2 ^ 32)) = mk_op 0 0 0.
Proof. reflexivity. Qed.

(** A rejected read: the loop waits for it for ever. *)
Lemma rejected_read_stuck op dst : let s := mk_rl [] [] [op] 3 dst false in
  some_step [] (mk_rl [op] [] [] 4 dst false) s /\ ~ reads_done s /\ forall s', ~ fine_step [] s s'.
Proof.
  split; [exists (ev_post 22); by apply rl_post_lost|]. split; [by intros (_ & _ & _ & ?)|].
  intros s' (e & He & Hs). inversion Hs as [| | |op' p1 p2 todo lost credit d d' Hd E1 E2|status opcode todo posted lost credit d [Hb|Hb]|]; subst; cbn in He; try done.
  - by destruct p1.
  - destruct opcode; try done. apply Z.eqb_eq in He. lia.
  - by destruct opcode.
Qed.

(** ** The contiguous shortcut *)

(** The part asked for lies in the remote box, as [bbox_intersect] makes it. *)
Definition inside (src dst : bbox) : Prop :=
  forall i, (i < num_dims dst)%nat ->
    cget (lb src) i <= cget (lb dst) i /\ cget (ub dst) i <= cget (ub src) i.

(** The last cell of a box. *)
Lemma lin_top b d : lin b (cget (ub b)) d = weight b (S d) - 1.
Proof.
  induction d as [|d IH]; cbn [lin]; [cbn [weight]; unfold ext; lia|].
  rewrite IH. change (weight b (S (S d))) with (weight b (S d) * ext b (S d)).
  unfold ext. ring.
Qed.

Section contiguous.
Context (src_odsc dst_odsc : obj_descriptor) (sd dd : list byte).
Context (Hok : transfer_ok src_odsc dst_odsc sd dd) (Hin : inside (bb src_odsc) (bb dst_odsc)).
Context (Hc : is_remote_data_contiguous_in_memory src_odsc dst_odsc = true).

Let n := num_dims (bb dst_odsc).
Let from := matrix_init_d (st src_odsc) (bb src_odsc)
              (bbox_intersect (bb dst_odsc) (bb src_odsc)) (size src_odsc).

Lemma contig_ext i : (i < n)%nat -> ext (bb src_odsc) i < 2 ^ 64.
Proof using Hok.
  intros Hi. destruct Hok as [[Ws Ds Zs Fs Ls] _ Hdim _ _].
  pose proof (ext_le_weight (bb src_odsc) i Ws (eq_sym Hdim) Hi).
  pose proof (weight_mono (bb src_odsc) (S i) n Ws (eq_sym Hdim) ltac:(lia)) as Hmono.
  unfold n in Hmono. rewrite Hdim, weight_card in Hmono. nia.
Qed.

Lemma contig_view i :
  (i < n)%nat ->
  cget (dist from) i = ext (bb src_odsc) i
  /\ cget (view_lb from) i = cget (lb (bb dst_odsc)) i - cget (lb (bb src_odsc)) i
  /\ cget (view_ub from) i = cget (ub (bb dst_odsc)) i - cget (lb (bb src_odsc)) i.
Proof using Hok Hin.
  intros Hi. destruct Hok as [Hs Hd Hdim Hsz Hm]. pose proof Hs as [Ws Ds Zs Fs Ls].
  destruct (Hin i Hi) as [H1 H2].
  assert (Hl : cget (lb (bbox_intersect (bb dst_odsc) (bb src_odsc))) i
               = cget (lb (bb dst_odsc)) i) by (rewrite cget_inter_lb, max_spec by done; lia).
  assert (Hu : cget (ub (bbox_intersect (bb dst_odsc) (bb src_odsc))) i
               = cget (ub (bb dst_odsc)) i) by (rewrite cget_inter_ub, min_spec by done; lia).
  unfold from, matrix_init_d. cbn [dist view_lb view_ub].
  rewrite !cget_map_seq by (unfold n in Hi; lia). rewrite Hl, Hu.
  pose proof Ws as (_ & _ & Hw). specialize (Hw i ltac:(unfold n in Hi; lia)).
  pose proof (to_dst _ _ _ _ Hok) as [Wd _ _ _ _].
  pose proof Wd as (_ & _ & Hwd). specialize (Hwd i Hi).
  pose proof (contig_ext i Hi) as He.
  unfold bbox_dist, coord_dist, ext in *. rewrite !u64_small by lia. done.
Qed.

(** Below the last dimension the two boxes have the same bounds. *)
Lemma contig_same i :
  (i < n - 1)%nat ->
  cget (lb (bb dst_odsc)) i = cget (lb (bb src_odsc)) i
  /\ cget (ub (bb dst_odsc)) i = cget (ub (bb src_odsc)) i.
Proof using Hok Hin Hc.
  intros Hi. pose proof (to_dims _ _ _ _ Hok) as Hdim.
  unfold is_remote_data_contiguous_in_memory in Hc.
  destruct (negb _); [done|]. fold from in Hc. rewrite forallb_seq in Hc.
  specialize (Hc i). cbn [from matrix_init_d m_num_dims] in Hc. rewrite <- Hdim in Hc.
  specialize (Hc Hi). apply Z.eqb_eq in Hc. fold from in Hc.
  destruct (contig_view i ltac:(lia)) as (E1 & E2 & E3). rewrite E1, E2, E3 in Hc.
  destruct (Hin i ltac:(unfold n in Hi; lia)) as [H1 H2].
  pose proof (to_src _ _ _ _ Hok) as [Ws Ds _ _ _]. pose proof Ws as (_ & _ & Hw).
  specialize (Hw i ltac:(unfold n in Hi; lia)).
  pose proof (to_dst _ _ _ _ Hok) as [(_ & _ & Hwd) _ _ _ _].
  specialize (Hwd i ltac:(unfold n in Hi; lia)). pose proof (contig_ext i ltac:(lia)) as He.
  unfold ext in Hc, He. revert Hc. rewrite (u64_small (_ - _)) by lia. rewrite u64_small by lia. lia.
Qed.

Lemma contig_weight i : (i <= n - 1)%nat -> weight (bb dst_odsc) i = weight (bb src_odsc) i.
Proof using Hok Hin Hc.
  induction i as [|i IH]; intros Hi; [done|]. cbn [weight]. rewrite IH by lia.
  unfold ext. destruct (contig_same i ltac:(lia)) as [-> ->]. done.
Qed.

(** A cell of the part, in the remote buffer and in the receive buffer. *)
Lemma contig_lin p :
  lin (bb src_odsc) p (n - 1)
  = lin (bb dst_odsc) p (n - 1)
    + (cget (lb (bb dst_odsc)) (n - 1) - cget (lb (bb src_odsc)) (n - 1))
      * weight (bb src_odsc) (n - 1).
Proof using Hok Hin Hc.
  assert (Hlow : forall d, (d < n - 1)%nat -> lin (bb src_odsc) p d = lin (bb dst_odsc) p d).
  { induction d as [|d IH]; intros Hd; cbn [lin].
    - by destruct (contig_same 0 Hd) as [-> _].
    - rewrite IH by lia. destruct (contig_same (S d) Hd) as [-> _].
      by rewrite (contig_weight (S d)) by lia. }
  destruct (n - 1)%nat as [|m] eqn:En; [cbn [lin weight]; lia|]. cbn [lin].
  rewrite Hlow by lia. rewrite (contig_weight (S m)) by lia. ring.
Qed.

Lemma contig_offset :
  calculate_offset_for_remote_data src_odsc dst_odsc
  = (cget (lb (bb dst_odsc)) (n - 1) - cget (lb (bb src_odsc)) (n - 1))
    * weight (bb src_odsc) (n - 1) * size src_odsc.
Proof using Hok Hin.
  pose proof Hok as [Hs Hd Hdim Hsz Hm]. pose proof Hs as [Ws Ds Zs Fs Ls].
  pose proof Hd as [Wd Dd Zd Fd Ld].
  assert (Hcard : weight (bb src_odsc) n * size src_odsc < 2 ^ 64)
    by (unfold n; by rewrite Hdim, weight_card).
  assert (Hwp : forall i, (i <= n)%nat -> 1 <= weight (bb src_odsc) i <= weight (bb src_odsc) n).
  { intros i Hi. split.
    - pose proof (wf_weight (bb src_odsc) i Ws (eq_sym Hdim) Hi). lia.
    - by apply (weight_mono (n := n)); [|symmetry|lia]. }
  unfold calculate_offset_for_remote_data. fold from.
  change (m_num_dims from) with (num_dims (bb src_odsc)). rewrite <- Hdim. fold n.
  assert (Hprod : forall m, (m <= n - 1)%nat ->
    fold_left (fun x i => u64 (x * cget (dist from) i)) (seq 0 m) 1 = weight (bb src_odsc) m).
  { induction m as [|m IH]; intros Hm'; [done|].
    rewrite seq_S, fold_left_app, IH by lia. cbn [fold_left Nat.add].
    destruct (contig_view m ltac:(lia)) as (-> & _ & _).
    change (weight (bb src_odsc) m * ext (bb src_odsc) m) with (weight (bb src_odsc) (S m)).
    pose proof (Hwp (S m) ltac:(lia)). apply u64_small. nia. }
  rewrite Hprod by lia. destruct (contig_view (n - 1)%nat ltac:(unfold n; lia)) as (_ & -> & _).
  change (size_elem from) with (size src_odsc).
  destruct (Hin (n - 1)%nat ltac:(unfold n; lia)) as [H1 H2].
  pose proof Wd as (_ & _ & Hwd). specialize (Hwd (n - 1)%nat ltac:(unfold n; lia)).
  set (o := _ - _). assert (Ho : 0 <= o < ext (bb src_odsc) (n - 1)) by (unfold o, ext; lia).
  assert (Hlast : weight (bb src_odsc) n
                  = weight (bb src_odsc) (n - 1) * ext (bb src_odsc) (n - 1)).
  { replace n with (S (n - 1)) at 1 by (unfold n; lia). done. }
  pose proof (Hwp (n - 1)%nat ltac:(lia)).
  rewrite (u64_small (weight _ _ * o)) by nia. rewrite u64_small by nia. ring.
Qed.

(** The read stays inside the remote buffer. *)
Lemma contig_fit :
  0 <= calculate_offset_for_remote_data src_odsc dst_odsc
  /\ calculate_offset_for_remote_data src_odsc dst_odsc + obj_data_size dst_odsc
     <= obj_data_size src_odsc.
Proof using Hok Hin Hc.
  pose proof Hok as [Hs Hd Hdim Hsz Hm].
  pose proof (buf_size _ _ Hs) as Ss. pose proof (buf_size _ _ Hd) as Sd.
  pose proof Hs as [Ws Ds Zs Fs Ls]. pose proof Hd as [Wd Dd Zd Fd Ld].
  assert (Hhi : inb (bb src_odsc) (cget (ub (bb dst_odsc))) (n - 1)).
  { intros i Hi. destruct (Hin i ltac:(unfold n in Hi; lia)). pose proof Wd as (_ & _ & Hw).
    specialize (Hw i ltac:(unfold n in Hi; lia)). lia. }
  apply lin_range in Hhi. rewrite contig_lin, lin_top in Hhi.
  replace (S (n - 1)) with n in Hhi by (unfold n; lia).
  assert (Hcd : weight (bb dst_odsc) n = box_card (bb dst_odsc)) by apply weight_card.
  assert (Hcs : weight (bb src_odsc) n = box_card (bb src_odsc))
    by (unfold n; rewrite Hdim; apply weight_card).
  rewrite Hcd, Hcs in Hhi.
  destruct (Hin (n - 1)%nat ltac:(unfold n; lia)) as [H _].
  pose proof (wf_weight (bb src_odsc) (n - 1) Ws (eq_sym Hdim) ltac:(unfold n; lia)) as H1.
  rewrite contig_offset, Sd, Ss, Hsz.
  set (o := cget (lb (bb dst_odsc)) (n - 1) - _) in *.
  set (w := weight (bb src_odsc) (n - 1)) in *.
  assert (Hle : box_card (bb dst_odsc) + o * w <= box_card (bb src_odsc)) by lia.
  clear - Hle Zs H1 H. assert (0 <= o * w) by (apply Z.mul_nonneg_nonneg; unfold o; lia). nia.
Qed.
End contiguous.

Lemma contiguous_read_spec src_odsc dst_odsc sd dd :
  transfer_ok src_odsc dst_odsc sd dd -> inside (bb src_odsc) (bb dst_odsc) ->
  is_remote_data_contiguous_in_memory src_odsc dst_odsc = true ->
  exists d',
    do_reads sd [mk_op (calculate_offset_for_remote_data src_odsc dst_odsc) 0
                       (obj_data_size dst_odsc)] dd = Some d'
    /\ copied dst_odsc dd src_odsc sd d'.
Proof.
  intros Hok Hin Hc. pose proof Hok as [Hs Hd Hdim Hsz Hm].
  pose proof (buf_size _ _ Hs) as Ss. pose proof (buf_size _ _ Hd) as Sd.
  pose proof Hs as [Ws Ds Zs Fs Ls]. pose proof Hd as [Wd Dd Zd Fd Ld].
  pose proof (box_card_pos _ Wd) as Hcd.
  pose proof (contig_offset _ _ _ _ Hok Hin) as Ho.
  assert (Hlin := contig_lin _ _ _ _ Hok Hin Hc).
  set (m := (num_dims (bb dst_odsc) - 1)%nat) in *.
  set (off := calculate_offset_for_remote_data src_odsc dst_odsc) in *.
  pose proof (contig_fit _ _ _ _ Hok Hin Hc) as Hfit. fold off in Hfit.
  destruct (memcpy_spec dd 0 sd off (obj_data_size dst_odsc)) as (d' & E & L & M); try nia.
  exists d'. cbn [do_reads]. unfold do_read. cbn [src_offset dst_offset op_bytes].
  rewrite E. split; [done|]. split; [done|]. intros p k Hp Hk.
  assert (Hinb : inb (bb dst_odsc) (cget p) m) by (apply in_box_inb; [lia|done]).
  split.
  - intros _. unfold cell_at. rewrite <- Hdim. fold m. rewrite Hlin.
    pose proof (lin_range _ _ _ Hinb) as Hr.
    replace (S m) with (num_dims (bb dst_odsc)) in Hr by (unfold m; lia).
    rewrite weight_card in Hr. rewrite M by nia.
    rewrite (proj2 (Z.leb_le 0 _)), (proj2 (Z.ltb_lt _ _)) by nia. cbn [andb].
    f_equal. rewrite Ho, Hsz. ring.
  - intros []. apply inb_in_box; [lia|destruct Hp; congruence|]. rewrite <- Hdim.
    intros i Hi. specialize (Hinb i Hi). destruct (Hin i ltac:(lia)). lia.
Qed.

(** When [is_remote_data_contiguous_in_memory] says so, the single read
    of [obj_data_size] bytes at [calculate_offset_for_remote_data] stays
    inside both buffers and fetches every cell of the part asked for: the
    same result as the row by row copy. *)
Theorem contiguous_read_exact src_odsc dst_odsc sd dd :
  transfer_ok src_odsc dst_odsc sd dd -> inside (bb src_odsc) (bb dst_odsc) ->
  is_remote_data_contiguous_in_memory src_odsc dst_odsc = true ->
  exists d',
    do_reads sd [mk_op (calculate_offset_for_remote_data src_odsc dst_odsc) 0
                       (obj_data_size dst_odsc)] dd = Some d'
    /\ copied dst_odsc dd src_odsc sd d'.
Proof. apply contiguous_read_spec. Qed.

Definition demo_whole : obj_descriptor := demo_desc (mk_bbox 2 [0; 0] [3; 3]).
Definition demo_part : obj_descriptor := demo_desc (mk_bbox 2 [0; 1] [3; 2]).

Lemma demo_part_ok :
  transfer_ok demo_whole demo_part (replicate 16 Byte.x05) (replicate 8 Byte.x00)
  /\ inside (bb demo_whole) (bb demo_part).
Proof.
  split.
  - split; [..|reflexivity|reflexivity|reflexivity];
      (split; [|cbn; lia|cbn; lia|reflexivity|vm_compute; congruence]);
      (split; [done|]); (split; [done|]); intros i Hi; cbn in Hi;
      destruct i as [|[|i]]; unfold cget; cbn; lia.
  - intros i Hi. cbn in Hi. destruct i as [|[|i]]; unfold cget; cbn; lia.
Qed.

Lemma contiguous_read_exact_witness :
  exists d',
    do_reads (replicate 16 Byte.x05)
      [mk_op (calculate_offset_for_remote_data demo_whole demo_part) 0
             (obj_data_size demo_part)] (replicate 8 Byte.x00) = Some d'
    /\ copied demo_part (replicate 8 Byte.x00) demo_whole (replicate 16 Byte.x05) d'.
Proof.
  apply (contiguous_read_exact demo_whole demo_part); [apply demo_part_ok..|].
  vm_compute. reflexivity.
Defined.
