(* ===== verification/DimesStore.v ===== *)
(** * The memory and the storage of a DIMES client (src/dimes_client.c)

    A client keeps the objects it has put until the application releases
    their group.  [dmem] is the client's memory: the options with the
    accounting of RDMA memory, the buffer allocator, and the contents of the
    blocks in use by address.  The storage is a list of groups, each with one
    list of objects per version bin.

    The allocation functions of the C library and the registration of memory
    with the adapter are parameters ([mem_env]).

    Theorems: the accounting of RDMA memory is exact through every
    allocation, put and release, and never exceeds the configured size;
    releasing a group frees the memory of exactly its objects; a storage
    checkpoint restores every object of every group and version when the names
    of the groups have less than 256 characters; with the
    pre-allocated buffer enabled, the handle of an allocation loses its
    memory type, so its release neither returns the memory nor the
    accounting. *)

From stdpp Require Import gmap.
From S2P Require Import Prelude Bbox Matrix ObjDesc Storage DimesBuf DimesMeta Rdma.

#[local] Open Scope Z_scope.
Import DimesBuf.

(** ** Options and memory *)

Record dimes_client_option := mk_opt {
  enable_pre_allocated_rdma_buffer : bool;
  pre_allocated_rdma_buffer_size : Z;
  pre_allocated_rdma_handle : dart_rdma_mem_handle;
  rdma_buffer_size : Z;
  rdma_buffer_usage : Z;
  max_num_concurrent_rdma_read_op : Z;
  enable_shmem_buffer : bool;
  enable_get_local : bool }.

Definition set_usage (o : dimes_client_option) (u : Z) : dimes_client_option :=
  mk_opt (enable_pre_allocated_rdma_buffer o) (pre_allocated_rdma_buffer_size o)
    (pre_allocated_rdma_handle o) (rdma_buffer_size o) u (max_num_concurrent_rdma_read_op o)
    (enable_shmem_buffer o) (enable_get_local o).

(** A block of memory: whether it came from [malloc], and its bytes. *)
Record mem_block := mk_mb { mb_malloc : bool; mb_bytes : list byte }.

Record dmem := mk_dmem {
  options : dimes_client_option;
  dm_buffer : dimes_buffer;
  heap : gmap Z mem_block }.

(** [malloc], [dart_rdma_register_mem] and [dart_rdma_deregister_mem] during
    one call, and the bytes fresh memory holds. *)
Record mem_env := mk_menv {
  me_malloc : gmap Z mem_block -> Z -> Z;  (* address, 0 for NULL; by the blocks in use *)
  me_register : Z -> Z;            (* return code, by address *)
  me_deregister : Z -> Z;
  me_fresh : Z -> list byte        (* content of a new block of the size *) }.

(** [uses_rdma]: the types counted in the usage. *)
Definition uses_rdma (t : dart_memory_type) : bool :=
  match t with dart_memory_rdma | dart_memory_shmem_rdma => true | _ => false end.

Definition get_available_rdma_buffer_size (o : dimes_client_option) : Z :=
  if rdma_buffer_size o <? rdma_buffer_usage o then 0
  else rdma_buffer_size o - rdma_buffer_usage o.

Definition add_usage (m : dmem) (x : Z) : dmem :=
  mk_dmem (set_usage (options m) (u64 (rdma_buffer_usage (options m) + x))) (dm_buffer m) (heap m).

Definition new_block (m : dmem) (p : Z) (malloced : bool) (bytes : list byte) : dmem :=
  mk_dmem (options m) (dm_buffer m) (<[p := mk_mb malloced bytes]> (heap m)).

(** [malloc]: the new block, or [None]. *)
Definition mem_malloc (env : mem_env) (m : dmem) (size : Z) : option (dmem * Z) :=
  let p := me_malloc env (heap m) size in
  if p =? 0 then None else Some (new_block m p true (me_fresh env size), p).

(** [dimes_buffer_alloc] in the memory. *)
Definition mem_buffer_alloc (env : mem_env) (m : dmem) (size : Z) : option (dmem * Z) :=
  let '(b, p) := dimes_buffer_alloc size (dm_buffer m) in
  if p =? 0 then None
  else Some (new_block (mk_dmem (options m) b (heap m)) p false (me_fresh env size), p).

(** [rdma_hndl] after [dart_rdma_register_mem]. *)
Definition registered (p size : Z) (t : dart_memory_type) : dart_rdma_mem_handle :=
  mk_hndl p p size t.

(** The new memory and, on success, the handle.  An allocation whose
    registration fails stays allocated.  With the pre-allocated buffer the
    whole handle of the buffer is copied, its memory type included. *)
Definition dimes_memory_alloc (env : mem_env) (m : dmem) (size : Z) (type : dart_memory_type)
    : dmem * option dart_rdma_mem_handle :=
  let o := options m in
  let use_rdma_memory := uses_rdma type in
  let done (m : dmem) (h : dart_rdma_mem_handle) :=
    (if use_rdma_memory then add_usage m size else m, Some h) in
  if use_rdma_memory && (get_available_rdma_buffer_size o <? size) then (m, None)
  else
    match type with
    | dart_memory_non_rdma =>
        match mem_malloc env m size with
        | None => (m, None)
        | Some (m, buf) => done m (mk_hndl 0 buf size type)
        end
    | dart_memory_rdma =>
        if enable_pre_allocated_rdma_buffer o then
          match mem_buffer_alloc env m size with
          | None => (m, None)
          | Some (m, buf) =>
              let h := pre_allocated_rdma_handle o in
              done m (mk_hndl (mr_addr h) buf size (mem_type h))
          end
        else
          match mem_malloc env m size with
          | None => (m, None)
          | Some (m, buf) =>
              if me_register env buf <? 0 then (m, None) else done m (registered buf size type)
          end
    | dart_memory_shmem_non_rdma =>
        if enable_shmem_buffer o then
          match mem_buffer_alloc env m size with
          | None => (m, None)
          | Some (m, buf) => done m (mk_hndl 0 buf size type)
          end
        else (m, None)
    | dart_memory_shmem_rdma =>
        if enable_shmem_buffer o then
          match mem_buffer_alloc env m size with
          | None => (m, None)
          | Some (m, buf) =>
              if me_register env buf <? 0 then (m, None) else done m (registered buf size type)
          end
        else (m, None)
    end.

(** [free(p)]: undefined unless [p] is a block [malloc] returned. *)
Definition mem_free (m : dmem) (p : Z) : option dmem :=
  b ← heap m !! p;
  if mb_malloc b then Some (mk_dmem (options m) (dm_buffer m) (delete p (heap m))) else None.

Definition mem_buffer_free (m : dmem) (p : Z) : dmem :=
  mk_dmem (options m) (dimes_buffer_free p (dm_buffer m)) (delete p (heap m)).

Definition dimes_memory_free (env : mem_env) (m : dmem) (h : dart_rdma_mem_handle)
    : option (dmem * Z) :=
  let o := options m in
  let done (m : dmem) :=
    (if uses_rdma (mem_type h) then add_usage m (- hndl_size h) else m, 0) in
  match mem_type h with
  | dart_memory_non_rdma => m ← mem_free m (base_addr h); Some (done m)
  | dart_memory_rdma =>
      if enable_pre_allocated_rdma_buffer o then Some (done (mem_buffer_free m (base_addr h)))
      else if me_deregister env (base_addr h) <? 0 then Some (m, -1)
      else m ← mem_free m (base_addr h); Some (done m)
  | dart_memory_shmem_non_rdma =>
      if enable_shmem_buffer o then Some (done (mem_buffer_free m (base_addr h)))
      else Some (m, -1)
  | dart_memory_shmem_rdma =>
      if enable_shmem_buffer o then
        if me_deregister env (base_addr h) <? 0 then Some (m, -1)
        else Some (done (mem_buffer_free m (base_addr h)))
      else Some (m, -1)
  end.

Definition set_pre_allocated (o : dimes_client_option) (on : bool) (h : dart_rdma_mem_handle)
    (size : Z) : dimes_client_option :=
  mk_opt on (pre_allocated_rdma_buffer_size o) h size (rdma_buffer_usage o)
    (max_num_concurrent_rdma_read_op o) (enable_shmem_buffer o) (enable_get_local o).

(** The pre-allocated buffer, when it is enabled: allocated, registered
    (which does not set the memory type of its handle) and given to the
    allocator. *)
Definition dimes_memory_init (env : mem_env) (m : dmem) : dmem * Z :=
  let o := options m in
  if enable_pre_allocated_rdma_buffer o then
    let size := pre_allocated_rdma_buffer_size o in
    let off m := mk_dmem (set_pre_allocated o false (pre_allocated_rdma_handle o)
                            (rdma_buffer_size o)) (dm_buffer m) (heap m) in
    match mem_malloc env m size with
    | None => (off m, -1)
    | Some (m1, buf) =>
        if me_register env buf <? 0 then (off m, -1)
        else
          let h := registered buf size (mem_type (pre_allocated_rdma_handle o)) in
          (mk_dmem (set_pre_allocated o true h size)
             (dimes_buffer_init (base_addr h) size (dm_buffer m)).1 (heap m1), 0)
    end
  else (m, 0).

Definition dimes_memory_finalize (env : mem_env) (m : dmem) : option (dmem * Z) :=
  let o := options m in
  if enable_pre_allocated_rdma_buffer o then
    let h := pre_allocated_rdma_handle o in
    let err := me_deregister env (base_addr h) in
    if err <? 0 then Some (m, err)
    else
      let m := mk_dmem o (dimes_buffer_finalize (dm_buffer m)).1 (heap m) in
      m ← mem_free m (base_addr h); Some (m, 0)
  else Some (m, 0).

(** ** Objects and groups *)

Record dimes_memory_obj := mk_mo {
  mo_id : dimes_obj_id;
  mo_desc : obj_descriptor;
  mo_shmem : dimes_shmem_descriptor;
  mo_gdim : global_dimension;
  mo_hndl : dart_rdma_mem_handle }.

Record dimes_storage_group := mk_grp { grp_name : string; grp_tab : list (list dimes_memory_obj) }.

(** The storage: the groups and the name new objects are filed under. *)
Record dimes_storage := mk_sto {
  sto_max_versions : Z;
  sto_groups : list dimes_storage_group;
  current_group_name : string }.

Definition STORAGE_GROUP_NAME_MAXLEN : nat := 256.
Definition default_group_name : string := "__default_storage_group__".

Definition set_groups (s : dimes_storage) (l : list dimes_storage_group) : dimes_storage :=
  mk_sto (sto_max_versions s) l (current_group_name s).

(** [name = NULL] leaves the current name; a long name is cut. *)
Definition update_current_group_name (s : dimes_storage) (nm : option string) : dimes_storage :=
  match nm with
  | None => s
  | Some nm => mk_sto (sto_max_versions s) (sto_groups s)
                 (String.substring 0 STORAGE_GROUP_NAME_MAXLEN nm)
  end.

Definition storage_init (max_versions : Z) (s : dimes_storage) : dimes_storage :=
  update_current_group_name (mk_sto max_versions [] (current_group_name s))
    (Some default_group_name).

Definition mem_obj_list_add (l : list dimes_memory_obj) (p : dimes_memory_obj)
    : list dimes_memory_obj := p :: l.

Definition mem_obj_list_lookup (l : list dimes_memory_obj) (oid : dimes_obj_id)
    : option dimes_memory_obj := List.find (fun p => equal_dimes_obj_id (mo_id p) oid) l.

(** A new group, in front; [None] when an allocation fails. *)
Definition storage_add_group (ok : bool) (max : Z) (l : list dimes_storage_group) (nm : string)
    : option (list dimes_storage_group) :=
  if ok then Some (mk_grp nm (replicate (Z.to_nat max) []) :: l) else None.

Definition storage_lookup_group (l : list dimes_storage_group) (nm : string)
    : option (nat * dimes_storage_group) := list_find (fun g => grp_name g = nm) l.

(** The object in front of its version list, in a group that is created
    when it does not exist; a failed creation is dereferenced. *)
Definition group_add_obj (ok : bool) (max : Z) (l : list dimes_storage_group) (nm : string)
    (o : dimes_memory_obj) : option (list dimes_storage_group) :=
  let tab_idx := bin_of (version (mo_desc o)) max in
  let add g := mk_grp (grp_name g) (alter (fun l => mem_obj_list_add l o) tab_idx (grp_tab g)) in
  match storage_lookup_group l nm with
  | Some (i, _) => Some (alter add i l)
  | None => l ← storage_add_group ok max l nm; Some (alter add 0%nat l)
  end.

Definition storage_add_obj (ok : bool) (s : dimes_storage) (o : dimes_memory_obj)
    : option dimes_storage :=
  l ← group_add_obj ok (sto_max_versions s) (sto_groups s) (current_group_name s) o;
  Some (set_groups s l).

(** The first match over the groups; the version is an [int] here. *)
Definition storage_lookup_obj (s : dimes_storage) (oid : dimes_obj_id) (version : Z)
    : option dimes_memory_obj :=
  let idx := Z.rem (s32 version) (sto_max_versions s) in
  if idx <? 0 then None
  else head (omap (fun g => l ← grp_tab g !! Z.to_nat idx; mem_obj_list_lookup l oid)
               (sto_groups s)).

(** Objects freed one after the other; the error codes are not looked at. *)
Fixpoint free_objs (env : mem_env) (m : dmem) (l : list dimes_memory_obj) : option dmem :=
  match l with
  | [] => Some m
  | o :: l => '(m, _) ← dimes_memory_free env m (mo_hndl o); free_objs env m l
  end.

(** Every object of the group is released and the group at position [i] is
    unlinked. *)
Definition storage_free_group (env : mem_env) (m : dmem) (s : dimes_storage) (i : nat)
    : option (dmem * dimes_storage * Z) :=
  g ← sto_groups s !! i;
  m ← free_objs env m (concat (grp_tab g));
  Some (m, set_groups s (delete i (sto_groups s)), 0).

Fixpoint free_groups (env : mem_env) (m : dmem) (l : list dimes_storage_group) : option dmem :=
  match l with
  | [] => Some m
  | g :: l => m ← free_objs env m (concat (grp_tab g)); free_groups env m l
  end.

Definition storage_free (env : mem_env) (m : dmem) (s : dimes_storage)
    : option (dmem * dimes_storage) :=
  m ← free_groups env m (sto_groups s); Some (m, set_groups s []).

Definition dimes_client_put_sync_all (env : mem_env) (m : dmem) (s : dimes_storage)
    : option (dmem * dimes_storage * Z) :=
  '(m, s) ← storage_free env m s; Some (m, s, 0).

Definition dimes_client_put_set_group (s : dimes_storage) (nm : option string)
    : dimes_storage * Z := (update_current_group_name s nm, 0).

Definition dimes_client_put_unset_group (s : dimes_storage) : dimes_storage * Z :=
  (update_current_group_name s (Some default_group_name), 0).

Definition dimes_client_put_sync_group (env : mem_env) (m : dmem) (s : dimes_storage) (nm : string)
    : option (dmem * dimes_storage * Z) :=
  match storage_lookup_group (sto_groups s) nm with
  | None => Some (m, s, 0)
  | Some (i, _) => storage_free_group env m s i
  end.

(** ** The memory invariant *)

Definition buffered (t : dart_memory_type) : bool :=
  match t with dart_memory_shmem_non_rdma | dart_memory_shmem_rdma => true | _ => false end.

(** What a handle counts for in the usage. *)
Definition rdma_size (h : dart_rdma_mem_handle) : Z :=
  if uses_rdma (mem_type h) then hndl_size h else 0.

Definition total_rdma (hs : list dart_rdma_mem_handle) : Z :=
  foldr (fun h x => rdma_size h + x) 0 hs.

Definition used_at (b : dimes_buffer) (p n : Z) : Prop :=
  exists blk, blk ∈ used_blocks_list b /\ block_ptr blk = p /\ block_size blk = n.

Definition in_range (b : dimes_buffer) (p : Z) : Prop :=
  dimes_buffer_ptr b <= p < dimes_buffer_ptr b + dimes_buffer_size b.

(** A handle whose memory is allocated. *)
Record live (m : dmem) (h : dart_rdma_mem_handle) : Prop := {
  lv_size : 0 < hndl_size h;
  lv_heap : exists blk, heap m !! base_addr h = Some blk
    /\ mb_malloc blk = negb (buffered (mem_type h))
    /\ hndl_size h <= Z.of_nat (length (mb_bytes blk));
  lv_buf : buffered (mem_type h) = true ->
    enable_shmem_buffer (options m) = true
    /\ used_at (dm_buffer m) (base_addr h) (hndl_size h) }.

(** [hs] are the handles in use: their memory is allocated and disjoint, and
    the usage is the sum of their sizes, within the configured limit. *)
Record mem_inv (m : dmem) (hs : list dart_rdma_mem_handle) : Prop := {
  mm_pre : enable_pre_allocated_rdma_buffer (options m) = false;
  mm_bound : rdma_buffer_size (options m) < 2 ^ 64;
  mm_usage : rdma_buffer_usage (options m) = total_rdma hs;
  mm_le : total_rdma hs <= rdma_buffer_size (options m);
  mm_nodup : NoDup (map base_addr hs);
  mm_live : Forall (live m) hs;
  mm_buf : enable_shmem_buffer (options m) = true -> buf_inv (dm_buffer m);
  mm_heap : forall p blk, heap m !! p = Some blk ->
    if mb_malloc blk then ~ in_range (dm_buffer m) p
    else enable_shmem_buffer (options m) = true /\ exists n, used_at (dm_buffer m) p n }.

(** [malloc] returns memory that is not in use and not in the segment. *)
Record env_ok (env : mem_env) (m : dmem) : Prop := {
  eo_malloc : forall hp n, me_malloc env hp n <> 0 ->
    hp !! me_malloc env hp n = None /\ ~ in_range (dm_buffer m) (me_malloc env hp n);
  eo_fresh : forall n, n <= Z.of_nat (length (me_fresh env n)) }.

Lemma total_rdma_nonneg m hs : Forall (live m) hs -> 0 <= total_rdma hs.
Proof.
  induction 1 as [|h hs Hh _ IH]; simpl; [lia|]. pose proof (lv_size _ _ Hh).
  unfold rdma_size. case_if; lia.
Qed.

Lemma total_rdma_perm hs hs' : hs ≡ₚ hs' -> total_rdma hs = total_rdma hs'.
Proof. induction 1; simpl; lia. Qed.

Lemma mem_inv_perm m hs hs' : hs ≡ₚ hs' -> mem_inv m hs -> mem_inv m hs'.
Proof.
  intros Hp [H1 H2 H3 H4 H5 H6 H7 H8].
  split; rewrite <- ?(total_rdma_perm _ _ Hp); try done; by rewrite <- Hp.
Qed.

Lemma live_heap m l h : mem_inv m l -> h ∈ l -> is_Some (heap m !! base_addr h).
Proof.
  intros Hi Hin. pose proof (mm_live _ _ Hi) as Hf.
  apply (proj1 (list.Forall_forall _ _) Hf) in Hin. destruct Hin as [_ (b & -> & _) _]. eauto.
Qed.

(** What [dimes_buffer_alloc] does to the blocks in use. *)
Lemma buffer_alloc_used b n b' p :
  buf_inv b -> 0 < n -> dimes_buffer_alloc n b = (b', p) -> p <> 0 ->
  buf_inv b' /\ in_range b p /\ ~ in_use b p
  /\ dimes_buffer_ptr b' = dimes_buffer_ptr b /\ dimes_buffer_size b' = dimes_buffer_size b
  /\ forall q k, used_at b' q k <-> (q = p /\ k = n) \/ used_at b q k.
Proof.
  intros Hi Hn E Hp. pose proof (alloc_inv n b Hi Hn) as Hi'. rewrite E in Hi'. simpl in Hi'.
  pose proof (dimes_buffer_alloc_spec b n Hi Hn) as Hs. rewrite E in Hs.
  destruct Hs as [(_ & Hr & Hu & _)|[? _]]; [|done].
  split; [done|]. unfold in_buffer, in_range in *. split; [lia|]. split; [apply Hu; lia|].
  unfold dimes_buffer_alloc in E.
  destruct (dimes_buffer_size b <? n); [by injection E as <- <-|].
  destruct (list_find _ _) as [[i mb]|]; [|by injection E as <- <-].
  injection E as <- <-. split; [done|]. split; [done|]. intros q k. unfold used_at. simpl.
  setoid_rewrite insert_block_perm. setoid_rewrite elem_of_cons. split.
  - intros (blk & [->|Hb] & <- & <-); [by left|right; by exists blk].
  - intros [[-> ->]|(blk & Hb & <- & <-)]; eexists; (split; [by left|done]) || eauto.
Qed.

Lemma buffer_free_used b p n :
  buf_inv b -> used_at b p n ->
  buf_inv (dimes_buffer_free p b)
  /\ dimes_buffer_ptr (dimes_buffer_free p b) = dimes_buffer_ptr b
  /\ dimes_buffer_size (dimes_buffer_free p b) = dimes_buffer_size b
  /\ forall q k, used_at (dimes_buffer_free p b) q k <-> used_at b q k /\ q <> p.
Proof.
  intros Hi (blk & Hblk & Hp & Hn). split; [by apply free_inv|].
  destruct (list_find (fun mb => block_ptr mb = p) (used_blocks_list b)) as [[i mb]|] eqn:Ef.
  2:{ apply list_find_None in Ef. by apply (proj1 (list.Forall_forall _ _) Ef) in Hblk. }
  pose proof Ef as (Hl & Hmp & _)%list_find_Some. subst p. rewrite <- Hmp in *.
  rewrite (free_used b i mb Hi Ef). simpl. split; [done|]. split; [done|].
  pose proof (delete_Permutation _ _ _ Hl) as HU.
  destruct (inv_tile b Hi) as (l & Ht & Hc). rewrite HU, <- Permutation_middle in Ht.
  intros q k. unfold used_at. simpl. setoid_rewrite HU at 2. setoid_rewrite elem_of_cons. split.
  - intros (c & Hcin & <- & <-). split; [by exists c; auto|]. intros Heq.
    pose proof (tile_disjoint _ _ _ c _ _ Ht Hc ltac:(apply elem_of_app; by right)) as Hd.
    pose proof (used_range b mb Hi ltac:(rewrite HU; by left)). unfold block_end in *. lia.
  - intros [(c & [->|Hcin] & <- & <-) Hne]; [done|]. by exists c.
Qed.

(** A fresh block in the heap, not yet owned by a handle. *)
Lemma block_keeps m m1 hs p blk :
  mem_inv m hs -> options m1 = options m -> heap m !! p = None ->
  heap m1 = <[p := blk]> (heap m) ->
  (forall q k, used_at (dm_buffer m) q k -> used_at (dm_buffer m1) q k) ->
  (forall q, in_range (dm_buffer m1) q <-> in_range (dm_buffer m) q) ->
  (enable_shmem_buffer (options m) = true -> buf_inv (dm_buffer m1)) ->
  (if mb_malloc blk then ~ in_range (dm_buffer m) p
   else enable_shmem_buffer (options m) = true /\ exists n, used_at (dm_buffer m1) p n) ->
  mem_inv m1 hs.
Proof.
  intros [H1 H2 H3 H4 H5 H6 H7 H8] Ho Hp Hh Hu Hr Hb Hblk.
  split; rewrite ?Ho; try done.
  - eapply list.Forall_impl; [exact H6|]. intros h [L1 (b & L2 & L3) L4]. split; [done| |].
    + exists b. rewrite Hh, lookup_insert_ne by congruence. done.
    + rewrite Ho. intros Hbuf. destruct (L4 Hbuf). auto.
  - rewrite Hh. intros q b. rewrite lookup_insert_Some. intros [[<- <-]|[Hne Hq]].
    + destruct (mb_malloc blk); [by rewrite Hr|done].
    + specialize (H8 q b Hq). destruct (mb_malloc b); [by rewrite Hr|].
      destruct H8 as (He & n & Hn). eauto.
Qed.

(** A live handle joins the handles in use. *)
Lemma handle_joins m hs h :
  mem_inv m hs -> live m h -> base_addr h ∉ map base_addr hs ->
  rdma_size h + total_rdma hs <= rdma_buffer_size (options m) ->
  mem_inv (if uses_rdma (mem_type h) then add_usage m (hndl_size h) else m) (h :: hs).
Proof.
  intros [H1 H2 H3 H4 H5 H6 H7 H8] Hl Hn Hle.
  pose proof (total_rdma_nonneg m hs H6) as Hpos. pose proof (lv_size _ _ Hl) as Hsz.
  destruct (uses_rdma (mem_type h)) eqn:Eu; unfold rdma_size in Hle; rewrite Eu in Hle.
  - assert (Ht : rdma_size h = hndl_size h) by (unfold rdma_size; by rewrite Eu).
    split; simpl; rewrite ?Ht; try done.
    + rewrite H3, u64_small by lia. lia.
    + by constructor.
    + constructor; [|eapply list.Forall_impl; [exact H6|]]; [|intros h' Hl'].
      * by destruct Hl.
      * by destruct Hl'.
  - assert (Ht : rdma_size h = 0) by (unfold rdma_size; by rewrite Eu).
    split; simpl; rewrite ?Ht; try done; [by constructor|by constructor].
Qed.

Lemma fresh_not_owned m hs p : mem_inv m hs -> heap m !! p = None -> p ∉ map base_addr hs.
Proof.
  intros Hi Hp (h & -> & Hh)%list_elem_of_fmap.
  destruct (proj1 (list.Forall_forall _ _) (mm_live m hs Hi) h Hh) as [_ (b & Hb & _) _].
  congruence.
Qed.

(** Blocks from [malloc] and from the buffer. *)
Lemma malloc_spec env m hs n m1 p :
  mem_inv m hs -> env_ok env m -> mem_malloc env m n = Some (m1, p) ->
  mem_inv m1 hs /\ options m1 = options m /\ dm_buffer m1 = dm_buffer m
  /\ heap m !! p = None /\ heap m1 = <[p := mk_mb true (me_fresh env n)]> (heap m).
Proof.
  intros Hi He. unfold mem_malloc. destruct (Z.eqb_spec (me_malloc env (heap m) n) 0) as [|Hp]; [done|].
  intros [= <- <-]. destruct (eo_malloc _ _ He _ n Hp) as [Hn Hr].
  split; [|done]. eapply (block_keeps m); try done. apply (mm_buf m hs Hi).
Qed.

Lemma buffer_alloc_fresh env m hs n m1 p :
  mem_inv m hs -> enable_shmem_buffer (options m) = true -> 0 < n ->
  mem_buffer_alloc env m n = Some (m1, p) ->
  mem_inv m1 hs /\ options m1 = options m /\ used_at (dm_buffer m1) p n
  /\ heap m !! p = None /\ heap m1 = <[p := mk_mb false (me_fresh env n)]> (heap m).
Proof.
  intros Hi Hs Hn. unfold mem_buffer_alloc.
  destruct (dimes_buffer_alloc n (dm_buffer m)) as [b p'] eqn:E.
  destruct (Z.eqb_spec p' 0) as [|Hp]; [done|]. intros [= <- <-].
  destruct (buffer_alloc_used _ _ _ _ (mm_buf m hs Hi Hs) Hn E Hp)
    as (Hb & Hr & Hu & E1 & E2 & Hus).
  assert (Hfresh : heap m !! p' = None).
  { destruct (heap m !! p') as [blk|] eqn:Eh; [exfalso|done].
    pose proof (mm_heap m hs Hi p' blk Eh) as Hh. destruct (mb_malloc blk); [done|].
    destruct Hh as (_ & k & blk' & Hb' & <- & _). apply Hu. exists blk'. split; [done|].
    destruct (used_range _ _ (mm_buf m hs Hi Hs) Hb'). unfold block_end. lia. }
  split; [|repeat split; [apply Hus; auto|done]].
  eapply (block_keeps m); simpl; try done.
  - intros q k Hq. apply Hus. by right.
  - intros q. unfold in_range. by rewrite E1, E2.
  - split; [done|]. exists n. apply Hus. by left.
Qed.

(** The outcome of an allocation: a new live handle of the type and size
    asked for on a block that was free, or a failure that leaves the handles
    in use as they were. *)
Definition alloc_post (env : mem_env) (m : dmem) (hs : list dart_rdma_mem_handle) (size : Z)
    (type : dart_memory_type) (r : dmem * option dart_rdma_mem_handle) : Prop :=
  match r with
  | (m', None) => mem_inv m' hs /\ heap m ⊆ heap m'
  | (m', Some h) =>
      mem_inv m' (h :: hs) /\ mem_type h = type /\ hndl_size h = size
      /\ heap m !! base_addr h = None
      /\ heap m' = <[base_addr h := mk_mb (negb (buffered type)) (me_fresh env size)]> (heap m)
  end.

Lemma alloc_joins env m hs m1 size h :
  mem_inv m1 hs -> options m1 = options m ->
  (uses_rdma (mem_type h) && (get_available_rdma_buffer_size (options m) <? size)) = false ->
  total_rdma hs = rdma_buffer_usage (options m) ->
  total_rdma hs <= rdma_buffer_size (options m) ->
  0 < size -> hndl_size h = size -> env_ok env m ->
  heap m !! base_addr h = None -> mem_inv m hs ->
  heap m1 = <[base_addr h := mk_mb (negb (buffered (mem_type h))) (me_fresh env size)]> (heap m) ->
  (buffered (mem_type h) = true ->
   enable_shmem_buffer (options m) = true /\ used_at (dm_buffer m1) (base_addr h) size) ->
  alloc_post env m hs size (mem_type h)
    (if uses_rdma (mem_type h) then add_usage m1 size else m1, Some h).
Proof.
  intros Hi Ho Hav Hu Hle Hs Hsz He Hf Him Hh Hb.
  assert (Hl : live m1 h).
  { split; [lia| |].
    - eexists. rewrite Hh, lookup_insert_eq. split; [done|]. split; [done|].
      rewrite Hsz. apply (eo_fresh _ _ He).
    - rewrite Ho, Hsz. done. }
  assert (Hfit : rdma_size h + total_rdma hs <= rdma_buffer_size (options m1)).
  { rewrite Ho. unfold rdma_size. destruct (uses_rdma (mem_type h)); [|lia].
    cbn [andb] in Hav. apply Z.ltb_ge in Hav. unfold get_available_rdma_buffer_size in Hav.
    revert Hav. case_if; zbool; lia. }
  pose proof (handle_joins m1 hs h Hi Hl (fresh_not_owned m hs _ Him Hf) Hfit) as Hj.
  rewrite Hsz in Hj. unfold alloc_post. split; [done|]. repeat split; try done.
  by destruct (uses_rdma (mem_type h)).
Qed.

(** The memory of a client after [dimes_memory_alloc], with the
    pre-allocated buffer off. *)
Lemma dimes_memory_alloc_spec env m hs size type :
  mem_inv m hs -> env_ok env m -> 0 < size ->
  alloc_post env m hs size type (dimes_memory_alloc env m size type).
Proof.
  intros Hi He Hs. unfold dimes_memory_alloc.
  assert (Hkeep : alloc_post env m hs size type (m, None)) by done.
  destruct (uses_rdma type && (get_available_rdma_buffer_size (options m) <? size)) eqn:Hav;
    [done|].
  pose proof (eq_sym (mm_usage m hs Hi)) as Hu. pose proof (mm_le m hs Hi) as Hle.
  assert (Hmal : forall m1 p h, mem_malloc env m size = Some (m1, p) ->
    base_addr h = p -> hndl_size h = size -> mem_type h = type -> buffered type = false ->
    alloc_post env m hs size type
      (if uses_rdma type then add_usage m1 size else m1, Some h)
    /\ alloc_post env m hs size type (m1, None)).
  { intros m1 p h E <- Hsz Ht Hb. subst type.
    destruct (malloc_spec env m hs size m1 _ Hi He E) as (Hi1 & Ho & Hbf & Hf & Hh). split.
    - eapply alloc_joins; eauto; [by rewrite Hb|congruence].
    - split; [done|]. rewrite Hh. by apply insert_subseteq. }
  assert (Hbuf : forall m1 p h, mem_buffer_alloc env m size = Some (m1, p) ->
    base_addr h = p -> hndl_size h = size -> mem_type h = type -> buffered type = true ->
    enable_shmem_buffer (options m) = true ->
    alloc_post env m hs size type
      (if uses_rdma type then add_usage m1 size else m1, Some h)
    /\ alloc_post env m hs size type (m1, None)).
  { intros m1 p h E <- Hsz Ht Hb Hon. subst type.
    destruct (buffer_alloc_fresh env m hs size m1 _ Hi Hon Hs E) as (Hi1 & Ho & Hus & Hf & Hh).
    split.
    - eapply alloc_joins; eauto. by rewrite Hb.
    - split; [done|]. rewrite Hh. by apply insert_subseteq. }
  destruct type; simpl in Hmal, Hbuf |- *; rewrite ?(mm_pre m hs Hi);
    try (destruct (enable_shmem_buffer (options m)) eqn:Hon; [|done]);
    match goal with
    | |- context [mem_malloc env m size] =>
        destruct (mem_malloc env m size) as [[m1 p]|] eqn:E; [|done]
    | |- context [mem_buffer_alloc env m size] =>
        destruct (mem_buffer_alloc env m size) as [[m1 p]|] eqn:E; [|done]
    end; try case_if;
    try (by eapply (Hmal m1 p (registered p size _))); try (by eapply (Hmal m1 p (mk_hndl _ p size _)));
    try (by eapply (Hbuf m1 p (registered p size _))); try (by eapply (Hbuf m1 p (mk_hndl _ p size _))).
Qed.

(** The release of a handle in use: its block is gone, everything else
    stays, and the usage drops by its size. *)
Lemma handle_leaves m m1 hs h :
  mem_inv m (h :: hs) -> options m1 = options m -> heap m1 = delete (base_addr h) (heap m) ->
  (forall q k, used_at (dm_buffer m) q k -> q <> base_addr h -> used_at (dm_buffer m1) q k) ->
  (forall q, in_range (dm_buffer m1) q <-> in_range (dm_buffer m) q) ->
  (enable_shmem_buffer (options m) = true -> buf_inv (dm_buffer m1)) ->
  mem_inv (if uses_rdma (mem_type h) then add_usage m1 (- hndl_size h) else m1) hs.
Proof.
  intros [H1 H2 H3 H4 H5 H6 H7 H8] Ho Hh Hu Hr Hb.
  simpl in H5. apply list.NoDup_cons in H5 as [Hn H5].
  apply list.Forall_cons in H6 as [Hl H6].
  pose proof (total_rdma_nonneg m hs H6) as Hpos. pose proof (lv_size _ _ Hl) as Hsz.
  assert (Hus : rdma_buffer_usage (options (if uses_rdma (mem_type h)
                  then add_usage m1 (- hndl_size h) else m1)) = total_rdma hs).
  { simpl in H3, H4. unfold rdma_size in H3, H4. destruct (uses_rdma (mem_type h)); simpl.
    - rewrite Ho, H3. rewrite u64_small by lia. lia.
    - rewrite Ho. lia. }
  assert (Hle : total_rdma hs <= rdma_buffer_size (options m)).
  { simpl in H4. unfold rdma_size in H4. destruct (uses_rdma (mem_type h)); lia. }
  assert (Hlive : Forall (live m1) hs).
  { apply list.Forall_forall. intros h' Hin.
    assert (Hne : base_addr h' <> base_addr h).
    { intros E. apply Hn. rewrite <- E. by apply list_elem_of_fmap_2. }
    destruct (proj1 (list.Forall_forall _ _) H6 h' Hin) as [L1 (b & L2 & L3) L4].
    split; [done| |].
    - exists b. rewrite Hh, lookup_delete_ne by congruence. done.
    - rewrite Ho. intros Hbuf. destruct (L4 Hbuf) as [Hon Hus'].
      split; [done|]. by apply Hu. }
  assert (Hheap : forall p blk, heap m1 !! p = Some blk ->
    if mb_malloc blk then ~ in_range (dm_buffer m1) p
    else enable_shmem_buffer (options m1) = true /\ exists n, used_at (dm_buffer m1) p n).
  { intros p blk. rewrite Hh, lookup_delete_Some. intros [Hne Hp]. specialize (H8 p blk Hp).
    destruct (mb_malloc blk); [by rewrite Hr|]. rewrite Ho.
    destruct H8 as (? & n & Hn'). split; [done|]. exists n. by apply Hu. }
  destruct (uses_rdma (mem_type h)); split; simpl in *; rewrite ?Ho in *; try done.
  eapply list.Forall_impl; [exact Hlive|]. intros h' []. by split; simpl; rewrite ?Ho in *.
Qed.

Definition dereg_ok (env : mem_env) : Prop := forall p, 0 <= me_deregister env p.

Lemma dimes_memory_free_spec env m hs h :
  mem_inv m (h :: hs) -> dereg_ok env ->
  exists m', dimes_memory_free env m h = Some (m', 0) /\ mem_inv m' hs
    /\ heap m' = delete (base_addr h) (heap m).
Proof.
  intros Hi Hd. pose proof (mm_live _ _ Hi) as [Hl _]%list.Forall_cons.
  destruct Hl as [Hs (blk & Hblk & Hm & _) Hbuf].
  assert (Hfree : buffered (mem_type h) = false ->
    mem_free m (base_addr h)
    = Some (mk_dmem (options m) (dm_buffer m) (delete (base_addr h) (heap m)))).
  { intros Hb. unfold mem_free. rewrite Hblk. cbn [mbind option_bind]. by rewrite Hm, Hb. }
  set (m1 := mk_dmem (options m) (dm_buffer m) (delete (base_addr h) (heap m))) in *.
  set (m2 := mem_buffer_free m (base_addr h)).
  assert (Hi1 : buffered (mem_type h) = false ->
    mem_inv (if uses_rdma (mem_type h) then add_usage m1 (- hndl_size h) else m1) hs).
  { intros Hb. apply (handle_leaves m); try done. apply (mm_buf _ _ Hi). }
  assert (Hi2 : buffered (mem_type h) = true ->
    mem_inv (if uses_rdma (mem_type h) then add_usage m2 (- hndl_size h) else m2) hs
    /\ enable_shmem_buffer (options m) = true).
  { intros Hb. destruct (Hbuf Hb) as [Hon Hus]. split; [|done].
    destruct (buffer_free_used _ _ _ (mm_buf _ _ Hi Hon) Hus) as (B1 & B2 & B3 & B4).
    apply (handle_leaves m); simpl; try done.
    - intros q k Hq Hne. by apply B4.
    - intros q. unfold in_range. by rewrite B2, B3. }
  assert (Hdr : (me_deregister env (base_addr h) <? 0) = false)
    by (apply Z.ltb_ge; apply Hd).
  unfold dimes_memory_free. rewrite (mm_pre _ _ Hi), Hdr.
  destruct (mem_type h) eqn:Et; simpl in *;
    try (destruct (Hi2 eq_refl) as [Hi2' ->]);
    try (rewrite (Hfree eq_refl); cbn [mbind option_bind]);
    eexists; (split; [reflexivity|]); (split; [by auto|reflexivity]).
Qed.

(** What allocation and release leave alone: the options but for the usage,
    and the place of the buffer. *)
Definition config (m : dmem) : dimes_client_option * Z * Z :=
  (set_usage (options m) 0, dimes_buffer_ptr (dm_buffer m), dimes_buffer_size (dm_buffer m)).

Lemma buffer_alloc_place n b :
  dimes_buffer_ptr (dimes_buffer_alloc n b).1 = dimes_buffer_ptr b
  /\ dimes_buffer_size (dimes_buffer_alloc n b).1 = dimes_buffer_size b.
Proof.
  unfold dimes_buffer_alloc. destruct (_ <? _); [done|]. by destruct (list_find _ _) as [[i mb]|].
Qed.

Lemma mem_malloc_config env m n m1 p : mem_malloc env m n = Some (m1, p) -> config m1 = config m.
Proof. unfold mem_malloc. case_if; [done|]. by intros [= <- _]. Qed.

Lemma mem_buffer_alloc_config env m n m1 p :
  mem_buffer_alloc env m n = Some (m1, p) -> config m1 = config m.
Proof.
  unfold mem_buffer_alloc. destruct (buffer_alloc_place n (dm_buffer m)) as [H1 H2].
  destruct (dimes_buffer_alloc n (dm_buffer m)) as [b q]. case_if; [done|].
  intros [= <- _]. unfold config. simpl in *. congruence.
Qed.

Lemma alloc_config env m n t : config (dimes_memory_alloc env m n t).1 = config m.
Proof.
  assert (Hu : forall m1, config (if uses_rdma t then add_usage m1 n else m1) = config m1)
    by (intros m1; by destruct (uses_rdma t)).
  unfold dimes_memory_alloc. case_if; [done|].
  destruct t; repeat case_match; subst; cbn [fst]; try done;
    rewrite ?Hu; eauto using mem_malloc_config, mem_buffer_alloc_config.
Qed.

Lemma free_config env m h m1 rc : dimes_memory_free env m h = Some (m1, rc) -> config m1 = config m.
Proof.
  assert (Hu : forall m1 x, config (add_usage m1 x) = config m1) by done.
  assert (Hf : forall m', mem_free m (base_addr h) = Some m' -> config m' = config m).
  { intros m'. unfold mem_free. destruct (heap m !! base_addr h) as [b|]; [|done].
    cbn [mbind option_bind]. destruct (mb_malloc b); [|done]. by intros [= <-]. }
  assert (Hb : config (mem_buffer_free m (base_addr h)) = config m).
  { unfold config, mem_buffer_free, dimes_buffer_free. simpl.
    repeat case_match; done. }
  unfold dimes_memory_free. destruct (mem_type h); cbn [uses_rdma]; repeat case_if;
    try (destruct (mem_free m (base_addr h)) as [m'|] eqn:Em; [|done]; cbn [mbind option_bind]);
    intros Hx; inversion Hx; subst; cbn [uses_rdma]; rewrite ?Hu; auto.
Qed.

Lemma env_ok_config env m m' : config m' = config m -> env_ok env m -> env_ok env m'.
Proof.
  intros [= _ _ _ _ _ _ _ Hp Hs] [H1 H2]. split; [|done]. intros hp n Hn.
  unfold in_range. rewrite Hp, Hs. by apply H1.
Qed.

(** A registered block is read where the program sees it. *)
Lemma alloc_registered env m hs n t m1 h :
  mem_inv m hs -> uses_rdma t = true -> dimes_memory_alloc env m n t = (m1, Some h) ->
  mr_addr h = base_addr h.
Proof.
  intros Hi Ht. unfold dimes_memory_alloc. rewrite (mm_pre _ _ Hi).
  case_if; [done|]. destruct t; try done; repeat case_match; try done; by intros [= _ <-].
Qed.

(** When an allocation outside the shared segment succeeds. *)
Lemma alloc_succeeds env m n t :
  enable_pre_allocated_rdma_buffer (options m) = false -> buffered t = false ->
  (forall hp, me_malloc env hp n <> 0) ->
  (uses_rdma t = true ->
   (forall p, 0 <= me_register env p) /\ n <= get_available_rdma_buffer_size (options m)) ->
  exists m1 h, dimes_memory_alloc env m n t = (m1, Some h).
Proof.
  intros Hp Hb Hm Ha. unfold dimes_memory_alloc. rewrite Hp.
  assert (Hav : (uses_rdma t && (get_available_rdma_buffer_size (options m) <? n)) = false).
  { destruct (uses_rdma t); [|done]. apply Z.ltb_ge. by apply Ha. }
  rewrite Hav. unfold mem_malloc.
  destruct t; try done; destruct (Z.eqb_spec (me_malloc env (heap m) n) 0) as [E|_];
    try (by apply Hm in E); cbn zeta match; [eauto|].
  destruct (Z.ltb_spec (me_register env (me_malloc env (heap m) n)) 0) as [E|_]; [|eauto].
  destruct (Ha eq_refl) as [Hr _]. specialize (Hr (me_malloc env (heap m) n)). lia.
Qed.

(** Writing to an allocated block. *)
Definition write_block (m : dmem) (p : Z) (blk : mem_block) (d : list byte) : dmem :=
  mk_dmem (options m) (dm_buffer m) (<[p := mk_mb (mb_malloc blk) d]> (heap m)).

Lemma write_block_inv m hs p blk d :
  mem_inv m hs -> heap m !! p = Some blk -> length d = length (mb_bytes blk) ->
  mem_inv (write_block m p blk d) hs.
Proof.
  intros [H1 H2 H3 H4 H5 H6 H7 H8] Hp Hl. split; try done.
  - eapply list.Forall_impl; [exact H6|]. intros h [L1 (b & L2 & L3 & L4) L5]. split; [done| |done].
    simpl. destruct (decide (base_addr h = p)) as [<-|Hne].
    + rewrite Hp in L2. injection L2 as <-. eexists. rewrite lookup_insert_eq. split; [done|].
      split; [done|]. simpl. by rewrite Hl.
    + exists b. by rewrite lookup_insert_ne.
  - intros q b. simpl. intros [[<- <-]|[_ Hq]]%lookup_insert_Some; [|by apply H8].
    simpl. by apply H8.
Qed.

(** ** Releasing groups *)

Definition group_objs (g : dimes_storage_group) : list dimes_memory_obj := concat (grp_tab g).

Definition sto_objs (l : list dimes_storage_group) : list dimes_memory_obj :=
  concat (map group_objs l).

Lemma free_objs_spec env l m hs :
  mem_inv m (map mo_hndl l ++ hs) -> dereg_ok env ->
  exists m', free_objs env m l = Some m' /\ mem_inv m' hs
    /\ forall p, heap m' !! p
         = if decide (p ∈ map (fun o => base_addr (mo_hndl o)) l) then None else heap m !! p.
Proof.
  intros Hi Hd. revert m Hi. induction l as [|o l IH]; intros m Hi; cbn [free_objs map].
  - exists m. split; [done|]. split; [done|]. intros p.
    by rewrite decide_False by apply not_elem_of_nil.
  - destruct (dimes_memory_free_spec env m _ (mo_hndl o) Hi Hd) as (m1 & -> & Hi1 & Hh1).
    cbn [mbind option_bind]. destruct (IH m1 Hi1) as (m2 & -> & Hi2 & Hh2).
    exists m2. split; [done|]. split; [done|]. intros p. rewrite Hh2, Hh1.
    destruct (decide (p ∈ map _ l)) as [Hin|Hin].
    + by rewrite decide_True by (by right).
    + destruct (decide (p = base_addr (mo_hndl o))) as [->|Hne].
      * rewrite decide_True by (by left). apply lookup_delete_eq.
      * rewrite decide_False by (rewrite elem_of_cons; tauto). by rewrite lookup_delete_ne.
Qed.

Lemma sto_objs_delete (l : list dimes_storage_group) i g :
  l !! i = Some g -> sto_objs l ≡ₚ group_objs g ++ sto_objs (delete i l).
Proof.
  revert i. induction l as [|g' l IH]; intros [|i]; simpl; [done..| |].
  - by intros [= ->].
  - intros Hi. unfold sto_objs in *. simpl. rewrite (IH i Hi). rewrite !app_assoc.
    by rewrite (Permutation_app_comm (group_objs g') (group_objs g)).
Qed.

(** Releasing a group ([dimes_client_put_sync_group]) frees the memory
    of exactly the objects of the group: their blocks are gone, every other
    block keeps its contents, the handles that remain are those of the other
    groups, and the RDMA usage is again the sum of their sizes.  A name
    without a group changes nothing. *)
Theorem put_sync_group_exact env m s nm hs :
  mem_inv m (map mo_hndl (sto_objs (sto_groups s)) ++ hs) -> dereg_ok env ->
  match storage_lookup_group (sto_groups s) nm with
  | None => dimes_client_put_sync_group env m s nm = Some (m, s, 0)
  | Some (i, g) =>
      exists m' s', dimes_client_put_sync_group env m s nm = Some (m', s', 0)
        /\ sto_groups s' = delete i (sto_groups s)
        /\ mem_inv m' (map mo_hndl (sto_objs (sto_groups s')) ++ hs)
        /\ forall p, heap m' !! p
             = if decide (p ∈ map (fun o => base_addr (mo_hndl o)) (group_objs g))
               then None else heap m !! p
  end.
Proof.
  intros Hi Hd. unfold dimes_client_put_sync_group.
  destruct (storage_lookup_group (sto_groups s) nm) as [[i g]|] eqn:E; [|done].
  apply list_find_Some in E as (Hg & _ & _). unfold storage_free_group. rewrite Hg.
  cbn [mbind option_bind].
  destruct (free_objs_spec env (group_objs g) m
    (map mo_hndl (sto_objs (delete i (sto_groups s))) ++ hs)) as (m' & E' & Hi' & Hh'); [|done|].
  - eapply mem_inv_perm; [|exact Hi]. rewrite (sto_objs_delete _ _ _ Hg), map_app, app_assoc. done.
  - unfold group_objs in E'. rewrite E'. cbn [mbind option_bind]. eauto 10.
Qed.

(** [dimes_memory_alloc] copies the handle of the pre-allocated buffer
    over the new one, and [dimes_memory_init] leaves the memory type of that
    handle at its initial value [dart_memory_non_rdma].  So when the option
    is on, an allocation of RDMA memory has the type of ordinary memory, and
    whenever its release returns, neither the allocator nor the RDMA usage
    has changed: the memory is never given back. *)
Theorem pre_allocated_never_released env0 m0 m env size m1 h :
  enable_pre_allocated_rdma_buffer (options m0) = true ->
  mem_type (pre_allocated_rdma_handle (options m0)) = dart_memory_non_rdma ->
  dimes_memory_init env0 m0 = (m, 0) ->
  dimes_memory_alloc env m size dart_memory_rdma = (m1, Some h) ->
  mem_type h = dart_memory_non_rdma
  /\ forall env' m2 m3 rc, dimes_memory_free env' m2 h = Some (m3, rc) ->
       dm_buffer m3 = dm_buffer m2
       /\ rdma_buffer_usage (options m3) = rdma_buffer_usage (options m2).
Proof.
  intros Hon Ht Hinit Halloc.
  assert (Hm : mem_type h = dart_memory_non_rdma).
  { unfold dimes_memory_init in Hinit. rewrite Hon in Hinit.
    destruct (mem_malloc env0 m0 _) as [[m' p]|]; [|done].
    destruct (me_register env0 p <? 0); [done|]. injection Hinit as <-.
    unfold dimes_memory_alloc in Halloc. cbn [options set_pre_allocated
      enable_pre_allocated_rdma_buffer pre_allocated_rdma_handle mem_type registered] in Halloc.
    destruct (_ && _); [done|].
    destruct (mem_buffer_alloc env _ size) as [[m'' p']|]; [|done]. injection Halloc as <- <-.
    done. }
  split; [done|]. intros env' m2 m3 rc Hf. unfold dimes_memory_free in Hf. rewrite Hm in Hf.
  unfold mem_free in Hf. destruct (heap m2 !! base_addr h) as [b|]; [|done].
  cbn [mbind option_bind] in Hf. destruct (mb_malloc b); [|done].
  cbn [mbind option_bind uses_rdma] in Hf. by injection Hf as <- <-.
Qed.

(** A [malloc] that goes upwards. *)
Definition top_addr (hp : gmap Z mem_block) : Z := map_fold (fun k _ a => Z.max k a) 0 hp.

Lemma top_addr_ge hp k b : hp !! k = Some b -> k <= top_addr hp.
Proof.
  revert k b. unfold top_addr.
  apply (map_fold_weak_ind (fun a hp => forall k b, hp !! k = Some b -> k <= a)).
  - intros k b. by rewrite lookup_empty.
  - intros i x hp' a _ IH k b [[<- _]|[_ H]]%lookup_insert_Some; [lia|]. apply IH in H. lia.
Qed.

Definition demo_menv : mem_env :=
  mk_menv (fun hp _ => 65536 + top_addr hp) (fun _ => 0) (fun _ => 0) (fun n => replicate (Z.to_nat n) Byte.x00).

Definition demo_opt (pre shmem : bool) : dimes_client_option :=
  mk_opt pre 4096 no_hndl 4096 0 4 shmem shmem.

Lemma pre_allocated_never_released_witness :
  let m0 := mk_dmem (demo_opt true false) no_buffer ∅ in
  let m := (dimes_memory_init demo_menv m0).1 in
  exists m1 h, dimes_memory_alloc demo_menv m 64 dart_memory_rdma = (m1, Some h)
  /\ mem_type h = dart_memory_non_rdma
  /\ forall env' m2 m3 rc, dimes_memory_free env' m2 h = Some (m3, rc) ->
       dm_buffer m3 = dm_buffer m2
       /\ rdma_buffer_usage (options m3) = rdma_buffer_usage (options m2).
Proof.
  intros m0 m. eexists _, _. split; [vm_compute; reflexivity|].
  eapply (pre_allocated_never_released demo_menv m0 m demo_menv 64);
    [reflexivity|reflexivity|reflexivity|vm_compute; reflexivity].
Defined.

(** A client with one object of 64 bytes in the group [fields]. *)
Definition demo_mem0 : dmem := mk_dmem (demo_opt false false) no_buffer ∅.
Definition demo_alloc1 := dimes_memory_alloc demo_menv demo_mem0 64 dart_memory_rdma.
Definition demo_hndl : dart_rdma_mem_handle := mk_hndl 65536 65536 64 dart_memory_rdma.
Definition demo_obj : dimes_memory_obj :=
  mk_mo (mk_oid 5 0) (mk_odsc "temp" column_major 5 1 (mk_bbox 1 [0] [7]) 8) (mk_shd 0 0 0 0)
    (mk_gdim 1 [16]) demo_hndl.
Definition demo_store : dimes_storage :=
  mk_sto 2 [mk_grp "fields" [[]; [demo_obj]]; mk_grp default_group_name [[]; []]]
    default_group_name.

Lemma demo_env_ok m : dm_buffer m = no_buffer -> env_ok demo_menv m.
Proof.
  intros E. split; [intros hp n _; simpl; split|].
  - destruct (hp !! (65536 + top_addr hp)) eqn:Hk; [|done]. apply top_addr_ge in Hk. lia.
  - rewrite E. unfold in_range. simpl. lia.
  - intros n. simpl. rewrite length_replicate. lia.
Qed.

Lemma demo_mem_inv : mem_inv demo_alloc1.1 [demo_hndl].
Proof.
  assert (Hp : alloc_post demo_menv demo_mem0 [] 64 dart_memory_rdma demo_alloc1).
  { apply dimes_memory_alloc_spec; [|by apply demo_env_ok|lia].
    split; simpl; try lia; try done; try constructor. }
  destruct Hp as [Hi _]. exact Hi.
Qed.

Lemma put_sync_group_exact_witness :
  exists m' s', dimes_client_put_sync_group demo_menv demo_alloc1.1 demo_store "fields"
                = Some (m', s', 0)
    /\ sto_groups s' = delete 0%nat (sto_groups demo_store)
    /\ mem_inv m' (map mo_hndl (sto_objs (sto_groups s')) ++ [])
    /\ forall p, heap m' !! p
         = if decide (p ∈ map (fun o => base_addr (mo_hndl o))
                         (group_objs (mk_grp "fields" [[]; [demo_obj]])))
           then None else heap demo_alloc1.1 !! p.
Proof.
  apply (put_sync_group_exact demo_menv demo_alloc1.1 demo_store "fields" []);
    [apply demo_mem_inv|by intros p].
Defined.

(** ** Checkpoint of the storage *)

Record shared_memory_obj := mk_so {
  so_id : Z;
  so_owner_node_rank : Z;
  so_path : string;
  so_size : Z;
  so_ptr : Z }.

(** The client and its node: its id and node rank, the shared memory
    objects it has opened, and the ids of the clients of the node. *)
Record node_info := mk_node {
  ni_cid : Z;
  ni_rank : Z;
  ni_shmem_obj_list : list shared_memory_obj;
  ni_local_peer_tab : list Z }.

Definition find_shmem_obj (n : node_info) (id : Z) : option shared_memory_obj :=
  List.find (fun o => so_id o =? id) (ni_shmem_obj_list n).

Definition find_my_shmem_obj (n : node_info) : option shared_memory_obj :=
  List.find (fun o => so_owner_node_rank o =? ni_rank n) (ni_shmem_obj_list n).

Definition is_peer_on_same_node (n : node_info) (peer : Z) : bool :=
  existsb (fun p => p =? peer) (ni_local_peer_tab n).

Definition get_peer_dart_id_on_same_node (n : node_info) (node_rank : Z) : Z :=
  if (node_rank <? 0) || (Z.of_nat (length (ni_local_peer_tab n)) <=? node_rank) then -1
  else default (-1) (ni_local_peer_tab n !! Z.to_nat node_rank).

Definition get_peer_on_same_node (n : node_info) (node_rank : Z) : option Z :=
  if (node_rank <? 0) || (Z.of_nat (length (ni_local_peer_tab n)) <=? node_rank) then None
  else ni_local_peer_tab n !! Z.to_nat node_rank.

(** [struct dimes_cr_mem_obj_info] *)
Record cr_mem_obj_info := mk_cro {
  co_desc : obj_descriptor;
  co_gdim : global_dimension;
  co_size : Z;
  co_offset : Z;
  co_mem_type : dart_memory_type }.

(** The records of a restart buffer, in the order in which they are written. *)
Inductive cr_rec :=
| CrStorage (num_group shmem_obj_id : Z)
| CrGroup (nm : string) (num_obj : Z)
| CrObj (o : cr_mem_obj_info).

Definition cr_of_obj (o : dimes_memory_obj) : cr_mem_obj_info :=
  mk_cro (mo_desc o) (mo_gdim o) (shd_size (mo_shmem o)) (shd_offset (mo_shmem o))
    (mem_type (mo_hndl o)).

Definition cr_records (g : dimes_storage_group) : list cr_rec :=
  CrGroup (grp_name g) (u32 (Z.of_nat (length (group_objs g))))
  :: map (fun o => CrObj (cr_of_obj o)) (group_objs g).

(** [sizeof(group_info->name)] *)
Definition cr_name_size : nat := 256.

(** The name is copied with [strcpy]: [None] when it does not fit with its
    terminator. *)
Definition cr_of_group (g : dimes_storage_group) : option (list cr_rec) :=
  if decide (String.length (grp_name g) < cr_name_size)%nat then Some (cr_records g) else None.

Definition dimes_client_shmem_checkpoint_storage (shmem_obj_id : Z) (s : dimes_storage)
    : option (list cr_rec) :=
  recs ← mapM cr_of_group (sto_groups s);
  Some (CrStorage (u32 (Z.of_nat (length (sto_groups s)))) shmem_obj_id :: concat recs).

(** The environment of a restart: the next object index of the client, and
    the return codes of the registrations. *)
Definition new_owner (o : obj_descriptor) (w : Z) : obj_descriptor :=
  mk_odsc (name o) (st o) w (version o) (bb o) (size o).

(** One object of the checkpoint; on an error it is left out and the return
    code -1 is not looked at by the caller. *)
Definition restart_storage_insert_mem_obj (register : Z -> Z) (n : node_info) (max : Z)
    (groups : list dimes_storage_group) (next : Z) (group_name : string) (shmem_obj_id : Z)
    (info : cr_mem_obj_info) : option (list dimes_storage_group * Z) :=
  let skip := Some (groups, u32 (next + 1)) in
  match find_shmem_obj n shmem_obj_id with
  | None => skip
  | Some so =>
      let buf := so_ptr so + co_offset info in
      let insert h :=
        groups ← group_add_obj true max groups group_name
          (mk_mo (mk_oid (ni_cid n) next) (new_owner (co_desc info) (ni_cid n))
             (mk_shd (co_size info) (co_offset info) shmem_obj_id (ni_rank n))
             (co_gdim info) h);
        Some (groups, u32 (next + 1)) in
      match co_mem_type info with
      | dart_memory_shmem_rdma =>
          if register buf <? 0 then skip
          else insert (registered buf (co_size info) dart_memory_shmem_rdma)
      | dart_memory_shmem_non_rdma =>
          insert (mk_hndl 0 buf (co_size info) dart_memory_shmem_non_rdma)
      | _ => skip
      end
  end.

(** [num_obj] object records of a group, then the next groups. *)
Fixpoint restart_objs (register : Z -> Z) (n : node_info) (max : Z) (num_obj : nat)
    (group_name : string) (id : Z) (buf : list cr_rec) (groups : list dimes_storage_group)
    (next : Z) : option (list dimes_storage_group * Z * list cr_rec) :=
  match num_obj with
  | O => Some (groups, next, buf)
  | S k =>
      match buf with
      | CrObj info :: buf =>
          '(groups, next) ←
            restart_storage_insert_mem_obj register n max groups next group_name id info;
          restart_objs register n max k group_name id buf groups next
      | _ => None
      end
  end.

Fixpoint restart_groups (register : Z -> Z) (n : node_info) (max : Z) (num_group : nat) (id : Z)
    (buf : list cr_rec) (groups : list dimes_storage_group) (next : Z)
    : option (list dimes_storage_group * Z) :=
  match num_group with
  | O => Some (groups, next)
  | S k =>
      match buf with
      | CrGroup nm num_obj :: buf =>
          '(groups, next, buf) ←
            restart_objs register n max (Z.to_nat num_obj) nm id buf groups next;
          restart_groups register n max k id buf groups next
      | _ => None
      end
  end.

Definition dimes_client_shmem_restart_storage (register : Z -> Z) (n : node_info)
    (buf : list cr_rec) (s : dimes_storage) (next : Z) : option (dimes_storage * Z) :=
  match buf with
  | CrStorage num_group id :: buf =>
      '(groups, next) ← restart_groups register n (sto_max_versions s) (Z.to_nat num_group) id
                          buf (sto_groups s) next;
      Some (set_groups s groups, next)
  | _ => None
  end.

(** ** The round trip of the storage *)

(** The objects filed under a name in a version bin. *)
Definition filed (l : list dimes_storage_group) (nm : string) (i : nat) : list dimes_memory_obj :=
  match storage_lookup_group l nm with
  | Some (_, g) => get_bin (grp_tab g) i
  | None => []
  end.

(** Every group has the bins, and every object is in the bin of its version. *)
Definition groups_wf (max : Z) (l : list dimes_storage_group) : Prop :=
  Forall (fun g => length (grp_tab g) = Z.to_nat max
    /\ forall i o, o ∈ get_bin (grp_tab g) i -> i = bin_of (version (mo_desc o)) max) l.

(** What a restart keeps of an object of client [cid]. *)
Definition restart_key (cid : Z) (o : dimes_memory_obj)
    : obj_descriptor * global_dimension * Z * Z * dart_memory_type :=
  (new_owner (mo_desc o) cid, mo_gdim o, shd_size (mo_shmem o), shd_offset (mo_shmem o),
   mem_type (mo_hndl o)).

Lemma bin_lt_max v max : 0 < max -> (bin_of v max < Z.to_nat max)%nat.
Proof. intros Hm. unfold bin_of. pose proof (Z.mod_pos_bound v max Hm). lia. Qed.

(** A change of one group that keeps its name, seen by lookups. *)
Lemma lookup_group_alter (l : list dimes_storage_group) k g f nm' :
  storage_lookup_group l (grp_name g) = Some (k, g) -> grp_name (f g) = grp_name g ->
  storage_lookup_group (alter f k l) nm'
  = match storage_lookup_group l nm' with
    | Some (j, g') => Some (j, if decide (nm' = grp_name g) then f g' else g')
    | None => None
    end.
Proof.
  intros Hk Hf. unfold storage_lookup_group in *.
  apply list_find_Some in Hk as (Hk & _ & Hbefore).
  assert (Hnm : forall j y, alter f k l !! j = Some y ->
            exists y0, l !! j = Some y0 /\ grp_name y = grp_name y0).
  { intros j y Hy. destruct (decide (k = j)) as [<-|Hne].
    - rewrite list_lookup_alter_eq, Hk in Hy. injection Hy as <-. by exists g.
    - rewrite list_lookup_alter_ne in Hy by done. by exists y. }
  destruct (list_find (fun g0 => grp_name g0 = nm') l) as [[j g']|] eqn:Ej.
  - apply list_find_Some in Ej as (Hj & Hn & Hjb). apply list_find_Some.
    assert (Hkj : nm' = grp_name g <-> j = k).
    { split.
      - intros ->. destruct (lt_eq_lt_dec j k) as [[Hlt| ->]|Hlt]; [|done|].
        + by destruct (Hbefore j g' Hj Hlt).
        + by destruct (Hjb k g Hk Hlt).
      - intros ->. rewrite Hk in Hj. by injection Hj as ->. }
    split; [|split].
    + destruct (decide (nm' = grp_name g)) as [E|E].
      * rewrite (proj1 Hkj E) in *. by rewrite list_lookup_alter_eq, Hj.
      * rewrite list_lookup_alter_ne; [done|]. intros ->. by apply E, Hkj.
    + case_decide as E; [|done]. rewrite (proj1 Hkj E), Hk in Hj. injection Hj as <-. congruence.
    + intros j' y (y0 & Hy0 & ->)%Hnm Hlt. by eapply Hjb.
  - apply list_find_None. apply list_find_None in Ej. apply list.Forall_forall.
    intros y [j' (y0 & Hy0 & ->)%Hnm]%list_elem_of_lookup.
    apply (proj1 (list.Forall_forall _ _) Ej y0). by eapply list_elem_of_lookup_2.
Qed.

Lemma filed_alter_cons (l : list dimes_storage_group) k g o max nm i :
  storage_lookup_group l (grp_name g) = Some (k, g) -> length (grp_tab g) = Z.to_nat max ->
  0 < max ->
  let add g := mk_grp (grp_name g)
    (alter (fun l => mem_obj_list_add l o) (bin_of (version (mo_desc o)) max) (grp_tab g)) in
  filed (alter add k l) nm i
  = if decide (nm = grp_name g /\ i = bin_of (version (mo_desc o)) max)
    then o :: filed l nm i else filed l nm i.
Proof.
  intros Hk Hlen Hmax add. pose proof (bin_lt_max (version (mo_desc o)) max Hmax) as Hb.
  set (b := bin_of _ max) in *. unfold filed. rewrite (lookup_group_alter l k g) by done.
  destruct (decide (nm = grp_name g)) as [->|Hne].
  - rewrite Hk. unfold get_bin. simpl.
    assert (Hb' : (b < length (grp_tab g))%nat) by lia.
    destruct (decide (i = b)) as [->|Hi].
    + rewrite decide_True by done. rewrite !nth_lookup, list_lookup_alter_eq.
      destruct (lookup_lt_is_Some_2 _ _ Hb') as [x ->]. done.
    + rewrite decide_False by tauto. by rewrite !nth_lookup, list_lookup_alter_ne by congruence.
  - rewrite decide_False by tauto. by destruct (storage_lookup_group l nm) as [[j g']|].
Qed.

Lemma group_wf_add max g o :
  0 < max -> length (grp_tab g) = Z.to_nat max ->
  (forall i o', o' ∈ get_bin (grp_tab g) i -> i = bin_of (version (mo_desc o')) max) ->
  let tab := alter (fun l => mem_obj_list_add l o) (bin_of (version (mo_desc o)) max) (grp_tab g) in
  length tab = Z.to_nat max
  /\ forall i o', o' ∈ get_bin tab i -> i = bin_of (version (mo_desc o')) max.
Proof.
  intros Hm Hl Hp tab. unfold tab. rewrite length_alter. split; [done|].
  intros i o'. unfold get_bin in *. rewrite nth_lookup.
  pose proof (bin_lt_max (version (mo_desc o)) max Hm) as Hb.
  destruct (decide (bin_of (version (mo_desc o)) max = i)) as [<-|Hne].
  - rewrite list_lookup_alter_eq. destruct (lookup_lt_is_Some_2 (grp_tab g)
      (bin_of (version (mo_desc o)) max) ltac:(lia)) as [x Hx]. rewrite Hx. simpl.
    intros [->|Ho]%elem_of_cons; [done|]. apply Hp. by rewrite nth_lookup, Hx.
  - rewrite list_lookup_alter_ne by done. rewrite <- nth_lookup. apply Hp.
Qed.

Lemma new_group_bin max i : get_bin (replicate (Z.to_nat max) (@nil dimes_memory_obj)) i = [].
Proof.
  unfold get_bin. rewrite nth_lookup.
  destruct (replicate _ _ !! i) as [x|] eqn:E; [|done]. by apply lookup_replicate in E as [-> _].
Qed.

(** Adding an object files it first under its name and bin. *)
Lemma group_add_obj_filed max l nm o :
  0 < max -> groups_wf max l ->
  exists l', group_add_obj true max l nm o = Some l' /\ groups_wf max l'
    /\ forall nm' i, filed l' nm' i
         = if decide (nm' = nm /\ i = bin_of (version (mo_desc o)) max)
           then o :: filed l nm' i else filed l nm' i.
Proof.
  intros Hm Hw. set (add := fun g => mk_grp (grp_name g)
    (alter (fun l => mem_obj_list_add l o) (bin_of (version (mo_desc o)) max) (grp_tab g))).
  assert (Hadd : forall l k, groups_wf max l -> groups_wf max (alter add k l)).
  { intros l0 k H0. apply Forall_alter; [done|]. intros g _ [H1 H2]. by apply group_wf_add. }
  assert (Hat : forall l0 k g, groups_wf max l0 -> storage_lookup_group l0 nm = Some (k, g) ->
    forall nm' i, filed (alter add k l0) nm' i
      = if decide (nm' = nm /\ i = bin_of (version (mo_desc o)) max)
        then o :: filed l0 nm' i else filed l0 nm' i).
  { intros l0 k g H0 Hk nm' i. pose proof Hk as (Hg & <- & _)%list_find_Some.
    apply filed_alter_cons; [done| |done].
    apply (proj1 (list.Forall_forall _ _) H0 g). by eapply list_elem_of_lookup_2. }
  unfold group_add_obj. fold add.
  destruct (storage_lookup_group l nm) as [[k g]|] eqn:Ek.
  - exists (alter add k l). split; [done|]. split; [by apply Hadd|]. by apply (Hat l k g).
  - cbn [storage_add_group mbind option_bind]. set (l1 := mk_grp nm _ :: l).
    assert (Hw1 : groups_wf max l1).
    { constructor; [|done]. simpl. split; [apply length_replicate|].
      intros i o'. rewrite new_group_bin. by intros []%not_elem_of_nil. }
    assert (Hk1 : storage_lookup_group l1 nm = Some (0%nat, mk_grp nm (replicate (Z.to_nat max) []))).
    { unfold storage_lookup_group, l1. cbn [list_find grp_name]. by rewrite decide_True. }
    exists (alter add 0%nat l1). split; [done|]. split; [by apply Hadd|]. intros nm' i.
    rewrite (Hat l1 0%nat _ Hw1 Hk1).
    assert (Hfl : filed l1 nm' i = filed l nm' i); [|by rewrite Hfl].
    unfold filed. destruct (decide (nm' = nm)) as [->|Hne].
    + rewrite Hk1, Ek. apply new_group_bin.
    + unfold storage_lookup_group, l1. cbn [list_find grp_name].
      rewrite decide_False by congruence.
      by destruct (list_find _ l) as [[j g']|].
Qed.

(** The bins of a table filed by [f]: filtering the whole table by a bin
    number gives the bin. *)
Lemma concat_alter_cons {A} (x : A) tab i :
  (i < length tab)%nat -> concat (alter (fun l => x :: l) i tab) ≡ₚ x :: concat tab.
Proof.
  revert i. induction tab as [|l tab IH]; intros [|i] Hi; simpl in *; [lia|lia|done|].
  change (list_alter (fun l => x :: l) i tab) with (alter (fun l => x :: l) i tab).
  rewrite (IH i) by lia. by rewrite Permutation_middle.
Qed.

Lemma concat_map_alter {A B} (x : B) (f : A -> list B) (g : A -> A) l k y :
  l !! k = Some y -> f (g y) ≡ₚ x :: f y -> concat (map f (alter g k l)) ≡ₚ x :: concat (map f l).
Proof.
  intros Hk Hf. revert k Hk. induction l as [|z l IH]; intros [|k] Hk; simpl in *; [done..| |].
  - injection Hk as ->. by rewrite Hf.
  - change (list_alter g k l) with (alter g k l). rewrite (IH k Hk). by rewrite Permutation_middle.
Qed.

(** An added object is the only new one. *)
Lemma group_add_obj_objs max l nm o l' :
  0 < max -> groups_wf max l -> group_add_obj true max l nm o = Some l' ->
  sto_objs l' ≡ₚ o :: sto_objs l.
Proof.
  intros Hm Hw E. unfold group_add_obj in E.
  set (add := fun g => mk_grp (grp_name g)
    (alter (fun l => mem_obj_list_add l o) (bin_of (version (mo_desc o)) max) (grp_tab g))) in E.
  assert (Hadd : forall g, length (grp_tab g) = Z.to_nat max -> group_objs (add g) ≡ₚ o :: group_objs g).
  { intros g Hg. apply concat_alter_cons. rewrite Hg. by apply bin_lt_max. }
  destruct (storage_lookup_group l nm) as [[k g]|] eqn:Ek.
  - injection E as <-. apply list_find_Some in Ek as (Hk & _ & _).
    apply (concat_map_alter _ group_objs add l k g Hk), Hadd.
    apply (proj1 (list.Forall_forall _ _) Hw g). by eapply list_elem_of_lookup_2.
  - cbn [storage_add_group mbind option_bind] in E. injection E as <-.
    unfold sto_objs. cbn [alter list_alter map concat].
    rewrite (Hadd (mk_grp nm (replicate (Z.to_nat max) []))) by apply length_replicate.
    unfold group_objs at 1. cbn [grp_tab].
    assert (Hr : forall n, concat (replicate n (@nil dimes_memory_obj)) = []) by (induction n; done).
    by rewrite Hr.
Qed.

Lemma filter_bins_from {A} (f : A -> nat) (tab : list (list A)) k i :
  (forall j o, o ∈ get_bin tab j -> (k + j)%nat = f o) ->
  filter (fun o => (k + i)%nat = f o) (concat tab) = get_bin tab i.
Proof.
  revert k i. induction tab as [|x tab IH]; intros k i Hf; [by destruct i|].
  assert (Hx : forall o, o ∈ x -> f o = k) by (intros o Ho; specialize (Hf O o Ho); lia).
  assert (Ht : forall j o, o ∈ get_bin tab j -> (S k + j)%nat = f o).
  { intros j o Ho. rewrite <- (Hf (S j) o Ho). lia. }
  cbn [concat]. rewrite list.filter_app. destruct i as [|i].
  - rewrite (filter_keep_all _ x), (filter_keep_none _ (concat tab)), app_nil_r; [done| |].
    + apply list.Forall_forall. intros o (y & Hy & Ho)%list_elem_of_In%in_concat.
      apply list_elem_of_In, list_elem_of_lookup in Hy as [j Hj].
      rewrite <- (Ht j o); [lia|]. unfold get_bin. rewrite nth_lookup, Hj.
      by apply list_elem_of_In.
    + apply list.Forall_forall. intros o Ho. rewrite (Hx o Ho). lia.
  - rewrite (filter_keep_none _ x).
    + specialize (IH (S k) i Ht). cbn [app].
      change (get_bin (x :: tab) (S i)) with (get_bin tab i). rewrite <- IH. apply list_filter_iff. intros o. split; lia.
    + apply list.Forall_forall. intros o Ho. rewrite (Hx o Ho). lia.
Qed.

Lemma filter_bins {A} (f : A -> nat) (tab : list (list A)) i :
  (forall j o, o ∈ get_bin tab j -> j = f o) ->
  filter (fun o => i = f o) (concat tab) = get_bin tab i.
Proof. apply (filter_bins_from f tab 0 i). Qed.

(** ** Restarting one object, one group, all groups *)

Section restart.
Context (register : Z -> Z) (n : node_info) (max id : Z) (so : shared_memory_obj).
Context (Hmax : 0 < max) (Hso : find_shmem_obj n id = Some so) (Hreg : forall p, 0 <= register p).

(** The memory types a segment holds. *)
Definition shmem_obj (o : dimes_memory_obj) : Prop := buffered (mem_type (mo_hndl o)) = true.

Abbreviation keys := (map (restart_key (ni_cid n))).

Lemma restart_obj_filed l nm o next :
  groups_wf max l -> shmem_obj o ->
  exists l', restart_storage_insert_mem_obj register n max l next nm id (cr_of_obj o)
             = Some (l', u32 (next + 1))
    /\ groups_wf max l'
    /\ forall nm' i, keys (filed l' nm' i)
         = if decide (nm' = nm /\ i = bin_of (version (mo_desc o)) max)
           then restart_key (ni_cid n) o :: keys (filed l nm' i) else keys (filed l nm' i).
Proof using Hmax Hso Hreg.
  intros Hw Ho. unfold restart_storage_insert_mem_obj. rewrite Hso. cbn [cr_of_obj co_mem_type].
  assert (Hins : forall h, mem_type h = mem_type (mo_hndl o) ->
    exists l', (groups ← group_add_obj true max l nm
       (mk_mo (mk_oid (ni_cid n) next) (new_owner (mo_desc o) (ni_cid n))
          (mk_shd (shd_size (mo_shmem o)) (shd_offset (mo_shmem o)) id (ni_rank n))
          (mo_gdim o) h); Some (groups, u32 (next + 1))) = Some (l', u32 (next + 1))
    /\ groups_wf max l'
    /\ forall nm' i, keys (filed l' nm' i)
         = if decide (nm' = nm /\ i = bin_of (version (mo_desc o)) max)
           then restart_key (ni_cid n) o :: keys (filed l nm' i) else keys (filed l nm' i)).
  { intros h Hh. set (o' := mk_mo _ _ _ _ h).
    destruct (group_add_obj_filed max l nm o' Hmax Hw) as (l' & -> & Hw' & Hf).
    exists l'. split; [done|]. split; [done|]. intros nm' i. rewrite Hf.
    change (version (mo_desc o')) with (version (mo_desc o)).
    case_decide; [|done]. simpl. f_equal. unfold restart_key. simpl. by rewrite Hh. }
  unfold shmem_obj in Ho. destruct (mem_type (mo_hndl o)); try done; cbn.
  - by apply Hins.
  - specialize (Hreg (so_ptr so + shd_offset (mo_shmem o))). apply Z.ltb_ge in Hreg as ->.
    by apply Hins.
Qed.

Lemma restart_objs_filed nm objs buf l next :
  groups_wf max l -> Forall shmem_obj objs ->
  exists l' next', restart_objs register n max (length objs) nm id
      (map (fun o => CrObj (cr_of_obj o)) objs ++ buf) l next = Some (l', next', buf)
    /\ groups_wf max l'
    /\ forall nm' i, keys (filed l' nm' i)
         = if decide (nm' = nm)
           then rev (keys (filter (fun o => i = bin_of (version (mo_desc o)) max) objs))
                ++ keys (filed l nm' i)
           else keys (filed l nm' i).
Proof using Hmax Hso Hreg.
  intros Hw Ho. revert l next Hw. induction Ho as [|o objs Hob Ho IH]; intros l next Hw.
  - exists l, next. split; [done|]. split; [done|]. intros nm' i. by case_decide.
  - cbn [length map restart_objs app].
    destruct (restart_obj_filed l nm o next Hw Hob) as (l1 & -> & Hw1 & Hf1).
    cbn [mbind option_bind]. destruct (IH l1 (u32 (next + 1)) Hw1) as (l2 & nx & -> & Hw2 & Hf2).
    exists l2, nx. split; [done|]. split; [done|]. intros nm' i. rewrite Hf2, Hf1.
    destruct (decide (nm' = nm)) as [->|Hne].
    + rewrite filter_cons. case_decide as E1; case_decide as E2; try tauto.
      simpl. by rewrite <- app_assoc.
    + rewrite decide_False by tauto. done.
Qed.

Lemma restart_groups_filed gs buf l next :
  groups_wf max l -> groups_wf max gs -> NoDup (map grp_name gs) ->
  Forall (fun g => Forall shmem_obj (group_objs g)
            /\ Z.of_nat (length (group_objs g)) < 2 ^ 32) gs ->
  exists l' next', restart_groups register n max (length gs) id
      (concat (map cr_records gs) ++ buf) l next = Some (l', next')
    /\ groups_wf max l'
    /\ forall nm i, keys (filed l' nm i) = rev (keys (filed gs nm i)) ++ keys (filed l nm i).
Proof using Hmax Hso Hreg.
  intros Hw Hgs Hnd Ho. revert l next Hw Hgs Hnd.
  induction Ho as [|g gs [Hs Hlen] Ho IH]; intros l next Hw Hgs Hnd.
  - exists l, next. done.
  - apply list.Forall_cons in Hgs as [[Hl Hp] Hgs]. apply list.NoDup_cons in Hnd as [Hn Hnd].
    cbn [length map concat restart_groups cr_records app].
    rewrite u32_small, Nat2Z.id by lia. rewrite <- app_assoc.
    destruct (restart_objs_filed (grp_name g) (group_objs g)
      (concat (map cr_records gs) ++ buf) l next Hw Hs) as (l1 & nx1 & -> & Hw1 & Hf1).
    cbn [mbind option_bind].
    destruct (IH l1 nx1 Hw1 Hgs Hnd) as (l2 & nx2 & -> & Hw2 & Hf2).
    exists l2, nx2. split; [done|]. split; [done|]. intros nm i. rewrite Hf2, Hf1.
    assert (Hcons : filed (g :: gs) nm i
      = if decide (nm = grp_name g) then get_bin (grp_tab g) i else filed gs nm i).
    { unfold filed, storage_lookup_group. cbn [list_find].
      destruct (decide (nm = grp_name g)) as [->|Hne]; [by rewrite decide_True|].
      rewrite decide_False by congruence. by destruct (list_find _ gs) as [[j g']|]. }
    rewrite Hcons. destruct (decide (nm = grp_name g)) as [->|Hne]; [|done].
    assert (Hfiled : filed gs (grp_name g) i = []).
    { unfold filed, storage_lookup_group.
      destruct (list_find _ gs) as [[j g']|] eqn:Ej; [exfalso|done].
      apply list_find_Some in Ej as (Hj & Hnm & _). apply Hn. rewrite <- Hnm.
      apply list_elem_of_fmap_2. by eapply list_elem_of_lookup_2. }
    rewrite Hfiled. unfold group_objs. by rewrite (filter_bins (fun o => bin_of (version (mo_desc o)) max)).
Qed.
End restart.

Lemma cr_names_fit gs : Forall (fun g => String.length (grp_name g) < cr_name_size)%nat gs -> mapM cr_of_group gs = Some (map cr_records gs).
Proof.
  induction 1 as [|g gs Hg _ IH]; [done|]. assert (cr_of_group g = Some (cr_records g)) as E by (unfold cr_of_group; by rewrite decide_True).
  cbn [mapM map]. rewrite E. cbn [mbind option_bind]. by rewrite IH.
Qed.

(** C8: A checkpoint of a storage whose group names have less than 256
    characters can be restarted from: on the segment with the checkpointed id,
    the restart files under every group name and version bin exactly the
    objects that were there, with their description, global dimension, size,
    offset and memory type; the client becomes their owner.  Each list comes
    back in reverse order, because objects are added in front. *)
Theorem storage_checkpoint_roundtrip register n id so s s0 next :
  0 < sto_max_versions s -> sto_max_versions s0 = sto_max_versions s -> sto_groups s0 = [] ->
  groups_wf (sto_max_versions s) (sto_groups s) -> NoDup (map grp_name (sto_groups s)) ->
  Z.of_nat (length (sto_groups s)) < 2 ^ 32 ->
  Forall (fun g => (String.length (grp_name g) < cr_name_size)%nat) (sto_groups s) ->
  Forall (fun g => Forall shmem_obj (group_objs g)
            /\ Z.of_nat (length (group_objs g)) < 2 ^ 32) (sto_groups s) ->
  find_shmem_obj n id = Some so -> (forall p, 0 <= register p) ->
  exists buf s' next', dimes_client_shmem_checkpoint_storage id s = Some buf
    /\ dimes_client_shmem_restart_storage register n buf s0 next = Some (s', next')
    /\ forall nm i, map (restart_key (ni_cid n)) (filed (sto_groups s') nm i)
         = rev (map (restart_key (ni_cid n)) (filed (sto_groups s) nm i)).
Proof.
  intros Hm Hm0 Hg0 Hw Hnd Hlen Hfit Ho Hso Hreg.
  unfold dimes_client_shmem_restart_storage, dimes_client_shmem_checkpoint_storage.
  rewrite (cr_names_fit _ Hfit). cbn [mbind option_bind]. eexists. rewrite u32_small, Hm0, Hg0 by lia.
  destruct (restart_groups_filed register n (sto_max_versions s) id so Hm Hso Hreg
    (sto_groups s) [] [] next) as (l' & nx & E & _ & Hf); try done.
  { constructor. }
  rewrite app_nil_r in E. do 2 eexists. split; [done|]. cbn [mbind option_bind]. rewrite Nat2Z.id, E. cbn [mbind option_bind]. split; [done|].
  intros nm i. cbn [set_groups sto_groups]. by rewrite Hf, app_nil_r.
Qed.

Definition demo_shmem_obj (ver off : Z) : dimes_memory_obj :=
  mk_mo (mk_oid 5 ver) (mk_odsc "temp" column_major 5 ver (mk_bbox 1 [0] [7]) 8)
    (mk_shd 64 off 5000 0) (mk_gdim 1 [16])
    (mk_hndl (4096 + off) (4096 + off) 64 dart_memory_shmem_rdma).

Definition demo_shmem_store : dimes_storage :=
  mk_sto 2 [mk_grp "fields" [[demo_shmem_obj 2 64; demo_shmem_obj 0 0]; [demo_shmem_obj 1 128]];
            mk_grp default_group_name [[]; [demo_shmem_obj 3 192]]] default_group_name.

Definition demo_node : node_info :=
  mk_node 7 0 [mk_so 5000 0 "/dataspaces_shared_memory_segment_0" 4096 16384] [7].

Lemma storage_checkpoint_roundtrip_witness :
  exists buf s' next', dimes_client_shmem_checkpoint_storage 5000 demo_shmem_store = Some buf
    /\ dimes_client_shmem_restart_storage (fun _ => 0) demo_node buf
      (mk_sto 2 [] default_group_name) 0 = Some (s', next')
    /\ forall nm i, map (restart_key 7) (filed (sto_groups s') nm i)
         = rev (map (restart_key 7) (filed (sto_groups demo_shmem_store) nm i)).
Proof.
  apply (storage_checkpoint_roundtrip (fun _ => 0) demo_node 5000
    (mk_so 5000 0 "/dataspaces_shared_memory_segment_0" 4096 16384) demo_shmem_store);
    try done; simpl; try lia.
  - repeat constructor; intros [|[|i]] o; unfold get_bin; simpl; rewrite ?elem_of_cons;
      intros Ho; destruct_or? Ho; subst; try done; try (by apply not_elem_of_nil in Ho);
      destruct i; by apply not_elem_of_nil in Ho.
  - repeat constructor; rewrite ?elem_of_cons; intros H; destruct_or? H; try done;
      by apply not_elem_of_nil in H.
  - repeat constructor; vm_compute; lia.
  - repeat constructor.
Defined.

(** A name of the greatest length a group may have does not fit. *)
Lemma long_name_no_checkpoint : let nm := String.string_of_list_ascii (repeat (Ascii.ascii_of_nat 97) STORAGE_GROUP_NAME_MAXLEN) in
  current_group_name (update_current_group_name demo_shmem_store (Some nm)) = nm /\
  dimes_client_shmem_checkpoint_storage 5000 (mk_sto 2 [mk_grp nm [[]; []]] nm) = None.
Proof. by vm_compute. Qed.
