(* ===== verification/DimesClient.v ===== *)
(** * The DIMES client (src/dimes_client.c)

    A put keeps the data in the client's memory and registers its location
    with the servers the box hashes to; a get asks these servers for
    locations, then fetches every piece from the client that has it and
    copies it into the buffer of the caller.  This file models the client's
    state, the location of data and the put with all their error paths; the
    next one models the fetch and the get.

    The servers, the other clients and the adapter are parameters of the
    calls: which messages can be sent, the replies that arrive, the contents
    of remote memory, and which reads have completed at each poll. *)

From stdpp Require Import gmap.
From S2P Require Import Prelude Bbox Sfc BboxIntv Matrix ObjDesc Storage Sspace Server DimesBuf DimesMeta Rdma DimesStore.

#[local] Open Scope Z_scope.

(** ** State *)

Inductive fetch_status := fetch_ready | fetch_posted | fetch_done.

#[export] Instance fetch_status_eq_dec : EqDecision fetch_status.
Proof. solve_decision. Defined.

(** [fe_tran] is the id of the read transaction. *)
Record fetch_entry := mk_fe {
  remote_obj_id : dimes_obj_id;
  src_odsc : obj_descriptor;
  dst_odsc : obj_descriptor;
  fe_tran : Z;
  src_shmem_desc : dimes_shmem_descriptor }.

(** [struct query_tran_entry_d] with its [query_dht_d]. *)
Record query_tran_entry_d := mk_qted {
  qd_id : Z;
  qd_obj : obj_descriptor;
  qd_num_fetch : Z;
  qd_fetch_list : list fetch_entry;
  qd_peerid_tab : list Z;
  qd_num_req_posted : Z;
  qd_num_req_received : Z;
  f_locate_data_complete : bool;
  qd_f_complete : bool }.

Definition set_fetch (q : query_tran_entry_d) (n : Z) (l : list fetch_entry) : query_tran_entry_d :=
  mk_qted (qd_id q) (qd_obj q) n l (qd_peerid_tab q) (qd_num_req_posted q)
    (qd_num_req_received q) (f_locate_data_complete q) (qd_f_complete q).

Definition set_requests (q : query_tran_entry_d) (tab : list Z) (posted received : Z) (f : bool)
    : query_tran_entry_d :=
  mk_qted (qd_id q) (qd_obj q) (qd_num_fetch q) (qd_fetch_list q) tab posted received f
    (qd_f_complete q).

Record dimes_client := mk_dcl {
  dc_self : Z;                                      (* DIMES_CID *)
  dc_num_srv : nat;
  dc_hash_version : hash_version_t;
  dc_default_gdim : global_dimension;
  default_ssd : sspace;
  dc_sspace_list : list (global_dimension * sspace);
  dc_cache : sh_state;                              (* the static cache of ss_data.c *)
  dc_gdim_list : gdim_list;
  dc_qt : list query_tran_entry_d;
  dc_num_entry : Z;
  dc_next_qid : Z;
  dc_next_obj : Z;
  dc_store : dimes_storage;
  dc_mem : dmem;
  dc_drh : dart_rdma_handle;
  dc_node : node_info }.

Definition set_spaces (c : dimes_client) (l : list (global_dimension * sspace)) (sh : sh_state)
    : dimes_client :=
  mk_dcl (dc_self c) (dc_num_srv c) (dc_hash_version c) (dc_default_gdim c) (default_ssd c) l sh
    (dc_gdim_list c) (dc_qt c) (dc_num_entry c) (dc_next_qid c) (dc_next_obj c) (dc_store c)
    (dc_mem c) (dc_drh c) (dc_node c).

Definition set_qtd (c : dimes_client) (l : list query_tran_entry_d) (n next : Z) : dimes_client :=
  mk_dcl (dc_self c) (dc_num_srv c) (dc_hash_version c) (dc_default_gdim c) (default_ssd c)
    (dc_sspace_list c) (dc_cache c) (dc_gdim_list c) l n next (dc_next_obj c) (dc_store c)
    (dc_mem c) (dc_drh c) (dc_node c).

Definition set_memory (c : dimes_client) (m : dmem) (h : dart_rdma_handle) : dimes_client :=
  mk_dcl (dc_self c) (dc_num_srv c) (dc_hash_version c) (dc_default_gdim c) (default_ssd c)
    (dc_sspace_list c) (dc_cache c) (dc_gdim_list c) (dc_qt c) (dc_num_entry c) (dc_next_qid c)
    (dc_next_obj c) (dc_store c) m h (dc_node c).

Definition set_objects (c : dimes_client) (s : dimes_storage) (next : Z) : dimes_client :=
  mk_dcl (dc_self c) (dc_num_srv c) (dc_hash_version c) (dc_default_gdim c) (default_ssd c)
    (dc_sspace_list c) (dc_cache c) (dc_gdim_list c) (dc_qt c) (dc_num_entry c) (dc_next_qid c)
    next s (dc_mem c) (dc_drh c) (dc_node c).

(** ** Parameters of a call *)

(** A request of the client. *)
Inductive dcmsg :=
| dimes_put_msg (cmd : rpc_cmd)
| dimes_locate_data_msg (id : Z) (hdr : hdr_dimes_get).

(** One poll of the reads in flight: [pl_error] is the error
    [dart_rdma_process_reads] reports, [pl_done] the answers of
    [dart_rdma_check_reads] by position in the table. *)
Record poll := mk_poll { pl_error : bool; pl_done : list bool }.

Record client_env := mk_cenv {
  ce_mem : mem_env;
  ce_ssd_ok : nat -> bool;             (* the allocations of ssd_alloc *)
  ce_fuel : nat;                       (* bound on the loops of bbox_to_intv *)
  ce_hash_ok : bool;                   (* the cache entry of ssd_hash *)
  ce_qte : bool;                       (* qte_alloc_d, obj_data_alloc_no_data *)
  ce_group : bool;                     (* storage_add_group *)
  ce_msg : Z -> bool;                  (* msg_buf_alloc for a peer *)
  ce_send : Z -> dcmsg -> Z;           (* rpc_send *)
  ce_replies : list locate_reply;      (* what arrives while the client waits *)
  ce_wait : Z;                         (* error of dc_process after these *)
  ce_recv_ok : bool;                   (* the transfer of the tables *)
  ce_remote : Z -> Z -> list byte;     (* memory region of a peer, by address *)
  ce_segment : Z -> list byte;         (* shared memory object, by id *)
  ce_polls : list poll;
  ce_garbage : Z                       (* value of an uninitialised variable *) }.

(** ** Shared spaces *)

Definition client_domain (gd : global_dimension) : bbox :=
  mk_bbox (ndim gd) (replicate (ndim gd) 0)
    (map (fun i => u64 (cget (sizes gd) i - 1)) (seq 0 (ndim gd))).

(** The space is created for one version: the client only hashes with it. *)
Definition lookup_sspace_dimes (env : client_env) (c : dimes_client) (gd : global_dimension)
    : option (dimes_client * sspace) :=
  if global_dimension_equal gd (dc_default_gdim c) then Some (c, default_ssd c)
  else
    match list_find (fun e => ndim gd = ndim (fst e) /\ global_dimension_equal gd (fst e) = true)
            (dc_sspace_list c) with
    | Some (_, e) => Some (c, snd e)
    | None =>
        r ← ssd_alloc (ce_ssd_ok env) (ce_fuel env) (S (length (dc_sspace_list c)))
              (client_domain gd) (dc_num_srv c) 1 (dc_hash_version c);
        Some (match r with
              | None => (c, default_ssd c)
              | Some ss => (set_spaces c ((gd, ss) :: dc_sspace_list c) (dc_cache c), ss)
              end)
    end.

(** [dht_nodes[i]->rank] *)
Definition node_ranks (c : dimes_client) (tab : list de_ptr) : option (list Z) :=
  mapM (fun p =>
    ss ← List.find (fun ss => (ss_ptr ss =? fst p)%nat)
           (default_ssd c :: (snd <$> dc_sspace_list c));
    de_rank <$> ent_tab (ss_dht ss) !! snd p) tab.

Definition hash_nodes (env : client_env) (c : dimes_client) (gd : global_dimension) (b : bbox)
    : option (dimes_client * list Z) :=
  '(c, ss) ← lookup_sspace_dimes env c gd;
  '(sh, tab) ← ssd_hash (ce_hash_ok env) (ce_fuel env) (dc_cache c) ss b;
  let c := set_spaces c (dc_sspace_list c) sh in
  ranks ← node_ranks c tab;
  Some (c, ranks).

Definition init_sspace_dimes (env : client_env) (domain : bbox) (num_srv : nat)
    (v : hash_version_t) : option (option sspace) :=
  ssd_alloc (ce_ssd_ok env) (ce_fuel env) 0 domain num_srv 1 v.

Definition free_sspace_dimes (c : dimes_client) : dimes_client :=
  let sh := fold_left (fun sh e => ssd_free sh (snd e)) (dc_sspace_list c)
              (ssd_free (dc_cache c) (default_ssd c)) in
  set_spaces c [] sh.

(** ** Query transactions *)

Definition qte_alloc_d (env : client_env) (c : dimes_client) (o : obj_descriptor)
    : dimes_client * option query_tran_entry_d :=
  if ce_qte env then
    (set_qtd c (dc_qt c) (dc_num_entry c) (s32 (dc_next_qid c + 1)),
     Some (mk_qted (dc_next_qid c) o 0 [] [] 0 0 false false))
  else (c, None).

Definition qt_find_d (c : dimes_client) (q : Z) : option query_tran_entry_d :=
  List.find (fun qte => qd_id qte =? q) (dc_qt c).

Definition qt_add_d (c : dimes_client) (qte : query_tran_entry_d) : dimes_client :=
  set_qtd c (qte :: dc_qt c) (dc_num_entry c + 1) (dc_next_qid c).

Fixpoint remove_qte (q : Z) (l : list query_tran_entry_d) : list query_tran_entry_d :=
  match l with
  | [] => []
  | e :: l => if qd_id e =? q then l else e :: remove_qte q l
  end.

Definition qt_remove_d (c : dimes_client) (qte : query_tran_entry_d) : dimes_client :=
  set_qtd c (remove_qte (qd_id qte) (dc_qt c)) (dc_num_entry c - 1) (dc_next_qid c).

(** The entry is shared: an update is seen in the list. *)
Fixpoint replace_qte (qte : query_tran_entry_d) (l : list query_tran_entry_d)
    : list query_tran_entry_d :=
  match l with
  | [] => []
  | e :: l => if qd_id e =? qd_id qte then qte :: l else e :: replace_qte qte l
  end.

Definition qt_update_d (c : dimes_client) (qte : query_tran_entry_d) : dimes_client :=
  set_qtd c (replace_qte qte (dc_qt c)) (dc_num_entry c) (dc_next_qid c).

Definition qt_find_obj_d (qte : query_tran_entry_d) (odsc : obj_descriptor) : bool :=
  existsb (fun f => obj_desc_equals (dst_odsc f) odsc) (qd_fetch_list qte).

(** The read transactions and fetch entries are released. *)
Definition qt_free_obj_data_d (c : dimes_client) (qte : query_tran_entry_d)
    : dimes_client * query_tran_entry_d :=
  let h := fold_left (fun h f => (dart_rdma_delete_read_tran h (fe_tran f)).1)
             (qd_fetch_list qte) (dc_drh c) in
  let n := qd_num_fetch qte - Z.of_nat (length (qd_fetch_list qte)) in
  (set_memory c (dc_mem c) h, set_fetch qte n []).

(** A fetch entry for a located piece: a read transaction with the owner of
    the data, and the memory region of the request as its source. *)
Definition qt_add_obj_with_cmd_d (h : dart_rdma_handle) (qte : query_tran_entry_d)
    (odsc : obj_descriptor) (cmd : rpc_cmd) : dart_rdma_handle * query_tran_entry_d :=
  let hdr := cmd_pad cmd in
  let '(h, t) := dart_rdma_create_read_tran true h (owner (hp_odsc hdr)) in
  let id := from_option tran_id 0 t in
  let src := mk_hndl (fst (cmd_mr cmd)) 0 0 dart_memory_non_rdma in
  let h := set_trans h (update_tran id (fun t => set_src t src) (read_tran_list h)) in
  let f := mk_fe (hp_obj_id hdr) (hp_odsc hdr) odsc id (hp_shmem_desc hdr) in
  (h, set_fetch qte (qd_num_fetch qte) (f :: qd_fetch_list qte)).

(** ** Locating data *)

(** The pieces of one table: each is cut to the box asked for and added
    unless the same piece of the same owner is already there. *)
Fixpoint add_located (h : dart_rdma_handle) (qte : query_tran_entry_d) (tab : list rpc_cmd)
    : dart_rdma_handle * query_tran_entry_d :=
  match tab with
  | [] => (h, qte)
  | cmd :: tab =>
      let hdr := cmd_odsc cmd in
      let odsc := mk_odsc (name hdr) (st hdr) (owner hdr) (version hdr)
                    (bbox_intersect (bb (qd_obj qte)) (bb hdr)) (size hdr) in
      if qt_find_obj_d qte odsc then
        add_located h (set_fetch qte (qd_num_fetch qte - 1) (qd_fetch_list qte)) tab
      else
        let '(h, qte) := qt_add_obj_with_cmd_d h qte odsc cmd in
        add_located h qte tab
  end.

(** One more reply; the location phase ends with the last one. *)
Definition count_reply_d (qte : query_tran_entry_d) : query_tran_entry_d :=
  set_requests qte (qd_peerid_tab qte) (qd_num_req_posted qte) (qd_num_req_received qte + 1)
    (f_locate_data_complete qte).

Definition check_located (qte : query_tran_entry_d) : query_tran_entry_d :=
  if qd_num_req_received qte =? qd_num_req_posted qte then
    set_requests qte (qd_peerid_tab qte) (qd_num_req_posted qte) (qd_num_req_received qte) true
  else qte.

Definition locate_data_completion_client (c : dimes_client) (r : locate_reply) : dimes_client * Z :=
  match qt_find_d c (lr_qid r) with
  | None => (c, - ENOENT)
  | Some qte =>
      let qte := count_reply_d qte in
      let qte := set_fetch qte (qd_num_fetch qte + lr_num_obj r) (qd_fetch_list qte) in
      let '(h, qte) := add_located (dc_drh c) qte (lr_tab r) in
      (qt_update_d (set_memory c (dc_mem c) h) (check_located qte), 0)
  end.

(** A reply without locations is counted; otherwise the transfer of the
    table is posted, which the boolean says. *)
Definition dcgrpc_dimes_locate_data (env : client_env) (c : dimes_client) (r : locate_reply)
    : dimes_client * Z * bool :=
  if lr_rc r =? -1 then
    match qt_find_d c (lr_qid r) with
    | None => (c, - ENOMEM, false)
    | Some qte => (qt_update_d c (check_located (count_reply_d qte)), 0, false)
    end
  else if (lr_num_obj r <=? 0) || negb (ce_recv_ok env) then (c, - ENOMEM, false)
  else (c, 0, true).

(** A reply in [rpc_process]: the code of the message handler is not looked
    at, that of the completion of the transfer is the result. *)
Definition process_reply (env : client_env) (c : dimes_client) (r : locate_reply)
    : dimes_client * Z :=
  let '(c, _, posted) := dcgrpc_dimes_locate_data env c r in
  if posted then locate_data_completion_client c r else (c, 0).

(** The requests to the servers of the table, up to the first error. *)
Fixpoint locate_loop (env : client_env) (c : dimes_client) (hdr : hdr_dimes_get)
    (tab : list Z) (posted : Z) (sent : list (Z * dcmsg)) : list (Z * dcmsg) * Z * Z :=
  match tab with
  | [] => (sent, posted, 0)
  | peer :: tab =>
      let m := dimes_locate_data_msg (dc_self c) hdr in
      if negb (ce_msg env peer) then (sent, posted, - ENOMEM)
      else
        let err := ce_send env peer m in
        if err <? 0 then (sent, posted, err)
        else locate_loop env c hdr tab (posted + 1) (sent ++ [(peer, m)])
  end.

Definition dimes_locate_data (env : client_env) (c : dimes_client) (qte : query_tran_entry_d)
    : query_tran_entry_d * list (Z * dcmsg) * Z :=
  let '(sent, posted, err) :=
    locate_loop env c (mk_hdg (qd_id qte) (qd_obj qte)) (qd_peerid_tab qte) 0 [] in
  (set_requests qte (qd_peerid_tab qte) posted 0 false, sent, err).

Inductive wait_result := wait_done | wait_error (err : Z) | wait_more.

(** [DIMES_WAIT_COMPLETION(qte->f_locate_data_complete == 1)]: events are
    processed until the flag is set or one fails.  After the replies
    [dc_process] fails with [ce_wait], or the client waits on. *)
Fixpoint wait_located (env : client_env) (c : dimes_client) (q : Z) (replies : list locate_reply)
    : dimes_client * wait_result :=
  match replies with
  | [] => (c, if ce_wait env <? 0 then wait_error (ce_wait env) else wait_more)
  | r :: replies =>
      let '(c, err) := process_reply env c r in
      if err <? 0 then (c, wait_error err)
      else if from_option f_locate_data_complete false (qt_find_d c q) then (c, wait_done)
      else wait_located env c q replies
  end.

(** ** Put *)

(** The requests to the servers; a message that cannot be allocated returns
    the code of the previous call, 0 after a first success. *)
Fixpoint put_loop (env : client_env) (cmd : rpc_cmd) (ranks : list Z) (err : Z)
    (sent : list (Z * dcmsg)) : list (Z * dcmsg) * bool * Z :=
  match ranks with
  | [] => (sent, true, 0)
  | peer :: ranks =>
      if negb (ce_msg env peer) then (sent, false, err)
      else
        let err := ce_send env peer (dimes_put_msg cmd) in
        if err <? 0 then (sent, false, err)
        else put_loop env cmd ranks err (sent ++ [(peer, dimes_put_msg cmd)])
  end.

Definition put_cmd (c : dimes_client) (o : dimes_memory_obj) : rpc_cmd :=
  let shmem := enable_shmem_buffer (options (dc_mem c)) in
  mk_cmd (dc_self c) (mr_addr (mo_hndl o), hndl_size (mo_hndl o))
    (mk_hdp (mo_id o) (mo_desc o) shmem (if shmem then mo_shmem o else mk_shd 0 0 0 0)).

Definition dimes_obj_put (env : client_env) (c : dimes_client) (o : dimes_memory_obj)
    : option (dimes_client * list (Z * dcmsg) * Z) :=
  '(c, ranks) ← hash_nodes env c (mo_gdim o) (bb (mo_desc o));
  match ranks with
  | [] => Some (c, [], - ENOMEM)
  | _ =>
      let '(sent, ok, err) := put_loop env (put_cmd c o) ranks (- ENOMEM) [] in
      if ok then
        s ← storage_add_obj (ce_group env) (dc_store c) o;
        Some (set_objects c s (dc_next_obj c), sent, 0)
      else Some (c, sent, err)
  end.

(** [odsc] of a put or get: the name is cut to the 153 characters of the
    field, the storage order is [default_st]. *)
Definition client_odsc (var_name : string) (ver elem_size : Z) (nd : nat) (lb ub : list Z) (own : Z)
    : obj_descriptor :=
  mk_odsc (String.substring 0 153 var_name) column_major own (u32 ver)
    (mk_bbox nd (map (cget lb) (seq 0 nd)) (map (cget ub) (seq 0 nd))) (u64 elem_size).

(** [mem_obj->shmem_desc], with the segment of the client. *)
Definition my_shmem_desc (c : dimes_client) (h : dart_rdma_mem_handle) (data_size : Z)
    : dimes_shmem_descriptor :=
  match find_my_shmem_obj (dc_node c) with
  | Some so => mk_shd data_size (u64 (base_addr h - so_ptr so)) (so_id so) (so_owner_node_rank so)
  | None => mk_shd 0 0 0 0
  end.

(** The bytes of the user in the block of the handle. *)
Definition store_bytes (m : dmem) (p : Z) (n : Z) (data : list byte) : option dmem :=
  blk ← heap m !! p;
  d ← memcpy (mb_bytes blk) 0 data 0 n;
  Some (write_block m p blk d).

Definition dimes_client_put (env : client_env) (c : dimes_client) (var_name : string)
    (ver elem_size : Z) (nd : nat) (lb ub : list Z) (data : list byte)
    : option (dimes_client * list (Z * dcmsg) * Z) :=
  let odsc := client_odsc var_name ver elem_size nd lb ub (dc_self c) in
  let data_size := obj_data_size odsc in
  let oid := mk_oid (dc_self c) (dc_next_obj c) in
  let c := set_objects c (dc_store c) (u32 (dc_next_obj c + 1)) in
  let shmem := enable_shmem_buffer (options (dc_mem c)) in
  match dimes_memory_alloc (ce_mem env) (dc_mem c) data_size
          (if shmem then dart_memory_shmem_rdma else dart_memory_rdma) with
  | (m, None) => Some (set_memory c m (dc_drh c), [], -1)
  | (m, Some h) =>
      m ← store_bytes m (base_addr h) data_size data;
      let c := set_memory c m (dc_drh c) in
      let shd := if shmem then my_shmem_desc c h data_size else mk_shd 0 0 0 0 in
      let gd := set_global_dimension (dc_gdim_list c) var_name (dc_default_gdim c) in
      '(c, sent, err) ← dimes_obj_put env c (mk_mo oid odsc shd gd h);
      if err <? 0 then
        '(m, _) ← dimes_memory_free (ce_mem env) (dc_mem c) h;
        Some (set_memory c m (dc_drh c), sent, err)
      else Some (c, sent, 0)
  end.

(** ** The put *)

(** Hashing only reads and changes the spaces and their cache: it commutes
    with a change [u] of the other fields. *)
Record keeps_spaces (u : dimes_client -> dimes_client) : Prop := {
  ks_set : forall c l sh, set_spaces (u c) l sh = u (set_spaces c l sh);
  ks_gdim : forall c, dc_default_gdim (u c) = dc_default_gdim c;
  ks_list : forall c, dc_sspace_list (u c) = dc_sspace_list c;
  ks_ssd : forall c, default_ssd (u c) = default_ssd c;
  ks_srv : forall c, dc_num_srv (u c) = dc_num_srv c;
  ks_hash : forall c, dc_hash_version (u c) = dc_hash_version c;
  ks_cache : forall c, dc_cache (u c) = dc_cache c }.

Lemma hash_nodes_frame u env c gd b :
  keeps_spaces u ->
  hash_nodes env (u c) gd b = '(c1, ranks) ← hash_nodes env c gd b; Some (u c1, ranks).
Proof.
  intros [U1 U2 U3 U4 U5 U6 U7]. unfold hash_nodes, lookup_sspace_dimes.
  rewrite U2, U3, U4, U5, U6, U7.
  assert (Hk : forall c1 ss,
    ('(sh, tab) ← ssd_hash (ce_hash_ok env) (ce_fuel env) (dc_cache (u c1)) ss b;
     let c := set_spaces (u c1) (dc_sspace_list (u c1)) sh in
     ranks ← node_ranks c tab; Some (c, ranks))
    = '(c1, ranks) ← ('(sh, tab) ← ssd_hash (ce_hash_ok env) (ce_fuel env) (dc_cache c1) ss b;
                      let c := set_spaces c1 (dc_sspace_list c1) sh in
                      ranks ← node_ranks c tab; Some (c, ranks));
      Some (u c1, ranks)).
  { intros c1 ss. rewrite U7, U3.
    destruct (ssd_hash _ _ _ _ _) as [[sh tab]|]; [|done]. cbn [mbind option_bind].
    rewrite U1. unfold node_ranks. rewrite U4, U3. by destruct (mapM _ tab). }
  destruct (global_dimension_equal gd (dc_default_gdim c)); [apply (Hk c)|].
  destruct (list_find _ _) as [[i e]|]; [apply (Hk c)|].
  destruct (ssd_alloc _ _ _ _ _ _ _) as [[ss|]|]; [| |done]; cbn [mbind option_bind];
    rewrite ?U1; apply Hk.
Qed.

Lemma keeps_objects s n m h : keeps_spaces (fun c => set_memory (set_objects c s n) m h).
Proof. by split. Qed.

Lemma keeps_qt l n x : keeps_spaces (fun c => set_qtd c l n x).
Proof. by split. Qed.

Lemma hash_nodes_same env c gd b c1 ranks :
  hash_nodes env c gd b = Some (c1, ranks) -> exists l sh, c1 = set_spaces c l sh.
Proof.
  unfold hash_nodes. intros H. destruct (lookup_sspace_dimes env c gd) as [[c2 ss]|] eqn:E; [|done].
  assert (Hc : exists l, c2 = set_spaces c l (dc_cache c)).
  { unfold lookup_sspace_dimes in E. destruct (global_dimension_equal _ _).
    { injection E as <- _. exists (dc_sspace_list c). by destruct c. }
    destruct (list_find _ _) as [[i e]|].
    { injection E as <- _. exists (dc_sspace_list c). by destruct c. }
    destruct (ssd_alloc _ _ _ _ _ _ _) as [[ss'|]|]; [| |done]; cbn [mbind option_bind] in E.
    - injection E as <- _. eauto.
    - injection E as <- _. exists (dc_sspace_list c). by destruct c. }
  destruct Hc as [l ->]. cbn [mbind option_bind] in H.
  destruct (ssd_hash _ _ _ _ _) as [[sh tab]|]; [|done]. cbn [mbind option_bind] in H.
  destruct (node_ranks _ tab) as [r|]; [|done]. cbn [mbind option_bind] in H. injection H as <- <-. by eexists _, _.
Qed.

(** The requests of a put, to all servers or up to the first failure. *)
Lemma put_loop_spec env cmd ranks : forall err sent,
  let '(sent', ok, e) := put_loop env cmd ranks err sent in
  if ok then e = 0 /\ sent' = sent ++ map (fun r => (r, dimes_put_msg cmd)) ranks
  else (forall r, r ∈ ranks -> ce_msg env r = true) -> e < 0.
Proof.
  induction ranks as [|r ranks IH]; intros err sent; cbn [put_loop].
  { split; [done|]. by rewrite app_nil_r. }
  destruct (ce_msg env r) eqn:Em; cbn [negb].
  2:{ intros H. by rewrite (H r ltac:(by left)) in Em. }
  destruct (Z.ltb_spec (ce_send env r (dimes_put_msg cmd)) 0) as [Hs|Hs]; [done|].
  specialize (IH (ce_send env r (dimes_put_msg cmd)) (sent ++ [(r, dimes_put_msg cmd)])).
  destruct (put_loop _ _ _ _ _) as [[sent' [|]] e].
  - destruct IH as [-> ->]. by rewrite <- app_assoc.
  - intros H. apply IH. intros r' Hr. apply H. by right.
Qed.

Lemma store_bytes_spec m hs h data :
  mem_inv m (h :: hs) -> hndl_size h <= Z.of_nat (length data) ->
  exists m', store_bytes m (base_addr h) (hndl_size h) data = Some m' /\ mem_inv m' (h :: hs)
    /\ options m' = options m
    /\ (forall p, p <> base_addr h -> heap m' !! p = heap m !! p)
    /\ exists blk, heap m' !! base_addr h = Some blk
         /\ take (Z.to_nat (hndl_size h)) (mb_bytes blk) = take (Z.to_nat (hndl_size h)) data.
Proof.
  intros Hi Hl. pose proof (mm_live _ _ Hi) as [[Hsz (blk & Hblk & _ & Hlen) _] _]%list.Forall_cons.
  unfold store_bytes. rewrite Hblk. cbn [mbind option_bind].
  destruct (memcpy_spec (mb_bytes blk) 0 data 0 (hndl_size h)) as (d & E & L & M); try lia.
  rewrite E. cbn [mbind option_bind]. eexists. split; [done|]. split; [by apply write_block_inv|].
  split; [done|]. cbn [write_block heap]. split; [intros p Hp; by rewrite lookup_insert_ne|].
  eexists. rewrite lookup_insert_eq. split; [done|]. cbn [mb_bytes]. apply list_eq. intros i.
  destruct (decide (i < Z.to_nat (hndl_size h))%nat) as [Hi'|Hi'].
  - rewrite !lookup_take_lt by done. specialize (M (Z.of_nat i) ltac:(lia)).
    unfold at_ in M. rewrite Nat2Z.id in M. rewrite M.
    rewrite (proj2 (Z.leb_le 0 _)), (proj2 (Z.ltb_lt _ _)) by lia. cbn [andb].
    f_equal. lia.
  - by rewrite !lookup_take_ge by lia.
Qed.

(** Memory for the object with the bytes of the user in it. *)
Lemma alloc_store_spec env m hs n type data :
  mem_inv m hs -> env_ok env m -> 0 < n <= Z.of_nat (length data) ->
  match dimes_memory_alloc env m n type with
  | (m', None) => mem_inv m' hs
      /\ forall h, h ∈ hs -> heap m' !! base_addr h = heap m !! base_addr h
  | (m', Some h) => exists m2, store_bytes m' (base_addr h) n data = Some m2
      /\ mem_inv m2 (h :: hs)
      /\ (forall h', h' ∈ hs -> base_addr h' <> base_addr h
           /\ heap m2 !! base_addr h' = heap m !! base_addr h')
      /\ exists blk, heap m2 !! base_addr h = Some blk
           /\ take (Z.to_nat n) (mb_bytes blk) = take (Z.to_nat n) data
  end.
Proof.
  intros Hi He Hsz. pose proof (dimes_memory_alloc_spec env m hs n type Hi He (proj1 Hsz)) as Ha.
  destruct (dimes_memory_alloc _ _ _ _) as [m' [h|]].
  - destruct Ha as (Ha1 & Ha2 & Ha3 & Ha4 & Ha5).
    destruct (store_bytes_spec m' _ h data Ha1) as (m2 & E2 & Hi2 & Ho2 & Hh2 & Hb2); [lia|].
    rewrite Ha3 in E2, Hb2. exists m2. split; [done|]. split; [done|]. split; [|done].
    intros h' Hin. destruct (live_heap _ _ h' Hi Hin) as [b Hb].
    assert (Hne : base_addr h' <> base_addr h) by congruence. split; [done|].
    rewrite (Hh2 _ Hne), Ha5. by rewrite lookup_insert_ne.
  - destruct Ha as [Ha1 Ha2]. split; [done|]. intros h Hin.
    destruct (live_heap _ _ h Hi Hin) as [b Hb]. rewrite Hb. by eapply lookup_weaken.
Qed.

(** The handles of the stored objects. *)
Definition held (s : dimes_storage) : list dart_rdma_mem_handle :=
  map mo_hndl (sto_objs (sto_groups s)).

(** The object [o] of the put is in the storage with the bytes of the user,
    and every server of [ranks] has been told. *)
Record stored (c c' : dimes_client) (oid : dimes_obj_id) (odsc : obj_descriptor) (data : list byte)
    (ranks : list Z) (sent : list (Z * dcmsg)) (o : dimes_memory_obj) : Prop := {
  sd_id : mo_id o = oid;
  sd_desc : mo_desc o = odsc;
  sd_objs : sto_objs (sto_groups (dc_store c')) ≡ₚ o :: sto_objs (sto_groups (dc_store c));
  sd_filed : forall nm i, filed (sto_groups (dc_store c')) nm i
    = if decide (nm = current_group_name (dc_store c)
                 /\ i = bin_of (version odsc) (sto_max_versions (dc_store c)))
      then o :: filed (sto_groups (dc_store c)) nm i else filed (sto_groups (dc_store c)) nm i;
  sd_bytes : exists blk, heap (dc_mem c') !! base_addr (mo_hndl o) = Some blk
    /\ take (Z.to_nat (obj_data_size odsc)) (mb_bytes blk)
       = take (Z.to_nat (obj_data_size odsc)) data;
  sd_sent : sent = map (fun r => (r, dimes_put_msg (put_cmd c' o))) ranks;
  sd_ranks : ranks <> [] }.

(** What a put leaves alone: everything but the cache of the hash ([c1] is
    the client after hashing), the storage and the memory. *)
Record kept (c c1 c' : dimes_client) : Prop := {
  kp_self : dc_self c' = dc_self c;
  kp_ssd : default_ssd c' = default_ssd c;
  kp_cache : dc_cache c' = dc_cache c1;
  kp_gdims : dc_gdim_list c' = dc_gdim_list c;
  kp_default : dc_default_gdim c' = dc_default_gdim c;
  kp_srv : dc_num_srv c' = dc_num_srv c;
  kp_max : sto_max_versions (dc_store c') = sto_max_versions (dc_store c);
  kp_wf : groups_wf (sto_max_versions (dc_store c')) (sto_groups (dc_store c')) }.

Lemma dimes_obj_put_spec env c o c1 ranks hs oid odsc data :
  mem_inv (dc_mem c) (mo_hndl o :: held (dc_store c) ++ hs) ->
  0 < sto_max_versions (dc_store c) ->
  groups_wf (sto_max_versions (dc_store c)) (sto_groups (dc_store c)) -> ce_group env = true ->
  hash_nodes env c (mo_gdim o) (bb (mo_desc o)) = Some (c1, ranks) ->
  (forall r, r ∈ ranks -> ce_msg env r = true) ->
  mo_id o = oid -> mo_desc o = odsc ->
  (exists blk, heap (dc_mem c) !! base_addr (mo_hndl o) = Some blk
    /\ take (Z.to_nat (obj_data_size odsc)) (mb_bytes blk)
       = take (Z.to_nat (obj_data_size odsc)) data) ->
  exists c' sent err, dimes_obj_put env c o = Some (c', sent, err) /\ dc_mem c' = dc_mem c
    /\ (err = 0 /\ stored c c' oid odsc data ranks sent o
        /\ mem_inv (dc_mem c') (held (dc_store c') ++ hs) /\ kept c c1 c'
        \/ err < 0 /\ dc_store c' = dc_store c).
Proof.
  intros Hi Hmax Hw Hg Hh Hmsg Hid Hd Hb. unfold dimes_obj_put. rewrite Hh. cbn [mbind option_bind].
  assert (Em : dc_mem c1 = dc_mem c /\ dc_store c1 = dc_store c)
    by (by destruct (hash_nodes_same _ _ _ _ _ _ Hh) as (l & sh & ->)).
  destruct Em as [Em Es].
  assert (Hk : forall s n, sto_max_versions s = sto_max_versions (dc_store c) -> groups_wf (sto_max_versions s) (sto_groups s) ->
    kept c c1 (set_objects c1 s n)) by (by destruct (hash_nodes_same _ _ _ _ _ _ Hh) as (l & sh & ->)).
  destruct ranks as [|r ranks].
  { exists c1, [], (- ENOMEM). split; [done|]. split; [done|]. right. split; [done|done]. }
  pose proof (put_loop_spec env (put_cmd c1 o) (r :: ranks) (- ENOMEM) []) as Hp.
  destruct (put_loop _ _ _ _ _) as [[sent [|]] e].
  2:{ exists c1, sent, e. split; [done|]. split; [done|]. right. split; [by apply Hp|done]. }
  destruct Hp as [-> ->]. unfold storage_add_obj. rewrite Es, Hg.
  destruct (group_add_obj_filed _ _ (current_group_name (dc_store c)) o Hmax Hw) as (l' & El & Hw' & Hf).
  pose proof (group_add_obj_objs _ _ _ _ _ Hmax Hw El) as Hperm.
  rewrite El. cbn [mbind option_bind]. eexists _, _, 0. split; [done|]. split; [done|].
  left. split; [done|]. cbn [dc_store set_objects dc_mem set_groups sto_groups]. split.
  - split; cbn [dc_store set_objects dc_mem set_groups sto_groups]; try done.
    + intros nm i. rewrite Hf, Hd. done.
    + by rewrite Em.
  - split; [|by apply Hk]. rewrite Em. eapply mem_inv_perm; [|exact Hi]. unfold held. cbn [set_groups sto_groups].
    rewrite Hperm. done.
Qed.

Lemma store_bytes_config m p n d m' : store_bytes m p n d = Some m' -> config m' = config m.
Proof.
  unfold store_bytes. destruct (heap m !! p) as [blk|]; [|done]. cbn [mbind option_bind].
  destruct (memcpy _ _ _ _ _); [|done]. by intros [= <-].
Qed.

(** The put, with what later operations rely on. *)
Lemma client_put_spec env c var_name ver elem_size nd lb ub data hs c1 ranks :
  let odsc := client_odsc var_name ver elem_size nd lb ub (dc_self c) in
  let gd := set_global_dimension (dc_gdim_list c) var_name (dc_default_gdim c) in
  mem_inv (dc_mem c) (held (dc_store c) ++ hs) ->
  0 < sto_max_versions (dc_store c) ->
  groups_wf (sto_max_versions (dc_store c)) (sto_groups (dc_store c)) ->
  env_ok (ce_mem env) (dc_mem c) -> dereg_ok (ce_mem env) -> ce_group env = true ->
  0 < obj_data_size odsc <= Z.of_nat (length data) ->
  hash_nodes env c gd (bb odsc) = Some (c1, ranks) ->
  (forall r, r ∈ ranks -> ce_msg env r = true) ->
  exists c' sent err,
    dimes_client_put env c var_name ver elem_size nd lb ub data = Some (c', sent, err)
    /\ mem_inv (dc_mem c') (held (dc_store c') ++ hs)
    /\ (forall h, h ∈ held (dc_store c) ->
          heap (dc_mem c') !! base_addr h = heap (dc_mem c) !! base_addr h)
    /\ (err = 0 /\ (exists o, stored c c' (mk_oid (dc_self c) (dc_next_obj c)) odsc data ranks sent o
           /\ mr_addr (mo_hndl o) = base_addr (mo_hndl o))
        /\ kept c c1 c' /\ config (dc_mem c') = config (dc_mem c)
        \/ err < 0 /\ dc_store c' = dc_store c).
Proof.
  intros odsc gd Hi Hmax Hw He Hd Hg Hsz Hh Hmsg. unfold dimes_client_put. fold odsc gd.
  cbn [set_objects dc_mem dc_store dc_drh].
  set (type := if enable_shmem_buffer (options (dc_mem c)) then dart_memory_shmem_rdma
               else dart_memory_rdma).
  pose proof (alloc_store_spec (ce_mem env) (dc_mem c) _ (obj_data_size odsc) type data Hi He Hsz) as Ha.
  assert (Ht : uses_rdma type = true) by (unfold type; by case_if).
  pose proof (alloc_config (ce_mem env) (dc_mem c) (obj_data_size odsc) type) as Hconf.
  pose proof (fun m h => alloc_registered (ce_mem env) (dc_mem c) _ (obj_data_size odsc) type m h Hi Ht) as Hreg.
  destruct (dimes_memory_alloc _ _ _ _) as [m [h|]].
  2:{ destruct Ha as [Ha1 Ha2]. eexists _, _, (-1). split; [done|]. split; [done|]. split; [|by right].
      intros h Hin. apply Ha2, elem_of_app. by left. }
  destruct Ha as (m2 & Em2 & Hi2 & Hold & Hb2). rewrite Em2. cbn [mbind option_bind].
  apply store_bytes_config in Em2. specialize (Hreg m h eq_refl). cbn [fst] in Hconf.
  set (c2 := set_memory (set_objects c (dc_store c) (u32 (dc_next_obj c + 1))) m2 (dc_drh c)).
  set (o := mk_mo (mk_oid (dc_self c) (dc_next_obj c)) odsc _ _ h).
  assert (Hhash : hash_nodes env c2 (mo_gdim o) (bb (mo_desc o))
    = Some (set_memory (set_objects c1 (dc_store c) (u32 (dc_next_obj c + 1))) m2 (dc_drh c), ranks)).
  { etransitivity; [apply (hash_nodes_frame _ _ c _ _ (keeps_objects _ _ m2 _))|].
    change (mo_gdim o) with gd. change (mo_desc o) with odsc. by rewrite Hh. }
  destruct (dimes_obj_put_spec env c2 o _ ranks hs (mk_oid (dc_self c) (dc_next_obj c)) odsc data
    Hi2 Hmax Hw Hg Hhash Hmsg eq_refl eq_refl Hb2) as (c' & sent & err & -> & Em & Hres).
  cbn [mbind option_bind].
  destruct Hres as [(-> & Hst & Hm' & Hk)|[Herr Es]].
  - exists c', sent, 0. split; [done|]. split; [done|]. split.
    { intros h' Hin. rewrite Em. apply Hold, elem_of_app. by left. }
    left. split; [done|]. split; [exists o; split; [by destruct Hst|done]|].
    split; [by destruct Hk|]. rewrite Em. cbn [c2 set_memory dc_mem]. congruence.
  - rewrite (proj2 (Z.ltb_lt err 0)) by done.
    assert (Hmc : mem_inv (dc_mem c') (h :: held (dc_store c) ++ hs)) by (by rewrite Em).
    destruct (dimes_memory_free_spec _ _ _ _ Hmc Hd) as (m3 & -> & Hi3 & Hh3).
    cbn [mbind option_bind]. eexists _, _, err. split; [done|]. cbn [set_memory dc_mem dc_store].
    rewrite Es. split; [done|]. split; [|by right].
    intros h' Hin. destruct (Hold h' ltac:(apply elem_of_app; by left)) as [Hne Hkeep]. rewrite Hh3, lookup_delete_ne by congruence.
    rewrite Em. exact Hkeep.
Qed.

(** A put of a client either fails with a negative code, or keeps the
    bytes of the user under a new object id, filed in front of the current
    group's list of the version, and has told every server the box hashes to
    where they are.  Either way the accounting of RDMA memory is exact for
    the objects kept, and the data of the objects put before is unchanged. *)
Theorem dimes_client_put_correct env c var_name ver elem_size nd lb ub data hs c1 ranks :
  let odsc := client_odsc var_name ver elem_size nd lb ub (dc_self c) in
  let gd := set_global_dimension (dc_gdim_list c) var_name (dc_default_gdim c) in
  mem_inv (dc_mem c) (held (dc_store c) ++ hs) ->
  0 < sto_max_versions (dc_store c) ->
  groups_wf (sto_max_versions (dc_store c)) (sto_groups (dc_store c)) ->
  env_ok (ce_mem env) (dc_mem c) -> dereg_ok (ce_mem env) -> ce_group env = true ->
  0 < obj_data_size odsc <= Z.of_nat (length data) ->
  hash_nodes env c gd (bb odsc) = Some (c1, ranks) ->
  (forall r, r ∈ ranks -> ce_msg env r = true) ->
  exists c' sent err,
    dimes_client_put env c var_name ver elem_size nd lb ub data = Some (c', sent, err)
    /\ mem_inv (dc_mem c') (held (dc_store c') ++ hs)
    /\ (forall h, h ∈ held (dc_store c) ->
          heap (dc_mem c') !! base_addr h = heap (dc_mem c) !! base_addr h)
    /\ (err = 0 /\ (exists o, stored c c' (mk_oid (dc_self c) (dc_next_obj c)) odsc data ranks sent o)
        \/ err < 0 /\ dc_store c' = dc_store c).
Proof.
  intros odsc gd Hi Hmax Hw He Hd Hg Hsz Hh Hmsg.
  destruct (client_put_spec env c var_name ver elem_size nd lb ub data hs c1 ranks Hi Hmax Hw He Hd Hg Hsz Hh Hmsg)
    as (c' & sent & err & E & Hm & Hold & Hr). exists c', sent, err. do 3 (split; [done|]).
  destruct Hr as [(-> & (o & Ho & _) & _)|Hr]; [left; eauto | by right].
Qed.

(** A client of the node of client 5, with two servers. *)
Definition demo_domain : bbox := mk_bbox 2 [0; 0] [3; 3].

Definition demo_ssd : sspace :=
  match ssd_alloc (fun _ => true) 100 0 demo_domain 2 1 ssd_hash_version_v2 with
  | Some (Some ss) => ss
  | _ => mk_ss 0 0 0 (mk_dht demo_domain 0 []) 0 0 0 ssd_hash_version_unknown
  end.

Definition demo_client (m : dmem) (s : dimes_storage) (h : dart_rdma_handle) : dimes_client :=
  mk_dcl 5 2 ssd_hash_version_v2 (mk_gdim 2 [4; 4]) demo_ssd [] (mk_sh [] false) [] [] 0 0 0 s m h
    (mk_node 5 0 [] [5]).

Definition demo_storage : dimes_storage := mk_sto 2 [] default_group_name.

(** Messages can be allocated for the peers [p] accepts. *)
Definition demo_cenv (p : Z -> bool) (remote : Z -> Z -> list byte) (polls : list poll) : client_env :=
  mk_cenv demo_menv (fun _ => true) 100 true true true p (fun _ _ => 0) [] 0 true remote (fun _ => [])
    polls 0.

Definition demo_c0 : dimes_client := demo_client demo_mem0 demo_storage (mk_drh 5 0 []).
Definition demo_cput (p : Z -> bool) :=
  dimes_client_put (demo_cenv p (fun _ _ => []) []) demo_c0 "temp" 1 1 2 [0; 0] [3; 3]
    (replicate 16 Byte.x05).

Lemma demo_mem0_inv : mem_inv demo_mem0 [].
Proof. split; simpl; try lia; try done; constructor. Qed.

Lemma demo_hash p : exists c1, hash_nodes (demo_cenv p (fun _ _ => []) []) demo_c0 (mk_gdim 2 [4; 4])
  demo_domain = Some (c1, [0; 1]).
Proof. eexists. vm_compute. reflexivity. Qed.

Lemma dimes_client_put_correct_witness :
  exists c' sent err, demo_cput (fun _ => true) = Some (c', sent, err)
    /\ mem_inv (dc_mem c') (held (dc_store c') ++ [])
    /\ (err = 0 /\ (exists o, stored demo_c0 c' (mk_oid 5 0)
          (client_odsc "temp" 1 1 2 [0; 0] [3; 3] 5) (replicate 16 Byte.x05) [0; 1] sent o)
        \/ err < 0).
Proof.
  destruct (demo_hash (fun _ => true)) as [c1 Hh].
  destruct (dimes_client_put_correct (demo_cenv (fun _ => true) (fun _ _ => []) []) demo_c0 "temp" 1 1 2
    [0; 0] [3; 3] (replicate 16 Byte.x05) [] c1 [0; 1]) as (c' & sent & err & E & Hm & _ & Hr).
  - exact demo_mem0_inv.
  - simpl. lia.
  - constructor.
  - by apply demo_env_ok.
  - by intros p.
  - reflexivity.
  - split; vm_compute; congruence.
  - exact Hh.
  - by intros r _.
  - exists c', sent, err. split; [exact E|]. split; [exact Hm|].
    destruct Hr as [Hr|[Hr _]]; [left; exact Hr|right; exact Hr].
Defined.

(** When the message for a second server cannot be allocated after a
    first one was sent, the put returns 0 although the object is not stored:
    its memory stays allocated and counted, no stored object owns it, and
    the servers after the first are not told. *)
Theorem put_success_without_object env c var_name ver elem_size nd lb ub data hs c1 r1 r2 ranks m h :
  let odsc := client_odsc var_name ver elem_size nd lb ub (dc_self c) in
  let gd := set_global_dimension (dc_gdim_list c) var_name (dc_default_gdim c) in
  mem_inv (dc_mem c) (held (dc_store c) ++ hs) -> env_ok (ce_mem env) (dc_mem c) ->
  0 < obj_data_size odsc <= Z.of_nat (length data) ->
  hash_nodes env c gd (bb odsc) = Some (c1, r1 :: r2 :: ranks) ->
  ce_msg env r1 = true -> (forall msg, 0 <= ce_send env r1 msg) -> ce_msg env r2 = false ->
  dimes_memory_alloc (ce_mem env) (dc_mem c) (obj_data_size odsc)
    (if enable_shmem_buffer (options (dc_mem c)) then dart_memory_shmem_rdma else dart_memory_rdma)
  = (m, Some h) ->
  exists c' msg,
    dimes_client_put env c var_name ver elem_size nd lb ub data = Some (c', [(r1, msg)], 0)
    /\ dc_store c' = dc_store c /\ mem_inv (dc_mem c') (h :: held (dc_store c') ++ hs).
Proof.
  intros odsc gd Hi He Hsz Hh Hm1 Hs1 Hm2 Ea. unfold dimes_client_put. fold odsc gd.
  cbn [set_objects dc_mem dc_store dc_drh].
  pose proof (alloc_store_spec (ce_mem env) (dc_mem c) _ (obj_data_size odsc)
    (if enable_shmem_buffer (options (dc_mem c)) then dart_memory_shmem_rdma else dart_memory_rdma)
    data Hi He Hsz) as Ha.
  rewrite Ea in *. destruct Ha as (m2 & -> & Hi2 & _). cbn [mbind option_bind].
  set (o := mk_mo (mk_oid (dc_self c) (dc_next_obj c)) odsc _ _ h).
  unfold dimes_obj_put. change (mo_gdim o) with gd. change (mo_desc o) with odsc.
  rewrite (hash_nodes_frame _ _ c _ _ (keeps_objects (dc_store c) _ m2 (dc_drh c))), Hh.
  cbn [mbind option_bind]. set (c2 := set_memory _ m2 _).
  cbn [put_loop]. rewrite Hm1, Hm2. cbn [negb].
  rewrite (proj2 (Z.ltb_ge _ 0)) by apply Hs1. cbn [mbind option_bind].
  rewrite (proj2 (Z.ltb_ge _ 0)) by apply Hs1. eexists _, _. split; [reflexivity|].
  by destruct (hash_nodes_same _ _ _ _ _ _ Hh) as (l & sh & ->).
Qed.

Lemma put_success_without_object_witness :
  exists c' msg, demo_cput (fun r => r =? 0) = Some (c', [(0, msg)], 0)
    /\ dc_store c' = demo_storage
    /\ mem_inv (dc_mem c') (mk_hndl 65536 65536 16 dart_memory_rdma :: held (dc_store c') ++ []).
Proof.
  destruct (demo_hash (fun r => r =? 0)) as [c1 Hh].
  apply (put_success_without_object (demo_cenv (fun r => r =? 0) (fun _ _ => []) []) demo_c0 "temp" 1 1 2
    [0; 0] [3; 3] (replicate 16 Byte.x05) [] c1 0 1 []
    (dimes_memory_alloc demo_menv demo_mem0 16 dart_memory_rdma).1).
  - exact demo_mem0_inv.
  - by apply demo_env_ok.
  - split; vm_compute; congruence.
  - exact Hh.
  - reflexivity.
  - by intros msg.
  - reflexivity.
  - vm_compute. reflexivity.
Defined.
