(* ===== verification/DimesFetch.v ===== *)
(** * Fetching located data (src/dimes_client.c)

    The second half of a get: the pieces that are contiguous in the memory of
    a remote client are read by concurrent RDMA transfers, at most
    [max_num_concurrent_rdma_read_op] in flight; then the pieces of the
    node's shared segment, of the client itself, and the remote pieces that
    need a sub-array read, one after the other.  Each piece is received in a
    buffer of its own, copied into the object of the caller and released.

    What a poll of the adapter reports is a parameter of the call.

    Theorems: whatever the polls report, a fetch that ends has put every
    piece at its place in the buffer, left the rest of the buffer alone and
    released every receive buffer; when the memory is large enough for the
    reads that may be in flight and every poll completes a read, the fetch
    ends within one poll per piece. *)

From stdpp Require Import gmap.
From S2P Require Import Prelude Bbox Matrix ObjDesc Storage Sspace Server DimesBuf DimesMeta Rdma DimesStore DimesClient.

#[local] Open Scope Z_scope.

(** ** Fetching *)

(** What the fetch phase changes: memory, transactions, the object of the
    caller and the table of statuses. *)
Record fstate := mk_fs {
  fs_mem : dmem;
  fs_drh : dart_rdma_handle;
  fs_od : obj_data;
  fs_status : list fetch_status }.

(** The transaction of a fetch entry. *)
Definition fe_read_tran (fs : fstate) (f : fetch_entry) : option dart_rdma_tran :=
  dart_rdma_find_read_tran (fe_tran f) (read_tran_list (fs_drh fs)).

Definition with_tran (fs : fstate) (f : fetch_entry) (g : dart_rdma_tran -> dart_rdma_tran)
    : fstate :=
  mk_fs (fs_mem fs)
    (set_trans (fs_drh fs) (update_tran (fe_tran f) g (read_tran_list (fs_drh fs))))
    (fs_od fs) (fs_status fs).

Definition with_mem (fs : fstate) (m : dmem) : fstate :=
  mk_fs m (fs_drh fs) (fs_od fs) (fs_status fs).

Definition with_status (fs : fstate) (i : nat) (s : fetch_status) : fstate :=
  mk_fs (fs_mem fs) (fs_drh fs) (fs_od fs) (<[i := s]> (fs_status fs)).

(** The bytes a buffer holds after reads into it at address [p]. *)
Definition read_into (fs : fstate) (f : fetch_entry) (p : Z) (src : list byte) : option fstate :=
  t ← fe_read_tran fs f;
  blk ← heap (fs_mem fs) !! p;
  '(t, d) ← dart_perform_local_copy t src (mb_bytes blk);
  Some (with_mem (with_tran fs f (fun _ => t)) (write_block (fs_mem fs) p blk d)).

(** The reads of a transaction executed by the adapter: from the region of
    the remote peer to the registered address of the receive buffer, with
    lengths of 32 bits ([sge_of]). *)
Definition adapter_read (env : client_env) (fs : fstate) (f : fetch_entry) : option fstate :=
  t ← fe_read_tran fs f;
  let p := mr_addr (tran_dst t) in
  blk ← heap (fs_mem fs) !! p;
  d ← do_reads (ce_remote env (remote_peer t) (mr_addr (tran_src t))) (map sge_of (read_ops_list t)) (mb_bytes blk);
  Some (with_mem (with_tran fs f (fun _ => set_ops t [])) (write_block (fs_mem fs) p blk d)).

(** The received piece is copied into the object of the caller; the return
    code of [ssd_copy] is not looked at. *)
Definition obj_assemble (fs : fstate) (f : fetch_entry) : option fstate :=
  t ← fe_read_tran fs f;
  blk ← heap (fs_mem fs) !! base_addr (tran_dst t);
  od ← ssd_copy (fs_od fs) (obj_data_alloc_no_data 0 (dst_odsc f) (mb_bytes blk));
  Some (mk_fs (fs_mem fs) (fs_drh fs) od (fs_status fs)).

(** [dimes_memory_free(&fetch->read_tran->dst)] *)
Definition free_dst (env : client_env) (fs : fstate) (f : fetch_entry) : option (fstate * Z) :=
  t ← fe_read_tran fs f;
  '(m, err) ← dimes_memory_free (ce_mem env) (fs_mem fs) (tran_dst t);
  Some (with_mem fs m, err).

(** [dimes_memory_alloc(&fetch->read_tran->dst, ...)] *)
Definition alloc_dst (env : client_env) (fs : fstate) (f : fetch_entry) (type : dart_memory_type)
    : fstate * Z :=
  match dimes_memory_alloc (ce_mem env) (fs_mem fs) (obj_data_size (dst_odsc f)) type with
  | (m, None) => (with_mem fs m, -1)
  | (m, Some h) => (with_tran (with_mem fs m) f (fun t => set_dst t h), 0)
  end.

Definition get_num_posted_fetch (status : list fetch_status) : Z :=
  Z.of_nat (length (filter (fun s => s = fetch_posted) status)).

(** The next entry to post: none when too many reads are in flight or no
    entry is left; its receive buffer is allocated. *)
Definition get_next_fetch (env : client_env) (tab : list fetch_entry) (fs : fstate)
    : fstate * option nat * Z :=
  if max_num_concurrent_rdma_read_op (options (fs_mem fs)) <=? get_num_posted_fetch (fs_status fs)
  then (fs, None, 0)
  else
    match list_find (fun s => s = fetch_ready) (fs_status fs) with
    | None => (fs, None, 0)
    | Some (i, _) =>
        match tab !! i with
        | None => (fs, None, 0)
        | Some f =>
            let '(fs, err) := alloc_dst env fs f dart_memory_rdma in
            if err <? 0 then (fs, None, err) else (fs, Some i, 0)
        end
    end.

(** "Issue as much as RDMA read opertions as possible": each turn posts one
    entry, so as many turns as entries are enough.  [dart_rdma_perform_reads]
    only checks that the transaction exists: the reads start in the check. *)
Fixpoint issue_fetches (env : client_env) (tab : list fetch_entry) (fuel : nat) (fs : fstate)
    : fstate * Z :=
  match fuel with
  | O => (fs, 0)
  | S fuel =>
      match get_next_fetch env tab fs with
      | (fs, None, err) => (fs, err)
      | (fs, Some i, _) =>
          let found := match tab !! i with Some f => bool_decide (is_Some (fe_read_tran fs f))
                       | None => false end in
          let fs := with_status fs i fetch_posted in
          if found then issue_fetches env tab fuel fs else (fs, -1)
      end
  end.

(** One round over the table: the posted entries whose reads are complete
    are assembled and their buffers released.  [None]: undefined. *)
Fixpoint complete_round (env : client_env) (tab : list fetch_entry) (i : nat) (answers : list bool)
    (fs : fstate) (any : bool) : option (fstate * bool * Z) :=
  match tab with
  | [] => Some (fs, any, 0)
  | f :: tab =>
      let answer := default false (head answers) in
      if bool_decide (fs_status fs !! i = Some fetch_posted) && answer then
        fs ← adapter_read env fs f;
        fs ← obj_assemble fs f;
        '(fs, err) ← free_dst env fs f;
        if err <? 0 then Some (fs, any, err)
        else complete_round env tab (S i) (tail answers) (with_status fs i fetch_done) true
      else complete_round env tab (S i) (tail answers) fs any
  end.

Inductive round_result :=
| round_next (fs : fstate) (polls : list poll) (all_done : bool)
| round_error (fs : fstate) (err : Z)
| round_waits (fs : fstate).

Definition all_done (status : list fetch_status) : bool :=
  forallb (fun s => bool_decide (s = fetch_done)) status.

(** Polls until one fetch completes, when some are posted. *)
Fixpoint all_fetch_done (env : client_env) (tab : list fetch_entry) (fs : fstate)
    (polls : list poll) : option round_result :=
  if get_num_posted_fetch (fs_status fs) <=? 0
  then Some (round_next fs polls (all_done (fs_status fs)))
  else
    match polls with
    | [] => Some (round_waits fs)
    | p :: polls =>
        if pl_error p then Some (round_error fs (-1))
        else
          '(fs', any, err) ← complete_round env tab 0 (pl_done p) fs false;
          if err <? 0 then Some (round_error fs' err)
          else if (any : bool) then Some (round_next fs' polls (all_done (fs_status fs')))
          else all_fetch_done env tab fs' polls
    end.

Inductive fetch_result :=
| fetch_ok (fs : fstate) (polls : list poll)
| fetch_error (fs : fstate) (err : Z)
| fetch_waits (fs : fstate).

(** [do { issue; all_fetch_done } while (!loop_done)].  A turn that is not
    the last one completes a fetch, so one turn per entry and one more are
    enough; out of turns, nothing can be posted and the loop goes on
    forever. *)
Fixpoint fetch_loop (env : client_env) (tab : list fetch_entry) (fuel : nat) (fs : fstate)
    (polls : list poll) : option fetch_result :=
  match fuel with
  | O => Some (fetch_waits fs)
  | S fuel =>
      let '(fs, err) := issue_fetches env tab (S (length tab)) fs in
      if err <? 0 then Some (fetch_error fs err)
      else
        r ← all_fetch_done env tab fs polls;
        match r with
        | round_error fs err => Some (fetch_error fs err)
        | round_waits fs => Some (fetch_waits fs)
        | round_next fs polls true => Some (fetch_ok fs polls)
        | round_next fs polls false => fetch_loop env tab fuel fs polls
        end
  end.

(** [options.enable_shmem_buffer && is_peer_on_same_node(...)] *)
Definition on_my_node (c : dimes_client) (fs : fstate) (f : fetch_entry) : bool :=
  enable_shmem_buffer (options (fs_mem fs))
  && from_option (fun t => is_peer_on_same_node (dc_node c) (remote_peer t)) false
       (fe_read_tran fs f).

Definition is_myself (c : dimes_client) (fs : fstate) (f : fetch_entry) : bool :=
  from_option (fun t => remote_peer t =? dc_self c) false (fe_read_tran fs f).

(** The remote pieces that are contiguous, with their single read scheduled.
    A piece larger than the available RDMA memory ends the fetch; the return
    code has not been set then. *)
Fixpoint build_fetch_tab (env : client_env) (c : dimes_client) (fs : fstate)
    (l : list fetch_entry) (tab : list fetch_entry) : fstate * list fetch_entry * bool :=
  match l with
  | [] => (fs, tab, true)
  | f :: l =>
      if on_my_node c fs f then build_fetch_tab env c fs l tab
      else if get_available_rdma_buffer_size (options (fs_mem fs)) <? obj_data_size (dst_odsc f)
      then (fs, tab, false)
      else if negb (is_myself c fs f)
              && is_remote_data_contiguous_in_memory (src_odsc f) (dst_odsc f)
      then
        let h := (dart_rdma_schedule_read true (fs_drh fs) (fe_tran f)
                    (calculate_offset_for_remote_data (src_odsc f) (dst_odsc f)) 0
                    (obj_data_size (dst_odsc f))).1 in
        build_fetch_tab env c (mk_fs (fs_mem fs) h (fs_od fs) (fs_status fs)) l (tab ++ [f])
      else build_fetch_tab env c fs l tab
  end.

(** [err_out_free]: the receive buffers in flight are released. *)
Fixpoint free_posted (env : client_env) (tab : list fetch_entry) (i : nat) (fs : fstate)
    : option fstate :=
  match tab with
  | [] => Some fs
  | f :: tab =>
      if bool_decide (fs_status fs !! i = Some fetch_posted) then
        '(fs, _) ← free_dst env fs f; free_posted env tab (S i) fs
      else free_posted env tab (S i) fs
  end.

(** Reads of a sub-array into a buffer of ordinary memory, from memory the
    process can address. *)
Definition fetch_local (env : client_env) (fs : fstate) (f : fetch_entry) (src : list byte)
    : option fstate :=
  let '(fs, err) := alloc_dst env fs f dart_memory_non_rdma in
  if err <? 0 then None
  else
    '(h, _) ← schedule_rdma_reads true (fs_drh fs) (fe_tran f) (src_odsc f) (dst_odsc f);
    let fs := mk_fs (fs_mem fs) h (fs_od fs) (fs_status fs) in
    t ← fe_read_tran fs f;
    fs ← read_into fs f (base_addr (tran_dst t)) src;
    fs ← obj_assemble fs f;
    '(fs, _) ← free_dst env fs f;
    Some fs.

(** [while (!dart_rdma_check_reads(id)) dart_rdma_process_reads();] *)
Fixpoint poll_reads (polls : list poll) : list poll * wait_result :=
  match polls with
  | [] => ([], wait_more)
  | p :: polls =>
      if default false (head (pl_done p)) then (polls, wait_done)
      else if pl_error p then (polls, wait_error (-1))
      else poll_reads polls
  end.

(** The pieces that are left, one after the other: those of the node, those
    of the client itself, and the remote ones that need a sub-array read. *)
Fixpoint fetch_rest (env : client_env) (c : dimes_client) (l : list fetch_entry) (fs : fstate)
    (polls : list poll) : option fetch_result :=
  match l with
  | [] => Some (fetch_ok fs polls)
  | f :: l =>
      if on_my_node c fs f then
        match find_shmem_obj (dc_node c) (shd_obj_id (src_shmem_desc f)) with
        | None => Some (fetch_error fs 0)
        | Some so =>
            fs ← fetch_local env fs f
                   (drop (Z.to_nat (shd_offset (src_shmem_desc f))) (ce_segment env (so_id so)));
            fetch_rest env c l fs polls
        end
      else if is_myself c fs f then
        match storage_lookup_obj (dc_store c) (remote_obj_id f) (version (src_odsc f)) with
        | None => Some (fetch_error fs 0)
        | Some o =>
            blk ← heap (fs_mem fs) !! base_addr (mo_hndl o);
            fs ← fetch_local env fs f (mb_bytes blk);
            fetch_rest env c l fs polls
        end
      else if negb (is_remote_data_contiguous_in_memory (src_odsc f) (dst_odsc f)) then
        let '(fs, err) := alloc_dst env fs f dart_memory_rdma in
        if err <? 0 then Some (fetch_error fs err)
        else
          '(h, _) ← schedule_rdma_reads true (fs_drh fs) (fe_tran f) (src_odsc f) (dst_odsc f);
          let fs := mk_fs (fs_mem fs) h (fs_od fs) (fs_status fs) in
          match poll_reads polls with
          | (_, wait_more) => Some (fetch_waits fs)
          | (_, wait_error err) => Some (fetch_error fs err)
          | (polls, wait_done) =>
              fs ← adapter_read env fs f;
              fs ← obj_assemble fs f;
              '(fs, _) ← free_dst env fs f;
              fetch_rest env c l fs polls
          end
      else fetch_rest env c l fs polls
  end.

Definition dimes_fetch_data (env : client_env) (c : dimes_client) (qte : query_tran_entry_d)
    (od : obj_data) : option fetch_result :=
  let fs := mk_fs (dc_mem c) (dc_drh c) od [] in
  match build_fetch_tab env c fs (qd_fetch_list qte) [] with
  | (fs, _, false) => Some (fetch_error fs (ce_garbage env))
  | (fs, tab, true) =>
      let fs := mk_fs (fs_mem fs) (fs_drh fs) (fs_od fs) (map (fun _ => fetch_ready) tab) in
      r ← fetch_loop env tab (S (length tab)) fs (ce_polls env);
      match r with
      | fetch_ok fs polls => fetch_rest env c (qd_fetch_list qte) fs polls
      | fetch_error fs err => fs ← free_posted env tab 0 fs; Some (fetch_error fs err)
      | fetch_waits fs => Some (fetch_waits fs)
      end
  end.

(** ** Transactions *)

Lemma find_update id f l j :
  (forall t, tran_id t = id -> tran_id (f t) = id) ->
  dart_rdma_find_read_tran j (update_tran id f l)
  = if decide (j = id) then f <$> dart_rdma_find_read_tran id l
    else dart_rdma_find_read_tran j l.
Proof.
  intros Hf. unfold dart_rdma_find_read_tran. induction l as [|t l IH]; cbn [update_tran List.find].
  - by case_decide.
  - destruct (Z.eqb_spec (tran_id t) id) as [E|E]; cbn [List.find].
    + rewrite (Hf t E), E. destruct (Z.eqb_spec id j) as [<-|Hj].
      * by rewrite decide_True.
      * by rewrite decide_False by congruence.
    + rewrite IH. case_decide as Hj; [subst j|done].
      by destruct (Z.eqb_spec (tran_id t) id).
Qed.

Lemma find_tran_id id l t : dart_rdma_find_read_tran id l = Some t -> tran_id t = id.
Proof. intros [_ E]%List.find_some. by apply Z.eqb_eq. Qed.

(** The transactions after one was updated. *)
Lemma with_tran_find fs f u j :
  (forall t, tran_id t = fe_tran f -> tran_id (u t) = fe_tran f) ->
  dart_rdma_find_read_tran j (read_tran_list (fs_drh (with_tran fs f u)))
  = if decide (j = fe_tran f) then u <$> fe_read_tran fs f
    else dart_rdma_find_read_tran j (read_tran_list (fs_drh fs)).
Proof. apply find_update. Qed.

(** ** Polls *)

(** A poll that reports the first [np] reads as complete. *)
Definition full (np : nat) (p : poll) : bool :=
  forallb (fun k => bool_decide (pl_done p !! k = Some true)) (seq 0 np).

Definition num_full (np : nat) (polls : list poll) : Z :=
  Z.of_nat (length (filter (fun p => full np p = true) polls)).

Lemma num_full_cons np p polls :
  num_full np (p :: polls) = (if full np p then 1 else 0) + num_full np polls.
Proof. unfold num_full. rewrite list.filter_cons. destruct (full np p); simpl; lia. Qed.

(** ** One piece *)

Section Pieces.
Context (g : list Z -> Z -> option byte) (od0 : obj_data).
Hypothesis od0_ok : buf_ok (obj_desc od0) (ObjDesc.data od0).

(** The object with the pieces [done] of [g] in it. *)
Record filled (done : list fetch_entry) (od : obj_data) : Prop := {
  fl_desc : obj_desc od = obj_desc od0;
  fl_len : length (ObjDesc.data od) = length (ObjDesc.data od0);
  fl_in : forall f p k, f ∈ done -> in_box (bb (dst_odsc f)) p ->
    in_box (bb (obj_desc od0)) p -> 0 <= k < size (obj_desc od0) ->
    cell_at (bb (obj_desc od0)) (size (obj_desc od0)) (ObjDesc.data od) p k = g p k;
  fl_out : forall p k, in_box (bb (obj_desc od0)) p -> 0 <= k < size (obj_desc od0) ->
    (forall f, f ∈ done -> ~ in_box (bb (dst_odsc f)) p) ->
    cell_at (bb (obj_desc od0)) (size (obj_desc od0)) (ObjDesc.data od) p k
    = cell_at (bb (obj_desc od0)) (size (obj_desc od0)) (ObjDesc.data od0) p k }.

(** A located piece whose source [sd] holds values of [g]. *)
Record piece_ok (f : fetch_entry) (sd : list byte) : Prop := {
  pc_src : buf_ok (src_odsc f) sd;
  pc_dst : forall dd, obj_data_size (dst_odsc f) <= Z.of_nat (length dd) ->
    buf_ok (dst_odsc f) dd;
  pc_dims : num_dims (bb (dst_odsc f)) = num_dims (bb (src_odsc f));
  pc_size : size (dst_odsc f) = size (src_odsc f);
  pc_len : obj_data_size (dst_odsc f) < 2 ^ 32;
  pc_inside : inside (bb (src_odsc f)) (bb (dst_odsc f));
  pc_agrees : agrees (src_odsc f) sd g;
  pc_to_dims : num_dims (bb (obj_desc od0)) = num_dims (bb (dst_odsc f));
  pc_to_size : size (obj_desc od0) = size (dst_odsc f);
  pc_meet : bbox_does_intersect (bb (obj_desc od0)) (bb (dst_odsc f)) = true }.

Lemma filled_start : filled [] od0.
Proof. split; try done. intros f p k Hf. by apply not_elem_of_nil in Hf. Qed.

Lemma filled_equiv l l' od : (forall f, f ∈ l <-> f ∈ l') -> filled l od -> filled l' od.
Proof.
  intros Hp [H1 H2 H3 H4]. split; try done.
  - intros f p k Hf. apply H3. by apply Hp.
  - intros p k Hb Hk Hn. apply H4; [done..|]. intros f Hf. apply Hn. by apply Hp.
Qed.

Lemma inside_in f sd p :
  piece_ok f sd -> in_box (bb (dst_odsc f)) p -> in_box (bb (src_odsc f)) p.
Proof.
  intros Hp [Hl Hb]. split; [by rewrite Hl; apply Hp|]. intros i Hi.
  rewrite <- (pc_dims _ _ Hp) in Hi. destruct (pc_inside _ _ Hp i Hi). specialize (Hb i Hi). lia.
Qed.

Lemma piece_size_pos f sd : piece_ok f sd -> 0 < obj_data_size (dst_odsc f).
Proof.
  intros Hp. set (dd := replicate (Z.to_nat (obj_data_size (dst_odsc f))) Byte.x00).
  assert (Hb : buf_ok (dst_odsc f) dd).
  { apply (pc_dst _ _ Hp). unfold dd. rewrite length_replicate. lia. }
  rewrite (buf_size _ _ Hb). pose proof (box_card_pos _ (bo_wf _ _ Hb)).
  pose proof (bo_size _ _ Hb). nia.
Qed.

Lemma piece_transfer f sd dd :
  piece_ok f sd -> obj_data_size (dst_odsc f) <= Z.of_nat (length dd) ->
  transfer_ok (src_odsc f) (dst_odsc f) sd dd.
Proof.
  intros Hp Hl. pose proof (pc_dst _ _ Hp dd Hl) as Hd.
  split; try apply Hp; [done|]. pose proof (bo_wf _ _ Hd) as Hw.
  apply bbox_does_intersect_points; [done|apply Hp|apply Hp|].
  eexists. split; [eauto with ds|]. eapply inside_in; [done|]. eauto with ds.
Qed.

(** The received piece copied into the object. *)
Lemma assemble_piece done od f sd dd d :
  filled done od -> piece_ok f sd -> copied (dst_odsc f) dd (src_odsc f) sd d ->
  obj_data_size (dst_odsc f) <= Z.of_nat (length d) ->
  exists od', ssd_copy od (obj_data_alloc_no_data 0 (dst_odsc f) d) = Some od'
    /\ filled (f :: done) od'.
Proof.
  intros [F1 F2 F3 F4] Hp [_ Hc] Hl. pose proof (pc_to_size _ _ Hp) as Hts.
  destruct (ssd_copy_copied od (obj_data_alloc_no_data 0 (dst_odsc f) d)) as (d' & E & L & C).
  - rewrite F1. by apply (buf_ok_same _ (ObjDesc.data od0)).
  - by apply (pc_dst _ _ Hp).
  - rewrite F1. apply Hp.
  - by rewrite F1.
  - rewrite F1. apply Hp.
  - exists (set_data od d'). split; [done|]. rewrite F1 in C. cbn [obj_data_alloc_no_data obj_desc ObjDesc.data] in C.
    split; cbn [set_data obj_desc ObjDesc.data]; [done|by rewrite L| |].
    + intros f' p k Hf Hq Hb Hk. destruct (C p k Hb Hk) as [Ci Co].
      destruct (decide (in_box (bb (dst_odsc f)) p)) as [Hi|Hi].
      * rewrite (Ci Hi), Hts. destruct (Hc p k Hi) as [Hcs _]; [by rewrite <- Hts|].
        rewrite (Hcs (inside_in _ _ _ Hp Hi)), (pc_size _ _ Hp).
        apply (pc_agrees _ _ Hp); [by eapply inside_in|]. rewrite <- (pc_size _ _ Hp). lia.
      * rewrite (Co Hi). apply elem_of_cons in Hf as [->|Hf]; [done|]. by apply (F3 f').
    + intros p k Hb Hk Hn. destruct (C p k Hb Hk) as [_ Co].
      rewrite Co by (apply Hn; by left). apply F4; [done..|]. intros f' Hf. apply Hn. by right.
Qed.

Context (env : client_env).
Hypothesis dereg : dereg_ok (ce_mem env).

(** What completing the piece [f], received in the handle [h], does. *)
Record received (f : fetch_entry) (h : dart_rdma_mem_handle) (t : dart_rdma_tran)
    (fs fs' : fstate) : Prop := {
  rc_status : fs_status fs' = fs_status fs;
  rc_config : config (fs_mem fs') = config (fs_mem fs);
  rc_heap : forall p, p <> base_addr h -> heap (fs_mem fs') !! p = heap (fs_mem fs) !! p;
  rc_tran : forall j, dart_rdma_find_read_tran j (read_tran_list (fs_drh fs'))
    = if decide (j = fe_tran f) then Some (set_ops t [])
      else dart_rdma_find_read_tran j (read_tran_list (fs_drh fs)) }.

(** The scheduled reads of [f] fill its receive buffer. *)
Definition reads_fill (f : fetch_entry) (sd : list byte) (ops : list dart_rdma_op) : Prop :=
  map sge_of ops = ops /\ forall dd, obj_data_size (dst_odsc f) <= Z.of_nat (length dd) ->
    exists d, do_reads sd ops dd = Some d /\ copied (dst_odsc f) dd (src_odsc f) sd d.

(** Reads that fit the adapter are those of [read_into]. *)
Lemma adapter_read_small fs f t p sd : fe_read_tran fs f = Some t -> mr_addr (tran_dst t) = p ->
  ce_remote env (remote_peer t) (mr_addr (tran_src t)) = sd -> map sge_of (read_ops_list t) = read_ops_list t ->
  adapter_read env fs f = read_into fs f p sd.
Proof.
  intros Ht Hp Hs Hops. unfold adapter_read, read_into. rewrite Ht. cbn [mbind option_bind]. rewrite Hp, Hs, Hops.
  destruct (heap (fs_mem fs) !! p) as [blk|]; [|done]. cbn [mbind option_bind]. unfold dart_perform_local_copy.
  by destruct (do_reads _ _ _).
Qed.

Lemma receive_piece done fs f t h hs sd :
  filled done (fs_od fs) -> piece_ok f sd -> fe_read_tran fs f = Some t -> tran_dst t = h ->
  mem_inv (fs_mem fs) (h :: hs) -> hndl_size h = obj_data_size (dst_odsc f) ->
  reads_fill f sd (read_ops_list t) ->
  exists fs1 fs2 fs', read_into fs f (base_addr h) sd = Some fs1
    /\ obj_assemble fs1 f = Some fs2 /\ free_dst env fs2 f = Some (fs', 0)
    /\ filled (f :: done) (fs_od fs') /\ mem_inv (fs_mem fs') hs /\ received f h t fs fs'.
Proof.
  intros Hfl Hp Ht Hh Hi Hsz Hops. pose proof (find_tran_id _ _ _ Ht) as Hid.
  pose proof (mm_live _ _ Hi) as [[_ (blk & Hblk & _ & Hlen) _] _]%list.Forall_cons.
  destruct (proj2 Hops (mb_bytes blk)) as (d & Hd & Hc); [lia|]. pose proof (proj1 Hc) as Hl.
  set (fs1 := with_mem (with_tran fs f (fun _ => set_ops t [])) (write_block (fs_mem fs) (base_addr h) blk d)).
  assert (Hr1 : forall j, dart_rdma_find_read_tran j (read_tran_list (fs_drh fs1))
    = if decide (j = fe_tran f) then Some (set_ops t [])
      else dart_rdma_find_read_tran j (read_tran_list (fs_drh fs))).
  { intros j. etransitivity; [by apply with_tran_find|]. by rewrite Ht. }
  assert (Ht1 : fe_read_tran fs1 f = Some (set_ops t [])) by (unfold fe_read_tran; rewrite Hr1; by rewrite decide_True).
  destruct (assemble_piece done (fs_od fs) f sd (mb_bytes blk) d) as (od' & Ea & Hfl'); [done..|lia|].
  set (fs2 := mk_fs (fs_mem fs1) (fs_drh fs1) od' (fs_status fs1)).
  assert (Hi1 : mem_inv (fs_mem fs1) (h :: hs)) by (by apply write_block_inv).
  destruct (dimes_memory_free_spec (ce_mem env) _ _ _ Hi1 dereg) as (m2 & Ef & Hi2 & Hh2).
  exists fs1, fs2, (with_mem fs2 m2). split.
  { unfold read_into. rewrite Ht. cbn [mbind option_bind]. rewrite Hblk.
    unfold dart_perform_local_copy. cbn [mbind option_bind]. rewrite Hd. reflexivity. }
  split.
  { unfold obj_assemble. rewrite Ht1. cbn [mbind option_bind tran_dst set_ops]. rewrite Hh.
    cbn [fs1 with_mem fs_mem write_block heap]. rewrite lookup_insert_eq.
    cbn [mbind option_bind mb_bytes]. change (fs_od fs1) with (fs_od fs). rewrite Ea. reflexivity. }
  split.
  { unfold free_dst. change (fe_read_tran fs2 f) with (fe_read_tran fs1 f). rewrite Ht1.
    cbn [mbind option_bind tran_dst set_ops]. rewrite Hh.
    change (fs_mem fs2) with (fs_mem fs1). rewrite Ef. reflexivity. }
  split; [done|]. split; [done|]. split; try done.
  - cbn [with_mem fs_mem]. rewrite (free_config _ _ _ _ _ Ef). reflexivity.
  - intros p Hne. cbn [with_mem fs_mem]. rewrite Hh2, lookup_delete_ne by done.
    cbn. by rewrite lookup_insert_ne.
Qed.

(** ** The loop over the contiguous pieces *)

(** The memory a transaction reads from. *)
Definition src_of (t : dart_rdma_tran) : list byte :=
  ce_remote env (remote_peer t) (mr_addr (tran_src t)).

Definition count (s : fetch_status) (l : list fetch_status) : Z :=
  Z.of_nat (length (filter (fun x => x = s) l)).

Definition num_of (s0 s : fetch_status) : Z := if decide (s0 = s) then 1 else 0.

Lemma count_insert c l i s0 s :
  l !! i = Some s0 -> count c (<[i := s]> l) = count c l - num_of s0 c + num_of s c.
Proof.
  intros Hi. rewrite insert_take_drop by (by eapply lookup_lt_Some).
  rewrite <- (take_drop_middle l i s0 Hi) at 3. unfold count, num_of.
  rewrite !list.filter_app, !list.filter_cons, !length_app.
  repeat case_decide; simpl; lia.
Qed.

Lemma count_zero c l : count c l <= 0 -> c ∉ l.
Proof.
  intros Hc Hin. assert (Hf : c ∈ filter (fun x => x = c) l) by (by apply list_elem_of_filter).
  unfold count in Hc. destruct (filter _ l); [by apply not_elem_of_nil in Hf|simpl in Hc; lia].
Qed.

Lemma count_two a b l : a <> b -> count a l + count b l <= Z.of_nat (length l).
Proof.
  intros Hab. unfold count. induction l as [|x l IH]; [simpl; lia|].
  rewrite !list.filter_cons. repeat case_decide; subst; try done; simpl; lia.
Qed.

Lemma count_le c l : count c l <= Z.of_nat (length l).
Proof. unfold count. pose proof (length_filter (fun x => x = c) l). lia. Qed.

Context (tab : list fetch_entry) (trs0 : Z -> option dart_rdma_tran) (m0 : dmem)
  (hs : list dart_rdma_mem_handle).
Hypothesis menv_ok : env_ok (ce_mem env) m0.
Hypothesis tab_ids : NoDup (map fe_tran tab).
Hypothesis tab_ok : forall f, f ∈ tab -> exists t, trs0 (fe_tran f) = Some t
  /\ piece_ok f (src_of t) /\ reads_fill f (src_of t) (read_ops_list t).

Definition max_reads : Z := max_num_concurrent_rdma_read_op (options m0).

(** The loop's state: [G] has the receive buffers in flight, by position. *)
Record finv (G : gmap nat dart_rdma_mem_handle) (done : list fetch_entry) (fs : fstate)
    : Prop := {
  fi_len : length (fs_status fs) = length tab;
  fi_posted : forall i, is_Some (G !! i) <-> fs_status fs !! i = Some fetch_posted;
  fi_count : get_num_posted_fetch (fs_status fs) = Z.of_nat (base.size G);
  fi_max : Z.of_nat (base.size G) <= Z.max 0 max_reads;
  fi_trans : forall i f t0, tab !! i = Some f -> trs0 (fe_tran f) = Some t0 ->
    exists t, fe_read_tran fs f = Some t /\ src_of t = src_of t0
      /\ remote_peer t = remote_peer t0
      /\ read_ops_list t
         = (if decide (fs_status fs !! i = Some fetch_done) then [] else read_ops_list t0)
      /\ forall h, G !! i = Some h -> tran_dst t = h;
  fi_other : forall j, j ∉ map fe_tran tab ->
    dart_rdma_find_read_tran j (read_tran_list (fs_drh fs)) = trs0 j;
  fi_hnd : forall i h f, G !! i = Some h -> tab !! i = Some f ->
    hndl_size h = obj_data_size (dst_odsc f) /\ mr_addr h = base_addr h;
  fi_mem : mem_inv (fs_mem fs) ((snd <$> map_to_list G) ++ hs);
  fi_config : config (fs_mem fs) = config m0;
  fi_heap : forall h, h ∈ hs -> heap (fs_mem fs) !! base_addr h = heap m0 !! base_addr h;
  fi_filled : filled done (fs_od fs);
  fi_done : forall f, f ∈ done
    <-> exists i, tab !! i = Some f /\ fs_status fs !! i = Some fetch_done }.

Lemma tab_id_inj i j f f' :
  tab !! i = Some f -> tab !! j = Some f' -> fe_tran f = fe_tran f' -> i = j.
Proof.
  intros Hi Hj E. eapply (NoDup_lookup _ i j (fe_tran f) tab_ids); rewrite list_lookup_fmap.
  - by rewrite Hi.
  - rewrite Hj. simpl. by rewrite E.
Qed.

Lemma finv_env_ok G done fs : finv G done fs -> env_ok (ce_mem env) (fs_mem fs).
Proof. intros Hi. eapply env_ok_config; [apply (fi_config _ _ _ Hi)|done]. Qed.

(** An allocation that fails leaves the invariant. *)
Lemma finv_mem G done fs m :
  finv G done fs -> mem_inv m ((snd <$> map_to_list G) ++ hs) -> config m = config (fs_mem fs) ->
  heap (fs_mem fs) ⊆ heap m -> finv G done (with_mem fs m).
Proof.
  intros [H1 H2 H3 H3' H4 H5 H6 H7 H8 H9 H10 H11] Hm Hc Hh. split; try done.
  - cbn. by rewrite Hc.
  - intros h Hin. cbn. destruct (live_heap _ _ h H7 ltac:(apply elem_of_app; by right)) as [b Hb].
    rewrite <- (H9 h Hin), Hb. by eapply lookup_weaken.
Qed.

(** A receive buffer is allocated and its entry posted. *)
Lemma finv_post G done fs i f m h :
  finv G done fs -> Z.of_nat (base.size G) < max_reads ->
  tab !! i = Some f -> fs_status fs !! i = Some fetch_ready ->
  mem_inv m (h :: (snd <$> map_to_list G) ++ hs) -> config m = config (fs_mem fs) ->
  heap (fs_mem fs) !! base_addr h = None ->
  (forall p, p <> base_addr h -> heap m !! p = heap (fs_mem fs) !! p) ->
  hndl_size h = obj_data_size (dst_odsc f) -> mr_addr h = base_addr h ->
  finv (<[i := h]> G) done
    (with_status (with_tran (with_mem fs m) f (fun t => set_dst t h)) i fetch_posted).
Proof.
  intros Hi Hmax Hf Hs Hm Hc Hn Hh Hz Hr. pose proof Hi as [H1 H2 H3 H3' H4 H5 H6 H7 H8 H9 H10 H11].
  assert (HGi : G !! i = None).
  { apply eq_None_not_Some. rewrite H2, Hs. done. }
  assert (Hlt : (i < length (fs_status fs))%nat) by (by eapply lookup_lt_Some).
  split; cbn [with_status with_tran with_mem fs_status fs_mem fs_drh fs_od].
  - by rewrite length_insert.
  - intros j. destruct (decide (i = j)) as [<-|Hj].
    + rewrite lookup_insert_eq, list_lookup_insert_eq by done. by split.
    + by rewrite lookup_insert_ne, list_lookup_insert_ne, H2.
  - change get_num_posted_fetch with (count fetch_posted) in *.
    rewrite (count_insert _ _ _ _ _ Hs), H3, map_size_insert_None by done. unfold num_of. simpl. lia.
  - rewrite map_size_insert_None by done. lia.
  - intros j f' t0 Hj Ht0. destruct (H4 j f' t0 Hj Ht0) as (t & T1 & T2 & T3 & T4 & T5).
    assert (Hdn : <[i := fetch_posted]> (fs_status fs) !! j = Some fetch_done
                  <-> fs_status fs !! j = Some fetch_done).
    { destruct (decide (i = j)) as [<-|Hij].
      - rewrite list_lookup_insert_eq, Hs by done. split; congruence.
      - by rewrite list_lookup_insert_ne. }
    rewrite (decide_ext _ _ _ _ Hdn).
    destruct (decide (i = j)) as [<-|Hij].
    + assert (f' = f) as -> by congruence. exists (set_dst t h).
      split.
      { etransitivity; [by apply with_tran_find|]. rewrite decide_True by done.
        change (fe_read_tran (with_mem fs m) f) with (fe_read_tran fs f). by rewrite T1. }
      split; [done|]. split; [done|]. split; [done|]. intros h'. rewrite lookup_insert_eq. by intros [= <-].
    + exists t. split.
      { etransitivity; [by apply with_tran_find|]. rewrite decide_False; [done|].
        intros E. apply Hij. by eapply (tab_id_inj i j f f'). }
      split; [done|]. split; [done|]. split; [done|]. intros h'. rewrite lookup_insert_ne by done. apply T5.
  - intros j Hj. etransitivity; [by apply with_tran_find|]. rewrite decide_False; [by apply H5|].
    intros ->. apply Hj. apply list_elem_of_fmap_2. by eapply list_elem_of_lookup_2.
  - intros j h' f'. destruct (decide (i = j)) as [<-|Hj].
    + rewrite lookup_insert_eq. intros [= <-] Hf'. assert (f' = f) as -> by congruence. done.
    + rewrite lookup_insert_ne by done. apply H6.
  - eapply mem_inv_perm; [|exact Hm]. by rewrite (map_to_list_insert G i h HGi).
  - by rewrite Hc.
  - intros h' Hin. rewrite <- (H9 h' Hin). apply Hh. intros E.
    destruct (live_heap _ _ h' H7 ltac:(apply elem_of_app; by right)) as [b Hb]. congruence.
  - done.
  - intros f'. rewrite H11. split; intros (j & Hj & Hd); exists j; (split; [done|]).
    + destruct (decide (i = j)) as [<-|Hij]; [congruence|]. by rewrite list_lookup_insert_ne.
    + destruct (decide (i = j)) as [<-|Hij]; [by rewrite list_lookup_insert_eq in Hd|].
      by rewrite list_lookup_insert_ne in Hd.
Qed.

(** Memory for as many pieces as may be in flight. *)
Record room : Prop := {
  rm_malloc : forall hp n, me_malloc (ce_mem env) hp n <> 0;
  rm_register : forall p, 0 <= me_register (ce_mem env) p;
  rm_fits : exists s, (forall f, f ∈ tab -> obj_data_size (dst_odsc f) <= s)
    /\ max_reads * s + total_rdma hs <= rdma_buffer_size (options m0) }.

Lemma total_rdma_app l1 l2 : total_rdma (l1 ++ l2) = total_rdma l1 + total_rdma l2.
Proof. induction l1 as [|h l1 IH]; simpl; lia. Qed.

Lemma total_rdma_le l s :
  (forall h, h ∈ l -> 0 <= hndl_size h <= s) -> total_rdma l <= Z.of_nat (length l) * s.
Proof.
  induction l as [|h l IH]; intros Hl; simpl; [lia|]. destruct (Hl h ltac:(by left)).
  specialize (IH ltac:(intros h' Hh'; apply Hl; by right)). unfold rdma_size. case_if; lia.
Qed.

Lemma config_read m m' : config m = config m' ->
  max_num_concurrent_rdma_read_op (options m) = max_num_concurrent_rdma_read_op (options m')
  /\ rdma_buffer_size (options m) = rdma_buffer_size (options m')
  /\ enable_shmem_buffer (options m) = enable_shmem_buffer (options m').
Proof. by intros [= ]. Qed.

Lemma room_alloc G done fs f :
  finv G done fs -> room -> f ∈ tab -> Z.of_nat (base.size G) < max_reads ->
  exists m h, dimes_memory_alloc (ce_mem env) (fs_mem fs) (obj_data_size (dst_odsc f))
                dart_memory_rdma = (m, Some h).
Proof.
  intros Hi [R1 R2 (s & R3 & R4)] Hf Hlt. pose proof (fi_mem _ _ _ Hi) as Hm.
  apply alloc_succeeds; [apply Hm|done|intros hp; apply R1|]. intros _. split; [done|].
  assert (Ht : total_rdma (snd <$> map_to_list G) <= Z.of_nat (base.size G) * s).
  { rewrite <- (length_map_to_list G), <- (length_fmap snd). apply total_rdma_le.
    intros h ([i h'] & -> & Hin)%list_elem_of_fmap. apply elem_of_map_to_list in Hin. simpl.
    assert (Hs := proj1 (fi_posted _ _ _ Hi i) ltac:(eauto)).
    apply lookup_lt_Some in Hs. rewrite (fi_len _ _ _ Hi) in Hs.
    apply lookup_lt_is_Some in Hs as [f' Hf'].
    destruct (fi_hnd _ _ _ Hi i h' f' Hin Hf') as [-> _].
    apply list_elem_of_lookup_2 in Hf'. split; [|by apply R3].
    destruct (tab_ok f' Hf') as (t & _ & Hp & _). pose proof (piece_size_pos _ _ Hp). lia. }
  destruct (config_read _ _ (fi_config _ _ _ Hi)) as (_ & Hb & _).
  unfold get_available_rdma_buffer_size. rewrite Hb, (mm_usage _ _ Hm), total_rdma_app.
  specialize (R3 f Hf). destruct (tab_ok f Hf) as (t & _ & Hp & _).
  pose proof (piece_size_pos _ _ Hp). case_if; zbool; nia.
Qed.

Lemma next_fetch_spec G done fs :
  finv G done fs ->
  match get_next_fetch env tab fs with
  | (fs', None, err) =>
      finv G done fs' /\ fs_status fs' = fs_status fs
      /\ (err = 0 /\ (max_reads <= Z.of_nat (base.size G)
                     \/ forall i, fs_status fs !! i <> Some fetch_ready)
          \/ err = -1 /\ ~ room)
  | (fs', Some i, _) =>
      Z.of_nat (base.size G) < max_reads
      /\ fs_status fs !! i = Some fetch_ready /\ fs_status fs' = fs_status fs
      /\ exists f h, tab !! i = Some f /\ is_Some (fe_read_tran fs' f)
           /\ finv (<[i := h]> G) done (with_status fs' i fetch_posted)
  end.
Proof.
  intros Hi. unfold get_next_fetch.
  destruct (config_read _ _ (fi_config _ _ _ Hi)) as (-> & _). rewrite (fi_count _ _ _ Hi).
  change (max_num_concurrent_rdma_read_op (options m0)) with max_reads.
  destruct (Z.leb_spec max_reads (Z.of_nat (base.size G))) as [Hle|Hlt]; [by split; [|split; [|left; split; [|left]]]|].
  destruct (list_find _ (fs_status fs)) as [[i s]|] eqn:Ef.
  2:{ split; [done|]. split; [done|]. left. split; [done|]. right. intros i Hs.
      apply list_find_None in Ef. rewrite list.Forall_lookup in Ef. by apply (Ef i _ Hs). }
  apply list_find_Some in Ef as (Hs & -> & _).
  assert (Hl := lookup_lt_Some _ _ _ Hs). rewrite (fi_len _ _ _ Hi) in Hl.
  apply lookup_lt_is_Some in Hl as [f Hf]. rewrite Hf.
  assert (Hin : f ∈ tab) by (by eapply list_elem_of_lookup_2).
  destruct (tab_ok f Hin) as (t0 & Ht0 & Hp & _). unfold alloc_dst.
  pose proof (dimes_memory_alloc_spec (ce_mem env) (fs_mem fs) _ (obj_data_size (dst_odsc f))
    dart_memory_rdma (fi_mem _ _ _ Hi) (finv_env_ok _ _ _ Hi) (piece_size_pos _ _ Hp)) as Ha.
  pose proof (alloc_config (ce_mem env) (fs_mem fs) (obj_data_size (dst_odsc f)) dart_memory_rdma) as Hc.
  pose proof (fun m h => alloc_registered (ce_mem env) (fs_mem fs) _ (obj_data_size (dst_odsc f))
    dart_memory_rdma m h (fi_mem _ _ _ Hi) eq_refl) as Hr.
  pose proof (room_alloc G done fs f Hi) as Hroom.
  destruct (dimes_memory_alloc _ _ _ _) as [m [h|]]; cbn [fst] in Hc.
  - destruct Ha as (Ha1 & Ha2 & Ha3 & Ha4 & Ha5). cbn [Z.ltb Z.compare].
    split; [done|]. split; [done|]. split; [done|]. exists f, h. split; [done|]. split.
    + destruct (fi_trans _ _ _ Hi i f t0 Hf Ht0) as (t & T1 & _). exists (set_dst t h).
      etransitivity; [by apply with_tran_find|]. rewrite decide_True by done.
      change (fe_read_tran (with_mem fs m) f) with (fe_read_tran fs f). by rewrite T1.
    + apply finv_post; try done; [|by eapply Hr].
      intros p Hne. rewrite Ha5. by rewrite lookup_insert_ne.
  - destruct Ha as [Ha1 Ha2]. cbn [Z.ltb Z.compare]. split; [by apply finv_mem|]. split; [done|].
    right. split; [done|]. intros HR. by destruct (Hroom HR Hin Hlt) as (? & ? & ?).
Qed.

(** A posted entry is received. *)
Lemma finv_receive G done fs i f h :
  finv G done fs -> tab !! i = Some f -> G !! i = Some h ->
  exists fs1 fs2 fs', adapter_read env fs f = Some fs1 /\ obj_assemble fs1 f = Some fs2
    /\ free_dst env fs2 f = Some (fs', 0) /\ fs_status fs' = fs_status fs
    /\ finv (delete i G) (f :: done) (with_status fs' i fetch_done).
Proof.
  intros Hi Hf HG. pose proof Hi as [H1 H2 H3 H3' H4 H5 H6 H7 H8 H9 H10 H11].
  assert (Hs : fs_status fs !! i = Some fetch_posted) by (apply H2; eauto).
  assert (Hin : f ∈ tab) by (by eapply list_elem_of_lookup_2).
  destruct (tab_ok f Hin) as (t0 & Ht0 & Hp & Hops).
  destruct (H4 i f t0 Hf Ht0) as (t & T1 & T2 & T3 & T4 & T5). specialize (T5 h HG).
  rewrite Hs, decide_False in T4 by congruence.
  destruct (H6 i h f HG Hf) as [Hz Hr].
  assert (Hm : mem_inv (fs_mem fs) (h :: (snd <$> map_to_list (delete i G)) ++ hs)).
  { eapply mem_inv_perm; [|exact H7]. by rewrite <- (map_to_list_delete G i h HG). }
  destruct (receive_piece done fs f t h _ (src_of t0) H10 Hp T1 T5 Hm Hz) as
    (fs1 & fs2 & fs' & E1 & E2 & E3 & Hfl & Hm' & [R1 R2 R3 R4]); [by rewrite T4|].
  exists fs1, fs2, fs'. split.
  { rewrite (adapter_read_small fs f t (base_addr h) (src_of t0)); [done|done|by rewrite T5|exact T2|rewrite T4; apply Hops]. }
  do 3 (split; [done|]).
  assert (Hlt : (i < length (fs_status fs))%nat) by (by eapply lookup_lt_Some).
  split; cbn [with_status fs_status fs_mem fs_drh fs_od]; rewrite ?R1.
  - by rewrite length_insert.
  - intros j. destruct (decide (i = j)) as [<-|Hj].
    + rewrite lookup_delete_eq, list_lookup_insert_eq by done.
      split; [intros [? ?]; done|congruence].
    + by rewrite lookup_delete_ne, list_lookup_insert_ne, H2.
  - change get_num_posted_fetch with (count fetch_posted) in *.
    rewrite (count_insert _ _ _ _ _ Hs), H3, (map_size_delete_Some i G) by eauto.
    assert (base.size G <> 0%nat) by (intros E; apply map_size_empty_iff in E; by subst G).
    unfold num_of. simpl. lia.
  - rewrite (map_size_delete_Some i G) by eauto. lia.
  - intros j f' t0' Hj Ht0'. destruct (decide (i = j)) as [<-|Hij].
    + assert (f' = f) as -> by congruence. assert (t0' = t0) as -> by congruence.
      exists (set_ops t []). unfold fe_read_tran. cbn [with_status fs_drh]. rewrite R4, decide_True by done.
      rewrite list_lookup_insert_eq, decide_True by done. do 4 (split; [done|]).
      intros h'. by rewrite lookup_delete_eq.
    + destruct (H4 j f' t0' Hj Ht0') as (t' & U1 & U2 & U3 & U4 & U5). exists t'.
      unfold fe_read_tran. cbn [with_status fs_drh]. rewrite R4, decide_False.
      2:{ intros E. apply Hij. by eapply (tab_id_inj i j f f'). }
      rewrite list_lookup_insert_ne by done. rewrite lookup_delete_ne by done. done.
  - intros j Hj. rewrite R4, decide_False; [by apply H5|].
    intros ->. apply Hj. apply list_elem_of_fmap_2. by eapply list_elem_of_lookup_2.
  - intros j h' f'. intros [_ Hd]%lookup_delete_Some. by apply H6.
  - done.
  - by rewrite R2.
  - intros h' Hin'. rewrite R3; [by apply H9|]. intros E.
    pose proof (mm_nodup _ _ Hm) as [Hn _]%list.NoDup_cons. apply Hn.
    rewrite <- E. apply list_elem_of_fmap_2. apply elem_of_app. by right.
  - done.
  - intros f'. rewrite elem_of_cons, H11. split.
    + intros [->|(j & Hj & Hd)]; [exists i|exists j]; (split; [done|]).
      * by rewrite list_lookup_insert_eq.
      * destruct (decide (i = j)) as [<-|Hij]; [congruence|]. by rewrite list_lookup_insert_ne.
    + intros (j & Hj & Hd). destruct (decide (i = j)) as [<-|Hij]; [left; congruence|].
      right. exists j. by rewrite list_lookup_insert_ne in Hd.
Qed.

(** The statuses of one state of the loop compared with a later one: ready
    entries [r] and completed ones [d]. *)
Definition ready (fs : fstate) : Z := count fetch_ready (fs_status fs).
Definition completed (fs : fstate) : Z := count fetch_done (fs_status fs).

Lemma ready_insert fs i s0 s : fs_status fs !! i = Some s0 ->
  ready (with_status fs i s) = ready fs - num_of s0 fetch_ready + num_of s fetch_ready.
Proof. apply count_insert. Qed.

Lemma completed_insert fs i s0 s : fs_status fs !! i = Some s0 ->
  completed (with_status fs i s) = completed fs - num_of s0 fetch_done + num_of s fetch_done.
Proof. apply count_insert. Qed.

(** "Issue as much as possible". *)
Lemma issue_spec fuel G done fs :
  finv G done fs -> ready fs < Z.of_nat fuel ->
  exists G' fs' err, issue_fetches env tab fuel fs = (fs', err) /\ finv G' done fs'
    /\ completed fs' = completed fs
    /\ Z.of_nat (base.size G') <= Z.max (Z.of_nat (base.size G)) max_reads
    /\ (err = 0 /\ (max_reads <= Z.of_nat (base.size G')
                   \/ forall i, fs_status fs' !! i <> Some fetch_ready)
        \/ err = -1 /\ ~ room).
Proof.
  revert G fs. induction fuel as [|fuel IH]; intros G fs Hi Hr.
  { unfold ready, count in Hr. lia. }
  cbn [issue_fetches]. pose proof (next_fetch_spec G done fs Hi) as Hn.
  destruct (get_next_fetch env tab fs) as [[fs1 [i|]] err].
  - destruct Hn as (Hlt & Hs & Est & f & h & Hf & Ht & Hi').
    rewrite Hf, bool_decide_true by done.
    assert (Hs1 : fs_status fs1 !! i = Some fetch_ready) by (by rewrite Est).
    destruct (IH _ _ Hi') as (G' & fs' & err' & E & F1 & F2 & F3 & F4).
    { rewrite (ready_insert _ _ _ _ Hs1). unfold ready in *. rewrite Est. unfold num_of. simpl. lia. }
    exists G', fs', err'. split; [done|]. split; [done|]. split.
    + rewrite F2, (completed_insert _ _ _ _ Hs1). unfold completed. rewrite Est. unfold num_of. simpl. lia.
    + split; [|done]. assert (HG : G !! i = None).
      { apply eq_None_not_Some. rewrite (fi_posted _ _ _ Hi), Hs. done. }
      rewrite map_size_insert_None in F3 by done. lia.
  - destruct Hn as (Hi' & Est & He). exists G, fs1, err. split; [done|]. split; [done|].
    split; [unfold completed; by rewrite Est|]. split; [lia|]. by rewrite Est.
Qed.

(** One round over the table. *)
Lemma round_spec suf : forall i answers fs any G done,
  (forall k, suf !! k = tab !! (i + k)%nat) -> finv G done fs ->
  exists G' done' fs' any', complete_round env suf i answers fs any = Some (fs', any', 0)
    /\ finv G' done' fs'
    /\ (any' = any /\ fs' = fs /\ G' = G \/ any' = true /\ completed fs < completed fs')
    /\ (forall k, answers !! k = Some true -> (k < length suf)%nat ->
          fs_status fs !! (i + k)%nat = Some fetch_posted -> any' = true).
Proof.
  induction suf as [|f suf IH]; intros i answers fs any G done Hsuf Hi; cbn [complete_round].
  { exists G, done, fs, any. split; [done|]. split; [done|]. split; [by left|]. intros k _ Hk. simpl in Hk. lia. }
  assert (Hf : tab !! i = Some f) by (specialize (Hsuf 0%nat); by rewrite Nat.add_0_r in Hsuf).
  assert (Hsuf' : forall k, suf !! k = tab !! (S i + k)%nat).
  { intros k. specialize (Hsuf (S k)). simpl in Hsuf. rewrite Hsuf. f_equal. lia. }
  destruct (bool_decide (fs_status fs !! i = Some fetch_posted) && default false (head answers)) eqn:Eb.
  - apply andb_true_iff in Eb as [Hs%bool_decide_eq_true Ha].
    destruct (proj2 (fi_posted _ _ _ Hi i) Hs) as [h HG].
    destruct (finv_receive G done fs i f h Hi Hf HG) as (fs1 & fs2 & fs3 & -> & E2 & E3 & Est & Hi').
    cbn [mbind option_bind]. rewrite E2. cbn [mbind option_bind]. rewrite E3.
    cbn [mbind option_bind Z.ltb Z.compare].
    destruct (IH (S i) (tail answers) _ true _ _ Hsuf' Hi') as (G' & done' & fs' & any' & E & F1 & F2 & F3).
    exists G', done', fs', any'. split; [done|]. split; [done|].
    assert (Hany : any' = true) by (by destruct F2 as [(-> & _)|[-> _]]).
    assert (Hc : completed (with_status fs3 i fetch_done) = completed fs + 1).
    { rewrite (completed_insert _ _ fetch_posted) by (by rewrite Est).
      unfold completed. rewrite Est. unfold num_of. simpl. lia. }
    split; [right; split; [done|destruct F2 as [(_ & -> & _)|[_ F2]]; lia]|]. done.
  - destruct (IH (S i) (tail answers) fs any G done Hsuf' Hi) as (G' & done' & fs' & any' & E & F1 & F2 & F3).
    exists G', done', fs', any'. split; [done|]. split; [done|]. split; [done|].
    intros k Hk Hlt Hs. destruct k as [|k].
    + rewrite Nat.add_0_r in Hs. destruct answers as [|a answers]; [done|]. simpl in Hk.
      injection Hk as ->. rewrite bool_decide_true in Eb by done. done.
    + apply (F3 k); [|simpl in Hlt; lia|by rewrite <- Nat.add_succ_comm in Hs].
      destruct answers as [|a answers]; [done|]. done.
Qed.

Context (np : nat).
Hypothesis np_ok : (length tab <= np)%nat.

Lemma full_any p fs i : full np p = true -> fs_status fs !! i = Some fetch_posted ->
  length (fs_status fs) = length tab ->
  exists k, pl_done p !! k = Some true /\ (k < length tab)%nat /\ fs_status fs !! (0 + k)%nat = Some fetch_posted.
Proof.
  intros Hf Hs Hl. assert (Hi := lookup_lt_Some _ _ _ Hs). rewrite Hl in Hi. exists i.
  split; [|done]. unfold full in Hf. rewrite forallb_seq in Hf. assert (Hn : (i < np)%nat) by lia. exact (bool_decide_eq_true_1 _ (Hf i Hn)).
Qed.

Lemma size_zero_posted G done fs : finv G done fs -> base.size G <> 0%nat ->
  exists i, fs_status fs !! i = Some fetch_posted.
Proof.
  intros Hi Hne. destruct (map_choose G) as (i & h & Hh).
  - intros ->. by rewrite map_size_empty in Hne.
  - exists i. apply (fi_posted _ _ _ Hi). eauto.
Qed.

(** Polls until one read completes. *)
Lemma poll_spec polls : forall G dn fs, finv G dn fs ->
  exists r, all_fetch_done env tab fs polls = Some r /\
  match r with
  | round_next fs' polls' d =>
      (exists G' dn', finv G' dn' fs') /\ d = all_done (fs_status fs')
      /\ (base.size G = 0%nat /\ fs' = fs /\ polls' = polls
          \/ completed fs < completed fs' /\ num_full np polls <= num_full np polls' + 1)
      /\ (Forall (fun p => pl_error p = false) polls -> Forall (fun p => pl_error p = false) polls')
  | round_error fs' err => err = -1 /\ (exists G' dn', finv G' dn' fs')
      /\ ~ Forall (fun p => pl_error p = false) polls
  | round_waits fs' => (exists G' dn', finv G' dn' fs') /\ num_full np polls = 0
      /\ base.size G <> 0%nat
  end.
Proof.
  induction polls as [|p polls IH]; intros G dn fs Hi; cbn [all_fetch_done];
    rewrite (fi_count _ _ _ Hi);
    (destruct (Z.leb_spec (Z.of_nat (base.size G)) 0) as [Hz|Hz];
      [eexists; split; [done|]; cbn beta iota; split; [by eauto|]; split; [done|]; split; [|done];
       left; split; [lia|done]|]).
  { eexists. split; [done|]. cbn beta iota. split; [by eauto|]. split; [done|lia]. }
  destruct (pl_error p) eqn:Ep.
  { eexists. split; [done|]. cbn beta iota. split; [done|]. split; [by eauto|].
    intros [He _]%list.Forall_cons. congruence. }
  destruct (round_spec tab 0 (pl_done p) fs false G dn) as (G' & dn' & fs' & any & E & F1 & F2 & F3);
    [done..|].
  rewrite E. cbn [mbind option_bind Z.ltb Z.compare].
  destruct (size_zero_posted _ _ _ Hi ltac:(lia)) as [i His]. rewrite num_full_cons.
  destruct any.
  - eexists. split; [done|]. cbn beta iota. split; [by eauto|]. split; [done|]. split.
    + right. destruct F2 as [(? & _)|[_ F2]]; [done|]. split; [done|]. case_if; lia.
    + by intros [_ He]%list.Forall_cons.
  - destruct F2 as [(_ & -> & ->)|[? _]]; [|done].
    assert (full np p = false) as ->.
    { destruct (full np p) eqn:Ef; [|done].
      destruct (full_any p fs i Ef His (fi_len _ _ _ Hi)) as (k & K1 & K2 & K3).
      by specialize (F3 k K1 K2 K3). }
    destruct (IH G dn' fs F1) as (r & -> & Hr). exists r. split; [done|].
    destruct r as [fs1 polls1 d|fs1 err|fs1].
    + destruct Hr as (R1 & R2 & R3 & R4). split; [done|]. split; [done|]. split.
      * right. destruct R3 as [(R3 & _)|R3]; lia.
      * intros [_ He]%list.Forall_cons. auto.
    + destruct Hr as (R1 & R2 & R3). split; [done|]. split; [done|].
      intros [_ He]%list.Forall_cons. auto.
    + destruct Hr as (R1 & R2 & R3). split; [done|]. split; lia.
Qed.

Lemma completed_bound G dn fs : finv G dn fs -> completed fs <= Z.of_nat (length tab).
Proof. intros Hi. rewrite <- (fi_len _ _ _ Hi). apply count_le. Qed.

Lemma all_done_spec l : all_done l = true <-> forall i s, l !! i = Some s -> s = fetch_done.
Proof.
  unfold all_done. rewrite forallb_forall. split.
  - intros H i s Hs. apply list_elem_of_lookup_2, list_elem_of_In, H in Hs. by apply bool_decide_eq_true in Hs.
  - intros H s (i & Hi)%list_elem_of_In%list_elem_of_lookup_1. apply bool_decide_eq_true. by eapply H.
Qed.

Lemma nothing_in_flight G dn fs : finv G dn fs -> all_done (fs_status fs) = true -> G = ∅.
Proof.
  intros Hi Hd. apply map_empty. intros i. apply eq_None_not_Some. rewrite (fi_posted _ _ _ Hi).
  intros Hs. by apply (proj1 (all_done_spec _) Hd) in Hs.
Qed.

Definition no_poll_error (polls : list poll) : Prop := Forall (fun p => pl_error p = false) polls.

(** The loop: with enough turns it ends in one of three ways. *)
Lemma fetch_loop_spec fuel : forall G dn fs polls,
  finv G dn fs -> max_reads <= 0 \/ Z.of_nat (length tab) - completed fs < Z.of_nat fuel ->
  exists r, fetch_loop env tab fuel fs polls = Some r /\
  match r with
  | fetch_ok fs' polls' =>
      (exists dn', finv ∅ dn' fs') /\ all_done (fs_status fs') = true
      /\ num_full np polls - (Z.of_nat (length tab) - completed fs) <= num_full np polls'
      /\ (no_poll_error polls -> no_poll_error polls')
  | fetch_error fs' err =>
      err = -1 /\ (exists G' dn', finv G' dn' fs') /\ (room -> ~ no_poll_error polls)
  | fetch_waits fs' =>
      (exists G' dn', finv G' dn' fs')
      /\ (max_reads <= 0 \/ num_full np polls < Z.of_nat (length tab) - completed fs)
  end.
Proof.
  induction fuel as [|fuel IH]; intros G dn fs polls Hi Hfuel.
  { destruct Hfuel as [Hmax|Hfuel]; [|pose proof (completed_bound _ _ _ Hi); lia].
    eexists. split; [done|]. cbn beta iota. split; [by eauto|by left]. }
  cbn [fetch_loop].
  destruct (issue_spec (S (length tab)) G dn fs Hi) as (G1 & fs1 & err & -> & Hi1 & Hc1 & _ & Herr).
  { unfold ready. pose proof (count_le fetch_ready (fs_status fs)). rewrite (fi_len _ _ _ Hi) in *. lia. }
  destruct Herr as [[-> Hmore]|[-> Hroom]]; cbn [Z.ltb Z.compare].
  2:{ eexists. split; [done|]. cbn beta iota. split; [done|]. split; [by eauto|]. done. }
  destruct (poll_spec polls G1 dn fs1 Hi1) as (r & -> & Hr). cbn [mbind option_bind].
  destruct r as [fs2 polls2 d|fs2 err|fs2].
  - destruct Hr as ((G2 & dn2 & Hi2) & -> & Hp & He).
    destruct (all_done (fs_status fs2)) eqn:Ed.
    + eexists. split; [done|]. cbn beta iota. split.
      { exists dn2. by rewrite <- (nothing_in_flight _ _ _ Hi2 Ed). }
      split; [done|]. split; [|done].
      pose proof (completed_bound _ _ _ Hi2). pose proof (completed_bound _ _ _ Hi1).
      destruct Hp as [(_ & _ & ->)|Hp]; lia.
    + assert (Hstuck : max_reads <= 0 \/ completed fs1 < completed fs2 /\ num_full np polls <= num_full np polls2 + 1).
      { destruct Hp as [(Hz & -> & ->)|Hp]; [left|by right].
        destruct Hmore as [Hm|Hno]; [lia|]. exfalso.
        assert (Hall : all_done (fs_status fs1) = true); [|congruence].
        apply all_done_spec. intros i [| |] Hs; [by apply Hno in Hs| |done].
        apply (fi_posted _ _ _ Hi1) in Hs as [h Hh].
        apply map_size_empty_inv in Hz. subst G1. by rewrite lookup_empty in Hh. }
      destruct (IH G2 dn2 fs2 polls2 Hi2) as (r & E & Hr); [lia|]. exists r. split; [done|].
      destruct r as [fs' polls'|fs' err|fs'].
      * destruct Hr as (R1 & R2 & R3 & R4). split; [done|]. split; [done|]. split; [|intros Hn; by apply R4, He].
        pose proof (completed_bound _ _ _ Hi2). destruct Hp as [(_ & -> & ->)|Hp]; lia.
      * destruct Hr as (R1 & R2 & R3). split; [done|]. split; [done|]. intros Hrm Hn.
        by apply (R3 Hrm), He.
      * destruct Hr as (R1 & R2). split; [done|]. lia.
  - destruct Hr as (-> & R1 & R2). eexists. split; [done|]. cbn beta iota. done.
  - destruct Hr as (R1 & R2 & R3). eexists. split; [done|]. cbn beta iota. split; [done|]. right.
    assert (Hct : count fetch_posted (fs_status fs1) + count fetch_done (fs_status fs1)
                  <= Z.of_nat (length (fs_status fs1))) by (by apply count_two).
    pose proof (fi_count _ _ _ Hi1) as Hn. change get_num_posted_fetch with (count fetch_posted) in Hn.
    rewrite (fi_len _ _ _ Hi1) in Hct. unfold completed in *. lia.
Qed.

(** The release of the buffers in flight after an error. *)
Lemma free_posted_suffix suf : forall i fs (G : gmap nat dart_rdma_mem_handle),
  (forall k, suf !! k = tab !! (i + k)%nat) ->
  (forall j h, G !! j = Some h -> (i <= j < i + length suf)%nat) ->
  (forall j, (i <= j)%nat -> is_Some (G !! j) <-> fs_status fs !! j = Some fetch_posted) ->
  (forall j f h, tab !! j = Some f -> G !! j = Some h ->
     exists t, fe_read_tran fs f = Some t /\ tran_dst t = h) ->
  mem_inv (fs_mem fs) ((snd <$> map_to_list G) ++ hs) ->
  exists fs', free_posted env suf i fs = Some fs' /\ mem_inv (fs_mem fs') hs
    /\ config (fs_mem fs') = config (fs_mem fs) /\ fs_od fs' = fs_od fs
    /\ forall h, h ∈ hs -> heap (fs_mem fs') !! base_addr h = heap (fs_mem fs) !! base_addr h.
Proof.
  induction suf as [|f suf IH]; intros i fs G Hsuf Hr Hst Htr Hm; cbn [free_posted].
  { exists fs. split; [done|]. assert (G = ∅) as ->.
    { apply map_empty. intros j. apply eq_None_not_Some. intros [h Hh]. apply Hr in Hh. simpl in Hh. lia. }
    done. }
  assert (Hf : tab !! i = Some f) by (specialize (Hsuf 0%nat); by rewrite Nat.add_0_r in Hsuf).
  assert (Hsuf' : forall k, suf !! k = tab !! (S i + k)%nat).
  { intros k. specialize (Hsuf (S k)). simpl in Hsuf. rewrite Hsuf. f_equal. lia. }
  destruct (bool_decide (fs_status fs !! i = Some fetch_posted)) eqn:Eb.
  - apply bool_decide_eq_true, Hst in Eb as [h Hh]; [|lia].
    destruct (Htr i f h Hf Hh) as (t & Ht & Hd).
    assert (Hm' : mem_inv (fs_mem fs) (h :: (snd <$> map_to_list (delete i G)) ++ hs)).
    { eapply mem_inv_perm; [|exact Hm]. by rewrite <- (map_to_list_delete G i h Hh). }
    destruct (dimes_memory_free_spec (ce_mem env) _ _ _ Hm' dereg) as (m1 & Ef & Hm1 & Hh1).
    assert (E : free_dst env fs f = Some (with_mem fs m1, 0)).
    { unfold free_dst. rewrite Ht. cbn [mbind option_bind]. rewrite Hd, Ef. done. }
    rewrite E. cbn [mbind option_bind].
    destruct (IH (S i) (with_mem fs m1) (delete i G) Hsuf') as (fs' & E' & F1 & F2 & F3 & F4); try done.
    + intros j h' [Hij Hj]%lookup_delete_Some. apply Hr in Hj. simpl in Hj. lia.
    + intros j Hj. rewrite lookup_delete_ne by lia. apply Hst. lia.
    + intros j f' h' Hj [_ Hh']%lookup_delete_Some. by apply (Htr j).
    + exists fs'. split; [done|]. split; [done|]. split; [by rewrite F2; eapply free_config|].
      split; [done|]. intros h' Hin. rewrite (F4 h' Hin). cbn. rewrite Hh1, lookup_delete_ne; [done|].
      intros E0. pose proof (mm_nodup _ _ Hm') as [Hn _]%list.NoDup_cons. apply Hn.
      rewrite E0. apply list_elem_of_fmap_2. apply elem_of_app. by right.
  - assert (HG : G !! i = None).
    { apply eq_None_not_Some. intros HG. apply Hst in HG; [|lia]. by apply bool_decide_eq_false in Eb. }
    apply (IH (S i) fs G Hsuf'); try done.
    + intros j h Hj. pose proof (Hr j h Hj) as Hb. simpl in Hb.
      assert (j <> i) by congruence. lia.
    + intros j Hj. apply Hst. lia.
Qed.

Lemma free_posted_spec G dn fs : finv G dn fs ->
  exists fs', free_posted env tab 0 fs = Some fs' /\ mem_inv (fs_mem fs') hs
    /\ forall h, h ∈ hs -> heap (fs_mem fs') !! base_addr h = heap m0 !! base_addr h.
Proof.
  intros Hi. destruct (free_posted_suffix tab 0 fs G) as (fs' & E & F1 & F2 & F3 & F4); try done.
  - intros j h Hh. assert (Hs := proj1 (fi_posted _ _ _ Hi j) ltac:(eauto)).
    apply lookup_lt_Some in Hs. rewrite (fi_len _ _ _ Hi) in Hs. lia.
  - intros j _. apply (fi_posted _ _ _ Hi).
  - intros j f h Hf Hh. destruct (tab_ok f) as (t0 & Ht0 & _); [by eapply list_elem_of_lookup_2|].
    destruct (fi_trans _ _ _ Hi j f t0 Hf Ht0) as (t & T1 & _ & _ & _ & T5). eauto.
  - apply (fi_mem _ _ _ Hi).
  - exists fs'. split; [done|]. split; [done|]. intros h Hh. rewrite (F4 h Hh). by apply (fi_heap _ _ _ Hi).
Qed.

End Pieces.

(** ** The other pieces *)

Lemma schedule_read_other h id a b n j :
  j <> id -> dart_rdma_find_read_tran j (read_tran_list (dart_rdma_schedule_read true h id a b n).1)
  = dart_rdma_find_read_tran j (read_tran_list h).
Proof.
  intros Hj. unfold dart_rdma_schedule_read. destruct (dart_rdma_find_read_tran id _); [|done].
  cbn [fst set_trans read_tran_list]. rewrite find_update by done. by rewrite decide_False.
Qed.

Lemma schedule_all_other ops h id j :
  j <> id -> dart_rdma_find_read_tran j (read_tran_list (schedule_all true h id ops).1)
  = dart_rdma_find_read_tran j (read_tran_list h).
Proof.
  intros Hj. revert h. induction ops as [|op ops IH]; intros h; [done|]. cbn [schedule_all].
  pose proof (schedule_read_other h id (src_offset op) (dst_offset op) (op_bytes op) j Hj) as Ho.
  destruct (dart_rdma_schedule_read _ _ _ _ _ _) as [h1 err]. case_if; [done|]. by rewrite IH.
Qed.

Lemma schedule_other h id so ds h' err j :
  schedule_rdma_reads true h id so ds = Some (h', err) -> j <> id ->
  dart_rdma_find_read_tran j (read_tran_list h') = dart_rdma_find_read_tran j (read_tran_list h).
Proof.
  intros E Hj. unfold schedule_rdma_reads in E. destruct (obj_desc_equals_no_owner so ds).
  - injection E as E. pose proof (schedule_read_other h id 0 0 (obj_data_size ds) j Hj) as Ho.
    by rewrite E in Ho.
  - unfold matrix_rdma_copy in E. destruct (_ && _); [|done].
    destruct (rdma_nest _ _ _ _ _ _) as [ops|]; [|done]. cbn [mbind option_bind] in E.
    injection E as E. pose proof (schedule_all_other ops h id j Hj) as Ho. by rewrite E in Ho.
Qed.

(** The reads of a sub-array fill the receive buffer, in the order of the
    list as in any other. *)
Lemma schedule_fill g od0 h f t sd :
  dart_rdma_find_read_tran (fe_tran f) (read_tran_list h) = Some t -> read_ops_list t = [] ->
  piece_ok g od0 f sd ->
  exists h' ops, schedule_rdma_reads true h (fe_tran f) (src_odsc f) (dst_odsc f) = Some (h', 0)
    /\ dart_rdma_find_read_tran (fe_tran f) (read_tran_list h') = Some (set_ops t ops)
    /\ reads_fill f sd ops.
Proof.
  intros Ht He Hp.
  set (dd0 := replicate (Z.to_nat (obj_data_size (dst_odsc f))) Byte.x00).
  assert (Hl0 : obj_data_size (dst_odsc f) <= Z.of_nat (length dd0))
    by (unfold dd0; rewrite length_replicate; lia).
  destruct (schedule_rdma_reads_spec h _ t _ _ sd dd0 Ht He (piece_transfer _ _ _ _ _ Hp Hl0))
    as (h' & rows & len & E & Hf & Hro0 & _).
  eexists h', _. split; [done|]. split; [done|]. split.
  { rewrite map_rev. f_equal. rewrite map_map. apply map_ext_in. intros [ao bo] Hr%list_elem_of_In. unfold sge_of, row_op. cbn.
    destruct (ro_bounds _ _ _ _ Hro0 ao bo Hr) as (B1 & B2 & _). pose proof (ro_len _ _ _ _ Hro0). pose proof (pc_len _ _ _ _ Hp).
    unfold dd0 in B2. rewrite length_replicate in B2. by rewrite u32_small by lia. }
  intros dd Hl.
  destruct (schedule_rdma_reads_spec h _ t _ _ sd dd Ht He (piece_transfer _ _ _ _ _ Hp Hl))
    as (h2 & rows2 & len2 & E2 & Hf2 & Hro & d & Hd & Hc).
  assert (h2 = h') as -> by congruence. rewrite Hf in Hf2.
  assert (Hops : rev (map (row_op len) rows) = rev (map (row_op len2) rows2)) by (by injection Hf2).
  rewrite Hops, <- map_rev, do_reads_rows.
  destruct (copy_rows_perm len2 rows2 (rev rows2) sd dd) as (A & A1 & A2 & _); [|done|].
  - symmetry. apply Permutation_rev.
  - exists d. split; [congruence|done].
Qed.

Section Fetch.
Context (g : list Z -> Z -> option byte) (env : client_env) (c : dimes_client) (od0 : obj_data)
  (hs : list dart_rdma_mem_handle) (L : list fetch_entry).

(** The state a fetch starts with. *)
Definition fetch_start : fstate := mk_fs (dc_mem c) (dc_drh c) od0 [].

(** The bytes a located piece is read from: the segment of the node, the
    block of an object of the client itself, or the memory of a remote
    client. *)
Definition piece_bytes (f : fetch_entry) : option (list byte) :=
  t ← fe_read_tran fetch_start f;
  if on_my_node c fetch_start f then
    so ← find_shmem_obj (dc_node c) (shd_obj_id (src_shmem_desc f));
    Some (drop (Z.to_nat (shd_offset (src_shmem_desc f))) (ce_segment env (so_id so)))
  else if is_myself c fetch_start f then
    o ← storage_lookup_obj (dc_store c) (remote_obj_id f) (version (src_odsc f));
    if decide (base_addr (mo_hndl o) ∈ map base_addr hs)
    then mb_bytes <$> heap (dc_mem c) !! base_addr (mo_hndl o) else None
  else Some (src_of env t).

(** A fetch list as the location phase leaves it: one fresh transaction per
    piece, and sources that hold values of [g]. *)
Record pieces_located : Prop := {
  lo_ids : NoDup (map fe_tran L);
  lo_ops : forall f t, f ∈ L -> fe_read_tran fetch_start f = Some t -> read_ops_list t = [];
  lo_bytes : forall f, f ∈ L -> exists sd, piece_bytes f = Some sd /\ piece_ok g od0 f sd }.

Hypothesis od0_ok : buf_ok (obj_desc od0) (ObjDesc.data od0).
Hypothesis mem0 : mem_inv (dc_mem c) hs.
Hypothesis menv_ok : env_ok (ce_mem env) (dc_mem c).
Hypothesis dereg : dereg_ok (ce_mem env).
Hypothesis malloc_ok : forall hp n, me_malloc (ce_mem env) hp n <> 0.
Hypothesis HL : pieces_located.

(** Between two pieces. *)
Record rinv (dn : list fetch_entry) (fs : fstate) : Prop := {
  ri_mem : mem_inv (fs_mem fs) hs;
  ri_config : config (fs_mem fs) = config (dc_mem c);
  ri_heap : forall h, h ∈ hs -> heap (fs_mem fs) !! base_addr h = heap (dc_mem c) !! base_addr h;
  ri_filled : filled g od0 dn (fs_od fs);
  ri_trans : forall f t0, f ∈ L -> fe_read_tran fetch_start f = Some t0 ->
    exists t, fe_read_tran fs f = Some t /\ remote_peer t = remote_peer t0
      /\ src_of env t = src_of env t0 /\ read_ops_list t = [] }.

Lemma located_tran f : f ∈ L -> exists t, fe_read_tran fetch_start f = Some t.
Proof.
  intros Hf. destruct (lo_bytes HL f Hf) as (sd & Hsd & _). unfold piece_bytes in Hsd.
  destruct (fe_read_tran fetch_start f); [eauto|done].
Qed.

Lemma same_peer fs f t :
  fe_read_tran fetch_start f = Some t ->
  remote_peer <$> fe_read_tran fs f = Some (remote_peer t) ->
  config (fs_mem fs) = config (dc_mem c) ->
  on_my_node c fs f = on_my_node c fetch_start f /\ is_myself c fs f = is_myself c fetch_start f.
Proof.
  intros Ht Hp Hc. unfold on_my_node, is_myself. rewrite Ht.
  destruct (fe_read_tran fs f) as [t'|]; [|done]. simpl in *. injection Hp as ->.
  by destruct (config_read _ _ Hc) as (_ & _ & ->).
Qed.

(** A piece fetched by itself: buffer, reads, copy, release. *)
Lemma fetch_one dn fs f t0 t sd type m h :
  rinv dn fs -> f ∈ L -> fe_read_tran fetch_start f = Some t0 ->
  fe_read_tran fs f = Some t -> remote_peer t = remote_peer t0 ->
  src_of env t = src_of env t0 -> read_ops_list t = [] -> piece_ok g od0 f sd ->
  dimes_memory_alloc (ce_mem env) (fs_mem fs) (obj_data_size (dst_odsc f)) type = (m, Some h) ->
  let fs1 := with_tran (with_mem fs m) f (fun t => set_dst t h) in
  mem_inv m (h :: hs) /\
  exists h' ops, schedule_rdma_reads true (fs_drh fs1) (fe_tran f) (src_odsc f) (dst_odsc f) = Some (h', 0)
    /\ let fs2 := mk_fs (fs_mem fs1) h' (fs_od fs1) (fs_status fs1) in
       fe_read_tran fs2 f = Some (set_ops (set_dst t h) ops) /\ map sge_of ops = ops
       /\ exists fs3 fs4 fs', read_into fs2 f (base_addr h) sd = Some fs3
            /\ obj_assemble fs3 f = Some fs4 /\ free_dst env fs4 f = Some (fs', 0)
            /\ rinv (f :: dn) fs'.
Proof.
  intros Hi Hf Ht0 Ht Hpeer Hsrc Hops Hp Ea fs1. pose proof Hi as [I1 I2 I3 I4 I5].
  pose proof (dimes_memory_alloc_spec (ce_mem env) (fs_mem fs) hs _ type I1
    (env_ok_config _ _ _ I2 menv_ok) (piece_size_pos _ _ _ _ Hp)) as Ha.
  pose proof (alloc_config (ce_mem env) (fs_mem fs) (obj_data_size (dst_odsc f)) type) as Hc.
  rewrite Ea in Ha, Hc. destruct Ha as (Ha1 & Ha2 & Ha3 & Ha4 & Ha5). cbn [fst] in Hc.
  split; [done|].
  assert (Hr1 : forall j, dart_rdma_find_read_tran j (read_tran_list (fs_drh fs1))
    = if decide (j = fe_tran f) then Some (set_dst t h)
      else dart_rdma_find_read_tran j (read_tran_list (fs_drh fs))).
  { intros j. etransitivity; [by apply with_tran_find|].
    change (fe_read_tran (with_mem fs m) f) with (fe_read_tran fs f). by rewrite Ht. }
  destruct (schedule_fill g od0 (fs_drh fs1) f (set_dst t h) sd) as (h' & ops & E & Hf' & Hfill);
    [by rewrite Hr1, decide_True|done|done|].
  exists h', ops. split; [done|]. set (fs2 := mk_fs (fs_mem fs1) h' (fs_od fs1) (fs_status fs1)). cbn zeta.
  split; [done|]. split; [apply Hfill|].
  destruct (receive_piece g od0 od0_ok env dereg dn fs2 f (set_ops (set_dst t h) ops) h hs sd)
    as (fs3 & fs4 & fs' & E1 & E2 & E3 & F1 & F2 & [R1 R2 R3 R4]); try done.
  exists fs3, fs4, fs'. do 3 (split; [done|]). split; [done| | |done|].
  - rewrite R2. etransitivity; [exact Hc|done].
  - intros h1 Hin. rewrite <- (I3 h1 Hin).
    destruct (live_heap _ _ h1 I1 Hin) as [b Hb].
    assert (Hne : base_addr h1 <> base_addr h) by congruence.
    rewrite (R3 _ Hne). change (heap (fs_mem fs2)) with (heap m). rewrite Ha5.
    by rewrite lookup_insert_ne.
  - intros f1 t1 Hf1 Ht1. unfold fe_read_tran. rewrite R4.
    destruct (decide (fe_tran f1 = fe_tran f)) as [Eid|Hne].
    + exists (set_ops (set_ops (set_dst t h) ops) []). split; [done|].
      assert (t1 = t0) as ->. { unfold fe_read_tran in *. rewrite Eid in Ht1. congruence. }
      done.
    + change (fs_drh fs2) with h'. rewrite (schedule_other _ _ _ _ _ _ _ E Hne), Hr1, decide_False by done.
      by apply I5.
Qed.

Definition contig (f : fetch_entry) : bool :=
  negb (on_my_node c fetch_start f) && negb (is_myself c fetch_start f)
  && is_remote_data_contiguous_in_memory (src_odsc f) (dst_odsc f).

(** RDMA memory for the pieces that may be in flight. *)
Record fetch_room : Prop := {
  fr_max : 0 < max_num_concurrent_rdma_read_op (options (dc_mem c));
  fr_register : forall p, 0 <= me_register (ce_mem env) p;
  fr_fits : exists s, (forall f, f ∈ L -> obj_data_size (dst_odsc f) <= s)
    /\ max_num_concurrent_rdma_read_op (options (dc_mem c)) * s + total_rdma hs
       <= rdma_buffer_size (options (dc_mem c)) }.

Lemma room_single m f sd :
  fetch_room -> f ∈ L -> piece_ok g od0 f sd -> mem_inv m hs -> config m = config (dc_mem c) ->
  obj_data_size (dst_odsc f) <= get_available_rdma_buffer_size (options m).
Proof.
  intros [R1 _ (s & R3 & R4)] Hf Hp Hi Hc. destruct (config_read _ _ Hc) as (_ & Hb & _).
  specialize (R3 f Hf). pose proof (piece_size_pos _ _ _ _ Hp).
  unfold get_available_rdma_buffer_size. rewrite Hb, (mm_usage _ _ Hi). case_if; zbool; nia.
Qed.

(** A piece in memory the process can address. *)
Lemma fetch_local_spec dn fs f sd :
  rinv dn fs -> f ∈ L -> piece_ok g od0 f sd ->
  exists fs', fetch_local env fs f sd = Some fs' /\ rinv (f :: dn) fs'.
Proof.
  intros Hi Hf Hp. destruct (located_tran f Hf) as [t0 Ht0].
  destruct (ri_trans _ _ Hi f t0 Hf Ht0) as (t & Ht & T1 & T2 & T3).
  destruct (alloc_succeeds (ce_mem env) (fs_mem fs) (obj_data_size (dst_odsc f)) dart_memory_non_rdma)
    as (m & h & Ea); [apply (ri_mem _ _ Hi)|done|by intros hp|done|].
  destruct (fetch_one dn fs f t0 t sd _ m h Hi Hf Ht0 Ht T1 T2 T3 Hp Ea)
    as (_ & h' & ops & E & Ht2 & _ & fs3 & fs4 & fs' & E1 & E2 & E3 & Hi').
  exists fs'. split; [|done]. unfold fetch_local, alloc_dst. rewrite Ea. cbn [Z.ltb Z.compare].
  rewrite E. cbn [mbind option_bind]. rewrite Ht2.
  cbn [mbind option_bind tran_dst set_ops set_dst]. rewrite E1. cbn [mbind option_bind].
  rewrite E2. cbn [mbind option_bind]. rewrite E3. done.
Qed.

Lemma poll_reads_spec np polls :
  (1 <= np)%nat ->
  match poll_reads polls with
  | (polls', wait_done) => num_full np polls <= num_full np polls' + 1
      /\ (no_poll_error polls -> no_poll_error polls')
  | (_, wait_error err) => err = -1 /\ ~ no_poll_error polls
  | (_, wait_more) => num_full np polls = 0
  end.
Proof.
  intros Hn. induction polls as [|p polls IH]; [done|]. cbn [poll_reads].
  destruct (default false (head (pl_done p))) eqn:Eh.
  - rewrite num_full_cons. split; [case_if; lia|]. by intros [_ ?]%list.Forall_cons.
  - destruct (pl_error p) eqn:Ep.
    + split; [done|]. intros [? _]%list.Forall_cons. congruence.
    + assert (Hf : full np p = false).
      { destruct (full np p) eqn:Ef; [|done]. unfold full in Ef. rewrite forallb_seq in Ef.
        specialize (Ef 0%nat ltac:(lia)). apply bool_decide_eq_true in Ef.
        by destruct (pl_done p) as [|b l]; [|simpl in *; injection Ef as ->]. }
      rewrite num_full_cons, Hf.
      destruct (poll_reads polls) as [polls' [| |]].
      * destruct IH as [I1 I2]. split; [lia|]. by intros [_ ?]%list.Forall_cons; apply I2.
      * destruct IH as [I1 I2]. split; [done|]. by intros [_ ?]%list.Forall_cons.
      * lia.
Qed.

Definition strided (l : list fetch_entry) : Z :=
  Z.of_nat (length (filter (fun f => contig f = false) l)).

Lemma strided_cons f l : strided (f :: l) = (if contig f then 0 else 1) + strided l.
Proof. unfold strided. rewrite list.filter_cons. destruct (contig f); simpl; lia. Qed.

(** How the second half of a fetch may end. *)
Definition rest_post (np : nat) (dn l : list fetch_entry) (polls : list poll) (r : fetch_result)
    : Prop :=
  match r with
  | fetch_ok fs' _ => exists dn', rinv dn' fs' /\ forall f, f ∈ dn' <-> f ∈ dn \/ f ∈ l
  | fetch_error fs' _ =>
      (exists lost, (length lost <= 1)%nat /\ mem_inv (fs_mem fs') (lost ++ hs))
      /\ (fetch_room -> ~ no_poll_error polls)
  | fetch_waits fs' =>
      (exists h, mem_inv (fs_mem fs') (h :: hs)) /\ num_full np polls < strided l
  end.

Lemma rest_post_step np dn f l polls polls' r x :
  rest_post np (f :: dn) l polls' r ->
  (contig f = false -> num_full np polls <= num_full np polls' + x) -> 0 <= x <= 1 ->
  contig f = false ->
  (no_poll_error polls -> no_poll_error polls') -> rest_post np dn (f :: l) polls r.
Proof.
  intros Hr Hn Hx Hc He. unfold rest_post in *. destruct r as [fs' p'|fs' err|fs'].
  - destruct Hr as (dn' & Hi & Hd). exists dn'. split; [done|]. intros f'.
    rewrite Hd, !elem_of_cons. tauto.
  - destruct Hr as [H1 H2]. split; [done|]. intros Hr Hp. by apply (H2 Hr), He.
  - destruct Hr as [H1 H2]. split; [done|]. rewrite strided_cons, Hc. specialize (Hn Hc). lia.
Qed.

(** A remote piece that needs a sub-array read. *)
Lemma fetch_strided dn fs f t0 t :
  rinv dn fs -> f ∈ L -> fe_read_tran fetch_start f = Some t0 ->
  fe_read_tran fs f = Some t -> remote_peer t = remote_peer t0 ->
  src_of env t = src_of env t0 -> read_ops_list t = [] -> piece_ok g od0 f (src_of env t0) ->
  let '(fs1, err) := alloc_dst env fs f dart_memory_rdma in
  err = -1 /\ mem_inv (fs_mem fs1) hs /\ ~ fetch_room
  \/ err = 0 /\ exists h',
       schedule_rdma_reads true (fs_drh fs1) (fe_tran f) (src_odsc f) (dst_odsc f) = Some (h', 0)
       /\ let fs2 := mk_fs (fs_mem fs1) h' (fs_od fs1) (fs_status fs1) in
          (exists h, mem_inv (fs_mem fs2) (h :: hs))
          /\ exists fs3 fs4 fs', adapter_read env fs2 f = Some fs3
               /\ obj_assemble fs3 f = Some fs4 /\ free_dst env fs4 f = Some (fs', 0)
               /\ rinv (f :: dn) fs'.
Proof.
  intros Hi Hf Ht0 Ht T1 T2 T3 Hp. pose proof (ri_mem _ _ Hi) as Hm.
  pose proof (dimes_memory_alloc_spec (ce_mem env) (fs_mem fs) hs _ dart_memory_rdma Hm
    (env_ok_config _ _ _ (ri_config _ _ Hi) menv_ok) (piece_size_pos _ _ _ _ Hp)) as Ha.
  pose proof (alloc_succeeds (ce_mem env) (fs_mem fs) (obj_data_size (dst_odsc f)) dart_memory_rdma
    (mm_pre _ _ Hm) eq_refl (fun hp => malloc_ok hp _)) as Hok.
  pose proof (fun m h => alloc_registered (ce_mem env) (fs_mem fs) hs (obj_data_size (dst_odsc f))
    dart_memory_rdma m h Hm eq_refl) as Hreg.
  pose proof (fun m h => fetch_one dn fs f t0 t _ dart_memory_rdma m h Hi Hf Ht0 Ht T1 T2 T3 Hp) as Hone.
  unfold alloc_dst. destruct (dimes_memory_alloc _ _ _ _) as [m [h|]].
  - right. split; [done|].
    destruct (Hone m h eq_refl) as (Hm1 & h' & ops & E & Ht2 & Hsge & fs3 & fs4 & fs' & E1 & E2 & E3 & Hi').
    exists h'. split; [done|]. cbn zeta in *. split; [by eauto|].
    exists fs3, fs4, fs'. split; [|done]. rewrite <- E1. apply (adapter_read_small env _ f _ _ _ Ht2); [apply (Hreg m h eq_refl)|exact T2|exact Hsge].
  - left. split; [done|]. split; [apply Ha|]. intros HR.
    destruct Hok as (? & ? & ?); [|done]. intros _. split; [apply HR|].
    by eapply room_single; [..|apply (ri_config _ _ Hi)].
Qed.

Lemma fetch_rest_spec np l : forall dn fs polls,
  (length l <= np)%nat -> (forall f, f ∈ l -> f ∈ L) -> (forall f, f ∈ l -> contig f = true -> f ∈ dn) ->
  rinv dn fs ->
  exists r, fetch_rest env c l fs polls = Some r /\ rest_post np dn l polls r.
Proof.
  induction l as [|f l IH]; intros dn fs polls Hnp Hl Hdn Hi; cbn [fetch_rest].
  { eexists. split; [done|]. exists dn. split; [done|]. intros f. rewrite elem_of_nil. tauto. }
  simpl in Hnp. assert (Hnp1 : (1 <= np)%nat) by lia. assert (Hnp2 : (length l <= np)%nat) by lia.
  assert (Hf : f ∈ L) by (apply Hl; by left). destruct (located_tran f Hf) as [t0 Ht0].
  destruct (ri_trans _ _ Hi f t0 Hf Ht0) as (t & Ht & T1 & T2 & T3).
  destruct (same_peer fs f t0 Ht0) as [-> ->];
    [rewrite Ht; simpl; by rewrite T1|apply (ri_config _ _ Hi)|].
  destruct (lo_bytes HL f Hf) as (sd & Hsd & Hp). unfold piece_bytes in Hsd.
  rewrite Ht0 in Hsd. cbn [mbind option_bind] in Hsd.
  assert (IH' : forall fs' polls', rinv (f :: dn) fs' ->
    exists r, fetch_rest env c l fs' polls' = Some r /\ rest_post np (f :: dn) l polls' r).
  { intros fs' polls' Hi'. apply IH; [done|intros f' Hf'; apply Hl; by right| |done].
    intros f' Hf' Hc'. right. apply Hdn; [by right|done]. }
  assert (Hloc : contig f = false -> forall sd, piece_ok g od0 f sd ->
    exists r, (fs' ← fetch_local env fs f sd; fetch_rest env c l fs' polls) = Some r
      /\ rest_post np dn (f :: l) polls r).
  { intros Hc sd' Hp'. destruct (fetch_local_spec dn fs f sd' Hi Hf Hp') as (fs' & -> & Hi').
    cbn [mbind option_bind]. destruct (IH' fs' polls Hi') as (r & Er & Hr). exists r. split; [done|].
    by eapply (rest_post_step _ _ _ _ polls polls _ 0); [done|lia|lia|done|done]. }
  unfold contig in Hloc.
  destruct (on_my_node c fetch_start f) eqn:En.
  { destruct (find_shmem_obj _ _) as [so|]; [|done]. cbn [mbind option_bind] in Hsd.
    injection Hsd as <-. by apply Hloc. }
  destruct (is_myself c fetch_start f) eqn:Em.
  { destruct (storage_lookup_obj _ _ _) as [o|]; [|done]. cbn [mbind option_bind] in Hsd.
    case_decide as Hin; [|done]. apply list_elem_of_fmap in Hin as (h & Eh & Hin).
    rewrite Eh in *. rewrite (ri_heap _ _ Hi h Hin).
    destruct (heap (dc_mem c) !! base_addr h) as [blk|]; [|done]. cbn [mbind option_bind].
    injection Hsd as <-. by apply Hloc. }
  injection Hsd as <-. clear Hloc.
  destruct (is_remote_data_contiguous_in_memory (src_odsc f) (dst_odsc f)) eqn:Ec; cbn [negb].
  { assert (Hc : contig f = true) by (unfold contig; by rewrite En, Em, Ec).
    assert (Hin : f ∈ dn) by (apply Hdn; [by left|done]).
    destruct (IH dn fs polls Hnp2) as (r & Er & Hr); [| |done|].
    - intros f' Hf'. apply Hl. by right.
    - intros f' Hf'. apply Hdn. by right.
    - exists r. split; [done|]. destruct r as [fs' p'|fs' err|fs']; [|done|].
      + destruct Hr as (dn' & Hi' & Hd). exists dn'. split; [done|]. intros f'.
        rewrite Hd, elem_of_cons. split; [intros [?|?]; auto|intros [?|[->|?]]; auto].
      + destruct Hr as [H1 H2]. split; [done|]. rewrite strided_cons, Hc. lia. }
  assert (Hc : contig f = false) by (unfold contig; by rewrite En, Em, Ec).
  pose proof (fetch_strided dn fs f t0 t Hi Hf Ht0 Ht T1 T2 T3 Hp) as Hs.
  destruct (alloc_dst env fs f dart_memory_rdma) as [fs1 err].
  destruct Hs as [(-> & Hm & Hroom)|(-> & h' & E & (h & Hm) & fs3 & fs4 & fs' & E1 & E2 & E3 & Hi')];
    cbn [Z.ltb Z.compare].
  { eexists. split; [done|]. split; [by exists []; split; [simpl; lia|]|done]. }
  rewrite E. cbn [mbind option_bind]. pose proof (poll_reads_spec np polls Hnp1) as Hpr.
  destruct (poll_reads polls) as [polls' [|err|]].
  - rewrite E1. cbn [mbind option_bind]. rewrite E2. cbn [mbind option_bind]. rewrite E3.
    cbn [mbind option_bind]. destruct (IH' fs' polls' Hi') as (r & Er & Hr). exists r. split; [done|].
    by eapply (rest_post_step _ _ _ _ polls polls' _ 1); [done|lia|lia|done|apply Hpr].
  - destruct Hpr as [-> Hpr]. eexists. split; [done|]. split; [by exists [h]; split; [simpl; lia|]|done].
  - eexists. split; [done|]. split; [by eauto|]. rewrite strided_cons, Hc.
    unfold strided. lia.
Qed.

(** The single read of a contiguous piece. *)
Definition contig_op (f : fetch_entry) : dart_rdma_op :=
  mk_op (calculate_offset_for_remote_data (src_odsc f) (dst_odsc f)) 0 (obj_data_size (dst_odsc f)).

Definition contig_list (l : list fetch_entry) : list fetch_entry :=
  filter (fun f => contig f = true) l.

Lemma contig_list_ids l j : j ∈ map fe_tran (contig_list l) -> j ∈ map fe_tran l.
Proof.
  intros (f & -> & Hf)%list_elem_of_fmap. apply list_elem_of_filter in Hf as [_ Hf].
  by apply list_elem_of_fmap_2.
Qed.

Definition peers_kept (fs : fstate) : Prop := forall f t0, f ∈ L ->
  fe_read_tran fetch_start f = Some t0 ->
  exists t, fe_read_tran fs f = Some t /\ remote_peer t = remote_peer t0.

(** The table of the contiguous pieces, or a piece that does not fit. *)
Definition build_post (fs : fstate) (l tab : list fetch_entry)
    (r : fstate * list fetch_entry * bool) : Prop :=
  let '(fs', tab', ok) := r in
  fs_mem fs' = dc_mem c /\
  if ok then
    fs_od fs' = fs_od fs /\ tab' = tab ++ contig_list l
    /\ (forall f, f ∈ contig_list l -> fe_read_tran fs' f
          = (fun t => set_ops t (contig_op f :: read_ops_list t)) <$> fe_read_tran fs f)
    /\ (forall j, j ∉ map fe_tran (contig_list l) ->
          dart_rdma_find_read_tran j (read_tran_list (fs_drh fs'))
          = dart_rdma_find_read_tran j (read_tran_list (fs_drh fs)))
  else exists f, f ∈ l /\
    get_available_rdma_buffer_size (options (dc_mem c)) < obj_data_size (dst_odsc f).

Lemma build_post_skip fs f l tab r :
  contig f = false -> build_post fs l tab r -> build_post fs (f :: l) tab r.
Proof.
  intros Hc. destruct r as [[fs' tab'] [|]]; unfold build_post.
  - unfold contig_list. by rewrite list.filter_cons, decide_False by congruence.
  - intros [H1 (f0 & H2 & H3)]. split; [done|]. exists f0. split; [by right|done].
Qed.

(** The piece [f] is scheduled. *)
Lemma build_post_take fs f l tab r t :
  contig f = true -> fe_tran f ∉ map fe_tran l -> fe_read_tran fs f = Some t ->
  build_post (with_tran fs f (fun t => set_ops t (contig_op f :: read_ops_list t))) l (tab ++ [f]) r ->
  build_post fs (f :: l) tab r.
Proof.
  intros Hc Hn Ht. destruct r as [[fs' tab'] [|]]; unfold build_post.
  2:{ intros [H1 (f0 & H2 & H3)]. split; [done|]. exists f0. split; [by right|done]. }
  assert (Hl : contig_list (f :: l) = f :: contig_list l)
    by (unfold contig_list; by rewrite list.filter_cons, decide_True).
  assert (Hn' : fe_tran f ∉ map fe_tran (contig_list l)) by (intros H; by apply Hn, contig_list_ids).
  intros (H1 & H2 & -> & H3 & H4). split; [done|]. split; [done|].
  rewrite Hl. split; [by rewrite <- app_assoc|]. cbn [map]. split.
  - intros f' [->|Hf']%elem_of_cons.
    + unfold fe_read_tran at 1. rewrite (H4 _ Hn'). etransitivity; [by apply with_tran_find|].
      by rewrite decide_True.
    + rewrite (H3 f' Hf'). f_equal. etransitivity; [by apply with_tran_find|].
      rewrite decide_False; [done|]. intros E. apply Hn'. rewrite <- E. by apply list_elem_of_fmap_2.
  - intros j [Hj1 Hj2]%not_elem_of_cons. rewrite (H4 j Hj2). etransitivity; [by apply with_tran_find|].
    by rewrite decide_False.
Qed.

Lemma build_spec l : forall fs tab,
  fs_mem fs = dc_mem c -> (forall f, f ∈ l -> f ∈ L) -> NoDup (map fe_tran l) -> peers_kept fs ->
  build_post fs l tab (build_fetch_tab env c fs l tab).
Proof.
  induction l as [|f l IH]; intros fs tab Hm Hl Hid Hpk; cbn [build_fetch_tab].
  { split; [done|]. split; [done|]. split; [by rewrite app_nil_r|]. split; [|done].
    intros f Hf. by apply not_elem_of_nil in Hf. }
  assert (Hf : f ∈ L) by (apply Hl; by left). destruct (located_tran f Hf) as [t0 Ht0].
  destruct (Hpk f t0 Hf Ht0) as (t & Ht & T1). simpl in Hid.
  apply list.NoDup_cons in Hid as [Hnid Hid].
  assert (Hl' : forall f', f' ∈ l -> f' ∈ L) by (intros f' Hf'; apply Hl; by right).
  destruct (same_peer fs f t0 Ht0) as [-> ->]; [rewrite Ht; simpl; by rewrite T1|by rewrite Hm|].
  pose proof (build_post_skip fs f l tab) as Hskip. unfold contig in Hskip.
  destruct (on_my_node c fetch_start f) eqn:En; [by apply Hskip; auto|].
  rewrite Hm. destruct (Z.ltb_spec (get_available_rdma_buffer_size (options (dc_mem c))) (obj_data_size (dst_odsc f))).
  { split; [done|]. exists f. split; [by left|done]. }
  destruct (negb (is_myself c fetch_start f) && is_remote_data_contiguous_in_memory (src_odsc f) (dst_odsc f)) eqn:Ec;
    [|by apply Hskip; auto].
  assert (Hc : contig f = true) by (unfold contig; rewrite En; done).
  apply (build_post_take fs f l tab _ t); [done..|].
  replace (mk_fs _ _ _ _) with (with_tran fs f (fun t => set_ops t (contig_op f :: read_ops_list t))).
  2:{ unfold dart_rdma_schedule_read, with_tran. unfold fe_read_tran in Ht. rewrite Ht, Hm. done. }
  apply IH; [done..|]. intros f1 t1 Hf1 Ht1. destruct (Hpk f1 t1 Hf1 Ht1) as (t2 & Ht2 & T2).
  unfold fe_read_tran. destruct (decide (fe_tran f1 = fe_tran f)) as [E|E].
  - eexists. split; [etransitivity; [by apply with_tran_find|]; rewrite decide_True by done; by rewrite Ht|].
    unfold fe_read_tran in Ht2, Ht. cbn. congruence.
  - exists t2. split; [|done]. etransitivity; [by apply with_tran_find|]. by rewrite decide_False.
Qed.

(** ** The whole fetch *)

Lemma contig_source f t0 : f ∈ L -> contig f = true -> fe_read_tran fetch_start f = Some t0 ->
  piece_ok g od0 f (src_of env t0) /\ reads_fill f (src_of env t0) [contig_op f].
Proof.
  intros Hf Hc Ht0. destruct (lo_bytes HL f Hf) as (sd & Hsd & Hp). unfold piece_bytes in Hsd.
  rewrite Ht0 in Hsd. cbn [mbind option_bind] in Hsd. unfold contig in Hc.
  destruct (on_my_node c fetch_start f); [done|]. destruct (is_myself c fetch_start f); [done|].
  injection Hsd as <-. split; [done|]. split.
  { pose proof (piece_size_pos _ _ _ _ Hp). pose proof (pc_len _ _ _ _ Hp). cbn. unfold contig_op, sge_of. cbn. by rewrite u32_small by lia. }
  intros dd Hl.
  exact (contiguous_read_spec (src_odsc f) (dst_odsc f) (src_of env t0) dd
    (piece_transfer _ _ _ _ _ Hp Hl) (pc_inside _ _ _ _ Hp) Hc).
Qed.

(** The state when the loop starts. *)
Lemma loop_start fs tab :
  build_post fetch_start L [] (fs, tab, true) ->
  let trs0 j := dart_rdma_find_read_tran j (read_tran_list (fs_drh fs)) in
  (forall f, f ∈ tab -> exists t, trs0 (fe_tran f) = Some t
     /\ piece_ok g od0 f (src_of env t) /\ reads_fill f (src_of env t) (read_ops_list t))
  /\ finv g od0 env tab trs0 (dc_mem c) hs ∅ []
       (mk_fs (fs_mem fs) (fs_drh fs) (fs_od fs) (map (fun _ => fetch_ready) tab)).
Proof.
  intros (B1 & B2 & -> & B3 & B4) trs0. cbn [app].
  assert (Hready : forall i s, map (fun _ => fetch_ready) (contig_list L) !! i = Some s -> s = fetch_ready).
  { intros i s. rewrite list_lookup_fmap. by destruct (contig_list L !! i) as [?|]; intros [= <-]. }
  assert (Htr : forall f, f ∈ contig_list L -> exists t0, fe_read_tran fetch_start f = Some t0
    /\ trs0 (fe_tran f) = Some (set_ops t0 [contig_op f])
    /\ piece_ok g od0 f (src_of env t0) /\ reads_fill f (src_of env t0) [contig_op f]).
  { intros f Hf. assert (Hf' := Hf). apply list_elem_of_filter in Hf' as [Hc HfL].
    destruct (located_tran f HfL) as [t0 Ht0]. exists t0. split; [done|]. split.
    - etransitivity; [apply (B3 f Hf)|]. rewrite Ht0. simpl. by rewrite (lo_ops HL f t0 HfL Ht0).
    - by apply contig_source. }
  split.
  { intros f Hf. destruct (Htr f Hf) as (t0 & _ & T & Hp & Hr). eexists. split; [done|]. done. }
  split; cbn [fs_status fs_mem fs_drh fs_od].
  - by rewrite length_map.
  - intros i. rewrite lookup_empty. split; [by intros [? ?]|]. intros Hs. by apply Hready in Hs.
  - unfold get_num_posted_fetch. rewrite map_size_empty.
    destruct (filter _ _) as [|s l] eqn:E; [done|]. exfalso.
    assert (Hin : s ∈ s :: l) by by left. rewrite <- E in Hin.
    apply list_elem_of_filter in Hin as [-> (i & Hi)%list_elem_of_lookup_1]. by apply Hready in Hi.
  - rewrite map_size_empty. lia.
  - intros i f t0 Hf Ht0. exists t0. split; [done|]. split; [done|]. split; [done|]. split; [|done].
    rewrite decide_False; [done|]. intros Hs. by apply Hready in Hs.
  - done.
  - done.
  - rewrite map_to_list_empty, B1. done.
  - by rewrite B1.
  - by rewrite B1.
  - rewrite B2. by apply filled_start.
  - intros f. rewrite elem_of_nil. split; [done|]. intros (i & _ & Hs). by apply Hready in Hs.
Qed.

Lemma entry_by_id f f' : f ∈ L -> f' ∈ L -> fe_tran f = fe_tran f' -> f = f'.
Proof.
  intros (i & Hi)%list_elem_of_lookup_1 (j & Hj)%list_elem_of_lookup_1 E.
  assert (i = j) as <-; [|congruence].
  eapply (NoDup_lookup _ i j (fe_tran f) (lo_ids HL)); rewrite list_lookup_fmap.
  - by rewrite Hi.
  - rewrite Hj. simpl. by rewrite E.
Qed.

(** The state after the loop. *)
Lemma loop_end fs tab dn fs' :
  build_post fetch_start L [] (fs, tab, true) ->
  finv g od0 env tab (fun j => dart_rdma_find_read_tran j (read_tran_list (fs_drh fs)))
    (dc_mem c) hs ∅ dn fs' ->
  all_done (fs_status fs') = true ->
  rinv dn fs' /\ forall f, f ∈ dn <-> f ∈ contig_list L.
Proof.
  intros Hb Hi Hd. destruct (loop_start fs tab Hb) as [Htab _]. destruct Hb as (B1 & B2 & -> & B3 & B4).
  cbn [app] in *. pose proof Hi as [H1 _ _ _ H4 H5 _ H7 H8 H9 H10 H11].
  assert (Hst : forall i f, contig_list L !! i = Some f -> fs_status fs' !! i = Some fetch_done).
  { intros i f Hf. assert (Hl := lookup_lt_Some _ _ _ Hf). rewrite <- H1 in Hl.
    apply lookup_lt_is_Some in Hl as [s Hs]. rewrite Hs. by rewrite (proj1 (all_done_spec _) Hd i s Hs). }
  split.
  - split; try done. intros f t0 Hf Ht0.
    destruct (decide (fe_tran f ∈ map fe_tran (contig_list L))) as [Hin|Hout].
    + apply list_elem_of_fmap in Hin as (f' & E & Hf').
      assert (Hf'L := Hf'). apply list_elem_of_filter in Hf'L as [_ Hf'L].
      assert (f = f') as <- by (by apply entry_by_id).
      assert (Hi' := Hf'). apply list_elem_of_lookup_1 in Hi' as [i Hi'].
      assert (Htb : dart_rdma_find_read_tran (fe_tran f) (read_tran_list (fs_drh fs))
        = Some (set_ops t0 (contig_op f :: read_ops_list t0))).
      { etransitivity; [apply (B3 f Hf')|]. by rewrite Ht0. }
      destruct (H4 i f _ Hi' Htb) as (t & T1 & T2 & T3 & T4 & _). exists t.
      rewrite (Hst i f Hi'), decide_True in T4 by done. done.
    + exists t0. split; [|by rewrite (lo_ops HL f t0 Hf Ht0)].
      etransitivity; [apply (H5 _ Hout)|]. rewrite (B4 _ Hout). done.
  - intros f. rewrite H11. split.
    + intros (i & Hi' & _). by eapply list_elem_of_lookup_2.
    + intros (i & Hi')%list_elem_of_lookup_1. exists i. split; [done|]. by eapply Hst.
Qed.

(** What a fetch may end with; [polls] is what the adapter reports. *)
Definition fetch_post (polls : list poll) (r : fetch_result) : Prop :=
  match r with
  | fetch_ok fs _ =>
      mem_inv (fs_mem fs) hs /\ filled g od0 L (fs_od fs)
      /\ forall h, h ∈ hs -> heap (fs_mem fs) !! base_addr h = heap (dc_mem c) !! base_addr h
  | fetch_error fs _ =>
      (exists lost, (length lost <= 1)%nat /\ mem_inv (fs_mem fs) (lost ++ hs))
      /\ (fetch_room -> ~ no_poll_error polls)
  | fetch_waits fs =>
      (exists flying, mem_inv (fs_mem fs) (flying ++ hs)
         /\ Z.of_nat (length flying)
            <= Z.max 1 (max_num_concurrent_rdma_read_op (options (dc_mem c))))
      /\ (fetch_room -> num_full (length L) polls < Z.of_nat (length L))
  end.

Lemma contig_strided : Z.of_nat (length (contig_list L)) + strided L = Z.of_nat (length L).
Proof.
  unfold contig_list, strided. induction L as [|f l IH]; [done|].
  rewrite !list.filter_cons. destruct (contig f); simpl; lia.
Qed.

Lemma fetch_data_spec qte :
  qd_fetch_list qte = L ->
  exists r, dimes_fetch_data env c qte od0 = Some r /\ fetch_post (ce_polls env) r.
Proof.
  intros EL. unfold dimes_fetch_data. rewrite EL. change (mk_fs (dc_mem c) (dc_drh c) od0 []) with fetch_start.
  pose proof (build_spec L fetch_start [] eq_refl (fun f Hf => Hf) (lo_ids HL)) as Hb.
  destruct (build_fetch_tab env c fetch_start L []) as [[fs tab] [|]].
  2:{ destruct Hb as [Hm (f & Hf & Hlt)]; [by intros f t0 _ ->; eauto|]. eexists. split; [done|]. split.
      - exists []. split; [simpl; lia|]. by rewrite Hm.
      - intros HR. destruct (lo_bytes HL f Hf) as (sd & _ & Hp).
        pose proof (room_single (dc_mem c) f sd HR Hf Hp mem0 eq_refl). lia. }
  specialize (Hb ltac:(intros f t0 _ ->; eauto)). destruct (loop_start fs tab Hb) as [Htab Hi].
  assert (Etab : tab = contig_list L) by (by destruct Hb as (_ & _ & -> & _)).
  assert (Hids : NoDup (map fe_tran tab)).
  { rewrite Etab. eapply sublist_NoDup; [apply (lo_ids HL)|].
    apply (fmap_sublist fe_tran), sublist_filter. }
  assert (Hlen : (length tab <= length L)%nat) by (rewrite Etab; apply length_filter).
  assert (Hroom : fetch_room -> room env tab (dc_mem c) hs).
  { intros [R1 R2 (s & R3 & R4)]. split; [done|done|]. exists s. split; [|done].
    intros f Hf. apply R3. rewrite Etab in Hf. by apply list_elem_of_filter in Hf as [_ ?]. }
  destruct (fetch_loop_spec g od0 od0_ok env dereg tab _ (dc_mem c) hs menv_ok Hids Htab (length L) Hlen
    (S (length tab)) _ _ _ (ce_polls env) Hi) as (r & -> & Hr).
  { right. unfold completed, count. lia. }
  cbn [mbind option_bind]. destruct r as [fs' polls'|fs' err|fs'].
  - destruct Hr as ((dn & Hi') & Hd & Hn & He). destruct (loop_end fs tab dn fs' Hb Hi' Hd) as [Hri Hdn].
    destruct (fetch_rest_spec (length L) L dn fs' polls' ltac:(lia) (fun f Hf => Hf)) as (r & -> & Hr);
      [by intros f Hf Hc; apply Hdn, list_elem_of_filter|done|].
    exists r. split; [done|]. destruct r as [fs2 p2|fs2 err|fs2].
    + destruct Hr as (dn' & [I1 I2 I3 I4 I5] & Hdn'). split; [done|]. split; [|done].
      eapply filled_equiv; [|done]. intros f. rewrite Hdn', Hdn. unfold contig_list.
      rewrite list_elem_of_filter. tauto.
    + destruct Hr as [H1 H2]. split; [done|]. intros HR Hp. by apply (H2 HR), He.
    + destruct Hr as [(h & Hm) H2]. split; [exists [h]; split; [done|simpl; lia]|]. intros _.
      pose proof contig_strided as Hcs. rewrite Etab in Hn. unfold completed, count in Hn. lia.
  - destruct Hr as (-> & (G' & dn & Hi') & Hne).
    destruct (free_posted_spec g od0 env dereg tab _ (dc_mem c) hs Htab (length L) Hlen G' dn fs' Hi') as (fs2 & -> & Hm & _).
    cbn [mbind option_bind]. eexists. split; [done|]. split; [by exists []; split; [simpl; lia|]|]. by auto.
  - destruct Hr as ((G' & dn & Hi') & Hw). eexists. split; [done|]. split.
    + eexists. split; [apply (fi_mem _ _ _ _ _ _ _ _ _ _ Hi')|].
      rewrite length_fmap, length_map_to_list. pose proof (fi_max _ _ _ _ _ _ _ _ _ _ Hi') as Hx.
      unfold max_reads in Hx. lia.
    + intros [R1 _ _]. unfold max_reads, completed, count in Hw. lia.
Qed.

End Fetch.

(** C5: Whatever the adapter reports, a fetch of located pieces (each of less
    than 2^32 bytes) has one of three outcomes.  It succeeds: every cell of every piece is in the
    caller's buffer, the other cells are unchanged, all receive buffers are
    released and the blocks in use are untouched.  It fails: at most one
    receive buffer stays allocated.  It waits: no more buffers are in flight
    than the options allow. *)
Theorem dimes_fetch_data_exact g env c qte od hs :
  buf_ok (obj_desc od) (ObjDesc.data od) -> mem_inv (dc_mem c) hs ->
  env_ok (ce_mem env) (dc_mem c) -> dereg_ok (ce_mem env) ->
  (forall hp n, me_malloc (ce_mem env) hp n <> 0) ->
  pieces_located g env c od hs (qd_fetch_list qte) ->
  exists r, dimes_fetch_data env c qte od = Some r /\
  match r with
  | fetch_ok fs _ =>
      mem_inv (fs_mem fs) hs /\ filled g od (qd_fetch_list qte) (fs_od fs)
      /\ forall h, h ∈ hs -> heap (fs_mem fs) !! base_addr h = heap (dc_mem c) !! base_addr h
  | fetch_error fs _ => exists lost, (length lost <= 1)%nat /\ mem_inv (fs_mem fs) (lost ++ hs)
  | fetch_waits fs => exists flying, mem_inv (fs_mem fs) (flying ++ hs)
      /\ Z.of_nat (length flying)
         <= Z.max 1 (max_num_concurrent_rdma_read_op (options (dc_mem c)))
  end.
Proof.
  intros Hod Hm He Hd Hma HL.
  destruct (fetch_data_spec g env c od hs _ Hod Hm He Hd Hma HL qte eq_refl) as (r & E & Hr).
  exists r. split; [done|]. destruct r; [done|apply Hr..].
Qed.

(** C4: A fetch of located pieces (each of less than 2^32 bytes) ends and
    succeeds when the RDMA memory has room for as many pieces as may be in flight, no poll fails, and as many polls as there
    are pieces report all reads as complete (any number of other polls may
    come in between). *)
Theorem dimes_fetch_data_completes g env c qte od hs :
  buf_ok (obj_desc od) (ObjDesc.data od) -> mem_inv (dc_mem c) hs ->
  env_ok (ce_mem env) (dc_mem c) -> dereg_ok (ce_mem env) ->
  (forall hp n, me_malloc (ce_mem env) hp n <> 0) ->
  pieces_located g env c od hs (qd_fetch_list qte) ->
  fetch_room env c hs (qd_fetch_list qte) -> no_poll_error (ce_polls env) ->
  Z.of_nat (length (qd_fetch_list qte)) <= num_full (length (qd_fetch_list qte)) (ce_polls env) ->
  exists fs polls, dimes_fetch_data env c qte od = Some (fetch_ok fs polls)
    /\ filled g od (qd_fetch_list qte) (fs_od fs).
Proof.
  intros Hod Hm He Hd Hma HL HR Hp Hn.
  destruct (fetch_data_spec g env c od hs _ Hod Hm He Hd Hma HL qte eq_refl) as (r & E & Hr).
  destruct r as [fs polls|fs err|fs].
  - exists fs, polls. split; [done|]. apply Hr.
  - by destruct (proj2 Hr HR).
  - pose proof (proj2 Hr HR). lia.
Qed.

(** A get of a 4 by 4 box whose lower half is contiguous in the memory of
    client 7 and whose rest comes, as a sub-array, from client 8. *)
Definition demo_peer_desc (b : bbox) (own : Z) : obj_descriptor := mk_odsc "temp" column_major own 1 b 1.

Definition demo_fetch (id peer : Z) (src dst : bbox) : fetch_entry :=
  mk_fe (mk_oid peer 0) (demo_peer_desc src peer) (demo_peer_desc dst peer) id (mk_shd 0 0 0 0).

Definition demo_fetches : list fetch_entry :=
  [demo_fetch 0 7 (mk_bbox 2 [0; 0] [3; 1]) (mk_bbox 2 [0; 0] [3; 1]);
   demo_fetch 1 8 (mk_bbox 2 [0; 0] [3; 3]) (mk_bbox 2 [1; 2] [2; 3])].

Definition demo_trans : dart_rdma_handle :=
  mk_drh 5 2 [mk_tran 0 7 (mk_hndl 1000 0 0 dart_memory_non_rdma) no_hndl [];
              mk_tran 1 8 (mk_hndl 2000 0 0 dart_memory_non_rdma) no_hndl []].

Definition demo_query : query_tran_entry_d :=
  mk_qted 0 (demo_peer_desc demo_domain (-1)) 2 demo_fetches [0; 1] 2 2 true false.

Definition demo_cget : dimes_client := demo_client demo_mem0 demo_storage demo_trans.
Definition demo_target : obj_data :=
  obj_data_alloc_no_data 0 (demo_peer_desc demo_domain (-1)) (replicate 16 Byte.x00).
Definition demo_fenv : client_env :=
  demo_cenv (fun _ => true) (fun _ _ => replicate 16 Byte.x05) (replicate 2 (mk_poll false [true; true])).

Ltac small_box := split; [done|]; split; [done|]; intros i Hi; cbn in Hi;
  destruct i as [|[|i]]; unfold cget; cbn; lia.

Lemma agrees_const o n x :
  buf_ok o (replicate n x) -> agrees o (replicate n x) (fun _ _ => Some x).
Proof.
  intros Hb p k Hp Hk. pose proof (buf_size _ _ Hb) as Hs. destruct Hb as [Hw Hd H1 H2 H3].
  rewrite length_replicate in H3. unfold cell_at, at_. apply lookup_replicate. split; [done|].
  assert (Hi : inb (bb o) (cget p) (num_dims (bb o) - 1)) by (apply in_box_inb; [lia|done]).
  pose proof (lin_range _ _ _ Hi) as Hr.
  replace (S (num_dims (bb o) - 1)) with (num_dims (bb o)) in Hr by lia.
  rewrite weight_card in Hr. nia.
Qed.

Lemma demo_piece f : f ∈ demo_fetches ->
  piece_ok (fun _ _ => Some Byte.x05) demo_target f (replicate 16 Byte.x05).
Proof.
  assert (Hw : forall o dd, wf_bbox (bb o) -> (1 <= num_dims (bb o) <= 9)%nat -> size o = 1 ->
    box_card (bb o) <= 16 -> obj_data_size o <= Z.of_nat (length dd) -> buf_ok o dd).
  { intros o dd H1 H2 H3 H4 H5. split; try done; rewrite ?H3; [lia|]. transitivity 17; [lia|done]. }
  unfold demo_fetches. intros [->|[->|[]%not_elem_of_nil]%elem_of_cons]%elem_of_cons.
  - assert (Hs : buf_ok (demo_peer_desc (mk_bbox 2 [0; 0] [3; 1]) 7) (replicate 16 Byte.x05))
      by (apply Hw; [small_box|cbn; lia|done|vm_compute; congruence|vm_compute; congruence]).
    split; cbn [src_odsc dst_odsc demo_fetch]; try done.
    + intros dd Hd. apply Hw; [small_box|cbn; lia|done|vm_compute; congruence|done].
    + by apply agrees_const.
  - assert (Hs : buf_ok (demo_peer_desc (mk_bbox 2 [0; 0] [3; 3]) 8) (replicate 16 Byte.x05))
      by (apply Hw; [small_box|cbn; lia|done|vm_compute; congruence|vm_compute; congruence]).
    split; cbn [src_odsc dst_odsc demo_fetch]; try done.
    + intros dd Hd. apply Hw; [small_box|cbn; lia|done|vm_compute; congruence|done].
    + intros i Hi. cbn in Hi. destruct i as [|[|i]]; unfold cget; cbn; lia.
    + by apply agrees_const.
Qed.

Lemma demo_located : pieces_located (fun _ _ => Some Byte.x05) demo_fenv demo_cget demo_target [] demo_fetches.
Proof.
  split.
  - cbn. repeat (apply list.NoDup_cons; split; [rewrite ?elem_of_cons, ?elem_of_nil; lia|]). constructor.
  - unfold demo_fetches. by intros f t [->|[->|[]%not_elem_of_nil]%elem_of_cons]%elem_of_cons [= <-].
  - intros f Hf. exists (replicate 16 Byte.x05). split; [|by apply demo_piece].
    revert Hf. unfold demo_fetches. by intros [->|[->|[]%not_elem_of_nil]%elem_of_cons]%elem_of_cons.
Qed.

Lemma demo_target_ok : buf_ok (obj_desc demo_target) (ObjDesc.data demo_target).
Proof. split; [small_box|cbn; lia|done|done|vm_compute; congruence]. Qed.

Lemma demo_malloc hp n : me_malloc (ce_mem demo_fenv) hp n <> 0.
Proof.
  cbn. enough (0 <= top_addr hp) by lia. unfold top_addr.
  apply (map_fold_weak_ind (fun a _ => 0 <= a)); intros; lia.
Qed.

Lemma dimes_fetch_data_exact_witness :
  exists r, dimes_fetch_data demo_fenv demo_cget demo_query demo_target = Some r /\
  match r with
  | fetch_ok fs _ => mem_inv (fs_mem fs) []
      /\ filled (fun _ _ => Some Byte.x05) demo_target demo_fetches (fs_od fs)
      /\ forall h, h ∈ [] -> heap (fs_mem fs) !! base_addr h = heap demo_mem0 !! base_addr h
  | fetch_error fs _ => exists lost, (length lost <= 1)%nat /\ mem_inv (fs_mem fs) (lost ++ [])
  | fetch_waits fs => exists flying, mem_inv (fs_mem fs) (flying ++ [])
      /\ Z.of_nat (length flying) <= Z.max 1 4
  end.
Proof.
  apply (dimes_fetch_data_exact (fun _ _ => Some Byte.x05) demo_fenv demo_cget demo_query demo_target []).
  - apply demo_target_ok.
  - apply demo_mem0_inv.
  - by apply demo_env_ok.
  - by intros p.
  - apply demo_malloc.
  - apply demo_located.
Defined.

Lemma dimes_fetch_data_completes_witness :
  exists fs polls, dimes_fetch_data demo_fenv demo_cget demo_query demo_target = Some (fetch_ok fs polls)
    /\ filled (fun _ _ => Some Byte.x05) demo_target demo_fetches (fs_od fs).
Proof.
  apply (dimes_fetch_data_completes (fun _ _ => Some Byte.x05) demo_fenv demo_cget demo_query demo_target []).
  - apply demo_target_ok.
  - apply demo_mem0_inv.
  - by apply demo_env_ok.
  - by intros p.
  - apply demo_malloc.
  - apply demo_located.
  - split; [done|by intros p|]. exists 8. split; [|done].
    unfold demo_query, demo_fetches. cbn [qd_fetch_list].
    by intros f [->|[->|[]%not_elem_of_nil]%elem_of_cons]%elem_of_cons.
  - by repeat constructor.
  - vm_compute. congruence.
Defined.
