(* ===== verification/DimesGet.v ===== *)
(** * The DIMES get (src/dimes_client.c)

    A get asks the servers the box hashes to where data are, waits for their
    replies, fetches the pieces and releases what it allocated.

    Theorems: when every server answers, the location phase ends with one
    fetch entry per distinct piece, each with a transaction of its own, and
    the size the fetch tables are allocated with is their number; a get
    whose data are all in the memory of clients fills the buffer of the
    caller with them. *)

From stdpp Require Import gmap.
From S2P Require Import Prelude Bbox Matrix ObjDesc Storage Sspace Server DimesBuf DimesMeta Rdma DimesStore DimesClient DimesFetch.

#[local] Open Scope Z_scope.

(** ** Get *)

Inductive dget_result :=
| dget_done (rc : Z) (data : obj_data)
| dget_waits.

Definition dimes_obj_get (env : client_env) (c : dimes_client) (od : obj_data)
    : option (dimes_client * list (Z * dcmsg) * dget_result) :=
  match qte_alloc_d env c (obj_desc od) with
  | (c, None) => Some (c, [], dget_done (- ENOMEM) od)
  | (c, Some qte) =>
      let c := qt_add_d c qte in
      '(c, ranks) ← hash_nodes env c (od_gdim od) (bb (obj_desc od));
      match ranks with
      | [] => Some (qt_remove_d c qte, [], dget_done (- ENOMEM) od)
      | _ =>
          let qte := set_requests qte (take (S (dc_num_srv c)) ranks) 0 0 false in
          let '(qte, sent, err) := dimes_locate_data env c qte in
          let c := qt_update_d c qte in
          if err <? 0 then
            let c := if err =? - EAGAIN then (qt_free_obj_data_d c qte).1 else c in
            Some (qt_remove_d c qte, sent, dget_done err od)
          else
            match wait_located env c (qd_id qte) (ce_replies env) with
            | (c, wait_more) => Some (c, sent, dget_waits)
            | (c, wait_error err) => Some (c, sent, dget_done err od)
            | (c, wait_done) =>
                qte ← qt_find_d c (qd_id qte);
                r ← dimes_fetch_data env c qte od;
                let finish fs rc :=
                  let c := set_memory c (fs_mem fs) (fs_drh fs) in
                  let '(c, qte) := qt_free_obj_data_d c qte in
                  Some (qt_remove_d c qte, sent, dget_done rc (fs_od fs)) in
                match r with
                | fetch_ok fs _ => finish fs 0
                | fetch_error fs err => finish fs (if err <? 0 then err else - ENODATA)
                | fetch_waits fs => Some (set_memory c (fs_mem fs) (fs_drh fs), sent, dget_waits)
                end
            end
      end
  end.

(** [data] is the buffer of the caller; the result is its new content. *)
Definition dimes_client_get (env : client_env) (c : dimes_client) (var_name : string)
    (ver elem_size : Z) (nd : nat) (lb ub : list Z) (data : list byte)
    : option (dimes_client * list (Z * dcmsg) * dget_result) :=
  let odsc := client_odsc var_name ver elem_size nd lb ub (-1) in
  if ce_qte env then
    let od := obj_data_alloc_no_data 0 odsc data in
    let gd := set_global_dimension (dc_gdim_list c) var_name (dc_default_gdim c) in
    let od := mk_od (od_ptr od) (obj_desc od) gd (ObjDesc.data od) (refcnt od) (f_free od) in
    dimes_obj_get env c od
  else Some (c, [], dget_done (- ENOMEM) (obj_data_alloc_no_data 0 odsc data)).

(** ** The part of a piece that is asked for *)

Lemma weight_le b1 b2 n :
  (forall i, (i < n)%nat -> 0 < ext b1 i <= ext b2 i) -> 0 < weight b1 n <= weight b2 n.
Proof.
  induction n as [|n IH]; intros H; cbn [weight]; [lia|].
  specialize (IH ltac:(intros i Hi; apply H; lia)). specialize (H n ltac:(lia)). nia.
Qed.

Lemma box_card_le b1 b2 :
  wf_bbox b1 -> num_dims b1 = num_dims b2 -> inside b2 b1 -> box_card b1 <= box_card b2.
Proof.
  intros Hw Hd Hin. rewrite <- !weight_card, <- Hd. apply weight_le. intros i Hi.
  destruct (Hin i Hi). pose proof (@wf_ext (num_dims b1) b1 i Hw eq_refl Hi).
  unfold ext in *. lia.
Qed.

Lemma intersect_inside b0 b1 : num_dims b0 = num_dims b1 -> inside b1 (bbox_intersect b0 b1).
Proof.
  intros Hd i Hi. cbn in Hi. rewrite cget_inter_lb, cget_inter_ub, max_spec, min_spec by done. lia.
Qed.

(** [odsc] of a fetch entry: the location's descriptor cut to the query. *)
Definition cut (q : obj_descriptor) (cmd : rpc_cmd) : obj_descriptor :=
  let hdr := cmd_odsc cmd in
  mk_odsc (name hdr) (st hdr) (owner hdr) (version hdr) (bbox_intersect (bb q) (bb hdr)) (size hdr).

(** The entry of a location, with the transaction [id]. *)
Definition entry_of (q : obj_descriptor) (cmd : rpc_cmd) (id : Z) : fetch_entry :=
  mk_fe (hp_obj_id (cmd_pad cmd)) (cmd_odsc cmd) (cut q cmd) id (hp_shmem_desc (cmd_pad cmd)).

Definition tran_of (cmd : rpc_cmd) (id : Z) : dart_rdma_tran :=
  mk_tran id (owner (cmd_odsc cmd)) (mk_hndl (fst (cmd_mr cmd)) 0 0 dart_memory_non_rdma) no_hndl [].

(** A location whose data [sd] hold values of [g] and can be asked for. *)
Record loc_ok (g : list Z -> Z -> option byte) (od : obj_data) (cmd : rpc_cmd) (sd : list byte)
    : Prop := {
  lk_src : buf_ok (cmd_odsc cmd) sd;
  lk_dims : num_dims (bb (obj_desc od)) = num_dims (bb (cmd_odsc cmd));
  lk_size : size (obj_desc od) = size (cmd_odsc cmd);
  lk_len : obj_data_size (cut (obj_desc od) cmd) < 2 ^ 32;
  lk_meet : bbox_does_intersect (bb (obj_desc od)) (bb (cmd_odsc cmd)) = true;
  lk_agrees : agrees (cmd_odsc cmd) sd g }.

Lemma loc_piece g od cmd id sd :
  buf_ok (obj_desc od) (ObjDesc.data od) -> loc_ok g od cmd sd ->
  piece_ok g od (entry_of (obj_desc od) cmd id) sd.
Proof.
  intros Hod [L1 L2 L3 LL L4 L5]. set (q := obj_desc od) in *.
  pose proof (bo_wf _ _ Hod) as Hwq. pose proof (bo_wf _ _ L1) as Hws.
  pose proof (bbox_intersect_wf _ _ Hwq Hws L2 L4) as Hwc.
  pose proof (intersect_inside _ _ L2) as Hin.
  assert (Hd : num_dims (bbox_intersect (bb q) (bb (cmd_odsc cmd))) = num_dims (bb (cmd_odsc cmd))) by done.
  pose proof (box_card_le _ _ Hwc Hd Hin) as Hcard.
  split; cbn [entry_of src_odsc dst_odsc cut bb size]; try done.
  - intros dd Hl. split; cbn [bb size]; try done.
    + change (num_dims (bbox_intersect (bb q) (bb (cmd_odsc cmd)))) with (num_dims (bb q)). apply Hod.
    + apply L1.
    + eapply Z.le_lt_trans; [|apply (bo_fit _ _ L1)]. apply Z.mul_le_mono_nonneg_r; [|done].
      pose proof (bo_size _ _ L1). lia.
  - apply bbox_does_intersect_points; [done..|].
    exists (Bbox.lb (bbox_intersect (bb q) (bb (cmd_odsc cmd)))).
    assert (Hp : in_box (bbox_intersect (bb q) (bb (cmd_odsc cmd)))
      (Bbox.lb (bbox_intersect (bb q) (bb (cmd_odsc cmd))))) by (by apply wf_lb_in_box).
    split; [|done]. by apply bbox_intersect_points in Hp as [? _].
Qed.

(** ** The fetch list *)

(** The state while locations arrive: [cmds] are the locations taken in. *)
Record linv (q : obj_descriptor) (h : dart_rdma_handle) (l : list fetch_entry)
    (cmds : list rpc_cmd) : Prop := {
  li_next : 0 <= drh_next_tran h;
  li_fresh : forall t, t ∈ read_tran_list h -> tran_id t < drh_next_tran h;
  li_ids : NoDup (map fe_tran l);
  li_len : (length l <= length cmds)%nat;
  li_entry : forall f, f ∈ l -> exists cmd, cmd ∈ cmds /\ f = entry_of q cmd (fe_tran f)
    /\ dart_rdma_find_read_tran (fe_tran f) (read_tran_list h) = Some (tran_of cmd (fe_tran f));
  li_cover : forall cmd, cmd ∈ cmds -> exists f, f ∈ l
    /\ obj_desc_equals (dst_odsc f) (cut q cmd) = true }.

Lemma find_fresh id l : (forall t, t ∈ l -> tran_id t < id) -> dart_rdma_find_read_tran id l = None.
Proof.
  intros H. unfold dart_rdma_find_read_tran. destruct (List.find _ l) as [t|] eqn:E; [|done].
  apply List.find_some in E as [Hin%list_elem_of_In E]. apply H in Hin. apply Z.eqb_eq in E. lia.
Qed.

(** One more location with a new transaction. *)
Lemma linv_add q h l cmds cmd qte :
  linv q h l cmds -> drh_next_tran h < 2 ^ 31 - 1 -> qd_fetch_list qte = l -> qd_obj qte = q ->
  let '(h', qte') := qt_add_obj_with_cmd_d h qte (cut q cmd) cmd in
  linv q h' (qd_fetch_list qte') (cmd :: cmds) /\ drh_next_tran h' = drh_next_tran h + 1
  /\ qte' = set_fetch qte (qd_num_fetch qte) (entry_of q cmd (drh_next_tran h) :: l).
Proof.
  intros [H1 H2 H3 Hlen H4 H5] Hn El Eq. unfold qt_add_obj_with_cmd_d. cbn [dart_rdma_create_read_tran].
  set (id := drh_next_tran h).
  cbn [from_option tran_id set_trans read_tran_list drh_id drh_next_tran update_tran].
  change (drh_next_tran h) with id. rewrite Z.eqb_refl. cbn [set_src].
  rewrite El. cbn [set_fetch qd_fetch_list].
  change (mk_fe _ _ _ _ _) with (entry_of q cmd id).
  assert (Hs : s32 (id + 1) = id + 1) by (apply s32_small; unfold id in *; lia).
  rewrite Hs. split; [|done]. unfold set_trans, set_src. cbn [read_tran_list drh_id drh_next_tran tran_id remote_peer tran_dst read_ops_list].
  set (t0 := mk_tran id _ _ _ _).
  assert (Hid : forall f, f ∈ l -> fe_tran f < id).
  { intros f Hf. destruct (H4 f Hf) as (cmd' & _ & _ & Hft).
    pose proof (find_tran_id _ _ _ Hft) as E. unfold dart_rdma_find_read_tran in Hft.
    apply List.find_some in Hft as [Hin%list_elem_of_In _]. apply H2 in Hin. cbn in Hin. done. }
  split; cbn [drh_next_tran read_tran_list map].
  - unfold id in *. lia.
  - intros t [->|Ht]%elem_of_cons; [cbn; lia|]. apply H2 in Ht. unfold id in *. lia.
  - apply list.NoDup_cons. split; [|done]. intros (f & E & Hf)%list_elem_of_fmap.
    apply Hid in Hf. cbn in E. lia.
  - simpl. lia.
  - intros f [->|Hf]%elem_of_cons.
    + exists cmd. split; [by left|]. split; [done|]. unfold dart_rdma_find_read_tran.
      cbn [List.find]. change (tran_id t0) with id. change (fe_tran (entry_of q cmd id)) with id.
      by rewrite Z.eqb_refl.
    + destruct (H4 f Hf) as (cmd' & C1 & C2 & C3). exists cmd'. split; [by right|]. split; [done|].
      unfold dart_rdma_find_read_tran. cbn [List.find]. change (tran_id t0) with id.
      rewrite (proj2 (Z.eqb_neq id (fe_tran f))); [done|]. apply Hid in Hf. lia.
  - intros cmd' [->|Hc]%elem_of_cons.
    + eexists. split; [by left|]. unfold obj_desc_equals. cbn [entry_of dst_odsc].
      rewrite Z.eqb_refl. cbn [andb]. unfold bbox_equals. rewrite Nat.eqb_refl.
      apply forallb_seq. intros i _. lia.
    + destruct (H5 cmd' Hc) as (f & F1 & F2). exists f. split; [by right|done].
Qed.

(** The locations of one table. *)
Lemma add_located_spec q tab : forall h qte cmds,
  linv q h (qd_fetch_list qte) cmds -> qd_obj qte = q ->
  drh_next_tran h + Z.of_nat (length tab) < 2 ^ 31 ->
  let '(h', qte') := add_located h qte tab in
  linv q h' (qd_fetch_list qte') (rev tab ++ cmds)
  /\ drh_next_tran h' <= drh_next_tran h + Z.of_nat (length tab)
  /\ qte' = set_fetch qte (qd_num_fetch qte - Z.of_nat (length tab)
       + Z.of_nat (length (qd_fetch_list qte')) - Z.of_nat (length (qd_fetch_list qte)))
       (qd_fetch_list qte').
Proof.
  induction tab as [|cmd tab IH]; intros h qte cmds Hi Hq Hn; cbn [add_located].
  { split; [done|]. split; [simpl; lia|]. destruct qte; unfold set_fetch; cbn. f_equal. lia. }
  change (mk_odsc _ _ _ _ _ _) with (cut (qd_obj qte) cmd). rewrite Hq.
  cbn [length] in Hn. cbn [rev length].
  destruct (qt_find_obj_d qte (cut q cmd)) eqn:Ef.
  - assert (Hi' : linv q h (qd_fetch_list qte) (cmd :: cmds)).
    { destruct Hi as [H1 H2 H3 Hlen H4 H5]. split; try done; [simpl; lia|..].
      - intros f Hf. destruct (H4 f Hf) as (cmd' & C1 & C2). exists cmd'. split; [by right|done].
      - intros cmd' [->|Hc]%elem_of_cons; [|by apply H5].
        apply existsb_exists in Ef as (f & Hf%list_elem_of_In & E). eauto. }
    specialize (IH h (set_fetch qte (qd_num_fetch qte - 1) (qd_fetch_list qte)) (cmd :: cmds) Hi' Hq ltac:(lia)).
    destruct (add_located _ _ tab) as [h' qte']. destruct IH as (I1 & I2 & I3).
    rewrite <- app_assoc. split; [done|]. split; [lia|]. rewrite I3 at 1.
    unfold set_fetch. cbn. f_equal. lia.
  - pose proof (linv_add q h _ cmds cmd qte Hi ltac:(lia) eq_refl Hq) as Ha.
    destruct (qt_add_obj_with_cmd_d _ _ _ _) as [h1 qte1]. destruct Ha as (A1 & A2 & A3).
    assert (Hq1 : qd_obj qte1 = q) by (by rewrite A3).
    specialize (IH h1 qte1 (cmd :: cmds) A1 Hq1 ltac:(lia)).
    destruct (add_located h1 qte1 tab) as [h' qte']. destruct IH as (I1 & I2 & I3).
    rewrite <- app_assoc. split; [done|]. split; [lia|]. rewrite I3 at 1.
    rewrite A3. unfold set_fetch. cbn. f_equal. lia.
Qed.

(** ** Waiting for the replies *)

(** A reply as [locate_data] of a server makes it. *)
Definition reply_good (q : Z) (r : locate_reply) : Prop :=
  lr_qid r = q
  /\ (lr_rc r = -1 /\ lr_tab r = []
      \/ lr_rc r <> -1 /\ lr_num_obj r = Z.of_nat (length (lr_tab r)) /\ lr_tab r <> []).

(** What the location phase does not touch. *)
Definition same_base (c c' : dimes_client) : Prop :=
  dc_mem c' = dc_mem c /\ dc_store c' = dc_store c /\ dc_self c' = dc_self c
  /\ dc_node c' = dc_node c.

(** The query entry while [n] replies are missing. *)
Record winv (q : Z) (od : obj_descriptor) (rest : list query_tran_entry_d) (n : Z)
    (cmds : list rpc_cmd) (c : dimes_client) (qte : query_tran_entry_d) : Prop := {
  wi_qt : dc_qt c = qte :: rest;
  wi_id : qd_id qte = q;
  wi_obj : qd_obj qte = od;
  wi_left : qd_num_req_posted qte - qd_num_req_received qte = n;
  wi_flag : f_locate_data_complete qte = (n =? 0);
  wi_num : qd_num_fetch qte = Z.of_nat (length (qd_fetch_list qte));
  wi_list : linv od (dc_drh c) (qd_fetch_list qte) cmds }.

Lemma winv_find q od rest n cmds c qte : winv q od rest n cmds c qte -> qt_find_d c q = Some qte.
Proof.
  intros [H1 H2 _ _ _ _ _]. unfold qt_find_d. rewrite H1. cbn [List.find]. by rewrite H2, Z.eqb_refl.
Qed.

(** The entry after one more reply. *)
Lemma winv_count q od rest n cmds c qte num l h :
  winv q od rest n cmds c qte -> 0 < n -> num = Z.of_nat (length l) ->
  forall cmds', linv od h l cmds' ->
  let qte' := check_located (set_fetch (count_reply_d qte) num l) in
  winv q od rest (n - 1) cmds' (qt_update_d (set_memory c (dc_mem c) h) qte') qte'
  /\ same_base c (qt_update_d (set_memory c (dc_mem c) h) qte').
Proof.
  intros [H1 H2 H3 H4 H5 H6 H7] Hn Hnum cmds' Hl qte'. split; [|done].
  assert (Hchk : qte' = set_requests (set_fetch (count_reply_d qte) num l) (qd_peerid_tab qte)
    (qd_num_req_posted qte) (qd_num_req_received qte + 1) (n - 1 =? 0)).
  { unfold qte', check_located. cbn [set_fetch count_reply_d set_requests qd_num_req_received qd_num_req_posted].
    destruct (Z.eqb_spec (qd_num_req_received qte + 1) (qd_num_req_posted qte)) as [E|E].
    - by rewrite (proj2 (Z.eqb_eq (n - 1) 0)) by lia.
    - rewrite (proj2 (Z.eqb_neq (n - 1) 0)) by lia. destruct qte; cbn in *. unfold set_fetch, set_requests, count_reply_d.
      cbn. f_equal. rewrite H5. apply Z.eqb_neq. lia. }
  rewrite Hchk. split; cbn [qt_update_d set_qtd set_memory dc_qt dc_drh set_requests set_fetch count_reply_d
    qd_id qd_obj qd_num_req_posted qd_num_req_received f_locate_data_complete qd_num_fetch qd_fetch_list].
  - rewrite H1. cbn [replace_qte qd_id]. by rewrite Z.eqb_refl.
  - done.
  - done.
  - lia.
  - done.
  - done.
  - done.
Qed.

Lemma reply_step env q od rest n cmds c qte r :
  winv q od rest n cmds c qte -> 0 < n -> ce_recv_ok env = true -> reply_good q r ->
  drh_next_tran (dc_drh c) + Z.of_nat (length (lr_tab r)) < 2 ^ 31 ->
  exists c' qte', process_reply env c r = (c', 0) /\ same_base c c'
    /\ winv q od rest (n - 1) (rev (lr_tab r) ++ cmds) c' qte'
    /\ drh_next_tran (dc_drh c') <= drh_next_tran (dc_drh c) + Z.of_nat (length (lr_tab r)).
Proof.
  intros Hw Hn Hrecv [Hq Hr] Hb. unfold process_reply, dcgrpc_dimes_locate_data.
  rewrite Hq, (winv_find _ _ _ _ _ _ _ Hw). pose proof Hw as [H1 H2 H3 H4 H5 H6 H7].
  destruct Hr as [[-> ->]|(Hrc & Hnum & Hne)].
  - cbn [Z.eqb Pos.eqb rev app].
    destruct (winv_count q od rest n cmds c qte (qd_num_fetch qte) (qd_fetch_list qte) (dc_drh c) Hw Hn H6 cmds H7)
      as [W1 W2].
    eexists _, _. split; [|split; [exact W2|]; split; [exact W1|cbn; lia]].
    f_equal.
  - rewrite (proj2 (Z.eqb_neq (lr_rc r) (-1))) by done.
    assert (Hpos : 0 < lr_num_obj r) by (destruct (lr_tab r); [done|rewrite Hnum; simpl; lia]).
    rewrite (proj2 (Z.leb_gt (lr_num_obj r) 0)), Hrecv by done. cbn [negb orb].
    unfold locate_data_completion_client. rewrite Hq, (winv_find _ _ _ _ _ _ _ Hw).
    set (q1 := set_fetch (count_reply_d qte) _ _).
    pose proof (add_located_spec od (lr_tab r) (dc_drh c) q1 cmds H7 H3 Hb) as Ha.
    destruct (add_located (dc_drh c) q1 (lr_tab r)) as [h' q2]. destruct Ha as (A1 & A2 & A3).
    assert (E2 : q2 = set_fetch (count_reply_d qte) (Z.of_nat (length (qd_fetch_list q2))) (qd_fetch_list q2)).
    { rewrite A3 at 1. unfold q1. destruct qte; cbn in *. unfold set_fetch. cbn. f_equal. lia. }
    destruct (winv_count q od rest n cmds c qte _ _ h' Hw Hn eq_refl _ A1) as [W1 W2].
    rewrite <- E2 in W1, W2. eexists _, _. split; [reflexivity|]. split; [exact W2|]. split; [exact W1|].
    cbn. lia.
Qed.

Definition num_locs (replies : list locate_reply) : Z :=
  foldr (fun r x => Z.of_nat (length (lr_tab r)) + x) 0 replies.

Lemma num_locs_nonneg replies : 0 <= num_locs replies.
Proof. induction replies as [|r l IH]; simpl; lia. Qed.

Lemma same_base_trans c1 c2 c3 : same_base c1 c2 -> same_base c2 c3 -> same_base c1 c3.
Proof. unfold same_base. intuition congruence. Qed.

(** All servers answer: the wait ends with the last reply. *)
Lemma wait_spec env q od rest replies : forall c qte cmds,
  winv q od rest (Z.of_nat (length replies)) cmds c qte -> replies <> [] ->
  ce_recv_ok env = true -> Forall (reply_good q) replies ->
  drh_next_tran (dc_drh c) + num_locs replies < 2 ^ 31 ->
  exists c' qte' cmds', wait_located env c q replies = (c', wait_done) /\ same_base c c'
    /\ winv q od rest 0 cmds' c' qte'
    /\ Z.of_nat (length cmds') = Z.of_nat (length cmds) + num_locs replies
    /\ forall cmd, cmd ∈ cmds' <-> cmd ∈ cmds \/ exists r, r ∈ replies /\ cmd ∈ lr_tab r.
Proof.
  induction replies as [|r replies IH]; intros c qte cmds Hw Hne Hrecv Hg Hb; [done|].
  apply list.Forall_cons in Hg as [Hr Hg]. cbn [num_locs foldr] in Hb. fold (num_locs replies) in Hb.
  pose proof (num_locs_nonneg replies).
  destruct (reply_step env q od rest _ cmds c qte r Hw) as (c1 & q1 & E & Hs & Hw1 & Hd);
    [simpl; lia|done|done|lia|].
  replace (Z.of_nat (length (r :: replies)) - 1) with (Z.of_nat (length replies)) in Hw1 by (simpl; lia).
  cbn [wait_located]. rewrite E. cbn [Z.ltb Z.compare].
  rewrite (winv_find _ _ _ _ _ _ _ Hw1). cbn [from_option]. rewrite (wi_flag _ _ _ _ _ _ _ Hw1).
  cbn [num_locs foldr]. fold (num_locs replies).
  assert (Hcons : forall cmd, (cmd ∈ rev (lr_tab r) ++ cmds \/ exists r', r' ∈ replies /\ cmd ∈ lr_tab r')
    <-> cmd ∈ cmds \/ exists r', r' ∈ r :: replies /\ cmd ∈ lr_tab r').
  { intros cmd. setoid_rewrite elem_of_app. setoid_rewrite elem_of_cons.
    rewrite list_elem_of_In, <- in_rev, <- list_elem_of_In. split.
    - intros [[H1|H1]|(r' & H1 & H2)]; eauto.
    - intros [H1|(r' & [->|H1] & H2)]; eauto. }
  destruct replies as [|r' replies].
  - cbn [length Z.of_nat Z.eqb]. exists c1, q1, (rev (lr_tab r) ++ cmds). split; [done|]. split; [done|].
    split; [done|]. split; [rewrite length_app, length_rev; simpl; lia|].
    intros cmd. rewrite <- Hcons. split; [by left|]. intros [H1|(? & []%not_elem_of_nil & _)]. done.
  - rewrite (proj2 (Z.eqb_neq _ 0)) by (simpl; lia).
    destruct (IH c1 q1 _ Hw1) as (c2 & q2 & cmds2 & E2 & Hs2 & Hw2 & Hl2 & Hc2); [done|done|done|lia|].
    exists c2, q2, cmds2. split; [done|]. split; [by eapply same_base_trans|]. split; [done|].
    split; [rewrite Hl2, length_app, length_rev; lia|]. intros cmd. by rewrite Hc2.
Qed.

(** ** The whole get *)

(** The bytes of a location: as [piece_bytes], before the entry exists. *)
Definition loc_bytes (env : client_env) (c : dimes_client) (hs : list dart_rdma_mem_handle)
    (cmd : rpc_cmd) : option (list byte) :=
  let hdr := cmd_pad cmd in
  if enable_shmem_buffer (options (dc_mem c)) && is_peer_on_same_node (dc_node c) (owner (hp_odsc hdr)) then
    so ← find_shmem_obj (dc_node c) (shd_obj_id (hp_shmem_desc hdr));
    Some (drop (Z.to_nat (shd_offset (hp_shmem_desc hdr))) (ce_segment env (so_id so)))
  else if owner (hp_odsc hdr) =? dc_self c then
    o ← storage_lookup_obj (dc_store c) (hp_obj_id hdr) (version (hp_odsc hdr));
    if decide (base_addr (mo_hndl o) ∈ map base_addr hs)
    then mb_bytes <$> heap (dc_mem c) !! base_addr (mo_hndl o) else None
  else Some (ce_remote env (owner (hp_odsc hdr)) (fst (cmd_mr cmd))).

Lemma entry_bytes env c c' od hs q cmd f :
  same_base c c' -> f = entry_of q cmd (fe_tran f) ->
  dart_rdma_find_read_tran (fe_tran f) (read_tran_list (dc_drh c')) = Some (tran_of cmd (fe_tran f)) ->
  piece_bytes env c' od hs f = loc_bytes env c hs cmd.
Proof.
  intros (B1 & B2 & B3 & B4) -> Ht. set (id := fe_tran f) in *.
  change (fe_tran (entry_of q cmd id)) with id in Ht.
  unfold piece_bytes, on_my_node, is_myself. 
  assert (Hf : fe_read_tran (fetch_start c' od) (entry_of q cmd id) = Some (tran_of cmd id)) by exact Ht.
  rewrite Hf. cbn [mbind option_bind from_option fetch_start fs_mem]. unfold loc_bytes.
  rewrite B1, B2, B3, B4. done.
Qed.

(** A client whose location phase has ended has a fetchable list. *)
Lemma located_pieces g env c c' od hs q rest cmds qte :
  buf_ok (obj_desc od) (ObjDesc.data od) -> same_base c c' ->
  winv q (obj_desc od) rest 0 cmds c' qte ->
  (forall cmd, cmd ∈ cmds -> exists sd, loc_bytes env c hs cmd = Some sd /\ loc_ok g od cmd sd) ->
  pieces_located g env c' od hs (qd_fetch_list qte).
Proof.
  intros Hod Hs Hw Hc. destruct (wi_list _ _ _ _ _ _ _ Hw) as [L1 L2 L3 _ L4 L5]. split; [done| |].
  - intros f t Hf Ht. destruct (L4 f Hf) as (cmd & _ & _ & E). unfold fe_read_tran in Ht.
    cbn [fetch_start fs_drh] in Ht. rewrite E in Ht. by injection Ht as <-.
  - intros f Hf. destruct (L4 f Hf) as (cmd & Hcmd & Ef & E). destruct (Hc cmd Hcmd) as (sd & Hsd & Hok).
    exists sd. split; [by rewrite (entry_bytes env c c' od hs _ _ _ Hs Ef E)|].
    rewrite Ef. by apply loc_piece.
Qed.

Lemma locate_loop_ok env c hdr tab : forall posted sent,
  (forall r, r ∈ tab -> ce_msg env r = true /\ forall m, 0 <= ce_send env r m) ->
  locate_loop env c hdr tab posted sent
  = (sent ++ map (fun r => (r, dimes_locate_data_msg (dc_self c) hdr)) tab,
     posted + Z.of_nat (length tab), 0).
Proof.
  induction tab as [|r tab IH]; intros posted sent H; cbn [locate_loop].
  { simpl. by rewrite app_nil_r, Z.add_0_r. }
  destruct (H r ltac:(by left)) as [-> Hs]. cbn [negb].
  rewrite (proj2 (Z.ltb_ge _ 0)) by apply Hs. rewrite IH by (intros r' Hr; apply H; by right).
  rewrite <- app_assoc. cbn [map app length]. do 2 f_equal. lia.
Qed.

Lemma full_mono n n' p : (n <= n')%nat -> full n' p = true -> full n p = true.
Proof. intros Hn. unfold full. rewrite !forallb_seq. intros H i Hi. apply H. lia. Qed.

Lemma num_full_mono n n' polls : (n <= n')%nat -> num_full n' polls <= num_full n polls.
Proof.
  intros Hn. induction polls as [|p polls IH]; [done|]. rewrite !num_full_cons.
  destruct (full n' p) eqn:E; [rewrite (full_mono _ _ _ Hn E); lia|]. case_if; lia.
Qed.

(** A get whose servers all answer with locations of data of [g], with
    memory for the reads and an adapter that completes them. *)
Record answered (g : list Z -> Z -> option byte) (env : client_env) (c : dimes_client)
    (od : obj_data) (hs : list dart_rdma_mem_handle) (ranks : list Z) : Prop := {
  an_ranks : ranks <> [] /\ (length ranks <= S (dc_num_srv c))%nat;
  an_send : forall r, r ∈ ranks -> ce_msg env r = true /\ forall m, 0 <= ce_send env r m;
  an_num : length (ce_replies env) = length ranks;
  an_replies : Forall (reply_good (dc_next_qid c)) (ce_replies env);
  an_recv : ce_recv_ok env = true;
  an_ids : 0 <= drh_next_tran (dc_drh c)
    /\ drh_next_tran (dc_drh c) + num_locs (ce_replies env) < 2 ^ 31
    /\ forall t, t ∈ read_tran_list (dc_drh c) -> tran_id t < drh_next_tran (dc_drh c);
  an_locs : forall r cmd, r ∈ ce_replies env -> cmd ∈ lr_tab r ->
    exists sd, loc_bytes env c hs cmd = Some sd /\ loc_ok g od cmd sd;
  an_max : 0 < max_num_concurrent_rdma_read_op (options (dc_mem c));
  an_register : forall p, 0 <= me_register (ce_mem env) p;
  an_room : exists s,
    (forall r cmd, r ∈ ce_replies env -> cmd ∈ lr_tab r -> obj_data_size (cut (obj_desc od) cmd) <= s)
    /\ max_num_concurrent_rdma_read_op (options (dc_mem c)) * s + total_rdma hs
       <= rdma_buffer_size (options (dc_mem c));
  an_polls : no_poll_error (ce_polls env)
    /\ num_locs (ce_replies env) <= num_full (Z.to_nat (num_locs (ce_replies env))) (ce_polls env) }.

(** The object after a get of locations [located cmd]. *)
Definition got (g : list Z -> Z -> option byte) (od : obj_data) (located : rpc_cmd -> Prop)
    (d : list byte) : Prop :=
  length d = length (ObjDesc.data od) /\
  forall p k, in_box (bb (obj_desc od)) p -> 0 <= k < size (obj_desc od) ->
    ((exists cmd, located cmd /\ in_box (bb (cmd_odsc cmd)) p) ->
       cell_at (bb (obj_desc od)) (size (obj_desc od)) d p k = g p k)
    /\ ((forall cmd, located cmd -> ~ in_box (bb (cmd_odsc cmd)) p) ->
       cell_at (bb (obj_desc od)) (size (obj_desc od)) d p k
       = cell_at (bb (obj_desc od)) (size (obj_desc od)) (ObjDesc.data od) p k).

(** The distinct pieces cover what the locations cover. *)
Lemma filled_got g od h l cmds (P : rpc_cmd -> Prop) od' :
  buf_ok (obj_desc od) (ObjDesc.data od) -> linv (obj_desc od) h l cmds ->
  (forall cmd, cmd ∈ cmds <-> P cmd) ->
  (forall cmd, cmd ∈ cmds -> exists sd, loc_ok g od cmd sd) ->
  filled g od l od' -> got g od P (ObjDesc.data od').
Proof.
  intros Hod [_ _ _ _ L4 L5] HP Hc [F1 F2 F3 F4]. split; [done|]. intros p k Hp Hk.
  assert (Hcut : forall cmd, cmd ∈ cmds -> in_box (bb (cut (obj_desc od) cmd)) p <-> in_box (bb (cmd_odsc cmd)) p).
  { intros cmd Hcmd. destruct (Hc cmd Hcmd) as (sd & Hok). cbn [cut bb].
    rewrite (bbox_intersect_points _ _ _ (lk_dims _ _ _ _ Hok)). tauto. }
  split.
  - intros (cmd & Hcmd%HP & Hin). destruct (L5 cmd Hcmd) as (f & Hf & E).
    destruct (L4 f Hf) as (cmd' & Hcmd' & Ef & _).
    destruct (Hc cmd Hcmd) as (sd & Hok). destruct (Hc cmd' Hcmd') as (sd' & Hok').
    apply (F3 f); [done| |done|done].
    unfold obj_desc_equals in E. apply andb_true_iff in E as [_ E]. rewrite Ef in E |- *.
    cbn [entry_of dst_odsc] in E |- *.
    apply bbox_equals_true in E; [|apply bbox_intersect_wf; try apply Hod; [apply Hok'|apply Hok'|apply Hok']
      |apply bbox_intersect_wf; try apply Hod; [apply Hok|apply Hok|apply Hok]].
    rewrite E. by apply Hcut.
  - intros Hn. apply F4; [done..|]. intros f Hf Hin. destruct (L4 f Hf) as (cmd & Hcmd & Ef & _).
    apply (Hn cmd); [by apply HP|]. apply (Hcut cmd Hcmd). rewrite Ef in Hin. done.
Qed.

(** The client when the wait starts. *)
Lemma get_start env c od hs ranks c1 g :
  answered g env c od hs ranks -> same_base c c1 -> dc_drh c1 = dc_drh c ->
  let qn := mk_qted (dc_next_qid c) (obj_desc od) 0 [] [] 0 0 false false in
  let q0 := set_requests qn ranks 0 0 false in
  let c2 := set_qtd c1 (qn :: dc_qt c) (dc_num_entry c + 1) (s32 (dc_next_qid c + 1)) in
  dimes_locate_data env c2 q0
  = (set_requests q0 ranks (Z.of_nat (length ranks)) 0 false,
     map (fun r => (r, dimes_locate_data_msg (dc_self c) (mk_hdg (dc_next_qid c) (obj_desc od)))) ranks, 0)
  /\ let q1 := set_requests q0 ranks (Z.of_nat (length ranks)) 0 false in
     winv (dc_next_qid c) (obj_desc od) (dc_qt c) (Z.of_nat (length (ce_replies env))) []
       (qt_update_d c2 q1) q1.
Proof.
  intros A (_ & _ & B3 & _) Hd qn q0 c2. split.
  - unfold dimes_locate_data. cbn [set_requests qd_peerid_tab qd_id qd_obj q0 qn].
    rewrite locate_loop_ok by apply (an_send _ _ _ _ _ _ A). cbn [app Z.add].
    change (dc_self c2) with (dc_self c1). by rewrite B3.
  - cbn zeta. assert (Hpos : (0 < length (ce_replies env))%nat).
    { rewrite (an_num _ _ _ _ _ _ A). destruct (an_ranks _ _ _ _ _ _ A) as [Hne _].
      destruct ranks; [done|simpl; lia]. }
    destruct (an_ids _ _ _ _ _ _ A) as (N1 & N2 & N3).
    split; cbn [qt_update_d set_qtd dc_qt c2 dc_drh replace_qte set_requests q0 qn qd_id qd_obj
      qd_num_req_posted qd_num_req_received f_locate_data_complete qd_num_fetch qd_fetch_list]; try done.
    + by rewrite Z.eqb_refl.
    + rewrite (an_num _ _ _ _ _ _ A). lia.
    + symmetry. apply Z.eqb_neq. lia.
    + rewrite Hd. split; cbn [map length]; try done; try lia.
      * constructor.
      * by intros f ?%not_elem_of_nil.
      * by intros f ?%not_elem_of_nil.
Qed.

(** The fetch of a located list succeeds. *)
Lemma fetch_data_ok g env c c' od hs q rest cmds qte :
  buf_ok (obj_desc od) (ObjDesc.data od) -> mem_inv (dc_mem c) hs ->
  env_ok (ce_mem env) (dc_mem c) -> dereg_ok (ce_mem env) ->
  (forall hp n, me_malloc (ce_mem env) hp n <> 0) -> same_base c c' ->
  winv q (obj_desc od) rest 0 cmds c' qte ->
  (forall cmd, cmd ∈ cmds -> exists sd, loc_bytes env c hs cmd = Some sd /\ loc_ok g od cmd sd) ->
  (forall cmd, cmd ∈ cmds -> exists r, r ∈ ce_replies env /\ cmd ∈ lr_tab r) ->
  Z.of_nat (length cmds) <= num_locs (ce_replies env) ->
  0 < max_num_concurrent_rdma_read_op (options (dc_mem c)) ->
  (forall p, 0 <= me_register (ce_mem env) p) ->
  (exists s,
    (forall r cmd, r ∈ ce_replies env -> cmd ∈ lr_tab r -> obj_data_size (cut (obj_desc od) cmd) <= s)
    /\ max_num_concurrent_rdma_read_op (options (dc_mem c)) * s + total_rdma hs
       <= rdma_buffer_size (options (dc_mem c))) ->
  no_poll_error (ce_polls env)
  /\ num_locs (ce_replies env) <= num_full (Z.to_nat (num_locs (ce_replies env))) (ce_polls env) ->
  exists fs polls, dimes_fetch_data env c' qte od = Some (fetch_ok fs polls)
    /\ mem_inv (fs_mem fs) hs /\ filled g od (qd_fetch_list qte) (fs_od fs).
Proof.
  intros Hod Hm He Hd Hma Hs Hw Hloc Hin Hlen Hmax Hreg (s & Hs1 & Hs2) [Hp Hn].
  pose proof (located_pieces g env c c' od hs q rest cmds qte Hod Hs Hw Hloc) as HL.
  pose proof (wi_list _ _ _ _ _ _ _ Hw) as Hl. pose proof (li_len _ _ _ _ Hl) as Hll.
  destruct Hs as (Em & _). rewrite <- Em in *.
  destruct (fetch_data_spec g env c' od hs _ Hod Hm He Hd Hma HL qte eq_refl) as (r & E & Hr).
  assert (HR : fetch_room env c' hs (qd_fetch_list qte)).
  { split; [done|done|]. exists s. split; [|done]. intros f Hf.
    destruct (li_entry _ _ _ _ Hl f Hf) as (cmd & Hcmd & -> & _).
    destruct (Hin cmd Hcmd) as (r' & H1 & H2). by apply (Hs1 r'). }
  destruct r as [fs polls|fs err|fs].
  - exists fs, polls. split; [done|]. split; apply Hr.
  - by destruct (proj2 Hr HR).
  - pose proof (proj2 Hr HR) as Hlt.
    pose proof (num_full_mono (length (qd_fetch_list qte)) (Z.to_nat (num_locs (ce_replies env)))
      (ce_polls env) ltac:(lia)). lia.
Qed.

Lemma obj_get_spec g env c od hs c1 ranks :
  buf_ok (obj_desc od) (ObjDesc.data od) -> mem_inv (dc_mem c) hs ->
  env_ok (ce_mem env) (dc_mem c) -> dereg_ok (ce_mem env) ->
  (forall hp n, me_malloc (ce_mem env) hp n <> 0) -> ce_qte env = true ->
  hash_nodes env c (od_gdim od) (bb (obj_desc od)) = Some (c1, ranks) ->
  answered g env c od hs ranks ->
  exists c' sent od', dimes_obj_get env c od = Some (c', sent, dget_done 0 od')
    /\ sent = map (fun r => (r, dimes_locate_data_msg (dc_self c)
                                 (mk_hdg (dc_next_qid c) (obj_desc od)))) ranks
    /\ got g od (fun cmd => exists r, r ∈ ce_replies env /\ cmd ∈ lr_tab r) (ObjDesc.data od')
    /\ mem_inv (dc_mem c') hs /\ dc_qt c' = dc_qt c.
Proof.
  intros Hod Hm He Hd Hma Hq Hh A. unfold dimes_obj_get, qte_alloc_d. rewrite Hq.
  set (qn := mk_qted (dc_next_qid c) (obj_desc od) 0 [] [] 0 0 false false).
  assert (Hh2 : hash_nodes env (qt_add_d (set_qtd c (dc_qt c) (dc_num_entry c) (s32 (dc_next_qid c + 1))) qn)
      (od_gdim od) (bb (obj_desc od))
    = Some (set_qtd c1 (qn :: dc_qt c) (dc_num_entry c + 1) (s32 (dc_next_qid c + 1)), ranks)).
  { etransitivity; [apply (hash_nodes_frame _ env c _ _ (keeps_qt (qn :: dc_qt c) _ _))|]. by rewrite Hh. }
  rewrite Hh2. cbn [mbind option_bind].
  destruct (hash_nodes_same _ _ _ _ _ _ Hh) as (l & sh & ->).
  destruct (get_start env c od hs ranks (set_spaces c l sh) g A ltac:(done) eq_refl) as [El Hw].
  destruct (an_ranks _ _ _ _ _ _ A) as [Hne Hle].
  destruct ranks as [|r ranks]; [done|]. rewrite (take_ge (r :: ranks)) by done.
  fold qn in El, Hw. rewrite El. cbn [Z.ltb Z.compare]. clear El Hh2.
  set (c2 := set_qtd (set_spaces c l sh) _ _ _) in *. set (q1 := set_requests _ (r :: ranks) _ 0 false) in *.
  destruct (an_ids _ _ _ _ _ _ A) as (N1 & N2 & N3).
  assert (Hre : ce_replies env <> []).
  { intros E. pose proof (an_num _ _ _ _ _ _ A) as E2. by rewrite E in E2. }
  destruct (wait_spec env _ _ _ _ _ _ _ Hw Hre (an_recv _ _ _ _ _ _ A) (an_replies _ _ _ _ _ _ A) N2)
    as (c3 & q3 & cmds & Ew & Hs3 & Hw3 & Hlen & Hcmds).
  change (qd_id q1) with (dc_next_qid c). rewrite Ew, (winv_find _ _ _ _ _ _ _ Hw3).
  cbn [mbind option_bind].
  assert (Hs : same_base c c3) by exact Hs3. pose proof (proj1 Hs) as Em.
  assert (Hloc : forall cmd, cmd ∈ cmds -> exists sd, loc_bytes env c hs cmd = Some sd /\ loc_ok g od cmd sd).
  { intros cmd [[]%not_elem_of_nil|(r' & H1 & H2)]%Hcmds. by eapply (an_locs _ _ _ _ _ _ A). }
  destruct (fetch_data_ok g env c c3 od hs _ _ cmds q3 Hod Hm He Hd Hma Hs Hw3 Hloc)
    as (fs & polls & -> & Hmf & Hfl); [..|].
  - intros cmd [[]%not_elem_of_nil|?]%Hcmds. done.
  - simpl in Hlen. lia.
  - apply (an_max _ _ _ _ _ _ A).
  - apply (an_register _ _ _ _ _ _ A).
  - apply (an_room _ _ _ _ _ _ A).
  - apply (an_polls _ _ _ _ _ _ A).
  - cbn [mbind option_bind]. eexists _, _, (fs_od fs). split; [reflexivity|]. split; [done|].
    split; [|split; [done|]].
    + eapply filled_got; [done|apply (wi_list _ _ _ _ _ _ _ Hw3)| | |exact Hfl].
      * intros cmd. rewrite Hcmds. split; [by intros [[]%not_elem_of_nil|?]|by right].
      * intros cmd Hc. destruct (Hloc cmd Hc) as (sd & _ & ?). eauto.
    + cbn [qt_remove_d set_qtd dc_qt set_memory set_fetch qd_id].
      rewrite (wi_qt _ _ _ _ _ _ _ Hw3). cbn [remove_qte]. by rewrite Z.eqb_refl.
Qed.

(** A get whose location requests reach all servers of the box and are
    all answered, in whatever order and with however many duplicates,
    returns 0: the buffer of the caller has the value of the located data in
    every cell that some located object covers and its old bytes in the
    others, every receive buffer is released, and the query is gone. *)
Theorem dimes_obj_get_correct g env c od hs c1 ranks :
  buf_ok (obj_desc od) (ObjDesc.data od) -> mem_inv (dc_mem c) hs ->
  env_ok (ce_mem env) (dc_mem c) -> dereg_ok (ce_mem env) ->
  (forall hp n, me_malloc (ce_mem env) hp n <> 0) -> ce_qte env = true ->
  hash_nodes env c (od_gdim od) (bb (obj_desc od)) = Some (c1, ranks) ->
  answered g env c od hs ranks ->
  exists c' sent od', dimes_obj_get env c od = Some (c', sent, dget_done 0 od')
    /\ sent = map (fun r => (r, dimes_locate_data_msg (dc_self c)
                                 (mk_hdg (dc_next_qid c) (obj_desc od)))) ranks
    /\ got g od (fun cmd => exists r, r ∈ ce_replies env /\ cmd ∈ lr_tab r) (ObjDesc.data od')
    /\ mem_inv (dc_mem c') hs /\ dc_qt c' = dc_qt c.
Proof. apply obj_get_spec. Qed.

(** Two objects of clients 7 and 8; both servers know the first one. *)
Definition demo_loc (peer addr : Z) (b : bbox) : rpc_cmd :=
  mk_cmd peer (addr, 16) (mk_hdp (mk_oid peer 0) (demo_peer_desc b peer) false (mk_shd 0 0 0 0)).

Definition demo_loc7 : rpc_cmd := demo_loc 7 1000 (mk_bbox 2 [0; 0] [3; 1]).
Definition demo_loc8 : rpc_cmd := demo_loc 8 2000 (mk_bbox 2 [0; 1] [3; 3]).

Definition demo_genv : client_env :=
  mk_cenv demo_menv (fun _ => true) 100 true true true (fun _ => true) (fun _ _ => 0)
    [mk_lr 0 0 0 2 [demo_loc7; demo_loc8]; mk_lr 1 0 0 1 [demo_loc7]] 0 true
    (fun _ _ => replicate 16 Byte.x05) (fun _ => [])
    (replicate 3 (mk_poll false [true; true; true])) 0.

Definition demo_god : obj_data :=
  mk_od 0 (demo_peer_desc demo_domain (-1)) (mk_gdim 2 [4; 4]) (replicate 16 Byte.x00) 0 false.

Lemma demo_loc_ok cmd : cmd ∈ [demo_loc7; demo_loc8; demo_loc7] ->
  loc_ok (fun _ _ => Some Byte.x05) demo_god cmd (replicate 16 Byte.x05).
Proof.
  assert (Hw : forall o, wf_bbox (bb o) -> (1 <= num_dims (bb o) <= 9)%nat -> size o = 1 ->
    box_card (bb o) <= 16 -> obj_data_size o <= 16 -> buf_ok o (replicate 16 Byte.x05)).
  { intros o H1 H2 H3 H4 H5. split; try done; rewrite ?H3; [lia|]. transitivity 17; [lia|done]. }
  rewrite !elem_of_cons, elem_of_nil.
  intros [->|[->|[->|[]]]].
  all: assert (Hb : buf_ok (cmd_odsc demo_loc7) (replicate 16 Byte.x05))
    by (apply Hw; [small_box|cbn; lia|done|vm_compute; congruence|vm_compute; congruence]).
  all: assert (Hb' : buf_ok (cmd_odsc demo_loc8) (replicate 16 Byte.x05))
    by (apply Hw; [small_box|cbn; lia|done|vm_compute; congruence|vm_compute; congruence]).
  all: split; [done|done|done|by vm_compute|reflexivity|by apply agrees_const].
Qed.

Lemma demo_answered : answered (fun _ _ => Some Byte.x05) demo_genv demo_c0 demo_god [] [0; 1].
Proof.
  assert (Hin : forall r cmd, r ∈ ce_replies demo_genv -> cmd ∈ lr_tab r ->
    cmd ∈ [demo_loc7; demo_loc8; demo_loc7]).
  { intros r cmd. cbn [ce_replies demo_genv]. rewrite !elem_of_cons, elem_of_nil.
    intros [->|[->|[]]]; cbn [lr_tab]; rewrite !elem_of_cons, !elem_of_nil; tauto. }
  split.
  - split; [done|cbn; lia].
  - by intros r _.
  - done.
  - apply list.Forall_cons. split; [by split; [|right]|].
    apply list.Forall_cons. split; [by split; [|right]|constructor].
  - done.
  - split; [done|]. split; [done|]. by intros t ?%not_elem_of_nil.
  - intros r cmd Hr Hc. exists (replicate 16 Byte.x05). pose proof (Hin r cmd Hr Hc) as H.
    split; [|by apply demo_loc_ok]. revert H. rewrite !elem_of_cons, elem_of_nil.
    by intros [->|[->|[->|[]]]].
  - done.
  - by intros p.
  - exists 16. split; [|done]. intros r cmd Hr Hc. pose proof (Hin r cmd Hr Hc) as H.
    revert H. rewrite !elem_of_cons, elem_of_nil. by intros [->|[->|[->|[]]]].
  - split; [by repeat constructor|vm_compute; congruence].
Qed.

Lemma dimes_obj_get_correct_witness :
  exists c' sent od', dimes_obj_get demo_genv demo_c0 demo_god = Some (c', sent, dget_done 0 od')
    /\ got (fun _ _ => Some Byte.x05) demo_god
         (fun cmd => exists r, r ∈ ce_replies demo_genv /\ cmd ∈ lr_tab r) (ObjDesc.data od')
    /\ mem_inv (dc_mem c') [].
Proof.
  assert (Hh : exists c1, hash_nodes demo_genv demo_c0 (od_gdim demo_god) (bb (obj_desc demo_god))
    = Some (c1, [0; 1])) by (eexists; vm_compute; reflexivity).
  destruct Hh as [c1 Hh].
  destruct (dimes_obj_get_correct (fun _ _ => Some Byte.x05) demo_genv demo_c0 demo_god [] c1 [0; 1])
    as (c' & sent & od' & E & _ & Hg & Hm & _).
  - split; [small_box|cbn; lia|done|done|vm_compute; congruence].
  - apply demo_mem0_inv.
  - by apply demo_env_ok.
  - by intros p.
  - apply demo_malloc.
  - reflexivity.
  - exact Hh.
  - apply demo_answered.
  - exists c', sent, od'. split; [exact E|]. split; [exact Hg|exact Hm].
Defined.
