(* ===== verification/Conf.v ===== *)
(** * The configuration file (src/ds_gspace.c)

    [parse_conf] reads the file of the server line by line into a buffer of
    1024 bytes, [parse_line] works inside that buffer: it cuts the line at
    the first [=], squeezes the blanks out of the name in place and reads
    the value from the same buffer.  The buffer is a list of characters, a C
    string is what stands before the first NUL, and [None] stands for
    undefined behaviour: a coordinate written past the array, a number that
    does not fit the result of [atoi] or [atoll].

    [conf_ref] is the reference: the file cut into lines, each line split at
    the [=], no buffer.  [print_file] writes a file from a list of entries;
    [run_entries] says what the entries mean.  The number of the line is
    used in a message only; messages are left out. *)

From Stdlib Require Import Ascii.
From Stdlib Require String.
Import String.StringSyntax.
From stdpp Require Import sets.
From S2P Require Import Prelude Bbox Storage Sspace Server.

#[export] Instance ascii_eq_decision : EqDecision ascii := ascii_dec.

Definition str : String.string -> list ascii := String.list_ascii_of_string.

Definition NUL : ascii := "000"%char.
Definition NL : ascii := "010"%char.
Definition TAB : ascii := "009"%char.

(** ** The C library *)

(** The C string at the head of a piece of memory. *)
Fixpoint cstring (s : list ascii) : list ascii :=
  match s with
  | [] => []
  | c :: s => if decide (c = NUL) then [] else c :: cstring s
  end.

(** The C string at index [t] of a buffer. *)
Definition cstr (buff : list ascii) (t : nat) : list ascii := cstring (drop t buff).

(** At most [room] characters, up to and with the first newline. *)
Fixpoint fgets_chars (room : nat) (s : list ascii) : list ascii * list ascii :=
  match room, s with
  | O, _ => ([], s)
  | _, [] => ([], [])
  | S room, c :: s =>
      if decide (c = NL) then ([c], s)
      else let '(l, rest) := fgets_chars room s in (c :: l, rest)
  end.

(** [fgets(buff, size, fin)]: the buffer and the unread part of the file;
    [junk] are the bytes the buffer holds behind the terminator. *)
Definition fgets (size : nat) (junk s : list ascii) : option (list ascii * list ascii) :=
  match s with
  | [] => None
  | _ => let '(l, rest) := fgets_chars (size - 1) s in Some (l ++ NUL :: junk, rest)
  end.

Definition isspace (c : ascii) : bool :=
  let n := N_of_ascii c in (n =? 32)%N || ((9 <=? n)%N && (n <=? 13)%N).

Definition digit (c : ascii) : option Z :=
  let n := Z.of_N (N_of_ascii c) - 48 in if (0 <=? n) && (n <=? 9) then Some n else None.

Fixpoint skip_space (s : list ascii) : list ascii :=
  match s with
  | c :: s' => if isspace c then skip_space s' else s
  | [] => []
  end.

Fixpoint digits (acc : Z) (s : list ascii) : Z :=
  match s with
  | c :: s => match digit c with Some d => digits (acc * 10 + d) s | None => acc end
  | [] => acc
  end.

(** The number at the head of a string, as [strtol] with base 10 reads it. *)
Definition number (s : list ascii) : Z :=
  match skip_space s with
  | c :: s => if decide (c = "-"%char) then - digits 0 s
              else if decide (c = "+"%char) then digits 0 s
              else digits 0 (c :: s)
  | [] => 0
  end.

Definition atoi (s : list ascii) : option Z :=
  let v := number s in if (- 2 ^ 31 <=? v) && (v <? 2 ^ 31) then Some v else None.

Definition atoll (s : list ascii) : option Z :=
  let v := number s in if (- 2 ^ 63 <=? v) && (v <? 2 ^ 63) then Some v else None.

Definition COMMA : ascii := ","%char.

Fixpoint skip_commas (s : list ascii) : list ascii :=
  match s with
  | c :: s' => if decide (c = COMMA) then skip_commas s' else s
  | [] => []
  end.

Fixpoint take_token (s : list ascii) : list ascii * list ascii :=
  match s with
  | [] => ([], [])
  | c :: s => if decide (c = COMMA) then ([], s)
              else let '(tok, rest) := take_token s in (c :: tok, rest)
  end.

(** One call of [strtok] with the separator [,]: the token and the string
    the next call goes on with. *)
Definition strtok (s : list ascii) : option (list ascii * list ascii) :=
  match skip_commas s with
  | [] => None
  | s => Some (take_token s)
  end.

(** [strstr(line, "=")]: the index of the first [=]. *)
Fixpoint strstr_eq (s : list ascii) : option nat :=
  match s with
  | [] => None
  | c :: s => if decide (c = "="%char) then Some 0%nat else S <$> strstr_eq s
  end.

(** ** [eat_spaces] *)

Definition is_blank (c : ascii) : bool :=
  bool_decide (c = " "%char) || bool_decide (c = TAB) || bool_decide (c = NL).

(** The loop of [eat_spaces]: [t] reads, [line] writes, in one buffer.  The
    loop ends at the terminator, a buffer of [fuel] bytes needs no more
    turns. *)
Fixpoint eat_loop (fuel : nat) (buff : list ascii) (line t : nat) : list ascii * nat :=
  match fuel with
  | O => (buff, line)
  | S fuel =>
      match buff !! t with
      | None => (buff, line)
      | Some c =>
          if decide (c = NUL) then (buff, line)
          else if is_blank c then eat_loop fuel buff line (S t)
          else eat_loop fuel (<[line := c]> buff) (S line) (S t)
      end
  end.

Definition eat_spaces (buff : list ascii) : list ascii :=
  let '(buff, line) := eat_loop (length buff) buff 0 0 in <[line := NUL]> buff.

(** ** [parse_line] *)

Inductive pval := p_ndim | p_dims | p_max_versions | p_max_readers | p_lock_type | p_hash_version.

Definition options : list (list ascii * pval) :=
  [ (str "ndim", p_ndim);
    (str "dims", p_dims);
    (str "max_versions", p_max_versions);
    (str "max_readers", p_max_readers);
    (str "lock_type", p_lock_type);
    (str "hash_version", p_hash_version) ].

(** A write of an [int] through [options[i].pval]; the entry of the array
    [dims] is no [int]. *)
Definition set_pval (p : pval) (v : Z) (c : ds_config) : option ds_config :=
  let 'mk_conf nd ds mv mr lt hv := c in
  match p with
  | p_ndim => Some (mk_conf v ds mv mr lt hv)
  | p_dims => None
  | p_max_versions => Some (mk_conf nd ds v mr lt hv)
  | p_max_readers => Some (mk_conf nd ds mv v lt hv)
  | p_lock_type => Some (mk_conf nd ds mv mr v hv)
  | p_hash_version => Some (mk_conf nd ds mv mr lt v)
  end.

Definition set_dims (c : ds_config) (ds : list Z) : ds_config :=
  mk_conf (cf_ndim c) ds (cf_max_versions c) (cf_max_readers c) (cf_lock_type c) (cf_hash_version c).

(** The loop over the coordinates; [dims] is the array of BBOX_MAX_NDIM
    words, [s] the string [strtok] goes on with. *)
Fixpoint dims_loop (fuel : nat) (dims : list Z) (idx : nat) (s : list ascii) : option (list Z * nat) :=
  match fuel with
  | O => None
  | S fuel =>
      match strtok s with
      | None => Some (dims, idx)
      | Some (crd, s) =>
          if decide (idx < length dims)%nat
          then v ← atoll crd; dims_loop fuel (<[idx := u64 v]> dims) (S idx) s
          else None
      end
  end.

Definition parse_dims (s : list ascii) (c : ds_config) : option (ds_config * Z) :=
  r ← dims_loop (S (length s)) (cf_dims c) 0 s;
  let '(ds, idx) := r in
  Some (set_dims c ds, if Z.of_nat idx =? cf_ndim c then 0 else - EINVAL).

(** The loop over the options; the buffer starts with the name, the value
    is at index [t]. *)
Fixpoint option_loop (opts : list (list ascii * pval)) (buff : list ascii) (t : nat) (c : ds_config)
    : option (ds_config * Z) :=
  match opts with
  | [] => Some (c, 0)
  | (opt, p) :: opts =>
      if decide (cstr buff 0 = str "dims") then parse_dims (cstr buff t) c
      else if decide (cstr buff 0 = opt) then
        let buff := eat_spaces buff in
        v ← atoi (cstr buff t); c ← set_pval p v c; Some (c, 0)
      else option_loop opts buff t c
  end.

Definition parse_line (line : list ascii) (c : ds_config) : option (ds_config * Z) :=
  if decide (line !! 0%nat = Some "#"%char) then Some (c, 0)
  else match strstr_eq (cstr line 0) with
  | None =>
      let line := eat_spaces line in
      Some (c, if decide (length (cstr line 0) = 0%nat) then 0 else - EINVAL)
  | Some t =>
      let line := <[t := NUL]> line in
      let line := eat_spaces line in
      option_loop options line (S t) c
  end.

(** ** [parse_conf] *)

(** [junk lineno] are the bytes the earlier lines left in the buffer behind
    the terminator of line [lineno]. *)
Fixpoint parse_loop (fuel : nat) (junk : nat -> list ascii) (lineno : nat) (fin : list ascii) (c : ds_config)
    : option (ds_config * Z) :=
  match fuel with
  | O => None
  | S fuel =>
      match fgets 1024 (junk lineno) fin with
      | None => Some (c, 0)
      | Some (buff, fin) =>
          r ← parse_line buff c;
          let '(c, err) := r in
          if err <? 0 then Some (c, err) else parse_loop fuel junk (S lineno) fin c
      end
  end.

(** [fopen] gives [inl errno] or the contents of the file. *)
Definition parse_conf (junk : nat -> list ascii) (fopen : Z + list ascii) (c : ds_config)
    : option (ds_config * Z) :=
  match fopen with
  | inl errno => Some (c, - errno)
  | inr fin => parse_loop (S (length fin)) junk 1 fin c
  end.

(** ** [dsg_alloc] *)

(** The static [ds_conf] before the first call. *)
Definition ds_conf0 (max_ndim : nat) : ds_config := mk_conf 0 (replicate max_ndim 0) 0 0 0 0.

Definition conf_defaults (c : ds_config) : ds_config := mk_conf (cf_ndim c) (cf_dims c) 1 1 1 1.

(** [dsg_alloc] from the file on. *)
Definition dsg_alloc_file (env : server_env) (max_ndim : nat) (junk : nat -> list ascii)
    (fopen : Z + list ascii) (num_sp rank : nat) (cq0 : Z) : option (Z + ds_gspace) :=
  r ← parse_conf junk fopen (conf_defaults (ds_conf0 max_ndim));
  let '(c, err) := r in
  if err <? 0 then Some (inl err) else dsg_alloc env (Z.of_nat max_ndim) c num_sp rank cq0.

(** ** The reference *)

Definition strip (s : list ascii) : list ascii := List.filter (fun c => negb (is_blank c)) s.

(** The parts of a string between the commas, without the empty ones. *)
Fixpoint split_commas (s : list ascii) : list (list ascii) :=
  match s with
  | [] => [[]]
  | c :: s =>
      if decide (c = COMMA) then [] :: split_commas s
      else match split_commas s with
           | h :: tl => (c :: h) :: tl
           | [] => [[c]]
           end
  end.

Definition tokens (s : list ascii) : list (list ascii) := filter (fun t => t <> []) (split_commas s).

Fixpoint write_dims (toks : list (list ascii)) (dims : list Z) (idx : nat) : option (list Z * nat) :=
  match toks with
  | [] => Some (dims, idx)
  | tok :: toks =>
      if decide (idx < length dims)%nat
      then v ← atoll tok; write_dims toks (<[idx := u64 v]> dims) (S idx)
      else None
  end.

(** The part before the first [=] and the part behind it. *)
Fixpoint split_eq (s : list ascii) : option (list ascii * list ascii) :=
  match s with
  | [] => None
  | c :: s =>
      if decide (c = "="%char) then Some ([], s)
      else '(k, v) ← split_eq s; Some (c :: k, v)
  end.

Definition set_ref (name value : list ascii) (c : ds_config) : option (ds_config * Z) :=
  if decide (name = str "dims") then
    '(ds, n) ← write_dims (tokens value) (cf_dims c) 0;
    Some (set_dims c ds, if Z.of_nat n =? cf_ndim c then 0 else - EINVAL)
  else match list_find (fun o => o.1 = name) options with
  | Some (_, (_, p)) => v ← atoi value; c ← set_pval p v c; Some (c, 0)
  | None => Some (c, 0)
  end.

Definition line_ref (s : list ascii) (c : ds_config) : option (ds_config * Z) :=
  if decide (s !! 0%nat = Some "#"%char) then Some (c, 0)
  else match split_eq s with
  | None => Some (c, if decide (strip s = []) then 0 else - EINVAL)
  | Some (name, value) => set_ref (strip name) value c
  end.

(** The lines of a file, cut after every newline and every 1023 characters;
    [cur] is the line so far and [room] what still fits. *)
Fixpoint cut_lines (room : nat) (cur s : list ascii) : list (list ascii) :=
  match s with
  | [] => match cur with [] => [] | _ => [cur] end
  | c :: s =>
      if decide (c = NL) then (cur ++ [c]) :: cut_lines 1022 [] s
      else match room with
           | O => (cur ++ [c]) :: cut_lines 1022 [] s
           | S room => cut_lines room (cur ++ [c]) s
           end
  end.

Fixpoint run_lines (ls : list (list ascii)) (c : ds_config) : option (ds_config * Z) :=
  match ls with
  | [] => Some (c, 0)
  | l :: ls =>
      '(c, err) ← line_ref (cstring l) c;
      if err <? 0 then Some (c, err) else run_lines ls c
  end.

Definition conf_ref (fin : list ascii) (c : ds_config) : option (ds_config * Z) := run_lines (cut_lines 1022 [] fin) c.

(** ** Files as lists of entries *)

(** Decimal digits; [fuel] bounds their number. *)
Fixpoint dec (fuel : nat) (n : Z) : list ascii :=
  match fuel with
  | O => []
  | S fuel => (if n <? 10 then [] else dec fuel (n / 10)) ++ [ascii_of_N (Z.to_N (48 + n mod 10))]
  end.

Definition print_Z (v : Z) : list ascii := if v <? 0 then "-"%char :: dec 20 (- v) else dec 20 v.

Fixpoint print_dims (post : list ascii) (ds : list Z) : list ascii :=
  match ds with
  | [] => []
  | [d] => post ++ print_Z d
  | d :: ds => post ++ print_Z d ++ COMMA :: print_dims post ds
  end.

Definition opt_name (p : pval) : list ascii :=
  match p with
  | p_ndim => str "ndim"
  | p_dims => str "dims"
  | p_max_versions => str "max_versions"
  | p_max_readers => str "max_readers"
  | p_lock_type => str "lock_type"
  | p_hash_version => str "hash_version"
  end.

(** The lines of a well-formed file; [pre], [mid] and [post] are the blanks
    before the name, before the [=] and before every number. *)
Inductive entry :=
  | e_comment (text : list ascii)
  | e_blank (ws : list ascii)
  | e_int (pre mid post : list ascii) (p : pval) (v : Z)
  | e_dims (pre mid post : list ascii) (ds : list Z).

Definition print_entry (e : entry) : list ascii :=
  match e with
  | e_comment text => "#"%char :: text
  | e_blank ws => ws
  | e_int pre mid post p v => (pre ++ opt_name p ++ mid) ++ "="%char :: post ++ print_Z v
  | e_dims pre mid post ds => (pre ++ str "dims" ++ mid) ++ "="%char :: print_dims post ds
  end.

Fixpoint print_file (es : list entry) : list ascii :=
  match es with
  | [] => []
  | e :: es => print_entry e ++ NL :: print_file es
  end.

Definition blanks (s : list ascii) : bool := forallb (fun c => bool_decide (c = " "%char) || bool_decide (c = TAB)) s.

Definition entry_ok (e : entry) : bool :=
  (length (print_entry e) <=? 1022)%nat &&
  match e with
  | e_comment text => forallb (fun c => negb (bool_decide (c = NL)) && negb (bool_decide (c = NUL))) text
  | e_blank ws => blanks ws
  | e_int pre mid post p v =>
      blanks pre && blanks mid && blanks post && negb (match p with p_dims => true | _ => false end) &&
      ((- 2 ^ 31 <=? v) && (v <? 2 ^ 31))
  | e_dims pre mid post ds =>
      blanks pre && blanks mid && blanks post && negb (match ds with [] => true | _ => false end) &&
      forallb (fun d => (0 <=? d) && (d <? 2 ^ 63)) ds
  end.

(** What an entry means. *)
Definition run_entry (e : entry) (c : ds_config) : option (ds_config * Z) :=
  match e with
  | e_comment _ | e_blank _ => Some (c, 0)
  | e_int _ _ _ p v => c ← set_pval p v c; Some (c, 0)
  | e_dims _ _ _ ds =>
      if decide (length ds <= length (cf_dims c))%nat then
        Some (set_dims c (ds ++ drop (length ds) (cf_dims c)),
              if Z.of_nat (length ds) =? cf_ndim c then 0 else - EINVAL)
      else None
  end.

Fixpoint run_entries (es : list entry) (c : ds_config) : option (ds_config * Z) :=
  match es with
  | [] => Some (c, 0)
  | e :: es =>
      '(c, err) ← run_entry e c;
      if err <? 0 then Some (c, err) else run_entries es c
  end.

(** ** C strings and [eat_spaces] *)

Lemma cstring_app s rest : NUL ∉ s -> cstring (s ++ NUL :: rest) = s.
Proof.
  induction s as [|c s IH]; intros H; [done|]. apply not_elem_of_cons in H as [Hc H]. cbn.
  rewrite decide_False by done. by rewrite IH.
Qed.

Lemma cstring_split s rest : exists junk, s ++ NUL :: rest = cstring s ++ NUL :: junk.
Proof.
  induction s as [|c s [junk IH]]; [by exists rest|]. cbn. destruct (decide (c = NUL)) as [->|Hc]; [by eexists|].
  exists junk. by rewrite <- app_comm_cons, <- IH.
Qed.

Lemma cstring_clean s : NUL ∉ cstring s.
Proof.
  induction s as [|c s IH]; [apply not_elem_of_nil|]. cbn. case_decide; [apply not_elem_of_nil|].
  by apply not_elem_of_cons.
Qed.

Lemma strip_clean s : NUL ∉ s -> NUL ∉ strip s.
Proof. intros H Hin. apply H. unfold strip in Hin. rewrite list_elem_of_In in *. by apply filter_In in Hin as [? _]. Qed.

Lemma strip_idem s : strip (strip s) = strip s.
Proof.
  unfold strip. induction s as [|c s IH]; [done|]. cbn. destruct (is_blank c) eqn:E; cbn; [done|].
  rewrite E. cbn. by rewrite IH.
Qed.

(** Writing the character read moves the skipped part one place up. *)
Lemma insert_gap (w gap : list ascii) c tl :
  exists gap', <[length w := c]> (w ++ gap ++ c :: tl) = (w ++ [c]) ++ gap' ++ tl /\ length gap' = length gap.
Proof.
  rewrite insert_app_r_alt, Nat.sub_diag by lia. destruct gap as [|x gap].
  - exists []. by rewrite <- app_assoc.
  - exists (gap ++ [c]). rewrite length_app, <- !app_assoc. cbn. split; [done | lia].
Qed.

(** [w] is what the loop has written, [gap] what it has skipped: the part
    behind the terminator is never touched. *)
Lemma eat_loop_spec s : forall fuel w gap rest t, NUL ∉ s -> (length s < fuel)%nat -> t = (length w + length gap)%nat ->
  exists gap', eat_loop fuel (w ++ gap ++ s ++ NUL :: rest) (length w) t =
                 (w ++ strip s ++ gap' ++ NUL :: rest, length w + length (strip s))%nat /\
               (length (strip s) + length gap' = length gap + length s)%nat.
Proof.
  induction s as [|c s IH]; intros fuel w gap rest t Hs Hf ->.
  all: destruct fuel as [|fuel]; [cbn in Hf; lia|]; cbn [eat_loop]; rewrite app_assoc, lookup_app_r by (rewrite length_app; lia).
  all: rewrite length_app, Nat.sub_diag; cbn [lookup list_lookup app].
  - rewrite decide_True by done. exists gap. cbn. split; [|lia]. by rewrite app_assoc, Nat.add_0_r.
  - apply not_elem_of_cons in Hs as [Hc Hs]. rewrite decide_False by done. cbn in Hf.
    unfold strip. cbn [List.filter]. fold (strip s). rewrite <- app_assoc. destruct (is_blank c); cbn [negb length].
    + destruct (IH fuel w (gap ++ [c]) rest (S (length w + length gap)) Hs) as (gap' & He & Hl);
        [lia | rewrite length_app; cbn; lia|].
      rewrite <- !app_assoc in He. exists gap'. rewrite length_app in Hl. cbn in Hl. split; [exact He | lia].
    + destruct (insert_gap w gap c (s ++ NUL :: rest)) as (gap1 & -> & Hg).
      destruct (IH fuel (w ++ [c]) gap1 rest (S (length w + length gap)) Hs) as (gap' & He & Hl);
        [lia | rewrite length_app; cbn; lia|].
      rewrite length_app, Nat.add_1_r in He. exists gap'. rewrite He, <- app_assoc. split; [|lia]. f_equal. lia.
Qed.

Lemma eat_spaces_spec s rest : NUL ∉ s ->
  exists pad, eat_spaces (s ++ NUL :: rest) = strip s ++ NUL :: pad ++ rest /\
              (length (strip s) + length pad = length s)%nat.
Proof.
  intros Hs. unfold eat_spaces.
  destruct (eat_loop_spec s (length (s ++ NUL :: rest)) [] [] rest 0 Hs) as (gap & He & Hl);
    [rewrite length_app; cbn; lia | done|].
  cbn [app length Nat.add] in He, Hl. rewrite He, insert_app_r_alt, Nat.sub_diag by lia. destruct gap as [|x gap].
  - exists []. by cbn in *.
  - exists (gap ++ [NUL]). cbn in *. rewrite <- app_assoc, length_app. cbn. split; [done | lia].
Qed.

(** ** [strtok] and the coordinates *)

Lemma split_commas_cons s : exists h tl, split_commas s = h :: tl.
Proof. induction s as [|c s (h & tl & IH)]; [by do 2 eexists|]. cbn. case_decide; [|rewrite IH]; by do 2 eexists. Qed.

Lemma tokens_skip s : tokens (skip_commas s) = tokens s.
Proof.
  induction s as [|c s IH]; [done|]. cbn [skip_commas]. case_decide; [|done]. subst c. rewrite IH.
  unfold tokens. cbn [split_commas]. rewrite decide_True by done. rewrite list.filter_cons. by rewrite decide_False by auto.
Qed.

Lemma skip_commas_head s c s' : skip_commas s = c :: s' -> c <> COMMA /\ (length s' < length s)%nat.
Proof.
  induction s as [|x s IH]; [done|]. cbn. case_decide.
  - intros E. destruct (IH E). split; [done | lia].
  - intros [= <- <-]. split; [done | lia].
Qed.

Lemma take_token_spec s : forall tok rest, take_token s = (tok, rest) ->
  (split_commas s = tok :: split_commas rest \/ rest = [] /\ split_commas s = [tok]) /\ (length rest <= length s)%nat.
Proof.
  induction s as [|c s IH]; intros tok rest E; cbn in E |- *; [simplify_eq; auto|].
  case_decide; simplify_eq; [auto|].
  destruct (take_token s) as [tok' rest'] eqn:Et. simplify_eq.
  destruct (IH _ _ eq_refl) as [[-> | [-> ->]] Hl]; auto with lia.
Qed.

Lemma strtok_spec s :
  match strtok s with
  | None => tokens s = []
  | Some (tok, rest) => tokens s = tok :: tokens rest /\ (length rest < length s)%nat
  end.
Proof.
  rewrite <- tokens_skip. unfold strtok. destruct (skip_commas s) as [|c s'] eqn:E; [done|].
  apply skip_commas_head in E as [Hc Hl]. cbn [take_token]. rewrite decide_False by done.
  destruct (take_token s') as [tok rest] eqn:Et. destruct (take_token_spec _ _ _ Et) as [Hs Hr]. split; [|lia].
  unfold tokens at 1. cbn [split_commas]. rewrite decide_False by done.
  destruct Hs as [-> | [-> ->]]; rewrite list.filter_cons, decide_True by done; done.
Qed.

(** Every token is shorter than what is left, so the fuel is enough. *)
Lemma dims_loop_ref fuel : forall dims idx s, (length s < fuel)%nat ->
  dims_loop fuel dims idx s = write_dims (tokens s) dims idx.
Proof.
  induction fuel as [|fuel IH]; intros dims idx s Hf; [lia|]. cbn [dims_loop]. pose proof (strtok_spec s) as Hs.
  destruct (strtok s) as [[tok rest]|]; [|by rewrite Hs]. destruct Hs as [-> Hl]. cbn [write_dims]. case_decide; [|done].
  destruct (atoll tok); [|done]. apply IH. lia.
Qed.

Lemma write_dims_length toks : forall dims idx ds n, write_dims toks dims idx = Some (ds, n) ->
  length ds = length dims /\ (idx <= n)%nat.
Proof.
  induction toks as [|tok toks IH]; intros dims idx ds n E; cbn in E; [by simplify_eq|].
  case_decide; [|done]. destruct (atoll tok) as [v|]; [|done]. cbn in E. apply IH in E as [-> ?]. rewrite length_insert. split; [done | lia].
Qed.

(** ** The line *)

Lemma split_eq_spec s :
  match split_eq s with
  | None => strstr_eq s = None
  | Some (k, v) => strstr_eq s = Some (length k) /\ s = k ++ "="%char :: v
  end.
Proof.
  induction s as [|c s IH]; [done|]. cbn. case_decide; [by subst|].
  destruct (split_eq s) as [[k v]|]; cbn in *; [|by rewrite IH]. destruct IH as [-> ->]. done.
Qed.

(** The buffer after the line was cut and the name squeezed. *)
Definition named (name value : list ascii) (t : nat) (buff : list ascii) : Prop :=
  exists pad rest, buff = name ++ NUL :: pad ++ value ++ NUL :: rest /\ t = S (length name + length pad).

Section Named.
Context (name value : list ascii) (Hn : NUL ∉ name) (Hv : NUL ∉ value).

Lemma named_name t buff : named name value t buff -> cstr buff 0 = name.
Proof using Hn. intros (pad & rest & -> & _). by apply cstring_app. Qed.

Lemma named_value t buff : named name value t buff -> cstr buff t = value.
Proof using Hv.
  intros (pad & rest & -> & ->). unfold cstr. rewrite cons_middle, !app_assoc, <- (app_assoc _ value), drop_app_length'.
  - by apply cstring_app.
  - rewrite !length_app. cbn. lia.
Qed.

Lemma named_eat t buff : strip name = name -> named name value t buff -> named name value t (eat_spaces buff).
Proof using Hn.
  intros Hs (pad & rest & -> & ->). destruct (eat_spaces_spec name (pad ++ value ++ NUL :: rest) Hn) as (p & -> & Hl).
  rewrite Hs in *. destruct p; [|cbn in Hl; lia]. by exists pad, rest.
Qed.

Lemma option_loop_dims opts t buff c : opts <> [] -> named name value t buff -> name = str "dims" ->
  option_loop opts buff t c = parse_dims value c.
Proof using Hn Hv.
  intros Ho Hb Hd. destruct opts as [|[o p] opts]; [done|]. cbn [option_loop].
  by rewrite (named_name _ _ Hb), decide_True, (named_value _ _ Hb).
Qed.

Lemma option_loop_other opts t buff c : strip name = name -> named name value t buff -> name <> str "dims" ->
  option_loop opts buff t c =
  match list_find (fun o => o.1 = name) opts with
  | Some (_, (_, p)) => v ← atoi value; c ← set_pval p v c; Some (c, 0)
  | None => Some (c, 0)
  end.
Proof using Hn Hv.
  intros Hs Hb Hd. induction opts as [|[o p] opts IH]; [done|]. cbn [option_loop list_find fst].
  rewrite (named_name _ _ Hb), decide_False by done. destruct (decide (name = o)) as [<-|Ho].
  - rewrite decide_True by done. by rewrite (named_value _ _ (named_eat _ _ Hs Hb)).
  - rewrite (decide_False (P := o = name)) by auto. rewrite IH. by destruct (list_find _ opts) as [[? [? ?]]|].
Qed.

End Named.

Lemma strip_named k v rest : NUL ∉ k -> named (strip k) v (S (length k)) (eat_spaces (k ++ NUL :: v ++ NUL :: rest)).
Proof.
  intros Hk. destruct (eat_spaces_spec k (v ++ NUL :: rest) Hk) as (pad & -> & Hl). exists pad, rest. split; [done | lia].
Qed.

Lemma set_ref_spec k v rest c : NUL ∉ k -> NUL ∉ v ->
  option_loop options (eat_spaces (k ++ NUL :: v ++ NUL :: rest)) (S (length k)) c = set_ref (strip k) v c.
Proof.
  intros Hk Hv. pose proof (strip_named k v rest Hk) as Hb. apply strip_clean in Hk. unfold set_ref. case_decide as Hd.
  - rewrite (option_loop_dims _ _ Hk Hv _ _ _ _ (fun E : options = [] => ltac:(discriminate E)) Hb Hd). unfold parse_dims. rewrite dims_loop_ref by lia. done.
  - by apply (option_loop_other _ _ Hk Hv); [apply strip_idem|..].
Qed.

(** The work in the buffer is the work on the parts of the line, whatever
    stands behind the terminator. *)
Lemma parse_line_ref s rest c : NUL ∉ s -> parse_line (s ++ NUL :: rest) c = line_ref s c.
Proof.
  intros Hs. unfold parse_line, line_ref.
  rewrite (decide_ext ((s ++ NUL :: rest) !! 0%nat = Some "#"%char) (s !! 0%nat = Some "#"%char)) by (destruct s; done).
  case_decide; [done|]. unfold cstr at 1. rewrite drop_0, cstring_app by done. pose proof (split_eq_spec s) as He.
  destruct (split_eq s) as [[k v]|]; [destruct He as [-> ->] | rewrite He].
  - rewrite not_elem_of_app, not_elem_of_cons in Hs. destruct Hs as (Hk & _ & Hv).
    rewrite <- app_assoc, insert_app_r_alt, Nat.sub_diag by lia. by apply set_ref_spec.
  - destruct (eat_spaces_spec s rest Hs) as (pad & -> & _). unfold cstr. rewrite drop_0, cstring_app by by apply strip_clean.
    rewrite (decide_ext _ (strip s = [])) by apply length_zero_iff_nil. done.
Qed.

(** ** The file *)

Lemma fgets_chars_cut s : forall room cur l rest, s <> [] -> fgets_chars (S room) s = (l, rest) ->
  cut_lines room cur s = (cur ++ l) :: cut_lines 1022 [] rest /\ (length rest < length s)%nat.
Proof.
  induction s as [|c s IH]; intros room cur l rest Hs E; [done|]. cbn [fgets_chars cut_lines] in *.
  case_decide; [simplify_eq; cbn; auto|]. destruct (fgets_chars room s) as [l' rest'] eqn:E'. simplify_eq.
  destruct room as [|room]; [cbn in E'; simplify_eq; cbn; auto|]. destruct s as [|c' s].
  - cbn in E'. simplify_eq. cbn. destruct (cur ++ [c]) eqn:Ec; [by destruct cur|]. auto.
  - destruct (IH room (cur ++ [c]) l' rest) as [-> Hl]; [done | done|]. rewrite <- app_assoc. cbn in *. split; [done | lia].
Qed.

Lemma fgets_cut junk s :
  match fgets 1024 junk s with
  | None => s = []
  | Some (buff, rest) =>
      exists l, buff = l ++ NUL :: junk /\ cut_lines 1022 [] s = l :: cut_lines 1022 [] rest /\ (length rest < length s)%nat
  end.
Proof.
  unfold fgets. destruct s as [|c s]; [done|]. destruct (fgets_chars _ _) as [l rest] eqn:E. exists l.
  split; [done|]. by apply (fgets_chars_cut _ 1022 [] l rest).
Qed.

Lemma parse_loop_ref fuel junk : forall lineno fin c, (length fin < fuel)%nat ->
  parse_loop fuel junk lineno fin c = conf_ref fin c.
Proof.
  induction fuel as [|fuel IH]; intros lineno fin c Hf; [lia|]. cbn [parse_loop]. pose proof (fgets_cut (junk lineno) fin) as Hg.
  destruct (fgets _ _ _) as [[buff rest]|]; [|by rewrite Hg]. destruct Hg as (l & -> & Hc & Hl).
  unfold conf_ref. rewrite Hc. cbn [run_lines]. destruct (cstring_split l (junk lineno)) as [junk' ->].
  rewrite parse_line_ref by apply cstring_clean. destruct (line_ref _ c) as [[c' err]|]; [|done]. cbn.
  destruct (err <? 0); [done|]. apply IH. lia.
Qed.

(** C40: the reader of the configuration file, which cuts, squeezes and reads
    its lines in one buffer, gives for every file the result of the
    reference on the lines of the file: the same configuration, the same
    error, undefined behaviour at the same place.  The result does not
    depend on what earlier lines left in the buffer, and the loop over the
    file ends. *)
Theorem parse_conf_refines junk fin c : parse_conf junk (inr fin) c = conf_ref fin c.
Proof. apply parse_loop_ref. lia. Qed.

(** ** Printed numbers *)

Definition digits_only (s : list ascii) : Prop := Forall (fun c => is_Some (digit c)) s.

Lemma digit_char n : digit (ascii_of_N (Z.to_N (48 + n mod 10))) = Some (n mod 10).
Proof.
  pose proof (Z.mod_pos_bound n 10 ltac:(lia)). unfold digit. rewrite N_ascii_embedding by lia.
  rewrite Z2N.id by lia. replace (48 + n mod 10 - 48) with (n mod 10) by lia.
  destruct (Z.leb_spec 0 (n mod 10)), (Z.leb_spec (n mod 10) 9); cbn; [done | lia..].
Qed.

Lemma dec_digits fuel : forall n, digits_only (dec fuel n).
Proof.
  induction fuel as [|fuel IH]; intros n; [constructor|]. cbn. apply Forall_app. split.
  - case_if; [constructor | apply IH].
  - constructor; [|constructor]. rewrite digit_char. eauto.
Qed.

Lemma digits_not_elem s x : digits_only s -> digit x = None -> x ∉ s.
Proof. intros H Hx Hin. unfold digits_only in H. rewrite list.Forall_forall in H. apply H in Hin as [? ?]. congruence. Qed.

Lemma dec_cons fuel n : (0 < fuel)%nat -> exists c s, dec fuel n = c :: s.
Proof. intros. destruct fuel; [lia|]. cbn. case_if; [cbn; eauto|]. destruct (dec fuel _); cbn; eauto. Qed.

Lemma digits_dec fuel : forall n tl, 0 <= n < 10 ^ Z.of_nat fuel -> digits 0 (dec fuel n ++ tl) = digits n tl.
Proof.
  induction fuel as [|fuel IH]; intros n tl Hn; cbn [dec]; [cbn; f_equal; cbn in Hn; lia|].
  rewrite <- app_assoc. case_if; zbool; cbn [app].
  - cbn. rewrite digit_char, Z.mod_small by lia. done.
  - rewrite IH; [cbn; rewrite digit_char; f_equal; pose proof (Z.div_mod n 10); lia|].
    split; [apply Z.div_pos; lia|]. apply Z.div_lt_upper_bound; [lia|]. rewrite Nat2Z.inj_succ, Z.pow_succ_r in Hn by lia. lia.
Qed.

Lemma blanks_skip ws s : blanks ws = true -> skip_space (ws ++ s) = skip_space s.
Proof.
  induction ws as [|c ws IH]; [done|]. cbn [blanks forallb]. intros H. zbool. cbn [app skip_space].
  destruct (isspace c) eqn:E; [by apply IH|]. apply orb_true_iff in H as [H|H]; apply bool_decide_eq_true in H; by subst.
Qed.

Lemma digit_not_space c d : digit c = Some d -> isspace c = false /\ c <> "-"%char /\ c <> "+"%char.
Proof.
  intros H. split_and!; [|intros ->; done..]. unfold digit, isspace in *. destruct (_ && _) eqn:E in H; [|done].
  zbool. apply orb_false_iff. split; [apply N.eqb_neq; lia|]. apply andb_false_iff. right. apply N.leb_gt. lia.
Qed.

(** A number is read back behind blanks, up to a character that is no digit. *)
Lemma number_print ws v tl : blanks ws = true -> - 2 ^ 63 <= v < 2 ^ 63 ->
  match tl with c :: _ => digit c = None | [] => True end -> number (ws ++ print_Z v ++ tl) = v.
Proof.
  intros Hw Hv Ht. unfold number. rewrite blanks_skip by done.
  assert (Hd : forall n, digits n tl = n) by (intros; destruct tl; cbn; [done | by rewrite Ht]).
  assert (H10 : 10 ^ Z.of_nat 20 = 100000000000000000000) by done. unfold print_Z. case_if; zbool.
  - cbn [app skip_space]. replace (isspace "-"%char) with false by done. rewrite decide_True by done.
    rewrite digits_dec, Hd by lia. lia.
  - destruct (dec_cons 20 v ltac:(lia)) as (c & s & Ec). pose proof (dec_digits 20 v) as Hf. rewrite Ec in Hf.
    apply Forall_cons_1 in Hf as [[d Hc] _]. apply digit_not_space in Hc as (Hs & H1 & H2). rewrite Ec. cbn [app skip_space].
    rewrite Hs, !decide_False by done. rewrite app_comm_cons, <- Ec, digits_dec by lia. apply Hd.
Qed.

(** ** Printed lines *)

Lemma blanks_not_elem ws x : blanks ws = true -> x <> " "%char -> x <> TAB -> x ∉ ws.
Proof.
  intros H Hs Ht Hin. unfold blanks in H. rewrite forallb_forall in H. rewrite list_elem_of_In in Hin.
  apply H, orb_true_iff in Hin as [E|E]; by apply bool_decide_eq_true in E.
Qed.

Lemma print_Z_not_elem v x : digit x = None -> x <> "-"%char -> x ∉ print_Z v.
Proof.
  intros Hd Hx. pose proof (digits_not_elem _ x (dec_digits 20 (- v)) Hd).
  pose proof (digits_not_elem _ x (dec_digits 20 v) Hd). unfold print_Z. case_if; [by apply not_elem_of_cons | done].
Qed.

Lemma print_dims_not_elem post ds x : blanks post = true -> digit x = None -> x <> "-"%char -> x <> " "%char -> x <> TAB ->
  x <> COMMA -> x ∉ print_dims post ds.
Proof.
  intros Hp Hd Hm Hs Ht Hc. pose proof (blanks_not_elem _ _ Hp Hs Ht). induction ds as [|d [|d' ds] IH]; [apply not_elem_of_nil|..].
  - cbn. apply not_elem_of_app. auto using print_Z_not_elem.
  - change (print_dims post (d :: d' :: ds)) with (post ++ print_Z d ++ COMMA :: print_dims post (d' :: ds)).
    rewrite !not_elem_of_app, not_elem_of_cons. auto using print_Z_not_elem.
Qed.

Lemma cstring_id s : NUL ∉ s -> cstring s = s.
Proof.
  induction s as [|c s IH]; [done|]. intros H. apply not_elem_of_cons in H as [Hc H]. cbn. rewrite decide_False by done.
  by rewrite IH.
Qed.

Lemma split_eq_app k v : "="%char ∉ k -> split_eq (k ++ "="%char :: v) = Some (k, v).
Proof.
  induction k as [|c k IH]; [done|]. intros H. apply not_elem_of_cons in H as [Hc H]. cbn. rewrite decide_False by done.
  by rewrite IH.
Qed.

Lemma split_eq_none s : "="%char ∉ s -> split_eq s = None.
Proof.
  induction s as [|c s IH]; [done|]. intros H. apply not_elem_of_cons in H as [Hc H]. cbn. rewrite decide_False by done.
  by rewrite IH.
Qed.

Lemma strip_blanks ws s : blanks ws = true -> strip (ws ++ s) = strip s.
Proof.
  intros H. unfold strip. rewrite List.filter_app. replace (List.filter _ ws) with (@nil ascii); [done|].
  induction ws as [|c ws IH]; [done|]. cbn in *. zbool. apply orb_true_iff in H as [E|E]; apply bool_decide_eq_true in E; subst; by apply IH.
Qed.

Lemma strip_name pre p mid : blanks pre = true -> blanks mid = true -> strip (pre ++ opt_name p ++ mid) = opt_name p.
Proof.
  intros Hp Hm. rewrite strip_blanks by done. unfold strip. rewrite List.filter_app. fold (strip mid).
  rewrite <- (app_nil_r mid), strip_blanks, app_nil_r by done. by destruct p.
Qed.

Lemma cut_line l s : forall room cur, NL ∉ l -> (length l <= room)%nat ->
  cut_lines room cur (l ++ NL :: s) = (cur ++ l ++ [NL]) :: cut_lines 1022 [] s.
Proof.
  induction l as [|c l IH]; intros room cur Hl Hr; cbn [app cut_lines]; [by rewrite decide_True|].
  apply not_elem_of_cons in Hl as [Hc Hl]. rewrite decide_False by done. cbn in Hr. destruct room as [|room]; [lia|].
  rewrite IH by (done || lia). by rewrite <- app_assoc.
Qed.

(** The blanks of a setting and its name hold none of the characters the
    parser looks for. *)
Lemma name_not_elem pre p mid x : blanks pre = true -> blanks mid = true -> x ∈ [NUL; NL; "="%char; "#"%char] ->
  x ∉ pre ++ opt_name p ++ mid.
Proof.
  intros Hp Hm Hx. rewrite !not_elem_of_app.
  assert (x <> " "%char /\ x <> TAB /\ x ∉ opt_name p) as (Hs & Ht & Ho).
  { rewrite !elem_of_cons in Hx. destruct Hx as [->|[->|[->|[->|Hx]]]]; [..|by apply not_elem_of_nil in Hx].
    all: split_and!; [done | done | destruct p; by apply (bool_decide_unpack _)]. }
  auto using blanks_not_elem.
Qed.

Lemma line_ref_setting pre p mid value c : blanks pre = true -> blanks mid = true ->
  line_ref ((pre ++ opt_name p ++ mid) ++ "="%char :: value) c = set_ref (opt_name p) value c.
Proof.
  intros Hp Hm. pose proof (name_not_elem pre p mid "#"%char Hp Hm ltac:(set_solver)) as Hh.
  pose proof (name_not_elem pre p mid "="%char Hp Hm ltac:(set_solver)) as He. unfold line_ref. rewrite decide_False.
  - by rewrite split_eq_app, strip_name by done.
  - intros E. destruct (pre ++ opt_name p ++ mid) as [|x k]; [done|]. cbn in E. set_solver.
Qed.

Lemma set_ref_int p value v c : p <> p_dims -> atoi value = Some v ->
  set_ref (opt_name p) value c = (c ← set_pval p v c; Some (c, 0)).
Proof. intros Hp Ha. unfold set_ref. destruct p; try done; cbn -[set_pval atoi]; by rewrite Ha. Qed.

(** ** Printed coordinates *)

Lemma split_commas_app x s : COMMA ∉ x -> split_commas (x ++ COMMA :: s) = x :: split_commas s.
Proof.
  induction x as [|c x IH]; intros H; cbn; [done|]. apply not_elem_of_cons in H as [Hc H]. rewrite decide_False by done.
  by rewrite IH.
Qed.

Lemma split_commas_one x : COMMA ∉ x -> split_commas x = [x].
Proof.
  induction x as [|c x IH]; intros H; cbn; [done|]. apply not_elem_of_cons in H as [Hc H]. rewrite decide_False by done.
  by rewrite IH.
Qed.

Lemma print_Z_cons v s : exists c s', print_Z v ++ s = c :: s'.
Proof. unfold print_Z. case_if; [by eexists _, _|]. destruct (dec_cons 20 v ltac:(lia)) as (c & s' & ->). by eexists _, _. Qed.

Lemma token_cons post d s : post ++ print_Z d ++ s <> [].
Proof. destruct (print_Z_cons d s) as (c & s' & ->). by destruct post. Qed.

Lemma atoll_token post d tl : blanks post = true -> 0 <= d < 2 ^ 63 ->
  match tl with c :: _ => digit c = None | [] => True end -> atoll (post ++ print_Z d ++ tl) = Some d.
Proof.
  intros Hp Hd Ht. unfold atoll. rewrite number_print by (done || lia).
  by replace ((- 2 ^ 63 <=? d) && (d <? 2 ^ 63)) with true by lia.
Qed.

Lemma tokens_cons tok s : tok <> [] -> COMMA ∉ tok -> tokens (tok ++ COMMA :: s) = tok :: tokens s.
Proof. intros Hn Hc. unfold tokens. by rewrite split_commas_app, list.filter_cons, decide_True by done. Qed.

Lemma tokens_one tok : tok <> [] -> COMMA ∉ tok -> tokens tok = [tok].
Proof. intros Hn Hc. unfold tokens. by rewrite split_commas_one, list.filter_cons, decide_True by done. Qed.

Lemma write_dims_cons tok toks (p q : list Z) d : atoll tok = Some d -> 0 <= d < 2 ^ 63 ->
  write_dims (tok :: toks) (p ++ q) (length p) =
  match q with
  | [] => None
  | _ :: q => write_dims toks ((p ++ [d]) ++ q) (length (p ++ [d]))
  end.
Proof.
  intros Ha Hd. cbn [write_dims]. rewrite length_app. destruct q as [|x q]; cbn [length].
  - rewrite decide_False by lia. done.
  - rewrite decide_True by lia. rewrite Ha. cbn. rewrite u64_small, insert_app_r_alt, Nat.sub_diag by lia.
    by rewrite length_app, <- app_assoc, Nat.add_1_r.
Qed.

(** The coordinates of a printed list are written behind those that are
    there, as long as the array has room. *)
Lemma write_print_dims post ds : forall p q, ds <> [] -> blanks post = true ->
  Forall (fun d => 0 <= d < 2 ^ 63) ds ->
  write_dims (tokens (print_dims post ds ++ [NL])) (p ++ q) (length p) =
  if decide (length ds <= length q)%nat then Some (p ++ ds ++ drop (length ds) q, (length p + length ds)%nat) else None.
Proof.
  induction ds as [|d ds IH]; intros p q Hn Hp Hr; [done|]. apply list.Forall_cons in Hr as [Hd Hr].
  assert (Hc : COMMA ∉ post ++ print_Z d).
  { apply not_elem_of_app. split; [by apply blanks_not_elem | by apply print_Z_not_elem]. }
  destruct ds as [|d' ds].
  - cbn [print_dims]. rewrite tokens_one, <- app_assoc, (write_dims_cons _ _ _ _ d); [|by apply atoll_token|done| |].
    + destruct q as [|x q]; [done|]. cbn [length]. rewrite decide_True by lia. cbn. by rewrite length_app, <- app_assoc.
    + rewrite <- app_assoc. apply token_cons.
    + rewrite not_elem_of_app. split; [done|]. by apply (bool_decide_unpack _).
  - change (print_dims post (d :: d' :: ds)) with (post ++ print_Z d ++ COMMA :: print_dims post (d' :: ds)).
    rewrite (app_assoc post), <- app_assoc, <- app_comm_cons, tokens_cons;
      [|rewrite <- (app_nil_r (print_Z d)); apply token_cons|done].
    rewrite (write_dims_cons _ _ _ _ d); [|rewrite <- (app_nil_r (print_Z d)); by apply atoll_token | done].
    destruct q as [|x q]; [done|]. rewrite IH by done. cbn [length drop].
    repeat case_decide; try lia; [|done]. rewrite length_app, <- !app_assoc. cbn. do 2 f_equal. lia.
Qed.

(** ** Printed files *)

Lemma entry_no_nl e : entry_ok e = true -> (NL ∉ print_entry e) /\ (NUL ∉ print_entry e).
Proof.
  unfold entry_ok. intros H. apply andb_true_iff in H as [_ H]. destruct e as [text|ws|pre mid post p v|pre mid post ds]; zbool.
  - rewrite forallb_forall in H. cbn [print_entry]. rewrite !not_elem_of_cons, !list_elem_of_In.
    split; (split; [done|]); intros Hin; apply H in Hin; zbool; by case_bool_decide.
  - split; by apply blanks_not_elem.
  - cbn [print_entry]. rewrite !(not_elem_of_app (pre ++ _)), !not_elem_of_cons, !(not_elem_of_app post).
    split_and!; auto using blanks_not_elem, print_Z_not_elem; try done; apply name_not_elem; set_solver.
  - cbn [print_entry]. change (str "dims") with (opt_name p_dims). rewrite !(not_elem_of_app (pre ++ _)), !not_elem_of_cons.
    split_and!; auto using print_dims_not_elem; try done; apply name_not_elem; set_solver.
Qed.

Lemma line_ref_entry e c : entry_ok e = true -> line_ref (print_entry e ++ [NL]) c = run_entry e c.
Proof.
  unfold entry_ok. intros H. apply andb_true_iff in H as [_ H]. destruct e as [text|ws|pre mid post p v|pre mid post ds]; zbool.
  - done.
  - unfold line_ref. cbn [print_entry]. assert (He : "="%char ∉ ws) by by apply blanks_not_elem.
    assert (Hh : "#"%char ∉ ws) by by apply blanks_not_elem. rewrite decide_False.
    + rewrite split_eq_none, strip_blanks; [done | done|]. apply not_elem_of_app. by split; [|apply (bool_decide_unpack _)].
    + intros E. destruct ws; cbn in E; [done|]. simplify_eq.
  - cbn [print_entry]. rewrite <- app_assoc, <- app_comm_cons, <- (app_assoc post), line_ref_setting by done.
    apply set_ref_int; [by intros ->|]. unfold atoi. rewrite number_print by (done || lia).
    by replace ((- 2 ^ 31 <=? v) && (v <? 2 ^ 31)) with true by lia.
  - cbn [print_entry]. change (str "dims") with (opt_name p_dims).
    rewrite <- app_assoc, <- app_comm_cons, line_ref_setting by done.
    unfold set_ref. rewrite decide_True by done. pose proof (write_print_dims post ds [] (cf_dims c)) as Hw. cbn [app length] in Hw.
    rewrite Hw; [|by intros ->|done|].
    + cbn [run_entry app length Nat.add]. by case_decide.
    + apply list.Forall_forall. intros d Hd. rewrite forallb_forall in H0. rewrite list_elem_of_In in Hd. apply H0 in Hd. zbool. lia.
Qed.

Lemma run_lines_print es : forall c, forallb entry_ok es = true ->
  conf_ref (print_file es) c = run_entries es c.
Proof.
  unfold conf_ref. induction es as [|e es IH]; intros c H; [done|]. cbn [forallb] in H. apply andb_true_iff in H as [He H].
  destruct (entry_no_nl e He) as [Hn Hz]. pose proof He as Hl. unfold entry_ok in Hl. apply andb_true_iff in Hl as [Hl _]. zbool.
  cbn [print_file]. rewrite cut_line by done. cbn [app run_lines run_entries]. rewrite cstring_id, line_ref_entry; [|done|].
  2: { apply not_elem_of_app. by split; [|apply (bool_decide_unpack _)]. }
  destruct (run_entry e c) as [[c' err]|]; [|done]. cbn. by rewrite IH.
Qed.

(** A file written from a list of entries (comments, blank lines,
    settings with any blanks around names and numbers, lines of at most 1023
    characters) is read back as the entries say: every setting reaches its
    field in the order of the file, a list of coordinates is written into
    the array, and a list whose length is not the [ndim] read before it ends
    the reading with -EINVAL. *)
Theorem parse_conf_print junk es c : forallb entry_ok es = true ->
  parse_conf junk (inr (print_file es)) c = run_entries es c.
Proof. intros H. unfold parse_conf. rewrite parse_loop_ref by lia. by apply run_lines_print. Qed.

(** ** The start of the server *)

(** The file of a configuration with the coordinates [ds]. *)
Definition conf_entries (ds : list Z) (max_versions max_readers lock_type hash_version : Z) : list entry :=
  let sp := str " " in
  [ e_comment (str "# Config file for DataSpaces"); e_int [] sp sp p_ndim (Z.of_nat (length ds));
    e_dims [] sp [] ds; e_blank [];
    e_int [] sp sp p_max_versions max_versions; e_int [] sp sp p_max_readers max_readers;
    e_int [] sp sp p_lock_type lock_type; e_int [] sp sp p_hash_version hash_version ].

(** The array of coordinates keeps its size. *)
Lemma run_entry_dims e c c' err : run_entry e c = Some (c', err) -> length (cf_dims c') = length (cf_dims c).
Proof.
  destruct e as [| |pre mid post p v|pre mid post ds]; cbn; intros E; [by simplify_eq..| |].
  - destruct c, p; cbn in E; by simplify_eq.
  - case_decide; [|done]. simplify_eq. cbn. rewrite length_app, length_drop. lia.
Qed.

Lemma run_entries_dims es : forall c c' err, run_entries es c = Some (c', err) -> length (cf_dims c') = length (cf_dims c).
Proof.
  induction es as [|e es IH]; intros c c' err E; cbn in E; [by simplify_eq|].
  destruct (run_entry e c) as [[c1 err1]|] eqn:E1; [|done]. apply run_entry_dims in E1. cbn in E.
  destruct (err1 <? 0); [by simplify_eq|]. rewrite <- E1. by eapply IH.
Qed.

Lemma run_entries_app es1 es2 : forall c c', run_entries es1 c = Some (c', 0) ->
  run_entries (es1 ++ es2) c = run_entries es2 c'.
Proof.
  induction es1 as [|e es1 IH]; intros c c' E; cbn in E |- *; [by simplify_eq|].
  destruct (run_entry e c) as [[c1 err1]|]; [|done]. cbn in *. case_if; [simplify_eq | by apply IH].
Qed.

Section Start.
Context (env : server_env) (max_ndim : nat) (junk : nat -> list ascii) (num_sp rank : nat) (cq0 : Z).

Lemma dsg_alloc_file_spec es c err : forallb entry_ok es = true ->
  run_entries es (conf_defaults (ds_conf0 max_ndim)) = Some (c, err) ->
  dsg_alloc_file env max_ndim junk (inr (print_file es)) num_sp rank cq0 =
  if err <? 0 then Some (inl err) else dsg_alloc env (Z.of_nat max_ndim) c num_sp rank cq0.
Proof.
  intros H E. unfold dsg_alloc_file, parse_conf. rewrite parse_loop_ref by lia. rewrite run_lines_print, E by done. done.
Qed.

(** A server started from the file of a configuration is the server
    [dsg_alloc] makes of that configuration: the coordinates fill the
    beginning of the array and the other words stay zero. *)
Theorem dsg_alloc_file_starts ds mv mr lt hv : forallb entry_ok (conf_entries ds mv mr lt hv) = true ->
  (length ds <= max_ndim)%nat ->
  dsg_alloc_file env max_ndim junk (inr (print_file (conf_entries ds mv mr lt hv))) num_sp rank cq0 =
  dsg_alloc env (Z.of_nat max_ndim)
    (mk_conf (Z.of_nat (length ds)) (ds ++ replicate (max_ndim - length ds) 0) mv mr lt hv) num_sp rank cq0.
Proof.
  intros H Hl. erewrite (dsg_alloc_file_spec _ _ 0 H); [done|]. unfold conf_entries. cbn [run_entries run_entry set_pval mbind option_bind].
  cbn -[replicate drop]. rewrite length_replicate, decide_True by lia. cbn -[replicate drop]. rewrite Z.eqb_refl. cbn -[replicate drop].
  by rewrite drop_replicate.
Qed.

(** More coordinates than the array has words are written past its end
    although [dsg_alloc] refuses such an [ndim] later: the check on [ndim]
    comes after the file was read.  The behaviour of such a start is
    undefined, whatever stands before and behind the line. *)
Theorem parse_dims_overflow es1 pre mid post ds es2 c : forallb entry_ok (es1 ++ e_dims pre mid post ds :: es2) = true ->
  run_entries es1 (conf_defaults (ds_conf0 max_ndim)) = Some (c, 0) -> (max_ndim < length ds)%nat ->
  dsg_alloc_file env max_ndim junk (inr (print_file (es1 ++ e_dims pre mid post ds :: es2))) num_sp rank cq0 = None.
Proof.
  intros H E Hl. unfold dsg_alloc_file, parse_conf. rewrite parse_loop_ref by lia. rewrite run_lines_print by done.
  rewrite (run_entries_app _ _ _ _ E). apply run_entries_dims in E. cbn in E. rewrite length_replicate in E.
  cbn. rewrite decide_False by lia. done.
Qed.

End Start.

(** ** Witnesses and examples *)

Definition demo_conf_file : list entry :=
  [ e_blank (str " "); e_comment (str " default space"); e_int [] (str " ") (str " ") p_ndim 3;
    e_dims (str " ") [TAB] (str " ") [128; 64; 32]; e_int [] [] [] p_lock_type (-2);
    e_dims [] [] [] [16; 16] ].

Lemma parse_conf_print_witness :
  parse_conf (fun _ => str "left") (inr (print_file demo_conf_file)) (ds_conf0 4) =
  Some (mk_conf 3 [16; 16; 32; 0] 0 0 (-2) 0, - EINVAL).
Proof. rewrite (parse_conf_print (fun _ => str "left") demo_conf_file (ds_conf0 4)) by reflexivity. reflexivity. Defined.

Definition conf_demo_env : server_env :=
  mk_senv (fun _ => true) 64 true true true (fun _ => true) (fun _ _ => 0) (fun _ => 0).

Lemma dsg_alloc_file_starts_witness :
  exists d, dsg_alloc_file conf_demo_env 3 (fun _ => []) (inr (print_file (conf_entries [8; 4] 2 1 2 1))) 2 1 0 = Some (inr d) /\
            conf d = mk_conf 2 [8; 4; 0] 2 1 2 1.
Proof.
  rewrite (dsg_alloc_file_starts conf_demo_env 3 (fun _ => []) 2 1 0 [8; 4] 2 1 2 1) by (reflexivity || (cbn; lia)).
  eexists. split; vm_compute; reflexivity.
Defined.

Lemma parse_dims_overflow_witness :
  dsg_alloc_file conf_demo_env 3 (fun _ => []) (inr (str "ndim=5
dims=1,2,3,4,5
")) 2 1 0 = None.
Proof.
  apply (parse_dims_overflow conf_demo_env 3 (fun _ => []) 2 1 0 [e_int [] [] [] p_ndim 5] [] [] [] [1; 2; 3; 4; 5] []
           (mk_conf 5 [0; 0; 0] 1 1 1 1)); [reflexivity | reflexivity | cbn; lia].
Defined.

(** The file shipped with the program. *)
Example shipped_conf : parse_conf (fun _ => []) (inr (str "
## Config file for DataSpaces

ndim = 3 
dims = 128,128,128

# 
max_versions = 1
max_readers = 1

# Lock type: 1 - generic, 2 - custom
lock_type = 2
")) (conf_defaults (ds_conf0 3)) = Some (mk_conf 3 [128; 128; 128] 1 1 2 1, 0).
Proof. reflexivity. Qed.

(** The rest of a comment of more than 1023 characters is a line of its own. *)
Example long_comment_is_read c :
  parse_conf (fun _ => []) (inr ("#"%char :: replicate 1022 "-"%char ++ str "ndim = 7")) c =
  Some (mk_conf 7 (cf_dims c) (cf_max_versions c) (cf_max_readers c) (cf_lock_type c) (cf_hash_version c), 0).
Proof. destruct c. vm_compute. reflexivity. Qed.

(** A blank line that ends with a carriage return is refused. *)
Example crlf_blank_line_refused c : parse_conf (fun _ => []) (inr ["013"%char; NL]) c = Some (c, - EINVAL).
Proof. reflexivity. Qed.

(** A comment after a blank is refused, an unknown option is not. *)
Example indented_comment_refused c : parse_conf (fun _ => []) (inr (str " # text")) c = Some (c, - EINVAL).
Proof. reflexivity. Qed.

(** The empty coordinate behind a last comma counts: the newline is a token. *)
Example trailing_comma_refused :
  parse_conf (fun _ => []) (inr (str "ndim=2
dims=4,4,
")) (ds_conf0 3) = Some (mk_conf 2 [4; 4; 0] 0 0 0 0, - EINVAL).
Proof. reflexivity. Qed.
