(* ===== verification/RpcIb.v ===== *)
(** * Requests and messages of the InfiniBand transport (dart/ib/dart_rpc_ib.c)

    A message ([msg_buf]) is sent by a request ([rpc_request]).  Requests
    wait in the list of their peer until [peer_process_send_list] posts them
    to the adapter; the adapter reports each posted request once.  A message
    with data is sent as a command that names the request and the memory
    region of the data: the peer reads or writes the region and answers with
    the command [peer_rdma_done], which names the request again.  The counter
    [refcont] of the message counts the reports that are still to come; the
    one that brings it to 0 calls the callback of the message and frees both.

    Posting can process events: a client always does, a server when more than
    100 requests of the peer are posted.  The services of the events send
    messages themselves, so [peer_process_send_list] is re-entrant.

    The state ([rpc_server]) holds the process and what it knows of the
    adapter: [posted] are the requests the adapter has not reported yet,
    [exposed] the ones a command named and the peer has not finished,
    [polls] what the next calls of poll and of ibv_poll_cq return, [oracle]
    whether the next allocations, registrations and posts succeed.  The
    adapter reports only posted requests and a peer finishes only exposed
    ones; both in any order.  Connections are established, the messages of
    the barrier ([Barrier]) are left out, and the callback of a message frees
    it, as all callbacks of the program do.  The callers of the sending
    functions free their message when the call fails ([caller]).  [wire] and [completed] record
    the commands sent and the messages whose callback was called. *)

From stdpp Require Import gmap functions.
From S2P Require Import Prelude.

#[local] Open Scope Z_scope.

(** ** Results *)

(** What a run of the code meets: the head of an empty list taken for a
    request, an address that is not allocated, the free of a message that was
    freed before or that a request still refers to, a bound of the model. *)
Inductive fault := list_head | dangling | caller_free | no_fuel.

Inductive res (A : Type) := Done (a : A) | Fault (f : fault).
Arguments Done {A} a.
Arguments Fault {A} f.

#[export] Instance res_ret : MRet res := fun A => Done.
#[export] Instance res_bind : MBind res := fun A B f r =>
  match r with Done a => f a | Fault e => Fault e end.

Definition deref {A} (o : option A) : res A :=
  match o with Some a => Done a | None => Fault dangling end.

Definition ETIME : Z := 62.

(** ** State *)

Inductive rpc_component := dart_server | dart_client.

(** A command as it is sent: its code, the sender, the request it names and
    whether it carries a memory region. *)
Record wire_cmd := mk_wire { w_cmd : Z; w_id : Z; w_wr_id : Z; w_mr : bool }.

Record msg_buf := mk_msg {
  msg_rpc : wire_cmd; msg_data : bool; msg_size : Z; refcont : Z; msg_id : Z; msg_peer : Z }.

(** [rr_type] is 0 for a command, 1 for data. *)
Record rpc_request := mk_rr { rr_type : Z; rr_msg : Z; rr_size : Z; rpc_mr : bool; data_mr : bool }.

Record node_id := mk_node { req_list : list Z; num_req : Z; req_posted : Z; num_msg_at_peer : Z }.

(** One completion: a failed one, a command from a peer, the answer
    [peer_rdma_done] of the peer of the [i]-th exposed request, the [i]-th
    posted request, an unknown operation. *)
Inductive wc :=
  | wc_failed
  | wc_recv (from : Z) (cmd : wire_cmd)
  | wc_done (i : nat)
  | wc_posted (i : nat)
  | wc_weird (opcode : nat).

(** A call of poll: an error, no event, or per connection what
    ibv_poll_cq returns. *)
Inductive poll_result := poll_error | poll_timeout | poll_ready (batches : list (list wc)).

Record rpc_server := mk_rpc {
  rs_id : Z;
  com_type : rpc_component;
  peers : Z -> node_id;
  rrs : gmap Z rpc_request;
  msgs : gmap Z msg_buf;
  next_addr : Z;
  regions : list (Z * bool);          (* registered: request, data or command *)
  posted : list (Z * Z);              (* peer, request *)
  exposed : list Z;
  wire : list (Z * wire_cmd);
  completed : list Z;
  polls : list poll_result;
  oracle : list bool }.

Definition set_heap (s : rpc_server) (r : gmap Z rpc_request) (m : gmap Z msg_buf) (n : Z) : rpc_server :=
  mk_rpc (rs_id s) (com_type s) (peers s) r m n (regions s) (posted s) (exposed s) (wire s) (completed s) (polls s) (oracle s).
Definition set_peer (s : rpc_server) (p : Z) (n : node_id) : rpc_server :=
  mk_rpc (rs_id s) (com_type s) (<[p := n]> (peers s)) (rrs s) (msgs s) (next_addr s) (regions s) (posted s) (exposed s)
    (wire s) (completed s) (polls s) (oracle s).
Definition set_regions (s : rpc_server) (r : list (Z * bool)) : rpc_server :=
  mk_rpc (rs_id s) (com_type s) (peers s) (rrs s) (msgs s) (next_addr s) r (posted s) (exposed s) (wire s) (completed s)
    (polls s) (oracle s).
Definition set_adapter (s : rpc_server) (p : list (Z * Z)) (e : list Z) (w : list (Z * wire_cmd)) : rpc_server :=
  mk_rpc (rs_id s) (com_type s) (peers s) (rrs s) (msgs s) (next_addr s) (regions s) p e w (completed s) (polls s) (oracle s).
Definition set_completed (s : rpc_server) (c : list Z) : rpc_server :=
  mk_rpc (rs_id s) (com_type s) (peers s) (rrs s) (msgs s) (next_addr s) (regions s) (posted s) (exposed s) (wire s) c
    (polls s) (oracle s).
Definition set_script (s : rpc_server) (p : list poll_result) (o : list bool) : rpc_server :=
  mk_rpc (rs_id s) (com_type s) (peers s) (rrs s) (msgs s) (next_addr s) (regions s) (posted s) (exposed s) (wire s)
    (completed s) p o.

Definition set_rr (s : rpc_server) (a : Z) (rr : rpc_request) : rpc_server :=
  set_heap s (<[a := rr]> (rrs s)) (msgs s) (next_addr s).
Definition set_msg (s : rpc_server) (a : Z) (m : msg_buf) : rpc_server :=
  set_heap s (rrs s) (<[a := m]> (msgs s)) (next_addr s).
Definition free_rr (s : rpc_server) (a : Z) : rpc_server := set_heap s (delete a (rrs s)) (msgs s) (next_addr s).

Definition new_rr (s : rpc_server) (rr : rpc_request) : rpc_server :=
  set_heap s (<[next_addr s := rr]> (rrs s)) (msgs s) (next_addr s + 1).
Definition new_msg (s : rpc_server) (m : msg_buf) : rpc_server :=
  set_heap s (rrs s) (<[next_addr s := m]> (msgs s)) (next_addr s + 1).

(** The result of the next call for memory, a region or a post. *)
Definition draw (s : rpc_server) : bool * rpc_server :=
  match oracle s with
  | [] => (true, s)
  | b :: o => (b, set_script s (polls s) o)
  end.

Definition add_ref (m : msg_buf) (k : Z) : msg_buf :=
  mk_msg (msg_rpc m) (msg_data m) (msg_size m) (refcont m + k) (msg_id m) (msg_peer m).
Definition with_mr (m : msg_buf) (wr : Z) (mr : bool) : msg_buf :=
  mk_msg (mk_wire (w_cmd (msg_rpc m)) (w_id (msg_rpc m)) wr mr) (msg_data m) (msg_size m) (refcont m) (msg_id m) (msg_peer m).
Definition with_rpc_mr (rr : rpc_request) : rpc_request := mk_rr (rr_type rr) (rr_msg rr) (rr_size rr) true (data_mr rr).
Definition with_data_mr (rr : rpc_request) : rpc_request := mk_rr (rr_type rr) (rr_msg rr) (rr_size rr) (rpc_mr rr) true.

(** ** Posting *)

(** A failed registration returns the positive errno. *)
Definition rpc_prepare_buffers (s : rpc_server) (a : Z) : res (rpc_server * Z) :=
  rr ← deref (rrs s !! a);
  m ← deref (msgs s !! rr_msg rr);
  let s := set_msg s (rr_msg rr) (with_mr m a (w_mr (msg_rpc m))) in
  let '(ok, s) := draw s in
  if negb ok then Done (s, ENOMEM)
  else
    let s := set_regions (set_rr s a (with_data_mr rr)) (regions s ++ [(a, true)]) in
    Done (set_msg s (rr_msg rr) (add_ref (with_mr m a true) 1), 0).

(** ibv_post_send: the adapter takes the request, a command is on its way.
    A post that fails returns a positive errno, which the callers do not take
    for an error. *)
Definition post_send (s : rpc_server) (p a : Z) (rr : rpc_request) (m : msg_buf) : rpc_server :=
  let '(ok, s) := draw s in
  if negb ok then s
  else if rr_type rr =? 0 then
    set_adapter s (posted s ++ [(p, a)]) (if w_mr (msg_rpc m) then exposed s ++ [a] else exposed s)
      (wire s ++ [(p, msg_rpc m)])
  else set_adapter s (posted s ++ [(p, a)]) (exposed s) (wire s).

Definition rpc_post_request (s : rpc_server) (p a : Z) : res (rpc_server * Z) :=
  rr ← deref (rrs s !! a);
  m ← deref (msgs s !! rr_msg rr);
  let '(ok, s) := draw s in
  if negb ok then Done (s, - ENOMEM)
  else
    let s :=
      if rr_type rr =? 0 then set_regions (set_rr s a (with_rpc_mr rr)) (regions s ++ [(a, false)])
      else set_regions (set_rr s a (with_data_mr rr)) (regions s ++ [(a, true)]) in
    let s := post_send s p a rr m in
    Done (set_msg s (rr_msg rr) (add_ref m 1), 0).

Definition rpc_fetch_request (s : rpc_server) (p a : Z) : res (rpc_server * Z) :=
  rr ← deref (rrs s !! a);
  m ← deref (msgs s !! rr_msg rr);
  if rr_type rr =? 1 then
    let '(ok, s) := draw s in
    if negb ok then Done (s, - ENOMEM)
    else
      let s := set_regions (set_rr s a (with_data_mr rr)) (regions s ++ [(a, true)]) in
      let s := post_send s p a rr m in
      Done (set_msg s (rr_msg rr) (add_ref m 1), 0)
  else Done (set_msg s (rr_msg rr) (add_ref m 1), 0).

(** ** Services and events *)

Definition peer_rdma_done : Z := 12.

(** What the caller of a sending function takes for a failure, any error
    ([if (err == 0) return 0;]) or a negative one ([if (err < 0)]), and
    whether it then frees the message: most callers do. *)
Record caller := mk_caller { c_any : bool; c_frees : bool }.

Definition caller_fails (c : caller) (err : Z) : bool := if c_any c then negb (err =? 0) else err <? 0.

(** What a service does with the transport: messages with and without data
    ([rpc_send] and [rpc_receive]), and the transfer of the region of a
    command ([rpc_send_direct] and [rpc_receive_direct]). *)
Inductive action :=
  | act_send (c : caller) (p code : Z) (data : option Z)
  | act_send_direct (c : caller) (p : Z) (cmd : wire_cmd) (size : Z)
  | act_receive_direct (c : caller) (p : Z) (cmd : wire_cmd) (size : Z).

Definition act_caller (act : action) : caller :=
  match act with act_send c _ _ _ | act_send_direct c _ _ _ | act_receive_direct c _ _ _ => c end.

Inductive rpc_service := svc_cleanup | svc_handler (f : Z -> wire_cmd -> list action).

Definition rpc_add_service (rpc_commands : list (Z * rpc_service)) (code : Z) (f : rpc_service) : list (Z * rpc_service) :=
  rpc_commands ++ [(code, f)].

(** The table of a process: [rpc_server_init] adds the first service. *)
Definition rpc_commands_of (handlers : list (Z * (Z -> wire_cmd -> list action))) : list (Z * rpc_service) :=
  fold_left (fun t h => rpc_add_service t h.1 (svc_handler h.2)) handlers (rpc_add_service [] peer_rdma_done svc_cleanup).

Section Events.
Context (rpc_commands : list (Z * rpc_service)) (sizeof_cmd garbage : Z).

Definition find_service (cmd : wire_cmd) : option rpc_service :=
  snd <$> List.find (fun e => w_cmd cmd =? fst e) rpc_commands.

(** *** Bounds on the work that is left *)

Definition wc_weight (w : wc) : nat :=
  match w with
  | wc_recv from cmd => match find_service cmd with Some (svc_handler f) => length (f from cmd) | _ => 0 end
  | wc_done _ | wc_posted _ => 1
  | _ => 0
  end.
Definition poll_weight (p : poll_result) : nat :=
  match p with poll_ready bs => sum_list (wc_weight <$> mjoin bs) | _ => 0 end.
Definition weight (s : rpc_server) : nat := sum_list (poll_weight <$> polls s).

(** *** The functions that process events, for a given depth of nesting *)

Section Nested.
Context (process_event : rpc_server -> res (rpc_server * Z)).

(** [for (i = 0; i < 10; i++)] of [peer_process_send_list]. *)
Fixpoint event_rounds (n : nat) (s : rpc_server) : res (rpc_server * Z) :=
  match n with
  | O => Done (s, 0)
  | S n =>
      '(s, err) ← process_event s;
      if negb (err =? 0) && negb (err =? - ETIME) then Done (s, err) else event_rounds n s
  end.

Definition busy (s : rpc_server) (p : Z) : bool :=
  match com_type s with dart_client => true | dart_server => 100 <? req_posted (peers s p) end.

Definition dequeue (s : rpc_server) (p : Z) : rpc_server :=
  let n := peers s p in
  set_peer s p (mk_node (tail (req_list n)) (num_req n - 1) (req_posted n) (num_msg_at_peer n - 1)).

Definition post_head (s : rpc_server) (p a : Z) : res (rpc_server * Z) :=
  rr ← deref (rrs s !! a);
  m ← deref (msgs s !! rr_msg rr);
  '(s, err) ← (if msg_data m then rpc_prepare_buffers s a else Done (s, 0));
  if negb (err =? 0) then Done (s, err) else rpc_post_request s p a.

(** The requests of the peer, from the head of its list.  One unit of fuel
    per turn of the loop. *)
Fixpoint send_list_loop (fuel : nat) (s : rpc_server) (p : Z) : res (rpc_server * Z) :=
  match req_list (peers s p), fuel with
  | [], _ => Done (s, 0)
  | _ :: _, O => Fault no_fuel
  | _ :: _, S fuel =>
      '(s, err) ← (if busy s p then event_rounds 10 s else Done (s, 0));
      if negb (err =? 0) then Done (s, err)
      else
        match req_list (peers s p) with
        | [] => Fault list_head
        | a :: _ =>
            '(s, err) ← post_head s p a;
            if negb (err =? 0) then Done (s, err) else send_list_loop fuel (dequeue s p) p
        end
  end.

Definition peer_process_send_list (s : rpc_server) (p : Z) : res (rpc_server * Z) :=
  send_list_loop (length (req_list (peers s p)) + weight s) s p.

Definition rpc_send (s : rpc_server) (p m : Z) : res (rpc_server * Z) :=
  let '(ok, s) := draw s in
  if negb ok then Done (s, - ENOMEM)
  else
    let a := next_addr s in
    let s := new_rr s (mk_rr 0 m sizeof_cmd false false) in
    let n := peers s p in
    let s := set_peer s p (mk_node (req_list n ++ [a]) (num_req n + 1) (req_posted n + 1) (num_msg_at_peer n)) in
    peer_process_send_list s p.

Definition count_posted (s : rpc_server) (p k : Z) : rpc_server :=
  let n := peers s p in set_peer s p (mk_node (req_list n) (num_req n) (req_posted n + k) (num_msg_at_peer n)).

Definition rpc_send_direct (s : rpc_server) (p m : Z) : res (rpc_server * Z) :=
  msg ← deref (msgs s !! m);
  let '(ok, s) := draw s in
  if negb ok then Done (s, - ENOMEM)
  else
    let a := next_addr s in
    let s := count_posted (new_rr s (mk_rr 1 m (msg_size msg) false false)) p 1 in
    '(s, err) ← rpc_post_request s p a;
    if negb (err =? 0) then Done (free_rr s a, err) else Done (s, 0).

Definition rpc_receive_direct (s : rpc_server) (p m : Z) : res (rpc_server * Z) :=
  msg ← deref (msgs s !! m);
  let '(ok, s) := draw s in
  if negb ok then Done (s, - ENOMEM)
  else
    let a := next_addr s in
    let s := count_posted (new_rr s (mk_rr 1 m (msg_size msg) false false)) p 1 in
    rpc_fetch_request s p a.

(** A zeroed message; [msg_rpc] belongs to the same block. *)
Definition msg_buf_alloc (s : rpc_server) (m : msg_buf) : rpc_server * option Z :=
  let '(ok, s) := draw s in
  if ok then (new_msg s m, Some (next_addr s)) else (s, None).

Definition dereg_mr (s : rpc_server) (r : Z * bool) : res rpc_server :=
  '(i, _) ← deref (list_find (eq r) (regions s)); Done (set_regions s (delete i (regions s))).

(** The last part of [rpc_cb_req_completion], from [if(rr->msg)]. *)
Definition release_request (s : rpc_server) (a : Z) : res (rpc_server * Z) :=
  rr ← deref (rrs s !! a);
  m ← deref (msgs s !! rr_msg rr);
  if negb (refcont m =? 0) then Done (s, 0)
  else
    s ← (if rpc_mr rr then dereg_mr s (a, false) else Done s);
    s ← (if data_mr rr then dereg_mr s (a, true) else Done s);
    let s := set_completed (set_heap s (rrs s) (delete (rr_msg rr) (msgs s)) (next_addr s)) (completed s ++ [rr_msg rr]) in
    Done (free_rr s a, 0).

(** When the message cannot be allocated the code returns a variable it did
    not set. *)
Definition rpc_cb_req_completion (s : rpc_server) (a : Z) : res (rpc_server * Z) :=
  rr ← deref (rrs s !! a);
  m ← deref (msgs s !! rr_msg rr);
  let s := set_msg s (rr_msg rr) (add_ref m (-1)) in
  if rr_type rr =? 1 then
    let done := mk_msg (mk_wire peer_rdma_done (rs_id s) (msg_id m) false) false 0 0 0 (msg_peer m) in
    match msg_buf_alloc s done with
    | (s, None) => Done (s, garbage)
    | (s, Some d) =>
        '(s, err) ← rpc_send s (msg_peer m) d;
        if err <? 0 then Done (s, err) else release_request s a
    end
  else release_request s a.

Definition rpc_cb_cleanup (s : rpc_server) (cmd : wire_cmd) : res (rpc_server * Z) :=
  rpc_cb_req_completion s (w_wr_id cmd).

(** What the caller does with its message [m] when the function returns [err].
    The free of a message that is not allocated any more, or that the request
    of a list, of the adapter or of a peer still refers to, is a fault here,
    not only at the later use. *)
Definition caller_returns (c : caller) (m : Z) (r : res (rpc_server * Z)) : res (rpc_server * Z) :=
  '(s, err) ← r;
  if caller_fails c err && c_frees c then
    if bool_decide (is_Some (msgs s !! m) /\ map_Forall (fun _ rr => rr_msg rr <> m) (rrs s))
    then Done (set_heap s (rrs s) (delete m (msgs s)) (next_addr s), err)
    else Fault caller_free
  else Done (s, err).

Definition perform (s : rpc_server) (act : action) : res (rpc_server * Z) :=
  match act with
  | act_send c p code data =>
      let m := mk_msg (mk_wire code (rs_id s) 0 false) (bool_decide (is_Some data)) (default 0 data) 0 0 p in
      match msg_buf_alloc s m with
      | (s, None) => Done (s, - ENOMEM)
      | (s, Some m) => caller_returns c m (rpc_send s p m)
      end
  | act_send_direct c p cmd size =>
      match msg_buf_alloc s (mk_msg (mk_wire 0 0 0 false) true size 0 (w_wr_id cmd) p) with
      | (s, None) => Done (s, - ENOMEM)
      | (s, Some m) => caller_returns c m (rpc_send_direct s p m)
      end
  | act_receive_direct c p cmd size =>
      match msg_buf_alloc s (mk_msg (mk_wire 0 0 0 false) true size 0 (w_wr_id cmd) p) with
      | (s, None) => Done (s, - ENOMEM)
      | (s, Some m) => caller_returns c m (rpc_receive_direct s p m)
      end
  end.

(** A service returns at the first failure. *)
Fixpoint perform_all (s : rpc_server) (acts : list action) : res (rpc_server * Z) :=
  match acts with
  | [] => Done (s, 0)
  | act :: acts =>
      '(s, err) ← perform s act;
      if caller_fails (act_caller act) err then Done (s, err) else perform_all s acts
  end.

Definition rpc_cb_decode (s : rpc_server) (from : Z) (cmd : wire_cmd) : res (rpc_server * Z) :=
  match find_service cmd with
  | Some svc_cleanup => rpc_cb_cleanup s cmd
  | Some (svc_handler f) => perform_all s (f from cmd)
  | None => Done (s, - EINVAL)
  end.

(** One completion of [rpc_process]: [Some err] when the function returns.
    The result of [rpc_cb_decode] is not used. *)
Definition process_wc (s : rpc_server) (w : wc) : res (rpc_server * option Z) :=
  match w with
  | wc_failed => Done (s, Some 0)
  | wc_recv from cmd =>
      if w_cmd cmd =? peer_rdma_done then Done (s, None)
      else '(s, _) ← rpc_cb_decode s from cmd; Done (s, None)
  | wc_done i =>
      match exposed s !! i with
      | None => Done (s, None)
      | Some a =>
          let s := set_adapter s (posted s) (delete i (exposed s)) (wire s) in
          '(s, _) ← rpc_cb_decode s 0 (mk_wire peer_rdma_done 0 a false); Done (s, None)
      end
  | wc_posted i =>
      match posted s !! i with
      | None => Done (s, None)
      | Some (p, a) =>
          let s := count_posted (set_adapter s (delete i (posted s)) (exposed s) (wire s)) p (-1) in
          '(s, err) ← rpc_cb_req_completion s a;
          Done (s, if err =? 0 then None else Some err)
      end
  | wc_weird opcode => Done (s, Some (Z.of_nat opcode))
  end.

Fixpoint rpc_process (s : rpc_server) (batch : list wc) : res (rpc_server * Z) :=
  match batch with
  | [] => Done (s, 0)
  | w :: batch =>
      '(s, r) ← process_wc s w;
      match r with Some err => Done (s, err) | None => rpc_process s batch end
  end.

Fixpoint process_batches (s : rpc_server) (batches : list (list wc)) : res (rpc_server * Z) :=
  match batches with
  | [] => Done (s, 0)
  | b :: batches =>
      '(s, err) ← rpc_process s b;
      if err <? 0 then Done (s, err) else process_batches s batches
  end.

(** [__process_event] *)
Definition process_event_body (s : rpc_server) : res (rpc_server * Z) :=
  match polls s with
  | [] => Done (s, - ETIME)
  | p :: ps =>
      let s := set_script s ps (oracle s) in
      match p with
      | poll_error => Done (s, 0)
      | poll_timeout => Done (s, - ETIME)
      | poll_ready batches => process_batches s batches
      end
  end.

End Nested.

(** Events are processed inside the processing of events at most as often as
    there are polls left. *)
Fixpoint rpc_process_event_with_timeout (depth : nat) (s : rpc_server) : res (rpc_server * Z) :=
  match depth with
  | O => Fault no_fuel
  | S depth => process_event_body (rpc_process_event_with_timeout depth) s
  end.

Definition rpc_process_event (depth : nat) (s : rpc_server) : res (rpc_server * Z) :=
  '(s, err) ← rpc_process_event_with_timeout depth s;
  Done (s, if err =? - ETIME then 0 else err).

(** *** The life of a process: its own actions and the processing of events *)

Inductive rpc_op := op_action (act : action) | op_events.

Definition rpc_step (s : rpc_server) (o : rpc_op) : res (rpc_server * Z) :=
  match o with
  | op_action act => perform (rpc_process_event_with_timeout (S (length (polls s)))) s act
  | op_events => rpc_process_event (S (length (polls s))) s
  end.

Fixpoint rpc_run (s : rpc_server) (ops : list rpc_op) : res (rpc_server * list Z) :=
  match ops with
  | [] => Done (s, [])
  | o :: ops =>
      '(s, err) ← rpc_step s o;
      '(s, errs) ← rpc_run s ops;
      Done (s, err :: errs)
  end.

End Events.

Definition rpc_start (id : Z) (ct : rpc_component) (ps : list poll_result) (o : list bool) : rpc_server :=
  mk_rpc id ct (fun _ => mk_node [] 0 0 0) ∅ ∅ 0 [] [] [] [] [] ps o.

(** ** Counting occurrences *)

Section Count.
Context {A : Type} `{EqDecision A}.

Definition cnt (x : A) (l : list A) : nat := length (filter (x =.) l).

Lemma cnt_nil x : cnt x [] = 0%nat.
Proof. done. Qed.

Lemma cnt_cons x y l : cnt x (y :: l) = ((if decide (x = y) then 1 else 0) + cnt x l)%nat.
Proof. unfold cnt. rewrite list.filter_cons. by destruct (decide (x = y)). Qed.

Lemma cnt_app x l k : cnt x (l ++ k) = (cnt x l + cnt x k)%nat.
Proof. induction l as [|y l IH]; [done|]. cbn [app]. rewrite !cnt_cons, IH. lia. Qed.

Lemma cnt_elem x l : (0 < cnt x l)%nat <-> x ∈ l.
Proof.
  induction l as [|y l IH]; [split; [cbn; lia|by intros ?%not_elem_of_nil]|]. rewrite cnt_cons, elem_of_cons.
  destruct (decide (x = y)) as [->|Hn]; [split; [by left|lia]|]. rewrite Nat.add_0_l, IH. split; [by right|by intros [?|?]].
Qed.

Lemma cnt_delete x y l i : l !! i = Some y -> cnt x l = ((if decide (x = y) then 1 else 0) + cnt x (delete i l))%nat.
Proof.
  intros (l1 & l2 & -> & ->)%delete_split. rewrite !cnt_app, cnt_cons. lia.
Qed.

Lemma cnt_zero_nil l : (forall x, cnt x l = 0%nat) -> l = [].
Proof. destruct l as [|x l]; [done|]. intros H. specialize (H x). rewrite cnt_cons, decide_True in H by done. lia. Qed.

End Count.

(** ** The invariant *)

Section Invariant.
Context (handlers : list (Z * (Z -> wire_cmd -> list action))) (sizeof_cmd garbage : Z) (clean : bool).

#[local] Abbreviation rpc_commands := (rpc_commands_of handlers).
#[local] Abbreviation work := (weight rpc_commands).

(** How often a request is with the adapter, exposed, in the list of a peer;
    how often it has a region. *)
Definition n_posted (s : rpc_server) (a : Z) : nat := cnt a (snd <$> posted s).
Definition n_exposed (s : rpc_server) (a : Z) : nat := cnt a (exposed s).
Definition n_queued (s : rpc_server) (p a : Z) : nat := cnt a (req_list (peers s p)).
Definition n_region (s : rpc_server) (a : Z) (b : bool) : nat := cnt (a, b) (regions s).

Definition flag (rr : rpc_request) (b : bool) : bool := if b then data_mr rr else rpc_mr rr.

(** A request that is allocated.  [clean] says that no call of the adapter or
    of the allocator has failed. *)
Record live_ok (s : rpc_server) (a : Z) (rr : rpc_request) (m : msg_buf) : Prop := {
  lo_once : (n_posted s a <= 1 /\ n_exposed s a <= 1)%nat;
  lo_queue : forall p, (n_queued s p a <= 1 /\
    (n_queued s p a = 1 -> n_posted s a = 0 /\ n_exposed s a = 0 /\ forall q, q <> p -> n_queued s q a = 0))%nat;
  lo_ref : Z.of_nat (n_posted s a + n_exposed s a) <= refcont m;
  lo_exact : clean = true -> refcont m = Z.of_nat (n_posted s a + n_exposed s a);
  lo_region : forall b, flag rr b = true -> (1 <= n_region s a b)%nat;
  lo_regions : clean = true -> forall b, n_region s a b = if flag rr b then 1%nat else 0%nat;
  lo_unprepared : clean = true -> forall p, (n_queued s p a = 1)%nat -> forall b, flag rr b = false;
  lo_type : forall p, (n_queued s p a = 1)%nat -> rr_type rr = 0;
  lo_mr : w_mr (msg_rpc m) = true -> msg_data m = true;
  lo_direct : rr_type rr = 1 -> n_exposed s a = 0%nat }.

(** An address without a request. *)
Record dead_ok (s : rpc_server) (a : Z) : Prop := {
  do_none : (n_posted s a = 0 /\ n_exposed s a = 0 /\ forall p, n_queued s p a = 0)%nat;
  do_region : clean = true -> forall b, n_region s a b = 0%nat }.

Definition request_ok (s : rpc_server) (a : Z) : Prop :=
  match rrs s !! a with
  | Some rr => exists m, msgs s !! rr_msg rr = Some m /\ live_ok s a rr m
  | None => dead_ok s a
  end.

Record good (s : rpc_server) : Prop := {
  gd_req : forall a, request_ok s a;
  gd_lt : forall a, is_Some (rrs s !! a) \/ is_Some (msgs s !! a) \/ a ∈ completed s -> a < next_addr s;
  gd_inj : forall a b rr rr', rrs s !! a = Some rr -> rrs s !! b = Some rr' -> rr_msg rr = rr_msg rr' -> a = b;
  gd_done : NoDup (completed s) /\ forall m, m ∈ completed s -> msgs s !! m = None;
  gd_clean : clean = true -> oracle s = [] }.

(** Requests nothing refers to any more: only the call that is completing
    such a request touches it. *)
Definition idle (s : rpc_server) (a : Z) : Prop :=
  is_Some (rrs s !! a) /\ n_posted s a = 0%nat /\ n_exposed s a = 0%nat /\ forall p, n_queued s p a = 0%nat.

Record same_at (s s' : rpc_server) (a : Z) : Prop := {
  sa_rr : rrs s' !! a = rrs s !! a;
  sa_msg : forall rr, rrs s !! a = Some rr -> msgs s' !! rr_msg rr = msgs s !! rr_msg rr;
  sa_posted : n_posted s' a = n_posted s a;
  sa_exposed : n_exposed s' a = n_exposed s a;
  sa_queued : forall p, n_queued s' p a = n_queued s p a;
  sa_region : forall b, n_region s' a b = n_region s a b }.

(** Messages without a request. *)
Definition loose (s : rpc_server) (m : Z) : Prop :=
  is_Some (msgs s !! m) /\ forall a rr, rrs s !! a = Some rr -> rr_msg rr <> m.

(** What every call does at most; [k] bounds the requests it adds to a list. *)
Record post (k : nat) (s s' : rpc_server) : Prop := {
  po_good : good s';
  po_idle : forall a, idle s a -> same_at s s' a;
  po_next : next_addr s <= next_addr s';
  po_polls : (length (polls s') <= length (polls s))%nat;
  po_work : forall p, (length (req_list (peers s' p)) + work s' <= length (req_list (peers s p)) + work s + k)%nat;
  po_new_idle : clean = true -> forall a, idle s' a -> idle s a;
  po_loose : clean = true -> forall m, loose s' m -> loose s m }.

(** A list that was empty is empty again. *)
Definition drained (s s' : rpc_server) : Prop := forall p, req_list (peers s p) = [] -> req_list (peers s' p) = [].

(** Callers free a message in use only after a failure. *)
Definition may_fault (f : fault) : Prop := f = list_head \/ clean = false /\ f = caller_free.

Definition ok {A} (k : nat) (s : rpc_server) (r : res (rpc_server * A)) (Q : A -> Prop) : Prop :=
  match r with
  | Done (s', x) => post k s s' /\ (clean = true -> drained s s' /\ Q x)
  | Fault f => may_fault f
  end.

Lemma drained_trans s1 s2 s3 : drained s1 s2 -> drained s2 s3 -> drained s1 s3.
Proof. unfold drained. auto. Qed.

Lemma drained_len s s' : (forall p, length (req_list (peers s' p)) <= length (req_list (peers s p)))%nat -> drained s s'.
Proof. intros H p E. specialize (H p). rewrite E in H. apply nil_length_inv. cbn in H. lia. Qed.

Lemma same_at_refl s a : same_at s s a.
Proof. by split. Qed.

Lemma same_at_trans s1 s2 s3 a : same_at s1 s2 a -> same_at s2 s3 a -> same_at s1 s3 a.
Proof.
  intros [A1 A2 A3 A4 A5 A6] [B1 B2 B3 B4 B5 B6]. split; try congruence.
  intros rr E. rewrite B2 by congruence. auto.
Qed.

Lemma same_at_idle s s' a : same_at s s' a -> idle s a -> idle s' a.
Proof. intros [] (I1 & I2 & I3 & I4). unfold idle. rewrite sa_rr0, sa_posted0, sa_exposed0. setoid_rewrite sa_queued0. done. Qed.

Lemma post_refl k s : good s -> post k s s.
Proof. intros. split; auto using same_at_refl; lia. Qed.

Lemma post_trans k1 k2 s1 s2 s3 : post k1 s1 s2 -> post k2 s2 s3 -> post (k1 + k2) s1 s3.
Proof.
  intros [A1 A2 A3 A4 A5 A6 A7] [B1 B2 B3 B4 B5 B6 B7]. split; [done| |lia|lia| | |]; auto.
  - intros a Ha. pose proof (A2 a Ha). eapply same_at_trans; [done|]. by apply B2, (same_at_idle s1).
  - intros p. specialize (A5 p). specialize (B5 p). lia.
Qed.

Lemma post_mono k k' s s' : (k <= k')%nat -> post k s s' -> post k' s s'.
Proof. intros Hk [A1 A2 A3 A4 A5 A6 A7]. split; auto. intros p. specialize (A5 p). lia. Qed.

Lemma ok_refl {A} k s (x : A) (Q : A -> Prop) : good s -> (clean = true -> Q x) -> ok k s (Done (s, x)) Q.
Proof. intros G Hq. split; [by apply post_refl|]. intros Hc. split; [by intros p|auto]. Qed.

Lemma ok_bind {A B} k1 k2 s (r : res (rpc_server * A)) (f : rpc_server * A -> res (rpc_server * B)) Q Q' :
  ok k1 s r Q ->
  (forall s' x, post k1 s s' -> (clean = true -> Q x) -> ok k2 s' (f (s', x)) Q') -> ok (k1 + k2) s (r ≫= f) Q'.
Proof.
  intros Hr Hf. destruct r as [[s' x]|e]; [|done]. destruct Hr as [Hp Hq]. cbn. specialize (Hf s' x Hp (fun Hc => proj2 (Hq Hc))).
  destruct (f (s', x)) as [[s'' y]|e]; [|done]. destruct Hf as [Hp' Hq']. split; [by eapply post_trans|]. intros Hc.
  destruct (Hq Hc), (Hq' Hc). eauto using drained_trans.
Qed.

(** *** Calls that change one request *)

Record touch (s s' : rpc_server) (a : Z) : Prop := {
  tc_same : forall b, b <> a -> same_at s s' b;
  tc_rr : exists rr rr', rrs s !! a = Some rr /\ rrs s' !! a = Some rr' /\ rr_msg rr' = rr_msg rr;
  tc_dom : forall m, is_Some (msgs s' !! m) <-> is_Some (msgs s !! m);
  tc_next : next_addr s' = next_addr s;
  tc_done : completed s' = completed s;
  tc_polls : polls s' = polls s;
  tc_len : forall p, (length (req_list (peers s' p)) <= length (req_list (peers s p)))%nat;
  tc_clean : clean = true -> oracle s' = [] }.

Lemma request_same s s' a : same_at s s' a -> request_ok s a -> request_ok s' a.
Proof.
  intros [A1 A2 A3 A4 A5 A6]. unfold request_ok. rewrite A1. destruct (rrs s !! a) as [rr|] eqn:E.
  - intros (m & Em & [L1 L2 L3 L4 L5 L6 L7 L8 L9 L10]). exists m. rewrite A2 by done. split; [done|].
    split; rewrite ?A3, ?A4; try setoid_rewrite A5; try setoid_rewrite A6; done.
  - intros [D1 D2]. split; rewrite ?A3, ?A4; try setoid_rewrite A5; try setoid_rewrite A6; done.
Qed.

Lemma touch_rr s s' a b rr' : touch s s' a -> rrs s' !! b = Some rr' ->
  exists rr, rrs s !! b = Some rr /\ rr_msg rr = rr_msg rr'.
Proof.
  intros T E. destruct (decide (b = a)) as [->|Hne].
  - destruct (tc_rr _ _ _ T) as (rr & rr0 & E1 & E2 & E3). exists rr. split; congruence.
  - rewrite (sa_rr _ _ _ (tc_same _ _ _ T b Hne)) in E. eauto.
Qed.

Lemma touch_rr_back s s' a b rr : touch s s' a -> rrs s !! b = Some rr ->
  exists rr', rrs s' !! b = Some rr' /\ rr_msg rr' = rr_msg rr.
Proof.
  intros T E. destruct (decide (b = a)) as [->|Hne].
  - destruct (tc_rr _ _ _ T) as (rr0 & rr' & E1 & E2 & E3). exists rr'. split; congruence.
  - rewrite <- (sa_rr _ _ _ (tc_same _ _ _ T b Hne)) in E. eauto.
Qed.

Lemma touch_good s s' a : good s -> touch s s' a -> request_ok s' a -> good s'.
Proof.
  intros G T R. split.
  - intros b. destruct (decide (b = a)) as [->|Hne]; [done|]. apply (request_same s); [by apply T|]. by apply G.
  - intros b. rewrite (tc_next _ _ _ T), (tc_done _ _ _ T), (tc_dom _ _ _ T). intros H. apply (gd_lt s G).
    destruct H as [[rr E]|H]; [|by right]. left. destruct (touch_rr _ _ _ _ _ T E) as (? & -> & _). eauto.
  - intros b c rr rr' E1 E2 Em. destruct (touch_rr _ _ _ _ _ T E1) as (r1 & F1 & M1), (touch_rr _ _ _ _ _ T E2) as (r2 & F2 & M2).
    apply (gd_inj s G b c r1 r2); congruence.
  - rewrite (tc_done _ _ _ T). destruct (gd_done s G) as [D1 D2]. split; [done|]. intros m Hm. apply D2 in Hm.
    apply eq_None_not_Some. rewrite (tc_dom _ _ _ T), Hm. by intros [].
  - apply T.
Qed.

Lemma touch_loose s s' a m : touch s s' a -> loose s' m -> loose s m.
Proof.
  intros T [H1 H2]. split; [by apply (tc_dom _ _ _ T)|]. intros b rr E.
  destruct (touch_rr_back _ _ _ _ _ T E) as (rr' & E' & <-). by apply (H2 b).
Qed.

Lemma touch_post s s' a : good s -> touch s s' a -> request_ok s' a -> ~ idle s a -> (clean = true -> ~ idle s' a) -> post 0 s s'.
Proof.
  intros G T R Hi Hn. split; [by eapply touch_good| | | | | |].
  - intros b Hb. apply (tc_same _ _ _ T). by intros ->.
  - rewrite (tc_next _ _ _ T). lia.
  - by rewrite (tc_polls _ _ _ T).
  - intros p. unfold weight. rewrite (tc_polls _ _ _ T). pose proof (tc_len _ _ _ T p). lia.
  - intros Hc b Hb. destruct (decide (b = a)) as [->|Hne]; [by destruct (Hn Hc)|].
    destruct (tc_same _ _ _ T b Hne) as [A1 A2 A3 A4 A5 A6], Hb as (B1 & B2 & B3 & B4). unfold idle.
    rewrite <- A1, <- A3, <- A4. setoid_rewrite <- A5. done.
  - intros _ m. by apply (touch_loose _ _ a).
Qed.

(** *** The pieces of a call *)

Lemma draw_cases s b s' : (clean = true -> oracle s = []) -> draw s = (b, s') ->
  exists o, s' = set_script s (polls s) o /\ (clean = true -> b = true /\ o = []).
Proof.
  intros Hc. unfold draw. destruct (oracle s) as [|b0 o] eqn:Eo; intros [= <- <-].
  - exists []. split; [|done]. destruct s; cbn in *; by subst.
  - exists o. split; [done|]. by intros H%Hc.
Qed.

Lemma refused (o : list bool) : (clean = true -> false = true /\ o = []) -> clean = false.
Proof. intros H. apply not_true_iff_false. by intros [? _]%H. Qed.

(** [s'] is [s] with a new value of request [a] and its message [k], and with
    more entries about [a]. *)
Record delta (s s' : rpc_server) (a k : Z) (rr : rpc_request) (m : msg_buf) (lp : list (Z * Z)) (le : list Z)
    (lr : list (Z * bool)) : Prop := {
  dl_rrs : rrs s' = <[a := rr]> (rrs s);
  dl_msgs : msgs s' = <[k := m]> (msgs s);
  dl_posted : posted s' = posted s ++ lp;
  dl_exposed : exposed s' = exposed s ++ le;
  dl_regions : regions s' = regions s ++ lr;
  dl_peers : peers s' = peers s;
  dl_next : next_addr s' = next_addr s;
  dl_done : completed s' = completed s;
  dl_polls : polls s' = polls s;
  dl_clean : clean = true -> oracle s' = [] }.

Lemma delta_trans s1 s2 s3 a k rr1 rr2 m1 m2 lp1 lp2 le1 le2 lr1 lr2 :
  delta s1 s2 a k rr1 m1 lp1 le1 lr1 -> delta s2 s3 a k rr2 m2 lp2 le2 lr2 ->
  delta s1 s3 a k rr2 m2 (lp1 ++ lp2) (le1 ++ le2) (lr1 ++ lr2).
Proof.
  intros [] []. split; try congruence; try done.
  - by rewrite dl_rrs1, dl_rrs0, insert_insert_eq.
  - by rewrite dl_msgs1, dl_msgs0, insert_insert_eq.
  - by rewrite dl_posted1, dl_posted0, app_assoc.
  - by rewrite dl_exposed1, dl_exposed0, app_assoc.
  - by rewrite dl_regions1, dl_regions0, app_assoc.
Qed.

Lemma prepare_spec s a rr m : (clean = true -> oracle s = []) -> rrs s !! a = Some rr -> msgs s !! rr_msg rr = Some m ->
  exists s' err, rpc_prepare_buffers s a = Done (s', err) /\
    (err <> 0 /\ clean = false /\ delta s s' a (rr_msg rr) rr (with_mr m a (w_mr (msg_rpc m))) [] [] []
     \/ err = 0 /\ delta s s' a (rr_msg rr) (with_data_mr rr) (add_ref (with_mr m a true) 1) [] [] [(a, true)]).
Proof.
  intros Hc Er Em. unfold rpc_prepare_buffers. rewrite Er. cbn [deref mbind res_bind]. rewrite Em. cbn [deref mbind res_bind].
  destruct (draw _) as [b s1] eqn:Ed. apply draw_cases in Ed as (o & -> & Ho); [|done]. destruct b; cbn [negb]; eexists _, _; (split; [done|]).
  - right. split; [done|]. split; cbn; rewrite ?app_nil_r; try done; [by rewrite insert_insert_eq|]. intros; by apply Ho.
  - left. split; [done|]. apply refused in Ho. split; [done|]. split; cbn; rewrite ?app_nil_r, ?(insert_id (rrs s)), ?(insert_id (msgs s) _ m); try done; congruence.
Qed.

(** What a post leaves: nothing when the adapter refused it. *)
Definition post_lists (p a : Z) (rr : rpc_request) (m : msg_buf) (lp : list (Z * Z)) (le : list Z) : Prop :=
  clean = false /\ lp = [] /\ le = []
  \/ lp = [(p, a)] /\ le = (if (rr_type rr =? 0) && w_mr (msg_rpc m) then [a] else []).

Lemma post_send_spec s p a rr m : (clean = true -> oracle s = []) ->
  exists lp le, post_lists p a rr m lp le /\
    (rrs s = <[a := rr]> (rrs s) -> msgs s = <[rr_msg rr := m]> (msgs s) -> delta s (post_send s p a rr m) a (rr_msg rr) rr m lp le []).
Proof.
  intros Hc. unfold post_send. destruct (draw s) as [b s1] eqn:Ed. apply draw_cases in Ed as (o & -> & Ho); [|done].
  destruct b; cbn [negb].
  - exists [(p, a)], (if (rr_type rr =? 0) && w_mr (msg_rpc m) then [a] else []). split; [by right|]. intros E1 E2.
    destruct (rr_type rr =? 0); [destruct (w_mr (msg_rpc m))|]; split; cbn; rewrite ?app_nil_r; try done; intros; by apply Ho.
  - exists [], []. apply refused in Ho. split; [by left|]. intros E1 E2.
    split; cbn; rewrite ?app_nil_r; try done; congruence.
Qed.

Lemma register_post s p a rr rr' m b : rrs s !! a = Some rr -> rr_msg rr' = rr_msg rr -> rr_type rr' = rr_type rr ->
  msgs s !! rr_msg rr = Some m -> (clean = true -> oracle s = []) ->
  exists lp le, post_lists p a rr m lp le /\
    delta s (set_msg (post_send (set_regions (set_rr s a rr') (regions s ++ [(a, b)])) p a rr m) (rr_msg rr) (add_ref m 1))
      a (rr_msg rr) rr' (add_ref m 1) lp le [(a, b)].
Proof.
  intros Er Ek Et Em Hc. set (s1 := set_regions _ _).
  destruct (post_send_spec s1 p a rr' m) as (lp & le & Hl & Hd); [done|]. exists lp, le.
  split; [unfold post_lists in *; by rewrite Et in Hl|].
  assert (post_send s1 p a rr m = post_send s1 p a rr' m) as -> by (unfold post_send; by rewrite Et).
  rewrite Ek in Hd. destruct Hd as []; [cbn; by rewrite insert_insert_eq|cbn; by rewrite insert_id|].
  split; cbn; rewrite ?dl_rrs0, ?dl_msgs0; cbn; rewrite ?insert_insert_eq; try done.
  by rewrite dl_regions0, app_nil_r.
Qed.

Lemma post_request_spec s p a rr m : (clean = true -> oracle s = []) -> rrs s !! a = Some rr -> msgs s !! rr_msg rr = Some m ->
  exists s' err, rpc_post_request s p a = Done (s', err) /\
    (err <> 0 /\ clean = false /\ delta s s' a (rr_msg rr) rr m [] [] []
     \/ err = 0 /\ exists lp le, post_lists p a rr m lp le /\
          delta s s' a (rr_msg rr) (if rr_type rr =? 0 then with_rpc_mr rr else with_data_mr rr) (add_ref m 1) lp le
            [(a, negb (rr_type rr =? 0))]).
Proof.
  intros Hc Er Em. unfold rpc_post_request. rewrite Er. cbn [deref mbind res_bind]. rewrite Em. cbn [deref mbind res_bind].
  destruct (draw s) as [b s1] eqn:Ed. apply draw_cases in Ed as (o & -> & Ho); [|done]. destruct b; cbn [negb]; eexists _, _; (split; [done|]).
  - right. split; [done|]. destruct (register_post (set_script s (polls s) o) p a rr
      (if rr_type rr =? 0 then with_rpc_mr rr else with_data_mr rr) m (negb (rr_type rr =? 0))) as (lp & le & Hl & Hd);
      try done; [by destruct (_ =? _)|by destruct (_ =? _)|intros; by apply Ho|].
    exists lp, le. split; [done|]. destruct (rr_type rr =? 0); destruct Hd; by split.
  - left. split; [done|]. apply refused in Ho. split; [done|]. split; cbn; rewrite ?app_nil_r, ?(insert_id (rrs s)), ?(insert_id (msgs s) _ m); try done; congruence.
Qed.

Lemma fetch_request_spec s p a rr m : (clean = true -> oracle s = []) -> rrs s !! a = Some rr -> msgs s !! rr_msg rr = Some m ->
  rr_type rr = 1 ->
  exists s' err, rpc_fetch_request s p a = Done (s', err) /\
    (err <> 0 /\ clean = false /\ delta s s' a (rr_msg rr) rr m [] [] []
     \/ err = 0 /\ exists lp le, post_lists p a rr m lp le /\
          delta s s' a (rr_msg rr) (with_data_mr rr) (add_ref m 1) lp le [(a, true)]).
Proof.
  intros Hc Er Em Et. unfold rpc_fetch_request. rewrite Er. cbn [deref mbind res_bind]. rewrite Em. cbn [deref mbind res_bind].
  rewrite Et. cbn [Z.eqb Pos.eqb].
  destruct (draw s) as [b s1] eqn:Ed. apply draw_cases in Ed as (o & -> & Ho); [|done]. destruct b; cbn [negb]; eexists _, _; (split; [done|]).
  - right. split; [done|]. destruct (register_post (set_script s (polls s) o) p a rr (with_data_mr rr) m true)
      as (lp & le & Hl & Hd); try done; [intros; by apply Ho|].
    exists lp, le. split; [done|]. destruct Hd; by split.
  - left. split; [done|]. apply refused in Ho. split; [done|]. split; cbn; rewrite ?app_nil_r, ?(insert_id (rrs s)), ?(insert_id (msgs s) _ m); try done; congruence.
Qed.

Definition about {A} (f : A -> Z) (a : Z) (l : list A) : Prop := forall x, x ∈ l -> f x = a.

Lemma cnt_about {A} (f : A -> Z) a b l : about f a l -> b <> a -> cnt b (f <$> l) = 0%nat.
Proof.
  intros Hl Hb. destruct (cnt b (f <$> l)) as [|n] eqn:E; [done|]. exfalso. apply Hb.
  assert (Hin : b ∈ f <$> l) by (apply cnt_elem; lia). apply list_elem_of_fmap in Hin as (x & -> & Hx). by apply Hl.
Qed.

Lemma cnt_region_about a b fl (l : list (Z * bool)) : about fst a l -> b <> a -> cnt (b, fl) l = 0%nat.
Proof.
  intros Hl Hb. destruct (cnt (b, fl) l) as [|n] eqn:E; [done|]. exfalso. apply Hb.
  assert (Hin : (b, fl) ∈ l) by (apply cnt_elem; lia). by apply Hl in Hin.
Qed.

Lemma delta_touch s s' a rr rr' m' lp le lr : good s -> rrs s !! a = Some rr -> rr_msg rr' = rr_msg rr ->
  delta s s' a (rr_msg rr) rr' m' lp le lr -> about snd a lp -> about id a le -> about fst a lr -> touch s s' a.
Proof.
  intros G Er Ek [D1 D2 D3 D4 D5 D6 D7 D8 D9 D10] Hp He Hr. split; try done.
  - intros b Hb. split.
    + by rewrite D1, lookup_insert_ne.
    + intros rb Eb. rewrite D2, lookup_insert_ne; [done|]. intros Em. apply Hb. symmetry. by apply (gd_inj s G a b rr rb).
    + unfold n_posted. by rewrite D3, fmap_app, cnt_app, (cnt_about snd a b lp), Nat.add_0_r.
    + unfold n_exposed. rewrite D4, cnt_app. rewrite <- (list_fmap_id le), (cnt_about id a) by done. lia.
    + intros q. unfold n_queued. by rewrite D6.
    + intros fl. unfold n_region. by rewrite D5, cnt_app, (cnt_region_about a b fl lr), Nat.add_0_r.
  - exists rr, rr'. by rewrite D1, lookup_insert_eq.
  - intros k. rewrite D2, lookup_insert_is_Some'. split; [|by right]. intros [<-|?]; [|done].
    pose proof (gd_req s G a) as R. unfold request_ok in R. rewrite Er in R. destruct R as (m & -> & _). eauto.
  - intros q. by rewrite D6.
Qed.

Lemma dequeue_same s p a l b : req_list (peers s p) = a :: l -> b <> a -> same_at s (dequeue s p) b.
Proof.
  intros E Hb. split; try done. intros q. unfold n_queued, dequeue. cbn. destruct (decide (q = p)) as [->|Hq].
  - rewrite fn_lookup_insert. cbn. by rewrite E, cnt_cons, decide_False.
  - by rewrite fn_lookup_insert_ne.
Qed.

Lemma dequeue_queued s p a l q : req_list (peers s p) = a :: l ->
  n_queued s q a = ((if decide (q = p) then 1 else 0) + n_queued (dequeue s p) q a)%nat.
Proof.
  intros E. unfold n_queued, dequeue. cbn. destruct (decide (q = p)) as [->|Hq].
  - rewrite fn_lookup_insert. cbn. by rewrite E, cnt_cons, decide_True.
  - by rewrite fn_lookup_insert_ne.
Qed.

Lemma dequeue_touch s s' p a l : touch s s' a -> req_list (peers s' p) = a :: l -> touch s (dequeue s' p) a.
Proof.
  intros [T1 T2 T3 T4 T5 T6 T7 T8] E. split; try done.
  - intros b Hb. eapply same_at_trans; [by apply T1|]. by eapply dequeue_same.
  - intros q. etransitivity; [|apply (T7 q)]. unfold dequeue. cbn. destruct (decide (q = p)) as [->|Hq].
    + rewrite fn_lookup_insert. cbn. rewrite E. cbn. lia.
    + by rewrite fn_lookup_insert_ne.
Qed.

(** Where a request at the head of a list is. *)
Lemma head_queued s p a l : good s -> req_list (peers s p) = a :: l ->
  exists rr m, rrs s !! a = Some rr /\ msgs s !! rr_msg rr = Some m /\ live_ok s a rr m /\ n_queued s p a = 1%nat.
Proof.
  intros G E. assert (Hq : (1 <= n_queued s p a)%nat) by (unfold n_queued; rewrite E, cnt_cons, decide_True by done; lia).
  pose proof (gd_req s G a) as R. unfold request_ok in R. destruct (rrs s !! a) as [rr|] eqn:Er.
  - destruct R as (m & Em & L). exists rr, m. split; [done|]. split; [done|]. split; [done|].
    destruct (lo_queue _ _ _ _ L p). lia.
  - destruct R as [[_ [_ R]] _]. rewrite R in Hq. lia.
Qed.

Lemma queued_not_idle s p a : (1 <= n_queued s p a)%nat -> ~ idle s a.
Proof. intros H (_ & _ & _ & Hq). rewrite Hq in H. lia. Qed.

Lemma delta_counts s s' a k rr m lp le lr : delta s s' a k rr m lp le lr ->
  n_posted s' a = (n_posted s a + cnt a (snd <$> lp))%nat /\ n_exposed s' a = (n_exposed s a + cnt a le)%nat /\
  (forall q, n_queued s' q a = n_queued s q a) /\ (forall b, n_region s' a b = n_region s a b + cnt (a, b) lr)%nat.
Proof.
  intros [D1 D2 D3 D4 D5 D6 D7 D8 D9 D10]. unfold n_posted, n_exposed, n_queued, n_region.
  rewrite D3, D4, fmap_app, !cnt_app. split; [done|]. split; [done|]. split; [by rewrite D6|]. intros b. by rewrite D5, cnt_app.
Qed.

Lemma post_lists_counts p a rr m lp le : post_lists p a rr m lp le ->
  about snd a lp /\ about id a le /\
  (clean = false /\ cnt a (snd <$> lp) = 0%nat /\ cnt a le = 0%nat
   \/ cnt a (snd <$> lp) = 1%nat /\ cnt a le = if (rr_type rr =? 0) && w_mr (msg_rpc m) then 1%nat else 0%nat).
Proof.
  assert (H1 : cnt a [a] = 1%nat) by (rewrite cnt_cons, decide_True; done).
  intros [(Hc & -> & ->)|[-> ->]].
  - split; [by intros x ?%not_elem_of_nil|]. split; [by intros x ?%not_elem_of_nil|]. by left.
  - split; [by intros x ->%list_elem_of_singleton|]. split; [|right; split; [done|by destruct (_ && _)]].
    destruct (_ && _); [by intros x ->%list_elem_of_singleton|by intros x ?%not_elem_of_nil].
Qed.

Lemma cnt_single {A} `{EqDecision A} (x y : A) : cnt x [y] = if decide (x = y) then 1%nat else 0%nat.
Proof. rewrite cnt_cons. destruct (decide (x = y)); done. Qed.

(** A request in a list, made ready for its post. *)
Record prepared (s s1 : rpc_server) (a : Z) (rr rr1 : rpc_request) (m m1 : msg_buf) (lr : list (Z * bool)) : Prop := {
  pr_delta : delta s s1 a (rr_msg rr) rr1 m1 [] [] lr;
  pr_about : about fst a lr;
  pr_msg : rr_msg rr1 = rr_msg rr;
  pr_type : rr_type rr1 = 0;
  pr_mr : w_mr (msg_rpc m1) = msg_data m;
  pr_data : msg_data m1 = msg_data m;
  pr_ref : refcont m1 = refcont m + (if msg_data m then 1 else 0);
  pr_flags : rpc_mr rr1 = rpc_mr rr /\ data_mr rr1 = (data_mr rr || msg_data m)%bool;
  pr_regions : lr = if msg_data m then [(a, true)] else [] }.

Ltac nothing := by intros ? ?%not_elem_of_nil.
Ltac single := by intros ? ->%list_elem_of_singleton.

Lemma prepare_head s p a rr m : good s -> rrs s !! a = Some rr -> msgs s !! rr_msg rr = Some m -> live_ok s a rr m ->
  n_queued s p a = 1%nat ->
  exists s1 err, (if msg_data m then rpc_prepare_buffers s a else Done (s, 0)) = Done (s1, err) /\
    (err <> 0 /\ clean = false /\ post 0 s s1 \/ err = 0 /\ exists rr1 m1 lr, prepared s s1 a rr rr1 m m1 lr).
Proof.
  intros G Er Em L Hq. pose proof (lo_type _ _ _ _ L p Hq) as Ht. destruct (msg_data m) eqn:Ed.
  - destruct (prepare_spec s a rr m (gd_clean s G) Er Em) as (s1 & err & E & H). exists s1, err. split; [done|].
    destruct H as [(H1 & H2 & D)|(H1 & D)]; [left|right].
    + split; [done|]. split; [done|].
      apply (touch_post s s1 a); try done; [eapply delta_touch; try done; nothing| |by apply (queued_not_idle s p); lia|congruence].
      unfold request_ok. rewrite (dl_rrs _ _ _ _ _ _ _ _ _ D), lookup_insert_eq, (dl_msgs _ _ _ _ _ _ _ _ _ D), lookup_insert_eq.
      eexists. split; [done|]. destruct (delta_counts _ _ _ _ _ _ _ _ _ D) as (C1 & C2 & C3 & C4).
      cbn in C1, C2. rewrite Nat.add_0_r in C1, C2. destruct L as [L1 L2 L3 L4 L5 L6 L7 L8 L9 L10].
      split; rewrite ?C1, ?C2; try setoid_rewrite C3; try setoid_rewrite C4; cbn; try setoid_rewrite Nat.add_0_r; done.
    + split; [done|]. eexists _, _, _. split; [exact D|single|..]; cbn; rewrite ?Ed, ?orb_true_r; done.
  - exists s, 0. split; [done|]. right. split; [done|]. exists rr, m, [].
    split; rewrite ?Ed, ?orb_false_r, ?Z.add_0_r; try done; [|nothing|].
    + split; rewrite ?app_nil_r, ?insert_id; try done. apply G.
    + destruct (w_mr (msg_rpc m)) eqn:Ew; [|done]. by rewrite (lo_mr _ _ _ _ L Ew) in Ed.
Qed.

Lemma prepared_flag s s1 a rr rr1 m m1 lr b : prepared s s1 a rr rr1 m m1 lr -> live_ok s a rr m -> flag rr1 b = true ->
  (1 <= n_region s a b + cnt (a, b) lr)%nat.
Proof.
  intros [D A1 A2 A3 A4 A5 A6 [A7 A8] A9] L Hb. assert (Hor : flag rr b = true \/ b = true /\ msg_data m = true).
  { destruct b; cbn in *; [rewrite A8 in Hb; apply orb_true_iff in Hb as [?|?]; auto|left; congruence]. }
  destruct Hor as [Hf|[-> Hd]]; [pose proof (lo_region _ _ _ _ L b Hf); lia|]. rewrite A9, Hd, cnt_single, decide_True by done. lia.
Qed.

(** The post of a prepared request was refused. *)
Lemma head_refused s s1 s2 p a rr rr1 m m1 lr : good s -> rrs s !! a = Some rr -> live_ok s a rr m -> n_queued s p a = 1%nat ->
  prepared s s1 a rr rr1 m m1 lr -> clean = false -> delta s1 s2 a (rr_msg rr) rr1 m1 [] [] [] -> post 0 s s2.
Proof.
  intros G Er L Hq Hp Hc D'. pose proof Hp as [D A1 A2 A3 A4 A5 A6 [A7 A8] A9].
  pose proof (delta_trans _ _ _ _ _ _ _ _ _ _ _ _ _ _ _ D D') as Dt.
  destruct (delta_counts _ _ _ _ _ _ _ _ _ Dt) as (C1 & C2 & C3 & C4). rewrite ?app_nil_l, ?app_nil_r in *.
  apply (touch_post s s2 a); try done; [eapply delta_touch; try done; nothing| |by apply (queued_not_idle s p); lia|congruence].
  unfold request_ok. rewrite (dl_rrs _ _ _ _ _ _ _ _ _ Dt), lookup_insert_eq, A2, (dl_msgs _ _ _ _ _ _ _ _ _ Dt), lookup_insert_eq.
  exists m1. split; [done|]. rewrite Nat.add_0_r in C1, C2. pose proof L as [L1 L2 L3 L4 L5 L6 L7 L8 L9 L10].
  split; rewrite ?C1, ?C2; try setoid_rewrite C3; try done; try congruence.
  - rewrite A6. destruct (msg_data m); lia.
  - intros b Hb. rewrite C4. by eapply prepared_flag.
Qed.

(** A prepared request at the head of a list goes to the adapter. *)
Lemma head_posted s s1 s2 p a l rr rr1 m m1 lr lp le : good s -> req_list (peers s p) = a :: l -> rrs s !! a = Some rr ->
  live_ok s a rr m -> n_queued s p a = 1%nat -> prepared s s1 a rr rr1 m m1 lr -> post_lists p a rr1 m1 lp le ->
  delta s1 s2 a (rr_msg rr) (with_rpc_mr rr1) (add_ref m1 1) lp le [(a, false)] ->
  touch s (dequeue s2 p) a /\ request_ok (dequeue s2 p) a /\ (clean = true -> ~ idle (dequeue s2 p) a).
Proof.
  intros G Eq Er L Hq Hpr Hl D'. pose proof Hpr as [D A1 A2 A3 A4 A5 A6 [A7 A8] A9]. pose proof L as [L1 L2 L3 L4 L5 L6 L7 L8 L9 L10].
  pose proof (delta_trans _ _ _ _ _ _ _ _ _ _ _ _ _ _ _ D D') as Dt. clear D D'.
  destruct (delta_counts _ _ _ _ _ _ _ _ _ Dt) as (C1 & C2 & C3 & C4). rewrite ?app_nil_l in *.
  destruct (L2 p) as [_ L2p]. destruct (L2p Hq) as (P0 & E0 & Hq0).
  assert (Eq2 : req_list (peers s2 p) = a :: l) by (rewrite (dl_peers _ _ _ _ _ _ _ _ _ Dt); done).
  destruct (post_lists_counts _ _ _ _ _ _ Hl) as (Ap & Ae & Hcnt). rewrite A3, A4 in Hcnt. cbn [Z.eqb andb] in Hcnt.
  assert (Hq3 : forall q, n_queued (dequeue s2 p) q a = 0%nat).
  { intros q. pose proof (dequeue_queued s2 p a l q Eq2) as Hdq. rewrite C3 in Hdq. destruct (decide (q = p)) as [->|Hne]; [lia|]. by rewrite Hq0 in Hdq. }
  change (n_posted s2 a) with (n_posted (dequeue s2 p) a) in C1. change (n_exposed s2 a) with (n_exposed (dequeue s2 p) a) in C2.
  change (n_region s2 a) with (n_region (dequeue s2 p) a) in C4. split; [|split].
  - eapply dequeue_touch; [|done]. eapply (delta_touch s s2 a rr (with_rpc_mr rr1)); try done.
    intros x [?| ->%list_elem_of_singleton]%elem_of_app; [by apply A1|done].
  - unfold request_ok. cbn [dequeue set_peer rrs msgs]. rewrite (dl_rrs _ _ _ _ _ _ _ _ _ Dt), lookup_insert_eq. cbn [with_rpc_mr rr_msg].
    rewrite A2, (dl_msgs _ _ _ _ _ _ _ _ _ Dt), lookup_insert_eq. eexists. split; [done|].
    split; rewrite ?C1, ?C2, ?P0, ?E0; try setoid_rewrite Hq3; try done; cbn [add_ref refcont]; try lia.
    + destruct Hcnt as [(_ & -> & ->)|[-> ->]]; [lia|]. destruct (msg_data m); lia.
    + rewrite A6. rewrite P0, E0 in L3. destruct Hcnt as [(_ & -> & ->)|[-> ->]]; destruct (msg_data m); lia.
    + intros Hc. rewrite A6, L4, P0, E0 by done. destruct Hcnt as [(? & _)|[-> ->]]; [congruence|]. destruct (msg_data m); lia.
    + intros b Hb. rewrite C4, cnt_app, cnt_single. destruct b; [|rewrite decide_True by done; lia].
      pose proof (prepared_flag _ _ _ _ _ _ _ _ true Hpr L Hb). lia.
    + intros Hc b. rewrite C4, cnt_app, cnt_single, (L6 Hc), (L7 Hc p Hq), A9. specialize (L7 Hc p Hq b).
      destruct b; cbn in *; rewrite ?A8, ?L7, ?orb_false_l; [rewrite decide_False by done|rewrite decide_True by done];
        destruct (msg_data m); rewrite ?cnt_nil, ?cnt_single; repeat case_decide; done.
    + cbn. by rewrite A4, A5.
    + cbn. lia.
  - intros Hc (_ & Hp0 & _). rewrite C1 in Hp0. destruct Hcnt as [(? & _)|[E _]]; [congruence|lia].
Qed.

(** The head of a list is posted, or the call fails and it stays there. *)
Lemma post_head_spec s p a l : good s -> req_list (peers s p) = a :: l ->
  exists s' err, post_head s p a = Done (s', err) /\
    (err <> 0 /\ clean = false /\ post 0 s s'
     \/ err = 0 /\ post 0 s (dequeue s' p) /\ req_list (peers (dequeue s' p) p) = l /\ polls (dequeue s' p) = polls s
        /\ drained s (dequeue s' p)).
Proof.
  intros G Eq. destruct (head_queued s p a l G Eq) as (rr & m & Er & Em & L & Hq).
  unfold post_head. rewrite Er. cbn [deref mbind res_bind]. rewrite Em. cbn [deref mbind res_bind].
  destruct (prepare_head s p a rr m G Er Em L Hq) as (s1 & err & -> & H). cbn [mbind res_bind].
  destruct H as [(H1 & H2 & Hp)|(-> & rr1 & m1 & lr & Hpr)].
  { exists s1, err. rewrite (proj2 (Z.eqb_neq _ _) H1). split; [done|]. by left. }
  cbn [Z.eqb negb]. pose proof Hpr as [[D1 D2 _ _ _ D6 _ _ _ D10] _ A2 A3 _ _ _ _ _].
  destruct (post_request_spec s1 p a rr1 m1 D10) as (s2 & err & -> & H); [by rewrite D1, lookup_insert_eq|by rewrite A2, D2, lookup_insert_eq|].
  exists s2, err. split; [done|]. rewrite A2, A3 in H. cbn [Z.eqb negb] in H.
  destruct H as [(H1 & H2 & D')|(-> & lp & le & Hl & D')]; [left|right].
  - split; [done|]. split; [done|]. by eapply (head_refused s s1 s2 p a rr rr1 m m1 lr).
  - destruct (head_posted s s1 s2 p a l rr rr1 m m1 lr lp le) as (T & R & Hi); try done. split; [done|].
    split; [apply (touch_post s _ a); try done; by apply (queued_not_idle s p); lia|]. split; [|split; [apply T|apply drained_len, T]].
    unfold dequeue. cbn. rewrite fn_lookup_insert. cbn. by rewrite (dl_peers _ _ _ _ _ _ _ _ _ D'), D6, Eq.
Qed.

(** *** New messages and requests *)

(** All requests but [a] are counted as before. *)
Definition counted_same (s s' : rpc_server) (P : Z -> Prop) : Prop := forall b, P b ->
  n_posted s' b = n_posted s b /\ n_exposed s' b = n_exposed s b /\ (forall q, n_queued s' q b = n_queued s q b)
  /\ forall fl, n_region s' b fl = n_region s b fl.

Record grown (s s' : rpc_server) (rr : rpc_request) (m : msg_buf) : Prop := {
  gr_rrs : rrs s' = <[next_addr s + 1 := rr]> (rrs s);
  gr_msgs : msgs s' = <[next_addr s := m]> (msgs s);
  gr_msg : rr_msg rr = next_addr s;
  gr_next : next_addr s' = next_addr s + 2;
  gr_same : counted_same s s' (fun b => b <> next_addr s + 1);
  gr_done : completed s' = completed s;
  gr_polls : polls s' = polls s;
  gr_clean : clean = true -> oracle s' = [] }.

Lemma fresh_none s a : good s -> next_addr s <= a -> rrs s !! a = None /\ msgs s !! a = None /\ a ∉ completed s.
Proof.
  intros G Ha. pose proof (gd_lt s G a) as H. split; [|split].
  - apply eq_None_not_Some. intros ?. enough (a < next_addr s) by lia. auto.
  - apply eq_None_not_Some. intros ?. enough (a < next_addr s) by lia. auto.
  - intros ?. enough (a < next_addr s) by lia. auto.
Qed.

Lemma msg_of s a rr : good s -> rrs s !! a = Some rr -> is_Some (msgs s !! rr_msg rr).
Proof. intros G E. pose proof (gd_req s G a) as R. unfold request_ok in R. rewrite E in R. destruct R as (m & -> & _). eauto. Qed.

Lemma grown_same s s' rr m b : good s -> grown s s' rr m -> b <> next_addr s + 1 -> same_at s s' b.
Proof.
  intros G [R1 R2 R3 R4 R5 R6 R7 R8] Hb. destruct (R5 b Hb) as (C1 & C2 & C3 & C4). split; try done.
  - by rewrite R1, lookup_insert_ne.
  - intros rb E. rewrite R2, lookup_insert_ne; [done|]. intros Em. destruct (msg_of s b rb G E) as [x Ex].
    rewrite <- Em in Ex. by rewrite (proj1 (proj2 (fresh_none s (next_addr s) G ltac:(lia)))) in Ex.
Qed.

Lemma grown_good s s' rr m : good s -> grown s s' rr m -> request_ok s' (next_addr s + 1) -> good s'.
Proof.
  intros G Hg R. pose proof Hg as [R1 R2 R3 R4 R5 R6 R7 R8]. split.
  - intros b. destruct (decide (b = next_addr s + 1)) as [->|Hne]; [done|].
    apply (request_same s); [by eapply grown_same|]. apply G.
  - intros b. rewrite R1, R2, R4, R6, !lookup_insert_is_Some'.
    assert (is_Some (rrs s !! b) \/ is_Some (msgs s !! b) \/ b ∈ completed s -> b < next_addr s + 2)
      by (intros H; pose proof (gd_lt s G b H); lia). intuition lia.
  - intros b c rb rc Eb Ec Em. rewrite R1 in Eb, Ec. rewrite lookup_insert in Eb, Ec.
    assert (Hf : forall x r, rrs s !! x = Some r -> rr_msg r <> next_addr s).
    { intros x r E Hr. destruct (msg_of s x r G E) as [y Ey]. rewrite Hr in Ey.
      by rewrite (proj1 (proj2 (fresh_none s (next_addr s) G ltac:(lia)))) in Ey. }
    destruct (decide (next_addr s + 1 = b)) as [<-|], (decide (next_addr s + 1 = c)) as [<-|]; simplify_eq; try done.
    + destruct (Hf c rc Ec). congruence.
    + destruct (Hf b rb Eb). congruence.
    + by apply (gd_inj s G b c rb rc).
  - rewrite R6. destruct (gd_done s G) as [D1 D2]. split; [done|]. intros x Hx. rewrite R2, lookup_insert_ne; [by apply D2|].
    intros <-. by apply (proj2 (proj2 (fresh_none s (next_addr s) G ltac:(lia)))) in Hx.
  - done.
Qed.

Lemma grown_post k s s' rr m : good s -> grown s s' rr m -> request_ok s' (next_addr s + 1) ->
  (clean = true -> ~ idle s' (next_addr s + 1)) ->
  (forall p, length (req_list (peers s' p)) <= length (req_list (peers s p)) + k)%nat -> post k s s'.
Proof.
  intros G Hg R Hn Hl. pose proof (fun b => grown_same s s' rr m b G Hg) as Hsame. pose proof Hg as [R1 R2 R3 R4 R5 R6 R7 R8].
  split; [by eapply grown_good| |lia|by rewrite R7| | |].
  - intros b (Hb & _). apply Hsame. intros ->. rewrite (proj1 (fresh_none s (next_addr s + 1) G ltac:(lia))) in Hb. by destruct Hb.
  - intros p. unfold weight. rewrite R7. specialize (Hl p). lia.
  - intros Hc b Hb. destruct (decide (b = next_addr s + 1)) as [->|Hne]; [by destruct (Hn Hc)|].
    destruct (Hsame b Hne) as [A1 A2 A3 A4 A5 A6], Hb as (B1 & B2 & B3 & B4). unfold idle.
    rewrite <- A1, <- A3, <- A4. setoid_rewrite <- A5. done.
  - intros _ x [H1 H2]. rewrite R2, lookup_insert_is_Some' in H1. split.
    + destruct H1 as [<-|]; [|done]. destruct (H2 (next_addr s + 1) rr); [by rewrite R1, lookup_insert_eq|done].
    + intros b rb E. apply (H2 b). rewrite R1, lookup_insert_ne; [done|]. intros <-.
      by rewrite (proj1 (fresh_none s (next_addr s + 1) G ltac:(lia))) in E.
Qed.

(** A message that stays without a request, after a failure. *)
Lemma leak_post s s' m : good s -> clean = false -> rrs s' = rrs s -> msgs s' = <[next_addr s := m]> (msgs s) \/ msgs s' = msgs s ->
  next_addr s < next_addr s' \/ next_addr s' = next_addr s /\ msgs s' = msgs s ->
  counted_same s s' (fun _ => True) -> completed s' = completed s -> polls s' = polls s ->
  (forall p, length (req_list (peers s' p)) <= length (req_list (peers s p)))%nat -> post 0 s s'.
Proof.
  intros G Hc E1 E2 E3 E4 E5 E6 E7.
  assert (Hm : forall x, x <> next_addr s -> msgs s' !! x = msgs s !! x).
  { intros x Hx. destruct E2 as [->| ->]; [by rewrite lookup_insert_ne|done]. }
  assert (Hsame : forall b, same_at s s' b).
  { intros b. destruct (E4 b I) as (C1 & C2 & C3 & C4). split; try done; [by rewrite E1|]. intros rb E. apply Hm. intros Em.
    destruct (msg_of s b rb G E) as [x Ex]. rewrite Em in Ex.
    by rewrite (proj1 (proj2 (fresh_none s (next_addr s) G ltac:(lia)))) in Ex. }
  split; try congruence; auto; [|lia|by rewrite E6|]. 2:{ intros p. unfold weight. rewrite E6. specialize (E7 p). lia. }
  split; [|..]; try congruence.
  - intros b. apply (request_same s); [done|]. apply G.
  - intros b H. assert (is_Some (rrs s !! b) \/ is_Some (msgs s !! b) \/ b ∈ completed s \/ b = next_addr s /\ msgs s' <> msgs s) as Hb.
    { rewrite E1, E5 in H. destruct H as [H|[H|H]]; auto. destruct (decide (b = next_addr s)) as [->|Hne].
      - right. right. right. split; [done|]. intros E. rewrite E, (proj1 (proj2 (fresh_none s (next_addr s) G ltac:(lia)))) in H. by destruct H.
      - rewrite Hm in H by done. auto. }
    pose proof (gd_lt s G b). destruct Hb as [H1|[H1|[H1|[-> H1]]]]; [lia || (enough (b < next_addr s) by lia; auto)..|].
    destruct E3 as [?|[_ ?]]; [lia|done].
  - rewrite E1. apply G.
  - rewrite E5. destruct (gd_done s G) as [D1 D2]. split; [done|]. intros x Hx. rewrite Hm; [by apply D2|].
    intros ->. by apply (proj2 (proj2 (fresh_none s (next_addr s) G ltac:(lia)))) in Hx.
Qed.

(** *** Sending, when the nested processing of events keeps the invariant *)

Definition fine_event (err : Z) : Prop := err = 0 \/ err = - ETIME.

Section Nested.
Context (process_event : rpc_server -> res (rpc_server * Z)) (depth : nat).
Context (Hpe : forall s, good s -> (length (polls s) < depth)%nat -> ok 0 s (process_event s) fine_event).

Lemma event_rounds_ok n : forall s, good s -> (length (polls s) < depth)%nat ->
  ok 0 s (event_rounds process_event n s) (fun err => err = 0).
Proof using Hpe.
  induction n as [|n IH]; intros s G Hd; [by apply ok_refl|]. cbn [event_rounds].
  apply (ok_bind 0 0 _ _ _ fine_event); [by apply Hpe|]. intros s1 err P Hq. case_if.
  - zbool. apply ok_refl; [apply P|]. intros Hc. destruct (Hq Hc) as [->| ->]; done.
  - apply IH; [apply P|]. pose proof (po_polls _ _ _ P). lia.
Qed.

Lemma send_list_ok fuel : forall s p, good s -> (length (polls s) < depth)%nat ->
  (length (req_list (peers s p)) + work s <= fuel)%nat ->
  ok 0 s (send_list_loop process_event fuel s p) (fun err => err = 0) /\
  forall s' err, send_list_loop process_event fuel s p = Done (s', err) -> clean = true -> req_list (peers s' p) = [].
Proof using Hpe.
  induction fuel as [|fuel IH]; intros s p G Hd Hf; cbn [send_list_loop]; destruct (req_list (peers s p)) as [|a0 l0] eqn:E0;
    try (split; [by apply ok_refl|by intros s' err [= <- _]]); [cbn in Hf; lia|].
  assert (Hev : ok 0 s (if busy s p then event_rounds process_event 10 s else Done (s, 0)) (fun err => err = 0)).
  { case_if; [by apply event_rounds_ok|by apply ok_refl]. }
  destruct (if busy s p then _ else _) as [[s1 err]|f]; [|done]. cbn [mbind res_bind]. destruct Hev as [P Hq].
  pose proof (po_good _ _ _ P) as G1. case_if; zbool.
  { split; [done|]. intros s' e' _ Hc. by destruct (Hq Hc). }
  destruct (req_list (peers s1 p)) as [|a l] eqn:E1; [by split; [left|]|].
  destruct (post_head_spec s1 p a l G1 E1) as (s2 & err2 & -> & H). cbn [mbind res_bind].
  destruct H as [(H1 & H2 & P2)|(-> & P2 & El & Ep & Dr)].
  { rewrite (proj2 (Z.eqb_neq _ _) H1). split; [|congruence]. split; [exact (post_trans 0 0 _ _ _ P P2)|congruence]. }
  cbn [Z.eqb negb]. assert (Hl : (length (req_list (peers (dequeue s2 p) p)) + work (dequeue s2 p) <= fuel)%nat).
  { pose proof (po_work _ _ _ P p) as Hw. rewrite E0, E1 in Hw. rewrite El. unfold weight at 1. rewrite Ep.
    change (sum_list (poll_weight rpc_commands <$> polls s1)) with (work s1). cbn in *. lia. }
  destruct (IH (dequeue s2 p) p (po_good _ _ _ P2)) as [H H']; [rewrite Ep; pose proof (po_polls _ _ _ P); lia|done|]. split; [|done].
  destruct (send_list_loop _ _ _ _) as [[s3 e3]|f]; [|done]. destruct H as [P3 Q3].
  split; [exact (post_trans 0 0 _ _ _ P (post_trans 0 0 _ _ _ P2 P3))|].
  intros Hc. destruct (Hq Hc), (Q3 Hc). eauto using drained_trans.
Qed.

(** A request in a list, not prepared. *)
Lemma enqueued s p m0 o : good s -> refcont m0 = 0 -> w_mr (msg_rpc m0) = false -> (clean = true -> o = []) ->
  let a := next_addr s + 1 in
  let s1 := new_rr (set_script (new_msg s m0) (polls s) o) (mk_rr 0 (next_addr s) sizeof_cmd false false) in
  let n := peers s p in
  post 1 s (set_peer s1 p (mk_node (req_list n ++ [a]) (num_req n + 1) (req_posted n + 1) (num_msg_at_peer n))).
Proof.
  intros G Hr Hw Ho a s1 n. set (s2 := set_peer _ _ _).
  pose proof (gd_req s G a) as R. unfold request_ok in R. rewrite (proj1 (fresh_none s a G ltac:(lia))) in R.
  destruct R as [(P0 & E0 & Q0) R0].
  assert (Hq : forall q b, n_queued s2 q b = (n_queued s q b + if decide (q = p /\ b = a) then 1 else 0)%nat).
  { intros q b. unfold n_queued, s2. cbn. destruct (decide (q = p)) as [->|Hne].
    - rewrite fn_lookup_insert. cbn [req_list]. rewrite cnt_app, cnt_single. 
      destruct (decide (b = a)), (decide (p = p /\ b = a)); tauto || lia.
    - rewrite fn_lookup_insert_ne by done. rewrite decide_False by tauto. lia. }
  apply (grown_post 1 s s2 (mk_rr 0 (next_addr s) sizeof_cmd false false) m0); [done| | | |].
  - split; try done; [cbn; lia|]. intros b Hb. split; [done|]. split; [done|]. split; [|done].
    intros q. rewrite Hq, decide_False by tauto. lia.
  - unfold request_ok. cbn [s2 s1 set_peer new_rr set_heap rrs msgs set_script new_msg next_addr]. fold a. rewrite lookup_insert_eq. cbn [rr_msg].
    rewrite lookup_insert_eq. exists m0. split; [done|]. change (n_posted s2 a) with (n_posted s a) in *.
    split; change (n_posted s2 a) with (n_posted s a); change (n_exposed s2 a) with (n_exposed s a); change (n_region s2 a) with (n_region s a);
      rewrite ?P0, ?E0, ?Hr; try done; try congruence.
    + lia.
    + intros q. rewrite !Hq, Q0. split; [case_decide; lia|]. intros Hq1. split; [done|]. split; [done|]. intros q' Hne. rewrite Hq, Q0.
      destruct (decide (q = p /\ a = a)) as [[-> _]|]; [|lia]. rewrite decide_False by tauto. done.
    + by intros [].
    + intros Hc b. rewrite (R0 Hc). by destruct b.
    + by intros _ q _ [].
  - intros Hc (_ & _ & _ & H). specialize (H p). rewrite Hq, Q0, decide_True in H by done. lia.
  - intros q. unfold s2. cbn. destruct (decide (q = p)) as [->|Hne]; [rewrite fn_lookup_insert; unfold n; cbn; rewrite length_app; cbn; lia|].
    rewrite fn_lookup_insert_ne by done. lia.
Qed.

Lemma send_new s p m0 : good s -> (length (polls s) < depth)%nat -> refcont m0 = 0 -> w_mr (msg_rpc m0) = false ->
  match msg_buf_alloc s m0 with
  | (s', None) => clean = false /\ post 0 s s'
  | (s', Some d) => ok 1 s (rpc_send rpc_commands sizeof_cmd process_event s' p d) (fun err => err = 0)
  end.
Proof using Hpe.
  intros G Hd Hr Hw. unfold msg_buf_alloc. destruct (draw s) as [b s1] eqn:Ed. apply draw_cases in Ed as (o & -> & Ho); [|apply G]. destruct b.
  2:{ apply refused in Ho. split; [done|]. apply (leak_post s _ m0); try done; [by right|by right]. }
  unfold rpc_send. destruct (draw _) as [b s2] eqn:Ed. apply draw_cases in Ed as (o' & -> & Ho'); [|intros; by apply Ho]. destruct b; cbn [negb].
  2:{ apply refused in Ho'. split; [|congruence]. apply (post_mono 0); [lia|]. apply (leak_post s _ m0); try done; [by left|left; cbn; lia]. }
  pose proof (enqueued s p m0 o' G Hr Hw (fun Hc => proj2 (Ho' Hc))) as P. cbn zeta in P. cbn in P |- *.
  set (s3 := set_peer _ _ _) in *.
  destruct (send_list_ok (length (req_list (peers s3 p)) + work s3) s3 p (po_good _ _ _ P) Hd ltac:(done)) as [Hl Hnil].
  unfold peer_process_send_list. destruct (send_list_loop _ _ _ _) as [[s4 e4]|f]; [|done]. destruct Hl as [P4 Q4].
  split; [exact (post_trans 1 0 _ _ _ P P4)|]. intros Hc. destruct (Q4 Hc) as [Dr He]. split; [|done]. intros q Eq.
  destruct (decide (q = p)) as [->|Hne]; [by apply (Hnil s4 e4)|]. apply Dr. unfold s3. cbn. by rewrite fn_lookup_insert_ne.
Qed.

Lemma grown_delta s s1 s2 rr rr' m m' lp le lr : grown s s1 rr m ->
  delta s1 s2 (next_addr s + 1) (next_addr s) rr' m' lp le lr -> rr_msg rr' = next_addr s ->
  about snd (next_addr s + 1) lp -> about id (next_addr s + 1) le -> about fst (next_addr s + 1) lr -> grown s s2 rr' m'.
Proof.
  intros [R1 R2 R3 R4 R5 R6 R7 R8] [D1 D2 D3 D4 D5 D6 D7 D8 D9 D10] Hk Hp He Hr. split; try congruence; try done.
  - by rewrite D1, R1, insert_insert_eq.
  - by rewrite D2, R2, insert_insert_eq.
  - intros b Hb. destruct (R5 b Hb) as (<- & <- & C3 & C4). unfold n_posted, n_exposed, n_queued, n_region in *.
    rewrite D3, D4, D5, fmap_app, !cnt_app, (cnt_about snd (next_addr s + 1) b lp) by done.
    rewrite <- (list_fmap_id le), (cnt_about id (next_addr s + 1) b le), !Nat.add_0_r by done.
    split; [done|]. split; [done|]. split; [by rewrite D6|].
    intros fl. by rewrite cnt_app, (cnt_region_about (next_addr s + 1) b fl lr), Nat.add_0_r, C4.
Qed.

(** A request for data that no list holds. *)
Lemma direct_ready s p m0 o : good s -> (clean = true -> o = []) ->
  let rr := mk_rr 1 (next_addr s) (msg_size m0) false false in
  let s1 := count_posted (new_rr (set_script (new_msg s m0) (polls s) o) rr) p 1 in
  grown s s1 rr m0 /\ (forall q, length (req_list (peers s1 q)) = length (req_list (peers s q)))
  /\ counted_same s s1 (fun _ => True).
Proof.
  intros G Ho rr s1. assert (Hq : forall q, req_list (peers s1 q) = req_list (peers s q)).
  { intros q. unfold s1, count_posted. cbn. destruct (decide (q = p)) as [->|Hne]; [by rewrite fn_lookup_insert|by rewrite fn_lookup_insert_ne]. }
  split; [|split; [by intros q; rewrite Hq|]].
  - split; try done; [cbn; lia|]. intros b _. split; [done|]. split; [done|]. split; [|done]. intros q. unfold n_queued. by rewrite Hq.
  - intros b _. split; [done|]. split; [done|]. split; [|done]. intros q. unfold n_queued. by rewrite Hq.
Qed.

Lemma fresh_counts s s1 : good s -> counted_same s s1 (fun _ => True) -> let a := next_addr s + 1 in
  n_posted s1 a = 0%nat /\ n_exposed s1 a = 0%nat /\ (forall q, n_queued s1 q a = 0%nat)
  /\ (clean = true -> forall b, n_region s1 a b = 0%nat).
Proof.
  intros G Hs a. pose proof (gd_req s G a) as R. unfold request_ok in R. rewrite (proj1 (fresh_none s a G ltac:(lia))) in R.
  destruct R as [(P0 & E0 & Q0) R0], (Hs a I) as (-> & -> & Hq & Hr). split; [done|]. split; [done|].
  split; [intros q; by rewrite Hq|]. intros Hc b. rewrite Hr. auto.
Qed.

Lemma direct_posted s s1 s2 p rr m0 lp le : good s -> grown s s1 rr m0 -> rr_type rr = 1 -> refcont m0 = 0 -> w_mr (msg_rpc m0) = false ->
  data_mr rr = false -> rpc_mr rr = false ->
  (forall q, length (req_list (peers s1 q)) = length (req_list (peers s q))) ->
  counted_same s s1 (fun _ => True) -> post_lists p (next_addr s + 1) rr m0 lp le ->
  delta s1 s2 (next_addr s + 1) (next_addr s) (with_data_mr rr) (add_ref m0 1) lp le [(next_addr s + 1, true)] -> post 0 s s2.
Proof.
  intros G Hg Ht Hr Hw F1 F2 Hlen Hs Hl D. destruct (fresh_counts s s1 G Hs) as (P0 & E0 & Q0 & R0). set (a := next_addr s + 1) in *.
  destruct (post_lists_counts _ _ _ _ _ _ Hl) as (Ap & Ae & Hcnt). rewrite Ht in Hcnt. cbn [Z.eqb andb] in Hcnt.
  destruct (delta_counts _ _ _ _ _ _ _ _ _ D) as (C1 & C2 & C3 & C4). rewrite P0, E0 in *.
  assert (Hg2 : grown s s2 (with_data_mr rr) (add_ref m0 1)).
  { eapply grown_delta; try done; [apply Hg|single]. }
  apply (grown_post 0 s s2 (with_data_mr rr) (add_ref m0 1)); try done.
  - unfold request_ok. fold a. rewrite (gr_rrs _ _ _ _ Hg2). fold a. rewrite lookup_insert_eq. cbn [with_data_mr rr_msg].
    rewrite (gr_msgs _ _ _ _ Hg2), (gr_msg _ _ _ _ Hg), lookup_insert_eq. eexists. split; [done|].
    split; rewrite ?C1, ?C2; try setoid_rewrite C3; try setoid_rewrite Q0; try done; cbn [add_ref refcont]; rewrite ?Hr.
    + destruct Hcnt as [(_ & -> & ->)|[-> ->]]; lia.
    + lia.
    + destruct Hcnt as [(_ & -> & ->)|[-> ->]]; lia.
    + intros Hc. destruct Hcnt as [(? & _)|[-> ->]]; [congruence|lia].
    + intros b Hb. rewrite C4, cnt_single. destruct b; [rewrite decide_True by done; lia|]. cbn in Hb. congruence.
    + intros Hc b. rewrite C4, cnt_single, (R0 Hc). destruct b; cbn; [by rewrite decide_True|by rewrite decide_False, F2].
    + cbn. congruence.
    + intros _. destruct Hcnt as [(_ & _ & ->)|[_ ->]]; done.
  - intros Hc (_ & Hp0 & _). fold a in Hp0. rewrite C1 in Hp0. destruct Hcnt as [(? & _)|[E _]]; [congruence|lia].
  - intros q. rewrite (dl_peers _ _ _ _ _ _ _ _ _ D). rewrite Hlen. lia.
Qed.

(** After a refused registration the request stays or is freed. *)
Lemma direct_refused s s1 s2 rr m0 : good s -> clean = false -> grown s s1 rr m0 -> refcont m0 = 0 -> w_mr (msg_rpc m0) = false ->
  data_mr rr = false -> rpc_mr rr = false ->
  (forall q, length (req_list (peers s1 q)) = length (req_list (peers s q))) ->
  counted_same s s1 (fun _ => True) -> delta s1 s2 (next_addr s + 1) (next_addr s) rr m0 [] [] [] -> post 0 s s2 /\ post 0 s (free_rr s2 (next_addr s + 1)).
Proof.
  intros G Hc Hg Hr Hw F1 F2 Hlen Hs D. destruct (fresh_counts s s1 G Hs) as (P0 & E0 & Q0 & _). set (a := next_addr s + 1) in *.
  destruct (delta_counts _ _ _ _ _ _ _ _ _ D) as (C1 & C2 & C3 & C4). cbn in C1, C2. rewrite Nat.add_0_r in C1, C2.
  assert (Hg2 : grown s s2 rr m0) by (eapply grown_delta; try done; [apply Hg|nothing|nothing|nothing]).
  assert (Hl2 : forall q, (length (req_list (peers s2 q)) <= length (req_list (peers s q)))%nat)
    by (intros q; rewrite (dl_peers _ _ _ _ _ _ _ _ _ D), Hlen; lia). split.
  - apply (grown_post 0 s s2 rr m0); try done; [|congruence|intros q; specialize (Hl2 q); lia].
    unfold request_ok. fold a. rewrite (gr_rrs _ _ _ _ Hg2). fold a. rewrite lookup_insert_eq.
    rewrite (gr_msgs _ _ _ _ Hg2), (gr_msg _ _ _ _ Hg), lookup_insert_eq. exists m0. split; [done|].
    split; rewrite ?C1, ?C2, ?P0, ?E0; try setoid_rewrite C3; try setoid_rewrite Q0; try done; try congruence; try lia.
    intros [|]; cbn; congruence.
  - apply (leak_post s _ m0); try done; [|left; apply Hg2|left; cbn; rewrite (gr_next _ _ _ _ Hg2); lia| |apply Hg2|apply Hg2].
    + cbn. rewrite (gr_rrs _ _ _ _ Hg2). fold a. rewrite delete_insert_id; [done|]. by apply fresh_none; [|lia].
    + intros b _. destruct (decide (b = a)) as [->|Hne]; [|by apply (gr_same _ _ _ _ Hg2)].
      destruct (Hs a I) as (<- & <- & H3 & H4). unfold n_posted, n_exposed, n_queued, n_region in *. cbn [free_rr set_heap posted exposed peers regions].
      split; [done|]. split; [done|]. split; [intros q; by rewrite C3|]. intros fl. rewrite C4, cnt_nil, H4. lia.
Qed.

Lemma direct_new (op : rpc_server -> Z -> Z -> res (rpc_server * Z)) s p m0 : op = rpc_send_direct \/ op = rpc_receive_direct ->
  good s -> refcont m0 = 0 -> w_mr (msg_rpc m0) = false ->
  match msg_buf_alloc s m0 with
  | (s', None) => clean = false /\ post 0 s s'
  | (s', Some d) => ok 0 s (op s' p d) (fun err => err = 0)
  end.
Proof.
  intros Hop G Hr Hw. unfold msg_buf_alloc. destruct (draw s) as [b s1] eqn:Ed. apply draw_cases in Ed as (o & -> & Ho); [|apply G]. destruct b.
  2:{ apply refused in Ho. split; [done|]. apply (leak_post s _ m0); try done; [by right|by right]. }
  set (s0 := new_msg (set_script s (polls s) o) m0). change (next_addr (set_script s (polls s) o)) with (next_addr s).
  assert (Em : msgs s0 !! next_addr s = Some m0) by apply lookup_insert_eq.
  destruct (draw s0) as [b s1] eqn:Ed. pose proof Ed as Ed'. apply draw_cases in Ed as (o' & -> & Ho'); [|intros; by apply Ho]. destruct b.
  2:{ apply refused in Ho'. assert (Hleak : post 0 s (set_script s0 (polls s0) o')).
      { apply (leak_post s _ m0); try done; [by left|left; cbn; lia]. }
      destruct Hop as [-> | ->]; [unfold rpc_send_direct|unfold rpc_receive_direct];
        rewrite Em; cbn [deref mbind res_bind]; rewrite Ed'; (split; [done|congruence]). }
  destruct (direct_ready s p m0 o' G (fun Hc => proj2 (Ho' Hc))) as (Hg & Hlen & Hs). cbn zeta in *.
  set (rr := mk_rr 1 _ _ _ _) in *. set (s1 := count_posted _ _ _) in *.
  assert (Hdr : forall s2 rr' m' lp le lr, delta s1 s2 (next_addr s + 1) (next_addr s) rr' m' lp le lr -> drained s s2).
  { intros s2 rr' m' lp le lr D. apply drained_len. intros q. by rewrite (dl_peers _ _ _ _ _ _ _ _ _ D), Hlen. }
  assert (Er : rrs s1 !! (next_addr s + 1) = Some rr) by (rewrite (gr_rrs _ _ _ _ Hg); apply lookup_insert_eq).
  assert (Em1 : msgs s1 !! rr_msg rr = Some m0) by (rewrite (gr_msgs _ _ _ _ Hg); apply lookup_insert_eq).
  destruct Hop as [-> | ->]; [unfold rpc_send_direct|unfold rpc_receive_direct];
    rewrite Em; cbn [deref mbind res_bind]; rewrite Ed'; cbn [negb]; change (next_addr (set_script s0 (polls s0) o')) with (next_addr s + 1);
    match goal with |- context [count_posted ?x ?y ?z] => change (count_posted x y z) with s1 end.
  - destruct (post_request_spec s1 p (next_addr s + 1) rr m0 (gr_clean _ _ _ _ Hg) Er Em1) as (s2 & err & -> & H). cbn [mbind res_bind].
    destruct H as [(H1 & H2 & D)|(-> & lp & le & Hl & D)].
    + rewrite (proj2 (Z.eqb_neq _ _) H1). cbn [negb]. split; [|congruence]. by apply (direct_refused s s1 s2 rr m0).
    + cbn [Z.eqb negb]. split; [by apply (direct_posted s s1 s2 p rr m0 lp le)|by split; [apply (Hdr _ _ _ _ _ _ D)|]].
  - destruct (fetch_request_spec s1 p (next_addr s + 1) rr m0 (gr_clean _ _ _ _ Hg) Er Em1 eq_refl) as (s2 & err & -> & H).
    destruct H as [(H1 & H2 & D)|(-> & lp & le & Hl & D)].
    + split; [|congruence]. by apply (direct_refused s s1 s2 rr m0).
    + split; [by apply (direct_posted s s1 s2 p rr m0 lp le)|by split; [apply (Hdr _ _ _ _ _ _ D)|]].
Qed.

(** *** Completion *)

(** One report of request [a] has arrived. *)
Record reported (s s0 : rpc_server) (a : Z) : Prop := {
  rp_rrs : rrs s0 = rrs s;
  rp_msgs : msgs s0 = msgs s;
  rp_regions : regions s0 = regions s;
  rp_lists : forall p, req_list (peers s0 p) = req_list (peers s p);
  rp_next : next_addr s0 = next_addr s;
  rp_done : completed s0 = completed s;
  rp_polls : polls s0 = polls s;
  rp_oracle : oracle s0 = oracle s;
  rp_other : forall b, b <> a -> n_posted s0 b = n_posted s b /\ n_exposed s0 b = n_exposed s b;
  rp_one : (n_posted s a = S (n_posted s0 a) /\ n_exposed s0 a = n_exposed s a
            \/ n_posted s0 a = n_posted s a /\ n_exposed s a = S (n_exposed s0 a))%nat }.

Lemma reported_touch s s0 a rr m : good s -> rrs s !! a = Some rr -> msgs s !! rr_msg rr = Some m -> live_ok s a rr m ->
  reported s s0 a ->
  let s1 := set_msg s0 (rr_msg rr) (add_ref m (-1)) in
  touch s s1 a /\ live_ok s1 a rr (add_ref m (-1)) /\ (forall p, n_queued s1 p a = 0%nat) /\ ~ idle s a.
Proof.
  intros G Er Em [L1 L2 L3 L4 L5 L6 L7 L8 L9 L10] [R1 R2 R3 R4 R5 R6 R7 R8 R9 R10] s1.
  assert (Hq : forall p b, n_queued s1 p b = n_queued s p b) by (intros p b; unfold n_queued; cbn; by rewrite R4).
  assert (Hrg : forall b fl, n_region s1 b fl = n_region s b fl) by (intros b fl; unfold n_region; cbn; by rewrite R3).
  assert (Q0 : forall p, n_queued s p a = 0%nat).
  { intros p. destruct (L2 p) as [Hle H1]. destruct (decide (n_queued s p a = 1%nat)) as [E|]; [|lia]. destruct (H1 E) as (? & ? & _). lia. }
  split; [|split; [|split]].
  - split; try done.
    + intros b Hb. destruct (R9 b Hb) as [H1 H2]. split; try done; [cbn; by rewrite R1|].
      intros rb Eb. cbn. rewrite lookup_insert_ne; [by rewrite R2|]. intros E. apply Hb. symmetry. by apply (gd_inj s G a b rr rb).
    + exists rr, rr. cbn. by rewrite R1.
    + intros k. cbn. rewrite lookup_insert_is_Some', R2. split; [|by right]. intros [<-|]; [by rewrite Em|done].
    + intros p. cbn. by rewrite R4.
    + intros Hc. cbn. rewrite R8. by apply G.
  - change (n_posted s0 a) with (n_posted s1 a) in R10. change (n_exposed s0 a) with (n_exposed s1 a) in R10.
    split; try setoid_rewrite Hq; try setoid_rewrite Hrg; try setoid_rewrite Q0; try done; cbn [add_ref refcont]; try lia.
    intros Hc. specialize (L4 Hc). lia.
  - intros p. by rewrite Hq.
  - intros (_ & H1 & H2 & _). lia.
Qed.

Lemma dereg_spec s a b : (1 <= n_region s a b)%nat -> exists i, regions s !! i = Some (a, b) /\
  dereg_mr s (a, b) = Done (set_regions s (delete i (regions s))).
Proof.
  intros H. unfold dereg_mr. assert (Hin : (a, b) ∈ regions s) by (apply cnt_elem; unfold n_region in H; lia).
  destruct (list_find (eq (a, b)) (regions s)) as [[i x]|] eqn:E.
  - apply list_find_Some in E as (E & <- & _). exists i. by cbn.
  - apply list_find_None in E. rewrite list.Forall_forall in E. by destruct (E _ Hin).
Qed.

(** The region of a request, released if it has one. *)
Lemma dereg_flag s a b (f : bool) : (f = true -> (1 <= n_region s a b)%nat) ->
  exists s', (if f then dereg_mr s (a, b) else Done s) = Done s' /\ (exists l, s' = set_regions s l) /\
    forall x y, n_region s x y = ((if decide (f = true /\ (x, y) = (a, b)) then 1 else 0) + n_region s' x y)%nat.
Proof.
  intros H. destruct f.
  - destruct (dereg_spec s a b (H eq_refl)) as (i & Ei & ->). eexists. split; [done|]. split; [eauto|]. intros x y.
    unfold n_region. cbn. rewrite (cnt_delete (x, y) (a, b) _ i Ei).
    destruct (decide ((x, y) = (a, b))), (decide (true = true /\ (x, y) = (a, b))); tauto || lia.
  - exists s. split; [done|]. split; [exists (regions s); by destruct s|]. intros x y. by rewrite decide_False by (by intros []).
Qed.

Lemma release_done s a rr m : good s -> rrs s !! a = Some rr -> msgs s !! rr_msg rr = Some m -> live_ok s a rr m ->
  (forall p, n_queued s p a = 0%nat) -> refcont m = 0 ->
  exists s', release_request s a = Done (s', 0) /\ good s' /\ (forall b, b <> a -> same_at s s' b) /\ rrs s' = delete a (rrs s)
    /\ msgs s' = delete (rr_msg rr) (msgs s) /\ next_addr s' = next_addr s /\ polls s' = polls s /\ peers s' = peers s.
Proof.
  intros G Er Em [L1 L2 L3 L4 L5 L6 L7 L8 L9 L10] Hq Hr. unfold release_request. rewrite Er. cbn [deref mbind res_bind]. rewrite Em.
  cbn [deref mbind res_bind]. rewrite Hr. cbn [Z.eqb negb].
  destruct (dereg_flag s a false (rpc_mr rr) (L5 false)) as (s1 & -> & (l1 & ->) & C1). cbn [mbind res_bind].
  destruct (dereg_flag (set_regions s l1) a true (data_mr rr)) as (s2 & -> & (l2 & ->) & C2).
  { intros Hf. specialize (C1 a true). rewrite decide_False in C1 by (by intros []). specialize (L5 true Hf). lia. }
  cbn [mbind res_bind]. eexists. split; [done|]. set (s' := free_rr _ _).
  assert (Hc : forall x y, n_region s x y = ((if decide (flag rr y = true /\ x = a) then 1 else 0) + n_region s' x y)%nat).
  { intros x y. rewrite C1, C2. change (n_region s' x y) with (n_region (set_regions (set_regions s l1) l2) x y).
    set (k := n_region _ x y). assert (Ha : forall b : bool, (x, b) = (a, b) <-> x = a) by (split; congruence).
    destruct y; cbn [flag]; [rewrite (decide_False (P := _ /\ (x, true) = (a, false))) by (by intros [])
      |rewrite (decide_False (P := _ /\ (x, false) = (a, true))) by (by intros [])]; repeat case_decide; rewrite ?Ha in *; tauto || lia. }
  assert (Hsame : forall b, b <> a -> same_at s s' b).
  { intros b Hb. split; try done; [cbn; by rewrite lookup_delete_ne| |].
    - intros rb Eb. cbn. rewrite lookup_delete_ne; [done|]. intros E. apply Hb. symmetry. by apply (gd_inj s G a b rr rb).
    - intros fl. rewrite (Hc b fl), decide_False by tauto. done. }
  assert (Hl : rr_msg rr < next_addr s) by (apply (gd_lt s G); right; left; by rewrite Em).
  split; [|done]. destruct (gd_done s G) as [N1 N2]. split.
  - intros b. destruct (decide (b = a)) as [->|Hne]; [|by apply (request_same s); [apply Hsame|apply G]].
    unfold request_ok. cbn [s' free_rr set_heap rrs]. cbn. rewrite lookup_delete_eq. split.
    + change (n_posted s' a) with (n_posted s a). change (n_exposed s' a) with (n_exposed s a). split; [lia|]. split; [lia|exact Hq].
    + intros Hcl b. specialize (L6 Hcl b). rewrite Hc in L6. destruct (flag rr b); [rewrite decide_True in L6 by done|rewrite decide_False in L6 by (by intros [])]; lia.
  - intros b. cbn. rewrite elem_of_app, list_elem_of_singleton. intros [H|[H|[H| ->]]]; [..|done]; apply (gd_lt s G).
    + left. destruct H as [x [_ H]%lookup_delete_Some]. eauto.
    + right. left. destruct H as [x [_ H]%lookup_delete_Some]. eauto.
    + by right; right.
  - intros b c rb rc. cbn. intros [_ Eb]%lookup_delete_Some [_ Ec]%lookup_delete_Some. by apply (gd_inj s G).
  - cbn. split.
    + apply list.NoDup_app. split; [done|]. split; [|apply NoDup_singleton]. intros x Hx ->%list_elem_of_singleton. by rewrite N2 in Em.
    + intros x [Hx| ->%list_elem_of_singleton]%elem_of_app; [|apply lookup_delete_eq]. apply lookup_delete_None. right. by apply N2.
  - apply G.
Qed.

(** From the report to the release: [s1] after the count, [s2] after the
    answer to the peer, [s3] without the request. *)
Lemma complete_post k s s1 s2 s3 a rr : good s -> touch s s1 a -> ~ idle s a -> post k s1 s2 -> rrs s2 !! a = Some rr ->
  good s3 -> (forall b, b <> a -> same_at s2 s3 b) -> rrs s3 = delete a (rrs s2) -> msgs s3 = delete (rr_msg rr) (msgs s2) ->
  next_addr s3 = next_addr s2 -> polls s3 = polls s2 -> peers s3 = peers s2 -> post k s s3.
Proof.
  intros G T Hi P Er G3 Hs E1 E2 E3 E4 E5. pose proof P as [P1 P2 P3 P4 P5 P6 P7].
  assert (Ha : forall b, idle s b -> b <> a) by (by intros b Hb ->). split; [done| | | | | |].
  - intros b Hb. pose proof (tc_same _ _ _ T b (Ha b Hb)) as S1. pose proof (same_at_idle _ _ _ S1 Hb) as I1.
    eapply same_at_trans; [exact S1|]. eapply same_at_trans; [by apply P2|]. by apply Hs, Ha.
  - rewrite E3. pose proof (tc_next _ _ _ T). lia.
  - rewrite E4. pose proof (tc_polls _ _ _ T) as Ht. rewrite Ht in P4. lia.
  - intros p. specialize (P5 p). unfold weight in *. rewrite E4, E5. rewrite (tc_polls _ _ _ T) in P5.
    pose proof (tc_len _ _ _ T p). lia.
  - intros Hc b Hb. assert (b <> a) as Hne.
    { intros ->. destruct Hb as [[x Hx] _]. by rewrite E1, lookup_delete_eq in Hx. }
    assert (I2 : idle s2 b).
    { destruct (Hs b Hne) as [A1 A2 A3 A4 A5 A6], Hb as (B1 & B2 & B3 & B4). unfold idle. rewrite <- A1, <- A3, <- A4. setoid_rewrite <- A5. done. }
    apply P6 in I2; [|done]. destruct (tc_same _ _ _ T b Hne) as [A1 A2 A3 A4 A5 A6], I2 as (B1 & B2 & B3 & B4).
    unfold idle. rewrite <- A1, <- A3, <- A4. setoid_rewrite <- A5. done.
  - intros Hc x [[y Hy] H2]. rewrite E2, lookup_delete_Some in Hy. destruct Hy as [Hne Hy].
    apply (touch_loose s s1 a x T), P7; [done|]. split; [eauto|]. intros b rb Eb. destruct (decide (b = a)) as [->|Hb].
    + congruence.
    + apply (H2 b). by rewrite E1, lookup_delete_ne.
Qed.

Lemma release_ok k s s1 s2 a rr m : good s -> touch s s1 a -> ~ idle s a -> post k s1 s2 -> rrs s2 !! a = Some rr ->
  msgs s2 !! rr_msg rr = Some m -> live_ok s2 a rr m -> (forall p, n_queued s2 p a = 0%nat) ->
  (refcont m <> 0 -> post k s s2) -> (clean = true -> drained s1 s2) -> ok k s (release_request s2 a) (fun err => err = 0).
Proof.
  intros G T Hi P Er Em L Hq Hn Hdr. assert (Hdr2 : clean = true -> drained s s2).
  { intros Hc. eapply drained_trans; [apply drained_len, T|auto]. } destruct (Z.eq_dec (refcont m) 0) as [Hr|Hr].
  - destruct (release_done s2 a rr m (po_good _ _ _ P) Er Em L Hq Hr) as (s3 & -> & G3 & Hs & E1 & E2 & E3 & E4 & E5).
    split; [by eapply (complete_post k s s1 s2 s3 a rr)|]. intros Hc. split; [|done]. unfold drained. rewrite E5. by apply Hdr2.
  - unfold release_request. rewrite Er. cbn [deref mbind res_bind]. rewrite Em. cbn [deref mbind res_bind].
    rewrite (proj2 (Z.eqb_neq _ _) Hr). split; [by apply Hn|auto].
Qed.

(** A request that stays after a failure. *)
Lemma dirty_post k s s1 s2 a : (clean = true -> False) -> touch s s1 a -> ~ idle s a -> post k s1 s2 -> post k s s2.
Proof.
  intros Hc T Hi [P1 P2 P3 P4 P5 P6 P7]. split; try done; try (by intros ?%Hc).
  - intros b Hb. assert (Hne : b <> a) by by intros ->. pose proof (tc_same _ _ _ T b Hne) as S1.
    eapply same_at_trans; [exact S1|]. by apply P2, (same_at_idle s).
  - pose proof (tc_next _ _ _ T). lia.
  - by rewrite (tc_polls _ _ _ T) in P4.
  - intros p. specialize (P5 p). unfold weight in *. rewrite (tc_polls _ _ _ T) in P5. pose proof (tc_len _ _ _ T p). lia.
Qed.

Lemma live_same s s' a rr m : same_at s s' a -> live_ok s a rr m -> live_ok s' a rr m.
Proof.
  intros [A1 A2 A3 A4 A5 A6] [L1 L2 L3 L4 L5 L6 L7 L8 L9 L10].
  split; rewrite ?A3, ?A4; try setoid_rewrite A5; try setoid_rewrite A6; done.
Qed.

Lemma completion_ok s s0 a : good s -> (length (polls s) < depth)%nat -> is_Some (rrs s !! a) -> reported s s0 a ->
  ok 1 s (rpc_cb_req_completion rpc_commands sizeof_cmd garbage process_event s0 a) (fun err => err = 0).
Proof using Hpe.
  intros G Hd [rr Er] R. pose proof (gd_req s G a) as Rq. unfold request_ok in Rq. rewrite Er in Rq. destruct Rq as (m & Em & L).
  destruct (reported_touch s s0 a rr m G Er Em L R) as (T & L1 & Q1 & Hi).
  unfold rpc_cb_req_completion. rewrite (rp_rrs _ _ _ R), Er. cbn [deref mbind res_bind]. rewrite (rp_msgs _ _ _ R), Em. cbn [deref mbind res_bind].
  set (s1 := set_msg s0 _ _) in *.
  assert (Er1 : rrs s1 !! a = Some rr) by (cbn; by rewrite (rp_rrs _ _ _ R)).
  assert (Em1 : msgs s1 !! rr_msg rr = Some (add_ref m (-1))) by (cbn; by rewrite lookup_insert_eq).
  assert (G1 : good s1).
  { eapply touch_good; [exact G|exact T|]. unfold request_ok. rewrite Er1. eauto. }
  destruct (rr_type rr =? 1) eqn:Et; zbool.
  - assert (I1 : idle s1 a).
    { destruct (rp_one _ _ _ R) as [[H1 H2]|[H1 H2]]; pose proof (lo_direct _ _ _ _ L Et) as H3; [|lia].
      pose proof (lo_once _ _ _ _ L). change (n_posted s0 a) with (n_posted s1 a) in H1. change (n_exposed s0 a) with (n_exposed s1 a) in H2.
      split; [by rewrite Er1|]. split; [lia|]. split; [lia|done]. }
    set (dm := mk_msg _ _ _ _ _ _). pose proof (send_new s1 (msg_peer m) dm G1) as H.
    destruct (msg_buf_alloc s1 dm) as [s2 [d|]].
    + destruct (rpc_send _ _ _ _ _ _) as [[s3 err]|f]; [|apply H; [by cbn; rewrite (rp_polls _ _ _ R)|done|done]]. cbn [mbind res_bind].
      destruct H as [P Q]; [by cbn; rewrite (rp_polls _ _ _ R)|done|done|]. pose proof (po_idle _ _ _ P a I1) as S3.
      assert (Hn : refcont (add_ref m (-1)) <> 0 -> post 1 s s3).
      { intros Hne. apply (dirty_post 1 s s1 s3 a); try done. intros Hc. apply Hne.
        rewrite (lo_exact _ _ _ _ L1 Hc), (proj1 (proj2 I1)), (proj1 (proj2 (proj2 I1))). done. }
      destruct (err <? 0) eqn:Ee; zbool.
      { assert (Hc : clean = true -> False) by (intros Hc; destruct (Q Hc); lia). split; [by apply (dirty_post 1 s s1 s3 a)|by intros ?%Hc]. }
      apply (release_ok 1 s s1 s3 a rr (add_ref m (-1))); try done.
      * by rewrite (sa_rr _ _ _ S3).
      * by rewrite (sa_msg _ _ _ S3).
      * by apply (live_same s1).
      * intros p. by rewrite (sa_queued _ _ _ S3).
      * intros Hc. by destruct (Q Hc).
    + destruct H as [Hc P]; [by cbn; rewrite (rp_polls _ _ _ R)|done|done|]. split; [|congruence].
      apply (dirty_post 1 s s1 s2 a); [congruence|done|done|]. apply (post_mono 0); [lia|done].
  - apply (release_ok 1 s s1 s1 a rr (add_ref m (-1))); try done; [by apply post_refl| |by intros _ p].
    intros Hne. apply (post_mono 0); [lia|]. apply (touch_post s s1 a); try done.
    + unfold request_ok. rewrite Er1. eauto.
    + intros Hc (_ & H1 & H2 & _). pose proof (lo_exact _ _ _ _ L1 Hc) as H3. rewrite H1, H2 in H3. lia.
Qed.

(** *** Services and events *)

Lemma add_services (hs : list (Z * (Z -> wire_cmd -> list action))) : forall t,
  fold_left (fun t h => rpc_add_service t h.1 (svc_handler h.2)) hs t = t ++ map (fun h => (h.1, svc_handler h.2)) hs.
Proof.
  induction hs as [|h hs IH]; intros t; cbn [fold_left map]; [by rewrite app_nil_r|]. rewrite IH. unfold rpc_add_service.
  by rewrite <- app_assoc.
Qed.

Lemma commands_eq : rpc_commands = (peer_rdma_done, svc_cleanup) :: map (fun h => (h.1, svc_handler h.2)) handlers.
Proof. unfold rpc_commands_of. by rewrite add_services. Qed.

Lemma find_done id wr mr : find_service rpc_commands (mk_wire peer_rdma_done id wr mr) = Some svc_cleanup.
Proof. unfold find_service. by rewrite commands_eq. Qed.

Lemma find_other cmd : w_cmd cmd <> peer_rdma_done -> find_service rpc_commands cmd <> Some svc_cleanup.
Proof.
  intros Hc. unfold find_service. rewrite commands_eq. cbn. rewrite (proj2 (Z.eqb_neq _ _) Hc).
  induction handlers as [|h l IH]; cbn; [done|]. by destruct (w_cmd cmd =? h.1).
Qed.

(** The free of a message no request refers to. *)
Lemma free_post s m : good s -> clean = false -> map_Forall (fun _ rr => rr_msg rr <> m) (rrs s) ->
  post 0 s (set_heap s (rrs s) (delete m (msgs s)) (next_addr s)).
Proof.
  intros G Hc Hm. assert (Hsame : forall b, same_at s (set_heap s (rrs s) (delete m (msgs s)) (next_addr s)) b).
  { intros b. split; try done. intros rr E. cbn. rewrite lookup_delete_ne; [done|]. intros ->. by apply (Hm b rr E). }
  split; try congruence; auto; cbn; try lia.
  2:{ intros p. unfold weight. lia. }
  split; cbn; try congruence.
  - intros b. apply (request_same s); [done|]. apply G.
  - intros b H. apply (gd_lt s G). rewrite lookup_delete_is_Some in H. tauto.
  - apply G.
  - destruct (gd_done s G) as [D1 D2]. split; [done|]. intros x Hx. apply lookup_delete_None. right. by apply D2.
Qed.

Lemma caller_returns_ok k c m s r : ok k s r (fun err => err = 0) -> ok k s (caller_returns c m r) (fun err => err = 0).
Proof.
  intros H. destruct r as [[s' err]|f]; [|done]. destruct H as [P Q]. cbn.
  destruct (caller_fails c err && c_frees c) eqn:Ef; [|done].
  assert (Hc : clean = false).
  { destruct clean; [|done]. destruct (Q eq_refl) as [_ ->]. unfold caller_fails in Ef. by destruct (c_any c). }
  case_bool_decide as Hb; [|by right]. split; [|congruence].
  rewrite <- (Nat.add_0_r k). apply (post_trans _ _ _ s'); [done|]. apply free_post; [apply P|done|apply Hb].
Qed.

Lemma perform_ok s act : good s -> (length (polls s) < depth)%nat ->
  ok 1 s (perform rpc_commands sizeof_cmd process_event s act) (fun err => err = 0).
Proof using Hpe.
  intros G Hd. assert (Hnone : forall s', clean = false /\ post 0 s s' -> ok 1 s (Done (s', - ENOMEM)) (fun err => err = 0)).
  { intros s' [Hc P]. split; [apply (post_mono 0); [lia|done]|congruence]. }
  assert (Hdir : forall r, ok 0 s r (fun err : Z => err = 0) -> ok 1 s r (fun err => err = 0)).
  { intros [[s' x]|f] H; [|done]. destruct H as [P Q]. split; [apply (post_mono 0); [lia|done]|done]. }
  destruct act as [c p code data|c p cmd size|c p cmd size]; cbn [perform].
  - set (m := mk_msg _ _ _ _ _ _). pose proof (send_new s p m G Hd eq_refl eq_refl) as H.
    destruct (msg_buf_alloc s m) as [s1 [d|]]; [by apply caller_returns_ok|by apply Hnone].
  - set (m := mk_msg _ _ _ _ _ _). pose proof (direct_new rpc_send_direct s p m (or_introl eq_refl) G eq_refl eq_refl) as H.
    destruct (msg_buf_alloc s m) as [s1 [d|]]; [by apply caller_returns_ok, Hdir|by apply Hnone].
  - set (m := mk_msg _ _ _ _ _ _). pose proof (direct_new rpc_receive_direct s p m (or_intror eq_refl) G eq_refl eq_refl) as H.
    destruct (msg_buf_alloc s m) as [s1 [d|]]; [by apply caller_returns_ok, Hdir|by apply Hnone].
Qed.

Lemma perform_all_ok acts : forall s, good s -> (length (polls s) < depth)%nat ->
  ok (length acts) s (perform_all rpc_commands sizeof_cmd process_event s acts) (fun err => err = 0).
Proof using Hpe.
  induction acts as [|act acts IH]; intros s G Hd; [by apply ok_refl|]. cbn [perform_all length].
  apply (ok_bind 1 (length acts) _ _ _ (fun err => err = 0)); [by apply perform_ok|]. intros s1 err P Hq.
  destruct (caller_fails _ err); [apply ok_refl; [apply P|done]|].
  apply IH; [apply P|]. pose proof (po_polls _ _ _ P). lia.
Qed.

Lemma alive s a : good s -> (0 < n_posted s a + n_exposed s a)%nat -> is_Some (rrs s !! a).
Proof.
  intros G H. pose proof (gd_req s G a) as R. unfold request_ok in R. destruct (rrs s !! a); [eauto|]. destruct R as [(? & ? & _) _]. lia.
Qed.

Lemma exposed_reported s i a : exposed s !! i = Some a ->
  (0 < n_exposed s a)%nat /\ reported s (set_adapter s (posted s) (delete i (exposed s)) (wire s)) a.
Proof.
  intros E. assert (Hc : forall b, n_exposed s b = ((if decide (b = a) then 1 else 0) + cnt b (delete i (exposed s)))%nat)
    by (intros b; apply (cnt_delete b a _ i E)).
  pose proof (Hc a) as Ha. rewrite decide_True in Ha by done. split; [lia|]. split; try done.
  - intros b Hb. split; [done|]. rewrite Hc, decide_False by done. done.
  - right. by split; [|rewrite Ha].
Qed.

Lemma posted_reported s i p a : posted s !! i = Some (p, a) ->
  (0 < n_posted s a)%nat /\ reported s (count_posted (set_adapter s (delete i (posted s)) (exposed s) (wire s)) p (-1)) a.
Proof.
  intros E. assert (Ef : (snd <$> posted s) !! i = Some a) by (by rewrite list_lookup_fmap, E).
  assert (Hc : forall b, n_posted s b = ((if decide (b = a) then 1 else 0) + cnt b (snd <$> delete i (posted s)))%nat).
  { intros b. rewrite list_fmap_delete. apply (cnt_delete b a _ i Ef). }
  pose proof (Hc a) as Ha. rewrite decide_True in Ha by done. split; [lia|]. split; try done.
  - intros q. cbn. destruct (decide (q = p)) as [->|Hne]; [by rewrite fn_lookup_insert|by rewrite fn_lookup_insert_ne].
  - intros b Hb. split; [|done]. rewrite Hc, decide_False by done. done.
  - left. by split; [rewrite Ha|].
Qed.

Definition fine_wc (r : option Z) : Prop := match r with Some err => 0 <= err | None => True end.

Lemma process_wc_ok s w : good s -> (length (polls s) < depth)%nat ->
  ok (wc_weight rpc_commands w) s (process_wc rpc_commands sizeof_cmd garbage process_event s w) fine_wc.
Proof using Hpe.
  intros G Hd. destruct w as [|from cmd|i|i|op]; cbn [process_wc wc_weight].
  - by apply ok_refl.
  - destruct (w_cmd cmd =? peer_rdma_done) eqn:Ec; zbool; [by apply ok_refl|]. apply find_other in Ec. unfold rpc_cb_decode.
    destruct (find_service rpc_commands cmd) as [[|f]|]; [done| |by apply ok_refl].
    pose proof (perform_all_ok (f from cmd) s G Hd) as H. destruct (perform_all _ _ _ _ _) as [[s1 err]|x]; [|done]. destruct H as [P Q].
    split; [done|]. intros Hc. by destruct (Q Hc).
  - destruct (exposed s !! i) as [a|] eqn:Ea; [|by apply ok_refl]. unfold rpc_cb_decode. rewrite find_done. unfold rpc_cb_cleanup. cbn [w_wr_id].
    destruct (exposed_reported s i a Ea) as [Hp R]. pose proof (completion_ok s _ a G Hd ltac:(apply alive; [done|lia]) R) as H.
    destruct (rpc_cb_req_completion _ _ _ _ _ _) as [[s1 err]|x]; [|done]. destruct H as [P Q].
    split; [done|]. intros Hc. by destruct (Q Hc).
  - destruct (posted s !! i) as [[p a]|] eqn:Ea; [|by apply ok_refl].
    destruct (posted_reported s i p a Ea) as [Hp R]. pose proof (completion_ok s _ a G Hd ltac:(apply alive; [done|lia]) R) as H.
    destruct (rpc_cb_req_completion _ _ _ _ _ _) as [[s1 err]|x]; [|done]. destruct H as [P Q]. split; [done|].
    intros Hc. destruct (Q Hc) as [? ->]. done.
  - apply ok_refl; [done|]. cbn. lia.
Qed.

Lemma rpc_process_ok batch : forall s, good s -> (length (polls s) < depth)%nat ->
  ok (sum_list (wc_weight rpc_commands <$> batch)) s (rpc_process rpc_commands sizeof_cmd garbage process_event s batch) (fun err => 0 <= err).
Proof using Hpe.
  induction batch as [|w batch IH]; intros s G Hd; [by apply ok_refl|]. cbn [rpc_process].
  change (sum_list (wc_weight rpc_commands <$> w :: batch)) with (wc_weight rpc_commands w + sum_list (wc_weight rpc_commands <$> batch))%nat.
  apply (ok_bind (wc_weight rpc_commands w) (sum_list (wc_weight rpc_commands <$> batch)) _ _ _ fine_wc); [by apply process_wc_ok|].
  intros s1 [err|] P Hq; [apply ok_refl; [apply P|exact Hq]|]. apply IH; [apply P|]. pose proof (po_polls _ _ _ P). lia.
Qed.

Lemma process_batches_ok bs : forall s, good s -> (length (polls s) < depth)%nat ->
  ok (poll_weight rpc_commands (poll_ready bs)) s (process_batches rpc_commands sizeof_cmd garbage process_event s bs) (fun err => err = 0).
Proof using Hpe.
  induction bs as [|b bs IH]; intros s G Hd; [by apply ok_refl|]. cbn [process_batches].
  assert (poll_weight rpc_commands (poll_ready (b :: bs)) =
    (sum_list (wc_weight rpc_commands <$> b) + poll_weight rpc_commands (poll_ready bs))%nat) as ->.
  { cbn. by rewrite fmap_app, sum_list_with_app || (rewrite fmap_app; apply sum_list_with_app). }
  apply (ok_bind _ _ _ _ _ (fun err => 0 <= err)); [by apply rpc_process_ok|]. intros s1 err P Hq. case_if; zbool.
  - apply ok_refl; [apply P|]. intros Hc. specialize (Hq Hc). lia.
  - apply IH; [apply P|]. pose proof (po_polls _ _ _ P). lia.
Qed.

Lemma pop_post k s s' q ps : polls s = q :: ps -> (k <= poll_weight rpc_commands q)%nat -> post k (set_script s ps (oracle s)) s' -> post 0 s s'.
Proof.
  intros E Hk [P1 P2 P3 P4 P5 P6 P7]. split; try done.
  - intros a Ha. destruct (P2 a Ha). by split.
  - cbn in P4. rewrite E. cbn. lia.
  - intros p. specialize (P5 p). unfold weight in *. rewrite E. cbn in *. lia.
Qed.

Lemma pop_good s ps : good s -> good (set_script s ps (oracle s)).
Proof.
  intros [G1 G2 G3 G4 G5]. split; try done. intros a. apply (request_same s); [by split|done].
Qed.

End Nested.

Lemma events_ok depth : forall s, good s -> (length (polls s) < depth)%nat ->
  ok 0 s (rpc_process_event_with_timeout rpc_commands sizeof_cmd garbage depth s) fine_event.
Proof.
  induction depth as [|d IH]; intros s G Hd; [lia|]. cbn [rpc_process_event_with_timeout]. unfold process_event_body.
  destruct (polls s) as [|q ps] eqn:Ep; [apply ok_refl; [done|by right]|].
  pose proof (pop_good s ps G) as G0. destruct q as [| |bs].
  - split; [|by split; [intros p|left]]. apply (pop_post 0 s _ poll_error ps); [done|lia|by apply post_refl].
  - split; [|by split; [intros p|right]]. apply (pop_post 0 s _ poll_timeout ps); [done|lia|by apply post_refl].
  - pose proof (process_batches_ok _ d IH bs (set_script s ps (oracle s)) G0) as H.
    destruct (process_batches _ _ _ _ _ _) as [[s1 err]|f]; [|apply H; cbn in *; lia].
    destruct H as [P Q]; [cbn in *; lia|]. split; [by eapply pop_post|]. intros Hc. destruct (Q Hc). split; [done|by left].
Qed.

Lemma step_ok s o : good s -> ok 1 s (rpc_step rpc_commands sizeof_cmd garbage s o) (fun err => err = 0).
Proof.
  intros G. assert (Hd : (length (polls s) < S (length (polls s)))%nat) by lia. destruct o as [act|]; unfold rpc_step.
  - apply (perform_ok _ (S (length (polls s))) (events_ok _)); done.
  - unfold rpc_process_event. apply (ok_bind 0 1 _ _ _ fine_event); [by apply events_ok|]. intros s1 err P Hq.
    apply ok_refl; [apply P|]. intros Hc. destruct (Hq Hc) as [->| ->]; done.
Qed.

(** A run: the invariant, and without failures nothing is left over. *)
Lemma run_ok ops : forall s, good s ->
  match rpc_run rpc_commands sizeof_cmd garbage s ops with
  | Done (s', errs) => good s' /\ (clean = true -> drained s s' /\ Forall (eq 0) errs /\ (forall a, idle s' a -> idle s a) /\ forall m, loose s' m -> loose s m)
  | Fault f => may_fault f
  end.
Proof.
  induction ops as [|o ops IH]; intros s G; cbn [rpc_run]; [by split; [|split; [intros p|]]|].
  pose proof (step_ok s o G) as H. destruct (rpc_step _ _ _ _ _) as [[s1 err]|f]; [|done]. cbn [mbind res_bind]. destruct H as [P Q].
  specialize (IH s1 (po_good _ _ _ P)). destruct (rpc_run _ _ _ _ _) as [[s2 errs]|f]; [|done]. cbn [mbind res_bind].
  destruct IH as [G2 H2]. split; [done|]. intros Hc. destruct (Q Hc) as [D1 ->], (H2 Hc) as (D2 & F2 & I2 & L2).
  split; [by eapply drained_trans|]. split; [by constructor|]. split; [intros a Ha; apply (po_new_idle _ _ _ P Hc), I2, Ha|].
  intros m Hm. apply (po_loose _ _ _ P Hc), L2, Hm.
Qed.

Lemma start_good id ct ps o : (clean = true -> o = []) -> good (rpc_start id ct ps o).
Proof.
  intros Ho. split; try done.
  - intros a H. exfalso. destruct H as [[x Hx]|[[x Hx]|Hx]]; [done|done|by apply not_elem_of_nil in Hx].
  - split; [constructor|]. by intros m ?%not_elem_of_nil.
Qed.

End Invariant.

(** ** Theorems *)


(** Callers that free their message after a negative code, as [dc_obj_put]
    does, after any error, as the server does, and that keep it. *)
Definition frees_negative : caller := mk_caller false true.
Definition frees_any : caller := mk_caller true true.
Definition keeps : caller := mk_caller false false.


(** C24: nothing is lost.  When no allocation, registration or post fails, a
    run meets the fault [list_head] (see [send_takes_list_head]) or every call
    of it returns 0 and leaves no request waiting; once the adapter has
    reported every post and the peers have answered every region, all requests
    and messages have been freed and all memory regions released. *)
Theorem rpc_requests_complete handlers sizeof_cmd garbage id ct ps ops :
  match rpc_run (rpc_commands_of handlers) sizeof_cmd garbage (rpc_start id ct ps []) ops with
  | Done (s, errs) =>
      Forall (eq 0) errs /\ (forall p, req_list (peers s p) = []) /\
      (posted s = [] -> exposed s = [] -> rrs s = ∅ /\ msgs s = ∅ /\ regions s = [])
  | Fault f => f = list_head
  end.
Proof.
  pose proof (run_ok handlers sizeof_cmd garbage true ops (rpc_start id ct ps [])) as H.
  destruct (rpc_run _ _ _ _ _) as [[s errs]|f]; [|by destruct H as [?|[]]; [apply start_good|..]].
  destruct H as (G & H); [by apply start_good|]. destruct (H eq_refl) as (D & F & Hi & Hl).
  assert (Hq : forall p, req_list (peers s p) = []) by (intros p; by apply D). split; [done|]. split; [done|]. intros Ep Ee.
  assert (Hr : rrs s = ∅).
  { apply map_eq. intros a. rewrite lookup_empty. apply eq_None_not_Some. intros Ha. destruct (Hi a) as [[x Hx] _]; [|done].
    split; [done|]. unfold n_posted, n_exposed, n_queued. rewrite Ep, Ee. setoid_rewrite Hq. done. }
  split; [done|]. split.
  - apply map_eq. intros m. rewrite lookup_empty. apply eq_None_not_Some. intros Hm. destruct (Hl m) as [[x Hx] _]; [|done].
    split; [done|]. intros a rr. by rewrite Hr, lookup_empty.
  - apply cnt_zero_nil. intros [a b]. pose proof (gd_req _ _ G a) as R. unfold request_ok in R. rewrite Hr, lookup_empty in R. by apply R.
Qed.

(** A server fetches the region of a command and sends a message with data;
    the reports and the answer of the peer arrive in any order. *)
Definition demo_cmd : wire_cmd := mk_wire 40 1 777 true.
Definition demo_polls : list poll_result :=
  [poll_ready [[wc_done 0]]; poll_ready [[wc_posted 0; wc_posted 0]]; poll_ready [[wc_posted 0]]].
Definition demo_ops : list rpc_op :=
  [op_action (act_receive_direct frees_any 1 demo_cmd 8); op_action (act_send frees_any 1 50 (Some 100)); op_events; op_events; op_events].

Lemma rpc_requests_complete_witness : exists s,
  rpc_run (rpc_commands_of []) 64 0 (rpc_start 5 dart_server demo_polls []) demo_ops = Done (s, [0; 0; 0; 0; 0])
  /\ completed s = [0; 2; 4] /\ rrs s = ∅ /\ msgs s = ∅ /\ regions s = [].
Proof.
  pose proof (rpc_requests_complete [] 64 0 5 dart_server demo_polls demo_ops) as H.
  assert (E : (if rpc_run (rpc_commands_of []) 64 0 (rpc_start 5 dart_server demo_polls []) demo_ops is Done (s, errs)
    then Some (errs, completed s, posted s, exposed s) else None) = Some ([0; 0; 0; 0; 0], [0; 2; 4], [], [])) by (vm_compute; reflexivity).
  destruct (rpc_run _ _ _ _ _) as [[s errs]|f]; [|done]. injection E as -> E1 E2 E3. exists s. split; [done|]. split; [done|].
  by apply H.
Defined.

(** A client sends to the peer it fetches from: the report of the fetch
    arrives while [rpc_send] processes events, the answer [peer_rdma_done]
    goes through the same list and empties it. *)
Lemma send_takes_list_head :
  rpc_run (rpc_commands_of []) 64 0 (rpc_start 5 dart_client [poll_ready [[wc_posted 0]]] [])
    [op_action (act_receive_direct frees_negative 1 demo_cmd 8); op_action (act_send frees_negative 1 50 None)] = Fault list_head.
Proof. vm_compute. reflexivity. Qed.

(** A send whose registration fails returns an error and leaves the request
    in the list: a caller that frees the message frees one in use, a caller
    that keeps it has it sent with the next message to the peer. *)
Lemma freed_send_faults :
  rpc_run (rpc_commands_of []) 64 0 (rpc_start 5 dart_server [] [true; true; false])
    [op_action (act_send frees_negative 1 50 None)] = Fault caller_free.
Proof. vm_compute. reflexivity. Qed.

Lemma failed_send_stays_queued : exists s,
  rpc_run (rpc_commands_of []) 64 0 (rpc_start 5 dart_server [] [true; true; false]) [op_action (act_send keeps 1 50 None)] = Done (s, [- ENOMEM])
  /\ req_list (peers s 1) = [1] /\ (rr_msg <$> rrs s !! 1) = Some 0.
Proof. eexists. split; [vm_compute; reflexivity|]. split; reflexivity. Qed.
