(* ===== verification/DimesSystem.v ===== *)
(** * DIMES as a whole: puts of clients, location servers, a get

    The clients of one space put objects into their own memory and tell the
    servers; the messages reach the servers in any order.  A get asks the
    servers its box hashes to and reads the pieces from the memory of the
    clients.  The theorem composes the put ([DimesClient]), the location
    servers ([DimesMeta]), the hash ([HashService]) and the get
    ([DimesGet]): once the messages have arrived, a get returns what was put.

    The system is described for variables of the default space and for
    clients without the shared memory segment.  [log] and [puts] record what
    happened: the requests a server handled, the puts that returned 0.  The
    put that fails, and the one that returns 0 without having told all
    servers, are treated in [DimesClient]. *)

From stdpp Require Import gmap functions relations.
From S2P Require Import Prelude Bbox Matrix ObjDesc Storage Sspace Server HashService DimesBuf DimesMeta Rdma DimesStore DimesClient DimesFetch DimesGet.

#[local] Open Scope Z_scope.

(** ** The system *)

Record put_rec := mk_put { pt_cmd : rpc_cmd; pt_data : list byte; pt_ranks : list Z }.

Definition pt_desc (pt : put_rec) : obj_descriptor := cmd_odsc (pt_cmd pt).

Record dsys := mk_dsys {
  clients : Z -> dimes_client;
  servers : Z -> dimes_server;
  in_flight : list (Z * rpc_cmd);
  log : Z -> list rpc_cmd;
  puts : list put_rec }.

(** The put requests among the messages of a client, and the record of the
    put. *)
Definition put_msgs (sent : list (Z * dcmsg)) : list (Z * rpc_cmd) :=
  omap (fun m => match snd m with dimes_put_msg cmd => Some (fst m, cmd) | _ => None end) sent.

Definition put_record (data : list byte) (sent : list (Z * dcmsg)) : list put_rec :=
  match put_msgs sent with
  | (r, cmd) :: ms => [mk_put cmd data (r :: map fst ms)]
  | [] => []
  end.

Section System.
Context (ss0 : sspace) (N fuel : nat) (query : bbox -> Prop) (cell : list Z -> Prop) (own : list Z -> nat -> Prop)
  (good_cache : sh_state -> Prop) {HS : HashService ss0 N fuel query cell own good_cache}.
Context (max : Z) (Hmax : 0 < max).

(** A client of the space. *)
Record client_ok (w : Z) (c : dimes_client) : Prop := {
  ck_self : dc_self c = w;
  ck_ssd : default_ssd c = ss0;
  ck_srv : dc_num_srv c = N;
  ck_cache : good_cache (dc_cache c);
  ck_gdims : dc_gdim_list c = [];
  ck_mem : mem_inv (dc_mem c) (held (dc_store c));
  ck_shmem : enable_shmem_buffer (options (dc_mem c)) = false;
  ck_max : 0 < sto_max_versions (dc_store c);
  ck_wf : groups_wf (sto_max_versions (dc_store c)) (sto_groups (dc_store c)) }.

(** The environment of a put that does not run out of messages. *)
Record put_env (env : client_env) (c : dimes_client) : Prop := {
  pe_fuel : ce_fuel env = fuel;
  pe_group : ce_group env = true;
  pe_mem : env_ok (ce_mem env) (dc_mem c);
  pe_dereg : dereg_ok (ce_mem env);
  pe_msg : forall r, ce_msg env r = true }.

(** An object that may be put: a box the hash takes, data for all cells. *)
Record put_args (odsc : obj_descriptor) (data : list byte) : Prop := {
  pa_query : query (bb odsc);
  pa_buf : buf_ok odsc data;
  pa_size : 0 < obj_data_size odsc;
  pa_version : version_ok (version odsc) }.

Inductive dstep : dsys -> dsys -> Prop :=
  | d_put d w env var ver es nd lb ub data c' sent :
      put_env env (clients d w) -> put_args (client_odsc var ver es nd lb ub w) data ->
      dimes_client_put env (clients d w) var ver es nd lb ub data = Some (c', sent, 0) ->
      dstep d (mk_dsys (<[w := c']> (clients d)) (servers d) (in_flight d ++ put_msgs sent) (log d)
                 (puts d ++ put_record data sent))
  | d_deliver d i r cmd s' rc :
      in_flight d !! i = Some (r, cmd) -> dsgrpc_dimes_put (servers d r) cmd = Some (s', rc) ->
      dstep d (mk_dsys (clients d) (<[r := s']> (servers d)) (delete i (in_flight d))
                 (<[r := log d r ++ [cmd]]> (log d)) (puts d)).

Record dsys_start (d : dsys) : Prop := {
  st_client : forall w, client_ok w (clients d w);
  st_server : forall r, servers d r = mk_dserver r max (metadata_s_alloc max);
  st_flight : in_flight d = [];
  st_log : forall r, log d r = [];
  st_puts : puts d = [] }.

(** ** Hashing in the default space *)

(** The ranks a box hashes to. *)
Definition hashed (b : bbox) (ranks : list Z) : Prop :=
  NoDup ranks /\ forall r, r ∈ ranks <-> exists k, r = Z.of_nat k /\ exists p, in_box b p /\ own p k.

Lemma hash_nodes_default env w c b : client_ok w c -> ce_fuel env = fuel -> query b ->
  exists c1 ranks, hash_nodes env c (dc_default_gdim c) b = Some (c1, ranks) /\ good_cache (dc_cache c1) /\ hashed b ranks.
Proof using HS.
  intros [] Hf Hq. unfold hash_nodes, lookup_sspace_dimes. rewrite gdim_equal_refl. cbn [mbind option_bind].
  rewrite ck_ssd0, Hf. destruct (hs_run (ce_hash_ok env) (dc_cache c) b ck_cache0 Hq) as (sh' & t & -> & Hc & Hnd & Ht).
  cbn [mbind option_bind]. unfold node_ranks.
  rewrite (mapM_total _ (fun p => Z.of_nat (snd p)) t).
  2:{ intros [i k] Hin. apply Ht in Hin as (-> & p & Hp & Ho). cbn [default_ssd set_spaces List.find fst snd].
      rewrite ck_ssd0, Nat.eqb_refl. cbn [mbind option_bind].
      destruct (lookup_lt_is_Some_2 (ent_tab (ss_dht ss0)) k) as [de Hde]; [rewrite hs_len; by eapply hs_lt|].
      rewrite Hde. cbn. by rewrite (hs_rank k de Hde). }
  cbn [mbind option_bind]. eexists _, _. split; [done|]. split; [done|]. split.
  - apply NoDup_fmap_2_strong; [|done]. intros [i k] [i' k'] [-> _]%Ht [-> _]%Ht E. cbn in E. f_equal. lia.
  - intros r. rewrite list_elem_of_fmap. split.
    + intros ([i k] & -> & [-> Hp]%Ht). eauto.
    + intros (k & -> & Hp). exists (ss_ptr ss0, k). split; [done|]. by apply Ht.
Qed.

Lemma hashed_lt b ranks r : hashed b ranks -> r ∈ ranks -> 0 <= r < Z.of_nat N.
Proof using HS. intros [_ Hr] (k & -> & p & _ & Ho)%Hr. apply hs_lt in Ho. lia. Qed.

(** Boxes with a common cell have a common server. *)
Lemma hashed_meet b1 b2 ranks1 ranks2 p : hashed b1 ranks1 -> hashed b2 ranks2 -> in_box b1 p -> in_box b2 p -> cell p ->
  exists r, r ∈ ranks1 /\ r ∈ ranks2.
Proof using HS.
  intros [_ H1] [_ H2] Hp1 Hp2 Hc. destruct (hs_owner p Hc) as [k Hk]. exists (Z.of_nat k).
  split; [apply H1 | apply H2]; eauto 10.
Qed.

(** ** The invariant *)

(** The bytes of a put are in the memory of its owner, where the request
    says they are. *)
Record put_kept (cl : Z -> dimes_client) (pt : put_rec) : Prop := {
  pk_args : put_args (pt_desc pt) (pt_data pt);
  pk_ranks : hashed (bb (pt_desc pt)) (pt_ranks pt);
  pk_obj : exists h, h ∈ held (dc_store (cl (owner (pt_desc pt)))) /\ fst (cmd_mr (pt_cmd pt)) = base_addr h;
  pk_bytes : exists blk, heap (dc_mem (cl (owner (pt_desc pt)))) !! fst (cmd_mr (pt_cmd pt)) = Some blk
    /\ take (Z.to_nat (obj_data_size (pt_desc pt))) (mb_bytes blk)
       = take (Z.to_nat (obj_data_size (pt_desc pt))) (pt_data pt) }.

Record dinv (d : dsys) : Prop := {
  di_client : forall w, client_ok w (clients d w);
  di_server : forall r, refines max r (servers d r) (fold_left (loc_add max) (log d r) []);
  di_puts : forall pt, pt ∈ puts d -> put_kept (clients d) pt;
  di_told : forall r cmd, cmd ∈ log d r \/ (r, cmd) ∈ in_flight d <->
    exists pt, pt ∈ puts d /\ pt_cmd pt = cmd /\ r ∈ pt_ranks pt }.

Lemma put_msgs_all cmd ranks : put_msgs (map (fun r => (r, dimes_put_msg cmd)) ranks) = map (fun r => (r, cmd)) ranks.
Proof. induction ranks as [|r ranks IH]; [done|]. cbn. f_equal. exact IH. Qed.

Lemma put_record_all data cmd ranks : ranks <> [] ->
  put_record data (map (fun r => (r, dimes_put_msg cmd)) ranks) = [mk_put cmd data ranks].
Proof.
  intros Hr. unfold put_record. rewrite put_msgs_all. destruct ranks as [|r ranks]; [done|]. cbn [map].
  replace (map fst (map (fun r => (r, cmd)) ranks)) with ranks; [done|]. clear Hr.
  induction ranks as [|x ranks IH]; [done|]. cbn. by rewrite <- IH.
Qed.

Lemma config_shmem m m' : config m' = config m -> enable_shmem_buffer (options m') = enable_shmem_buffer (options m).
Proof. intros H. apply (f_equal (fun x => enable_shmem_buffer (fst (fst x)))) in H. exact H. Qed.

(** A put of an object the system takes: the client stays a client of the
    space, what it put before stays where it is, and the new object is
    recorded. *)
Lemma put_client d w env var ver es nd lb ub data c' sent :
  dinv d -> put_env env (clients d w) -> put_args (client_odsc var ver es nd lb ub w) data ->
  dimes_client_put env (clients d w) var ver es nd lb ub data = Some (c', sent, 0) ->
  (forall h, h ∈ held (dc_store (clients d w)) ->
     heap (dc_mem c') !! base_addr h = heap (dc_mem (clients d w)) !! base_addr h) /\
  client_ok w c' /\ exists cmd ranks, sent = map (fun r => (r, dimes_put_msg cmd)) ranks /\ ranks <> [] /\
    (forall h, h ∈ held (dc_store (clients d w)) -> h ∈ held (dc_store c')) /\
    forall cl, cl w = c' -> put_kept cl (mk_put cmd data ranks).
Proof using HS Hmax.
  intros Hi [P1 P2 P3 P4 P5] [A1 A2 A3 A4] E. pose proof (di_client d Hi w) as Hc. set (c := clients d w) in *.
  destruct (hash_nodes_default env w c _ Hc P1 A1) as (c1 & ranks & Hh & Hcache & Hrk). destruct Hc as [].
  set (odsc := client_odsc var ver es nd lb ub w) in *.
  destruct (client_put_spec env c var ver es nd lb ub data [] c1 ranks) as (c2 & sent2 & err2 & E2 & Hm & Hold & Hr);
    rewrite ?app_nil_r, ?ck_self0; try done.
  { split; [done|]. apply (bo_len _ _ A2). }
  { unfold set_global_dimension. rewrite ck_gdims0. exact Hh. }
  rewrite E in E2. injection E2 as <- <- Ez. subst err2. rewrite app_nil_r in Hm. split; [done|].
  destruct Hr as [(_ & (o & Ho & Hmr) & Hk & Hconf)|[Herr _]]; [|lia].
  rewrite ck_self0 in Ho. fold odsc in Ho. destruct Ho as [O1 O2 O3 O4 (blk & O5 & O5') O6 O7], Hk. split.
  { split; try congruence. rewrite <- ck_shmem0. by apply config_shmem. }
  exists (put_cmd c' o), ranks. split; [done|]. split; [done|]. split.
  { intros h Hin. unfold held in *. apply list_elem_of_In, in_map_iff in Hin as (o' & <- & Hin%list_elem_of_In).
    apply list_elem_of_In, in_map, list_elem_of_In. rewrite O3. by right. }
  assert (Hd : cmd_odsc (put_cmd c' o) = odsc) by (cbn; done).
  intros cl Hcl. split; unfold pt_desc; cbn [pt_cmd pt_data pt_ranks]; rewrite ?Hd; try done.
  - change (owner odsc) with w. rewrite Hcl. exists (mo_hndl o). cbn. split; [|done]. unfold held.
    apply list_elem_of_In, in_map, list_elem_of_In. rewrite O3. by left.
  - change (owner odsc) with w. rewrite Hcl. exists blk. cbn. by rewrite Hmr.
Qed.

Lemma put_kept_frame cl w c' pt :
  (forall h, h ∈ held (dc_store (cl w)) -> heap (dc_mem c') !! base_addr h = heap (dc_mem (cl w)) !! base_addr h) ->
  (forall h, h ∈ held (dc_store (cl w)) -> h ∈ held (dc_store c')) -> put_kept cl pt -> put_kept (<[w := c']> cl) pt.
Proof.
  intros Hh Hs [K1 K2 (h & K3 & K3') (blk & K4 & K4')]. destruct (decide (owner (pt_desc pt) = w)) as [E|Hne].
  - split; [done|done|..]; rewrite E, ?fn_lookup_insert; rewrite E in K3, K4; [eauto|].
    exists blk. split; [|done]. rewrite K3'. rewrite Hh by done. by rewrite <- K3'.
  - split; [done|done|..]; rewrite fn_lookup_insert_ne by done; eauto.
Qed.

Lemma dinv_put d w env var ver es nd lb ub data c' sent :
  dinv d -> put_env env (clients d w) -> put_args (client_odsc var ver es nd lb ub w) data ->
  dimes_client_put env (clients d w) var ver es nd lb ub data = Some (c', sent, 0) ->
  dinv (mk_dsys (<[w := c']> (clients d)) (servers d) (in_flight d ++ put_msgs sent) (log d) (puts d ++ put_record data sent)).
Proof using HS Hmax.
  intros Hi He Ha E. destruct (put_client d w env var ver es nd lb ub data c' sent Hi He Ha E)
    as (Hold & Hc & cmd & ranks & -> & Hne & Hsub & Hpt). rewrite put_record_all by done. rewrite put_msgs_all.
  split; cbn [clients servers in_flight log puts].
  - intros w'. destruct (decide (w' = w)) as [->|]; [by rewrite fn_lookup_insert|].
    rewrite fn_lookup_insert_ne by done. apply (di_client d Hi).
  - apply (di_server d Hi).
  - intros pt [Hin| ->%list_elem_of_singleton]%elem_of_app.
    + apply put_kept_frame; [done..|]. by apply (di_puts d Hi).
    + apply Hpt. apply fn_lookup_insert.
  - intros r cmd'. rewrite elem_of_app, list_elem_of_fmap. setoid_rewrite elem_of_app. setoid_rewrite list_elem_of_singleton.
    pose proof (di_told d Hi r cmd') as Ht. split.
    + intros [Hl|[Hf|(r' & [= -> ->] & Hr)]]; [..|eexists; split; [by right|done]].
      * destruct (proj1 Ht) as (pt & H1 & H2); [by left|]. eauto.
      * destruct (proj1 Ht) as (pt & H1 & H2); [by right|]. eauto.
    + intros (pt & [Hin| ->] & <- & Hr); [|right; right; eauto].
      destruct (proj2 Ht) as [|]; eauto.
Qed.

Lemma dinv_deliver d i r cmd s' rc : dinv d -> in_flight d !! i = Some (r, cmd) ->
  dsgrpc_dimes_put (servers d r) cmd = Some (s', rc) ->
  dinv (mk_dsys (clients d) (<[r := s']> (servers d)) (delete i (in_flight d)) (<[r := log d r ++ [cmd]]> (log d)) (puts d)).
Proof using HS Hmax.
  intros Hi Hf E. destruct (delete_split _ _ _ Hf) as (l1 & l2 & El & ->).
  assert (Hv : version_ok (version (cmd_odsc cmd))).
  { destruct (proj1 (di_told d Hi r cmd)) as (pt & Hin & <- & _); [right; rewrite El; apply elem_of_app; right; by left|].
    apply (pa_version _ _ (pk_args _ _ (di_puts d Hi pt Hin))). }
  destruct (add_refines max r (servers d r) _ cmd (di_server d Hi r) Hv) as (s1 & E1 & Hr1).
  unfold dsgrpc_dimes_put in E. rewrite E1 in E. cbn in E. injection E as <- <-.
  split; cbn [clients servers in_flight log puts]; [apply (di_client d Hi)| |apply (di_puts d Hi)|].
  - intros r'. destruct (decide (r' = r)) as [->|]; [|rewrite !fn_lookup_insert_ne by done; apply (di_server d Hi)].
    rewrite !fn_lookup_insert, fold_left_app. exact Hr1.
  - intros r' cmd'. rewrite <- (di_told d Hi r' cmd'), El. destruct (decide (r' = r)) as [->|Hne].
    + rewrite fn_lookup_insert, !elem_of_app, list_elem_of_singleton, elem_of_cons.
      assert ((r, cmd') = (r, cmd) <-> cmd' = cmd) as -> by (split; [congruence | (done || congruence)]). tauto.
    + rewrite fn_lookup_insert_ne, !elem_of_app, elem_of_cons by done.
      assert ((r', cmd') = (r, cmd) <-> False) as -> by (split; [congruence | (done || congruence)]). tauto.
Qed.

Lemma dinv_start d : dsys_start d -> dinv d.
Proof using Hmax.
  intros [S1 S2 S3 S4 S5]. split; [done| | |].
  - intros r. rewrite S2, S4. split; cbn; try done; [by apply meta_alloc_inv|].
    intros c. split; [by intros []%alloc_located | by intros []%not_elem_of_nil].
  - intros pt. rewrite S5. by intros []%not_elem_of_nil.
  - intros r cmd. rewrite S3, S4, S5. split.
    + by intros [[]%not_elem_of_nil|[]%not_elem_of_nil].
    + by intros (pt & []%not_elem_of_nil & _).
Qed.

Lemma dinv_reach d0 d : dsys_start d0 -> rtc dstep d0 d -> dinv d.
Proof using HS Hmax.
  intros Hs H. apply dinv_start in Hs. revert Hs. induction H as [|d0 d1 d2 Hs _ IH]; [done|]. intros Hi. apply IH.
  destruct Hs; eauto using dinv_put, dinv_deliver.
Qed.

(** ** The get *)

(** A put is contested when another one of the variable, in the same version
    bin, has a box that meets it: the servers keep the later one. *)
Definition uncontested (d : dsys) (pt : put_rec) : Prop :=
  forall pt', pt' ∈ puts d -> loc_competes max (pt_cmd pt') (pt_cmd pt) = true -> pt_cmd pt' = pt_cmd pt.

(** What a get asks for. *)
Definition asked (q : obj_descriptor) (pt : put_rec) : Prop := obj_desc_equals_intersect q (pt_desc pt) = true.

Lemma fold_loc_sub l : forall L c, c ∈ fold_left (loc_add max) l L -> c ∈ l \/ c ∈ L.
Proof.
  induction l as [|x l IH]; intros L c H; [by right|]. cbn in H. apply IH in H as [H|H]; [left; by right|].
  unfold loc_add in H. apply elem_of_cons in H as [->|H]; [left; by left|]. apply list_elem_of_filter in H as [_ H]. by right.
Qed.

Lemma fold_loc_keep l : forall L c, (forall x, x ∈ l -> loc_competes max x c = true -> x = c) -> c ∈ l \/ c ∈ L ->
  c ∈ fold_left (loc_add max) l L.
Proof.
  induction l as [|x l IH]; intros L c Hu H; cbn; [by destruct H as [H%not_elem_of_nil|]|].
  apply IH; [intros y Hy; apply Hu; by right|]. unfold loc_add. rewrite elem_of_cons in *.
  rewrite list_elem_of_filter. destruct H as [[->|H]|H]; [right; by left | by left|].
  destruct (loc_competes max x c) eqn:E; [|right; by right]. rewrite (Hu x) by (by left || done). right. by left.
Qed.

(** Servers, network and memory as a get of client [u] finds them: every
    server asked answers once, in any order; a read gets the bytes of the
    block at the address; the adapter completes the reads and there is room
    for them. *)
Record get_env (d : dsys) (u : Z) (env : client_env) (q : obj_descriptor) : Prop := {
  ge_fuel : ce_fuel env = fuel;
  ge_mem : env_ok (ce_mem env) (dc_mem (clients d u)) /\ dereg_ok (ce_mem env) /\ forall hp n, me_malloc (ce_mem env) hp n <> 0;
  ge_qte : ce_qte env = true;
  ge_send : forall r, ce_msg env r = true /\ forall m, 0 <= ce_send env r m;
  ge_recv : ce_recv_ok env = true;
  ge_replies : forall ranks, hashed (bb q) ranks -> exists replies, ce_replies env ≡ₚ replies /\
    Forall2 (fun r rep => exists senv s', dserver_step (servers d r) (DLocate senv u (mk_hdg (dc_next_qid (clients d u)) q))
                                     = Some (s', Some rep)) ranks replies;
  ge_remote : forall w a blk, heap (dc_mem (clients d w)) !! a = Some blk -> ce_remote env w a = mb_bytes blk;
  ge_ids : 0 <= drh_next_tran (dc_drh (clients d u))
    /\ drh_next_tran (dc_drh (clients d u)) + num_locs (ce_replies env) < 2 ^ 31
    /\ forall t, t ∈ read_tran_list (dc_drh (clients d u)) -> tran_id t < drh_next_tran (dc_drh (clients d u));
  ge_max : 0 < max_num_concurrent_rdma_read_op (options (dc_mem (clients d u)));
  ge_register : forall p, 0 <= me_register (ce_mem env) p;
  ge_room : exists s,
    (forall pt, pt ∈ puts d -> asked q pt -> obj_data_size (cut q (pt_cmd pt)) <= s)
    /\ s < 2 ^ 32 /\ max_num_concurrent_rdma_read_op (options (dc_mem (clients d u))) * s + total_rdma (held (dc_store (clients d u)))
       <= rdma_buffer_size (options (dc_mem (clients d u)));
  ge_polls : no_poll_error (ce_polls env)
    /\ num_locs (ce_replies env) <= num_full (Z.to_nat (num_locs (ce_replies env))) (ce_polls env) }.

(** The replies are what the servers know. *)
Lemma reply_facts d u senv s' r hdr rep : dinv d -> version_ok (version (hg_odsc hdr)) ->
  dserver_step (servers d r) (DLocate senv u hdr) = Some (s', Some rep) ->
  reply_good (hg_qid hdr) rep /\
  forall c, c ∈ lr_tab rep <-> c ∈ fold_left (loc_add max) (log d r) [] /\ obj_desc_equals_intersect (hg_odsc hdr) (cmd_odsc c) = true.
Proof.
  intros Hi Hv E. destruct (dserver_step_refines max r (servers d r) _ (DLocate senv u hdr) (di_server d Hi r) Hv)
    as (d' & rp & E' & _ & Hr). rewrite E in E'. injection E' as <- <-. destruct Hr as (_ & R2 & R3 & R4 & R5).
  split; [|done]. split; [done|]. destruct (lr_tab rep) as [|x l]; [by left|]. right. cbn in R4. by rewrite R4.
Qed.

Lemma agrees_take o d d' g : buf_ok o d -> take (Z.to_nat (obj_data_size o)) d' = take (Z.to_nat (obj_data_size o)) d ->
  agrees o d g -> buf_ok o d' /\ agrees o d' g.
Proof.
  intros Hb Ht Ha. pose proof (buf_size _ _ Hb) as Hs. pose proof (bo_len _ _ Hb) as Hl. pose proof (bo_size _ _ Hb) as Hz. split.
  - destruct Hb as [B1 B2 B3 B4 B5]. split; try done. apply (f_equal length) in Ht. rewrite !length_take in Ht. lia.
  - intros p k Hp Hk. rewrite <- (Ha p k Hp Hk). unfold cell_at, at_.
    pose proof (lin_range _ _ _ (in_box_inb _ p (proj1 (bo_dims _ _ Hb)) Hp)) as Hr.
    replace (S (num_dims (bb o) - 1)) with (num_dims (bb o)) in Hr by (pose proof (bo_dims _ _ Hb); lia).
    rewrite weight_card in Hr. set (x := lin _ _ _) in *.
    assert (Hx : 0 <= x * size o + k < obj_data_size o) by (rewrite Hs; nia).
    rewrite <- (lookup_take_lt d' (Z.to_nat (obj_data_size o))), <- (lookup_take_lt d (Z.to_nat (obj_data_size o))) by lia.
    by rewrite Ht.
Qed.

Section Get.
Context (d : dsys) (u : Z) (env : client_env) (od : obj_data) (g : list Z -> Z -> option byte).
Context (Hi : dinv d) (Hquiet : in_flight d = []) (He : get_env d u env (obj_desc od)).
Context (Hbuf : buf_ok (obj_desc od) (ObjDesc.data od)) (Hq : query (bb (obj_desc od)))
  (Hver : version_ok (version (obj_desc od))) (Hcell : forall p, in_box (bb (obj_desc od)) p -> cell p)
  (Hother : forall pt, pt ∈ puts d -> owner (pt_desc pt) <> u)
  (Hvals : forall pt, pt ∈ puts d -> asked (obj_desc od) pt ->
     num_dims (bb (obj_desc od)) = num_dims (bb (pt_desc pt)) /\ size (obj_desc od) = size (pt_desc pt)
     /\ agrees (pt_desc pt) (pt_data pt) g).

Lemma located_put ranks r cmd : hashed (bb (obj_desc od)) ranks -> r ∈ ce_replies env -> cmd ∈ lr_tab r ->
  exists pt, pt ∈ puts d /\ pt_cmd pt = cmd /\ asked (obj_desc od) pt.
Proof using Hi He Hver.
  intros Hr Hin Hc. destruct (ge_replies _ _ _ _ He ranks Hr) as (replies & Hp & HF). rewrite Hp in Hin.
  apply list_elem_of_lookup_1 in Hin as [i Hi']. destruct (Forall2_lookup_r _ _ _ _ _ HF Hi') as (rk & _ & senv & s' & E).
  destruct (reply_facts d u senv s' rk (mk_hdg _ (obj_desc od)) r Hi Hver E) as [_ Ht]. apply Ht in Hc as [Hc Hm].
  apply fold_loc_sub in Hc as [Hc|[]%not_elem_of_nil]. destruct (proj1 (di_told d Hi rk cmd)) as (pt & H1 & H2 & _); [by left|].
  exists pt. split; [done|]. split; [done|]. unfold asked, pt_desc. by rewrite H2.
Qed.

(** A put that is asked for and not contested is in the replies. *)
Lemma put_located ranks pt p : hashed (bb (obj_desc od)) ranks -> pt ∈ puts d -> asked (obj_desc od) pt -> uncontested d pt ->
  in_box (bb (obj_desc od)) p -> in_box (bb (pt_desc pt)) p -> exists r, r ∈ ce_replies env /\ pt_cmd pt ∈ lr_tab r.
Proof using HS Hi Hquiet He Hver Hcell.
  intros Hr Hin Ha Hu Hp Hp'. destruct (hashed_meet _ _ _ _ p Hr (pk_ranks _ _ (di_puts d Hi pt Hin)) Hp Hp' (Hcell p Hp))
    as (rk & Hr1 & Hr2). destruct (ge_replies _ _ _ _ He ranks Hr) as (replies & Hperm & HF).
  apply list_elem_of_lookup_1 in Hr1 as [i Hi']. destruct (Forall2_lookup_l _ _ _ _ _ HF Hi') as (rep & Hrep & senv & s' & E).
  exists rep. split; [rewrite Hperm; by eapply list_elem_of_lookup_2|].
  destruct (reply_facts d u senv s' rk (mk_hdg _ (obj_desc od)) rep Hi Hver E) as [_ Ht]. apply Ht. split; [|done]. apply fold_loc_keep.
  - intros x Hx Hcx. destruct (proj1 (di_told d Hi rk x)) as (pt' & H1 & <- & _); [by left|]. by apply Hu.
  - left. destruct (proj2 (di_told d Hi rk (pt_cmd pt))) as [|Hf]; [eauto|done|]. rewrite Hquiet in Hf. by apply not_elem_of_nil in Hf.
Qed.

(** The bytes of a located put hold its values. *)
Lemma put_loc_ok pt : pt ∈ puts d -> asked (obj_desc od) pt ->
  exists sd, loc_bytes env (clients d u) (held (dc_store (clients d u))) (pt_cmd pt) = Some sd /\ loc_ok g od (pt_cmd pt) sd.
Proof using Hi He Hother Hvals.
  intros Hin Ha. destruct (di_puts d Hi pt Hin) as [K1 K2 K3 (blk & K4 & K5)]. destruct (Hvals pt Hin Ha) as (V1 & V2 & V3).
  destruct (di_client d Hi u). exists (mb_bytes blk). split.
  - unfold loc_bytes. rewrite ck_shmem0. cbn [andb]. change (hp_odsc (cmd_pad (pt_cmd pt))) with (pt_desc pt).
    rewrite ck_self0, (proj2 (Z.eqb_neq _ _)) by by apply Hother. f_equal. by apply (ge_remote _ _ _ _ He).
  - destruct (agrees_take (pt_desc pt) (pt_data pt) (mb_bytes blk) g (pa_buf _ _ K1) K5 V3) as [H1 H2].
    destruct (ge_room _ _ _ _ He) as (s & R1 & R32 & _). pose proof (R1 pt Hin Ha).
    split; try done; [lia|]. unfold asked, obj_desc_equals_intersect in Ha. by apply andb_true_iff in Ha as [_ ?].
Qed.

Lemma get_answered ranks : hashed (bb (obj_desc od)) ranks ->
  answered g env (clients d u) od (held (dc_store (clients d u))) ranks.
Proof using HS Hi He Hbuf Hver Hcell Hother Hvals.
  intros Hr. pose proof (di_client d Hi u) as Hc. destruct (ge_replies _ _ _ _ He ranks Hr) as (replies & Hperm & HF).
  split; try apply He.
  - split.
    + destruct (hs_owner (Bbox.lb (bb (obj_desc od)))) as [k Hk]; [apply Hcell, wf_lb_in_box, Hbuf|].
      intros ->. destruct Hr as [_ Hr]. apply (not_elem_of_nil (Z.of_nat k)), Hr. exists k. split; [done|].
      exists (Bbox.lb (bb (obj_desc od))). split; [apply wf_lb_in_box, Hbuf | done].
    + rewrite (ck_srv _ _ Hc). apply Nat.le_le_succ_r. destruct Hr as [Hnd Hr].
      rewrite <- (length_seq N 0), <- (length_map Z.of_nat). apply submseteq_length, NoDup_submseteq; [done|].
      intros r (k & -> & p & _ & Ho)%Hr. apply hs_lt in Ho. apply list_elem_of_fmap_2, elem_of_seq. lia.
  - intros r _. apply (ge_send _ _ _ _ He).
  - rewrite Hperm. symmetry. by eapply Forall2_length.
  - rewrite Hperm. apply list.Forall_forall. intros rep Hin. apply list_elem_of_lookup_1 in Hin as [i Hi'].
    destruct (Forall2_lookup_r _ _ _ _ _ HF Hi') as (rk & _ & senv & s' & E).
    exact (proj1 (reply_facts d u senv s' rk (mk_hdg _ (obj_desc od)) rep Hi Hver E)).
  - intros r cmd H1 H2. destruct (located_put ranks r cmd Hr H1 H2) as (pt & Hin & <- & Ha). by apply put_loc_ok.
  - destruct (ge_room _ _ _ _ He) as (s & R1 & _ & R2). exists s. split; [|done].
    intros r cmd H1 H2. destruct (located_put ranks r cmd Hr H1 H2) as (pt & Hin & <- & Ha). by apply R1.
Qed.

End Get.

(** C3: what clients put, other clients get.  In every state the puts of the
    clients and the arrival of their messages can lead to, once no message
    is under way, a get of any box of the space by a client that put nothing
    returns 0.  Every cell of the box that a put of the variable and version
    covers has the value put, unless a second put that meets the first one
    competed for its place at the servers; a cell no put covers keeps the
    byte the buffer had.  The servers' answers arrive in any order, the reads
    complete in any order, and the messages of the puts were handled in any
    order.  [get_env] has the conditions: nothing fails, and there is RDMA
    memory for the pieces in flight, each of less than 2^32 bytes. *)
Theorem dimes_get_returns_puts d0 d u env od g :
  dsys_start d0 -> rtc dstep d0 d -> in_flight d = [] -> get_env d u env (obj_desc od) ->
  od_gdim od = dc_default_gdim (clients d u) -> buf_ok (obj_desc od) (ObjDesc.data od) ->
  query (bb (obj_desc od)) -> version_ok (version (obj_desc od)) -> (forall p, in_box (bb (obj_desc od)) p -> cell p) ->
  (forall pt, pt ∈ puts d -> owner (pt_desc pt) <> u) ->
  (forall pt, pt ∈ puts d -> asked (obj_desc od) pt ->
     num_dims (bb (obj_desc od)) = num_dims (bb (pt_desc pt)) /\ size (obj_desc od) = size (pt_desc pt)
     /\ agrees (pt_desc pt) (pt_data pt) g) ->
  exists c' sent od', dimes_obj_get env (clients d u) od = Some (c', sent, dget_done 0 od')
    /\ forall p k, in_box (bb (obj_desc od)) p -> 0 <= k < size (obj_desc od) ->
      let value := cell_at (bb (obj_desc od)) (size (obj_desc od)) (ObjDesc.data od') p k in
      ((exists pt, pt ∈ puts d /\ asked (obj_desc od) pt /\ uncontested d pt /\ in_box (bb (pt_desc pt)) p) -> value = g p k)
      /\ ((forall pt, pt ∈ puts d -> asked (obj_desc od) pt -> ~ in_box (bb (pt_desc pt)) p) ->
          value = cell_at (bb (obj_desc od)) (size (obj_desc od)) (ObjDesc.data od) p k).
Proof using HS Hmax.
  intros Hs Hreach Hquiet He Hgd Hbuf Hq Hver Hcell Hother Hvals. pose proof (dinv_reach d0 d Hs Hreach) as Hi.
  destruct (hash_nodes_default env u (clients d u) _ (di_client d Hi u) (ge_fuel _ _ _ _ He) Hq) as (c1 & ranks & Hh & _ & Hr).
  rewrite <- Hgd in Hh. destruct (ge_mem _ _ _ _ He) as (M1 & M2 & M3).
  destruct (obj_get_spec g env (clients d u) od (held (dc_store (clients d u))) c1 ranks Hbuf (ck_mem _ _ (di_client d Hi u))
    M1 M2 M3 (ge_qte _ _ _ _ He) Hh) as (c' & sent & od' & E & _ & [_ Hgot] & _); [by apply get_answered|].
  exists c', sent, od'. split; [done|]. intros p k Hp Hk. destruct (Hgot p k Hp Hk) as [G1 G2]. split.
  - intros (pt & Hin & Ha & Hu & Hpp). apply G1. exists (pt_cmd pt). split; [|done]. by eapply put_located.
  - intros Hn. apply G2. intros cmd (r & H1 & H2) Hc. destruct (located_put d u env od Hi He Hver ranks r cmd Hr H1 H2) as (pt & Hin & <- & Ha).
    by apply (Hn pt).
Qed.

End System.

(** ** A run: client 5 puts an array of 4 x 4 bytes, client 9 gets it *)

Definition run_client (w : Z) : dimes_client :=
  mk_dcl w 2 ssd_hash_version_v2 (mk_gdim 2 [4; 4]) demo_ssd [] (mk_sh [] false) [] [] 0 0 0 demo_storage demo_mem0
    (mk_drh w 0 []) (mk_node w 0 [] [w]).

Definition run_query (b : bbox) : Prop := wf_bbox b /\ num_dims b = 2%nat.
Definition run_own (p : list Z) (j : nat) : Prop := owns2 demo_ssd j p.
Definition run_cache (sh : sh_state) : Prop := cache_ok2 demo_ssd sh /\ cache_nodup sh.

#[local] Instance run_hash_service : HashService demo_ssd 2 100 run_query (in_box demo_domain) run_own run_cache.
Proof.
  assert (Hq : qwf 2 demo_domain).
  { do 3 (split; [done|]). intros i Hi. destruct i as [|[|i]]; unfold cget; cbn; lia. }
  destruct (ssd_alloc_v2_spec (fun _ => true) 100 0 2 demo_domain 2 1) as (ss & E & I & _); [done..|lia|lia|lia|].
  assert (ss = demo_ssd) as -> by (unfold demo_ssd; by rewrite E).
  apply (hash_service_v2 2 2 100 demo_domain demo_ssd I (fresh_space_ranked _ _ (ssd_alloc_fresh _ _ _ _ _ _ _ _ E))).
  unfold boxes_wf. let t := eval vm_compute in (ent_tab (ss_dht demo_ssd)) in change (ent_tab (ss_dht demo_ssd)) with t.
  do 2 (apply list.Forall_cons; split; [apply list.Forall_singleton; small_box|]). constructor.
Qed.

Definition run_penv : client_env := demo_cenv (fun _ => true) (fun _ _ => []) [].
Definition run_data : list byte := replicate 16 Byte.x05.

(** The client after its put, and the messages it sent. *)
Definition run_put : dimes_client * list (Z * dcmsg) :=
  match dimes_client_put run_penv (run_client 5) "temp" 1 1 2 [0; 0] [3; 3] run_data with
  | Some (c', sent, _) => (c', sent)
  | None => (run_client 5, [])
  end.

Definition run_deliver (d : dsys) : dsys :=
  match in_flight d with
  | (r, cmd) :: l =>
      mk_dsys (clients d)
        (match dsgrpc_dimes_put (servers d r) cmd with Some (s', _) => <[r := s']> (servers d) | None => servers d end)
        l (<[r := log d r ++ [cmd]]> (log d)) (puts d)
  | [] => d
  end.

Definition run0 : dsys := mk_dsys run_client (fun r => mk_dserver r 2 (metadata_s_alloc 2)) [] (fun _ => []) [].
Definition run1 : dsys :=
  mk_dsys (<[5 := fst run_put]> run_client) (servers run0) (put_msgs (snd run_put)) (log run0) (put_record run_data (snd run_put)).
Definition run3 : dsys := run_deliver (run_deliver run1).

Definition run_god : obj_data :=
  mk_od 0 (demo_peer_desc demo_domain (-1)) (mk_gdim 2 [4; 4]) (replicate 16 Byte.x00) 0 false.

Definition run_reply (r : Z) : locate_reply :=
  match dserver_step (servers run3 r) (DLocate (mk_dsenv true true (fun _ _ => 0)) 9 (mk_hdg 0 (obj_desc run_god))) with
  | Some (_, Some rep) => rep
  | _ => mk_lr 0 0 0 0 []
  end.

Definition run_genv : client_env :=
  mk_cenv demo_menv (fun _ => true) 100 true true true (fun _ => true) (fun _ _ => 0) (map run_reply [1; 0]) 0 true
    (fun w a => match heap (dc_mem (clients run3 w)) !! a with Some blk => mb_bytes blk | None => [] end)
    (fun _ => []) (replicate 2 (mk_poll false [true; true])) 0.

Lemma run_start : dsys_start demo_ssd 2 run_cache 2 run0.
Proof.
  split; [|done..]. intros w. split; try done; [|apply demo_mem0_inv|constructor].
  apply (@hs_empty _ _ _ _ _ _ _ run_hash_service).
Qed.

Lemma run_buf o : bb o = demo_domain -> size o = 1 -> forall x, buf_ok o (replicate 16 x).
Proof.
  intros E1 E2 x. assert (E3 : obj_data_size o = 16) by (unfold obj_data_size; rewrite E1, E2; done).
  split; rewrite ?E1, ?E2, ?E3; [small_box|cbn; lia|done..].
Qed.

Lemma run_deliver_step d r cmd l s' rc : in_flight d = (r, cmd) :: l -> dsgrpc_dimes_put (servers d r) cmd = Some (s', rc) ->
  dstep 100 run_query d (run_deliver d).
Proof.
  intros Hf E. pose proof (d_deliver 100 run_query d 0%nat r cmd s' rc) as H. unfold run_deliver. rewrite Hf in *. rewrite E. by apply H.
Qed.

Lemma run_reach : rtc (dstep 100 run_query) run0 run3.
Proof.
  apply (rtc_l _ _ run1); [|apply (rtc_l _ _ (run_deliver run1)); [|apply rtc_once; unfold run3]].
  - apply (d_put 100 run_query run0 5 run_penv "temp" 1 1 2 [0; 0] [3; 3] run_data (fst run_put) (snd run_put)).
    + split; try done. by apply demo_env_ok.
    + assert (E : bb (client_odsc "temp" 1 1 2 [0; 0] [3; 3] 5) = demo_domain) by done.
      split; [rewrite E; split; [small_box|done]|by apply run_buf|vm_compute; done|vm_compute; done].
    + vm_compute. reflexivity.
  - eapply run_deliver_step; [vm_compute; reflexivity|vm_compute; reflexivity].
  - eapply run_deliver_step; [vm_compute; reflexivity|vm_compute; reflexivity].
Qed.

Lemma run_hashed ranks : hashed run_own demo_domain ranks -> ranks ≡ₚ [0; 1].
Proof.
  destruct (hash_nodes_default demo_ssd 2 100 run_query (in_box demo_domain) run_own run_cache run_penv 5 (run_client 5) demo_domain)
    as (c1 & rk & E & _ & Hnd & Hr); [apply run_start|done|split; [small_box|done]|].
  assert (rk = [0; 1]) as <- by (apply (f_equal (fmap snd)) in E; vm_compute in E; congruence).
  intros [Hnd' Hr']. apply NoDup_Permutation; [done..|]. intros r. by rewrite Hr, Hr'.
Qed.

Lemma run_get_env : get_env 100 run_own run3 9 run_genv (obj_desc run_god).
Proof.
  split; try done.
  - split; [by apply demo_env_ok|]. split; [by intros p | apply demo_malloc].
  - intros ranks Hr. apply run_hashed in Hr. exists (map run_reply ranks). split.
    + rewrite Hr. apply perm_swap.
    + apply Forall2_fmap_r, Forall_Forall2_diag. rewrite Hr.
      do 2 (apply list.Forall_cons; split; [eexists (mk_dsenv true true (fun _ _ => 0)), _; vm_compute; reflexivity|]). constructor.
  - intros w a blk E. cbn [ce_remote run_genv]. by rewrite E.
  - split; [done|]. split; [vm_compute; done|]. by intros t ?%not_elem_of_nil.
  - exists 16. split; [|by vm_compute]. intros pt [->|[]%not_elem_of_nil]%elem_of_cons _. vm_compute. congruence.
  - split; [by repeat constructor|vm_compute; congruence].
Qed.

Lemma dimes_get_returns_puts_witness :
  exists c' sent od', dimes_obj_get run_genv (clients run3 9) run_god = Some (c', sent, dget_done 0 od')
    /\ forall p, in_box demo_domain p -> cell_at demo_domain 1 (ObjDesc.data od') p 0 = Some Byte.x05.
Proof.
  assert (Hput : forall pt, pt ∈ puts run3 -> bb (pt_desc pt) = demo_domain /\ size (pt_desc pt) = 1 /\ pt_data pt = run_data
    /\ owner (pt_desc pt) = 5) by (by intros pt [->|[]%not_elem_of_nil]%elem_of_cons).
  assert (H0 : exists pt, puts run3 = [pt] /\ asked (obj_desc run_god) pt) by (eexists; split; [vm_compute; reflexivity|vm_compute; reflexivity]).
  destruct H0 as (pt0 & Hp0 & Ha0).
  destruct (dimes_get_returns_puts demo_ssd 2 100 run_query (in_box demo_domain) run_own run_cache 2 ltac:(lia) run0 run3 9
    run_genv run_god (fun _ _ => Some Byte.x05)) as (c' & sent & od' & E & Hv).
  - apply run_start.
  - apply run_reach.
  - vm_compute. reflexivity.
  - apply run_get_env.
  - reflexivity.
  - by apply run_buf.
  - split; [small_box|done].
  - vm_compute. done.
  - done.
  - intros pt Hin. destruct (Hput pt Hin) as (_ & _ & _ & ->). done.
  - intros pt Hin _. destruct (Hput pt Hin) as (E1 & E2 & E3 & _). rewrite E1, E2, E3. split; [done|]. split; [done|].
    apply agrees_const. by apply run_buf.
  - exists c', sent, od'. split; [exact E|]. intros p Hp. clear E. apply (Hv p 0 Hp); [cbn; lia|].
    exists pt0. rewrite Hp0. split; [left|]. split; [exact Ha0|]. rewrite <- (proj1 (Hput pt0 ltac:(rewrite Hp0; left))) in Hp.
    split; [|exact Hp]. intros pt'. rewrite Hp0. by intros [->|[]%not_elem_of_nil]%elem_of_cons _.
Defined.
