(* ===== verification/Barrier.v ===== *)
(** * The barrier of an application (dart/ib/dart_rpc_ib.c)

    [rpc_barrier] is a dissemination barrier: in round [r] a process sends
    its barrier number to the process [2^r] ranks above and waits for that
    of the process [2^r] ranks below.  Barrier numbers are kept modulo 256
    and a process keeps one number per sender, so a process that is already
    in the next barrier overwrites its number before the slower one has read
    it; the wait accepts both numbers.

    A process is a record ([rpc_bar]); the calls run between two waits of
    [rpc_barrier] are one step.  Messages between two processes arrive in
    the order they were sent (reliable connections), at any time, whether
    the receiver is inside a barrier or not.  A process whose send or event
    processing fails leaves the barrier with an error and stays [failed].
    [calls] counts the barriers a process began; the code has no such
    counter.  The number of processes is at most 2^30, so that no [int] of
    the code overflows. *)

From stdpp Require Import functions relations.
From S2P Require Import Prelude.

#[local] Open Scope Z_scope.

(** ** [log2_ceil] *)

(** [while (i && !(i & n)) i = i >> 1], one unit of fuel per bit. *)
Fixpoint top_bit (fuel : nat) (i n : Z) : Z :=
  match fuel with
  | O => i
  | S fuel => if negb (i =? 0) && (Z.land i n =? 0) then top_bit fuel (Z.shiftr i 1) n else i
  end.

(** [while (i) { k++; i = i >> 1; }] *)
Fixpoint count_bits (fuel : nat) (k i : Z) : Z :=
  match fuel with
  | O => k
  | S fuel => if i =? 0 then k else count_bits fuel (k + 1) (Z.shiftr i 1)
  end.

Definition log2_ceil (n : Z) : Z :=
  let i := top_bit 32 (2 ^ 31) n in
  let i := if i =? n then i else u32 (Z.shiftl i 1) in
  count_bits 32 (-1) i.

(** ** Processes and messages *)

Inductive sys_cmd_type := sys_none | sys_msg_req | sys_msg_ret | sys_bar_enter.

Record hdr_sys := mk_hs { sys_cmd : sys_cmd_type; sys_pad1 : Z; sys_id : Z }.

(** Where a process is: outside, in the wait of a round, or out with an
    error after [sent] messages of the barrier. *)
Inductive bar_pc := outside | waiting (round : nat) | failed (sent : nat).

Record rpc_bar := mk_bar { bar_num : Z; bar_tab : list Z; bpc : bar_pc; calls : nat }.

Definition set_bpc (s : rpc_bar) (pc : bar_pc) : rpc_bar := mk_bar (bar_num s) (bar_tab s) pc (calls s).

Section Barrier.
Context (n app_minid : nat).

(** The ids of the processes of an application are consecutive. *)
Definition rank2id (rank : nat) : nat := (rank + app_minid)%nat.
Definition id2rank (id : nat) : nat := (id - app_minid)%nat.

Definition np : Z := log2_ceil (Z.of_nat n).
Definition next_of (rank round : nat) : nat := ((rank + 2 ^ round) mod n)%nat.
Definition prev_of (rank round : nat) : nat := ((n + rank - 2 ^ round) mod n)%nat.

Definition sys_bar_arrive (s : rpc_bar) (hs : hdr_sys) : rpc_bar :=
  mk_bar (bar_num s) (<[Z.to_nat (sys_id hs) := sys_pad1 hs]> (bar_tab s)) (bpc s) (calls s).

Definition sys_dispatch_event (s : rpc_bar) (hs : hdr_sys) : rpc_bar :=
  match sys_cmd hs with
  | sys_bar_enter => sys_bar_arrive s hs
  | _ => s
  end.

(** The message of [sys_bar_send]; the fields have 16 and 32 bits. *)
Definition sys_bar_send (s : rpc_bar) (rank : nat) : hdr_sys :=
  mk_hs sys_bar_enter (bar_num s mod 2 ^ 16) (u32 (Z.of_nat rank)).

(** From the head of the loop of [rpc_barrier] to the next wait or the
    return: the message, with the id it is sent to.  [ok] is the result of
    [sys_send]. *)
Definition bar_loop (ok : bool) (rank : nat) (s : rpc_bar) (round : Z) : rpc_bar * option (nat * hdr_sys) :=
  if round <? np - 1 then
    let r := Z.to_nat (round + 1) in
    if ok then (set_bpc s (waiting r), Some (rank2id (next_of rank r), sys_bar_send s rank))
    else (set_bpc s (failed r), None)
  else (set_bpc s outside, None).

Definition bar_enter (ok : bool) (rank : nat) (s : rpc_bar) : rpc_bar * option (nat * hdr_sys) :=
  bar_loop ok rank (mk_bar (Z.land (bar_num s + 1) 255) (bar_tab s) (bpc s) (S (calls s))) (-1).

(** The condition of SYS_WAIT_COMPLETION. *)
Definition bar_ready (rank : nat) (s : rpc_bar) (round : nat) : bool :=
  let got := nth (prev_of rank round) (bar_tab s) 0 in
  (got =? bar_num s) || (got =? Z.land (bar_num s + 1) 255).

(** ** The application *)

Record bstate := mk_bs { procs : nat -> rpc_bar; chan : nat -> nat -> list hdr_sys }.

Definition bar_init : bstate := mk_bs (fun _ => mk_bar 0 (replicate n 0) outside 0) (fun _ _ => []).

(** What a step of process [p] does: its new state and the message it
    sends, which is added to the connection to its destination. *)
Definition local_step (b : bstate) (p : nat) (r : rpc_bar * option (nat * hdr_sys)) : bstate :=
  mk_bs (<[p := r.1]> (procs b))
    match r.2 with
    | Some (id, hs) => <[p := <[id2rank id := chan b p (id2rank id) ++ [hs]]> (chan b p)]> (chan b)
    | None => chan b
    end.

Definition deliver (b : bstate) (p q : nat) (hs : hdr_sys) (rest : list hdr_sys) : bstate :=
  mk_bs (<[q := sys_dispatch_event (procs b q) hs]> (procs b)) (<[p := <[q := rest]> (chan b p)]> (chan b)).

(** The steps inside a barrier when nothing fails: a wait that is over, a
    message that arrives. *)
Inductive bar_work : bstate -> bstate -> Prop :=
  | bw_resume b p r : (p < n)%nat -> bpc (procs b p) = waiting r -> bar_ready p (procs b p) r = true ->
      bar_work b (local_step b p (bar_loop true p (procs b p) (Z.of_nat r)))
  | bw_deliver b p q hs rest : (p < n)%nat -> (q < n)%nat -> chan b p q = hs :: rest ->
      bar_work b (deliver b p q hs rest).

Inductive bar_step : bstate -> bstate -> Prop :=
  | bs_work b b' : bar_work b b' -> bar_step b b'
  | bs_enter b ok p : (p < n)%nat -> bpc (procs b p) = outside ->
      bar_step b (local_step b p (bar_enter ok p (procs b p)))
  | bs_resume_fail b p r : (p < n)%nat -> bpc (procs b p) = waiting r -> bar_ready p (procs b p) r = true ->
      bar_step b (local_step b p (bar_loop false p (procs b p) (Z.of_nat r)))
  | bs_wait_fail b p r : (p < n)%nat -> bpc (procs b p) = waiting r ->
      bar_step b (mk_bs (<[p := set_bpc (procs b p) (failed (S r))]> (procs b)) (chan b)).

Definition bar_reach : bstate -> Prop := rtc bar_step bar_init.

End Barrier.

(** ** The number of rounds *)

Lemma land_pow2 k n : 0 <= k -> Z.land (2 ^ k) n = 0 <-> Z.testbit n k = false.
Proof.
  intros Hk. split.
  - intros H. apply (f_equal (fun x => Z.testbit x k)) in H. rewrite Z.land_spec, Z.pow2_bits_true, Z.bits_0 in H by done. done.
  - intros H. apply Z.bits_inj'. intros i Hi. rewrite Z.land_spec, Z.bits_0.
    destruct (Z.eq_dec k i) as [->|Hne]; [by rewrite H, andb_false_r | by rewrite Z.pow2_bits_false].
Qed.

Lemma top_bit_log2 fuel : forall n, 0 < n < 2 ^ Z.of_nat (S fuel) -> top_bit (S fuel) (2 ^ Z.of_nat fuel) n = 2 ^ Z.log2 n.
Proof.
  induction fuel as [|fuel IH]; intros n Hn.
  - assert (n = 1) as -> by (cbn in Hn; lia). done.
  - remember (S fuel) as m. cbn [top_bit]. rewrite (proj2 (Z.eqb_neq _ _)) by lia. cbn [negb andb].
    assert (Hs : 2 ^ Z.of_nat (S m) = 2 * 2 ^ Z.of_nat m) by (rewrite Nat2Z.inj_succ, Z.pow_succ_r by lia; done).
    destruct (Z.land (2 ^ Z.of_nat m) n =? 0) eqn:E; zbool.
    + apply land_pow2 in E; [|lia]. rewrite Z.shiftr_div_pow2 by lia. change (2 ^ 1) with 2. subst m. rewrite Nat2Z.inj_succ, Z.pow_succ_r by lia.
      rewrite (Z.mul_comm 2), Z.div_mul by done. apply IH. split; [lia|].
      destruct (Z.lt_ge_cases n (2 ^ Z.of_nat (S fuel))) as [|Hge]; [done|]. exfalso.
      enough (Z.log2 n = Z.of_nat (S fuel)) as El by (rewrite <- El, Z.bit_log2 in E by lia; done).
      apply Z.log2_unique; [lia|]. rewrite <- Nat2Z.inj_succ. lia.
    + f_equal. symmetry. apply Z.log2_unique; [lia|]. rewrite <- Nat2Z.inj_succ. split; [|lia].
      destruct (Z.le_gt_cases (2 ^ Z.of_nat m) n) as [|Hlt]; [done|]. exfalso. apply E, land_pow2; [lia|].
      apply Z.bits_above_log2; [lia|]. apply Z.log2_lt_pow2; lia.
Qed.

Lemma count_bits_pow2 fuel : forall k c, (k < fuel)%nat -> count_bits fuel c (2 ^ Z.of_nat k) = c + Z.of_nat k + 1.
Proof.
  induction fuel as [|fuel IH]; intros k c Hk; [lia|]. cbn [count_bits]. rewrite (proj2 (Z.eqb_neq _ _)) by lia.
  rewrite Z.shiftr_div_pow2 by lia. change (2 ^ 1) with 2. destruct k as [|k].
  - change (2 ^ Z.of_nat 0 / 2) with 0. destruct fuel; cbn; lia.
  - rewrite Nat2Z.inj_succ, Z.pow_succ_r, (Z.mul_comm 2), Z.div_mul, IH by lia. lia.
Qed.

(** The loops of [log2_ceil] compute the logarithm rounded up. *)
Lemma log2_ceil_spec n : 1 <= n <= 2 ^ 30 -> log2_ceil n = Z.log2_up n.
Proof.
  intros Hn. unfold log2_ceil. rewrite (top_bit_log2 31) by lia. pose proof (Z.log2_spec n ltac:(lia)) as Hl.
  assert (Hr : 0 <= Z.log2 n <= 30).
  { split; [apply Z.log2_nonneg|]. change 30 with (Z.log2 (2 ^ 30)). apply Z.log2_le_mono. lia. }
  assert (Hc : forall k, 0 <= k < 32 -> count_bits 32 (-1) (2 ^ k) = k).
  { intros k Hk. rewrite <- (Z2Nat.id k), count_bits_pow2 by lia. lia. }
  assert (Hp : 2 ^ Z.log2 n <= 2 ^ 30) by (apply Z.pow_le_mono_r; lia). rewrite Z.pow_succ_r in Hl by lia.
  destruct (2 ^ Z.log2 n =? n) eqn:E; zbool.
  - rewrite Hc by lia. rewrite <- E at 2. symmetry. apply Z.log2_up_pow2. lia.
  - rewrite Z.shiftl_mul_pow2, u32_small, Z.mul_comm by lia. change (2 ^ 1) with 2. rewrite <- Z.pow_succ_r, Hc by lia.
    symmetry. apply Z.log2_up_unique; [lia|]. rewrite Z.pred_succ, Z.pow_succ_r by lia. lia.
Qed.

(** ** Ranks *)

Section Invariant.
Context (n app_minid : nat) (Hn : 1 <= Z.of_nat n <= 2 ^ 30).

Definition rounds : nat := Z.to_nat (np n).

Lemma np_rounds : np n = Z.of_nat rounds.
Proof using Hn.
  unfold rounds. rewrite Z2Nat.id; [done|]. unfold np. rewrite log2_ceil_spec by lia. apply Z.log2_up_nonneg.
Qed.

Lemma rounds_enough : (n <= 2 ^ rounds)%nat.
Proof using Hn.
  apply Nat2Z.inj_le. rewrite Nat2Z.inj_pow, <- np_rounds. unfold np. rewrite log2_ceil_spec by lia.
  destruct (Z.eq_dec (Z.of_nat n) 1) as [->|]; [done|]. apply Z.log2_up_spec. lia.
Qed.

Lemma rounds_needed r : (r < rounds)%nat -> (2 ^ r < n)%nat.
Proof using Hn.
  intros Hr. apply Nat2Z.inj_lt. rewrite Nat2Z.inj_pow. apply Nat2Z.inj_lt in Hr. rewrite <- np_rounds in Hr.
  unfold np in Hr. rewrite log2_ceil_spec in Hr by lia.
  destruct (Z.eq_dec (Z.of_nat n) 1) as [E|]; [rewrite E in Hr; change (Z.log2_up 1) with 0 in Hr; lia|].
  eapply Z.le_lt_trans; [|apply (Z.log2_up_spec (Z.of_nat n)); lia]. apply Z.pow_le_mono_r; lia.
Qed.

(** The process [j] ranks below [p]. *)
Definition below (p j : nat) : nat := ((n + p - j) mod n)%nat.

Lemma nmod_case a : (a < 2 * n)%nat -> (a mod n = if a <? n then a else a - n)%nat.
Proof using Hn.
  intros Ha. destruct (Nat.ltb_spec a n); [by apply Nat.mod_small|].
  replace a with ((a - n) + 1 * n)%nat at 1 by lia. rewrite Nat.Div0.mod_add. apply Nat.mod_small. lia.
Qed.

Ltac ranks :=
  unfold next_of, prev_of, below in *;
  repeat match goal with
  | H : (?r < rounds)%nat |- _ => learn_hyp (rounds_needed r H)
  end;
  repeat match goal with
  | |- context [(?a mod n)%nat] => rewrite (nmod_case a) by lia; destruct (Nat.ltb_spec a n)
  | H : context [(?a mod n)%nat] |- _ => rewrite (nmod_case a) in H by lia; destruct (Nat.ltb_spec a n)
  end; try lia.

Lemma next_prev p r : (p < n)%nat -> (r < rounds)%nat -> next_of n (prev_of n p r) r = p.
Proof using Hn. intros. ranks. Qed.

Lemma prev_next p r : (p < n)%nat -> (r < rounds)%nat -> prev_of n (next_of n p r) r = p.
Proof using Hn. intros. ranks. Qed.

Lemma next_lt p r : (next_of n p r < n)%nat.
Proof using Hn. apply Nat.mod_upper_bound. lia. Qed.

Lemma prev_lt p r : (prev_of n p r < n)%nat.
Proof using Hn. apply Nat.mod_upper_bound. lia. Qed.

Lemma next_inj p r r' : (p < n)%nat -> (r < rounds)%nat -> (r' < rounds)%nat -> next_of n p r = next_of n p r' -> r = r'.
Proof using Hn. intros Hp Hr Hr' E. apply (Nat.pow_inj_r 2); [lia|]. ranks. Qed.

Lemma below_lt p j : (below p j < n)%nat.
Proof using Hn. apply Nat.mod_upper_bound. lia. Qed.

Lemma below_0 p : (p < n)%nat -> below p 0 = p.
Proof using Hn. intros. ranks. Qed.

Lemma below_all p q : (p < n)%nat -> (q < n)%nat -> exists j, (j < n)%nat /\ below p j = q.
Proof using Hn. intros. exists (below p q). split; [apply below_lt|]. ranks. Qed.

Lemma below_prev p r j : (p < n)%nat -> (r < rounds)%nat -> (j < n)%nat -> (2 ^ r <= j)%nat ->
  below p j = below (prev_of n p r) (j - 2 ^ r).
Proof using Hn. intros. ranks. Qed.

(** ** The invariant *)

(** In how many barriers a process got as far as round [r]: it sent the
    message of the round, or, for [r = rounds], it left the barrier. *)
Definition reach_of (s : rpc_bar) (r : nat) : nat :=
  match bpc s with
  | outside => calls s
  | waiting r0 => if r <? S r0 then calls s else calls s - 1
  | failed m => if r <? m then calls s else calls s - 1
  end%nat.

Definition bar_hdr (p k : nat) : hdr_sys := mk_hs sys_bar_enter (Z.of_nat k mod 256) (Z.of_nat p).

(** The receiver of [p] in round [r] has taken [k] messages: the last one is
    in its table, the others are under way, and it did not pass the round
    more often. *)
Definition link_at (b : bstate) (p r k : nat) : Prop :=
  let q := next_of n p r in
  (k <= reach_of (procs b p) r)%nat /\ (reach_of (procs b q) (S r) <= k)%nat /\
  chan b p q = map (bar_hdr p) (seq (S k) (reach_of (procs b p) r - k)) /\
  nth p (bar_tab (procs b q)) 0 = Z.of_nat k mod 256.

Definition proc_ok (s : rpc_bar) : Prop :=
  bar_num s = Z.of_nat (calls s) mod 256 /\ length (bar_tab s) = n /\
  match bpc s with
  | outside => True
  | waiting r => (r < rounds)%nat /\ (0 < calls s)%nat
  | failed m => (m <= rounds)%nat /\ (0 < calls s)%nat
  end.

(** A process that got as far as round [r] of a barrier knows that the
    [2^r] processes up to its own rank began it. *)
Definition knows (b : bstate) (p r : nat) : Prop :=
  forall j, (j < n)%nat -> (j < 2 ^ r)%nat -> (reach_of (procs b p) r <= calls (procs b (below p j)))%nat.

Record bar_inv (b : bstate) : Prop := {
  bi_proc : forall p, (p < n)%nat -> proc_ok (procs b p);
  bi_know : forall p r, (p < n)%nat -> (r <= rounds)%nat -> knows b p r;
  bi_link : forall p r, (p < n)%nat -> (r < rounds)%nat -> exists k, link_at b p r k;
  bi_chan : forall p q, (p < n)%nat -> chan b p q <> [] -> exists r, (r < rounds)%nat /\ q = next_of n p r
}.

Lemma reach_le s r : (reach_of s r <= calls s)%nat.
Proof. unfold reach_of. destruct (bpc s); [lia|..]; case_if; lia. Qed.

(** No process is two barriers ahead of another. *)
Lemma inv_ahead b p q : bar_inv b -> (p < n)%nat -> (q < n)%nat ->
  (reach_of (procs b p) rounds <= calls (procs b q) /\ calls (procs b p) <= S (calls (procs b q)))%nat.
Proof using Hn.
  intros Hi Hp Hq. destruct (below_all p q Hp Hq) as (j & Hj & <-). pose proof rounds_enough.
  pose proof (bi_know b Hi p rounds Hp ltac:(lia) j Hj ltac:(lia)) as Hk. split; [done|].
  destruct (bi_proc b Hi p Hp) as (_ & _ & Hpc). unfold reach_of in Hk. destruct (bpc (procs b p)) as [|r|m]; [lia|..].
  - destruct (Nat.ltb_spec rounds (S r)); lia.
  - destruct (Nat.ltb_spec rounds m); lia.
Qed.

(** A step of [p] that takes it to round [m] and sends the message of that
    round. *)
Section Advance.
Context (b : bstate) (p m : nat) (s' : rpc_bar) (Hi : bar_inv b) (Hp : (p < n)%nat) (Hm : (m <= rounds)%nat)
  (Hok : proc_ok s') (Htab : bar_tab s' = bar_tab (procs b p)) (Hcalls : (calls (procs b p) <= calls s')%nat)
  (Hreach : forall r, (r <= rounds)%nat -> reach_of s' r = if (r =? m)%nat then calls s' else reach_of (procs b p) r)
  (Hnew : calls s' = S (reach_of (procs b p) m))
  (Hknow : forall j, (0 < j < n)%nat -> (j < 2 ^ m)%nat -> (calls s' <= calls (procs b (below p j)))%nat)
  (Hgot : forall r, m = S r -> exists k, link_at b (prev_of n p r) r k /\ (calls s' <= k)%nat).

Definition advanced : bstate :=
  local_step app_minid b p
    (s', if (m <? rounds)%nat then Some (rank2id app_minid (next_of n p m), sys_bar_send s' p) else None).

Lemma advanced_self : procs advanced p = s'.
Proof. apply fn_lookup_insert. Qed.

Lemma advanced_other q : q <> p -> procs advanced q = procs b q.
Proof. intros. by apply fn_lookup_insert_ne. Qed.

Lemma advanced_calls q : (calls (procs b q) <= calls (procs advanced q))%nat.
Proof using Type*. destruct (decide (q = p)) as [->|]; [by rewrite advanced_self | by rewrite advanced_other]. Qed.

Lemma advanced_tab q : bar_tab (procs advanced q) = bar_tab (procs b q).
Proof using Type*. destruct (decide (q = p)) as [->|]; [by rewrite advanced_self | by rewrite advanced_other]. Qed.

Lemma advanced_reach q r : (r <= rounds)%nat ->
  reach_of (procs advanced q) r = if decide (q = p /\ r = m) then calls s' else reach_of (procs b q) r.
Proof using Type*.
  intros Hr. destruct (decide (q = p)) as [->|Hq].
  - rewrite advanced_self, Hreach by done. destruct (Nat.eqb_spec r m); case_decide; tauto.
  - rewrite advanced_other by done. rewrite decide_False by tauto. done.
Qed.

Lemma sent_hdr : sys_bar_send s' p = bar_hdr p (calls s').
Proof using Type*.
  unfold sys_bar_send, bar_hdr. destruct Hok as (-> & _). rewrite u32_small by lia. f_equal. apply Z.mod_small.
  pose proof (Z.mod_pos_bound (Z.of_nat (calls s')) 256). lia.
Qed.

Lemma advanced_chan q x :
  chan advanced q x =
  if decide (q = p /\ (m < rounds)%nat /\ x = next_of n p m) then chan b q x ++ [bar_hdr p (calls s')] else chan b q x.
Proof using Type*.
  unfold advanced, local_step. cbn [fst snd chan]. destruct (Nat.ltb_spec m rounds).
  - rewrite sent_hdr. replace (id2rank app_minid (rank2id app_minid (next_of n p m))) with (next_of n p m)
      by (unfold id2rank, rank2id; lia).
    destruct (decide (q = p)) as [->|Hq]; [|rewrite fn_lookup_insert_ne, decide_False by (congruence || tauto); done]. rewrite fn_lookup_insert.
    destruct (decide (x = next_of n p m)) as [->|Hx]; [by rewrite fn_lookup_insert, decide_True|].
    rewrite fn_lookup_insert_ne, decide_False by (congruence || tauto). done.
  - rewrite decide_False by lia. done.
Qed.

Lemma advanced_knows q r : (q < n)%nat -> (r <= rounds)%nat -> knows advanced q r.
Proof using Type*.
  intros Hq Hr j Hj Hj2. rewrite advanced_reach by done. case_decide as Hd.
  - destruct Hd as [-> ->]. destruct j as [|j]; [rewrite below_0, advanced_self by done; lia|].
    etransitivity; [apply (Hknow (S j)); lia | apply advanced_calls].
  - etransitivity; [by apply (bi_know b Hi q r Hq Hr j) | apply advanced_calls].
Qed.

Lemma advanced_link q r : (q < n)%nat -> (r < rounds)%nat -> exists k, link_at advanced q r k.
Proof using Type*.
  intros Hq Hr. destruct (decide (next_of n q r = p /\ S r = m)) as [[E Em]|Hother].
  - destruct (Hgot r (eq_sym Em)) as (k & (Hk1 & Hk2 & Hk3 & Hk4) & Hk). assert (Eq : prev_of n p r = q) by (subst p; by apply prev_next).
    rewrite Eq in *. rewrite E in *. exists k. unfold link_at. rewrite E, !advanced_reach, advanced_chan, advanced_tab by lia.
    rewrite (decide_False (P := q = p /\ r = m)), (decide_True (P := p = p /\ S r = m)) by lia.
    rewrite decide_False; [done|]. intros (-> & Hlt & Ex). enough (r = m) by lia. apply (next_inj p); [done..|]. by rewrite E.
  - destruct (bi_link b Hi q r Hq Hr) as (k & Hk1 & Hk2 & Hk3 & Hk4). exists k. unfold link_at.
    rewrite !advanced_reach, advanced_chan, advanced_tab, Hk3 by lia. rewrite (decide_False (P := next_of n q r = p /\ S r = m)) by done.
    destruct (decide (q = p /\ r = m)) as [[-> ->]|Hd].
    + rewrite decide_True by done. rewrite Hnew, Nat.sub_succ_l, seq_S, map_app by done. split_and!; [lia | done | | done].
      do 2 f_equal. cbn. f_equal. f_equal. lia.
    + rewrite decide_False; [done|]. intros (-> & Hlt & Ex). apply Hd. split; [done|]. by apply (next_inj p).
Qed.

Lemma inv_advance : bar_inv advanced.
Proof using Type*.
  split; [|apply advanced_knows|apply advanced_link|].
  - intros q Hq. destruct (decide (q = p)) as [->|]; [by rewrite advanced_self|]. rewrite advanced_other by done. by apply (bi_proc b Hi).
  - intros q x Hq. rewrite advanced_chan. case_decide as Hd; [destruct Hd as (-> & Hlt & ->); eauto|]. by apply (bi_chan b Hi).
Qed.

End Advance.

(** A step of [p] that fails: nothing is sent and no round is reached. *)
Lemma inv_stay b p s' : bar_inv b -> (p < n)%nat -> proc_ok s' -> bar_tab s' = bar_tab (procs b p) ->
  (calls (procs b p) <= calls s')%nat ->
  (forall r, (r <= rounds)%nat -> reach_of s' r = reach_of (procs b p) r) ->
  bar_inv (local_step app_minid b p (s', None)).
Proof using Hn.
  intros Hi Hp Hok Htab Hcalls Hreach. set (b' := local_step app_minid b p (s', None)).
  assert (Hs : procs b' p = s') by apply fn_lookup_insert.
  assert (Ho : forall q, q <> p -> procs b' q = procs b q) by (intros; by apply fn_lookup_insert_ne).
  assert (Hc : forall q, (calls (procs b q) <= calls (procs b' q))%nat).
  { intros q. destruct (decide (q = p)) as [->|]; [by rewrite Hs | by rewrite Ho]. }
  assert (Ht : forall q, bar_tab (procs b' q) = bar_tab (procs b q)).
  { intros q. destruct (decide (q = p)) as [->|]; [by rewrite Hs | by rewrite Ho]. }
  assert (Hr : forall q r, (r <= rounds)%nat -> reach_of (procs b' q) r = reach_of (procs b q) r).
  { intros q r ?. destruct (decide (q = p)) as [->|]; [rewrite Hs; auto | by rewrite Ho]. }
  split.
  - intros q Hq. destruct (decide (q = p)) as [->|]; [by rewrite Hs|]. rewrite Ho by done. by apply (bi_proc b Hi).
  - intros q r Hq Hr' j Hj Hj2. rewrite Hr by done. etransitivity; [by apply (bi_know b Hi q r Hq Hr' j) | apply Hc].
  - intros q r Hq Hr'. destruct (bi_link b Hi q r Hq Hr') as (k & Hk). exists k. unfold link_at in *. rewrite !Hr, Ht by lia. done.
  - apply (bi_chan b Hi).
Qed.

(** A message that arrives changes one entry of one table. *)
Section Deliver.
Context (b : bstate) (p r k : nat) (hs : hdr_sys) (rest : list hdr_sys) (Hi : bar_inv b) (Hp : (p < n)%nat) (Hr : (r < rounds)%nat)
  (Hk : link_at b p r k) (Hc : chan b p (next_of n p r) = hs :: rest).

Definition delivered : bstate := deliver b p (next_of n p r) hs rest.

Lemma deliver_head : hs = bar_hdr p (S k) /\
  rest = map (bar_hdr p) (seq (S (S k)) (reach_of (procs b p) r - S k)) /\ (S k <= reach_of (procs b p) r)%nat.
Proof using Type*.
  destruct Hk as (Hk1 & _ & Hk3 & _). rewrite Hc in Hk3.
  destruct (reach_of (procs b p) r - k)%nat as [|d] eqn:E; cbn in Hk3; simplify_eq.
  replace (reach_of (procs b p) r - S k)%nat with d by lia. split_and!; [done | done | lia].
Qed.

Lemma delivered_proc q : exists tab,
  procs delivered q = mk_bar (bar_num (procs b q)) tab (bpc (procs b q)) (calls (procs b q)) /\
  tab = if decide (q = next_of n p r) then <[p := Z.of_nat (S k) mod 256]> (bar_tab (procs b q)) else bar_tab (procs b q).
Proof using Type*.
  unfold delivered, deliver. cbn [procs]. destruct deliver_head as (-> & _). case_decide as Hq.
  - subst q. rewrite fn_lookup_insert. unfold sys_dispatch_event, sys_bar_arrive. cbn. rewrite Nat2Z.id. eauto.
  - rewrite fn_lookup_insert_ne by done. destruct (procs b q). eauto.
Qed.

Lemma delivered_reach q r' : reach_of (procs delivered q) r' = reach_of (procs b q) r'.
Proof using Type*. destruct (delivered_proc q) as (tab & -> & _). done. Qed.

Lemma delivered_link_same : link_at delivered p r (S k).
Proof using Type*.
  destruct deliver_head as (_ & Hrest & Hle). pose proof Hk as (_ & Hk2 & _). unfold link_at. rewrite !delivered_reach.
  destruct (delivered_proc (next_of n p r)) as (tab & -> & ->). cbn [bar_tab]. rewrite decide_True by done.
  destruct (bi_proc b Hi (next_of n p r) (next_lt p r)) as (_ & Hlen & _).
  split_and!; [done | lia | |].
  - unfold delivered, deliver. cbn [chan]. by rewrite !fn_lookup_insert.
  - rewrite nth_lookup, list_lookup_insert_eq by lia. done.
Qed.

Lemma delivered_link_other p' r' k' : (p' < n)%nat -> (r' < rounds)%nat -> (p', r') <> (p, r) -> link_at b p' r' k' ->
  link_at delivered p' r' k'.
Proof using Type*.
  intros Hp' Hr' Hne (H1 & H2 & H3 & H4). unfold link_at. rewrite !delivered_reach.
  assert (Hd : p' = p -> next_of n p' r' <> next_of n p r).
  { intros -> E. apply Hne. f_equal. by apply (next_inj p). }
  split_and!; [done | done | |].
  - rewrite <- H3. unfold delivered, deliver. cbn [chan]. destruct (decide (p' = p)) as [->|Hq].
    + rewrite fn_lookup_insert, fn_lookup_insert_ne by (apply not_eq_sym; auto). done.
    + by rewrite fn_lookup_insert_ne.
  - rewrite <- H4. destruct (delivered_proc (next_of n p' r')) as (tab & -> & ->). cbn [bar_tab]. case_decide; [|done].
    rewrite !nth_lookup, list_lookup_insert_ne by (intros ->; by apply Hd). done.
Qed.

Lemma inv_deliver : bar_inv delivered.
Proof using Type*.
  split.
  - intros q Hq. destruct (bi_proc b Hi q Hq) as (H1 & H2 & H3). destruct (delivered_proc q) as (tab & -> & ->).
    split_and!; [done | | done]. cbn. case_decide; by rewrite ?length_insert.
  - intros q r' Hq Hr' j Hj Hj2. rewrite delivered_reach. destruct (delivered_proc (below q j)) as (tab & -> & _). cbn.
    by apply (bi_know b Hi q r').
  - intros q r' Hq Hr'. destruct (decide ((q, r') = (p, r))) as [[= -> ->]|Hne]; [eauto using delivered_link_same|].
    destruct (bi_link b Hi q r' Hq Hr') as (k' & Hk'). eauto using delivered_link_other.
  - intros q x Hq Hx. unfold delivered, deliver in Hx. cbn [chan] in Hx. destruct (decide (q = p)) as [->|Hne].
    + destruct (decide (x = next_of n p r)) as [->|Hx']; [eauto|]. rewrite fn_lookup_insert, fn_lookup_insert_ne in Hx by done.
      by apply (bi_chan b Hi).
    + rewrite fn_lookup_insert_ne in Hx by done. by apply (bi_chan b Hi).
Qed.

End Deliver.

(** ** Steps keep the invariant *)

Lemma bar_loop_eq ok p s r : bar_loop n app_minid ok p s (Z.of_nat r - 1) =
  if (r <? rounds)%nat then
    if ok then (set_bpc s (waiting r), Some (rank2id app_minid (next_of n p r), sys_bar_send s p))
    else (set_bpc s (failed r), None)
  else (set_bpc s outside, None).
Proof using Hn.
  unfold bar_loop. rewrite np_rounds. replace (Z.to_nat (Z.of_nat r - 1 + 1)) with r by lia.
  destruct (Nat.ltb_spec r rounds), (Z.ltb_spec (Z.of_nat r - 1) (Z.of_nat rounds - 1)); (done || lia).
Qed.

(** The wait is over only when the sender of the round sent the message of
    this barrier: the number of the barrier before, the own one and the next
    one are different modulo 256. *)
Lemma ready_got b p r : bar_inv b -> (p < n)%nat -> bpc (procs b p) = waiting r -> bar_ready n p (procs b p) r = true ->
  exists k, link_at b (prev_of n p r) r k /\ (calls (procs b p) <= k)%nat.
Proof using Hn.
  intros Hi Hp Hw Hb. destruct (bi_proc b Hi p Hp) as (Hnum & _ & Hpc). rewrite Hw in Hpc. destruct Hpc as [Hr Hpos].
  pose proof (prev_lt p r) as Hq. destruct (bi_link b Hi _ r Hq Hr) as (k & Hk). exists k. split; [done|].
  destruct Hk as (H1 & H2 & _ & H4). rewrite next_prev in H2, H4 by done. unfold bar_ready in Hb. rewrite H4, Hnum in Hb.
  destruct (inv_ahead b _ p Hi Hq Hp) as [_ Ha]. pose proof (reach_le (procs b (prev_of n p r)) r).
  unfold reach_of in H2. rewrite Hw in H2. destruct (Nat.ltb_spec (S r) (S r)); [lia|].
  change 255 with (Z.ones 8) in Hb. rewrite Z.land_ones in Hb by lia. change (2 ^ 8) with 256 in Hb.
  destruct (Nat.le_gt_cases (calls (procs b p)) k) as [|Hlt]; [done|]. exfalso.
  assert (Z.of_nat (calls (procs b p)) = Z.of_nat k + 1) as E by lia. rewrite E in Hb.
  apply orb_true_iff in Hb as [Hb|Hb]; zbool; Z.to_euclidean_division_equations; lia.
Qed.

Lemma proc_ok_pc s pc : proc_ok s ->
  match pc with outside => True | waiting r => (r < rounds)%nat /\ (0 < calls s)%nat | failed m => (m <= rounds)%nat /\ (0 < calls s)%nat end ->
  proc_ok (set_bpc s pc).
Proof. intros (H1 & H2 & _) H. by split_and!. Qed.

Lemma resume_knows b p r k j : bar_inv b -> (p < n)%nat -> (r < rounds)%nat -> bpc (procs b p) = waiting r ->
  link_at b (prev_of n p r) r k -> (calls (procs b p) <= k)%nat -> (j < n)%nat -> (j < 2 ^ S r)%nat ->
  (calls (procs b p) <= calls (procs b (below p j)))%nat.
Proof using Hn.
  intros Hi Hp Hr Hw (Hk & _) Hc Hj Hj2. cbn in Hj2. destruct (Nat.lt_ge_cases j (2 ^ r)) as [Hlt|Hge].
  - pose proof (bi_know b Hi p r Hp ltac:(lia) j Hj Hlt) as H. unfold reach_of in H. rewrite Hw in H.
    destruct (Nat.ltb_spec r (S r)); lia.
  - rewrite (below_prev p r) by done. pose proof (bi_know b Hi _ r (prev_lt p r) ltac:(lia) (j - 2 ^ r)%nat ltac:(lia) ltac:(lia)). lia.
Qed.

Lemma inv_resume ok b p r : bar_inv b -> (p < n)%nat -> bpc (procs b p) = waiting r -> bar_ready n p (procs b p) r = true ->
  bar_inv (local_step app_minid b p (bar_loop n app_minid ok p (procs b p) (Z.of_nat r))).
Proof using Hn.
  intros Hi Hp Hw Hb. pose proof (bi_proc b Hi p Hp) as Hok. pose proof Hok as (_ & _ & Hpc). rewrite Hw in Hpc. destruct Hpc as [Hr Hpos].
  replace (Z.of_nat r) with (Z.of_nat (S r) - 1) by lia. rewrite bar_loop_eq. destruct (ready_got b p r Hi Hp Hw Hb) as (k & Hk & Hkc).
  destruct ((S r <? rounds)%nat && negb ok) eqn:Ef.
  - apply andb_true_iff in Ef as [El Ef]. rewrite El. destruct ok; [done|]. apply inv_stay; try done.
    + apply proc_ok_pc; [done|]. zbool. lia.
    + intros r0 Hr0. unfold reach_of. rewrite Hw. done.
  - set (s' := set_bpc (procs b p) (if (S r <? rounds)%nat then waiting (S r) else outside)).
    assert (Hadv : bar_inv (advanced b p (S r) s')); [apply inv_advance; try done|].
    + apply proc_ok_pc; [done|]. destruct (Nat.ltb_spec (S r) rounds); lia.
    + intros r0 Hr0. unfold reach_of, s'. cbn [bpc set_bpc calls]. rewrite Hw.
      destruct (Nat.ltb_spec (S r) rounds), (Nat.eqb_spec r0 (S r)), (Nat.ltb_spec r0 (S r)), (Nat.ltb_spec r0 (S (S r))); lia.
    + unfold reach_of. rewrite Hw. destruct (Nat.ltb_spec (S r) (S r)); cbn; lia.
    + intros j Hj Hj2. apply (resume_knows b p r k j); try done; lia.
    + intros r' [= <-]. eauto.
    + unfold advanced, s' in Hadv. destruct (Nat.ltb_spec (S r) rounds); [|exact Hadv]. destruct ok; [exact Hadv | done].
Qed.

Lemma inv_enter ok b p : bar_inv b -> (p < n)%nat -> bpc (procs b p) = outside ->
  bar_inv (local_step app_minid b p (bar_enter n app_minid ok p (procs b p))).
Proof using Hn.
  intros Hi Hp Hw. unfold bar_enter. set (s1 := mk_bar _ _ _ _). change (-1) with (Z.of_nat 0 - 1). rewrite bar_loop_eq.
  assert (Hok : proc_ok s1).
  { destruct (bi_proc b Hi p Hp) as (H1 & H2 & _). unfold proc_ok, s1. cbn [bar_num bar_tab bpc calls]. rewrite Hw. split_and!; [|done|done].
    rewrite H1. change 255 with (Z.ones 8). rewrite Z.land_ones by lia. change (2 ^ 8) with 256.
    rewrite Z.add_mod_idemp_l, Nat2Z.inj_succ by lia. done. }
  destruct ((0 <? rounds)%nat && negb ok) eqn:Ef.
  - apply andb_true_iff in Ef as [El Ef]. rewrite El. destruct ok; [done|]. apply inv_stay; try done.
    + apply proc_ok_pc; [done|]. cbn. lia.
    + cbn. lia.
    + intros r0 Hr0. unfold reach_of. rewrite Hw. cbn. lia.
  - set (s' := set_bpc s1 (if (0 <? rounds)%nat then waiting 0 else outside)).
    assert (Hadv : bar_inv (advanced b p 0 s')); [apply inv_advance; try done|].
    + lia.
    + apply proc_ok_pc; [done|]. destruct (Nat.ltb_spec 0 rounds); [cbn; lia | done].
    + cbn. lia.
    + intros r0 Hr0. unfold reach_of, s'. cbn [bpc set_bpc calls s1]. rewrite Hw.
      destruct (Nat.ltb_spec 0 rounds), (Nat.eqb_spec r0 0), (Nat.ltb_spec r0 1); lia.
    + unfold reach_of. rewrite Hw. cbn. lia.
    + cbn. lia.
    + unfold advanced, s' in Hadv. destruct (Nat.ltb_spec 0 rounds); [|exact Hadv]. destruct ok; [exact Hadv | done].
Qed.

Lemma inv_wait_fail b p r : bar_inv b -> (p < n)%nat -> bpc (procs b p) = waiting r ->
  bar_inv (mk_bs (<[p := set_bpc (procs b p) (failed (S r))]> (procs b)) (chan b)).
Proof using Hn app_minid.
  intros Hi Hp Hw. pose proof (bi_proc b Hi p Hp) as Hok. pose proof Hok as (_ & _ & Hpc). rewrite Hw in Hpc.
  apply (inv_stay b p (set_bpc (procs b p) (failed (S r)))); try done.
  - apply proc_ok_pc; [done | lia].
  - intros r0 Hr0. unfold reach_of. rewrite Hw. done.
Qed.

Lemma inv_work b b' : bar_inv b -> bar_work n app_minid b b' -> bar_inv b'.
Proof using Hn.
  intros Hi Hs. destruct Hs as [b p r Hp Hw Hb | b p q hs rest Hp Hq Hc]; [by apply inv_resume|].
  destruct (bi_chan b Hi p q Hp ltac:(by rewrite Hc)) as (r & Hr & ->). destruct (bi_link b Hi p r Hp Hr) as (k & Hk).
  by apply (inv_deliver b p r k).
Qed.

Lemma inv_step b b' : bar_inv b -> bar_step n app_minid b b' -> bar_inv b'.
Proof using Hn.
  intros Hi Hs. destruct Hs; eauto using inv_work, inv_enter, inv_resume, inv_wait_fail.
Qed.

Lemma inv_init : bar_inv (bar_init n).
Proof using Hn.
  split; cbn; try done.
  - intros p Hp. unfold proc_ok. cbn. by rewrite length_replicate.
  - intros p r Hp Hr j Hj Hj2. done.
  - intros p r Hp Hr. exists 0%nat. unfold link_at. cbn. split_and!; [done..|]. by rewrite nth_lookup, lookup_replicate_2.
Qed.

Lemma inv_reach b : bar_reach n app_minid b -> bar_inv b.
Proof using Hn.
  intros H. pose proof inv_init as Hi. revert Hi. unfold bar_reach in H. generalize dependent (bar_init n).
  induction 1 as [|b0 b1 b2 Hs _ IH]; [done|]. eauto using inv_step.
Qed.

(** C21: the barrier is safe for every number of processes, every
    interleaving, and however often it is used: a process that is outside
    after its [k]-th call left that barrier only after every process had
    begun its [k]-th call, and no process is ever two barriers ahead of
    another.  This holds with barrier numbers that wrap at 256 and with
    processes that leave with an error. *)
Theorem rpc_barrier_safe b p q : bar_reach n app_minid b -> (p < n)%nat -> (q < n)%nat ->
  (bpc (procs b p) = outside -> calls (procs b p) <= calls (procs b q))%nat /\ (calls (procs b p) <= S (calls (procs b q)))%nat.
Proof using Hn.
  intros Hb Hp Hq. destruct (inv_ahead b p q (inv_reach b Hb) Hp Hq) as [Hl Ha]. split; [|done].
  intros Ho. unfold reach_of in Hl. by rewrite Ho in Hl.
Qed.

(** ** Every barrier ends *)

Fixpoint total (f : nat -> nat) (m : nat) : nat :=
  match m with
  | O => 0
  | S m => f m + total f m
  end.

Lemma total_ext f g m : (forall i, (i < m)%nat -> f i = g i) -> total f m = total g m.
Proof. induction m as [|m IH]; intros H; [done|]. cbn. rewrite H, IH by auto with lia. done. Qed.

Lemma total_change f g m i : (i < m)%nat -> (forall j, (j < m)%nat -> j <> i -> f j = g j) ->
  (total f m + g i = total g m + f i)%nat.
Proof.
  induction m as [|m IH]; intros Hi H; [lia|]. cbn. destruct (decide (i = m)) as [->|Hne].
  - rewrite (total_ext f g m); [lia|]. intros j Hj. apply H; lia.
  - rewrite (H m) by auto with lia. specialize (IH ltac:(lia) ltac:(auto with lia)). lia.
Qed.

Definition rounds_left (s : rpc_bar) : nat :=
  match bpc s with
  | waiting r => rounds - r
  | _ => 0
  end.

Definition under_way (b : bstate) (p : nat) : nat := total (fun r => length (chan b p (next_of n p r))) rounds.

(** Two for every round still to pass, one for every message under way. *)
Definition bar_measure (b : bstate) : nat :=
  (total (fun p => 2 * rounds_left (procs b p)) n + total (under_way b) n)%nat.

(** A step that concerns [p] and the connections from [p]. *)
Lemma measure_row b b' p : (p < n)%nat -> (forall x, x <> p -> rounds_left (procs b' x) = rounds_left (procs b x)) ->
  (forall x, x <> p -> chan b' x = chan b x) ->
  (bar_measure b' + 2 * rounds_left (procs b p) + under_way b p =
   bar_measure b + 2 * rounds_left (procs b' p) + under_way b' p)%nat.
Proof.
  intros Hp H1 H2. unfold bar_measure.
  pose proof (total_change (fun x => 2 * rounds_left (procs b' x))%nat (fun x => 2 * rounds_left (procs b x))%nat n p Hp) as T1.
  pose proof (total_change (under_way b') (under_way b) n p Hp) as T2. cbn beta in T1.
  specialize (T1 ltac:(intros; by rewrite H1)).
  specialize (T2 ltac:(intros; unfold under_way; by rewrite H2)). lia.
Qed.

(** One connection of [p] gets longer or shorter. *)
Lemma under_way_change b b' p r : (p < n)%nat -> (r < rounds)%nat ->
  (forall x, x <> next_of n p r -> chan b' p x = chan b p x) ->
  (under_way b' p + length (chan b p (next_of n p r)) = under_way b p + length (chan b' p (next_of n p r)))%nat.
Proof using Hn.
  intros Hp Hr H.
  apply (total_change (fun r => length (chan b' p (next_of n p r))) (fun r => length (chan b p (next_of n p r))) rounds r Hr).
  intros j Hj Hne. rewrite H; [done|]. intros E. by apply Hne, (next_inj p).
Qed.

Lemma resume_measure b p r : bar_inv b -> (p < n)%nat -> bpc (procs b p) = waiting r ->
  (bar_measure (local_step app_minid b p (bar_loop n app_minid true p (procs b p) (Z.of_nat r))) < bar_measure b)%nat.
Proof using Hn.
  intros Hi Hp Hw. destruct (bi_proc b Hi p Hp) as (_ & _ & Hpc). rewrite Hw in Hpc. destruct Hpc as [Hr _].
  replace (Z.of_nat r) with (Z.of_nat (S r) - 1) by lia. rewrite bar_loop_eq.
  assert (Hl : rounds_left (procs b p) = (rounds - r)%nat) by (unfold rounds_left; by rewrite Hw).
  destruct (Nat.ltb_spec (S r) rounds) as [Hlt|Hge]; set (b' := local_step _ _ _ _).
  all: pose proof (measure_row b b' p Hp
    ltac:(intros; unfold b'; cbn; by rewrite fn_lookup_insert_ne)) as Hm.
  - specialize (Hm ltac:(intros; unfold b'; cbn; by rewrite fn_lookup_insert_ne)).
    assert (Hid : id2rank app_minid (rank2id app_minid (next_of n p (S r))) = next_of n p (S r)) by (unfold id2rank, rank2id; lia).
    assert (Hl' : rounds_left (procs b' p) = (rounds - S r)%nat) by (unfold b'; cbn; by rewrite fn_lookup_insert).
    pose proof (under_way_change b b' p (S r) Hp Hlt) as Hu. unfold b' in Hu at 1 3. cbn [local_step chan fst snd] in Hu.
    rewrite Hid, !fn_lookup_insert, length_app in Hu. cbn [length] in Hu.
    specialize (Hu ltac:(intros; by rewrite fn_lookup_insert_ne)). lia.
  - specialize (Hm ltac:(done)). assert (Hl' : rounds_left (procs b' p) = 0%nat) by (unfold b'; cbn; by rewrite fn_lookup_insert).
    assert (Hu : under_way b' p = under_way b p) by done. lia.
Qed.

Lemma deliver_measure b p q hs rest : bar_inv b -> (p < n)%nat -> chan b p q = hs :: rest ->
  (bar_measure (deliver b p q hs rest) < bar_measure b)%nat.
Proof using Hn.
  intros Hi Hp Hc. destruct (bi_chan b Hi p q Hp ltac:(by rewrite Hc)) as (r & Hr & ->).
  set (b' := deliver _ _ _ _ _).
  assert (Hl : forall x, rounds_left (procs b' x) = rounds_left (procs b x)).
  { intros x. unfold b'. cbn. destruct (decide (x = next_of n p r)) as [->|]; [|by rewrite fn_lookup_insert_ne].
    rewrite fn_lookup_insert. unfold sys_dispatch_event. by destruct (sys_cmd hs). }
  pose proof (measure_row b b' p Hp ltac:(auto) ltac:(intros; unfold b'; cbn; by rewrite fn_lookup_insert_ne)) as Hm.
  pose proof (under_way_change b b' p r Hp Hr) as Hu. unfold b' in Hu at 1 3. cbn [deliver chan] in Hu.
  rewrite !fn_lookup_insert, Hc in Hu. cbn [length] in Hu. specialize (Hu ltac:(intros; by rewrite fn_lookup_insert_ne)).
  rewrite Hl in Hm. lia.
Qed.

(** All processes are in, or through, their [K]-th barrier. *)
Definition all_in (K : nat) (b : bstate) : Prop :=
  forall p, (p < n)%nat -> calls (procs b p) = K /\ forall m, bpc (procs b p) <> failed m.

Lemma all_in_work K b b' : all_in K b -> bar_work n app_minid b b' -> all_in K b'.
Proof using Hn.
  intros Ha Hs x Hx. destruct (Ha x Hx) as [Hc Hf]. destruct Hs as [b p r Hp Hw Hb | b p q hs rest Hp Hq Hch]; cbn.
  - destruct (decide (x = p)) as [->|]; [|by rewrite fn_lookup_insert_ne]. rewrite fn_lookup_insert.
    replace (Z.of_nat r) with (Z.of_nat (S r) - 1) by lia. rewrite bar_loop_eq. by destruct (S r <? rounds)%nat.
  - destruct (decide (x = q)) as [->|]; [|by rewrite fn_lookup_insert_ne]. rewrite fn_lookup_insert.
    unfold sys_dispatch_event. by destruct (sys_cmd hs).
Qed.

(** As long as a process waits, a wait is over or a message is under way. *)
Lemma waiting_red K b r : bar_inv b -> all_in K b -> forall p, (p < n)%nat -> bpc (procs b p) = waiting r ->
  relations.red (bar_work n app_minid) b.
Proof using Hn.
  intros Hi Ha. induction r as [r IH] using lt_wf_ind. intros p Hp Hw. destruct (bi_proc b Hi p Hp) as (Hnum & _ & Hpc).
  rewrite Hw in Hpc. destruct Hpc as [Hr _]. pose proof (prev_lt p r) as Hq. destruct (Ha p Hp) as [Hc _].
  destruct (Ha _ Hq) as [Hcq Hfq]. assert (relations.red (bar_work n app_minid) b \/ reach_of (procs b (prev_of n p r)) r = K) as [Hred|HK]; [|done|].
  { unfold reach_of. destruct (bpc (procs b (prev_of n p r))) as [|r'|m] eqn:Eq; [by right| |by destruct (Hfq m)].
    destruct (Nat.ltb_spec r (S r')); [by right|]. left. by apply (IH r' ltac:(lia) _ Hq). }
  destruct (bi_link b Hi _ r Hq Hr) as (k & H1 & _ & H3 & H4). rewrite next_prev in H3, H4 by done. rewrite HK in *.
  destruct (decide (k = K)) as [->|Hne].
  - eexists. apply (bw_resume n app_minid b p r Hp Hw). unfold bar_ready. rewrite H4, Hnum, Hc, Z.eqb_refl. done.
  - replace (K - k)%nat with (S (K - k - 1)) in H3 by lia. cbn in H3. eexists. by apply (bw_deliver n app_minid b _ p _ _ Hq Hp H3).
Qed.

Lemma work_measure b b' : bar_inv b -> bar_work n app_minid b b' -> (bar_measure b' < bar_measure b)%nat.
Proof using Hn. intros Hi Hs. destruct Hs; eauto using resume_measure, deliver_measure. Qed.

Lemma work_bound m b b' : bar_inv b -> nsteps (bar_work n app_minid) m b b' -> (m + bar_measure b' <= bar_measure b)%nat.
Proof using Hn.
  intros Hi H. induction H as [|m b b1 b2 Hs _ IH]; [lia|]. pose proof (work_measure _ _ Hi Hs). specialize (IH (inv_work _ _ Hi Hs)). lia.
Qed.

Lemma all_in_rtc K b b' : bar_inv b -> all_in K b -> rtc (bar_work n app_minid) b b' -> bar_inv b' /\ all_in K b'.
Proof using Hn. intros Hi Ha H. induction H as [|b b1 b2 Hs _ IH]; [done|]. apply IH; eauto using inv_work, all_in_work. Qed.

(** C22: every barrier ends.  Once all processes began their [K]-th call and
    none failed, the number of steps the processes and the network can take
    is bounded, and when none is left every process is outside: no message
    is lost by the overwritten numbers and no process waits for ever. *)
Theorem rpc_barrier_completes K b : bar_reach n app_minid b -> all_in K b ->
  (forall m b', nsteps (bar_work n app_minid) m b b' -> (m <= bar_measure b)%nat) /\
  (forall b', rtc (bar_work n app_minid) b b' -> nf (bar_work n app_minid) b' ->
     forall p, (p < n)%nat -> bpc (procs b' p) = outside /\ calls (procs b' p) = K).
Proof using Hn.
  intros Hb Ha. apply inv_reach in Hb. split.
  - intros m b' H. pose proof (work_bound m b b' Hb H). lia.
  - intros b' H Hnf p Hp. destruct (all_in_rtc K b b' Hb Ha H) as [Hi Ha']. destruct (Ha' p Hp) as [Hc Hf]. split; [|done].
    destruct (bpc (procs b' p)) as [|r|m] eqn:E; [done| |by destruct (Hf m)]. destruct Hnf. by apply (waiting_red K b' r Hi Ha' p).
Qed.

End Invariant.

(** ** Witnesses *)

(** Two processes with ids 5 and 6: both enter, the messages cross, the first
    one leaves. *)
Definition demo_b1 : bstate := local_step 5 (bar_init 2) 0 (bar_enter 2 5 true 0 (procs (bar_init 2) 0)).
Definition demo_b2 : bstate := local_step 5 demo_b1 1 (bar_enter 2 5 true 1 (procs demo_b1 1)).
Definition demo_b3 : bstate := deliver demo_b2 1 0 (bar_hdr 1 1) [].
Definition demo_b4 : bstate := local_step 5 demo_b3 0 (bar_loop 2 5 true 0 (procs demo_b3 0) 0).

Lemma demo_b2_reach : bar_reach 2 5 demo_b2.
Proof.
  eapply rtc_l; [apply (bs_enter 2 5 _ true 0); [lia | reflexivity]|].
  eapply rtc_l; [apply (bs_enter 2 5 _ true 1); [lia | reflexivity]|]. apply rtc_refl.
Qed.

Lemma demo_b4_reach : bar_reach 2 5 demo_b4.
Proof.
  unfold bar_reach. etransitivity; [apply demo_b2_reach|].
  eapply rtc_l; [apply bs_work, (bw_deliver 2 5 demo_b2 1 0 (bar_hdr 1 1) []); [lia | lia | reflexivity]|].
  eapply rtc_l; [apply bs_work, (bw_resume 2 5 demo_b3 0 0); [lia | reflexivity | reflexivity]|]. apply rtc_refl.
Qed.

Lemma rpc_barrier_safe_witness :
  bpc (procs demo_b4 0) = outside /\ calls (procs demo_b4 0) = 1%nat /\ (1 <= calls (procs demo_b4 1))%nat.
Proof.
  split_and!; [reflexivity | reflexivity|].
  apply (rpc_barrier_safe 2 5 ltac:(lia) demo_b4 0 1 demo_b4_reach ltac:(lia) ltac:(lia)). reflexivity.
Defined.

Definition demo_b5 : bstate := deliver demo_b4 0 1 (bar_hdr 0 1) [].
Definition demo_b6 : bstate := local_step 5 demo_b5 1 (bar_loop 2 5 true 1 (procs demo_b5 1) 0).

Lemma demo_b6_work : rtc (bar_work 2 5) demo_b2 demo_b6.
Proof.
  eapply rtc_l; [apply (bw_deliver 2 5 demo_b2 1 0 (bar_hdr 1 1) []); [lia | lia | reflexivity]|].
  eapply rtc_l; [apply (bw_resume 2 5 demo_b3 0 0); [lia | reflexivity | reflexivity]|].
  eapply rtc_l; [apply (bw_deliver 2 5 demo_b4 0 1 (bar_hdr 0 1) []); [lia | lia | reflexivity]|].
  eapply rtc_l; [apply (bw_resume 2 5 demo_b5 1 0); [lia | reflexivity | reflexivity]|]. apply rtc_refl.
Qed.

Lemma demo_b6_nf : nf (bar_work 2 5) demo_b6.
Proof.
  intros [b' H]. inversion H as [b p r Hp Hw _ | b p q hs rest Hp Hq Hc]; subst.
  - destruct p as [|[|p]]; [vm_compute in Hw; discriminate..|lia].
  - destruct p as [|[|p]]; [..|lia]; (destruct q as [|[|q]]; [vm_compute in Hc; discriminate..|lia]).
Qed.

Lemma rpc_barrier_completes_witness :
  bpc (procs demo_b2 0) = waiting 0 /\ bpc (procs demo_b2 1) = waiting 0 /\
  bpc (procs demo_b6 0) = outside /\ calls (procs demo_b6 1) = 1%nat.
Proof.
  assert (Ha : all_in 2 1 demo_b2).
  { intros [|[|p]] Hp; [split; [reflexivity | intros m; vm_compute; discriminate]..|lia]. }
  destruct (rpc_barrier_completes 2 5 ltac:(lia) 1 demo_b2 demo_b2_reach Ha) as [_ Hend].
  split_and!; [reflexivity | reflexivity | apply (Hend demo_b6 demo_b6_work demo_b6_nf) | apply (Hend demo_b6 demo_b6_work demo_b6_nf)]; lia.
Defined.
