(* ===== verification/LockSystem.v ===== *)
(** * Locks held by groups of processes (src/dc_gspace.c)

    [dcg_lock_on_read] and the three other calls of the clients, composed
    with the lock service of the server and with a barrier.  The calls are
    collective: the first process of the group talks to server 0, the others
    meet it in a barrier.  A call blocks in the wait for the grant and in the
    barrier; it is cut there into the parts that run between two waits, and
    [call_pc] says in which wait a process is.

    A process that leaves a call with a negative code exits ([lib_exit]) and
    makes no further step.  [dc_barrier] of the InfiniBand transport returns
    no value: the code the callers test is any number, also when
    [rpc_barrier] has failed.

    A step is marked when a message is lost, when the lock service returns an
    error, or when a process goes on after a barrier that failed; the exclusion
    holds in runs without marked steps ([failed_barrier_enters] is one with). *)

From stdpp Require Import functions relations.
From S2P Require Import Prelude ObjDesc Storage Locks Server Client Barrier.

#[local] Open Scope Z_scope.

(** ** The calls of the clients *)

Inductive call_pc := pc_run | pc_ack | pc_bar | pc_exit (err : Z).

(** The allocation of a lock structure and of a message, and [rpc_send]. *)
Record call_env := mk_cenv { ce_alloc : bool; ce_msg : bool; ce_send : Z }.

(** [myid] and [app_minid]; [comm] is the rank in the communicator, [None]
    for NULL. *)
Definition lock_ids (d : dcg_space) (cp_min_rank : Z) (comm : option Z) : Z * Z :=
  match comm with
  | None => (dcg_id d, cp_min_rank)
  | Some rank => (rank, 0)
  end.

(** Up to the wait for the grant (the first process) or the barrier. *)
Definition dcg_lock_on (t : lock_type) (env : call_env) (d : dcg_space) (cp_min_rank : Z) (comm : option Z) (lock_name : string)
    : dcg_space * list lock_cmd * call_pc :=
  let '(myid, app_minid) := lock_ids d cp_min_rank comm in
  match lock_get (ce_alloc env) d lock_name true with
  | (d, None) => (d, [], pc_exit (- ENOMEM))
  | (d, Some lock) =>
      if myid =? app_minid then
        let '(d, ms, err) := dcg_lock_request (ce_msg env) (ce_send env) d lock t in
        (d, ms, if err <? 0 then pc_exit err else pc_ack)
      else (d, [], pc_bar)
  end.

Definition dcg_lock_on_read := dcg_lock_on lk_read_get.
Definition dcg_lock_on_write := dcg_lock_on lk_write_get.

(** [lock->ack] of the lock with the name. *)
Definition lock_of (d : dcg_space) (lock_name : string) : option dcg_lock := snd (lock_get false d lock_name false).
Definition lock_ack (d : dcg_space) (lock_name : string) : Z := match lock_of d lock_name with Some l => dl_ack l | None => 0 end.

(** One round of [while (lock->ack == 0)]; [err] is what [dc_process] returns. *)
Definition lock_wait (err : Z) (d : dcg_space) (lock_name : string) : call_pc :=
  if lock_ack d lock_name =? 0 then if err <? 0 then pc_exit err else pc_ack else pc_bar.

(** After the barrier, and the test of the caller. *)
Definition lock_entered (err : Z) : call_pc := if err <? 0 then pc_exit err else pc_run.

Definition dcg_unlock_on (env : call_env) (d : dcg_space) (lock_name : string) : dcg_space * call_pc :=
  match lock_get (ce_alloc env) d lock_name true with
  | (d, None) => (d, pc_exit (- ENOMEM))
  | (d, Some _) => (d, pc_bar)
  end.

(** After the barrier: [bar] is its return code. *)
Definition unlock_request (t : lock_type) (env : call_env) (d : dcg_space) (cp_min_rank : Z) (comm : option Z)
    (lock_name : string) (bar : Z) : dcg_space * list lock_cmd * call_pc :=
  if (match comm with None => bar <? 0 | Some _ => negb (bar =? 0) end) then (d, [], lock_entered bar)
  else
    let '(myid, app_minid) := lock_ids d cp_min_rank comm in
    match lock_of d lock_name with
    | Some lock =>
        if myid =? app_minid then
          let '(d, ms, err) := dcg_lock_request (ce_msg env) (ce_send env) d lock t in
          (d, ms, if err <? 0 then pc_exit err else pc_run)
        else (d, [], pc_run)
    | None => (d, [], pc_run)
    end.

Definition dcg_unlock_on_read := unlock_request lk_read_release.
Definition dcg_unlock_on_write := unlock_request lk_write_release.

Definition get_type (writes : bool) : lock_type := if writes then lk_write_get else lk_read_get.
Definition release_type (writes : bool) : lock_type := if writes then lk_write_release else lk_read_release.

(** ** Interfaces *)

(** A barrier of [b_size] processes: [b_enter] has the result of the first
    message a process sends, [b_work] are the internal steps (those that fail
    too), [b_out] says that a process is in no barrier, [b_failed] that it is
    back from one with an error, [b_calls] counts the barriers a process has
    begun. *)
Record barrier (B : Type) := mk_barrier {
  b_size : nat;
  b_init : B;
  b_enter : bool -> nat -> B -> B;
  b_work : B -> B -> Prop;
  b_out : B -> nat -> Prop;
  b_failed : B -> nat -> Prop;
  b_calls : B -> nat -> nat
}.
Arguments mk_barrier {B}.
Arguments b_size {B}.
Arguments b_init {B}.
Arguments b_enter {B}.
Arguments b_work {B}.
Arguments b_out {B}.
Arguments b_failed {B}.
Arguments b_calls {B}.

Inductive b_reach {B} (bar : barrier B) : B -> Prop :=
  | br_init : b_reach bar (b_init bar)
  | br_enter b ok p : b_reach bar b -> (p < b_size bar)%nat -> b_out bar b p -> b_reach bar (b_enter bar ok p b)
  | br_work b b' : b_reach bar b -> b_work bar b b' -> b_reach bar b'.

(** What a barrier promises: who is out has waited for the calls of all
    others. *)
Class BarrierService {B} (bar : barrier B) := {
  bl_meet b p q : b_reach bar b -> (p < b_size bar)%nat -> (q < b_size bar)%nat -> b_out bar b p ->
    (b_calls bar b p <= b_calls bar b q)%nat;
  bl_init p : b_calls bar (b_init bar) p = 0%nat /\ b_out bar (b_init bar) p;
  bl_enter b ok p q : b_calls bar (b_enter bar ok p b) q = if decide (p = q) then S (b_calls bar b q) else b_calls bar b q;
  bl_enter_out b ok p q : p <> q -> b_out bar b q -> b_out bar (b_enter bar ok p b) q;
  bl_work b b' q : b_work bar b b' -> b_calls bar b' q = b_calls bar b q;
  bl_work_out b b' q : b_work bar b b' -> b_out bar b q -> b_out bar b' q
}.

(** What the lock service promises for a lock in its first state [dl]. *)
Class LockService (sv : dsg_lock -> lock_cmd -> dsg_lock * list lock_cmd * Z) (dl : dsg_lock) := {
  lks_exclusive s : rtc (lstep sv) (lsys_init dl) s -> exclusive s;
  lks_hist s : rtc (lstep sv) (lsys_init dl) s -> s_arr s ≡ₚ s_gr s ++ wait_list (sl s)
}.

#[export] Instance generic_service env nm mr dl : env_ok env -> dsg_lock_alloc nm lock_generic mr = Some dl ->
  LockService (lock_service_generic env) dl.
Proof.
  intros He Ha. assert (forall s, rtc (lstep (lock_service_generic env)) (lsys_init dl) s -> linv false s) as H.
  { intros s Hr. apply (rtc_lstep_ext _ _ (service_rw_generic env)) in Hr. eapply rw_reach_inv; [done| |done].
    by eapply linv_init; [|left]. }
  split; intros s [Hc _ _ Hh]%H; [by apply counts_exclusive|by rewrite Hh].
Qed.

#[export] Instance v3_service env nm mr dl : env_ok env -> dsg_lock_alloc nm lock_v3 mr = Some dl ->
  LockService (lock_service_v3 env) dl.
Proof.
  intros He Ha. assert (forall s, rtc (lstep (lock_service_v3 env)) (lsys_init dl) s -> linv true s) as H.
  { intros s Hr. apply (rtc_lstep_ext _ _ (service_rw_v3 env)) in Hr. eapply rw_reach_inv; [done| |done].
    by eapply linv_init; [|right]. }
  split; intros s [Hc _ _ Hh]%H; [by apply counts_exclusive|done].
Qed.

#[export] Instance custom_service env nm m dl : 1 <= m -> env_ok env -> dsg_lock_alloc nm lock_custom m = Some dl ->
  LockService (sem_service env) dl.
Proof.
  intros Hm He Ha. split; intros s Hr; apply (sem_reach_inv m env Hm He) in Hr as [Hc _ _ Hh]; (try by eapply sinv_init);
    [by apply (score_exclusive m)|done].
Qed.

(** The steps in [rpc_barrier]: those of [bar_work], a message that cannot be
    sent, a wait that ends with an error. *)
Inductive bar_inner (n minid : nat) : bstate -> bstate -> Prop :=
  | bi_work b b' : bar_work n minid b b' -> bar_inner n minid b b'
  | bi_send_fails b p r : (p < n)%nat -> bpc (procs b p) = waiting r -> bar_ready n p (procs b p) r = true ->
      bar_inner n minid b (local_step minid b p (bar_loop n minid false p (procs b p) (Z.of_nat r)))
  | bi_wait_fails b p r : (p < n)%nat -> bpc (procs b p) = waiting r ->
      bar_inner n minid b (mk_bs (<[p := set_bpc (procs b p) (failed (S r))]> (procs b)) (chan b)).

(** [rpc_barrier] of the application with the first id [minid]. *)
Definition rpc_bar_of (n minid : nat) : barrier bstate :=
  mk_barrier n (bar_init n) (fun ok p b => local_step minid b p (bar_enter n minid ok p (procs b p))) (bar_inner n minid)
    (fun b p => bpc (procs b p) = outside) (fun b p => exists m, bpc (procs b p) = failed m) (fun b p => calls (procs b p)).

Lemma local_step_proc minid b p r q : procs (local_step minid b p r) q = if decide (p = q) then r.1 else procs b q.
Proof. unfold local_step. cbn. unfold insert, fn_insert. by destruct (decide (p = q)). Qed.

Lemma bar_loop_calls n minid ok p s r : calls (bar_loop n minid ok p s r).1 = calls s.
Proof. unfold bar_loop. by destruct (_ <? _), ok. Qed.

Lemma deliver_proc b p q hs rest k : calls (procs (deliver b p q hs rest) k) = calls (procs b k) /\
  bpc (procs (deliver b p q hs rest) k) = bpc (procs b k).
Proof.
  unfold deliver. cbn. unfold insert, fn_insert. destruct (decide (q = k)) as [->|]; [|done].
  unfold sys_dispatch_event. by destruct (sys_cmd hs).
Qed.

#[export] Instance rpc_barrier_service n minid : 1 <= Z.of_nat n <= 2 ^ 30 -> BarrierService (rpc_bar_of n minid).
Proof.
  intros Hn. assert (forall b, b_reach (rpc_bar_of n minid) b -> bar_reach n minid b) as Hr.
  { induction 1 as [|b ok p _ IH Hp Ho|b b' _ IH Hw]; [apply rtc_refl| |];
      (eapply rtc_r; [exact IH|]); [by apply bs_enter|]. destruct Hw; [by apply bs_work|by eapply bs_resume_fail|by eapply bs_wait_fail]. }
  split; cbn [rpc_bar_of b_size b_init b_enter b_work b_out b_failed b_calls].
  - intros b p q Hb Hp Hq Ho. apply Hr in Hb.
    destruct (inv_ahead n Hn b p q (inv_reach n minid Hn b Hb) Hp Hq) as [Hl _].
    unfold reach_of in Hl. by rewrite Ho in Hl.
  - done.
  - intros b ok p q. rewrite local_step_proc. destruct (decide (p = q)) as [->|]; [|done].
    unfold bar_enter. by rewrite bar_loop_calls.
  - intros b ok p q Hne Ho. rewrite local_step_proc. by destruct (decide (p = q)).
  - intros b b' q [b0 b1 [b2 p r Hp Hw Hb|b2 p k hs rest Hp Hk Hc]|b0 p r Hp Hw Hb|b0 p r Hp Hw]; [|apply deliver_proc| |];
      rewrite ?local_step_proc; cbn [procs]; [| |unfold insert, fn_insert]; (destruct (decide (p = q)) as [->|]; [|done]); [apply bar_loop_calls..|done].
  - intros b b' q [b0 b1 [b2 p r Hp Hw Hb|b2 p k hs rest Hp Hk Hc]|b0 p r Hp Hw Hb|b0 p r Hp Hw] Ho;
      [|by rewrite (proj2 (deliver_proc _ _ _ _ _ _))| |];
      rewrite ?local_step_proc; cbn [procs]; [| |unfold insert, fn_insert]; (destruct (decide (p = q)) as [->|]; [congruence|done]).
Qed.

(** [MPI_Barrier], by what MPI documents: a process leaves a barrier after all
    have entered it, and by default an error ends the program.  The state has the number of calls of each process and
    whether it is in a barrier. *)
Definition mpi_state : Type := nat -> nat * bool.

Inductive mpi_work (n : nat) : mpi_state -> mpi_state -> Prop :=
  | mw_leave b p : (p < n)%nat -> (b p).2 = true -> (forall q, (q < n)%nat -> ((b p).1 <= (b q).1)%nat) ->
      mpi_work n b (<[p := ((b p).1, false)]> b).

Definition mpi_bar_of (n : nat) : barrier mpi_state :=
  mk_barrier n (fun _ => (0%nat, false)) (fun _ p b => <[p := (S (b p).1, true)]> b) (mpi_work n)
    (fun b p => (b p).2 = false) (fun _ _ => False) (fun b p => (b p).1).

#[export] Instance mpi_barrier_service n : BarrierService (mpi_bar_of n).
Proof.
  split; cbn [mpi_bar_of b_size b_init b_enter b_work b_out b_failed b_calls].
  - intros b p q Hb Hp Hq. induction Hb as [|b ok k _ IH Hk Ho|b b' _ IH Hw]; cbn -[insert] in *; [lia| |].
    + unfold insert, fn_insert. destruct (decide (k = p)) as [->|]; [done|]. intros H. specialize (IH H).
      destruct (decide (k = q)) as [->|]; cbn; lia.
    + destruct Hw as [b0 k Hk Hi Hm]. unfold insert, fn_insert.
      destruct (decide (k = p)) as [<-|], (decide (k = q)) as [<-|]; cbn; auto.
  - done.
  - intros b ok p q. unfold insert, fn_insert. by destruct (decide (p = q)) as [->|].
  - intros b ok p q Hne Ho. unfold insert, fn_insert. by destruct (decide (p = q)).
  - intros b b' q [b0 p Hp Hi Hm]. unfold insert, fn_insert. by destruct (decide (p = q)) as [->|].
  - intros b b' q [b0 p Hp Hi Hm] Ho. unfold insert, fn_insert. by destruct (decide (p = q)).
Qed.

(** ** The system

    Groups of processes with the same lock.  All processes of a group make
    the same calls: [writes g i] says whether section [i] of group [g] is one
    of writing.  [lp_pos] counts the calls a process has returned from, so it
    is odd inside a section.  Requests and grants between the first process
    of a group and the server arrive in the order they were sent. *)

Record lproc := mk_lp { lp_dcg : dcg_space; lp_pos : nat; lp_pc : call_pc }.

Record group (B : Type) := mk_group {
  g_bar : B;
  g_proc : nat -> lproc;
  g_req : list lock_cmd;      (* on the way to the server *)
  g_grant : list lockhdr      (* on the way to the first process *)
}.
Arguments mk_group {B}.
Arguments g_bar {B}.
Arguments g_proc {B}.
Arguments g_req {B}.
Arguments g_grant {B}.

Record asys (B : Type) := mk_as { a_srv : lsys; a_group : nat -> group B }.
Arguments mk_as {B}.
Arguments a_srv {B}.
Arguments a_group {B}.

Definition lock_call (w : bool) := if w then dcg_lock_on_write else dcg_lock_on_read.
Definition unlock_call (w : bool) := if w then dcg_unlock_on_write else dcg_unlock_on_read.

Fixpoint remove_one (x : Z) (l : list Z) : list Z :=
  match l with
  | [] => []
  | y :: l => if decide (y = x) then l else y :: remove_one x l
  end.

(** The server has handled [cmd]: the lock is [dl], the requests [g] are
    granted. *)
Definition served (s : lsys) (cmd : lock_cmd) (dl : dsg_lock) (g : list lock_cmd) : lsys :=
  match typ cmd with
  | lk_read_release => mk_lsys dl (remove_one (lc_id cmd) (s_rd s) ++ rds g) (s_wr s ++ wrs g) (s_arr s) (s_gr s ++ g)
  | lk_write_release => mk_lsys dl (s_rd s ++ rds g) (remove_one (lc_id cmd) (s_wr s) ++ wrs g) (s_arr s) (s_gr s ++ g)
  | _ => mk_lsys dl (s_rd s ++ rds g) (s_wr s ++ wrs g) (s_arr s ++ [cmd]) (s_gr s ++ g)
  end.

(** The grants for the client [m], as they are sent. *)
Definition grants_for (m : Z) (g : list lock_cmd) : list lockhdr :=
  (fun c => grant_hdr (lc_hdr c)) <$> filter (fun c => lc_id c = m) g.

Section LockSystem.
Context {B : Type} (bar : nat -> barrier B) (N : nat) (nm : string).
Context (sv : dsg_lock -> lock_cmd -> dsg_lock * list lock_cmd * Z) (dl0 : dsg_lock).
(** The ids of the processes, the first id of the application, the rank in
    the communicator. *)
Context (writes : nat -> nat -> bool) (pid : nat -> nat -> Z) (first : nat -> Z) (comm : nat -> nat -> option Z).

Definition proc (s : asys B) (g p : nat) : lproc := g_proc (a_group s g) p.
Definition size_of (g : nat) : nat := b_size (bar g).

(** Process [p] of group [g] goes on to [x] and sends [ms]; it enters the
    barrier when the call has reached it. *)
Definition upd_proc (ok : bool) (s : asys B) (g p : nat) (x : lproc) (ms : list lock_cmd) : asys B :=
  let G := a_group s g in
  let b := match lp_pc x with pc_bar => b_enter (bar g) ok p (g_bar G) | _ => g_bar G end in
  mk_as (a_srv s) (<[g := mk_group b (<[p := x]> (g_proc G)) (g_req G ++ ms) (g_grant G)]> (a_group s)).

Definition upd_bar (s : asys B) (g : nat) (b : B) : asys B :=
  let G := a_group s g in mk_as (a_srv s) (<[g := mk_group b (g_proc G) (g_req G) (g_grant G)]> (a_group s)).

Definition upd_serve (s : asys B) (g : nat) (rest : list lock_cmd) (srv : lsys) (gr : list lock_cmd) : asys B :=
  mk_as srv (fun h => let G := a_group s h in
    mk_group (g_bar G) (g_proc G) (if decide (h = g) then rest else g_req G) (g_grant G ++ grants_for (pid h 0) gr)).

Definition upd_grant (s : asys B) (g : nat) (lh : lockhdr) (rest : list lockhdr) : asys B :=
  let G := a_group s g in
  let x := g_proc G 0%nat in
  let x := mk_lp (fst (dcgrpc_lock_service (lp_dcg x) lh)) (lp_pos x) (lp_pc x) in
  mk_as (a_srv s) (<[g := mk_group (g_bar G) (<[0%nat := x]> (g_proc G)) (g_req G) rest]> (a_group s)).

(** The position after a call that left with [pc]. *)
Definition next_pos (pos : nat) (pc : call_pc) : nat := match pc with pc_exit _ => pos | _ => S pos end.

(** Messages of a group that are lost. *)
Definition upd_lost (s : asys B) (g : nat) (req : list lock_cmd) (gr : list lockhdr) : asys B :=
  let G := a_group s g in mk_as (a_srv s) (<[g := mk_group (g_bar G) (g_proc G) req gr]> (a_group s)).

(** What the barrier returned, as the call tests it: [dc_barrier] returns
    nothing, [MPI_Barrier] its own code. *)
Definition bar_code (g p : nat) (err : Z) : Prop := comm g p = None \/ err = 0.
Definition bar_error (g p : nat) (err : Z) : Prop := comm g p = None \/ err <> 0.

(** [astep true]: the steps that are marked. *)
Inductive astep : bool -> asys B -> asys B -> Prop :=
  | as_lock s g p ok env d ms pc : (g < N)%nat -> (p < size_of g)%nat ->
      lp_pc (proc s g p) = pc_run -> Nat.even (lp_pos (proc s g p)) = true ->
      lock_call (writes g (Nat.div2 (lp_pos (proc s g p)))) env (lp_dcg (proc s g p)) (first g) (comm g p) nm = (d, ms, pc) ->
      astep false s (upd_proc ok s g p (mk_lp d (lp_pos (proc s g p)) pc) ms)
  | as_ack s g p ok err : (g < N)%nat -> (p < size_of g)%nat -> lp_pc (proc s g p) = pc_ack ->
      astep false s (upd_proc ok s g p (mk_lp (lp_dcg (proc s g p)) (lp_pos (proc s g p)) (lock_wait err (lp_dcg (proc s g p)) nm)) [])
  | as_locked s g p err : (g < N)%nat -> (p < size_of g)%nat ->
      lp_pc (proc s g p) = pc_bar -> Nat.even (lp_pos (proc s g p)) = true -> b_out (bar g) (g_bar (a_group s g)) p -> bar_code g p err ->
      astep false s (upd_proc true s g p (mk_lp (lp_dcg (proc s g p)) (next_pos (lp_pos (proc s g p)) (lock_entered err)) (lock_entered err)) [])
  | as_unlock s g p ok env d pc : (g < N)%nat -> (p < size_of g)%nat ->
      lp_pc (proc s g p) = pc_run -> Nat.even (lp_pos (proc s g p)) = false ->
      dcg_unlock_on env (lp_dcg (proc s g p)) nm = (d, pc) ->
      astep false s (upd_proc ok s g p (mk_lp d (lp_pos (proc s g p)) pc) [])
  | as_unlocked s g p env err d ms pc : (g < N)%nat -> (p < size_of g)%nat ->
      lp_pc (proc s g p) = pc_bar -> Nat.even (lp_pos (proc s g p)) = false -> b_out (bar g) (g_bar (a_group s g)) p -> bar_code g p err ->
      unlock_call (writes g (Nat.div2 (lp_pos (proc s g p)))) env (lp_dcg (proc s g p)) (first g) (comm g p) nm err = (d, ms, pc) ->
      astep false s (upd_proc true s g p (mk_lp d (next_pos (lp_pos (proc s g p)) pc) pc) ms)
  | as_bar s g b : (g < N)%nat -> b_work (bar g) (g_bar (a_group s g)) b -> astep false s (upd_bar s g b)
  | as_serve s g cmd rest dl gr rc : (g < N)%nat -> g_req (a_group s g) = cmd :: rest -> sv (sl (a_srv s)) cmd = (dl, gr, rc) ->
      astep (negb (rc =? 0)) s (upd_serve s g rest (served (a_srv s) cmd dl gr) gr)
  | as_grant s g lh rest : (g < N)%nat -> g_grant (a_group s g) = lh :: rest -> astep false s (upd_grant s g lh rest)
  | as_locked_anyway s g p err : (g < N)%nat -> (p < size_of g)%nat ->
      lp_pc (proc s g p) = pc_bar -> Nat.even (lp_pos (proc s g p)) = true -> b_failed (bar g) (g_bar (a_group s g)) p -> bar_error g p err ->
      astep true s (upd_proc true s g p (mk_lp (lp_dcg (proc s g p)) (next_pos (lp_pos (proc s g p)) (lock_entered err)) (lock_entered err)) [])
  | as_unlocked_anyway s g p env err d ms pc : (g < N)%nat -> (p < size_of g)%nat ->
      lp_pc (proc s g p) = pc_bar -> Nat.even (lp_pos (proc s g p)) = false -> b_failed (bar g) (g_bar (a_group s g)) p -> bar_error g p err ->
      unlock_call (writes g (Nat.div2 (lp_pos (proc s g p)))) env (lp_dcg (proc s g p)) (first g) (comm g p) nm err = (d, ms, pc) ->
      astep true s (upd_proc true s g p (mk_lp d (next_pos (lp_pos (proc s g p)) pc) pc) ms)
  | as_lose_request s g l1 c l2 : (g < N)%nat -> g_req (a_group s g) = l1 ++ c :: l2 ->
      astep true s (upd_lost s g (l1 ++ l2) (g_grant (a_group s g)))
  | as_lose_grant s g l1 lh l2 : (g < N)%nat -> g_grant (a_group s g) = l1 ++ lh :: l2 ->
      astep true s (upd_lost s g (g_req (a_group s g)) (l1 ++ l2)).

Definition a_init (dcgs : nat -> nat -> dcg_space) : asys B :=
  mk_as (lsys_init dl0) (fun g => mk_group (b_init (bar g)) (fun p => mk_lp (dcgs g p) 0 pc_run) [] []).

(** Process [p] of group [g] is in its section [i]. *)
Definition in_section (s : asys B) (g p i : nat) : Prop :=
  (g < N)%nat /\ (p < size_of g)%nat /\ lp_pc (proc s g p) = pc_run /\ lp_pos (proc s g p) = S (2 * i).

Definition names_ok (d : dcg_space) : Prop := Forall (fun l => lock_name_trunc (dl_name l) = dl_name l) (dcg_locks d).

(** How the groups are set up: the ids of an application are consecutive, the
    first processes of two groups differ. *)
Record setup (dcgs : nat -> nat -> dcg_space) : Prop := {
  su_size g : (g < N)%nat -> (1 <= size_of g)%nat;
  su_id g p : dcg_id (dcgs g p) = pid g p;
  su_names g p : names_ok (dcgs g p);
  su_comm g p : match comm g p with None => pid g p = first g + Z.of_nat p | Some r => r = Z.of_nat p end;
  su_distinct g h : (g < N)%nat -> (h < N)%nat -> g <> h -> pid g 0 <> pid h 0
}.

(** ** What the server knows of a client *)

Definition occ (m : Z) (l : list Z) : nat := length (filter (fun x => x = m) l).
Definition waits (m : Z) (srv : lsys) : list lock_cmd := filter (fun c => lc_id c = m) (wait_list (sl srv)).

Record claims (srv : lsys) (m : Z) (w : list lock_cmd) (r x : nat) : Prop := {
  cl_wait : waits m srv = w;
  cl_rd : occ m (s_rd srv) = r;
  cl_wr : occ m (s_wr srv) = x
}.

Definition cmd_of (m : Z) (t : lock_type) (c : lock_cmd) : Prop :=
  lc_id c = m /\ typ c = t /\ lh_name (lc_hdr c) = lock_name_trunc nm.

Definition rd_of (w : bool) : nat := if w then 0%nat else 1%nat.
Definition wr_of (w : bool) : nat := if w then 1%nat else 0%nat.

(** What a client has: nothing, a request not answered, the lock. *)
Inductive view := v_free | v_wait (w : bool) | v_held (w : bool).

(** The stages of the requests of client [m]: the requests and grants on the
    way, and its view. *)
Inductive phase (m : Z) (srv : lsys) : list lock_cmd -> list lockhdr -> view -> Prop :=
  | ph_free : claims srv m [] 0 0 -> phase m srv [] [] v_free
  | ph_rel w c : claims srv m [] (rd_of w) (wr_of w) -> cmd_of m (release_type w) c -> phase m srv [c] [] v_free
  | ph_get w c : claims srv m [] 0 0 -> cmd_of m (get_type w) c -> phase m srv [c] [] (v_wait w)
  | ph_rel_get w w' c c' : claims srv m [] (rd_of w) (wr_of w) -> cmd_of m (release_type w) c -> cmd_of m (get_type w') c' ->
      phase m srv [c; c'] [] (v_wait w')
  | ph_queued w c : claims srv m [c] 0 0 -> cmd_of m (get_type w) c -> phase m srv [] [] (v_wait w)
  | ph_granted w lh : claims srv m [] (rd_of w) (wr_of w) -> lh_name lh = lock_name_trunc nm -> phase m srv [] [lh] (v_wait w)
  | ph_held w : claims srv m [] (rd_of w) (wr_of w) -> phase m srv [] [] (v_held w).

Lemma occ_app m l1 l2 : occ m (l1 ++ l2) = (occ m l1 + occ m l2)%nat.
Proof. unfold occ. by rewrite list.filter_app, length_app. Qed.

Lemma occ_remove m x l : occ m (remove_one x l) = (occ m l - if decide (x = m) then 1 else 0)%nat.
Proof.
  unfold occ. induction l as [|y l IH]; [done|]. cbn [remove_one]. destruct (decide (y = x)) as [->|].
  - rewrite list.filter_cons. destruct (decide (x = m)); cbn; lia.
  - rewrite !list.filter_cons. destruct (decide (y = m)) as [->|]; cbn [length]; rewrite IH; [|done].
    destruct (decide (x = m)); [congruence|lia].
Qed.

Lemma remove_one_split x l : occ x l <> 0%nat -> exists l1 l2, l = l1 ++ x :: l2 /\ remove_one x l = l1 ++ l2.
Proof.
  unfold occ. induction l as [|y l IH]; [done|]. intros H. rewrite list.filter_cons in H. cbn [remove_one].
  destruct (decide (y = x)) as [->|]; [by exists [], l|]. destruct (IH H) as (l1 & l2 & -> & ->). by exists (y :: l1), l2.
Qed.

Lemma occ_typed m t g :
  occ m (lc_id <$> filter (fun c => typ c = t) g) = length (filter (fun c => typ c = t) (filter (fun c => lc_id c = m) g)).
Proof.
  unfold occ. induction g as [|c g IH]; [done|].
  rewrite (list.filter_cons (fun c => lc_id c = m)), (list.filter_cons (fun c => typ c = t) c g).
  destruct (decide (typ c = t)) as [Ht|Ht], (decide (lc_id c = m)) as [Hm|Hm]; cbn [fmap list_fmap];
    rewrite ?list.filter_cons, ?decide_True, ?decide_False by done; cbn [length]; rewrite ?IH; done.
Qed.

Lemma filter_perm {A} (P : A -> Prop) `{forall x, Decision (P x)} l1 l2 : l1 ≡ₚ l2 -> filter P l1 ≡ₚ filter P l2.
Proof. intros H1. by rewrite H1. Qed.

(** The release that client [m] asks for with [cmd]. *)
Definition gives_back (t : lock_type) (m : Z) (cmd : lock_cmd) : nat := if decide (typ cmd = t /\ lc_id cmd = m) then 1 else 0.
Definition asks (m : Z) (cmd : lock_cmd) : list lock_cmd :=
  if decide (typ cmd <> lk_read_release /\ typ cmd <> lk_write_release /\ lc_id cmd = m) then [cmd] else [].

Lemma serve_claims srv cmd dl g m w r x : s_arr srv ≡ₚ s_gr srv ++ wait_list (sl srv) ->
  s_arr (served srv cmd dl g) ≡ₚ s_gr (served srv cmd dl g) ++ wait_list (sl (served srv cmd dl g)) ->
  claims srv m w r x -> let gm := filter (fun c => lc_id c = m) g in
  exists w', w ++ asks m cmd ≡ₚ gm ++ w' /\
    claims (served srv cmd dl g) m w' (r - gives_back lk_read_release m cmd + length (filter (fun c => typ c = lk_read_get) gm))
      (x - gives_back lk_write_release m cmd + length (filter (fun c => typ c = lk_write_get) gm)).
Proof.
  intros H1 H2 [Hw Hr Hx] gm. exists (waits m (served srv cmd dl g)). split.
  - assert (wait_list (sl srv) ++ (if decide (typ cmd <> lk_read_release /\ typ cmd <> lk_write_release) then [cmd] else [])
      ≡ₚ g ++ wait_list (sl (served srv cmd dl g))) as Hp.
    { apply (Permutation_app_inv_l (s_gr srv)). rewrite app_assoc, <- H1. unfold served in *.
      destruct (typ cmd); cbn [s_arr s_gr sl] in *; destruct (decide _) as [Hd|Hd]; try (clear -Hd; tauto);
        try (exfalso; apply Hd; split; discriminate); rewrite ?app_nil_r, H2; by rewrite <- app_assoc. }
    apply (filter_perm (fun c => lc_id c = m)) in Hp. rewrite !list.filter_app in Hp. fold gm (waits m srv) in Hp.
    rewrite Hw in Hp. replace (asks m cmd) with (filter (fun c => lc_id c = m)
      (if decide (typ cmd <> lk_read_release /\ typ cmd <> lk_write_release) then [cmd] else [])); [exact Hp|].
    clear. unfold asks. case_decide as Ht; [rewrite list.filter_cons|]; repeat case_decide; tauto.
  - constructor; [done| |]; unfold served, gives_back; destruct (typ cmd) eqn:Et; cbn [s_rd s_wr]; unfold rds, wrs;
      rewrite occ_app, ?occ_remove, occ_typed, ?Hr, ?Hx; fold gm; f_equal;
      clear -Et; repeat case_decide; intuition (lia || congruence).
Qed.

(** A request of another client. *)
Lemma serve_other srv cmd dl g m w r x : s_arr srv ≡ₚ s_gr srv ++ wait_list (sl srv) ->
  s_arr (served srv cmd dl g) ≡ₚ s_gr (served srv cmd dl g) ++ wait_list (sl (served srv cmd dl g)) ->
  lc_id cmd <> m -> claims srv m w r x -> let gm := filter (fun c => lc_id c = m) g in
  exists w', w ≡ₚ gm ++ w' /\
    claims (served srv cmd dl g) m w' (r + length (filter (fun c => typ c = lk_read_get) gm))
      (x + length (filter (fun c => typ c = lk_write_get) gm)).
Proof.
  intros H1 H2 Hne Hc gm. destruct (serve_claims srv cmd dl g m w r x H1 H2 Hc) as (w' & Hp & H). exists w'.
  unfold asks, gives_back in *. rewrite !decide_False in * by (clear -Hne; tauto). rewrite app_nil_r, !Nat.sub_0_r in *. done.
Qed.

Lemma perm_single {A} (c : A) g w : [c] ≡ₚ g ++ w -> g = [c] /\ w = [] \/ g = [] /\ w = [c].
Proof. intros H%Permutation_length_1_inv. destruct g as [|y g]; cbn in H; [by right|left]. injection H as -> H. apply app_eq_nil in H as [-> ->]. done. Qed.

(** ** The locks of a client *)

Lemma substring_idem n s : String.substring 0 n (String.substring 0 n s) = String.substring 0 n s.
Proof. revert s. induction n as [|n IH]; intros [|a s]; cbn; [done..|]. by rewrite IH. Qed.

Lemma trunc_idem s : lock_name_trunc (lock_name_trunc s) = lock_name_trunc s.
Proof. apply substring_idem. Qed.

Abbreviation names_lock := (fun l => String.eqb (lock_name_trunc (dl_name l)) (lock_name_trunc nm)).

Lemma lock_of_find d : lock_of d nm = List.find names_lock (dcg_locks d).
Proof. unfold lock_of, lock_get. by destruct (List.find _ _). Qed.

Lemma lock_of_name d l : names_ok d -> lock_of d nm = Some l -> dl_name l = lock_name_trunc nm.
Proof.
  rewrite lock_of_find. intros Hn [Hin E%String.eqb_eq]%find_some. apply list_elem_of_In in Hin.
  unfold names_ok in Hn. rewrite list.Forall_forall in Hn. by rewrite <- E, (Hn l Hin).
Qed.

Lemma lock_update_of d l l' : names_ok d -> lock_of d nm = Some l -> dl_name l' = dl_name l ->
  lock_of (lock_update d l') nm = Some l' /\ names_ok (lock_update d l') /\ dcg_id (lock_update d l') = dcg_id d.
Proof.
  intros Hn Hl He. pose proof (lock_of_name d l Hn Hl) as Hm. rewrite Hm in He. rewrite lock_of_find in Hl |- *.
  unfold names_ok, lock_update in *. cbn [set_locks dcg_locks dcg_id].
  split; [|split; [|done]].
  - induction (dcg_locks d) as [|e ls IH]; [done|]. apply list.Forall_cons in Hn as [Hen Hn]. cbn [List.find map] in *.
    rewrite He in *. destruct (String.eqb_spec (dl_name e) (lock_name_trunc nm)) as [E|E].
    + rewrite He, trunc_idem, String.eqb_refl. done.
    + rewrite Hen in *. rewrite (proj2 (String.eqb_neq _ _) E) in Hl |- *. auto.
  - apply list.Forall_fmap. eapply list.Forall_impl; [exact Hn|]. intros e Ee. cbn.
    destruct (String.eqb _ _); [by rewrite He, trunc_idem|done].
Qed.

Lemma lock_get_spec ok d : names_ok d ->
  let '(d', o) := lock_get ok d nm true in
  dcg_id d' = dcg_id d /\ names_ok d' /\ match o with Some l => lock_of d' nm = Some l | None => True end.
Proof.
  intros Hn. pose proof (lock_of_find d) as Hf. unfold lock_get. cbn beta in *.
  destruct (List.find _ (dcg_locks d)) as [l|] eqn:E; [done|]. destruct ok; cbn [andb]; [|done].
  split; [done|]. split; [apply list.Forall_cons; split; [apply trunc_idem|done]|].
  rewrite lock_of_find. cbn. by rewrite trunc_idem, String.eqb_refl.
Qed.

Lemma lock_request_spec msg send d l t d' ms err : names_ok d -> lock_of d nm = Some l ->
  dcg_lock_request msg send d l t = (d', ms, err) ->
  dcg_id d' = dcg_id d /\ names_ok d' /\
  (err < 0 /\ ms = [] \/ err = 0 /\ lock_ack d' nm = 0 /\ exists c, ms = [c] /\ cmd_of (dcg_id d) t c).
Proof.
  intros Hn Hl. unfold dcg_lock_request. destruct msg; [|by intros [= <- <- <-]; repeat split; try done; left].
  destruct (Z.ltb_spec send 0); intros [= <- <- <-]; [repeat split; try done; by left|].
  pose proof (lock_of_name d l Hn Hl) as Hm.
  destruct (lock_update_of d l (mk_dlock (dl_name l) 1 0 (dl_num l)) Hn Hl eq_refl) as (H1 & H2 & H3).
  split; [done|]. split; [done|]. right. split; [done|]. split; [unfold lock_ack; by rewrite H1|].
  eexists. split; [done|]. repeat split. exact Hm.
Qed.

Lemma service_spec d lh : names_ok d -> dcg_id (fst (dcgrpc_lock_service d lh)) = dcg_id d /\
  names_ok (fst (dcgrpc_lock_service d lh)) /\
  (is_Some (lock_of d nm) -> is_Some (lock_of (fst (dcgrpc_lock_service d lh)) nm)).
Proof.
  intros Hn. unfold dcgrpc_lock_service. destruct (snd (lock_get false d (lh_name lh) false)) as [l|] eqn:E; cbn [fst]; [|done].
  split; [done|]. unfold names_ok, lock_update in *. cbn [set_locks dcg_locks]. split.
  - apply list.Forall_fmap. eapply list.Forall_impl; [exact Hn|]. intros e Ee. cbn.
    destruct (String.eqb_spec (dl_name e) (dl_name l)) as [En|]; [cbn; by rewrite <- En|done].
  - rewrite !lock_of_find. cbn [dcg_locks set_locks dl_name]. clear E Hn. induction (dcg_locks d) as [|e ls IH]; [done|].
    cbn [List.find map]. destruct (String.eqb_spec (dl_name e) (dl_name l)) as [En|]; cbn [dl_name]; rewrite ?En;
      (destruct (String.eqb (lock_name_trunc _) _); [intros _; by eexists|exact IH]).
Qed.

(** ** The calls *)

Section calls.
Context (dcgs : nat -> nat -> dcg_space) (Hsetup : setup dcgs).

Lemma master_test g p d : dcg_id d = pid g p ->
  (let '(myid, app_minid) := lock_ids d (first g) (comm g p) in myid =? app_minid) = (p =? 0)%nat.
Proof using Hsetup dcgs.
  intros Hd. pose proof (su_comm _ Hsetup g p) as Hc. unfold lock_ids. destruct (comm g p) as [r|]; rewrite ?Hd, Hc;
    (destruct (Nat.eqb_spec p 0) as [->|]; [apply Z.eqb_eq|apply Z.eqb_neq]; lia).
Qed.

Lemma lock_call_spec g p w env d d' ms pc : dcg_id d = pid g p -> names_ok d ->
  lock_call w env d (first g) (comm g p) nm = (d', ms, pc) ->
  dcg_id d' = pid g p /\ names_ok d' /\
  ((exists e, pc = pc_exit e) /\ ms = [] \/ p <> 0%nat /\ pc = pc_bar /\ ms = [] /\ is_Some (lock_of d' nm) \/
   p = 0%nat /\ pc = pc_ack /\ lock_ack d' nm = 0 /\ exists c, ms = [c] /\ cmd_of (pid g 0) (get_type w) c).
Proof using Hsetup dcgs.
  intros Hd Hn. replace (lock_call w) with (dcg_lock_on (get_type w)) by (by destruct w).
  pose proof (master_test g p d Hd) as Hm. unfold dcg_lock_on. destruct (lock_ids _ _ _) as [myid minid]. cbn in Hm.
  pose proof (lock_get_spec (ce_alloc env) d Hn) as Hg. destruct (lock_get _ _ _ _) as [d1 [l|]]; destruct Hg as (H1 & H2 & H3);
    [|intros [= <- <- <-]; rewrite H1; split; [done|]; split; [done|]; left; eauto].
  rewrite Hm. destruct (Nat.eqb_spec p 0) as [->|Hp];
    [|intros [= <- <- <-]; rewrite H1; split; [done|]; split; [done|]; right; left; eauto].
  destruct (dcg_lock_request _ _ _ _ _) as [[d2 ms2] err] eqn:E. intros [= <- <- <-].
  destruct (lock_request_spec _ _ _ _ _ _ _ _ H2 H3 E) as (G1 & G2 & G3). rewrite G1, H1. split; [done|]. split; [done|].
  destruct G3 as [[Hlt ->]|(-> & Ha & c & -> & Hc)]; [left; rewrite (proj2 (Z.ltb_lt _ _) Hlt); eauto|].
  right. right. rewrite H1, Hd in Hc. split; [done|]. split; [done|]. split; [done|]. by exists c.
Qed.

Lemma unlock_call_spec g p w env d err d' ms pc : dcg_id d = pid g p -> names_ok d -> is_Some (lock_of d nm) -> bar_code g p err ->
  unlock_call w env d (first g) (comm g p) nm err = (d', ms, pc) ->
  dcg_id d' = pid g p /\ names_ok d' /\
  ((exists e, pc = pc_exit e) /\ ms = [] \/ p <> 0%nat /\ pc = pc_run /\ ms = [] \/
   p = 0%nat /\ pc = pc_run /\ exists c, ms = [c] /\ cmd_of (pid g 0) (release_type w) c).
Proof using Hsetup dcgs.
  intros Hd Hn [l Hl] Hb. unfold bar_code in Hb. replace (unlock_call w) with (unlock_request (release_type w)) by (by destruct w).
  pose proof (master_test g p d Hd) as Hm. unfold unlock_request.
  destruct (match comm g p with None => err <? 0 | Some _ => _ end) eqn:Et.
  { intros [= <- <- <-]. split; [done|]. split; [done|]. left. split; [|done]. unfold lock_entered.
    destruct (comm g p); [destruct Hb as [?| ->]; [done|by cbn in Et]|]. rewrite Et. eauto. }
  destruct (lock_ids _ _ _) as [myid minid]. cbn in Hm. rewrite Hl, Hm.
  destruct (Nat.eqb_spec p 0) as [->|Hp]; [|intros [= <- <- <-]; split; [done|]; split; [done|]; right; left; eauto].
  destruct (dcg_lock_request _ _ _ _ _) as [[d2 ms2] e] eqn:E. intros [= <- <- <-].
  destruct (lock_request_spec _ _ _ _ _ _ _ _ Hn Hl E) as (G1 & G2 & G3). rewrite G1. split; [done|]. split; [done|].
  destruct G3 as [[Hlt ->]|(-> & Ha & c & -> & Hc)]; [left; rewrite (proj2 (Z.ltb_lt _ _) Hlt); eauto|].
  right. right. rewrite Hd in Hc. eauto.
Qed.

Lemma unlock_on_spec env d d' pc : names_ok d -> dcg_unlock_on env d nm = (d', pc) ->
  dcg_id d' = dcg_id d /\ names_ok d' /\ ((exists e, pc = pc_exit e) \/ pc = pc_bar /\ is_Some (lock_of d' nm)).
Proof using Type.
  intros Hn. unfold dcg_unlock_on. pose proof (lock_get_spec (ce_alloc env) d Hn) as Hg.
  destruct (lock_get _ _ _ _) as [d1 [l|]]; destruct Hg as (H1 & H2 & H3); intros [= <- <-]; (split; [done|]); (split; [done|]); eauto.
Qed.

(** ** The invariant *)

Definition proc_ok (g p : nat) (b : B) (x : lproc) : Prop :=
  dcg_id (lp_dcg x) = pid g p /\ names_ok (lp_dcg x) /\
  match lp_pc x with
  | pc_run => b_calls (bar g) b p = lp_pos x /\ b_out (bar g) b p
  | pc_ack => b_calls (bar g) b p = lp_pos x /\ b_out (bar g) b p /\ p = 0%nat /\ Nat.even (lp_pos x) = true
  | pc_bar => b_calls (bar g) b p = S (lp_pos x) /\ is_Some (lock_of (lp_dcg x) nm)
  | pc_exit _ => (lp_pos x <= b_calls (bar g) b p <= S (lp_pos x))%nat
  end.

(** The first process of a group with [c] barriers begun: it has the lock from
    the barrier of the lock call to the end of the barrier of the unlock
    call. *)
Definition view_ok (g c : nat) (x : lproc) (v : view) : Prop :=
  let w := writes g (Nat.div2 (lp_pos x)) in
  if Nat.odd (lp_pos x) || Nat.odd c then v = v_held w
  else match lp_pc x with
       | pc_run => v = v_free
       | pc_ack => v = v_held w \/ v = v_wait w /\ lock_ack (lp_dcg x) nm = 0
       | _ => True
       end.

Record ginv (srv : lsys) (g : nat) (G : group B) : Prop := {
  gi_reach : b_reach (bar g) (g_bar G);
  gi_proc p : (p < size_of g)%nat -> proc_ok g p (g_bar G) (g_proc G p);
  gi_meet p q : (p < size_of g)%nat -> (q < size_of g)%nat -> (lp_pos (g_proc G p) <= b_calls (bar g) (g_bar G) q)%nat;
  gi_view : exists v, phase (pid g 0) srv (g_req G) (g_grant G) v /\ view_ok g (b_calls (bar g) (g_bar G) 0) (g_proc G 0%nat) v
}.

Record ainv (s : asys B) : Prop := {
  ai_srv : rtc (lstep sv) (lsys_init dl0) (a_srv s);
  ai_group g : (g < N)%nat -> ginv (a_srv s) g (a_group s g)
}.

Context {HL : LockService sv dl0} {HB : forall g, BarrierService (bar g)}.

Lemma init_ainv : ainv (a_init dcgs).
Proof using Hsetup HB HL.
  split; [apply rtc_refl|]. intros g Hg. split; cbn [a_init a_group g_bar g_proc g_req g_grant].
  - apply br_init.
  - intros p _. split; [apply (su_id _ Hsetup)|]. split; [apply (su_names _ Hsetup)|]. cbn. apply bl_init.
  - intros p q _ _. cbn. lia.
  - exists v_free. split; [apply ph_free|].
    + pose proof (lks_hist (lsys_init dl0) (rtc_refl _ _)) as Hw%Permutation_nil. cbn in Hw. by split; unfold waits; cbn; rewrite ?Hw.
    + unfold view_ok. cbn. by rewrite (proj1 (bl_init 0)).
Qed.

(** A step of process [p]. *)
Lemma ginv_proc ok srv g G p x ms : ginv srv g G -> (p < size_of g)%nat ->
  let b := match lp_pc x with pc_bar => b_enter (bar g) ok p (g_bar G) | _ => g_bar G end in
  (lp_pc x = pc_bar -> b_out (bar g) (g_bar G) p) -> proc_ok g p b x ->
  (forall q, (q < size_of g)%nat -> (lp_pos x <= b_calls (bar g) (g_bar G) q)%nat) ->
  (if decide (p = 0%nat) then exists v, phase (pid g 0) srv (g_req G ++ ms) (g_grant G) v /\ view_ok g (b_calls (bar g) b 0) x v
   else ms = []) ->
  ginv srv g (mk_group b (<[p := x]> (g_proc G)) (g_req G ++ ms) (g_grant G)).
Proof using HB.
  intros [Hr Hp Hm Hv] Hlt b Hb Hx Hpos Hview.
  assert (forall q, b_calls (bar g) b q = b_calls (bar g) (g_bar G) q \/ q = p /\ lp_pc x = pc_bar) as Hc.
  { intros q. unfold b. destruct (lp_pc x) eqn:E; auto. rewrite bl_enter. destruct (decide (p = q)); auto. }
  assert (forall q, (b_calls (bar g) (g_bar G) q <= b_calls (bar g) b q)%nat) as Hle.
  { intros q. unfold b. destruct (lp_pc x); try lia. rewrite bl_enter. destruct (decide (p = q)); lia. }
  assert (forall q, q <> p -> b_out (bar g) (g_bar G) q -> b_out (bar g) b q) as Ho.
  { intros q Hne. unfold b. destruct (lp_pc x); try done. apply bl_enter_out. congruence. }
  split; cbn [g_bar g_proc g_req g_grant].
  - unfold b. destruct (lp_pc x) eqn:E; try done. apply br_enter; auto.
  - intros q Hq. unfold insert, fn_insert. destruct (decide (p = q)) as [<-|Hne]; [done|].
    destruct (Hp q Hq) as (H1 & H2 & H3). split; [done|]. split; [done|].
    destruct (Hc q) as [Ec|[? _]]; [|congruence]. rewrite Ec.
    destruct (lp_pc (g_proc G q)); [split; [apply H3|apply Ho; [congruence|apply H3]] | | |]; try done.
    destruct H3 as (H3 & H4 & H5). split; [done|]. split; [apply Ho; [congruence|done]|done].
  - intros q k Hq Hk. unfold insert, fn_insert. pose proof (Hle k). destruct (decide (p = q)) as [<-|].
    + specialize (Hpos k Hk). lia.
    + specialize (Hm q k Hq Hk). lia.
  - unfold insert, fn_insert. destruct (decide (p = 0%nat)) as [->|Hne]; [done|]. subst ms. rewrite app_nil_r.
    destruct Hv as (v & Hph & Hok). exists v. split; [done|]. destruct (Hc 0%nat) as [->|[? _]]; [done|congruence].
Qed.

Lemma div2_even n : Nat.even n = true -> Nat.div2 (S n) = Nat.div2 n.
Proof using Type. intros (k & ->)%Nat.even_spec. by rewrite Nat.div2_succ_double, Nat.div2_double. Qed.

(** Parities of positions and of the numbers of calls. *)
Ltac parity E := rewrite ?Nat.odd_succ, ?Nat.even_succ, <- ?Nat.negb_even, ?Nat.even_succ, <- ?Nat.negb_even, ?E; cbn [negb orb].

Lemma ainv_group s g G : ainv s -> ginv (a_srv s) g G -> ainv (mk_as (a_srv s) (<[g := G]> (a_group s))).
Proof using Type.
  intros [Hs Hg] HG. split; [done|]. intros h Hh. cbn. unfold insert, fn_insert. destruct (decide (g = h)) as [<-|]; [done|]. auto.
Qed.

Lemma keep_lock s g p ok env d ms pc : ainv s -> (g < N)%nat -> (p < size_of g)%nat ->
  lp_pc (proc s g p) = pc_run -> Nat.even (lp_pos (proc s g p)) = true ->
  lock_call (writes g (Nat.div2 (lp_pos (proc s g p)))) env (lp_dcg (proc s g p)) (first g) (comm g p) nm = (d, ms, pc) ->
  ainv (upd_proc ok s g p (mk_lp d (lp_pos (proc s g p)) pc) ms).
Proof using Hsetup HB.
  intros I Hg Hp Hpc Hev E. pose proof (ai_group s I g Hg) as G. apply ainv_group; [done|]. unfold proc in *.
  destruct (gi_proc _ _ _ G p Hp) as (H1 & H2 & H3). rewrite Hpc in H3. destruct H3 as [Hc Ho].
  destruct (lock_call_spec g p _ _ _ _ _ _ H1 H2 E) as (D1 & D2 & HD). apply ginv_proc; try done.
  - split; [done|]. split; [done|]. cbn [lp_pc lp_dcg lp_pos].
    destruct HD as [([e ->] & _)|[(_ & -> & _ & Hl)|(-> & -> & _)]]; [lia| |done].
    rewrite bl_enter, decide_True by done. split; [lia|done].
  - intros q Hq. apply (gi_meet _ _ _ G p q Hp Hq).
  - destruct (decide (p = 0%nat)) as [->|Hne]; [|by destruct HD as [(_ & ->)|[(_ & _ & -> & _)|(? & _)]]].
    destruct (gi_view _ _ _ G) as (v & Hv & Hok). unfold view_ok in Hok. rewrite Hc, Hpc in Hok.
    revert Hok. parity Hev. intros ->.
    destruct HD as [([e ->] & ->)|[(? & _)|(_ & -> & Ha & c & -> & Hcm)]]; [|done|].
    + exists v_free. rewrite app_nil_r. split; [done|]. unfold view_ok. cbn [lp_pc lp_pos]. rewrite Hc. by parity Hev.
    + exists (v_wait (writes g (Nat.div2 (lp_pos (g_proc (a_group s g) 0%nat))))). split.
      * inversion Hv; subst; cbn [app]; [by apply ph_get|by eapply ph_rel_get].
      * unfold view_ok. cbn [lp_pc lp_pos lp_dcg]. rewrite Hc. parity Hev. by right.
Qed.

Lemma keep_ack s g p ok err : ainv s -> (g < N)%nat -> (p < size_of g)%nat -> lp_pc (proc s g p) = pc_ack ->
  ainv (upd_proc ok s g p (mk_lp (lp_dcg (proc s g p)) (lp_pos (proc s g p)) (lock_wait err (lp_dcg (proc s g p)) nm)) []).
Proof using HB.
  intros I Hg Hp Hpc. pose proof (ai_group s I g Hg) as G. apply ainv_group; [done|]. unfold proc in *.
  destruct (gi_proc _ _ _ G p Hp) as (H1 & H2 & H3). rewrite Hpc in H3. destruct H3 as (Hc & Ho & -> & Hev).
  destruct (gi_view _ _ _ G) as (v & Hv & Hok). unfold view_ok in Hok. rewrite Hc, Hpc in Hok. revert Hok. parity Hev. intros Hok.
  apply ginv_proc; try done.
  - split; [done|]. split; [done|]. unfold lock_wait, lock_ack. cbn [lp_pc lp_dcg lp_pos].
    destruct (lock_of _ nm) as [l|] eqn:El; [destruct (dl_ack l =? 0)|cbn]; [destruct (err <? 0); [lia|done]| |destruct (err <? 0); [lia|done]].
    rewrite bl_enter, decide_True by done. split; [lia|done].
  - intros q Hq. apply (gi_meet _ _ _ G 0%nat q Hp Hq).
  - rewrite decide_True, app_nil_r by done. exists v. split; [done|]. unfold view_ok, lock_wait. cbn [lp_pc lp_pos lp_dcg].
    destruct (Z.eqb_spec (lock_ack (lp_dcg (g_proc (a_group s g) 0%nat)) nm) 0) as [Ha|Ha].
    + destruct (err <? 0); rewrite Hc; by parity Hev.
    + rewrite bl_enter, decide_True, Hc by done. parity Hev. by destruct Hok as [?|[_ ?]].
Qed.

Lemma keep_locked s g p err : ainv s -> (g < N)%nat -> (p < size_of g)%nat ->
  lp_pc (proc s g p) = pc_bar -> Nat.even (lp_pos (proc s g p)) = true -> b_out (bar g) (g_bar (a_group s g)) p ->
  ainv (upd_proc true s g p (mk_lp (lp_dcg (proc s g p)) (next_pos (lp_pos (proc s g p)) (lock_entered err)) (lock_entered err)) []).
Proof using HB.
  intros I Hg Hp Hpc Hev Ho. pose proof (ai_group s I g Hg) as G. apply ainv_group; [done|]. unfold proc in *.
  destruct (gi_proc _ _ _ G p Hp) as (H1 & H2 & H3). rewrite Hpc in H3. destruct H3 as (Hc & Hl).
  unfold lock_entered. apply ginv_proc; cbn [lp_pc lp_pos lp_dcg]; try done.
  - split; [done|]. split; [done|]. cbn. destruct (err <? 0); cbn; [lia|done].
  - intros q Hq. pose proof (gi_meet _ _ _ G p q Hp Hq). destruct (err <? 0); cbn; [done|]. rewrite <- Hc.
    apply bl_meet; try done. apply (gi_reach _ _ _ G).
  - destruct (decide (p = 0%nat)) as [->|]; [|done]. rewrite app_nil_r.
    destruct (gi_view _ _ _ G) as (v & Hv & Hok). exists v. split; [done|]. unfold view_ok in Hok |- *. cbn [lp_pc lp_pos lp_dcg].
    rewrite Hc in Hok. revert Hok. parity Hev. intros ->.
    destruct (err <? 0); cbn [next_pos]; [rewrite Hc; by parity Hev|]. rewrite Hc, div2_even by done. by parity Hev.
Qed.

Lemma keep_unlock s g p ok env d pc : ainv s -> (g < N)%nat -> (p < size_of g)%nat ->
  lp_pc (proc s g p) = pc_run -> Nat.even (lp_pos (proc s g p)) = false -> dcg_unlock_on env (lp_dcg (proc s g p)) nm = (d, pc) ->
  ainv (upd_proc ok s g p (mk_lp d (lp_pos (proc s g p)) pc) []).
Proof using HB.
  intros I Hg Hp Hpc Hev E. pose proof (ai_group s I g Hg) as G. apply ainv_group; [done|]. unfold proc in *.
  destruct (gi_proc _ _ _ G p Hp) as (H1 & H2 & H3). rewrite Hpc in H3. destruct H3 as (Hc & Ho).
  destruct (unlock_on_spec _ _ _ _ H2 E) as (D1 & D2 & HD). rewrite H1 in D1. apply ginv_proc; try done.
  - split; [done|]. split; [done|]. cbn [lp_pc lp_dcg lp_pos]. destruct HD as [[e ->]|[-> Hl]]; [lia|].
    rewrite bl_enter, decide_True by done. split; [lia|done].
  - intros q Hq. apply (gi_meet _ _ _ G p q Hp Hq).
  - destruct (decide (p = 0%nat)) as [->|]; [|done]. rewrite app_nil_r.
    destruct (gi_view _ _ _ G) as (v & Hv & Hok). exists v. split; [done|]. unfold view_ok in Hok |- *. cbn [lp_pc lp_pos lp_dcg].
    revert Hok. by parity Hev.
Qed.

Lemma keep_unlocked s g p env err d ms pc : ainv s -> (g < N)%nat -> (p < size_of g)%nat ->
  lp_pc (proc s g p) = pc_bar -> Nat.even (lp_pos (proc s g p)) = false -> b_out (bar g) (g_bar (a_group s g)) p -> bar_code g p err ->
  unlock_call (writes g (Nat.div2 (lp_pos (proc s g p)))) env (lp_dcg (proc s g p)) (first g) (comm g p) nm err = (d, ms, pc) ->
  ainv (upd_proc true s g p (mk_lp d (next_pos (lp_pos (proc s g p)) pc) pc) ms).
Proof using Hsetup HB.
  intros I Hg Hp Hpc Hev Ho Hb E. pose proof (ai_group s I g Hg) as G. apply ainv_group; [done|]. unfold proc in *.
  destruct (gi_proc _ _ _ G p Hp) as (H1 & H2 & H3). rewrite Hpc in H3. destruct H3 as (Hc & Hl).
  destruct (unlock_call_spec g p _ _ _ _ _ _ _ H1 H2 Hl Hb E) as (D1 & D2 & HD).
  assert (pc = pc_run \/ exists e, pc = pc_exit e) as Hpc'.
  { destruct HD as [(? & _)|[(_ & ? & _)|(_ & ? & _)]]; auto. }
  assert ((match pc with pc_bar => b_enter (bar g) true p (g_bar (a_group s g)) | _ => g_bar (a_group s g) end) = g_bar (a_group s g)) as Hbar
    by (by destruct Hpc' as [->|[e ->]]).
  apply ginv_proc; cbn [lp_pc lp_pos lp_dcg]; rewrite ?Hbar; try done.
  - split; [done|]. split; [done|]. cbn [lp_pc lp_pos]. destruct Hpc' as [->|[e ->]]; cbn; [done|lia].
  - intros q Hq. pose proof (gi_meet _ _ _ G p q Hp Hq). destruct Hpc' as [->|[e ->]]; cbn; [|done]. rewrite <- Hc.
    apply bl_meet; try done. apply (gi_reach _ _ _ G).
  - destruct (decide (p = 0%nat)) as [->|Hne]; [|by destruct HD as [(_ & ->)|[(_ & _ & ->)|(? & _)]]].
    destruct (gi_view _ _ _ G) as (v & Hv & Hok). unfold view_ok in Hok. revert Hok. parity Hev. intros ->.
    destruct HD as [([e ->] & ->)|[(? & _)|(_ & -> & c & -> & Hcm)]]; [|done|].
    + eexists. rewrite app_nil_r. split; [done|]. unfold view_ok. cbn [lp_pc lp_pos next_pos]. by parity Hev.
    + exists v_free. split; [inversion Hv; subst; by eapply ph_rel|]. unfold view_ok. cbn [lp_pc lp_pos next_pos]. rewrite Hc. by parity Hev.
Qed.

Lemma keep_bar s g b : ainv s -> (g < N)%nat -> b_work (bar g) (g_bar (a_group s g)) b -> ainv (upd_bar s g b).
Proof using HB.
  intros I Hg Hw. pose proof (ai_group s I g Hg) as [Gr Gp Gm Gv]. apply ainv_group; [done|].
  split; cbn [g_bar g_proc g_req g_grant]; [by eapply br_work| | |].
  - intros p Hp. destruct (Gp p Hp) as (H1 & H2 & H3). split; [done|]. split; [done|]. rewrite (bl_work _ _ p Hw).
    pose proof (bl_work_out _ _ p Hw). destruct (lp_pc _); intuition.
  - intros p q Hp Hq. rewrite (bl_work _ _ q Hw). auto.
  - by rewrite (bl_work _ _ 0%nat Hw).
Qed.

Lemma keep_grant s g lh rest : ainv s -> (g < N)%nat -> g_grant (a_group s g) = lh :: rest -> ainv (upd_grant s g lh rest).
Proof using Hsetup.
  intros I Hg Hq. pose proof (ai_group s I g Hg) as [Gr Gp Gm Gv]. apply ainv_group; [done|].
  pose proof (su_size _ Hsetup g Hg) as Hsz. destruct (Gp 0%nat ltac:(lia)) as (H1 & H2 & H3).
  destruct (service_spec (lp_dcg (g_proc (a_group s g) 0%nat)) lh H2) as (S1 & S2 & S3).
  split; cbn [g_bar g_proc g_req g_grant]; [done| | |].
  - intros p Hp. unfold insert, fn_insert. destruct (decide (0%nat = p)) as [<-|]; [|auto].
    split; [cbn; by rewrite S1|]. split; [done|]. cbn [lp_pc lp_pos lp_dcg]. destruct (lp_pc _); intuition.
  - intros p q Hp Hk. unfold insert, fn_insert. destruct (decide (0%nat = p)) as [<-|]; [|auto]. apply (Gm 0%nat); lia.
  - destruct Gv as (v & Hv & Hok). rewrite Hq in Hv. inversion Hv as [| | | | |w lh' Hcl Hn E1 E2|]; subst.
    exists (v_held w). split; [by apply ph_held|]. unfold insert, fn_insert. rewrite decide_True by done.
    unfold view_ok in Hok |- *. cbn [lp_pc lp_pos lp_dcg]. destruct (_ || _); [done|].
    destruct (lp_pc _); [done| |done..]. destruct Hok as [?|[[= ->] _]]; [done|by left].
Qed.

Lemma get_typed w c m : cmd_of m (get_type w) c ->
  length (filter (fun c => typ c = lk_read_get) [c]) = rd_of w /\ length (filter (fun c => typ c = lk_write_get) [c]) = wr_of w /\
  asks m c = [c] /\ gives_back lk_read_release m c = 0%nat /\ gives_back lk_write_release m c = 0%nat.
Proof using Type.
  intros (Hid & Ht & _). unfold asks, gives_back. rewrite !list.filter_cons, !list.filter_nil, Ht, Hid.
  clear Ht Hid. clear -w c m. destruct w; cbn [get_type]; repeat split; repeat case_decide; try done; intuition congruence.
Qed.

Lemma release_typed w c m : cmd_of m (release_type w) c ->
  asks m c = [] /\ gives_back lk_read_release m c = rd_of w /\ gives_back lk_write_release m c = wr_of w.
Proof using Type.
  intros (Hid & Ht & _). unfold asks, gives_back. rewrite Ht, Hid.
  clear Ht Hid. clear -w c m. destruct w; cbn [release_type]; repeat split; repeat case_decide; try done; intuition congruence.
Qed.

Lemma granted_to m g c : filter (fun c => lc_id c = m) g = [c] -> grants_for m g = [grant_hdr (lc_hdr c)].
Proof using Type. intros H. unfold grants_for. by rewrite H. Qed.

Section serve.
Context (srv : lsys) (cmd : lock_cmd) (dl : dsg_lock) (gr : list lock_cmd).
Context (H1 : s_arr srv ≡ₚ s_gr srv ++ wait_list (sl srv)).
Context (H2 : s_arr (served srv cmd dl gr) ≡ₚ s_gr (served srv cmd dl gr) ++ wait_list (sl (served srv cmd dl gr))).

Lemma serve_released m w : claims srv m [] (rd_of w) (wr_of w) -> cmd_of m (release_type w) cmd ->
  claims (served srv cmd dl gr) m [] 0 0 /\ grants_for m gr = [].
Proof using H1 H2.
  intros Hc Hm. destruct (serve_claims srv cmd dl gr m _ _ _ H1 H2 Hc) as (w' & Hp & Hc').
  destruct (release_typed w cmd m Hm) as (Ha & Hr & Hw). rewrite Ha, Hr, Hw in *. cbn [app] in Hp.
  apply Permutation_nil in Hp. apply app_eq_nil in Hp as [Hg ->]. rewrite Hg in Hc'. unfold grants_for. rewrite Hg.
  by destruct w.
Qed.

Lemma phase_self m q gf v rest : phase m srv q gf v -> q = cmd :: rest ->
  phase m (served srv cmd dl gr) rest (gf ++ grants_for m gr) v.
Proof using H1 H2.
  intros Hp Hq. destruct Hp as [|w c Hc Hm|w c Hc Hm|w w' c c' Hc Hm Hm'| | |]; try done; injection Hq as -> <-; cbn [app].
  - destruct (serve_released m w Hc Hm) as [Hc' ->]. by apply ph_free.
  - destruct (serve_claims srv cmd dl gr m _ _ _ H1 H2 Hc) as (w' & Hp & Hc').
    destruct (get_typed w cmd m Hm) as (T1 & T2 & Ha & Hr & Hw). rewrite Ha, Hr, Hw in *. cbn [app Nat.sub Nat.add] in *.
    destruct (perm_single _ _ _ Hp) as [[Hg ->]|[Hg ->]]; rewrite Hg in Hc'.
    + rewrite T1, T2 in Hc'. rewrite (granted_to _ _ _ Hg). apply ph_granted; [done|]. apply Hm.
    + unfold grants_for. rewrite Hg. by eapply ph_queued.
  - destruct (serve_released m w Hc Hm) as [Hc' ->]. by apply ph_get.
Qed.

Lemma serve_none m r x : lc_id cmd <> m -> claims srv m [] r x ->
  claims (served srv cmd dl gr) m [] r x /\ grants_for m gr = [].
Proof using H1 H2.
  intros Hne Hc. destruct (serve_other srv cmd dl gr m _ _ _ H1 H2 Hne Hc) as (w' & Hp & Hc').
  apply Permutation_nil, app_eq_nil in Hp as [Hg ->]. rewrite Hg in Hc'. cbn in Hc'. rewrite !Nat.add_0_r in Hc'.
  unfold grants_for. by rewrite Hg.
Qed.

Lemma phase_other m q gf v : lc_id cmd <> m -> phase m srv q gf v -> phase m (served srv cmd dl gr) q (gf ++ grants_for m gr) v.
Proof using H1 H2.
  intros Hne Hp. destruct Hp as [Hc|w c Hc Hm|w c Hc Hm|w w' c c' Hc Hm Hm'|w c Hc Hm|w lh Hc Hn|w Hc];
    try (destruct (serve_none m _ _ Hne Hc) as [Hc' ->]; cbn [app]; econstructor; eassumption).
  destruct (serve_other srv cmd dl gr m _ _ _ H1 H2 Hne Hc) as (w' & Hp & Hc'). cbn [app].
  destruct (get_typed w c m Hm) as (T1 & T2 & _).
  destruct (perm_single _ _ _ Hp) as [[Hg ->]|[Hg ->]]; rewrite Hg in Hc'.
  - rewrite T1, T2 in Hc'. rewrite (granted_to _ _ _ Hg). apply ph_granted; [done|]. apply Hm.
  - unfold grants_for. rewrite Hg. by eapply ph_queued.
Qed.
End serve.

(** The requests that reach the server are the ones its theorems allow. *)
Lemma serve_lstep m q gf v srv cmd rest dl gr : phase m srv q gf v -> q = cmd :: rest -> sv (sl srv) cmd = (dl, gr, 0) ->
  lstep sv srv (served srv cmd dl gr) /\ lc_id cmd = m.
Proof using Type.
  intros Hp Hq E. unfold served.
  assert (forall w c, claims srv m [] (rd_of w) (wr_of w) -> cmd_of m (release_type w) c -> c = cmd ->
    lstep sv srv (served srv cmd dl gr) /\ lc_id cmd = m) as Hrel.
  { intros w c [_ Hr Hx] (Hid & Ht & _) ->. split; [|done]. unfold served. rewrite Ht, Hid.
    destruct w; cbn in *; [destruct (remove_one_split m (s_wr srv)) as (l1 & l2 & Es & ->)|destruct (remove_one_split m (s_rd srv)) as (l1 & l2 & Es & ->)];
      try (rewrite ?Hr, ?Hx; done); [eapply step_write_release|eapply step_read_release]; rewrite ?Hid; done. }
  destruct Hp as [|w c Hc Hm|w c Hc Hm|w w' c c' Hc Hm Hm'| | |]; try done; injection Hq as -> <-.
  - by eapply Hrel.
  - destruct Hm as (Hid & Ht & _). split; [|done].
    assert (is_get cmd) as Hget by (destruct w; [by right|by left]).
    pose proof (step_get sv srv cmd dl gr Hget E) as Hs. destruct w; cbn in Ht; by rewrite Ht.
  - by eapply Hrel.
Qed.

Lemma keep_serve s g cmd rest dl gr : ainv s -> (g < N)%nat -> g_req (a_group s g) = cmd :: rest ->
  sv (sl (a_srv s)) cmd = (dl, gr, 0) -> ainv (upd_serve s g rest (served (a_srv s) cmd dl gr) gr).
Proof using Hsetup HL.
  intros I Hg Hq E. pose proof (ai_srv s I) as Hr. destruct (gi_view _ _ _ (ai_group s I g Hg)) as (v & Hv & _).
  destruct (serve_lstep _ _ _ _ _ _ _ _ _ Hv Hq E) as [Hs Hid].
  assert (rtc (lstep sv) (lsys_init dl0) (served (a_srv s) cmd dl gr)) as Hr' by (by eapply rtc_r).
  pose proof (lks_hist _ Hr) as H1. pose proof (lks_hist _ Hr') as H2. split; [done|].
  intros h Hh. pose proof (ai_group s I h Hh) as [Gr Gp Gm (v' & Hv' & Hok)].
  split; cbn [upd_serve a_group a_srv g_bar g_proc g_req g_grant]; try done. exists v'. split; [|done].
  destruct (decide (h = g)) as [->|Hne]; [by eapply phase_self|].
  apply phase_other; try done. rewrite Hid. by apply (su_distinct _ Hsetup); auto.
Qed.

Lemma keep_step s s' : astep false s s' -> ainv s -> ainv s'.
Proof using Hsetup HL HB.
  intros H. remember false as m eqn:Em. destruct H; try done; try (apply negb_false_iff, Z.eqb_eq in Em as ->); eauto using keep_lock, keep_ack, keep_locked, keep_unlock, keep_unlocked, keep_bar, keep_serve, keep_grant.
Qed.

Lemma reach_ainv s : rtc (astep false) (a_init dcgs) s -> ainv s.
Proof using Hsetup HL HB.
  intros H. pose proof init_ainv as I. revert I. induction H as [|s0 s1 s2 Hs _ IH]; eauto using keep_step.
Qed.

(** A process in a section: its group has the lock. *)
Lemma section_held s g p i : ainv s -> in_section s g p i ->
  claims (a_srv s) (pid g 0) [] (rd_of (writes g i)) (wr_of (writes g i)).
Proof using Hsetup HB.
  intros I (Hg & Hp & Hpc & Hpos). destruct (ai_group s I g Hg) as [Gr Gp Gm (v & Hv & Hok)]. unfold proc in *.
  pose proof (su_size _ Hsetup g Hg) as Hsz. pose proof (Gm p 0%nat Hp ltac:(lia)) as M1. pose proof (Gm 0%nat p ltac:(lia) Hp) as M2.
  destruct (Gp p Hp) as (_ & _ & H3). rewrite Hpc in H3. destruct H3 as [Hc _]. rewrite Hc in M2. rewrite Hpos in M1, M2.
  assert (b_calls (bar g) (g_bar (a_group s g)) 0 <= S (lp_pos (g_proc (a_group s g) 0%nat)))%nat as M3.
  { destruct (Gp 0%nat ltac:(lia)) as (_ & _ & H0). destruct (lp_pc (g_proc (a_group s g) 0%nat)); lia. }
  unfold view_ok in Hok.
  assert (Nat.div2 (lp_pos (g_proc (a_group s g) 0%nat)) = i /\
    Nat.odd (lp_pos (g_proc (a_group s g) 0%nat)) || Nat.odd (b_calls (bar g) (g_bar (a_group s g)) 0) = true) as [Hd Ho].
  { assert (lp_pos (g_proc (a_group s g) 0%nat) = (2 * i)%nat /\ b_calls (bar g) (g_bar (a_group s g)) 0 = S (2 * i) \/
      lp_pos (g_proc (a_group s g) 0%nat) = S (2 * i)) as [[-> ->]| ->] by lia; rewrite ?Nat.div2_double, ?Nat.div2_succ_double;
      (split; [done|]); rewrite ?Nat.odd_succ, ?Nat.even_even; [apply orb_true_r|done]. }
  rewrite Ho, Hd in Hok. subst v. by inversion Hv.
Qed.
End calls.
End LockSystem.

(** ** Properties *)

(** C18: the locks exclude the processes of the applications from each other.
    Groups of processes that make the same sequence of [dspaces_lock_on_read],
    [dspaces_lock_on_write] and unlock calls, in any number, over any lock
    service and barrier that keep their contracts, with requests and grants
    delivered at any time or never: when a process of a group is in a section,
    the server has the group as the holder, and a process of another group is
    in a section at the same time only if both read.  Two processes of one
    group that are in sections are in the same one.  Allocations, requests and
    waits of the clients and messages of the barriers may fail at any point.
    The condition is that there is no marked step: no message is lost while a
    later one of the same connection arrives, the lock service returns 0, and
    no process goes on after a barrier that has failed. *)
Theorem group_locks_exclusive {B} (bar : nat -> barrier B) N nm sv dl writes pid first comm dcgs s :
  LockService sv dl -> (forall g, BarrierService (bar g)) -> setup bar N pid first comm dcgs ->
  rtc (astep bar N nm sv writes pid first comm false) (a_init bar dl dcgs) s ->
  (forall g p i, in_section bar N s g p i -> pid g 0%nat ∈ (if writes g i then s_wr (a_srv s) else s_rd (a_srv s))) /\
  (forall g p i h q j, in_section bar N s g p i -> in_section bar N s h q j -> g <> h -> writes g i = false /\ writes h j = false) /\
  (forall g p i q j, in_section bar N s g p i -> in_section bar N s g q j -> i = j).
Proof.
  intros HL HB Hset Hr. pose proof (reach_ainv bar N nm sv dl writes pid first comm dcgs Hset s Hr) as I.
  assert (forall m l, occ m l = 1%nat -> m ∈ l) as Hin.
  { intros m l Ho. unfold occ in Ho. destruct (filter _ l) as [|x f] eqn:E; [done|].
    assert (x ∈ filter (fun x => x = m) l) as [-> Hx]%list_elem_of_filter by (rewrite E; apply list_elem_of_here). done. }
  assert (forall g p i, in_section bar N s g p i -> pid g 0%nat ∈ (if writes g i then s_wr (a_srv s) else s_rd (a_srv s))) as Hheld.
  { intros g p i Hi. destruct (section_held bar N nm sv dl writes pid first comm dcgs Hset s g p i I Hi) as [_ H1 H2].
    destruct (writes g i); cbn in *; by apply Hin. }
  split; [done|]. split.
  - intros g p i h q j Hi Hj Hne. pose proof (Hheld _ _ _ Hi) as Ha. pose proof (Hheld _ _ _ Hj) as Hb.
    assert (pid g 0%nat <> pid h 0%nat) as Hid by (apply (su_distinct _ _ _ _ _ _ Hset); [apply Hi|apply Hj|done]).
    destruct (lks_exclusive _ (ai_srv _ _ _ _ _ _ _ _ I)) as [Hw|[Hr0 [w Hw]]]; rewrite ?Hw, ?Hr0 in Ha, Hb;
      destruct (writes g i), (writes h j); try done; rewrite ?list_elem_of_singleton in *; try congruence;
      match goal with H : _ ∈ [] |- _ => by apply not_elem_of_nil in H end.
  - intros g p i q j (Hg & Hp & Hpc & Hi) (_ & Hq & Hqc & Hj). destruct (ai_group _ _ _ _ _ _ _ _ I g Hg) as [_ Gp Gm _].
    unfold proc in *. pose proof (Gm p q Hp Hq). pose proof (Gm q p Hq Hp).
    destruct (Gp p Hp) as (_ & _ & H1). destruct (Gp q Hq) as (_ & _ & H2). rewrite Hpc in H1. rewrite Hqc in H2. lia.
Qed.

(** Two writers: a group of two processes and one of a single process.  The
    second process of the first group is in its section, the other group
    waits. *)
Definition demo_sizes (g : nat) : barrier mpi_state := mpi_bar_of (if decide (g = 0%nat) then 2 else 1).
Definition demo_pid (g p : nat) : Z := Z.of_nat (10 * (g + 1) + p).
Definition demo_comm (g p : nat) : option Z := Some (Z.of_nat p).
Definition demo_dcgs (g p : nat) : dcg_space := mk_dcg (demo_pid g p) 1 0 [] 0 [] 0 [] 0 (Some []) 0 [].
Definition demo_dl : dsg_lock := Eval vm_compute in
  match dsg_lock_alloc "l" lock_generic 1 with Some dl => dl | None => mk_lock "" lock_unknown 0 0 0 0 0 0 0 0 unlocked unlocked [] end.

Abbreviation demo_astep :=
  (astep demo_sizes 2 "l" (lock_service_generic good_env) (fun _ _ => true) demo_pid (fun _ => 0) demo_comm false).

Lemma demo_setup : setup demo_sizes 2 demo_pid (fun _ => 0) demo_comm demo_dcgs.
Proof.
  split; unfold demo_pid; try done.
  - intros g _. cbn. case_decide; lia.
  - intros. by apply Forall_nil.
  - intros g h _ _ Hne E. lia.
Qed.

Definition demo_sv := lock_service_generic good_env.

(** The steps of the run. *)
Definition demo_lock (s : asys mpi_state) (g p : nat) : asys mpi_state :=
  let '(d, ms, pc) := lock_call true (mk_cenv true true 0) (lp_dcg (proc s g p)) 0 (demo_comm g p) "l" in
  upd_proc demo_sizes true s g p (mk_lp d (lp_pos (proc s g p)) pc) ms.
Definition demo_serve (s : asys mpi_state) (g : nat) : asys mpi_state :=
  match g_req (a_group s g) with
  | [] => s
  | cmd :: rest => let '(dl, gr, _) := demo_sv (sl (a_srv s)) cmd in upd_serve demo_pid s g rest (served (a_srv s) cmd dl gr) gr
  end.
Definition demo_grant (s : asys mpi_state) (g : nat) : asys mpi_state :=
  match g_grant (a_group s g) with [] => s | lh :: rest => upd_grant s g lh rest end.
Definition demo_ack (s : asys mpi_state) (g p : nat) : asys mpi_state :=
  upd_proc demo_sizes true s g p (mk_lp (lp_dcg (proc s g p)) (lp_pos (proc s g p)) (lock_wait 0 (lp_dcg (proc s g p)) "l")) [].
Definition demo_leave (s : asys mpi_state) (g p : nat) : asys mpi_state :=
  let b := g_bar (a_group s g) in upd_bar s g (<[p := ((b p).1, false)]> b).
Definition demo_enter (s : asys mpi_state) (g p : nat) : asys mpi_state :=
  upd_proc demo_sizes true s g p (mk_lp (lp_dcg (proc s g p)) (S (lp_pos (proc s g p))) pc_run) [].

Definition demo_s0 : asys mpi_state := a_init demo_sizes demo_dl demo_dcgs.
Definition demo_s1 := demo_lock demo_s0 0 0.
Definition demo_s2 := demo_serve demo_s1 0.
Definition demo_s3 := demo_grant demo_s2 0.
Definition demo_s4 := demo_ack demo_s3 0 0.
Definition demo_s5 := demo_lock demo_s4 0 1.
Definition demo_s6 := demo_leave demo_s5 0 1.
Definition demo_s7 := demo_enter demo_s6 0 1.
Definition demo_s8 := demo_lock demo_s7 1 0.
Definition demo_s9 := demo_serve demo_s8 1.

Lemma demo_lock_step s g p : (g < 2)%nat -> (p < size_of demo_sizes g)%nat -> lp_pc (proc s g p) = pc_run ->
  Nat.even (lp_pos (proc s g p)) = true -> demo_astep s (demo_lock s g p).
Proof. intros. unfold demo_lock. destruct (lock_call _ _ _ _ _ _) as [[d ms] pc] eqn:E. by eapply as_lock. Qed.

Lemma demo_serve_step s g cmd rest : (g < 2)%nat -> g_req (a_group s g) = cmd :: rest -> (demo_sv (sl (a_srv s)) cmd).2 = 0 ->
  demo_astep s (demo_serve s g).
Proof. intros Hg Hq E. unfold demo_serve. rewrite Hq. destruct (demo_sv _ _) as [[dl gr] err] eqn:Es. cbn in E. subst. by apply (as_serve _ _ _ _ _ _ _ _ s g cmd rest dl gr 0). Qed.

Lemma demo_group_run : rtc demo_astep demo_s0 demo_s9 /\ in_section demo_sizes 2 demo_s9 0 1 0 /\ lp_pc (proc demo_s9 1 0) = pc_ack.
Proof.
  split; [|unfold in_section; split_and!; vm_compute; (reflexivity || lia)].
  eapply (rtc_l _ _ demo_s1); [apply demo_lock_step; vm_compute; (reflexivity || lia)|].
  eapply (rtc_l _ _ demo_s2); [eapply demo_serve_step; vm_compute; (reflexivity || lia)|].
  eapply (rtc_l _ _ demo_s3); [apply (as_grant _ _ _ _ _ _ _ _ demo_s2 0); vm_compute; (reflexivity || lia)|].
  eapply (rtc_l _ _ demo_s4); [apply (as_ack _ _ _ _ _ _ _ _ demo_s3 0 0 true 0); vm_compute; (reflexivity || lia)|].
  eapply (rtc_l _ _ demo_s5); [apply demo_lock_step; vm_compute; (reflexivity || lia)|].
  eapply (rtc_l _ _ demo_s6).
  { apply (as_bar _ _ _ _ _ _ _ _ demo_s5 0); [lia|]. apply (mw_leave 2 _ 1); [lia|by vm_compute|].
    intros [|[|q]] Hq; [vm_compute; lia..|lia]. }
  eapply (rtc_l _ _ demo_s7); [apply (as_locked _ _ _ _ _ _ _ _ demo_s6 0 1 0); vm_compute; first [reflexivity|lia|by right]|].
  eapply (rtc_l _ _ demo_s8); [apply demo_lock_step; vm_compute; (reflexivity || lia)|].
  eapply rtc_once, demo_serve_step; vm_compute; (reflexivity || lia).
Qed.

Lemma group_locks_exclusive_witness : exists s, rtc demo_astep demo_s0 s /\
  in_section demo_sizes 2 s 0 1 0 /\ lp_pc (proc s 1 0) = pc_ack /\ forall q j, ~ in_section demo_sizes 2 s 1 q j.
Proof.
  destruct demo_group_run as (Hr & Hi & Hw). exists demo_s9. split; [done|]. split; [done|]. split; [done|]. intros q j Hj.
  destruct (group_locks_exclusive demo_sizes 2 "l" _ demo_dl (fun _ _ => true) demo_pid (fun _ => 0) demo_comm demo_dcgs demo_s9
    (generic_service good_env "l" 1 demo_dl good_env_ok eq_refl) (fun g => mpi_barrier_service _) demo_setup Hr) as (_ & Hx & _).
  by destruct (Hx _ _ _ _ _ _ Hi Hj ltac:(done)).
Defined.

(** *** A process that goes on after a failed barrier *)

(** A group of two processes of one application with the barrier of the
    library.  The second process calls [dcg_lock_on_write] first; its message
    of the barrier cannot be sent, [dc_barrier] drops the error of
    [rpc_barrier], and the process is in its section while nobody has asked
    for the lock. *)
Definition bad_pid (g p : nat) : Z := Z.of_nat (5 + p).
Definition bad_bar (g : nat) : barrier bstate := rpc_bar_of 2 5.
Definition bad_dcgs (g p : nat) : dcg_space := mk_dcg (bad_pid g p) 1 0 [] 0 [] 0 [] 0 (Some []) 0 [].
Abbreviation bad_astep := (astep bad_bar 1 "l" (lock_service_generic good_env) (fun _ _ => true) bad_pid (fun _ => 5) (fun _ _ => None)).
Definition bad_s0 : asys bstate := a_init bad_bar demo_dl bad_dcgs.
Definition bad_s1 : asys bstate :=
  let '(d, ms, pc) := lock_call true (mk_cenv true true 0) (lp_dcg (proc bad_s0 0 1)) 5 None "l" in
  upd_proc bad_bar false bad_s0 0 1 (mk_lp d (lp_pos (proc bad_s0 0 1)) pc) ms.
Definition bad_s2 : asys bstate := upd_proc bad_bar true bad_s1 0 1 (mk_lp (lp_dcg (proc bad_s1 0 1)) 1 pc_run) [].

Lemma failed_barrier_enters : setup bad_bar 1 bad_pid (fun _ => 5) (fun _ _ => None) bad_dcgs /\
  rtc (fun s s' => exists m, bad_astep m s s') bad_s0 bad_s2 /\ in_section bad_bar 1 bad_s2 0 1 0 /\
  s_wr (a_srv bad_s2) = [] /\ s_arr (a_srv bad_s2) = [].
Proof.
  split.
  { split; unfold bad_pid; try done; [intros g _; vm_compute; lia|intros; by apply Forall_nil|cbn; lia|lia]. }
  split; [|unfold in_section; split_and!; vm_compute; (reflexivity || lia)].
  eapply (rtc_l _ _ bad_s1).
  { exists false. unfold bad_s1. destruct (lock_call _ _ _ _ _ _) as [[d ms] pc] eqn:E. by eapply as_lock; [vm_compute; lia|vm_compute; lia|reflexivity|reflexivity|exact E]. }
  eapply rtc_once. exists true. apply (as_locked_anyway _ _ _ _ _ _ _ _ bad_s1 0 1 0); [lia|vm_compute; lia|reflexivity|reflexivity| |by left].
  exists 0%nat. by vm_compute.
Qed.
