(* ===== verification/Interface.v ===== *)
(** * The public interface (src/common_dataspaces.c)

    The functions behind dspaces_* and dimes_*: the guards on the state of
    the library and on the number of dimensions, the descriptors built from
    the arrays of the caller, and the calls of the client (Client.v,
    DimesClient.v).  Also the calls of src/dc_gspace.c that only the
    interface uses: removal, space information, metadata, kill.

    [None] is undefined behaviour: an access outside an array of the caller,
    a string longer than the field it is copied to, a use of the space after
    it was freed.  A negative result of some calls ends the process
    ([lib_exit]); that outcome is [exits]. *)

From stdpp Require Import relations.
From S2P Require Import Prelude Bbox Matrix ObjDesc Storage Sspace Locks Server HashService System Client SystemGet Deployment Service DimesStore DimesClient DimesGet LockSystem.

#[local] Open Scope Z_scope.

(** ** State *)

(** The fields of [struct dcg_space] that [Client.dcg_space] leaves out, with
    those of its [struct dart_client] the interface reads. *)
Record space := mk_space {
  sp_dcg : dcg_space;
  sp_gdim_list : gdim_list;
  sp_default_gdim : global_dimension;
  sp_f_ss_info : bool;
  sp_num_dims : Z; sp_num_space_srv : Z;
  sp_domain : bbox;
  sp_hash_version : Z; sp_max_versions : Z;
  cp_min_rank : Z; cp_in_job : Z
}.

(** The pointer [dcg] of common_dataspaces.c and the one of dc_gspace.c point
    to the same space; [dcg_free] leaves the second as it is. *)
Inductive dcg_ptr := p_null | p_space | p_freed.

#[export] Instance dcg_ptr_eq_dec : EqDecision dcg_ptr.
Proof. solve_decision. Defined.

(** The pointer [dimes_c] of common_dataspaces.c. *)
Inductive dimes_ptr := d_null | d_client (c : dimes_client) | d_freed.

Record lib := mk_lib {
  l_dcg : dcg_ptr;              (* common_dataspaces.c *)
  l_static : dcg_ptr;           (* dc_gspace.c *)
  l_space : space;              (* what they point to *)
  l_dimes : dimes_ptr;
  l_sync_op_id : Z;
  l_num_dims : Z;
  l_mpi_rank : option Z         (* mpi_rank, when flag_set_mpi_rank *)
}.

Definition set_space (l : lib) (s : space) : lib :=
  mk_lib (l_dcg l) (l_static l) s (l_dimes l) (l_sync_op_id l) (l_num_dims l) (l_mpi_rank l).
Definition set_dcg (s : space) (d : dcg_space) : space :=
  mk_space d (sp_gdim_list s) (sp_default_gdim s) (sp_f_ss_info s) (sp_num_dims s) (sp_num_space_srv s) (sp_domain s)
    (sp_hash_version s) (sp_max_versions s) (cp_min_rank s) (cp_in_job s).
Definition set_client (l : lib) (d : dcg_space) : lib := set_space l (set_dcg (l_space l) d).
Definition set_sync_op (l : lib) (n : Z) : lib :=
  mk_lib (l_dcg l) (l_static l) (l_space l) (l_dimes l) n (l_num_dims l) (l_mpi_rank l).
Definition set_pointers (l : lib) (p q : dcg_ptr) : lib :=
  mk_lib p q (l_space l) (l_dimes l) (l_sync_op_id l) (l_num_dims l) (l_mpi_rank l).
Definition set_num_dims (l : lib) (n : Z) : lib :=
  mk_lib (l_dcg l) (l_static l) (l_space l) (l_dimes l) (l_sync_op_id l) n (l_mpi_rank l).
Definition set_dimes (l : lib) (c : dimes_ptr) : lib :=
  mk_lib (l_dcg l) (l_static l) (l_space l) c (l_sync_op_id l) (l_num_dims l) (l_mpi_rank l).

(** ** Guards *)

Definition is_dspaces_lib_init (l : lib) : bool := negb (bool_decide (l_dcg l = p_null)).
Definition is_dimes_lib_init (l : lib) : bool := match l_dimes l with d_null => false | _ => true end.

(** BBOX_MAX_NDIM is chosen when the library is built. *)
Definition is_ndim_within_bound (max_ndim : nat) (ndim : Z) : bool := negb (Z.of_nat max_ndim <? ndim).

(** The space behind the pointer of the interface. *)
Definition deref (l : lib) : option space := if decide (l_dcg l = p_space) then Some (l_space l) else None.

(** [memcpy(c, a, sizeof(uint64_t) * ndim)]: a negative count is a huge one. *)
Definition user_coord (ndim : Z) (a : list Z) : option (list Z) :=
  if (0 <=? ndim) && (ndim <=? Z.of_nat (length a)) then Some (take (Z.to_nat ndim) a) else None.

(** The descriptor built from the arguments; the owner is -1. *)
Definition api_odsc (var_name : string) (ver size ndim : Z) (lb ub : list Z) : option obj_descriptor :=
  l ← user_coord ndim lb;
  u ← user_coord ndim ub;
  Some (client_odsc var_name ver size (Z.to_nat ndim) l u (-1)).

(** ** Start and end *)

(** The space [dcg_alloc] sets up once [dc_alloc] has registered the process. *)
Definition new_space (id num_sp minid num_peers : Z) : space :=
  mk_space (mk_dcg id num_sp 0 [] 0 [] 0 [] 0 (Some []) 0 (replicate num_op 1)) [] (mk_gdim 0 []) false 0 0 (mk_bbox 0 [] []) 1 0 minid num_peers.

(** [ok]: the allocation and [dc_alloc]; [s] is the new space. *)
Definition dcg_alloc (ok : bool) (s : space) (l : lib) : lib * dcg_ptr :=
  match l_static l with
  | p_null => if ok then (set_space (set_pointers l (l_dcg l) p_space) s, p_space) else (l, p_null)
  | p => (l, p)
  end.

(** The reply of a server to [ss_info]. *)
Definition dcgrpc_ss_info (s : space) (c : ds_config) (num_space_srv : nat) : space :=
  let n := Z.to_nat (cf_ndim c) in
  mk_space (sp_dcg s) (sp_gdim_list s) (mk_gdim n (take n (cf_dims c))) true (cf_ndim c) (Z.of_nat num_space_srv)
    (mk_bbox n (replicate n 0) (map (fun x => u64 (x - 1)) (take n (cf_dims c)))) (cf_hash_version c) (cf_max_versions c)
    (cp_min_rank s) (cp_in_job s).

(** The transport during [dcg_ss_info]: the message, [rpc_send], the reply
    handled in the wait, and what [dc_process] returns when there is none. *)
Record info_net := mk_inet { in_msg : bool; in_send : Z; in_reply : option (ds_config * nat); in_proc : Z }.

(** [None]: the wait goes on. *)
Definition dcg_ss_info (net : info_net) (s : space) : space * option Z :=
  if sp_f_ss_info s then (s, Some 0)
  else if in_msg net then
    if in_send net <? 0 then (s, Some (in_send net))
    else match in_reply net with
         | Some (c, n) => (dcgrpc_ss_info s c n, Some 0)
         | None => (s, if in_proc net <? 0 then Some (in_proc net) else None)
         end
  else (s, Some (- ENOMEM)).

Inductive outcome_of (A : Type) := returns (a : A) | waits_on | exits.
Arguments returns {A}.
Arguments waits_on {A}.
Arguments exits {A}.

(** [dimes]: what [dimes_client_alloc] yields, when DIMES is built in. *)
Definition common_dspaces_init (ok : bool) (s : space) (net : info_net) (dimes : option (option dimes_client)) (l : lib)
    : option (lib * outcome_of Z) :=
  if is_dspaces_lib_init l then Some (l, returns 0)
  else
    let '(l, p) := dcg_alloc ok s l in
    let l := set_pointers l p (l_static l) in
    match p with
    | p_null => Some (l, returns (- ENOMEM))
    | p_freed => None
    | p_space =>
        let '(sp, r) := dcg_ss_info net (l_space l) in
        let l := set_space l sp in
        match r with
        | None => Some (l, waits_on)
        | Some err =>
            if err <? 0 then Some (l, returns err)
            else
              let l := set_num_dims l (sp_num_dims sp) in
              match dimes with
              | None => Some (l, returns 0)
              | Some None => Some (set_dimes l d_null, returns err)
              | Some (Some c) => Some (set_dimes l (d_client c), returns 0)
              end
        end
    end.

(** [dcg_free] waits for the pending transfers; [drained] says that they end. *)
Definition dcg_free (drained : bool) (l : lib) : option (lib * bool) :=
  sp ← deref l;
  if (num_pending (sp_dcg sp) =? 0) || drained
  then Some (set_pointers l p_freed (if decide (l_static l = p_space) then p_freed else l_static l), true)
  else Some (l, false).

Definition common_dspaces_finalize (drained : bool) (l : lib) : option (lib * outcome_of unit) :=
  if is_dspaces_lib_init l then
    (* dimes_client_free() leaves the pointer of the interface *)
    '(l, done) ← dcg_free drained (match l_dimes l with d_null => l | _ => set_dimes l d_freed end);
    if done : bool then Some (set_pointers l p_null (l_static l), returns tt) else Some (l, waits_on)
  else Some (l, returns tt).

(** ** Information *)

(** The functions that read a field, -1 before the start. *)
Definition common_read (f : space -> Z) (l : lib) : option Z :=
  if is_dspaces_lib_init l then f <$> deref l else Some (-1).
Definition common_dspaces_rank := common_read (fun s => s32 (dcg_id (sp_dcg s) - cp_min_rank s)).
Definition common_dspaces_peers := common_read cp_in_job.
Definition common_dspaces_servers := common_read (fun s => num_sp (sp_dcg s)).
Definition common_dspaces_get_num_space_peers := common_read (fun s => num_sp (sp_dcg s)).

Definition common_dspaces_set_mpi_rank_hint (l : lib) (rank : Z) : lib :=
  mk_lib (l_dcg l) (l_static l) (l_space l) (l_dimes l) (l_sync_op_id l) (l_num_dims l) (Some rank).
Definition common_dspaces_unset_mpi_rank_hint (l : lib) : lib :=
  mk_lib (l_dcg l) (l_static l) (l_space l) (l_dimes l) (l_sync_op_id l) (l_num_dims l) None.

Section interface.
Context (max_ndim : nat).

Definition set_gdims (s : space) (g : gdim_list) : space :=
  mk_space (sp_dcg s) g (sp_default_gdim s) (sp_f_ss_info s) (sp_num_dims s) (sp_num_space_srv s) (sp_domain s)
    (sp_hash_version s) (sp_max_versions s) (cp_min_rank s) (cp_in_job s).

Definition common_dspaces_define_gdim (l : lib) (var_name : string) (ndim : Z) (gdim : list Z) : option lib :=
  if negb (is_dspaces_lib_init l) || negb (is_ndim_within_bound max_ndim ndim) then Some l
  else
    s ← deref l;
    g ← user_coord ndim gdim;
    Some (set_space l (set_gdims s (update_gdim_list (sp_gdim_list s) var_name (Z.to_nat ndim) g))).

(** ** Get and put *)

(** The dimension of the variable, or the one of the configuration. *)
Definition var_gdim (s : space) (var_name : string) : global_dimension :=
  set_global_dimension (sp_gdim_list s) var_name (sp_default_gdim s).

(** [ok]: the object; [qok]: the transaction.  The result is the code and the
    content of the buffer of the caller. *)
Definition common_dspaces_get (ok qok : bool) (ptr pt : nat) (fresh : list byte) (net : get_net) (l : lib)
    (var_name : string) (ver size ndim : Z) (lb ub : list Z) (buf : list byte) : option (lib * outcome_of (Z * list byte)) :=
  if negb (is_dspaces_lib_init l) || negb (is_ndim_within_bound max_ndim ndim) then Some (l, returns (- EINVAL, buf))
  else
    s ← deref l;
    odsc ← api_odsc var_name ver size ndim lb ub;
    if ok then
      let od := set_gdim (obj_data_alloc_no_data ptr odsc buf) (var_gdim s var_name) in
      '(d, r) ← dcg_obj_get qok pt fresh net (sp_dcg s) od;
      let l := set_client l d in
      match r with
      | get_done rc od => Some (l, returns (rc, data od))
      | get_waits => Some (l, waits_on)
      end
    else Some (l, returns (- ENOMEM, buf)).

(** The end of a put: the id of the operation is kept for [put_sync]. *)
Definition put_done (l : lib) (r : dcg_space * list put_request * Z) : lib * list put_request * Z :=
  let '(d, reqs, err) := r in
  let l := set_client l d in
  if err <? 0 then (l, reqs, err) else (set_sync_op l err, reqs, 0).

(** [malloc n]: whether a buffer of [n] bytes can be allocated. *)
Definition common_dspaces_put (env : server_env) (send : Z) (malloc : Z -> bool) (ptr : nat) (fresh : list byte) (l : lib)
    (var_name : string) (ver size ndim : Z) (lb ub : list Z) (buf : list byte) : option (lib * list put_request * Z) :=
  if negb (is_dspaces_lib_init l) || negb (is_ndim_within_bound max_ndim ndim) then Some (l, [], - EINVAL)
  else
    s ← deref l;
    odsc ← api_odsc var_name ver size ndim lb ub;
    if malloc (obj_data_size odsc) then
      od ← obj_data_alloc_with_data ptr fresh odsc buf;
      Some (put_done l (dcg_obj_put env send (l_mpi_rank l) (sp_dcg s) (set_gdim od (var_gdim s var_name))))
    else Some (l, [], - ENOMEM).

(** The variant for servers on the node of the client: [local] are the ids of
    the peers on the node, as [rpc_server_find_local_peers] finds them. *)
Definition common_dspaces_put_location_aware (env : server_env) (send : Z) (malloc : Z -> bool) (local : list Z) (ptr : nat)
    (fresh : list byte) (l : lib) (var_name : string) (ver size ndim : Z) (lb ub : list Z) (buf : list byte)
    : option (lib * list put_request * Z) :=
  if negb (is_dspaces_lib_init l) || negb (is_ndim_within_bound max_ndim ndim) then Some (l, [], - EINVAL)
  else
    s ← deref l;
    odsc ← api_odsc var_name ver size ndim lb ub;
    if malloc (obj_data_size odsc) then
      od ← obj_data_alloc_with_data ptr fresh odsc buf;
      let od := set_gdim od (var_gdim s var_name) in
      let d := sp_dcg s in
      let local_server_ids := List.filter (fun id => id <? num_sp d) local in
      if (64 <? length local)%nat then None
      else match local_server_ids with
           | [] => Some (put_done l (dcg_obj_put env send (l_mpi_rank l) d od))
           | _ =>
               server_id ← local_server_ids !! Z.to_nat (Z.rem (dcg_id d) (Z.of_nat (length local_server_ids)));
               Some (put_done l (dcg_obj_put_to_server env send server_id d od))
           end
    else Some (l, [], - ENOMEM).

(** *** Objects in shared memory

    With SHMEM_OBJECTS an object larger than [shmem_max_size] (268435456 in
    the code, 4096 in a comment) is put in blocks along its last dimension. *)

(** [ceil((double)a / b)]; exact while [a] fits a double, below 2^53. *)
Definition ceil_div (a b : Z) : Z := - (- a / b).

(** The loop over the dimensions, from [i - 1] down: the split dimension and
    the size of a block.  The conversion to [int] is undefined out of range. *)
Fixpoint find_split (i : nat) (total_blocks : Z) (lb ub : list Z) : option (option (nat * Z)) :=
  match i with
  | O => Some None
  | S i =>
      let block_size := ceil_div (u64 (u64 (cget ub i - cget lb i) + 1)) total_blocks in
      if block_size <? 2 ^ 31 then
        if 1 <=? block_size then Some (Some (i, block_size)) else find_split i total_blocks lb ub
      else None
  end.

(** The box of block [i]. *)
Definition block_box (ndim : nat) (lb ub : list Z) (split_dim : nat) (block_size : Z) (i : nat) : bbox :=
  let lo := u64 (cget lb split_dim + Z.of_nat i * block_size) in
  let hi := u64 (lo + block_size - 1) in
  let hi := if cget ub split_dim <? hi then cget ub split_dim else hi in
  mk_bbox ndim (<[split_dim := lo]> (take ndim lb)) (<[split_dim := hi]> (take ndim ub)).

Definition set_bb (o : obj_descriptor) (b : bbox) : obj_descriptor := mk_odsc (name o) (st o) (owner o) (version o) b (size o).

(** One block after the other; an error ends the put. *)
Fixpoint put_blocks (env : server_env) (send : Z) (malloc : Z -> bool) (ptr : nat) (fresh : list byte) (l : lib) (var_name : string)
    (big : obj_descriptor) (buf : list byte) (boxes : list bbox) : option (lib * list put_request * Z) :=
  match boxes with
  | [] => Some (l, [], 0)
  | b :: boxes =>
      s ← deref l;
      let odsc := set_bb big b in
      if malloc (obj_data_size odsc) then
        od ← obj_data_alloc_with_data_split ptr fresh odsc buf big;
        let '(l, reqs, err) := put_done l (dcg_obj_put env send (l_mpi_rank l) (sp_dcg s) (set_gdim od (var_gdim s var_name))) in
        if err <? 0 then Some (l, reqs, err)
        else
          '(l, reqs', err) ← put_blocks env send malloc (S ptr) fresh l var_name big buf boxes;
          Some (l, reqs ++ reqs', err)
      else Some (l, [], - ENOMEM)
  end.

(** [total_blocks] and [i * block_size] are of type [int]; the [ceil] around
    the quotient of integers has no effect. *)
Definition common_dspaces_put_shmem (shmem_max_size : Z) (env : server_env) (send : Z) (malloc : Z -> bool) (ptr : nat)
    (fresh : list byte) (l : lib) (var_name : string) (ver size ndim : Z) (lb ub : list Z) (buf : list byte)
    : option (lib * list put_request * Z) :=
  if negb (is_dspaces_lib_init l) || negb (is_ndim_within_bound max_ndim ndim) then Some (l, [], - EINVAL)
  else
    s ← deref l;
    big ← api_odsc var_name ver size ndim lb ub;
    if obj_data_size big <=? shmem_max_size then
      if malloc (obj_data_size big) then
        od ← obj_data_alloc_with_data ptr fresh big buf;
        Some (put_done l (dcg_obj_put env send (l_mpi_rank l) (sp_dcg s) (set_gdim od (var_gdim s var_name))))
      else Some (l, [], - ENOMEM)
    else
      let total_blocks := obj_data_size big / shmem_max_size in
      if 2 ^ 31 <=? total_blocks then None else
      split ← find_split (Z.to_nat ndim) total_blocks lb ub;
      match split with
      | None => Some (l, [], -1)
      | Some (split_dim, block_size) =>
          if (total_blocks - 1) * block_size <? 2 ^ 31 then
            put_blocks env send malloc ptr fresh l var_name big buf
              (map (block_box (Z.to_nat ndim) lb ub split_dim block_size) (seq 0 (Z.to_nat total_blocks)))
          else None
      end.

(** *** Completion of a put *)

(** The rounds of the loop of [dcg_obj_sync]: what [dc_process] returns and
    the operations whose transfer ends in it.  [None]: the loop goes on. *)
Fixpoint dcg_obj_sync (d : dcg_space) (sync_op_id : nat) (rounds : list (Z * list nat)) : dcg_space * option Z :=
  if syncop_ref d sync_op_id =? 1 then (d, Some 0)
  else match rounds with
       | [] => (d, None)
       | (err, done) :: rounds =>
           let d := fold_left obj_put_done done d in
           if err <? 0 then (d, Some err) else dcg_obj_sync d sync_op_id rounds
       end.

Definition common_dspaces_put_sync (rounds : list (Z * list nat)) (l : lib) : option (lib * outcome_of Z) :=
  if is_dspaces_lib_init l then
    s ← deref l;
    let '(d, r) := dcg_obj_sync (sp_dcg s) (Z.to_nat (l_sync_op_id l)) rounds in
    Some (set_client l d, match r with Some err => returns err | None => waits_on end)
  else Some (l, returns (- EINVAL)).

(** ** Removal *)

(** The request to a server: [strcpy] into the 64 characters of [lh->name]. *)
Record remove_request := mk_rreq { rm_peer : Z; rm_name : string; rm_ver : Z }.

(** [err] is what the send before returned: a message that cannot be allocated
    ends the loop with it. *)
Fixpoint remove_loop (msg : Z -> bool) (send : Z -> Z) (var_name : string) (ver err : Z) (peers : list Z)
    : list remove_request * Z :=
  match peers with
  | [] => ([], 0)
  | p :: peers =>
      if msg p then
        if send p <? 0 then ([], send p)
        else let '(rs, err) := remove_loop msg send var_name ver (send p) peers in (mk_rreq p var_name (s32 ver) :: rs, err)
      else ([], err)
  end.

Definition all_servers (d : dcg_space) : list Z := map Z.of_nat (seq 0 (Z.to_nat (num_sp d))).

Definition dcg_remove (msg : Z -> bool) (send : Z -> Z) (d : dcg_space) (var_name : string) (ver : Z)
    : option (list remove_request * Z) :=
  if (String.length var_name <? 64)%nat then Some (remove_loop msg send var_name ver (- ENOMEM) (all_servers d)) else None.

(** A negative code ends the process. *)
Definition common_dspaces_remove (msg : Z -> bool) (send : Z -> Z) (l : lib) (var_name : string) (ver : Z)
    : option (list remove_request * outcome_of Z) :=
  if is_dspaces_lib_init l then
    s ← deref l;
    '(rs, err) ← dcg_remove msg send (sp_dcg s) var_name ver;
    Some (rs, if err <? 0 then exits else returns err)
  else Some ([], returns 0).

(** ** Kill *)

(** One message per server; a failure ends the process.  Every message takes a
    slot of the asynchronous operations. *)
Fixpoint kill_loop (msg : Z -> bool) (send : Z -> Z) (d : dcg_space) (peers : list Z) : dcg_space * list Z * bool :=
  match peers with
  | [] => (d, [], true)
  | p :: peers =>
      let d := fst (syncop_next d) in
      if msg p && negb (send p <? 0) then
        let '(d, sent, ok) := kill_loop msg send d peers in (d, p :: sent, ok)
      else (d, [], false)
  end.

Definition dcgrpc_kill (msg : Z -> bool) (send : Z -> Z) (d : dcg_space) : dcg_space * list Z * bool :=
  kill_loop msg send d (all_servers d).

(** No guard: before the start the pointer is null. *)
Definition common_dspaces_kill (msg : Z -> bool) (send : Z -> Z) (l : lib) : option (lib * list Z * outcome_of unit) :=
  s ← deref l;
  let '(d, sent, ok) := dcgrpc_kill msg send (sp_dcg s) in
  Some (set_client l d, sent, if ok : bool then returns tt else exits).

(** ** Metadata of the streams *)

(** The transport during [dcg_obj_get_meta], for its requests 0 and 1 to
    server 0: the message, [rpc_receive], what is transferred (the two ints,
    the buffer) and what the last [dc_process] of the wait returns. *)
Record meta_net := mk_mnet {
  mn_msg : nat -> bool;
  mn_post : nat -> Z;
  mn_ints : bool -> string -> Z -> option (Z * Z);
  mn_bytes : string -> Z -> Z -> option (list byte);
  mn_proc : nat -> Z
}.

(** [sprintf] into the 128 characters of [f_name]. *)
Definition meta_post (net : meta_net) (i : nat) (nm : string) : option Z :=
  if mn_msg net i then if (String.length nm <? 128)%nat then Some (mn_post net i) else None else Some (- ENOMEM).

Definition dcg_obj_get_nvars (net : meta_net) (type : bool) (ver : Z) (nm : string) : option (option (Z * Z) * Z) :=
  err ← meta_post net 0 nm; Some (if err <? 0 then None else mn_ints net type nm ver, err).

Definition dcg_obj_get_varBuffer (net : meta_net) (ver length : Z) (nm : string) : option (option (list byte) * Z) :=
  err ← meta_post net 1 nm; Some (if err <? 0 then None else mn_bytes net nm ver length, err).

(** The buffer with its length and version, or NULL. *)
Inductive meta_result := meta_buffer (d : list byte) (len ver : Z) | meta_null | meta_waits.

(** [DC_WAIT_COMPLETION] for request [i]. *)
Definition meta_wait {A} (net : meta_net) (i : nat) (answer : option A) (k : A -> option meta_result) : option meta_result :=
  if mn_proc net i <? 0 then Some meta_null
  else match answer with None => Some meta_waits | Some a => k a end.

(** [type]: false is 0 (next), true is 1 (latest).  A negative length is a
    huge one for [malloc], whose result is not tested. *)
Definition dcg_obj_get_meta (net : meta_net) (type : bool) (ver : Z) (nm : string) : option meta_result :=
  '(ints, err) ← dcg_obj_get_nvars net type ver nm;
  if err <? 0 then Some meta_null
  else meta_wait net 0 ints (fun '(buf_len, version) =>
    if buf_len =? -3 then Some meta_null
    else if buf_len <? 0 then None
    else
      '(buffer, err) ← dcg_obj_get_varBuffer net version buf_len nm;
      if err <? 0 then Some meta_null
      else meta_wait net 1 buffer (fun d => Some (if mn_proc net 1 =? 0 then meta_buffer d buf_len version else meta_null))).

(** No guard on the state of the library. *)
Definition common_dspaces_get_latest_meta (net : meta_net) (l : lib) (ver : Z) (nm : string) : option meta_result :=
  deref l ≫= fun _ => dcg_obj_get_meta net true (s32 ver) nm.
Definition common_dspaces_get_next_meta (net : meta_net) (l : lib) (ver : Z) (nm : string) : option meta_result :=
  deref l ≫= fun _ => dcg_obj_get_meta net false (s32 ver) nm.

(** ** Locks and barrier *)

Definition lock_wrapper (f : dcg_space -> Z -> dcg_space * list lock_cmd * call_pc) (l : lib)
    : option (lib * list lock_cmd * call_pc) :=
  if is_dspaces_lib_init l then
    s ← deref l;
    let '(d, ms, pc) := f (sp_dcg s) (cp_min_rank s) in Some (set_client l d, ms, pc)
  else Some (l, [], pc_run).

Definition common_dspaces_lock_on_read (env : call_env) (l : lib) (lock_name : string) (comm : option Z) :=
  lock_wrapper (fun d r => dcg_lock_on_read env d r comm lock_name) l.
Definition common_dspaces_lock_on_write (env : call_env) (l : lib) (lock_name : string) (comm : option Z) :=
  lock_wrapper (fun d r => dcg_lock_on_write env d r comm lock_name) l.
Definition common_dspaces_unlock_on_read (env : call_env) (l : lib) (lock_name : string) :=
  lock_wrapper (fun d _ => let '(d, pc) := dcg_unlock_on env d lock_name in (d, [], pc)) l.
Definition common_dspaces_unlock_on_write := common_dspaces_unlock_on_read.

(** ** DIMES *)

Definition with_dimes {A} (l : lib) (err : A) (f : dimes_client -> option A) : option A :=
  match l_dimes l with
  | d_null => Some err
  | d_client c => f c
  | d_freed => None
  end.

Definition set_gdims_d (c : dimes_client) (g : gdim_list) : dimes_client :=
  mk_dcl (dc_self c) (dc_num_srv c) (dc_hash_version c) (dc_default_gdim c) (default_ssd c) (dc_sspace_list c) (dc_cache c)
    g (dc_qt c) (dc_num_entry c) (dc_next_qid c) (dc_next_obj c) (dc_store c) (dc_mem c) (dc_drh c) (dc_node c).

Definition common_dimes_define_gdim (l : lib) (var_name : string) (ndim : Z) (gdim : list Z) : option lib :=
  if negb (is_dimes_lib_init l) || negb (is_ndim_within_bound max_ndim ndim) then Some l
  else with_dimes l l (fun c =>
    g ← user_coord ndim gdim;
    Some (set_dimes l (d_client (set_gdims_d c (update_gdim_list (dc_gdim_list c) var_name (Z.to_nat ndim) g))))).

Definition common_dimes_put (env : client_env) (l : lib) (var_name : string) (ver size ndim : Z) (lb ub : list Z) (buf : list byte)
    : option (lib * list (Z * dcmsg) * Z) :=
  if negb (is_dimes_lib_init l) || negb (is_ndim_within_bound max_ndim ndim) then Some (l, [], - EINVAL)
  else with_dimes l (l, [], - EINVAL) (fun c =>
    lo ← user_coord ndim lb;
    hi ← user_coord ndim ub;
    '(c, sent, err) ← dimes_client_put env c var_name ver size (Z.to_nat ndim) lo hi buf;
    Some (set_dimes l (d_client c), sent, err)).

Definition common_dimes_get (env : client_env) (l : lib) (var_name : string) (ver size ndim : Z) (lb ub : list Z) (buf : list byte)
    : option (lib * list (Z * dcmsg) * (Z + dget_result)) :=
  if negb (is_dimes_lib_init l) || negb (is_ndim_within_bound max_ndim ndim) then Some (l, [], inl (- EINVAL))
  else with_dimes l (l, [], inl (- EINVAL)) (fun c =>
    lo ← user_coord ndim lb;
    hi ← user_coord ndim ub;
    '(c, sent, r) ← dimes_client_get env c var_name ver size (Z.to_nat ndim) lo hi buf;
    Some (set_dimes l (d_client c), sent, inr r)).

Definition with_store (l : lib) (f : dmem -> dimes_storage -> option (dmem * dimes_storage * Z)) : option (lib * Z) :=
  with_dimes l (l, - EINVAL) (fun c =>
    '(m, s, err) ← f (dc_mem c) (dc_store c);
    Some (set_dimes l (d_client (set_memory (set_objects c s (dc_next_obj c)) m (dc_drh c))), err)).

Definition common_dimes_put_sync_all (env : mem_env) (l : lib) := with_store l (dimes_client_put_sync_all env).
Definition common_dimes_put_sync_group (env : mem_env) (l : lib) (group_name : string) :=
  with_store l (fun m s => dimes_client_put_sync_group env m s group_name).
Definition common_dimes_put_set_group (l : lib) (group_name : option string) :=
  with_store l (fun m s => let '(s, err) := dimes_client_put_set_group s group_name in Some (m, s, err)).
Definition common_dimes_put_unset_group (l : lib) :=
  with_store l (fun m s => let '(s, err) := dimes_client_put_unset_group s in Some (m, s, err)).

(** ** Lemmas *)

Lemma map_cget_take n (l : list Z) : (n <= length l)%nat -> map (cget l) (seq 0 n) = take n l.
Proof.
  intros Hn. apply list_eq. intros i. change (map (cget l) (seq 0 n)) with (cget l <$> seq 0 n). rewrite list_lookup_fmap.
  destruct (decide (i < n)%nat) as [Hi|Hi].
  - rewrite lookup_seq_lt, lookup_take_lt by done. cbn. unfold cget. rewrite nth_lookup.
    by destruct (lookup_lt_is_Some_2 l i ltac:(lia)) as [x ->].
  - rewrite lookup_seq_ge, lookup_take_ge by lia. done.
Qed.

Lemma cget_take n (l : list Z) i : (i < n)%nat -> cget (take n l) i = cget l i.
Proof. intros Hi. unfold cget. by rewrite !nth_lookup, lookup_take_lt. Qed.

(** The box of the arguments of a call. *)
Definition user_box (ndim : Z) (lb ub : list Z) : bbox :=
  mk_bbox (Z.to_nat ndim) (take (Z.to_nat ndim) lb) (take (Z.to_nat ndim) ub).

Lemma user_coord_some ndim a c : user_coord ndim a = Some c -> 0 <= ndim <= Z.of_nat (length a) /\ c = take (Z.to_nat ndim) a.
Proof. unfold user_coord. destruct (_ && _) eqn:E; [|done]. intros [= <-]. zbool. split; [lia|done]. Qed.

Lemma api_odsc_spec var_name ver size ndim lb ub o : api_odsc var_name ver size ndim lb ub = Some o ->
  o = mk_odsc (String.substring 0 153 var_name) column_major (-1) (u32 ver) (user_box ndim lb ub) (u64 size).
Proof.
  unfold api_odsc. destruct (user_coord ndim lb) as [l|] eqn:El; [|done]. destruct (user_coord ndim ub) as [u|] eqn:Eu; [|done].
  cbn [mbind option_bind]. intros [= <-]. apply user_coord_some in El as [Hl ->], Eu as [Hu ->].
  unfold client_odsc, user_box. rewrite !map_cget_take by (rewrite length_take; lia). by rewrite !take_take, Nat.min_id.
Qed.

Lemma api_odsc_total var_name ver size ndim lb ub : 0 <= ndim <= Z.of_nat (length lb) -> ndim <= Z.of_nat (length ub) ->
  api_odsc var_name ver size ndim lb ub =
    Some (mk_odsc (String.substring 0 153 var_name) column_major (-1) (u32 ver) (user_box ndim lb ub) (u64 size)).
Proof.
  intros Hl Hu. destruct (api_odsc var_name ver size ndim lb ub) as [o|] eqn:E; [by rewrite (api_odsc_spec _ _ _ _ _ _ _ E)|].
  exfalso. unfold api_odsc, user_coord in E. rewrite !(proj2 (andb_true_iff _ _)) in E by (split; apply Z.leb_le; lia). done.
Qed.

Lemma memcpy_bounds A ao B bo len A' : memcpy A ao B bo len = Some A' ->
  ao + len <= Z.of_nat (length A) /\ bo + len <= Z.of_nat (length B).
Proof. unfold memcpy. destruct (_ && _) eqn:E; [|done]. intros _. zbool. lia. Qed.

(** The buffer of a new object has the bytes of the caller. *)
Lemma alloc_with_data_bytes ptr fresh o d od : obj_data_alloc_with_data ptr fresh o d = Some od ->
  obj_desc od = o /\ forall i, 0 <= i < obj_data_size o -> at_ (data od) i = at_ d i.
Proof.
  unfold obj_data_alloc_with_data. cbn [data obj_data_alloc].
  pose proof (u64_range (size o * bbox_volume (bb o))) as Hr. fold (obj_data_size o) in Hr.
  destruct (memcpy _ 0 d 0 (obj_data_size o)) as [A'|] eqn:E; [|done]. cbn [mbind option_bind]. intros [= <-]. split; [done|].
  destruct (memcpy_bounds _ _ _ _ _ _ E) as [H1 H2]. intros i Hi. cbn [set_data data].
  destruct (memcpy_spec (take (Z.to_nat (obj_data_size o)) fresh) 0 d 0 (obj_data_size o)) as (A2 & E2 & _ & Ha); try lia.
  rewrite E in E2. injection E2 as <-. rewrite Ha by lia.
  rewrite (proj2 (andb_true_iff _ _)) by (split; [apply Z.leb_le|apply Z.ltb_lt]; lia). f_equal. lia.
Qed.

(** What a successful put sends. *)
Lemma put_emits env send malloc ptr fresh l var_name ver size ndim lb ub buf l' r :
  common_dspaces_put env send malloc ptr fresh l var_name ver size ndim lb ub buf = Some (l', [r], 0) ->
  exists o, api_odsc var_name ver size ndim lb ub = Some o /\ pr_odsc r = o /\
    forall i, 0 <= i < obj_data_size o -> at_ (pr_bytes r) i = at_ buf i.
Proof.
  unfold common_dspaces_put. destruct (_ || _); [done|]. destruct (deref l) as [s|]; [|done]. cbn [mbind option_bind].
  destruct (api_odsc _ _ _ _ _ _) as [o|]; [|done]. cbn [mbind option_bind]. destruct (malloc _); [|done].
  destruct (obj_data_alloc_with_data ptr fresh o buf) as [od|] eqn:Eo; [|done]. cbn [mbind option_bind].
  destruct (alloc_with_data_bytes _ _ _ _ _ Eo) as [Ho Hb]. unfold put_done, dcg_obj_put.
  destruct (syncop_next _) as [d op]. destruct (e_msg _ _); [|done].
  destruct (send <? 0) eqn:Es; [cbn; rewrite Es; intros [=]|]. rewrite (proj2 (Z.ltb_ge (Z.of_nat op) 0)) by lia.
  intros [= <- <-]. exists o. split; [done|]. split; [exact Ho|exact Hb].
Qed.

(** The bytes of the cells of a box. *)
Lemma cell_at_ext b sz d d' n p k : (1 <= num_dims b)%nat -> in_box b p -> 0 <= k < sz -> box_card b * sz <= n ->
  (forall i, 0 <= i < n -> at_ d i = at_ d' i) -> cell_at b sz d p k = cell_at b sz d' p k.
Proof.
  intros Hd Hp Hk Hn H. unfold cell_at. apply H. pose proof (lin_range b (cget p) _ (in_box_inb b p Hd Hp)) as Hl.
  replace (S (num_dims b - 1)) with (num_dims b) in Hl by lia. rewrite weight_card in Hl. nia.
Qed.
End interface.

(** The server [i] has accepted the request: the object it makes. *)
Definition accepted (gd0 : global_dimension) (i : nat) (r : put_request) (od : obj_data) : Prop :=
  exists ptr fresh, od = set_data (put_obj gd0 i ptr fresh (pr_odsc r)) (pr_bytes r).

(** ** Properties *)

(** The library is started with the space [dc] of the client, and the variable
    has the dimension [gd]. *)
Record running (l : lib) (dc : dcg_space) (var_name : string) (gd : global_dimension) : Prop := {
  ru_ptr : l_dcg l = p_space;
  ru_dcg : sp_dcg (l_space l) = dc;
  ru_gdim : var_gdim (l_space l) var_name = gd
}.

(** C1: [dspaces_get] returns what [dspaces_put] was given.  In any state
    the puts of any clients reach in any interleaving, with nothing on the
    way, a [dspaces_get] of a box that objects of its name and version cover
    returns 0, and every byte of every cell in the buffer of the reader is
    the byte that the writer had for it in its own buffer, whatever boxes the
    two gave. *)
Theorem dspaces_get_returns_dspaces_put max_ndim ss0 N fuel query cell own good_cache gd0 mv ds s env cid ptr heap arrival fresh pt
    (l : lib) dc var_name ver size ndim lb ub buf q :
  HashService ss0 N fuel query cell own good_cache ->
  deployed ss0 N good_cache gd0 mv ds -> reached fuel query cell gd0 ds s ->
  api_odsc var_name ver size ndim lb ub = Some q -> no_conflict mv (name q) (version q) s -> quiescent s ->
  env_good fuel env -> readable query cell (name q) (version q) s q -> buf_ok q buf -> ndim <= Z.of_nat max_ndim ->
  obj_data_size q <= Z.of_nat (length fresh) -> (forall ms, arrival ms ≡ₚ ms) ->
  running l dc var_name gd0 -> num_sp dc = Z.of_nat N -> (0 < N)%nat -> dcg_id dc = cid -> 0 <= cid ->
  (forall e, e ∈ qt dc -> q_id e <> next_qid dc) ->
  exists l' bytes,
    common_dspaces_get max_ndim true true ptr pt fresh (servers_net env heap ptr fresh arrival (srv s) cid) l
      var_name ver size ndim lb ub buf = Some (l', returns (0, bytes)) /\
    forall i od r env' send malloc ptr' fresh' lw lw' var_name' ver' size' ndim' lb' ub' buf',
      common_dspaces_put max_ndim env' send malloc ptr' fresh' lw var_name' ver' size' ndim' lb' ub' buf' = Some (lw', [r], 0) ->
      (i, od) ∈ puts s -> accepted gd0 i r od -> String.substring 0 153 var_name' = String.substring 0 153 var_name ->
      u32 ver' = u32 ver -> forall p k, in_box (user_box ndim lb ub) p -> in_box (user_box ndim' lb' ub') p -> 0 <= k < u64 size ->
      cell_at (user_box ndim lb ub) (u64 size) bytes p k = cell_at (user_box ndim' lb' ub') (u64 size) buf' p k.
Proof.
  intros HS [Hl Hst] R Hq Hnc Hqu He Hrd Hb Hnd Hf Harr [Hptr Hdcg Hgd] Hsp HN Hcid Hc0 Hid.
  pose proof (reach_inv ss0 N fuel query cell own good_cache gd0 mv (name q) (version q) _ s R (init_inv _ _ _ _ _ _ _ _ ds Hl Hst) Hnc) as I.
  set (to := set_gdim (obj_data_alloc_no_data ptr q buf) gd0).
  destruct (get_spec ss0 N fuel query cell own good_cache gd0 mv (name q) (version q) s I Hnc Hqu env He cid q Hrd ptr fresh Hf
    (bo_dims _ _ Hb) (bo_size _ _ Hb) (bo_fit _ _ Hb) heap arrival Harr dc Hsp Hcid Hc0 HN Hid pt to eq_refl eq_refl Hb)
    as (dc' & bytes & E & _ & _ & _ & Hcells).
  exists (set_client l dc'), bytes. split.
  - unfold common_dspaces_get, is_dspaces_lib_init, is_ndim_within_bound, deref. rewrite Hptr. rewrite bool_decide_false by done.
    rewrite (proj2 (Z.ltb_ge _ _) Hnd), decide_True by done. cbn [negb orb mbind option_bind]. rewrite Hq. cbn [mbind option_bind].
    rewrite Hgd, Hdcg. fold to. unfold mbind, option_bind. by rewrite E.
  - intros i od r env' send malloc ptr' fresh' lw lw' vn vv vs nd' lo hi buf' Hput Hin (pt' & fr' & ->) Hn Hv p k Hp Hp' Hk.
    destruct (put_emits _ _ _ _ _ _ _ _ _ _ _ _ _ _ _ _ Hput) as (o & Ho & Hr & Hbytes).
    pose proof (api_odsc_spec _ _ _ _ _ _ _ Hq) as Eq. pose proof (api_odsc_spec _ _ _ _ _ _ _ Ho) as Eo.
    set (od := set_data (put_obj gd0 i pt' fr' (pr_odsc r)) (pr_bytes r)) in *.
    assert (tracked (name q) (version q) s i od) as T.
    { split; [done|]. unfold od. cbn. rewrite Hr, Eo, Eq. cbn. by rewrite Hn, Hv. }
    destruct (rd_objs _ _ _ _ _ _ Hrd i od T) as (Hbo & _ & Hsz).
    assert (bb (obj_desc od) = user_box nd' lo hi) as Hbb by (unfold od; cbn; by rewrite Hr, Eo).
    replace (user_box ndim lb ub) with (bb q) in * by (by rewrite Eq). replace (u64 size) with (ObjDesc.size q) in * by (by rewrite Eq).
    rewrite Hcells by done. rewrite (array_spec query cell mv (name q) (version q) s Hnc q Hrd i od p k T) by (by rewrite Hbb).
    rewrite <- Hbb in *. rewrite <- Hsz in *. pose proof (buf_size _ _ Hbo) as Hs.
    apply (cell_at_ext _ _ _ _ (obj_data_size o)); [apply Hbo|done|done| |done].
    rewrite <- Hs. unfold od. cbn. rewrite Hr. unfold obj_data_size. cbn. lia.
Qed.

(** The run of two clients of Deployment.v: they put cells 0 to 4 and 5 to 7 of
    the array, another one gets cells 2 to 6. *)
Definition demo_space (id : Z) : space :=
  mk_space (mk_dcg id 2 0 [] 0 [] 0 [] 0 (Some []) 0 (replicate num_op 1)) [] demo_gdim true 1 2 demo_domain 1 2 5 3.
Definition demo_lib (id : Z) : lib := mk_lib p_space p_space (demo_space id) d_null 0 1 None.
Definition demo_put_B : lib * list put_request * Z := Eval vm_compute in
  match common_dspaces_put 3 demo_env 0 (fun _ => true) 9 demo_fresh (demo_lib 7) "temp" 0 1 1 [5] [7] demo_b_bytes with
  | Some x => x
  | None => (demo_lib 7, [], 1)
  end.
Definition demo_req_B : put_request := mk_preq 1 demo_B demo_gdim demo_b_bytes.

Lemma dspaces_get_returns_dspaces_put_witness : exists s l' bytes, rtc demo_step (sys_init demo_servers) s /\
  common_dspaces_get 3 true true 50 100 demo_fresh (servers_net demo_env [7] 50 demo_fresh (@rev smsg) (srv s) 6) (demo_lib 6)
    "temp" 0 1 1 [2] [6] (replicate 5 Byte.x00) = Some (l', returns (0, bytes)) /\
  cell_at (user_box 1 [2] [6]) 1 bytes [5] 0 = Some Byte.x1a.
Proof.
  destruct demo_run as (s & R & Hp & Hx & Hn).
  destruct (dspaces_get_returns_dspaces_put 3 _ _ _ _ _ _ _ _ 2 demo_servers s demo_env 6 50 [7] (@rev smsg) demo_fresh 100
    (demo_lib 6) (sp_dcg (demo_space 6)) "temp" 0 1 1 [2] [6] (replicate 5 Byte.x00) demo_q demo_HS demo_deployed R) as (l' & bytes & E & H).
  - by vm_compute.
  - apply (demo_no_conflict s Hp).
  - split; [done|]. intros i r m Hm. rewrite Hn in Hm. by apply not_elem_of_nil in Hm.
  - apply demo_env_good.
  - by apply demo_readable.
  - constructor; [apply one_dim_wf; lia|cbn; lia|cbn; lia|by vm_compute|by vm_compute].
  - lia.
  - by vm_compute.
  - intros l. symmetry. apply Permutation_rev.
  - by split.
  - done.
  - lia.
  - done.
  - lia.
  - intros e He. by apply not_elem_of_nil in He.
  - exists s, l', bytes. split; [exact R|]. split; [exact E|].
    transitivity (cell_at (user_box 1 [5] [7]) (u64 1) demo_b_bytes [5] 0); [|by vm_compute].
    apply (H 1%nat obj_B demo_req_B demo_env 0 (fun _ => true) 9%nat demo_fresh (demo_lib 7) demo_put_B.1.1
      "temp"%string 0 1 1 [5] [7] demo_b_bytes); try done; [rewrite Hp; apply list_elem_of_further, list_elem_of_here
      |by exists 2%nat, demo_fresh|apply in_one_dim; exists 5; (split; [done|lia])..].
Defined.

(** ** Objects in blocks *)

Lemma ceil_div_spec a b : 0 < a -> 0 < b -> 1 <= ceil_div a b <= a /\ a <= ceil_div a b * b /\ (ceil_div a b - 1) * b < a.
Proof.
  intros Ha Hb. unfold ceil_div. pose proof (Z.div_mod (- a) b ltac:(lia)) as H. pose proof (Z.mod_pos_bound (- a) b Hb). nia.
Qed.

Section blocks.
Context (lo hi : list Z) (m : nat) (bs : Z).
Abbreviation box := (mk_bbox (S m) (take (S m) lo) (take (S m) hi)).
Abbreviation E := (cget hi m - cget lo m + 1).
Context (Hlo : (S m <= length lo)%nat) (Hhi : (S m <= length hi)%nat) (Hwf : wf_bbox box) (Hmax : cget hi m < 2 ^ 63).
Context (Hbs : 1 <= bs < 2 ^ 31).

Abbreviation blk := (block_box (S m) lo hi m bs).

Lemma bounds_at i : (i < S m)%nat -> 0 <= cget lo i /\ cget lo i <= cget hi i < 2 ^ 64.
Proof using Hwf.
  intros Hi. destruct Hwf as (_ & _ & H). specialize (H i Hi). cbn in H. by rewrite !cget_take in H by done.
Qed.

Lemma cget_set (a : list Z) x j i : (j < length a)%nat -> cget (<[j := x]> a) i = if decide (i = j) then x else cget a i.
Proof using Type.
  intros Hj. unfold cget. rewrite !nth_lookup. destruct (decide (i = j)) as [->|]; [by rewrite list_lookup_insert_eq|].
  by rewrite list_lookup_insert_ne.
Qed.

(** Block [j], when it is not empty. *)
Lemma blk_bounds j : Z.of_nat j * bs < E ->
  num_dims (blk j) = S m /\ length (Bbox.lb (blk j)) = S m /\ length (Bbox.ub (blk j)) = S m /\
  forall i, (i < S m)%nat ->
    cget (Bbox.lb (blk j)) i = (if decide (i = m) then cget lo m + Z.of_nat j * bs else cget lo i) /\
    cget (Bbox.ub (blk j)) i = (if decide (i = m) then Z.min (cget lo m + Z.of_nat j * bs + bs - 1) (cget hi m) else cget hi i).
Proof using Hlo Hhi Hwf Hmax Hbs.
  intros Hj. unfold block_box. cbn [num_dims Bbox.lb Bbox.ub]. rewrite !length_insert, !length_take. split; [done|]. split; [lia|]. split; [lia|].
  intros i Hi. rewrite !cget_set, !cget_take by (rewrite ?length_take; lia). destruct (bounds_at m ltac:(lia)) as [H1 H2].
  rewrite (u64_small (cget lo m + _)) by lia. rewrite u64_small by lia. destruct (decide (i = m)); [|done]. split; [done|].
  destruct (Z.ltb_spec (cget hi m) (cget lo m + Z.of_nat j * bs + bs - 1)); lia.
Qed.

Lemma blk_wf j : Z.of_nat j * bs < E -> wf_bbox (blk j).
Proof using Hlo Hhi Hwf Hmax Hbs.
  intros Hj. destruct (blk_bounds j Hj) as (Hn & H1 & H2 & H3). split; [congruence|]. split; [congruence|]. rewrite Hn. intros i Hi.
  destruct (H3 i Hi) as [-> ->]. pose proof (bounds_at i Hi). pose proof (bounds_at m ltac:(lia)). assert (0 <= Z.of_nat j * bs) by nia.
  destruct (decide (i = m)); lia.
Qed.

Lemma in_blk j p : Z.of_nat j * bs < E -> in_box (blk j) p <-> in_box box p /\ (cget p m - cget lo m) / bs = Z.of_nat j.
Proof using Hlo Hhi Hwf Hmax Hbs.
  intros Hj. destruct (blk_bounds j Hj) as (Hn & H1 & H2 & H3). unfold in_box. rewrite Hn. cbn [num_dims Bbox.lb Bbox.ub].
  split.
  - intros [Hl H]. assert (forall i, (i < S m)%nat -> cget (take (S m) lo) i <= cget p i <= cget (take (S m) hi) i) as Hin.
    { intros i Hi. rewrite !cget_take by done. specialize (H i Hi). assert (0 <= Z.of_nat j * bs) by nia. destruct (H3 i Hi) as [E1 E2]. rewrite E1, E2 in H.
      destruct (decide (i = m)); subst; lia. }
    split; [done|]. specialize (H m ltac:(lia)). destruct (H3 m ltac:(lia)) as [E1 E2]. rewrite E1, E2, !decide_True in H by done.
    symmetry. apply Z.div_unique with (r := cget p m - cget lo m - Z.of_nat j * bs); [left|]; lia.
  - intros [[Hl H] Hd]. split; [done|]. intros i Hi. specialize (H i Hi). rewrite !cget_take in H by done.
    destruct (H3 i Hi) as [-> ->]. destruct (decide (i = m)) as [->|]; [|done].
    pose proof (Z.div_mod (cget p m - cget lo m) bs ltac:(lia)) as Hdm. rewrite Hd in Hdm.
    pose proof (Z.mod_pos_bound (cget p m - cget lo m) bs ltac:(lia)). lia.
Qed.

Lemma blk_ext j i : Z.of_nat j * bs < E -> (i < S m)%nat -> 0 < ext (blk j) i <= ext box i.
Proof using Hlo Hhi Hwf Hmax Hbs.
  intros Hj Hi. destruct (blk_bounds j Hj) as (_ & _ & _ & H3). unfold ext. destruct (H3 i Hi) as [-> ->].
  cbn [Bbox.lb Bbox.ub]. rewrite !cget_take by done. pose proof (bounds_at i Hi). assert (0 <= Z.of_nat j * bs) by nia.
  destruct (decide (i = m)) as [->|]; lia.
Qed.

Lemma blk_card j : Z.of_nat j * bs < E -> 0 < box_card (blk j) <= box_card box.
Proof using Hlo Hhi Hwf Hmax Hbs.
  intros Hj. rewrite <- !weight_card. apply (weight_le_pos (blk j) box (S m)). intros i Hi. by apply blk_ext.
Qed.
End blocks.

Lemma find_split_last m total lo hi : 0 <= cget lo m <= cget hi m -> cget hi m < 2 ^ 64 -> 0 < total ->
  cget hi m - cget lo m + 1 < 2 ^ 31 ->
  find_split (S m) total lo hi = Some (Some (m, ceil_div (cget hi m - cget lo m + 1) total)).
Proof.
  intros Hb Hm Ht HE. cbn [find_split]. rewrite (u64_small (_ - _)), u64_small by lia.
  destruct (ceil_div_spec (cget hi m - cget lo m + 1) total ltac:(lia) Ht) as (H1 & H2 & H3).
  rewrite (proj2 (Z.ltb_lt _ _)), (proj2 (Z.leb_le _ _)) by lia. done.
Qed.

(** The request of a block: its part of the buffer of the caller. *)
Definition block_request (big : obj_descriptor) (buf : list byte) (b : bbox) (r : put_request) : Prop :=
  pr_odsc r = set_bb big b /\
  forall p k, in_box b p -> 0 <= k < size big -> cell_at b (size big) (pr_bytes r) p k = cell_at (bb big) (size big) buf p k.

(** A block that can be cut out of the object. *)
Record part_of (big : obj_descriptor) (b : bbox) : Prop := {
  pa_wf : wf_bbox b;
  pa_dims : num_dims b = num_dims (bb big);
  pa_sub : forall p, in_box b p -> in_box (bb big) p;
  pa_card : box_card b <= box_card (bb big)
}.

Lemma put_blocks_spec env send malloc fresh var_name big buf : buf_ok big buf ->
  obj_data_size big <= Z.of_nat (length fresh) -> (forall n, malloc n = true) -> (forall p, e_msg env p = true) -> 0 <= send ->
  forall boxes ptr l, l_dcg l = p_space -> Forall (part_of big) boxes ->
  exists l' reqs, put_blocks env send malloc ptr fresh l var_name big buf boxes = Some (l', reqs, 0) /\
    Forall2 (block_request big buf) boxes reqs.
Proof.
  intros Hb Hf Hm He Hs. induction boxes as [|b boxes IH]; intros ptr l Hl Hp; [by exists l, []|].
  apply list.Forall_cons in Hp as [[Hwf Hd Hsub Hc] Hp]. cbn [put_blocks]. unfold deref at 1. rewrite decide_True by done.
  cbn [mbind option_bind]. rewrite Hm. set (o := set_bb big b).
  assert (obj_data_size o <= obj_data_size big) as Hle.
  { destruct Hb as [W D S F L]. rewrite (buf_size big buf) by done. unfold obj_data_size. cbn [o set_bb size bb].
    rewrite bbox_volume_mod. pose proof (box_card_pos b Hwf). rewrite (u64_small (box_card b)), u64_small by nia. nia. }
  assert (buf_ok o (take (Z.to_nat (obj_data_size o)) fresh)) as Hbo.
  { destruct Hb as [W D S F L]. split; cbn [o set_bb bb size]; [done|by rewrite Hd|done|nia|].
    pose proof (u64_range (size o * bbox_volume (bb o))). fold (obj_data_size o) in *. rewrite length_take. lia. }
  destruct (obj_data_alloc_with_data_split_exact ptr fresh o buf big Hbo Hb Hd eq_refl) as (d' & Eo & _ & Hcell).
  { apply bbox_does_intersect_points; [done|apply Hb|done|]. exists (lb b). split; [by apply wf_lb_in_box|]. by apply Hsub, wf_lb_in_box. }
  rewrite Eo. cbn [mbind option_bind]. unfold dcg_obj_put. destruct (syncop_next _) as [d op]. rewrite He.
  rewrite (proj2 (Z.ltb_ge send 0)) by lia. cbn [put_done]. rewrite (proj2 (Z.ltb_ge (Z.of_nat op) 0)) by lia. cbn [Z.ltb Z.compare].
  set (l1 := set_sync_op _ _). destruct (IH (S ptr) l1 Hl Hp) as (l' & reqs & Er & Hreq). rewrite Er. cbn [mbind option_bind].
  do 2 eexists. split; [done|]. cbn [app]. constructor; [|done]. split; [done|]. intros p k Hin Hk. cbn [pr_bytes set_gdim data set_data].
  destruct (Hcell p k Hin Hk) as [H1 _]. apply H1. by apply Hsub.
Qed.

Section split_put.
Context (max_ndim : nat) (shmem_max_size : Z) (env : server_env) (send : Z) (malloc : Z -> bool) (ptr : nat) (fresh : list byte) (l : lib).
Context (var_name : string) (ver size ndim : Z) (lb ub : list Z) (buf : list byte) (big : obj_descriptor).

(** The object is larger than the bound; the transport and the allocator do
    not fail; the extent of the last dimension is an [int] and no block is
    empty. *)
Record splits (total bs : Z) : Prop := {
  sp_odsc : api_odsc var_name ver size ndim lb ub = Some big;
  sp_buf : buf_ok big buf;
  sp_init : l_dcg l = p_space;
  sp_ndim : ndim <= Z.of_nat max_ndim;
  sp_max : 0 < shmem_max_size < obj_data_size big;
  sp_total : total = obj_data_size big / shmem_max_size;
  sp_int : total < 2 ^ 31;
  sp_last : cget ub (Z.to_nat ndim - 1) < 2 ^ 63;
  sp_ext : cget ub (Z.to_nat ndim - 1) - cget lb (Z.to_nat ndim - 1) + 1 < 2 ^ 31;
  sp_bs : bs = ceil_div (cget ub (Z.to_nat ndim - 1) - cget lb (Z.to_nat ndim - 1) + 1) total;
  sp_full : (total - 1) * bs < cget ub (Z.to_nat ndim - 1) - cget lb (Z.to_nat ndim - 1) + 1;
  sp_fresh : obj_data_size big <= Z.of_nat (length fresh);
  sp_malloc : forall n, malloc n = true;
  sp_msg : forall p, e_msg env p = true;
  sp_send : 0 <= send
}.
End split_put.

(** C19: with SHMEM_OBJECTS a [dspaces_put] of an object above the size bound,
    whose blocks are all non-empty, sends the object in blocks: one request per
    block, every cell of the box of the caller is in the box of exactly one
    request, no request has another cell, and every byte a request carries for
    a cell is the byte of the caller's buffer.  [splits] has the conditions:
    the transport and the allocator do not fail, the extent of the last
    dimension fits an [int], and with [total] blocks of [bs] cells each the
    last one is not empty, [(total - 1) * bs] being less than the extent
    ([put_stops_at_empty_block] below is the other case). *)
Theorem dspaces_put_blocks_exact max_ndim shmem_max_size env send malloc ptr fresh l var_name ver size ndim lb ub buf big total bs :
  splits max_ndim shmem_max_size env send malloc fresh l var_name ver size ndim lb ub buf big total bs ->
  exists l' reqs,
    common_dspaces_put_shmem max_ndim shmem_max_size env send malloc ptr fresh l var_name ver size ndim lb ub buf = Some (l', reqs, 0) /\
    Z.of_nat (length reqs) = total /\
    (forall p, in_box (user_box ndim lb ub) p -> exists j, forall i, (exists r, reqs !! i = Some r /\ in_box (bb (pr_odsc r)) p) <-> i = j) /\
    (forall r p k, r ∈ reqs -> in_box (bb (pr_odsc r)) p -> 0 <= k < u64 size ->
       in_box (user_box ndim lb ub) p /\
       cell_at (bb (pr_odsc r)) (u64 size) (pr_bytes r) p k = cell_at (user_box ndim lb ub) (u64 size) buf p k).
Proof.
  intros [Ho Hb Hl Hnd Hmx Ht Hti Hl63 Hext Hbs Hfull Hf Hma Hms Hse]. pose proof (api_odsc_spec _ _ _ _ _ _ _ Ho) as Eo.
  assert (bb big = user_box ndim lb ub) as Ebb by (by rewrite Eo). pose proof Hb as [Hwf Hdm _ _ _].
  rewrite Ebb in Hwf, Hdm. cbn [user_box num_dims] in Hdm.
  assert (exists m, Z.to_nat ndim = S m) as [m Hm] by (exists (Z.to_nat ndim - 1)%nat; lia). rewrite Hm in *. cbn [Nat.sub] in *.
  rewrite Nat.sub_0_r in *.
  assert (S m <= length lb /\ S m <= length ub)%nat as [Hlo Hhi].
  { unfold api_odsc in Ho. destruct (user_coord ndim lb) eqn:E1; [|done]. destruct (user_coord ndim ub) eqn:E2; [|done].
    apply user_coord_some in E1, E2. lia. }
  unfold user_box in *. rewrite Hm in *.
  assert (0 < total) as Ht0 by (subst total; apply Z.div_str_pos; lia).
  pose proof (bounds_at lb ub m Hwf m ltac:(lia)) as Hbd.
  destruct (ceil_div_spec (cget ub m - cget lb m + 1) total ltac:(lia) Ht0) as (C1 & C2 & _). rewrite <- Hbs in C1, C2.
  assert (forall j, (j < Z.to_nat total)%nat -> Z.of_nat j * bs < cget ub m - cget lb m + 1) as Hj by (intros j Hj; nia).
  assert (Forall (part_of big) (map (block_box (S m) lb ub m bs) (seq 0 (Z.to_nat total)))) as Hpart.
  { apply list.Forall_fmap, list.Forall_forall. intros j [_ Hjt]%elem_of_seq. cbn in Hjt. specialize (Hj j Hjt). split; rewrite ?Ebb.
    - by apply blk_wf; try done; lia.
    - done.
    - intros p Hp. by eapply in_blk in Hp as [? _]; try done; lia.
    - by eapply blk_card; try done; lia. }
  destruct (put_blocks_spec env send malloc fresh var_name big buf Hb Hf Hma Hms Hse _ ptr l Hl Hpart) as (l' & reqs & Er & Hreq).
  exists l', reqs. split; [|split; [|split]].
  - unfold common_dspaces_put_shmem, is_dspaces_lib_init, is_ndim_within_bound, deref. rewrite Hl. rewrite bool_decide_false by done.
    rewrite (proj2 (Z.ltb_ge _ _) Hnd), decide_True by done. cbn [negb orb mbind option_bind]. rewrite Ho. cbn [mbind option_bind].
    rewrite (proj2 (Z.leb_gt _ _)) by lia. rewrite <- Ht, Hm. rewrite (proj2 (Z.leb_gt _ _)) by lia.
    rewrite find_split_last by lia. cbn [mbind option_bind]. rewrite <- Hbs, (proj2 (Z.ltb_lt _ _)) by lia. exact Er.
  - apply Forall2_length in Hreq. rewrite length_map, length_seq in Hreq. lia.
  - intros p Hp. exists (Z.to_nat ((cget p m - cget lb m) / bs)). intros i.
    assert (0 <= (cget p m - cget lb m) / bs < total) as Hq.
    { destruct Hp as [_ Hp]. specialize (Hp m ltac:(cbn; lia)). cbn in Hp. rewrite !cget_take in Hp by lia.
      split; [apply Z.div_pos; lia|]. apply Z.div_lt_upper_bound; nia. }
    split.
    + intros (r & Hr & Hin). destruct (Forall2_lookup_r _ _ _ _ _ Hreq Hr) as (b & Hb1 & (Eb & _)). rewrite Eb in Hin. cbn in Hin.
      apply list_lookup_fmap_Some in Hb1 as (j & -> & Hj1). apply lookup_seq in Hj1 as [-> Hlt]. cbn in *.
      apply in_blk in Hin as [_ Hin]; try done; [lia|lia|by apply Hj].
    + intros ->. set (j := Z.to_nat _). assert (j < Z.to_nat total)%nat as Hjt by (unfold j; lia).
      destruct (Forall2_lookup_l _ _ _ j (block_box (S m) lb ub m bs j) Hreq) as (r & Hr & (Er1 & _)).
      { apply list_lookup_fmap_Some. exists j. split; [done|]. by apply lookup_seq. }
      exists r. split; [done|]. rewrite Er1. cbn. apply in_blk; try done; [lia|by apply Hj|]. split; [done|]. unfold j. lia.
  - intros r p k [i Hi]%list_elem_of_lookup Hin Hk. destruct (Forall2_lookup_r _ _ _ _ _ Hreq Hi) as (b & Hb1 & (Eb & Hcell)).
    rewrite list.Forall_forall in Hpart. destruct (Hpart b) as [_ _ Hsub _]; [by eapply list_elem_of_lookup_2|].
    rewrite Eb in Hin |- *. cbn [set_bb bb] in *. rewrite Ebb in *. split; [by apply Hsub|].
    rewrite Eo in Hcell. by apply Hcell.
Qed.

Definition demo_nine : list byte := demo_a_bytes ++ demo_b_bytes ++ [Byte.x2a].

Lemma dspaces_put_blocks_exact_witness : exists l' reqs,
  common_dspaces_put_shmem 3 4 demo_env 0 (fun _ => true) 9 (replicate 9 Byte.x00) (demo_lib 7) "temp" 0 1 1 [0] [8] demo_nine
    = Some (l', reqs, 0) /\ Z.of_nat (length reqs) = 2.
Proof.
  destruct (dspaces_put_blocks_exact 3 4 demo_env 0 (fun _ => true) 9 (replicate 9 Byte.x00) (demo_lib 7) "temp" 0 1 1 [0] [8] demo_nine
    (mk_odsc "temp" column_major (-1) 0 (mk_bbox 1 [0] [8]) 1) 2 5) as (l' & reqs & E & Hn & _).
  - split; try done; try (by vm_compute).
    constructor; [apply one_dim_wf; lia|cbn; lia|cbn; lia|by vm_compute|by vm_compute].
  - exists l', reqs. split; [exact E|exact Hn].
Defined.

(** With four blocks of a dimension of five cells the fourth one is empty: its
    upper bound is below the lower one, its size wraps around, and the put
    fails after it has sent the first three. *)
Lemma put_stops_at_empty_block : exists l' reqs,
  common_dspaces_put_shmem 3 5 demo_env 0 (fun n => n <? 2 ^ 40) 9 (replicate 20 Byte.x00) (demo_lib 7) "temp" 0 4 1 [0] [4]
    (replicate 20 Byte.x07) = Some (l', reqs, - ENOMEM) /\ length reqs = 3%nat /\
  bb (set_bb demo_A (block_box 1 [0] [4] 0 2 3)) = mk_bbox 1 [6] [4].
Proof. do 2 eexists. split; [vm_compute; reflexivity|]. split; reflexivity. Qed.

(** The number of blocks is rounded down: an object between one and two times
    the bound is put as one block, above the bound. *)
Lemma block_above_bound : exists l' r,
  common_dspaces_put_shmem 3 5 demo_env 0 (fun _ => true) 9 (replicate 9 Byte.x00) (demo_lib 7) "temp" 0 1 1 [0] [8] demo_nine
    = Some (l', [r], 0) /\ obj_data_size (pr_odsc r) = 9.
Proof. do 2 eexists. split; [vm_compute; reflexivity|]. reflexivity. Qed.

(** ** Removal from all servers *)

Lemma remove_loop_all msg send nm ver peers : (forall p, msg p = true) -> (forall p, 0 <= send p) -> forall err,
  remove_loop msg send nm ver err peers = (map (fun p => mk_rreq p nm (s32 ver)) peers, 0).
Proof.
  intros Hm Hs. induction peers as [|p peers IH]; intros err; [done|]. cbn. rewrite Hm, (proj2 (Z.ltb_ge _ _)), IH by done. done.
Qed.

Lemma u32_s32 x : u32 (s32 x) = u32 x.
Proof. unfold u32, s32. rewrite Zminus_mod_idemp_l. f_equal. lia. Qed.

(** C20: [dspaces_remove] of a variable reaches every server once, and after
    the servers have handled the requests no server stores an object of the
    name and version; every other object is still there and the storages are
    well formed. *)
Theorem dspaces_remove_everywhere msg send l dc nm ver (ds : list ds_gspace) :
  l_dcg l = p_space -> sp_dcg (l_space l) = dc -> num_sp dc = Z.of_nat (length ds) -> (String.length nm < 64)%nat ->
  (forall p, msg p = true) -> (forall p, 0 <= send p) -> (forall d, d ∈ ds -> ls_inv (dsg_ls d)) ->
  exists rs, common_dspaces_remove msg send l nm ver = Some (rs, returns 0) /\ length rs = length ds /\
    forall k d, ds !! k = Some d -> exists r ls', rs !! k = Some r /\ rm_peer r = Z.of_nat k /\
      dsgrpc_remove_service d (rm_name r) (rm_ver r) = (set_ls d ls', 0) /\ ls_inv ls' /\
      forall x, Storage.stored ls' x <-> Storage.stored (dsg_ls d) x /\ ~ named_by nm ver x.
Proof.
  intros Hl Hd Hn Hlen Hm Hs Hi. unfold common_dspaces_remove, is_dspaces_lib_init, deref, dcg_remove, all_servers.
  rewrite Hl, bool_decide_false, decide_True by done. cbn [negb mbind option_bind].
  rewrite (proj2 (Nat.ltb_lt _ _) Hlen), remove_loop_all by done. cbn [mbind option_bind Z.ltb Z.compare].
  eexists. split; [done|]. rewrite Hd, Hn, Nat2Z.id. split; [by rewrite !length_map, length_seq|].
  intros k d Hk. destruct (dsgrpc_remove_service_exact d nm (s32 ver) (Hi d ltac:(by eapply list_elem_of_lookup_2))) as (ls' & E & I & H).
  exists (mk_rreq (Z.of_nat k) nm (s32 ver)), ls'. split; [|split; [done|]].
  - rewrite map_map. apply list_lookup_fmap_Some. exists k. split; [done|]. apply lookup_seq. split; [done|]. by eapply lookup_lt_Some.
  - split; [exact E|]. split; [done|]. intros x. rewrite H. unfold named_by. by rewrite u32_s32.
Qed.

Lemma demo_inv_A : ls_inv (ls_add_obj (ls_alloc 2) obj_A).
Proof. apply ls_add_obj_inv; [apply ls_alloc_inv; lia|cbn; lia|]. intros x Hx. by apply ls_alloc_empty in Hx; [|lia]. Qed.

Lemma dspaces_remove_everywhere_witness : exists r ls',
  common_dspaces_remove (fun _ => true) (fun _ => 0) (mk_lib p_space p_space (mk_space (mk_dcg 6 1 0 [] 0 [] 0 [] 0 (Some []) 0 []) [] demo_gdim
      true 1 1 demo_domain 1 2 5 3) d_null 0 1 None) "temp" 0 = Some ([r], returns 0) /\
  dsgrpc_remove_service (set_ls (demo_server 0) (ls_add_obj (ls_alloc 2) obj_A)) (rm_name r) (rm_ver r) = (set_ls (demo_server 0) ls', 0) /\
  ~ Storage.stored ls' obj_A.
Proof.
  set (d0 := set_ls (demo_server 0) (ls_add_obj (ls_alloc 2) obj_A)). set (l := mk_lib _ _ _ _ _ _ _).
  destruct (dspaces_remove_everywhere (fun _ => true) (fun _ => 0) l (sp_dcg (l_space l)) "temp" 0 [d0]) as (rs & E & Hn & H);
    try done; [cbn; lia|intros d ->%list_elem_of_singleton; apply demo_inv_A|].
  destruct (H 0%nat d0 eq_refl) as (r & ls' & Hr & _ & Es & _ & Hx).
  destruct rs as [|r0 [|? ?]]; try done. injection Hr as ->. exists r, ls'. split; [exact E|]. split; [exact Es|].
  intros Hs. apply Hx in Hs as [_ Hno]. by apply Hno.
Defined.

(** A message that cannot be allocated for a later server: the call returns 0
    and only the servers before it are told. *)
Lemma remove_reports_success : exists r,
  common_dspaces_remove (fun p => p =? 0) (fun _ => 0) (demo_lib 7) "temp" 0 = Some ([r], returns 0) /\ rm_peer r = 0 /\
  num_sp (sp_dcg (l_space (demo_lib 7))) = 2.
Proof. eexists. split; [vm_compute; reflexivity|]. split; reflexivity. Qed.

(** ** The most recent put *)

Lemma sync_slot_kept done d n : sync_next (fold_left obj_put_done done d) = sync_next d /\
  length (sync_opid (fold_left obj_put_done done d)) = length (sync_opid d) /\
  ((n < length (sync_opid d))%nat -> syncop_ref (fold_left obj_put_done done d) n = if decide (n ∈ done) then 1 else syncop_ref d n).
Proof.
  revert d. induction done as [|k done IH]; intros d; [done|]. cbn [fold_left]. destruct (IH (obj_put_done d k)) as (H1 & H2 & H3).
  split; [by rewrite H1|]. split; [rewrite H2; cbn; by rewrite length_insert|]. intros Hn. rewrite H3 by (cbn; by rewrite length_insert).
  assert (syncop_ref (obj_put_done d k) n = if decide (n = k) then 1 else syncop_ref d n) as Hs.
  { unfold syncop_ref, cget. cbn. rewrite !nth_lookup. destruct (decide (n = k)) as [->|]; [by rewrite list_lookup_insert_eq|by rewrite list_lookup_insert_ne]. }
  rewrite Hs. repeat case_decide; try done; exfalso; match goal with H : ~ n ∈ _ :: _ |- _ => apply H; set_unfold; tauto
    | H : n ∈ _ :: _ |- _ => apply elem_of_cons in H as [?|?]; tauto end.
Qed.

(** The rounds up to the first that fails. *)
Fixpoint live (rounds : list (Z * list nat)) : list nat :=
  match rounds with
  | [] => []
  | (err, done) :: rounds => if err <? 0 then [] else done ++ live rounds
  end.

Lemma sync_spec rounds : forall d n, (n < length (sync_opid d))%nat -> syncop_ref d n <> 1 ->
  snd (dcg_obj_sync d n rounds) = Some 0 <-> n ∈ live rounds.
Proof.
  induction rounds as [|[err done] rounds IH]; intros d n Hn Hs; cbn [dcg_obj_sync live]; rewrite (proj2 (Z.eqb_neq _ _) Hs).
  - cbn. split; [done|]. intros H. by apply not_elem_of_nil in H.
  - destruct (Z.ltb_spec err 0).
    + cbn [snd]. split; [intros [=]; lia|]. intros H0. by apply not_elem_of_nil in H0.
    + destruct (sync_slot_kept done d n) as (_ & Hl & Hr). specialize (Hr Hn). rewrite elem_of_app. destruct (decide (n ∈ done)) as [Hin|Hin].
      * split; [by left|]. intros _. destruct rounds as [|[e dn] rounds]; cbn [dcg_obj_sync]; by rewrite Hr.
      * rewrite IH; [|by rewrite Hl|by rewrite Hr]. tauto.
Qed.

(** C23: [dspaces_put_sync] after a [dspaces_put] returns 0 exactly when the
    transfer of that put has ended in a round of event processing before any
    round fails; it returns no other time with 0, whatever else completes.
    The slot of the operation is the next of the 4095 slots, which is marked
    as busy. *)
Theorem dspaces_put_sync_exact max_ndim env send malloc ptr fresh l dc var_name ver size ndim lb ub buf l1 reqs rounds :
  l_dcg l = p_space -> sp_dcg (l_space l) = dc -> length (sync_opid dc) = num_op -> (sync_next dc < num_op)%nat ->
  common_dspaces_put max_ndim env send malloc ptr fresh l var_name ver size ndim lb ub buf = Some (l1, reqs, 0) -> reqs <> [] ->
  l_sync_op_id l1 = Z.of_nat (sync_next dc) /\
  exists l2 r, common_dspaces_put_sync rounds l1 = Some (l2, r) /\ (r = returns 0 <-> sync_next dc ∈ live rounds).
Proof.
  intros Hl Hdc Hlen Hnext. unfold common_dspaces_put, is_dspaces_lib_init, deref. rewrite Hl, bool_decide_false, decide_True by done.
  cbn [negb orb mbind option_bind]. destruct (negb _); [intros [= <- <-]; done|]. destruct (api_odsc _ _ _ _ _ _) as [o|]; [|done].
  cbn [mbind option_bind]. destruct (malloc _); [|intros [= <- <-]; done].
  destruct (obj_data_alloc_with_data _ _ _ _) as [od|]; [|done]. cbn [mbind option_bind]. unfold put_done, dcg_obj_put, syncop_next. rewrite Hdc.
  generalize (((sync_next dc + 1) mod num_op)%nat). intros nx.
  destruct (e_msg _ _); [|done]. destruct (send <? 0) eqn:Es; [cbn; rewrite Es; intros [= <- <-]; done|].
  rewrite (proj2 (Z.ltb_ge (Z.of_nat _) 0)) by lia. intros [= <- <-] _. split; [done|].
  unfold common_dspaces_put_sync, is_dspaces_lib_init, deref. cbn [set_sync_op set_client set_space l_dcg l_space]. rewrite Hl.
  rewrite bool_decide_false, decide_True by done. cbn [negb mbind option_bind l_sync_op_id set_sync_op sp_dcg set_dcg].
  rewrite Nat2Z.id. set (d := dcg_inc_pending _).
  pose proof (sync_spec rounds d (sync_next dc)) as H. destruct (dcg_obj_sync d (sync_next dc) rounds) as [d2 r].
  do 2 eexists. split; [done|]. rewrite <- H.
  - cbn [snd]. destruct r; [|done]. split; [by intros [= ->]|by intros [= ->]].
  - unfold d. cbn. rewrite length_insert. lia.
  - unfold d, syncop_ref, cget. cbn. rewrite nth_lookup, list_lookup_insert_eq by lia. done.
Qed.

Lemma dspaces_put_sync_exact_witness : exists l1 l2 r,
  common_dspaces_put 3 demo_env 0 (fun _ => true) 9 demo_fresh (demo_lib 7) "temp" 0 1 1 [5] [7] demo_b_bytes = Some (l1, [demo_req_B], 0) /\
  common_dspaces_put_sync [(0, [3%nat]); (0, [0%nat])] l1 = Some (l2, r) /\ r = returns 0.
Proof.
  destruct (dspaces_put_sync_exact 3 demo_env 0 (fun _ => true) 9 demo_fresh (demo_lib 7) (sp_dcg (demo_space 7)) "temp" 0 1 1 [5] [7] demo_b_bytes
    demo_put_B.1.1 [demo_req_B] [(0, [3%nat]); (0, [0%nat])]) as (_ & l2 & r & E & H); try done; [vm_compute; lia|].
  exists demo_put_B.1.1, l2, r. split; [reflexivity|]. split; [exact E|]. apply H. apply list_elem_of_further, list_elem_of_here.
Defined.

(** ** Start, end and guards *)

(** A library that was ended cannot be started again: after
    [dspaces_finalize] the pointer of dc_gspace.c still has the address of the
    freed space, [dcg_alloc] returns it, and the next [dspaces_init] reads
    freed memory, whatever the servers and the transport do. *)
Theorem restart_uses_freed_space drained l :
  l_dcg l = p_space -> l_static l = p_space -> num_pending (sp_dcg (l_space l)) = 0 \/ drained = true ->
  exists l', common_dspaces_finalize drained l = Some (l', returns tt) /\ is_dspaces_lib_init l' = false /\
    forall ok s net dimes, common_dspaces_init ok s net dimes l' = None.
Proof.
  intros Hl Hs Hp. unfold common_dspaces_finalize, is_dspaces_lib_init at 1. rewrite Hl, bool_decide_false by done. cbn [negb].
  set (l1 := match l_dimes l with d_null => l | _ => _ end).
  assert (l_dcg l1 = p_space /\ l_static l1 = p_space /\ l_space l1 = l_space l) as (H1 & H2 & H3) by (by unfold l1; destruct (l_dimes l)).
  unfold dcg_free, deref. rewrite H1, H2, !decide_True by done. cbn [mbind option_bind]. rewrite H3.
  assert ((num_pending (sp_dcg (l_space l)) =? 0) || drained = true) as -> by (destruct Hp as [->| ->]; [done|apply orb_true_r]).
  cbn [mbind option_bind]. eexists. split; [done|]. split; [done|]. done.
Qed.

Lemma restart_uses_freed_space_witness : exists l', common_dspaces_finalize false (demo_lib 7) = Some (l', returns tt) /\
  common_dspaces_init true (demo_space 7) (mk_inet true 0 (Some (demo_conf, 2%nat)) 0) None l' = None.
Proof.
  destruct (restart_uses_freed_space false (demo_lib 7)) as (l' & E & _ & H); [done|done|by left|]. exists l'. split; [exact E|apply H].
Defined.

(** The first start fails to get the information of the space; the second one
    returns 0 without it. *)
Lemma failed_start_forgotten (net : info_net) s : in_msg net = false -> sp_f_ss_info s = false -> exists l,
  common_dspaces_init true s net None (mk_lib p_null p_null s d_null 0 2 None) = Some (l, returns (- ENOMEM)) /\
  common_dspaces_init true s net None l = Some (l, returns 0) /\ sp_f_ss_info (l_space l) = false.
Proof.
  intros Hm Hf. eexists. split; [unfold common_dspaces_init; cbn; unfold dcg_ss_info; cbn; by rewrite Hf, Hm|]. split; [done|].
  cbn. done.
Qed.

(** The calls before the start, and with more dimensions than the library
    is built for: no message is sent, nothing changes, and get, put and
    [put_sync] return -EINVAL; [dspaces_remove] returns 0, the information
    functions -1.  [dspaces_kill] and the metadata calls have no guard: they
    use the null pointer. *)
Theorem calls_refused max_ndim ok qok ptr pt fresh net env send malloc l var_name ver size ndim lb ub buf rounds msg sendz mnet :
  l_dcg l = p_null \/ Z.of_nat max_ndim < ndim ->
  common_dspaces_get max_ndim ok qok ptr pt fresh net l var_name ver size ndim lb ub buf = Some (l, returns (- EINVAL, buf)) /\
  common_dspaces_put max_ndim env send malloc ptr fresh l var_name ver size ndim lb ub buf = Some (l, [], - EINVAL) /\
  common_dspaces_define_gdim max_ndim l var_name ndim lb = Some l /\
  (l_dcg l = p_null ->
     common_dspaces_put_sync rounds l = Some (l, returns (- EINVAL)) /\ common_dspaces_remove msg sendz l var_name ver = Some ([], returns 0) /\
     common_dspaces_rank l = Some (-1) /\ common_dspaces_peers l = Some (-1) /\ common_dspaces_servers l = Some (-1) /\
     common_dspaces_finalize ok l = Some (l, returns tt) /\
     common_dspaces_kill msg sendz l = None /\ common_dspaces_get_next_meta mnet l ver var_name = None).
Proof.
  intros H. assert (negb (is_dspaces_lib_init l) || negb (is_ndim_within_bound max_ndim ndim) = true) as Hg.
  { unfold is_dspaces_lib_init, is_ndim_within_bound. destruct H as [->|H]; [by rewrite bool_decide_true|].
    rewrite (proj2 (Z.ltb_lt _ _) H). apply orb_true_r. }
  unfold common_dspaces_get, common_dspaces_put, common_dspaces_define_gdim. rewrite Hg. repeat (split; [done|]).
  intros Hn. assert (is_dspaces_lib_init l = false) as Hi by (unfold is_dspaces_lib_init; by rewrite Hn, bool_decide_true).
  assert (deref l = None) as Hd by (unfold deref; by rewrite Hn, decide_False).
  unfold common_dspaces_put_sync, common_dspaces_remove, common_dspaces_finalize, common_dspaces_rank, common_dspaces_peers,
    common_dspaces_servers, common_read, common_dspaces_kill, common_dspaces_get_next_meta. rewrite Hi, Hd. done.
Qed.

Lemma calls_refused_witness : common_dspaces_put 3 demo_env 0 (fun _ => true) 9 demo_fresh (demo_lib 7) "temp" 0 1 4 [0; 0; 0; 0] [1; 1; 1; 1]
  demo_fresh = Some (demo_lib 7, [], - EINVAL).
Proof.
  apply (calls_refused 3 true true 0 0 [] (servers_net demo_env [] 0 [] (fun m => m) [] 0) demo_env 0 (fun _ => true) (demo_lib 7) "temp" 0 1 4
    [0; 0; 0; 0] [1; 1; 1; 1] demo_fresh [] (fun _ => true) (fun _ => 0) (mk_mnet (fun _ => true) (fun _ => 0) (fun _ _ _ => None) (fun _ _ _ => None) (fun _ => 0))).
  right. lia.
Defined.

(** ** The metadata of a stream *)

(** The answers of server 0, in the state [d]. *)
Definition server_meta_net (env : server_env) (d : ds_gspace) (cid : Z) : meta_net :=
  mk_mnet (fun _ => true) (fun _ => 0)
    (fun latest nm ver =>
       match (if latest : bool then dsgrpc_obj_get_latest_meta env d cid nm ver else Some (dsgrpc_obj_get_next_meta env d cid nm ver)) with
       | Some (_, [(_, meta_ints len v)], _) => Some (len, v)
       | _ => None
       end)
    (fun nm ver len =>
       match dsgrpc_obj_get_var_meta env d cid nm ver len with
       | Some (_, [(_, obj_bytes b)], _) => Some b
       | _ => None
       end)
    (fun _ => 0).

(** The objects of a stream as its writer puts them: one dimension from 0, one
    byte per cell, one object per version. *)
Definition stream_obj (nm : string) (x : obj_data) : Prop := name (obj_desc x) = String.append "VARMETA@" nm.
Record stream_ok (nm : string) (ls : ss_storage) : Prop := {
  so_inv : ls_inv ls;
  so_ver : forall x, Storage.stored ls x -> version (obj_desc x) < INT_MAX;
  so_box : forall x, Storage.stored ls x -> stream_obj nm x -> exists n, 0 <= n < 2 ^ 31 - 1 /\
    bb (obj_desc x) = mk_bbox 1 [0] [n] /\ Z.of_nat (length (data x)) = n + 1;
  so_one : forall x y, Storage.stored ls x -> Storage.stored ls y -> stream_obj nm x -> stream_obj nm y ->
    version (obj_desc x) = version (obj_desc y) -> x = y
}.

(** C24: [dspaces_get_next_meta] returns the metadata that were put next: when
    the server has a version of the stream above the given one, the call
    returns the whole buffer of the least such version, with its length and
    its version; NULL only when there is none; and it does not wait for
    ever. *)
Theorem next_meta_exact fuel env d cid l nm ver : env_good fuel env -> l_dcg l = p_space -> (String.length nm < 128)%nat ->
  stream_ok nm (dsg_ls d) -> 0 <= ver -> ver + size_hash (dsg_ls d) < 2 ^ 31 ->
  exists r, common_dspaces_get_next_meta (server_meta_net env d cid) l ver nm = Some r /\
  match r with
  | meta_buffer bytes len v => exists x, Storage.stored (dsg_ls d) x /\ stream_obj nm x /\ version (obj_desc x) = v /\ ver < v /\
      bytes = data x /\ len = Z.of_nat (length bytes) /\
      forall y, Storage.stored (dsg_ls d) y -> stream_obj nm y -> ver < version (obj_desc y) -> v <= version (obj_desc y)
  | meta_null => forall y, Storage.stored (dsg_ls d) y -> stream_obj nm y -> version (obj_desc y) <= ver
  | meta_waits => False
  end.
Proof.
  intros He Hl Hnm [I Hver Hbox Hone] Hv Hsz.
  assert (0 < size_hash (dsg_ls d)) as Hpos by (destruct I; lia).
  unfold common_dspaces_get_next_meta, deref. rewrite Hl, decide_True by done. cbn [mbind option_bind].
  unfold dcg_obj_get_meta, dcg_obj_get_nvars, dcg_obj_get_varBuffer, meta_post, meta_wait.
  cbn [server_meta_net mn_msg mn_post mn_ints mn_bytes mn_proc]. rewrite (proj2 (Nat.ltb_lt _ _) Hnm). cbn [mbind option_bind Z.ltb Z.compare].
  unfold dsgrpc_obj_get_next_meta. rewrite (send_good fuel) by done.
  rewrite (s32_small ver) by lia.
  pose proof (ls_find_next_least (dsg_ls d) (meta_odsc nm ver) I) as Hn.
  assert (version (meta_odsc nm ver) = ver) as Ev by (cbn; unfold u32; apply Z.mod_small; lia). rewrite Ev in Hn.
  specialize (Hn Hv ltac:(lia) Hver). destruct (ls_find_next _ _) as [x|]; cbn [meta_reply].
  - destruct Hn as (Hx & [Hxn Hxv] & Hleast). rewrite Ev in Hxv. destruct (Hbox x Hx Hxn) as (n & Hn & Hbb & Hlen). pose proof (Hver x Hx) as Hxm.
    assert (0 <= version (obj_desc x) < 2 ^ 31) as Hxr by (unfold INT_MAX in Hxm; lia).
    assert (cget (ub (bb (obj_desc x))) 0 = n) as -> by (by rewrite Hbb).
    rewrite (u64_small (n + 1)), !s32_small by lia.
    rewrite (proj2 (Z.eqb_neq _ _)), (proj2 (Z.ltb_ge _ _)) by lia.
    unfold dsgrpc_obj_get_var_meta. set (q := meta_odsc nm (version (obj_desc x))).
    assert (version q = version (obj_desc x)) as Evq by (cbn; unfold u32; apply Z.mod_small; lia).
    assert (obj_desc_equals_intersect q (obj_desc x) = true) as Hqx.
    { unfold obj_desc_equals_intersect. rewrite Evq, Z.eqb_refl, Hxn. unfold streq. cbn [q meta_odsc name]. rewrite String.eqb_refl. cbn [andb].
      rewrite Hbb. apply bbox_does_intersect_points; [apply one_dim_wf; lia..|done|].
      exists [0]. split; apply in_one_dim; exists 0; (split; [done|lia]). }
    pose proof (ls_find_spec (dsg_ls d) q I) as Hfs. destruct (ls_find (dsg_ls d) q) as [y|]; [|by rewrite Hfs in Hqx].
    destruct Hfs as [Hy Hqy]. unfold obj_desc_equals_intersect in Hqy. zbool.
    assert (y = x) as ->.
    { apply Hone; try done; [|congruence]. unfold stream_obj. by match goal with H : streq _ _ = true |- _ => apply streq_spec in H as <- end. }
    rewrite (proj2 (Z.leb_le _ _)), (send_good fuel) by (done || lia).
    eexists. split; [reflexivity|]. exists x. rewrite take_ge by lia. split; [done|]. split; [done|]. split; [done|]. split; [done|].
    split; [done|]. split; [lia|]. intros z Hz Hzn Hzv. apply Hleast; [done|]. split; [done|]. by rewrite Ev.
  - cbn [Z.eqb]. eexists. split; [reflexivity|]. cbn. intros y Hy Hyn. destruct (Z.le_gt_cases (version (obj_desc y)) ver); [done|].
    exfalso. apply (Hn y Hy). split; [done|]. rewrite Ev. lia.
Qed.

Definition demo_meta : obj_data :=
  mk_od 4 (mk_odsc "VARMETA@run" column_major 0 3 (mk_bbox 1 [0] [2]) 1) demo_gdim demo_b_bytes 0 false.
Definition demo_meta_ls : ss_storage := ls_add_obj (ls_alloc 2) demo_meta.

Lemma demo_meta_stored x : Storage.stored demo_meta_ls x -> x = demo_meta.
Proof. intros Hx. vm_compute in Hx. by apply list_elem_of_singleton in Hx. Qed.

Lemma next_meta_exact_witness : exists bytes len v,
  common_dspaces_get_next_meta (server_meta_net demo_env (set_ls (demo_server 0) demo_meta_ls) 6) (demo_lib 6) 1 "run"
    = Some (meta_buffer bytes len v) /\ v = 3 /\ bytes = demo_b_bytes.
Proof.
  destruct (next_meta_exact 16 demo_env (set_ls (demo_server 0) demo_meta_ls) 6 (demo_lib 6) "run" 1) as (r & E & H).
  - apply demo_env_good.
  - done.
  - cbn. lia.
  - split; cbn [dsg_ls set_ls].
    + apply ls_add_obj_inv; [apply ls_alloc_inv; lia|cbn; lia|]. intros x Hx. by apply ls_alloc_empty in Hx; [|lia].
    + intros x ->%demo_meta_stored. by vm_compute.
    + intros x ->%demo_meta_stored _. exists 2. split; [lia|]. by split.
    + intros x y ->%demo_meta_stored ->%demo_meta_stored. done.
  - lia.
  - by vm_compute.
  - destruct r as [bytes len v| |]; [|exfalso|done].
    + destruct H as (x & ->%demo_meta_stored & _ & Hv & _ & Hb & _). exists bytes, len, v. split; [exact E|]. split; [by rewrite <- Hv|exact Hb].
    + specialize (H demo_meta ltac:(vm_compute; apply list_elem_of_here) eq_refl). by vm_compute in H.
Defined.
