(* ===== verification/Membership.v ===== *)
(** * Start-up and membership (dart/ib/ds_base_ib.c, dart/ib/dc_base_ib.c)

    A process knows the others by a list of peers, each with its address, the
    id of the process and the id of its application (0 for the servers).  The
    servers start first: every server connects to the first one, the master,
    which numbers them 0, 1, ... and sends the list to all.  Then applications
    come and go.  The first process of an application, its master, collects
    the addresses of the others, connects to the master server, which reserves
    a range of ids, and sends it the entries of the application; the master
    server adds them, tells the other servers and answers with the entries the
    application does not have; the master of the application passes the list
    on.  When an application leaves, its entries are removed.

    This file models the records and the operations; [MembershipSystem] runs
    them together.  A peer is its [ptlid_map]: connections, request lists and
    credits are those of [RpcIb].  Lists of peers and of applications grow at
    the head, as [list_add] does.  A message with data carries a buffer of
    cells, [None] where nothing was written; a handler reads as many cells as
    it computes, and [None] is the result of a handler that writes past the
    buffer, reads past it or reads an unset cell or variable, or follows a
    NULL pointer.  The read of the data and its completion follow the request
    at once.  Allocation, sends and reads can fail ([net_env]).  Ids and counters
    are integers: no run of interest has 2^31 processes. *)

From S2P Require Import Prelude Barrier.

#[local] Open Scope Z_scope.

(** ** Data *)

Record sockaddr_in := mk_addr { sin_addr : Z; sin_port : Z }.

Record ptlid_map := mk_pm { pm_address : sockaddr_in; pm_id : Z; pm_appid : Z }.

#[export] Instance sockaddr_in_eq_dec : EqDecision sockaddr_in.
Proof. solve_decision. Defined.
#[export] Instance ptlid_map_eq_dec : EqDecision ptlid_map.
Proof. solve_decision. Defined.

Definition set_id (i : Z) (pm : ptlid_map) : ptlid_map := mk_pm (pm_address pm) i (pm_appid pm).

(** The comparison of [sin_addr.s_addr] and [sin_port]. *)
Definition same_address (a b : sockaddr_in) : bool :=
  (sin_addr a =? sin_addr b) && (sin_port a =? sin_port b).

Record app_info := mk_app {
  app_id : Z; app_min_id : Z; app_num_peers : Z; app_cnt_peers : Z; sent_announce : bool }.

(** The header of an announcement; the fields its receivers use. *)
Record hdr_register := mk_hreg { hr_pm_cp : ptlid_map; hr_num_cp : Z; hr_num_sp : Z }.

Record con_param := mk_con { cn_pm_sp : ptlid_map; cn_pm_cp : ptlid_map; cn_num_cp : Z; cn_type : Z }.

Definition cells := list (option ptlid_map).

Inductive msg :=
  | sp_announce_cp (hreg : hdr_register) (data : cells)
  | sp_announce_app (hreg : hdr_register) (data : cells)
  | cp_announce_cp (hreg : hdr_register) (data : cells)
  | cp_disseminate_cs (id : Z) (data : cells)
  | cn_unregister (id : Z)
  | cn_unregister_cp (id : Z)
  | cn_unregister_app (appid : Z).

(** The counters of [struct dart_server] and [rpc_s->num_peers]. *)
Record counters := mk_cnt {
  peer_size : Z; num_cp : Z; size_cp : Z; rpc_num_peers : Z; current_client_size : Z }.

(** [sp_rank_cnt] and [cp_rank_cnt] are the static variables of the file and
    [lst_id_min] the field [id_min] of the header of [ds_master_listen],
    which lives as long as the thread. *)
Record dart_server := mk_ds {
  ds_peers : list ptlid_map; ds_apps : list app_info; ds_cnt : counters;
  num_sp : Z; size_sp : Z; ds_ptlmap : ptlid_map; ds_self : option ptlid_map; ds_f_reg : bool;
  s_connected : Z; sp_rank_cnt : Z; cp_rank_cnt : Z; lst_id_min : option Z }.

Record dart_client := mk_dc {
  dc_peers : list ptlid_map; dc_peer_size : Z; dc_num_sp : Z; dc_num_cp : Z;
  dc_ptlmap : ptlid_map; dc_self : option ptlid_map; cp_min_rank : Z; app_minid : Z; dc_num_peers : Z;
  num_unreg : Z; dc_f_reg : bool; dc_f_reg_all : bool; dc_rank_cnt : Z; deferred : list (hdr_register * cells) }.

Definition set_peers (l : list ptlid_map) (d : dart_server) : dart_server :=
  mk_ds l (ds_apps d) (ds_cnt d) (num_sp d) (size_sp d) (ds_ptlmap d) (ds_self d) (ds_f_reg d) (s_connected d)
    (sp_rank_cnt d) (cp_rank_cnt d) (lst_id_min d).
Definition set_apps (l : list app_info) (d : dart_server) : dart_server :=
  mk_ds (ds_peers d) l (ds_cnt d) (num_sp d) (size_sp d) (ds_ptlmap d) (ds_self d) (ds_f_reg d) (s_connected d)
    (sp_rank_cnt d) (cp_rank_cnt d) (lst_id_min d).
Definition set_cnt (c : counters) (d : dart_server) : dart_server :=
  mk_ds (ds_peers d) (ds_apps d) c (num_sp d) (size_sp d) (ds_ptlmap d) (ds_self d) (ds_f_reg d) (s_connected d)
    (sp_rank_cnt d) (cp_rank_cnt d) (lst_id_min d).
Definition set_ranks (sc sp cp : Z) (m : option Z) (d : dart_server) : dart_server :=
  mk_ds (ds_peers d) (ds_apps d) (ds_cnt d) (num_sp d) (size_sp d) (ds_ptlmap d) (ds_self d) (ds_f_reg d) sc sp cp m.
Definition set_reg (me : ptlid_map) (self : option ptlid_map) (f : bool) (d : dart_server) : dart_server :=
  mk_ds (ds_peers d) (ds_apps d) (ds_cnt d) (num_sp d) (size_sp d) me self f (s_connected d)
    (sp_rank_cnt d) (cp_rank_cnt d) (lst_id_min d).

Definition set_dc_peers (l : list ptlid_map) (d : dart_client) : dart_client :=
  mk_dc l (dc_peer_size d) (dc_num_sp d) (dc_num_cp d) (dc_ptlmap d) (dc_self d) (cp_min_rank d) (app_minid d)
    (dc_num_peers d) (num_unreg d) (dc_f_reg d) (dc_f_reg_all d) (dc_rank_cnt d) (deferred d).
Definition set_dc_nums (sp cp : Z) (d : dart_client) : dart_client :=
  mk_dc (dc_peers d) (dc_peer_size d) sp cp (dc_ptlmap d) (dc_self d) (cp_min_rank d) (app_minid d)
    (dc_num_peers d) (num_unreg d) (dc_f_reg d) (dc_f_reg_all d) (dc_rank_cnt d) (deferred d).
Definition set_dc_me (me : ptlid_map) (self : option ptlid_map) (d : dart_client) : dart_client :=
  mk_dc (dc_peers d) (dc_peer_size d) (dc_num_sp d) (dc_num_cp d) me self (cp_min_rank d) (app_minid d)
    (dc_num_peers d) (num_unreg d) (dc_f_reg d) (dc_f_reg_all d) (dc_rank_cnt d) (deferred d).
Definition set_dc_min (rank minid np : Z) (d : dart_client) : dart_client :=
  mk_dc (dc_peers d) (dc_peer_size d) (dc_num_sp d) (dc_num_cp d) (dc_ptlmap d) (dc_self d) rank minid
    np (num_unreg d) (dc_f_reg d) (dc_f_reg_all d) (dc_rank_cnt d) (deferred d).
Definition set_dc_flags (unreg : Z) (reg reg_all : bool) (d : dart_client) : dart_client :=
  mk_dc (dc_peers d) (dc_peer_size d) (dc_num_sp d) (dc_num_cp d) (dc_ptlmap d) (dc_self d) (cp_min_rank d) (app_minid d)
    (dc_num_peers d) unreg reg reg_all (dc_rank_cnt d) (deferred d).
Definition set_dc_lists (rank_cnt : Z) (l : list (hdr_register * cells)) (d : dart_client) : dart_client :=
  mk_dc (dc_peers d) (dc_peer_size d) (dc_num_sp d) (dc_num_cp d) (dc_ptlmap d) (dc_self d) (cp_min_rank d) (app_minid d)
    (dc_num_peers d) (num_unreg d) (dc_f_reg d) (dc_f_reg_all d) rank_cnt l.

(** ** Look-ups, buffers and sends *)

(** [rpc_server_find], which [ds_get_peer] and [dc_get_peer] call. *)
Fixpoint rpc_server_find (l : list ptlid_map) (nodeid : Z) : option ptlid_map :=
  match l with
  | [] => None
  | temp_peer :: l => if pm_id temp_peer =? nodeid then Some temp_peer else rpc_server_find l nodeid
  end.

Fixpoint app_find (l : list app_info) (appid : Z) : option app_info :=
  match l with
  | [] => None
  | app :: l => if app_id app =? appid then Some app else app_find l appid
  end.

(** A change of the application [app_find] returns, and its removal. *)
Fixpoint upd_app (f : app_info -> app_info) (appid : Z) (l : list app_info) : list app_info :=
  match l with
  | [] => []
  | app :: l => if app_id app =? appid then f app :: l else app :: upd_app f appid l
  end.

Fixpoint del_app (appid : Z) (l : list app_info) : list app_info :=
  match l with
  | [] => []
  | app :: l => if app_id app =? appid then l else app :: del_app appid l
  end.

(** A buffer of [cap] cells after the writes of [l]; the first [n] cells of a
    buffer. *)
Definition fill (cap : nat) (l : list ptlid_map) : option cells :=
  if (length l <=? cap)%nat then Some (map Some l ++ replicate (cap - length l) None) else None.

Definition receive (n : nat) (data : cells) : option (list ptlid_map) :=
  if (n <=? length data)%nat then mapM id (take n data) else None.

(** What can fail of a message to a peer: the allocation of the message and of
    its data, [rpc_send], [rpc_process_event] after it, [rpc_receive_direct]. *)
Record net_env := mk_net {
  msg_ok : Z -> bool; data_ok : Z -> bool; app_ok : bool; send_err : Z -> Z; event_err : Z -> Z; recv_err : Z -> Z }.

Definition all_ok : net_env := mk_net (fun _ => true) (fun _ => true) true (fun _ => 0) (fun _ => 0) (fun _ => 0).

(** A message sent, with the id it is sent to. *)
Definition packet := (Z * msg)%type.

(** The common body of the announcements: allocate, copy the entries, send,
    process events.  Of [rpc_process_event] only the result is kept: what other
    handlers would do to the state inside it is not followed. *)
Definition announce (net : net_env) (dest cap : Z) (entries : list ptlid_map) (mk : cells -> msg) :
    option (list packet * Z) :=
  if negb (msg_ok net dest) then Some ([], - ENOMEM)
  else if (cap <? 0) || negb (data_ok net dest) then Some ([], - ENOMEM)
  else
    data ← fill (Z.to_nat cap) entries;
    if send_err net dest <? 0 then Some ([], send_err net dest)
    else Some ([(dest, mk data)], event_err net dest).

(** The sends of a loop over peers whose results are not used. *)
Fixpoint announce_each (send : ptlid_map -> option (list packet * Z)) (l : list ptlid_map) : option (list packet) :=
  match l with
  | [] => Some []
  | p :: l => r ← send p; rest ← announce_each send l; Some (r.1 ++ rest)
  end.

(** [list_add] of the entries read, in order. *)
Definition add_peers (entries l : list ptlid_map) : list ptlid_map := rev entries ++ l.

(** ** The server *)

Definition add_cp (n : Z) (c : counters) : counters :=
  mk_cnt (peer_size c + n) (num_cp c + n) (size_cp c + n) (rpc_num_peers c + n) (current_client_size c).
Definition add_clients (n : Z) (c : counters) : counters :=
  mk_cnt (peer_size c) (num_cp c) (size_cp c) (rpc_num_peers c) (current_client_size c + n).
Definition drop_cp (n : Z) (c : counters) : counters :=
  mk_cnt (peer_size c - n) (num_cp c - n) (size_cp c - n) (rpc_num_peers c) (current_client_size c - n).

(** [ds_alloc], up to the call of [ds_boot]. *)
Definition ds_alloc (me : sockaddr_in) (nsp ncp : Z) : dart_server :=
  mk_ds [] [] (mk_cnt (nsp + ncp) ncp ncp (nsp + ncp) 0) nsp nsp (mk_pm me 0 0) None (nsp =? 1) 0 1 nsp None.

(** The header [ds_master_listen] fills for [dsrpc_cn_register]. *)
Record lst_hdr := mk_lst { lh_pm_cp : ptlid_map; lh_num_cp : Z; lh_id_min : option Z }.

(** The end of [dsrpc_cn_register], from the test of [app_cnt_peers]; the
    peer is the head of the list. *)
Definition cn_register_app (ds : dart_server) (hdr : lst_hdr) (app : app_info) : dart_server * lst_hdr * Z :=
  if app_cnt_peers app =? app_num_peers app then (ds, hdr, - ENOMEM)
  else
    let id := app_min_id app + app_cnt_peers app in
    (set_peers (match ds_peers ds with [] => [] | p :: l => set_id id p :: l end)
       (set_apps (upd_app (fun a => mk_app (app_id a) (app_min_id a) (app_num_peers a) (app_cnt_peers a + 1) (sent_announce a))
          (app_id app) (ds_apps ds)) ds),
     mk_lst (set_id id (lh_pm_cp hdr)) (lh_num_cp hdr) (Some (app_min_id app)), 0).

Definition dsrpc_cn_register (net : net_env) (ds : dart_server) (hdr : lst_hdr) : dart_server * lst_hdr * Z :=
  let ds := set_peers (lh_pm_cp hdr :: ds_peers ds)
    (set_cnt (add_cp (lh_num_cp hdr) (add_clients 1 (ds_cnt ds))) ds) in
  match app_find (ds_apps ds) (pm_appid (lh_pm_cp hdr)) with
  | Some app => cn_register_app ds hdr app
  | None =>
      if app_ok net then
        let min := cp_rank_cnt ds in
        let app := mk_app (pm_appid (lh_pm_cp hdr)) min (lh_num_cp hdr) 0 false in
        cn_register_app
          (set_ranks (s_connected ds) (sp_rank_cnt ds) (min + lh_num_cp hdr) (lst_id_min ds) (set_apps (app :: ds_apps ds) ds))
          (mk_lst (set_id min (lh_pm_cp hdr)) (lh_num_cp hdr) (Some min)) app
      else (ds, hdr, - ENOMEM)
  end.

(** The answer to a client. *)
Definition master_reply (ds : dart_server) (peer : ptlid_map) (id_min : Z) : con_param :=
  mk_con peer (ds_ptlmap ds) (num_sp ds + current_client_size (ds_cnt ds) - 1) id_min.

(** A connection request at the master: the type of the channel is 0 for the
    system channel and 1 for the RPC channel.  The answer is the id of the
    peer, or for a client the parameters of the connection. *)
Definition ds_master_request (net : net_env) (ds : dart_server) (conpara : con_param) :
    option (dart_server * (Z + con_param)) :=
  let pm := cn_pm_cp conpara in
  if cn_type conpara =? 0 then
    peer ← rpc_server_find (ds_peers ds) (pm_id pm);
    Some (set_ranks (s_connected ds + 1) (sp_rank_cnt ds) (cp_rank_cnt ds) (lst_id_min ds) ds, inl (pm_id peer))
  else if pm_appid pm =? 0 then
    let temp_peer := set_id (sp_rank_cnt ds) pm in
    Some (set_ranks (s_connected ds + 1) (sp_rank_cnt ds + 1) (cp_rank_cnt ds) (lst_id_min ds)
            (set_peers (temp_peer :: ds_peers ds) ds), inl (pm_id temp_peer))
  else
    let hdr := mk_lst pm (cn_num_cp conpara) (lst_id_min ds) in
    let '(ds, hdr) := match app_find (ds_apps ds) (pm_appid pm) with
                      | Some _ => (ds, hdr)
                      | None => (dsrpc_cn_register net ds hdr).1
                      end in
    peer ← rpc_server_find (ds_peers ds) (pm_id (lh_pm_cp hdr));
    ty ← lh_id_min hdr;
    Some (set_ranks (s_connected ds) (sp_rank_cnt ds) (cp_rank_cnt ds) (lh_id_min hdr) ds,
      inr (master_reply ds peer ty)).

(** The list of the servers, sent by the master when all are connected. *)
Definition ds_disseminate2 (net : net_env) (ds : dart_server) (peer : ptlid_map) : option (list packet * Z) :=
  self ← ds_self ds;
  announce net (pm_id peer) (size_sp ds) (filter (fun p => pm_appid p = 0) (ds_peers ds))
    (sp_announce_cp (mk_hreg self (size_sp ds) (size_sp ds))).

(** The servers other than the master. *)
Definition is_slave (p : ptlid_map) : bool := negb (pm_id p =? 0) && (pm_appid p =? 0).

(** The loop of [ds_boot_master]: the result of the last send counts. *)
Fixpoint boot_loop (net : net_env) (ds : dart_server) (l : list ptlid_map) (err : Z) : option (list packet * Z) :=
  match l with
  | [] => Some ([], err)
  | p :: l =>
      if is_slave p then
        r ← ds_disseminate2 net ds p;
        rest ← boot_loop net ds l r.2;
        Some (r.1 ++ rest.1, rest.2)
      else boot_loop net ds l err
  end.

(** [ds_boot_master] after its wait for the connections. *)
Definition ds_boot_master (net : net_env) (ds : dart_server) : option (dart_server * list packet * Z) :=
  let ds := set_reg (set_id 0 (ds_ptlmap ds)) (ds_self ds) (ds_f_reg ds) ds in
  r ← (if 1 <? size_sp ds then boot_loop net ds (ds_peers ds) 0 else Some ([], 0));
  if r.2 =? 0 then Some (set_reg (ds_ptlmap ds) (ds_self ds) true ds, r.1, 0)
  else Some (ds, r.1, r.2).

(** [ds_boot] up to the call of [ds_boot_master]: the entry of the master. *)
Definition ds_boot_as_master (ds : dart_server) : dart_server :=
  set_reg (ds_ptlmap ds) (Some (ds_ptlmap ds)) (ds_f_reg ds) (set_peers (ds_ptlmap ds :: ds_peers ds) ds).

(** [ds_boot_slave] up to its wait: the entry of the master with the address
    of the configuration file, and the connection that returns the id.  A
    server that finds its own address runs as the master. *)
Definition ds_boot_slave (ds : dart_server) (conf : sockaddr_in) : dart_server * bool :=
  let peer := mk_pm conf 0 0 in
  let ds := set_peers (peer :: ds_peers ds) ds in
  if same_address conf (pm_address (ds_ptlmap ds))
  then (set_reg (ds_ptlmap ds) (Some peer) (ds_f_reg ds) ds, true)
  else (ds, false).

Definition ds_connected (ds : dart_server) (id : Z) : dart_server :=
  set_reg (set_id id (ds_ptlmap ds)) (ds_self ds) (ds_f_reg ds) ds.

(** The loop of [announce_cp_completion] of a server. *)
Fixpoint add_servers (me : sockaddr_in) (entries l : list ptlid_map) (self : option ptlid_map) :
    list ptlid_map * option ptlid_map :=
  match entries with
  | [] => (l, self)
  | pm :: entries =>
      if pm_id pm =? 0 then add_servers me entries l self
      else add_servers me entries (pm :: l) (if same_address (pm_address pm) me then Some pm else self)
  end.

Definition dsrpc_announce_cp (net : net_env) (ds : dart_server) (data : cells) : option (dart_server * Z) :=
  peer ← rpc_server_find (ds_peers ds) 0;
  if negb (msg_ok net 0) || negb (data_ok net 0) then Some (ds, - ENOMEM)
  else if recv_err net 0 <? 0 then Some (ds, recv_err net 0)
  else
    entries ← receive (Z.to_nat (num_sp ds)) data;
    let '(l, self) := add_servers (pm_address (ds_ptlmap ds)) entries (ds_peers ds) (ds_self ds) in
    Some (set_reg (ds_ptlmap ds) self true (set_peers l ds), 0).

(** *** The system channels of [ds_boot_slave] *)

(** The array [a] for a server [k]: [a[j] = 2^j + k], reduced. *)
Fixpoint powers (n : nat) (x : Z) : list Z :=
  match n with O => [] | S n => x :: powers n (x * 2) end.

Definition link_targets (nsp k : Z) : list Z :=
  map (fun x => let a := x + k in if nsp - 1 <? a then a mod nsp else a) (powers (Z.to_nat (log2_ceil nsp)) 1).

Definition check_step (me k : Z) (chk : list bool) (a : Z) : list bool :=
  let chk := if k =? me then <[Z.to_nat a := true]> chk else chk in
  if a =? me then <[Z.to_nat k := true]> chk else chk.

Definition check_sp (me nsp : Z) : list bool :=
  foldl (fun chk k => foldl (check_step me k) chk (link_targets nsp k)) (replicate (Z.to_nat nsp) false) (seqZ 0 nsp).

(** The servers a slave opens a system channel to: the master before the
    loop, then those with a smaller id that [check_sp] marks. *)
Definition sys_links (me nsp : Z) : list Z :=
  0 :: filter (fun i => check_sp me nsp !! Z.to_nat i = Some true) (seqZ 1 (me - 1)).

(** *** Handlers *)

(** [announce_app_completion] of a server, on the cells read: the first names
    the application. *)
Definition ds_announce_app_completion (ds : dart_server) (data : list ptlid_map) : option (dart_server * Z) :=
  pm ← head data;
  match app_find (ds_apps ds) (pm_appid pm) with
  | None => Some (ds, 0)
  | Some app =>
      entries ← receive (Z.to_nat (app_num_peers app)) (map Some data);
      Some (set_peers (add_peers entries (ds_peers ds)) (set_cnt (add_cp (app_num_peers app) (ds_cnt ds)) ds), 0)
  end.

Definition dsrpc_announce_app (net : net_env) (ds : dart_server) (hreg : hdr_register) (data : cells) :
    option (dart_server * Z) :=
  let app := mk_app (hr_num_sp hreg) 0 (hr_num_cp hreg) (hr_num_cp hreg) false in
  let ds := set_apps (app :: ds_apps ds) ds in
  peer ← rpc_server_find (ds_peers ds) 0;
  if negb (msg_ok net 0) || negb (data_ok net 0) then Some (ds, - ENOMEM)
  else if recv_err net 0 <? 0 then Some (ds, recv_err net 0)
  else
    entries ← receive (Z.to_nat (hr_num_cp hreg)) data;
    ds_announce_app_completion ds entries.

(** The entries of an application, sent to a server or, with DIMES, to the
    master of another application. *)
Definition ds_disseminate_app (net : net_env) (ds : dart_server) (peer : ptlid_map) (appid : Z) :
    option (list packet * Z) :=
  app ← app_find (ds_apps ds) appid;
  self ← ds_self ds;
  announce net (pm_id peer) (app_num_peers app) (filter (fun p => pm_appid p = app_id app) (ds_peers ds))
    (sp_announce_app (mk_hreg self (app_num_peers app) appid)).

(** The answer to the master of an application: all it does not know. *)
Definition cs_disseminate_cp (net : net_env) (ds : dart_server) (peer : ptlid_map) : option (list packet * Z) :=
  app ← app_find (ds_apps ds) (pm_appid peer);
  self ← ds_self ds;
  announce net (pm_id peer) (num_sp ds + current_client_size (ds_cnt ds) - app_num_peers app)
    (filter (fun p => pm_id p <> 0 /\ pm_appid p <> app_id app) (ds_peers ds))
    (sp_announce_cp (mk_hreg self (current_client_size (ds_cnt ds)) (size_sp ds))).

(** The loop over the applications under DS_HAVE_DIMES. *)
Fixpoint announce_apps (net : net_env) (ds : dart_server) (appid : Z) (l : list app_info) : option (list packet) :=
  match l with
  | [] => Some []
  | app :: l =>
      if negb (app_id app =? appid) && sent_announce app then
        peer ← rpc_server_find (ds_peers ds) (app_min_id app);
        r ← ds_disseminate_app net ds peer appid;
        rest ← announce_apps net ds appid l;
        Some (r.1 ++ rest)
      else announce_apps net ds appid l
  end.

Definition add_cnt_peers (n : Z) (a : app_info) : app_info :=
  mk_app (app_id a) (app_min_id a) (app_num_peers a) (app_cnt_peers a + n) (sent_announce a).
Definition set_sent (a : app_info) : app_info :=
  mk_app (app_id a) (app_min_id a) (app_num_peers a) (app_cnt_peers a) true.

(** [cp_disseminate_cs_completion] on the cells read.  The loop runs from 1:
    the last entry, that of the master of the application, is known. *)
Definition cp_disseminate_cs_completion (dimes : bool) (net : net_env) (ds : dart_server) (data : list ptlid_map) :
    option (dart_server * list packet * Z) :=
  pm ← head data;
  match app_find (ds_apps ds) (pm_appid pm) with
  | None => Some (ds, [], 0)
  | Some app =>
      entries ← receive (Z.to_nat (app_num_peers app - 1)) (map Some data);
      let n := Z.of_nat (length entries) in
      let ds := set_peers (add_peers entries (ds_peers ds))
        (set_apps (upd_app (add_cnt_peers n) (app_id app) (ds_apps ds)) (set_cnt (add_clients n (ds_cnt ds)) ds)) in
      m1 ← announce_each (fun p => ds_disseminate_app net ds p (app_id app)) (filter is_slave (ds_peers ds));
      m2 ← (if dimes then announce_apps net ds (app_id app) (ds_apps ds) else Some []);
      peer ← rpc_server_find (ds_peers ds) (app_min_id app);
      m3 ← cs_disseminate_cp net ds peer;
      Some (set_apps (upd_app set_sent (app_id app) (ds_apps ds)) ds, m1 ++ m2 ++ m3.1, 0)
  end.

Definition dsrpc_cp_disseminate_cs (dimes : bool) (net : net_env) (ds : dart_server) (id : Z) (data : cells) :
    option (dart_server * list packet * Z) :=
  peer ← rpc_server_find (ds_peers ds) id;
  if negb (msg_ok net id) then Some (ds, [], - ENOMEM)
  else
    match app_find (ds_apps ds) (pm_appid peer) with
    | None => Some (ds, [], - ENOMEM)
    | Some app =>
        if negb (data_ok net id) then Some (ds, [], - ENOMEM)
        else if recv_err net id <? 0 then Some (ds, [], recv_err net id)
        else
          entries ← receive (Z.to_nat (app_num_peers app)) data;
          cp_disseminate_cs_completion dimes net ds entries
    end.

(** [ds_remove_app] sends the same message twice. *)
Definition ds_remove_app (net : net_env) (ds : dart_server) (peer : ptlid_map) (appid : Z) : option (list packet * Z) :=
  app ← app_find (ds_apps ds) appid;
  if negb (msg_ok net (pm_id peer)) then Some ([], - ENOMEM)
  else if send_err net (pm_id peer) <? 0 then Some ([], send_err net (pm_id peer))
  else Some ([(pm_id peer, cn_unregister_app appid); (pm_id peer, cn_unregister_app appid)], 0).

(** The entries of an application taken out of a list. *)
Definition without (appid : Z) (l : list ptlid_map) : list ptlid_map := filter (fun p => pm_appid p <> appid) l.
Definition members (appid : Z) (l : list ptlid_map) : list ptlid_map := filter (fun p => pm_appid p = appid) l.

(** The loop of [dsrpc_cn_unregister]: the messages, the entries kept and the
    number of entries removed. *)
Fixpoint unregister_loop (net : net_env) (ds : dart_server) (appid : Z) (l : list ptlid_map) :
    option (list packet * list ptlid_map * Z) :=
  match l with
  | [] => Some ([], [], 0)
  | p :: l =>
      m ← (if is_slave p then r ← ds_remove_app net ds p appid; Some r.1 else Some []);
      '(ms, kept, n) ← unregister_loop net ds appid l;
      if pm_appid p =? appid then Some (m ++ ms, kept, n + 1) else Some (m ++ ms, p :: kept, n)
  end.

Definition dsrpc_cn_unregister (net : net_env) (ds : dart_server) (id : Z) : option (dart_server * list packet * Z) :=
  peer ← rpc_server_find (ds_peers ds) id;
  let appid := pm_appid peer in
  if negb (msg_ok net id) then Some (ds, [], - ENOMEM)
  else
    self ← ds_self ds;
    if send_err net id <? 0 then Some (ds, [], send_err net id)
    else
      '(ms, kept, n) ← unregister_loop net ds appid (ds_peers ds);
      Some (set_peers kept (set_apps (del_app appid (ds_apps ds)) (set_cnt (drop_cp n (ds_cnt ds)) ds)),
        (id, cn_unregister (pm_id self)) :: ms, 0).

Definition dsrpc_cn_unregister_app (ds : dart_server) (appid : Z) : dart_server :=
  set_peers (without appid (ds_peers ds))
    (set_apps (del_app appid (ds_apps ds))
      (set_cnt (drop_cp (Z.of_nat (length (members appid (ds_peers ds)))) (ds_cnt ds)) ds)).

(** The services of a server; [None] is also a command without one. *)
Definition ds_service (dimes : bool) (net : net_env) (ds : dart_server) (m : msg) : option (dart_server * list packet * Z) :=
  match m with
  | sp_announce_cp _ data => '(ds, err) ← dsrpc_announce_cp net ds data; Some (ds, [], err)
  | sp_announce_app hreg data => '(ds, err) ← dsrpc_announce_app net ds hreg data; Some (ds, [], err)
  | cp_disseminate_cs id data => dsrpc_cp_disseminate_cs dimes net ds id data
  | cn_unregister id => dsrpc_cn_unregister net ds id
  | cn_unregister_app appid => Some (dsrpc_cn_unregister_app ds appid, [], 0)
  | _ => None
  end.

(** ** The client *)

(** [dc_alloc] up to [dc_boot], and the entry [dc_boot] adds for the process
    that runs as the master of the application. *)
Definition dc_alloc (me : sockaddr_in) (num_peers appid : Z) : dart_client :=
  mk_dc [] num_peers 0 0 (mk_pm me 0 appid) None 0 0 0 0 false false 1 [].

Definition dc_boot_as_master (dc : dart_client) : dart_client :=
  set_dc_me (dc_ptlmap dc) (Some (dc_ptlmap dc)) (set_dc_peers (dc_ptlmap dc :: dc_peers dc) dc).

(** The loop of [gather_peer_list] at the master, on the array gathered. *)
Fixpoint gather_loop (i : Z) (pptlmap l : list ptlid_map) : list ptlid_map :=
  match pptlmap with
  | [] => l
  | pm :: pptlmap => gather_loop (i + 1) pptlmap (set_id i pm :: l)
  end.

Definition gather_peer_list (dc : dart_client) (gathered : list ptlid_map) : dart_client :=
  set_dc_peers (gather_loop 1 (tail gathered) (dc_peers dc)) dc.

(** The same without MPI: a process of the application connects to its
    master ([dc_master_listen]). *)
Definition dc_master_request (dc : dart_client) (conpara : con_param) : dart_client * Z :=
  let temp_peer := set_id (dc_rank_cnt dc) (cn_pm_cp conpara) in
  (set_dc_lists (dc_rank_cnt dc + 1) (deferred dc) (set_dc_peers (temp_peer :: dc_peers dc) dc), dc_rank_cnt dc).

(** The requests of [rpc_connect] and [sys_connect]. *)
Definition rpc_connect_param (me peer : ptlid_map) (num_rpc_per_buff : Z) : con_param :=
  mk_con peer me num_rpc_per_buff 1.
Definition sys_connect_param (me peer : ptlid_map) (num_rpc_per_buff : Z) : con_param :=
  mk_con peer me num_rpc_per_buff 0.

(** The end of [rpc_connect] to the master server: the answer names the first
    id of the application and the id of the process. *)
Definition rpc_established (dc : dart_client) (reply : con_param) : dart_client :=
  let min := cn_type reply in
  let me := set_id (pm_id (cn_pm_sp reply)) (dc_ptlmap dc) in
  let np := if (pm_id me =? min) || (min =? 0) then dc_peer_size dc + cn_num_cp reply else dc_num_peers dc in
  set_dc_me me (dc_self dc) (set_dc_min (cp_min_rank dc) min np dc).

(** The part of [dc_boot_master] up to the wait for the registration, with
    the answer of the master server to [rpc_connect]: the ids of the list
    are moved, those of [self] with it, which is one of the list. *)
Definition dc_connected (dc : dart_client) (reply : con_param) : dart_client :=
  let dc := rpc_established dc reply in
  let shift p := set_id (pm_id p + app_minid dc) p in
  set_dc_me (dc_ptlmap dc) (shift <$> dc_self dc)
    (set_dc_min (app_minid dc) (app_minid dc) (dc_num_peers dc) (set_dc_peers (cn_pm_cp reply :: map shift (dc_peers dc)) dc)).

Definition dc_disseminate (net : net_env) (dc : dart_client) : option (list packet * Z) :=
  peer ← rpc_server_find (dc_peers dc) 0;
  self ← dc_self dc;
  announce net (pm_id peer) (dc_peer_size dc) (filter (fun p => pm_id p <> 0) (dc_peers dc))
    (cp_disseminate_cs (pm_id (dc_ptlmap dc))).

(** The entries the client still expects. *)
Definition missing (dc : dart_client) : Z := dc_num_cp dc + dc_num_sp dc - dc_peer_size dc - 1.

Definition dc_registered (dc : dart_client) : dart_client :=
  set_dc_min (app_minid dc) (app_minid dc) (dc_num_peers dc) (set_dc_flags (num_unreg dc) true (dc_f_reg_all dc) dc).

Definition dcrpc_announce_cp (net : net_env) (dc : dart_client) (hreg : hdr_register) (data : cells) :
    option (dart_client * Z) :=
  let dc := set_dc_nums (hr_num_sp hreg) (hr_num_cp hreg) dc in
  if missing dc =? 0 then Some (dc_registered dc, 0)
  else
    peer ← rpc_server_find (dc_peers dc) 0;
    if negb (msg_ok net 0) || negb (data_ok net 0) || (missing dc <? 0) then Some (dc, - ENOMEM)
    else if recv_err net 0 <? 0 then Some (dc, recv_err net 0)
    else
      entries ← receive (Z.to_nat (missing dc)) data;
      Some (dc_registered (set_dc_peers (add_peers entries (dc_peers dc)) dc), 0).

(** The whole list, sent to the other processes of the application: with
    messages ([dc_disseminate_dc]) or with a broadcast. *)
Definition dc_disseminate_dc_to (net : net_env) (dc : dart_client) (i : Z) : option (list packet * Z) :=
  match rpc_server_find (dc_peers dc) (i + cp_min_rank dc) with
  | None => Some ([], 0)
  | Some peer =>
      self ← dc_self dc;
      announce net (pm_id peer) (dc_num_sp dc + dc_num_cp dc) (dc_peers dc)
        (cp_announce_cp (mk_hreg self (dc_num_cp dc) (dc_num_sp dc)))
  end.

(** The loops of [announce_cp_completion_all], which leaves out the entry of
    the master of the application, and of [dc_disseminate_dc_mpi], which does
    not. *)
Fixpoint add_all (me : sockaddr_in) (skip : ptlid_map -> bool) (entries l : list ptlid_map) (self : option ptlid_map) :
    list ptlid_map * option ptlid_map :=
  match entries with
  | [] => (l, self)
  | pm :: entries =>
      let self := if same_address (pm_address pm) me then Some pm else self in
      add_all me skip entries (if skip pm then l else pm :: l) self
  end.

(** The id of the process is that of its entry; a process that has not booted
    has no entry before the loop. *)
Definition own_id (old : ptlid_map) (self : option ptlid_map) : ptlid_map :=
  match self with Some p => set_id (pm_id p) old | None => old end.

(** The change of the first entry with an id. *)
Fixpoint change_id (i j : Z) (l : list ptlid_map) : list ptlid_map :=
  match l with
  | [] => []
  | p :: l => if pm_id p =? i then set_id j p :: l else p :: change_id i j l
  end.

Definition dcrpc_announce_cp_all (net : net_env) (dc : dart_client) (hreg : hdr_register) (data : cells) :
    option (dart_client * Z) :=
  let dc := set_dc_nums (hr_num_sp hreg) (hr_num_cp hreg) dc in
  let min := pm_id (hr_pm_cp hreg) in
  peer ← rpc_server_find (dc_peers dc) 0;
  if negb (msg_ok net 0) || negb (data_ok net 0) then Some (dc, - ENOMEM)
  else
    let me := set_id (pm_id (dc_ptlmap dc) + min) (dc_ptlmap dc) in
    let dc := set_dc_me me (dc_self dc) (set_dc_min min min (min + 1) (set_dc_peers (change_id 0 min (dc_peers dc)) dc)) in
    if recv_err net 0 <? 0 then Some (dc, recv_err net 0)
    else
      entries ← receive (Z.to_nat (dc_num_cp dc + dc_num_sp dc)) data;
      let '(l, self) := add_all (pm_address me) (fun p => pm_id p =? min) entries (dc_peers dc) (dc_self dc) in
      Some (dc_registered (set_dc_me (own_id me self) self (set_dc_peers l dc)), 0).

(** [dc_disseminate_dc_mpi] at a process that is not the master: the values
    broadcast are those of the master. *)
Definition dc_receive_mpi (dc : dart_client) (ncp nsp : Z) (data : cells) : option dart_client :=
  entries ← receive (Z.to_nat (ncp + nsp)) data;
  let dc := set_dc_nums nsp ncp dc in
  let '(l, self) := add_all (pm_address (dc_ptlmap dc)) (fun _ => false) entries (dc_peers dc) (dc_self dc) in
  let dc := set_dc_me (own_id (dc_ptlmap dc) self) self (set_dc_peers l dc) in
  Some (set_dc_flags (num_unreg dc) true true (dc_registered dc)).

(** The broadcast of the master. *)
Definition dc_broadcast_mpi (dc : dart_client) : option cells :=
  fill (Z.to_nat (dc_num_cp dc + dc_num_sp dc)) (dc_peers dc).

Definition dc_disseminate_app (net : net_env) (peer : ptlid_map) (hreg : hdr_register) (data : list ptlid_map) :
    option (list packet * Z) :=
  announce net (pm_id peer) (hr_num_cp hreg) (take (Z.to_nat (hr_num_cp hreg)) data) (sp_announce_app hreg).

(** The entries of another application; the master passes them on. *)
Definition install_app_cp (net : net_env) (dc : dart_client) (hreg : hdr_register) (data : list ptlid_map) :
    option (dart_client * list packet) :=
  let dc := set_dc_nums (dc_num_sp dc) (dc_num_cp dc + Z.of_nat (length data))
    (set_dc_peers (add_peers data (dc_peers dc)) dc) in
  self ← dc_self dc;
  if pm_id self =? cp_min_rank dc then
    ms ← announce_each (fun p => dc_disseminate_app net p hreg data)
      (filter (fun p => pm_appid p = pm_appid self /\ pm_id p <> pm_id self) (dc_peers dc));
    Some (dc, ms)
  else Some (dc, []).

(** [dcrpc_sp_announce_app] and its completion.  Before the registration the
    handler waits; a process that is neither the master nor completely
    registered puts the message aside. *)
Definition dcrpc_sp_announce_app (net : net_env) (dc : dart_client) (hreg : hdr_register) (data : cells) :
    option (dart_client * list packet * Z) :=
  if negb (dc_f_reg dc) then None
  else
    self ← dc_self dc;
    let from := if pm_id self =? cp_min_rank dc then 0 else cp_min_rank dc in
    peer ← rpc_server_find (dc_peers dc) from;
    if negb (msg_ok net from) || negb (data_ok net from) then Some (dc, [], - ENOMEM)
    else if recv_err net from <? 0 then Some (dc, [], recv_err net from)
    else
      entries ← receive (Z.to_nat (hr_num_cp hreg)) data;
      if dc_f_reg_all dc || (pm_id self =? cp_min_rank dc) then
        '(dc, ms) ← install_app_cp net dc hreg entries; Some (dc, ms, 0)
      else Some (set_dc_lists (dc_rank_cnt dc) ((hreg, map Some entries) :: deferred dc) dc, [], 0).

Definition dcrpc_unregister_cp (net : net_env) (dc : dart_client) (id : Z) : option (dart_client * list packet * Z) :=
  let dc := set_dc_flags (num_unreg dc + 1) (dc_f_reg dc) (dc_f_reg_all dc) dc in
  peer ← rpc_server_find (dc_peers dc) id;
  self ← dc_self dc;
  if negb (msg_ok net id) then Some (dc, [], - ENOMEM)
  else if send_err net id <? 0 then Some (dc, [], send_err net id)
  else Some (dc, [(id, cn_unregister (pm_id self))], 0).

Definition dc_service (net : net_env) (dc : dart_client) (m : msg) : option (dart_client * list packet * Z) :=
  match m with
  | sp_announce_cp hreg data => '(dc, err) ← dcrpc_announce_cp net dc hreg data; Some (dc, [], err)
  | cp_announce_cp hreg data => '(dc, err) ← dcrpc_announce_cp_all net dc hreg data; Some (dc, [], err)
  | sp_announce_app hreg data => dcrpc_sp_announce_app net dc hreg data
  | cn_unregister _ => Some (set_dc_flags (num_unreg dc) false (dc_f_reg_all dc) dc, [], 0)
  | cn_unregister_cp id => dcrpc_unregister_cp net dc id
  | _ => None
  end.

(** [dc_unregister_mpi], and [dc_unregister] of the master once all other
    processes are done: the message to the master server. *)
Definition dc_unregister (net : net_env) (dc : dart_client) : option (list packet * Z) :=
  self ← dc_self dc;
  if pm_id (dc_ptlmap dc) =? cp_min_rank dc then
    peer ← rpc_server_find (dc_peers dc) 0;
    if negb (msg_ok net (pm_id peer)) then Some ([], - ENOMEM)
    else if send_err net (pm_id peer) <? 0 then Some ([], send_err net (pm_id peer))
    else Some ([(pm_id peer, cn_unregister (pm_id self))], 0)
  else Some ([], 0).

(** ** The system channels are those of the barrier *)

Lemma elem_of_powers n : forall x y, y ∈ powers n x <-> exists j, (j < n)%nat /\ y = x * 2 ^ Z.of_nat j.
Proof.
  induction n as [|n IH]; intros x y; cbn [powers].
  - split; [by intros ?%not_elem_of_nil|]. intros (j & Hj & _). lia.
  - rewrite elem_of_cons, IH. split.
    + intros [->|(j & Hj & ->)]; [exists 0%nat; split; [lia|cbn; lia]|].
      exists (S j). split; [lia|]. rewrite Nat2Z.inj_succ, Z.pow_succ_r by lia. lia.
    + intros (j & Hj & ->). destruct j as [|j]; [left; cbn; lia|right].
      exists j. split; [lia|]. rewrite Nat2Z.inj_succ, Z.pow_succ_r by lia. lia.
Qed.

Lemma elem_of_link_targets n k a : (k < n)%nat -> Z.of_nat n <= 2 ^ 30 ->
  a ∈ link_targets (Z.of_nat n) (Z.of_nat k) <-> exists j, (j < rounds n)%nat /\ a = Z.of_nat (next_of n k j).
Proof.
  intros Hk Hn. assert (Hr : log2_ceil (Z.of_nat n) = Z.of_nat (rounds n)) by (apply np_rounds; lia).
  unfold link_targets. rewrite Hr, Nat2Z.id. rewrite list_elem_of_fmap.
  assert (E : forall j, (if Z.of_nat n - 1 <? 1 * 2 ^ Z.of_nat j + Z.of_nat k then (1 * 2 ^ Z.of_nat j + Z.of_nat k) mod Z.of_nat n
      else 1 * 2 ^ Z.of_nat j + Z.of_nat k) = Z.of_nat (next_of n k j)).
  { intros j. unfold next_of. rewrite Nat2Z.inj_mod, Nat2Z.inj_add, Nat2Z.inj_pow.
    rewrite Z.mul_1_l, (Z.add_comm (2 ^ _)). change (Z.of_nat 2) with 2.
    destruct (Z.ltb_spec (Z.of_nat n - 1) (Z.of_nat k + 2 ^ Z.of_nat j)); [done|].
    rewrite Z.mod_small; [done|]. pose proof (Z.pow_pos_nonneg 2 (Z.of_nat j)). lia. }
  split.
  - intros (y & -> & (j & Hj & ->)%elem_of_powers). exists j. split; [done|]. cbv zeta. apply E.
  - intros (j & Hj & ->). exists (1 * 2 ^ Z.of_nat j). split; [cbv zeta; by rewrite E|].
    apply elem_of_powers. by exists j.
Qed.

(** A cell that is marked stays marked. *)
Lemma check_step_mono me k chk a i : chk !! i = Some true -> check_step me k chk a !! i = Some true.
Proof.
  intros H. unfold check_step. set (c1 := if k =? me then _ else _).
  assert (H1 : c1 !! i = Some true).
  { subst c1. case_if; [|done]. destruct (decide (Z.to_nat a = i)) as [<-|]; [|by rewrite list_lookup_insert_ne].
    apply list_lookup_insert_eq. by eapply lookup_lt_Some. }
  case_if; [|done]. destruct (decide (Z.to_nat k = i)) as [<-|]; [|by rewrite list_lookup_insert_ne].
  apply list_lookup_insert_eq. by eapply lookup_lt_Some.
Qed.

Lemma check_step_length me k chk a : length (check_step me k chk a) = length chk.
Proof. unfold check_step. repeat case_if; by rewrite ?length_insert. Qed.

(** A property of the marks that the steps preserve holds at the end, and the
    mark of one step is kept. *)
Lemma foldl_keeps {A B} (P : A -> Prop) (f : A -> B -> A) l : forall a, P a -> (forall a b, P a -> P (f a b)) -> P (foldl f a l).
Proof. induction l as [|b l IH]; intros a H Hf; [done|]. cbn. apply IH; auto. Qed.

Lemma foldl_marks {A B} (P Q : A -> Prop) (f : A -> B -> A) l b a : b ∈ l -> Q a -> (forall a b, Q a -> Q (f a b)) ->
  (forall a, Q a -> P (f a b)) -> (forall a b, P a -> P (f a b)) -> P (foldl f a l).
Proof.
  intros (l1 & l2 & ->)%list_elem_of_split Ha HQ Hb HP. rewrite foldl_app. cbn.
  apply foldl_keeps; [|done]. apply Hb. by apply foldl_keeps.
Qed.

Lemma check_sp_marks me n k a i : 0 <= k < n -> a ∈ link_targets n k ->
  (forall chk, length chk = Z.to_nat n -> check_step me k chk a !! i = Some true) -> check_sp me n !! i = Some true.
Proof.
  intros Hk Ha Hm. unfold check_sp.
  set (Q := fun chk : list bool => length chk = Z.to_nat n).
  apply (foldl_marks (fun c => c !! i = Some true) Q _ _ k).
  - apply elem_of_seqZ. lia.
  - apply length_replicate.
  - intros c b Hc. apply foldl_keeps; [done|]. intros. unfold Q. by rewrite check_step_length.
  - intros c Hc. apply (foldl_marks (fun c => c !! i = Some true) Q _ _ a); [done|done| |done|].
    + intros. unfold Q. by rewrite check_step_length.
    + intros. by apply check_step_mono.
  - intros c b Hc. apply (foldl_keeps (fun c => c !! i = Some true)); [done|]. intros. by apply check_step_mono.
Qed.

Lemma check_sp_next n r j : (r < n)%nat -> Z.of_nat n <= 2 ^ 30 -> (j < rounds n)%nat ->
  check_sp (Z.of_nat r) (Z.of_nat n) !! next_of n r j = Some true /\
  check_sp (Z.of_nat (next_of n r j)) (Z.of_nat n) !! r = Some true.
Proof.
  intros Hr Hn Hj. assert (Hlt : (next_of n r j < n)%nat) by (apply next_lt; lia).
  assert (Ht : Z.of_nat (next_of n r j) ∈ link_targets (Z.of_nat n) (Z.of_nat r)) by (apply elem_of_link_targets; eauto).
  split; (eapply check_sp_marks; [|exact Ht|]; [lia|]); intros chk Hc; unfold check_step.
  - rewrite Z.eqb_refl, !Nat2Z.id. case_if; [|apply list_lookup_insert_eq; lia].
    destruct (decide (r = next_of n r j)) as [<-|]; [apply list_lookup_insert_eq; rewrite length_insert; lia|].
    rewrite list_lookup_insert_ne by done. apply list_lookup_insert_eq. lia.
  - rewrite (Z.eqb_refl (Z.of_nat (next_of n r j))), !Nat2Z.id. case_if; apply list_lookup_insert_eq; rewrite ?length_insert; lia.
Qed.

(** Two servers that exchange a message of the barrier have a system channel:
    the one with the greater id opened it. *)
Lemma sys_links_barrier n r j : (r < n)%nat -> Z.of_nat n <= 2 ^ 30 -> (j < rounds n)%nat ->
  let s := next_of n r j in
  if (s <? r)%nat then Z.of_nat s ∈ sys_links (Z.of_nat r) (Z.of_nat n)
  else s = r \/ Z.of_nat r ∈ sys_links (Z.of_nat s) (Z.of_nat n).
Proof.
  intros Hr Hn Hj s. destruct (check_sp_next n r j Hr Hn Hj) as [H1 H2]. fold s in H1, H2. unfold sys_links.
  destruct (Nat.ltb_spec s r); [|destruct (decide (s = r)); [by left|right]].
  - destruct (decide (s = 0%nat)) as [->|]; [apply list_elem_of_here|]. apply list_elem_of_further, list_elem_of_filter.
    rewrite Nat2Z.id. split; [done|]. apply elem_of_seqZ. lia.
  - destruct (decide (r = 0%nat)) as [->|]; [apply list_elem_of_here|]. apply list_elem_of_further, list_elem_of_filter.
    rewrite Nat2Z.id. split; [done|]. apply elem_of_seqZ. lia.
Qed.

(** ** Buffers *)

Lemma receive_map n l : (n <= length l)%nat -> receive n (map Some l) = Some (take n l).
Proof.
  intros H. unfold receive. rewrite length_map, (proj2 (Nat.leb_le _ _)) by done.
  rewrite <- fmap_take. generalize (take n l). clear. intros l. induction l as [|x l IH]; [done|]. cbn. by rewrite IH.
Qed.

Lemma receive_prefix n l rest : (n <= length l)%nat -> receive n (map Some l ++ rest) = Some (take n l).
Proof.
  intros H. rewrite <- (receive_map n l H). unfold receive.
  rewrite !(proj2 (Nat.leb_le _ _)) by (rewrite ?length_app, length_map; lia).
  rewrite take_app_le by (rewrite length_map; lia). done.
Qed.

Lemma announce_all_ok dest cap entries mk : Z.of_nat (length entries) <= cap ->
  announce all_ok dest cap entries mk =
    Some ([(dest, mk (map Some entries ++ replicate (Z.to_nat cap - length entries) None))], 0).
Proof.
  intros H. unfold announce. cbn. rewrite (proj2 (Z.ltb_ge cap 0)) by lia. cbn. unfold fill.
  by rewrite (proj2 (Nat.leb_le _ _)) by lia.
Qed.

Lemma announce_each_ok send f l : (forall p, p ∈ l -> send p = Some ([f p], 0)) -> announce_each send l = Some (map f l).
Proof.
  induction l as [|p l IH]; intros H; [done|]. cbn. rewrite H by apply list_elem_of_here. cbn.
  rewrite IH by (intros; apply H; by apply list_elem_of_further). done.
Qed.

(** ** Look-ups *)

Definition ids (l : list ptlid_map) : list Z := map pm_id l.

Lemma ids_perm l k : l ≡ₚ k -> ids l ≡ₚ ids k.
Proof. apply fmap_Permutation. Qed.

Lemma ids_elem l p : p ∈ l -> pm_id p ∈ ids l.
Proof. apply list_elem_of_fmap_2. Qed.

Lemma find_elem l i p : rpc_server_find l i = Some p -> p ∈ l /\ pm_id p = i.
Proof.
  induction l as [|q l IH]; [done|]. cbn. case_if; [intros [= ->]; split; [apply list_elem_of_here|by zbool]|].
  intros [? ?]%IH. split; [by apply list_elem_of_further|done].
Qed.

Lemma find_none l i : rpc_server_find l i = None <-> i ∉ ids l.
Proof.
  induction l as [|q l IH]; [split; [intros _; apply not_elem_of_nil|done]|]. cbn. rewrite not_elem_of_cons. case_if; zbool.
  - split; [done|]. intros [? _]. congruence.
  - rewrite IH. split; [intros ?; split; [congruence|done]|tauto].
Qed.

Lemma find_unique l p : NoDup (ids l) -> p ∈ l -> rpc_server_find l (pm_id p) = Some p.
Proof.
  intros Hn Hp. destruct (rpc_server_find l (pm_id p)) as [q|] eqn:E.
  - apply find_elem in E as [Hq He]. f_equal.
    apply list_elem_of_lookup in Hp as [i Hi]. apply list_elem_of_lookup in Hq as [j Hj].
    assert (i = j); [|congruence]. eapply (NoDup_lookup (ids l)); [done|unfold ids; by rewrite list_lookup_fmap, Hi|].
    unfold ids. rewrite list_lookup_fmap, Hj. cbn. by rewrite He.
  - apply find_none in E. by destruct E; apply ids_elem.
Qed.

(** Lists with the same entries answer all look-ups the same way. *)
Lemma find_perm l k i : NoDup (ids l) -> l ≡ₚ k -> rpc_server_find l i = rpc_server_find k i.
Proof.
  intros Hn Hp. destruct (rpc_server_find l i) as [p|] eqn:E.
  - apply find_elem in E as [Hi <-]. symmetry. apply find_unique; [by rewrite <- (ids_perm _ _ Hp)|by rewrite <- Hp].
  - symmetry. apply find_none. rewrite <- (ids_perm _ _ Hp). by apply find_none.
Qed.

Lemma app_find_elem l a app : app_find l a = Some app -> app ∈ l /\ app_id app = a.
Proof.
  induction l as [|q l IH]; [done|]. cbn. case_if; [intros [= ->]; split; [apply list_elem_of_here|by zbool]|].
  intros [? ?]%IH. split; [by apply list_elem_of_further|done].
Qed.

Lemma app_find_none l a : app_find l a = None <-> a ∉ map app_id l.
Proof.
  induction l as [|q l IH]; [split; [intros _; apply not_elem_of_nil|done]|]. cbn. rewrite not_elem_of_cons. case_if; zbool.
  - split; [done|]. intros [? _]. congruence.
  - rewrite IH. split; [intros ?; split; [congruence|done]|tauto].
Qed.

Lemma app_find_unique l app : NoDup (map app_id l) -> app ∈ l -> app_find l (app_id app) = Some app.
Proof.
  induction l as [|q l IH]; [by intros _ ?%not_elem_of_nil|]. cbn. intros [Hq Hn]%list.NoDup_cons [->|H]%elem_of_cons; [by rewrite Z.eqb_refl|].
  case_if; [zbool|by apply IH]. destruct Hq. rewrite E. by apply list_elem_of_fmap_2.
Qed.

(** Changes that keep the id. *)
Definition keeps_id (f : app_info -> app_info) : Prop := forall a, app_id (f a) = app_id a.

Lemma upd_app_ids f a l : keeps_id f -> map app_id (upd_app f a l) = map app_id l.
Proof. intros Hf. induction l as [|q l IH]; [done|]. cbn. case_if; cbn; [by rewrite Hf|by rewrite IH]. Qed.

Lemma upd_app_eq f a l : NoDup (map app_id l) -> upd_app f a l = map (fun x => if app_id x =? a then f x else x) l.
Proof.
  induction l as [|q l IH]; [done|]. cbn. intros [Hq Hn]%list.NoDup_cons. case_if.
  - f_equal. rewrite <- (map_id l) at 1. apply map_ext_in. intros x Hx. case_if; [|done]. zbool.
    destruct Hq. replace (app_id q) with (app_id x) by lia. apply list_elem_of_fmap_2. by apply list_elem_of_In.
  - by rewrite IH.
Qed.

Lemma del_app_eq a l : NoDup (map app_id l) -> del_app a l = filter (fun x => app_id x <> a) l.
Proof.
  induction l as [|q l IH]; [done|]. cbn [map del_app]. intros [Hq Hn]%list.NoDup_cons. rewrite filter_cons. case_if; zbool.
  - rewrite decide_False by tauto. clear IH. induction l as [|x l IH]; [done|]. cbn [map] in *. apply not_elem_of_cons in Hq as [? ?].
    rewrite filter_cons, decide_True by congruence. f_equal. apply IH; [done|by apply list.NoDup_cons in Hn as [_ ?]].
  - rewrite decide_True by done. by rewrite IH.
Qed.

(** ** Loops *)

Lemma add_peers_perm entries l : add_peers entries l ≡ₚ entries ++ l.
Proof. unfold add_peers. by rewrite <- Permutation_rev. Qed.

Lemma add_servers_perm me entries : forall l self,
  (add_servers me entries l self).1 ≡ₚ filter (fun p => pm_id p <> 0) entries ++ l.
Proof.
  induction entries as [|pm entries IH]; intros l self; [done|]. cbn [add_servers]. rewrite filter_cons. case_if; zbool.
  - rewrite decide_False by tauto. apply IH.
  - rewrite decide_True by done. rewrite IH. cbn. by rewrite Permutation_middle.
Qed.

(** The entry a process finds for itself is the one with its address. *)
Lemma add_servers_self me p entries : p ∈ entries -> pm_id p <> 0 -> same_address (pm_address p) me = true ->
  (forall q, q ∈ entries -> same_address (pm_address q) me = true -> q = p) ->
  forall l self, (add_servers me entries l self).2 = Some p.
Proof.
  assert (Hk : forall entries, (forall q, q ∈ entries -> same_address (pm_address q) me = true -> q = p) ->
    forall l, (add_servers me entries l (Some p)).2 = Some p).
  { clear entries. induction entries as [|q entries IH]; intros Hu l; [done|]. cbn.
    assert (Hu' : forall q, q ∈ entries -> same_address (pm_address q) me = true -> q = p)
      by (intros; apply Hu; [by apply list_elem_of_further|done]).
    case_if; [by apply IH|]. destruct (same_address (pm_address q) me) eqn:Ea; [|by apply IH].
    rewrite (Hu q) by (done || apply list_elem_of_here). by apply IH. }
  induction entries as [|q entries IH]; intros Hp Hi Ha Hu l self; [by apply not_elem_of_nil in Hp|]. cbn.
  assert (Hu' : forall q, q ∈ entries -> same_address (pm_address q) me = true -> q = p)
    by (intros; apply Hu; [by apply list_elem_of_further|done]).
  apply elem_of_cons in Hp as [->|Hp].
  - rewrite (proj2 (Z.eqb_neq _ _)), Ha by done. by apply Hk.
  - case_if; [by apply IH|]. by apply IH.
Qed.

Lemma add_all_perm me skip entries : forall l self,
  (add_all me skip entries l self).1 ≡ₚ filter (fun p => skip p = false) entries ++ l.
Proof.
  induction entries as [|pm entries IH]; intros l self; [done|]. cbn [add_all]. rewrite filter_cons, IH. destruct (skip pm).
  - by rewrite decide_False.
  - rewrite decide_True by done. cbn. by rewrite Permutation_middle.
Qed.

(** Ranks given in order. *)
Fixpoint number (i : Z) (l : list ptlid_map) : list ptlid_map :=
  match l with [] => [] | p :: l => set_id i p :: number (i + 1) l end.

Lemma gather_loop_eq l : forall i acc, gather_loop i l acc = rev (number i l) ++ acc.
Proof. induction l as [|p l IH]; intros i acc; [done|]. cbn. by rewrite IH, <- app_assoc. Qed.

(** Without MPI the list is the same when the processes connect in the order
    of their ranks. *)
Lemma joins_gather conparas : forall dc,
  let dc' := foldl (fun dc c => (dc_master_request dc c).1) dc conparas in
  dc_peers dc' = gather_loop (dc_rank_cnt dc) (map cn_pm_cp conparas) (dc_peers dc) /\
  dc_rank_cnt dc' = dc_rank_cnt dc + Z.of_nat (length conparas).
Proof.
  induction conparas as [|c l IH]; intros dc; [cbn; split; [done|lia]|].
  destruct (IH (dc_master_request dc c).1) as [H1 H2]. cbv zeta in H1, H2.
  cbn [foldl map gather_loop length]. cbv zeta. rewrite H1, H2. split; [done|].
  cbn [dc_rank_cnt dc_master_request fst set_dc_lists]. lia.
Qed.

Lemma ids_number l : forall i, ids (number i l) = seqZ i (Z.of_nat (length l)).
Proof.
  induction l as [|p l IH]; intros i; [done|]. cbn [number ids map length]. rewrite Nat2Z.inj_succ, seqZ_cons by lia.
  f_equal. change (map pm_id (number (i + 1) l)) with (ids (number (i + 1) l)). rewrite IH. f_equal; lia.
Qed.

Lemma number_length l : forall i, length (number i l) = length l.
Proof. induction l as [|p l IH]; intros i; [done|]. cbn. by rewrite IH. Qed.

Lemma elem_of_number l : forall i p, p ∈ number i l -> exists q j, q ∈ l /\ p = set_id j q /\ i <= j < i + Z.of_nat (length l).
Proof.
  induction l as [|q l IH]; intros i p; [by intros ?%not_elem_of_nil|]. cbn [number length]. intros [->|H]%elem_of_cons.
  - exists q, i. split; [apply list_elem_of_here|]. split; [done|lia].
  - apply IH in H as (q' & j & ? & ? & ?). exists q', j. split; [by apply list_elem_of_further|]. split; [done|lia].
Qed.

(** The loop of [dsrpc_cn_unregister] keeps the entries of the others. *)
Lemma unregister_loop_eq ds app appid l : app_find (ds_apps ds) appid = Some app ->
  unregister_loop all_ok ds appid l =
    Some (mjoin (map (fun p => [(pm_id p, cn_unregister_app appid); (pm_id p, cn_unregister_app appid)]) (filter is_slave l)),
          without appid l, Z.of_nat (length (members appid l))).
Proof.
  intros Ha. induction l as [|p l IH]; [done|]. cbn [unregister_loop]. rewrite IH.
  assert (Hm : (if is_slave p then r ← ds_remove_app all_ok ds p appid; Some r.1 else Some []) =
    Some (if is_slave p then [(pm_id p, cn_unregister_app appid); (pm_id p, cn_unregister_app appid)] else [])).
  { destruct (is_slave p); [|done]. unfold ds_remove_app. rewrite Ha. done. }
  rewrite Hm. cbn [mbind option_bind]. unfold without, members. rewrite !filter_cons.
  destruct (Z.eqb_spec (pm_appid p) appid) as [E|E].
  - rewrite (decide_False (P := pm_appid p <> appid)), (decide_True (P := pm_appid p = appid)) by tauto.
    destruct (is_slave p); [rewrite decide_True by done|rewrite decide_False by (intros []; done)]; cbn -[Z.of_nat]; repeat f_equal; lia.
  - rewrite (decide_True (P := pm_appid p <> appid)), (decide_False (P := pm_appid p = appid)) by tauto.
    destruct (is_slave p); [rewrite decide_True by done|rewrite decide_False by (intros []; done)]; done.
Qed.
