(* ===== verification/MembershipSystem.v ===== *)
(** * The processes of a deployment and their lists of peers

    The master server, the other servers and the master processes of the
    applications, with the operations of [Membership] and the messages
    between them.  Messages between two processes arrive in the order they
    were sent; the master server takes the requests of the clients in any
    order.  A step runs one handler to its end: handlers call
    [rpc_process_event] after some messages, which may run other handlers
    inside them; those runs are not steps here ([nested_unregister_follows_null]
    is one that goes wrong).  The messages of the master of an application
    to its other processes are not followed.  Nothing fails ([all_ok]).

    The theorems hold for every sequence of steps: no handler that is not
    interrupted by another writes or reads outside a buffer or follows a NULL
    pointer; the ids of the processes are
    unique and those of an application consecutive; the counters count; the
    servers agree on the members; a registered application knows all servers
    and its own processes. *)

From stdpp Require Import gmap relations.
From S2P Require Import Prelude Membership.

#[local] Open Scope Z_scope.

(** ** The deployment *)

Record slave := mk_sl { sl_ds : dart_server; sl_q : list msg }.
Record client := mk_cl { cl_dc : dart_client; cl_q : list msg; cl_unreg : bool }.

(** [ms] and [mq] are the master server and the requests of the clients to
    it; the other servers and the masters of the applications are kept by id,
    with the messages under way to them.  [sys_open] are the servers whose
    system channel to the master is open. *)
Record sys := mk_sys {
  ms : dart_server; mq : list msg; slaves : gmap Z slave; clients : gmap Z client; sys_open : gset Z; booted : bool }.

Inductive event :=
  | ev_server (addr : sockaddr_in)
  | ev_sys (k : Z)
  | ev_boot
  | ev_app (appid : Z) (addrs : list sockaddr_in)
  | ev_master (i : nat)
  | ev_slave (k : Z)
  | ev_client (c : Z)
  | ev_unreg (c : Z).

Definition push_sl (m : msg) (x : slave) : slave := mk_sl (sl_ds x) (sl_q x ++ [m]).
Definition push_cl (m : msg) (x : client) : client := mk_cl (cl_dc x) (cl_q x ++ [m]) (cl_unreg x).

(** A message under way: to the master server, a server or a client. *)
Definition post1 (s : sys) (p : packet) : sys :=
  if p.1 =? 0 then mk_sys (ms s) (mq s ++ [p.2]) (slaves s) (clients s) (sys_open s) (booted s)
  else mk_sys (ms s) (mq s) (alter (push_sl p.2) p.1 (slaves s)) (alter (push_cl p.2) p.1 (clients s)) (sys_open s) (booted s).

Definition post (s : sys) (ps : list packet) : sys := foldl post1 s ps.

Definition appid_of (x : client) : Z := pm_appid (dc_ptlmap (cl_dc x)).

Section System.
Context (dimes : bool) (conf : sockaddr_in) (nsp ncp : Z).

Definition master_entry : ptlid_map := mk_pm conf 0 0.

Definition sys_init : sys :=
  mk_sys (ds_boot_as_master (ds_alloc conf nsp ncp)) [] ∅ ∅ ∅ false.

(** When a process can take a step: servers are those of the deployment and
    have addresses of their own, an application runs once at a time. *)
Definition enabled (e : event) (s : sys) : Prop :=
  match e with
  | ev_server addr => sp_rank_cnt (ms s) < nsp /\ addr ∉ map pm_address (members 0 (ds_peers (ms s)))
  | ev_sys k => is_Some (slaves s !! k) /\ k ∉ sys_open s
  | ev_boot => booted s = false /\ s_connected (ms s) = 2 * (size_sp (ms s) - 1)
  | ev_app appid addrs => appid <> 0 /\ addrs <> [] /\ map_Forall (fun _ x => appid_of x <> appid) (clients s)
  | ev_master i => booted s = true /\ is_Some (mq s !! i)
  | ev_slave k => match slaves s !! k with Some x => sl_q x <> [] | None => False end
  | ev_client c => match clients s !! c with Some x => cl_q x <> [] | None => False end
  | ev_unreg c => match clients s !! c with Some x => dc_f_reg (cl_dc x) = true /\ cl_unreg x = false | None => False end
  end.

#[export] Instance enabled_dec e s : Decision (enabled e s).
Proof.
  destruct e as [| | | | |k|c|c]; cbn [enabled]; try apply _.
  - destruct (slaves s !! k) as [x|]; apply _.
  - destruct (clients s !! c) as [x|]; apply _.
  - destruct (clients s !! c) as [x|]; apply _.
Defined.

(** The first process of an application before it connects. *)
Definition app_start (appid : Z) (addrs : list sockaddr_in) : option dart_client :=
  me ← head addrs;
  Some (gather_peer_list (dc_boot_as_master (dc_alloc me (Z.of_nat (length addrs)) appid))
    (map (fun x => mk_pm x 0 appid) addrs)).

Definition exec (e : event) (s : sys) : option sys :=
  match e with
  | ev_server addr =>
      let d := (ds_boot_slave (ds_alloc addr nsp ncp) conf).1 in
      '(m, r) ← ds_master_request all_ok (ms s) (rpc_connect_param (ds_ptlmap d) master_entry (peer_size (ds_cnt d)));
      match r with
      | inl id => Some (mk_sys m (mq s) (<[id := mk_sl (ds_connected d id) []]> (slaves s)) (clients s) (sys_open s) (booted s))
      | inr _ => None
      end
  | ev_sys k =>
      x ← slaves s !! k;
      '(m, r) ← ds_master_request all_ok (ms s) (sys_connect_param (ds_ptlmap (sl_ds x)) master_entry (peer_size (ds_cnt (sl_ds x))));
      Some (mk_sys m (mq s) (slaves s) (clients s) ({[k]} ∪ sys_open s) (booted s))
  | ev_boot =>
      '(m, ps, err) ← ds_boot_master all_ok (ms s);
      Some (post (mk_sys m (mq s) (slaves s) (clients s) (sys_open s) true) ps)
  | ev_app appid addrs =>
      dc ← app_start appid addrs;
      '(m, r) ← ds_master_request all_ok (ms s) (rpc_connect_param (dc_ptlmap dc) master_entry (dc_peer_size dc));
      match r with
      | inl _ => None
      | inr reply =>
          let dc := dc_connected dc reply in
          '(ps, err) ← dc_disseminate all_ok dc;
          Some (post (mk_sys m (mq s) (slaves s) (<[pm_id (dc_ptlmap dc) := mk_cl dc [] false]> (clients s)) (sys_open s) (booted s)) ps)
      end
  | ev_master i =>
      r ← mq s !! i;
      '(m, ps, err) ← ds_service dimes all_ok (ms s) r;
      Some (post (mk_sys m (delete i (mq s)) (slaves s) (clients s) (sys_open s) (booted s)) ps)
  | ev_slave k =>
      x ← slaves s !! k;
      r ← head (sl_q x);
      '(d, ps, err) ← ds_service dimes all_ok (sl_ds x) r;
      Some (post (mk_sys (ms s) (mq s) (<[k := mk_sl d (tail (sl_q x))]> (slaves s)) (clients s) (sys_open s) (booted s)) ps)
  | ev_client c =>
      x ← clients s !! c;
      r ← head (cl_q x);
      '(d, ps, err) ← dc_service all_ok (cl_dc x) r;
      let cs := if cl_unreg x && negb (dc_f_reg d) then delete c (clients s)
                else <[c := mk_cl d (tail (cl_q x)) (cl_unreg x)]> (clients s) in
      Some (mk_sys (ms s) (mq s) (slaves s) cs (sys_open s) (booted s))
  | ev_unreg c =>
      x ← clients s !! c;
      '(ps, err) ← dc_unregister all_ok (cl_dc x);
      Some (post (mk_sys (ms s) (mq s) (slaves s) (<[c := mk_cl (cl_dc x) (cl_q x) true]> (clients s)) (sys_open s) (booted s)) ps)
  end.

Definition step (s s' : sys) : Prop := exists e, enabled e s /\ exec e s = Some s'.

Definition reach : sys -> Prop := rtc step sys_init.

(** A run of given steps; it stops at one that is not enabled. *)
Fixpoint run (es : list event) (s : sys) : sys :=
  match es with
  | [] => s
  | e :: es => if decide (enabled e s) then match exec e s with Some s' => run es s' | None => s end else s
  end.

Lemma members_run_reach es : forall s, reach s -> reach (run es s).
Proof.
  induction es as [|e es IH]; intros s R; [done|]. cbn [run]. destruct (decide (enabled e s)); [|done].
  destruct (exec e s) as [s'|] eqn:E; [|done]. apply IH. eapply rtc_r; [exact R|]. by exists e.
Qed.

(** ** Messages under way *)

(** What a server becomes when it has handled its messages. *)
Fixpoint run_ds (d : dart_server) (q : list msg) : option dart_server :=
  match q with
  | [] => Some d
  | m :: q => r ← ds_service dimes all_ok d m; run_ds r.1.1 q
  end.

Lemma run_ds_app d q1 q2 : run_ds d (q1 ++ q2) = d ← run_ds d q1; run_ds d q2.
Proof.
  revert d. induction q1 as [|m q1 IH]; intros d; [done|]. cbn [app run_ds].
  destruct (ds_service dimes all_ok d m) as [r|]; [apply IH|done].
Qed.

(** The client a request comes from; the requests of one client. *)
Definition sender (m : msg) : option Z :=
  match m with cp_disseminate_cs c _ | cn_unregister c => Some c | _ => None end.

Definition from (c : Z) (l : list msg) : list msg := filter (fun m => sender m = Some c) l.

(** ** The invariant *)

Definition sum_peers (l : list app_info) : Z := foldr (fun a n => app_num_peers a + n) 0 l.

(** Whether the servers were told of an entry. *)
Definition announced (apps : list app_info) (p : ptlid_map) : bool :=
  (pm_appid p =? 0) || match app_find apps (pm_appid p) with Some a => sent_announce a | None => false end.

(** An application at the master server: before its list has come only its
    master is known. *)
Record app_wf (m : dart_server) (a : app_info) : Prop := {
  ao_id : app_id a <> 0;
  ao_num : 1 <= app_num_peers a;
  ao_lo : nsp <= app_min_id a;
  ao_hi : app_min_id a + app_num_peers a <= cp_rank_cnt m;
  ao_cnt : app_cnt_peers a = if sent_announce a then app_num_peers a else 1;
  ao_ids : ids (members (app_id a) (ds_peers m)) ≡ₚ seqZ (app_min_id a) (app_cnt_peers a) }.

Record minv (m : dart_server) : Prop := {
  mi_fix : num_sp m = nsp /\ size_sp m = nsp /\ ds_self m = Some master_entry /\ ds_ptlmap m = master_entry;
  mi_cp : nsp <= cp_rank_cnt m;
  mi_ids : NoDup (ids (ds_peers m));
  mi_srv : ids (members 0 (ds_peers m)) ≡ₚ seqZ 0 (sp_rank_cnt m);
  mi_rank : 1 <= sp_rank_cnt m <= nsp;
  mi_master : master_entry ∈ ds_peers m;
  mi_addr : NoDup (map pm_address (members 0 (ds_peers m)));
  mi_apps : NoDup (map app_id (ds_apps m));
  mi_app : forall a, a ∈ ds_apps m -> app_wf m a;
  mi_disj : forall a b, a ∈ ds_apps m -> b ∈ ds_apps m -> a <> b ->
    app_min_id a + app_num_peers a <= app_min_id b \/ app_min_id b + app_num_peers b <= app_min_id a;
  mi_client : forall p, p ∈ ds_peers m -> pm_appid p <> 0 -> exists a, a ∈ ds_apps m /\ app_id a = pm_appid p;
  mi_size : current_client_size (ds_cnt m) = Z.of_nat (length (without 0 (ds_peers m)));
  mi_cnt : num_cp (ds_cnt m) = ncp + sum_peers (ds_apps m) /\ size_cp (ds_cnt m) = ncp + sum_peers (ds_apps m) /\
    peer_size (ds_cnt m) = nsp + ncp + sum_peers (ds_apps m) }.

(** The entries of an application as its master numbers them. *)
Definition entries (c appid : Z) (addrs : list sockaddr_in) : list ptlid_map := number c (map (fun x => mk_pm x 0 appid) addrs).

(** The master of an application between its connection and the answer of
    the master server. *)
Record waiting_ok (dc : dart_client) (c : Z) (addrs : list sockaddr_in) : Prop := {
  wo_peers : dc_peers dc = master_entry :: rev (entries c (pm_appid (dc_ptlmap dc)) addrs);
  wo_size : dc_peer_size dc = Z.of_nat (length addrs);
  wo_me : pm_id (dc_ptlmap dc) = c;
  wo_self : exists self, dc_self dc = Some self /\ pm_id self = c /\ pm_appid self = pm_appid (dc_ptlmap dc);
  wo_min : app_minid dc = c /\ cp_min_rank dc = c;
  wo_reg : dc_f_reg dc = false }.

(** A client that runs: it answers requests, its self entry is that of the
    master of the application. *)
Record alive (dc : dart_client) (c appid : Z) : Prop := {
  al_me : pm_id (dc_ptlmap dc) = c;
  al_self : exists self, dc_self dc = Some self /\ pm_id self = c /\ pm_appid self = appid;
  al_min : cp_min_rank dc = c;
  al_reg : dc_f_reg dc = true;
  al_master : master_entry ∈ dc_peers dc }.

(** An entry of another application, which has other ids. *)
Definition far (a : app_info) (p : ptlid_map) : Prop :=
  pm_appid p <> 0 /\ pm_appid p <> app_id a /\ nsp <= pm_id p /\
  (pm_id p < app_min_id a \/ app_min_id a + app_num_peers a <= pm_id p).

(** A client that has the answer: servers and own processes are known once. *)
Record registered_ok (m : dart_server) (dc : dart_client) (a : app_info) : Prop := {
  ro_alive : alive dc (app_min_id a) (app_id a);
  ro_peers : filter (fun p => pm_appid p = 0 \/ pm_appid p = app_id a) (dc_peers dc) ≡ₚ
    members 0 (ds_peers m) ++ members (app_id a) (ds_peers m);
  ro_far : forall p, p ∈ dc_peers dc -> pm_appid p <> 0 -> pm_appid p <> app_id a -> far a p;
  ro_len : Z.of_nat (length (dc_peers dc)) = dc_num_cp dc + dc_num_sp dc }.

(** News of other applications. *)
Definition news (a : app_info) (r : msg) : Prop :=
  exists h l rest, r = sp_announce_app h (map Some l ++ rest) /\ hr_num_cp h = Z.of_nat (length l) /\ forall p, p ∈ l -> far a p.

(** The answer of the master server. *)
Definition answer (m : dart_server) (a : app_info) (r : msg) : Prop :=
  exists h l rest, r = sp_announce_cp h (map Some l ++ rest) /\ hr_num_sp h = nsp /\
    hr_num_cp h + nsp - app_num_peers a - 1 = Z.of_nat (length l) /\
    filter (fun p => pm_appid p = 0) l ++ [master_entry] ≡ₚ members 0 (ds_peers m) /\
    forall p, p ∈ l -> pm_appid p <> 0 -> far a p.

Inductive client_ok (m : dart_server) (b : bool) (q : list msg) (c : Z) (x : client) : Prop :=
  | co_waiting a addrs :
      app_find (ds_apps m) (appid_of x) = Some a -> app_min_id a = c -> sent_announce a = false ->
      app_num_peers a = Z.of_nat (length addrs) ->
      members (appid_of x) (ds_peers m) = take 1 (entries c (appid_of x) addrs) ->
      waiting_ok (cl_dc x) c addrs -> cl_q x = [] -> cl_unreg x = false ->
      from c q = [cp_disseminate_cs c (map Some (rev (entries c (appid_of x) addrs)))] ->
      client_ok m b q c x
  | co_answered a addrs r rest :
      b = true -> app_find (ds_apps m) (appid_of x) = Some a -> app_min_id a = c -> sent_announce a = true ->
      app_num_peers a = Z.of_nat (length addrs) ->
      members (appid_of x) (ds_peers m) ≡ₚ entries c (appid_of x) addrs ->
      waiting_ok (cl_dc x) c addrs -> cl_unreg x = false ->
      cl_q x = r :: rest -> answer m a r -> Forall (news a) rest -> from c q = [] ->
      client_ok m b q c x
  | co_member a :
      b = true -> app_find (ds_apps m) (appid_of x) = Some a -> app_min_id a = c -> sent_announce a = true ->
      registered_ok m (cl_dc x) a -> Forall (news a) (cl_q x) ->
      from c q = (if cl_unreg x then [cn_unregister c] else []) ->
      client_ok m b q c x
  | co_left a rest i :
      app_find (ds_apps m) (appid_of x) = None -> cl_unreg x = true -> alive (cl_dc x) c (appid_of x) ->
      cl_q x = rest ++ [cn_unregister i] -> Forall (news a) rest -> from c q = [] ->
      client_ok m b q c x.

(** What the master server sends to the others. *)
Definition slave_msg (r : msg) : Prop :=
  match r with sp_announce_cp _ _ | sp_announce_app _ _ | cn_unregister_app _ => True | _ => False end.

(** A server: once it has handled its messages, it knows the entries the
    servers were told of. *)
Record slave_ok (m : dart_server) (b : bool) (k : Z) (x : slave) (d : dart_server) : Prop := {
  so_run : run_ds (sl_ds x) (sl_q x) = Some d;
  so_me : ds_ptlmap (sl_ds x) ∈ ds_peers m /\ pm_id (ds_ptlmap (sl_ds x)) = k /\ pm_appid (ds_ptlmap (sl_ds x)) = 0;
  so_pos : k <> 0;
  so_msgs : Forall slave_msg (sl_q x);
  so_fix : ds_ptlmap d = ds_ptlmap (sl_ds x) /\ num_sp d = nsp;
  so_list : if b then ds_peers d ≡ₚ filter (announced (ds_apps m)) (ds_peers m) /\
                      ds_self d = Some (ds_ptlmap d) /\ ds_f_reg d = true
            else sl_q x = [] /\ ds_peers d = [master_entry] }.

Record inv (s : sys) : Prop := {
  iv_m : minv (ms s);
  iv_slaves : forall k x, slaves s !! k = Some x -> exists d, slave_ok (ms s) (booted s) k x d;
  iv_clients : forall c x, clients s !! c = Some x -> client_ok (ms s) (booted s) (mq s) c x;
  iv_senders : forall r, r ∈ mq s -> exists c x, sender r = Some c /\ clients s !! c = Some x;
  iv_owner : forall a, a ∈ ds_apps (ms s) -> exists x, clients s !! app_min_id a = Some x /\ appid_of x = app_id a;
  iv_once : forall c1 c2 x1 x2, clients s !! c1 = Some x1 -> clients s !! c2 = Some x2 -> appid_of x1 = appid_of x2 -> c1 = c2;
  iv_keys : forall c x, clients s !! c = Some x -> nsp <= c < cp_rank_cnt (ms s);
  iv_size : Z.of_nat (size (slaves s)) = sp_rank_cnt (ms s) - 1;
  iv_open : sys_open s ⊆ dom (slaves s);
  iv_conn : s_connected (ms s) = sp_rank_cnt (ms s) - 1 + Z.of_nat (size (sys_open s));
  iv_boot : booted s = true -> sp_rank_cnt (ms s) = nsp }.

(** ** The lists of the master server *)

Lemma filter_same {A} (P Q : A -> Prop) {D : forall x, Decision (P x)} {E : forall x, Decision (Q x)} (l : list A) :
  (forall x, x ∈ l -> P x <-> Q x) -> filter P l = filter Q l.
Proof.
  induction l as [|x l IH]; intros H; [done|]. rewrite !list.filter_cons.
  rewrite (decide_ext (P x) (Q x)) by (apply H, list_elem_of_here). rewrite IH; [done|].
  intros y Hy. apply H. by apply list_elem_of_further.
Qed.

Lemma members_cons a p l : members a (p :: l) = if pm_appid p =? a then p :: members a l else members a l.
Proof.
  unfold members. rewrite filter_cons. destruct (Z.eqb_spec (pm_appid p) a); [by rewrite decide_True|by rewrite decide_False].
Qed.

Lemma without_cons a p l : without a (p :: l) = if pm_appid p =? a then without a l else p :: without a l.
Proof.
  unfold without. rewrite filter_cons. destruct (Z.eqb_spec (pm_appid p) a); [by rewrite decide_False by tauto|by rewrite decide_True].
Qed.

Lemma elem_of_members a p l : p ∈ members a l <-> pm_appid p = a /\ p ∈ l.
Proof. unfold members. by rewrite list_elem_of_filter. Qed.

Lemma members_all a l : (forall p, p ∈ l -> pm_appid p = a) -> members a l = l.
Proof. apply filter_all. Qed.

Lemma members_none a l : (forall p, p ∈ l -> pm_appid p <> a) -> members a l = [].
Proof. apply filter_none. Qed.

Lemma members_without a b l : a <> b -> members a (without b l) = members a l.
Proof.
  intros H. induction l as [|p l IH]; [done|]. rewrite without_cons, members_cons.
  destruct (Z.eqb_spec (pm_appid p) b), (Z.eqb_spec (pm_appid p) a); subst; rewrite ?members_cons, ?IH; try done.
  - by rewrite Z.eqb_refl.
  - by rewrite (proj2 (Z.eqb_neq _ _)) by done.
Qed.

Lemma members_app a l k : members a (l ++ k) = members a l ++ members a k.
Proof. apply list.filter_app. Qed.

Lemma members_rev a l : members a (rev l) = rev (members a l).
Proof.
  induction l as [|p l IH]; [done|]. cbn [rev]. rewrite members_app, IH, !members_cons.
  destruct (pm_appid p =? a); cbn; by rewrite ?app_nil_r.
Qed.

Lemma split_members a l : l ≡ₚ members a l ++ without a l.
Proof.
  induction l as [|p l IH]; [done|]. rewrite members_cons, without_cons. destruct (pm_appid p =? a); cbn.
  - by rewrite <- IH.
  - by rewrite <- Permutation_middle, <- IH.
Qed.

Lemma length_without a l : length l = (length (members a l) + length (without a l))%nat.
Proof. rewrite (split_members a l) at 1. apply length_app. Qed.

Lemma ids_sublist a l : NoDup (ids l) -> NoDup (ids (members a l)).
Proof. intros H. eapply sublist_NoDup; [exact H|]. apply fmap_sublist, sublist_filter. Qed.

Lemma seqZ_one x : seqZ x 1 = [x].
Proof. done. Qed.

Lemma sum_peers_upd f b l : (forall x, app_num_peers (f x) = app_num_peers x) -> sum_peers (upd_app f b l) = sum_peers l.
Proof.
  intros Hf. unfold sum_peers. induction l as [|x l IH]; [done|]. cbn [upd_app]. case_if; cbn [foldr]; [by rewrite Hf|by rewrite IH].
Qed.

Lemma sum_peers_del a l : NoDup (map app_id l) -> a ∈ l -> sum_peers (del_app (app_id a) l) = sum_peers l - app_num_peers a.
Proof.
  unfold sum_peers. induction l as [|x l IH]; [by intros _ ?%not_elem_of_nil|].
  cbn [map del_app foldr]. intros [Hx Hn]%list.NoDup_cons [->|H]%elem_of_cons.
  - rewrite Z.eqb_refl. lia.
  - case_if; [zbool; destruct Hx; rewrite E; by apply list_elem_of_fmap_2|]. cbn [foldr]. rewrite IH by done. lia.
Qed.

(** *** Facts of the invariant *)

Lemma server_range m p : minv m -> p ∈ ds_peers m -> pm_appid p = 0 -> 0 <= pm_id p < sp_rank_cnt m.
Proof.
  intros M Hp Ha. assert (H : pm_id p ∈ ids (members 0 (ds_peers m))) by (apply ids_elem, elem_of_members; done).
  rewrite (mi_srv m M) in H. apply elem_of_seqZ in H. lia.
Qed.

Lemma app_range m a p : minv m -> a ∈ ds_apps m -> p ∈ ds_peers m -> pm_appid p = app_id a ->
  app_min_id a <= pm_id p < app_min_id a + app_cnt_peers a.
Proof.
  intros M Ha Hp He. assert (H : pm_id p ∈ ids (members (app_id a) (ds_peers m))) by (apply ids_elem, elem_of_members; done).
  rewrite (ao_ids _ _ (mi_app m M a Ha)) in H. apply elem_of_seqZ in H. lia.
Qed.

Lemma app_cnt_le m a : minv m -> a ∈ ds_apps m -> 1 <= app_cnt_peers a <= app_num_peers a.
Proof.
  intros M Ha. pose proof (mi_app m M a Ha) as [_ Hn _ _ -> _]. destruct (sent_announce a); lia.
Qed.

Lemma client_range m p : minv m -> p ∈ ds_peers m -> pm_appid p <> 0 -> nsp <= pm_id p < cp_rank_cnt m.
Proof.
  intros M Hp H. destruct (mi_client m M p Hp H) as (a & Ha & He).
  pose proof (app_range m a p M Ha Hp (eq_sym He)). pose proof (app_cnt_le m a M Ha). pose proof (mi_app m M a Ha) as [_ _ Hl Hh _ _]. lia.
Qed.

(** Ids identify the entries. *)
Lemma minv_find m p : minv m -> p ∈ ds_peers m -> rpc_server_find (ds_peers m) (pm_id p) = Some p.
Proof. intros M. apply find_unique, (mi_ids m M). Qed.

(** The entry of the first process of an application. *)
Lemma app_master m a : minv m -> a ∈ ds_apps m ->
  exists p, rpc_server_find (ds_peers m) (app_min_id a) = Some p /\ p ∈ ds_peers m /\ pm_id p = app_min_id a /\ pm_appid p = app_id a.
Proof.
  intros M Ha. pose proof (app_cnt_le m a M Ha) as Hc.
  assert (H : app_min_id a ∈ ids (members (app_id a) (ds_peers m))).
  { rewrite (ao_ids _ _ (mi_app m M a Ha)). apply elem_of_seqZ. lia. }
  apply list_elem_of_fmap in H as (p & He & [Hp Hin]%elem_of_members). exists p. rewrite He. split; [by apply minv_find|]. done.
Qed.

(** Entries of different applications are far from each other. *)
Lemma others_far m a p : minv m -> a ∈ ds_apps m -> p ∈ ds_peers m -> pm_appid p <> 0 -> pm_appid p <> app_id a -> far a p.
Proof.
  intros M Ha Hp H0 Hn. split; [done|]. split; [done|]. pose proof (client_range m p M Hp H0). split; [lia|].
  destruct (mi_client m M p Hp H0) as (b & Hb & He). pose proof (app_range m b p M Hb Hp (eq_sym He)).
  pose proof (app_cnt_le m b M Hb). destruct (mi_disj m M a b Ha Hb); [congruence|lia|lia].
Qed.

Lemma members_len m a : minv m -> a ∈ ds_apps m -> Z.of_nat (length (members (app_id a) (ds_peers m))) = app_cnt_peers a.
Proof.
  intros M Ha. pose proof (app_cnt_le m a M Ha). rewrite <- (length_map pm_id). fold (ids (members (app_id a) (ds_peers m))).
  rewrite (ao_ids _ _ (mi_app m M a Ha)). rewrite length_seqZ. lia.
Qed.

Lemma servers_len m : minv m -> Z.of_nat (length (members 0 (ds_peers m))) = sp_rank_cnt m.
Proof.
  intros M. rewrite <- (length_map pm_id). fold (ids (members 0 (ds_peers m))). rewrite (mi_srv m M), length_seqZ.
  pose proof (mi_rank m M). lia.
Qed.

(** *** A server connects *)

Definition server_added (m : dart_server) (addr : sockaddr_in) : dart_server :=
  set_ranks (s_connected m + 1) (sp_rank_cnt m + 1) (cp_rank_cnt m) (lst_id_min m)
    (set_peers (mk_pm addr (sp_rank_cnt m) 0 :: ds_peers m) m).

Lemma server_request m addr n : ds_master_request all_ok m (rpc_connect_param (mk_pm addr 0 0) master_entry n) =
  Some (server_added m addr, inl (sp_rank_cnt m)).
Proof. reflexivity. Qed.

Lemma server_added_minv m addr : minv m -> sp_rank_cnt m < nsp -> addr ∉ map pm_address (members 0 (ds_peers m)) ->
  minv (server_added m addr).
Proof.
  intros M Hr Ha. pose proof (mi_rank m M) as Hrk. pose proof (mi_cp m M) as Hcp.
  assert (Hf : forall a, a <> 0 -> members a (mk_pm addr (sp_rank_cnt m) 0 :: ds_peers m) = members a (ds_peers m)).
  { intros a H. rewrite members_cons. cbn [pm_appid]. by rewrite (proj2 (Z.eqb_neq _ _)) by congruence. }
  split; try exact (mi_fix m M); cbn [server_added set_ranks set_peers ds_peers ds_apps cp_rank_cnt sp_rank_cnt ds_cnt].
  - done.
  - cbn [ids map pm_id]. apply list.NoDup_cons. split; [|exact (mi_ids m M)]. intros H.
    apply list_elem_of_fmap in H as (p & He & Hp).
    destruct (decide (pm_appid p = 0)) as [H0|H0].
    + pose proof (server_range m p M Hp H0). lia.
    + pose proof (client_range m p M Hp H0). lia.
  - rewrite members_cons. cbn [pm_appid Z.eqb]. cbn [ids map pm_id]. fold (ids (members 0 (ds_peers m))).
    rewrite (mi_srv m M), seqZ_app, seqZ_one by lia. by rewrite Z.add_0_l, Permutation_app_comm.
  - lia.
  - apply list_elem_of_further, (mi_master m M).
  - rewrite members_cons. cbn. apply list.NoDup_cons. split; [done|exact (mi_addr m M)].
  - exact (mi_apps m M).
  - intros a Hin. pose proof (mi_app m M a Hin) as [H1 H2 H3 H4 H5 H6]. split; try done.
    cbn [server_added set_ranks set_peers ds_peers]. by rewrite Hf.
  - exact (mi_disj m M).
  - intros p [->|Hp]%elem_of_cons H; [done|]. by apply (mi_client m M).
  - rewrite without_cons. cbn. exact (mi_size m M).
  - exact (mi_cnt m M).
Qed.

(** *** An application registers *)

Definition app_added (m : dart_server) (me : sockaddr_in) (a n : Z) : dart_server :=
  set_ranks (s_connected m) (sp_rank_cnt m) (cp_rank_cnt m + n) (Some (cp_rank_cnt m))
    (set_peers (mk_pm me (cp_rank_cnt m) a :: ds_peers m)
      (set_apps (mk_app a (cp_rank_cnt m) n 1 false :: ds_apps m)
        (set_cnt (add_cp n (add_clients 1 (ds_cnt m))) m))).

Lemma app_request m me a n : minv m -> app_find (ds_apps m) a = None -> a <> 0 -> 1 <= n ->
  ds_master_request all_ok m (rpc_connect_param (mk_pm me 0 a) master_entry n) =
    Some (app_added m me a n,
      inr (mk_con (mk_pm me (cp_rank_cnt m) a) master_entry (nsp + (current_client_size (ds_cnt m) + 1) - 1) (cp_rank_cnt m))).
Proof.
  intros M Hn Ha H1. destruct (mi_fix m M) as (F1 & F2 & F3 & F4).
  unfold ds_master_request, rpc_connect_param. cbn [cn_type cn_pm_cp Z.eqb pm_appid cn_num_cp].
  rewrite (proj2 (Z.eqb_neq a 0)), Hn by done. unfold dsrpc_cn_register.
  cbn [set_peers set_cnt ds_apps lh_pm_cp pm_appid]. rewrite Hn. cbn [app_ok all_ok].
  unfold cn_register_app.
  cbn [app_cnt_peers app_num_peers app_min_id app_id set_ranks set_apps set_peers set_cnt ds_peers ds_apps ds_cnt lh_num_cp
    s_connected sp_rank_cnt cp_rank_cnt num_sp lh_pm_cp lh_id_min lst_id_min].
  rewrite (proj2 (Z.eqb_neq 0 n)) by lia. cbn [upd_app app_id fst snd]. rewrite Z.eqb_refl, Z.add_0_r.
  cbn [rpc_server_find set_id pm_id pm_address pm_appid lh_pm_cp ds_peers set_peers set_apps]. rewrite Z.eqb_refl.
  unfold master_reply. cbn [mbind option_bind lh_id_min set_ranks set_peers set_apps set_cnt ds_ptlmap num_sp ds_cnt add_cp add_clients current_client_size].
  rewrite F4, F1. done.
Qed.

Lemma app_added_minv m me a n : minv m -> app_find (ds_apps m) a = None -> a <> 0 -> 1 <= n -> minv (app_added m me a n).
Proof.
  intros M Hn Ha H1. pose proof (mi_cp m M) as Hcp. apply app_find_none in Hn.
  assert (Hl : forall p, p ∈ ds_peers m -> pm_id p < cp_rank_cnt m).
  { intros p Hp. destruct (decide (pm_appid p = 0)) as [H0|H0].
    - pose proof (server_range m p M Hp H0). pose proof (mi_rank m M). lia.
    - pose proof (client_range m p M Hp H0). lia. }
  assert (Hno : forall p, p ∈ ds_peers m -> pm_appid p <> a).
  { intros p Hp E. destruct (mi_client m M p Hp) as (b & Hb & He); [congruence|]. apply Hn. rewrite <- E, <- He. by apply list_elem_of_fmap_2. }
  assert (Hf : forall b, b <> a -> members b (mk_pm me (cp_rank_cnt m) a :: ds_peers m) = members b (ds_peers m)).
  { intros b H. rewrite members_cons. cbn [pm_appid]. by rewrite (proj2 (Z.eqb_neq _ _)) by congruence. }
  destruct (mi_cnt m M) as (C1 & C2 & C3).
  split; try exact (mi_fix m M);
    cbn [app_added set_ranks set_peers set_apps set_cnt ds_peers ds_apps cp_rank_cnt sp_rank_cnt ds_cnt].
  - lia.
  - cbn [ids map pm_id]. apply list.NoDup_cons. split; [|exact (mi_ids m M)]. intros H.
    apply list_elem_of_fmap in H as (p & He & Hp). specialize (Hl p Hp). lia.
  - rewrite Hf by congruence. exact (mi_srv m M).
  - exact (mi_rank m M).
  - apply list_elem_of_further, (mi_master m M).
  - rewrite Hf by congruence. exact (mi_addr m M).
  - cbn. apply list.NoDup_cons. split; [done|exact (mi_apps m M)].
  - intros b [->|Hin]%elem_of_cons.
    + split; cbn [app_id app_num_peers app_min_id app_cnt_peers sent_announce app_added set_ranks set_peers set_apps set_cnt ds_peers cp_rank_cnt]; try lia.
      rewrite members_cons. cbn [pm_appid]. rewrite Z.eqb_refl, members_none by done. done.
    + pose proof (mi_app m M b Hin) as [A1 A2 A3 A4 A5 A6]. split; try done; cbn [app_added set_ranks set_peers set_apps set_cnt ds_peers cp_rank_cnt].
      * lia.
      * rewrite Hf; [done|]. intros E. apply Hn. rewrite <- E. by apply list_elem_of_fmap_2.
  - intros b b' [->|Hb]%elem_of_cons [->|Hb']%elem_of_cons Hne; [done| | |by apply (mi_disj m M)]; cbn.
    + pose proof (mi_app m M b' Hb') as [_ _ _ ? _ _]. lia.
    + pose proof (mi_app m M b Hb) as [_ _ _ ? _ _]. lia.
  - intros p [->|Hp]%elem_of_cons H; [eexists; split; [apply list_elem_of_here|done]|].
    destruct (mi_client m M p Hp H) as (b & Hb & He). exists b. split; [by apply list_elem_of_further|done].
  - rewrite without_cons. cbn [pm_appid add_cp add_clients current_client_size]. rewrite (proj2 (Z.eqb_neq _ _)) by done.
    rewrite (mi_size m M). cbn [length]. lia.
  - cbn. fold (sum_peers (ds_apps m)). lia.
Qed.

(** *** The list of an application arrives *)

Lemma entries_length c a addrs : length (entries c a addrs) = length addrs.
Proof. unfold entries. by rewrite number_length, length_map. Qed.

Lemma entries_ids c a addrs : ids (entries c a addrs) = seqZ c (Z.of_nat (length addrs)).
Proof. unfold entries. by rewrite ids_number, length_map. Qed.

Lemma entries_appid c a addrs p : p ∈ entries c a addrs -> pm_appid p = a.
Proof.
  intros (q & j & Hq & -> & _)%elem_of_number. apply list_elem_of_fmap in Hq as (x & -> & _). done.
Qed.

Lemma entries_cons c a addrs : addrs <> [] ->
  exists e es, entries c a addrs = e :: es /\ take 1 (entries c a addrs) = [e] /\
    take (length addrs - 1) (rev (entries c a addrs)) = rev es /\ length es = (length addrs - 1)%nat.
Proof.
  intros H. pose proof (entries_length c a addrs) as Hl. destruct (entries c a addrs) as [|e es].
  - destruct addrs; [done|discriminate].
  - exists e, es. cbn in Hl. split; [done|]. split; [done|]. split; [|lia]. cbn [rev].
    rewrite take_app_length'; [done|]. rewrite length_rev. lia.
Qed.

(** The other entries of a list whose ids are unique. *)
Lemma take_out (l : list ptlid_map) p : NoDup (ids l) -> p ∈ l -> l ≡ₚ p :: filter (fun q => pm_id q <> pm_id p) l.
Proof.
  induction l as [|q l IH]; [by intros _ ?%not_elem_of_nil|]. cbn [ids map]. intros [Hq Hn]%list.NoDup_cons Hp.
  rewrite list.filter_cons. apply elem_of_cons in Hp as [->|Hp].
  - rewrite decide_False by tauto. f_equiv. clear IH. induction l as [|x l IH]; [done|].
    cbn [ids map] in *. apply not_elem_of_cons in Hq as [? ?]. rewrite list.filter_cons, decide_True by congruence.
    f_equiv. apply IH; [done|]. by apply list.NoDup_cons in Hn as [_ ?].
  - rewrite decide_True by (intros E; apply Hq; rewrite E; by apply ids_elem).
    rewrite (IH Hn Hp) at 1. by rewrite Permutation_swap.
Qed.

Definition wants_news (a : Z) (b : app_info) : Prop := app_id b <> a /\ sent_announce b = true.
#[local] Instance wants_news_dec a b : Decision (wants_news a b) := _.

Lemma wants_news_upd f a l : keeps_id f -> filter (wants_news a) (upd_app f a l) = filter (wants_news a) l.
Proof.
  intros Hf. induction l as [|b l IH]; [done|]. cbn [upd_app]. case_if; zbool; rewrite !list.filter_cons.
  - rewrite !decide_False by (intros [? _]; rewrite ?Hf in *; done). done.
  - by rewrite IH.
Qed.

Lemma announce_apps_ok ds a r l : (forall b, b ∈ l -> wants_news a b ->
    exists p, rpc_server_find (ds_peers ds) (app_min_id b) = Some p /\ ds_disseminate_app all_ok ds p a = Some ([(app_min_id b, r)], 0)) ->
  announce_apps all_ok ds a l = Some (map (fun b => (app_min_id b, r)) (filter (wants_news a) l)).
Proof.
  induction l as [|b l IH]; intros H; [done|]. cbn [announce_apps]. rewrite list.filter_cons.
  assert (Hl : forall b, b ∈ l -> wants_news a b -> exists p, rpc_server_find (ds_peers ds) (app_min_id b) = Some p /\
    ds_disseminate_app all_ok ds p a = Some ([(app_min_id b, r)], 0)).
  { intros b' Hb'. apply H. by apply list_elem_of_further. }
  destruct (negb (app_id b =? a) && sent_announce b) eqn:E.
  - zbool. rewrite decide_True by (split; done).
    destruct (H b (list_elem_of_here b l)) as (p & -> & Hp); [split; done|]. cbn [mbind option_bind]. rewrite Hp, (IH Hl). done.
  - rewrite decide_False, (IH Hl); [done|]. intros [H1 H2]. rewrite H2, (proj2 (Z.eqb_neq _ _)) in E by done. done.
Qed.

Definition full_app (a : app_info) : app_info := mk_app (app_id a) (app_min_id a) (app_num_peers a) (app_num_peers a) true.

(** The state after the completion of the list of [a], whose entries but the
    first are [es]. *)
Definition completed (m : dart_server) (a : app_info) (es : list ptlid_map) : dart_server :=
  set_peers (es ++ ds_peers m)
    (set_apps (upd_app full_app (app_id a) (ds_apps m))
      (set_cnt (add_clients (app_num_peers a - 1) (ds_cnt m)) m)).

Section Completion.
Context (m : dart_server) (M : minv m) (a : app_info) (Ha : a ∈ ds_apps m) (Hs : sent_announce a = false).
Context (addrs : list sockaddr_in) (e : ptlid_map) (es : list ptlid_map).
Context (Hn : app_num_peers a = Z.of_nat (length addrs)).
Context (HE : entries (app_min_id a) (app_id a) addrs = e :: es).
Context (Hm : members (app_id a) (ds_peers m) = [e]).

Lemma es_appid p : p ∈ es -> pm_appid p = app_id a.
Proof using HE. intros Hp. apply (entries_appid (app_min_id a) _ addrs). rewrite HE. by apply list_elem_of_further. Qed.

Lemma es_ids : pm_id e = app_min_id a /\ ids es = seqZ (app_min_id a + 1) (app_num_peers a - 1).
Proof using HE Hn M Ha.
  pose proof (entries_ids (app_min_id a) (app_id a) addrs) as H. rewrite HE, <- Hn in H.
  pose proof (mi_app m M a Ha) as [_ H1 _ _ _ _]. cbn [ids map] in H.
  rewrite seqZ_cons in H by lia. injection H as H1' H2. split; [done|]. unfold ids. rewrite H2. f_equal; lia.
Qed.

Lemma es_length : Z.of_nat (length es) = app_num_peers a - 1.
Proof using HE Hn M Ha.
  destruct es_ids as [_ H]. rewrite <- (length_map pm_id). fold (ids es). rewrite H, length_seqZ.
  pose proof (mi_app m M a Ha) as [_ H1 _ _ _ _]. lia.
Qed.

Lemma completed_apps : ds_apps (completed m a es) = map (fun x => if app_id x =? app_id a then full_app x else x) (ds_apps m).
Proof using M. cbn. by rewrite upd_app_eq by apply (mi_apps m M). Qed.

Lemma app_unique b : b ∈ ds_apps m -> app_id b = app_id a -> b = a.
Proof using M Ha.
  intros Hb E. pose proof (app_find_unique _ b (mi_apps m M) Hb) as H1.
  rewrite E, (app_find_unique _ a (mi_apps m M) Ha) in H1. congruence.
Qed.

Lemma completed_members b : members b (ds_peers (completed m a es)) =
  if b =? app_id a then es ++ [e] else members b (ds_peers m).
Proof using HE Hm.
  cbn [completed set_peers ds_peers]. rewrite members_app. destruct (Z.eqb_spec b (app_id a)) as [->|Hb].
  - by rewrite Hm, members_all by apply es_appid.
  - rewrite members_none; [done|]. intros p Hp. rewrite (es_appid p Hp). congruence.
Qed.

Lemma elem_of_completed b : b ∈ ds_apps (completed m a es) -> b = full_app a \/ (b ∈ ds_apps m /\ app_id b <> app_id a).
Proof using M Ha.
  rewrite completed_apps. intros (x & -> & Hx)%list_elem_of_fmap. destruct (Z.eqb_spec (app_id x) (app_id a)) as [E|E].
  - left. by rewrite (app_unique x Hx E).
  - by right.
Qed.

Lemma completed_minv : minv (completed m a es).
Proof using All.
  pose proof (mi_app m M a Ha) as [A1 A2 A3 A4 A5 A6]. destruct es_ids as [I1 I2].
  assert (Hc : members 0 (ds_peers (completed m a es)) = members 0 (ds_peers m)).
  { rewrite completed_members. by rewrite (proj2 (Z.eqb_neq _ _)) by congruence. }
  assert (Hi : map app_id (ds_apps (completed m a es)) = map app_id (ds_apps m)) by (cbn; by rewrite upd_app_ids).
  split; try exact (mi_fix m M).
  - exact (mi_cp m M).
  - cbn [completed set_peers ds_peers]. unfold ids. rewrite map_app. fold (ids es) (ids (ds_peers m)).
    apply list.NoDup_app. split; [rewrite I2; apply NoDup_seqZ|]. split; [|exact (mi_ids m M)].
    intros x Hx (p & -> & Hp)%list_elem_of_fmap. rewrite I2 in Hx. apply elem_of_seqZ in Hx.
    destruct (decide (pm_appid p = 0)) as [H0|H0]; [pose proof (server_range m p M Hp H0); pose proof (mi_rank m M); lia|].
    destruct (decide (pm_appid p = app_id a)) as [E|E].
    + pose proof (app_range m a p M Ha Hp E). rewrite A5, Hs in *. lia.
    + pose proof (others_far m a p M Ha Hp H0 E) as (_ & _ & _ & ?). lia.
  - rewrite Hc. exact (mi_srv m M).
  - exact (mi_rank m M).
  - cbn. apply elem_of_app. right. exact (mi_master m M).
  - rewrite Hc. exact (mi_addr m M).
  - rewrite Hi. exact (mi_apps m M).
  - intros b [->|[Hb Hne]]%elem_of_completed.
    + split; cbn [full_app app_id app_num_peers app_min_id app_cnt_peers sent_announce]; try done.
      rewrite completed_members, Z.eqb_refl. unfold ids. rewrite map_app. fold (ids es). rewrite I2. cbn [map]. rewrite I1.
      rewrite (seqZ_cons (app_min_id a)) by lia. rewrite Permutation_app_comm. cbn. by rewrite Z.sub_1_r.
    + pose proof (mi_app m M b Hb) as [B1 B2 B3 B4 B5 B6]. split; try done. by rewrite completed_members, (proj2 (Z.eqb_neq _ _)).
  - intros b b' [->|[Hb Hne]]%elem_of_completed [->|[Hb' Hne']]%elem_of_completed Hd; [done| | |by apply (mi_disj m M)];
      cbn [full_app app_min_id app_num_peers].
    + apply (mi_disj m M a b'); [done|done|congruence].
    + apply (mi_disj m M b a); [done|done|congruence].
  - intros p Hp H0. cbn [completed set_peers ds_peers] in Hp.
    assert (H : exists x, x ∈ ds_apps m /\ app_id x = pm_appid p).
    { apply elem_of_app in Hp as [Hp|Hp]; [exists a; by rewrite (es_appid p Hp)|by apply (mi_client m M)]. }
    destruct H as (x & Hx & He).
    assert (H : pm_appid p ∈ map app_id (ds_apps (completed m a es))) by (rewrite Hi, <- He; by apply list_elem_of_fmap_2).
    apply list_elem_of_fmap in H as (y & ? & ?). by exists y.
  - cbn [completed set_peers set_apps set_cnt ds_cnt ds_peers add_clients current_client_size]. rewrite (mi_size m M).
    assert (E : without 0 (es ++ ds_peers m) = es ++ without 0 (ds_peers m)).
    { unfold without. rewrite list.filter_app. f_equal. apply filter_all. intros p Hp. by rewrite (es_appid p Hp). }
    rewrite E, length_app. pose proof es_length. lia.
  - cbn [completed set_peers set_apps set_cnt ds_cnt ds_apps add_clients num_cp size_cp peer_size]. rewrite sum_peers_upd by done.
    exact (mi_cnt m M).
Qed.

(** The messages of the completion: the entries of the application to the
    servers and, with DIMES, to the other applications, the rest to the
    application. *)
Definition new_peers : list ptlid_map := ds_peers (completed m a es).

Definition news_msg : msg :=
  sp_announce_app (mk_hreg master_entry (app_num_peers a) (app_id a))
    (map Some (members (app_id a) new_peers) ++ replicate (Z.to_nat (app_num_peers a) - length (members (app_id a) new_peers)) None).

Definition answer_list : list ptlid_map := filter (fun p => pm_id p <> 0 /\ pm_appid p <> app_id a) new_peers.

Definition answer_msg : msg :=
  let cur := current_client_size (ds_cnt (completed m a es)) in
  sp_announce_cp (mk_hreg master_entry cur nsp)
    (map Some answer_list ++ replicate (Z.to_nat (nsp + cur - app_num_peers a) - length answer_list) None).

Definition completion_packets : list packet :=
  map (fun p => (pm_id p, news_msg)) (filter is_slave new_peers) ++
  (if dimes then map (fun b => (app_min_id b, news_msg)) (filter (wants_news (app_id a)) (ds_apps m)) else []) ++
  [(app_min_id a, answer_msg)].

Lemma new_members_length : Z.of_nat (length (members (app_id a) new_peers)) = app_num_peers a.
Proof using All.
  unfold new_peers. rewrite completed_members, Z.eqb_refl, length_app. cbn. pose proof es_length. lia.
Qed.

Lemma without_master : without (app_id a) new_peers ≡ₚ master_entry :: answer_list.
Proof using All.
  pose proof completed_minv as M'. unfold answer_list.
  rewrite (take_out (without (app_id a) new_peers) master_entry).
  - f_equiv. unfold without. rewrite list_filter_filter.
    by rewrite (list_filter_iff _ (fun p => pm_id p <> 0 /\ pm_appid p <> app_id a)) by (intros; cbn; tauto).
  - eapply sublist_NoDup; [exact (mi_ids _ M')|]. apply fmap_sublist, sublist_filter.
  - apply list_elem_of_filter. split; [|exact (mi_master _ M')]. pose proof (mi_app m M a Ha) as [? _ _ _ _ _]. cbn. congruence.
Qed.

(** The answer fills what the client expects. *)
Lemma answer_length : sp_rank_cnt m = nsp ->
  Z.of_nat (length answer_list) = current_client_size (ds_cnt (completed m a es)) + nsp - app_num_peers a - 1.
Proof using All.
  intros Hsp. pose proof completed_minv as M'. pose proof (Permutation_length without_master) as H. cbn [length] in H.
  pose proof (length_without (app_id a) new_peers). pose proof (length_without 0 new_peers).
  pose proof new_members_length. pose proof (servers_len _ M') as Hs0. pose proof (mi_size _ M') as Hc.
  fold new_peers in Hs0, Hc. change (sp_rank_cnt (completed m a es)) with (sp_rank_cnt m) in Hs0. lia.
Qed.

Lemma answer_servers : filter (fun p => pm_appid p = 0) answer_list ++ [master_entry] ≡ₚ members 0 new_peers.
Proof using All.
  pose proof (mi_app m M a Ha) as [H0 _ _ _ _ _].
  rewrite <- (members_without 0 (app_id a)) by congruence.
  rewrite (filter_Permutation (fun p => pm_appid p = 0) _ _ without_master : members 0 (without (app_id a) new_peers) ≡ₚ _).
  rewrite list.filter_cons, decide_True by done. by rewrite Permutation_app_comm.
Qed.

Lemma completion_answer : sp_rank_cnt m = nsp -> answer (completed m a es) (full_app a) answer_msg.
Proof using All.
  intros Hsp. eexists _, _, _. split; [reflexivity|]. split; [done|]. split; [|split].
  - cbn [hr_num_cp full_app app_num_peers]. rewrite answer_length by done. done.
  - exact answer_servers.
  - intros p Hp H0. apply list_elem_of_filter in Hp as [[_ Hne] Hp].
    apply (others_far _ (full_app a) p completed_minv); [|done|done|done].
    rewrite completed_apps. apply list_elem_of_fmap. exists a. by rewrite Z.eqb_refl.
Qed.

Lemma completion_apps : upd_app set_sent (app_id a) (upd_app (add_cnt_peers (app_num_peers a - 1)) (app_id a) (ds_apps m)) =
  upd_app full_app (app_id a) (ds_apps m).
Proof using M Ha Hs addrs.
  rewrite (upd_app_eq set_sent) by (rewrite upd_app_ids by done; exact (mi_apps m M)).
  rewrite !upd_app_eq by exact (mi_apps m M). rewrite map_map. apply map_ext_in. intros x Hx%list_elem_of_In.
  destruct (Z.eqb_spec (app_id x) (app_id a)) as [E|E]; [|by rewrite (proj2 (Z.eqb_neq _ _))].
  cbn [add_cnt_peers app_id]. rewrite E, Z.eqb_refl. rewrite (app_unique x Hx E) in *.
  unfold set_sent, full_app, add_cnt_peers. cbn. f_equal. rewrite (ao_cnt _ _ (mi_app m M a Ha)), Hs. lia.
Qed.

(** The handler of the request. *)
Lemma completion_service : sp_rank_cnt m = nsp ->
  dsrpc_cp_disseminate_cs dimes all_ok m (app_min_id a) (map Some (rev (entries (app_min_id a) (app_id a) addrs))) =
    Some (completed m a es, completion_packets, 0).
Proof using All.
  intros Hsp. pose proof completed_minv as M'. destruct (app_master m a M Ha) as (p0 & Hf & _ & _ & Hap).
  pose proof (mi_app m M a Ha) as [A1 A2 _ _ _ _]. destruct (mi_fix m M) as (F1 & F2 & F3 & F4).
  pose proof (entries_length (app_min_id a) (app_id a) addrs) as El. pose proof es_length as Hes.
  assert (Hrev : take (Z.to_nat (app_num_peers a - 1)) (rev (entries (app_min_id a) (app_id a) addrs)) = rev es).
  { rewrite HE. cbn [rev]. apply take_app_length'. rewrite length_rev. lia. }
  unfold dsrpc_cp_disseminate_cs. rewrite Hf. cbn [mbind option_bind msg_ok data_ok recv_err all_ok negb Z.ltb Z.compare].
  rewrite Hap, (app_find_unique _ a (mi_apps m M) Ha).
  rewrite receive_map by (rewrite length_rev, El; lia). cbn [mbind option_bind].
  rewrite take_ge by (rewrite length_rev, El; lia).
  unfold cp_disseminate_cs_completion.
  assert (Hhd : exists p1, head (rev (entries (app_min_id a) (app_id a) addrs)) = Some p1 /\ pm_appid p1 = app_id a).
  { destruct (rev (entries _ _ _)) as [|p1 l] eqn:E; [apply (f_equal length) in E; rewrite length_rev, El in E; cbn in E; lia|].
    exists p1. split; [done|]. apply (entries_appid (app_min_id a) _ addrs). apply list_elem_of_In, in_rev. rewrite E. by left. }
  destruct Hhd as (p1 & -> & Hp1). cbn [mbind option_bind].
  rewrite Hp1, (app_find_unique _ a (mi_apps m M) Ha).
  rewrite receive_map by (rewrite length_rev, El; lia). cbn [mbind option_bind]. rewrite Hrev, length_rev, Hes.
  unfold add_peers. rewrite rev_involutive.
  set (m1 := set_peers (es ++ ds_peers m) (set_apps (upd_app (add_cnt_peers (app_num_peers a - 1)) (app_id a) (ds_apps m))
    (set_cnt (add_clients (app_num_peers a - 1) (ds_cnt m)) m))).
  assert (Ha1 : app_find (ds_apps m1) (app_id a) = Some (add_cnt_peers (app_num_peers a - 1) a)).
  { assert (Hin : add_cnt_peers (app_num_peers a - 1) a ∈ ds_apps m1).
    { cbn. rewrite upd_app_eq by exact (mi_apps m M). apply list_elem_of_fmap. exists a. by rewrite Z.eqb_refl. }
    rewrite <- (app_find_unique (ds_apps m1) _) at 1; [done| |done]. cbn. rewrite upd_app_ids by done. exact (mi_apps m M). }
  assert (Hda : forall p, ds_disseminate_app all_ok m1 p (app_id a) = Some ([(pm_id p, news_msg)], 0)).
  { intros p. unfold ds_disseminate_app. rewrite Ha1. cbn [mbind option_bind]. change (ds_self m1) with (ds_self m). rewrite F3.
    cbn [mbind option_bind add_cnt_peers app_num_peers app_id]. rewrite announce_all_ok; [done|].
    change (filter _ (ds_peers m1)) with (members (app_id a) new_peers). rewrite new_members_length. lia. }
  rewrite (announce_each_ok _ (fun p => (pm_id p, news_msg))) by (intros; apply Hda). cbn [mbind option_bind].
  assert (H2 : (if dimes then announce_apps all_ok m1 (app_id a) (ds_apps m1) else Some []) =
    Some (if dimes then map (fun b => (app_min_id b, news_msg)) (filter (wants_news (app_id a)) (ds_apps m)) else [])).
  { destruct dimes; [|done]. rewrite <- (wants_news_upd (add_cnt_peers (app_num_peers a - 1)) (app_id a) (ds_apps m)) by done.
    apply announce_apps_ok. intros b Hb [Hne _].
    cbn [m1 set_peers set_apps ds_apps] in Hb. rewrite upd_app_eq in Hb by exact (mi_apps m M).
    apply list_elem_of_fmap in Hb as (x & -> & Hx). destruct (Z.eqb_spec (app_id x) (app_id a)); [done|].
    assert (Hx' : x ∈ ds_apps (completed m a es)).
    { rewrite completed_apps. apply list_elem_of_fmap. exists x. by rewrite (proj2 (Z.eqb_neq _ _)). }
    destruct (app_master _ x M' Hx') as (p & Hp & _ & Hi & _). exists p. split; [exact Hp|]. by rewrite Hda, Hi. }
  rewrite H2. cbn [mbind option_bind].
  assert (Hful : full_app a ∈ ds_apps (completed m a es)).
  { rewrite completed_apps. apply list_elem_of_fmap. exists a. by rewrite Z.eqb_refl. }
  destruct (app_master _ (full_app a) M' Hful) as (p & Hp & _ & Hi & Hpa). cbn [full_app app_min_id app_id] in Hp, Hi, Hpa.
  change (ds_peers m1) with (ds_peers (completed m a es)). rewrite Hp. cbn [mbind option_bind].
  unfold cs_disseminate_cp. rewrite Hpa, Ha1. cbn [mbind option_bind]. change (ds_self m1) with (ds_self m). rewrite F3.
  cbn [mbind option_bind add_cnt_peers app_num_peers app_id].
  change (ds_peers m1) with new_peers. change (ds_cnt m1) with (ds_cnt (completed m a es)).
  change (num_sp m1) with (num_sp m). change (size_sp m1) with (size_sp m). rewrite F1, F2, Hi.
  rewrite announce_all_ok by (fold answer_list; rewrite answer_length by done; lia). cbn [mbind option_bind fst].
  fold answer_list. assert (Hm1 : set_apps (upd_app set_sent (app_id a) (ds_apps m1)) m1 = completed m a es); [|by rewrite Hm1].
  unfold m1, completed. rewrite <- completion_apps. done.
Qed.

End Completion.

(** *** An application leaves *)

Definition removed_ds (m : dart_server) (a : app_info) : dart_server :=
  set_peers (without (app_id a) (ds_peers m))
    (set_apps (del_app (app_id a) (ds_apps m)) (set_cnt (drop_cp (app_num_peers a) (ds_cnt m)) m)).

Definition removal_packets (m : dart_server) (a : app_info) : list packet :=
  (app_min_id a, cn_unregister 0) ::
  mjoin (map (fun p => [(pm_id p, cn_unregister_app (app_id a)); (pm_id p, cn_unregister_app (app_id a))]) (filter is_slave (ds_peers m))).

Section Removal.
Context (m : dart_server) (M : minv m) (a : app_info) (Ha : a ∈ ds_apps m) (Hs : sent_announce a = true).

Lemma removal_service : dsrpc_cn_unregister all_ok m (app_min_id a) = Some (removed_ds m a, removal_packets m a, 0).
Proof using All.
  destruct (app_master m a M Ha) as (p & Hf & _ & _ & Hp). destruct (mi_fix m M) as (_ & _ & F3 & _).
  unfold dsrpc_cn_unregister. rewrite Hf. cbn [mbind option_bind msg_ok all_ok negb]. rewrite F3.
  cbn [mbind option_bind send_err all_ok Z.ltb Z.compare]. rewrite Hp.
  rewrite (unregister_loop_eq m a) by (apply app_find_unique; [exact (mi_apps m M)|done]). cbn [mbind option_bind].
  rewrite (members_len m a M Ha), (ao_cnt _ _ (mi_app m M a Ha)), Hs. done.
Qed.

Lemma removed_elem b : b ∈ ds_apps (removed_ds m a) <-> b ∈ ds_apps m /\ app_id b <> app_id a.
Proof using M.
  cbn [removed_ds set_peers set_apps ds_apps]. rewrite del_app_eq by exact (mi_apps m M). rewrite list_elem_of_filter. tauto.
Qed.

Lemma removed_members b : members b (ds_peers (removed_ds m a)) = if b =? app_id a then [] else members b (ds_peers m).
Proof using.
  cbn [removed_ds set_peers ds_peers]. destruct (Z.eqb_spec b (app_id a)) as [->|H].
  - apply members_none. intros p [? _]%list_elem_of_filter. done.
  - by apply members_without.
Qed.

Lemma without_swap b c l : without b (without c l) = without c (without b l).
Proof using. unfold without. rewrite !list_filter_filter. apply list_filter_iff. tauto. Qed.

Lemma removed_minv : minv (removed_ds m a).
Proof using All.
  pose proof (mi_app m M a Ha) as [A1 A2 A3 A4 A5 A6]. rewrite Hs in A5.
  assert (Hc : members 0 (ds_peers (removed_ds m a)) = members 0 (ds_peers m)).
  { rewrite removed_members. by rewrite (proj2 (Z.eqb_neq _ _)) by congruence. }
  split; try exact (mi_fix m M).
  - exact (mi_cp m M).
  - cbn [removed_ds set_peers ds_peers]. eapply sublist_NoDup; [exact (mi_ids m M)|]. apply fmap_sublist, sublist_filter.
  - rewrite Hc. exact (mi_srv m M).
  - exact (mi_rank m M).
  - cbn [removed_ds set_peers ds_peers]. apply list_elem_of_filter. split; [cbn; congruence|exact (mi_master m M)].
  - rewrite Hc. exact (mi_addr m M).
  - cbn [removed_ds set_peers set_apps ds_apps]. rewrite del_app_eq by exact (mi_apps m M).
    eapply sublist_NoDup; [exact (mi_apps m M)|]. apply fmap_sublist, sublist_filter.
  - intros b [Hb Hne]%removed_elem. pose proof (mi_app m M b Hb) as [B1 B2 B3 B4 B5 B6]. split; try done.
    by rewrite removed_members, (proj2 (Z.eqb_neq _ _)).
  - intros b b' [Hb _]%removed_elem [Hb' _]%removed_elem. by apply (mi_disj m M).
  - intros p Hp H0. cbn [removed_ds set_peers ds_peers] in Hp. apply list_elem_of_filter in Hp as [Hne Hp].
    destruct (mi_client m M p Hp H0) as (b & Hb & He). exists b. split; [|done]. apply removed_elem. split; [done|congruence].
  - cbn [removed_ds set_peers set_apps set_cnt ds_peers ds_cnt drop_cp current_client_size]. rewrite (mi_size m M).
    pose proof (length_without (app_id a) (without 0 (ds_peers m))) as H. rewrite members_without in H by done.
    pose proof (members_len m a M Ha) as Hl. rewrite without_swap in H. lia.
  - cbn [removed_ds set_peers set_apps set_cnt ds_apps ds_cnt drop_cp num_cp size_cp peer_size].
    rewrite (sum_peers_del a) by (done || exact (mi_apps m M)). destruct (mi_cnt m M) as (? & ? & ?). lia.
Qed.

End Removal.

(** *** The servers are complete *)

Definition boot_msg (m : dart_server) : msg :=
  sp_announce_cp (mk_hreg master_entry nsp nsp)
    (map Some (members 0 (ds_peers m)) ++ replicate (Z.to_nat nsp - length (members 0 (ds_peers m))) None).

Definition booted_ds (m : dart_server) : dart_server := set_reg (ds_ptlmap m) (ds_self m) true m.

Definition boot_packets (m : dart_server) : list packet := map (fun p => (pm_id p, boot_msg m)) (filter is_slave (ds_peers m)).

Lemma boot_loop_ok ds r l : (forall p, ds_disseminate2 all_ok ds p = Some ([(pm_id p, r)], 0)) ->
  boot_loop all_ok ds l 0 = Some (map (fun p => (pm_id p, r)) (filter is_slave l), 0).
Proof.
  intros H. induction l as [|p l IH]; [done|]. cbn [boot_loop]. rewrite list.filter_cons.
  destruct (is_slave p); [rewrite decide_True by done|rewrite decide_False by (intros []; done); exact IH].
  rewrite H. cbn [mbind option_bind fst snd]. by rewrite IH.
Qed.

Lemma boot_service m : minv m -> sp_rank_cnt m = nsp -> ds_boot_master all_ok m = Some (booted_ds m, boot_packets m, 0).
Proof.
  intros M Hsp. destruct (mi_fix m M) as (F1 & F2 & F3 & F4). unfold ds_boot_master. rewrite F4.
  set (m0 := set_reg (set_id 0 master_entry) (ds_self m) (ds_f_reg m) m).
  assert (Hd : forall p, ds_disseminate2 all_ok m0 p = Some ([(pm_id p, boot_msg m)], 0)).
  { intros p. unfold ds_disseminate2. change (ds_self m0) with (ds_self m). rewrite F3. cbn [mbind option_bind].
    change (size_sp m0) with (size_sp m). rewrite F2. apply announce_all_ok. fold (members 0 (ds_peers m)).
    change (ds_peers m0) with (ds_peers m). fold (members 0 (ds_peers m)). rewrite (servers_len m M). lia. }
  assert (Hr : (if 1 <? size_sp m0 then boot_loop all_ok m0 (ds_peers m0) 0 else Some ([], 0)) = Some (boot_packets m, 0)).
  { change (size_sp m0) with (size_sp m). rewrite F2. change (ds_peers m0) with (ds_peers m). unfold boot_packets. case_if.
    - by apply boot_loop_ok.
    - zbool. rewrite filter_none; [done|].
      intros p Hp H. apply andb_True in H as [H1 H2]. apply Is_true_true in H1, H2. zbool.
      pose proof (server_range m p M Hp H2). lia. }
  rewrite Hr. cbn [mbind option_bind fst snd Z.eqb]. unfold booted_ds. by rewrite F4.
Qed.

(** ** The other servers *)

Lemma same_address_eq a b : same_address a b = true <-> a = b.
Proof.
  unfold same_address. destruct a, b. cbn. rewrite andb_true_iff, !Z.eqb_eq. split; [intros [-> ->]; done|intros [= -> ->]; done].
Qed.

Lemma master_found l : master_entry ∈ l -> exists p, rpc_server_find l 0 = Some p.
Proof.
  intros H. destruct (rpc_server_find l 0) as [p|] eqn:E; [by exists p|]. apply find_none in E. destruct E.
  change 0 with (pm_id master_entry). by apply ids_elem.
Qed.

(** What a step of a server keeps. *)
Definition same_server (d d' : dart_server) : Prop := ds_ptlmap d' = ds_ptlmap d /\ num_sp d' = num_sp d.

(** The servers are announced. *)
Lemma slave_boot m d : minv m -> sp_rank_cnt m = nsp -> ds_peers d = [master_entry] -> num_sp d = nsp ->
  ds_ptlmap d ∈ ds_peers m -> pm_appid (ds_ptlmap d) = 0 -> pm_id (ds_ptlmap d) <> 0 ->
  exists d', ds_service dimes all_ok d (boot_msg m) = Some (d', [], 0) /\ same_server d d' /\
    ds_peers d' ≡ₚ members 0 (ds_peers m) /\ ds_self d' = Some (ds_ptlmap d') /\ ds_f_reg d' = true.
Proof.
  intros M Hsp Hp Hn Hin H0 Hid. pose proof (servers_len m M) as Hl. rewrite Hsp in Hl.
  assert (Hm : ds_ptlmap d ∈ members 0 (ds_peers m)) by (by apply elem_of_members).
  cbn [ds_service boot_msg]. unfold dsrpc_announce_cp. rewrite Hp, Hn. cbn [rpc_server_find pm_id master_entry Z.eqb mbind option_bind].
  cbn [msg_ok data_ok recv_err all_ok negb orb Z.ltb Z.compare]. rewrite receive_prefix by lia. rewrite take_ge by lia.
  cbn [mbind option_bind]. pose proof (add_servers_perm (pm_address (ds_ptlmap d)) (members 0 (ds_peers m)) [master_entry] (ds_self d)) as Hperm.
  pose proof (add_servers_self (pm_address (ds_ptlmap d)) (ds_ptlmap d) (members 0 (ds_peers m)) Hm Hid) as Hself.
  destruct (add_servers _ _ _ _) as [l self] eqn:E. cbn [fst] in Hperm. cbn [mbind option_bind].
  eexists. split; [reflexivity|]. cbn [set_reg set_peers ds_ptlmap num_sp ds_peers ds_self ds_f_reg]. split; [done|]. split; [|split].
  - rewrite Hperm. rewrite (take_out (members 0 (ds_peers m)) master_entry) at 2.
    + by rewrite Permutation_app_comm.
    + apply ids_sublist, (mi_ids m M).
    + apply elem_of_members. split; [done|exact (mi_master m M)].
  - specialize (Hself (proj2 (same_address_eq _ _) eq_refl)).
    assert (Hu : forall q, q ∈ members 0 (ds_peers m) -> same_address (pm_address q) (pm_address (ds_ptlmap d)) = true -> q = ds_ptlmap d).
    { intros q Hq Ha%same_address_eq. pose proof (mi_addr m M) as Hnd.
      apply list_elem_of_lookup in Hq as [i Hi]. apply list_elem_of_lookup in Hm as [j Hj].
      assert (i = j); [|congruence]. eapply (NoDup_lookup _ i j (pm_address (ds_ptlmap d)) Hnd); rewrite list_lookup_fmap.
      - rewrite Hi. cbn. by rewrite Ha.
      - by rewrite Hj. }
    specialize (Hself Hu [master_entry] (ds_self d)). rewrite E in Hself. exact Hself.
  - done.
Qed.

(** The entries of an application are announced. *)
Lemma slave_app d a n l rest : master_entry ∈ ds_peers d -> n = Z.of_nat (length l) -> 1 <= n -> (forall p, p ∈ l -> pm_appid p = a) ->
  exists d', ds_service dimes all_ok d (sp_announce_app (mk_hreg master_entry n a) (map Some l ++ rest)) = Some (d', [], 0) /\
    same_server d d' /\ ds_peers d' ≡ₚ l ++ ds_peers d /\ ds_self d' = ds_self d /\ ds_f_reg d' = ds_f_reg d.
Proof.
  intros Hm Hn H1 Hl. destruct (master_found _ Hm) as [p0 Hf]. cbn [ds_service]. unfold dsrpc_announce_app.
  cbn [set_apps ds_peers ds_apps]. rewrite Hf. cbn [mbind option_bind msg_ok data_ok recv_err all_ok negb orb Z.ltb Z.compare hr_num_cp hr_num_sp].
  rewrite receive_prefix, take_ge by lia. cbn [mbind option_bind]. unfold ds_announce_app_completion.
  destruct l as [|p l]; [cbn in Hn; lia|]. cbn [head mbind option_bind]. cbn [set_apps ds_apps app_find app_id].
  rewrite (Hl p) by apply list_elem_of_here. rewrite Z.eqb_refl. cbn [app_num_peers].
  rewrite receive_map, take_ge by lia. cbn [mbind option_bind]. eexists. split; [reflexivity|].
  cbn [set_peers set_cnt set_apps ds_ptlmap num_sp ds_peers ds_self ds_f_reg]. split; [done|]. split; [apply add_peers_perm|done].
Qed.

(** ** The clients *)

Lemma client_answered m dc a addrs r : waiting_ok dc (app_min_id a) addrs -> pm_appid (dc_ptlmap dc) = app_id a -> app_id a <> 0 ->
  app_num_peers a = Z.of_nat (length addrs) -> members (app_id a) (ds_peers m) ≡ₚ entries (app_min_id a) (app_id a) addrs ->
  answer m a r -> exists dc', dc_service all_ok dc r = Some (dc', [], 0) /\ registered_ok m dc' a /\ dc_ptlmap dc' = dc_ptlmap dc.
Proof.
  intros W Hap H0 Hn Hm (h & l & rest & -> & Hsp & Hlen & Hsrv & Hfar). destruct W as [W1 W2 W3 W4 W5 W6].
  assert (Hs : dc_service all_ok dc (sp_announce_cp h (map Some l ++ rest)) =
    Some (dc_registered (set_dc_peers (add_peers l (dc_peers dc)) (set_dc_nums (hr_num_sp h) (hr_num_cp h) dc)), [], 0)).
  { cbn [dc_service]. unfold dcrpc_announce_cp, missing. cbn [set_dc_nums dc_num_cp dc_num_sp dc_peer_size dc_peers].
    rewrite Hsp, W2, <- Hn, Hlen. case_if; zbool.
    - destruct l; [done|cbn in *; lia].
    - rewrite W1 at 1. cbn [rpc_server_find master_entry pm_id Z.eqb mbind option_bind].
      cbn [msg_ok data_ok recv_err all_ok negb orb Z.ltb Z.compare]. rewrite (proj2 (Z.ltb_ge _ _)) by lia.
      rewrite receive_prefix, take_ge by lia. done. }
  rewrite Hs. eexists. split; [reflexivity|]. split; [|done].
  assert (Hadd : add_peers l (dc_peers dc) ≡ₚ l ++ master_entry :: entries (app_min_id a) (app_id a) addrs).
  { rewrite add_peers_perm, W1, Hap. by rewrite <- Permutation_rev. }
  split; cbn [dc_registered set_dc_min set_dc_flags set_dc_peers set_dc_nums dc_peers dc_ptlmap dc_self cp_min_rank dc_f_reg app_minid].
  - destruct W4 as (self & ? & ? & Hsa). split; cbn; [done|by exists self; rewrite Hap in Hsa|tauto|done|].
    rewrite Hadd. apply elem_of_app. right. apply list_elem_of_here.
  - rewrite (filter_Permutation _ _ _ Hadd), list.filter_app, list.filter_cons, decide_True by (by left).
    rewrite (filter_all _ (entries _ _ _)) by (intros p Hp; right; by apply entries_appid in Hp). rewrite Hm.
    rewrite (filter_same _ (fun p => pm_appid p = 0) l).
    + rewrite <- Hsrv. by rewrite <- app_assoc.
    + intros p Hp. split; [|by left]. intros [?|E]; [done|].
      destruct (decide (pm_appid p = 0)) as [|Hne]; [done|]. destruct (Hfar p Hp Hne) as (_ & ? & _). done.
  - intros p Hp Hne Hna. rewrite Hadd in Hp. apply elem_of_app in Hp as [Hp|[->|Hp]%elem_of_cons]; [by apply Hfar|done|].
    by apply entries_appid in Hp.
  - cbn [dc_registered set_dc_min set_dc_flags set_dc_peers set_dc_nums dc_num_cp dc_num_sp].
    rewrite (Permutation_length Hadd), length_app. cbn [length]. rewrite entries_length. lia.
Qed.

Lemma client_news dc c appid a r : alive dc c appid -> news a r ->
  exists dc' ps l, dc_service all_ok dc r = Some (dc', ps, 0) /\ alive dc' c appid /\ dc_ptlmap dc' = dc_ptlmap dc /\
    dc_peers dc' ≡ₚ l ++ dc_peers dc /\ (forall p, p ∈ l -> far a p) /\
    dc_num_cp dc' = dc_num_cp dc + Z.of_nat (length l) /\ dc_num_sp dc' = dc_num_sp dc.
Proof.
  intros [A1 A2 A3 A4 A5] (h & l & rest & -> & Hn & Hfar). destruct A2 as (self & Hs & Hi & Ha).
  destruct (master_found _ A5) as [p0 Hf]. cbn [dc_service]. unfold dcrpc_sp_announce_app. rewrite A4, Hs.
  cbn [negb mbind option_bind]. rewrite Hi, A3, Z.eqb_refl, Hf. cbn [mbind option_bind msg_ok data_ok recv_err all_ok negb orb Z.ltb Z.compare].
  rewrite receive_prefix, take_ge by lia. cbn [mbind option_bind]. rewrite orb_true_r. unfold install_app_cp.
  cbn [set_dc_nums set_dc_peers dc_self cp_min_rank dc_peers dc_num_cp dc_num_sp]. rewrite Hs. cbn [mbind option_bind].
  rewrite Hi, A3, Z.eqb_refl.
  rewrite (announce_each_ok _ (fun p => (pm_id p, sp_announce_app h (map Some (take (Z.to_nat (hr_num_cp h)) l) ++
    replicate (Z.to_nat (hr_num_cp h) - length (take (Z.to_nat (hr_num_cp h)) l)) None))))
    by (intros p _; unfold dc_disseminate_app; rewrite announce_all_ok; [done|rewrite length_take; lia]).
  cbn [mbind option_bind]. eexists _, _, l. split; [reflexivity|]. cbn [set_dc_nums set_dc_peers dc_ptlmap dc_peers].
  split; [|split; [done|split; [apply add_peers_perm|split; [done|done]]]].
  split; cbn [set_dc_nums set_dc_peers dc_ptlmap dc_self cp_min_rank dc_f_reg dc_peers]; [done|by exists self|done|done|].
  rewrite add_peers_perm. apply elem_of_app. by right.
Qed.

Lemma registered_news m dc a r : registered_ok m dc a -> news a r ->
  exists dc' ps, dc_service all_ok dc r = Some (dc', ps, 0) /\ registered_ok m dc' a /\ dc_ptlmap dc' = dc_ptlmap dc.
Proof.
  intros [R1 R2 R3 R4] Hr. destruct (client_news dc _ _ a r R1 Hr) as (dc' & ps & l & Hd & Hal & Hp & Hl & Hfar & Hn1 & Hn2).
  exists dc', ps. split; [done|]. split; [|done]. split; [done| | |].
  - rewrite (filter_Permutation _ _ _ Hl), list.filter_app, filter_none; [done|].
    intros p Hin [E|E]; destruct (Hfar p Hin) as (? & ? & _); done.
  - intros p Hin H0 Ha. rewrite Hl in Hin. apply elem_of_app in Hin as [Hin|Hin]; [by apply Hfar|by apply R3].
  - rewrite (Permutation_length Hl), length_app, Hn1, Hn2. lia.
Qed.

(** The first process of an application connects. *)
Lemma number_shift l : forall i c, map (fun p => set_id (pm_id p + c) p) (number i l) = number (i + c) l.
Proof.
  induction l as [|p l IH]; intros i c; [done|]. cbn [number map]. rewrite IH. f_equal. f_equal. lia.
Qed.

Lemma app_started a addrs cnt c : addrs <> [] -> 1 <= c ->
  exists me dc, app_start a addrs = Some dc /\ head addrs = Some me /\ dc_ptlmap dc = mk_pm me 0 a /\ dc_peer_size dc = Z.of_nat (length addrs) /\
    let dc' := dc_connected dc (mk_con (mk_pm me c a) master_entry cnt c) in
    waiting_ok dc' c addrs /\ dc_ptlmap dc' = mk_pm me c a /\ take 1 (entries c a addrs) = [mk_pm me c a] /\
    dc_disseminate all_ok dc' = Some ([(0, cp_disseminate_cs c (map Some (rev (entries c a addrs))))], 0).
Proof.
  intros Hne Hc. destruct addrs as [|me addrs]; [done|]. eexists me, _. split; [reflexivity|]. split; [done|].
  split; [done|]. split; [done|]. cbv zeta.
  set (dc' := dc_connected _ _).
  assert (Hp : dc_peers dc' = master_entry :: rev (entries c a (me :: addrs))).
  { unfold dc', dc_connected, rpc_established. cbn [app_minid set_dc_me set_dc_min set_dc_peers dc_peers gather_peer_list dc_boot_as_master dc_alloc map tail dc_ptlmap cn_pm_cp cn_type].
    f_equal. rewrite gather_loop_eq, map_app, map_rev, number_shift. cbn [map set_id pm_id pm_address pm_appid entries number rev].
    rewrite Z.add_0_l. replace (1 + c) with (c + 1) by lia. done. }
  assert (Hw : waiting_ok dc' c (me :: addrs)).
  { split; [exact Hp|done|done|eexists; split; [reflexivity|]; cbn; split; [lia|done]|done|done]. }
  split; [done|]. split; [done|]. split; [done|].
  unfold dc_disseminate. rewrite Hp. cbn [rpc_server_find master_entry pm_id Z.eqb mbind option_bind].
  destruct (wo_self _ _ _ Hw) as (self & -> & _). cbn [mbind option_bind]. rewrite (wo_size _ _ _ Hw), (wo_me _ _ _ Hw).
  rewrite list.filter_cons, decide_False by (cbn; tauto).
  assert (Hf : filter (fun p => pm_id p <> 0) (rev (entries c a (me :: addrs))) = rev (entries c a (me :: addrs))).
  { apply filter_all. intros p Hin%list_elem_of_In%in_rev%list_elem_of_In.
    assert (H : pm_id p ∈ ids (entries c a (me :: addrs))) by (by apply ids_elem). rewrite entries_ids in H. apply elem_of_seqZ in H. lia. }
  rewrite Hf, announce_all_ok by (rewrite length_rev, entries_length; lia).
  rewrite length_rev, entries_length, Nat2Z.id, Nat.sub_diag. cbn [replicate]. by rewrite app_nil_r.
Qed.

(** ** Messages sent *)

Definition to (k : Z) (ps : list packet) : list msg := map snd (filter (fun p => p.1 = k) ps).

Lemma to_cons k p ps : to k (p :: ps) = if p.1 =? k then p.2 :: to k ps else to k ps.
Proof.
  unfold to. rewrite list.filter_cons. destruct (Z.eqb_spec p.1 k); [by rewrite decide_True|by rewrite decide_False].
Qed.

Lemma to_app k ps qs : to k (ps ++ qs) = to k ps ++ to k qs.
Proof. unfold to. by rewrite list.filter_app, map_app. Qed.

Lemma elem_of_to k ps r : r ∈ to k ps <-> (k, r) ∈ ps.
Proof.
  unfold to. rewrite list_elem_of_fmap. split.
  - intros ([k' r'] & -> & [<- H]%list_elem_of_filter). done.
  - intros H. exists (k, r). split; [done|]. by apply list_elem_of_filter.
Qed.

Lemma to_nil k ps : (forall r, (k, r) ∉ ps) -> to k ps = [].
Proof.
  intros H. destruct (to k ps) as [|r l] eqn:E; [done|]. destruct (H r). apply elem_of_to. rewrite E. apply list_elem_of_here.
Qed.

(** The messages of the master server that reach another process. *)
Definition inbox (k : Z) (ps : list packet) : list msg := if k =? 0 then [] else to k ps.

Lemma post_spec ps : forall s,
  ms (post s ps) = ms s /\ sys_open (post s ps) = sys_open s /\ booted (post s ps) = booted s /\
  mq (post s ps) = mq s ++ to 0 ps /\
  slaves (post s ps) = map_imap (fun k x => Some (mk_sl (sl_ds x) (sl_q x ++ inbox k ps))) (slaves s) /\
  clients (post s ps) = map_imap (fun c x => Some (mk_cl (cl_dc x) (cl_q x ++ inbox c ps) (cl_unreg x))) (clients s).
Proof.
  induction ps as [|[d r] ps IH]; intros s; cbn [post foldl].
  - rewrite app_nil_r. do 4 (split; [done|]). split; apply map_eq; intros k; rewrite map_lookup_imap.
    + destruct (slaves s !! k) as [[x q]|]; cbn; [|done]. unfold inbox. case_if; by rewrite app_nil_r.
    + destruct (clients s !! k) as [[x q u]|]; cbn; [|done]. unfold inbox. case_if; by rewrite app_nil_r.
  - destruct (IH (post1 s (d, r))) as (H1 & H2 & H3 & H4 & H5 & H6). unfold post in *. rewrite H1, H2, H3, H4, H5, H6.
    unfold post1, inbox. cbn [fst snd]. rewrite to_cons. cbn [fst snd].
    destruct (Z.eqb_spec d 0) as [->|Hd]; cbn [ms mq sys_open booted slaves clients].
    + do 3 (split; [done|]). split; [by rewrite <- app_assoc|]. split; apply map_eq; intros k; rewrite !map_lookup_imap, to_cons; cbn [fst snd];
        destruct (Z.eqb_spec k 0) as [->|Hk]; try done; by rewrite (proj2 (Z.eqb_neq 0 k)) by congruence.
    + do 4 (split; [done|]). split; apply map_eq; intros k; rewrite !map_lookup_imap, to_cons; cbn [fst snd].
      * destruct (Z.eqb_spec d k) as [->|Hne]; [rewrite lookup_alter_eq, (proj2 (Z.eqb_neq k 0)) by done|by rewrite lookup_alter_ne].
        destruct (slaves s !! k); cbn; [by rewrite <- app_assoc|done].
      * destruct (Z.eqb_spec d k) as [->|Hne]; [rewrite lookup_alter_eq, (proj2 (Z.eqb_neq k 0)) by done|by rewrite lookup_alter_ne].
        destruct (clients s !! k); cbn; [by rewrite <- app_assoc|done].
Qed.

Lemma post_nil s : post s [] = s.
Proof. done. Qed.

(** One message, or two, to each peer of a list. *)
Lemma to_each k r l : NoDup (ids l) -> to k (map (fun p => (pm_id p, r)) l) = if bool_decide (k ∈ ids l) then [r] else [].
Proof.
  induction l as [|p l IH]; intros Hn; [done|]. cbn [map ids] in *. apply list.NoDup_cons in Hn as [Hp Hn].
  rewrite to_cons. cbn [fst snd]. rewrite IH by done. destruct (Z.eqb_spec (pm_id p) k) as [<-|Hne].
  - rewrite (bool_decide_eq_true_2 (_ ∈ _ :: _)) by apply list_elem_of_here. by rewrite bool_decide_eq_false_2.
  - rewrite (bool_decide_ext (k ∈ pm_id p :: map pm_id l) (k ∈ ids l)); [done|]. rewrite elem_of_cons. unfold ids. split; [intros [?|?]; [congruence|done]|by right].
Qed.

Lemma to_each_twice k r l : NoDup (ids l) ->
  to k (mjoin (map (fun p => [(pm_id p, r); (pm_id p, r)]) l)) = if bool_decide (k ∈ ids l) then [r; r] else [].
Proof.
  induction l as [|p l IH]; intros Hn; [done|]. cbn [map ids] in *. apply list.NoDup_cons in Hn as [Hp Hn].
  match goal with |- context [mjoin (?x :: ?k)] => change (mjoin (x :: k)) with (x ++ mjoin k) end. cbn [app]. rewrite !to_cons. cbn [fst snd]. rewrite IH by done. destruct (Z.eqb_spec (pm_id p) k) as [<-|Hne].
  - rewrite (bool_decide_eq_true_2 (_ ∈ _ :: _)) by apply list_elem_of_here. by rewrite bool_decide_eq_false_2.
  - rewrite (bool_decide_ext (k ∈ pm_id p :: map pm_id l) (k ∈ ids l)); [done|]. rewrite elem_of_cons. unfold ids. split; [intros [?|?]; [congruence|done]|by right].
Qed.

Lemma slave_ids m : minv m -> NoDup (ids (filter is_slave (ds_peers m))).
Proof. intros M. eapply sublist_NoDup; [exact (mi_ids m M)|]. apply fmap_sublist, sublist_filter. Qed.

Lemma elem_of_slaves m k : minv m -> k ∈ ids (filter is_slave (ds_peers m)) ->
  1 <= k < sp_rank_cnt m.
Proof.
  intros M (p & -> & [H Hp]%list_elem_of_filter)%list_elem_of_fmap. apply andb_True in H as [H1 H2].
  apply Is_true_true in H1, H2. zbool. pose proof (server_range m p M Hp H2). lia.
Qed.

(** Requests of one client. *)
Lemma from_app c l k : from c (l ++ k) = from c l ++ from c k.
Proof. apply list.filter_app. Qed.

Lemma from_delete c i l r : l !! i = Some r -> sender r = Some c -> (forall x, from c l = [x] -> x = r /\ from c (delete i l) = []) /\ from c l <> [].
Proof.
  intros (l1 & l2 & -> & ->)%delete_split Hs. rewrite !from_app.
  assert (E : from c (r :: l2) = r :: from c l2) by (unfold from; by rewrite list.filter_cons, decide_True).
  rewrite E. split; [|by destruct (from c l1)]. intros x H. destruct (from c l1) as [|y l]; cbn in *.
  - by injection H as -> ->.
  - destruct l; discriminate.
Qed.

Lemma from_delete_other c c' i l r : l !! i = Some r -> sender r = Some c -> c <> c' -> from c' (delete i l) = from c' l.
Proof.
  intros (l1 & l2 & -> & ->)%delete_split Hs Hne. rewrite !from_app. f_equal.
  unfold from. rewrite list.filter_cons, decide_False by congruence. done.
Qed.

(** ** The invariant is kept *)

(** A client is not concerned by a change of others. *)
Lemma client_frame m m' b b' q q' c x :
  client_ok m b q c x -> (b = true -> b' = true) -> app_find (ds_apps m') (appid_of x) = app_find (ds_apps m) (appid_of x) ->
  (b = true -> members 0 (ds_peers m') = members 0 (ds_peers m)) ->
  (is_Some (app_find (ds_apps m) (appid_of x)) -> members (appid_of x) (ds_peers m') = members (appid_of x) (ds_peers m)) ->
  from c q' = from c q -> client_ok m' b' q' c x.
Proof.
  intros H Hb Ha H0 Hm Hq. destruct H as [a addrs C1 C2 C3 C4 C5 C6 C7 C8 C9|a addrs r rest C1 C2 C3 C4 C5 C6 C7 C8 C9 C10 C11 C12|
    a C1 C2 C3 C4 C5 C6 C7|a rest i C1 C2 C3 C4 C5 C6].
  - eapply co_waiting; [by rewrite Ha|done|done|done|rewrite Hm by (by eexists); done|done|done|done|by rewrite Hq].
  - eapply co_answered; [by apply Hb|by rewrite Ha|done|done|done|rewrite Hm by (by eexists); done|done|done|done| |done|by rewrite Hq].
    destruct C10 as (h & l & rs & ? & ? & ? & Hs & ?). exists h, l, rs. rewrite H0 by done. done.
  - eapply co_member; [by apply Hb|by rewrite Ha|done|done| |done|by rewrite Hq].
    destruct C5 as [R1 R2 R3 R4]. split; [done| |done|done]. rewrite H0 by done. apply app_find_elem in C2 as Hi. destruct Hi as [_ Hi].
    rewrite Hi in *. rewrite Hm by (by eexists). done.
  - eapply co_left; [by rewrite Ha|done|done|done|done|by rewrite Hq].
Qed.

(** A server handles a message. *)
Lemma slave_service d r d' ps err : ds_service dimes all_ok d r = Some (d', ps, err) -> slave_msg r ->
  ps = [] /\ ds_ptlmap d' = ds_ptlmap d.
Proof.
  destruct r; cbn [ds_service slave_msg]; intros H Hr; try done.
  - destruct (dsrpc_announce_cp all_ok d data) as [[d1 e1]|] eqn:E; [|done]. injection H as <- <- _. split; [done|]. revert E.
    unfold dsrpc_announce_cp. destruct (rpc_server_find _ _); [|done]. cbn [mbind option_bind msg_ok data_ok recv_err all_ok negb orb Z.ltb Z.compare].
    destruct (receive _ _); [|done]. cbn [mbind option_bind]. destruct (add_servers _ _ _ _). by intros [= <- _].
  - destruct (dsrpc_announce_app all_ok d hreg data) as [[d1 e1]|] eqn:E; [|done]. injection H as <- <- _. split; [done|]. revert E.
    unfold dsrpc_announce_app. destruct (rpc_server_find _ _); [|done]. cbn [mbind option_bind msg_ok data_ok recv_err all_ok negb orb Z.ltb Z.compare].
    destruct (receive _ _); [|done]. cbn [mbind option_bind]. unfold ds_announce_app_completion. destruct (head _); [|done].
    cbn [mbind option_bind]. destruct (app_find _ _); [|by intros [= <- _]]. destruct (receive _ _); [|done]. by intros [= <- _].
  - by injection H as <- <- _.
Qed.

(** A server after messages of the master, whose state changed. *)
Lemma slave_push m m' b k x d d' rs : slave_ok m true k x d -> run_ds d rs = Some d' -> Forall slave_msg rs ->
  (forall p, p ∈ ds_peers m -> pm_appid p = 0 -> p ∈ ds_peers m') -> same_server d d' ->
  ds_peers d' ≡ₚ filter (announced (ds_apps m')) (ds_peers m') -> ds_self d' = ds_self d -> ds_f_reg d' = ds_f_reg d ->
  b = true -> exists d2, slave_ok m' b k (mk_sl (sl_ds x) (sl_q x ++ rs)) d2.
Proof.
  intros [S1 S2 S3 S4 S5 S6] Hr Hm Hk [K1 K2] Hp Hs Hf ->. exists d'. destruct S2 as (S2 & S2' & S2''). destruct S5 as [S5 S5'].
  split; cbn [sl_ds sl_q].
  - by rewrite run_ds_app, S1.
  - split; [by apply Hk|done].
  - done.
  - by apply Forall_app.
  - split; congruence.
  - destruct S6 as (_ & ? & ?). split; [done|]. split; congruence.
Qed.

(** The master server has an entry for a server. *)
Lemma slave_known m b k x d : minv m -> slave_ok m b k x d -> 1 <= k < sp_rank_cnt m /\ k ∈ ids (filter is_slave (ds_peers m)).
Proof.
  intros M [S1 (S2 & S2' & S2'') S3 S4 S5 S6]. pose proof (server_range m _ M S2 S2''). split; [lia|].
  rewrite <- S2'. apply ids_elem, list_elem_of_filter. split; [|done]. unfold is_slave. apply andb_True.
  rewrite !Is_true_true. split; [apply negb_true_iff, Z.eqb_neq; lia|by apply Z.eqb_eq].
Qed.

Lemma slave_has_master m k x d : minv m -> slave_ok m true k x d -> master_entry ∈ ds_peers d.
Proof.
  intros M S. destruct (so_list _ _ _ _ _ S) as [-> _]. apply list_elem_of_filter. split; [done|exact (mi_master m M)].
Qed.

Lemma slave_same m m' b k x d : slave_ok m b k x d -> ds_peers m' = ds_peers m -> ds_apps m' = ds_apps m -> slave_ok m' b k x d.
Proof. intros [S1 S2 S3 S4 S5 S6] Hp Ha. split; rewrite ?Hp, ?Ha; done. Qed.

Lemma minv_same m m' : minv m -> ds_peers m' = ds_peers m -> ds_apps m' = ds_apps m -> ds_cnt m' = ds_cnt m ->
  num_sp m' = num_sp m -> size_sp m' = size_sp m -> ds_self m' = ds_self m -> ds_ptlmap m' = ds_ptlmap m ->
  sp_rank_cnt m' = sp_rank_cnt m -> cp_rank_cnt m' = cp_rank_cnt m -> minv m'.
Proof.
  intros M E1 E2 E3 E4 E5 E6 E7 E8 E9. destruct M. split; rewrite ?E1, ?E2, ?E3, ?E4, ?E5, ?E6, ?E7, ?E8, ?E9; try done.
  intros a Ha. destruct (mi_app0 a Ha). split; rewrite ?E1, ?E9; done.
Qed.

(** *** Servers start *)

Definition holds_after (e : event) (s : sys) : Prop := exists s', exec e s = Some s' /\ inv s'.

Lemma app_find_nonzero m a : minv m -> is_Some (app_find (ds_apps m) a) -> a <> 0.
Proof. intros M [b H]. apply app_find_elem in H as [Hb <-]. exact (ao_id _ _ (mi_app m M b Hb)). Qed.

Lemma keep_server s addr : inv s -> enabled (ev_server addr) s -> holds_after (ev_server addr) s.
Proof.
  intros I [Hr Ha]. pose proof (iv_m s I) as M. set (m := ms s) in *.
  assert (Hb : booted s = false) by (destruct (booted s) eqn:E; [pose proof (iv_boot s I E); unfold m in *; lia|done]).
  assert (Hconf : same_address conf addr = false).
  { apply not_true_iff_false. rewrite same_address_eq. intros E. apply Ha. rewrite <- E. change conf with (pm_address master_entry).
    apply list_elem_of_fmap_2, elem_of_members. split; [done|exact (mi_master m M)]. }
  set (d0 := set_peers [master_entry] (ds_alloc addr nsp ncp)).
  assert (Hd0 : (ds_boot_slave (ds_alloc addr nsp ncp) conf).1 = d0) by (unfold ds_boot_slave; cbn -[same_address]; by rewrite Hconf).
  unfold holds_after. cbn [exec]. fold m. rewrite Hd0. change (ds_ptlmap d0) with (mk_pm addr 0 0).
  rewrite server_request. cbn [mbind option_bind].
  eexists. split; [reflexivity|]. pose proof (server_added_minv m addr M Hr Ha) as M'.
  assert (Hk : forall k x, slaves s !! k = Some x -> 1 <= k < sp_rank_cnt m).
  { intros k x Hx. destruct (iv_slaves s I k x Hx) as [d Hd]. apply (slave_known m _ k x d M Hd). }
  assert (Hfresh : slaves s !! sp_rank_cnt m = None).
  { destruct (slaves s !! sp_rank_cnt m) as [x|] eqn:E; [specialize (Hk _ _ E); lia|done]. }
  split; cbn [ms slaves clients booted mq sys_open]; try done.
  - intros k x. destruct (decide (k = sp_rank_cnt m)) as [->|Hne].
    + rewrite lookup_insert_eq. intros [= <-]. eexists. split; cbn [sl_ds sl_q run_ds].
      * reflexivity.
      * split; [|done]. cbn. apply list_elem_of_here.
      * pose proof (mi_rank m M). lia.
      * constructor.
      * done.
      * rewrite Hb. done.
    + rewrite lookup_insert_ne by done. intros Hx. destruct (iv_slaves s I k x Hx) as [d [S1 (S2 & S2' & S2'') S3 S4 S5 S6]].
      exists d. split; try done. 2: rewrite Hb in *; exact S6. split; [by apply list_elem_of_further|done].
  - intros c x Hx. pose proof (iv_clients s I c x Hx) as C. rewrite Hb in *.
    eapply client_frame; [exact C|done|done|done| |done]. intros Hs. cbn [server_added set_ranks set_peers ds_peers].
    rewrite members_cons. cbn [pm_appid]. rewrite (proj2 (Z.eqb_neq _ _)); [done|].
    pose proof (app_find_nonzero m _ M Hs). congruence.
  - exact (iv_senders s I).
  - exact (iv_owner s I).
  - exact (iv_once s I).
  - exact (iv_keys s I).
  - rewrite map_size_insert_None by done. pose proof (iv_size s I). unfold m. cbn. lia.
  - pose proof (iv_open s I) as Ho. rewrite dom_insert. etransitivity; [exact Ho|apply union_subseteq_r].
  - cbn. pose proof (iv_conn s I). unfold m. lia.
  - intros E. rewrite Hb in E. discriminate.
Qed.

Lemma keep_sys s k : inv s -> enabled (ev_sys k) s -> holds_after (ev_sys k) s.
Proof.
  intros I [[x Hx] Hk]. pose proof (iv_m s I) as M. destruct (iv_slaves s I k x Hx) as [d S].
  destruct (so_me _ _ _ _ _ S) as (S2 & S2' & S2''). unfold holds_after. cbn [exec]. rewrite Hx. cbn [mbind option_bind].
  unfold ds_master_request, sys_connect_param. cbn [cn_type cn_pm_cp Z.eqb].
  rewrite (minv_find _ _ M S2). cbn [mbind option_bind]. eexists. split; [reflexivity|].
  destruct I as [I1 I2 I3 I4 I5 I6 I7 I8 I9 I10 I11]. split; cbn [ms slaves clients booted mq sys_open]; try done.
  - by apply (minv_same (ms s)).
  - intros j y Hy. destruct (I2 j y Hy) as [d' S']. exists d'. by apply (slave_same (ms s)).
  - intros c y Hy. by apply (client_frame (ms s) _ (booted s) _ (mq s)); [apply I3|..].
  - apply union_subseteq. split; [|done]. apply singleton_subseteq_l, elem_of_dom. by eexists.
  - cbn. rewrite size_union by (by apply disjoint_singleton_l). rewrite size_singleton. lia.
Qed.

(** Before the servers are complete no application was announced. *)
Lemma nothing_announced s : inv s -> booted s = false -> filter (announced (ds_apps (ms s))) (ds_peers (ms s)) = members 0 (ds_peers (ms s)).
Proof.
  intros I Hb. pose proof (iv_m s I) as M. apply filter_same. intros p Hp. unfold announced.
  destruct (Z.eqb_spec (pm_appid p) 0) as [->|H0]; [done|]. cbn [orb]. split; [|done].
  destruct (mi_client _ M p Hp H0) as (a & Ha & <-). rewrite (app_find_unique _ a (mi_apps _ M) Ha).
  destruct (iv_owner s I a Ha) as (x & Hx & He). pose proof (iv_clients s I _ x Hx) as C. rewrite Hb in C.
  destruct C as [b addrs C1 _ C3|b addrs r rest C1|b C1|b rest i C1]; try discriminate; rewrite He, (app_find_unique _ a (mi_apps _ M) Ha) in *; [|done].
  injection C1 as <-. rewrite C3. done.
Qed.

(** The master server changes and sends messages. *)
Lemma keep_master s m' q' ps b' : inv s -> minv m' ->
  (forall k x d, slaves s !! k = Some x -> slave_ok (ms s) (booted s) k x d -> exists d', slave_ok m' b' k (mk_sl (sl_ds x) (sl_q x ++ to k ps)) d') ->
  (forall c x, clients s !! c = Some x -> client_ok m' b' q' c (mk_cl (cl_dc x) (cl_q x ++ to c ps) (cl_unreg x))) ->
  (forall r, r ∈ q' -> r ∈ mq s) -> to 0 ps = [] ->
  (forall a, a ∈ ds_apps m' -> exists a', a' ∈ ds_apps (ms s) /\ app_id a' = app_id a /\ app_min_id a' = app_min_id a) ->
  sp_rank_cnt m' = sp_rank_cnt (ms s) -> cp_rank_cnt m' = cp_rank_cnt (ms s) -> s_connected m' = s_connected (ms s) ->
  (b' = true -> sp_rank_cnt (ms s) = nsp) ->
  inv (post (mk_sys m' q' (slaves s) (clients s) (sys_open s) b') ps).
Proof.
  intros I M' Hs Hc Hq H0 Ha E1 E2 E3 Hb. pose proof (iv_m s I) as M. pose proof (mi_rank _ M) as Hrk.
  destruct (post_spec ps (mk_sys m' q' (slaves s) (clients s) (sys_open s) b')) as (P1 & P2 & P3 & P4 & P5 & P6).
  cbn [ms mq slaves clients sys_open booted] in *. rewrite H0, app_nil_r in P4.
  assert (Hcl : forall c x, clients (post (mk_sys m' q' (slaves s) (clients s) (sys_open s) b') ps) !! c = Some x ->
    exists y, clients s !! c = Some y /\ x = mk_cl (cl_dc y) (cl_q y ++ to c ps) (cl_unreg y)).
  { intros c x. rewrite P6, map_lookup_imap. destruct (clients s !! c) as [y|] eqn:E; [|done]. cbn. intros [= <-].
    exists y. split; [done|]. pose proof (iv_keys s I c y E). unfold inbox. by rewrite (proj2 (Z.eqb_neq c 0)) by lia. }
  split; rewrite ?P1, ?P2, ?P3, ?P4, ?E1, ?E2, ?E3; try exact Hb.
  - done.
  - intros k x. rewrite P5, map_lookup_imap. destruct (slaves s !! k) as [y|] eqn:E; [|done]. cbn. intros [= <-].
    destruct (iv_slaves s I k y E) as [d S]. unfold inbox. rewrite (proj2 (Z.eqb_neq k 0)) by exact (so_pos _ _ _ _ _ S). by apply (Hs k y d).
  - intros c x (y & Hy & ->)%Hcl. by apply Hc.
  - intros r Hr%Hq. destruct (iv_senders s I r Hr) as (c & x & Hsd & Hx). exists c. eexists. split; [done|].
    rewrite P6, map_lookup_imap, Hx. done.
  - intros a Hin. destruct (Ha a Hin) as (a' & Hin' & <- & <-). destruct (iv_owner s I a' Hin') as (x & Hx & He).
    eexists. split; [rewrite P6, map_lookup_imap, Hx; reflexivity|done].
  - intros c1 c2 x1 x2 (y1 & H1 & ->)%Hcl (y2 & H2 & ->)%Hcl E. by apply (iv_once s I c1 c2 y1 y2).
  - intros c x (y & Hy & ->)%Hcl. by apply (iv_keys s I c y).
  - rewrite P5, <- (iv_size s I). f_equal. rewrite <- !size_dom. f_equal. apply set_eq. intros k.
    rewrite !elem_of_dom, map_lookup_imap. destruct (slaves s !! k); done.
  - intros k Hk. apply (iv_open s I) in Hk. rewrite elem_of_dom in *. rewrite P5, map_lookup_imap. destruct Hk as [x ->]. done.
  - exact (iv_conn s I).
Qed.

(** Messages only for the other servers. *)
Lemma to_slaves_only m ps k : minv m -> (forall d r, (d, r) ∈ ps -> d ∈ ids (filter is_slave (ds_peers m))) ->
  k = 0 \/ nsp <= k -> to k ps = [].
Proof.
  intros M H Hk. apply to_nil. intros r Hr%H%elem_of_slaves; [|done]. pose proof (mi_rank m M). lia.
Qed.

Lemma keep_boot s : inv s -> enabled ev_boot s -> holds_after ev_boot s.
Proof.
  intros I [Hb Hc]. pose proof (iv_m s I) as M. destruct (mi_fix _ M) as (F1 & F2 & _). rewrite F2, (iv_conn s I) in Hc.
  assert (Hsp : sp_rank_cnt (ms s) = nsp).
  { pose proof (mi_rank _ M). pose proof (iv_size s I). pose proof (subseteq_size _ _ (iv_open s I)) as Hs. rewrite size_dom in Hs. lia. }
  unfold holds_after. cbn [exec]. rewrite (boot_service _ M Hsp). cbn [mbind option_bind]. eexists. split; [reflexivity|].
  assert (Hto : forall k, k = 0 \/ nsp <= k -> to k (boot_packets (ms s)) = []).
  { intros k. apply (to_slaves_only (ms s) _ k M). intros d r (p & [= -> _] & Hp)%list_elem_of_fmap. by apply ids_elem. }
  apply keep_master; try done.
  - by apply (minv_same (ms s)).
  - intros k x d Hx S. rewrite Hb in S. destruct (slave_known _ _ _ _ _ M S) as [_ Hk]. destruct S as [S1 (S2 & S2' & S2'') S3 S4 [S5 S5'] [S6 S6']].
    rewrite S6 in S1. cbn in S1. injection S1 as <-.
    unfold boot_packets. rewrite to_each, bool_decide_eq_true_2 by (done || by apply slave_ids).
    destruct (slave_boot (ms s) (sl_ds x) M Hsp S6' S5' S2 S2'') as (d' & Hd & [K1 K2] & Hl & Hse & Hf); [congruence|].
    exists d'. rewrite S6. split; cbn [sl_ds sl_q app run_ds]; [by rewrite Hd|done|done|by repeat constructor|split; congruence|].
    split; [|done]. rewrite Hl. change (ds_apps (booted_ds (ms s))) with (ds_apps (ms s)).
    change (ds_peers (booted_ds (ms s))) with (ds_peers (ms s)). by rewrite nothing_announced.
  - intros c x Hx. rewrite Hto by (right; exact (proj1 (iv_keys s I c x Hx))). rewrite app_nil_r.
    apply (client_frame (ms s) _ (booted s) _ (mq s)); try done. destruct x. by apply (iv_clients s I).
  - apply Hto. by left.
  - intros a Ha. by exists a.
Qed.

(** *** An application starts *)

Lemma keep_app s a addrs : inv s -> enabled (ev_app a addrs) s -> holds_after (ev_app a addrs) s.
Proof.
  intros I (Ha & Hne & Hno). pose proof (iv_m s I) as M. pose proof (mi_cp _ M) as Hcp. pose proof (mi_rank _ M) as Hrk.
  assert (Hf : app_find (ds_apps (ms s)) a = None).
  { apply app_find_none. intros (b & -> & Hb)%list_elem_of_fmap. destruct (iv_owner s I b Hb) as (x & Hx & He). by apply (Hno _ x Hx). }
  assert (Hn : 1 <= Z.of_nat (length addrs)) by (destruct addrs; [done|cbn [length]; lia]).
  set (c := cp_rank_cnt (ms s)) in *.
  destruct (app_started a addrs (nsp + (current_client_size (ds_cnt (ms s)) + 1) - 1) c Hne ltac:(lia))
    as (me & dc & Hst & Hhd & Hpm & Hsz & Hw & Hme & Htk & Hds). cbv zeta in *.
  unfold holds_after. cbn [exec]. rewrite Hst. cbn [mbind option_bind]. rewrite Hpm, Hsz, app_request by done.
  cbn [mbind option_bind]. fold c. rewrite Hds. cbn [mbind option_bind]. eexists. split; [reflexivity|].
  set (dc' := dc_connected _ _) in *. unfold post. cbn [foldl post1 fst Z.eqb snd ms mq slaves clients sys_open booted].
  rewrite Hme. cbn [pm_id].
  assert (Hfresh : clients s !! c = None).
  { destruct (clients s !! c) as [x|] eqn:E; [|done]. pose proof (iv_keys s I c x E). lia. }
  set (m' := app_added (ms s) me a (Z.of_nat (length addrs))).
  assert (M' : minv m') by (by apply app_added_minv).
  assert (Hap : appid_of (mk_cl dc' [] false) = a) by (unfold appid_of; cbn [cl_dc]; by rewrite Hme).
  assert (Hnone : forall p, p ∈ ds_peers (ms s) -> pm_appid p <> a).
  { intros p Hp <-. destruct (mi_client _ M p Hp Ha) as (b & Hb & He). apply app_find_none in Hf. apply Hf. rewrite <- He. by apply list_elem_of_fmap_2. }
  assert (Hfind : forall b, b <> a -> app_find (ds_apps m') b = app_find (ds_apps (ms s)) b).
  { intros b Hb. cbn. by rewrite (proj2 (Z.eqb_neq a b)) by congruence. }
  assert (Hmem : forall b, b <> a -> members b (ds_peers m') = members b (ds_peers (ms s))).
  { intros b Hb. cbn [m' app_added set_ranks set_peers ds_peers]. rewrite members_cons. cbn [pm_appid]. by rewrite (proj2 (Z.eqb_neq a b)) by congruence. }
  split; cbn [ms slaves clients booted mq sys_open]; try done.
  - intros k x Hx. destruct (iv_slaves s I k x Hx) as [d [S1 (S2 & S2' & S2'') S3 S4 S5 S6]]. exists d. split; try done.
    + split; [by apply list_elem_of_further|done].
    + destruct (booted s); [|done]. destruct S6 as (S6 & S7 & S8). split; [|done]. rewrite S6.
      cbn [m' app_added set_ranks set_peers ds_peers]. rewrite list.filter_cons, decide_False.
      * rewrite (filter_same (announced (ds_apps m')) (announced (ds_apps (ms s)))); [done|]. intros p Hp. unfold announced.
        by rewrite Hfind by (by apply Hnone).
      * unfold announced. cbn. rewrite (proj2 (Z.eqb_neq a 0)), Z.eqb_refl by done. cbn. tauto.
  - intros b x. destruct (decide (b = c)) as [->|Hbc].
    + rewrite lookup_insert_eq. intros [= <-]. eapply (co_waiting _ _ _ _ _ (mk_app a c (Z.of_nat (length addrs)) 1 false) addrs); try done; rewrite ?Hap.
      * cbn. by rewrite Z.eqb_refl.
      * rewrite Htk. cbn [m' app_added set_ranks set_peers ds_peers]. rewrite members_cons. cbn [pm_appid]. by rewrite Z.eqb_refl, members_none.
      * rewrite from_app. replace (from c (mq s)) with (@nil msg).
        -- unfold from. rewrite list.filter_cons, decide_True by done. done.
        -- symmetry. apply filter_none. intros r Hr E. destruct (iv_senders s I r Hr) as (c' & x & Hc' & Hx). congruence.
    + rewrite lookup_insert_ne by done. intros Hx. pose proof (Hno b x Hx) as Hxa.
      apply (client_frame (ms s) _ (booted s) _ (mq s)); [by apply (iv_clients s I)|done|by apply Hfind|intros _; apply Hmem; congruence|intros _; by apply Hmem|].
      rewrite from_app. unfold from at 2. rewrite list.filter_cons, decide_False by (cbn; congruence). apply app_nil_r.
  - intros r [Hr|Hr]%elem_of_app.
    + destruct (iv_senders s I r Hr) as (c' & x & Hc' & Hx). exists c', x. split; [done|]. rewrite lookup_insert_ne; [done|]. intros <-. congruence.
    + apply list_elem_of_singleton in Hr as ->. exists c. eexists. split; [done|]. apply lookup_insert_eq.
  - intros b [->|Hb]%elem_of_cons.
    + eexists. split; [apply lookup_insert_eq|done].
    + destruct (iv_owner s I b Hb) as (x & Hx & He). exists x. split; [|done]. rewrite lookup_insert_ne; [done|]. intros E. rewrite <- E in Hx. congruence.
  - intros c1 c2 x1 x2. destruct (decide (c1 = c)) as [->|H1], (decide (c2 = c)) as [->|H2]; rewrite ?lookup_insert_eq, ?lookup_insert_ne by done.
    + done.
    + intros [= <-] Hx2 E. rewrite Hap in E. by destruct (Hno c2 x2 Hx2).
    + intros Hx1 [= <-] E. rewrite Hap in E. by destruct (Hno c1 x1 Hx1).
    + by apply (iv_once s I).
  - intros b x. cbn [m' app_added set_ranks cp_rank_cnt]. fold c. destruct (decide (b = c)) as [->|Hbc]; [lia|].
    rewrite lookup_insert_ne by done. intros Hx. pose proof (iv_keys s I b x Hx). unfold c. lia.
  - exact (iv_size s I).
  - exact (iv_open s I).
  - exact (iv_conn s I).
  - exact (iv_boot s I).
Qed.

(** *** The master server handles a request *)

#[local] Instance app_info_eq_dec : EqDecision app_info.
Proof. solve_decision. Defined.

(** Applications have different first ids. *)
Lemma min_unique m a b : minv m -> a ∈ ds_apps m -> b ∈ ds_apps m -> app_min_id a = app_min_id b -> a = b.
Proof.
  intros M Ha Hb E. destruct (decide (a = b)) as [|Hne]; [done|]. exfalso.
  pose proof (ao_num _ _ (mi_app m M a Ha)). pose proof (ao_num _ _ (mi_app m M b Hb)). destruct (mi_disj m M a b Ha Hb Hne); lia.
Qed.

(** News for a client. *)
Lemma client_more m b q c x extra : client_ok m b q c x ->
  extra = [] \/ (exists a, app_find (ds_apps m) (appid_of x) = Some a /\ sent_announce a = true /\ Forall (news a) extra) ->
  client_ok m b q c (mk_cl (cl_dc x) (cl_q x ++ extra) (cl_unreg x)).
Proof.
  intros C [->|(a & Ha & Hs & Hn)]; [rewrite app_nil_r; by destruct x|].
  destruct C as [b2 ad2 E1 E2 E3|b2 ad2 r2 rest2 E0 E1 E2 E3 E4 E5 E6 E7 E8 E9 E10 E11|b2 E0 E1 E2 E3 E4 E5 E6|b2 rest2 j E1];
    rewrite Ha in E1; try congruence; injection E1 as <-.
  - eapply (co_answered _ _ _ _ _ a ad2 r2 (rest2 ++ extra)); unfold appid_of in *; cbn [cl_dc cl_q cl_unreg]; try done.
    + by rewrite E8.
    + by apply Forall_app.
  - eapply (co_member _ _ _ _ _ a); unfold appid_of in *; cbn [cl_dc cl_q cl_unreg]; try done. by apply Forall_app.
Qed.

Lemma delete_sub {A} i (l : list A) r x : l !! i = Some x -> r ∈ delete i l -> r ∈ l.
Proof. intros (l1 & l2 & -> & ->)%delete_split. rewrite !elem_of_app, elem_of_cons. tauto. Qed.

(** **** The list of an application has come *)

Section Complete.
Context (s : sys) (I : inv s) (Hb : booted s = true) (a : app_info) (Ha : a ∈ ds_apps (ms s)) (Hs : sent_announce a = false).
Context (addrs : list sockaddr_in) (e : ptlid_map) (es : list ptlid_map).
Context (Hn : app_num_peers a = Z.of_nat (length addrs)).
Context (HE : entries (app_min_id a) (app_id a) addrs = e :: es).
Context (Hm : members (app_id a) (ds_peers (ms s)) = [e]).

#[local] Abbreviation m' := (completed (ms s) a es).
#[local] Abbreviation ps := (completion_packets (ms s) a es).

Lemma cm_minv : minv m'.
Proof using All. exact (completed_minv (ms s) (iv_m s I) a Ha Hs addrs e es Hn HE Hm). Qed.

Lemma cm_full : full_app a ∈ ds_apps m' /\ app_find (ds_apps m') (app_id a) = Some (full_app a).
Proof using All.
  assert (H : full_app a ∈ ds_apps m').
  { rewrite (completed_apps (ms s) (iv_m s I) a es). apply list_elem_of_fmap. exists a. by rewrite Z.eqb_refl. }
  split; [done|]. exact (app_find_unique _ _ (mi_apps _ cm_minv) H).
Qed.

Lemma cm_others b : b ∈ ds_apps (ms s) -> app_id b <> app_id a -> b ∈ ds_apps m'.
Proof using All.
  intros Hin Hne. rewrite (completed_apps (ms s) (iv_m s I) a es). apply list_elem_of_fmap. exists b. by rewrite (proj2 (Z.eqb_neq _ _)).
Qed.

Lemma cm_find b : b <> app_id a -> app_find (ds_apps m') b = app_find (ds_apps (ms s)) b.
Proof using All.
  intros Hne. destruct (app_find (ds_apps (ms s)) b) as [y|] eqn:E.
  - apply app_find_elem in E as [Hy <-]. apply app_find_unique; [exact (mi_apps _ cm_minv)|by apply cm_others].
  - apply app_find_none in E. apply app_find_none. intros (y & -> & Hy)%list_elem_of_fmap.
    apply (elem_of_completed (ms s) (iv_m s I) a Ha es) in Hy as [->|[Hy _]]; [done|]. apply E. by apply list_elem_of_fmap_2.
Qed.

Lemma cm_members b : b <> app_id a -> members b (ds_peers m') = members b (ds_peers (ms s)).
Proof using All. intros H. rewrite (completed_members (ms s) a addrs e es HE Hm). by rewrite (proj2 (Z.eqb_neq _ _)). Qed.

Lemma cm_packet d r : (d, r) ∈ ps -> (r = news_msg (ms s) a es /\ d ∈ ids (filter is_slave (ds_peers m'))) \/
  (exists b, r = news_msg (ms s) a es /\ d = app_min_id b /\ b ∈ ds_apps (ms s) /\ app_id b <> app_id a /\ sent_announce b = true) \/
  (d = app_min_id a /\ r = answer_msg (ms s) a es).
Proof using.
  unfold completion_packets. rewrite !elem_of_app. intros [H|[H|H]].
  - apply list_elem_of_fmap in H as (p & [= -> ->] & Hp). left. split; [done|by apply ids_elem].
  - right. left. destruct dimes; [|by apply not_elem_of_nil in H].
    apply list_elem_of_fmap in H as (b & [= -> ->] & [[? ?] ?]%list_elem_of_filter). by exists b.
  - right. right. apply list_elem_of_singleton in H as [= -> ->]. done.
Qed.

Lemma cm_to_slave k x d : slave_ok (ms s) true k x d -> to k ps = [news_msg (ms s) a es].
Proof using All.
  intros S. pose proof (iv_m s I) as M. destruct (slave_known _ _ _ _ _ M S) as [Hk1 Hk2]. pose proof (mi_rank _ M).
  assert (Hsl : k ∈ ids (filter is_slave (ds_peers m'))).
  { apply list_elem_of_fmap in Hk2 as (p & -> & [H1 H2]%list_elem_of_filter). apply ids_elem, list_elem_of_filter. split; [done|].
    cbn. apply elem_of_app. by right. }
  unfold completion_packets. rewrite !to_app, to_each, bool_decide_eq_true_2 by (done || apply slave_ids, cm_minv).
  cbn [app]. f_equal. pose proof (ao_lo _ _ (mi_app _ M a Ha)). rewrite to_cons. cbn [fst snd]. rewrite (proj2 (Z.eqb_neq _ _)) by lia.
  rewrite app_nil_r. destruct dimes; [|done]. apply to_nil.
  intros r (b & [= -> _] & [_ Hb']%list_elem_of_filter)%list_elem_of_fmap. pose proof (ao_lo _ _ (mi_app _ M b Hb')). lia.
Qed.

(** What the servers were told of. *)
Lemma cm_announced : filter (announced (ds_apps m')) (ds_peers m') ≡ₚ
  members (app_id a) (ds_peers m') ++ filter (announced (ds_apps (ms s))) (ds_peers (ms s)).
Proof using All.
  pose proof (iv_m s I) as M. rewrite (filter_Permutation (announced (ds_apps m')) _ _ (split_members (app_id a) (ds_peers m'))).
  rewrite list.filter_app. f_equiv.
  - rewrite filter_all; [done|]. intros p [Hpa Hp]%elem_of_members. unfold announced. by rewrite Hpa, (proj2 cm_full), orb_true_r.
  - assert (Hw : without (app_id a) (ds_peers m') = without (app_id a) (ds_peers (ms s))).
    { cbn [completed set_peers ds_peers]. unfold without. rewrite list.filter_app, filter_none; [done|].
      intros p Hp Hne. by rewrite (es_appid a addrs e es HE p Hp) in Hne. }
    rewrite Hw. unfold without. rewrite list_filter_filter. erewrite filter_same; [reflexivity|]. intros p Hp. cbn.
    unfold announced. destruct (decide (pm_appid p = app_id a)) as [Ep|Ep].
    + rewrite Ep, (app_find_unique _ a (mi_apps _ M) Ha), Hs.
      rewrite (proj2 (Z.eqb_neq _ _)) by exact (ao_id _ _ (mi_app _ M a Ha)). cbn. tauto.
    + rewrite cm_find by done. tauto.
Qed.

Lemma cm_slave k x d : slave_ok (ms s) true k x d -> exists d', slave_ok m' true k (mk_sl (sl_ds x) (sl_q x ++ to k ps)) d'.
Proof using All.
  intros S. pose proof (iv_m s I) as M.
  destruct (slave_app d (app_id a) (app_num_peers a) (members (app_id a) (ds_peers m'))
    (replicate (Z.to_nat (app_num_peers a) - length (members (app_id a) (ds_peers m'))) None) (slave_has_master _ _ _ _ M S))
    as (d' & Hd & Hss & Hl & Hse & Hf).
  - symmetry. exact (new_members_length (ms s) M a Ha Hs addrs e es Hn HE Hm).
  - exact (ao_num _ _ (mi_app _ M a Ha)).
  - by intros p [? _]%elem_of_members.
  - rewrite (cm_to_slave k x d S). apply (slave_push (ms s) m' true k x d d'); try done.
    + unfold news_msg. cbn [run_ds]. unfold new_peers. by rewrite Hd.
    + by repeat constructor.
    + intros p Hp _. cbn. apply elem_of_app. by right.
    + rewrite Hl, cm_announced. destruct (so_list _ _ _ _ _ S) as (-> & _). done.
Qed.

(** The application gets the answer. *)
Lemma cm_to_app : to (app_min_id a) ps = [answer_msg (ms s) a es].
Proof using All.
  pose proof (iv_m s I) as M. pose proof (ao_lo _ _ (mi_app _ M a Ha)) as Hlo.
  unfold completion_packets. rewrite !to_app, to_cons. cbn [fst snd]. rewrite Z.eqb_refl.
  rewrite (to_slaves_only m' (map _ _)); [|exact cm_minv| |by right].
  - cbn [app]. destruct dimes; [|done]. rewrite to_nil; [done|].
    intros r (b & [= Eb _] & [[Hne _] Hb']%list_elem_of_filter)%list_elem_of_fmap. by rewrite (min_unique _ a b M Ha Hb' Eb) in Hne.
  - intros d r (p & [= -> _] & Hp)%list_elem_of_fmap. by apply ids_elem.
Qed.

(** Another client gets news, if it has its own answer. *)
Lemma cm_to_other c y : clients s !! c = Some y -> c <> app_min_id a -> 
  to c ps = [] \/ (exists b, app_find (ds_apps m') (appid_of y) = Some b /\ sent_announce b = true /\ Forall (news b) (to c ps)).
Proof using All.
  intros Hy Hne. pose proof (iv_m s I) as M. pose proof (iv_keys s I c y Hy) as Hk.
  assert (Hr : forall r, r ∈ to c ps -> exists b, r = news_msg (ms s) a es /\ c = app_min_id b /\ b ∈ ds_apps (ms s) /\ app_id b <> app_id a /\ sent_announce b = true).
  { intros r [[_ H]|[H|[H _]]]%elem_of_to%cm_packet; [|done|done].
    apply elem_of_slaves in H; [|exact cm_minv]. pose proof (mi_rank _ cm_minv). lia. }
  destruct (to c ps) as [|r0 l]; [by left|right].
  destruct (Hr r0 (list_elem_of_here r0 l)) as (b & _ & Hcb & Hin & Hba & Hbs).
  destruct (iv_owner s I b Hin) as (z & Hz & Hza). rewrite <- Hcb, Hy in Hz. injection Hz as <-.
  exists b. split; [rewrite Hza, cm_find by done; apply app_find_unique; [exact (mi_apps _ M)|done]|]. split; [done|].
  apply list.Forall_forall. intros r Hin'. destruct (Hr r Hin') as (b' & -> & _).
  eexists _, _, _. split; [reflexivity|]. split; [symmetry; exact (new_members_length (ms s) M a Ha Hs addrs e es Hn HE Hm)|].
  intros p [Hpa Hp]%elem_of_members. apply (others_far m' b p cm_minv); [by apply cm_others|done| |congruence].
  rewrite Hpa. exact (ao_id _ _ (mi_app _ M a Ha)).
Qed.

Lemma keep_completion i x : clients s !! app_min_id a = Some x -> appid_of x = app_id a -> waiting_ok (cl_dc x) (app_min_id a) addrs ->
  cl_q x = [] -> cl_unreg x = false ->
  from (app_min_id a) (delete i (mq s)) = [] ->
  mq s !! i = Some (cp_disseminate_cs (app_min_id a) (map Some (rev (entries (app_min_id a) (app_id a) addrs)))) ->
  holds_after (ev_master i) s.
Proof using All.
  intros Hx Hid W Hq Hu Hfr Hi. pose proof (iv_m s I) as M. pose proof (iv_boot s I Hb) as Hsp.
  unfold holds_after. cbn [exec]. rewrite Hi. cbn [mbind option_bind ds_service].
  rewrite (completion_service (ms s) M a Ha Hs addrs e es Hn HE Hm Hsp). cbn [mbind option_bind]. eexists. split; [reflexivity|].
  apply keep_master; try done.
  - exact cm_minv.
  - intros k y d _ S. rewrite Hb in *. by apply (cm_slave k y d).
  - intros c y Hy. destruct (decide (c = app_min_id a)) as [->|Hne].
    + rewrite Hx in Hy. injection Hy as <-. rewrite cm_to_app, Hq. cbn [app].
      eapply (co_answered _ _ _ _ _ (full_app a) addrs); unfold appid_of in *; cbn [cl_dc cl_q cl_unreg]; try done.
      * rewrite Hid. exact (proj2 cm_full).
      * rewrite Hid, (completed_members (ms s) a addrs e es HE Hm), Z.eqb_refl, HE. by rewrite Permutation_app_comm.
      * apply (completion_answer (ms s) M a Ha Hs addrs e es Hn HE Hm Hsp).
    + assert (Hya : appid_of y <> app_id a) by (intros E; apply Hne; apply (iv_once s I c _ y x Hy Hx); congruence).
      apply client_more; [|by apply cm_to_other].
      apply (client_frame (ms s) _ (booted s) _ (mq s)); [by apply (iv_clients s I)|done|by apply cm_find| | |].
      * intros _. apply cm_members. pose proof (ao_id _ _ (mi_app _ M a Ha)). congruence.
      * intros _. by apply cm_members.
      * by apply (from_delete_other (app_min_id a) c i (mq s) _ Hi).
  - intros r. by apply delete_sub with (1 := Hi).
  - apply to_nil. intros r Hr. pose proof (mi_rank _ M). apply cm_packet in Hr as [[_ H0]|[(b & _ & H0 & Hin & _)|[H0 _]]].
    + apply elem_of_slaves in H0; [lia|exact cm_minv].
    + pose proof (ao_lo _ _ (mi_app _ M b Hin)). lia.
    + pose proof (ao_lo _ _ (mi_app _ M a Ha)). lia.
  - intros b Hin. apply (elem_of_completed (ms s) M a Ha es) in Hin as [->|[Hin _]]; [by exists a|by exists b].
Qed.

End Complete.

(** **** An application leaves *)

Section Leave.
Context (s : sys) (I : inv s) (Hb : booted s = true) (a : app_info) (Ha : a ∈ ds_apps (ms s)) (Hs : sent_announce a = true).

#[local] Abbreviation m' := (removed_ds (ms s) a).
#[local] Abbreviation ps := (removal_packets (ms s) a).

Lemma lv_minv : minv m'.
Proof using All. exact (removed_minv (ms s) (iv_m s I) a Ha Hs). Qed.

Lemma lv_find b : app_find (ds_apps m') b = if b =? app_id a then None else app_find (ds_apps (ms s)) b.
Proof using All.
  pose proof (iv_m s I) as M. destruct (Z.eqb_spec b (app_id a)) as [->|Hne].
  - apply app_find_none. intros (y & E & Hy)%list_elem_of_fmap. apply (removed_elem (ms s) M a) in Hy as [_ Hy]. congruence.
  - destruct (app_find (ds_apps (ms s)) b) as [y|] eqn:E.
    + apply app_find_elem in E as [Hy <-]. apply app_find_unique; [exact (mi_apps _ lv_minv)|]. by apply (removed_elem (ms s) M a).
    + apply app_find_none in E. apply app_find_none. intros (y & -> & Hy)%list_elem_of_fmap. apply (removed_elem (ms s) M a) in Hy as [Hy _].
      apply E. by apply list_elem_of_fmap_2.
Qed.

Lemma lv_to k : k <> app_min_id a ->
  to k ps = if bool_decide (k ∈ ids (filter is_slave (ds_peers (ms s)))) then [cn_unregister_app (app_id a); cn_unregister_app (app_id a)] else [].
Proof using All.
  intros Hk. unfold removal_packets. rewrite to_cons. cbn [fst snd]. rewrite (proj2 (Z.eqb_neq _ _)) by congruence.
  apply to_each_twice, slave_ids, (iv_m s I).
Qed.

Lemma lv_far k : k = 0 \/ nsp <= k -> k <> app_min_id a -> to k ps = [].
Proof using All.
  intros Hk Hne. rewrite lv_to by done. rewrite bool_decide_eq_false_2; [done|]. intros H%elem_of_slaves; [|exact (iv_m s I)].
  pose proof (mi_rank _ (iv_m s I)). lia.
Qed.

Lemma lv_to_app : to (app_min_id a) ps = [cn_unregister 0].
Proof using All.
  pose proof (iv_m s I) as M. pose proof (ao_lo _ _ (mi_app _ M a Ha)). pose proof (mi_rank _ M).
  unfold removal_packets. rewrite to_cons. cbn [fst snd]. rewrite Z.eqb_refl, to_each_twice by (by apply slave_ids).
  rewrite bool_decide_eq_false_2; [done|]. intros H1%elem_of_slaves; [lia|done].
Qed.

Lemma lv_announced : filter (announced (ds_apps m')) (ds_peers m') = without (app_id a) (filter (announced (ds_apps (ms s))) (ds_peers (ms s))).
Proof using All.
  cbn [removed_ds set_peers ds_peers]. unfold without. rewrite !list_filter_filter. apply filter_same. intros p _. cbn.
  unfold announced. rewrite lv_find. destruct (Z.eqb_spec (pm_appid p) (app_id a)); tauto.
Qed.

Lemma lv_slave k x d : slave_ok (ms s) true k x d -> exists d', slave_ok m' true k (mk_sl (sl_ds x) (sl_q x ++ to k ps)) d'.
Proof using All.
  intros S. pose proof (iv_m s I) as M. destruct (slave_known _ _ _ _ _ M S) as [Hk1 Hk2]. pose proof (mi_rank _ M).
  pose proof (ao_lo _ _ (mi_app _ M a Ha)). rewrite lv_to, bool_decide_eq_true_2 by (done || lia).
  eapply (slave_push (ms s) m' true k x d); try done.
  - by repeat constructor.
  - intros p Hp Hp0. cbn [removed_ds set_peers ds_peers]. apply list_elem_of_filter. split; [|done].
    pose proof (ao_id _ _ (mi_app _ M a Ha)). congruence.
  - rewrite lv_announced. cbn [ds_service mbind option_bind fst dsrpc_cn_unregister_app set_peers set_apps set_cnt ds_peers].
    destruct (so_list _ _ _ _ _ S) as (E & _). unfold without. rewrite list_filter_filter.
    rewrite (filter_Permutation _ _ _ E). apply Permutation_refl', filter_same. intros p _. cbn. tauto.
Qed.

Lemma keep_removal i x : clients s !! app_min_id a = Some x -> appid_of x = app_id a -> registered_ok (ms s) (cl_dc x) a ->
  Forall (news a) (cl_q x) -> cl_unreg x = true -> from (app_min_id a) (delete i (mq s)) = [] ->
  mq s !! i = Some (cn_unregister (app_min_id a)) -> holds_after (ev_master i) s.
Proof using All.
  intros Hx Hid R Hq Hu Hfr Hi. pose proof (iv_m s I) as M. pose proof (ao_id _ _ (mi_app _ M a Ha)) as H0.
  pose proof (ao_lo _ _ (mi_app _ M a Ha)). pose proof (mi_rank _ M).
  unfold holds_after. cbn [exec]. rewrite Hi. cbn [mbind option_bind ds_service]. rewrite (removal_service (ms s) M a Ha Hs).
  cbn [mbind option_bind]. eexists. split; [reflexivity|]. apply keep_master; try done.
  - exact lv_minv.
  - intros k y d _ S. rewrite Hb in *. by apply (lv_slave k y d).
  - intros c y Hy. destruct (decide (c = app_min_id a)) as [->|Hne].
    + rewrite Hx in Hy. injection Hy as <-. rewrite lv_to_app.
      eapply (co_left _ _ _ _ _ a (cl_q x) 0); unfold appid_of in *; cbn [cl_dc cl_q cl_unreg]; try done.
      * by rewrite lv_find, Hid, Z.eqb_refl.
      * rewrite Hid. exact (ro_alive _ _ _ R).
    + rewrite lv_far by (done || (right; exact (proj1 (iv_keys s I c y Hy)))). rewrite app_nil_r.
      assert (Hya : appid_of y <> app_id a) by (intros E; apply Hne; apply (iv_once s I c _ y x Hy Hx); congruence).
      apply (client_frame (ms s) _ (booted s) _ (mq s)); [destruct y; by apply (iv_clients s I)|done| | | |].
      * unfold appid_of in *. cbn. by rewrite lv_find, (proj2 (Z.eqb_neq _ _)).
      * intros _. rewrite removed_members. by rewrite (proj2 (Z.eqb_neq _ _)) by congruence.
      * intros _. rewrite removed_members. unfold appid_of in *. cbn. by rewrite (proj2 (Z.eqb_neq _ _)).
      * by apply (from_delete_other (app_min_id a) c i (mq s) _ Hi).
  - intros r. by apply delete_sub with (1 := Hi).
  - apply lv_far; [by left|lia].
  - intros b [Hin _]%(removed_elem (ms s) M a). by exists b.
  - exact (iv_boot s I).
Qed.

End Leave.

(** **** Requests *)

Lemma keep_request s i : inv s -> enabled (ev_master i) s -> holds_after (ev_master i) s.
Proof.
  intros I [Hb [r Hi]]. pose proof (iv_m s I) as M.
  destruct (iv_senders s I r) as (c & x & Hc & Hx); [by apply list_elem_of_lookup_2 in Hi|].
  destruct (from_delete c i (mq s) r Hi Hc) as [Hfd Hne].
  destruct (iv_clients s I c x Hx) as [a addrs C1 C2 C3 C4 C5 C6 C7 C8 C9|a addrs r' rest C1 C2 C3 C4 C5 C6 C7 C8 C9 C10 C11 C12|
    a C1 C2 C3 C4 C5 C6 C7|a rest j C1 C2 C3 C4 C5 C6]; [| | |].
  - destruct (Hfd _ C9) as [<- Hd]. destruct (app_find_elem _ _ _ C1) as [Ha Hid]. subst c.
    assert (Hn : addrs <> []) by (intros ->; pose proof (ao_num _ _ (mi_app _ M a Ha)); cbn in C4; lia).
    destruct (entries_cons (app_min_id a) (appid_of x) addrs Hn) as (e & es & HE & Ht & _ & _). rewrite Ht in C5.
    rewrite <- Hid in HE, C5, Hi. by eapply (keep_completion s I Hb a Ha C3 addrs e es C4 HE C5 i x).
  - rewrite C12 in Hne. done.
  - destruct (cl_unreg x) eqn:Hu; [|by rewrite C7 in Hne]. destruct (Hfd _ C7) as [<- Hd].
    destruct (app_find_elem _ _ _ C2) as [Ha Hid]. subst c. by eapply (keep_removal s I Hb a Ha C4 i x).
  - rewrite C6 in Hne. done.
Qed.

(** *** The other processes handle a message *)

Lemma keep_slave s k : inv s -> enabled (ev_slave k) s -> holds_after (ev_slave k) s.
Proof.
  intros I Hen. cbn [enabled] in Hen. destruct (slaves s !! k) as [x|] eqn:Hx; [|done].
  destruct (iv_slaves s I k x Hx) as [d [S1 S2 S3 S4 S5 S6]].
  destruct x as [ds q]. cbn [sl_ds sl_q] in *. destruct q as [|r q]; [done|]. cbn [run_ds] in S1.
  apply list.Forall_cons in S4 as [Hr Hq].
  destruct (ds_service dimes all_ok ds r) as [[[d1 ps] err]|] eqn:E; [|done]. cbn [mbind option_bind fst] in S1.
  destruct (slave_service ds r d1 ps err E Hr) as [-> Hp].
  unfold holds_after. cbn [exec]. rewrite Hx. cbn [mbind option_bind sl_ds sl_q head]. rewrite E. cbn [mbind option_bind].
  eexists. split; [reflexivity|]. rewrite post_nil. cbn [tail].
  split; cbn [ms slaves clients booted mq sys_open];
    [exact (iv_m s I)| |exact (iv_clients s I)|exact (iv_senders s I)|exact (iv_owner s I)|exact (iv_once s I)|exact (iv_keys s I)| | |exact (iv_conn s I)|exact (iv_boot s I)].
  - intros j y. destruct (decide (j = k)) as [->|Hj]; [|rewrite lookup_insert_ne by done; apply (iv_slaves s I)].
    rewrite lookup_insert_eq. intros [= <-]. exists d. split; cbn [sl_ds sl_q]; rewrite ?Hp; try done.
    destruct (booted s); [done|]. by destruct S6.
  - rewrite map_size_insert_Some by (by eexists). exact (iv_size s I).
  - rewrite dom_insert. etransitivity; [exact (iv_open s I)|apply union_subseteq_r].
Qed.

(** A client changes. *)
Lemma keep_client_upd s c x x' q' : inv s -> clients s !! c = Some x -> client_ok (ms s) (booted s) q' c x' -> appid_of x' = appid_of x ->
  (forall c', c' <> c -> from c' q' = from c' (mq s)) -> (forall r, r ∈ q' -> r ∈ mq s \/ sender r = Some c) ->
  inv (mk_sys (ms s) q' (slaves s) (<[c := x']> (clients s)) (sys_open s) (booted s)).
Proof.
  intros I Hx C Ha Hf Hq.
  assert (Hl : forall c' y, <[c := x']> (clients s) !! c' = Some y -> exists z, clients s !! c' = Some z /\ appid_of z = appid_of y).
  { intros c' y. destruct (decide (c' = c)) as [->|Hne]; [rewrite lookup_insert_eq; intros [= <-]; by exists x|].
    rewrite lookup_insert_ne by done. by exists y. }
  assert (Hk : forall c' z, clients s !! c' = Some z -> exists y, <[c := x']> (clients s) !! c' = Some y /\ appid_of y = appid_of z).
  { intros c' z Hz. destruct (decide (c' = c)) as [->|Hne]; [exists x'; rewrite lookup_insert_eq; split; congruence|].
    rewrite lookup_insert_ne by done. by exists z. }
  split; cbn [ms slaves clients booted mq sys_open]; [exact (iv_m s I)|exact (iv_slaves s I)| | | | | |exact (iv_size s I)|exact (iv_open s I)|exact (iv_conn s I)|exact (iv_boot s I)].
  - intros c' y. destruct (decide (c' = c)) as [->|Hne]; [rewrite lookup_insert_eq; by intros [= <-]|].
    rewrite lookup_insert_ne by done. intros Hy. apply (client_frame (ms s) _ (booted s) _ (mq s)); try done; [by apply (iv_clients s I)|by apply Hf].
  - intros r [Hr|Hr]%Hq.
    + destruct (iv_senders s I r Hr) as (c' & z & Hs & Hz). destruct (Hk c' z Hz) as (y & Hy & _). by exists c', y.
    + exists c, x'. split; [done|apply lookup_insert_eq].
  - intros a Hin. destruct (iv_owner s I a Hin) as (z & Hz & <-). destruct (Hk _ z Hz) as (y & Hy & E). by exists y.
  - intros c1 c2 x1 x2 (z1 & H1 & <-)%Hl (z2 & H2 & <-)%Hl. by apply (iv_once s I).
  - intros c' y (z & Hz & _)%Hl. by apply (iv_keys s I c' z).
Qed.

Lemma keep_client_del s c x : inv s -> clients s !! c = Some x -> from c (mq s) = [] -> app_find (ds_apps (ms s)) (appid_of x) = None ->
  inv (mk_sys (ms s) (mq s) (slaves s) (delete c (clients s)) (sys_open s) (booted s)).
Proof.
  intros I Hx Hf Ha.
  split; cbn [ms slaves clients booted mq sys_open]; [exact (iv_m s I)|exact (iv_slaves s I)| | | | | |exact (iv_size s I)|exact (iv_open s I)|exact (iv_conn s I)|exact (iv_boot s I)].
  - intros c' y [_ Hy]%lookup_delete_Some. by apply (iv_clients s I).
  - intros r Hr. destruct (iv_senders s I r Hr) as (c' & y & Hs & Hy). exists c', y. split; [done|]. apply lookup_delete_Some. split; [|done].
    intros <-. assert (H : r ∈ from c (mq s)) by (by apply list_elem_of_filter). rewrite Hf in H. by apply not_elem_of_nil in H.
  - intros a Hin. destruct (iv_owner s I a Hin) as (y & Hy & He). exists y. split; [|done]. apply lookup_delete_Some. split; [|done].
    intros E. rewrite <- E, Hx in Hy. injection Hy as <-. apply app_find_none in Ha. apply Ha. rewrite He. by apply list_elem_of_fmap_2.
  - intros c1 c2 x1 x2 [_ H1]%lookup_delete_Some [_ H2]%lookup_delete_Some. by apply (iv_once s I).
  - intros c' y [_ Hy]%lookup_delete_Some. by apply (iv_keys s I c' y).
Qed.

Lemma keep_client s c : inv s -> enabled (ev_client c) s -> holds_after (ev_client c) s.
Proof.
  intros I Hen. cbn [enabled] in Hen. destruct (clients s !! c) as [x|] eqn:Hx; [|done].
  destruct (head (cl_q x)) as [r|] eqn:Hr; [|by destruct (cl_q x)].
  pose proof (iv_m s I) as M. unfold holds_after. cbn [exec]. rewrite Hx. cbn [mbind option_bind]. rewrite Hr. cbn [mbind option_bind].
  destruct x as [dc q u]. cbn [cl_dc cl_q cl_unreg] in *.
  assert (Hupd : forall d', client_ok (ms s) (booted s) (mq s) c (mk_cl d' (tail q) u) -> dc_ptlmap d' = dc_ptlmap dc ->
    inv (mk_sys (ms s) (mq s) (slaves s) (<[c := mk_cl d' (tail q) u]> (clients s)) (sys_open s) (booted s))).
  { intros d' C E. apply (keep_client_upd s c _ _ _ I Hx C); [unfold appid_of; cbn; by rewrite E|done|by left]. }
  destruct (iv_clients s I c _ Hx) as [a addrs C1 C2 C3 C4 C5 C6 C7 C8 C9|a addrs r' rest C1 C2 C3 C4 C5 C6 C7 C8 C9 C10 C11 C12|
    a C1 C2 C3 C4 C5 C6 C7|a rest j C1 C2 C3 C4 C5 C6]; unfold appid_of in *; cbn [cl_dc cl_q cl_unreg] in *.
  - by rewrite C7 in Hr.
  - rewrite C9 in *. injection Hr as ->. destruct (app_find_elem _ _ _ C2) as [Ha Hid]. rewrite <- C3 in *.
    destruct (client_answered (ms s) dc a addrs r) as (dc' & -> & R & Hp); try done; [exact (ao_id _ _ (mi_app _ M a Ha))|by rewrite Hid|].
    cbn [mbind option_bind]. rewrite C8 in *. cbn [andb]. eexists. split; [reflexivity|]. apply Hupd; [|done].
    eapply (co_member _ _ _ _ _ a); unfold appid_of; cbn [cl_dc cl_q cl_unreg]; try done. by rewrite Hp.
  - destruct q as [|r' q]; [done|]. injection Hr as ->. apply list.Forall_cons in C6 as [Hn Hq].
    destruct (registered_news (ms s) dc a r C5 Hn) as (dc' & ps & -> & R & Hp). cbn [mbind option_bind].
    rewrite (al_reg _ _ _ (ro_alive _ _ _ R)). cbn [negb]. rewrite andb_false_r. eexists. split; [reflexivity|]. apply Hupd; [|done].
    eapply (co_member _ _ _ _ _ a); unfold appid_of; cbn [cl_dc cl_q cl_unreg tail]; try done. by rewrite Hp.
  - destruct rest as [|r' rest]; rewrite C4 in *; cbn [app head tail] in *.
    + injection Hr as <-. cbn [dc_service mbind option_bind set_dc_flags dc_f_reg negb]. rewrite C2. cbn [andb]. eexists. split; [reflexivity|].
      by eapply (keep_client_del s c _ I Hx).
    + injection Hr as ->. apply list.Forall_cons in C5 as [Hn Hq].
      destruct (client_news dc c _ a r C3 Hn) as (dc' & ps & l & -> & Hal & Hp & _). cbn [mbind option_bind].
      rewrite (al_reg _ _ _ Hal). cbn [negb]. rewrite andb_false_r. eexists. split; [reflexivity|]. apply Hupd; [|done].
      eapply (co_left _ _ _ _ _ a rest j); unfold appid_of; cbn [cl_dc cl_q cl_unreg tail]; rewrite ?Hp; done.
Qed.

Lemma keep_unreg s c : inv s -> enabled (ev_unreg c) s -> holds_after (ev_unreg c) s.
Proof.
  intros I Hen. cbn [enabled] in Hen. destruct (clients s !! c) as [x|] eqn:Hx; [|done]. destruct Hen as [Hf Hu]. destruct x as [dc q u]. cbn [cl_dc cl_unreg] in Hf, Hu. subst u.
  unfold holds_after. cbn [exec]. rewrite Hx. cbn [mbind option_bind cl_dc cl_q].
  destruct (iv_clients s I c _ Hx) as [a addrs C1 C2 C3 C4 C5 C6 C7 C8 C9|a addrs r' rest C1 C2 C3 C4 C5 C6 C7 C8 C9 C10 C11 C12|
    a C1 C2 C3 C4 C5 C6 C7|a rest j C1 C2 C3 C4 C5 C6]; unfold appid_of in *; cbn [cl_dc cl_q cl_unreg] in *; try done.
  - rewrite (wo_reg _ _ _ C6) in Hf. done.
  - rewrite (wo_reg _ _ _ C7) in Hf. done.
  - destruct C5 as [R1 R2 R3 R4]. pose proof R1 as [A1 (self & A2 & A2' & A2'') A3 A4 A5]. destruct (master_found _ A5) as [p0 Hp0].
    apply find_elem in Hp0 as Hz. destruct Hz as [_ Hz].
    unfold dc_unregister. rewrite A2. cbn [mbind option_bind]. rewrite A1, A3, Z.eqb_refl, Hp0. cbn [mbind option_bind msg_ok all_ok negb send_err Z.ltb Z.compare].
    eexists. split; [reflexivity|]. rewrite Hz, A2', C3. cbn [post foldl post1 fst snd Z.eqb ms mq slaves clients sys_open booted].
    eapply (keep_client_upd s c (mk_cl dc q false) (mk_cl dc q true)); try done.
    + eapply (co_member _ _ _ _ _ a); unfold appid_of; cbn [cl_dc cl_q cl_unreg]; try done. rewrite from_app, C7. unfold from. by rewrite list.filter_cons, decide_True.
    + intros c' Hne. rewrite from_app. unfold from at 2. rewrite list.filter_cons, decide_False by (cbn; congruence). apply app_nil_r.
    + intros r [Hr|Hr]%elem_of_app; [by left|right]. apply list_elem_of_singleton in Hr as ->. done.
Qed.

Lemma keep e s : inv s -> enabled e s -> holds_after e s.
Proof.
  destruct e.
  - apply keep_server.
  - apply keep_sys.
  - apply keep_boot.
  - apply keep_app.
  - apply keep_request.
  - apply keep_slave.
  - apply keep_client.
  - apply keep_unreg.
Qed.

(** ** Reachable states *)

Lemma members_inv_init : 1 <= nsp -> inv sys_init.
Proof.
  intros H. split; cbn [sys_init ms mq slaves clients sys_open booted]; try done.
  - split; cbn; try done; try lia.
    + apply NoDup_singleton.
    + apply list_elem_of_here.
    + apply NoDup_singleton.
    + constructor.
    + intros a Ha. by apply not_elem_of_nil in Ha.
    + intros a b Ha. by apply not_elem_of_nil in Ha.
    + intros p Hp. apply list_elem_of_singleton in Hp as ->. done.
  - intros r Hr. by apply not_elem_of_nil in Hr.
  - intros a Ha. by apply not_elem_of_nil in Ha.
Qed.

Lemma members_reach_inv s : 1 <= nsp -> reach s -> inv s.
Proof.
  intros H. revert s. refine (rtc_ind_r inv sys_init _ _); [by apply members_inv_init|].
  intros s s' _ (e & He & Hx) I. destruct (keep e s I He) as (s2 & Hx2 & I2). congruence.
Qed.

(** C32: In every state of a deployment that handlers reach which run one after
    the other, none inside another, with and without DIMES and when no call
    fails, a handler that can run returns: it writes no entry past the buffer
    it allocated, reads no cell the sender did not fill, and finds every
    process and application it looks for. *)
Theorem members_safe s e : 1 <= nsp -> reach s -> enabled e s -> exists s', exec e s = Some s'.
Proof. intros H R He. destruct (keep e s (members_reach_inv s H R) He) as (s' & Hs & _). by exists s'. Qed.

(** C33: The state of the master server is well-formed in every reachable
    state: ids are unique, the servers have 0, 1, ..., the processes of an
    application have consecutive ids (only the first until its list has come),
    the ranges of two applications do not meet, and the counters are the numbers
    of clients known and reserved. *)
Theorem members_well_formed s : 1 <= nsp -> reach s -> let m := ms s in
  NoDup (ids (ds_peers m)) /\
  ids (members 0 (ds_peers m)) ≡ₚ seqZ 0 (sp_rank_cnt m) /\
  (forall a, a ∈ ds_apps m -> nsp <= app_min_id a /\
    ids (members (app_id a) (ds_peers m)) ≡ₚ seqZ (app_min_id a) (if sent_announce a then app_num_peers a else 1)) /\
  (forall a b, a ∈ ds_apps m -> b ∈ ds_apps m -> a <> b ->
    app_min_id a + app_num_peers a <= app_min_id b \/ app_min_id b + app_num_peers b <= app_min_id a) /\
  current_client_size (ds_cnt m) = Z.of_nat (length (without 0 (ds_peers m))) /\
  num_cp (ds_cnt m) = ncp + sum_peers (ds_apps m).
Proof.
  intros H R m. pose proof (iv_m s (members_reach_inv s H R)) as M. fold m in M. destruct M. split; [done|]. split; [done|]. split.
  - intros a Ha. destruct (mi_app0 a Ha) as [_ _ ? _ <- ?]. done.
  - split; [done|]. split; [done|tauto].
Qed.

Lemma announced_find m i : minv m ->
  rpc_server_find (filter (announced (ds_apps m)) (ds_peers m)) i = 
    match rpc_server_find (ds_peers m) i with Some p => if announced (ds_apps m) p then Some p else None | None => None end.
Proof.
  intros M. pose proof (mi_ids m M) as Hn. induction (ds_peers m) as [|p l IH]; [done|]. cbn [ids map] in Hn.
  apply list.NoDup_cons in Hn as [Hp Hn]. rewrite list.filter_cons. cbn [rpc_server_find].
  destruct (announced (ds_apps m) p) eqn:E; [rewrite decide_True by done|rewrite decide_False by (intros []; done)]; cbn [rpc_server_find];
    destruct (Z.eqb_spec (pm_id p) i) as [<-|Hi]; rewrite ?E; try done; try by apply IH.
  apply find_none. intros (q & Hq & [_ Hin]%list_elem_of_filter)%list_elem_of_fmap. apply Hp. rewrite Hq. by apply ids_elem.
Qed.

(** C34: The servers agree: a server with no message under way finds by id
    exactly the servers and the processes of the applications that the master
    server has announced, with the entries of the master server, and its own
    entry is the one of its id. *)
Theorem servers_agree s k x : 1 <= nsp -> reach s -> booted s = true -> slaves s !! k = Some x -> sl_q x = [] ->
  (forall i, rpc_server_find (ds_peers (sl_ds x)) i =
    match rpc_server_find (ds_peers (ms s)) i with Some p => if announced (ds_apps (ms s)) p then Some p else None | None => None end) /\
  exists p, ds_self (sl_ds x) = Some p /\ rpc_server_find (ds_peers (ms s)) k = Some p.
Proof.
  intros H R Hb Hx Hq. pose proof (members_reach_inv s H R) as I. pose proof (iv_m s I) as M.
  destruct (iv_slaves s I k x Hx) as [d [S1 (S2 & S2' & S2'') S3 S4 S5 S6]]. rewrite Hq in S1. injection S1 as <-. rewrite Hb in S6.
  destruct S6 as (S6 & S7 & _). split.
  - intros i. rewrite <- announced_find by done. symmetry. apply find_perm; [|done].
    eapply sublist_NoDup; [exact (mi_ids _ M)|]. apply fmap_sublist, sublist_filter.
  - exists (ds_ptlmap (sl_ds x)). split; [done|]. rewrite <- S2'. by apply minv_find.
Qed.

(** A client that has its answer. *)
Lemma client_registered s c x a : inv s -> clients s !! c = Some x -> dc_f_reg (cl_dc x) = true ->
  app_find (ds_apps (ms s)) (appid_of x) = Some a -> app_min_id a = c /\ sent_announce a = true /\ registered_ok (ms s) (cl_dc x) a.
Proof.
  intros I Hx Hf Ha. destruct (iv_clients s I c x Hx) as [a' addrs C1 C2 C3 C4 C5 C6|a' addrs r rest C1 C2 C3 C4 C5 C6 C7|a' C1 C2 C3 C4 C5|a' rest j C1].
  - rewrite (wo_reg _ _ _ C6) in Hf. done.
  - rewrite (wo_reg _ _ _ C7) in Hf. done.
  - rewrite Ha in C2. by injection C2 as <-.
  - congruence.
Qed.

Lemma registered_find m dc a p : minv m -> a ∈ ds_apps m -> registered_ok m dc a -> p ∈ ds_peers m -> pm_appid p = 0 \/ pm_appid p = app_id a ->
  rpc_server_find (dc_peers dc) (pm_id p) = Some p.
Proof.
  intros M Ha [R1 R2 R3 R4] Hp Happ.
  assert (Hin : p ∈ dc_peers dc).
  { assert (Hf : p ∈ filter (fun p => pm_appid p = 0 \/ pm_appid p = app_id a) (dc_peers dc)).
    { rewrite R2, elem_of_app, !elem_of_members. tauto. }
    by apply list_elem_of_filter in Hf as [_ ?]. }
  destruct (rpc_server_find (dc_peers dc) (pm_id p)) as [q|] eqn:E; [|apply find_none in E; by destruct E; apply ids_elem].
  apply find_elem in E as [Hq Hi]. f_equal. destruct (decide (pm_appid q = 0 \/ pm_appid q = app_id a)) as [Hd|Hd].
  - assert (Hf : q ∈ filter (fun p => pm_appid p = 0 \/ pm_appid p = app_id a) (dc_peers dc)) by (by apply list_elem_of_filter).
    rewrite R2, elem_of_app, !elem_of_members in Hf. assert (Hqm : q ∈ ds_peers m) by tauto.
    pose proof (minv_find m q M Hqm) as H1. rewrite Hi, (minv_find m p M Hp) in H1. congruence.
  - exfalso. destruct (R3 q Hq) as (_ & _ & Hr & Hfar); [tauto|tauto|]. pose proof (mi_rank m M). pose proof (app_cnt_le m a M Ha).
    destruct Happ as [Hz|Hz]; [pose proof (server_range m p M Hp Hz); lia|pose proof (app_range m a p M Ha Hp Hz); lia].
Qed.

(** C35: A registered application knows whom it talks to: as long as it is not
    unregistered, its master finds every server and every process of the
    application by id, with the entry the master server has. *)
Theorem client_knows s c x p : 1 <= nsp -> reach s -> clients s !! c = Some x -> dc_f_reg (cl_dc x) = true ->
  is_Some (app_find (ds_apps (ms s)) (appid_of x)) -> p ∈ ds_peers (ms s) -> pm_appid p = 0 \/ pm_appid p = appid_of x ->
  rpc_server_find (dc_peers (cl_dc x)) (pm_id p) = Some p.
Proof.
  intros H R Hx Hf [a Ha] Hp Happ. pose proof (members_reach_inv s H R) as I. destruct (client_registered s c x a I Hx Hf Ha) as (_ & _ & Hr).
  apply app_find_elem in Ha as [Hin Hid]. rewrite <- Hid in Happ. by apply (registered_find (ms s) _ a p (iv_m s I)).
Qed.

(** The entry of the master of the application is in its list once. *)
Lemma own_entry_once m dc a e : minv m -> a ∈ ds_apps m -> registered_ok m dc a -> e ∈ ds_peers m -> pm_id e = app_min_id a ->
  dc_peers dc ≡ₚ filter (fun p => (pm_id p =? app_min_id a) = false) (dc_peers dc) ++ [e].
Proof.
  intros M Ha R He Hi. destruct (app_master m a M Ha) as (e' & Hf & Hin & Hid & Happ).
  rewrite <- Hi, (minv_find m e M He) in Hf. injection Hf as <-. pose proof (ao_lo _ _ (mi_app m M a Ha)). pose proof (mi_rank m M).
  pose proof (ao_id _ _ (mi_app m M a Ha)) as Hnz. pose proof (app_cnt_le m a M Ha) as Hc.
  assert (Hone : filter (fun p => pm_id p = app_min_id a) (dc_peers dc) ≡ₚ [e]).
  { rewrite (filter_same _ (fun p => pm_id p = app_min_id a /\ (pm_appid p = 0 \/ pm_appid p = app_id a))).
    - rewrite <- list_filter_filter, (filter_Permutation _ _ _ (ro_peers _ _ _ R)), list.filter_app, filter_none.
      + cbn [app]. rewrite (take_out (members (app_id a) (ds_peers m)) e) by (apply ids_sublist, (mi_ids m M) || by apply elem_of_members).
        rewrite list.filter_cons, decide_True by done. rewrite filter_none; [done|]. intros p [Hp _]%list_elem_of_filter E. congruence.
      + intros p [Hp0 Hp]%elem_of_members E. pose proof (server_range m p M Hp Hp0). lia.
    - intros p Hp. split; [|tauto]. intros E. split; [done|]. destruct (decide (pm_appid p = 0 \/ pm_appid p = app_id a)) as [|Hd]; [done|].
      destruct (ro_far _ _ _ R p Hp) as (_ & _ & _ & ?); [tauto|tauto|]. lia. }
  rewrite <- Hone. rewrite <- (filter_app_complement (fun p => pm_id p = app_min_id a) (dc_peers dc)) at 1. rewrite Permutation_app_comm. f_equiv.
  apply Permutation_refl', filter_same. intros p _. rewrite Z.eqb_neq. done.
Qed.

(** A process that knows the master of its application only gets the list. *)
Lemma announce_all_spec d e c l h : dc_peers d = [set_id 0 e] -> pm_id (hr_pm_cp h) = c -> pm_id e = c ->
  hr_num_cp h + hr_num_sp h = Z.of_nat (length l) ->
  exists d', dcrpc_announce_cp_all all_ok d h (map Some l) = Some (d', 0) /\
    dc_peers d' ≡ₚ filter (fun p => (pm_id p =? c) = false) l ++ [e] /\
    dc_num_sp d' = hr_num_sp h /\ dc_num_cp d' = hr_num_cp h /\ cp_min_rank d' = c /\ dc_f_reg d' = true.
Proof.
  intros Hd Hh He Hl. unfold dcrpc_announce_cp_all.
  cbn [set_dc_nums dc_peers]. rewrite Hd, Hh. cbn [rpc_server_find set_id pm_id Z.eqb mbind option_bind].
  cbn [msg_ok data_ok recv_err all_ok negb orb Z.ltb Z.compare set_dc_nums set_dc_me set_dc_min set_dc_peers dc_num_cp dc_num_sp dc_peers dc_self dc_ptlmap].
  rewrite receive_map, take_ge by lia. cbn [mbind option_bind change_id set_id pm_id Z.eqb pm_address].
  pose proof (add_all_perm (pm_address (dc_ptlmap d)) (fun p => pm_id p =? c) l [e] (dc_self d)) as Hadd.
  replace (set_id c (set_id 0 e)) with e by (unfold set_id; destruct e; cbn in *; congruence).
  destruct (add_all _ _ _ _ _) as [l' self']. eexists. split; [reflexivity|]. done.
Qed.

(** The processes of an application agree: the list the master of a
    registered application sends to another process exactly fills its buffer,
    and the process, which knows the master only, ends up with the entries of
    the master, registered. *)
Theorem app_processes_agree s c x a i e d : 1 <= nsp -> reach s -> clients s !! c = Some x -> dc_f_reg (cl_dc x) = true ->
  app_find (ds_apps (ms s)) (appid_of x) = Some a -> 1 <= i < app_num_peers a ->
  rpc_server_find (ds_peers (ms s)) c = Some e -> dc_peers d = [set_id 0 e] ->
  exists h l d', dc_disseminate_dc_to all_ok (cl_dc x) i = Some ([(c + i, cp_announce_cp h (map Some l))], 0) /\
    dcrpc_announce_cp_all all_ok d h (map Some l) = Some (d', 0) /\
    dc_peers d' ≡ₚ dc_peers (cl_dc x) /\ dc_num_sp d' + dc_num_cp d' = Z.of_nat (length l) /\ cp_min_rank d' = c /\ dc_f_reg d' = true.
Proof.
  intros H R Hx Hf Ha Hi He Hd. pose proof (members_reach_inv s H R) as I. pose proof (iv_m s I) as M.
  destruct (client_registered s c x a I Hx Hf Ha) as (Hmin & Hs & Rg). apply app_find_elem in Ha as [Hin Hid]. apply find_elem in He as [He Hec].
  pose proof (ao_ids _ _ (mi_app _ M a Hin)) as Hids. rewrite (ao_cnt _ _ (mi_app _ M a Hin)), Hs in Hids.
  assert (Hp : exists p, p ∈ ds_peers (ms s) /\ pm_id p = c + i /\ pm_appid p = app_id a).
  { assert (Hc : c + i ∈ ids (members (app_id a) (ds_peers (ms s)))) by (rewrite Hids; apply elem_of_seqZ; lia).
    apply list_elem_of_fmap in Hc as (p & -> & [Hpa Hp]%elem_of_members). by exists p. }
  destruct Hp as (p & Hp & Hpi & Hpa). destruct (al_self _ _ _ (ro_alive _ _ _ Rg)) as (self & Hse & Hsi & _).
  pose proof (ro_len _ _ _ Rg) as Hlen.
  unfold dc_disseminate_dc_to. rewrite (al_min _ _ _ (ro_alive _ _ _ Rg)), Hmin, Z.add_comm, <- Hpi.
  rewrite (registered_find (ms s) (cl_dc x) a p M Hin Rg Hp) by (by right). rewrite Hse. cbn [mbind option_bind].
  rewrite announce_all_ok by lia. replace (Z.to_nat _ - length _)%nat with 0%nat by lia. cbn [replicate]. rewrite app_nil_r.
  set (h := mk_hreg _ _ _). destruct (announce_all_spec d e (app_min_id a) (dc_peers (cl_dc x)) h) as (d' & Hd' & Hl & N1 & N2 & Hc & Hr);
    [done|done|congruence|cbn; lia|]. exists h, (dc_peers (cl_dc x)), d'. split; [done|]. split; [done|].
  split; [rewrite Hl; symmetry; apply (own_entry_once (ms s)); [done|done|done|done|congruence]|].
  rewrite N1, N2. cbn [h hr_num_sp hr_num_cp]. split; [lia|]. split; [congruence|done].
Qed.

(** Where the start-up fails its purpose: the answer to a connection names
    the application that registered last.  A process of an application that
    connects to the master server after another application has registered
    takes the first id of that application for its own. *)
Lemma late_connection_wrong_first_id s a p me b n dc k : 1 <= nsp -> reach s -> a ∈ ds_apps (ms s) ->
  p ∈ ds_peers (ms s) -> pm_appid p = app_id a -> app_find (ds_apps (ms s)) b = None -> b <> 0 -> 1 <= n ->
  exists m reply, ds_master_request all_ok (app_added (ms s) me b n) (rpc_connect_param p master_entry k) = Some (m, inr reply) /\
    app_minid (rpc_established dc reply) = cp_rank_cnt (ms s) /\ app_minid (rpc_established dc reply) <> app_min_id a.
Proof.
  intros H R Ha Hp Hpa Hb Hb0 Hn. pose proof (iv_m s (members_reach_inv s H R)) as M. pose proof (app_added_minv (ms s) me b n M Hb Hb0 Hn) as M'.
  pose proof (mi_app _ M a Ha) as [A1 A2 A3 A4 A5 A6].
  assert (Ha' : a ∈ ds_apps (app_added (ms s) me b n)) by (by apply list_elem_of_further).
  assert (Hp' : p ∈ ds_peers (app_added (ms s) me b n)) by (by apply list_elem_of_further).
  unfold ds_master_request, rpc_connect_param. cbn [cn_type cn_pm_cp Z.eqb cn_num_cp]. rewrite Hpa, (proj2 (Z.eqb_neq _ _)) by done.
  rewrite (app_find_unique _ a (mi_apps _ M') Ha'). cbn [lh_pm_cp]. rewrite (minv_find _ p M' Hp'). cbn [mbind option_bind lh_id_min].
  eexists _, _. split; [reflexivity|]. cbn. split; [done|]. lia.
Qed.

End System.

(** ** A handler inside another

    [list_for_each_entry] over the ids of a list whose body calls
    [rpc_process_event]: [gone] are the entries that handlers unlink during the
    first turns.  [list_del] sets the links of an entry to NULL, so the loop
    goes on from an entry only while it is in the list; [None]: it follows
    NULL.  The entries visited are the result. *)

Fixpoint next_entry (a : Z) (l : list Z) : option Z :=
  match l with
  | [] => None
  | x :: l => if x =? a then head l else next_entry a l
  end.

Fixpoint each_entry (fuel : nat) (gone : list (list Z)) (l : list Z) (pos : Z) : option (list Z) :=
  match fuel with
  | O => None
  | S fuel =>
      let l := filter (fun x => x ∉ default [] (head gone)) l in
      if bool_decide (pos ∈ l) then
        match next_entry pos l with
        | None => Some [pos]
        | Some pos' => cons pos <$> each_entry fuel (tail gone) l pos'
        end
      else None
  end.

(** The loop of [cp_disseminate_cs_completion] over the applications sends to
    the master of application 5, whose [cn_unregister] is waiting:
    [rpc_process_event] runs it, and the entry of the application is unlinked
    while the loop is on it.  The departure of another application does no
    harm. *)
Lemma nested_unregister_follows_null :
  each_entry 3 [] [7; 5; 3] 7 = Some [7; 5; 3] /\
  each_entry 3 [[]; [7]] [7; 5; 3] 7 = Some [7; 5; 3] /\
  each_entry 3 [[]; [5]] [7; 5; 3] 7 = None.
Proof. vm_compute. auto. Qed.

(** ** A deployment with two servers and two applications, with DIMES *)

Definition demo_conf : sockaddr_in := mk_addr 1 1000.

Definition demo_events : list event :=
  [ev_server (mk_addr 2 1000); ev_sys 1; ev_boot; ev_slave 1;
   ev_app 5 [mk_addr 10 2000; mk_addr 11 2000]; ev_master 0; ev_slave 1; ev_client 2;
   ev_app 7 [mk_addr 20 2000]; ev_master 0; ev_slave 1; ev_client 2; ev_client 4].

Definition demo : sys := run true demo_conf 2 0 demo_events (sys_init demo_conf 2 0).

Definition demo_client (c : Z) : client := default (mk_cl (dc_alloc demo_conf 0 0) [] false) (clients demo !! c).
Definition demo_slave (k : Z) : slave := default (mk_sl (ds_alloc demo_conf 0 0) []) (slaves demo !! k).

Lemma demo_reach : reach true demo_conf 2 0 demo.
Proof. apply members_run_reach, rtc_refl. Qed.

(** The application 5 leaves: a step that can run. *)
Lemma members_safe_witness : enabled 2 (ev_unreg 2) demo /\ exists s', exec true demo_conf 2 0 (ev_unreg 2) demo = Some s'.
Proof.
  assert (H : enabled 2 (ev_unreg 2) demo) by (vm_compute; split; reflexivity).
  split; [exact H|]. exact (members_safe true demo_conf 2 0 demo (ev_unreg 2) ltac:(lia) demo_reach H).
Defined.

Lemma members_well_formed_witness : NoDup (ids (ds_peers (ms demo))) /\ num_cp (ds_cnt (ms demo)) = 0 + sum_peers (ds_apps (ms demo)).
Proof.
  destruct (members_well_formed true demo_conf 2 0 demo ltac:(lia) demo_reach) as (H1 & _ & _ & _ & _ & H2). split; [exact H1|exact H2].
Defined.

Lemma servers_agree_witness : rpc_server_find (ds_peers (sl_ds (demo_slave 1))) 3 = Some (mk_pm (mk_addr 11 2000) 3 5).
Proof.
  destruct (servers_agree true demo_conf 2 0 demo 1 (demo_slave 1) ltac:(lia) demo_reach ltac:(vm_compute; reflexivity) ltac:(vm_compute; reflexivity) ltac:(vm_compute; reflexivity))
    as [H _]. rewrite (H 3). vm_compute. reflexivity.
Defined.

Lemma client_knows_witness : rpc_server_find (dc_peers (cl_dc (demo_client 2))) 3 = Some (mk_pm (mk_addr 11 2000) 3 5).
Proof.
  apply (client_knows true demo_conf 2 0 demo 2 (demo_client 2) (mk_pm (mk_addr 11 2000) 3 5) ltac:(lia) demo_reach).
  - vm_compute. reflexivity.
  - vm_compute. reflexivity.
  - eexists. vm_compute. reflexivity.
  - apply list_elem_of_In. vm_compute. tauto.
  - right. vm_compute. reflexivity.
Defined.

Definition demo_process : dart_client := set_dc_peers [mk_pm (mk_addr 10 2000) 0 5] (dc_alloc (mk_addr 11 2000) 2 5).

Lemma app_processes_agree_witness : exists d', dc_peers d' ≡ₚ dc_peers (cl_dc (demo_client 2)) /\ cp_min_rank d' = 2.
Proof.
  destruct (app_processes_agree true demo_conf 2 0 demo 2 (demo_client 2) (mk_app 5 2 2 2 true) 1 (mk_pm (mk_addr 10 2000) 2 5) demo_process
    ltac:(lia) demo_reach ltac:(vm_compute; reflexivity) ltac:(vm_compute; reflexivity) ltac:(vm_compute; reflexivity) ltac:(cbn; lia)
    ltac:(vm_compute; reflexivity) ltac:(reflexivity)) as (h & l & d' & _ & _ & Hp & _ & Hc & _). exists d'. split; [exact Hp|exact Hc].
Defined.

(** A second process of application 5 connects after application 9 registered. *)
Lemma late_connection_wrong_first_id_witness : exists reply,
  app_minid (rpc_established demo_process reply) = 5 /\ app_minid (rpc_established demo_process reply) <> 2.
Proof.
  destruct (late_connection_wrong_first_id true demo_conf 2 0 demo (mk_app 5 2 2 2 true) (mk_pm (mk_addr 11 2000) 3 5) (mk_addr 30 2000) 9 1 demo_process 2
    ltac:(lia) demo_reach) as (m & reply & _ & H1 & H2).
  - apply list_elem_of_In. vm_compute. tauto.
  - apply list_elem_of_In. vm_compute. tauto.
  - reflexivity.
  - vm_compute. reflexivity.
  - lia.
  - lia.
  - exists reply. split; [exact H1|exact H2].
Defined.

(** With DIMES two applications that register before either list has come: the
    first learns the master of the second from the answer and again from the
    news, and counts it twice. *)
Definition overlap_events : list event :=
  [ev_boot; ev_app 5 [mk_addr 10 2000]; ev_app 7 [mk_addr 20 2000]; ev_master 0; ev_client 1; ev_master 0; ev_client 1].

Lemma overlapping_start_counts_twice :
  let s := run true demo_conf 1 0 overlap_events (sys_init demo_conf 1 0) in
  (fun x => (map pm_id (dc_peers (cl_dc x)), dc_num_cp (cl_dc x))) <$> clients s !! 1 = Some ([2; 2; 0; 1], 3).
Proof. vm_compute. reflexivity. Qed.
