(* ===== verification/RpcTcp.v ===== *)
(** * The TCP transport (dart/tcp/dart_rpc_tcp.c)

    The same interface as [RpcIb], over sockets.  A connection is a stream of
    bytes: a command has a fixed size, the data of a message follow it, and
    the service of the command reads them ([rpc_receive_direct]) from the
    stream on which the command came.  Nothing marks where a message begins,
    so both sides must agree on every byte.

    A socket is modelled by the bytes written and the bytes that arrive.  What
    the system calls return is taken from lists ([os]): every [send] and [recv]
    may move fewer bytes than asked for, [FIONREAD] may report that nothing has
    arrived yet, allocations and connections may fail.  At the end of its list
    a call does all it was asked to do.  Services and callbacks are trees of
    calls ([act]), so that they may depend on what the calls before returned. *)

From stdpp Require Import relations functions.
From S2P Require Import Prelude.

#[local] Open Scope Z_scope.

(** ** Results of calls *)

(** [Blocked]: waits for bytes that do not come.  [Undef]: memory that is not
    allocated is freed.  [NoFuel]: the bound of the model was reached. *)
Inductive run (A : Type) := Ran (a : A) | Blocked | Undef | NoFuel.
Arguments Ran {A}.
Arguments Blocked {A}.
Arguments Undef {A}.
Arguments NoFuel {A}.

#[export] Instance run_ret : MRet run := fun _ a => Ran a.
#[export] Instance run_bind : MBind run := fun _ _ f r =>
  match r with Ran a => f a | Blocked => Blocked | Undef => Undef | NoFuel => NoFuel end.

(** ** Sizes from the environment *)

(** [str_to_uint64]: the characters as codes; any other character gives 0. *)
Fixpoint str_to_uint64 (s : list Z) (res : Z) : Z :=
  match s with
  | [] => res
  | c :: s => if (48 <=? c) && (c <=? 57) then str_to_uint64 s (u64 (res * 10 + (c - 48))) else 0
  end.

(** [DATASPACES_TCP_WRITE_SIZE] and [DATASPACES_TCP_READ_SIZE] *)
Definition best_size (default : Z) (env : option (list Z)) : Z :=
  match env with Some s => str_to_uint64 s 0 | None => default end.

(** ** Sockets *)

(** The loop of [socket_send_bytes]: [script] are the results of [send].  The
    bytes written, the results left and the return code. *)
Fixpoint send_loop (fuel : nat) (best_write : Z) (script : list Z) (buffer : list Z) : run (list Z * list Z * Z) :=
  match buffer with
  | [] => Ran ([], script, 0)
  | _ =>
      match fuel with
      | O => NoFuel
      | S fuel =>
          let len := Z.min best_write (Z.of_nat (length buffer)) in
          let n := match script with n :: _ => n | [] => len end in
          if n <? 0 then Ran ([], tail script, -1)
          else
            let n := Z.to_nat (Z.min n len) in
            '(w, script, rc) ← send_loop fuel best_write (tail script) (drop n buffer);
            Ran (take n buffer ++ w, script, rc)
      end
  end.

Definition socket_send_bytes (best_write : Z) (script buffer : list Z) : run (list Z * list Z * Z) :=
  send_loop (length script + length buffer) best_write script buffer.

(** The loop of [socket_recv_bytes]: [inp] is what arrives on the connection,
    [script] the results of [recv]; 0 says that the peer closed it, and a
    [recv] of no bytes returns 0 too. *)
Fixpoint recv_loop (fuel : nat) (best_read : Z) (script inp : list Z) (size : nat) : run (list Z * list Z * list Z * Z) :=
  match size with
  | O => Ran ([], inp, script, 0)
  | _ =>
      match fuel with
      | O => NoFuel
      | S fuel =>
          let len := Z.min best_read (Z.of_nat size) in
          let n := match script with n :: _ => n | [] => len end in
          if (n <=? 0) || (len =? 0) then Ran ([], inp, tail script, -1)
          else
            match inp with
            | [] => Blocked
            | _ =>
                let n := Nat.min (length inp) (Z.to_nat (Z.min n len)) in
                '(d, rest, script, rc) ← recv_loop fuel best_read (tail script) (drop n inp) (size - n);
                Ran (take n inp ++ d, rest, script, rc)
            end
      end
  end.

Definition socket_recv_bytes (best_read : Z) (script inp : list Z) (size : nat) : run (list Z * list Z * list Z * Z) :=
  recv_loop size best_read script inp size.

(** ** Commands, peers and messages *)

(** [struct rpc_cmd], packed; the id is unsigned, the pad has [pad_size] bytes. *)
Record rpc_cmd := mk_cmd { c_cmd : Z; c_num_msg : Z; c_id : Z; c_pad : list Z }.

Definition set_cmd_id (c : rpc_cmd) (id : Z) : rpc_cmd := mk_cmd (c_cmd c) (c_num_msg c) (u32 id) (c_pad c).

(** The bytes of the struct, as they are sent. *)
Definition cmd_bytes (c : rpc_cmd) : list Z :=
  le_bytes 1 (c_cmd c) ++ le_bytes 1 (c_num_msg c) ++ le_bytes 4 (c_id c) ++ c_pad c.

Definition cmd_of_bytes (l : list Z) : rpc_cmd :=
  mk_cmd (le_val (take 1 l)) (le_val (take 1 (drop 1 l))) (le_val (take 4 (drop 2 l))) (drop 6 l).

(** [struct connection_info], packed *)
Record connection_info := mk_info { ci_cmp_type : Z; ci_id : Z; ci_app_id : Z; ci_app_size : Z }.

Definition info_bytes (i : connection_info) : list Z :=
  le_bytes 4 (u32 (ci_cmp_type i)) ++ le_bytes 4 (u32 (ci_id i)) ++ le_bytes 4 (u32 (ci_app_id i)) ++ le_bytes 4 (u32 (ci_app_size i)).

Inductive io_dir := io_none | io_send | io_receive | io_count.

(** Services and callbacks.  Messages have a number; [m] is the message of a
    call, allocated before.  A callback of a receiving call gets the bytes.
    The functions at the end take the return code. *)
Inductive act :=
  | a_ret (rc : Z)
  | a_alloc (k : option nat -> act)
  | a_free (m : nat) (k : act)
  | a_send (p m : nat) (cmd : rpc_cmd) (data : list Z) (cb : act) (k : Z -> act)
  | a_receive (p m : nat) (cmd : rpc_cmd) (size : nat) (cb : list Z -> act) (k : Z -> act)
  | a_send_direct (p m : nat) (data : list Z) (cb : act) (k : Z -> act)
  | a_receive_direct (p m : nat) (size : nat) (cb : list Z -> act) (k : Z -> act).

(** [struct rpc_request] with the fields of its message that are used. *)
Record rpc_request := mk_req {
  r_msg : nat; r_dir : io_dir; r_cmd : rpc_cmd; r_data : list Z; r_size : nat; r_cb : list Z -> act }.

(** [struct node_id]: [n_in] is what arrives on its socket, [n_out] what was
    written to it. *)
Record node_id := mk_node { n_id : Z; f_connected : bool; req_list : list rpc_request; n_in : list Z; n_out : list Z }.

Record os := mk_os { os_send : list Z; os_recv : list Z; os_avail : list bool; os_alloc : list bool; os_connect : list bool }.

(** [struct rpc_server] with the static variables of the file.  [t_live] are
    the messages that are allocated; [t_log] the commands the services were
    called for, the last one first, with the peer they came from and the data
    that were read for them. *)
Record rpc_server := mk_rpc {
  t_self : connection_info;
  t_peers : list node_id;
  best_write : Z; best_read : Z;
  t_live : list nat; t_next : nat;
  t_os : os;
  t_log : list (nat * rpc_cmd * list Z)
}.

Definition set_peers (s : rpc_server) (l : list node_id) : rpc_server :=
  mk_rpc (t_self s) l (best_write s) (best_read s) (t_live s) (t_next s) (t_os s) (t_log s).
Definition set_os (s : rpc_server) (o : os) : rpc_server :=
  mk_rpc (t_self s) (t_peers s) (best_write s) (best_read s) (t_live s) (t_next s) o (t_log s).
Definition set_live (s : rpc_server) (l : list nat) (n : nat) : rpc_server :=
  mk_rpc (t_self s) (t_peers s) (best_write s) (best_read s) l n (t_os s) (t_log s).
Definition set_log (s : rpc_server) (l : list (nat * rpc_cmd * list Z)) : rpc_server :=
  mk_rpc (t_self s) (t_peers s) (best_write s) (best_read s) (t_live s) (t_next s) (t_os s) l.
Definition set_peer (s : rpc_server) (p : nat) (n : node_id) : rpc_server := set_peers s (<[p := n]> (t_peers s)).

Definition set_reqs (n : node_id) (l : list rpc_request) : node_id := mk_node (n_id n) (f_connected n) l (n_in n) (n_out n).
Definition set_out (n : node_id) (l : list Z) : node_id := mk_node (n_id n) (f_connected n) (req_list n) (n_in n) l.
Definition set_in (n : node_id) (l : list Z) : node_id := mk_node (n_id n) (f_connected n) (req_list n) l (n_out n).
Definition set_connected (n : node_id) : node_id := mk_node (n_id n) true (req_list n) (n_in n) (n_out n).

Definition set_send (o : os) (l : list Z) : os := mk_os l (os_recv o) (os_avail o) (os_alloc o) (os_connect o).
Definition set_recv (o : os) (l : list Z) : os := mk_os (os_send o) l (os_avail o) (os_alloc o) (os_connect o).

(** A peer that is not in the table is outside the array. *)
Definition peer (s : rpc_server) (p : nat) : run node_id := match t_peers s !! p with Some n => Ran n | None => Undef end.

(** Results of allocations, [FIONREAD] and the calls that connect. *)
Definition draw_alloc (s : rpc_server) : rpc_server * bool :=
  let o := t_os s in
  (set_os s (mk_os (os_send o) (os_recv o) (os_avail o) (tail (os_alloc o)) (os_connect o)), default true (head (os_alloc o))).
Definition draw_avail (s : rpc_server) : rpc_server * bool :=
  let o := t_os s in
  (set_os s (mk_os (os_send o) (os_recv o) (tail (os_avail o)) (os_alloc o) (os_connect o)), default true (head (os_avail o))).
Definition draw_connect (s : rpc_server) : rpc_server * bool :=
  let o := t_os s in
  (set_os s (mk_os (os_send o) (os_recv o) (os_avail o) (os_alloc o) (tail (os_connect o))), default true (head (os_connect o))).

(** ** Messages *)

Definition msg_buf_alloc (s : rpc_server) : rpc_server * option nat :=
  let '(s, ok) := draw_alloc s in
  if ok then (set_live s (t_next s :: t_live s) (S (t_next s)), Some (t_next s)) else (s, None).

Definition free_msg (m : nat) (s : rpc_server) : run rpc_server :=
  if decide (m ∈ t_live s) then Ran (set_live s (filter (fun x => x <> m) (t_live s)) (t_next s)) else Undef.

(** ** The socket of a peer *)

Definition sock_send (p : nat) (buffer : list Z) (s : rpc_server) : run (rpc_server * Z) :=
  n ← peer s p;
  '(w, script, rc) ← socket_send_bytes (best_write s) (os_send (t_os s)) buffer;
  Ran (set_os (set_peer s p (set_out n (n_out n ++ w))) (set_send (t_os s) script), rc).

(** After a failed [rpc_connect] the socket is closed: the system refuses. *)
Definition sock_send_open (p : nat) (buffer : list Z) (s : rpc_server) : run (rpc_server * Z) :=
  n ← peer s p;
  if f_connected n then sock_send p buffer s else Ran (s, if decide (buffer = []) then 0 else -1).

Definition sock_recv (p size : nat) (s : rpc_server) : run (rpc_server * list Z * Z) :=
  n ← peer s p;
  '(d, rest, script, rc) ← socket_recv_bytes (best_read s) (os_recv (t_os s)) (n_in n) size;
  Ran (set_os (set_peer s p (set_in n rest)) (set_recv (t_os s) script), d, rc).

Definition sock_recv_open (p size : nat) (s : rpc_server) : run (rpc_server * list Z * Z) :=
  n ← peer s p;
  if f_connected n then sock_recv p size s else Ran (s, [], if decide (size = 0%nat) then 0 else -1).

(** [rpc_send_connection_info] *)
Definition rpc_send_connection_info (p : nat) (s : rpc_server) : run (rpc_server * Z) := sock_send p (info_bytes (t_self s)) s.

(** [draw_connect] stands for [socket], [bind] and [connect]. *)
Definition rpc_connect (p : nat) (s : rpc_server) : run (rpc_server * Z) :=
  n ← peer s p;
  if f_connected n then Ran (s, 0)
  else
    let '(s, ok) := draw_connect s in
    if ok : bool then
      '(s, rc) ← rpc_send_connection_info p s;
      n ← peer s p;
      if rc <? 0 then Ran (set_peer s p (set_out n []), -1) (* closed *)
      else Ran (set_peer s p (set_connected n), 0)
    else Ran (s, -1).

(** ** Requests *)

(** The data a callback sees. *)
Definition note_data (d : list Z) (s : rpc_server) : rpc_server :=
  match t_log s with
  | (p, c, x) :: l => set_log s ((p, c, x ++ d) :: l)
  | [] => s
  end.

Section calls.
(** [exec]: the callbacks; [fuel]: for the loop over the list of requests. *)
Context (exec : act -> rpc_server -> run (rpc_server * Z)) (fuel : nat).

Definition rpc_cb_request_posted (cb : act) (s : rpc_server) : run (rpc_server * Z) :=
  '(s, rc) ← exec cb s; Ran (s, if rc <? 0 then -1 else 0).

(** An error of the socket frees the message; one of the callback does not. *)
Definition rpc_post_request (p : nat) (r : rpc_request) (s : rpc_server) : run (rpc_server * Z) :=
  '(s, rc) ← sock_send_open p (cmd_bytes (r_cmd r)) s;
  if rc <? 0 then s ← free_msg (r_msg r) s; Ran (s, -1)
  else
    '(s, d, rc) ← match r_dir r with
                  | io_send => '(s, rc) ← sock_send_open p (r_data r) s; Ran (s, r_data r, rc)
                  | io_receive => sock_recv_open p (r_size r) s
                  | _ => Ran (s, [], 0)
                  end;
    if rc <? 0 then s ← free_msg (r_msg r) s; Ran (s, -1)
    else '(s, rc) ← rpc_cb_request_posted (r_cb r d) s; Ran (s, if rc <? 0 then -1 else 0).

Fixpoint process_send_list (f : nat) (p : nat) (s : rpc_server) : run (rpc_server * Z) :=
  n ← peer s p;
  match req_list n with
  | [] => Ran (s, 0)
  | r :: l =>
      match f with
      | O => NoFuel
      | S f =>
          let r := mk_req (r_msg r) (r_dir r) (set_cmd_id (r_cmd r) (ci_id (t_self s))) (r_data r) (r_size r) (r_cb r) in
          '(s, rc) ← rpc_post_request p r (set_peer s p (set_reqs n l));
          if rc <? 0 then Ran (s, -1) else process_send_list f p s
      end
  end.

Definition peer_process_send_list (p : nat) (s : rpc_server) : run (rpc_server * Z) := process_send_list fuel p s.

(** [rpc_send] and [rpc_receive]: the result of [rpc_connect] is not looked at. *)
Definition post (p : nat) (r : rpc_request) (s : rpc_server) : run (rpc_server * Z) :=
  n ← peer s p;
  s ← (if f_connected n then Ran s else '(s, _) ← rpc_connect p s; Ran s);
  let '(s, ok) := draw_alloc s in
  if ok : bool then
    n ← peer s p;
    '(s, rc) ← peer_process_send_list p (set_peer s p (set_reqs n (r :: req_list n)));
    Ran (s, if rc <? 0 then -1 else 0)
  else Ran (s, -1).

Definition rpc_send (p m : nat) (cmd : rpc_cmd) (data : list Z) (cb : act) (s : rpc_server) : run (rpc_server * Z) :=
  post p (mk_req m io_send cmd data (length data) (fun _ => cb)) s.

Definition rpc_receive (p m : nat) (cmd : rpc_cmd) (size : nat) (cb : list Z -> act) (s : rpc_server) : run (rpc_server * Z) :=
  post p (mk_req m io_receive cmd [] size cb) s.

(** The direct calls use the socket of a peer that is connected; an error
    leaves the message to the caller. *)
Definition rpc_send_direct (p m : nat) (data : list Z) (cb : act) (s : rpc_server) : run (rpc_server * Z) :=
  n ← peer s p;
  if f_connected n then
    '(s, rc) ← sock_send p data s;
    if rc <? 0 then Ran (s, -1) else '(s, rc) ← exec cb s; Ran (s, if rc <? 0 then -1 else 0)
  else Ran (s, -1).

Definition rpc_receive_direct (p m size : nat) (cb : list Z -> act) (s : rpc_server) : run (rpc_server * Z) :=
  n ← peer s p;
  if f_connected n then
    '(s, d, rc) ← sock_recv p size s;
    if rc <? 0 then Ran (s, -1) else '(s, rc) ← exec (cb d) (note_data d s); Ran (s, if rc <? 0 then -1 else 0)
  else Ran (s, -1).
End calls.

(** A service or callback. *)
Fixpoint perform (fuel : nat) (a : act) (s : rpc_server) : run (rpc_server * Z) :=
  match fuel with
  | O => NoFuel
  | S fuel =>
      match a with
      | a_ret rc => Ran (s, rc)
      | a_alloc k => let '(s, m) := msg_buf_alloc s in perform fuel (k m) s
      | a_free m k => s ← free_msg m s; perform fuel k s
      | a_send p m cmd data cb k => '(s, rc) ← rpc_send (perform fuel) fuel p m cmd data cb s; perform fuel (k rc) s
      | a_receive p m cmd size cb k => '(s, rc) ← rpc_receive (perform fuel) fuel p m cmd size cb s; perform fuel (k rc) s
      | a_send_direct p m data cb k => '(s, rc) ← rpc_send_direct (perform fuel) p m data cb s; perform fuel (k rc) s
      | a_receive_direct p m size cb k => '(s, rc) ← rpc_receive_direct (perform fuel) p m size cb s; perform fuel (k rc) s
      end
  end.

(** ** Events *)

Section events.
(** [rpc_commands], and the size of the pad. *)
Context (rpc_commands : list (Z * (nat -> rpc_cmd -> act))) (pad_size : nat).

Definition sizeof_rpc_cmd : nat := 6 + pad_size.

(** [None]: no command has arrived. *)
Definition socket_recv_rpc_cmd (p : nat) (s : rpc_server) : run (rpc_server * option (rpc_cmd * Z)) :=
  let '(s, arrived) := draw_avail s in
  n ← peer s p;
  if arrived && negb (bool_decide (n_in n = [])) then
    '(s, d, rc) ← sock_recv p sizeof_rpc_cmd s; Ran (s, Some (cmd_of_bytes d, if rc <? 0 then -1 else 0))
  else Ran (s, None).

(** The first service for the command. *)
Definition rpc_process_cmd (fuel p : nat) (cmd : rpc_cmd) (s : rpc_server) : run (rpc_server * Z) :=
  match List.find (fun c => c_cmd cmd =? fst c) rpc_commands with
  | Some (_, rpc_func) => '(s, rc) ← perform fuel (rpc_func p cmd) s; Ran (s, if rc <? 0 then -1 else 0)
  | None => Ran (s, -1)
  end.

(** Commands from one peer; [p] is its place in the table, where a service
    finds it by [cmd->id]. *)
Fixpoint rpc_process_event_peer (fuel p : nat) (s : rpc_server) : run (rpc_server * Z) :=
  match fuel with
  | O => NoFuel
  | S fuel =>
      '(s, r) ← socket_recv_rpc_cmd p s;
      match r with
      | None => Ran (s, 0)
      | Some (cmd, rc) =>
          if rc <? 0 then Ran (s, -1)
          else
            n ← peer s p;
            let cmd := set_cmd_id cmd (n_id n) in
            '(s, rc) ← rpc_process_cmd fuel p cmd (set_log s ((p, cmd, []) :: t_log s));
            if rc <? 0 then Ran (s, -1) else rpc_process_event_peer fuel p s
      end
  end.

(** An error of one peer does not keep the others from being processed. *)
Fixpoint process_peers (fuel : nat) (ps : list nat) (s : rpc_server) : run (rpc_server * Z) :=
  match ps with
  | [] => Ran (s, 0)
  | p :: ps =>
      n ← peer s p;
      if f_connected n then '(s, _) ← rpc_process_event_peer fuel p s; process_peers fuel ps s
      else process_peers fuel ps s
  end.

Definition rpc_process_event (fuel : nat) (s : rpc_server) : run (rpc_server * Z) :=
  process_peers fuel (seq 0 (length (t_peers s))) s.
End events.

(** ** The loops over a socket *)

Lemma send_loop_spec fuel bw : 1 <= bw -> forall script buf, (length script + length buf <= fuel)%nat ->
  exists w script' rc, send_loop fuel bw script buf = Ran (w, script', rc) /\
    (rc = 0 /\ w = buf \/ rc = -1 /\ exists x, buf = w ++ x).
Proof.
  intros Hb. induction fuel as [|fuel IH]; intros script [|b buf] Hf; cbn [send_loop length] in *; try lia;
    try (eexists _, _, _; split; [done|]; by left).
  set (len := Z.min bw _). assert (1 <= len <= Z.of_nat (S (length buf))) by lia.
  set (n := match script with n :: _ => n | [] => len end).
  destruct (Z.ltb_spec n 0) as [Hn|Hn].
  { eexists _, _, _. split; [done|]. right. split; [done|]. by eexists. }
  set (k := Z.to_nat (Z.min n len)).
  assert (length (tail script) + length (drop k (b :: buf)) <= fuel)%nat as Hfuel.
  { rewrite length_drop. cbn [length]. destruct script; cbn in *; [|lia]. subst n k. lia. }
  destruct (IH _ _ Hfuel) as (w & s' & rc & E & Hw). rewrite E. cbn. eexists _, _, _. split; [done|].
  destruct Hw as [[-> ->]|(-> & x & Hx)]; [left|right]; (split; [done|]).
  - apply take_drop.
  - exists x. by rewrite <- app_assoc, <- Hx, take_drop.
Qed.

Lemma send_loop_fine fuel bw : 1 <= bw -> forall script buf w script' rc, Forall (Z.le 0) script ->
  send_loop fuel bw script buf = Ran (w, script', rc) -> rc = 0 /\ Forall (Z.le 0) script'.
Proof.
  intros Hb. induction fuel as [|fuel IH]; intros script [|b buf] w script' rc Hs; cbn [send_loop]; try done; try (intros [= <- <- <-]; done).
  set (len := Z.min bw _). set (n := match script with n :: _ => n | [] => len end).
  destruct (Z.ltb_spec n 0) as [Hn|Hn].
  - exfalso. destruct Hs; subst n len; cbn [length] in *; lia.
  - destruct (send_loop fuel _ _ _) as [[[w1 s1] r1]| | |] eqn:E; try done. intros [= <- <- <-]. apply (IH _ _ _ _ _) in E; [done|].
    by destruct Hs.
Qed.

(** [socket_send_bytes] writes the buffer, or a beginning of it when [send]
    fails, whatever [send] accepts at a time. *)
Lemma socket_send_bytes_exact bw script buf : 1 <= bw -> exists w script' rc,
  socket_send_bytes bw script buf = Ran (w, script', rc) /\ (rc = 0 /\ w = buf \/ rc = -1 /\ exists x, buf = w ++ x).
Proof. intros. by apply send_loop_spec. Qed.

Lemma recv_loop_spec fuel br : 1 <= br -> forall script inp size, (size <= fuel)%nat -> Forall (Z.le 1) script -> (size <= length inp)%nat ->
  exists script', recv_loop fuel br script inp size = Ran (take size inp, drop size inp, script', 0) /\ Forall (Z.le 1) script'.
Proof.
  intros Hb. induction fuel as [|fuel IH]; intros script inp [|size] Hf Hs Hl; cbn [recv_loop]; try lia;
    try (eexists; split; [done|]; done).
  set (len := Z.min br _). assert (1 <= len <= Z.of_nat (S size)) by lia.
  set (n := match script with n :: _ => n | [] => len end).
  assert (1 <= n) by (subst n; destruct Hs; lia).
  replace ((n <=? 0) || (len =? 0)) with false by (symmetry; apply orb_false_iff; lia).
  destruct inp as [|b inp]; [cbn in Hl; lia|]. set (l := b :: inp) in *.
  set (k := Nat.min (length l) (Z.to_nat (Z.min n len))). assert (1 <= k <= S size)%nat by lia.
  destruct (IH (tail script) (drop k l) (S size - k)%nat) as (s' & E & Hs'); [lia|by destruct Hs|rewrite length_drop; lia|].
  rewrite E. cbn [mbind run_bind]. eexists. split; [|done].
  assert (take k l ++ take (S size - k) (drop k l) = take (S size) l) as ->.
  { rewrite <- (take_drop k (take (S size) l)), take_take, Nat.min_l, skipn_firstn_comm by lia. done. }
  rewrite drop_drop. by replace (k + (S size - k))%nat with (S size) by lia.
Qed.

(** A size of 0, as [str_to_uint64] gives for a number with a unit, never lets
    the loop of [socket_send_bytes] end. *)
Lemma write_size_zero_loops fuel b buf : send_loop fuel 0 [] (b :: buf) = NoFuel.
Proof. revert b buf. induction fuel as [|fuel IH]; intros; [done|]. cbn [send_loop]. rewrite Z.min_l by lia. cbn [Z.ltb Z.compare tail].
  change (Z.to_nat (Z.min 0 0)) with 0%nat. cbn [drop]. by rewrite IH. Qed.

Lemma write_size_with_unit : best_size 16384 (Some [49; 54; 107]) = 0.
Proof. reflexivity. Qed.

(** ** Commands as bytes *)

Definition byte_ok (b : Z) : Prop := 0 <= b < 256.

Record cmd_ok (pad_size : nat) (c : rpc_cmd) : Prop := {
  ck_cmd : byte_ok (c_cmd c);
  ck_num : byte_ok (c_num_msg c);
  ck_id : 0 <= c_id c < 2 ^ 32;
  ck_pad : length (c_pad c) = pad_size
}.

Lemma cmd_bytes_length ps c : cmd_ok ps c -> length (cmd_bytes c) = sizeof_rpc_cmd ps.
Proof. intros []. unfold cmd_bytes, sizeof_rpc_cmd. rewrite !length_app, !length_le_bytes. lia. Qed.

(** A command that was written is read back. *)
Lemma cmd_roundtrip ps c : cmd_ok ps c -> cmd_of_bytes (cmd_bytes c) = c.
Proof.
  intros [Hc Hn Hi Hp]. unfold cmd_of_bytes, cmd_bytes.
  rewrite le_field by (unfold byte_ok in *; lia). rewrite drop_field.
  rewrite le_field by (unfold byte_ok in *; lia).
  assert (forall l : list Z, drop 2 l = drop 1 (drop 1 l)) as -> by (intros; by rewrite drop_drop).
  assert (forall l : list Z, drop 6 l = drop 4 (drop 1 (drop 1 l))) as -> by (intros; by rewrite !drop_drop).
  rewrite !drop_field, le_field by lia. by destruct c.
Qed.

(** ** What is asked of services *)

Abbreviation without m l := (filter (fun x : nat => x <> m) l).

Section services.
(** When [quiet], no [send] and no connection fails, and nothing is asked of
    what a service does after an error of [rpc_send]: the services of the
    server free the message then, which [rpc_post_request] has freed
    ([failed_send_freed_twice]). *)
Context (quiet : bool).

(** [fits own p n R a]: the tree uses the messages [own], reads exactly [n]
    bytes directly, from peer [p], and returns a code in [R].  A message that
    was given to [rpc_send] does not belong to the caller any more, whatever
    the call returns; after an error of a direct call it does. *)
Fixpoint fits (own : list nat) (p n : nat) (R : Z -> Prop) (a : act) : Prop :=
  match a with
  | a_ret rc => n = 0%nat /\ R rc
  | a_alloc k => forall m, m ∉ own -> fits (m :: own) p n R (k (Some m))
  | a_free m k => m ∈ own /\ fits (without m own) p n R k
  | a_send q m cmd data cb k =>
      m ∈ own /\ fits [m] p 0 (fun rc => quiet = true -> 0 <= rc) cb /\ forall rc, (quiet = true -> rc = 0) -> fits (without m own) p n R (k rc)
  | a_receive _ _ _ _ _ _ => False
  | a_send_direct q m data cb k =>
      m ∈ own /\ fits [m] p 0 (Z.le 0) cb /\ forall rc, fits (if rc <? 0 then own else without m own) p n R (k rc)
  | a_receive_direct q m size cb k =>
      q = p /\ m ∈ own /\ (size <= n)%nat /\ (forall d, fits [m] p 0 (Z.le 0) (cb d)) /\ fits (without m own) p (n - size) R (k 0)
  end.

(** The peers a tree uses are in the table. *)
Fixpoint within (np : nat) (a : act) : Prop :=
  match a with
  | a_ret _ => True
  | a_alloc k => forall m, within np (k m)
  | a_free _ k => within np k
  | a_send q _ _ _ cb k | a_send_direct q _ _ cb k => (q < np)%nat /\ within np cb /\ forall rc, within np (k rc)
  | a_receive q _ _ _ cb k | a_receive_direct q _ _ cb k => (q < np)%nat /\ (forall d, within np (cb d)) /\ forall rc, within np (k rc)
  end.

(** ** States between calls

    No [recv] and no allocation fails: a service that has no memory for the
    data leaves them in the stream ([unread_data_taken_for_command]). *)

Record good (s : rpc_server) : Prop := {
  gd_idle : Forall (fun n => req_list n = []) (t_peers s);
  gd_recv : Forall (Z.le 1) (os_recv (t_os s));
  gd_write : 1 <= best_write s;
  gd_read : 1 <= best_read s;
  gd_next : Forall (fun m => m < t_next s)%nat (t_live s);
  gd_alloc : Forall (eq true) (os_alloc (t_os s));
  gd_send : quiet = true -> Forall (Z.le 0) (os_send (t_os s)) /\ Forall (eq true) (os_connect (t_os s))
}.

Definition add_data (d : list Z) (l : list (nat * rpc_cmd * list Z)) : list (nat * rpc_cmd * list Z) :=
  match l with (p, c, x) :: l => (p, c, x ++ d) :: l | [] => [] end.

(** What a call that reads [n] bytes from [p] leaves of a peer. *)
Record kept (read : nat) (n n' : node_id) : Prop := {
  kp_id : n_id n' = n_id n;
  kp_conn : f_connected n = true -> f_connected n' = true;
  kp_in : n_in n' = drop read (n_in n)
}.

Definition reads (p q n : nat) : nat := if decide (q = p) then n else 0%nat.

Record frame (own : list nat) (p n : nat) (s s' : rpc_server) : Prop := {
  fr_self : t_self s' = t_self s;
  fr_peers : forall q nq, t_peers s !! q = Some nq -> exists nq', t_peers s' !! q = Some nq' /\ kept (reads p q n) nq nq';
  fr_len : length (t_peers s') = length (t_peers s);
  fr_live : forall m, m ∉ own -> m ∈ t_live s -> m ∈ t_live s';
  fr_avail : os_avail (t_os s') = os_avail (t_os s);
  fr_log : forall np, t_peers s !! p = Some np -> t_log s' = add_data (take n (n_in np)) (t_log s)
}.

Lemma add_data_nil l : add_data [] l = l.
Proof. destruct l as [|[[] ?] ?]; cbn; by rewrite ?app_nil_r. Qed.

Lemma add_data_app d d' l : add_data d' (add_data d l) = add_data (d ++ d') l.
Proof. destruct l as [|[[] ?] ?]; cbn; by rewrite <- ?app_assoc. Qed.

Lemma kept_trans r1 r2 n n1 n2 : kept r1 n n1 -> kept r2 n1 n2 -> kept (r1 + r2) n n2.
Proof. intros [A1 A2 A3] [B1 B2 B3]. split; [congruence|auto|]. by rewrite B3, A3, drop_drop. Qed.

Lemma frame_refl own p s : frame own p 0 s s.
Proof. split; auto.
  - intros q nq H. exists nq. split; [done|]. unfold reads. destruct (decide _); by split.
  - intros. by rewrite add_data_nil. Qed.

Lemma frame_any own own' p q s s' : frame own p 0 s s' -> own ⊆ own' -> (p < length (t_peers s))%nat -> frame own' q 0 s s'.
Proof.
  intros [A1 A2 A3 A4 Av A5] Ho Hp. split; auto.
  - intros r nr H. destruct (A2 _ _ H) as (n' & H' & K). exists n'. split; [done|]. unfold reads in *. by destruct (decide (r = p)), (decide (r = q)).
  - intros. apply lookup_lt_is_Some in Hp as [np' Hp]. rewrite (A5 np' Hp). done.
Qed.

Lemma frame_trans own p n1 n2 s s1 s2 np : t_peers s !! p = Some np -> (n1 <= length (n_in np))%nat ->
  frame own p n1 s s1 -> frame own p n2 s1 s2 -> frame own p (n1 + n2) s s2.
Proof.
  intros Hp Hn [A1 A2 A3 A4 Av A5] [B1 B2 B3 B4 Bv B5]. split; try congruence; auto.
  - intros q nq H. destruct (A2 _ _ H) as (n' & H' & K). destruct (B2 _ _ H') as (n'' & H'' & K'). exists n''. split; [done|].
    replace (reads p q (n1 + n2)) with (reads p q n1 + reads p q n2)%nat by (unfold reads; by destruct (decide _)). by eapply kept_trans.
  - intros np' E. rewrite Hp in E. injection E as <-. destruct (A2 _ _ Hp) as (n' & H' & K).
    rewrite (B5 n' H'), (A5 np Hp), add_data_app. f_equal. rewrite (kp_in _ _ _ K). unfold reads. rewrite decide_True by done.
    rewrite <- (take_drop n1 (take (n1 + n2) (n_in np))), take_take, Nat.min_l, skipn_firstn_comm by lia.
    do 2 f_equal. lia.
Qed.

(** Updates that the steps of a call make. *)
Lemma frame_peer own q p n n' s : t_peers s !! p = Some n -> kept 0 n n' -> frame own q 0 s (set_peer s p n').
Proof.
  intros Hp K. split; auto; cbn.
  - intros r nr H. destruct (decide (p = r)) as [<-|Hne].
    + exists n'. rewrite list_lookup_insert_eq by (by eapply lookup_lt_Some). split; [done|]. rewrite Hp in H. injection H as <-.
      unfold reads. by destruct (decide _).
    + exists nr. rewrite list_lookup_insert_ne by done. split; [done|]. unfold reads. destruct (decide _); by split.
  - apply length_insert.
  - intros. by rewrite add_data_nil.
Qed.

Lemma frame_same own q s s' : t_self s' = t_self s -> t_peers s' = t_peers s -> (forall m, m ∉ own -> m ∈ t_live s -> m ∈ t_live s') ->
  t_log s' = t_log s -> os_avail (t_os s') = os_avail (t_os s) -> frame own q 0 s s'.
Proof. intros H1 H2 H3 H4 H5. destruct (frame_refl own q s) as [A1 A2 A3 A4 Av A5]. split; auto; rewrite ?H2; auto.
  intros np H. rewrite H4. by apply A5. Qed.

Lemma good_peer s p n : good s -> t_peers s !! p = Some n -> req_list n = [].
Proof. intros G H. pose proof (gd_idle s G) as F. rewrite list.Forall_forall in F. apply F. by eapply list_elem_of_lookup_2. Qed.

Lemma good_set s p n o : good s -> req_list n = [] -> Forall (Z.le 1) (os_recv o) -> os_alloc o = os_alloc (t_os s) ->
  os_connect o = os_connect (t_os s) -> (quiet = true -> Forall (Z.le 0) (os_send o)) -> good (set_os (set_peer s p n) o).
Proof.
  intros [A1 A2 A3 A4 A5 A6 A7] Hn Ho Ha Hk Hs. rewrite <- Ha in A6. split; cbn; auto; [by apply Forall_insert|].
  intros Hq. rewrite Hk. split; [by apply Hs|by apply A7].
Qed.

Lemma peer_at s p n : t_peers s !! p = Some n -> peer s p = Ran n.
Proof. intros H. unfold peer. by rewrite H. Qed.

(** Sending on a socket. *)
Lemma sock_send_ok own q p buf s n : good s -> t_peers s !! p = Some n -> exists s' rc,
  sock_send p buf s = Ran (s', rc) /\ good s' /\ frame own q 0 s s' /\ t_live s' = t_live s /\
  (rc = 0 \/ rc = -1) /\ (exists w, t_peers s' = <[p := set_out n (n_out n ++ w)]> (t_peers s) /\ (rc = 0 -> w = buf)) /\
  (quiet = true -> rc = 0).
Proof.
  intros G Hp. unfold sock_send, peer. rewrite Hp. cbn.
  destruct (socket_send_bytes_exact (best_write s) (os_send (t_os s)) buf (gd_write s G)) as (w & sc & rc & E & Hw).
  assert (Hfine : quiet = true -> rc = 0 /\ Forall (Z.le 0) sc).
  { intros Hq. apply (send_loop_fine _ _ (gd_write s G) _ _ _ _ _ (proj1 (gd_send s G Hq)) E). }
  rewrite E. cbn. eexists _, _. split; [done|]. split; [|split; [|split; [done|split; [|split]]]].
  - apply good_set; [done|exact (good_peer s p n G Hp)|exact (gd_recv s G)|done|done|intros Hq; by apply Hfine].
  - destruct (frame_peer own q p n (set_out n (n_out n ++ w)) s Hp) as [A1 A2 A3 A4 Av A5]; [by split|]. split; auto.
  - destruct Hw as [[-> _]|[-> _]]; auto.
  - exists w. split; [done|]. intros ->. by destruct Hw as [[_ ->]|[? _]].
  - intros Hq. by apply Hfine.
Qed.

Lemma sock_send_open_ok own q p buf s n : good s -> t_peers s !! p = Some n -> exists s' rc,
  sock_send_open p buf s = Ran (s', rc) /\ good s' /\ frame own q 0 s s' /\ t_live s' = t_live s /\ (rc = 0 \/ rc = -1) /\
  (exists n', t_peers s' = <[p := n']> (t_peers s) /\ (f_connected n = true -> rc = 0 -> n' = set_out n (n_out n ++ buf))) /\
  (quiet = true -> f_connected n = true -> rc = 0).
Proof.
  intros G Hp. unfold sock_send_open. unfold peer at 1. rewrite Hp. cbn. destruct (f_connected n) eqn:Ec.
  - destruct (sock_send_ok own q p buf s n G Hp) as (s' & rc & E & G' & F & L & Hrc & (w & Hw & Hz) & Hq).
    eexists _, _. do 5 (split; [done|]). split; [|auto]. eexists. split; [done|]. intros _ H0. by rewrite Hz.
  - eexists _, _. split; [done|]. split; [done|]. split; [apply frame_refl|]. split; [done|].
    split; [destruct (decide _); auto|]. split; [|done]. exists n. split; [|done]. by rewrite list_insert_id.
Qed.

(** Receiving from a socket with enough bytes. *)
Lemma sock_recv_ok own p size s n : good s -> t_peers s !! p = Some n -> (size <= length (n_in n))%nat -> exists s',
  sock_recv p size s = Ran (s', take size (n_in n), 0) /\ good s' /\ t_live s' = t_live s /\ t_log s' = t_log s /\
  frame own p size s (set_log s' (add_data (take size (n_in n)) (t_log s))).
Proof.
  intros G Hp Hl. unfold sock_recv, peer. rewrite Hp. cbn.
  destruct (recv_loop_spec size (best_read s) (gd_read s G) (os_recv (t_os s)) (n_in n) size) as (sc & E & Hsc); [done|apply G|done|].
  unfold socket_recv_bytes. rewrite E. cbn. eexists. split; [done|]. split; [|split; [done|split; [done|]]].
  - apply good_set; [done|exact (good_peer s p n G Hp)|done|done|done|intros Hq; by apply (gd_send s G)].
  - split; auto; cbn.
    + intros r nr H. destruct (decide (p = r)) as [<-|Hne].
      * rewrite list_lookup_insert_eq by (by eapply lookup_lt_Some). eexists. split; [done|]. rewrite Hp in H. injection H as <-.
        unfold reads. rewrite decide_True by done. by split.
      * exists nr. rewrite list_lookup_insert_ne by done. split; [done|]. unfold reads. rewrite decide_False by done. by split.
    + apply length_insert.
    + intros np H. rewrite Hp in H. by injection H as <-.
Qed.

Lemma free_msg_ok own q m s : good s -> m ∈ t_live s -> m ∈ own -> exists s', free_msg m s = Ran s' /\ good s' /\ frame own q 0 s s' /\
  t_peers s' = t_peers s.
Proof.
  intros G Hm Ho. unfold free_msg. rewrite decide_True by done. eexists. split; [done|]. split; [|split; [|done]].
  - destruct G as [A1 A2 A3 A4 A5 A6 A7]. split; cbn; auto. rewrite list.Forall_forall in *. intros x [_ Hx]%list_elem_of_filter. auto.
  - apply frame_same; auto; cbn. intros x Hx Hl. apply list_elem_of_filter. split; [congruence|done].
Qed.

Lemma draw_alloc_ok own q s s' b : good s -> draw_alloc s = (s', b) ->
  b = true /\ good s' /\ frame own q 0 s s' /\ t_live s' = t_live s /\ t_peers s' = t_peers s.
Proof.
  intros [A1 A2 A3 A4 A5 A6 A7] [= <- <-]. assert (Forall (eq true) (tail (os_alloc (t_os s)))) by (by destruct A6).
  split; [by destruct A6|]. split; [by split|]. split; [|done]. by apply frame_same.
Qed.

Lemma draw_connect_ok own q s s' b : good s -> draw_connect s = (s', b) -> good s' /\ frame own q 0 s s' /\ t_live s' = t_live s /\ t_peers s' = t_peers s /\
  (quiet = true -> b = true).
Proof.
  intros [A1 A2 A3 A4 A5 A6 A7] [= <- <-]. split; [|split; [by apply frame_same|split; [done|split; [done|]]]].
  - split; auto. intros Hq. destruct (A7 Hq) as [H1 H2]. split; [done|]. by destruct H2.
  - intros Hq. destruct (A7 Hq) as [_ H2]. by destruct H2.
Qed.

Lemma frame_step own q s s1 s2 : (q < length (t_peers s))%nat -> frame own q 0 s s1 -> frame own q 0 s1 s2 -> frame own q 0 s s2.
Proof. intros [np Hp]%lookup_lt_is_Some A B. eapply (frame_trans own q 0 0); [done|lia|done|done]. Qed.

Lemma rpc_connect_ok own q p s n : good s -> t_peers s !! p = Some n -> (q < length (t_peers s))%nat -> exists s' rc,
  rpc_connect p s = Ran (s', rc) /\ good s' /\ frame own q 0 s s' /\ t_live s' = t_live s /\
  (quiet = true -> exists n', t_peers s' !! p = Some n' /\ f_connected n' = true).
Proof.
  intros G Hp Hq. unfold rpc_connect. rewrite (peer_at s p n Hp). cbn [mbind run_bind].
  destruct (f_connected n) eqn:Ec; [exists s, 0; eauto 10 using frame_refl|].
  destruct (draw_connect s) as [s1 ok] eqn:Ed. destruct (draw_connect_ok own q s s1 ok G Ed) as (G1 & F1 & L1 & P1 & Q1).
  destruct ok; [|exists s1, (-1); by split; [|split; [|split; [|split; [|intros H%Q1]]]]].
  rewrite <- P1 in Hp. unfold rpc_send_connection_info.
  destruct (sock_send_ok own q p (info_bytes (t_self s1)) s1 n G1 Hp) as (s2 & rc & E & G2 & F2 & L2 & _ & (w & Hw & _) & Q2).
  rewrite E. cbn [mbind run_bind]. assert (t_peers s2 !! p = Some (set_out n (n_out n ++ w))) as Hp2 by (rewrite Hw; apply list_lookup_insert_eq; by eapply lookup_lt_Some).
  rewrite (peer_at _ _ _ Hp2). cbn [mbind run_bind].
  assert (req_list n = []) as Hr by (by eapply (good_peer s1)).
  destruct (rc <? 0) eqn:Er; eexists _, _; (split; [done|]); (split; [|split; [|split; [cbn; congruence|]]]).
  1, 4: destruct G2 as [B1 B2 B3 B4 B5 B6 B7]; split; cbn; auto; by apply Forall_insert.
  2: intros H; apply Q2 in H; lia.
  3: intros _; eexists; split; [apply list_lookup_insert_eq; by eapply lookup_lt_Some|done].
  all: eapply frame_step; [done|exact F1|]; eapply frame_step; [by rewrite (fr_len _ _ _ _ _ F1)|exact F2|]; eapply frame_peer; [done|by split].
Qed.

Definition open_at (q : nat) (s : rpc_server) : Prop := exists n, t_peers s !! q = Some n /\ f_connected n = true.

Lemma open_frame own p n q s s' : open_at q s -> frame own p n s s' -> open_at q s'.
Proof. intros (nq & H & Hc) F. destruct (fr_peers _ _ _ _ _ F q nq H) as (n' & H' & K). exists n'. split; [done|]. by apply K. Qed.

Lemma open_lt q s : open_at q s -> (q < length (t_peers s))%nat.
Proof. intros (n & H & _). by eapply lookup_lt_Some. Qed.

(** A callback that returns, whatever the state. *)
Definition runs (own : list nat) (q np : nat) (R : Z -> Prop) (a : act) : Prop := forall s,
  good s -> open_at q s -> length (t_peers s) = np -> own ⊆ t_live s ->
  exists f0 s' rc, (forall f, (f0 <= f)%nat -> perform f a s = Ran (s', rc)) /\ R rc /\ good s' /\ frame own q 0 s s'.

Lemma idle_loop exec f p s n : good s -> t_peers s !! p = Some n -> process_send_list exec f p s = Ran (s, 0).
Proof. intros G H. destruct f; cbn [process_send_list]; rewrite (peer_at s p n H); cbn; by rewrite (good_peer s p n). Qed.

Lemma one_request exec f p s n r : good s -> t_peers s !! p = Some n ->
  process_send_list exec (S f) p (set_peer s p (set_reqs n (r :: req_list n))) =
  ('(s, rc) ← rpc_post_request exec p (mk_req (r_msg r) (r_dir r) (set_cmd_id (r_cmd r) (ci_id (t_self s))) (r_data r) (r_size r) (r_cb r)) s;
   if rc <? 0 then Ran (s, -1) else process_send_list exec f p s).
Proof.
  intros G H. cbn [process_send_list]. rewrite (peer_at _ p (set_reqs n (r :: req_list n))) by (apply list_lookup_insert_eq; by eapply lookup_lt_Some).
  cbn [mbind run_bind req_list set_reqs].
  replace (set_peer (set_peer s p (set_reqs n (r :: req_list n))) p (set_reqs (set_reqs n (r :: req_list n)) (req_list n))) with s; [done|].
  unfold set_peer, set_peers. cbn. rewrite list_insert_insert_eq.
  replace (set_reqs (set_reqs n (r :: req_list n)) (req_list n)) with n by (by destruct n). rewrite list_insert_id by done. by destruct s.
Qed.

Lemma post_request_ok q p m cmd data cb s n : good s -> t_peers s !! p = Some n -> open_at q s -> m ∈ t_live s ->
  runs [m] q (length (t_peers s)) (fun rc => quiet = true -> 0 <= rc) cb -> exists f0 s' rc,
  (forall f, (f0 <= f)%nat -> rpc_post_request (perform f) p (mk_req m io_send cmd data (length data) (fun _ => cb)) s = Ran (s', rc)) /\
  good s' /\ frame [m] q 0 s s' /\ (quiet = true -> f_connected n = true -> rc = 0).
Proof.
  intros G Hp Ho Hm Hcb. pose proof (open_lt q s Ho) as Hq. unfold rpc_post_request. cbn [r_cmd r_msg r_dir r_data r_cb].
  destruct (sock_send_open_ok [m] q p (cmd_bytes cmd) s n G Hp) as (s1 & rc1 & E1 & G1 & F1 & L1 & _ & _ & Q1). rewrite E1. cbn [mbind run_bind].
  assert (q < length (t_peers s1))%nat as Hq1 by (by rewrite (fr_len _ _ _ _ _ F1)).
  assert (m ∈ [m]) as Hm1 by apply list_elem_of_here.
  destruct (rc1 <? 0) eqn:Er1.
  { rewrite <- L1 in Hm. destruct (free_msg_ok [m] q m s1 G1 Hm Hm1) as (s2 & E2 & G2 & F2 & _).
    exists 0%nat, s2, (-1). split; [intros; by rewrite E2|]. split; [done|]. split; [by eapply frame_step|].
    intros Hq' Hc. specialize (Q1 Hq' Hc). lia. }
  destruct (fr_peers _ _ _ _ _ F1 p n Hp) as (n1 & Hp1 & K1).
  destruct (sock_send_open_ok [m] q p data s1 n1 G1 Hp1) as (s2 & rc2 & E2 & G2 & F2 & L2 & _ & _ & Q2). rewrite E2. cbn [mbind run_bind].
  assert (q < length (t_peers s2))%nat as Hq2 by (by rewrite (fr_len _ _ _ _ _ F2)).
  assert (frame [m] q 0 s s2) as F by (by eapply frame_step).
  rewrite <- L1, <- L2 in Hm. destruct (rc2 <? 0) eqn:Er2.
  { destruct (free_msg_ok [m] q m s2 G2 Hm Hm1) as (s3 & E3 & G3 & F3 & _).
    exists 0%nat, s3, (-1). split; [intros; by rewrite E3|]. split; [done|]. split; [by eapply frame_step|].
    intros Hq' Hc. specialize (Q2 Hq' (kp_conn _ _ _ K1 Hc)). lia. }
  destruct (Hcb s2 G2 (open_frame _ _ _ _ _ _ Ho F) (fr_len _ _ _ _ _ F)) as (f0 & s3 & rc & H & Hrc & G3 & F3);
    [by intros x ->%list_elem_of_singleton|].
  eexists f0, s3, _. split; [|split; [done|split; [by eapply frame_step|]]].
  - intros f Hf. unfold rpc_cb_request_posted. by rewrite H.
  - cbn. intros Hq' _. replace (rc <? 0) with false; [done|]. specialize (Hrc Hq'). lia.
Qed.

Lemma rpc_send_ok q p m cmd data cb s : good s -> (p < length (t_peers s))%nat -> open_at q s -> m ∈ t_live s ->
  runs [m] q (length (t_peers s)) (fun rc => quiet = true -> 0 <= rc) cb -> exists f0 s' rc,
  (forall f, (f0 <= f)%nat -> rpc_send (perform f) f p m cmd data cb s = Ran (s', rc)) /\ good s' /\ frame [m] q 0 s s' /\
  (quiet = true -> rc = 0).
Proof.
  intros G [n Hp]%lookup_lt_is_Some Ho Hm Hcb. pose proof (open_lt q s Ho) as Hq. unfold rpc_send, post. rewrite (peer_at s p n Hp). cbn [mbind run_bind].
  assert (exists s1, (if f_connected n then Ran s else '(s, _) ← rpc_connect p s; Ran s) = Ran s1 /\ good s1 /\ frame [m] q 0 s s1 /\ t_live s1 = t_live s /\
      (quiet = true -> open_at p s1)) as (s1 & E1 & G1 & F1 & L1 & O1).
  { destruct (f_connected n) eqn:Ec; [exists s; split; [done|]; split; [done|]; split; [apply frame_refl|]; split; [done|]; by exists n|].
    destruct (rpc_connect_ok [m] q p s n G Hp Hq) as (s1 & rc & E & H). exists s1. by rewrite E. }
  cbn [mbind run_bind] in E1. rewrite E1. cbn [mbind run_bind]. destruct (draw_alloc s1) as [s2 ok] eqn:Ed.
  destruct (draw_alloc_ok [m] q s1 s2 ok G1 Ed) as (-> & G2 & F2 & L2 & P2).
  assert (frame [m] q 0 s s2) as F by (by eapply frame_step). rewrite <- L1, <- L2 in Hm.
  assert (q < length (t_peers s2))%nat as Hq2 by (by rewrite (fr_len _ _ _ _ _ F)).
  destruct (fr_peers _ _ _ _ _ F p n Hp) as (n2 & Hp2 & _).
  assert (quiet = true -> f_connected n2 = true) as C2.
  { intros (n' & H' & ?)%O1. rewrite P2, H' in Hp2. congruence. }
  destruct (post_request_ok q p m (set_cmd_id cmd (ci_id (t_self s2))) data cb s2 n2 G2 Hp2 (open_frame _ _ _ _ _ _ Ho F) Hm)
    as (f0 & s3 & rc & H & G3 & F3 & Q3); [by rewrite (fr_len _ _ _ _ _ F)|].
  destruct (fr_peers _ _ _ _ _ F3 p n2 Hp2) as (n3 & Hp3 & _).
  exists (S f0), s3, (if rc <? 0 then -1 else 0). split; [|split; [done|split; [by eapply frame_step|intros Hq'; by rewrite (Q3 Hq' (C2 Hq'))]]].
  intros [|f] Hf; [lia|]. rewrite (peer_at _ _ _ Hp2). cbn [mbind run_bind]. unfold peer_process_send_list. rewrite one_request by done.
  cbn [r_msg r_dir r_cmd r_data r_size r_cb]. rewrite H by lia. cbn [mbind run_bind]. rewrite (idle_loop _ f p s3 n3) by done.
  by destruct (rc <? 0).
Qed.

Lemma without_sub m (l : list nat) : without m l ⊆ l.
Proof. intros x. by intros [_ ?]%list_elem_of_filter. Qed.

Lemma without_live m own p n s s' : own ⊆ t_live s -> frame [m] p n s s' -> without m own ⊆ t_live s'.
Proof. intros Ho F x [Hx Hin]%list_elem_of_filter. apply (fr_live _ _ _ _ _ F); [by rewrite list_elem_of_singleton|]. by apply Ho. Qed.

Lemma frame_weaken own own' p n s s' : frame own p n s s' -> own ⊆ own' -> frame own' p n s s'.
Proof. intros [A1 A2 A3 A4 Av A5] Ho. split; auto. Qed.

Lemma frame_in own p n s s' np : frame own p n s s' -> t_peers s !! p = Some np -> exists np', t_peers s' !! p = Some np' /\
  n_in np' = drop n (n_in np) /\ (f_connected np = true -> f_connected np' = true).
Proof. intros F H. destruct (fr_peers _ _ _ _ _ F p np H) as (n' & H' & [K1 K2 K3]). exists n'. unfold reads in K3. rewrite decide_True in K3 by done. auto. Qed.

Lemma good_alloc s : good s -> good (set_live s (t_next s :: t_live s) (S (t_next s))).
Proof. intros [A1 A2 A3 A4 A5 A6 A7]. split; cbn; auto. constructor; [lia|]. eapply Forall_impl; [|exact A5]. cbn. lia. Qed.

Lemma frame_fresh x own p n s s2 s' : frame (x :: own) p n s2 s' -> t_self s2 = t_self s -> t_peers s2 = t_peers s -> t_log s2 = t_log s ->
  os_avail (t_os s2) = os_avail (t_os s) -> (forall m, m ∈ t_live s -> m ∈ t_live s2 /\ m <> x) -> frame own p n s s'.
Proof.
  intros [A1 A2 A3 A4 Av A5] H1 H2 H3 Hv H4. rewrite H2 in *. split; try congruence; auto.
  - intros m Hm Hl. destruct (H4 m Hl). apply A4; [|done]. rewrite elem_of_cons. tauto.
  - intros np H. rewrite <- H3. auto.
Qed.

Lemma frame_log0 own p s s' np : frame own p 0 s s' -> t_peers s !! p = Some np -> t_log s' = t_log s.
Proof. intros F H. by rewrite (fr_log _ _ _ _ _ F np H), add_data_nil. Qed.

(** A call with the message [m], and what follows. *)
Lemma frame_call own m p n1 n2 s s1 s' np : m ∈ own -> t_peers s !! p = Some np -> (n1 <= length (n_in np))%nat ->
  frame [m] p n1 s s1 -> frame (without m own) p n2 s1 s' -> frame own p (n1 + n2) s s'.
Proof.
  intros Hm Hp Hn F1 F2. eapply frame_trans; [done|done| |].
  - eapply frame_weaken; [done|]. by intros x ->%list_elem_of_singleton.
  - eapply frame_weaken; [done|]. apply without_sub.
Qed.

Lemma note_data_eq d s : note_data d s = set_log s (add_data d (t_log s)).
Proof. unfold note_data, add_data. destruct (t_log s) as [|[[] ?] ?] eqn:E; [|done]. rewrite <- E. by destruct s. Qed.

(** A tree that [fits] returns from every state with enough bytes, reads just
    these, and leaves the other peers and the messages of others alone. *)
Definition performs (a : act) : Prop := forall own R p n s np, good s -> t_peers s !! p = Some np -> f_connected np = true ->
  (n <= length (n_in np))%nat -> own ⊆ t_live s -> within (length (t_peers s)) a -> fits own p n R a ->
  exists f0 s' rc, (forall f, (f0 <= f)%nat -> perform f a s = Ran (s', rc)) /\ R rc /\ good s' /\ frame own p n s s'.

Lemma performs_alloc k : (forall m, performs (k m)) -> performs (a_alloc k).
Proof.
  intros IHk own R p n s np G Hp Hc Hn Ho Hw Hf; cbn [fits within] in Hw, Hf.
  destruct (draw_alloc s) as [s1 ok] eqn:Ed. destruct (draw_alloc_ok own p s s1 ok G Ed) as (-> & G1 & F1 & L1 & P1).
  set (x := t_next s1). assert (x ∉ t_live s) as Hx.
  { intros Hx. rewrite <- L1 in Hx. pose proof (gd_next s1 G1) as Hb. rewrite list.Forall_forall in Hb. specialize (Hb x Hx). unfold x in Hb. lia. }
  destruct (IHk (Some x) (x :: own) R p n (set_live s1 (x :: t_live s1) (S x)) np) as (f0 & s' & rc & H & Hr & G' & F);
    [by apply good_alloc|by cbn; rewrite P1|done|done| |by cbn; rewrite P1|apply Hf; auto|].
  { cbn. rewrite L1. intros y [->|Hy]%elem_of_cons; [apply list_elem_of_here|apply list_elem_of_further; auto]. }
  exists (S f0), s', rc. split; [|split; [done|split; [done|]]].
  - intros [|f] Hle; [lia|]. cbn [perform]. unfold msg_buf_alloc. rewrite Ed. apply H. lia.
  - eapply frame_fresh; [exact F|apply F1|exact P1|apply (frame_log0 own p s s1 np F1 Hp)|apply F1|].
    cbn. rewrite L1. intros y Hy. split; [by apply list_elem_of_further|]. intros ->. done.
Qed.

Lemma performs_free m k : performs k -> performs (a_free m k).
Proof.
  intros IHk own R p n s np G Hp Hc Hn Ho Hw Hf; cbn [fits within] in Hw, Hf.
  destruct Hf as [Hm Hf]. destruct (free_msg_ok [m] p m s G) as (s1 & E & G1 & F1 & P1); [auto|apply list_elem_of_here|].
  destruct (IHk (without m own) R p n s1 np) as (f0 & s' & rc & H & Hr & G' & F); auto; try (by rewrite P1).
  { by eapply without_live. }
  exists (S f0), s', rc. split; [|split; [done|split; [done|]]].
  + intros [|f] Hle; [lia|]. cbn [perform]. rewrite E. apply H. lia.
  + by eapply (frame_call own m p 0 n); [|exact Hp|lia| |].
Qed.

Lemma performs_send q m cmd data cb k : performs cb -> (forall rc, performs (k rc)) -> performs (a_send q m cmd data cb k).
Proof.
  intros IHcb IHk own R p n s np G Hp Hc Hn Ho Hw Hf; cbn [fits within] in Hw, Hf.
  destruct Hf as (Hm & Hfc & Hfk), Hw as (Hq & Hwc & Hwk).
  assert (runs [m] p (length (t_peers s)) (fun rc => quiet = true -> 0 <= rc) cb) as Hcb.
  { intros s0 G0 (n0 & Hp0 & Hc0) Hl0 Hown. apply (IHcb [m] (fun rc => quiet = true -> 0 <= rc) p 0%nat s0 n0); auto; [lia|by rewrite Hl0]. }
  destruct (rpc_send_ok p q m cmd data cb s G Hq) as (f1 & s1 & rc1 & E & G1 & F1 & Q1); [by exists np|by apply Ho|done|].
  destruct (frame_in _ _ _ _ _ np F1 Hp) as (np1 & Hp1 & Hin & Hc1). rewrite drop_0 in Hin.
  destruct (IHk rc1 (without m own) R p n s1 np1) as (f0 & s' & rc & H & Hr & G' & F); auto.
  { by rewrite Hin. }
  { by eapply without_live. }
  { rewrite (fr_len _ _ _ _ _ F1). auto. }
  exists (S (f1 + f0)), s', rc. split; [|split; [done|split; [done|]]].
  + intros [|f] Hle; [lia|]. cbn [perform]. rewrite E by lia. apply H. lia.
  + by eapply (frame_call own m p 0 n); [|exact Hp|lia| |].
Qed.

Lemma performs_send_direct q m data cb k : performs cb -> (forall rc, performs (k rc)) -> performs (a_send_direct q m data cb k).
Proof.
  intros IHcb IHk own R p n s np G Hp Hc Hn Ho Hw Hf; cbn [fits within] in Hw, Hf.
  destruct Hf as (Hm & Hfc & Hfk), Hw as (Hq & Hwc & Hwk). apply lookup_lt_is_Some in Hq as [nq Hq].
  assert (forall f s1 rc1, rpc_send_direct (perform f) q m data cb s = Ran (s1, rc1) -> perform (S f) (a_send_direct q m data cb k) s = perform f (k rc1) s1)
    as Hstep by (intros f s1 rc1 E; cbn [perform]; by rewrite E).
  unfold rpc_send_direct in Hstep. rewrite (peer_at s q nq Hq) in Hstep. cbn [mbind run_bind] in Hstep.
  destruct (f_connected nq).
  + destruct (sock_send_ok own p q data s nq G Hq) as (s1 & rc1 & E & G1 & F1 & L1 & _).
    rewrite E in Hstep. cbn [mbind run_bind] in Hstep.
    destruct (frame_in _ _ _ _ _ np F1 Hp) as (np1 & Hp1 & Hin & Hc1). rewrite drop_0 in Hin.
    destruct (rc1 <? 0) eqn:Er.
    * destruct (IHk (-1) own R p n s1 np1) as (f0 & s' & rc & H & Hr & G' & F); auto; rewrite ?Hin, ?L1, ?(fr_len _ _ _ _ _ F1); auto.
      { exact (Hfk (-1)). }
      exists (S f0), s', rc. split; [|split; [done|split; [done|by eapply (frame_trans own p 0 n); [exact Hp|lia| |]]]].
      intros [|f] Hle; [lia|]. rewrite (Hstep f s1 (-1)) by done. apply H. lia.
    * assert (frame [m] p 0 s s1) as F1' by (by destruct (sock_send_ok [m] p q data s nq G Hq) as (? & ? & E' & _ & F' & _); rewrite E in E'; injection E' as <- _).
      destruct (IHcb [m] (Z.le 0) p 0%nat s1 np1) as (f1 & s2 & rc2 & H2 & Hr2 & G2 & F2); auto; rewrite ?Hin, ?L1, ?(fr_len _ _ _ _ _ F1); auto.
      { lia. }
      { intros x ->%list_elem_of_singleton. auto. }
      assert (frame [m] p 0 s s2) as F12 by (by eapply (frame_trans [m] p 0 0); [exact Hp|lia| |]).
      destruct (frame_in _ _ _ _ _ np F12 Hp) as (np2 & Hp2 & Hin2 & Hc2). rewrite drop_0 in Hin2.
      destruct (IHk 0 (without m own) R p n s2 np2) as (f0 & s' & rc & H & Hr & G' & F); auto.
      { by rewrite Hin2. }
      { by eapply without_live. }
      { rewrite (fr_len _ _ _ _ _ F12). auto. }
      { exact (Hfk 0). }
      exists (S (f1 + f0)), s', rc. split; [|split; [done|split; [done|by eapply (frame_call own m p 0 n); [|exact Hp|lia| |]]]].
      intros [|f] Hle; [lia|]. rewrite (Hstep f s2 0); [apply H; lia|]. rewrite H2 by lia. cbn. by replace (rc2 <? 0) with false by lia.
  + destruct (IHk (-1) own R p n s np) as (f0 & s' & rc & H & Hr & G' & F); auto.
    { exact (Hfk (-1)). }
    exists (S f0), s', rc. split; [|done]. intros [|f] Hle; [lia|]. rewrite (Hstep f s (-1)) by done. apply H. lia.
Qed.

Lemma performs_receive_direct q m size cb k : (forall d, performs (cb d)) -> (forall rc, performs (k rc)) -> performs (a_receive_direct q m size cb k).
Proof.
  intros IHcb IHk own R p n s np G Hp Hc Hn Ho Hw Hf; cbn [fits within] in Hw, Hf.
  destruct Hf as (-> & Hm & Hsz & Hfc & Hfk), Hw as (Hq & Hwc & Hwk).
  destruct (sock_recv_ok [m] p size s np G Hp) as (s1 & E & G1 & L1 & Lg & F1); [lia|].
  set (d := take size (n_in np)) in *. set (s1' := set_log s1 (add_data d (t_log s))) in *.
  assert (note_data d s1 = s1') as En by (rewrite note_data_eq, Lg; done).
  assert (good s1') as G1' by (by destruct G1; split).
  destruct (frame_in _ _ _ _ _ np F1 Hp) as (np1 & Hp1 & Hin & Hc1).
  destruct (IHcb d [m] (Z.le 0) p 0%nat s1' np1) as (f1 & s2 & rc2 & H2 & Hr2 & G2 & F2); auto.
  { lia. }
  { intros x ->%list_elem_of_singleton. cbn. rewrite L1. auto. }
  { rewrite (fr_len _ _ _ _ _ F1). auto. }
  assert (frame [m] p size s s2) as F12.
  { replace size with (size + 0)%nat by lia. by eapply frame_trans; [exact Hp|lia| |]. }
  destruct (frame_in _ _ _ _ _ np F12 Hp) as (np2 & Hp2 & Hin2 & Hc2).
  destruct (IHk 0 (without m own) R p (n - size)%nat s2 np2) as (f0 & s' & rc & H & Hr & G' & F); auto.
  { rewrite Hin2, length_drop. lia. }
  { by eapply without_live. }
  { rewrite (fr_len _ _ _ _ _ F12). auto. }
  exists (S (f1 + f0)), s', rc. split; [|split; [done|split; [done|]]].
  + intros [|f] Hle; [lia|]. cbn [perform]. unfold rpc_receive_direct. rewrite (peer_at s p np Hp). cbn [mbind run_bind]. rewrite Hc, E.
    cbn [mbind run_bind]. replace (0 <? 0) with false by done. rewrite En, H2 by lia. cbn [mbind run_bind].
    replace (rc2 <? 0) with false by lia. apply H. lia.
  + replace n with (size + (n - size))%nat by lia. by eapply frame_call; [|exact Hp|lia| |].
Qed.

Lemma perform_keeps_ok a : performs a.
Proof.
  induction a as [rc|k IHk|m k IHk|q m cmd data cb IHcb k IHk|q m cmd size cb IHcb k IHk|q m data cb IHcb k IHk|q m size cb IHcb k IHk];
    [|by apply performs_alloc|by apply performs_free|by apply performs_send| |by apply performs_send_direct|by apply performs_receive_direct].
  - intros own R p n s np G Hp Hc Hn Ho Hw [-> Hr]. exists 1%nat, s, rc. split; [by intros [|f] ?; [lia|]|]. split; [done|].
    split; [done|apply frame_refl].
  - intros own R p n s np G Hp Hc Hn Ho Hw [].
Qed.

(** ** Streams of messages *)

(** A message of [rpc_send]: the command, then its data. *)
Definition wire : Type := rpc_cmd * list Z.

Definition stream (ms : list wire) : list Z := concat (map (fun '(c, d) => cmd_bytes c ++ d) ms).

(** The message as a service sees it: the id is the one of the peer. *)
Definition tag (id : Z) (w : wire) : wire := (set_cmd_id (fst w) id, snd w).

(** The messages of a peer that services were called for. *)
Definition delivered (p : nat) (l : list (nat * rpc_cmd * list Z)) : list wire :=
  rev (map (fun '(_, c, d) => (c, d)) (filter (fun x => fst (fst x) = p) l)).

Lemma delivered_cons p q c d l : delivered p ((q, c, d) :: l) = if decide (q = p) then delivered p l ++ [(c, d)] else delivered p l.
Proof. unfold delivered. rewrite filter_cons. cbn. by destruct (decide (q = p)). Qed.

Section streams.
Context (rpc_commands : list (Z * (nat -> rpc_cmd -> act))) (pad_size : nat).
(** The size of the data that follow a command, known from its pad. *)
Context (size_of : rpc_cmd -> nat) (size_of_id : forall c id, size_of (set_cmd_id c id) = size_of c).

Abbreviation service_of c := (List.find (fun x => c_cmd c =? fst x) rpc_commands).

Record wire_ok (w : wire) : Prop := {
  wk_cmd : cmd_ok pad_size (fst w);
  wk_known : is_Some (service_of (fst w));
  wk_data : length (snd w) = size_of (fst w)
}.

(** Every service reads the data of its command. *)
Definition services_ok (R : Z -> Prop) (np : nat) : Prop := forall p c code f, (p < np)%nat -> service_of c = Some (code, f) ->
  fits [] p (size_of c) R (f p c) /\ within np (f p c).

(** What peer [p] has sent, as far as the receiver knows it. *)
Record pending (sent : nat -> list wire) (s : rpc_server) (p : nat) (n : node_id) (rest : list wire) : Prop := {
  pd_in : n_in n = stream rest;
  pd_ok : Forall wire_ok rest;
  pd_sent : map (tag (n_id n)) (sent p) = delivered p (t_log s) ++ map (tag (n_id n)) rest
}.

Definition conserved (sent : nat -> list wire) (s : rpc_server) : Prop :=
  forall p n, t_peers s !! p = Some n -> exists rest, pending sent s p n rest.

Record steady (p : nat) (s s' : rpc_server) : Prop := {
  sd_len : length (t_peers s') = length (t_peers s);
  sd_peers : forall q n, t_peers s !! q = Some n -> exists n', t_peers s' !! q = Some n' /\ n_id n' = n_id n /\
    (f_connected n = true -> f_connected n' = true) /\ (q <> p -> n_in n' = n_in n)
}.

Lemma steady_trans p s s1 s2 : steady p s s1 -> steady p s1 s2 -> steady p s s2.
Proof.
  intros [A1 A2] [B1 B2]. split; [congruence|]. intros q n H. destruct (A2 q n H) as (n1 & H1 & I1 & C1 & N1).
  destruct (B2 q n1 H1) as (n2 & H2 & I2 & C2 & N2). exists n2. split; [done|]. split; [congruence|]. split; [auto|]. intros. rewrite N2, N1; auto.
Qed.

Lemma frame_steady own p n s s' : frame own p n s s' -> steady p s s'.
Proof.
  intros [A1 A2 A3 A4 Av A5]. split; [done|]. intros q nq H. destruct (A2 q nq H) as (n' & H' & [K1 K2 K3]). exists n'. split; [done|].
  split; [done|]. split; [done|]. intros Hq. rewrite K3. unfold reads. by rewrite decide_False.
Qed.

Lemma draw_avail_ok q s s' b : good s -> draw_avail s = (s', b) -> good s' /\ steady q s s' /\ t_peers s' = t_peers s /\ t_log s' = t_log s /\
  (os_avail (t_os s) = [] -> b = true /\ os_avail (t_os s') = []).
Proof.
  intros [] [= <- <-]. split; [by split|]. split; [|split; [done|split; [done|by intros ->]]].
  split; [done|]. intros r n H. by exists n.
Qed.

(** One command and its data. *)
Lemma event_step R s p np c d rest : good s -> services_ok R (length (t_peers s)) -> t_peers s !! p = Some np -> f_connected np = true ->
  n_in np = (cmd_bytes c ++ d) ++ rest -> wire_ok (c, d) -> exists f0 s1 s' rc,
  sock_recv p (sizeof_rpc_cmd pad_size) s = Ran (s1, cmd_bytes c, 0) /\
  (exists n1, t_peers s1 !! p = Some n1 /\ n_id n1 = n_id np) /\
  (forall f, (f0 <= f)%nat -> rpc_process_cmd rpc_commands f p (set_cmd_id c (n_id np))
     (set_log s1 ((p, set_cmd_id c (n_id np), []) :: t_log s1)) = Ran (s', if rc <? 0 then -1 else 0)) /\
  R rc /\ good s' /\ steady p s s' /\ t_log s' = (p, set_cmd_id c (n_id np), d) :: t_log s /\ os_avail (t_os s') = os_avail (t_os s) /\
  exists n', t_peers s' !! p = Some n' /\ n_in n' = rest.
Proof.
  intros G Hs Hp Hc Hin [Wc [[code f] Wk] Wd]. cbn [fst snd] in *.
  assert (length (cmd_bytes c) = sizeof_rpc_cmd pad_size) as Hlen by (by apply cmd_bytes_length).
  destruct (sock_recv_ok [] p (sizeof_rpc_cmd pad_size) s np G Hp) as (s1 & E & G1 & L1 & Lg & F1).
  { rewrite Hin, !length_app. lia. }
  rewrite Hin, <- app_assoc, take_app_length' in E, F1 by done.
  destruct (frame_in _ _ _ _ _ np F1 Hp) as (n1 & Hp1 & Hin1 & Hc1). cbn in Hp1.
  rewrite Hin, <- app_assoc, drop_app_length' in Hin1 by done.
  destruct (fr_peers _ _ _ _ _ F1 p np Hp) as (n1' & Hp1' & [Hid _ _]). cbn in Hp1'. rewrite Hp1 in Hp1'. injection Hp1' as <-.
  set (cmd := set_cmd_id c (n_id np)). set (s2 := set_log s1 ((p, cmd, []) :: t_log s1)).
  assert (good s2) as G2 by (by destruct G1; split).
  assert (service_of cmd = Some (code, f)) as Wk' by done.
  pose proof (fr_len _ _ _ _ _ F1) as Hl. cbn in Hl.
  destruct (Hs p cmd code f) as [Hf Hw]; [by eapply lookup_lt_Some|done|].
  unfold cmd in Hf at 1. rewrite size_of_id, <- Wd in Hf.
  destruct (perform_keeps_ok (f p cmd) [] R p (length d) s2 n1) as (f0 & s3 & rc & H & Hr & G3 & F3); auto.
  { rewrite Hin1, length_app. lia. }
  { intros x Hx. by apply not_elem_of_nil in Hx. }
  { cbn. by rewrite Hl. }
  exists f0, s1, s3, rc. split; [done|]. split; [by exists n1|]. split; [|split; [done|split; [done|split; [|split; [|split]]]]].
  - intros f1 Hle. unfold rpc_process_cmd. rewrite Wk'. rewrite H by done. done.
  - eapply steady_trans; [eapply (frame_steady _ _ _ _ _ F1)|]. eapply steady_trans; [|eapply (frame_steady _ _ _ _ _ F3)].
    split; [done|]. intros q n Hq. by exists n.
  - rewrite (fr_log _ _ _ _ _ F3 n1 Hp1), Hin1, take_app_length. cbn. by rewrite Lg.
  - rewrite (fr_avail _ _ _ _ _ F3). exact (fr_avail _ _ _ _ _ F1).
  - destruct (frame_in _ _ _ _ _ n1 F3 Hp1) as (n3 & Hp3 & Hin3 & _). exists n3. split; [done|]. by rewrite Hin3, Hin1, drop_app_length.
Qed.

Lemma conserved_step sent p s s' c d n n' rest : conserved sent s -> steady p s s' -> t_log s' = (p, set_cmd_id c (n_id n), d) :: t_log s ->
  t_peers s !! p = Some n -> t_peers s' !! p = Some n' -> pending sent s p n ((c, d) :: rest) -> n_in n' = stream rest ->
  pending sent s' p n' rest /\ conserved sent s'.
Proof.
  intros Hs S Hlog Hp Hp' [P1 P2 P3] Hin.
  assert (pending sent s' p n' rest) as P.
  { destruct (sd_peers _ _ _ S p n Hp) as (n1 & H1 & I1 & _). rewrite Hp' in H1. injection H1 as <-. split; [done|by apply list.Forall_cons in P2 as [_ ?]|].
    rewrite I1, P3, Hlog, delivered_cons, decide_True, <- app_assoc by done. done. }
  split; [done|]. intros q nq' Hq'. destruct (decide (q = p)) as [->|Hne]; [rewrite Hp' in Hq'; injection Hq' as <-; by exists rest|].
  assert (is_Some (t_peers s !! q)) as [nq Hq] by (apply lookup_lt_is_Some; rewrite <- (sd_len _ _ _ S); by eapply lookup_lt_Some).
  destruct (sd_peers _ _ _ S q nq Hq) as (n1 & H1 & I1 & _ & N1). rewrite Hq' in H1. injection H1 as <-.
  destruct (Hs q nq Hq) as (r & [R1 R2 R3]). exists r. split; [by rewrite N1|done|]. rewrite I1, R3, Hlog, delivered_cons, decide_False by done. done.
Qed.

Lemma conserved_same sent s s1 : conserved sent s -> t_peers s1 = t_peers s -> t_log s1 = t_log s -> conserved sent s1.
Proof. intros H P L q n Hq. rewrite P in Hq. destruct (H q n Hq) as (r & [R1 R2 R3]). exists r. split; [done|done|by rewrite L]. Qed.

(** No command has arrived. *)
Lemma event_idle s s1 p n b f : draw_avail s = (s1, b) -> t_peers s1 !! p = Some n -> b = false \/ n_in n = [] -> (1 <= f)%nat ->
  rpc_process_event_peer rpc_commands pad_size f p s = Ran (s1, 0).
Proof.
  intros Ed Hp Hb Hf. destruct f as [|f]; [lia|]. cbn [rpc_process_event_peer]. unfold socket_recv_rpc_cmd. rewrite Ed, (peer_at s1 p n Hp).
  cbn [mbind run_bind]. destruct Hb as [->| ->]; [done|]. by rewrite bool_decide_eq_true_2, andb_false_r.
Qed.

(** A command has arrived: it is processed, and the loop goes on. *)
Lemma event_turn s s1 s2 s3 p n n2 c d rest rc f : draw_avail s = (s1, true) -> t_peers s1 !! p = Some n -> n_in n = stream ((c, d) :: rest) -> wire_ok (c, d) ->
  sock_recv p (sizeof_rpc_cmd pad_size) s1 = Ran (s2, cmd_bytes c, 0) -> t_peers s2 !! p = Some n2 -> n_id n2 = n_id n ->
  rpc_process_cmd rpc_commands f p (set_cmd_id c (n_id n)) (set_log s2 ((p, set_cmd_id c (n_id n), []) :: t_log s2)) = Ran (s3, if rc <? 0 then -1 else 0) ->
  rpc_process_event_peer rpc_commands pad_size (S f) p s =
    if rc <? 0 then Ran (s3, -1) else rpc_process_event_peer rpc_commands pad_size f p s3.
Proof.
  intros Ed Hp Hin Wk E Hp2 Hi2 H. cbn [rpc_process_event_peer]. unfold socket_recv_rpc_cmd. rewrite Ed, (peer_at s1 p n Hp). cbn [mbind run_bind].
  rewrite bool_decide_eq_false_2.
  - cbn [andb negb]. rewrite E. cbn [mbind run_bind]. replace (0 <? 0) with false by done.
    rewrite (cmd_roundtrip pad_size) by apply Wk. replace (0 <? 0) with false by done. rewrite (peer_at s2 p n2 Hp2). cbn [mbind run_bind].
    rewrite Hi2, H. cbn [mbind run_bind]. by destruct (rc <? 0).
  - rewrite Hin. unfold stream. cbn. rewrite <- app_assoc. intros [Hb _]%app_eq_nil. pose proof (cmd_bytes_length _ _ (wk_cmd _ Wk)) as Hl.
    cbn in Hl. by rewrite Hb in Hl.
Qed.

(** The commands of one peer. *)
Lemma event_peer_ok R sent p : forall rest s n, good s -> services_ok R (length (t_peers s)) -> conserved sent s ->
  t_peers s !! p = Some n -> f_connected n = true -> pending sent s p n rest ->
  exists f0 s' rc, (forall f, (f0 <= f)%nat -> rpc_process_event_peer rpc_commands pad_size f p s = Ran (s', rc)) /\
    good s' /\ steady p s s' /\ conserved sent s' /\
    (os_avail (t_os s) = [] -> os_avail (t_os s') = [] /\
      ((forall rc, R rc -> 0 <= rc) -> exists n', t_peers s' !! p = Some n' /\ n_in n' = [])).
Proof.
  induction rest as [|[c d] rest IH]; intros s n G Hs Hcon Hp Hc P; destruct (draw_avail s) as [s1 b] eqn:Ed;
    destruct (draw_avail_ok p s s1 b G Ed) as (G1 & S1 & P1 & L1 & A1); pose proof (conserved_same sent s s1 Hcon P1 L1) as Hcon1;
    rewrite <- P1 in Hp, Hs; pose proof (pd_in _ _ _ _ _ P) as Hin.
  - exists 1%nat, s1, 0. split; [intros; eapply event_idle; [exact Ed|exact Hp|by right|done]|]. split; [done|]. split; [done|]. split; [done|].
    intros Hav. split; [by apply A1|]. intros _. by exists n.
  - destruct b.
    + assert (pending sent s1 p n ((c, d) :: rest)) as Pd by (destruct P as [R1 R2 R3]; split; [done|done|by rewrite L1]).
      pose proof (pd_ok _ _ _ _ _ P) as Hok. apply list.Forall_cons in Hok as [Wk _].
      destruct (event_step R s1 p n c d (stream rest) G1 Hs Hp Hc Hin Wk)
        as (f1 & s2 & s3 & rc & E & (n2 & Hp2 & Hi2) & H & Hr & G3 & S3 & Lg3 & A3 & n3 & Hp3 & Hin3).
      destruct (conserved_step sent p s1 s3 c d n n3 rest Hcon1 S3 Lg3 Hp Hp3 Pd Hin3) as [P3 Hcon3].
      assert (steady p s s3) as St by (by eapply steady_trans).
      destruct (sd_peers _ _ _ S3 p n Hp) as (n3' & Hp3' & _ & Hc3 & _). rewrite Hp3 in Hp3'. injection Hp3' as <-.
      rewrite <- (sd_len _ _ _ S3) in Hs.
      destruct (IH s3 n3 G3 Hs Hcon3 Hp3 (Hc3 Hc) P3) as (f2 & s4 & rc4 & H4 & G4 & S4 & C4 & A4).
      assert (forall f, (f1 <= f)%nat -> rpc_process_event_peer rpc_commands pad_size (S f) p s =
        if rc <? 0 then Ran (s3, -1) else rpc_process_event_peer rpc_commands pad_size f p s3) as Hstep by (intros; eapply event_turn; eauto).
      destruct (rc <? 0) eqn:Er.
      * exists (S f1), s3, (-1). split; [by intros [|f] Hf; [lia|]; apply Hstep; lia|]. split; [done|]. split; [done|]. split; [done|].
        intros Hav. split; [rewrite A3; by apply A1|]. intros HR. apply HR in Hr. lia.
      * exists (S (f1 + f2)), s4, rc4. split; [intros [|f] Hf; [lia|]; rewrite Hstep by lia; apply H4; lia|].
        split; [done|]. split; [by eapply steady_trans|]. split; [done|]. intros Hav. apply A4. rewrite A3. by apply A1.
    + exists 1%nat, s1, 0. split; [intros; eapply event_idle; eauto|]. split; [done|]. split; [done|]. split; [done|].
      intros Hav. by apply A1 in Hav as [? _].
Qed.

Lemma steady_kept ps s s' : (forall q n, t_peers s !! q = Some n -> exists n', t_peers s' !! q = Some n' /\ n_id n' = n_id n /\
    (f_connected n = true -> f_connected n' = true) /\ (q ∉ ps -> n_in n' = n_in n)) ->
  forall p s0, steady p s0 s -> forall q n, t_peers s0 !! q = Some n -> exists n', t_peers s' !! q = Some n' /\ n_id n' = n_id n /\
    (f_connected n = true -> f_connected n' = true) /\ (q ∉ p :: ps -> n_in n' = n_in n).
Proof.
  intros H p s0 S q n Hq. destruct (sd_peers _ _ _ S q n Hq) as (n1 & H1 & I1 & C1 & N1). destruct (H q n1 H1) as (n2 & H2 & I2 & C2 & N2).
  exists n2. split; [done|]. split; [congruence|]. split; [auto|]. intros [Hp Hps]%not_elem_of_cons. rewrite N2, N1; auto.
Qed.

(** The commands of all peers that are connected. *)
Lemma process_peers_ok R sent : forall ps s, good s -> services_ok R (length (t_peers s)) -> conserved sent s ->
  Forall (fun p => p < length (t_peers s))%nat ps -> NoDup ps ->
  exists f0 s', (forall f, (f0 <= f)%nat -> process_peers rpc_commands pad_size f ps s = Ran (s', 0)) /\
    good s' /\ length (t_peers s') = length (t_peers s) /\ conserved sent s' /\
    (forall q n, t_peers s !! q = Some n -> exists n', t_peers s' !! q = Some n' /\ n_id n' = n_id n /\
      (f_connected n = true -> f_connected n' = true) /\ (q ∉ ps -> n_in n' = n_in n)) /\
    (os_avail (t_os s) = [] -> (forall rc, R rc -> 0 <= rc) -> forall p n, p ∈ ps -> t_peers s !! p = Some n -> f_connected n = true ->
      exists n', t_peers s' !! p = Some n' /\ n_in n' = []).
Proof.
  induction ps as [|p ps IH]; intros s G Hs Hcon Hl Hnd.
  - exists 0%nat, s. split; [done|]. split; [done|]. split; [done|]. split; [done|]. split; [intros q n H; by exists n|].
    intros _ _ p n Hp. by apply not_elem_of_nil in Hp.
  - apply list.Forall_cons in Hl as [Hp Hl]. apply list.NoDup_cons in Hnd as [Hnp Hnd]. apply lookup_lt_is_Some in Hp as [n Hp].
    cbn [process_peers]. rewrite (peer_at s p n Hp). cbn [mbind run_bind]. destruct (f_connected n) eqn:Ec.
    + destruct (Hcon p n Hp) as (rest & Pd). destruct (event_peer_ok R sent p rest s n G Hs Hcon Hp Ec Pd) as (f1 & s1 & rc & H1 & G1 & S1 & C1 & A1).
      rewrite <- (sd_len _ _ _ S1) in Hs, Hl |- *. destruct (IH s1 G1 Hs C1 Hl Hnd) as (f2 & s2 & H2 & G2 & L2 & C2 & K2 & A2).
      exists (f1 + f2)%nat, s2. split; [intros f Hf; rewrite H1 by lia; apply H2; lia|]. split; [done|]. split; [done|]. split; [done|].
      split; [by eapply steady_kept|]. intros Hav HR q nq [->|Hq]%elem_of_cons Hnq Hcq.
      * destruct (A1 Hav) as [_ (n1 & Hn1 & E1)]; [done|]. destruct (K2 p n1 Hn1) as (n2 & Hn2 & _ & _ & E2). exists n2. split; [done|]. rewrite E2; auto.
      * destruct (sd_peers _ _ _ S1 q nq Hnq) as (n1 & Hn1 & _ & Hc1 & _). apply (A2 (proj1 (A1 Hav)) HR q n1 Hq Hn1). auto.
    + destruct (IH s G Hs Hcon Hl Hnd) as (f2 & s2 & H2 & G2 & L2 & C2 & K2 & A2). exists f2, s2. split; [done|]. split; [done|]. split; [done|].
      split; [done|]. split.
      * intros q nq Hq. destruct (K2 q nq Hq) as (n' & ? & ? & ? & E). exists n'. split; [done|]. split; [done|]. split; [done|].
        intros [_ ?]%not_elem_of_cons. auto.
      * intros Hav HR q nq [->|Hq]%elem_of_cons Hnq Hcq; [congruence|]. by eapply A2.
Qed.
End streams.

(** ** Sending a message *)

(** [default_completion_callback] *)
Definition default_cb (m : nat) : act := a_free m (a_ret 0).

Lemma free_msg_dead m s s' : free_msg m s = Ran s' -> (m ∉ t_live s') /\ t_peers s' = t_peers s /\ t_self s' = t_self s.
Proof. unfold free_msg. destruct (decide _); [|done]. intros [= <-]. split; [|done]. cbn. by intros [? _]%list_elem_of_filter. Qed.

Record written (p m : nat) (n : node_id) (w : list Z) (s s' : rpc_server) (rc : Z) : Prop := {
  wr_self : t_self s' = t_self s;
  wr_dead : m ∉ t_live s';
  wr_rc : rc = 0 \/ rc = -1;
  wr_out : rc = 0 -> t_peers s' !! p = Some (set_out n (n_out n ++ w));
  wr_others : forall q, q <> p -> t_peers s' !! q = t_peers s !! q
}.

Lemma post_request_writes f p m cmd data s s' rc n : good s -> t_peers s !! p = Some n -> f_connected n = true -> m ∈ t_live s ->
  rpc_post_request (perform f) p (mk_req m io_send cmd data (length data) (fun _ => default_cb m)) s = Ran (s', rc) ->
  written p m n (cmd_bytes cmd ++ data) s s' rc /\ good s'.
Proof.
  intros G Hp Hc Hm. unfold rpc_post_request. cbn [r_cmd r_msg r_dir r_data r_cb]. pose proof (lookup_lt_Some _ _ _ Hp) as Hlt.
  destruct (sock_send_open_ok [] p p (cmd_bytes cmd) s n G Hp) as (s1 & rc1 & E1 & G1 & F1 & L1 & R1 & (n1 & P1 & N1) & _). rewrite E1. cbn [mbind run_bind].
  rewrite <- L1 in Hm. assert (forall q, q <> p -> t_peers s1 !! q = t_peers s !! q) as O1 by (intros; rewrite P1; by apply list_lookup_insert_ne).
  assert (m ∈ [m]) as Hm1 by apply list_elem_of_here.
  assert (forall s0 s2, good s0 -> m ∈ t_live s0 -> free_msg m s0 = Ran s2 -> good s2) as Hg.
  { intros s0 s2 G0 H0 E0. destruct (free_msg_ok [m] p m s0 G0 H0 Hm1) as (s3 & E3 & G3 & _). congruence. }
  destruct (Z.ltb_spec rc1 0) as [Hr|Hr].
  { destruct (free_msg m s1) as [s2| | |] eqn:E2; try done. intros [= <- <-]. destruct (free_msg_dead _ _ _ E2) as (D & P & Sf).
    split; [|by eapply Hg]. split; [rewrite Sf; apply F1|done|lia|lia|]. intros. rewrite P. auto. }
  rewrite (N1 Hc) in P1 by lia. assert (t_peers s1 !! p = Some (set_out n (n_out n ++ cmd_bytes cmd))) as Hp1 by (rewrite P1; by apply list_lookup_insert_eq).
  destruct (sock_send_open_ok [] p p data s1 _ G1 Hp1) as (s2 & rc2 & E2 & G2 & F2 & L2 & R2 & (n2 & P2 & N2) & _). rewrite E2. cbn [mbind run_bind].
  rewrite <- L2 in Hm. assert (t_self s2 = t_self s) as Sf2 by (rewrite (fr_self _ _ _ _ _ F2); apply F1).
  assert (forall q, q <> p -> t_peers s2 !! q = t_peers s !! q) as O2 by (intros; rewrite P2, list_lookup_insert_ne by done; auto).
  destruct (Z.ltb_spec rc2 0) as [Hr2|Hr2].
  { destruct (free_msg m s2) as [s3| | |] eqn:E3; try done. intros [= <- <-]. destruct (free_msg_dead _ _ _ E3) as (D & P & Sf).
    split; [|by eapply Hg]. split; [congruence|done|lia|lia|]. intros. rewrite P. auto. }
  unfold rpc_cb_request_posted, default_cb. destruct f as [|[|f]]; cbn [perform mbind run_bind]; try done; destruct (free_msg m s2) as [s3| | |] eqn:E3; try done.
  intros [= <- <-]. destruct (free_msg_dead _ _ _ E3) as (D & P & Sf). split; [|by eapply Hg]. split; [congruence|done|by left| |intros; rewrite P; auto].
  intros _. rewrite P, P2, (N2 Hc), list_lookup_insert_eq by (done || lia || by rewrite P1, length_insert). cbn. by rewrite <- app_assoc.
Qed.

(** A [rpc_send] that returns 0 has written the command and the data; whatever
    it returns, the message is freed. *)
Lemma rpc_send_writes f p m cmd data s s' rc n : good s -> t_peers s !! p = Some n -> f_connected n = true -> m ∈ t_live s ->
  rpc_send (perform f) f p m cmd data (default_cb m) s = Ran (s', rc) ->
  good s' /\ written p m n (cmd_bytes (set_cmd_id cmd (ci_id (t_self s))) ++ data) s s' rc.
Proof.
  intros G Hp Hc Hm. unfold rpc_send, post. rewrite (peer_at s p n Hp). cbn [mbind run_bind]. rewrite Hc. cbn [mbind run_bind].
  destruct (draw_alloc s) as [s1 ok] eqn:Ed. destruct (draw_alloc_ok [] p s s1 ok G Ed) as (-> & G1 & F1 & L1 & P1).
  rewrite <- P1 in Hp. rewrite <- L1 in Hm. rewrite (peer_at s1 p n Hp). cbn [mbind run_bind]. unfold peer_process_send_list.
  destruct f as [|f].
  { cbn [process_send_list]. rewrite (peer_at _ p (set_reqs n (mk_req m io_send cmd data (length data) (fun _ => default_cb m) :: req_list n))); [done|].
    apply list_lookup_insert_eq. by eapply lookup_lt_Some. }
  rewrite one_request by done. cbn [r_msg r_dir r_cmd r_data r_size r_cb].
  destruct (rpc_post_request _ p _ s1) as [[s2 rc2]| | |] eqn:E; try done. cbn [mbind run_bind].
  apply post_request_writes with (n := n) in E as [[W1 W2 Wr W3 W4] G2]; try done. rewrite (fr_self _ _ _ _ _ F1) in *. rewrite P1 in *.
  destruct (rc2 <? 0) eqn:Er.
  - intros [= <- <-]. split; [done|]. split; [done|done|by right|done|done].
  - assert (rc2 = 0) as -> by lia.
    rewrite (idle_loop _ f p s2 _ G2 (W3 eq_refl)). cbn. intros [= <- <-]. split; [done|]. by split; auto.
Qed.

(** A call ends with a result: it does so for every bound that is large
    enough. *)
Definition ends_in {A} (call : nat -> run A) (x : A) : Prop := exists f0, forall f, (f0 <= f)%nat -> call f = Ran x.

Lemma ends_in_unique {A} (call : nat -> run A) x y : ends_in call x -> ends_in call y -> x = y.
Proof. intros [f Hx] [g Hy]. specialize (Hx (f + g)%nat). specialize (Hy (f + g)%nat). rewrite Hx in Hy by lia. assert (Ran x = Ran y) as E by (apply Hy; lia). by injection E. Qed.

(** ** Processes that send to one receiver *)

(** Process [p] is at place [p] in the table of the receiver, which is at place
    [at_ p] in its own.  [y_sent]: what the processes have given to
    [rpc_send]. *)
Record tsys := mk_tsys { y_recv : rpc_server; y_send : nat -> rpc_server; y_sent : nat -> list wire }.

Definition arrive (s : rpc_server) (p : nat) (w : list Z) : rpc_server :=
  match t_peers s !! p with Some n => set_peer s p (set_in n (n_in n ++ w)) | None => s end.

Record os_fine (o : os) : Prop := {
  of_recv : Forall (Z.le 1) (os_recv o);
  of_alloc : Forall (eq true) (os_alloc o);
  of_send : quiet = true -> Forall (Z.le 0) (os_send o) /\ Forall (eq true) (os_connect o)
}.

Section system.
Context (rpc_commands : list (Z * (nat -> rpc_cmd -> act))) (pad_size : nat) (size_of : rpc_cmd -> nat) (at_ : nat -> nat).

(** Before every call the system may prepare new results, without an error of
    [recv] or an allocation.  Bytes arrive in the order they were written. *)
Inductive tstep : tsys -> tsys -> Prop :=
  | ts_send y p m cmd data o s' n n' w :
      t_peers (y_send y p) !! at_ p = Some n -> f_connected n = true -> m ∈ t_live (y_send y p) -> os_fine o ->
      wire_ok rpc_commands pad_size size_of (set_cmd_id cmd (ci_id (t_self (y_send y p))), data) ->
      ends_in (fun f => rpc_send (perform f) f (at_ p) m cmd data (default_cb m) (set_os (y_send y p) o)) (s', 0) ->
      t_peers s' !! at_ p = Some n' -> n_out n' = n_out n ++ w ->
      tstep y (mk_tsys (arrive (y_recv y) p w) (<[p := s']> (y_send y))
                 (<[p := y_sent y p ++ [(set_cmd_id cmd (ci_id (t_self (y_send y p))), data)]]> (y_sent y)))
  | ts_alloc y p s' m : msg_buf_alloc (y_send y p) = (s', m) -> tstep y (mk_tsys (y_recv y) (<[p := s']> (y_send y)) (y_sent y))
  | ts_serve y o s' rc : os_fine o -> ends_in (fun f => rpc_process_event rpc_commands pad_size f (set_os (y_recv y) o)) (s', rc) ->
      tstep y (mk_tsys s' (y_send y) (y_sent y)).

(** Between the calls. *)
Record tsys_ok (y : tsys) : Prop := {
  yo_recv : good (y_recv y);
  yo_send : forall p, good (y_send y p);
  yo_sent : conserved rpc_commands pad_size size_of (y_sent y) (y_recv y)
}.

Lemma good_os s o : good s -> os_fine o -> good (set_os s o).
Proof. intros [] []. by split. Qed.

Lemma stream_app ms c d : stream (ms ++ [(c, d)]) = stream ms ++ cmd_bytes c ++ d.
Proof. unfold stream. by rewrite map_app, concat_app; cbn; rewrite app_nil_r. Qed.

Lemma arrive_conserved sent s p c d : conserved rpc_commands pad_size size_of sent s -> wire_ok rpc_commands pad_size size_of (c, d) ->
  conserved rpc_commands pad_size size_of (<[p := sent p ++ [(c, d)]]> sent) (arrive s p (cmd_bytes c ++ d)).
Proof.
  intros Hs Wk q n Hq. unfold arrive in Hq |- *. destruct (t_peers s !! p) as [np|] eqn:Hp.
  - cbn [t_peers set_peer set_peers] in Hq. destruct (decide (q = p)) as [->|Hne].
    + rewrite list_lookup_insert_eq in Hq by (by eapply lookup_lt_Some). injection Hq as <-. destruct (Hs p np Hp) as (rest & [R1 R2 R3]).
      exists (rest ++ [(c, d)]). split; cbn.
      * by rewrite R1, stream_app.
      * apply Forall_app. split; [done|]. by constructor.
      * rewrite fn_lookup_insert, !map_app, app_assoc. by f_equal.
    + rewrite list_lookup_insert_ne in Hq by done. destruct (Hs q n Hq) as (rest & [R1 R2 R3]). exists rest.
      split; [done|done|]. by rewrite fn_lookup_insert_ne.
  - destruct (decide (q = p)) as [->|Hne]; [congruence|]. destruct (Hs q n Hq) as (rest & [R1 R2 R3]). exists rest.
    split; [done|done|]. by rewrite fn_lookup_insert_ne.
Qed.

Lemma arrive_good s p w : good s -> good (arrive s p w) /\ length (t_peers (arrive s p w)) = length (t_peers s).
Proof.
  intros G. unfold arrive. destruct (t_peers s !! p) as [n|] eqn:Hp; [|done]. pose proof (good_peer s p n G Hp) as Hr.
  split; [|apply length_insert]. destruct G as [A1 A2 A3 A4 A5 A6 A7]. split; cbn; auto. by apply Forall_insert.
Qed.

Lemma conserved_os sent s o : conserved rpc_commands pad_size size_of sent s -> conserved rpc_commands pad_size size_of sent (set_os s o).
Proof. intros H. by apply (conserved_same _ _ _ sent s). Qed.

Context (size_of_id : forall c id, size_of (set_cmd_id c id) = size_of c).

(** Every call of [rpc_process_event] ends. *)
Lemma serve_ends R sent s : good s -> services_ok rpc_commands size_of R (length (t_peers s)) -> conserved rpc_commands pad_size size_of sent s ->
  exists s', ends_in (fun f => rpc_process_event rpc_commands pad_size f s) (s', 0) /\ good s' /\ length (t_peers s') = length (t_peers s) /\
  conserved rpc_commands pad_size size_of sent s' /\
  (os_avail (t_os s) = [] -> (forall rc, R rc -> 0 <= rc) -> forall p n, t_peers s !! p = Some n -> f_connected n = true ->
    exists n', t_peers s' !! p = Some n' /\ n_in n' = [] /\ n_id n' = n_id n).
Proof.
  intros G Hs Hc. destruct (process_peers_ok rpc_commands pad_size size_of size_of_id R sent (seq 0 (length (t_peers s))) s G Hs Hc)
    as (f0 & s' & H & G' & L & C & K & A).
  - apply list.Forall_forall. intros p Hp. apply elem_of_seq in Hp. lia.
  - apply NoDup_seq.
  - exists s'. split; [by exists f0|]. split; [done|]. split; [done|]. split; [done|]. intros Hav HR p n Hp Hcn.
    destruct (A Hav HR p n) as (n' & Hn' & E); auto; [apply elem_of_seq; apply lookup_lt_Some in Hp; lia|].
    destruct (K p n Hp) as (n2 & Hn2 & I & _). rewrite Hn' in Hn2. injection Hn2 as <-. by exists n'.
Qed.

Lemma tstep_ok R y y' : tsys_ok y -> services_ok rpc_commands size_of R (length (t_peers (y_recv y))) -> tstep y y' ->
  tsys_ok y' /\ length (t_peers (y_recv y')) = length (t_peers (y_recv y)).
Proof.
  intros Hy Hs H. revert Hy Hs. destruct H as [y p m cmd data o s' n n' w Hp Hc Hm Ho Wk [f Hf] Hn' Hw|y p s' m E|y o s' rc Ho E]; intros [Y1 Y2 Y3] Hs; cbn.
  - pose proof (good_os _ o (Y2 p) Ho) as G. specialize (Hf f (Nat.le_refl f)).
    apply (rpc_send_writes f _ m cmd data _ s' 0 n G Hp Hc Hm) in Hf as [G' W].
    pose proof (wr_out _ _ _ _ _ _ _ W eq_refl) as Hout. rewrite Hn' in Hout. injection Hout as ->. cbn in Hw. apply app_inv_head in Hw as <-.
    destruct (arrive_good (y_recv y) p (cmd_bytes (set_cmd_id cmd (ci_id (t_self (y_send y p)))) ++ data) Y1) as [Ga La].
    split; [|done]. split; cbn; [done| |by apply arrive_conserved].
    intros q. destruct (decide (p = q)) as [<-|Hne]; [by rewrite fn_lookup_insert|by rewrite fn_lookup_insert_ne].
  - split; [|done]. split; cbn; [done| |done]. intros q. destruct (decide (p = q)) as [<-|Hne]; [|by rewrite fn_lookup_insert_ne].
    rewrite fn_lookup_insert. unfold msg_buf_alloc in E. destruct (draw_alloc (y_send y p)) as [s1 ok] eqn:Ed.
    destruct (draw_alloc_ok [] p _ s1 ok (Y2 p) Ed) as (-> & G1 & _). injection E as <- _. by apply good_alloc.
  - destruct (serve_ends R (y_sent y) (set_os (y_recv y) o)) as (s2 & E2 & G2 & L2 & C2 & _);
      [by apply good_os|done|by apply conserved_os|]. pose proof (ends_in_unique _ _ _ E E2) as [= -> ->]. split; [|done]. by split.
Qed.

Lemma tsteps_ok R y y' : rtc tstep y y' -> tsys_ok y -> services_ok rpc_commands size_of R (length (t_peers (y_recv y))) ->
  tsys_ok y' /\ length (t_peers (y_recv y')) = length (t_peers (y_recv y)).
Proof.
  induction 1 as [y|y y1 y2 H1 _ IH]; intros Hy Hs; [done|]. destruct (tstep_ok R y y1 Hy Hs H1) as [Hy1 L1].
  rewrite <- L1 in Hs. destruct (IH Hy1 Hs) as [Hy2 L2]. split; [done|congruence].
Qed.
End system.

(** ** Properties *)

(** Nothing has been sent yet. *)
Record tsys_init (y : tsys) : Prop := {
  yi_recv : good (y_recv y);
  yi_send : forall p, good (y_send y p);
  yi_log : t_log (y_recv y) = [];
  yi_in : Forall (fun n => n_in n = []) (t_peers (y_recv y));
  yi_sent : forall p, y_sent y p = []
}.

Lemma tsys_init_ok rpc_commands pad_size size_of y : tsys_init y -> tsys_ok rpc_commands pad_size size_of y.
Proof.
  intros [Y1 Y2 Y3 Y4 Y5]. split; [done|done|]. intros p n Hp. exists []. rewrite list.Forall_forall in Y4. split; [|done|].
  - apply Y4. by eapply list_elem_of_lookup_2.
  - by rewrite Y5, Y3.
Qed.

End services.


(** *** A receiver and two senders *)

(** A put: the pad is one byte with the size of the data, which the service
    reads.  It tells the other peer, and frees the message after an error as
    the services of ds_gspace.c do. *)
Definition demo_put (p : nat) (c : rpc_cmd) : act :=
  a_alloc (fun m => match m with
    | None => a_ret (-1)
    | Some m => a_receive_direct p m (Z.to_nat (cget (c_pad c) 0)) (fun _ => default_cb m) (fun _ =>
        a_alloc (fun m => match m with
          | None => a_ret (-1)
          | Some m => a_send (1 - p) m (mk_cmd 6 0 0 [0]) [] (default_cb m) (fun rc => if rc =? 0 then a_ret 0 else a_free m (a_ret rc))
          end))
    end).
Definition demo_note (p : nat) (c : rpc_cmd) : act := a_ret 0.
Definition demo_commands : list (Z * (nat -> rpc_cmd -> act)) := [(5, demo_put); (6, demo_note)].
Definition demo_size (c : rpc_cmd) : nat := if c_cmd c =? 5 then Z.to_nat (cget (c_pad c) 0) else 0%nat.

Definition demo_os : os := mk_os [] [] [] [] [].
Definition demo_info (id : Z) : connection_info := mk_info 1 id 1 2.
Definition demo_recv : rpc_server :=
  mk_rpc (demo_info 0) [mk_node 10 true [] [] []; mk_node 11 true [] [] []] 16384 87380 [] 0 demo_os [].
Definition demo_sender (p : nat) : rpc_server :=
  mk_rpc (demo_info (10 + Z.of_nat p)) [mk_node 0 true [] [] []] 16384 87380 [] 0 demo_os [].
Definition demo_y : tsys := mk_tsys demo_recv demo_sender (fun _ => []).
Definition demo_data : list Z := [1; 2; 3].
Definition demo_cmd (id : Z) : rpc_cmd := mk_cmd 5 0 id [3].

Lemma demo_services : services_ok true demo_commands demo_size (Z.le 0) 2.
Proof.
  intros p c code f Hp Hf. unfold demo_commands in Hf. cbn [List.find fst] in Hf.
  destruct (c_cmd c =? 5) eqn:E5.
  - injection Hf as <- <-. unfold demo_size. rewrite E5. split.
    + intros m _. split; [done|]. split; [apply list_elem_of_here|]. split; [done|]. split; [intros d; by repeat split; try apply list_elem_of_here|].
      intros m' _. split; [apply list_elem_of_here|]. split; [by repeat split; try apply list_elem_of_here|]. intros rc Hrc. rewrite (Hrc eq_refl). split; [lia|done].
    + intros [m|]; [|done]. split; [lia|]. split; [done|]. intros rc [m'|]; [|done]. cbn. split; [lia|]. split; [done|]. intros rc'. by destruct (rc' =? 0).
  - destruct (c_cmd c =? 6) eqn:E6; [|done]. injection Hf as <- <-. unfold demo_size. by rewrite E5.
Qed.

Definition demo_s1 : rpc_server := Eval vm_compute in fst (msg_buf_alloc (demo_sender 0)).
Definition demo_send_os : os := mk_os [2; 1] [] [] [] [].
Definition demo_s2 : rpc_server := Eval vm_compute in
  match rpc_send (perform 9) 9 0 0 (demo_cmd 0) demo_data (default_cb 0) (set_os demo_s1 demo_send_os) with Ran (s, _) => s | _ => demo_recv end.
Definition demo_bytes : list Z := cmd_bytes (demo_cmd 10) ++ demo_data.
Definition demo_y1 : tsys := mk_tsys demo_recv (<[0%nat := demo_s1]> demo_sender) (fun _ => []).
Definition demo_y2 : tsys := mk_tsys (arrive (y_recv demo_y1) 0 demo_bytes) (<[0%nat := demo_s2]> (y_send demo_y1))
  (<[0%nat := y_sent demo_y1 0 ++ [(set_cmd_id (demo_cmd 0) (ci_id (t_self (y_send demo_y1 0))), demo_data)]]> (y_sent demo_y1)).

Lemma demo_good s : t_os s = demo_os -> best_write s = 16384 -> best_read s = 87380 -> Forall (fun n => req_list n = []) (t_peers s) ->
  t_live s = [] -> good true s.
Proof. intros H1 H2 H3 H4 H5. split; rewrite ?H1, ?H2, ?H3, ?H5; (lia || done || by constructor). Qed.

Lemma demo_y_init : tsys_init true demo_y.
Proof.
  split; [|intros p| | |]; try apply demo_good; try done; cbn; repeat constructor.
Qed.

Lemma demo_run_y : rtc (tstep true demo_commands 1 demo_size (fun _ => 0%nat)) demo_y demo_y2.
Proof.
  eapply rtc_l; [apply (ts_alloc _ _ _ _ _ demo_y 0 demo_s1 (Some 0%nat)); reflexivity|]. eapply rtc_l; [|apply rtc_refl].
  apply (ts_send true demo_commands 1 demo_size (fun _ => 0%nat) demo_y1 0 0 (demo_cmd 0) demo_data
    demo_send_os demo_s2 (mk_node 0 true [] [] []) (mk_node 0 true [] [] demo_bytes) demo_bytes).
  - reflexivity.
  - reflexivity.
  - apply list_elem_of_here.
  - split; [constructor|constructor|]. intros _. split; [repeat constructor; lia|constructor].
  - split; [split; vm_compute; by split|by eexists|reflexivity].
  - exists 5%nat. intros f Hf. do 5 (destruct f as [|f]; [lia|]). vm_compute. reflexivity.
  - reflexivity.
  - reflexivity.
Qed.


(** *** Where it does not hold *)

(** A service without memory for the data returns; the data stay in the stream
    and the next call takes them for a command (here a command 6 that
    nobody sent). *)
Lemma unread_data_taken_for_command : exists s1 s2,
  rpc_process_event demo_commands 1 9 (set_os (arrive demo_recv 0 (cmd_bytes (mk_cmd 5 0 10 [7]) ++ [6; 0; 9; 9; 9; 9; 42])) (mk_os [] [] [] [false] [])) = Ran (s1, 0) /\
  rpc_process_event demo_commands 1 9 s1 = Ran (s2, 0) /\
  delivered 0 (t_log s2) = [(mk_cmd 5 0 10 [7], []); (mk_cmd 6 0 10 [42], [])].
Proof. eexists _, _. split; [vm_compute; reflexivity|]. split; [vm_compute; reflexivity|]. vm_compute. reflexivity. Qed.

(** [rpc_receive] reads the next bytes of the connection: when the peer has
    sent a command in the meantime the callback gets it as its data. *)
Lemma receive_takes_command_for_data : exists s',
  rpc_receive (perform 9) 9 0 0 (mk_cmd 7 0 0 [0]) 7 (fun d => a_free 0 (a_ret (if decide (d = cmd_bytes (mk_cmd 6 0 0 [42])) then 0 else -1)))
    (arrive (set_live demo_recv [0%nat] 1) 0 (cmd_bytes (mk_cmd 6 0 0 [42]) ++ [1; 2; 3; 4; 5; 6; 7])) = Ran (s', 0).
Proof. eexists. vm_compute. reflexivity. Qed.

(** A failed [rpc_send] has freed the message; a caller that frees it after an
    error, as the functions of dc_gspace.c and the services of ds_gspace.c do,
    frees it twice. *)
Lemma failed_send_freed_twice :
  perform 9 (a_send 0 0 (mk_cmd 7 0 0 [0]) [] (default_cb 0) (fun rc => if rc <? 0 then a_free 0 (a_ret rc) else a_ret 0))
    (set_os (set_live demo_recv [0%nat] 1) (mk_os [-1] [] [] [] [])) = Undef.
Proof. vm_compute. reflexivity. Qed.
