(* ===== verification/TcpMembership.v ===== *)
(** * Start and end of processes over TCP (dart/tcp/ds_base_tcp.c, dc_base_tcp.c)

    The master server numbers the processes in the order in which they
    connect: servers from 1, and each application in a range of its own.  A
    process then sends its address.  When all servers are registered the
    master sends them the table of servers; when an application is complete it
    sends its part of the table to the other servers; when all applications
    are complete every server sends the whole table to the clients it is in
    charge of.  At the end each client tells the server in charge of it that
    it leaves; a server whose clients have left tells the other servers.

    Messages are values here: [RpcTcp] shows that they arrive as they were
    sent, in order for each pair of processes.  [ok i] says whether the message
    for peer [i] can be allocated and sent.  [None] is an access outside the
    table of peers.  [ds_barrier] only delays the processes (MPI). *)

From stdpp Require Import relations functions.
From S2P Require Import Prelude.

#[local] Open Scope Z_scope.

(** ** State *)

(** [struct ptlid_map]; the address is a number. *)
Record ptlid_map := mk_pm { pm_id : Z; pm_appid : Z; pm_address : Z }.

(** [struct app_info]; [ap_first] is the place of [app_peer_tab] in the table. *)
Record app_info := mk_app { ap_id : Z; ap_num_peers : nat; ap_first : nat; ap_cnt_peers : nat; ap_registered : nat }.

(** [struct dart_server] with [rpc_s->ptlmap] and the static counters of the
    handlers; [self] is the place of the server in the table. *)
Record dart_server := mk_ds {
  d_me : ptlid_map;
  d_tab : list ptlid_map;
  d_size_sp : nat; d_size_cp : nat;
  d_num_sp : nat; d_num_cp : nat;
  d_apps : list app_info;
  d_self : option nat;
  d_f_reg : bool;
  d_num_sp_reg : nat;
  d_num_charge : Z; d_num_charge_cp : Z;
  d_f_stop : bool;
  d_num_cn_unreg : Z;
  d_conn : list nat             (* the places with f_connected *)
}.

Definition set_tab (d : dart_server) (t : list ptlid_map) : dart_server :=
  mk_ds (d_me d) t (d_size_sp d) (d_size_cp d) (d_num_sp d) (d_num_cp d) (d_apps d) (d_self d) (d_f_reg d) (d_num_sp_reg d)
    (d_num_charge d) (d_num_charge_cp d) (d_f_stop d) (d_num_cn_unreg d) (d_conn d).
Definition set_nums (d : dart_server) (sp cp : nat) : dart_server :=
  mk_ds (d_me d) (d_tab d) (d_size_sp d) (d_size_cp d) sp cp (d_apps d) (d_self d) (d_f_reg d) (d_num_sp_reg d)
    (d_num_charge d) (d_num_charge_cp d) (d_f_stop d) (d_num_cn_unreg d) (d_conn d).
Definition set_apps (d : dart_server) (l : list app_info) : dart_server :=
  mk_ds (d_me d) (d_tab d) (d_size_sp d) (d_size_cp d) (d_num_sp d) (d_num_cp d) l (d_self d) (d_f_reg d) (d_num_sp_reg d)
    (d_num_charge d) (d_num_charge_cp d) (d_f_stop d) (d_num_cn_unreg d) (d_conn d).
Definition set_self (d : dart_server) (me : ptlid_map) (self : option nat) : dart_server :=
  mk_ds me (d_tab d) (d_size_sp d) (d_size_cp d) (d_num_sp d) (d_num_cp d) (d_apps d) self (d_f_reg d) (d_num_sp_reg d)
    (d_num_charge d) (d_num_charge_cp d) (d_f_stop d) (d_num_cn_unreg d) (d_conn d).
Definition set_reg (d : dart_server) (f : bool) (n : nat) : dart_server :=
  mk_ds (d_me d) (d_tab d) (d_size_sp d) (d_size_cp d) (d_num_sp d) (d_num_cp d) (d_apps d) (d_self d) f n
    (d_num_charge d) (d_num_charge_cp d) (d_f_stop d) (d_num_cn_unreg d) (d_conn d).
Definition set_charge (d : dart_server) (c ccp : Z) : dart_server :=
  mk_ds (d_me d) (d_tab d) (d_size_sp d) (d_size_cp d) (d_num_sp d) (d_num_cp d) (d_apps d) (d_self d) (d_f_reg d) (d_num_sp_reg d)
    c ccp (d_f_stop d) (d_num_cn_unreg d) (d_conn d).
Definition set_unreg (d : dart_server) (stop : bool) (n : Z) : dart_server :=
  mk_ds (d_me d) (d_tab d) (d_size_sp d) (d_size_cp d) (d_num_sp d) (d_num_cp d) (d_apps d) (d_self d) (d_f_reg d) (d_num_sp_reg d)
    (d_num_charge d) (d_num_charge_cp d) stop n (d_conn d).

Definition connect (d : dart_server) (k : nat) : dart_server :=
  mk_ds (d_me d) (d_tab d) (d_size_sp d) (d_size_cp d) (d_num_sp d) (d_num_cp d) (d_apps d) (d_self d) (d_f_reg d) (d_num_sp_reg d)
    (d_num_charge d) (d_num_charge_cp d) (d_f_stop d) (d_num_cn_unreg d) (k :: d_conn d).

(** The start of [ds_alloc]: all entries are zero. *)
Definition no_process : ptlid_map := mk_pm 0 0 0.

Definition ds_alloc (address : Z) (num_sp num_cp : nat) : dart_server :=
  mk_ds (mk_pm (-1) 0 address) (replicate (num_sp + num_cp) no_process) num_sp num_cp 1 0 [] None false 1 0 0 false 0 [].

(** The end of [ds_alloc], once the server knows its place. *)
Definition ds_alloc_charge (d : dart_server) : option dart_server :=
  id ← d_self d;
  let n := Z.quot (Z.of_nat (d_size_cp d) - 1 - Z.of_nat id + Z.of_nat (d_size_sp d)) (Z.of_nat (d_size_sp d)) in
  Some (set_charge d n n).

(** The start of [ds_boot_master] and [ds_boot_slave]; [conf] is the address of
    the master read from the file. *)
Definition ds_boot_master (d : dart_server) : dart_server :=
  let me := mk_pm 0 (pm_appid (d_me d)) (pm_address (d_me d)) in
  set_tab (set_self d me (Some 0%nat)) (<[0%nat := me]> (d_tab d)).

(** The request a slave sends is its own [ptlmap]. *)
Definition ds_boot_slave (conf : Z) (d : dart_server) : dart_server * ptlid_map :=
  (connect (set_tab d (<[0%nat := mk_pm 0 0 conf]> (d_tab d))) 0, d_me d).

(** ** Connections to a server *)

Definition app_find (l : list app_info) (app_id : Z) : option app_info := List.find (fun a => ap_id a =? app_id) l.

Fixpoint upd_app (f : app_info -> app_info) (app_id : Z) (l : list app_info) : list app_info :=
  match l with
  | [] => []
  | a :: l => if ap_id a =? app_id then f a :: l else a :: upd_app f app_id l
  end.

(** [struct connection_info]: a process that has no id yet, or one that has. *)
Inductive connection := new_server | new_client (app_id : Z) (app_size : nat) | known (id : nat).

Definition set_id (t : list ptlid_map) (k : nat) : option (list ptlid_map) :=
  p ← t !! k; Some (<[k := mk_pm (Z.of_nat k) (pm_appid p) (pm_address p)]> t).

(** [ds_listen] for one connection; the place of the peer in the table, or none
    when the connection is not taken.  [ok]: the allocation of an application. *)
Definition ds_listen (ok : bool) (d : dart_server) (c : connection) : option (dart_server * option nat) :=
  match c with
  | new_server =>
      t ← set_id (d_tab d) (d_num_sp d);
      Some (connect (set_nums (set_tab d t) (S (d_num_sp d)) (d_num_cp d)) (d_num_sp d), Some (d_num_sp d))
  | new_client app_id app_size =>
      let r := match app_find (d_apps d) app_id with
               | Some a => Some (d, a)
               | None =>
                   let a := mk_app app_id app_size (d_size_sp d + d_num_cp d) 0 0 in
                   if ok then Some (set_apps (set_nums d (d_num_sp d) (d_num_cp d + app_size)) (a :: d_apps d), a) else None
               end in
      match r with
      | None => Some (d, None)
      | Some (d, a) =>
          let k := (ap_first a + ap_cnt_peers a)%nat in
          t ← set_id (d_tab d) k;
          let inc a := mk_app (ap_id a) (ap_num_peers a) (ap_first a) (S (ap_cnt_peers a)) (ap_registered a) in
          Some (connect (set_tab (set_apps d (upd_app inc app_id (d_apps d))) t) k, Some k)
      end
  | known id =>
      if decide (id < length (d_tab d))%nat
      then Some (if decide (id ∈ d_conn d) then (d, None) else (connect d id, Some id)) else None
  end.

(** ** Registration *)

Record payload_app_info := mk_pai { pi_id : nat; pi_app_id : Z; pi_app_size : nat }.

Inductive msg :=
  | sp_reg_reply (p : ptlid_map) (data : list ptlid_map)
  | sp_announce_cp (info : payload_app_info) (data : list ptlid_map).

(** Messages to the peers at [places], until one fails. *)
Fixpoint send_each {A} (ok : nat -> bool) (mk : nat -> A) (places : list nat) : list (nat * A) * Z :=
  match places with
  | [] => ([], 0)
  | i :: places => if ok i then let '(l, rc) := send_each ok mk places in ((i, mk i) :: l, rc) else ([], -1)
  end.

(** Places [first] to [first + n - 1] of the table. *)
Definition part (t : list ptlid_map) (first n : nat) : option (list ptlid_map) :=
  if decide (first + n <= length t)%nat then Some (take n (drop first t)) else None.

(** The loops that copy the received entries into the table. *)
Fixpoint write_at (t : list ptlid_map) (k : nat) (l : list ptlid_map) : list ptlid_map :=
  match l with [] => t | p :: l => write_at (<[k := p]> t) (S k) l end.

(** What a process says of itself at place [from]. *)
Definition fill_in (t : list ptlid_map) (from : nat) (pm : ptlid_map) : option (list ptlid_map) :=
  p ← t !! from; Some (<[from := mk_pm (pm_id p) (pm_appid pm) (pm_address pm)]> t).

Definition slaves (d : dart_server) : list nat := seq 1 (d_size_sp d - 1).

Definition rpc_handler_sp_reg_request (ok : nat -> bool) (d : dart_server) (from : nat) (pm : ptlid_map) : option (dart_server * list (nat * msg) * Z) :=
  t ← fill_in (d_tab d) from pm;
  let d := set_reg (set_tab d t) (d_f_reg d) (S (d_num_sp_reg d)) in
  if decide (d_num_sp_reg d = d_size_sp d) then
    data ← part t 0 (d_size_sp d);
    let '(l, rc) := send_each ok (fun i => sp_reg_reply (nth i t no_process) data) (slaves d) in Some (d, l, rc)
  else Some (d, [], 0).

(** The handler and its callback: the table of the servers follows. *)
Definition rpc_handler_sp_reg_reply (d : dart_server) (p : ptlid_map) (data : list ptlid_map) : option dart_server :=
  if (0 <=? pm_id p) && (pm_id p <? Z.of_nat (length (d_tab d))) && bool_decide (length data = d_size_sp d) && bool_decide (d_size_sp d <= length (d_tab d))%nat then
    let me := mk_pm (pm_id p) (pm_appid (d_me d)) (pm_address (d_me d)) in
    let d := set_nums (set_self d me (Some (Z.to_nat (pm_id p)))) (d_size_sp d) (d_num_cp d) in
    Some (set_tab d (write_at (d_tab d) 0 data))
  else None.

(** [info->id = p[0].id]: the id of the first process. *)
Definition ds_announce_cp (ok : nat -> bool) (d : dart_server) (a : app_info) : option (list (nat * msg) * Z) :=
  if decide (slaves d = []) then Some ([], 0) else
  data ← part (d_tab d) (ap_first a) (ap_num_peers a);
  p ← head data;
  Some (send_each ok (fun _ => sp_announce_cp (mk_pai (Z.to_nat (pm_id p)) (ap_id a) (ap_num_peers a)) data) (slaves d)).

Definition rpc_handler_cn_register (ok : nat -> bool) (d : dart_server) (from : nat) (pm : ptlid_map) : option (dart_server * list (nat * msg) * Z) :=
  t ← fill_in (d_tab d) from pm;
  let d := set_tab d t in
  match app_find (d_apps d) (pm_appid pm) with
  | None => Some (d, [], 0)
  | Some a =>
      let inc a := mk_app (ap_id a) (ap_num_peers a) (ap_first a) (ap_cnt_peers a) (S (ap_registered a)) in
      let d := set_apps d (upd_app inc (pm_appid pm) (d_apps d)) in
      if decide (S (ap_registered a) = ap_num_peers a) then
        '(l, rc) ← ds_announce_cp ok d (inc a);
        if rc <? 0 then Some (d, l, -1)
        else
          let all := forallb (fun a => bool_decide (ap_registered a = ap_num_peers a)) (d_apps d) in
          let f := if decide (d_num_cp d = d_size_cp d) then if all then true else d_f_reg d else d_f_reg d in
          Some (set_reg d f (d_num_sp_reg d), l, 0)
      else Some (d, [], 0)
  end.

(** The handler and its callback: the part of the table follows. *)
Definition rpc_handler_sp_announce_cp (d : dart_server) (info : payload_app_info) (data : list ptlid_map) : option dart_server :=
  if bool_decide (length data = pi_app_size info) && bool_decide (pi_id info + pi_app_size info <= length (d_tab d))%nat then
    let a := mk_app (pi_app_id info) (pi_app_size info) (pi_id info) (pi_app_size info) (pi_app_size info) in
    let d := set_apps (set_nums d (d_num_sp d) (d_num_cp d + pi_app_size info)) (a :: d_apps d) in
    let d := set_tab d (write_at (d_tab d) (pi_id info) data) in
    Some (set_reg d (if decide (d_num_cp d = d_size_cp d) then true else d_f_reg d) (d_num_sp_reg d))
  else None.

(** [struct payload_client_registration_reply], and the table that follows. *)
Record cn_reply := mk_reply { rp_id_sp : nat; rp_id_cp : Z; rp_size_sp : nat; rp_size_cp : nat; rp_id_cp_min : Z; rp_data : list ptlid_map }.

(** The loop has no break: the last application of the list with the id. *)
Definition id_cp_min (d : dart_server) (appid : Z) : option Z :=
  fold_left (fun r a => if ap_id a =? appid then Some (pm_id (nth (ap_first a) (d_tab d) no_process)) else r) (d_apps d) None.

(** [for (i = self; i < num_cp; i += size_sp)]: the clients of the server, by
    their place among the clients. *)
Fixpoint stride (fuel i bound step : nat) : list nat :=
  match fuel with
  | O => []
  | S fuel => if decide (i < bound)%nat then i :: stride fuel (i + step) bound step else []
  end.

Definition charges (d : dart_server) (self : nat) : list nat := stride (d_num_cp d) self (d_num_cp d) (d_size_sp d).

(** The replies by place. *)
Fixpoint register_loop (ok : nat -> bool) (d : dart_server) (self : nat) (is_ : list nat) : option (list (nat * cn_reply) * Z) :=
  match is_ with
  | [] => Some ([], 0)
  | i :: is_ =>
      p ← d_tab d !! (d_size_sp d + i)%nat;
      match id_cp_min d (pm_appid p) with
      | Some m =>
          if negb (m =? -1) && ok i then
            '(l, rc) ← register_loop ok d self is_;
            Some (((d_size_sp d + i)%nat, mk_reply self (pm_id p) (d_size_sp d) (d_size_cp d) m (d_tab d)) :: l, rc)
          else Some ([], -1)
      | None => Some ([], -1)
      end
  end.

Definition ds_register_cp (ok : nat -> bool) (d : dart_server) : option (list (nat * cn_reply) * Z) :=
  self ← d_self d; register_loop ok d self (charges d self).

(** ** Clients *)

(** [c_links]: the places of the table that are connected.  Before the reply
    the table has two entries: the master server, and the server in charge. *)
Record dart_client := mk_dc {
  c_me : ptlid_map; c_tab : list ptlid_map; c_links : list nat;
  c_num_sp : nat; c_num_cp : nat; c_min_rank : Z; c_f_reg : bool }.

Definition dc_alloc (address appid : Z) : dart_client := mk_dc (mk_pm (-1) appid address) [] [] 0 0 0 false.

(** [dc_register_at_master]: the connection to the master, and the request. *)
Definition dc_register_at_master (conf : Z) (c : dart_client) : dart_client * ptlid_map :=
  (mk_dc (c_me c) [mk_pm 0 0 conf; no_process] [0%nat] (c_num_sp c) (c_num_cp c) (c_min_rank c) (c_f_reg c), c_me c).

(** [dc_listen] for a connection of a server ([Some id]) or a client. *)
Definition dc_listen (c : dart_client) (from : option Z) : option dart_client :=
  match from with
  | None => Some c
  | Some id =>
      if c_f_reg c || bool_decide (1%nat ∈ c_links c) then Some c
      else
        p ← c_tab c !! 1%nat;
        Some (mk_dc (c_me c) (<[1%nat := mk_pm id (pm_appid p) (pm_address p)]> (c_tab c)) (1%nat :: c_links c) (c_num_sp c) (c_num_cp c) (c_min_rank c) (c_f_reg c))
  end.

(** The connections move to the places of their servers. *)
Definition moved_links (c : dart_client) (size : nat) : option (list nat) :=
  mapM (fun k => p ← c_tab c !! k; if (0 <=? pm_id p) && (pm_id p <? Z.of_nat size) then Some (Z.to_nat (pm_id p)) else None) (c_links c).

(** [rpc_handler_cn_register] of a client and its callback. *)
Definition dc_handler_cn_register (c : dart_client) (r : cn_reply) : option dart_client :=
  let size := (rp_size_sp r + rp_size_cp r)%nat in
  links ← moved_links c size;
  if (0 <=? rp_id_cp r) && (rp_id_cp r <? Z.of_nat size) && bool_decide (length (rp_data r) = size) && bool_decide (rp_id_sp r < size)%nat then
    Some (mk_dc (mk_pm (rp_id_cp r) (pm_appid (c_me c)) (pm_address (c_me c))) (rp_data r) links (rp_size_sp r) (rp_size_cp r) (rp_id_cp_min r) true)
  else None.

(** ** Leaving *)

(** [dc_unregister]: the server a client tells. *)
Definition dc_unregister (c : dart_client) : nat := Z.to_nat (Z.rem (pm_id (c_me c)) (Z.of_nat (c_num_sp c))).

(** The handler of a server: [num_cp] clients have left. *)
Definition rpc_handler_cn_unregister (ok : nat -> bool) (d : dart_server) (from : nat) (num_cp : Z) : option (dart_server * list (nat * Z) * Z) :=
  if d_f_stop d then Some (d, [], 0)
  else
    let n := d_num_cn_unreg d + num_cp in
    let d := set_unreg d (if n =? Z.of_nat (d_size_cp d) then true else d_f_stop d) n in
    if decide (d_size_sp d <= from)%nat then
      let d := set_charge d (d_num_charge d - 1) (d_num_charge_cp d) in
      if d_num_charge d =? 0 then
        self ← d_self d;
        let '(l, rc) := send_each ok (fun _ => d_num_charge_cp d) (filter (fun i => i <> self) (seq 0 (d_size_sp d))) in
        Some (d, l, rc)
      else Some (d, [], 0)
    else Some (d, [], 0).

(** ** The end: every server stops when all clients have left *)

Inductive msg_state := m_none | m_flying (k : Z) | m_arrived.

#[export] Instance msg_state_eq_dec : EqDecision msg_state.
Proof. solve_decision. Defined.

(** [w_cli i]: the message of client [i]; [w_msg t s]: of server [t] to [s]. *)
Record wsys := mk_wsys { w_srv : nat -> dart_server; w_cli : nat -> msg_state; w_msg : nat -> nat -> msg_state }.

Definition posted (l : list (nat * Z)) (f : nat -> msg_state) (q : nat) : msg_state :=
  match List.find (fun x => (fst x =? q)%nat) l with Some (_, k) => m_flying k | None => f q end.

Section leaving.
Context (nsp ncp : nat) (cl : nat -> dart_client).
(** What may be known of failures. *)
Context (fine : (nat -> bool) -> Prop).

Inductive wstep : wsys -> wsys -> Prop :=
  | w_leave w i : (i < ncp)%nat -> w_cli w i = m_none -> wstep w (mk_wsys (w_srv w) (<[i := m_flying 1]> (w_cli w)) (w_msg w))
  | w_client w i k s ok d l rc : (i < ncp)%nat -> w_cli w i = m_flying k -> s = dc_unregister (cl i) -> fine ok ->
      rpc_handler_cn_unregister ok (w_srv w s) (nsp + i) k = Some (d, l, rc) ->
      wstep w (mk_wsys (<[s := d]> (w_srv w)) (<[i := m_arrived]> (w_cli w)) (<[s := posted l (w_msg w s)]> (w_msg w)))
  | w_server w t s k ok d l rc : (t < nsp)%nat -> (s < nsp)%nat -> w_msg w t s = m_flying k -> fine ok ->
      rpc_handler_cn_unregister ok (w_srv w s) t k = Some (d, l, rc) ->
      wstep w (mk_wsys (<[s := d]> (w_srv w)) (w_cli w) (<[t := <[s := m_arrived]> (w_msg w t)]> (w_msg w))).

(** The states after the start. *)
Record w_init (w : wsys) : Prop := {
  wi_pos : (0 < nsp)%nat /\ (0 < ncp)%nat;
  wi_cl : forall i, (i < ncp)%nat -> pm_id (c_me (cl i)) = Z.of_nat (nsp + i) /\ c_num_sp (cl i) = nsp;
  wi_srv : forall s, (s < nsp)%nat -> exists d, ds_alloc_charge d = Some (w_srv w s) /\ d_self d = Some s /\ d_size_sp d = nsp /\ d_size_cp d = ncp /\
    d_f_stop d = false /\ d_num_cn_unreg d = 0;
  wi_cli : forall i, w_cli w i = m_none;
  wi_msg : forall t s, w_msg w t s = m_none
}.

(** *** Sums over the servers *)

Definition total (f : nat -> nat) (n : nat) : nat := sum_list (map f (seq 0 n)).

Lemma total_S f n : total f (S n) = (total f n + f n)%nat.
Proof. unfold total. rewrite seq_S, map_app. cbn. induction (map f (seq 0 n)) as [|x l IH]; cbn; lia. Qed.

Lemma total_step f g n x k : (x < n)%nat -> (forall t, t <> x -> g t = f t) -> g x = (f x + k)%nat -> total g n = (total f n + k)%nat.
Proof.
  intros Hx Ho Hg. induction n as [|n IH]; [lia|]. rewrite !total_S. destruct (decide (x = n)) as [->|Hne].
  - assert (total g n = total f n) as ->; [|lia]. unfold total. f_equal. apply map_ext_in. intros t Ht%in_seq. apply Ho. lia.
  - rewrite IH, (Ho n) by lia. lia.
Qed.

Lemma contrib_total_ext f g n : (forall t, (t < n)%nat -> f t = g t) -> total f n = total g n.
Proof. intros H. unfold total. f_equal. apply map_ext_in. intros t Ht%in_seq. apply H. lia. Qed.

Lemma total_le f g n : (forall t, (t < n)%nat -> f t <= g t)%nat -> (total f n <= total g n)%nat.
Proof. induction n as [|n IH]; intros H; [done|]. rewrite !total_S. pose proof (H n). assert (total f n <= total g n)%nat by (apply IH; auto). lia. Qed.

Lemma total_full f g n : (forall t, (t < n)%nat -> f t <= g t)%nat -> total f n = total g n -> forall t, (t < n)%nat -> f t = g t.
Proof.
  induction n as [|n IH]; intros H E t Ht; [lia|]. rewrite !total_S in E. pose proof (H n). assert (total f n <= total g n)%nat by (apply total_le; auto).
  destruct (decide (t = n)) as [->|Hne]; [lia|]. apply IH; auto; lia.
Qed.

Lemma total_count {A} (g : A -> nat) (l : list A) n : (forall x, x ∈ l -> g x < n)%nat ->
  total (fun t => length (filter (fun x => g x = t) l)) n = length l.
Proof.
  induction l as [|x l IH]; intros H; [unfold total; induction (seq 0 n); cbn; auto|].
  rewrite (total_step (fun t => length (filter (fun x => g x = t) l)) _ n (g x) 1).
  - rewrite IH; [cbn; lia|]. intros y Hy. apply H. by apply list_elem_of_further.
  - apply H. apply list_elem_of_here.
  - intros t Ht. by rewrite filter_cons_False.
  - rewrite filter_cons_True by done. cbn. lia.
Qed.

(** The number of clients of a server. *)
Definition num_clients (s : nat) : nat := length (filter (fun i => (i mod nsp)%nat = s) (seq 0 ncp)).

Lemma charge_total : (0 < nsp)%nat -> total num_clients nsp = ncp.
Proof.
  intros H. unfold num_clients. rewrite (total_count (fun i => (i mod nsp)%nat)); [apply length_seq|]. intros x _. by apply Nat.mod_upper_bound; lia.
Qed.
End leaving.

Lemma stride_count n m s : (s < n)%nat -> length (filter (fun i => (i mod n)%nat = s) (seq 0 m)) = ((m + (n - 1 - s)) / n)%nat.
Proof.
  intros Hs. induction m as [|m IH].
  - cbn. symmetry. apply Nat.div_small. lia.
  - rewrite seq_S, list.filter_app, length_app, IH, filter_cons. cbn [Nat.add]. pose proof (Nat.div_mod_eq m n) as E. pose proof (Nat.mod_upper_bound m n ltac:(lia)) as Hr.
    set (q := (m / n)%nat) in *. set (r := (m mod n)%nat) in *.
    assert (forall x y, (x = n * q + y)%nat -> (y < n)%nat -> (x / n)%nat = q) as D0 by (intros x y -> Hy; symmetry; apply (Nat.div_unique _ _ q y); lia).
    assert (forall x y, (x = n * q + (n + y))%nat -> (y < n)%nat -> (x / n)%nat = S q) as D1 by (intros x y -> Hy; symmetry; apply (Nat.div_unique _ _ (S q) y); lia).
    destruct (decide (r = s)) as [Hrs|Hrs]; rewrite list.filter_nil; cbn [length].
    + rewrite (D0 (m + (n - 1 - s))%nat (n - 1)%nat), (D1 (S (m + (n - 1 - s)))%nat 0%nat) by lia. lia.
    + destruct (decide (r < s)%nat).
      * rewrite (D0 (m + (n - 1 - s))%nat (r + (n - 1 - s))%nat), (D0 (S (m + (n - 1 - s)))%nat (S r + (n - 1 - s))%nat) by lia. lia.
      * rewrite (D1 (m + (n - 1 - s))%nat (r - 1 - s)%nat), (D1 (S (m + (n - 1 - s)))%nat (r - s)%nat) by lia. lia.
Qed.

Lemma send_each_in {A} ok (mk : nat -> A) l q k : (q, k) ∈ fst (send_each ok mk l) -> q ∈ l /\ k = mk q.
Proof.
  induction l as [|i l IH]; cbn; [by intros ?%not_elem_of_nil|]. destruct (ok i); [|by intros ?%not_elem_of_nil].
  destruct (send_each ok mk l) as [r rc]. cbn in *. intros [[= -> ->]|H]%elem_of_cons; [split; [apply list_elem_of_here|done]|].
  destruct (IH H). split; [by apply list_elem_of_further|done].
Qed.

Lemma send_each_ok {A} ok (mk : nat -> A) l : (forall i, ok i = true) -> send_each ok mk l = (map (fun i => (i, mk i)) l, 0).
Proof. intros H. induction l as [|i l IH]; cbn; [done|]. by rewrite H, IH. Qed.

Lemma posted_cases l f q : posted l f q = f q \/ exists k, (q, k) ∈ l /\ posted l f q = m_flying k.
Proof.
  unfold posted. destruct (List.find _ l) as [[q' k]|] eqn:E; [|by left]. right. apply List.find_some in E as [Hin Hq].
  cbn in Hq. apply Nat.eqb_eq in Hq as ->. exists k. split; [by apply list_elem_of_In|done].
Qed.

Lemma posted_sent l f q k : (q, k) ∈ l -> posted l f q <> m_none.
Proof.
  intros H. unfold posted. destruct (List.find _ l) as [[q' k']|] eqn:E; [done|]. apply list_elem_of_In in H.
  pose proof (List.find_none _ _ E _ H) as Hn. cbn in Hn. by rewrite Nat.eqb_refl in Hn.
Qed.

Lemma filter_agree (P Q : nat -> Prop) `{!forall x, Decision (P x)} `{!forall x, Decision (Q x)} (l : list nat) :
  (forall x, x ∈ l -> P x <-> Q x) -> filter P l = filter Q l.
Proof.
  induction l as [|y l IH]; intros He; [done|]. rewrite !filter_cons, IH by (intros; apply He; by apply list_elem_of_further).
  pose proof (He y (list_elem_of_here y l)) as Hy. destruct (decide (P y)), (decide (Q y)); tauto.
Qed.

Lemma filter_one (P Q : nat -> Prop) `{!forall x, Decision (P x)} `{!forall x, Decision (Q x)} (l : list nat) i : NoDup l -> i ∈ l ->
  (forall x, x <> i -> P x <-> Q x) -> P i -> ~ Q i -> length (filter P l) = S (length (filter Q l)).
Proof.
  intros Hnd Hi He HP HQ. induction l as [|x l IH]; [by apply not_elem_of_nil in Hi|]. apply list.NoDup_cons in Hnd as [Hx Hnd].
  rewrite !filter_cons. destruct (decide (x = i)) as [->|Hne].
  - rewrite decide_True, decide_False by done. cbn. do 2 f_equal. apply filter_agree. intros y Hy. apply He. by intros ->.
  - apply elem_of_cons in Hi as [?|Hi]; [congruence|]. pose proof (He x Hne) as Hx'.
    destruct (decide (P x)), (decide (Q x)); cbn; rewrite ?IH; auto; tauto.
Qed.

Section stopping.
Context (nsp ncp : nat) (cl : nat -> dart_client) (fine : (nat -> bool) -> Prop).
Context (Hsp : (0 < nsp)%nat) (Hcp : (0 < ncp)%nat).
Context (Hcl : forall i, (i < ncp)%nat -> pm_id (c_me (cl i)) = Z.of_nat (nsp + i) /\ c_num_sp (cl i) = nsp).

Abbreviation charge := (num_clients nsp ncp).
Abbreviation wstep := (wstep nsp ncp cl fine).

(** The clients of [s] that it has heard of, and what the servers [t] add to
    the count of [s]. *)
Definition own (c : nat -> msg_state) (s : nat) : nat := length (filter (fun i => (i mod nsp)%nat = s /\ c i = m_arrived) (seq 0 ncp)).
Definition contrib (w : wsys) (s t : nat) : nat :=
  if decide (t = s) then own (w_cli w) s else if decide (w_msg w t s = m_arrived) then charge t else 0%nat.

Lemma own_le c s : (own c s <= charge s)%nat.
Proof.
  unfold own, num_clients. induction (seq 0 ncp) as [|i l IH]; [done|]. rewrite !filter_cons.
  destruct (decide (_ /\ _)) as [[H1 H2]|H]; [rewrite decide_True by done; cbn; lia|]. destruct (decide _); cbn; lia.
Qed.

Lemma contrib_le w s t : (contrib w s t <= charge t)%nat.
Proof. unfold contrib. destruct (decide (t = s)) as [->|]; [apply own_le|]. destruct (decide _); lia. Qed.

Lemma own_arrive c i s : (i < ncp)%nat -> c i <> m_arrived ->
  own (<[i := m_arrived]> c) s = (own c s + if decide ((i mod nsp)%nat = s) then 1 else 0)%nat.
Proof.
  intros Hi Hc. unfold own. destruct (decide _) as [Hs|Hs].
  - rewrite (filter_one _ (fun i => (i mod nsp)%nat = s /\ c i = m_arrived) (seq 0 ncp) i); [lia|apply NoDup_seq|apply elem_of_seq; lia| | |].
    + intros x Hx. by rewrite fn_lookup_insert_ne.
    + by rewrite fn_lookup_insert.
    + by intros [_ ?].
  - rewrite Nat.add_0_r. f_equal. apply list_filter_iff. intros x. destruct (decide (x = i)) as [->|Hx]; [tauto|]. by rewrite fn_lookup_insert_ne.
Qed.

(** A client that is not in the count. *)
Lemma own_missing c i : (i < ncp)%nat -> c i <> m_arrived -> (own c (i mod nsp) < charge (i mod nsp))%nat.
Proof.
  intros Hi Hc. pose proof (own_arrive c i (i mod nsp)%nat Hi Hc) as E. rewrite decide_True in E by done. pose proof (own_le (<[i := m_arrived]> c) (i mod nsp)%nat). lia.
Qed.

Lemma own_full c : (forall t, (t < nsp)%nat -> own c t = charge t) -> forall i, (i < ncp)%nat -> c i = m_arrived.
Proof.
  intros H i Hi. destruct (decide (c i = m_arrived)) as [|Hc]; [done|]. pose proof (own_missing c i Hi Hc). rewrite H in *; [lia|].
  apply Nat.mod_upper_bound. lia.
Qed.

(** The count of a server is complete. *)
Lemma count_full w s : (forall t, w_msg w t s = m_arrived -> own (w_cli w) t = charge t) -> total (contrib w s) nsp = ncp ->
  (forall t, (t < nsp)%nat -> contrib w s t = charge t) /\ forall i, (i < ncp)%nat -> w_cli w i = m_arrived.
Proof.
  intros Hm E. assert (total (contrib w s) nsp = total charge nsp) as E' by (rewrite charge_total; done).
  pose proof (total_full _ _ nsp (fun t _ => contrib_le w s t) E') as H. split; [done|]. apply own_full. intros t Ht. specialize (H t Ht).
  unfold contrib in H. destruct (decide (t = s)) as [->|]; [done|]. destruct (decide _) as [Ha|]; [auto|].
  pose proof (own_le (w_cli w) t). lia.
Qed.

Record winv (w : wsys) : Prop := {
  wv_self : forall s, (s < nsp)%nat -> d_self (w_srv w s) = Some s /\ d_size_sp (w_srv w s) = nsp /\ d_size_cp (w_srv w s) = ncp /\
    d_num_charge_cp (w_srv w s) = Z.of_nat (charge s);
  wv_count : forall s, (s < nsp)%nat -> d_num_charge (w_srv w s) = Z.of_nat (charge s) - Z.of_nat (own (w_cli w) s) /\
    d_num_cn_unreg (w_srv w s) = Z.of_nat (total (contrib w s) nsp);
  wv_stop : forall s, (s < nsp)%nat -> d_f_stop (w_srv w s) = bool_decide (total (contrib w s) nsp = ncp);
  wv_cli : forall i k, w_cli w i = m_flying k -> k = 1;
  wv_msg : forall t s, w_msg w t s <> m_none -> t <> s /\ own (w_cli w) t = charge t /\ (0 < charge t)%nat /\
    forall k, w_msg w t s = m_flying k -> k = Z.of_nat (charge t)
}.

Lemma unregister_at i : (i < ncp)%nat -> dc_unregister (cl i) = (i mod nsp)%nat.
Proof.
  intros Hi. destruct (Hcl i Hi) as [H1 H2]. unfold dc_unregister. rewrite H1, H2, Z.rem_mod_nonneg, <- Nat2Z.inj_mod, Nat2Z.id by lia.
  replace (nsp + i)%nat with (i + 1 * nsp)%nat by lia. apply Nat.Div0.mod_add.
Qed.

Lemma total_zero f : (forall t, f t = 0%nat) -> total f nsp = 0%nat.
Proof. intros H. unfold total. induction (seq 0 nsp); cbn; [done|]. by rewrite H. Qed.

Lemma winv_init w : w_init nsp ncp cl w -> winv w.
Proof.
  intros [_ _ W3 W4 W5].
  assert (forall s, own (w_cli w) s = 0%nat) as Hown.
  { intros s. unfold own. rewrite filter_keep_none; [done|]. apply list.Forall_forall. intros x _ [_ Hx]. by rewrite W4 in Hx. }
  assert (forall s, total (contrib w s) nsp = 0%nat) as Ht.
  { intros s. apply total_zero. intros t. unfold contrib. rewrite Hown, W5. by destruct (decide _). }
  assert (forall s, (s < nsp)%nat -> Z.quot (Z.of_nat ncp - 1 - Z.of_nat s + Z.of_nat nsp) (Z.of_nat nsp) = Z.of_nat (charge s)) as Hq.
  { intros s Hs. unfold num_clients. rewrite stride_count, Nat2Z.inj_div, Z.quot_div_nonneg by lia. f_equal. lia. }
  split.
  - intros s Hs. destruct (W3 s Hs) as (d & E & E1 & E2 & E3 & E4 & E5). unfold ds_alloc_charge in E. rewrite E1, E2, E3 in E. injection E as <-.
    cbn. by rewrite Hq.
  - intros s Hs. destruct (W3 s Hs) as (d & E & E1 & E2 & E3 & E4 & E5). unfold ds_alloc_charge in E. rewrite E1, E2, E3 in E. injection E as <-.
    cbn. rewrite Hq, Hown, Ht by done. split; [lia|done].
  - intros s Hs. destruct (W3 s Hs) as (d & E & E1 & E2 & E3 & E4 & E5). unfold ds_alloc_charge in E. rewrite E1 in E. injection E as <-.
    cbn. rewrite E4, Ht. symmetry. apply bool_decide_eq_false_2. lia.
  - intros i k H. by rewrite W4 in H.
  - intros t s H. by rewrite W5 in H.
Qed.

Lemma keep_leave w i : winv w -> (i < ncp)%nat -> w_cli w i = m_none -> winv (mk_wsys (w_srv w) (<[i := m_flying 1]> (w_cli w)) (w_msg w)).
Proof.
  intros [W1 W2 W3 W4 W5] Hi Hn.
  assert (forall s, own (<[i := m_flying 1]> (w_cli w)) s = own (w_cli w) s) as Ho.
  { intros s. unfold own. f_equal. apply filter_agree. intros x _. destruct (decide (x = i)) as [->|Hx]; [rewrite fn_lookup_insert, Hn; split; by intros [_ ?]|by rewrite fn_lookup_insert_ne]. }
  assert (forall s t, contrib (mk_wsys (w_srv w) (<[i := m_flying 1]> (w_cli w)) (w_msg w)) s t = contrib w s t) as Hc.
  { intros s t. unfold contrib. cbn. by rewrite Ho. }
  split; cbn; auto.
  - intros s Hs. rewrite Ho, (contrib_total_ext _ (contrib w s)) by auto. auto.
  - intros s Hs. rewrite (contrib_total_ext _ (contrib w s)) by auto. auto.
  - intros x k. destruct (decide (x = i)) as [->|Hx]; [rewrite fn_lookup_insert; by intros [= <-]|]. rewrite fn_lookup_insert_ne by done. apply W4.
  - intros t s H. rewrite Ho. auto.
Qed.

(** What the handler does with a message from a client. *)
Lemma client_message w s i ok d l rc : winv w -> (s < nsp)%nat -> (own (w_cli w) s < charge s)%nat ->
  rpc_handler_cn_unregister ok (w_srv w s) (nsp + i) 1 = Some (d, l, rc) ->
  d_self d = Some s /\ d_size_sp d = nsp /\ d_size_cp d = ncp /\ d_num_charge_cp d = Z.of_nat (charge s) /\
  d_num_charge d = Z.of_nat (charge s) - Z.of_nat (own (w_cli w) s + 1) /\
  d_num_cn_unreg d = Z.of_nat (total (contrib w s) nsp + 1) /\ d_f_stop d = bool_decide (total (contrib w s) nsp + 1 = ncp)%nat /\
  (forall q k, (q, k) ∈ l -> (q < nsp)%nat /\ q <> s /\ k = Z.of_nat (charge s) /\ (own (w_cli w) s + 1 = charge s)%nat) /\
  ((forall i, ok i = true) -> (own (w_cli w) s + 1 = charge s)%nat -> forall q, (q < nsp)%nat -> q <> s -> exists k, (q, k) ∈ l).
Proof.
  intros [W1 W2 W3 W4 W5] Hs Ho. destruct (W1 s Hs) as (S1 & S2 & S3 & S4), (W2 s Hs) as (N1 & N2).
  assert (d_f_stop (w_srv w s) = false) as Hf.
  { rewrite W3 by done. apply bool_decide_eq_false_2. intros E. destruct (count_full w s) as [H _]; [intros t Ht; by apply (W5 t s); rewrite Ht|done|].
    specialize (H s Hs). unfold contrib in H. rewrite decide_True in H by done. lia. }
  unfold rpc_handler_cn_unregister. rewrite Hf. cbn [d_size_cp d_size_sp set_unreg d_num_charge d_num_charge_cp set_charge d_self].
  rewrite S1, S2, S3, S4, N1, N2. rewrite decide_True by lia.
  assert ((if Z.of_nat (total (contrib w s) nsp) + 1 =? Z.of_nat ncp then true else false) = bool_decide (total (contrib w s) nsp + 1 = ncp)%nat) as Hb.
  { destruct (Z.eqb_spec (Z.of_nat (total (contrib w s) nsp) + 1) (Z.of_nat ncp)); [symmetry; apply bool_decide_eq_true_2|symmetry; apply bool_decide_eq_false_2]; lia. }
  destruct (Z.eqb_spec (Z.of_nat (charge s) - Z.of_nat (own (w_cli w) s) - 1) 0) as [E0|E0].
  - cbn [mbind option_bind]. destruct (send_each _ _ _) as [l' rc'] eqn:El. intros [= <- <- <-].
    cbn. rewrite ?S1, ?S2, ?S3, ?S4, ?Hb. repeat (split; [done || lia|]). split.
    + intros q k Hq. pose proof (send_each_in ok (fun _ => Z.of_nat (charge s)) (filter (fun i => i <> s) (seq 0 nsp)) q k) as H. rewrite El in H. cbn in H.
      destruct (H Hq) as [[Hne Hin]%list_elem_of_filter ->]. apply elem_of_seq in Hin. repeat split; (lia || done).
    + intros Hok _ q Hq Hne. rewrite send_each_ok in El by done. injection El as <- <-. exists (Z.of_nat (charge s)).
      apply list_elem_of_fmap. exists q. split; [done|]. apply list_elem_of_filter. split; [done|]. apply elem_of_seq. lia.
  - intros [= <- <- <-]. cbn. rewrite ?S1, ?S2, ?S3, ?S4, ?Hb. repeat (split; [done || lia|]). split; [intros q k Hq; by apply not_elem_of_nil in Hq|]. lia.
Qed.

Lemma leave_client w i k s ok d l rc : winv w -> (i < ncp)%nat -> w_cli w i = m_flying k -> s = dc_unregister (cl i) ->
  rpc_handler_cn_unregister ok (w_srv w s) (nsp + i) k = Some (d, l, rc) ->
  winv (mk_wsys (<[s := d]> (w_srv w)) (<[i := m_arrived]> (w_cli w)) (<[s := posted l (w_msg w s)]> (w_msg w))).
Proof.
  intros W Hi Hk Hs. rewrite unregister_at in Hs by done. rewrite (wv_cli w W i k Hk). intros Hh.
  assert (s < nsp)%nat as Hs' by (subst s; apply Nat.mod_upper_bound; lia).
  assert (w_cli w i <> m_arrived) as Hna by (by rewrite Hk).
  pose proof (own_missing (w_cli w) i Hi Hna) as Hmiss. rewrite <- Hs in Hmiss.
  destruct (client_message w s i ok d l rc W Hs' Hmiss Hh) as (D1 & D2 & D3 & D4 & D5 & D6 & D7 & D8 & _). destruct W as [W1 W2 W3 W4 W5].
  set (w' := mk_wsys _ _ _).
  assert (forall t, own (w_cli w') t = (own (w_cli w) t + if decide (s = t) then 1 else 0)%nat) as Ho.
  { intros t. cbn. rewrite own_arrive by done. by rewrite Hs. }
  assert (forall r, w_msg w s r = m_none) as Hnone.
  { intros r. destruct (decide (w_msg w s r = m_none)) as [|Hn]; [done|]. destruct (W5 s r Hn) as (_ & ? & _). lia. }
  assert (forall t r, w_msg w' t r = w_msg w t r \/ t = s /\ exists k, (r, k) ∈ l /\ w_msg w' t r = m_flying k) as Hm.
  { intros t r. cbn. destruct (decide (t = s)) as [->|Ht]; [rewrite fn_lookup_insert|left; by rewrite fn_lookup_insert_ne].
    destruct (posted_cases l (w_msg w s) r) as [|(k0 & ? & ?)]; eauto. }
  assert (forall r, total (contrib w' r) nsp = (total (contrib w r) nsp + if decide (s = r) then 1 else 0)%nat) as Ht.
  { intros r. assert (forall t, t <> r -> contrib w' r t = contrib w r t) as He.
    { intros t Htr. unfold contrib. rewrite !(decide_False (P := t = r)) by done. destruct (Hm t r) as [->|(-> & k0 & _ & ->)]; [done|]. by rewrite Hnone. }
    assert (contrib w' r r = (contrib w r r + if decide (s = r) then 1 else 0)%nat) as Hr by (unfold contrib; rewrite !decide_True by done; apply Ho).
    destruct (decide (s = r)) as [<-|Hne]; [by apply (total_step _ _ _ s)|]. rewrite Nat.add_0_r in *. apply contrib_total_ext. intros t _.
    destruct (decide (t = r)) as [->|]; auto. }
  split.
  - intros r Hr. cbn. destruct (decide (s = r)) as [<-|Hne]; [by rewrite fn_lookup_insert|rewrite fn_lookup_insert_ne by done; auto].
  - intros r Hr. rewrite Ho, Ht. cbn. destruct (decide (s = r)) as [<-|Hne]; [by rewrite fn_lookup_insert|rewrite fn_lookup_insert_ne by done; rewrite !Nat.add_0_r; auto].
  - intros r Hr. rewrite Ht. cbn. destruct (decide (s = r)) as [<-|Hne]; [by rewrite fn_lookup_insert|rewrite fn_lookup_insert_ne by done; rewrite Nat.add_0_r; auto].
  - intros j k'. cbn. destruct (decide (i = j)) as [<-|]; [by rewrite fn_lookup_insert|rewrite fn_lookup_insert_ne by done; apply W4].
  - intros t r Hn. rewrite Ho. destruct (Hm t r) as [E|(-> & k0 & Hin & E)]; rewrite E in *.
    + destruct (W5 t r Hn) as (? & Hf & ?). destruct (decide (s = t)) as [<-|]; [lia|]. rewrite Nat.add_0_r. auto.
    + destruct (D8 r k0 Hin) as (? & ? & -> & Hf). rewrite decide_True by done. repeat split; (done || lia || (by intros ? [= <-])).
Qed.

Lemma leave_server w t s k ok d l rc : winv w -> (t < nsp)%nat -> (s < nsp)%nat -> w_msg w t s = m_flying k ->
  rpc_handler_cn_unregister ok (w_srv w s) t k = Some (d, l, rc) ->
  winv (mk_wsys (<[s := d]> (w_srv w)) (w_cli w) (<[t := <[s := m_arrived]> (w_msg w t)]> (w_msg w))).
Proof.
  intros [W1 W2 W3 W4 W5] Hlt Hs Hk Hh. destruct (W5 t s) as (Hts & Hfull & Hpos & Hval); [by rewrite Hk|]. rewrite (Hval k Hk) in Hh.
  destruct (W1 s Hs) as (S1 & S2 & S3 & S4), (W2 s Hs) as (N1 & N2).
  assert (contrib w s t = 0%nat) as Hc0 by (unfold contrib; rewrite decide_False by done; by rewrite Hk).
  assert (d_f_stop (w_srv w s) = false) as Hf.
  { rewrite W3 by done. apply bool_decide_eq_false_2. intros E. destruct (count_full w s) as [H _]; [intros r Hr; by apply (W5 r s); rewrite Hr|done|].
    specialize (H t Hlt). lia. }
  unfold rpc_handler_cn_unregister in Hh. rewrite Hf in Hh. cbn [d_size_sp d_size_cp set_unreg] in Hh. rewrite S2, S3, decide_False in Hh by lia. injection Hh as <- _ _.
  set (w' := mk_wsys _ _ _).
  assert (forall t' r, w_msg w' t' r = if decide (t' = t /\ r = s) then m_arrived else w_msg w t' r) as Hm.
  { intros t' r. cbn. destruct (decide (t' = t)) as [->|]; [rewrite fn_lookup_insert|rewrite fn_lookup_insert_ne, decide_False by (done || tauto); done].
    destruct (decide (r = s)) as [->|]; [by rewrite fn_lookup_insert, decide_True|rewrite fn_lookup_insert_ne, decide_False by (done || tauto); done]. }
  assert (forall r, total (contrib w' r) nsp = (total (contrib w r) nsp + if decide (s = r) then charge t else 0)%nat) as Ht.
  { intros r. destruct (decide (s = r)) as [<-|Hne].
    - apply (total_step _ _ _ t); [done| |].
      + intros x Hx. unfold contrib. rewrite Hm, (decide_False (P := x = t /\ s = s)) by tauto. done.
      + rewrite Hc0. unfold contrib. by rewrite Hm, (decide_True (P := t = t /\ s = s)), decide_False, decide_True.
    - rewrite Nat.add_0_r. apply contrib_total_ext. intros x _. unfold contrib. rewrite Hm, (decide_False (P := x = t /\ r = s)) by (intros [_ ?]; congruence). done. }
  split.
  - intros r Hr. cbn. destruct (decide (s = r)) as [<-|Hne]; [by rewrite fn_lookup_insert|rewrite fn_lookup_insert_ne by done; auto].
  - intros r Hr. rewrite Ht. cbn. destruct (decide (s = r)) as [<-|Hne]; [rewrite fn_lookup_insert; cbn; rewrite N1, N2; split; [done|lia]|].
    rewrite fn_lookup_insert_ne by done; rewrite !Nat.add_0_r; auto.
  - intros r Hr. rewrite Ht. cbn. destruct (decide (s = r)) as [<-|Hne]; [|rewrite fn_lookup_insert_ne by done; rewrite Nat.add_0_r; auto].
    rewrite fn_lookup_insert. cbn. rewrite N2. destruct (Z.eqb_spec (Z.of_nat (total (contrib w s) nsp) + Z.of_nat (charge t)) (Z.of_nat ncp));
      [symmetry; apply bool_decide_eq_true_2|symmetry; apply bool_decide_eq_false_2]; lia.
  - done.
  - intros t' r Hn. rewrite Hm in *. cbn. destruct (decide _) as [[-> ->]|]; [repeat split; (done || lia)|auto].
Qed.

Lemma winv_step w w' : wstep w w' -> winv w -> winv w'.
Proof.
  intros H W. destruct H as [w i Hi Hn|w i k s ok d l rc Hi Hk Hs _ Hh|w t s k ok d l rc Ht Hs Hk _ Hh].
  - by apply keep_leave.
  - by eapply leave_client.
  - by eapply leave_server.
Qed.

Lemma winv_reach w w' : rtc wstep w w' -> winv w -> winv w'.
Proof. induction 1 as [|? ? ? H _ IH]; intros W; [done|]. apply IH. by eapply winv_step. Qed.

(** A server with all its clients has told the others, when no message fails. *)
Definition told (w : wsys) : Prop := forall t s, (t < nsp)%nat -> (s < nsp)%nat -> t <> s -> (0 < charge t)%nat ->
  own (w_cli w) t = charge t -> w_msg w t s <> m_none.

Lemma told_step w w' : (forall ok, fine ok -> forall i, ok i = true) -> wstep w w' -> winv w -> told w -> told w'.
Proof.
  intros Hfine H W Ht. destruct H as [w i Hi Hn|w i k s ok d l rc Hi Hk Hs Hok Hh|w t s k ok d l rc Hlt Hs Hk _ Hh]; intros t' r Ht' Hr Hne Hpos Hfull; cbn in *.
  - apply Ht; auto. rewrite <- Hfull. unfold own. f_equal. apply filter_agree. intros x _.
    destruct (decide (x = i)) as [->|Hx]; [rewrite fn_lookup_insert, Hn; split; by intros [_ ?]|by rewrite fn_lookup_insert_ne].
  - rewrite unregister_at in Hs by done. rewrite (wv_cli w W i k Hk) in Hh. assert (w_cli w i <> m_arrived) as Hna by (by rewrite Hk).
    pose proof (own_missing (w_cli w) i Hi Hna) as Hmiss. rewrite <- Hs in Hmiss. rewrite own_arrive in Hfull by done. rewrite <- Hs in Hfull.
    destruct (decide (t' = s)) as [->|Hts].
    + rewrite decide_True in Hfull by done. rewrite fn_lookup_insert.
      destruct (client_message w s i ok d l rc W Ht' Hmiss Hh) as (_ & _ & _ & _ & _ & _ & _ & _ & D9).
      destruct (D9 (Hfine ok Hok) Hfull r Hr) as [k' Hin]; [done|]. by eapply posted_sent.
    + rewrite fn_lookup_insert_ne by done. rewrite decide_False, Nat.add_0_r in Hfull by done. auto.
  - destruct (decide (t' = t)) as [->|]; [rewrite fn_lookup_insert|by rewrite fn_lookup_insert_ne; auto].
    destruct (decide (r = s)) as [->|]; [by rewrite fn_lookup_insert|rewrite fn_lookup_insert_ne by done; auto].
Qed.

Lemma told_reach w w' : (forall ok, fine ok -> forall i, ok i = true) -> rtc wstep w w' -> winv w -> told w -> told w'.
Proof. intros Hf. induction 1 as [|? ? ? H _ IH]; intros W T; [done|]. apply IH; [by eapply winv_step|by eapply told_step]. Qed.

Lemma told_init w : w_init nsp ncp cl w -> told w.
Proof.
  intros [_ _ _ W4 _] t s Ht Hs _ Hpos Hfull. exfalso. unfold own in Hfull.
  rewrite filter_keep_none in Hfull; [cbn in Hfull; lia|]. apply list.Forall_forall. intros x _ [_ Hx]. by rewrite W4 in Hx.
Qed.

(** The handlers never leave their tables. *)
Lemma unregister_defined w s ok from k : winv w -> (s < nsp)%nat -> is_Some (rpc_handler_cn_unregister ok (w_srv w s) from k).
Proof.
  intros W Hs. destruct (wv_self w W s Hs) as (S1 & _). unfold rpc_handler_cn_unregister. destruct (d_f_stop _); [done|].
  cbn [d_size_sp set_unreg d_num_charge set_charge d_self]. destruct (decide _); [|done]. rewrite S1. destruct (_ =? 0); [|done]. cbn.
  by destruct (send_each _ _ _).
Qed.

(** *** Every run ends *)

(** The steps a message still takes: it is sent, and it arrives. *)
Definition steps_left (m : msg_state) : nat := match m with m_none => 2 | m_flying _ => 1 | m_arrived => 0 end.

Definition work_left (w : wsys) : nat :=
  (total (fun i => steps_left (w_cli w i)) ncp + total (fun t => total (fun s => steps_left (w_msg w t s)) nsp) nsp)%nat.

(** One message takes a step. *)
Lemma total_advance (f : nat -> msg_state) m x n : (x < n)%nat -> steps_left (f x) = S (steps_left m) ->
  total (fun i => steps_left (f i)) n = S (total (fun i => steps_left (<[x := m]> f i)) n).
Proof.
  intros Hx E. rewrite (total_step (fun i => steps_left (<[x := m]> f i)) (fun i => steps_left (f i)) n x 1); [lia|done| |].
  - intros t Ht. by rewrite fn_lookup_insert_ne.
  - rewrite fn_lookup_insert. lia.
Qed.

Lemma posted_left l f q : f q = m_none -> (steps_left (posted l f q) <= steps_left (f q))%nat.
Proof. intros E. destruct (posted_cases l f q) as [->|(k & _ & ->)]; [done|]. rewrite E. cbn. lia. Qed.

Lemma step_work_left w w' : winv w -> wstep w w' -> (work_left w' < work_left w)%nat.
Proof.
  intros W Hs. unfold work_left. destruct Hs as [w i Hi Hn|w i k s ok d l rc Hi Hk Es _ Hh|w t s k ok d l rc Ht Hs Hk _ Hh]; cbn.
  - rewrite (total_advance (w_cli w) (m_flying 1) i ncp Hi); [lia|by rewrite Hn].
  - rewrite (total_advance (w_cli w) m_arrived i ncp Hi) by (by rewrite Hk).
    enough (total (fun t => total (fun q => steps_left (<[s := posted l (w_msg w s)]> (w_msg w) t q)) nsp) nsp <=
            total (fun t => total (fun q => steps_left (w_msg w t q)) nsp) nsp)%nat by lia.
    apply total_le. intros t Ht. destruct (decide (t = s)) as [->|Hne]; [rewrite fn_lookup_insert|by rewrite fn_lookup_insert_ne].
    apply total_le. intros q Hq. apply posted_left. destruct (decide (w_msg w s q = m_none)) as [|Hn]; [done|].
    destruct (wv_msg w W s q Hn) as (_ & Hfull & _). rewrite unregister_at in Es by done.
    pose proof (own_missing (w_cli w) i Hi ltac:(by rewrite Hk)) as Hm. rewrite <- Es in Hm. lia.
  - rewrite (total_step (fun x => total (fun q => steps_left (<[t := <[s := m_arrived]> (w_msg w t)]> (w_msg w) x q)) nsp)
      (fun x => total (fun q => steps_left (w_msg w x q)) nsp) nsp t 1); [lia|done| |].
    + intros x Hx. by rewrite fn_lookup_insert_ne.
    + rewrite fn_lookup_insert, (total_advance (w_msg w t) m_arrived s nsp Hs); [lia|by rewrite Hk].
Qed.

Lemma run_work_left n w w' : winv w -> nsteps wstep n w w' -> (n + work_left w' <= work_left w)%nat.
Proof.
  intros W H. induction H as [|n w1 w2 w3 Hs Hr IH]; [lia|]. pose proof (step_work_left w1 w2 W Hs). specialize (IH (winv_step w1 w2 Hs W)). lia.
Qed.

Lemma total_bound f b n : (forall t, (t < n)%nat -> f t <= b)%nat -> (total f n <= b * n)%nat.
Proof. induction n as [|n IH]; intros H; [unfold total; cbn; lia|]. rewrite total_S. pose proof (H n). assert (total f n <= b * n)%nat by auto. lia. Qed.

Lemma work_left_bound w : (work_left w <= 2 * (ncp + nsp * nsp))%nat.
Proof.
  assert (H : forall m, (steps_left m <= 2)%nat) by (by intros []; cbn; lia). unfold work_left.
  pose proof (total_bound (fun i => steps_left (w_cli w i)) 2 ncp (fun t _ => H _)).
  pose proof (total_bound (fun t => total (fun s => steps_left (w_msg w t s)) nsp) (2 * nsp) nsp (fun t _ => total_bound _ 2 nsp (fun s _ => H _))). lia.
Qed.

(** Where no step is left, all messages have arrived. *)
Lemma stuck_arrived w : winv w -> (exists ok, fine ok) -> (forall w', ~ wstep w w') ->
  (forall i, (i < ncp)%nat -> w_cli w i = m_arrived) /\ forall t s k, (t < nsp)%nat -> (s < nsp)%nat -> w_msg w t s <> m_flying k.
Proof.
  intros W [ok Hok] Hno. split.
  - intros i Hi. destruct (w_cli w i) as [|k|] eqn:E; [|exfalso|done].
    + by destruct (Hno _ (w_leave nsp ncp cl fine w i Hi E)).
    + assert (Hs : (dc_unregister (cl i) < nsp)%nat) by (rewrite unregister_at by done; apply Nat.mod_upper_bound; lia).
      destruct (unregister_defined w _ ok (nsp + i) k W Hs) as [[[d l] rc] Hh]. eapply Hno, (w_client nsp ncp cl fine w i k); eauto.
  - intros t s k Ht Hs E. destruct (unregister_defined w s ok t k W Hs) as [[[d l] rc] Hh]. eapply Hno, (w_server nsp ncp cl fine w t s k); eauto.
Qed.
End stopping.

(** ** Properties *)

(** C30: a server stops only when all clients have left.  For every order in
    which the clients leave and the messages of clients and servers arrive, and
    whichever messages between servers fail: no handler leaves its table, and
    when a server has [f_stop] it and the other servers have heard of every
    client. *)
Theorem tcp_stop_safe nsp ncp cl fine w w' : w_init nsp ncp cl w -> rtc (wstep nsp ncp cl fine) w w' ->
  (forall s ok from k, (s < nsp)%nat -> is_Some (rpc_handler_cn_unregister ok (w_srv w' s) from k)) /\
  (forall s, (s < nsp)%nat -> d_f_stop (w_srv w' s) = true -> forall i, (i < ncp)%nat -> w_cli w' i = m_arrived).
Proof.
  intros Hi Hr. pose proof (wi_pos _ _ _ _ Hi) as [Hs Hc]. pose proof (wi_cl _ _ _ _ Hi) as Hcl.
  pose proof (winv_reach nsp ncp cl fine Hs Hc Hcl w w' Hr (winv_init nsp ncp cl Hs Hc w Hi)) as W.
  split; [intros; by eapply unregister_defined|]. intros s Hlt Hf. rewrite (wv_stop _ _ _ W s Hlt) in Hf. apply bool_decide_eq_true in Hf.
  apply (count_full nsp ncp Hs Hc w' s); [|done]. intros t Ht. apply (wv_msg _ _ _ W t s). by rewrite Ht.
Qed.

(** C31: every server stops.  When no message between servers fails, every run
    of departures and messages is finite, with at most [2 * (ncp + nsp * nsp)]
    steps; and when no step is left all clients have left and every server has
    [f_stop]. *)
Theorem tcp_all_stop nsp ncp cl fine w : (exists ok, fine ok) -> (forall ok, fine ok -> forall i, ok i = true) -> w_init nsp ncp cl w ->
  (forall n w', nsteps (wstep nsp ncp cl fine) n w w' -> (n <= 2 * (ncp + nsp * nsp))%nat) /\
  (forall w', rtc (wstep nsp ncp cl fine) w w' -> (forall w'', ~ wstep nsp ncp cl fine w' w'') ->
     (forall i, (i < ncp)%nat -> w_cli w' i = m_arrived) /\ forall s, (s < nsp)%nat -> d_f_stop (w_srv w' s) = true).
Proof.
  intros Hex Hf Hi. pose proof (wi_pos _ _ _ _ Hi) as [Hs Hc]. pose proof (wi_cl _ _ _ _ Hi) as Hcl.
  pose proof (winv_init nsp ncp cl Hs Hc w Hi) as W0. split.
  { intros n w' H. pose proof (run_work_left nsp ncp cl fine Hs Hc Hcl n w w' W0 H). pose proof (work_left_bound nsp ncp Hs Hc w). lia. }
  intros w' Hr Hstuck. pose proof (winv_reach nsp ncp cl fine Hs Hc Hcl w w' Hr W0) as W.
  destruct (stuck_arrived nsp ncp cl fine Hs Hc Hcl w' W Hex Hstuck) as [Hall Hno]. split; [done|]. intros s Hlt.
  pose proof (told_reach nsp ncp cl fine Hs Hc Hcl w w' Hf Hr W0 (told_init nsp ncp cl Hs Hc w Hi)) as T.
  rewrite (wv_stop _ _ _ W s Hlt). apply bool_decide_eq_true_2. rewrite <- (charge_total nsp ncp Hs) at 2. apply contrib_total_ext. intros t Ht.
  assert (forall r, own nsp ncp (w_cli w') r = num_clients nsp ncp r) as Ho.
  { intros r. unfold own, num_clients. f_equal. apply filter_agree. intros x Hx%elem_of_seq. rewrite Hall by lia. tauto. }
  unfold contrib. destruct (decide (t = s)) as [->|Hne]; [apply Ho|]. destruct (decide _) as [|Hna]; [done|].
  destruct (decide (0 < num_clients nsp ncp t)%nat) as [Hp|]; [|lia]. exfalso. pose proof (T t s Ht Hlt Hne Hp (Ho t)) as Hn.
  destruct (w_msg w' t s) as [|k|] eqn:E; try done. by apply (Hno t s k).
Qed.

(** *** Two servers and three clients *)

Definition demo_cl (i : nat) : dart_client := mk_dc (mk_pm (Z.of_nat (2 + i)) 1 0) [] [] 2 3 2 true.
Definition demo_ds (s : nat) : dart_server :=
  set_self (ds_alloc (Z.of_nat s) 2 3) (mk_pm (Z.of_nat s) 0 (Z.of_nat s)) (Some s).
Definition demo_w : wsys := mk_wsys (fun s => default (demo_ds s) (ds_alloc_charge (demo_ds s))) (fun _ => m_none) (fun _ _ => m_none).
Definition no_failure (ok : nat -> bool) : Prop := forall i, ok i = true.

Definition demo_leave (i : nat) (w : wsys) : wsys := mk_wsys (w_srv w) (<[i := m_flying 1]> (w_cli w)) (w_msg w).
Definition demo_client (i : nat) (w : wsys) : wsys :=
  let s := dc_unregister (demo_cl i) in
  match rpc_handler_cn_unregister (fun _ => true) (w_srv w s) (2 + i) 1 with
  | Some (d, l, _) => mk_wsys (<[s := d]> (w_srv w)) (<[i := m_arrived]> (w_cli w)) (<[s := posted l (w_msg w s)]> (w_msg w))
  | None => w
  end.
Definition demo_server (t s : nat) (k : Z) (w : wsys) : wsys :=
  match rpc_handler_cn_unregister (fun _ => true) (w_srv w s) t k with
  | Some (d, l, _) => mk_wsys (<[s := d]> (w_srv w)) (w_cli w) (<[t := <[s := m_arrived]> (w_msg w t)]> (w_msg w))
  | None => w
  end.

Definition demo_wstate : wsys :=
  demo_server 0 1 2 (demo_client 2 (demo_server 1 0 1 (demo_client 0 (demo_client 1 (demo_leave 2 (demo_leave 0 (demo_leave 1 demo_w))))))).

Abbreviation demo_wstep := (wstep 2 3 demo_cl no_failure).

Lemma demo_leave_step w i : (i < 3)%nat -> w_cli w i = m_none -> demo_wstep w (demo_leave i w).
Proof. intros. by apply w_leave. Qed.

Lemma demo_client_step w i r : (i < 3)%nat -> w_cli w i = m_flying 1 ->
  rpc_handler_cn_unregister (fun _ => true) (w_srv w (dc_unregister (demo_cl i))) (2 + i) 1 = Some r -> demo_wstep w (demo_client i w).
Proof. intros Hi Hk E. unfold demo_client. rewrite E. destruct r as [[d l] rc]. by eapply w_client. Qed.

Lemma demo_server_step w t s k r : (t < 2)%nat -> (s < 2)%nat -> w_msg w t s = m_flying k ->
  rpc_handler_cn_unregister (fun _ => true) (w_srv w s) t k = Some r -> demo_wstep w (demo_server t s k w).
Proof. intros Ht Hs Hk E. unfold demo_server. rewrite E. destruct r as [[d l] rc]. by eapply w_server. Qed.

Lemma demo_w_init : w_init 2 3 demo_cl demo_w.
Proof.
  split; [lia|done| |done|done]. intros s Hs. exists (demo_ds s). split; [|done]. cbn. by destruct s as [|[|]].
Qed.

Lemma demo_w_run : rtc demo_wstep demo_w demo_wstate.
Proof.
  unfold demo_wstate.
  eapply rtc_l; [apply (demo_leave_step _ 1); [lia|reflexivity]|].
  eapply rtc_l; [apply (demo_leave_step _ 0); [lia|reflexivity]|].
  eapply rtc_l; [apply (demo_leave_step _ 2); [lia|reflexivity]|].
  eapply rtc_l; [eapply (demo_client_step _ 1); [lia|reflexivity|vm_compute; reflexivity]|].
  eapply rtc_l; [eapply (demo_client_step _ 0); [lia|reflexivity|vm_compute; reflexivity]|].
  eapply rtc_l; [eapply (demo_server_step _ 1 0 1); [lia|lia|vm_compute; reflexivity|vm_compute; reflexivity]|].
  eapply rtc_l; [eapply (demo_client_step _ 2); [lia|reflexivity|vm_compute; reflexivity]|].
  eapply rtc_l; [eapply (demo_server_step _ 0 1 2); [lia|lia|vm_compute; reflexivity|vm_compute; reflexivity]|].
  apply rtc_refl.
Qed.

Lemma tcp_stop_safe_witness : d_f_stop (w_srv demo_wstate 1) = true /\ w_cli demo_wstate 2 = m_arrived.
Proof.
  split; [vm_compute; reflexivity|]. apply (tcp_stop_safe 2 3 demo_cl no_failure demo_w demo_wstate demo_w_init demo_w_run) with (s := 1%nat); [lia|vm_compute; reflexivity|lia].
Defined.

Lemma demo_w_stuck w' : ~ demo_wstep demo_wstate w'.
Proof.
  intros H. inversion H as [w i Hi E|w i k s ok d l rc Hi E|w t s k ok d l rc Ht Hs E]; subst.
  - by destruct i as [|[|[|i]]]; [vm_compute in E..|lia].
  - by destruct i as [|[|[|i]]]; [vm_compute in E..|lia].
  - destruct t as [|[|t]]; [| |lia]; (destruct s as [|[|s]]; [by vm_compute in E..|lia]).
Qed.

Lemma tcp_all_stop_witness : d_f_stop (w_srv demo_wstate 0) = true.
Proof.
  apply (tcp_all_stop 2 3 demo_cl no_failure demo_w ltac:(by exists (fun _ => true)) ltac:(done) demo_w_init); [exact demo_w_run|exact demo_w_stuck|lia].
Defined.
