(* ===== verification/TcpStart.v ===== *)
(** * The start over TCP as a system

    The master server, the other servers, and the processes that connect,
    register and get the table, with the operations of [TcpMembership] and all
    orders of connections and messages.  Messages from the master to a server
    arrive in order; those of different processes in any order.

    [rstep] has the conditions of the code only.  The code checks neither how
    many processes connect nor when an application is complete, so what is
    shown is shown of [orderly] steps: no message fails, at most [nsp] servers
    connect, the processes of an application agree on its size and there is
    room for them, and no application is complete before the last server has
    registered.  What happens otherwise is at the end. *)

From stdpp Require Import relations functions.
From S2P Require Import Prelude TcpMembership.

#[local] Open Scope Z_scope.

(** [r_reg k]: what the process at place [k] says of itself, while it is under
    way to the master; [r_who k]: the process that was given place [k];
    [r_chan j]: messages of the master to server [j]; [r_done]: the
    applications that are complete, in this order. *)
Record rsys := mk_rsys {
  r_master : dart_server; r_slave : nat -> dart_server;
  r_reg : nat -> option ptlid_map; r_who : nat -> option ptlid_map;
  r_chan : nat -> list msg; r_done : list (Z * nat * nat) }.

(** An application that agrees on its size, and for which there is room. *)
Definition admits (d : dart_server) (app_id : Z) (size : nat) : Prop :=
  match app_find (d_apps d) app_id with
  | Some a => ap_num_peers a = size /\ (ap_cnt_peers a < ap_num_peers a)%nat
  | None => (0 < size)%nat /\ (d_num_cp d + size <= d_size_cp d)%nat
  end.

Definition push (l : list (nat * msg)) (chan : nat -> list msg) (j : nat) : list msg :=
  chan j ++ map snd (filter (fun x => fst x = j) l).

(** An application: its id, and its part of the table. *)
Definition span (a : app_info) : Z * nat * nat := (ap_id a, ap_first a, ap_num_peers a).
Definition announced (m : msg) : list (Z * nat * nat) :=
  match m with sp_announce_cp info _ => [(pi_app_id info, pi_id info, pi_app_size info)] | _ => [] end.

Definition all_ok : nat -> bool := fun _ => true.

Section starting.
Context (nsp ncp : nat) (conf : Z).
Context (Hnsp : (0 < nsp)%nat) (Hncp : (0 < ncp)%nat).

(** What happens: a server or a process of an application connects, the process
    at place [k] registers, server [j] gets the next message of the master. *)
Inductive event := e_server (address : Z) | e_client (app_id : Z) (size : nat) (address : Z) | e_register (k : nat) | e_deliver (j : nat).

(** [ok]: whether the message to a server can be allocated and sent.  A process
    whose connection is not taken changes nothing. *)
Inductive rstep (ok : nat -> bool) : event -> rsys -> rsys -> Prop :=
  | r_server y address d k : ds_listen true (r_master y) new_server = Some (d, Some k) ->
      rstep ok (e_server address) y
        (let '(slave, pm) := ds_boot_slave conf (ds_alloc address nsp ncp) in
         mk_rsys d (<[k := slave]> (r_slave y)) (<[k := Some pm]> (r_reg y)) (<[k := Some pm]> (r_who y)) (r_chan y) (r_done y))
  | r_client y app_id size address d k : ds_listen true (r_master y) (new_client app_id size) = Some (d, Some k) ->
      rstep ok (e_client app_id size address) y
        (let pm := snd (dc_register_at_master conf (dc_alloc address app_id)) in
         mk_rsys d (r_slave y) (<[k := Some pm]> (r_reg y)) (<[k := Some pm]> (r_who y)) (r_chan y) (r_done y))
  | r_request y k pm d l rc : (k < nsp)%nat -> r_reg y k = Some pm -> rpc_handler_sp_reg_request ok (r_master y) k pm = Some (d, l, rc) ->
      rstep ok (e_register k) y (mk_rsys d (r_slave y) (<[k := None]> (r_reg y)) (r_who y) (push l (r_chan y)) (r_done y))
  | r_register y k pm d l rc : (nsp <= k)%nat -> r_reg y k = Some pm -> rpc_handler_cn_register ok (r_master y) k pm = Some (d, l, rc) ->
      rstep ok (e_register k) y
        (mk_rsys d (r_slave y) (<[k := None]> (r_reg y)) (r_who y) (push l (r_chan y))
           (match app_find (d_apps d) (pm_appid pm) with
            | Some a => if decide (ap_registered a = ap_num_peers a) then r_done y ++ [span a] else r_done y
            | None => r_done y
            end))
  | r_deliver y j m rest d : (0 < j < nsp)%nat -> r_chan y j = m :: rest ->
      match m with
      | sp_reg_reply p data => rpc_handler_sp_reg_reply (r_slave y j) p data
      | sp_announce_cp info data => rpc_handler_sp_announce_cp (r_slave y j) info data
      end = Some d ->
      rstep ok (e_deliver j) y (mk_rsys (r_master y) (<[j := d]> (r_slave y)) (r_reg y) (r_who y) (<[j := rest]> (r_chan y)) (r_done y)).

(** With the process at place [k] its application is complete. *)
Definition completes (y : rsys) (k : nat) : Prop :=
  match r_reg y k with
  | Some pm => match app_find (d_apps (r_master y)) (pm_appid pm) with Some a => S (ap_registered a) = ap_num_peers a | None => False end
  | None => False
  end.

Definition orderly (y : rsys) (e : event) : Prop :=
  match e with
  | e_server _ => (d_num_sp (r_master y) < nsp)%nat
  | e_client app_id size _ => admits (r_master y) app_id size
  | e_register k => (k < nsp)%nat \/ d_num_sp_reg (r_master y) = nsp \/ ~ completes y k
  | e_deliver _ => True
  end.

(** The steps of an orderly start. *)
Definition ostep (y y' : rsys) : Prop := exists e, orderly y e /\ rstep all_ok e y y'.

Definition r_init : rsys :=
  mk_rsys (ds_boot_master (ds_alloc conf nsp ncp)) (fun _ => ds_alloc 0 nsp ncp) (fun _ => None) (<[0%nat := Some (mk_pm 0 0 conf)]> (fun _ => None)) (fun _ => []) [].

(** *** The invariant *)

(** The process at a place is registered; its entry is then final. *)
Definition settled (y : rsys) (k : nat) : Prop := is_Some (r_who y k) /\ r_reg y k = None.

#[export] Instance settled_dec y k : Decision (settled y k).
Proof. unfold settled. apply _. Defined.

Definition entry (k : nat) (pm : ptlid_map) : ptlid_map := mk_pm (Z.of_nat k) (pm_appid pm) (pm_address pm).
Definition final (y : rsys) (k : nat) : option ptlid_map := entry k <$> r_who y k.

Definition sizes (l : list (Z * nat * nat)) : nat := sum_list (map snd l).
Definition complete (a : app_info) : Prop := ap_registered a = ap_num_peers a.

#[export] Instance complete_dec a : Decision (complete a).
Proof. unfold complete. apply _. Defined.

(** The applications one after the other, the last one first. *)
Fixpoint chain (l : list (Z * nat * nat)) : Prop :=
  match l with
  | [] => True
  | (_, f, _) :: l => f = (nsp + sizes l)%nat /\ chain l
  end.

Record app_ok (y : rsys) (a : app_info) : Prop := {
  ak_pos : (0 < ap_num_peers a)%nat;
  ak_cnt : (ap_cnt_peers a <= ap_num_peers a)%nat;
  ak_reg : ap_registered a = length (filter (settled y) (seq (ap_first a) (ap_cnt_peers a)));
  ak_in : forall k, (ap_first a <= k < ap_first a + ap_cnt_peers a)%nat -> exists pm, r_who y k = Some pm /\ pm_appid pm = ap_id a;
  ak_out : forall k, (ap_first a + ap_cnt_peers a <= k < ap_first a + ap_num_peers a)%nat -> r_who y k = None
}.

Record minv (y : rsys) : Prop := {
  mi_len : length (d_tab (r_master y)) = (nsp + ncp)%nat;
  mi_self : d_self (r_master y) = Some 0%nat;
  mi_sp : d_size_sp (r_master y) = nsp;
  mi_cp : d_size_cp (r_master y) = ncp;
  mi_num : (1 <= d_num_sp (r_master y) <= nsp)%nat;
  mi_srv : forall k, (k < nsp)%nat -> is_Some (r_who y k) <-> (k < d_num_sp (r_master y))%nat;
  mi_reg : forall k pm, r_reg y k = Some pm -> r_who y k = Some pm;
  mi_tab : forall k pm, r_who y k = Some pm -> exists e, d_tab (r_master y) !! k = Some e /\ pm_id e = Z.of_nat k;
  mi_fin : forall k, settled y k -> d_tab (r_master y) !! k = final y k;
  mi_sreg : d_num_sp_reg (r_master y) = length (filter (settled y) (seq 0 nsp));
  mi_early : d_num_sp_reg (r_master y) <> nsp -> r_done y = [];
  mi_chain : chain (map span (d_apps (r_master y)));
  mi_ids : NoDup (map ap_id (d_apps (r_master y)));
  mi_apps : Forall (app_ok y) (d_apps (r_master y));
  mi_ncp : d_num_cp (r_master y) = sizes (map span (d_apps (r_master y))) /\ (d_num_cp (r_master y) <= ncp)%nat;
  mi_rest : forall k, (nsp + d_num_cp (r_master y) <= k)%nat -> r_who y k = None;
  mi_done : r_done y ≡ₚ map span (filter complete (d_apps (r_master y)));
  mi_freg : d_f_reg (r_master y) = true <-> d_num_cp (r_master y) = ncp /\ Forall complete (d_apps (r_master y))
}.

(** Entries of a list are final, from place [first] on. *)
Definition finals (y : rsys) (first : nat) (l : list ptlid_map) : Prop :=
  forall i, (i < length l)%nat -> settled y (first + i) /\ l !! i = final y (first + i).

Definition msg_ok (y : rsys) (m : msg) : Prop :=
  match m with
  | sp_reg_reply p data => False
  | sp_announce_cp info data => length data = pi_app_size info /\ (pi_id info + pi_app_size info <= nsp + ncp)%nat /\ finals y (pi_id info) data
  end.

(** A server that has its place and the table of the servers, or waits for it. *)
Definition known_self (y : rsys) (j : nat) (chan : list msg) : Prop :=
  d_self (r_slave y j) = Some j /\ (forall k, (k < nsp)%nat -> settled y k /\ d_tab (r_slave y j) !! k = final y k) /\ Forall (msg_ok y) chan.

Definition waits_self (y : rsys) (j : nat) (chan : list msg) : Prop :=
  d_self (r_slave y j) = None /\ d_apps (r_slave y j) = [] /\ d_f_reg (r_slave y j) = false /\
  exists p data rest, chan = sp_reg_reply p data :: rest /\ pm_id p = Z.of_nat j /\ length data = nsp /\ finals y 0 data /\ Forall (msg_ok y) rest.

Record sinv (y : rsys) (j : nat) : Prop := {
  si_len : length (d_tab (r_slave y j)) = (nsp + ncp)%nat;
  si_sp : d_size_sp (r_slave y j) = nsp;
  si_cp : d_size_cp (r_slave y j) = ncp;
  si_ncp : d_num_cp (r_slave y j) = sizes (map span (d_apps (r_slave y j)));
  si_early : d_num_sp_reg (r_master y) <> nsp -> r_chan y j = [] /\ d_self (r_slave y j) = None /\ d_apps (r_slave y j) = [] /\ d_f_reg (r_slave y j) = false;
  si_self : d_num_sp_reg (r_master y) = nsp -> known_self y j (r_chan y j) \/ waits_self y j (r_chan y j);
  si_done : rev (map span (d_apps (r_slave y j))) ++ concat (map announced (r_chan y j)) = r_done y;
  si_apps : forall i f n k, (i, f, n) ∈ map span (d_apps (r_slave y j)) -> (f <= k < f + n)%nat -> settled y k /\ d_tab (r_slave y j) !! k = final y k;
  si_freg : d_f_reg (r_slave y j) = true <-> d_num_cp (r_slave y j) = ncp
}.

Record rinv (y : rsys) : Prop := {
  rv_master : minv y;
  rv_slaves : forall j, (0 < j < nsp)%nat -> sinv y j
}.

(** *** Places that are settled stay so *)

Definition grows (y y' : rsys) : Prop := forall k, settled y k -> settled y' k /\ r_who y' k = r_who y k.

Lemma grows_final y y' k : grows y y' -> settled y k -> final y' k = final y k.
Proof. intros G H. unfold final. by rewrite (proj2 (G k H)). Qed.

Lemma finals_grow y y' f l : grows y y' -> finals y f l -> finals y' f l.
Proof. intros G H i Hi. destruct (H i Hi) as [Hs Hl]. split; [by apply G|]. by rewrite (grows_final y y'). Qed.

Lemma msg_ok_grow y y' m : grows y y' -> msg_ok y m -> msg_ok y' m.
Proof. intros G. destruct m; cbn; [done|]. intros (? & ? & ?). eauto using finals_grow. Qed.

Lemma msgs_ok_grow y y' l : grows y y' -> Forall (msg_ok y) l -> Forall (msg_ok y') l.
Proof. intros G H. eapply Forall_impl; [|exact H]. intros m. by apply msg_ok_grow. Qed.

(** A slave that the master sends something to. *)
Lemma sinv_push y y' j l : grows y y' -> sinv y j -> r_slave y' j = r_slave y j -> r_chan y' j = r_chan y j ++ l ->
  r_done y' = r_done y ++ concat (map announced l) -> d_num_sp_reg (r_master y') = d_num_sp_reg (r_master y) ->
  Forall (msg_ok y') l -> l = [] \/ d_num_sp_reg (r_master y) = nsp -> sinv y' j.
Proof.
  intros G [S1 S2 S3 S4 S5 S6 S7 S8 S9] E1 E2 E3 E4 Hl He. split; rewrite ?E1, ?E2, ?E3, ?E4; auto.
  - intros H. destruct He as [->|He]; [|done]. rewrite app_nil_r. auto.
  - intros H. destruct (S6 H) as [(A1 & A2 & A3)|(A1 & A2 & A3 & p & data & rest & -> & B1 & B2 & B3 & B4)]; [left|right].
    + unfold known_self. rewrite E1. split; [done|]. split; [|apply Forall_app; split; [by eapply msgs_ok_grow|done]]. intros k Hk. destruct (A2 k Hk) as [Hs Ht].
      split; [by apply G|]. by rewrite (grows_final y y').
    + unfold waits_self. rewrite E1. split; [done|]. split; [done|]. split; [done|]. exists p, data, (rest ++ l).
      split; [done|]. split; [done|]. split; [done|]. split; [by eapply finals_grow|]. apply Forall_app. split; [by eapply msgs_ok_grow|done].
  - by rewrite map_app, concat_app, app_assoc, S7.
  - intros i f n k Hin Hk. destruct (S8 i f n k Hin Hk) as [Hs Ht]. split; [by apply G|]. by rewrite (grows_final y y').
Qed.

(** A slave that nothing was sent to. *)
Lemma sinv_keep y y' j : grows y y' -> sinv y j -> r_slave y' j = r_slave y j -> r_chan y' j = r_chan y j -> r_done y' = r_done y ->
  d_num_sp_reg (r_master y') = d_num_sp_reg (r_master y) -> sinv y' j.
Proof. intros G S E1 E2 E3 E4. apply (sinv_push y y' j []); rewrite ?app_nil_r; auto. Qed.

(** All servers are registered. *)
Lemma filter_full (P : nat -> Prop) `{!forall x, Decision (P x)} (l : list nat) : length (filter P l) = length l -> forall x, x ∈ l -> P x.
Proof.
  induction l as [|y l IH]; intros Hl x Hx; [by apply not_elem_of_nil in Hx|]. rewrite filter_cons in Hl. pose proof (length_filter P l) as Hle.
  destruct (decide (P y)) as [Hy|Hy]; cbn in Hl; [|lia]. apply elem_of_cons in Hx as [->|Hx]; [done|]. apply IH; [lia|done].
Qed.

Lemma all_settled y : minv y -> d_num_sp_reg (r_master y) = nsp -> forall k, (k < nsp)%nat -> settled y k.
Proof.
  intros M E k Hk. rewrite (mi_sreg y M) in E. apply (filter_full (settled y) (seq 0 nsp)); [by rewrite length_seq|]. apply elem_of_seq. lia.
Qed.

(** A place that a process is given. *)
Record taken (k : nat) (pm : ptlid_map) (y y' : rsys) : Prop := {
  tk_new : r_who y k = None;
  tk_who : r_who y' = <[k := Some pm]> (r_who y);
  tk_reg : r_reg y' = <[k := Some pm]> (r_reg y)
}.

Lemma taken_settled k pm y y' x : taken k pm y y' -> settled y' x <-> settled y x.
Proof.
  intros [T1 T2 T3]. unfold settled. rewrite T2, T3. destruct (decide (x = k)) as [->|Hx].
  - rewrite !fn_lookup_insert, T1. split; [by intros [_ ?]|by intros [[? ?] _]].
  - by rewrite !fn_lookup_insert_ne.
Qed.

Lemma taken_grows k pm y y' : taken k pm y y' -> grows y y'.
Proof.
  intros T x Hx. split; [by apply (taken_settled k pm y y' x T)|]. rewrite (tk_who _ _ _ _ T). apply fn_lookup_insert_ne.
  intros ->. destruct Hx as [[? Hx] _]. by rewrite (tk_new _ _ _ _ T) in Hx.
Qed.

Lemma taken_filter k pm y y' (l : list nat) : taken k pm y y' -> filter (settled y') l = filter (settled y) l.
Proof. intros T. apply filter_agree. intros x _. by apply (taken_settled k pm y y' x). Qed.

(** Entries of the master when place [k] is taken. *)
Lemma taken_tab k pm y y' t : taken k pm y y' -> minv y -> set_id (d_tab (r_master y)) k = Some t -> d_tab (r_master y') = t ->
  length t = (nsp + ncp)%nat /\ (forall x p, r_who y' x = Some p -> exists e, t !! x = Some e /\ pm_id e = Z.of_nat x) /\
  (forall x, settled y' x -> t !! x = final y' x).
Proof.
  intros T M E Et. unfold set_id in E. destruct (d_tab (r_master y) !! k) as [p|] eqn:Ek; [|done]. injection E as <-. split; [|split].
  - rewrite length_insert. apply M.
  - intros x q Hx. destruct (decide (x = k)) as [->|Hne].
    + eexists. split; [apply list_lookup_insert_eq; by eapply lookup_lt_Some|done].
    + rewrite list_lookup_insert_ne by done. rewrite (tk_who _ _ _ _ T), fn_lookup_insert_ne in Hx by done. by eapply mi_tab.
  - intros x Hx. apply (taken_settled k pm y y' x T) in Hx as Hx'. rewrite (grows_final y y' x (taken_grows k pm y y' T) Hx').
    rewrite list_lookup_insert_ne; [by apply mi_fin|]. intros <-. destruct Hx' as [[? Hw] _]. by rewrite (tk_new _ _ _ _ T) in Hw.
Qed.

Lemma taken_app_ok k pm y y' a : taken k pm y y' -> app_ok y a -> ~ (ap_first a <= k < ap_first a + ap_num_peers a)%nat -> app_ok y' a.
Proof.
  intros T [A1 A2 A3 A4 A5] Hk. split; auto.
  - by rewrite (taken_filter k pm y y').
  - intros x Hx. rewrite (tk_who _ _ _ _ T), fn_lookup_insert_ne by lia. auto.
  - intros x Hx. rewrite (tk_who _ _ _ _ T), fn_lookup_insert_ne by lia. auto.
Qed.


(** *** Applications *)

Lemma sizes_app l l' : sizes (l ++ l') = (sizes l + sizes l')%nat.
Proof. induction l as [|[[? ?] ?] l IH]; [done|]. unfold sizes in *. cbn in *. lia. Qed.

Lemma sizes_perm l l' : l ≡ₚ l' -> sizes l = sizes l'.
Proof. intros H. induction H as [|[[? ?] ?]|[[? ?] ?] [[? ?] ?]|]; unfold sizes in *; cbn in *; lia. Qed.

Lemma sizes_cons i f n l : sizes ((i, f, n) :: l) = (n + sizes l)%nat.
Proof. done. Qed.

Lemma chain_bound l i f n : chain l -> (i, f, n) ∈ l -> (nsp <= f /\ f + n <= nsp + sizes l)%nat.
Proof.
  induction l as [|[[i' f'] n'] l IH]; [by intros _ H%not_elem_of_nil|]. intros [-> Hc] [[= -> -> ->]|Hin]%elem_of_cons; rewrite sizes_cons; [lia|].
  specialize (IH Hc Hin). lia.
Qed.

Lemma span_cover l k : chain l -> (nsp <= k < nsp + sizes l)%nat -> exists i f n, (i, f, n) ∈ l /\ (f <= k < f + n)%nat.
Proof.
  induction l as [|[[i' f'] n'] l IH]; [unfold sizes; cbn; lia|]. intros [-> Hc]. rewrite sizes_cons. intros Hk.
  destruct (decide (k < nsp + sizes l)%nat) as [Hl|Hl].
  - destruct (IH Hc ltac:(lia)) as (i & f & n & Hin & Hr). exists i, f, n. split; [by apply list_elem_of_further|done].
  - exists i', (nsp + sizes l)%nat, n'. split; [apply list_elem_of_here|lia].
Qed.

Lemma find_in l id a : app_find l id = Some a -> a ∈ l /\ ap_id a = id.
Proof.
  induction l as [|b l IH]; [done|]. unfold app_find in *. cbn. destruct (Z.eqb_spec (ap_id b) id) as [E|E].
  - intros [= ->]. split; [apply list_elem_of_here|done].
  - intros H. destruct (IH H). split; [by apply list_elem_of_further|done].
Qed.

Lemma find_of_in l a : NoDup (map ap_id l) -> a ∈ l -> app_find l (ap_id a) = Some a.
Proof.
  induction l as [|b l IH]; [by intros _ H%not_elem_of_nil|]. cbn. intros [Hb Hn]%list.NoDup_cons Hin. unfold app_find. cbn.
  apply elem_of_cons in Hin as [->|Hin]; [by rewrite Z.eqb_refl|]. destruct (Z.eqb_spec (ap_id b) (ap_id a)) as [E|E]; [|by apply IH].
  destruct Hb. rewrite E. apply list_elem_of_fmap. eauto.
Qed.

Lemma app_find_absent l id : app_find l id = None -> id ∉ map ap_id l.
Proof.
  induction l as [|b l IH]; [intros _; apply not_elem_of_nil|]. unfold app_find in *. cbn. destruct (Z.eqb_spec (ap_id b) id) as [E|E]; [done|].
  intros H. apply not_elem_of_cons. split; [done|by apply IH].
Qed.

Lemma upd_map {A} (g : app_info -> A) f id l : (forall a, g (f a) = g a) -> map g (upd_app f id l) = map g l.
Proof. intros Hf. induction l as [|b l IH]; [done|]. cbn. destruct (ap_id b =? id); cbn; [by rewrite Hf|by rewrite IH]. Qed.

(** What holds of each application, after a change to one. *)
Lemma apps_upd (P Q : app_info -> Prop) f l id a : chain (map span l) -> app_find l id = Some a -> Forall P l -> (P a -> Q (f a)) ->
  (forall b, P b -> (ap_first b + ap_num_peers b <= ap_first a \/ ap_first a + ap_num_peers a <= ap_first b)%nat -> Q b) ->
  Forall Q (upd_app f id l).
Proof.
  intros Hc Hf HP Ha Hb. induction l as [|b l IH]; [done|]. apply list.Forall_cons in HP as [Pb HP]. destruct Hc as [Eb Hc].
  unfold app_find in Hf. cbn in Hf |- *. destruct (ap_id b =? id) eqn:E.
  - injection Hf as ->. constructor; [by apply Ha|]. apply list.Forall_forall. intros x Hx. apply Hb; [by eapply (proj1 (list.Forall_forall _ _))|].
    left. rewrite Eb. apply (chain_bound (map span l) (ap_id x)); [done|]. apply list_elem_of_fmap. by exists x.
  - constructor; [|by apply IH]. apply Hb; [done|]. right. rewrite Eb. apply (chain_bound (map span l) (ap_id a)); [done|].
    apply list_elem_of_fmap. exists a. split; [done|]. by apply (find_in l id).
Qed.

Lemma complete_upd f id l : (forall a, ap_registered (f a) = ap_registered a) -> (forall a, span (f a) = span a) ->
  map span (filter complete (upd_app f id l)) = map span (filter complete l) /\ (Forall complete (upd_app f id l) <-> Forall complete l).
Proof.
  intros Hr Hs. assert (Hc : forall a, complete (f a) <-> complete a).
  { intros a. unfold complete. specialize (Hr a). specialize (Hs a). injection Hs as _ _ E. lia. }
  induction l as [|b l [IH IH']]; [done|]. cbn. destruct (ap_id b =? id).
  - rewrite !filter_cons. split; [|by rewrite !list.Forall_cons, Hc]. specialize (Hc b). destruct (decide (complete b)), (decide (complete (f b))); try tauto.
    cbn. by rewrite Hs.
  - rewrite !filter_cons. split; [|by rewrite !list.Forall_cons, IH']. destruct (decide (complete b)); [|done]. cbn. by rewrite IH.
Qed.

Lemma app_ok_bound y a : app_ok y a -> (ap_registered a <= ap_cnt_peers a)%nat.
Proof. intros A. rewrite (ak_reg y a A). etrans; [apply length_filter|]. by rewrite length_seq. Qed.

(** The applications are above the servers. *)
Lemma apps_above y (Q : app_info -> Prop) : minv y -> (forall a, app_ok y a -> (nsp <= ap_first a)%nat -> Q a) -> Forall Q (d_apps (r_master y)).
Proof.
  intros M H. apply list.Forall_forall. intros a Ha. apply H; [by apply (proj1 (list.Forall_forall _ _) (mi_apps y M))|].
  apply (chain_bound (map span (d_apps (r_master y))) (ap_id a) (ap_first a) (ap_num_peers a)); [apply M|]. apply list_elem_of_fmap. by exists a.
Qed.

(** The next process of an application. *)
Lemma taken_app_next k pm y y' a : taken k pm y y' -> app_ok y a -> (ap_cnt_peers a < ap_num_peers a)%nat -> k = (ap_first a + ap_cnt_peers a)%nat ->
  pm_appid pm = ap_id a -> app_ok y' (mk_app (ap_id a) (ap_num_peers a) (ap_first a) (S (ap_cnt_peers a)) (ap_registered a)).
Proof.
  intros T [A1 A2 A3 A4 A5] Hc Hk Hid. split; cbn -[seq]; auto; try lia.
  - rewrite seq_S, list.filter_app, length_app, !(taken_filter k pm y y') by done. rewrite A3. rewrite filter_cons, list.filter_nil, decide_False; [cbn; lia|].
    intros [[? Hw] _]. by rewrite <- Hk, (tk_new _ _ _ _ T) in Hw.
  - intros x Hx. rewrite (tk_who _ _ _ _ T). destruct (decide (x = k)) as [->|Hx']; [rewrite fn_lookup_insert; eauto|].
    rewrite fn_lookup_insert_ne by done. apply A4. lia.
  - intros x Hx. rewrite (tk_who _ _ _ _ T), fn_lookup_insert_ne by lia. apply A5. lia.
Qed.

(** *** A server connects *)

Lemma unsettled_early y k : minv y -> (k < nsp)%nat -> ~ settled y k -> d_num_sp_reg (r_master y) <> nsp.
Proof. intros M Hk Hs E. by apply Hs, (all_settled y M E). Qed.

Lemma server_taken y d k : minv y -> (d_num_sp (r_master y) < nsp)%nat -> ds_listen true (r_master y) new_server = Some (d, Some k) ->
  k = d_num_sp (r_master y) /\ r_who y k = None /\ exists t, set_id (d_tab (r_master y)) k = Some t /\
  d = connect (set_nums (set_tab (r_master y) t) (S k) (d_num_cp (r_master y))) k.
Proof.
  intros M Hk E. cbn in E. destruct (set_id _ _) as [t|] eqn:Et; [|done]. cbn in E. injection E as <- <-. split; [done|]. split.
  - apply eq_None_not_Some. rewrite (mi_srv y M) by done. lia.
  - by exists t.
Qed.

Lemma step_server_master y y' d k pm t : minv y -> (d_num_sp (r_master y) < nsp)%nat -> k = d_num_sp (r_master y) -> taken k pm y y' ->
  set_id (d_tab (r_master y)) k = Some t -> r_master y' = d -> r_done y' = r_done y ->
  d = connect (set_nums (set_tab (r_master y) t) (S k) (d_num_cp (r_master y))) k -> minv y'.
Proof.
  intros M Hlt Hk T Et Ed Edone ->. destruct (taken_tab k pm y y' t T M Et) as (L1 & L2 & L3); [by rewrite Ed|].
  split; rewrite ?Ed, ?Edone; cbn; auto using mi_self, mi_sp, mi_cp, mi_early, mi_chain, mi_ids, mi_done.
  - lia.
  - intros x Hx. rewrite (tk_who _ _ _ _ T). destruct (decide (x = k)) as [->|Hne]; [rewrite fn_lookup_insert; split; [lia|eauto]|].
    rewrite fn_lookup_insert_ne, (mi_srv y M) by done. lia.
  - intros x p. rewrite (tk_who _ _ _ _ T), (tk_reg _ _ _ _ T). destruct (decide (x = k)) as [->|Hne]; [by rewrite !fn_lookup_insert|].
    rewrite !fn_lookup_insert_ne by done. apply (mi_reg y M).
  - rewrite (taken_filter k pm y y') by done. apply M.
  - apply (apps_above y _ M). intros a A Hf. apply (taken_app_ok k pm y y' a T A). lia.
  - apply (mi_ncp y M).
  - intros x Hx. rewrite (tk_who _ _ _ _ T), fn_lookup_insert_ne by lia. apply (mi_rest y M). lia.
  - apply (mi_freg y M).
Qed.

Lemma step_server y address d k : rinv y -> (d_num_sp (r_master y) < nsp)%nat -> ds_listen true (r_master y) new_server = Some (d, Some k) ->
  rinv (let '(slave, pm) := ds_boot_slave conf (ds_alloc address nsp ncp) in
        mk_rsys d (<[k := slave]> (r_slave y)) (<[k := Some pm]> (r_reg y)) (<[k := Some pm]> (r_who y)) (r_chan y) (r_done y)).
Proof.
  intros [M S] Hlt E. destruct (server_taken y d k M Hlt E) as (Hk & Hnew & t & Et & Hd). cbn [ds_boot_slave].
  set (pm := d_me _). set (y' := mk_rsys _ _ _ _ _ _). assert (T : taken k pm y y') by done.
  assert (He : d_num_sp_reg (r_master y) <> nsp).
  { apply (unsettled_early y k M); [lia|]. intros [[? Hw] _]. by rewrite Hnew in Hw. }
  assert (Er : d_num_sp_reg (r_master y') = d_num_sp_reg (r_master y)) by (subst y'; cbn; by rewrite Hd).
  split; [by eapply (step_server_master y y' d k pm t)|]. intros j Hj. destruct (decide (j = k)) as [->|Hne].
  - destruct (S k Hj) as [_ _ _ _ S5 _ S7 _ _]. destruct (S5 He) as (C1 & C2 & C3 & C4). rewrite C1, C3 in S7.
    split; rewrite ?Er; subst y'; cbn [r_slave r_chan r_done]; rewrite ?fn_lookup_insert; cbn; auto; try tauto.
    + by rewrite length_insert, length_replicate.
    + rewrite C1. cbn in S7 |- *. done.
    + intros i f n x H%not_elem_of_nil. done.
    + split; [done|lia].
  - apply (sinv_keep y y' j (taken_grows k pm y y' T) (S j Hj)); auto. subst y'. cbn. by rewrite fn_lookup_insert_ne.
Qed.

(** *** A process of an application connects *)

(** The application before its process is counted: it is in the list, or new. *)
Definition place_client (d : dart_server) (app_id : Z) (size : nat) : dart_server :=
  match app_find (d_apps d) app_id with
  | Some a => d
  | None => set_apps (set_nums d (d_num_sp d) (d_num_cp d + size)) (mk_app app_id size (d_size_sp d + d_num_cp d) 0 0 :: d_apps d)
  end.

Definition inc_cnt (a : app_info) : app_info := mk_app (ap_id a) (ap_num_peers a) (ap_first a) (S (ap_cnt_peers a)) (ap_registered a).

Definition with_master (y : rsys) (d : dart_server) : rsys := mk_rsys d (r_slave y) (r_reg y) (r_who y) (r_chan y) (r_done y).

Lemma apps_ok_same y y' l : (forall k, settled y' k <-> settled y k) -> r_who y' = r_who y -> Forall (app_ok y) l -> Forall (app_ok y') l.
Proof.
  intros Hs Ew H. eapply Forall_impl; [|exact H]. intros a [A1 A2 A3 A4 A5]. split; rewrite ?Ew; auto. rewrite A3. f_equal. apply filter_agree.
  intros x _. by rewrite Hs.
Qed.

Lemma place_minv y app_id size : minv y -> admits (r_master y) app_id size ->
  minv (with_master y (place_client (r_master y) app_id size)) /\
  exists a, app_find (d_apps (place_client (r_master y) app_id size)) app_id = Some a /\ (ap_cnt_peers a < ap_num_peers a)%nat.
Proof.
  intros M. unfold admits, place_client. destruct (app_find _ _) as [a|] eqn:Ef.
  { intros [_ H]. destruct y; split; [done|by exists a]. }
  intros [Hpos Hroom]. destruct M. rewrite mi_cp0 in Hroom. split; [|eexists; split; [unfold app_find; cbn; by rewrite Z.eqb_refl|done]].
  split; cbn; auto; try done.
  - split; [|done]. rewrite mi_sp0. unfold sizes in *. lia.
  - constructor; [by apply app_find_absent|done].
  - constructor; [|by apply (apps_ok_same y)]. split; cbn; try done; try lia.
    intros k Hk. apply mi_rest0. rewrite mi_sp0 in Hk. lia.
  - unfold sizes in *. cbn in *. lia.
  - intros k Hk. apply mi_rest0. lia.
  - rewrite decide_False; [done|]. unfold complete. cbn. lia.
  - rewrite list.Forall_cons, mi_freg0. unfold complete at 2. cbn. lia.
Qed.

Lemma listen_client d app_id size d' k : ds_listen true d (new_client app_id size) = Some (d', Some k) ->
  let d1 := place_client d app_id size in exists a t, app_find (d_apps d1) app_id = Some a /\ k = (ap_first a + ap_cnt_peers a)%nat /\
  set_id (d_tab d1) k = Some t /\ d' = connect (set_tab (set_apps d1 (upd_app inc_cnt app_id (d_apps d1))) t) k.
Proof.
  unfold ds_listen, place_client. destruct (app_find (d_apps d) app_id) as [a|] eqn:Ef; cbn [d_apps d_tab].
  - destruct (set_id _ _) as [t|] eqn:Et; [|done]. cbn. intros [= <- <-]. exists a, t. auto.
  - cbn [d_apps d_tab set_apps set_nums ap_first ap_cnt_peers]. destruct (set_id _ _) as [t|] eqn:Et; [|done]. cbn. intros [= <- <-].
    eexists _, t. split; [unfold app_find; cbn; by rewrite Z.eqb_refl|]. auto.
Qed.

Lemma step_client_master y y' app_id a t k pm : minv y -> app_find (d_apps (r_master y)) app_id = Some a ->
  (ap_cnt_peers a < ap_num_peers a)%nat -> k = (ap_first a + ap_cnt_peers a)%nat -> pm_appid pm = app_id ->
  set_id (d_tab (r_master y)) k = Some t -> taken k pm y y' -> r_done y' = r_done y ->
  r_master y' = connect (set_tab (set_apps (r_master y) (upd_app inc_cnt app_id (d_apps (r_master y)))) t) k -> minv y'.
Proof.
  intros M Hf Hcnt Hk Hpm Et T Edone Ed. destruct (find_in _ _ _ Hf) as [Ha Hid].
  assert (Hb : (nsp <= ap_first a /\ ap_first a + ap_num_peers a <= nsp + d_num_cp (r_master y))%nat).
  { rewrite (proj1 (mi_ncp y M)). apply (chain_bound _ (ap_id a)); [apply M|]. apply list_elem_of_fmap. by exists a. }
  destruct (taken_tab k pm y y' t T M Et) as (L1 & L2 & L3); [by rewrite Ed|].
  assert (Es : map span (upd_app inc_cnt app_id (d_apps (r_master y))) = map span (d_apps (r_master y))) by (by apply upd_map).
  destruct (complete_upd inc_cnt app_id (d_apps (r_master y))) as [Ec Ec']; [done|done|].
  split; rewrite ?Ed, ?Edone; cbn; rewrite ?Es, ?Ec, ?Ec'; auto using mi_self, mi_sp, mi_cp, mi_num, mi_early, mi_chain, mi_done, mi_ncp, mi_freg.
  - intros x Hx. rewrite (tk_who _ _ _ _ T), fn_lookup_insert_ne by lia. by apply (mi_srv y M).
  - intros x p. rewrite (tk_who _ _ _ _ T), (tk_reg _ _ _ _ T). destruct (decide (x = k)) as [->|Hne]; [by rewrite !fn_lookup_insert|].
    rewrite !fn_lookup_insert_ne by done. apply (mi_reg y M).
  - rewrite (taken_filter k pm y y') by done. apply M.
  - rewrite (upd_map ap_id inc_cnt); [apply M|done].
  - eapply (apps_upd (app_ok y)); [apply M|exact Hf|apply M| |].
    + intros A. eapply (taken_app_next k pm y y'); [done|done|done|done|by rewrite Hpm].
    + intros b B Hb'. eapply (taken_app_ok k pm y y'); [done|done|lia].
  - intros x Hx. rewrite (tk_who _ _ _ _ T), fn_lookup_insert_ne by lia. by apply (mi_rest y M).
Qed.

Lemma step_client y app_id size address d k : rinv y -> admits (r_master y) app_id size ->
  ds_listen true (r_master y) (new_client app_id size) = Some (d, Some k) ->
  rinv (let pm := snd (dc_register_at_master conf (dc_alloc address app_id)) in
        mk_rsys d (r_slave y) (<[k := Some pm]> (r_reg y)) (<[k := Some pm]> (r_who y)) (r_chan y) (r_done y)).
Proof.
  intros [M S] Hadm E. destruct (place_minv y app_id size M Hadm) as (M1 & a & Hf & Hcnt).
  destruct (listen_client _ _ _ _ _ E) as (a' & t & Hf' & Hk & Et & Hd). rewrite Hf in Hf'. injection Hf' as <-.
  cbn zeta. set (pm := snd _). set (y' := mk_rsys _ _ _ _ _ _). set (y1 := with_master y _) in M1.
  assert (Hnew : r_who y k = None).
  { destruct (find_in _ _ _ Hf) as [Ha _]. apply (ak_out y1 a); [|lia]. by apply (proj1 (list.Forall_forall _ _) (mi_apps y1 M1)). }
  assert (T : taken k pm y1 y') by done.
  split; [by eapply (step_client_master y1 y' app_id a t k pm)|]. intros j Hj.
  apply (sinv_keep y y' j); auto; [by apply (taken_grows k pm)|]. subst y'. cbn. rewrite Hd. cbn.
  unfold place_client. by destruct (app_find (d_apps (r_master y)) app_id).
Qed.

(** *** A process says what it is *)

Record settles (k : nat) (pm : ptlid_map) (y y' : rsys) : Prop := {
  st_reg : r_reg y k = Some pm;
  st_known : r_who y k = Some pm;
  st_who : r_who y' = r_who y;
  st_reg' : r_reg y' = <[k := None]> (r_reg y)
}.

Lemma settles_settled k pm y y' x : settles k pm y y' -> settled y' x <-> settled y x \/ x = k.
Proof.
  intros [T1 T2 T3 T4]. unfold settled. rewrite T3, T4. destruct (decide (x = k)) as [->|Hx].
  - rewrite fn_lookup_insert. split; [by right|]. intros _. split; [by exists pm|done].
  - rewrite fn_lookup_insert_ne by done. tauto.
Qed.

Lemma settles_not k pm y y' : settles k pm y y' -> ~ settled y k.
Proof. intros T [_ H]. by rewrite (st_reg _ _ _ _ T) in H. Qed.

Lemma settles_grows k pm y y' : settles k pm y y' -> grows y y'.
Proof. intros T x Hx. split; [apply (settles_settled k pm y y' x T); by left|]. by rewrite (st_who _ _ _ _ T). Qed.

Lemma settles_filter_out k pm y y' (l : list nat) : settles k pm y y' -> k ∉ l -> filter (settled y') l = filter (settled y) l.
Proof.
  intros T Hk. induction l as [|x l IH]; [done|]. apply not_elem_of_cons in Hk as [Hx Hk]. rewrite !filter_cons, IH by done.
  apply not_eq_sym in Hx. pose proof (settles_settled k pm y y' x T). destruct (decide (settled y' x)), (decide (settled y x)); try done; destruct Hx; tauto.
Qed.

Lemma settles_filter k pm y y' (l : list nat) : settles k pm y y' -> NoDup l -> k ∈ l -> length (filter (settled y') l) = S (length (filter (settled y) l)).
Proof.
  intros T Hn Hk. apply (filter_one _ _ l k Hn Hk); [intros x Hx| |by eapply settles_not]; rewrite (settles_settled k pm y y' _ T); tauto.
Qed.

Lemma settles_tab k pm y y' t : settles k pm y y' -> minv y -> fill_in (d_tab (r_master y)) k pm = Some t ->
  length t = (nsp + ncp)%nat /\ (forall x p, r_who y' x = Some p -> exists e, t !! x = Some e /\ pm_id e = Z.of_nat x) /\
  (forall x, settled y' x -> t !! x = final y' x).
Proof.
  intros T M E. unfold fill_in in E. destruct (d_tab (r_master y) !! k) as [p|] eqn:Ek; [|done]. injection E as <-.
  destruct (mi_tab y M k pm (st_known _ _ _ _ T)) as (e & He & Hid). rewrite Ek in He. injection He as ->. pose proof (lookup_lt_Some _ _ _ Ek) as Hlt.
  split; [|split].
  - rewrite length_insert. apply M.
  - intros x q Hx. destruct (decide (x = k)) as [->|Hne]; [eexists; split; [by apply list_lookup_insert_eq|done]|].
    rewrite list_lookup_insert_ne by done. rewrite (st_who _ _ _ _ T) in Hx. by eapply mi_tab.
  - intros x Hx. destruct (decide (x = k)) as [->|Hne].
    + rewrite list_lookup_insert_eq by done. unfold final. rewrite (st_who _ _ _ _ T), (st_known _ _ _ _ T). cbn. unfold entry. by rewrite Hid.
    + apply (settles_settled k pm y y' x T) in Hx as [Hx|Hx]; [|done]. rewrite list_lookup_insert_ne by done.
      rewrite (grows_final y y' x (settles_grows k pm y y' T) Hx). by apply mi_fin.
Qed.

Lemma settles_reg k pm y y' x p : settles k pm y y' -> minv y -> r_reg y' x = Some p -> r_who y' x = Some p.
Proof.
  intros T M. rewrite (st_who _ _ _ _ T), (st_reg' _ _ _ _ T). destruct (decide (x = k)) as [->|Hne]; [by rewrite fn_lookup_insert|].
  rewrite fn_lookup_insert_ne by done. apply (mi_reg y M).
Qed.

Lemma settles_app_other k pm y y' a : settles k pm y y' -> app_ok y a -> ~ (ap_first a <= k < ap_first a + ap_num_peers a)%nat -> app_ok y' a.
Proof.
  intros T [A1 A2 A3 A4 A5] Hk. split; rewrite ?(st_who _ _ _ _ T); auto. rewrite (settles_filter_out k pm y y'); [done|done|]. rewrite elem_of_seq. lia.
Qed.

Definition inc_reg (a : app_info) : app_info := mk_app (ap_id a) (ap_num_peers a) (ap_first a) (ap_cnt_peers a) (S (ap_registered a)).

Lemma settles_app k pm y y' a : settles k pm y y' -> app_ok y a -> (ap_first a <= k < ap_first a + ap_cnt_peers a)%nat -> app_ok y' (inc_reg a).
Proof.
  intros T [A1 A2 A3 A4 A5] Hk. split; rewrite ?(st_who _ _ _ _ T); auto. cbn [inc_reg ap_registered ap_first ap_cnt_peers].
  rewrite (settles_filter k pm y y'), A3; [done|done|apply NoDup_seq|]. rewrite elem_of_seq. lia.
Qed.

(** The application of the process at a place. *)
Lemma app_of_place y k pm : minv y -> (nsp <= k)%nat -> r_who y k = Some pm ->
  exists a, app_find (d_apps (r_master y)) (pm_appid pm) = Some a /\ a ∈ d_apps (r_master y) /\ (ap_first a <= k < ap_first a + ap_cnt_peers a)%nat.
Proof.
  intros M Hk Hw. assert (Hlt : (k < nsp + d_num_cp (r_master y))%nat).
  { destruct (decide (k < nsp + d_num_cp (r_master y))%nat) as [|Hge]; [done|]. rewrite (mi_rest y M k) in Hw by lia. done. }
  rewrite (proj1 (mi_ncp y M)) in Hlt. destruct (span_cover _ k (mi_chain y M) ltac:(lia)) as (i & f & n & Hin & Hr).
  apply list_elem_of_fmap in Hin as (a & [= -> -> ->] & Ha). pose proof (proj1 (list.Forall_forall _ _) (mi_apps y M) a Ha) as A.
  assert (Hc : (k < ap_first a + ap_cnt_peers a)%nat).
  { destruct (decide (k < ap_first a + ap_cnt_peers a)%nat) as [|Hge]; [done|]. rewrite (ak_out y a A k) in Hw by lia. done. }
  destruct (ak_in y a A k ltac:(lia)) as (pm' & Hw' & Hid). rewrite Hw in Hw'. injection Hw' as <-. exists a. split; [|split; [done|lia]].
  rewrite Hid. apply find_of_in; [apply M|done].
Qed.

(** *** Messages of the master to the other servers *)

Lemma push_nil chan j : push [] chan j = chan j.
Proof. apply app_nil_r. Qed.

Lemma push_one (mk : nat -> msg) (l : list nat) chan j : NoDup l -> j ∈ l -> push (map (fun i => (i, mk i)) l) chan j = chan j ++ [mk j].
Proof.
  intros Hn Hj. unfold push. f_equal. induction l as [|x l IH]; [by apply not_elem_of_nil in Hj|]. apply list.NoDup_cons in Hn as [Hx Hn].
  cbn [map]. rewrite filter_cons. cbn [fst]. apply elem_of_cons in Hj as [->|Hj].
  - rewrite decide_True by done. cbn. f_equal. clear IH Hn. induction l as [|z l IH]; [done|]. apply not_elem_of_cons in Hx as [Hz Hx].
    cbn [map]. rewrite filter_cons, decide_False by (cbn; congruence). by apply IH.
  - rewrite decide_False by (by intros ->). by apply IH.
Qed.

Lemma in_slaves d j : d_size_sp d = nsp -> (0 < j < nsp)%nat -> j ∈ slaves d.
Proof. intros E Hj. unfold slaves. rewrite E. apply elem_of_seq. lia. Qed.

Lemma push_slave (mk : nat -> msg) d chan j : d_size_sp d = nsp -> (0 < j < nsp)%nat ->
  push (map (fun i => (i, mk i)) (slaves d)) chan j = chan j ++ [mk j].
Proof. intros E Hj. apply push_one; [apply NoDup_seq|by apply in_slaves]. Qed.

(** A part of the table in which all entries are final. *)
Lemma part_finals y t first n data : (forall x, settled y x -> t !! x = final y x) -> part t first n = Some data ->
  (forall x, (first <= x < first + n)%nat -> settled y x) -> length data = n /\ finals y first data.
Proof.
  intros Ht Hp Hs. unfold part in Hp. destruct (decide _) as [Hle|]; [|done]. injection Hp as <-.
  assert (Hl : length (take n (drop first t)) = n) by (rewrite length_take, length_drop; lia). split; [done|].
  intros i Hi. rewrite Hl in Hi. split; [apply Hs; lia|]. rewrite lookup_take, lookup_drop, decide_True by lia. apply Ht, Hs. lia.
Qed.

(** *** A server registers *)

Lemma request_master y y' k pm t : minv y -> (k < nsp)%nat -> settles k pm y y' -> fill_in (d_tab (r_master y)) k pm = Some t ->
  r_done y' = r_done y -> r_master y' = set_reg (set_tab (r_master y) t) (d_f_reg (r_master y)) (S (d_num_sp_reg (r_master y))) -> minv y'.
Proof.
  intros M Hk T Et Edone Ed. destruct (settles_tab k pm y y' t T M Et) as (L1 & L2 & L3).
  split; rewrite ?Ed, ?Edone; cbn -[seq]; rewrite ?(st_who _ _ _ _ T);
    auto using mi_self, mi_sp, mi_cp, mi_num, mi_srv, mi_chain, mi_ids, mi_done, mi_ncp, mi_rest, mi_freg.
  - intros x p. rewrite <- (st_who _ _ _ _ T). by apply (settles_reg k pm y y').
  - by rewrite <- (st_who _ _ _ _ T).
  - rewrite (settles_filter k pm y y'), (mi_sreg y M); [done|done|apply NoDup_seq|]. apply elem_of_seq. lia.
  - intros _. apply (mi_early y M). apply (unsettled_early y k M Hk). by eapply settles_not.
  - apply (apps_above y _ M). intros a A Hf. apply (settles_app_other k pm y y' a T A). lia.
Qed.

Lemma step_request y k pm d l rc : rinv y -> (k < nsp)%nat -> r_reg y k = Some pm -> rpc_handler_sp_reg_request all_ok (r_master y) k pm = Some (d, l, rc) ->
  rinv (mk_rsys d (r_slave y) (<[k := None]> (r_reg y)) (r_who y) (push l (r_chan y)) (r_done y)).
Proof.
  intros [M S] Hk Hr E. set (y' := mk_rsys _ _ _ _ _ _). assert (T : settles k pm y y') by (split; try done; by apply (mi_reg y M)).
  assert (He : d_num_sp_reg (r_master y) <> nsp) by (apply (unsettled_early y k M Hk); by eapply settles_not).
  unfold rpc_handler_sp_reg_request in E. destruct (fill_in _ _ _) as [t|] eqn:Et; [|done]. cbn [mbind option_bind d_num_sp_reg set_reg d_size_sp set_tab] in E.
  destruct (settles_tab k pm y y' t T M Et) as (L1 & L2 & L3). pose proof (mi_sp y M) as Esp. rewrite Esp in E.
  assert (Hd : d = set_reg (set_tab (r_master y) t) (d_f_reg (r_master y)) (Datatypes.S (d_num_sp_reg (r_master y))) /\
    ((Datatypes.S (d_num_sp_reg (r_master y)) <> nsp /\ l = []) \/
     (Datatypes.S (d_num_sp_reg (r_master y)) = nsp /\ exists data, part t 0 nsp = Some data /\
       l = map (fun i => (i, sp_reg_reply (nth i t no_process) data)) (slaves d)))).
  { destruct (decide _) as [Hd|Hd]; [|injection E as <- <- _; auto]. destruct (part t 0 nsp) as [data|] eqn:Ep; [|done].
    cbn in E. rewrite (send_each_ok all_ok) in E by done. injection E as <- <- _. split; [done|]. right. split; [done|]. by exists data. }
  destruct Hd as [Hd Hl]. assert (M' : minv y') by (by eapply (request_master y y' k pm t)). split; [done|]. intros j Hj.
  destruct (S j Hj) as [S1 S2 S3 S4 S5 S6 S7 S8 S9]. destruct (S5 He) as (C1 & C2 & C3 & C4).
  destruct Hl as [[Hn ->]|(Hn & data & Hp & ->)].
  - assert (Ec : push [] (r_chan y) j = r_chan y j) by apply push_nil.
    split; subst y'; cbn [r_master r_slave r_chan r_done] in *; rewrite ?Ec, ?Hd; cbn; auto; [lia|].
    intros i f n x. rewrite C3. by intros ?%not_elem_of_nil.
  - assert (Ec : push (map (fun i => (i, sp_reg_reply (nth i t no_process) data)) (slaves d)) (r_chan y) j = [sp_reg_reply (nth j t no_process) data]).
    { rewrite push_slave, C1; [done| |done]. by rewrite Hd. }
    assert (Hall : forall x, (x < nsp)%nat -> settled y' x) by (apply all_settled; [done|]; subst y'; cbn; by rewrite Hd).
    destruct (part_finals y' t 0 nsp data L3 Hp) as [Hlen Hfin]; [intros; apply Hall; lia|].
    split; subst y'; cbn [r_master r_slave r_chan r_done] in *; rewrite ?Ec; auto.
    + rewrite Hd. cbn. lia.
    + intros _. right. split; [done|]. split; [done|]. split; [done|]. eexists _, data, []. split; [done|].
      split; [|done]. destruct (Hall j ltac:(lia)) as [[q Hq] _]. destruct (L2 j q Hq) as (e & He' & Hid). cbn in He'. by rewrite (nth_lookup_Some _ _ _ _ He').
    + rewrite <- S7, C1. done.
    + intros i f n x. rewrite C3. by intros ?%not_elem_of_nil.
Qed.

(** *** A process of an application registers *)

Lemma find_upd f id l a : (forall a, ap_id (f a) = ap_id a) -> app_find l id = Some a -> app_find (upd_app f id l) id = Some (f a).
Proof.
  intros Hf. induction l as [|b l IH]; [done|]. unfold app_find in *. cbn. destruct (ap_id b =? id) eqn:E; cbn.
  - intros [= ->]. by rewrite Hf, E.
  - rewrite E. done.
Qed.

Lemma complete_inc id l a : app_find l id = Some a -> ~ complete a ->
  (complete (inc_reg a) -> map span (filter complete (upd_app inc_reg id l)) ≡ₚ span a :: map span (filter complete l)) /\
  (~ complete (inc_reg a) -> map span (filter complete (upd_app inc_reg id l)) = map span (filter complete l)).
Proof.
  induction l as [|b l IH]; [done|]. unfold app_find in *. cbn [List.find upd_app]. destruct (ap_id b =? id); rewrite !filter_cons.
  - intros [= ->] Hn. rewrite (decide_False (P := complete a)) by done. split; intros Hc; [by rewrite decide_True|by rewrite decide_False].
  - intros Hf Hn. destruct (IH Hf Hn) as [IH1 IH2]. destruct (decide (complete b)); [|by split]. cbn [map]. split; intros Hc.
    + rewrite (IH1 Hc). apply perm_swap.
    + by rewrite IH2.
Qed.

Lemma all_complete l : forallb (fun a => bool_decide (ap_registered a = ap_num_peers a)) l = true <-> Forall complete l.
Proof.
  induction l as [|a l IH]; [done|]. cbn. rewrite andb_true_iff, bool_decide_eq_true, IH, list.Forall_cons. done.
Qed.

Lemma incomplete_at y k pm y' a : settles k pm y y' -> app_ok y a -> (ap_first a <= k < ap_first a + ap_cnt_peers a)%nat -> ~ complete a.
Proof.
  intros T A Hk. pose proof (app_ok_bound y' (inc_reg a) (settles_app k pm y y' a T A Hk)) as H. pose proof (ak_cnt y a A). unfold complete. cbn in H. lia.
Qed.

(** Which changes the handler makes, and what it sends. *)
Lemma register_cases d from pm a t d' l rc : app_find (d_apps d) (pm_appid pm) = Some a -> fill_in (d_tab d) from pm = Some t ->
  rpc_handler_cn_register all_ok d from pm = Some (d', l, rc) ->
  let d1 := set_apps (set_tab d t) (upd_app inc_reg (pm_appid pm) (d_apps d)) in
  (S (ap_registered a) <> ap_num_peers a /\ d' = d1 /\ l = []) \/
  (S (ap_registered a) = ap_num_peers a /\ exists f, d' = set_reg d1 f (d_num_sp_reg d) /\
    f = (if decide (d_num_cp d = d_size_cp d) then if forallb (fun a => bool_decide (ap_registered a = ap_num_peers a)) (d_apps d1) then true else d_f_reg d
         else d_f_reg d) /\ (slaves d = [] -> l = []) /\
    (slaves d <> [] -> exists data p, part t (ap_first a) (ap_num_peers a) = Some data /\ head data = Some p /\
       l = map (fun i => (i, sp_announce_cp (mk_pai (Z.to_nat (pm_id p)) (ap_id a) (ap_num_peers a)) data)) (slaves d))).
Proof.
  intros Hf Et E d1. unfold rpc_handler_cn_register in E. rewrite Et in E. cbn [mbind option_bind] in E. cbn [d_apps set_tab] in E. rewrite Hf in E.
  destruct (decide (S (ap_registered a) = ap_num_peers a)) as [Hc|Hc]; [|left; injection E as <- <- _; done]. right. split; [done|].
  unfold ds_announce_cp in E. cbn [slaves d_size_sp set_apps set_tab d_tab ap_first ap_num_peers ap_id] in E. fold (slaves d) in E.
  change (slaves (set_apps (set_tab d t) _)) with (slaves d) in E.
  destruct (decide (slaves d = [])) as [Hs|Hs].
  - cbn in E. injection E as <- <- _. eexists. split; [done|]. split; [done|]. done.
  - destruct (part t _ _) as [data|] eqn:Ep; [|done]. cbn [mbind option_bind] in E. destruct (head data) as [p|] eqn:Eh; [|done]. cbn [mbind option_bind] in E.
    rewrite (send_each_ok all_ok) in E by done. cbn in E. injection E as <- <- _. eexists. split; [done|]. split; [done|]. split; [done|]. intros _. exists data, p. done.
Qed.

Lemma register_master y y' k pm a t f : minv y -> (nsp <= k)%nat -> settles k pm y y' -> fill_in (d_tab (r_master y)) k pm = Some t ->
  app_find (d_apps (r_master y)) (pm_appid pm) = Some a -> a ∈ d_apps (r_master y) -> (ap_first a <= k < ap_first a + ap_cnt_peers a)%nat ->
  let l := upd_app inc_reg (pm_appid pm) (d_apps (r_master y)) in
  r_master y' = set_reg (set_apps (set_tab (r_master y) t) l) f (d_num_sp_reg (r_master y)) ->
  (f = true <-> d_num_cp (r_master y) = ncp /\ Forall complete l) -> (complete (inc_reg a) -> d_num_sp_reg (r_master y) = nsp) ->
  r_done y' = (if decide (complete (inc_reg a)) then r_done y ++ [span a] else r_done y) -> minv y'.
Proof.
  intros M Hk T Et Hf Ha Hr l Ed Hfl Hord Edone. destruct (settles_tab k pm y y' t T M Et) as (L1 & L2 & L3).
  pose proof (proj1 (list.Forall_forall _ _) (mi_apps y M) a Ha) as A. pose proof (incomplete_at y k pm y' a T A Hr) as Hn.
  assert (Es : map span l = map span (d_apps (r_master y))) by (by apply upd_map).
  destruct (complete_inc (pm_appid pm) (d_apps (r_master y)) a Hf Hn) as [C1 C2].
  split; rewrite ?Ed; cbn -[seq]; rewrite ?(st_who _ _ _ _ T), ?Es;
    auto using mi_self, mi_sp, mi_cp, mi_num, mi_srv, mi_chain, mi_ncp, mi_rest.
  - intros x p. rewrite <- (st_who _ _ _ _ T). by apply (settles_reg k pm y y').
  - by rewrite <- (st_who _ _ _ _ T).
  - rewrite (settles_filter_out k pm y y'), (mi_sreg y M); [done|done|]. rewrite elem_of_seq. lia.
  - intros He. rewrite Edone. destruct (decide _) as [Hc|_]; [by destruct He; apply Hord|]. by apply (mi_early y M).
  - subst l. rewrite (upd_map ap_id inc_reg); [apply M|done].
  - eapply (apps_upd (app_ok y)); [apply M|exact Hf|apply M| |].
    + intros _. by eapply (settles_app k pm y y').
    + intros b B Hb'. eapply (settles_app_other k pm y y'); [done|done|]. pose proof (ak_cnt y a A). lia.
  - subst l. rewrite Edone. destruct (decide _) as [Hc|Hc]; [|by rewrite (C2 Hc), (mi_done y M)].
    rewrite (C1 Hc), (mi_done y M). by rewrite Permutation_app_comm.
Qed.


(** The entries of an application that is complete. *)
Lemma complete_part y t a data p : app_ok y a -> complete a -> (forall x, settled y x -> t !! x = final y x) ->
  part t (ap_first a) (ap_num_peers a) = Some data -> head data = Some p ->
  length data = ap_num_peers a /\ finals y (ap_first a) data /\ Z.to_nat (pm_id p) = ap_first a.
Proof.
  intros A Hc Ht Hp Hh. unfold complete in Hc. pose proof (app_ok_bound y a A) as Hb. pose proof (ak_cnt y a A) as Hcnt. pose proof (ak_reg y a A) as Hreg.
  assert (Hall : forall x, (ap_first a <= x < ap_first a + ap_num_peers a)%nat -> settled y x).
  { intros x Hx. apply (filter_full (settled y) (seq (ap_first a) (ap_cnt_peers a))); [rewrite length_seq; lia|apply elem_of_seq; lia]. }
  destruct (part_finals y t (ap_first a) (ap_num_peers a) data Ht Hp Hall) as [Hlen Hfin]. split; [done|]. split; [done|].
  destruct (Hfin 0%nat) as [[[q Hq] _] Hl]; [pose proof (ak_pos y a A); lia|]. rewrite <- head_lookup, Hh, Nat.add_0_r in Hl.
  unfold final in Hl. rewrite Nat.add_0_r in Hq. rewrite Hq in Hl. injection Hl as ->. apply Nat2Z.id.
Qed.

Lemma step_register y k pm d l rc : rinv y -> (nsp <= k)%nat -> d_num_sp_reg (r_master y) = nsp \/ ~ completes y k -> r_reg y k = Some pm -> rpc_handler_cn_register all_ok (r_master y) k pm = Some (d, l, rc) ->
  rinv (mk_rsys d (r_slave y) (<[k := None]> (r_reg y)) (r_who y) (push l (r_chan y))
          (match app_find (d_apps d) (pm_appid pm) with
           | Some a => if decide (ap_registered a = ap_num_peers a) then r_done y ++ [span a] else r_done y
           | None => r_done y
           end)).
Proof.
  intros [M S] Hk Hord Hr E. set (y' := mk_rsys _ _ _ _ _ _). assert (T : settles k pm y y') by (split; try done; by apply (mi_reg y M)).
  destruct (app_of_place y k pm M Hk (st_known _ _ _ _ T)) as (a & Hf & Ha & Hrng).
  pose proof (proj1 (list.Forall_forall _ _) (mi_apps y M) a Ha) as A. pose proof (incomplete_at y k pm y' a T A Hrng) as Hn.
  assert (Efin : exists t, fill_in (d_tab (r_master y)) k pm = Some t).
  { unfold rpc_handler_cn_register in E. destruct (fill_in _ _ _); [eauto|done]. }
  destruct Efin as [t Et]. destruct (settles_tab k pm y y' t T M Et) as (L1 & L2 & L3).
  unfold completes in Hord. rewrite Hr, Hf in Hord. assert (He : complete (inc_reg a) -> d_num_sp_reg (r_master y) = nsp) by (intros Hc; by destruct Hord).
  assert (Hfr : d_f_reg (r_master y) = false).
  { apply not_true_is_false. rewrite (mi_freg y M). intros [_ HF]. by apply Hn, (proj1 (list.Forall_forall _ _) HF). }
  assert (Hfu : app_find (upd_app inc_reg (pm_appid pm) (d_apps (r_master y))) (pm_appid pm) = Some (inc_reg a)) by (by apply find_upd).
  pose proof (settles_app k pm y y' a T A Hrng) as A'.
  destruct (register_cases _ _ _ _ _ _ _ _ Hf Et E) as [(Hc & Hd & ->)|(Hc & f & Hd & Hfl & _ & Hann)].
  - assert (Edone : r_done y' = r_done y) by (subst y'; cbn [r_done]; rewrite Hd; cbn [d_apps set_apps set_tab]; rewrite Hfu; by rewrite decide_False).
    split.
    + eapply (register_master y y' k pm a t (d_f_reg (r_master y))); [done|done|done|done|done|done|done|..].
      * subst y'. cbn. rewrite Hd. done.
      * rewrite Hfr. split; [done|]. intros [_ HF]. destruct Hc. apply (proj1 (list.Forall_forall _ _) HF (inc_reg a)). by apply (find_in _ _ _ Hfu).
      * done.
      * by rewrite decide_False.
    + intros j Hj. apply (sinv_keep y y' j); [by eapply settles_grows|by apply S|done|apply push_nil|done|]. subst y'. cbn. by rewrite Hd.
  - assert (Edone : r_done y' = r_done y ++ [span a]) by (subst y'; cbn [r_done]; rewrite Hd; cbn [d_apps set_apps set_tab set_reg]; rewrite Hfu; by rewrite decide_True).
    split.
    + eapply (register_master y y' k pm a t f); [done|done|done|done|done|done|done|..].
      * subst y'. cbn. rewrite Hd. done.
      * cbn [d_apps set_apps] in Hfl. rewrite Hfl, Hfr, (mi_cp y M), <- all_complete. destruct (decide (d_num_cp (r_master y) = ncp)), (forallb _ _); intuition congruence.
      * done.
      * by rewrite decide_True.
    + intros j Hj. pose proof (in_slaves (r_master y) j (mi_sp y M) Hj) as Hin.
      destruct Hann as (data & p & Hp & Hh & ->); [by destruct (slaves (r_master y)); [apply not_elem_of_nil in Hin|]|].
      destruct (complete_part y' t (inc_reg a) data p A' Hc L3 Hp Hh) as (Hlen & Hfin & Hid).
      apply (sinv_push y y' j [sp_announce_cp (mk_pai (ap_first a) (ap_id a) (ap_num_peers a)) data]);
        [by eapply settles_grows|by apply S|done| |done|subst y'; cbn; by rewrite Hd| |right; by apply He].
      * subst y'. cbn [r_chan]. cbn [inc_reg ap_first] in Hid. rewrite <- Hid. by rewrite push_slave by (apply M || done).
      * constructor; [|done]. split; [done|]. split; [|done]. cbn.
        assert (Hb : (ap_first a + ap_num_peers a <= nsp + d_num_cp (r_master y))%nat).
        { rewrite (proj1 (mi_ncp y M)). apply (chain_bound _ (ap_id a)); [apply M|]. apply list_elem_of_fmap. by exists a. }
        pose proof (proj2 (mi_ncp y M)). lia.
Qed.

(** *** A server gets a message of the master *)

Lemma length_write_at l : forall t k, length (write_at t k l) = length t.
Proof. induction l as [|p l IH]; intros t k; [done|]. cbn. by rewrite IH, length_insert. Qed.

Lemma lookup_write_at l : forall t k x, (k + length l <= length t)%nat ->
  write_at t k l !! x = if decide (k <= x < k + length l)%nat then l !! (x - k)%nat else t !! x.
Proof.
  induction l as [|p l IH]; intros t k x Hl; cbn [write_at length] in *; [rewrite decide_False by lia; done|].
  rewrite IH by (rewrite length_insert; lia). destruct (decide (x = k)) as [->|Hx].
  - rewrite decide_False, decide_True by lia. by rewrite list_lookup_insert_eq, Nat.sub_diag by lia.
  - destruct (decide (S k <= x < S k + length l)%nat).
    + rewrite decide_True by lia. by replace (x - k)%nat with (S (x - S k)) by lia.
    + rewrite decide_False by lia. by apply list_lookup_insert_ne.
Qed.

(** Final entries may be written over a table. *)
Lemma write_final y t first data x : (first + length data <= length t)%nat -> finals y first data ->
  t !! x = final y x \/ (first <= x < first + length data)%nat -> write_at t first data !! x = final y x.
Proof.
  intros Hl Hf Hx. rewrite lookup_write_at by done. destruct (decide _) as [Hr|Hr].
  - destruct (Hf (x - first)%nat) as [_ E]; [lia|]. rewrite E. f_equal. lia.
  - by destruct Hx.
Qed.

Lemma sizes_done y : minv y -> (sizes (r_done y) <= ncp)%nat.
Proof.
  intros M. rewrite (sizes_perm _ _ (mi_done y M)). destruct (mi_ncp y M) as [E Hle]. rewrite E in Hle. etrans; [|exact Hle].
  generalize (d_apps (r_master y)). intros l. induction l as [|a l IH]; [done|]. rewrite filter_cons. cbn [map].
  assert (Hs : forall l', sizes (span a :: l') = (ap_num_peers a + sizes l')%nat) by done. destruct (decide (complete a)); cbn [map]; rewrite !Hs; lia.
Qed.

Lemma sizes_rev l : sizes (rev l) = sizes l.
Proof. apply sizes_perm. symmetry. apply Permutation_rev. Qed.

Lemma deliver_reply y j p data rest d : minv y -> sinv y j -> (0 < j < nsp)%nat -> r_chan y j = sp_reg_reply p data :: rest ->
  rpc_handler_sp_reg_reply (r_slave y j) p data = Some d ->
  sinv (mk_rsys (r_master y) (<[j := d]> (r_slave y)) (r_reg y) (r_who y) (<[j := rest]> (r_chan y)) (r_done y)) j.
Proof.
  intros M [S1 S2 S3 S4 S5 S6 S7 S8 S9] Hj Ec E.
  assert (He : d_num_sp_reg (r_master y) = nsp).
  { destruct (decide (d_num_sp_reg (r_master y) = nsp)) as [|He]; [done|]. destruct (S5 He) as [H _]. by rewrite Ec in H. }
  destruct (S6 He) as [(_ & _ & HF)|(A1 & A2 & A3 & p' & data' & rest' & E' & B1 & B2 & B3 & B4)].
  { rewrite Ec in HF. by apply list.Forall_cons in HF as [[] _]. }
  rewrite Ec in E'. injection E' as <- <- <-. unfold rpc_handler_sp_reg_reply in E. destruct (_ && _); [|done]. injection E as <-.
  rewrite B1, Nat2Z.id. split; cbn [r_slave r_chan r_done r_master]; rewrite ?fn_lookup_insert; cbn; auto.
  - by rewrite length_write_at.
  - done.
  - intros _. left. split; [cbn; by rewrite fn_lookup_insert|]. split; [|by eapply Forall_impl]. intros k Hk. cbn. rewrite fn_lookup_insert. cbn. split.
    + by apply (all_settled y M He).
    + apply (write_final y); [lia|done|right; lia].
  - rewrite <- S7, Ec. done.
  - rewrite A2. by intros i f n k ?%not_elem_of_nil.
Qed.

Lemma deliver_announce y j info data rest d : minv y -> sinv y j -> (0 < j < nsp)%nat -> r_chan y j = sp_announce_cp info data :: rest ->
  rpc_handler_sp_announce_cp (r_slave y j) info data = Some d ->
  sinv (mk_rsys (r_master y) (<[j := d]> (r_slave y)) (r_reg y) (r_who y) (<[j := rest]> (r_chan y)) (r_done y)) j.
Proof.
  intros M [S1 S2 S3 S4 S5 S6 S7 S8 S9] Hj Ec E.
  assert (He : d_num_sp_reg (r_master y) = nsp).
  { destruct (decide (d_num_sp_reg (r_master y) = nsp)) as [|He]; [done|]. destruct (S5 He) as [H _]. by rewrite Ec in H. }
  destruct (S6 He) as [(A1 & A2 & HF)|(_ & _ & _ & p' & data' & rest' & E' & _)]; [|by rewrite Ec in E'].
  rewrite Ec in HF. apply list.Forall_cons in HF as [(B1 & B2 & B3) HF]. unfold rpc_handler_sp_announce_cp in E.
  destruct (_ && _); [|done]. injection E as <-. rewrite Ec in S7. cbn in S7.
  assert (Hsz : (d_num_cp (r_slave y j) + pi_app_size info <= ncp)%nat).
  { pose proof (sizes_done y M) as H. rewrite <- S7, sizes_app, sizes_rev, sizes_cons, <- S4 in H. lia. }
  assert (Hkeep : forall k, d_tab (r_slave y j) !! k = final y k -> write_at (d_tab (r_slave y j)) (pi_id info) data !! k = final y k).
  { intros k Hk. apply write_final; [lia|done|by left]. }
  split; cbn [r_slave r_chan r_done r_master]; rewrite ?fn_lookup_insert; cbn; auto.
  - by rewrite length_write_at.
  - unfold sizes in *. cbn. lia.
  - done.
  - intros _. left. split; [cbn; by rewrite fn_lookup_insert|]. split; [|by eapply Forall_impl]. intros k Hk. cbn. rewrite fn_lookup_insert. cbn.
    destruct (A2 k Hk). auto.
  - by rewrite <- S7, <- app_assoc.
  - intros i f n k Hin Hk. apply elem_of_cons in Hin as [[= -> -> ->]|Hin]; [|destruct (S8 i f n k Hin Hk); auto]. split.
    + destruct (B3 (k - pi_id info)%nat) as [Hs _]; [lia|]. by replace (pi_id info + (k - pi_id info))%nat with k in Hs by lia.
    + apply write_final; [lia|done|right; lia].
  - rewrite S3. destruct (decide _) as [Hd|Hd]; [done|]. rewrite S9. lia.
Qed.

Lemma step_deliver y j m rest d : rinv y -> (0 < j < nsp)%nat -> r_chan y j = m :: rest ->
  match m with
  | sp_reg_reply p data => rpc_handler_sp_reg_reply (r_slave y j) p data
  | sp_announce_cp info data => rpc_handler_sp_announce_cp (r_slave y j) info data
  end = Some d ->
  rinv (mk_rsys (r_master y) (<[j := d]> (r_slave y)) (r_reg y) (r_who y) (<[j := rest]> (r_chan y)) (r_done y)).
Proof.
  intros [M S] Hj Ec E. split; [by destruct M; split; try done; apply (apps_ok_same y)|]. intros i Hi. destruct (decide (i = j)) as [->|Hne].
  - destruct m; [by eapply deliver_reply; eauto|by eapply deliver_announce; eauto].
  - apply (sinv_keep y _ i); auto; cbn; [by intros k Hk|by rewrite fn_lookup_insert_ne|by rewrite fn_lookup_insert_ne].
Qed.

(** *** The invariant holds *)

Lemma init_who k : r_who r_init k = if decide (k = 0%nat) then Some (mk_pm 0 0 conf) else None.
Proof. cbn. destruct (decide (k = 0%nat)) as [->|Hk]; [by rewrite fn_lookup_insert|by rewrite fn_lookup_insert_ne]. Qed.

Lemma init_minv : minv r_init.
Proof.
  assert (Hset : forall k, settled r_init k <-> k = 0%nat).
  { intros k. unfold settled. rewrite init_who. destruct (decide (k = 0%nat)); split; intros H; try done; by destruct H as [[? ?] _]. }
  assert (Hlen : (0 < length (replicate (nsp + ncp) no_process))%nat) by (rewrite length_replicate; lia).
  split; try done.
  - cbn. by rewrite length_insert, length_replicate.
  - intros k Hk. rewrite init_who. destruct (decide (k = 0%nat)) as [->|Hk']; cbn; [split; [lia|eauto]|]. split; [by intros [? ?]|lia].
  - intros k pm. rewrite init_who. destruct (decide (k = 0%nat)) as [->|]; [|done]. intros _. eexists. split; [by apply list_lookup_insert_eq|done].
  - intros k ->%Hset. unfold final. rewrite init_who, decide_True by done. by apply list_lookup_insert_eq.
  - replace nsp with (1 + (nsp - 1))%nat by lia. rewrite seq_app, list.filter_app, (filter_none (settled r_init) (seq (0 + 1) _)).
    + cbn [seq]. rewrite filter_cons, decide_True by (by apply Hset). done.
    + intros x Hx%elem_of_seq. rewrite Hset. lia.
  - cbn. constructor.
  - cbn. split; [done|lia].
  - intros k Hk. rewrite init_who, decide_False; [done|]. lia.
  - cbn. split; [done|]. lia.
Qed.

Lemma init_sinv j : (0 < j < nsp)%nat -> sinv r_init j.
Proof.
  intros Hj. split; try done.
  - cbn. by rewrite length_replicate.
  - cbn. lia.
  - intros i f n k H%not_elem_of_nil. done.
  - cbn. split; [done|lia].
Qed.

Lemma rinv_step y y' : rinv y -> ostep y y' -> rinv y'.
Proof.
  intros I (e & Ho & Hs). destruct Hs; cbn in Ho; [by apply step_server|by eapply step_client|by eapply step_request| |by eapply step_deliver].
  eapply step_register; [done|done| |done|done]. destruct Ho as [|]; [lia|done].
Qed.

Lemma rinv_reachable y : rtc ostep r_init y -> rinv y.
Proof.
  intros H. assert (I0 : rinv r_init) by (split; [apply init_minv|apply init_sinv]). induction H as [|y1 y2 y3 Hs _ IH]; [done|]. apply IH. by eapply rinv_step.
Qed.


(** *** Servers that are registered *)

Definition server_of (y : rsys) (j : nat) : dart_server := if decide (j = 0%nat) then r_master y else r_slave y j.

Lemma sizes_zero l : (forall i f n, (i, f, n) ∈ l -> (0 < n)%nat) -> sizes l = 0%nat -> l = [].
Proof.
  destruct l as [|[[i f] n] l]; [done|]. intros H. rewrite sizes_cons. specialize (H i f n ltac:(apply list_elem_of_here)). lia.
Qed.

(** A slave that is registered knows all applications. *)
Lemma slave_apps y j : rinv y -> (0 < j < nsp)%nat -> d_f_reg (r_slave y j) = true -> map span (d_apps (r_slave y j)) ≡ₚ map span (d_apps (r_master y)).
Proof.
  intros [M S] Hj Hreg. destruct (S j Hj) as [_ _ _ S4 _ _ S7 _ S9]. apply S9 in Hreg. rewrite S4 in Hreg.
  set (R := concat _) in S7. set (I := map span (filter (fun a => ~ complete a) (d_apps (r_master y)))).
  assert (P : map span (d_apps (r_master y)) ≡ₚ map span (d_apps (r_slave y j)) ++ (R ++ I)).
  { rewrite <- (filter_app_complement complete (d_apps (r_master y))) at 1. rewrite map_app, <- (mi_done y M), <- S7. fold I.
    by rewrite <- app_assoc, <- Permutation_rev. }
  assert (E : R ++ I = []).
  { apply sizes_zero.
    - intros i f n Hin. assert (Hin' : (i, f, n) ∈ map span (d_apps (r_master y))) by (rewrite P; apply elem_of_app; by right).
      apply list_elem_of_fmap in Hin' as (a & [= -> -> ->] & Ha). apply (ak_pos y a). by apply (proj1 (list.Forall_forall _ _) (mi_apps y M)).
    - pose proof (sizes_perm _ _ P) as Hs. rewrite sizes_app, Hreg in Hs. destruct (mi_ncp y M). lia. }
  by rewrite P, E, app_nil_r.
Qed.

Lemma registered_early y j : rinv y -> (j < nsp)%nat -> d_f_reg (server_of y j) = true -> d_num_sp_reg (r_master y) = nsp.
Proof.
  intros [M S] Hj Hreg. destruct (decide (d_num_sp_reg (r_master y) = nsp)) as [|He]; [done|]. unfold server_of in Hreg. destruct (decide (j = 0%nat)) as [->|Hj0].
  - apply (mi_freg y M) in Hreg as [Hc HF]. pose proof (sizes_perm _ _ (mi_done y M)) as Hs. rewrite (mi_early y M He), filter_all in Hs
      by (intros a Ha; by apply (proj1 (list.Forall_forall _ _) HF)). rewrite (proj1 (mi_ncp y M)), <- Hs in Hc. unfold sizes in Hc. cbn in Hc. lia.
  - destruct (si_early y j (S j ltac:(lia)) He) as (_ & _ & _ & H). by rewrite H in Hreg.
Qed.

(** The table of a server that is registered. *)
Lemma registered_table y j k : rinv y -> (j < nsp)%nat -> d_f_reg (server_of y j) = true -> (k < nsp + ncp)%nat ->
  settled y k /\ d_tab (server_of y j) !! k = final y k.
Proof.
  intros I Hj Hreg Hk. pose proof (registered_early y j I Hj Hreg) as He. pose proof I as [M S]. unfold server_of in *. destruct (decide (j = 0%nat)) as [->|Hj0].
  - assert (Hs : settled y k); [|split; [done|by apply (mi_fin y M)]]. destruct (decide (k < nsp)%nat) as [Hlt|Hge]; [by apply all_settled|].
    apply (mi_freg y M) in Hreg as [Hc HF]. rewrite (proj1 (mi_ncp y M)) in Hc.
    destruct (span_cover _ k (mi_chain y M) ltac:(lia)) as (i & f & n & Hin & Hr). apply list_elem_of_fmap in Hin as (a & [= -> -> ->] & Ha).
    pose proof (proj1 (list.Forall_forall _ _) (mi_apps y M) a Ha) as A. pose proof (proj1 (list.Forall_forall _ _) HF a Ha) as Hca.
    pose proof (app_ok_bound y a A). pose proof (ak_cnt y a A). pose proof (ak_reg y a A) as Er. unfold complete in Hca.
    apply (filter_full (settled y) (seq (ap_first a) (ap_cnt_peers a))); [rewrite length_seq; lia|]. apply elem_of_seq. lia.
  - pose proof (S j ltac:(lia)) as Sj. destruct (decide (k < nsp)%nat) as [Hlt|Hge].
    + destruct (si_self y j Sj He) as [(_ & A2 & _)|(_ & _ & A3 & _)]; [by apply A2|by rewrite A3 in Hreg].
    + pose proof (slave_apps y j I ltac:(lia) Hreg) as P. apply (si_freg y j Sj) in Hreg. rewrite (si_ncp y j Sj), (sizes_perm _ _ P) in Hreg.
      destruct (span_cover _ k (mi_chain y M) ltac:(lia)) as (i & f & n & Hin & Hr). apply (si_apps y j Sj i f n k); [|done]. by rewrite P.
Qed.

Lemma registered_len y j : rinv y -> (j < nsp)%nat ->
  length (d_tab (server_of y j)) = (nsp + ncp)%nat /\ d_size_sp (server_of y j) = nsp /\ d_size_cp (server_of y j) = ncp.
Proof.
  intros [M S] Hj. unfold server_of. destruct (decide (j = 0%nat)) as [->|Hj0]; [by destruct M|]. by destruct (S j ltac:(lia)).
Qed.

Lemma registered_self y j : rinv y -> (j < nsp)%nat -> d_f_reg (server_of y j) = true -> d_self (server_of y j) = Some j /\ d_num_cp (server_of y j) = ncp.
Proof.
  intros I Hj Hreg. pose proof (registered_early y j I Hj Hreg) as He. destruct I as [M S]. unfold server_of in *. destruct (decide (j = 0%nat)) as [->|Hj0].
  - split; [apply (mi_self y M)|]. by apply (mi_freg y M).
  - pose proof (S j ltac:(lia)) as Sj. split; [|by apply (si_freg y j Sj)].
    destruct (si_self y j Sj He) as [(A1 & _)|(_ & _ & A3 & _)]; [done|by rewrite A3 in Hreg].
Qed.

Lemma registered_same y j : rinv y -> (j < nsp)%nat -> d_f_reg (server_of y j) = true -> d_tab (server_of y j) = d_tab (r_master y).
Proof.
  intros I Hj Hreg. destruct (registered_len y j I Hj) as (L & _). apply list_eq. intros k. destruct (decide (k < nsp + ncp)%nat) as [Hk|Hk].
  - destruct (registered_table y j k I Hj Hreg Hk) as [Hs ->]. symmetry. by apply (mi_fin y (rv_master y I)).
  - rewrite !lookup_ge_None_2; [done| |lia]. rewrite (mi_len y (rv_master y I)). lia.
Qed.

(** *** The replies to the clients *)

Lemma elem_stride step bound fuel : (0 < step)%nat -> forall i x, (bound - i <= fuel)%nat ->
  x ∈ stride fuel i bound step <-> (i <= x < bound)%nat /\ ((x - i) mod step = 0)%nat.
Proof.
  intros Hs. induction fuel as [|fuel IH]; intros i x Hf; cbn [stride].
  { rewrite elem_of_nil. lia. }
  destruct (decide (i < bound)%nat) as [Hi|Hi]; [|rewrite elem_of_nil; lia]. rewrite elem_of_cons, IH by lia. split.
  - intros [->|[Hr Hm]]; [rewrite Nat.sub_diag; split; [lia|apply Nat.Div0.mod_0_l]|]. split; [lia|].
    replace (x - i)%nat with (x - (i + step) + 1 * step)%nat by lia. by rewrite Nat.Div0.mod_add.
  - intros [Hr Hm]. destruct (decide (x = i)) as [->|Hx]; [by left|right]. destruct (decide (x - i < step)%nat) as [Hlt|Hge].
    { rewrite Nat.mod_small in Hm by done. lia. }
    split; [lia|]. replace (x - i)%nat with (x - (i + step) + 1 * step)%nat in Hm by lia. by rewrite Nat.Div0.mod_add in Hm.
Qed.

Lemma stride_NoDup step bound fuel : (0 < step)%nat -> forall i, (bound - i <= fuel)%nat -> NoDup (stride fuel i bound step).
Proof.
  intros Hs. induction fuel as [|fuel IH]; intros i Hf; cbn [stride]; [constructor|]. destruct (decide (i < bound)%nat) as [Hi|Hi]; [|constructor].
  constructor; [|apply IH; lia]. rewrite elem_stride by lia. lia.
Qed.

(** The clients of a server. *)
Lemma charges_spec d j i : d_size_sp d = nsp -> d_num_cp d = ncp -> (j < nsp)%nat -> i ∈ charges d j <-> (i < ncp)%nat /\ (i mod nsp = j)%nat.
Proof.
  intros E1 E2 Hj. unfold charges. rewrite E1, E2, elem_stride by lia. split.
  - intros [Hr Hm]. split; [lia|]. apply Nat.Div0.mod_divides in Hm as [q Hq]. replace i with (j + q * nsp)%nat by lia.
    rewrite Nat.Div0.mod_add. by apply Nat.mod_small.
  - intros [Hr Hm]. pose proof (Nat.div_mod_eq i nsp) as Hd. split; [lia|]. replace (i - j)%nat with (i / nsp * nsp)%nat by lia. apply Nat.Div0.mod_mul.
Qed.

Lemma id_min_other d id l : id ∉ map ap_id l -> forall r,
  fold_left (fun r a => if ap_id a =? id then Some (pm_id (nth (ap_first a) (d_tab d) no_process)) else r) l r = r.
Proof.
  induction l as [|b l IH]; intros Hn r; [done|]. cbn in Hn |- *. apply not_elem_of_cons in Hn as [Hb Hn].
  destruct (Z.eqb_spec (ap_id b) id) as [E|E]; [by destruct Hb|]. by apply IH.
Qed.

Lemma id_min_spec d id l f n : NoDup (map ap_id l) -> (id, f, n) ∈ map span l -> forall r,
  fold_left (fun r a => if ap_id a =? id then Some (pm_id (nth (ap_first a) (d_tab d) no_process)) else r) l r = Some (pm_id (nth f (d_tab d) no_process)).
Proof.
  induction l as [|b l IH]; intros Hn Hin r; [by apply not_elem_of_nil in Hin|]. cbn in Hn |- *. apply list.NoDup_cons in Hn as [Hb Hn].
  apply elem_of_cons in Hin as [[= -> -> ->]|Hin].
  - rewrite Z.eqb_refl. by apply id_min_other.
  - by apply IH.
Qed.

Definition reply_to (d : dart_server) (self i : nat) : nat * cn_reply :=
  let p := nth (d_size_sp d + i) (d_tab d) no_process in
  ((d_size_sp d + i)%nat, mk_reply self (pm_id p) (d_size_sp d) (d_size_cp d) (default (-1) (id_cp_min d (pm_appid p))) (d_tab d)).

Lemma register_loop_all d self is_ : (forall i, i ∈ is_ -> exists p m, d_tab d !! (d_size_sp d + i)%nat = Some p /\ id_cp_min d (pm_appid p) = Some m /\ 0 <= m) ->
  register_loop all_ok d self is_ = Some (map (reply_to d self) is_, 0).
Proof.
  induction is_ as [|i is_ IH]; intros H; [done|]. destruct (H i) as (p & m & Hp & Hm & Hpos); [apply list_elem_of_here|].
  cbn [register_loop map]. rewrite Hp. cbn [mbind option_bind]. rewrite Hm. destruct (Z.eqb_spec m (-1)) as [|]; [lia|]. cbn [negb andb all_ok].
  rewrite IH by (intros x Hx; by apply H, list_elem_of_further). cbn. unfold reply_to at 2. by rewrite (nth_lookup_Some _ _ _ _ Hp), Hm.
Qed.

(** The application of a client, as its server knows it. *)
Lemma registered_app y j k : rinv y -> (j < nsp)%nat -> d_f_reg (server_of y j) = true -> (nsp <= k < nsp + ncp)%nat ->
  exists pm a, r_who y k = Some pm /\ a ∈ d_apps (r_master y) /\ ap_id a = pm_appid pm /\ (ap_first a <= k < ap_first a + ap_num_peers a)%nat /\
    id_cp_min (server_of y j) (pm_appid pm) = Some (Z.of_nat (ap_first a)).
Proof.
  intros I Hj Hreg Hk. destruct (registered_table y j k I Hj Hreg ltac:(lia)) as [[[pm Hw] _] _]. pose proof (rv_master y I) as M.
  destruct (app_of_place y k pm M ltac:(lia) Hw) as (a & Hf & Ha & Hr). destruct (find_in _ _ _ Hf) as [_ Hid].
  pose proof (proj1 (list.Forall_forall _ _) (mi_apps y M) a Ha) as A. pose proof (ak_cnt y a A) as Hcnt. exists pm, a.
  split; [done|]. split; [done|]. split; [done|]. split; [lia|].
  assert (P : map span (d_apps (server_of y j)) ≡ₚ map span (d_apps (r_master y))).
  { unfold server_of in *. destruct (decide (j = 0%nat)); [done|]. by apply slave_apps; [|lia|]. }
  assert (Hn : NoDup (map ap_id (d_apps (server_of y j)))).
  { assert (E : forall l, map ap_id l = map (fun x => fst (fst x)) (map span l)) by (intros l; by rewrite map_map). rewrite E, P, <- E. apply M. }
  unfold id_cp_min. rewrite (id_min_spec _ (pm_appid pm) _ (ap_first a) (ap_num_peers a) Hn).
  - assert (Hlt : (ap_first a < nsp + ncp)%nat) by lia. destruct (registered_table y j _ I Hj Hreg Hlt) as [[[q Hq] _] Ht].
    unfold final in Ht. rewrite Hq in Ht. by rewrite (nth_lookup_Some _ _ _ _ Ht).
  - rewrite P. apply list_elem_of_fmap. exists a. split; [|done]. unfold span. by rewrite Hid.
Qed.

(** What the reply to the client at place [k] says. *)
Record reply_ok (y : rsys) (j k : nat) (r : cn_reply) : Prop := {
  ro_server : rp_id_sp r = j;
  ro_id : rp_id_cp r = Z.of_nat k;
  ro_sizes : rp_size_sp r = nsp /\ rp_size_cp r = ncp;
  ro_table : rp_data r = d_tab (r_master y);
  ro_min : exists pm a, r_who y k = Some pm /\ a ∈ d_apps (r_master y) /\ ap_id a = pm_appid pm /\
             (ap_first a <= k < ap_first a + ap_num_peers a)%nat /\ rp_id_cp_min r = Z.of_nat (ap_first a)
}.

Lemma registered_replies y j : rinv y -> (j < nsp)%nat -> d_f_reg (server_of y j) = true ->
  ds_register_cp all_ok (server_of y j) = Some (map (reply_to (server_of y j) j) (charges (server_of y j) j), 0) /\
  forall i, i ∈ charges (server_of y j) j -> reply_ok y j (nsp + i) (snd (reply_to (server_of y j) j i)).
Proof.
  intros I Hj Hreg. destruct (registered_self y j I Hj Hreg) as [Eself Encp]. destruct (registered_len y j I Hj) as (L & Esp & Ecp).
  assert (H : forall i, i ∈ charges (server_of y j) j -> exists p pm a, d_tab (server_of y j) !! (nsp + i)%nat = Some p /\ p = entry (nsp + i) pm /\
    r_who y (nsp + i) = Some pm /\ a ∈ d_apps (r_master y) /\ ap_id a = pm_appid pm /\ (ap_first a <= nsp + i < ap_first a + ap_num_peers a)%nat /\
    id_cp_min (server_of y j) (pm_appid p) = Some (Z.of_nat (ap_first a))).
  { intros i Hi. apply (charges_spec (server_of y j) j i) in Hi as [Hi _]; [|done|done|done].
    destruct (registered_app y j (nsp + i) I Hj Hreg ltac:(lia)) as (pm & a & Hw & Ha & Hid & Hr & Hm).
    destruct (registered_table y j (nsp + i) I Hj Hreg ltac:(lia)) as [_ Ht]. unfold final in Ht. rewrite Hw in Ht.
    exists (entry (nsp + i) pm), pm, a. repeat (split; [done|]). done. }
  split.
  - unfold ds_register_cp. rewrite Eself. cbn [mbind option_bind]. apply register_loop_all. intros i Hi.
    destruct (H i Hi) as (p & pm & a & Hp & _ & _ & _ & _ & _ & Hm). rewrite Esp. exists p, (Z.of_nat (ap_first a)). split; [done|]. split; [done|lia].
  - intros i Hi. destruct (H i Hi) as (p & pm & a & Hp & -> & Hw & Ha & Hid & Hr & Hm). unfold reply_to. rewrite Esp, Ecp, (nth_lookup_Some _ _ _ _ Hp), Hm.
    split; cbn; [done|done|done|by apply registered_same|]. exists pm, a. done.
Qed.

(** *** The client that gets the reply *)

(** The connection of its server comes first, unless it is the master. *)
Definition client_connected (address app_id : Z) (j : nat) : option dart_client :=
  let c := fst (dc_register_at_master conf (dc_alloc address app_id)) in
  if decide (j = 0%nat) then Some c else dc_listen c (Some (Z.of_nat j)).

Lemma client_registered_tcp y j k r address app_id : reply_ok y j k r -> (j < nsp)%nat -> (k < nsp + ncp)%nat -> length (d_tab (r_master y)) = (nsp + ncp)%nat ->
  exists c c' : dart_client, client_connected address app_id j = Some c /\ dc_handler_cn_register c r = Some c' /\
    c_f_reg c' = true /\ c_me c' = mk_pm (Z.of_nat k) app_id address /\ c_tab c' = d_tab (r_master y) /\ c_num_sp c' = nsp /\ c_num_cp c' = ncp /\
    c_min_rank c' = rp_id_cp_min r /\ c_links c' = (if decide (j = 0%nat) then [0%nat] else [j; 0%nat]).
Proof.
  intros [R1 R2 [R3 R4] R5 _] Hj Hk Hl. unfold client_connected. destruct (decide (j = 0%nat)) as [Hj0|Hj0]; eexists; eexists; (split; [reflexivity|]).
  - unfold dc_handler_cn_register, moved_links. rewrite R3, R4, R1, R2, R5. cbn. rewrite (proj2 (Z.ltb_lt 0 _)) by lia. cbn.
    rewrite (proj2 (Z.leb_le 0 _)), (proj2 (Z.ltb_lt (Z.of_nat k) _)), !bool_decide_eq_true_2 by lia. cbn. split; [reflexivity|]. done.
  - unfold dc_handler_cn_register, moved_links. rewrite R3, R4, R1, R2, R5. cbn.
    rewrite (proj2 (Z.leb_le 0 (Z.of_nat j))), (proj2 (Z.ltb_lt (Z.of_nat j) _)) by lia. cbn. rewrite (proj2 (Z.ltb_lt 0 _)) by lia. cbn.
    rewrite (proj2 (Z.leb_le 0 (Z.of_nat k))), (proj2 (Z.ltb_lt (Z.of_nat k) _)), !bool_decide_eq_true_2 by lia. cbn. split; [reflexivity|].
    cbn. rewrite Nat2Z.id. done.
Qed.

(** *** The start ends *)

Definition untaken (y : rsys) : nat := length (filter (fun k => ~ is_Some (r_who y k)) (seq 0 (nsp + ncp))).
Definition pending (y : rsys) : nat := length (filter (fun k => is_Some (r_reg y k)) (seq 0 (nsp + ncp))).
Definition in_flight (y : rsys) : nat := sum_list (map (fun j => length (r_chan y j)) (seq 1 (nsp - 1))).

(** A place costs a connection, a registration and a message to each slave. *)
Definition work (y : rsys) : nat := (untaken y * (nsp + 1) + pending y * nsp + in_flight y)%nat.

Lemma taken_work k pm y y' : minv y -> taken k pm y y' -> (k < nsp + ncp)%nat -> r_chan y' = r_chan y -> (work y' < work y)%nat.
Proof.
  intros M [T1 T2 T3] Hk Ec. assert (Hin : k ∈ seq 0 (nsp + ncp)) by (apply elem_of_seq; lia).
  assert (Eu : untaken y = S (untaken y')).
  { apply (filter_one _ _ _ k); [apply NoDup_seq|done| | |].
    - intros x Hx. by rewrite T2, fn_lookup_insert_ne.
    - rewrite T1. by intros [? ?].
    - rewrite T2, fn_lookup_insert. intros H. by apply H. }
  assert (Ep : pending y' = S (pending y)).
  { apply (filter_one _ _ _ k); [apply NoDup_seq|done| | |].
    - intros x Hx. by rewrite T3, fn_lookup_insert_ne.
    - rewrite T3, fn_lookup_insert. eauto.
    - intros [q Hq]. apply (mi_reg y M) in Hq. by rewrite T1 in Hq. }
  unfold work. rewrite Eu, Ep. unfold in_flight. rewrite Ec. lia.
Qed.

Lemma in_flight_push y y' (mk : nat -> msg) d l : d_size_sp d = nsp -> l = [] \/ l = map (fun i => (i, mk i)) (slaves d) -> r_chan y' = push l (r_chan y) ->
  (in_flight y' <= in_flight y + (nsp - 1))%nat.
Proof.
  intros Esp Hl Ec. unfold in_flight. rewrite Ec. assert (H : forall j, (0 < j < nsp)%nat -> (length (push l (r_chan y) j) <= S (length (r_chan y j)))%nat).
  { intros j Hj. destruct Hl as [->| ->]; [rewrite push_nil; lia|]. rewrite push_slave, length_app by done. cbn. lia. }
  assert (Hs : forall n s, (0 < s)%nat -> (s + n <= nsp)%nat ->
    (sum_list (map (fun j => length (push l (r_chan y) j)) (seq s n)) <= sum_list (map (fun j => length (r_chan y j)) (seq s n)) + n)%nat).
  { intros n. induction n as [|n IH]; intros s H0 Hn; [done|]. cbn [seq map sum_list_with]. cbn. specialize (IH (S s) ltac:(lia) ltac:(lia)).
    specialize (H s ltac:(lia)). lia. }
  apply Hs; lia.
Qed.

Lemma settles_work k pm y y' (mk : nat -> msg) d l : settles k pm y y' -> (k < nsp + ncp)%nat -> d_size_sp d = nsp ->
  l = [] \/ l = map (fun i => (i, mk i)) (slaves d) -> r_chan y' = push l (r_chan y) -> (work y' < work y)%nat.
Proof.
  intros [T1 T2 T3 T4] Hk Esp Hl Ec. assert (Hin : k ∈ seq 0 (nsp + ncp)) by (apply elem_of_seq; lia).
  assert (Ep : pending y = S (pending y')).
  { apply (filter_one _ _ _ k); [apply NoDup_seq|done| | |].
    - intros x Hx. by rewrite T4, fn_lookup_insert_ne.
    - rewrite T1. eauto.
    - rewrite T4, fn_lookup_insert. by intros [? ?]. }
  assert (Eu : untaken y' = untaken y) by (unfold untaken; by rewrite T3).
  pose proof (in_flight_push y y' mk d l Esp Hl Ec). unfold work. rewrite Ep, Eu. lia.
Qed.

Lemma pop_work y y' j m rest : (0 < j < nsp)%nat -> r_chan y j = m :: rest -> r_who y' = r_who y -> r_reg y' = r_reg y ->
  r_chan y' = <[j := rest]> (r_chan y) -> (work y' < work y)%nat.
Proof.
  intros Hj Ec Ew Er Ec'. unfold work, untaken, pending. rewrite Ew, Er. enough (in_flight y' < in_flight y)%nat by lia. unfold in_flight. rewrite Ec'.
  assert (Hs : forall n s, sum_list (map (fun i => length (<[j := rest]> (r_chan y) i)) (seq s n)) =
    (sum_list (map (fun i => length (r_chan y i)) (seq s n)) - (if decide (s <= j < s + n)%nat then 1 else 0))%nat /\
    ((s <= j < s + n)%nat -> (0 < sum_list (map (fun i => length (r_chan y i)) (seq s n)))%nat)).
  { intros n. induction n as [|n IH]; intros s; [split; [by destruct (decide _)|cbn; lia]|]. cbn [seq map]. cbn [sum_list_with]. cbn.
    destruct (IH (S s)) as [IH1 IH2]. destruct (decide (s = j)) as [->|Hsj].
    - rewrite fn_lookup_insert, Ec, IH1. rewrite decide_False, decide_True by lia. cbn. lia.
    - rewrite fn_lookup_insert_ne, IH1 by done. destruct (decide (S s <= j < S s + n)%nat) as [Hr|Hr].
      + specialize (IH2 Hr). rewrite decide_True by lia. lia.
      + rewrite decide_False by lia. split; lia. }
  destruct (Hs (nsp - 1)%nat 1%nat) as [H1 H2]. rewrite H1, decide_True by lia. specialize (H2 ltac:(lia)). lia.
Qed.

Lemma request_sends d k pm d' l rc : rpc_handler_sp_reg_request all_ok d k pm = Some (d', l, rc) -> exists mk, l = [] \/ l = map (fun i => (i, mk i)) (slaves d).
Proof.
  unfold rpc_handler_sp_reg_request. intros E. destruct (fill_in _ _ _) as [t|]; [|done]. cbn [mbind option_bind] in E.
  destruct (decide _); [|injection E as _ <- _; exists (fun _ => sp_reg_reply no_process []); by left].
  destruct (part _ _ _) as [data|]; [|done]. cbn [mbind option_bind] in E. rewrite (send_each_ok all_ok) in E by done. injection E as _ <- _.
  exists (fun i => sp_reg_reply (nth i t no_process) data). by right.
Qed.

Lemma register_sends d k pm d' l rc : rpc_handler_cn_register all_ok d k pm = Some (d', l, rc) -> exists mk, l = [] \/ l = map (fun i => (i, mk i)) (slaves d).
Proof.
  intros E. assert (H0 : l = [] -> exists mk : nat -> msg, l = [] \/ l = map (fun i => (i, mk i)) (slaves d)).
  { intros ->. exists (fun _ => sp_reg_reply no_process []). by left. }
  destruct (fill_in (d_tab d) k pm) as [t|] eqn:Et; [|by unfold rpc_handler_cn_register in E; rewrite Et in E].
  destruct (app_find (d_apps d) (pm_appid pm)) as [a|] eqn:Ef.
  - destruct (register_cases _ _ _ _ _ _ _ _ Ef Et E) as [(_ & _ & ?)|(Hc & f & _ & _ & Hs0 & H)]; [by apply H0|].
    destruct (decide (slaves d = [])) as [Hs|Hs]; [by apply H0, Hs0|]. destruct (H Hs) as (data & p & _ & _ & ->). eexists. by right.
  - apply H0. unfold rpc_handler_cn_register in E. rewrite Et in E. cbn [mbind option_bind] in E. cbn [d_apps set_tab] in E. rewrite Ef in E. by injection E as _ <- _.
Qed.

Lemma who_bound y k pm : minv y -> r_who y k = Some pm -> (k < nsp + ncp)%nat.
Proof.
  intros M Hw. destruct (mi_tab y M k pm Hw) as (e & He & _). apply lookup_lt_Some in He. by rewrite (mi_len y M) in He.
Qed.

Lemma step_work y y' : rinv y -> ostep y y' -> (work y' < work y)%nat.
Proof.
  intros I (e & Ho & Hs). pose proof (rv_master y I) as M.
  destruct Hs as [y address d k E|y app_id size address d k E|y k pm d l rc Hk Hr E|y k pm d l rc Hk Hr E|y j m rest d Hj Ec E]; cbn in Ho.
  - destruct (server_taken y d k M Ho E) as (Hk & Hnew & _). by eapply (taken_work k); [done|split|lia|].
  - destruct (place_minv y app_id size M Ho) as (M1 & a & Hf & Hcnt). destruct (listen_client _ _ _ _ _ E) as (a' & t & Hf' & Hk & Et & _).
    rewrite Hf in Hf'. injection Hf' as <-. destruct (find_in _ _ _ Hf) as [Hin _].
    pose proof (proj1 (list.Forall_forall _ _) (mi_apps _ M1) a Hin) as A. pose proof (ak_out _ a A k ltac:(lia)) as Hnew.
    eapply (taken_work k); [done|by split| |done]. unfold set_id in Et. destruct (_ !! k) as [p|] eqn:El; [|done].
    apply lookup_lt_Some in El. pose proof (mi_len _ M1) as Hl. cbn in Hl. lia.
  - destruct (request_sends _ _ _ _ _ _ E) as [mk Hl]. eapply (settles_work k pm y _ mk (r_master y) l); [split; try done; by apply (mi_reg y M)|lia|apply M|done|done].
  - destruct (register_sends _ _ _ _ _ _ E) as [mk Hl]. eapply (settles_work k pm y _ mk (r_master y) l); [split; try done; by apply (mi_reg y M)| |apply M|done|done].
    apply (who_bound y k pm M). by apply (mi_reg y M).
  - by eapply (pop_work y _ j m rest).
Qed.

(** *** No step is missing *)

Lemma fill_in_some t k pm : (k < length t)%nat -> exists t', fill_in t k pm = Some t' /\ length t' = length t.
Proof.
  intros Hk. unfold fill_in. destruct (lookup_lt_is_Some_2 t k Hk) as [p ->]. eexists. split; [reflexivity|]. apply length_insert.
Qed.

Lemma part_some t first n : (first + n <= length t)%nat -> exists data, part t first n = Some data /\ length data = n.
Proof. intros H. unfold part. rewrite decide_True by done. eexists. split; [reflexivity|]. rewrite length_take, length_drop. lia. Qed.

Lemma can_register y k pm : rinv y -> r_reg y k = Some pm -> exists y', rstep all_ok (e_register k) y y'.
Proof.
  intros [M _] Hr. pose proof (mi_reg y M k pm Hr) as Hw. pose proof (who_bound y k pm M Hw) as Hk.
  destruct (fill_in_some (d_tab (r_master y)) k pm) as (t & Et & Hl); [by rewrite (mi_len y M)|]. rewrite (mi_len y M) in Hl.
  destruct (decide (k < nsp)%nat) as [Hs|Hs].
  - assert (E : exists x, rpc_handler_sp_reg_request all_ok (r_master y) k pm = Some x).
    { unfold rpc_handler_sp_reg_request. rewrite Et. cbn [mbind option_bind]. case_decide; [|eauto]. cbn [set_reg set_tab d_size_sp].
      destruct (part_some t 0 (d_size_sp (r_master y))) as (data & -> & _); [rewrite (mi_sp y M); lia|]. cbn [mbind option_bind]. rewrite (send_each_ok all_ok) by done. eauto. }
    destruct E as [[[d l] rc] E]. eexists. by eapply r_request.
  - destruct (app_of_place y k pm M ltac:(lia) Hw) as (a & Hf & Ha & Hrng).
    assert (E : exists x, rpc_handler_cn_register all_ok (r_master y) k pm = Some x).
    { unfold rpc_handler_cn_register. rewrite Et. cbn [mbind option_bind]. cbn [d_apps set_tab]. rewrite Hf. case_decide; [|eauto].
      unfold ds_announce_cp. cbn [set_apps set_tab d_tab ap_first ap_num_peers].
      pose proof (proj1 (list.Forall_forall _ _) (mi_apps y M) a Ha) as A. destruct (mi_ncp y M) as [En Hle].
      destruct (chain_bound (map span (d_apps (r_master y))) (ap_id a) (ap_first a) (ap_num_peers a)) as [_ Hb]; [apply M|apply list_elem_of_fmap; by exists a|].
      destruct (part_some t (ap_first a) (ap_num_peers a)) as (data & -> & Hd); [lia|]. cbn [mbind option_bind].
      pose proof (ak_pos y a A). destruct data as [|p data]; [cbn in Hd; lia|]. cbn [head mbind option_bind]. rewrite (send_each_ok all_ok) by done. cbn. destruct (decide (seq _ _ = [])); cbn; eauto. }
    destruct E as [[[d l] rc] E]. eexists. eapply (r_register all_ok y k pm); [lia|done|exact E].
Qed.

Lemma can_deliver y j m rest : rinv y -> (0 < j < nsp)%nat -> r_chan y j = m :: rest -> exists y', ostep y y'.
Proof.
  intros [M S] Hj Ec. destruct (S j Hj) as [S1 S2 S3 S4 S5 S6 S7 S8 S9].
  assert (He : d_num_sp_reg (r_master y) = nsp).
  { destruct (decide (d_num_sp_reg (r_master y) = nsp)) as [|He]; [done|]. destruct (S5 He) as [H _]. by rewrite Ec in H. }
  assert (E : exists d, match m with
      | sp_reg_reply p data => rpc_handler_sp_reg_reply (r_slave y j) p data
      | sp_announce_cp info data => rpc_handler_sp_announce_cp (r_slave y j) info data
      end = Some d).
  { destruct (S6 He) as [(A1 & A2 & HF)|(A1 & A2 & A3 & p & data & rest' & E & B1 & B2 & B3 & B4)].
    - rewrite Ec in HF. apply list.Forall_cons in HF as [Hm _]. destruct m as [|info data]; [done|]. destruct Hm as (B1 & B2 & _).
      unfold rpc_handler_sp_announce_cp. rewrite !bool_decide_eq_true_2 by lia. cbn. eauto.
    - rewrite Ec in E. injection E as -> ->. unfold rpc_handler_sp_reg_reply. rewrite B1, (proj2 (Z.leb_le 0 _)), (proj2 (Z.ltb_lt _ _)), !bool_decide_eq_true_2 by lia.
      cbn. eauto. }
  destruct E as [d E]. eexists. exists (e_deliver j). split; [done|]. by eapply r_deliver.
Qed.

(** The servers can always register, and then everybody can. *)
Lemma stuck_settled y : rinv y -> (forall k, (k < nsp + ncp)%nat -> is_Some (r_who y k)) -> (forall y', ~ ostep y y') ->
  forall k, (k < nsp + ncp)%nat -> settled y k.
Proof.
  intros I Hall Hno. assert (Hreg : forall k, (k < nsp + ncp)%nat -> orderly y (e_register k) -> settled y k).
  { intros k Hk Ho. split; [by apply Hall|]. destruct (r_reg y k) as [pm|] eqn:E; [|done]. destruct (can_register y k pm I E) as [y' Hs].
    destruct (Hno y'). by exists (e_register k). }
  intros k Hk. apply Hreg; [done|]. right. left. rewrite (mi_sreg y (rv_master y I)), filter_all; [apply length_seq|].
  intros x Hx%elem_of_seq. apply Hreg; [lia|]. left. lia.
Qed.

(** Nothing under way: all processes that have come are registered everywhere. *)
Lemma quiet_registered y : rinv y -> (forall k, (k < nsp + ncp)%nat -> settled y k) -> (forall j, (0 < j < nsp)%nat -> r_chan y j = []) ->
  forall j, (j < nsp)%nat -> d_f_reg (server_of y j) = true.
Proof.
  intros [M S] Hall Hq. assert (Hn : d_num_cp (r_master y) = ncp).
  { destruct (mi_ncp y M) as [_ Hle]. destruct (decide (d_num_cp (r_master y) = ncp)) as [|Hne]; [done|].
    destruct (Hall (nsp + d_num_cp (r_master y))%nat ltac:(lia)) as [[pm Hw] _]. by rewrite (mi_rest y M) in Hw. }
  assert (HF : Forall complete (d_apps (r_master y))).
  { apply list.Forall_forall. intros a Ha. pose proof (proj1 (list.Forall_forall _ _) (mi_apps y M) a Ha) as A.
    destruct (chain_bound (map span (d_apps (r_master y))) (ap_id a) (ap_first a) (ap_num_peers a)) as [_ Hb]; [apply M|apply list_elem_of_fmap; by exists a|].
    rewrite <- (proj1 (mi_ncp y M)), Hn in Hb. assert (Hc : ap_cnt_peers a = ap_num_peers a).
    { pose proof (ak_cnt y a A). destruct (decide (ap_cnt_peers a = ap_num_peers a)) as [|Hne]; [done|].
      destruct (Hall (ap_first a + ap_cnt_peers a)%nat ltac:(lia)) as [[pm Hw] _]. rewrite (ak_out y a A) in Hw by lia. done. }
    unfold complete. rewrite (ak_reg y a A), filter_all, length_seq; [done|]. intros x Hx%elem_of_seq. apply Hall. lia. }
  intros j Hj. unfold server_of. destruct (decide (j = 0%nat)) as [->|Hj0]; [by apply (mi_freg y M)|]. pose proof (S j ltac:(lia)) as Sj. apply (si_freg y j Sj).
  pose proof (si_done y j Sj) as Hd. rewrite (Hq j ltac:(lia)), app_nil_r in Hd. rewrite (si_ncp y j Sj), <- sizes_rev, Hd, (sizes_perm _ _ (mi_done y M)).
  rewrite filter_all by (intros a Ha; by apply (proj1 (list.Forall_forall _ _) HF)). by rewrite <- (proj1 (mi_ncp y M)).
Qed.

(** *** Runs *)

#[export] Instance admits_dec d app_id size : Decision (admits d app_id size).
Proof. unfold admits. destruct (app_find _ _); apply _. Defined.

#[export] Instance completes_dec y k : Decision (completes y k).
Proof. unfold completes. destruct (r_reg y k); [|apply _]. destruct (app_find _ _); apply _. Defined.

#[export] Instance orderly_dec y e : Decision (orderly y e).
Proof. destruct e; unfold orderly; apply _. Defined.

(** One step, if it is possible. *)
Definition exec (e : event) (y : rsys) : option rsys :=
  match e with
  | e_server address =>
      match ds_listen true (r_master y) new_server with
      | Some (d, Some k) =>
          Some (let '(slave, pm) := ds_boot_slave conf (ds_alloc address nsp ncp) in
                mk_rsys d (<[k := slave]> (r_slave y)) (<[k := Some pm]> (r_reg y)) (<[k := Some pm]> (r_who y)) (r_chan y) (r_done y))
      | _ => None
      end
  | e_client app_id size address =>
      match ds_listen true (r_master y) (new_client app_id size) with
      | Some (d, Some k) =>
          Some (let pm := snd (dc_register_at_master conf (dc_alloc address app_id)) in
                mk_rsys d (r_slave y) (<[k := Some pm]> (r_reg y)) (<[k := Some pm]> (r_who y)) (r_chan y) (r_done y))
      | _ => None
      end
  | e_register k =>
      pm ← r_reg y k;
      if decide (k < nsp)%nat then
        '(d, l, rc) ← rpc_handler_sp_reg_request all_ok (r_master y) k pm;
        Some (mk_rsys d (r_slave y) (<[k := None]> (r_reg y)) (r_who y) (push l (r_chan y)) (r_done y))
      else
        '(d, l, rc) ← rpc_handler_cn_register all_ok (r_master y) k pm;
        Some (mk_rsys d (r_slave y) (<[k := None]> (r_reg y)) (r_who y) (push l (r_chan y))
                (match app_find (d_apps d) (pm_appid pm) with
                 | Some a => if decide (ap_registered a = ap_num_peers a) then r_done y ++ [span a] else r_done y
                 | None => r_done y
                 end))
  | e_deliver j =>
      if decide (0 < j < nsp)%nat then
        match r_chan y j with
        | [] => None
        | m :: rest =>
            d ← match m with
                | sp_reg_reply p data => rpc_handler_sp_reg_reply (r_slave y j) p data
                | sp_announce_cp info data => rpc_handler_sp_announce_cp (r_slave y j) info data
                end;
            Some (mk_rsys (r_master y) (<[j := d]> (r_slave y)) (r_reg y) (r_who y) (<[j := rest]> (r_chan y)) (r_done y))
        end
      else None
  end.

Lemma exec_step e y y' : exec e y = Some y' -> rstep all_ok e y y'.
Proof.
  destruct e as [address|app_id size address|k|j]; unfold exec; intros E.
  - destruct (ds_listen _ _ _) as [[d [k|]]|] eqn:El; [|done|done]. injection E as <-. by apply r_server.
  - destruct (ds_listen _ _ _) as [[d [k|]]|] eqn:El; [|done|done]. injection E as <-. by apply (r_client all_ok y app_id size).
  - destruct (r_reg y k) as [pm|] eqn:Er; [|done]. cbn [mbind option_bind] in E. destruct (decide (k < nsp)%nat) as [Hk|Hk].
    + destruct (rpc_handler_sp_reg_request _ _ _ _) as [[[d l] rc]|] eqn:Eh; [|done]. injection E as <-. by apply (r_request all_ok y k pm d l rc).
    + destruct (rpc_handler_cn_register _ _ _ _) as [[[d l] rc]|] eqn:Eh; [|done]. injection E as <-. apply (r_register all_ok y k pm d l rc); [lia|done|done].
  - destruct (decide _); [|done]. destruct (r_chan y j) as [|m rest] eqn:Ec; [done|].
    destruct (match m with sp_reg_reply _ _ => _ | sp_announce_cp _ _ => _ end) as [d|] eqn:Eh; [|done]. injection E as <-. by apply (r_deliver all_ok y j m rest d).
Qed.

(** A run, and a run of orderly steps. *)
Fixpoint exec_all (es : list event) (y : rsys) : option rsys :=
  match es with [] => Some y | e :: es => y ← exec e y; exec_all es y end.

Fixpoint orderly_all (es : list event) (y : rsys) : option rsys :=
  match es with [] => Some y | e :: es => if decide (orderly y e) then y ← exec e y; orderly_all es y else None end.

Lemma orderly_all_rtc es : forall y y', orderly_all es y = Some y' -> rtc ostep y y'.
Proof.
  induction es as [|e es IH]; intros y y' E; cbn in E; [injection E as <-; apply rtc_refl|]. destruct (decide (orderly y e)) as [Ho|]; [|done].
  destruct (exec e y) as [y1|] eqn:E1; [|done]. eapply rtc_l; [exists e; split; [done|by apply exec_step]|by apply IH].
Qed.

Lemma orderly_all_reach es : is_Some (orderly_all es r_init) -> rtc ostep r_init (default r_init (orderly_all es r_init)).
Proof. intros [y E]. rewrite E. by eapply orderly_all_rtc. Qed.

Lemma run_work n y y' : rinv y -> nsteps ostep n y y' -> (n + work y' <= work y)%nat.
Proof.
  intros I H. induction H as [|n y1 y2 y3 Hs Hr IH]; [lia|]. specialize (IH (rinv_step y1 y2 I Hs)). pose proof (step_work y1 y2 I Hs). lia.
Qed.

Lemma init_work : (work r_init <= (nsp + ncp) * (nsp + 1))%nat.
Proof.
  assert (Hp : pending r_init = 0%nat).
  { unfold pending. rewrite filter_none; [done|]. intros x _. by intros [? ?]. }
  assert (Hf : in_flight r_init = 0%nat).
  { unfold in_flight. generalize (seq 1 (nsp - 1)). intros l. induction l as [|x l IH]; [done|]. cbn in *. lia. }
  unfold work. rewrite Hp, Hf. pose proof (length_filter (fun k => ~ is_Some (r_who r_init k)) (seq 0 (nsp + ncp))) as Hu. rewrite length_seq in Hu.
  unfold untaken. nia.
Qed.

(** C27: in every orderly start over TCP, a server that leaves the start knows
    its own place and has the same table of processes as the master: each place
    holds the process that was given it, with the place as its id and the
    application and address it told.  Connections, registrations and messages
    come in any order that is [orderly]: no message fails, at most [nsp]
    servers connect, the processes of an application agree on its size and have
    room, and no application is complete before the last server has registered
    (its processes may connect and register before). *)
Theorem tcp_tables_agree y j : rtc ostep r_init y -> (j < nsp)%nat -> d_f_reg (server_of y j) = true ->
  d_self (server_of y j) = Some j /\ d_tab (server_of y j) = d_tab (r_master y) /\ length (d_tab (r_master y)) = (nsp + ncp)%nat /\
  forall k, (k < nsp + ncp)%nat -> exists pm, r_who y k = Some pm /\
    d_tab (server_of y j) !! k = Some (mk_pm (Z.of_nat k) (pm_appid pm) (pm_address pm)).
Proof.
  intros H Hj Hreg. pose proof (rinv_reachable y H) as I. split; [by apply registered_self|]. split; [by apply registered_same|].
  split; [apply (mi_len y (rv_master y I))|]. intros k Hk. destruct (registered_table y j k I Hj Hreg Hk) as [[[pm Hw] _] Ht].
  exists pm. split; [done|]. rewrite Ht. unfold final. by rewrite Hw.
Qed.

(** C28: when a server has left an [orderly] start over TCP (conditions as for
    the tables: no failure, no surplus process, no application complete before
    the last server has registered), and none of its messages fails, it sends exactly one reply
    to each client whose number is its own modulo the number of servers, and
    to no other process; with it the client takes its place as its id, the
    table of the master and the first id of its own application, and later
    leaves at the same server. *)
Theorem tcp_clients_start y j : rtc ostep r_init y -> (j < nsp)%nat -> d_f_reg (server_of y j) = true ->
  exists l, ds_register_cp all_ok (server_of y j) = Some (l, 0) /\ NoDup (map fst l) /\
    (forall k, k ∈ map fst l <-> (nsp <= k < nsp + ncp)%nat /\ (k mod nsp = j)%nat) /\
    forall k r, (k, r) ∈ l -> exists pm a c c', r_who y k = Some pm /\ a ∈ d_apps (r_master y) /\ ap_id a = pm_appid pm /\
      (ap_first a <= k < ap_first a + ap_num_peers a)%nat /\
      client_connected (pm_address pm) (pm_appid pm) j = Some c /\ dc_handler_cn_register c r = Some c' /\
      c_f_reg c' = true /\ c_me c' = mk_pm (Z.of_nat k) (pm_appid pm) (pm_address pm) /\ c_tab c' = d_tab (r_master y) /\
      c_min_rank c' = Z.of_nat (ap_first a) /\ dc_unregister c' = j.
Proof.
  intros H Hj Hreg. pose proof (rinv_reachable y H) as I. destruct (registered_replies y j I Hj Hreg) as [E Hr].
  destruct (registered_self y j I Hj Hreg) as [_ Encp]. destruct (registered_len y j I Hj) as (_ & Esp & _).
  assert (Ech : forall i, i ∈ charges (server_of y j) j <-> (i < ncp)%nat /\ (i mod nsp = j)%nat) by (intros i; by apply charges_spec).
  assert (Ef : map fst (map (reply_to (server_of y j) j) (charges (server_of y j) j)) = map (fun i => (nsp + i)%nat) (charges (server_of y j) j)).
  { rewrite map_map. apply map_ext. intros i. cbn. by rewrite Esp. }
  assert (Hmod : forall i, ((nsp + i) mod nsp = i mod nsp)%nat) by (intros i; rewrite <- (Nat.mul_1_l nsp) at 1; rewrite Nat.add_comm; apply Nat.Div0.mod_add).
  eexists. split; [exact E|]. rewrite Ef. split; [|split].
  - apply NoDup_fmap_2; [intros a b; lia|]. unfold charges. apply stride_NoDup; lia.
  - intros k. rewrite list_elem_of_fmap. split.
    + intros (i & -> & Hi%Ech). rewrite Hmod. lia.
    + intros [Hk Hm]. exists (k - nsp)%nat. split; [lia|]. apply Ech. split; [lia|]. rewrite <- Hmod. by replace (nsp + (k - nsp))%nat with k by lia.
  - intros k r Hin. apply list_elem_of_fmap in Hin as (i & Ei & Hi). pose proof (Hr i Hi) as R. apply Ech in Hi as [Hi Him].
    assert (Er : r = snd (reply_to (server_of y j) j i)) by (by rewrite <- Ei). assert (Ek : k = (nsp + i)%nat) by (injection Ei as -> _; by rewrite Esp).
    clear Ei. subst k r. pose proof (ro_min _ _ _ _ R) as (pm & a & Hw & Ha & Hid & Hrng & Hmin).
    destruct (client_registered_tcp y j _ _ (pm_address pm) (pm_appid pm) R Hj ltac:(lia) (mi_len y (rv_master y I))) as
      (c & c' & C1 & C2 & C3 & C4 & C5 & C6 & C7 & C8 & _).
    exists pm, a, c, c'. repeat (split; [done|]). rewrite C8. split; [exact Hmin|]. unfold dc_unregister. rewrite C4, C6. cbn [pm_id].
    rewrite Z.rem_mod_nonneg by lia. rewrite <- Nat2Z.inj_mod, Nat2Z.id. by rewrite Hmod.
Qed.

(** C29: an [orderly] start over TCP (no failure, no surplus process, no
    application complete before the last server has registered) ends: it takes
    at most [(nsp + ncp) * (nsp + 1)] connections, registrations and messages,
    in whatever order; and when no orderly step is left and all processes have
    connected, every server is registered, so that it leaves the loop of its
    start. *)
Theorem tcp_start_ends : (forall n y, nsteps ostep n r_init y -> (n <= (nsp + ncp) * (nsp + 1))%nat) /\
  forall y, rtc ostep r_init y -> (forall k, (k < nsp + ncp)%nat -> is_Some (r_who y k)) -> (forall y', ~ ostep y y') ->
    forall j, (j < nsp)%nat -> d_f_reg (server_of y j) = true.
Proof.
  split.
  - intros n y H. pose proof (run_work n r_init y (rinv_reachable _ (rtc_refl _ _)) H). pose proof init_work. lia.
  - intros y H Hall Hno. pose proof (rinv_reachable y H) as I. apply quiet_registered; [done|by apply stuck_settled|].
    intros j Hj. destruct (r_chan y j) as [|m rest] eqn:E; [done|]. destruct (can_deliver y j m rest I Hj E) as [y' Hs]. by destruct (Hno y').
Qed.

End starting.

(** *** An example *)

(** Two servers, and an application of two processes; one of them comes before
    the other server. *)
Definition demo_start : list event :=
  [e_client 7 2 301; e_server 201; e_register 2; e_register 1; e_client 7 2 302; e_deliver 1; e_register 3; e_deliver 1].

Definition demo_started : rsys := default (r_init 2 2 100) (orderly_all 2 2 100 demo_start (r_init 2 2 100)).

Lemma demo_started_reach : rtc (ostep 2 2 100) (r_init 2 2 100) demo_started.
Proof. apply orderly_all_reach; [lia|lia|]. vm_compute. eauto. Qed.

Lemma tcp_tables_agree_witness : d_f_reg (server_of demo_started 1) = true /\ d_tab (server_of demo_started 1) = d_tab (r_master demo_started).
Proof.
  split; [by vm_compute|]. apply (tcp_tables_agree 2 2 100 ltac:(lia) ltac:(lia) demo_started 1); [apply demo_started_reach|lia|by vm_compute].
Defined.

Lemma tcp_clients_start_witness : exists l, ds_register_cp all_ok (server_of demo_started 1) = Some (l, 0) /\ map fst l = [3%nat].
Proof.
  destruct (tcp_clients_start 2 2 100 ltac:(lia) ltac:(lia) demo_started 1) as (l & E & _ & _ & _); [apply demo_started_reach|lia|by vm_compute|].
  exists l. split; [exact E|]. vm_compute in E. by injection E as <-.
Defined.

Lemma tcp_start_ends_witness : d_f_reg (server_of demo_started 0) = true /\ d_f_reg (server_of demo_started 1) = true.
Proof.
  assert (Hall : forall k, (k < 2 + 2)%nat -> is_Some (r_who demo_started k)).
  { intros k Hk. destruct k as [|[|[|[|k]]]]; [vm_compute; eauto..|lia]. }
  assert (Hno : forall y', ~ ostep 2 2 100 demo_started y').
  { intros y' Hs. apply step_work in Hs; [|lia|lia|apply (rinv_reachable 2 2 100); [lia|lia|apply demo_started_reach]]. vm_compute in Hs. lia. }
  split; apply (proj2 (tcp_start_ends 2 2 100 ltac:(lia) ltac:(lia)) demo_started demo_started_reach Hall Hno); lia.
Defined.

(** *** A start that is not orderly *)

(** An application that is complete before a server has registered is announced
    to it before the table of the servers: the server leaves the loop of its
    start without its own place, and [ds_register_cp] uses [ds->self], which is
    not set. *)
Definition early_events : list event := [e_server 201; e_client 7 1 301; e_register 2; e_deliver 1].
Definition early_application : option dart_server := (fun y => server_of y 1) <$> exec_all 2 1 100 early_events (r_init 2 1 100).

Lemma early_application_unknown_self : (d_f_reg <$> early_application, d_self <$> early_application, ds_register_cp all_ok <$> early_application) =
  (Some true, Some None, Some None) /\ orderly_all 2 1 100 early_events (r_init 2 1 100) = None.
Proof. by vm_compute. Qed.

(** One server too many takes the place of a process of an application. *)
Lemma surplus_server_takes_client : (fun y => (d_num_sp (r_master y), r_who y 2)) <$> exec_all 2 1 100 [e_server 201; e_server 202] (r_init 2 1 100) =
  Some (3%nat, Some (mk_pm (-1) 0 202)).
Proof. by vm_compute. Qed.
