(* ===== verification/TcpBoot.v ===== *)
(** * The first steps of a server over TCP (dart/tcp/dart_rpc_tcp.c, ds_base_tcp.c)

    One of the servers becomes the master: each locks a file, looks at the size
    of the file [conf], and the one that finds it empty writes its own address
    there before it releases the lock.  The others, and the clients, read the
    address of the master from the file.  This is the start without an MPI
    communicator; with one, the process of rank 0 is the master. *)

From Stdlib Require Import Ascii.
From Stdlib Require String.
Import String.StringSyntax.
From stdpp Require Import relations functions.
From S2P Require Import Prelude Conf.

#[local] Open Scope Z_scope.

(** ** The file with the address *)

(** [struct sockaddr_in]: the bytes of the address and the port. *)
Record sockaddr_in := mk_sockaddr { s_addr : list Z; sin_port : Z }.

Definition DOT : ascii := "."%char.

Fixpoint inet_ntoa (a : list Z) : list ascii :=
  match a with
  | [] => []
  | [b] => print_Z b
  | b :: a => print_Z b ++ DOT :: inet_ntoa a
  end.

Fixpoint split_at (x : ascii) (s : list ascii) : list (list ascii) :=
  match s with
  | [] => [[]]
  | c :: s =>
      match split_at x s with
      | w :: l => if decide (c = x) then [] :: w :: l else (c :: w) :: l
      | [] => [[c]]
      end
  end.

(** A part of an address; [None] for the notations with leading zeros, which
    are octal or hexadecimal numbers, and for other characters. *)
Definition inet_part (s : list ascii) : option Z :=
  let v := digits 0 s in if bool_decide (s = print_Z v) && (v <=? 255) then Some v else None.

(** [inet_addr] of an address in decimal notation with all its parts. *)
Definition inet_addr (s : list ascii) : option (list Z) :=
  l ← mapM inet_part (split_at DOT s); if decide (length l = 4%nat) then Some l else None.

Definition config_text (a : sockaddr_in) : list ascii :=
  str "P2TNID=" ++ inet_ntoa (s_addr a) ++ NL :: str "P2TPID=" ++ print_Z (sin_port a) ++ [NL].

(** [fopen] fails; [fprintf] fails; the text is lost when [fclose] writes it,
    which the code does not notice; the text is written. *)
Inductive write_result := w_no_file | w_no_print | w_lost | w_done.

#[export] Instance write_result_eq_dec : EqDecision write_result.
Proof. solve_decision. Defined.

(** The file, and the return code. *)
Definition rpc_write_config (w : write_result) (a : sockaddr_in) (file : option (list ascii)) : option (list ascii) * Z :=
  match w with
  | w_no_file => (file, -1)
  | w_no_print => (Some [], -1)
  | w_lost => (Some [], 0)
  | w_done => (Some (config_text a), 0)
  end.

(** [fscanf]: the characters of the format, and words of at most 32. *)
Fixpoint scan_text (fmt s : list ascii) : option (list ascii) :=
  match fmt, s with
  | [], _ => Some s
  | f :: fmt, c :: s => if decide (c = f) then scan_text fmt s else None
  | _, [] => None
  end.

Fixpoint scan_chars (n : nat) (s : list ascii) : list ascii * list ascii :=
  match n, s with
  | S n, c :: s' => if isspace c then ([], s) else let '(w, rest) := scan_chars n s' in (c :: w, rest)
  | _, _ => ([], s)
  end.

Definition scan_word (s : list ascii) : option (list ascii * list ascii) :=
  let '(w, rest) := scan_chars 32 (skip_space s) in if decide (w = []) then None else Some (w, rest).

(** The words of the file, when both are there. *)
Definition scan_config (s : list ascii) : option (list ascii * list ascii) :=
  s ← scan_text (str "P2TNID=") s;
  '(ip, s) ← scan_word s;
  s ← scan_text (str "P2TPID=") (skip_space s);
  '(port, _) ← scan_word s;
  Some (ip, port).

(** A failure; or an address.  [cfg_undefined]: a word of 32 characters, whose
    terminator is written past its buffer, or a number that [atoi] and
    [inet_addr] of the model do not cover. *)
Inductive config_result := cfg_failed | cfg_undefined | cfg_address (a : sockaddr_in).

Definition config_address (ip port : list ascii) : config_result :=
  match inet_addr ip, atoi port with
  | Some l, Some p => cfg_address (mk_sockaddr l (p mod 2 ^ 16))
  | _, _ => cfg_undefined
  end.

(** [env_ip], [env_port]: the variables P2TNID and P2TPID. *)
Definition rpc_read_config (env_ip env_port : option (list ascii)) (file : option (list ascii)) : config_result :=
  match env_ip, env_port with
  | Some ip, Some port => config_address ip port
  | _, _ =>
      match file with
      | None => cfg_failed
      | Some s =>
          match scan_config s with
          | None => cfg_failed
          | Some (ip, port) =>
              if decide (length ip < 32 /\ length port < 32)%nat then config_address ip port else cfg_undefined
          end
      end
  end.

(** ** What is written is read *)

Record address_ok (a : sockaddr_in) : Prop := {
  ad_len : length (s_addr a) = 4%nat;
  ad_bytes : Forall (fun b => 0 <= b <= 255) (s_addr a);
  ad_port : 0 <= sin_port a < 2 ^ 16
}.

Definition plain (s : list ascii) : Prop := Forall (fun c => isspace c = false) s.

Lemma scan_text_app fmt s : scan_text fmt (fmt ++ s) = Some s.
Proof. induction fmt as [|f fmt IH]; [by destruct s|]. cbn. by rewrite decide_True. Qed.

Lemma scan_chars_app w : forall n s, plain w -> (length w < n)%nat -> scan_chars n (w ++ NL :: s) = (w, NL :: s).
Proof.
  induction w as [|c w IH]; intros [|n] s Hw Hn; cbn [length] in Hn; try lia; [done|]. apply list.Forall_cons in Hw as [Hc Hw].
  cbn. rewrite Hc, IH by (done || lia). done.
Qed.

Lemma scan_word_app w s : plain w -> w <> [] -> (length w < 32)%nat -> scan_word (w ++ NL :: s) = Some (w, NL :: s).
Proof.
  intros Hw Hne Hl. unfold scan_word. destruct w as [|c w]; [done|]. pose proof Hw as Hw'. apply list.Forall_cons in Hw' as [Hc _].
  cbn [app skip_space]. rewrite Hc, app_comm_cons, (scan_chars_app (c :: w)) by done. by rewrite decide_False.
Qed.

Lemma digits_plain s : digits_only s -> plain s.
Proof. intros H. eapply Forall_impl; [|exact H]. intros c [d Hd]. by apply (digit_not_space c d). Qed.

Lemma print_byte v : 0 <= v -> print_Z v = dec 20 v.
Proof. intros H. unfold print_Z. by destruct (Z.ltb_spec v 0); [lia|]. Qed.

Lemma print_plain v : 0 <= v -> plain (print_Z v).
Proof. intros H. rewrite print_byte by done. apply digits_plain, dec_digits. Qed.

Lemma print_nonempty v : 0 <= v -> print_Z v <> [].
Proof. intros H. rewrite print_byte by done. destruct (dec_cons 20 v ltac:(lia)) as (c & s & E). by rewrite E. Qed.

Lemma print_length k v : (0 < k)%nat -> 0 <= v < 10 ^ Z.of_nat k -> (length (print_Z v) <= k)%nat.
Proof.
  intros Hk H. rewrite print_byte by lia. generalize 20%nat. intros fuel. revert k v Hk H.
  induction fuel as [|fuel IH]; intros k n Hk Hn; [cbn; lia|]. cbn [dec]. rewrite length_app. cbn [length]. destruct (Z.ltb_spec n 10); [cbn; lia|].
  destruct k as [|[|k]]; [lia|cbn in Hn; lia|]. enough (length (dec fuel (n / 10)) <= S k)%nat by lia. apply IH; [lia|].
  split; [apply Z.div_pos; lia|]. apply Z.div_lt_upper_bound; [lia|]. rewrite (Nat2Z.inj_succ (S k)), Z.pow_succ_r in Hn by lia. lia.
Qed.

Lemma split_at_app x w s : x ∉ w -> split_at x (w ++ x :: s) = w :: split_at x s.
Proof.
  intros Hx. induction w as [|c w IH]; cbn.
  - destruct (split_at x s) as [|v l] eqn:E; [|by rewrite decide_True]. destruct s as [|d s]; [done|]. cbn in E. by destruct (split_at x s); [|case_decide].
  - apply not_elem_of_cons in Hx as [Hc Hx]. rewrite IH by done. by rewrite decide_False.
Qed.

Lemma split_at_none x w : x ∉ w -> split_at x w = [w].
Proof.
  intros Hx. induction w as [|c w IH]; [done|]. apply not_elem_of_cons in Hx as [Hc Hx]. cbn. rewrite IH by done. by rewrite decide_False.
Qed.

Lemma inet_part_print v : 0 <= v <= 255 -> inet_part (print_Z v) = Some v.
Proof.
  intros H. unfold inet_part. assert (E : digits 0 (print_Z v) = v).
  { rewrite print_byte by lia. rewrite <- (app_nil_r (dec 20 v)), digits_dec; [done|]. change (10 ^ Z.of_nat 20) with 100000000000000000000. lia. }
  rewrite E, bool_decide_eq_true_2 by done. by rewrite (proj2 (Z.leb_le _ _)) by lia.
Qed.

Lemma inet_ntoa_cons b b' a : inet_ntoa (b :: b' :: a) = print_Z b ++ DOT :: inet_ntoa (b' :: a).
Proof. done. Qed.

Lemma inet_ntoa_parts a : a <> [] -> Forall (fun b => 0 <= b <= 255) a -> mapM inet_part (split_at DOT (inet_ntoa a)) = Some a.
Proof.
  induction a as [|b a IH]; [done|]. intros _ [Hb Ha]%list.Forall_cons. assert (Hd : DOT ∉ print_Z b) by (by apply print_Z_not_elem).
  destruct a as [|b' a].
  - cbn [inet_ntoa]. rewrite split_at_none by done. cbn. by rewrite inet_part_print.
  - rewrite inet_ntoa_cons, split_at_app by done. cbn [mapM]. rewrite inet_part_print by done. cbn [mbind option_bind]. rewrite IH by done. done.
Qed.

Lemma inet_roundtrip a : length a = 4%nat -> Forall (fun b => 0 <= b <= 255) a -> inet_addr (inet_ntoa a) = Some a.
Proof.
  intros Hl Ha. unfold inet_addr. rewrite inet_ntoa_parts by (done || by intros ->). cbn [mbind option_bind]. by rewrite decide_True.
Qed.

Lemma inet_ntoa_plain a : Forall (fun b => 0 <= b <= 255) a -> plain (inet_ntoa a).
Proof.
  induction a as [|b a IH]; [constructor|]. intros [Hb Ha]%list.Forall_cons. destruct a as [|b' a]; [apply print_plain; lia|].
  rewrite inet_ntoa_cons. apply Forall_app. split; [apply print_plain; lia|]. constructor; [done|by apply IH].
Qed.

Lemma inet_ntoa_length a : Forall (fun b => 0 <= b <= 255) a -> (length (inet_ntoa a) <= 4 * length a)%nat.
Proof.
  induction a as [|b a IH]; [done|]. intros [Hb Ha]%list.Forall_cons. pose proof (print_length 3 b ltac:(lia) ltac:(cbn; lia)).
  destruct a as [|b' a]; [cbn [inet_ntoa length]; lia|]. specialize (IH Ha). rewrite inet_ntoa_cons, length_app. cbn [length] in *. lia.
Qed.

(** The address the master writes is the one the others read. *)
Lemma config_roundtrip a env_ip env_port : address_ok a -> env_ip = None \/ env_port = None ->
  rpc_read_config env_ip env_port (Some (config_text a)) = cfg_address a.
Proof.
  intros [Hl Hb Hp] He. pose proof (inet_ntoa_length _ Hb) as Hlen. pose proof (print_length 5 (sin_port a) ltac:(lia) ltac:(cbn; lia)) as Hplen.
  assert (E : scan_config (config_text a) = Some (inet_ntoa (s_addr a), print_Z (sin_port a))).
  { unfold scan_config, config_text. rewrite scan_text_app. cbn [mbind option_bind]. rewrite scan_word_app; [|by apply inet_ntoa_plain| |lia].
    2:{ destruct (s_addr a) as [|b [|b' l]] eqn:Ea; [done|done|]. cbn. intros H. apply app_eq_nil in H as [_ H]. done. }
    cbn [mbind option_bind]. change (skip_space (NL :: ?s)) with (skip_space s). change (skip_space (str "P2TPID=" ++ ?s)) with (str "P2TPID=" ++ s).
    rewrite scan_text_app. cbn [mbind option_bind]. rewrite scan_word_app; [done|apply print_plain; lia|apply print_nonempty; lia|lia]. }
  assert (Ea : config_address (inet_ntoa (s_addr a)) (print_Z (sin_port a)) = cfg_address a).
  { unfold config_address. rewrite inet_roundtrip by done. unfold atoi.
    assert (En : number (print_Z (sin_port a)) = sin_port a) by (rewrite <- (app_nil_r (print_Z _)); apply (number_print [] (sin_port a) []); done || lia).
    rewrite En.
    rewrite (proj2 (Z.leb_le _ _)), (proj2 (Z.ltb_lt _ _)) by lia. cbn. rewrite Z.mod_small by lia. by destruct a. }
  unfold rpc_read_config. rewrite E, decide_True by lia. destruct env_ip, env_port; try done. by destruct He.
Qed.

(** ** The choice of the master *)

(** Where a server is in [ds_boot]: it waits for the lock; it has the lock; it
    writes the file as the master; it is about to release the lock; it reads
    the file; it goes on to [ds_boot_master] or [ds_boot_slave]; it returned
    an error. *)
Inductive boot_state := b_start | b_locked | b_writes | b_releases | b_reads | b_master | b_slave (a : sockaddr_in) | b_failed | b_undefined.

(** What the system calls of [ds_boot] answer. *)
Record answers := mk_answers { an_open : bool; an_stat : bool; an_write : write_result }.

(** [stat_buf.st_size], which is not set when there is no file. *)
Definition st_size (junk : Z) (file : option (list ascii)) : Z := match file with Some s => Z.of_nat (length s) | None => junk end.

(** [ds_boot] up to its next access to the lock or the file.  The result says
    whether the server has the lock then; [None]: it waits for it. *)
Definition ds_boot (env_ip env_port : option (list ascii)) (junk : Z) (me : sockaddr_in) (an : answers) (st : boot_state) (lock_free : bool)
    (file : option (list ascii)) : option (boot_state * bool * option (list ascii)) :=
  match st with
  | b_start => if an_open an then if lock_free then Some (b_locked, true, file) else None else Some (b_failed, false, file)
  | b_locked => if an_stat an then Some (if st_size junk file =? 0 then b_writes else b_releases, true, file) else Some (b_failed, false, file)
  | b_writes => let '(file, rc) := rpc_write_config (an_write an) me file in Some (if rc <? 0 then b_failed else b_master, false, file)
  | b_releases => Some (b_reads, false, file)
  | b_reads =>
      Some (match rpc_read_config env_ip env_port file with cfg_address a => b_slave a | cfg_failed => b_failed | cfg_undefined => b_undefined end, false, file)
  | _ => None
  end.

Record bsys := mk_bsys { y_state : nat -> boot_state; y_lock : option nat; y_conf : option (list ascii) }.

Definition free_lock (y : bsys) : bool := match y_lock y with None => true | Some _ => false end.
Definition new_lock (y : bsys) (i : nat) (has : bool) : option nat :=
  if has then Some i else if decide (y_lock y = Some i) then None else y_lock y.

Section booting.
Context (n : nat) (env_ip env_port : option (list ascii)) (junk : nat -> Z) (addr : nat -> sockaddr_in).
(** What may be answered. *)
Context (fine : answers -> Prop).

Inductive bstep : bsys -> bsys -> Prop :=
  | b_step y i an st has file : (i < n)%nat -> fine an ->
      ds_boot env_ip env_port (junk i) (addr i) an (y_state y i) (free_lock y) (y_conf y) = Some (st, has, file) ->
      bstep y (mk_bsys (<[i := st]> (y_state y)) (new_lock y i has) file).

Definition b_init (conf : option (list ascii)) : bsys := mk_bsys (fun _ => b_start) None conf.

Context (Haddr : forall i, (i < n)%nat -> address_ok (addr i)) (Henv : env_ip = None \/ env_port = None).
Context (Hfine : forall an, fine an -> an_write an <> w_lost).

Definition holds (st : boot_state) : Prop := match st with b_locked | b_writes | b_releases => True | _ => False end.
Definition unwritten (file : option (list ascii)) : Prop := file = None \/ file = Some [].
Definition told (y : bsys) : Prop := exists m, (m < n)%nat /\ y_state y m = b_master /\ y_conf y = Some (config_text (addr m)).
Definition answered (an : answers) : Prop := an_open an = true /\ an_stat an = true /\ an_write an = w_done.

Record binv (y : bsys) : Prop := {
  bi_lock : forall i, holds (y_state y i) <-> y_lock y = Some i;
  bi_out : forall i, (n <= i)%nat -> y_state y i = b_start;
  bi_conf : unwritten (y_conf y) \/ told y;
  bi_junk : y_conf y = None -> forall i, junk i = 0;
  bi_master : forall m, y_state y m = b_master -> y_conf y = Some (config_text (addr m)) /\ forall j, y_state y j = b_master -> j = m;
  bi_writes : forall i, y_state y i = b_writes -> unwritten (y_conf y);
  bi_after : forall i, y_state y i = b_releases \/ y_state y i = b_reads -> told y;
  bi_slave : forall i a, y_state y i = b_slave a -> exists m, y_state y m = b_master /\ a = addr m;
  bi_undef : forall i, y_state y i <> b_undefined;
  bi_failed : (forall an, fine an -> answered an) -> forall i, y_state y i <> b_failed
}.

Lemma told_unwritten y : told y -> ~ unwritten (y_conf y).
Proof. intros (m & _ & _ & E) [H|H]; by rewrite E in H. Qed.

Lemma told_kept y i st has : told y -> y_state y i <> b_master -> told (mk_bsys (<[i := st]> (y_state y)) (new_lock y i has) (y_conf y)).
Proof.
  intros (m & Hm & Hs & Hc) Hi. exists m. split; [done|]. split; [|done]. cbn. rewrite fn_lookup_insert_ne; [done|]. by intros ->.
Qed.

(** The lock after a step. *)
Lemma lock_step y i st has : (forall j, holds (y_state y j) <-> y_lock y = Some j) -> (has = true <-> holds st) ->
  (has = true -> y_lock y = None \/ y_lock y = Some i) ->
  forall j, holds (<[i := st]> (y_state y) j) <-> new_lock y i has = Some j.
Proof.
  intros H Hst Hfree j. unfold new_lock. destruct (decide (j = i)) as [->|Hj].
  - rewrite fn_lookup_insert. rewrite <- Hst. destruct has; [done|]. split; [done|]. destruct (decide _) as [|Hn]; [done|]. done.
  - rewrite fn_lookup_insert_ne, H by done. destruct has.
    + destruct (Hfree eq_refl) as [-> | ->]; split; congruence.
    + destruct (decide (y_lock y = Some i)) as [E|E]; [rewrite E; split; congruence|done].
Qed.

(** A step that leaves the file as it is and makes no master. *)
Lemma keep_file y i st has : binv y -> (i < n)%nat -> y_state y i <> b_master -> st <> b_master -> st <> b_undefined ->
  (has = true <-> holds st) -> (has = true -> y_lock y = None \/ y_lock y = Some i) ->
  (st = b_writes -> unwritten (y_conf y)) -> (st = b_releases \/ st = b_reads -> told y) ->
  (forall a, st = b_slave a -> exists m, y_state y m = b_master /\ a = addr m) ->
  ((forall an, fine an -> answered an) -> st <> b_failed) ->
  binv (mk_bsys (<[i := st]> (y_state y)) (new_lock y i has) (y_conf y)).
Proof.
  intros [I1 I2 I3 IJ I4 I5 I6 I7 I8 I9] Hi Hm Hst Hu H1 H2 H3 H4 H5 H6.
  assert (Hk : forall m, y_state y m = b_master <-> <[i := st]> (y_state y) m = b_master).
  { intros m. destruct (decide (m = i)) as [->|Hne]; [rewrite fn_lookup_insert; tauto|by rewrite fn_lookup_insert_ne]. }
  assert (Hc : forall j x, <[i := st]> (y_state y) j = x -> st = x \/ y_state y j = x).
  { intros j x. destruct (decide (j = i)) as [->|Hne]; [rewrite fn_lookup_insert; auto|rewrite fn_lookup_insert_ne; auto]. }
  split; cbn.
  - by apply lock_step.
  - intros j Hj. rewrite fn_lookup_insert_ne by lia. auto.
  - destruct I3 as [|I3]; [by left|right]. by apply told_kept.
  - done.
  - intros m E. apply Hk in E. destruct (I4 m E) as [? Ho]. split; [done|]. intros j Ej. by apply Ho, Hk.
  - intros j E. apply Hc in E as [E|E]; eauto.
  - intros j E. apply told_kept; [|done]. destruct E as [E|E]; apply Hc in E as [E|E]; eauto.
  - intros j a E. apply Hc in E as [E|E]; [destruct (H5 a E) as (m & Em & Ea)|destruct (I7 j a E) as (m & Em & Ea)]; exists m; (split; [by apply Hk|done]).
  - intros j E. apply Hc in E as [E|E]; [done|]. by apply (I8 j).
  - intros Hg j E. apply Hc in E as [E|E]; [by apply H6|]. by apply (I9 Hg j).
Qed.

(** The server that writes the file. *)
Lemma write_file y i w st file : binv y -> (i < n)%nat -> y_state y i = b_writes -> w <> w_lost ->
  (let '(f, rc) := rpc_write_config w (addr i) (y_conf y) in (f, if rc <? 0 then b_failed else b_master)) = (file, st) ->
  ((forall an, fine an -> answered an) -> w = w_done) ->
  binv (mk_bsys (<[i := st]> (y_state y)) (new_lock y i false) file).
Proof.
  intros [I1 I2 I3 IJ I4 I5 I6 I7 I8 I9] Hi Hw Hlost E Hg. pose proof (I5 i Hw) as Hun.
  assert (Hnm : forall m, y_state y m <> b_master) by (intros m Em; destruct (I4 m Em) as [Et _]; destruct Hun as [H|H]; by rewrite Et in H).
  assert (Hnt : ~ told y) by (intros (m & _ & Em & _); by apply (Hnm m)).
  assert (Hst : st = b_failed /\ unwritten file /\ w <> w_done \/ st = b_master /\ file = Some (config_text (addr i))).
  { destruct w; cbn in E; injection E as <- <-; [left|left|done|right]; [by split|split; [done|split; [by right|done]]|done]. }
  assert (Hlock : forall j, holds (<[i := st]> (y_state y) j) <-> new_lock y i false = Some j).
  { apply lock_step; [done| |done]. destruct Hst as [[-> _]|[-> _]]; done. }
  assert (Ho : forall j x, <[i := st]> (y_state y) j = x -> j = i /\ st = x \/ j <> i /\ y_state y j = x).
  { intros j x. destruct (decide (j = i)) as [->|Hne]; [rewrite fn_lookup_insert; auto|rewrite fn_lookup_insert_ne; auto]. }
  assert (Hself : forall j, holds (y_state y j) -> j = i).
  { intros j Hj. apply I1 in Hj. assert (Hi' : holds (y_state y i)) by (by rewrite Hw). apply I1 in Hi'. congruence. }
  split; cbn.
  - done.
  - intros j Hj. rewrite fn_lookup_insert_ne by lia. auto.
  - destruct Hst as [(_ & ? & _)|[Es Ef]]; [by left|right]. exists i. split; [done|]. split; [cbn; by rewrite fn_lookup_insert|done].
  - destruct w; cbn in E; injection E as <- _; [exact IJ|done..].
  - intros m E'. apply Ho in E' as [[-> Es]|[Hne Em]]; [|by destruct (Hnm m)]. destruct Hst as [[? _]|[_ Ef]]; [congruence|]. split; [done|].
    intros j Ej. apply Ho in Ej as [[-> _]|[Hne Ej]]; [done|by destruct (Hnm j)].
  - intros j E'. apply Ho in E' as [[-> Es]|[Hne Ej]]; [destruct Hst as [[? _]|[? _]]; congruence|]. destruct Hne. apply Hself. by rewrite Ej.
  - intros j E'. destruct E' as [E'|E']; apply Ho in E' as [[-> Es]|[Hne Ej]]; try (destruct Hst as [[? _]|[? _]]; congruence); destruct Hnt; eauto.
  - intros j a E'. apply Ho in E' as [[-> Es]|[Hne Ej]]; [destruct Hst as [[? _]|[? _]]; congruence|]. destruct (I7 j a Ej) as (m & Em & _). by destruct (Hnm m).
  - intros j E'. apply Ho in E' as [[-> Es]|[Hne Ej]]; [destruct Hst as [[? _]|[? _]]; congruence|]. by apply (I8 j).
  - intros Hgood j E'. apply Ho in E' as [[-> Es]|[Hne Ej]]; [|by apply (I9 Hgood j)]. destruct Hst as [(_ & _ & Hd)|[? _]]; [by apply Hd, Hg|congruence].
Qed.

Lemma step_binv y y' : bstep y y' -> binv y -> binv y'.
Proof.
  intros [y0 i an st has file Hi Hf E] I. pose proof I as [I1 I2 I3 IJ I4 I5 I6 I7 I8 I9].
  unfold ds_boot in E. destruct (y_state y0 i) eqn:Es; try done.
  - destruct (an_open an) eqn:Eo.
    + unfold free_lock in E. destruct (y_lock y0) eqn:El; [done|]. injection E as <- <- <-. apply keep_file; try done; try congruence; [auto|]. by intros [?|?].
    + injection E as <- <- <-. apply keep_file; try done; try congruence; [by intros [?|?]|]. intros Hg. destruct (Hg an Hf). congruence.
  - assert (El : y_lock y0 = Some i) by (apply I1; by rewrite Es). destruct (an_stat an) eqn:Ea.
    + injection E as <- <- <-. destruct (Z.eqb_spec (st_size (junk i) (y_conf y0)) 0) as [Ez|Ez]; apply keep_file; try done; try congruence; auto; [| |].
      * intros _. unfold st_size in Ez. destruct (y_conf y0) as [[|c s]|]; [by right|cbn in Ez; lia|by left].
      * by intros [?|?].
      * intros _. destruct I3 as [[Hc|Hc]|?]; [|by rewrite Hc in Ez|done]. rewrite Hc in Ez. cbn in Ez. by rewrite (IJ Hc) in Ez.
    + injection E as <- <- <-. apply keep_file; try done; try congruence; [by intros [?|?]|]. intros Hg. destruct (Hg an Hf) as (_ & ? & _). congruence.
  - destruct (rpc_write_config (an_write an) (addr i) (y_conf y0)) as [f rc] eqn:Ew. injection E as <- <- <-.
    eapply (write_file y0 i (an_write an)); [done|done|done|by apply Hfine|by rewrite Ew|]. intros Hg. by apply Hg.
  - injection E as <- <- <-. apply keep_file; try done; try congruence. intros _. apply (I6 i). by left.
  - injection E as <- <- <-. destruct (I6 i ltac:(by right)) as (m & Hm & Em & Ec).
    assert (Er : rpc_read_config env_ip env_port (y_conf y0) = cfg_address (addr m)) by (rewrite Ec; apply config_roundtrip; auto).
    rewrite Er. apply keep_file; try done; try congruence; [by intros [?|?]|]. intros a [= <-]. by exists m.
Qed.

Lemma init_binv conf : unwritten conf -> (conf = None -> forall i, junk i = 0) -> binv (b_init conf).
Proof. intros H Hj. split; try done; auto. by intros i [?|?]. Qed.

Lemma reach_binv conf y : unwritten conf -> (conf = None -> forall i, junk i = 0) -> rtc bstep (b_init conf) y -> binv y.
Proof.
  intros Hc Hj H. assert (I : binv (b_init conf)) by (by apply init_binv). induction H as [|y1 y2 y3 Hs _ IH]; [done|]. apply IH. by eapply step_binv.
Qed.

(** A server that has not finished can go on, unless another has the lock. *)
Lemma finished_or_step y an : binv y -> fine an -> answered an -> (forall y', ~ bstep y y') ->
  forall i, (i < n)%nat -> y_state y i = b_master \/ (exists a, y_state y i = b_slave a) \/ y_state y i = b_failed.
Proof.
  intros I Hf (A1 & A2 & A3) Hno. assert (Hlock : y_lock y = None).
  { destruct (y_lock y) as [i|] eqn:El; [|done]. apply (bi_lock y I) in El. destruct (decide (i < n)%nat) as [Hi|Hi]; [|by rewrite (bi_out y I) in El by lia].
    destruct (y_state y i) eqn:Es; try done.
    - destruct (Hno _ (b_step y i an _ _ _ Hi Hf ltac:(rewrite Es; unfold ds_boot; rewrite A2; reflexivity))).
    - destruct (Hno _ (b_step y i an _ _ _ Hi Hf ltac:(rewrite Es; unfold ds_boot; rewrite A3; reflexivity))).
    - destruct (Hno _ (b_step y i an _ _ _ Hi Hf ltac:(rewrite Es; reflexivity))). }
  intros i Hi. destruct (y_state y i) eqn:Es; eauto.
  - destruct (Hno _ (b_step y i an _ _ _ Hi Hf ltac:(rewrite Es; unfold ds_boot, free_lock; rewrite A1, Hlock; reflexivity))).
  - assert (El : y_lock y = Some i) by (apply (bi_lock y I); by rewrite Es). congruence.
  - assert (El : y_lock y = Some i) by (apply (bi_lock y I); by rewrite Es). congruence.
  - assert (El : y_lock y = Some i) by (apply (bi_lock y I); by rewrite Es). congruence.
  - destruct (Hno _ (b_step y i an _ _ _ Hi Hf ltac:(rewrite Es; reflexivity))).
  - by destruct (bi_undef y I i).
Qed.

End booting.

(** C26: when servers start over TCP, in every order of their accesses to the
    lock and the file: at most one becomes the master, and every other that
    goes on has read the address of the master, also when calls fail.  When
    none fails and no server can go on, exactly one is the master and all
    others have its address.  This needs that the file is missing or empty at
    the start; when it is missing, that the [st_size] which [stat] then leaves
    unset happens to be 0 in every server; that [fclose] does not lose the
    text; that the variables P2TNID and P2TPID are not both set; and proper
    addresses. *)
Theorem tcp_one_master n env_ip env_port junk addr fine conf y :
  (forall i, (i < n)%nat -> address_ok (addr i)) -> env_ip = None \/ env_port = None -> (forall an, fine an -> an_write an <> w_lost) ->
  conf = Some [] \/ conf = None /\ (forall i, junk i = 0) -> rtc (bstep n env_ip env_port junk addr fine) (b_init conf) y ->
  (forall i j, y_state y i = b_master -> y_state y j = b_master -> i = j) /\
  (forall i a, y_state y i = b_slave a -> exists m, y_state y m = b_master /\ a = addr m) /\
  (forall i, y_state y i <> b_undefined) /\
  ((0 < n)%nat -> (exists an, fine an) -> (forall an, fine an -> answered an) -> (forall y', ~ bstep n env_ip env_port junk addr fine y y') ->
   exists m, (m < n)%nat /\ y_state y m = b_master /\ forall i, (i < n)%nat -> i <> m -> y_state y i = b_slave (addr m)).
Proof.
  intros Haddr Henv Hfine Hc Hr. assert (I : binv n junk addr fine y).
  { apply (reach_binv n env_ip env_port junk addr fine Haddr Henv Hfine conf y); [|by intros ->; destruct Hc as [|[_ ?]]|done].
    destruct Hc as [|[? _]]; [by right|by left]. }
  clear Hc. split; [|split; [|split]].
  - intros i j Ei Ej. by apply (bi_master _ _ _ _ y I j).
  - apply (bi_slave _ _ _ _ y I).
  - apply (bi_undef _ _ _ _ y I).
  - intros Hn [an Hf] Hg Hno. pose proof (finished_or_step n env_ip env_port junk addr fine y an I Hf (Hg an Hf) Hno) as Hfin.
    assert (Hm : exists m, (m < n)%nat /\ y_state y m = b_master).
    { assert (Hx : exists m, y_state y m = b_master).
      { destruct (Hfin 0%nat Hn) as [?|[[a Ea]|?]]; [eauto| |by destruct (bi_failed _ _ _ _ y I Hg 0%nat)]. destruct (bi_slave _ _ _ _ y I 0%nat a Ea) as (m & ? & _). eauto. }
      destruct Hx as [m Em]. exists m. split; [|done]. destruct (decide (m < n)%nat) as [|Hge]; [done|]. by rewrite (bi_out _ _ _ _ y I) in Em by lia. }
    destruct Hm as (m & Hm & Em). exists m. split; [done|]. split; [done|]. intros i Hi Hne.
    destruct (Hfin i Hi) as [Ei|[[a Ea]|Ef]]; [by destruct Hne; apply (bi_master _ _ _ _ y I m)| |by destruct (bi_failed _ _ _ _ y I Hg i)].
    destruct (bi_slave _ _ _ _ y I i a Ea) as (m' & Em' & ->). rewrite Ea. f_equal. f_equal. by apply (bi_master _ _ _ _ y I m).
Qed.

(** *** Two servers *)

Definition boot_exec (junk : Z) (addr : nat -> sockaddr_in) (an : answers) (i : nat) (y : bsys) : option bsys :=
  '(st, has, file) ← ds_boot None None junk (addr i) an (y_state y i) (free_lock y) (y_conf y);
  Some (mk_bsys (<[i := st]> (y_state y)) (new_lock y i has) file).

Fixpoint boot_run (junk : Z) (addr : nat -> sockaddr_in) (an : answers) (l : list nat) (y : bsys) : option bsys :=
  match l with [] => Some y | i :: l => y ← boot_exec junk addr an i y; boot_run junk addr an l y end.

Lemma boot_run_rtc n junk addr an l : Forall (fun i => (i < n)%nat) l -> forall y y', boot_run junk addr an l y = Some y' ->
  rtc (bstep n None None (fun _ => junk) addr (eq an)) y y'.
Proof.
  induction 1 as [|i l Hi _ IH]; intros y y' E; cbn in E; [injection E as <-; apply rtc_refl|]. unfold boot_exec in E.
  destruct (ds_boot _ _ _ _ _ _ _ _) as [[[st has] file]|] eqn:Eb; [|done]. cbn [mbind option_bind] in E. eapply rtc_l; [|by apply IH].
  by apply (b_step n None None (fun _ => junk) addr (eq an) y i an st has file).
Qed.

Definition demo_addr (i : nat) : sockaddr_in := mk_sockaddr [10; 0; 0; Z.of_nat i] 50000.
Definition demo_answers : answers := mk_answers true true w_done.
(** The second server is faster. *)
Definition demo_boot : bsys := default (b_init None) (boot_run 0 demo_addr demo_answers [1; 1; 1; 0; 0; 0; 0]%nat (b_init None)).

Lemma demo_boot_reach : rtc (bstep 2 None None (fun _ => 0) demo_addr (eq demo_answers)) (b_init None) demo_boot.
Proof. apply (boot_run_rtc 2 0 demo_addr demo_answers [1; 1; 1; 0; 0; 0; 0]%nat); [repeat constructor; lia|]. unfold demo_boot.
  destruct (boot_run _ _ _ _ _) eqn:E; [done|]. by vm_compute in E. Qed.

Lemma demo_addr_ok i : (i < 2)%nat -> address_ok (demo_addr i).
Proof. intros Hi. split; cbn; [done|repeat constructor; lia|lia]. Qed.

Lemma demo_boot_states : y_state demo_boot 0%nat = b_slave (demo_addr 1) /\ y_state demo_boot 1%nat = b_master.
Proof. split; by vm_compute. Qed.

Lemma demo_boot_ends y' : ~ bstep 2 None None (fun _ => 0) demo_addr (eq demo_answers) demo_boot y'.
Proof.
  destruct demo_boot_states as [E0 E1]. revert E0 E1. generalize demo_boot. intros y0 E0 E1 Hs.
  inversion Hs as [y i an st has file Hi _ E]; subst y.
  destruct i as [|[|i]]; [by rewrite E0 in E|by rewrite E1 in E|lia].
Qed.

Lemma tcp_one_master_witness : y_state demo_boot 1 = b_master /\ y_state demo_boot 0 = b_slave (demo_addr 1).
Proof.
  destruct (tcp_one_master 2 None None (fun _ => 0) demo_addr (eq demo_answers) None demo_boot demo_addr_ok (or_introl eq_refl)
    ltac:(by intros an <-) ltac:(by right) demo_boot_reach) as (_ & _ & _ & H).
  destruct H as (m & Hm & Em & Hs); [lia|by exists demo_answers|by intros an <-|exact demo_boot_ends|].
  destruct demo_boot_states as [E0 E1]. destruct m as [|[|m]]; [by rewrite E0 in Em| |lia]. split; [exact Em|]. apply (Hs 0%nat); lia.
Defined.

(** *** Where it does not hold *)

(** [fclose] writes the text, and its result is not looked at: when it fails
    the file stays empty, and the next server becomes a master too. *)
Definition both (y : bsys) : boot_state * boot_state := (y_state y 0%nat, y_state y 1%nat).

Lemma lost_text_two_masters : both <$> boot_run 0 demo_addr (mk_answers true true w_lost) [0; 0; 0; 1; 1; 1]%nat (b_init None) = Some (b_master, b_master).
Proof. by vm_compute. Qed.

(** When the file does not exist [stat] fails and [st_size] is what the stack
    held: with anything but 0 there, no server becomes the master. *)
Lemma unset_size_no_master : both <$> boot_run 4096 demo_addr demo_answers [0; 0; 0; 0; 1; 1; 1; 1]%nat (b_init None) = Some (b_failed, b_failed).
Proof. by vm_compute. Qed.

(** With the file of an earlier run all servers take themselves for others. *)
Lemma old_file_no_master : both <$> boot_run 0 demo_addr demo_answers [0; 0; 0; 0; 1; 1; 1; 1]%nat (b_init (Some (config_text (demo_addr 7)))) =
  Some (b_slave (demo_addr 7), b_slave (demo_addr 7)).
Proof. by vm_compute. Qed.
